(* ===== verification/_CoqProject ===== *)
-Q . S2P
Prelude.v
CameraRing.v
CameraRecorder.v
CameraMessage.v
NgxNumber.v
NgxPrintf.v
NgxBase64.v
NgxEscape.v
NgxTime.v
NgxMachine.v
NgxRequestLine.v
NgxComplexUri.v
NgxHttpRequest.v
NgxHeaderLine.v
NgxStatusLine.v
NgxRange.v
NgxChunked.v
NgxChunkedBody.v
NgxMp4.v
NgxMp4Seek.v
NgxMp4Response.v
NgxSort.v
NgxRbtree.v
NgxRbtreeRep.v
NgxRbtreeInsert.v
NgxRbtreeDelete.v
NgxRbtreeOrder.v
NgxEventTimer.v
NgxCrc32.v
NgxStringCmp.v
NgxSlabClass.v
NgxSlab.v
NgxSlabRings.v
NgxSlabChunks.v
NgxSlabInv.v
NgxSlabRun.v
NgxSlabFree.v
NgxSlabSpec.v
NgxSlabPool.v
NgxLimitReq.v
NgxLimitReqZone.v
NgxLimitReqLru.v
NgxLimitReqRoom.v
NgxLimitReqWorkers.v
NgxLimitReqRate.v
NgxLimitReqHandler.v
NgxRoundRobin.v
NgxRoundRobinFair.v
NgxLocation.v
NgxLocationTree.v
NgxLocationFind.v
NgxLocationServer.v
NgxLocationAsked.v
NgxLocationConfig.v
NgxLimitReqConf.v
NgxLimitConn.v
NgxLimitConnZone.v
NgxLimitConnHandler.v
NgxHash.v
NgxHashInit.v
NgxHashNames.v
NgxHashWildcard.v
NgxServerNames.v
NgxPhases.v
NgxPhasesRun.v
NgxPhasesAccess.v
NgxRadixTree.v
NgxRadixTreeRun.v
NgxRadixTreeMap.v
NgxInet.v
NgxInetText.v
NgxInetCidr.v
NgxUrl.v
NgxAccess.v
NgxPhasesServer.v
NgxConfFile.v
NgxConfRead.v
NgxConfText.v
NgxConfParse.v
NgxConfSlots.v
