(* ===== verification/Prelude.v ===== *)
(** * Verification of the C code of xhome

    xhome is a home-camera system.  A camera (src/camera) records frames,
    queues them for a sender thread and takes commands over a control channel;
    a controller (src/control, Java) connects cameras and applications; a live
    server (src/live, C++) receives the streams and cuts them into files; a
    video-on-demand server (src/vod, nginx 1.2.9, C) serves these files over
    HTTP; the application (src/app) plays them.  This library models the C code
    that carries the data on that way: the frame ring, the recorder and the
    control channel of the camera, and the part of the video server that stands
    between the bytes a client sends and the bytes it gets, that is the parsers
    and encoders, the choice of a server, of a location and of an upstream
    server, the phases a request goes through with the limits and the rules for
    its client, the seeking in MP4 files, the filters for byte ranges and
    chunked bodies, and the containers and addresses under them.  Paths below are relative to
    src/camera and to src/vod/nginx-1.2.9/src; a definition has the name of the
    function or type it translates.

    ** Conventions

    A C function is a Rocq function: its inputs and the state it changes are
    arguments, its outputs and the new state the result.  The target is LP64,
    little-endian, with wrapping arithmetic: a w-bit integer is a Z, and
    [wrapU w] and [wrapS w] stand where the code stores into a variable of that
    width.  A string or a buffer is a list of byte codes and a pointer into it
    an offset (or what is left of the list).  [outcome] is the result of code
    that can go wrong: [Ret], [Undefined] for an access outside the object the
    code owns, [NoFuel] for a loop that was given too little fuel.  Allocation
    succeeds, except in the control channel, where malloc is a parameter, and in
    the zones of the limiters, whose slab pool can be full.
    The WIN32 branches and the debug log are left out.

    Character and string literals are written ["a"%c] and [$"GET"]; both are
    numbers to the kernel.  Records of C structures have one setter per field,
    made by [record_set].

    ** Files

    - Prelude: literals, machine integers, outcomes, little-endian encodings,
      the tactics [boolify], [case_if], [split_ifs] and [record_set], and the
      hint database [xh].
    - CameraRing: interface.c and commonData.h.  Module [Ring] has the ring as
      a record (the array, the three cursors, the semaphore) and the code of
      myallocate, myfree, discardFrame, pushFrame and popFrame; module [Fifo]
      the abstract queue; [repr] and [linear] relate them.  [thread_step] is
      the step relation of producers and consumers, with the mutex and the
      semaphore.
    - CameraRecorder: AVdataTransfer.c, the loop that writes popped frames to a
      file.
    - CameraMessage: MessageHandler.c and .h.  The sockets are the class [Net]
      with laws [NetLaws]; module [Message] has getMsg, sendMsg, pollMsg and
      the loop of the handler thread; module [Stream] is an instance with byte
      queues, which discharges the laws.
    - NgxNumber: ngx_atoi and its variants, ngx_hextoi, ngx_hex_dump and
      ngx_sprintf_num of core/ngx_string.c; core/ngx_parse.c (sizes, offsets
      and times of the configuration).
    - NgxPrintf: ngx_vslprintf and its callers, core/ngx_string.c.
    - NgxBase64, NgxEscape: the encoders and decoders of core/ngx_string.c.
    - NgxTime: ngx_gmtime and ngx_http_time of core/ngx_times.c and
      http/ngx_http_parse_time.c.
    - NgxMachine: the shape of the incremental parsers of
      http/ngx_http_parse.c, the class [ByteMachine] with its law, and the loop
      of the caller that feeds a parser.
    - NgxRequestLine, NgxHeaderLine, NgxStatusLine: the three parsers, one
      definition per state, each an instance of [ByteMachine].
    - NgxComplexUri: ngx_http_parse_complex_uri and ngx_http_parse_unsafe_uri.
    - NgxHttpRequest: what ngx_http_process_request_line of
      http/ngx_http_request.c makes of an accepted line, which puts the parser
      and the normaliser together, and ngx_http_validate_host.
    - NgxRange: http/modules/ngx_http_range_filter_module.c, both filters, with
      the dates of NgxTime and the prints of NgxPrintf.
    - NgxChunked, NgxChunkedBody: http/modules/ngx_http_chunked_filter_module.c
      and the body filters of http/modules/ngx_http_proxy_module.c.  The first
      has the code, on the machine of NgxMachine; the second a byte-by-byte
      reading ([decode]), the grammar of a chunked body ([message]) and the
      proofs.
    - NgxMp4, NgxMp4Seek, NgxMp4Response: http/modules/ngx_http_mp4_module.c:
      the atoms and the tables of the tracks, what cropping a table does, and
      the response.
    - NgxSort: ngx_sort of core/ngx_string.c, and the sort and the middle of
      core/ngx_queue.c, with their laws.
    - NgxRbtree: core/ngx_rbtree.c, field access by field access on a memory of
      nodes.  NgxRbtreeRep relates the memory to functional trees, NgxRbtreeInsert
      and NgxRbtreeDelete are the two operations, NgxRbtreeOrder their sequences.
    - NgxEventTimer: event/ngx_event_timer.c, on that tree.
    - NgxSlab: core/ngx_slab.c, the allocator of shared memory, with the lists of
      pages in the memory of their descriptors.  NgxSlabRings has these lists,
      NgxSlabChunks the chunks of a page and their bits, NgxSlabInv
      the invariant of a pool and its pages, NgxSlabRun the allocation,
      NgxSlabFree the freeing, NgxSlabSpec the sequences of both.  NgxSlabClass
      states what the limiters need of a pool: the classes [SlabPool], [SlabLaws]
      and [SlabRoom]; NgxSlabPool makes the allocator an instance of all three.
    - NgxCrc32, NgxStringCmp: core/ngx_crc32.c, and ngx_memn2cmp of
      core/ngx_string.c.
    - NgxLimitReq: http/modules/ngx_http_limit_req_module.c, whose zone is a
      red-black tree, a queue and a slab pool (the class [SlabPool] above).
      NgxLimitReqZone has the invariant of a zone, NgxLimitReqLru the refinement
      of a list of accounts, NgxLimitReqWorkers the workers that share a zone,
      NgxLimitReqRoom the pools that have room for the clients, NgxLimitReqRate
      the rate, NgxLimitReqHandler the handler with several limits,
      NgxLimitReqConf the directives.
    - NgxLimitConn: http/modules/ngx_http_limit_conn_module.c, with the same tree
      and pool; NgxLimitConnZone has the references of a zone and its workers,
      NgxLimitConnHandler the handler.
    - NgxRoundRobin, NgxRoundRobinFair: http/ngx_http_upstream_round_robin.c,
      its invariants, and the fairness of the weights.
    - NgxLocation: the location directive, the queue, the list and the tree of
      the locations of http/ngx_http.c, and the search of
      http/ngx_http_core_module.c.  NgxLocationTree proves the tree against a
      list of names, NgxLocationFind one level of locations against [choice],
      NgxLocationServer a whole server against [located], which follows the code
      also where it departs from the documented rule; NgxLocationAsked has that
      rule ([asked]) and when the two agree ([ruled]), and NgxLocationConfig puts
      the reading of the blocks in front of it.
    - NgxHash: core/ngx_hash.c.  NgxHashInit has the hash of exact names,
      NgxHashNames and NgxHashWildcard the hashes of wildcard names, and
      NgxServerNames puts them together as the names of servers of
      http/ngx_http.c and the search of http/ngx_http_request.c.
    - NgxPhases: the phase engine, ngx_http_init_phase_handlers of http/ngx_http.c
      and the checkers and the loop of http/ngx_http_core_module.c, over the
      handlers of the modules (the laws [PhaseLaws] and [AccessLaws]).
      NgxPhasesRun relates a run of the table to a run through the phases,
      NgxPhasesAccess follows the access phase, and NgxPhasesServer puts the
      locations, the request limiter and the access module into it.
    - NgxRadixTree: core/ngx_radix_tree.c on a memory of nodes; NgxRadixTreeRun
      relates it to a map of prefixes, NgxRadixTreeMap has the sequences of
      operations.
    - NgxInet: the addresses and networks of core/ngx_inet.c.  NgxInetText has
      their texts, NgxInetCidr the networks as prefixes, NgxUrl the addresses of
      the directives (ngx_parse_url).
    - NgxAccess: http/modules/ngx_http_access_module.c, on these networks.
    - NgxConfFile: the reader of core/ngx_conf_file.c, with the code of a module
      as a program that may call the reader again.  NgxConfRead relates it to a
      reader without a buffer, NgxConfText has the spellings of words and the
      comments, NgxConfParse the configurations of nested directives and what
      the modules do with them ([runs]); NgxConfSlots the slot functions.

    ** What is proved

    - Camera: the ring is a first-in first-out queue in every interleaving of the
      threads under the conditions the code relies on; what happens when it is
      full; on a network that keeps the bytes in order a message sent is the
      message received, and one poll answers what the protocol says.  Three theorems state where the code fails these conditions (an
      empty ring that wraps, an oversized frame, the handler polling the
      global descriptor), one states which messages are never freed.
    - Request: the parser of the request line accepts every well-formed line
      with the right parts, accepts nothing malformed, and gives the same
      result however the line arrives in pieces; the same for header and
      status lines.  The normaliser computes the resolution of the segments,
      independently of how the bytes are escaped, and leaves no dot segment
      that a slash follows.  Together: the path of every accepted request
      without a blank in the URI is safe; with a blank it is not
      (CVE-2013-4547), which is a theorem too.
    - Response: the ranges of a Range header are read right and stay in the
      body when their sizes fit in an off_t, and need not when they do not
      (CVE-2017-7529); the body of one range is exactly its bytes, of several
      the multipart text announced; the printed headers fit their memory.
      A chunked body is read to its content however it is cut into buffers, and
      what the filter writes is read back; a size that overflows is a theorem
      of its own.  An MP4 file is served from the chunk and the sample that the
      start time asks for, with tables that describe exactly what follows; two
      theorems state which files are refused or never end.
    - Choice: a URI gets the location of the documented rule, exact before
      regular expression before longest prefix, through sort, join, nesting and
      tree; examples show the three places where the code departs from it
      (redirections, names inside an expression, blocks inside an empty name),
      which the theorem excludes; a duplicate is refused; a name of 256 bytes takes every
      URI.  In a round of requests every upstream server is taken as often as
      its weight says, the weights stay in their bounds in every reachable
      state, and retries end.
      The name of a host gets the server that has it, exact before the longest
      wildcard name at its front before that at its end before regular
      expressions, through the three hashes, which are built inside their memory.
    - Phases: a run of the phase table ends and is the run through the phases in
      their order, with the rewrites and redirections bounded; a content handler
      is called only after the access phase of the location it serves has let
      the request pass; the access module decides by its first rule that has
      the client's address.
    - Configuration: a file is read to the directives it spells, through its
      blocks and the files it includes, and the modules run on them in their
      order; the buffer has no effect but its length on the longest word.
    - Limits: in any time the requests of a key that pass are at most the burst
      and what the rate allows, and a client within the rate is never held back,
      as long as the slab pool has a page for every client; a request is charged to all its limits or to none, and the zone keeps its
      invariant whatever the order of the workers.  The connections of a key
      never exceed its limit, and a refused request leaves no trace.
    - Containers: after every sequence of insertions and deletions the red-black
      tree has its nodes in order and logarithmic height; timers fire in the
      order of their due times, over the wrap of the clock; the radix tree is a
      map from prefixes with the longest prefix found (the empty prefix, whose
      deletion follows a null pointer, is not deleted); a hash of names is made
      exactly when they fit, for buckets whose 16-bit sizes do not wrap.  The
      blocks of the slab allocator lie in its pool and never overlap, and a block
      of at most a page is refused only when there is one for every page.
    - Addresses: a network in CIDR notation is the prefix of its bits, the others
      cleared and reported; the text of a socket address is read back to it
      (255.255.255.255 is not, since its number stands for an error).
    - Encoders: round trips of Base64, URI escaping and dates; the calendar of
      ngx_gmtime; bounded printing is the prefix that fits; the table-driven
      CRC-32 is the division it stands for.

    ** Fuel

    The digit loops get 64 rounds, more than the digits of a 64-bit number
    ([dec_digits_spec], [hex_digits_spec] show the loop ends before).  The
    loops over a text get one round more than it has bytes, and each round
    consumes one ([loop_fuel], [range_loop_fuel] and the theorems that use
    them; ngx_parse_time in [parse_time_parts]).  myallocate recurses at most
    once when the frame fits, so the theorems on the ring take two rounds or
    as many as there are frames to drop.  For a frame larger than the array no
    fuel is enough, which is a theorem.  The atoms of an MP4 file take a round
    for every eight bytes; an atom of size zero takes no byte, and that no fuel
    is enough for it is a theorem.  The retries of a request end after as many
    rounds as there are servers.  The nested list and the tree of locations get
    a round per location, the recursion into nested locations one per level
    ([height]); the chunked filters one more than the buffer has bytes.  The
    loops of the red-black tree go along one path and get the number of its nodes
    and two; the expiry of timers one more than there are nodes; the limiter
    expires at most three accounts.  The loops over the lists of pages get one
    more than the number of descriptors and heads, which no list exceeds.  The wildcard hashes recurse once per label
    and get the sum of the lengths of the keys and two, their searches one more
    than the length of the name.  The phase engine gets a round per entry of its
    table, and one more, for each of the eleven changes of the URI that a request
    may have.  The walks in a radix tree take a round per bit of the key; the
    printer of IPv6 addresses one per group.  The reader of the configuration
    takes a round per byte of the file; its loop over the directives has a bound
    for every configuration whose modules end (files can include each other
    without end).

    ** What is not modelled

    The ffmpeg glue of the camera, which calls a library; of nginx the event
    loop and the operating-system layer, which are system calls; the directives
    other than those above; the memory pools; the output chain, the upstream
    connections, the resolver and the cache; the other modules, and mail; the C++
    and Java parts.  Of what is modelled in part, the argument and header-list
    functions that end http/ngx_http_parse.c and the UTF-8 functions of
    core/ngx_string.c are left out. *)

From stdpp Require Export base list gmap.
From Stdlib Require Export ZArith Lia.
From Stdlib Require Import Strings.Byte.

#[global] Open Scope Z_scope.

(** * Notation *)

(** Character literals: ["a"%c] is the Z code of the byte, expanded when it is
    read, so that [lia] and pattern matching see a number. *)
Declare Scope c_scope.
Delimit Scope c_scope with c.

Definition char_of_literal (l : list Byte.byte) : option Z :=
  match l with
  | [b] => Some (Z.of_N (Byte.to_N b))
  | _ => None
  end.

Definition literal_of_char (_ : Z) : option (list Byte.byte) := None.

String Notation Z char_of_literal literal_of_char : c_scope.

(** String literals: ["GET"%bs] is the list of the byte codes. *)
Inductive byte_string := ByteString (codes : list Z).

Definition codes_of (s : byte_string) : list Z := let 'ByteString l := s in l.

Definition bytes_of_literal (l : list Byte.byte) : byte_string :=
  ByteString (map (fun b => Z.of_N (Byte.to_N b)) l).

Definition literal_of_bytes (_ : byte_string) : option (list Byte.byte) := None.

Declare Scope bs_scope.
Delimit Scope bs_scope with bs.
Bind Scope bs_scope with byte_string.
String Notation byte_string bytes_of_literal literal_of_bytes : bs_scope.

Notation "$ s" := (codes_of s%bs) (at level 1, s at level 0, only parsing) : Z_scope.

(** * Machine integers

    A w-bit integer is a Z; the wrap-around is written where the C code stores
    into a variable of that width.  Signed overflow wraps (two's complement,
    the behaviour the overflow tests of the C code rely on). *)

Definition wrapU (w z : Z) : Z := z mod 2 ^ w.

Definition wrapS (w z : Z) : Z := (z + 2 ^ (w - 1)) mod 2 ^ w - 2 ^ (w - 1).

Definition NGX_OK : Z := 0.
Definition NGX_ERROR : Z := -1.
Definition NGX_AGAIN : Z := -2.
Definition NGX_BUSY : Z := -3.
Definition NGX_DONE : Z := -4.
Definition NGX_DECLINED : Z := -5.
Definition NGX_MAX_INT32_VALUE : Z := 2147483647.

(** * Bytes *)

Definition is_byte (b : Z) : Prop := 0 <= b < 256.

Definition bytes_ok (l : list Z) : Prop := Forall is_byte l.

#[global] Instance is_byte_dec b : Decision (is_byte b).
Proof. unfold is_byte. apply _. Defined.

(** * Outcomes of C code that can go wrong

    [Undefined] is an access outside the object the code owns; [NoFuel] says
    that the fuel of a loop ran out, and is only ever a property of the fuel. *)

Inductive outcome (A : Type) : Type :=
| Ret (a : A)
| Undefined
| NoFuel.

Arguments Ret {A} a.
Arguments Undefined {A}.
Arguments NoFuel {A}.

Definition outcome_bind {A B} (c : outcome A) (k : A -> outcome B) : outcome B :=
  match c with
  | Ret a => k a
  | Undefined => Undefined
  | NoFuel => NoFuel
  end.

Notation "'let!' x := c 'in' k" := (outcome_bind c (fun x => k))
  (at level 10, x pattern, c at level 100, k at level 200) : Z_scope.

#[global] Instance outcome_eq_dec {A} `{EqDecision A} : EqDecision (outcome A).
Proof. solve_decision. Defined.

(** * Tactics *)

(** Turns the boolean tests of the code into propositions that [lia] reads. *)
Ltac boolify :=
  repeat match goal with
  | H : (_ && _)%bool = true |- _ => apply andb_true_iff in H as [? ?]
  | H : (_ || _)%bool = false |- _ => apply orb_false_iff in H as [? ?]
  | H : (_ && _)%bool = false |- _ => apply andb_false_iff in H as [?|?]
  | H : (_ || _)%bool = true |- _ => apply orb_true_iff in H as [?|?]
  | H : negb _ = true |- _ => apply negb_true_iff in H
  | H : negb _ = false |- _ => apply negb_false_iff in H
  | H : (_ <=? _) = true |- _ => apply Z.leb_le in H
  | H : (_ <=? _) = false |- _ => apply Z.leb_gt in H
  | H : (_ <? _) = true |- _ => apply Z.ltb_lt in H
  | H : (_ <? _) = false |- _ => apply Z.ltb_ge in H
  | H : (_ =? _) = true |- _ => apply Z.eqb_eq in H
  | H : (_ =? _) = false |- _ => apply Z.eqb_neq in H
  | H : (_ >=? _) = _ |- _ => rewrite Z.geb_leb in H
  | H : (_ >? _) = _ |- _ => rewrite Z.gtb_ltb in H
  end.

(** Case split on the outermost test of the goal, keeping the equation. *)
Ltac case_if E :=
  match goal with
  | |- context [if ?b then _ else _] => destruct b eqn:E
  end.

(** Splits every test of the goal and closes what arithmetic closes. *)
Ltac split_ifs :=
  repeat (let E := fresh "E" in case_if E; boolify); try lia.

(** [record_set eta f v r] is the record [r] with its field [f] replaced by [v],
    where [eta] rebuilds a record from its fields. *)
Ltac record_set eta f v r :=
  let e := eval unfold eta in eta in
  let t := eval pattern f in e in
  match t with
  | ?g _ => let u := eval cbv beta in (g (fun _ => v) r) in exact u
  end.

(** Evaluates a bounded range of cases: [z] between two literals. *)
Lemma Zrange_forall (P : Z -> Prop) (f : Z -> bool) (n : nat) :
  (forall z, f z = true -> P z) ->
  forallb f (map Z.of_nat (seq 0 n)) = true ->
  forall z, 0 <= z < Z.of_nat n -> P z.
Proof.
  intros Hf Hall z Hz. apply Hf. rewrite forallb_forall in Hall. apply Hall.
  rewrite in_map_iff. exists (Z.to_nat z). rewrite in_seq. lia.
Qed.

(** All values below [n], as a boolean quantifier. *)
Definition below (n : nat) (f : Z -> bool) : bool := forallb f (map Z.of_nat (seq 0 n)).

Lemma below_spec n f z : below n f = true -> 0 <= z < Z.of_nat n -> f z = true.
Proof. intros H Hz. by apply (Zrange_forall (fun z => f z = true) f n). Qed.

(** * Integer lemmas *)

Lemma wrapU_small w z : 0 <= z < 2 ^ w -> wrapU w z = z.
Proof. apply Z.mod_small. Qed.

Lemma wrapU_range w z : 0 <= w -> 0 <= wrapU w z < 2 ^ w.
Proof. intros. apply Z.mod_pos_bound, Z.pow_pos_nonneg; lia. Qed.

Lemma wrapS_small w z : 0 < w -> - 2 ^ (w - 1) <= z < 2 ^ (w - 1) -> wrapS w z = z.
Proof.
  intros Hw Hz. unfold wrapS.
  assert (2 ^ w = 2 * 2 ^ (w - 1)) as Hp.
  { rewrite <- Z.pow_succ_r by lia. f_equal. lia. }
  rewrite Z.mod_small by lia. lia.
Qed.

Lemma wrapS_range w z : 0 < w -> - 2 ^ (w - 1) <= wrapS w z < 2 ^ (w - 1).
Proof.
  intros Hw. unfold wrapS.
  assert (2 ^ w = 2 * 2 ^ (w - 1)) as Hp.
  { rewrite <- Z.pow_succ_r by lia. f_equal. lia. }
  pose proof (Z.mod_pos_bound (z + 2 ^ (w - 1)) (2 ^ w)).
  pose proof (Z.pow_pos_nonneg 2 (w - 1)). lia.
Qed.

Lemma wrapS_cong w a b : a mod 2 ^ w = b mod 2 ^ w -> wrapS w a = wrapS w b.
Proof.
  intros H. unfold wrapS. f_equal.
  rewrite <- (Zplus_mod_idemp_l a), H, Zplus_mod_idemp_l. done.
Qed.

Lemma wrapS_mod w z : 0 < w -> wrapS w z mod 2 ^ w = z mod 2 ^ w.
Proof.
  intros Hw. unfold wrapS. rewrite Zminus_mod_idemp_l. f_equal. lia.
Qed.

(** Arithmetic on wrapped operands wraps the same way. *)
Lemma wrapS_mul_add w a b c :
  0 < w -> wrapS w (wrapS w a * b + c) = wrapS w (a * b + c).
Proof.
  intros Hw. apply wrapS_cong.
  rewrite <- (Zplus_mod_idemp_l (wrapS w a * b)), <- (Zmult_mod_idemp_l (wrapS w a)).
  rewrite wrapS_mod by done.
  rewrite Zmult_mod_idemp_l, Zplus_mod_idemp_l. done.
Qed.

(** * Little-endian encodings (the byte order of the targets of the library) *)

Fixpoint le_bytes (n : nat) (z : Z) : list Z :=
  match n with
  | O => []
  | S n => z mod 256 :: le_bytes n (z / 256)
  end.

Fixpoint le_val (l : list Z) : Z :=
  match l with
  | [] => 0
  | b :: l => b + 256 * le_val l
  end.

Lemma length_le_bytes n z : length (le_bytes n z) = n.
Proof. revert z. induction n; intros z; simpl; auto. Qed.

Lemma le_bytes_ok n z : bytes_ok (le_bytes n z).
Proof.
  revert z. induction n; intros z; simpl; constructor; [|apply IHn].
  unfold is_byte. apply Z.mod_pos_bound. lia.
Qed.

Lemma pow256_S n : 256 ^ Z.of_nat (S n) = 256 * 256 ^ Z.of_nat n.
Proof. rewrite Nat2Z.inj_succ, Z.pow_succ_r by lia. done. Qed.

Lemma le_val_le_bytes n z : le_val (le_bytes n z) = z mod 256 ^ Z.of_nat n.
Proof.
  revert z. induction n as [|n IH]; intros z.
  - simpl. rewrite Z.mod_1_r. done.
  - cbn [le_bytes le_val]. rewrite IH, pow256_S.
    rewrite Z.rem_mul_r by (try apply Z.pow_pos_nonneg; lia). done.
Qed.

Lemma le_val_small n z :
  0 <= z < 256 ^ Z.of_nat n -> le_val (le_bytes n z) = z.
Proof. intros. rewrite le_val_le_bytes. apply Z.mod_small. done. Qed.

Lemma le_val_range l : bytes_ok l -> 0 <= le_val l < 256 ^ Z.of_nat (length l).
Proof.
  induction 1 as [|b l Hb Hl IH]; [simpl; lia|].
  cbn [le_val length]. rewrite pow256_S. unfold is_byte in Hb. lia.
Qed.

Lemma le_bytes_le_val l : bytes_ok l -> le_bytes (length l) (le_val l) = l.
Proof.
  induction 1 as [|b l Hb Hl IH]; [done|]. cbn [length le_val le_bytes].
  unfold is_byte in Hb.
  rewrite (Z.mul_comm 256), Z.mod_add, Z.mod_small by lia.
  rewrite Z.div_add, Z.div_small, Z.add_0_l, IH by lia. done.
Qed.

(** * List lemmas *)

Lemma bytes_ok_app l k : bytes_ok (l ++ k) <-> bytes_ok l /\ bytes_ok k.
Proof. apply Forall_app. Qed.

Lemma bytes_ok_nil : bytes_ok [].
Proof. constructor. Qed.

Lemma bytes_ok_cons b l : bytes_ok (b :: l) <-> is_byte b /\ bytes_ok l.
Proof. apply Forall_cons. Qed.

#[global] Instance bytes_ok_dec l : Decision (bytes_ok l).
Proof. unfold bytes_ok. apply _. Defined.

Lemma byte_case (P : Z -> Prop) (f : Z -> bool) :
  (forall z, f z = true -> P z) ->
  forallb f (map Z.of_nat (seq 0 256)) = true ->
  forall z, is_byte z -> P z.
Proof. intros Hf Hall z Hz. by apply (Zrange_forall P f 256). Qed.

(** * Hints *)

Create HintDb xh.
Create Rewrite HintDb xh.
#[export] Hint Resolve bytes_ok_nil le_bytes_ok wrapU_range wrapS_range : xh.
#[export] Hint Resolve length_le_bytes : xh.
#[export] Hint Rewrite length_le_bytes wrapU_small wrapS_small using lia : xh.
#[export] Hint Extern 5 (is_byte _) => unfold is_byte; lia : xh.
