(* ===== verification/CameraRing.v ===== *)
(** The frame ring of the camera library (src/camera/interface.c).

    [buffer] is a static, zero-initialised array of [MAX_MEMORY] bytes; the
    three cursors [read_pos], [write_pos] and [buffer_end_pos] are kept as
    offsets from [buffer].  A frame is stored as its packed [FrameInfo_t]
    header, its data, and one unused byte.  Module [Ring] holds the code,
    [Fifo] the abstract queue it stands for, and the rest relates the two. *)

From S2P Require Import Prelude.

(** * The code *)

Module Ring.

(** src/camera/commonData.h: [FrameInfo_t], packed (40 bytes on LP64). *)
Record FrameInfo_t := FrameInfo {
  serial_no : Z;
  width : Z;
  height : Z;
  format : Z;
  frameType : Z;
  timestamp : Z;
  frameRate_samplingRate : Z;
  video_cap : Z;
  size : Z }.

Definition sizeof_FrameInfo : Z := 40.

(** The bytes of the packed struct, as [memcpy] copies them. *)
Definition header_bytes (h : FrameInfo_t) : list Z :=
  le_bytes 4 (serial_no h) ++ le_bytes 4 (width h) ++ le_bytes 4 (height h) ++
  le_bytes 4 (format h) ++ le_bytes 4 (frameType h) ++
  le_bytes 4 (timestamp h) ++ le_bytes 4 (frameRate_samplingRate h) ++
  le_bytes 4 (video_cap h) ++ le_bytes 8 (size h).

(** #define MAX_MEMORY (1024*2*1024) *)
Definition MAX_MEMORY : Z := 1024 * 2 * 1024.

(** The globals of interface.c: the array, the three cursors, and the count of
    the semaphore [full]. *)
Record ring := MkRing {
  mem : gmap Z Z;
  read_pos : Z;
  write_pos : Z;
  buffer_end_pos : Z;
  full : Z }.

Definition set_mem s m := MkRing m (read_pos s) (write_pos s) (buffer_end_pos s) (full s).
Definition set_read s r := MkRing (mem s) r (write_pos s) (buffer_end_pos s) (full s).
Definition set_write s w := MkRing (mem s) (read_pos s) w (buffer_end_pos s) (full s).
Definition set_end s e := MkRing (mem s) (read_pos s) (write_pos s) e (full s).
Definition set_full s n := MkRing (mem s) (read_pos s) (write_pos s) (buffer_end_pos s) n.

(** Memory: [load] and [store] of a byte range of the array; a byte never
    stored is 0, the array being static. *)
Definition load_byte (m : gmap Z Z) (a : Z) : Z := default 0 (m !! a).

Fixpoint load (m : gmap Z Z) (a : Z) (n : nat) : list Z :=
  match n with
  | O => []
  | S n => load_byte m a :: load m (a + 1) n
  end.

Fixpoint store (m : gmap Z Z) (a : Z) (bs : list Z) : gmap Z Z :=
  match bs with
  | [] => m
  | b :: bs => <[a := b]> (store m (a + 1) bs)
  end.

Section Operations.

(** The size of the array; [MAX_MEMORY] in the library. *)
Context (cap : Z).

Definition in_array (a n : Z) : bool := (0 <=? a) && (a + n <=? cap).

Definition load_range (m : gmap Z Z) (a n : Z) : outcome (list Z) :=
  if in_array a n then Ret (load m a (Z.to_nat n)) else Undefined.

Definition store_range (m : gmap Z Z) (a : Z) (bs : list Z) : outcome (gmap Z Z) :=
  if in_array a (Z.of_nat (length bs)) then Ret (store m a bs) else Undefined.

(** The statics and [sem_init(&full,0,0)] of [init_xhome_service]. *)
Definition init : ring := MkRing ∅ 0 0 cap 0.

(** [((FrameInfo_t* )p)->size]: eight bytes at offset 32 of the header. *)
Definition frame_size_at (s : ring) (p : Z) : outcome Z :=
  let! bs := load_range (mem s) (p + 32) 8 in Ret (le_val bs).

Definition myfree (s : ring) : outcome ring :=
  let! sz := frame_size_at s (read_pos s) in
  let s := set_read s (read_pos s + wrapU 64 (sizeof_FrameInfo + sz + 1)) in
  if buffer_end_pos s <=? read_pos s then Ret (set_end (set_read s 0) cap)
  else Ret s.

Definition discardFrame (s : ring) : outcome ring := myfree s.

(** The [while] loop of [myallocate]. *)
Fixpoint discard_loop (fuel : nat) (s : ring) (n : Z) : outcome ring :=
  match fuel with
  | O => NoFuel
  | S fuel =>
      if read_pos s <=? write_pos s + n + 1 then
        let! s := discardFrame s in discard_loop fuel s n
      else Ret s
  end.

Fixpoint myallocate (fuel : nat) (s : ring) (n : Z) : outcome (ring * Z) :=
  match fuel with
  | O => NoFuel
  | S fuel' =>
      let! s :=
        (if (write_pos s <? read_pos s) && (read_pos s <=? write_pos s + n + 1)
         then discard_loop fuel s n
         else Ret s) in
      if cap <? write_pos s + n then
        let s := set_write (set_end s (write_pos s)) 0 in
        let! s := (if write_pos s =? read_pos s then discardFrame s else Ret s) in
        myallocate fuel' s n
      else
        let s := set_write s (write_pos s + n + 1) in
        Ret (s, write_pos s - n - 1)
  end.

(** The part of [pushFrame] under [w_mutex]; [myallocate] takes an unsigned
    int, and the second [memcpy] reads [frame->size] bytes of [data]. *)
Definition push_locked (fuel : nat) (s : ring) (frame : FrameInfo_t) (data : list Z)
  : outcome ring :=
  let! (s, waddress) :=
    myallocate fuel s (wrapU 32 (sizeof_FrameInfo + size frame)) in
  let! m := store_range (mem s) waddress (header_bytes frame) in
  if size frame <=? Z.of_nat (length data) then
    let! m := store_range m (waddress + sizeof_FrameInfo)
                (take (Z.to_nat (size frame)) data) in
    Ret (set_mem s m)
  else Undefined.

Definition sem_post (s : ring) : ring := set_full s (full s + 1).

Definition pushFrame (fuel : nat) (s : ring) (frame : FrameInfo_t) (data : list Z)
  : outcome ring :=
  let! s := push_locked fuel s frame data in Ret (sem_post s).

(** [sem_wait(&full)] blocks while the count is 0. *)
Definition sem_wait (s : ring) : option ring :=
  if full s =? 0 then None else Some (set_full s (full s - 1)).

(** The part of [popFrame] under [w_mutex]: the copy of the top frame. *)
Definition pop_locked (s : ring) : outcome (ring * list Z) :=
  let! sz := frame_size_at s (read_pos s) in
  let! top := load_range (mem s) (read_pos s) (wrapU 64 (sizeof_FrameInfo + sz)) in
  let! s := myfree s in
  Ret (s, top).

(** [None]: the caller is blocked in [sem_wait]. *)
Definition popFrame (s : ring) : outcome (option (ring * list Z)) :=
  match sem_wait s with
  | None => Ret None
  | Some s => let! r := pop_locked s in Ret (Some r)
  end.

End Operations.
End Ring.

(** * The contract: a first-in first-out queue of frames *)

Module Fifo.
Import Ring.

Record frame := Frame { info : FrameInfo_t; data : list Z }.

(** A frame as the library receives it: [size] counts the bytes of [data], and
    every field fits its C type. *)
Definition frame_ok (f : frame) : Prop :=
  size (info f) = Z.of_nat (length (data f)) /\
  bytes_ok (data f) /\
  0 <= size (info f) < 2 ^ 32 - sizeof_FrameInfo.

(** What a consumer of the frame receives. *)
Definition frame_bytes (f : frame) : list Z := header_bytes (info f) ++ data f.

(** The argument of [myallocate] for the frame. *)
Definition need (f : frame) : Z := sizeof_FrameInfo + size (info f).

Inductive op := Push (f : frame) | Pop.

(** One operation on the queue: [Pop] of an empty queue blocks ([None]). *)
Definition fifo_step (q : list frame) (o : op) : option (list frame * list (list Z)) :=
  match o, q with
  | Push f, _ => Some (q ++ [f], [])
  | Pop, f :: q => Some (q, [frame_bytes f])
  | Pop, [] => None
  end.

Fixpoint fifo_run (q : list frame) (os : list op) : option (list frame * list (list Z)) :=
  match os with
  | [] => Some (q, [])
  | o :: os =>
      match fifo_step q o with
      | None => None
      | Some (q, out) =>
          match fifo_run q os with
          | None => None
          | Some (q, outs) => Some (q, out ++ outs)
          end
      end
  end.

(** The same operations on the ring. *)
Definition ring_step (cap : Z) (fuel : nat) (s : ring) (o : op)
  : outcome (option (ring * list (list Z))) :=
  match o with
  | Push f => let! s := pushFrame cap fuel s (info f) (data f) in Ret (Some (s, []))
  | Pop => let! r := popFrame cap s in
           Ret (match r with None => None | Some (s, top) => Some (s, [top]) end)
  end.

Fixpoint ring_run (cap : Z) (fuel : nat) (s : ring) (os : list op)
  : outcome (option (ring * list (list Z))) :=
  match os with
  | [] => Ret (Some (s, []))
  | o :: os =>
      let! r := ring_step cap fuel s o in
      match r with
      | None => Ret None
      | Some (s, out) =>
          let! r := ring_run cap fuel s os in
          Ret (match r with None => None | Some (s, outs) => Some (s, out ++ outs) end)
      end
  end.

End Fifo.
Import Ring Fifo.

(** Projections of updated rings. *)
Ltac ring_cbn :=
  cbn [mem read_pos write_pos buffer_end_pos full set_mem set_read set_write set_end
       set_full outcome_bind andb orb].

(** * Memory lemmas *)

Lemma length_load m a n : length (load m a n) = n.
Proof. revert a. induction n; intros a; simpl; auto. Qed.

Lemma load_app m a n k :
  load m a (n + k) = load m a n ++ load m (a + Z.of_nat n) k.
Proof.
  revert a. induction n as [|n IH]; intros a; simpl.
  - f_equal. lia.
  - rewrite IH. do 3 f_equal. lia.
Qed.

Lemma lookup_store_outside m a bs b :
  ~ (a <= b < a + Z.of_nat (length bs)) -> store m a bs !! b = m !! b.
Proof.
  revert a. induction bs as [|x bs IH]; intros a Hb; [done|]. simpl in *.
  rewrite lookup_insert_ne by lia. apply IH. lia.
Qed.

Lemma load_ext m m' a n :
  (forall b, a <= b < a + Z.of_nat n -> m !! b = m' !! b) -> load m a n = load m' a n.
Proof.
  revert a. induction n as [|n IH]; intros a H; [done|]. simpl. f_equal.
  - unfold load_byte. rewrite H by lia. done.
  - apply IH. intros b Hb. apply H. lia.
Qed.

Lemma load_store_disjoint m a bs b n :
  b + Z.of_nat n <= a \/ a + Z.of_nat (length bs) <= b ->
  load (store m a bs) b n = load m b n.
Proof. intros H. apply load_ext. intros c Hc. apply lookup_store_outside. lia. Qed.

Lemma load_store_same m a bs : load (store m a bs) a (length bs) = bs.
Proof.
  revert m a. induction bs as [|x bs IH]; intros m a; [done|]. simpl. f_equal.
  - unfold load_byte. rewrite lookup_insert_eq. done.
  - rewrite (load_ext _ (store m (a + 1) bs)); [apply IH|].
    intros b Hb. rewrite lookup_insert_ne by lia. done.
Qed.

Lemma store_app m a bs cs :
  store m a (bs ++ cs) = store (store m (a + Z.of_nat (length bs)) cs) a bs.
Proof.
  revert a. induction bs as [|x bs IH]; intros a; simpl.
  - f_equal. lia.
  - rewrite IH. do 3 f_equal. lia.
Qed.

(** The two [memcpy]s of [pushFrame] leave header and data side by side. *)
Lemma load_two_stores m a bs cs :
  load (store (store m a bs) (a + Z.of_nat (length bs)) cs) a (length (bs ++ cs)) = bs ++ cs.
Proof.
  rewrite length_app, load_app. f_equal.
  - rewrite load_store_disjoint by lia. apply load_store_same.
  - apply load_store_same.
Qed.

(** * Frames in memory *)

Lemma length_header_bytes h : length (header_bytes h) = 40%nat.
Proof. unfold header_bytes. rewrite !length_app, !length_le_bytes. done. Qed.

Lemma length_frame_bytes f : frame_ok f -> Z.of_nat (length (frame_bytes f)) = need f.
Proof.
  intros (Hs & _). unfold frame_bytes, need, sizeof_FrameInfo.
  rewrite length_app, length_header_bytes. lia.
Qed.

(** The field [size] read back from the bytes of a header. *)
Lemma header_size h rest :
  0 <= size h < 2 ^ 64 -> le_val (take 8 (drop 32 (header_bytes h ++ rest))) = size h.
Proof.
  intros H. unfold header_bytes. rewrite !app_assoc, <- (app_assoc _ _ rest).
  rewrite drop_app_length' by (rewrite !length_app, !length_le_bytes; done).
  rewrite take_app_length' by (rewrite length_le_bytes; done).
  apply le_val_small. change (256 ^ Z.of_nat 8) with (2 ^ 64). done.
Qed.

Lemma take_drop_load m a n i k :
  (i + k <= n)%nat -> take k (drop i (load m a n)) = load m (a + Z.of_nat i) k.
Proof.
  intros H. replace n with (i + (k + (n - i - k)))%nat by lia.
  rewrite load_app, drop_app_length' by (rewrite length_load; done).
  rewrite load_app, take_app_length' by (rewrite length_load; done). done.
Qed.

(** [laid cap m a q b]: the frames [q] lie in the array from [a] up to [b], one
    unused byte after each. *)
Fixpoint laid (cap : Z) (m : gmap Z Z) (a : Z) (q : list frame) (b : Z) : Prop :=
  match q with
  | [] => a = b
  | f :: q =>
      frame_ok f /\
      0 <= a /\ a + need f <= cap /\
      load m a (length (frame_bytes f)) = frame_bytes f /\
      laid cap m (a + need f + 1) q b
  end.

Lemma need_ge f : frame_ok f -> 40 <= need f < 2 ^ 32.
Proof. intros (_ & _ & H). unfold need, sizeof_FrameInfo in *. lia. Qed.

Lemma laid_le cap m a q b : laid cap m a q b -> a + 41 * Z.of_nat (length q) <= b.
Proof.
  revert a. induction q as [|f q IH]; intros a H; cbn [laid length] in *; [lia|].
  destruct H as (Hf & ? & ? & ? & H). apply IH in H. pose proof (need_ge f Hf). lia.
Qed.

Lemma laid_bound cap m a q b :
  laid cap m a q b -> q <> [] -> 0 <= a /\ b <= cap + 1.
Proof.
  revert a. induction q as [|f q IH]; intros a H Hne; [done|].
  cbn [laid] in H. destruct H as (Hf & ? & ? & ? & H).
  destruct q as [|g q]; [cbn [laid] in H; lia|].
  destruct (IH _ H); [done|]. lia.
Qed.

Lemma laid_app cap m a q1 q2 b c :
  laid cap m a q1 b -> laid cap m b q2 c -> laid cap m a (q1 ++ q2) c.
Proof.
  revert a. induction q1 as [|f q IH]; intros a H1 H2; cbn [laid app] in *.
  - by subst.
  - destruct H1 as (? & ? & ? & ? & H1). eauto 10.
Qed.

(** A store that touches no frame keeps the layout. *)
Lemma laid_store cap m a q b p bs :
  laid cap m a q b -> p + Z.of_nat (length bs) <= a \/ b <= p ->
  laid cap (store m p bs) a q b.
Proof.
  revert a. induction q as [|f q IH]; intros a H Hd; [done|].
  cbn [laid] in H |- *. destruct H as (Hf & Ha & Hc & Hl & H).
  pose proof (laid_le _ _ _ _ _ H). pose proof (need_ge f Hf).
  pose proof (length_frame_bytes f Hf).
  split; [done|]. split; [done|]. split; [done|]. split.
  - rewrite load_store_disjoint by lia. done.
  - apply IH; [done|lia].
Qed.

Lemma frame_size_at_laid cap m f a r w e n :
  frame_ok f -> 0 <= a -> a + need f <= cap ->
  load m a (length (frame_bytes f)) = frame_bytes f ->
  frame_size_at cap (MkRing m r w e n) a = Ret (size (info f)).
Proof.
  intros Hf Ha Hc Hl. pose proof (need_ge f Hf). pose proof (length_frame_bytes f Hf).
  unfold frame_size_at, load_range, in_array. cbn [mem].
  rewrite !(proj2 (Z.leb_le _ _)) by lia. cbn [andb outcome_bind]. f_equal.
  change (Z.to_nat 8) with 8%nat. change 32 with (Z.of_nat 32).
  rewrite <- (take_drop_load m a (length (frame_bytes f)) 32 8) by lia.
  rewrite Hl. unfold frame_bytes. apply header_size.
  destruct Hf as (_ & _ & ?). unfold sizeof_FrameInfo in *. lia.
Qed.

(** * The ring as a queue *)

(** [repr cap q s]: the ring holds exactly the frames [q], oldest first, either
    in one run or in a run up to [buffer_end_pos] and one from the beginning. *)
Inductive repr (cap : Z) (q : list frame) (s : ring) : Prop :=
| repr_linear :
    0 <= read_pos s -> write_pos s <= cap + 1 -> buffer_end_pos s = cap ->
    laid cap (mem s) (read_pos s) q (write_pos s) ->
    repr cap q s
| repr_wrapped q1 q2 :
    q = q1 ++ q2 -> q1 <> [] ->
    laid cap (mem s) (read_pos s) q1 (buffer_end_pos s) ->
    laid cap (mem s) 0 q2 (write_pos s) ->
    write_pos s < read_pos s ->
    repr cap q s.

(** Room for [n] bytes without touching a stored frame: the tests of
    [myallocate] that lead to no [discardFrame]. *)
Definition push_safe (cap : Z) (s : ring) (n : Z) : bool :=
  if write_pos s <? read_pos s then write_pos s + n + 1 <? read_pos s
  else (write_pos s + n <=? cap) ||
       ((read_pos s <? write_pos s) && (n + 1 <? read_pos s)).

(** A pop that does not empty a run ending at the end of the array. *)
Definition pop_safe (cap : Z) (q : list frame) (s : ring) : Prop :=
  q <> [] /\ (write_pos s < read_pos s \/ write_pos s < cap \/ (2 <= length q)%nat).

Lemma myallocate_append cap fuel s n :
  (write_pos s < read_pos s -> write_pos s + n + 1 < read_pos s) ->
  write_pos s + n <= cap ->
  myallocate cap (S fuel) s n = Ret (set_write s (write_pos s + n + 1), write_pos s).
Proof.
  intros H1 H2. cbn [myallocate].
  replace ((write_pos s <? read_pos s) && (read_pos s <=? write_pos s + n + 1)) with false.
  2: { symmetry. apply andb_false_iff. destruct (Z.ltb_spec (write_pos s) (read_pos s)); [right|by left].
       apply Z.leb_gt. lia. }
  cbn [outcome_bind]. rewrite (proj2 (Z.ltb_ge _ _)) by lia. cbn [set_write write_pos].
  do 2 f_equal. lia.
Qed.

Lemma myallocate_wrap cap fuel s n :
  read_pos s <= write_pos s -> cap < write_pos s + n ->
  0 <= n -> n + 1 < read_pos s -> n <= cap ->
  myallocate cap (S (S fuel)) s n =
    Ret (MkRing (mem s) (read_pos s) (n + 1) (write_pos s) (full s), 0).
Proof.
  intros H1 H2 H3 H4 H5.
  change (myallocate cap (S (S fuel)) s n) with
   (let! s := (if (write_pos s <? read_pos s) && (read_pos s <=? write_pos s + n + 1)
               then discard_loop cap (S (S fuel)) s n else Ret s) in
      if cap <? write_pos s + n then
        let s := set_write (set_end s (write_pos s)) 0 in
        let! s := (if write_pos s =? read_pos s then discardFrame cap s else Ret s) in
        myallocate cap (S fuel) s n
      else
        let s := set_write s (write_pos s + n + 1) in
        Ret (s, write_pos s - n - 1)).
  rewrite (proj2 (Z.ltb_ge (write_pos s) _)) by lia. cbn [andb outcome_bind].
  rewrite (proj2 (Z.ltb_lt _ _)) by lia. cbn [write_pos read_pos set_write set_end].
  rewrite (proj2 (Z.eqb_neq _ _)) by lia. cbn [outcome_bind].
  rewrite myallocate_append by (ring_cbn; lia).
  ring_cbn. done.
Qed.

Lemma push_locked_stores cap fuel s f s' a :
  frame_ok f -> 0 <= a -> a + need f <= cap ->
  myallocate cap fuel s (need f) = Ret (s', a) ->
  push_locked cap fuel s (info f) (data f) =
    Ret (set_mem s' (store (store (mem s') a (header_bytes (info f))) (a + 40) (data f))).
Proof.
  intros Hf Ha Hc Hal. pose proof (need_ge f Hf). destruct Hf as (Hsz & Hb & Hr).
  unfold push_locked. fold (need f). rewrite wrapU_small by lia.
  rewrite Hal. cbn [outcome_bind]. unfold store_range, in_array, need, sizeof_FrameInfo in *.
  rewrite length_header_bytes, take_ge by lia.
  repeat (rewrite (proj2 (Z.leb_le _ _)) by lia; cbn [andb outcome_bind]). done.
Qed.

Lemma stored_frame m f a :
  load (store (store m a (header_bytes (info f))) (a + 40) (data f)) a
    (length (frame_bytes f)) = frame_bytes f.
Proof.
  replace 40 with (Z.of_nat (length (header_bytes (info f)))).
  - apply load_two_stores.
  - rewrite length_header_bytes. done.
Qed.

Lemma laid_two_stores cap m a q b f p :
  frame_ok f -> laid cap m a q b -> p + need f <= a \/ b <= p ->
  laid cap (store (store m p (header_bytes (info f))) (p + 40) (data f)) a q b.
Proof.
  intros (Hs & _ & Hrg) H Hd. unfold need, sizeof_FrameInfo in *.
  apply laid_store; [apply laid_store; [done|]|].
  - rewrite length_header_bytes. lia.
  - lia.
Qed.

Lemma laid_stored cap m a f :
  frame_ok f -> 0 <= a -> a + need f <= cap ->
  laid cap (store (store m a (header_bytes (info f))) (a + 40) (data f)) a [f]
    (a + need f + 1).
Proof. intros. cbn [laid]. rewrite stored_frame. auto. Qed.

(** A push that finds room appends the frame to the queue. *)
Lemma push_refines cap fuel q s f :
  repr cap q s -> frame_ok f -> push_safe cap s (need f) = true ->
  exists s',
    pushFrame cap (S (S fuel)) s (info f) (data f) = Ret s' /\
    repr cap (q ++ [f]) s' /\ full s' = full s + 1.
Proof.
  intros Hr Hf Hs. pose proof (need_ge f Hf) as Hn. unfold push_safe in Hs.
  destruct Hr as [Hrd Hw He Hl | q1 q2 -> Hne Hl1 Hl2 Hlt].
  - pose proof (laid_le _ _ _ _ _ Hl).
    rewrite (proj2 (Z.ltb_ge (write_pos s) _)) in Hs by lia.
    destruct (Z.leb_spec (write_pos s + need f) cap) as [Hfit|Hfit]; cbn [orb] in Hs; boolify.
    + eexists. unfold pushFrame.
      erewrite (push_locked_stores cap _ s f _ (write_pos s)); [|done|lia|done|apply myallocate_append; lia].
      cbn. split; [done|]. split; [|done]. apply repr_linear; cbn; try lia.
      eapply laid_app; [apply laid_two_stores; [done|done|lia]|].
      apply laid_stored; [done|lia|done].
    + assert (q <> []) as Hq by (intros ->; cbn in Hl; lia).
      eexists. unfold pushFrame.
      erewrite (push_locked_stores cap _ s f _ 0); [|done|lia|lia|apply myallocate_wrap; lia].
      cbn. split; [done|]. split; [|done].
      apply (repr_wrapped _ _ _ q [f]); cbn; try done; try lia.
      * apply (laid_two_stores _ _ _ _ _ f 0); [done|done|lia].
      * apply (laid_stored _ _ 0); [done|lia|lia].
  - rewrite (proj2 (Z.ltb_lt (write_pos s) _)) in Hs by lia. boolify.
    pose proof (laid_le _ _ _ _ _ Hl1). pose proof (laid_le _ _ _ _ _ Hl2).
    destruct (laid_bound _ _ _ _ _ Hl1 Hne).
    assert (1 <= Z.of_nat (length q1)) by (destruct q1; [done|cbn; lia]).
    eexists. unfold pushFrame.
    erewrite (push_locked_stores cap _ s f _ (write_pos s)); [|done|lia|lia|apply myallocate_append; lia].
    cbn. split; [done|]. split; [|done].
    apply (repr_wrapped _ _ _ q1 (q2 ++ [f])); cbn; try done; try lia.
    + by rewrite app_assoc.
    + apply laid_two_stores; [done|done|lia].
    + eapply laid_app; [apply laid_two_stores; [done|done|lia]|].
      apply laid_stored; [done|lia|lia].
Qed.

(** Popping a stored frame: the copy, and the cursor after it. *)
Lemma pop_locked_laid cap s f q b :
  laid cap (mem s) (read_pos s) (f :: q) b ->
  pop_locked cap s =
    Ret (if buffer_end_pos s <=? read_pos s + need f + 1
         then MkRing (mem s) 0 (write_pos s) cap (full s)
         else MkRing (mem s) (read_pos s + need f + 1) (write_pos s) (buffer_end_pos s) (full s),
         frame_bytes f).
Proof.
  cbn [laid]. intros (Hf & Ha & Hc & Hl & _). destruct s as [m r w e n].
  cbn [mem read_pos write_pos buffer_end_pos full] in *.
  pose proof (need_ge f Hf). pose proof (length_frame_bytes f Hf).
  unfold pop_locked, myfree. cbn [read_pos mem].
  rewrite (frame_size_at_laid cap m f) by done. cbn [outcome_bind].
  change (sizeof_FrameInfo + size (info f)) with (need f).
  rewrite !wrapU_small by lia. unfold load_range, in_array.
  rewrite !(proj2 (Z.leb_le _ _)) by lia. cbn [andb outcome_bind].
  replace (Z.to_nat (need f)) with (length (frame_bytes f)) by lia. rewrite Hl.
  cbn [set_read read_pos buffer_end_pos]. rewrite !Z.add_assoc. case_if E; done.
Qed.

(** A pop of a non-empty queue returns its oldest frame. *)
Lemma pop_locked_refines cap q s :
  repr cap q s -> pop_safe cap q s ->
  exists f q' s',
    q = f :: q' /\ pop_locked cap s = Ret (s', frame_bytes f) /\
    repr cap q' s' /\ full s' = full s.
Proof.
  intros Hr [Hne Hsafe]. destruct Hr as [Hrd Hw He Hl | q1 q2 -> Hne1 Hl1 Hl2 Hlt].
  - destruct q as [|f q]; [done|]. exists f, q.
    rewrite (pop_locked_laid _ _ _ _ _ Hl). cbn [laid] in Hl.
    destruct Hl as (Hf & Ha & Hc & Hl & Hq). pose proof (laid_le _ _ _ _ _ Hq).
    pose proof (need_ge f Hf). cbn [length] in Hsafe.
    rewrite (proj2 (Z.leb_gt _ _)) by lia.
    eexists. split; [done|]. split; [done|]. split; [|done].
    apply repr_linear; cbn; try done; lia.
  - destruct q1 as [|f q1]; [done|]. exists f, (q1 ++ q2).
    rewrite (pop_locked_laid _ _ _ _ _ Hl1). cbn [laid] in Hl1.
    destruct Hl1 as (Hf & Ha & Hc & Hl1 & Hq). pose proof (laid_le _ _ _ _ _ Hq).
    pose proof (laid_le _ _ _ _ _ Hl2). pose proof (need_ge f Hf).
    eexists. split; [done|]. split; [done|].
    destruct q1 as [|g q1]; cbn [length] in *.
    + cbn [laid] in Hq. rewrite (proj2 (Z.leb_le _ _)) by lia. split; [|done].
      apply repr_linear; cbn; try done; lia.
    + rewrite (proj2 (Z.leb_gt _ _)) by lia. split; [|done].
      apply (repr_wrapped _ _ _ (g :: q1) q2); ring_cbn; try done. lia.
Qed.

Lemma pop_refines cap q s :
  repr cap q s -> pop_safe cap q s -> 0 < full s ->
  exists f q' s',
    q = f :: q' /\ popFrame cap s = Ret (Some (s', frame_bytes f)) /\
    repr cap q' s' /\ full s' = full s - 1.
Proof.
  intros Hr Hs Hfull. unfold popFrame, sem_wait.
  rewrite (proj2 (Z.eqb_neq _ _)) by lia.
  destruct (pop_locked_refines cap q (set_full s (full s - 1))) as (f & q' & s' & -> & Hp & Hr' & Hf').
  - destruct Hr; [apply repr_linear|eapply repr_wrapped]; eauto.
  - done.
  - exists f, q', s'. rewrite Hp. done.
Qed.

(** * Discarding the oldest frames *)

(** Where the last frame of a run starts. *)
Fixpoint last_start (a : Z) (q : list frame) : Z :=
  match q with
  | [] | [_] => a
  | f :: q => last_start (a + need f + 1) q
  end.

(** In a wrapped ring [discardFrame] drops the oldest frame of the first run as
    long as it is not the last one of that run. *)
Lemma discardFrame_wrapped cap s f g q e :
  laid cap (mem s) (read_pos s) (f :: g :: q) e -> buffer_end_pos s = e ->
  discardFrame cap s = Ret (set_read s (read_pos s + need f + 1)).
Proof.
  intros Hl He. pose proof (pop_locked_laid _ _ _ _ _ Hl) as Hp.
  cbn [laid] in Hl. destruct Hl as (Hf & Ha & Hc & Hl & Hg & ? & ? & ? & Hq).
  pose proof (need_ge f Hf). pose proof (need_ge g Hg). pose proof (laid_le _ _ _ _ _ Hq).
  destruct s as [m r w e' n]. ring_cbn. cbn [buffer_end_pos] in He. subst e'.
  unfold discardFrame, myfree. cbn [read_pos mem] in *.
  rewrite (frame_size_at_laid cap m f) by done. ring_cbn.
  change (sizeof_FrameInfo + size (info f)) with (need f).
  rewrite wrapU_small by lia. rewrite (proj2 (Z.leb_gt _ _)) by lia.
  do 2 f_equal. lia.
Qed.

Lemma discard_loop_drops cap fuel s q e n :
  laid cap (mem s) (read_pos s) q e -> buffer_end_pos s = e -> q <> [] ->
  write_pos s + n + 1 < last_start (read_pos s) q -> (length q <= fuel)%nat ->
  exists k,
    (k < length q)%nat /\
    exists r, discard_loop cap fuel s n = Ret (set_read s r) /\
      laid cap (mem s) r (drop k q) e /\ read_pos s <= r /\ write_pos s + n + 1 < r.
Proof.
  revert s q. induction fuel as [|fuel IH]; intros s q Hl He Hne Hroom Hfuel.
  { destruct q; [done|cbn in Hfuel; lia]. }
  cbn [discard_loop]. destruct (Z.leb_spec (read_pos s) (write_pos s + n + 1)) as [Hle|Hgt].
  - destruct q as [|f [|g q]]; [done|cbn in Hroom; lia|].
    rewrite (discardFrame_wrapped cap s f g q e) by done. ring_cbn.
    set (s1 := set_read s (read_pos s + need f + 1)).
    pose proof Hl as (Hf & ? & ? & ? & Hl1). pose proof (need_ge f Hf).
    destruct (IH s1 (g :: q)) as (k & Hk & r & Hr & Hl' & Hle' & Hgt'); try done.
    { cbn [length] in *. lia. }
    exists (S k). split; [cbn [length] in *; lia|]. exists r.
    split; [rewrite Hr; done|]. cbn [drop]. split; [done|]. split; [|done].
    subst s1. cbn [read_pos set_read] in Hle'. lia.
  - exists 0%nat. split; [destruct q; [done|cbn; lia]|]. exists (read_pos s).
    split; [destruct s; done|]. split; [done|]. lia.
Qed.

(** [myallocate] in a wrapped ring that must make room. *)
Lemma myallocate_discards cap fuel s n r :
  write_pos s < read_pos s -> read_pos s <= write_pos s + n + 1 ->
  discard_loop cap (S fuel) s n = Ret (set_read s r) ->
  write_pos s + n <= cap ->
  myallocate cap (S fuel) s n =
    Ret (set_write (set_read s r) (write_pos s + n + 1), write_pos s).
Proof.
  intros H1 H2 Hd Hc.
  change (myallocate cap (S fuel) s n) with
   (let! s := (if (write_pos s <? read_pos s) && (read_pos s <=? write_pos s + n + 1)
               then discard_loop cap (S fuel) s n else Ret s) in
      if cap <? write_pos s + n then
        let s := set_write (set_end s (write_pos s)) 0 in
        let! s := (if write_pos s =? read_pos s then discardFrame cap s else Ret s) in
        myallocate cap fuel s n
      else
        let s := set_write s (write_pos s + n + 1) in
        Ret (s, write_pos s - n - 1)).
  rewrite (proj2 (Z.ltb_lt _ _)), (proj2 (Z.leb_le _ _)) by lia. cbn [andb].
  rewrite Hd. ring_cbn. rewrite (proj2 (Z.ltb_ge _ _)) by lia.
  do 2 f_equal. lia.
Qed.

(** A push into a wrapped ring without room drops the oldest frames, as many as
    needed and in order, provided the room appears before the run up to
    [buffer_end_pos] is used up; the semaphore still grows by one. *)
Lemma push_discards cap fuel s f q1 q2 :
  laid cap (mem s) (read_pos s) q1 (buffer_end_pos s) -> q1 <> [] ->
  laid cap (mem s) 0 q2 (write_pos s) -> write_pos s < read_pos s ->
  frame_ok f -> read_pos s <= write_pos s + need f + 1 ->
  write_pos s + need f + 1 < last_start (read_pos s) q1 -> (length q1 <= fuel)%nat ->
  exists k s',
    (k < length q1)%nat /\
    pushFrame cap (S fuel) s (info f) (data f) = Ret s' /\
    repr cap (drop k q1 ++ q2 ++ [f]) s' /\ full s' = full s + 1.
Proof.
  intros Hl1 Hne Hl2 Hlt Hf Hneed Hroom Hfuel.
  destruct (discard_loop_drops cap (S fuel) s q1 _ (need f) Hl1 eq_refl Hne Hroom)
    as (k & Hk & r & Hd & Hl1' & Hr & Hgt); [lia|].
  assert (drop k q1 <> []) as Hne'.
  { intros Hn. apply (f_equal length) in Hn. rewrite length_drop in Hn. cbn in Hn. lia. }
  pose proof (laid_le _ _ _ _ _ Hl2). pose proof (need_ge f Hf).
  destruct (laid_bound _ _ _ _ _ Hl1' Hne') as [_ ?].
  pose proof (laid_le _ _ _ _ _ Hl1').
  assert (1 <= Z.of_nat (length (drop k q1))) by (rewrite length_drop; lia).
  eexists k, _. split; [done|]. unfold pushFrame.
  erewrite (push_locked_stores cap _ s f _ (write_pos s)); [|done|lia|lia|].
  2: { eapply myallocate_discards; eauto. lia. }
  ring_cbn. split; [done|]. split; [|done].
  apply (repr_wrapped _ _ _ (drop k q1) (q2 ++ [f])); unfold sem_post; ring_cbn; try done.
  - apply laid_two_stores; [done|done|lia].
  - eapply laid_app; [apply laid_two_stores; [done|done|lia]|].
    apply laid_stored; [done|lia|lia].
Qed.

(** * Producers and consumers

    [pushFrame] posts the semaphore after it has released [w_mutex] and
    [popFrame] takes the mutex after [sem_wait] returned, so between the four
    atomic sections other threads run.  [posting] counts producers between the
    unlock and the post, [popping] consumers between the wait and the lock. *)

Record threads := MkThreads {
  shared : ring;
  posting : nat;
  popping : nat;
  pushed : list frame;
  delivered : list (list Z) }.

Definition start (cap : Z) : threads := MkThreads (init cap) 0 0 [] [].

(** One atomic section of some thread, in the schedules where a push finds room
    and a pop does not drain a run that ends at the end of the array. *)
Inductive thread_step (cap : Z) : threads -> threads -> Prop :=
| step_push c f s :
    frame_ok f -> push_safe cap (shared c) (need f) = true ->
    push_locked cap 2 (shared c) (info f) (data f) = Ret s ->
    thread_step cap c
      (MkThreads s (S (posting c)) (popping c) (pushed c ++ [f]) (delivered c))
| step_post c k :
    posting c = S k ->
    thread_step cap c
      (MkThreads (sem_post (shared c)) k (popping c) (pushed c) (delivered c))
| step_wait c s :
    sem_wait (shared c) = Some s ->
    thread_step cap c
      (MkThreads s (posting c) (S (popping c)) (pushed c) (delivered c))
| step_pop c k s top :
    popping c = S k ->
    write_pos (shared c) < read_pos (shared c) \/ write_pos (shared c) < cap ->
    pop_locked cap (shared c) = Ret (s, top) ->
    thread_step cap c
      (MkThreads s (posting c) k (pushed c) (delivered c ++ [top])).

(** The frames in the ring are the pushed and not yet delivered ones, and the
    semaphore counts those no thread has claimed or still has to announce. *)
Definition threads_ok (cap : Z) (c : threads) : Prop :=
  exists q,
    repr cap q (shared c) /\
    0 <= full (shared c) /\
    full (shared c) + Z.of_nat (posting c) + Z.of_nat (popping c) = Z.of_nat (length q) /\
    map frame_bytes (pushed c) = delivered c ++ map frame_bytes q.

Lemma repr_set_full cap q s n : repr cap q s -> repr cap q (set_full s n).
Proof. intros [? ? ? ?|q1 q2 ? ? ? ? ?]; [by apply repr_linear|by eapply repr_wrapped]. Qed.

Lemma repr_init cap : 0 <= cap -> repr cap [] (init cap).
Proof. intros. apply repr_linear; cbn; try done; lia. Qed.


Lemma threads_ok_step cap c c' :
  threads_ok cap c -> thread_step cap c c' -> threads_ok cap c'.
Proof.
  intros (q & Hr & Hf & Hn & Hd) Hs. destruct Hs as [c f s Hok Hsafe Hp|c k Hk|c s Hw|c k s top Hk Hsafe Hp].
  - destruct (push_refines cap 0 q _ f Hr Hok Hsafe) as (s1 & H1 & H2 & H3).
    unfold pushFrame in H1. rewrite Hp in H1. cbn in H1. injection H1 as <-.
    exists (q ++ [f]). unfold sem_post in H3. cbn [full set_full] in H3.
    split; [apply (repr_set_full _ _ _ (full s)) in H2; destruct s; done|].
    cbn [shared posting popping pushed delivered]. rewrite length_app, !map_app, Hd, app_assoc.
    cbn [length map]. split; [lia|]. split; [lia|done].
  - exists q. cbn [shared posting popping pushed delivered]. unfold sem_post.
    split; [by apply repr_set_full|]. cbn [full set_full]. rewrite Hk in Hn. split; [lia|].
    split; [lia|done].
  - unfold sem_wait in Hw. destruct (Z.eqb_spec (full (shared c)) 0); [done|].
    injection Hw as <-. exists q. cbn [shared posting popping pushed delivered].
    split; [by apply repr_set_full|]. cbn [full set_full]. split; [lia|]. split; [lia|done].
  - destruct (pop_locked_refines cap q (shared c) Hr) as (f & q' & s' & -> & H1 & H2 & H3).
    { split; [|tauto]. intros ->. cbn in Hn. lia. }
    rewrite H1 in Hp. injection Hp as <- <-.
    exists q'. cbn [shared posting popping pushed delivered map length] in *.
    rewrite Hk in Hn. split; [done|]. split; [lia|]. split; [lia|].
    rewrite Hd, <- app_assoc. done.
Qed.

Lemma threads_ok_reachable cap c :
  0 <= cap -> rtc (thread_step cap) (start cap) c -> threads_ok cap c.
Proof.
  intros Hcap Hrun.
  assert (threads_ok cap (start cap)) as Hinit.
  { exists []. split; [by apply repr_init|]. cbn. done. }
  induction Hrun as [|x y z Hxy Hyz IH]; [done|]. eauto using threads_ok_step.
Qed.

(** * Runs that stay below the end of the array *)

Definition linear (cap : Z) (q : list frame) (s : ring) : Prop :=
  0 <= read_pos s /\ write_pos s < cap /\ buffer_end_pos s = cap /\
  laid cap (mem s) (read_pos s) q (write_pos s) /\ full s = Z.of_nat (length q).

Lemma linear_push cap fuel q s f :
  linear cap q s -> frame_ok f -> write_pos s + need f + 1 < cap ->
  exists s', pushFrame cap (S fuel) s (info f) (data f) = Ret s' /\
    linear cap (q ++ [f]) s' /\ write_pos s' = write_pos s + need f + 1.
Proof.
  intros (Hr & Hw & He & Hl & Hn) Hf Hc. pose proof (need_ge f Hf).
  pose proof (laid_le _ _ _ _ _ Hl). eexists. unfold pushFrame.
  erewrite (push_locked_stores cap _ s f _ (write_pos s));
    [|done|lia|lia|apply myallocate_append; lia].
  ring_cbn. split; [done|]. split; [|done].
  unfold linear, sem_post. ring_cbn. rewrite length_app. cbn [length].
  split; [done|]. split; [lia|]. split; [done|]. split; [|lia].
  eapply laid_app; [apply laid_two_stores; [done|done|lia]|].
  apply laid_stored; [done|lia|lia].
Qed.

Lemma linear_pop cap q s f :
  linear cap (f :: q) s ->
  exists s', popFrame cap s = Ret (Some (s', frame_bytes f)) /\
    linear cap q s' /\ write_pos s' = write_pos s.
Proof.
  intros (Hr & Hw & He & Hl & Hn). cbn [length] in Hn.
  unfold popFrame, sem_wait. rewrite (proj2 (Z.eqb_neq _ _)) by lia.
  rewrite (pop_locked_laid cap (set_full s (full s - 1)) f q (write_pos s)) by done. ring_cbn.
  cbn [laid] in Hl. destruct Hl as (Hf & ? & ? & ? & Hq). pose proof (need_ge f Hf).
  pose proof (laid_le _ _ _ _ _ Hq). rewrite (proj2 (Z.leb_gt _ _)) by lia.
  eexists. split; [done|]. split; [|done]. unfold linear. ring_cbn.
  split; [lia|]. split; [lia|]. split; [done|]. split; [done|lia].
Qed.

(** What a sequence of operations takes from the array. *)
Definition op_bytes (o : op) : Z := match o with Push f => need f + 1 | Pop => 0 end.

Definition total_bytes (os : list op) : Z := foldr (fun o n => op_bytes o + n) 0 os.

Definition op_ok (o : op) : Prop := match o with Push f => frame_ok f | Pop => True end.

Lemma total_bytes_nonneg os : Forall op_ok os -> 0 <= total_bytes os.
Proof.
  induction 1 as [|[f|] os Ho Hos IH]; cbn [total_bytes foldr op_bytes] in *; [lia| |];
    fold (total_bytes os) in *; [|lia]. pose proof (need_ge f Ho). lia.
Qed.

Lemma linear_run cap fuel os q s :
  linear cap q s -> Forall op_ok os -> write_pos s + total_bytes os < cap ->
  match fifo_run q os with
  | None => ring_run cap (S fuel) s os = Ret None
  | Some (q', outs) =>
      exists s', ring_run cap (S fuel) s os = Ret (Some (s', outs)) /\ linear cap q' s'
  end.
Proof.
  intros Hl Hok. revert q s Hl. induction Hok as [|o os Ho Hos IH]; intros q s Hl Hb.
  { cbn. eauto. }
  pose proof (total_bytes_nonneg os Hos).
  cbn [total_bytes foldr] in Hb. fold (total_bytes os) in Hb.
  cbn [fifo_run ring_run]. destruct o as [f|]; cbn [fifo_step ring_step op_bytes] in *.
  - destruct (linear_push cap fuel q s f Hl Ho) as (s' & -> & Hl' & Hw); [lia|].
    cbn [outcome_bind]. specialize (IH _ _ Hl'). rewrite Hw in IH. specialize (IH ltac:(lia)).
    destruct (fifo_run (q ++ [f]) os) as [[q' outs]|]; [|by rewrite IH].
    destruct IH as (s'' & -> & Hl''). cbn. eauto.
  - destruct q as [|f q].
    + destruct Hl as (_ & _ & _ & _ & Hn). unfold popFrame, sem_wait.
      rewrite Hn. done.
    + destruct (linear_pop cap q s f Hl) as (s' & -> & Hl' & Hw). cbn [outcome_bind].
      specialize (IH _ _ Hl'). rewrite Hw in IH. specialize (IH ltac:(lia)).
      destruct (fifo_run q os) as [[q' outs]|]; [|by rewrite IH].
      destruct IH as (s'' & -> & Hl''). cbn. eauto.
Qed.

(** * Reading behind the stored frames *)

Lemma load_push_outside m f a k :
  frame_ok f -> need f <= a ->
  load (store (store m 0 (header_bytes (info f))) (0 + 40) (data f)) a k = load m a k.
Proof.
  intros (Hs & _ & _) Ha. unfold need, sizeof_FrameInfo in *.
  rewrite !load_store_disjoint; rewrite ?length_header_bytes; lia || done.
Qed.

Lemma frame_size_at_zero cap m a r w e n :
  0 <= a -> a + 40 <= cap -> load m a 40 = replicate 40 0 ->
  frame_size_at cap (MkRing m r w e n) a = Ret 0.
Proof.
  intros Ha Hc Hz. unfold frame_size_at, load_range, in_array. ring_cbn.
  rewrite !(proj2 (Z.leb_le _ _)) by lia. ring_cbn.
  change 32 with (Z.of_nat 32). change (Z.to_nat 8) with 8%nat.
  rewrite <- (take_drop_load _ _ 40 32 8) by lia. rewrite Hz. done.
Qed.

(** * Allocation of a frame larger than the array *)

Lemma myfree_write cap s s' : myfree cap s = Ret s' -> write_pos s' = write_pos s.
Proof.
  unfold myfree. destruct (frame_size_at cap s (read_pos s)); cbn; [|done..].
  case_if E; intros [= <-]; done.
Qed.

Lemma discard_loop_write cap fuel s n s' :
  discard_loop cap fuel s n = Ret s' -> write_pos s' = write_pos s.
Proof.
  revert s. induction fuel as [|fuel IH]; intros s; cbn [discard_loop]; [done|].
  case_if E; [|by intros [= <-]].
  unfold discardFrame. destruct (myfree cap s) as [s1| |] eqn:Hm; cbn; [|done..].
  intros H. apply IH in H. rewrite H. by apply myfree_write in Hm.
Qed.

(** * Properties *)

(** C2. In every interleaving of producer and consumer threads in which pushes
    find room and pops do not drain a run ending at the end of the array, the
    consumers receive byte for byte the pushed frames, in the order of the
    pushes and each once; and a consumer that passed [sem_wait] always finds a
    frame, its copy never leaving the array. *)
Theorem threads_fifo cap c :
  0 <= cap -> rtc (thread_step cap) (start cap) c ->
  (exists pending, map frame_bytes (pushed c) = delivered c ++ map frame_bytes pending) /\
  ((0 < popping c)%nat ->
   write_pos (shared c) < read_pos (shared c) \/ write_pos (shared c) < cap ->
   exists f s, In f (pushed c) /\ pop_locked cap (shared c) = Ret (s, frame_bytes f)).
Proof.
  intros Hcap Hrun. destruct (threads_ok_reachable cap c Hcap Hrun) as (q & Hr & Hf & Hn & Hd).
  split; [by exists q|]. intros Hpop Hsafe.
  destruct (pop_locked_refines cap q (shared c) Hr) as (f & q' & s' & -> & H1 & _ & _).
  { split; [|tauto]. intros ->. cbn in Hn. lia. }
  assert (In (frame_bytes f) (map frame_bytes (pushed c))) as Hin.
  { rewrite Hd. apply in_or_app. right. by left. }
  apply in_map_iff in Hin as (g & Hg & Hin). exists g, s'. rewrite Hg. done.
Qed.

(** A sequence of pushes and pops whose frames, headers and separators
    together stay below the size of the array behaves exactly as a first-in
    first-out queue: same results, and a pop blocks exactly when the queue is
    empty. *)
Theorem ring_run_is_fifo cap os :
  0 < cap -> Forall op_ok os -> total_bytes os < cap ->
  match fifo_run [] os with
  | None => ring_run cap 1 (init cap) os = Ret None
  | Some (q, outs) =>
      exists s, ring_run cap 1 (init cap) os = Ret (Some (s, outs)) /\ repr cap q s
  end.
Proof.
  intros Hcap Hok Hb.
  assert (linear cap [] (init cap)) as Hl by (repeat split; cbn; lia || done).
  pose proof (linear_run cap 0 os [] (init cap) Hl Hok Hb) as H.
  destruct (fifo_run [] os) as [[q outs]|]; [|done].
  destruct H as (s & -> & (? & ? & ? & ? & ?)). exists s. split; [done|].
  apply repr_linear; lia || done.
Qed.

(** When a push finds no room in a wrapped ring, [myallocate] drops whole
    frames, oldest first, and appends the new one, provided the room appears
    before the frames stored up to [buffer_end_pos] are used up; the semaphore
    is raised by one although frames were dropped. *)
Theorem push_drops_oldest cap fuel s f q1 q2 :
  laid cap (mem s) (read_pos s) q1 (buffer_end_pos s) -> q1 <> [] ->
  laid cap (mem s) 0 q2 (write_pos s) -> write_pos s < read_pos s ->
  frame_ok f -> read_pos s <= write_pos s + need f + 1 ->
  write_pos s + need f + 1 < last_start (read_pos s) q1 -> (length q1 <= fuel)%nat ->
  exists k s',
    (k < length q1)%nat /\
    pushFrame cap (S fuel) s (info f) (data f) = Ret s' /\
    repr cap (drop k q1 ++ q2 ++ [f]) s' /\ full s' = full s + 1.
Proof. apply push_discards. Qed.

(** A frame pushed into an empty ring that does not fit before the end of
    the array but fits at its beginning is not the next frame popped: the pop
    reads the never-written bytes at the old write position. *)
Theorem wrap_of_empty_ring_loses_frame cap s f :
  linear cap [] s -> frame_ok f -> write_pos s + 40 <= cap ->
  cap < write_pos s + need f -> need f + 1 < write_pos s ->
  load (mem s) (write_pos s) 40 = replicate 40 0 ->
  exists s1 s2,
    pushFrame cap 2 s (info f) (data f) = Ret s1 /\
    popFrame cap s1 = Ret (Some (s2, replicate 40 0)) /\
    replicate 40 0 <> frame_bytes f.
Proof.
  intros (Hr & Hw & He & Hl & Hn) Hf H40 Hbig Hfit Hz. cbn in Hl, Hn. pose proof (need_ge f Hf).
  pose proof (length_frame_bytes f Hf) as Hlen.
  unfold pushFrame. erewrite (push_locked_stores cap _ s f _ 0);
    [|done|lia|lia|apply myallocate_wrap; lia].
  ring_cbn. eexists _, _. split; [done|]. split.
  - rewrite Hl in *. unfold popFrame, sem_wait, sem_post. ring_cbn. rewrite Hn.
    change (Z.of_nat 0 + 1 =? 0) with false. cbv iota. unfold pop_locked, myfree, set_full, set_mem. ring_cbn.
    rewrite !frame_size_at_zero by (rewrite ?load_push_outside; lia || done). ring_cbn.
    unfold load_range, in_array.
    change (wrapU 64 (sizeof_FrameInfo + 0)) with 40.
    change (wrapU 64 (sizeof_FrameInfo + 0 + 1)) with 41.
    rewrite !(proj2 (Z.leb_le _ _)) by lia. ring_cbn.
    change (Z.to_nat 40) with 40%nat. rewrite load_push_outside, Hz by lia || done. done.
  - intros Heq. apply (f_equal length) in Heq. rewrite length_replicate in Heq. lia.
Qed.

(** [myallocate] never returns for a request larger than the array: the
    recursion wraps to the beginning again and again, whatever the state. *)
Theorem oversize_request_never_allocated cap n fuel s r :
  0 < cap < n -> 0 <= write_pos s -> myallocate cap fuel s n <> Ret r.
Proof.
  intros Hn. revert s. induction fuel as [|fuel IH]; intros s Hw; [done|].
  cbn [myallocate]. destruct (if (_ && _)%bool then _ else _) as [s1| |] eqn:H1; [|done..].
  assert (write_pos s1 = write_pos s) as Hw1.
  { destruct (_ && _)%bool in H1; [by apply (discard_loop_write cap (S fuel) s n)|by injection H1 as ->]. }
  cbn [outcome_bind]. rewrite (proj2 (Z.ltb_lt _ _)) by lia.
  destruct (if _ =? _ then _ else _) as [s2| |] eqn:H2; [|done..]. cbn [outcome_bind].
  apply IH. destruct (_ =? _) in H2.
  - apply myfree_write in H2. rewrite H2. ring_cbn. lia.
  - injection H2 as <-. ring_cbn. lia.
Qed.

(** * Concrete instances *)

(** A frame of [n] bytes of value [b]. *)
Definition sample_frame (b : Z) (n : nat) : frame :=
  Frame (FrameInfo 1 720 480 2 1 40 25 0 (Z.of_nat n)) (replicate n b).

Lemma sample_frame_ok b n :
  is_byte b -> Z.of_nat n < 1000000 -> frame_ok (sample_frame b n).
Proof.
  intros Hb Hn. unfold frame_ok, sample_frame. cbn [info data size].
  rewrite length_replicate. unfold sizeof_FrameInfo.
  split; [done|]. split; [by apply Forall_replicate|lia].
Qed.

(** Decides the layout of sample frames in a concrete ring. *)
Ltac solve_laid :=
  repeat match goal with
  | |- frame_ok _ => apply sample_frame_ok; unfold is_byte; lia
  | |- laid _ _ _ (_ :: _) _ => cbn [laid]
  | |- Forall _ (_ :: _) => apply Forall_cons
  | |- Forall _ [] => apply Forall_nil_2
  | |- op_ok _ => cbn [op_ok]
  | |- True => exact I
  | |- _ /\ _ => split
  | |- _ => vm_compute; (reflexivity || congruence)
  end.

Definition ring_after (cap : Z) (os : list op) : ring :=
  match ring_run cap 2 (init cap) os with
  | Ret (Some (s, _)) => s
  | _ => init cap
  end.

(** One producer and one consumer, stopped after [sem_wait]. *)
Lemma example_schedule :
  exists c, rtc (thread_step 100) (start 100) c /\ popping c = 1%nat /\
    write_pos (shared c) < 100.
Proof.
  assert (frame_ok (sample_frame 7 3)) as Hok by (apply sample_frame_ok; unfold is_byte; lia).
  destruct (linear_push 100 1 [] (init 100) (sample_frame 7 3)) as (s & Hp & Hl & Hw);
    [unfold linear; solve_laid|done|vm_compute; reflexivity|].
  destruct Hl as (_ & ? & _ & _ & Hn). unfold pushFrame in Hp.
  destruct (push_locked 100 2 (init 100) _ _) as [s0| |] eqn:Hs0; cbn in Hp; [|done..].
  injection Hp as <-. eexists. split; [|split].
  - eapply rtc_l; [by eapply (step_push 100 (start 100))|].
    eapply rtc_l; [by eapply step_post|]. eapply rtc_l; [|apply rtc_refl].
    eapply step_wait. cbn [shared]. unfold sem_wait. rewrite Hn. reflexivity.
  - done.
  - done.
Qed.

Lemma threads_fifo_witness :
  exists c, rtc (thread_step 100) (start 100) c /\ popping c = 1%nat /\
    exists f s, In f (pushed c) /\ pop_locked 100 (shared c) = Ret (s, frame_bytes f).
Proof.
  destruct example_schedule as (c & Hrun & Hp & Hw).
  exists c. split; [done|]. split; [done|].
  destruct (threads_fifo 100 c ltac:(lia) Hrun) as [_ H].
  apply H; [rewrite Hp; lia|by right].
Defined.

Lemma ring_run_is_fifo_witness :
  exists s, ring_run 200 1 (init 200)
    [Push (sample_frame 7 3); Push (sample_frame 9 4); Pop; Pop] =
    Ret (Some (s, [frame_bytes (sample_frame 7 3); frame_bytes (sample_frame 9 4)])).
Proof.
  pose proof (ring_run_is_fifo 200 [Push (sample_frame 7 3); Push (sample_frame 9 4); Pop; Pop]) as H.
  destruct H as (s & H & _); [lia| |reflexivity|by exists s].
  solve_laid.
Defined.

(** A wrapped ring of 300 bytes: frames of 0, 0 and 60 bytes, the first one
    popped, then one of 100 bytes at the end and one of 0 at the beginning. *)
Definition wrapped_ring : ring :=
  ring_after 300 [Push (sample_frame 1 60); Push (sample_frame 2 5); Push (sample_frame 3 90);
                  Pop; Push (sample_frame 4 10)].

Lemma push_drops_oldest_witness :
  exists k s',
    (k < 2)%nat /\
    pushFrame 300 3 wrapped_ring (info (sample_frame 5 20)) (data (sample_frame 5 20)) = Ret s' /\
    repr 300 (drop k [sample_frame 2 5; sample_frame 3 90] ++ [sample_frame 4 10] ++ [sample_frame 5 20]) s' /\
    full s' = full wrapped_ring + 1.
Proof.
  apply (push_drops_oldest 300 2 wrapped_ring (sample_frame 5 20)
           [sample_frame 2 5; sample_frame 3 90] [sample_frame 4 10]).
  - solve_laid.
  - congruence.
  - solve_laid.
  - vm_compute. reflexivity.
  - apply sample_frame_ok; unfold is_byte; lia.
  - vm_compute. congruence.
  - vm_compute. reflexivity.
  - cbn [length]. lia.
Defined.

(** Frames of 100 and then 40 bytes through a ring of 200 bytes. *)
Definition drained_ring : ring := ring_after 200 [Push (sample_frame 1 100); Pop].

Lemma wrap_of_empty_ring_loses_frame_witness :
  exists s1 s2,
    pushFrame 200 2 drained_ring (info (sample_frame 2 40)) (data (sample_frame 2 40)) = Ret s1 /\
    popFrame 200 s1 = Ret (Some (s2, replicate 40 0)) /\
    replicate 40 0 <> frame_bytes (sample_frame 2 40).
Proof.
  apply wrap_of_empty_ring_loses_frame.
  - unfold linear. solve_laid.
  - apply sample_frame_ok; unfold is_byte; lia.
  - vm_compute. congruence.
  - vm_compute. congruence.
  - vm_compute. congruence.
  - vm_compute. reflexivity.
Defined.

Lemma oversize_request_never_allocated_witness :
  myallocate MAX_MEMORY 1000 (init MAX_MEMORY) (MAX_MEMORY + 1) <> Ret (init MAX_MEMORY, 0).
Proof.
  apply oversize_request_never_allocated; unfold MAX_MEMORY; cbn; lia.
Defined.
