(* ===== verification/CameraRecorder.v ===== *)
(** The recorder of the camera library (src/camera/AVdataTransfer.c): the loop
    that pops frames from the ring and writes them to record.file.

    fwrite is asked for eight times the bytes of the block that popFrame
    allocated; what the heap holds after a block is the parameter [beyond]. *)

From S2P Require Import Prelude CameraRing.
Import Ring Fifo.

Module Recorder.

(** sizeof(char pointer). *)
Definition sizeof_ptr : Z := 8.

Definition MAX_RECORD : Z := 5 * 1024 * 1024.

(** The locals of StartDataTransfer: [offset], an unsigned int, and the content
    of the file behind fpw. *)
Record recorder := MkRecorder { offset : Z; file : list Z }.

(** topframe->size. *)
Definition top_size (top : list Z) : Z := le_val (take 8 (drop 32 top)).

Section Transfer.
Context (beyond : list Z -> nat -> list Z).

(** fwrite of [n] items of [size] bytes that begin at [block]. *)
Definition fwrite (block : list Z) (size n : Z) (file : list Z) : list Z :=
  let bytes := Z.to_nat (size * n) in
  file ++ take bytes block ++ beyond block (bytes - length block).

(** fopen("record.file", "wb"). *)
Definition fopen_wb : list Z := [].

(** One round of the loop, for the frame [top] that popFrame returned. *)
Definition transfer (r : recorder) (top : list Z) : recorder :=
  let n := wrapU 64 (sizeof_FrameInfo + top_size top) in
  if offset r <? MAX_RECORD
  then MkRecorder (wrapU 32 (offset r + n)) (fwrite top sizeof_ptr n (file r))
  else MkRecorder (offset r) fopen_wb.

(** The rounds for a sequence of popped frames. *)
Definition StartDataTransfer (tops : list (list Z)) : recorder :=
  fold_left transfer tops (MkRecorder 0 fopen_wb).

End Transfer.
End Recorder.

Import Recorder.

Definition needs (fs : list frame) : Z := foldr (fun f n => need f + n) 0 fs.

(** What one round writes: the frame, then seven times as many bytes of the
    heap. *)
Definition written (beyond : list Z -> nat -> list Z) (f : frame) : list Z :=
  frame_bytes f ++ beyond (frame_bytes f) (7 * Z.to_nat (need f))%nat.

Lemma top_size_frame f : frame_ok f -> top_size (frame_bytes f) = size (info f).
Proof.
  intros (_ & _ & Hr). unfold sizeof_FrameInfo in Hr. apply header_size. lia.
Qed.

Lemma length_frame_need f : frame_ok f -> Z.of_nat (length (frame_bytes f)) = need f.
Proof. intros (Hs & _). unfold frame_bytes, need. rewrite length_app, length_header_bytes. unfold sizeof_FrameInfo. lia. Qed.

Lemma transfer_frame beyond r f :
  frame_ok f ->
  transfer beyond r (frame_bytes f) =
    if offset r <? MAX_RECORD
    then MkRecorder (wrapU 32 (offset r + need f)) (file r ++ written beyond f)
    else MkRecorder (offset r) [].
Proof.
  intros Hf. pose proof (length_frame_need f Hf) as Hl. pose proof Hf as (_ & _ & Hr).
  unfold transfer. rewrite top_size_frame by done. fold (need f). unfold need in *.
  rewrite (wrapU_small 64) by (unfold sizeof_FrameInfo in *; lia).
  case_if E; [|done]. f_equal. unfold fwrite, written, sizeof_ptr, need.
  rewrite take_ge by lia. do 3 f_equal. lia.
Qed.

Lemma removelast_last {A} (l : list A) x : removelast (l ++ [x]) = l.
Proof. rewrite removelast_app by done. apply app_nil_r. Qed.

Lemma needs_app fs gs : needs (fs ++ gs) = needs fs + needs gs.
Proof. induction fs as [|f fs IH]; cbn [app needs foldr]; [done|]. fold (needs (fs ++ gs)) (needs fs). lia. Qed.

Lemma needs_nonneg fs : Forall frame_ok fs -> 0 <= needs fs.
Proof. induction 1 as [|f fs Hf Hfs IH]; cbn [needs foldr]; [done|]. fold (needs fs). pose proof (need_ge f Hf). lia. Qed.

(** The offset stops at the first sum that reaches the limit. *)
Lemma recorder_state beyond fs :
  Forall frame_ok fs -> Forall (fun f => need f < 2 ^ 32 - MAX_RECORD) fs ->
  let r := StartDataTransfer beyond (map frame_bytes fs) in
  if needs (removelast fs) <? MAX_RECORD
  then offset r = needs fs /\ file r = flat_map (written beyond) fs
  else MAX_RECORD <= offset r /\ file r = [].
Proof.
  intros Hok Hb. cbv zeta. unfold StartDataTransfer.
  induction fs as [|f fs IH] using rev_ind; [done|].
  apply Forall_app in Hok as [Hok Hf], Hb as [Hb Hfb]. apply Forall_cons in Hf as [Hf _], Hfb as [Hfb _].
  specialize (IH Hok Hb). rewrite map_app, fold_left_app, removelast_last. cbn [map fold_left].
  rewrite transfer_frame by done. set (r := fold_left _ _ _) in *.
  rewrite needs_app, flat_map_app. cbn [needs foldr flat_map]. rewrite app_nil_r, Z.add_0_r.
  assert (needs (removelast fs) <= needs fs) as Hmono.
  { destruct fs as [|g fs _] using rev_ind; [done|]. rewrite removelast_last, needs_app. cbn [needs foldr].
    apply Forall_app in Hok as [_ Hg]. apply Forall_cons in Hg as [Hg _]. pose proof (need_ge g Hg). lia. }
  pose proof (needs_nonneg fs Hok) as H0. pose proof (need_ge f Hf) as Hn.
  destruct (Z.ltb_spec (needs (removelast fs)) MAX_RECORD) as [Hlt|Hge].
  - destruct IH as [-> ->]. destruct (Z.ltb_spec (needs fs) MAX_RECORD); cbn [offset file]; [|done].
    rewrite wrapU_small by lia. done.
  - destruct IH as [Ho Hfile]. destruct (Z.ltb_spec (needs fs) MAX_RECORD); [lia|].
    destruct (Z.ltb_spec (offset r) MAX_RECORD); [lia|]. done.
Qed.

(** the recorder writes eight times what it should and then loses all of
    it.  While the frames before the last one are below 5 MiB the file holds,
    for every frame in the order of the pops, the frame and seven times as many
    bytes from behind its block; after that offset is never reset, and every
    further frame empties the file again. *)
Theorem recorder_loses_recording beyond fs :
  Forall frame_ok fs -> Forall (fun f => need f < 2 ^ 32 - MAX_RECORD) fs ->
  (forall b n, length (beyond b n) = n) ->
  let r := StartDataTransfer beyond (map frame_bytes fs) in
  (needs (removelast fs) < MAX_RECORD -> file r = flat_map (written beyond) fs) /\
  (MAX_RECORD <= needs (removelast fs) -> file r = []) /\
  Forall (fun f => Z.of_nat (length (written beyond f)) = 8 * need f) fs.
Proof.
  intros Hok Hb Hlen. cbv zeta. pose proof (recorder_state beyond fs Hok Hb) as H. cbv zeta in H.
  split_and!.
  - intros Hlt. rewrite (proj2 (Z.ltb_lt _ _)) in H by done. tauto.
  - intros Hge. rewrite (proj2 (Z.ltb_ge _ _)) in H by done. tauto.
  - eapply Forall_impl; [exact Hok|]. intros f Hf. unfold written. rewrite length_app, Hlen.
    pose proof (length_frame_need f Hf). lia.
Qed.

Lemma recorder_loses_recording_witness :
  let r := StartDataTransfer (fun _ n => repeat 0 n) (map frame_bytes [sample_frame 1 3; sample_frame 2 2]) in
  file r = flat_map (written (fun _ n => repeat 0 n)) [sample_frame 1 3; sample_frame 2 2].
Proof.
  cbv zeta. apply (recorder_loses_recording (fun _ n => repeat 0 n) [sample_frame 1 3; sample_frame 2 2]).
  - constructor; [|constructor; [|done]]; apply sample_frame_ok; unfold is_byte; lia.
  - repeat constructor.
  - intros b n. apply repeat_length.
  - reflexivity.
Defined.
