(* ===== verification/CameraMessage.v ===== *)
(** The control channel of the camera (src/camera/MessageHandler.c, .h).

    The kernel's sockets are an interface, the class [Net]: what [recv], [send]
    and [connect] do to a descriptor, with the laws the code relies on in
    [NetLaws]; [Stream] is an instance with byte queues.  [malloc] is a
    parameter that may fail, and the global and the local variable named
    [client_socket] are kept apart as in the source. *)

From S2P Require Import Prelude.

(** * Sockets *)

(** [net_recv] gives the return value of recv(2) and the bytes stored,
    [net_send] that of send(2), [net_connect] that of connect(2). *)
Class Net (N : Type) := {
  net_recv : N -> Z -> Z -> N * (Z * list Z);
  net_send : N -> Z -> list Z -> N * Z;
  net_connect : N -> Z -> N * Z }.

(** recv(2) stores as many bytes as it returns, at most as many as asked for. *)
Class NetLaws (N : Type) `{Net N} := {
  recv_length : forall n fd k n' len bs,
    0 <= k -> net_recv n fd k = (n', (len, bs)) ->
    bytes_ok bs /\ (0 <= len -> len = Z.of_nat (length bs) /\ len <= k) }.

(** * The code *)

Module Message.

(** MessageHandler.h: the packed message header (12 bytes). *)
Record MsgHeader := MkHeader {
  ID : Z;
  size : Z;
  lrc : Z;
  reserved : Z;
  referid : Z }.

Definition sizeof_MsgHeader : Z := 12.

Definition header_bytes (h : MsgHeader) : list Z :=
  le_bytes 2 (ID h) ++ le_bytes 2 (size h) ++ le_bytes 2 (lrc h) ++
  le_bytes 2 (reserved h) ++ le_bytes 4 (referid h).

Definition header_of_bytes (l : list Z) : MsgHeader :=
  MkHeader (le_val (take 2 l)) (le_val (take 2 (drop 2 l))) (le_val (take 2 (drop 4 l)))
    (le_val (take 2 (drop 6 l))) (le_val (take 4 (drop 8 l))).

(** enum MSGID *)
Definition SERVER_MESSAGE_BEGIN : Z := 0.
Definition HANDSHAKE : Z := 1.
Definition GET_CAMERA_INFO : Z := 2.
Definition ROTATE_CAMERA : Z := 3.
Definition CAMERICA_MESSAGE_BEGIN : Z := 1000.
Definition GET_DATA_SERVER_INFO : Z := 1001.

Definition MSG_VERSION : Z := 1.

Definition camera_id : list Z := $"C111111".

(** What the handlers print. *)
Inductive event :=
| ServerInfo (ip : list Z) (port : Z)
| Rotate (direction degree : Z).

Section Code.

Context {N : Type} {HNet : Net N}.

(** Whether [malloc] of that many bytes succeeds. *)
Context (malloc : Z -> bool).

(** The stack bytes of the uninitialised [MsgHeader request] of [pollMsg]. *)
Context (stack : MsgHeader).

(** The process: the global [client_socket], the sockets, the number of live
    heap messages and what was printed. *)
Record proc := MkProc {
  client_socket : Z;
  net : N;
  live : Z;
  log : list event }.

Definition set_net p n := MkProc (client_socket p) n (live p) (log p).
Definition set_live p k := MkProc (client_socket p) (net p) k (log p).
Definition add_log p e := MkProc (client_socket p) (net p) (live p) (log p ++ [e]).

(** A received message: header and data. *)
Definition message : Type := MsgHeader * list Z.

Definition getMsg (p : proc) : proc * option message :=
  let '(n, (length, hdr)) := net_recv (net p) (client_socket p) sizeof_MsgHeader in
  let p := set_net p n in
  if negb (length =? sizeof_MsgHeader) then (p, None)
  else
    let header := header_of_bytes hdr in
    if negb (malloc (sizeof_MsgHeader + size header)) then (p, None)
    else
      let p := set_live p (live p + 1) in
      if negb (size header =? 0) then
        let '(n, (length, data)) := net_recv (net p) (client_socket p) (size header) in
        let p := set_net p n in
        if negb (length =? size header) then (p, None)
        else (p, Some (header, data))
      else (p, Some (header, [])).

(** [header->size = size] stores into a UINT16; the header is the caller's. *)
Definition sendMsg (p : proc) (header : MsgHeader) (sz : Z) (data : list Z)
  : proc * (MsgHeader * Z) :=
  let header := MkHeader (ID header) (wrapU 16 sz) (lrc header) (reserved header)
                  (referid header) in
  let '(n, rc) := net_send (net p) (client_socket p) (header_bytes header) in
  let p := set_net p n in
  if rc <? 0 then (p, (header, -1))
  else if 0 <? sz then
    let '(n, rc) := net_send (net p) (client_socket p) (take (Z.to_nat sz) data) in
    let p := set_net p n in
    if rc <? 0 then (p, (header, -1)) else (p, (header, 0))
  else (p, (header, 0)).

(** MYFREEMSG *)
Definition free_msg (p : proc) : proc := set_live p (live p - 1).

(** printf's %s: the bytes up to a NUL, which must lie in the object. *)
Fixpoint c_string (l : list Z) : outcome (list Z) :=
  match l with
  | [] => Undefined
  | b :: l => if b =? 0 then Ret [] else let! s := c_string l in Ret (b :: s)
  end.

(** A field of [k] bytes at offset [o] of the message data. *)
Definition field (l : list Z) (o k : nat) : outcome (list Z) :=
  if (o + k <=? length l)%nat then Ret (take k (drop o l)) else Undefined.

Definition pollMsg (p : proc) : outcome (proc * Z) :=
  let '(p, msg) := getMsg p in
  match msg with
  | None => Ret (p, 0)
  | Some (h, data) =>
      if ID h =? HANDSHAKE then
        let '(p, _) := sendMsg p h 4 (le_bytes 4 MSG_VERSION) in
        let p := free_msg p in
        let request := MkHeader GET_DATA_SERVER_INFO 0 (lrc stack) (reserved stack)
                         (referid stack) in
        let '(p, _) := sendMsg p request 0 [] in
        Ret (p, 0)
      else if ID h =? GET_DATA_SERVER_INFO then
        let! port := field data 0 4 in
        let! ip := c_string (drop 4 data) in
        Ret (free_msg (add_log p (ServerInfo ip (wrapS 32 (le_val port)))), 0)
      else if ID h =? GET_CAMERA_INFO then
        let '(p, _) := sendMsg p h (Z.of_nat (length camera_id) + 1) (camera_id ++ [0]) in
        Ret (free_msg p, 0)
      else if ID h =? ROTATE_CAMERA then
        let! direction := field data 0 4 in
        let! degree := field data 4 4 in
        Ret (free_msg (add_log p (Rotate (wrapS 32 (le_val direction))
                                         (wrapS 32 (le_val degree)))), 0)
      else Ret (p, 0)
  end.

(** The loop of [MessageHandler]: [sock] is its own variable [client_socket],
    which hides the global one. *)
Inductive handler :=
| Connecting
| Polling
| Exited.

Definition handler_step (sock : Z) (st : handler) (p : proc) : outcome (handler * proc) :=
  match st with
  | Connecting =>
      let '(n, rc) := net_connect (net p) sock in
      let p := set_net p n in
      if rc <? 0 then Ret (Connecting, p) else Ret (Polling, p)
  | Polling =>
      let! (p, rc) := pollMsg p in
      if negb (rc =? 0) then Ret (Exited, p) else Ret (Polling, p)
  | Exited => Ret (Exited, p)
  end.

Fixpoint handler_run (k : nat) (sock : Z) (st : handler) (p : proc)
  : outcome (handler * proc) :=
  match k with
  | O => Ret (st, p)
  | S k => let! (st, p) := handler_step sock st p in handler_run k sock st p
  end.

End Code.
End Message.
Import Message.
Arguments proc N : clear implicits.

(** * Byte-stream sockets *)

Module Stream.

(** The bytes that have arrived on a descriptor and those sent on it. *)
Record conn := MkConn { inbox : list Byte.byte; outbox : list Z }.

Definition code (b : Byte.byte) : Z := Z.of_N (Byte.to_N b).

Definition recv (n : gmap Z conn) (fd k : Z) : gmap Z conn * (Z * list Z) :=
  match n !! fd with
  | None => (n, (-1, []))
  | Some c =>
      let bs := map code (take (Z.to_nat k) (inbox c)) in
      (<[fd := MkConn (drop (Z.to_nat k) (inbox c)) (outbox c)]> n,
       (Z.of_nat (length bs), bs))
  end.

Definition send (n : gmap Z conn) (fd : Z) (bs : list Z) : gmap Z conn * Z :=
  match n !! fd with
  | None => (n, -1)
  | Some c => (<[fd := MkConn (inbox c) (outbox c ++ bs)]> n, Z.of_nat (length bs))
  end.

(** A descriptor that exists connects. *)
Definition connect (n : gmap Z conn) (fd : Z) : gmap Z conn * Z :=
  match n !! fd with None => (n, -1) | Some _ => (n, 0) end.

#[export] Instance net : Net (gmap Z conn) :=
  {| net_recv := recv; net_send := send; net_connect := connect |}.

Lemma code_ok b : is_byte (code b).
Proof. unfold is_byte, code. pose proof (Byte.to_N_bounded b). lia. Qed.

#[export] Instance net_laws : NetLaws (gmap Z conn).
Proof.
  constructor. intros n fd k n' len bs Hk. cbn. unfold recv.
  destruct (n !! fd) as [c|]; intros [= <- <- <-].
  - split.
    + apply Forall_forall. intros z Hz. apply list_elem_of_In, in_map_iff in Hz as (b & <- & _).
      apply code_ok.
    + intros _. split; [done|]. rewrite length_map, length_take. lia.
  - split; [apply bytes_ok_nil|lia].
Qed.

End Stream.

(** * Headers *)

Definition header_ok (h : MsgHeader) : Prop :=
  0 <= ID h < 2 ^ 16 /\ 0 <= size h < 2 ^ 16 /\ 0 <= lrc h < 2 ^ 16 /\
  0 <= reserved h < 2 ^ 16 /\ 0 <= referid h < 2 ^ 32.

Lemma length_msg_header_bytes h : length (header_bytes h) = 12%nat.
Proof. unfold header_bytes. rewrite !length_app, !length_le_bytes. done. Qed.

(** Decoding undoes encoding. *)
Lemma header_of_header_bytes h : header_ok h -> header_of_bytes (header_bytes h) = h.
Proof.
  destruct h as [i s l r f]. unfold header_ok, header_bytes, header_of_bytes.
  cbn [ID size lrc reserved referid]. intros (Hi & Hs & Hl & Hr & Hf).
  f_equal.
  - exact (le_val_small 2 i Hi).
  - exact (le_val_small 2 s Hs).
  - exact (le_val_small 2 l Hl).
  - exact (le_val_small 2 r Hr).
  - exact (le_val_small 4 f Hf).
Qed.

(** What [getMsg] decodes from the bytes of any network fits the header. *)
Lemma header_of_bytes_ok l : bytes_ok l -> header_ok (header_of_bytes l).
Proof.
  assert (forall k j, bytes_ok l -> 0 <= le_val (take k (drop j l)) < 256 ^ Z.of_nat k) as H.
  { intros k j Hl. assert (bytes_ok (take k (drop j l))) as Hb by (by apply Forall_take, Forall_drop).
    apply le_val_range in Hb. pose proof (length_take (drop j l) k).
    assert (256 ^ Z.of_nat (length (take k (drop j l))) <= 256 ^ Z.of_nat k)
      by (apply Z.pow_le_mono_r; lia). lia. }
  intros Hl. unfold header_ok, header_of_bytes. cbn [ID size lrc reserved referid].
  change (take 2 l) with (take 2 (drop 0 l)).
  change (2 ^ 16) with (256 ^ Z.of_nat 2). change (2 ^ 32) with (256 ^ Z.of_nat 4).
  repeat split; apply H, Hl.
Qed.

(** * Messages over a byte stream *)

Section OverStream.
Import Stream.

Context (malloc : Z -> bool) (stack : MsgHeader).

Definition sproc : Type := proc (gmap Z conn).

(** The connection the code uses: that of the global [client_socket]. *)
Definition its_conn (p : sproc) : option conn := Message.net p !! client_socket p.

(** What one [sendMsg] puts on the wire. *)
Definition wire (h : MsgHeader) (sz : Z) (data : list Z) : list Z :=
  header_bytes (MkHeader (ID h) (wrapU 16 sz) (lrc h) (reserved h) (referid h)) ++
  take (Z.to_nat sz) data.

Lemma sendMsg_stream (p : sproc) c h sz data :
  its_conn p = Some c ->
  exists h',
    sendMsg p h sz data =
      (set_net p (<[client_socket p := MkConn (inbox c) (outbox c ++ wire h sz data)]>
                    (Message.net p)), (h', 0)).
Proof.
  intros Hc. unfold its_conn in Hc. unfold sendMsg, wire. cbn [net_send net]. unfold send.
  rewrite Hc. rewrite (proj2 (Z.ltb_ge _ 0)) by lia.
  destruct (Z.ltb_spec 0 sz) as [Hs|Hs].
  - cbn [Message.net client_socket set_net]. rewrite lookup_insert_eq.
    rewrite (proj2 (Z.ltb_ge _ 0)) by lia. cbn [inbox outbox]. rewrite insert_insert_eq.
    eexists. rewrite <- app_assoc. done.
  - replace (Z.to_nat sz) with 0%nat by lia. rewrite take_0, app_nil_r. eauto.
Qed.

Lemma map_code_split l a b :
  map code l = a ++ b -> map code (take (length a) l) = a /\ map code (drop (length a) l) = b.
Proof.
  intros H. rewrite <- firstn_map, <- skipn_map, H.
  change (firstn (length a) (a ++ b)) with (take (length a) (a ++ b)).
  change (skipn (length a) (a ++ b)) with (drop (length a) (a ++ b)).
  rewrite take_app_length, drop_app_length. done.
Qed.

(** Receiving what was sent. *)
Lemma getMsg_stream (p : sproc) c h data rest :
  its_conn p = Some c -> header_ok h -> size h = Z.of_nat (length data) ->
  malloc (sizeof_MsgHeader + size h) = true ->
  map code (inbox c) = header_bytes h ++ data ++ rest ->
  exists c',
    getMsg malloc p =
      (MkProc (client_socket p) (<[client_socket p := c']> (Message.net p)) (live p + 1) (log p),
       Some (h, data)) /\
    map code (inbox c') = rest /\ outbox c' = outbox c.
Proof.
  intros Hc Hh Hs Hm Hin. unfold its_conn in Hc. unfold getMsg. cbn [net_recv net]. unfold recv.
  rewrite Hc. destruct (map_code_split _ _ _ Hin) as [Hh1 Hr1].
  rewrite length_msg_header_bytes in Hh1, Hr1.
  change (Z.to_nat sizeof_MsgHeader) with 12%nat. rewrite Hh1, length_msg_header_bytes.
  cbn [negb Z.eqb]. change (Z.of_nat 12 =? sizeof_MsgHeader) with true. cbn [negb].
  rewrite header_of_header_bytes, Hm by done. cbn [negb].
  cbn [Message.net client_socket set_net set_live live log].
  destruct (map_code_split _ _ _ Hr1) as [Hd Hrest].
  destruct (Z.eqb_spec (size h) 0) as [H0|H0]; cbn [negb].
  - assert (data = []) as -> by (destruct data; [done|cbn in Hs; lia]).
    eexists. split; [done|]. done.
  - rewrite lookup_insert_eq. cbn [inbox outbox]. rewrite Hs, Nat2Z.id, Hd, Z.eqb_refl.
    cbn [negb]. rewrite insert_insert_eq. eexists. split; [done|]. done.
Qed.

(** [p'] differs from [p] only on the connection of [client_socket], where the
    bytes [sent] were added to the outbox. *)
Definition only_sent (p p' : sproc) (sent : list Z) : Prop :=
  client_socket p' = client_socket p /\
  (forall fd, fd <> client_socket p -> Message.net p' !! fd = Message.net p !! fd) /\
  (forall c, its_conn p = Some c ->
     exists c', its_conn p' = Some c' /\ outbox c' = outbox c ++ sent).

Lemma only_sent_refl p : only_sent p p [].
Proof. split; [done|]. split; [done|]. intros c Hc. exists c. rewrite app_nil_r. done. Qed.

Lemma only_sent_trans p1 p2 p3 a b :
  only_sent p1 p2 a -> only_sent p2 p3 b -> only_sent p1 p3 (a ++ b).
Proof.
  intros (H1 & H2 & H3) (G1 & G2 & G3). split; [congruence|]. split.
  - intros fd Hfd. rewrite G2, H2 by congruence. done.
  - intros c Hc. destruct (H3 c Hc) as (c1 & Hc1 & Ho1). destruct (G3 c1 Hc1) as (c2 & Hc2 & Ho2).
    exists c2. rewrite Ho2, Ho1, app_assoc. done.
Qed.

(** [live] and [log] are not part of the connection. *)
Lemma only_sent_live p p' a k : only_sent p p' a -> only_sent p (set_live p' k) a.
Proof. done. Qed.

Lemma only_sent_log p p' a e : only_sent p p' a -> only_sent p (add_log p' e) a.
Proof. done. Qed.

Lemma only_sent_recv (p : sproc) k :
  only_sent p (set_net p (fst (recv (Message.net p) (client_socket p) k))) [].
Proof.
  unfold recv. split; [done|]. destruct (Message.net p !! client_socket p) as [c|] eqn:Hc.
  - split; [intros fd Hfd; cbn; rewrite lookup_insert_ne by done; done|].
    intros c0 Hc0. unfold its_conn in *. cbn. rewrite lookup_insert_eq.
    eexists. split; [done|]. rewrite app_nil_r. cbn. congruence.
  - split; [done|]. intros c0 Hc0. unfold its_conn in Hc0. congruence.
Qed.

Lemma only_sent_getMsg p : only_sent p (fst (getMsg malloc p)) [].
Proof.
  unfold getMsg. cbn [net_recv net].
  pose proof (only_sent_recv p sizeof_MsgHeader) as H1.
  destruct (recv (Message.net p) (client_socket p) sizeof_MsgHeader) as [n1 [len1 hdr]].
  cbn [fst] in H1. case_if E1; [done|]. case_if E2; [done|]. case_if E3; [|done].
  set (p1 := set_live (set_net p n1) _).
  pose proof (only_sent_recv p1 (size (header_of_bytes hdr))) as H2.
  destruct (recv (Message.net p1) _ _) as [n2 [len2 data]]. cbn [fst] in H2.
  assert (only_sent p (set_net p1 n2) []) as H3 by exact (only_sent_trans _ _ _ [] [] H1 H2).
  case_if E4; done.
Qed.

Lemma only_sent_sendMsg (p : sproc) h sz data :
  is_Some (its_conn p) -> only_sent p (fst (sendMsg p h sz data)) (wire h sz data).
Proof.
  intros [c Hc]. destruct (sendMsg_stream p c h sz data Hc) as [h' ->]. cbn [fst].
  split; [done|]. split; [intros fd Hfd; cbn; rewrite lookup_insert_ne by done; done|].
  intros c0 Hc0. unfold its_conn in *. cbn. rewrite lookup_insert_eq.
  eexists. split; [done|]. cbn. congruence.
Qed.

Lemma only_sent_conn p p' a : only_sent p p' a -> is_Some (its_conn p) -> is_Some (its_conn p').
Proof. intros (_ & _ & H) [c Hc]. destruct (H c Hc) as (c' & -> & _). done. Qed.

(** What the camera answers to a message. *)
Definition replies (m : option message) : list Z :=
  match m with
  | None => []
  | Some (h, _) =>
      if ID h =? HANDSHAKE then
        wire h 4 (le_bytes 4 MSG_VERSION) ++
        wire (MkHeader GET_DATA_SERVER_INFO 0 (lrc stack) (reserved stack) (referid stack)) 0 []
      else if ID h =? GET_CAMERA_INFO then wire h 8 (camera_id ++ [0])
      else []
  end.

(** The ids [pollMsg] has a case for. *)
Definition known_id (h : MsgHeader) : bool :=
  (ID h =? HANDSHAKE) || (ID h =? GET_DATA_SERVER_INFO) ||
  (ID h =? GET_CAMERA_INFO) || (ID h =? ROTATE_CAMERA).

Lemma live_sendMsg (p : sproc) h sz data : live (fst (sendMsg p h sz data)) = live p.
Proof.
  unfold sendMsg. destruct (net_send _ _ _) as [n1 r1]. case_if E1; [done|].
  case_if E2; [|done]. destruct (net_send _ _ _) as [n2 r2]. case_if E3; done.
Qed.

Lemma pollMsg_spec (p p' : sproc) rc :
  is_Some (its_conn p) -> pollMsg malloc stack p = Ret (p', rc) ->
  rc = 0 /\ only_sent p p' (replies (snd (getMsg malloc p))) /\
  live p' = live (fst (getMsg malloc p)) -
            match snd (getMsg malloc p) with
            | Some (h, _) => if known_id h then 1 else 0
            | None => 0
            end.
Proof.
  intros Hc Hp. pose proof (only_sent_getMsg p) as H1. unfold pollMsg in Hp.
  destruct (getMsg malloc p) as [p1 [[h data]|]]; cbn [fst snd] in *.
  2: { injection Hp as <- <-. split; [done|]. split; [done|lia]. }
  pose proof (only_sent_conn _ _ _ H1 Hc) as Hc1.
  unfold replies, known_id. destruct (ID h =? HANDSHAKE) eqn:E1; cbn [orb].
  { pose proof (only_sent_sendMsg p1 h 4 (le_bytes 4 MSG_VERSION) Hc1) as H2.
    pose proof (live_sendMsg p1 h 4 (le_bytes 4 MSG_VERSION)) as L2.
    destruct (sendMsg p1 h 4 (le_bytes 4 MSG_VERSION)) as [p2 r2]. cbn [fst] in *.
    set (req := MkHeader _ _ _ _ _) in *. set (p3 := free_msg p2) in *.
    assert (only_sent p1 p3 (wire h 4 (le_bytes 4 MSG_VERSION))) as H3 by exact H2.
    pose proof (only_sent_sendMsg p3 req 0 [] (only_sent_conn _ _ _ H3 Hc1)) as H4.
    pose proof (live_sendMsg p3 req 0 []) as L4.
    destruct (sendMsg p3 req 0 []) as [p4 r4]. cbn [fst] in *. injection Hp as <- <-.
    split; [done|]. split; [|subst p3; cbn in L4; lia].
    exact (only_sent_trans _ _ _ [] _ H1 (only_sent_trans _ _ _ _ _ H3 H4)). }
  destruct (ID h =? GET_DATA_SERVER_INFO) eqn:E2; cbn [orb].
  { rewrite (proj2 (Z.eqb_neq (ID h) GET_CAMERA_INFO)) by (boolify; unfold GET_CAMERA_INFO, GET_DATA_SERVER_INFO in *; lia).
    destruct (field data 0 4); [|done..]. destruct (c_string _); [|done..].
    injection Hp as <- <-. split; [done|]. split; [done|]. cbn. lia. }
  destruct (ID h =? GET_CAMERA_INFO) eqn:E3; cbn [orb].
  { pose proof (only_sent_sendMsg p1 h 8 (camera_id ++ [0]) Hc1) as H2.
    pose proof (live_sendMsg p1 h 8 (camera_id ++ [0])) as L2.
    change (Z.of_nat (length camera_id) + 1) with 8 in Hp.
    destruct (sendMsg p1 h 8 (camera_id ++ [0])) as [p2 r2]. cbn [fst] in *.
    injection Hp as <- <-. split; [done|]. split; [|cbn; lia].
    exact (only_sent_trans _ _ _ [] _ H1 H2). }
  destruct (ID h =? ROTATE_CAMERA) eqn:E4.
  { destruct (field data 0 4); [|done..]. destruct (field data 4 4); [|done..].
    injection Hp as <- <-. split; [done|]. split; [done|]. cbn. lia. }
  injection Hp as <- <-. split; [done|]. split; [done|lia].
Qed.

End OverStream.

Import Stream.

(** * Properties *)

(** What [sendMsg] puts on a connection, [getMsg] at the other end of it
    returns: the same header with the size filled in, exactly the data, and the
    bytes after the message stay unread. *)
Theorem message_roundtrip malloc (sender receiver : sproc) cs cr h data rest :
  its_conn sender = Some cs -> its_conn receiver = Some cr ->
  header_ok h -> Z.of_nat (length data) < 2 ^ 16 ->
  malloc (sizeof_MsgHeader + Z.of_nat (length data)) = true ->
  Stream.outbox cs = [] ->
  (forall c, its_conn (fst (sendMsg sender h (Z.of_nat (length data)) data)) = Some c ->
     map Stream.code (Stream.inbox cr) = Stream.outbox c ++ rest) ->
  exists receiver' c,
    getMsg malloc receiver =
      (receiver', Some (MkHeader (ID h) (Z.of_nat (length data)) (lrc h) (reserved h) (referid h),
                        data)) /\
    its_conn receiver' = Some c /\ map Stream.code (Stream.inbox c) = rest.
Proof.
  intros Hcs Hcr Hh Hsz Hm Ho Hwire.
  destruct (only_sent_sendMsg sender h (Z.of_nat (length data)) data) as (_ & _ & Hs); [by rewrite Hcs|].
  destruct (Hs cs Hcs) as (c & Hc & Hout). specialize (Hwire c Hc).
  rewrite Hout, Ho in Hwire. unfold wire in Hwire. rewrite Nat2Z.id, take_ge in Hwire by lia.
  rewrite wrapU_small in Hwire by lia. cbn [app] in Hwire. rewrite <- app_assoc in Hwire.
  destruct (getMsg_stream malloc receiver cr (MkHeader (ID h) (Z.of_nat (length data)) (lrc h) (reserved h) (referid h)) data rest)
    as (c' & Hg & Hin & _); try done.
  - unfold header_ok in *. cbn. tauto || lia.
  - eexists _, c'. split; [done|]. split; [|done].
    unfold its_conn. cbn. apply lookup_insert_eq.
Qed.

(** One poll answers exactly what the protocol says: a handshake with the
    version and a request for the data server, a camera-info request with the
    identifier, anything else with nothing; it touches no other descriptor and
    reports success. *)
Theorem pollMsg_answers malloc stack (p p' : sproc) rc c :
  its_conn p = Some c -> pollMsg malloc stack p = Ret (p', rc) ->
  rc = 0 /\
  (exists c', its_conn p' = Some c' /\
     Stream.outbox c' = Stream.outbox c ++ replies stack (snd (getMsg malloc p))) /\
  (forall fd, fd <> client_socket p -> Message.net p' !! fd = Message.net p !! fd).
Proof.
  intros Hc Hp. destruct (pollMsg_spec malloc stack p p' rc ltac:(by rewrite Hc) Hp)
    as (Hrc & (_ & Hfd & Hout) & _). auto.
Qed.

(** The heap after one poll: a message with a known id is freed, a message
    with any other id and a message whose data did not arrive complete stay
    allocated for ever. *)
Theorem pollMsg_heap malloc stack (p p' : sproc) rc :
  is_Some (its_conn p) -> pollMsg malloc stack p = Ret (p', rc) ->
  live p' - live p =
    match snd (getMsg malloc p) with
    | Some (h, _) => if known_id h then 0 else 1
    | None => live (fst (getMsg malloc p)) - live p
    end.
Proof.
  intros Hc Hp. destruct (pollMsg_spec malloc stack p p' rc Hc Hp) as (_ & _ & ->).
  assert (forall h d, snd (getMsg malloc p) = Some (h, d) ->
            live (fst (getMsg malloc p)) = live p + 1) as Hl.
  { intros h d. unfold getMsg. destruct (net_recv _ _ _) as [n1 [l1 b1]].
    repeat case_match; intros; simplify_eq/=; lia. }
  destruct (snd (getMsg malloc p)) as [[h d]|] eqn:E; [|lia].
  rewrite (Hl h d eq_refl). case_if K; lia.
Qed.

(** The thread never leaves its loop and, when its own socket is not the
    descriptor held by the global [client_socket], never reads the connection
    it made: once connected, every run keeps polling and that connection is
    unchanged. *)
Theorem handler_polls_global_socket malloc stack k sock (p p' : sproc) st :
  is_Some (its_conn p) -> sock <> client_socket p ->
  handler_run malloc stack k sock Polling p = Ret (st, p') ->
  st = Polling /\ Message.net p' !! sock = Message.net p !! sock.
Proof.
  revert p. induction k as [|k IH]; intros p Hc Hs; [cbn; by intros [= <- <-]|].
  cbn [handler_run handler_step].
  destruct (pollMsg malloc stack p) as [[p1 rc]| |] eqn:Hp; cbn [outcome_bind]; [|done..].
  destruct (pollMsg_spec malloc stack p p1 rc Hc Hp) as (-> & Hsent & _).
  cbn [Z.eqb negb outcome_bind]. intros H. pose proof Hsent as (Hcs & Hfd & _).
  destruct (IH p1 (only_sent_conn _ _ _ Hsent Hc) ltac:(congruence) H) as [-> ->].
  split; [done|]. by apply Hfd.
Qed.

(** * Concrete instances *)

(** A camera whose global socket is descriptor 0 while its thread connected
    descriptor 3; [arrived] has come in on descriptor 0. *)
Definition camera_with (arrived : list Byte.byte) : sproc :=
  MkProc 0 (<[0 := MkConn arrived []]> (<[3 := MkConn [] []]> ∅)) 0 [].

Definition hello : MsgHeader := MkHeader HANDSHAKE 0 5 6 77.

Definition zero_header : MsgHeader := MkHeader 0 0 0 0 0.

Definition hello_bytes : list Byte.byte :=
  [Byte.x01; Byte.x00; Byte.x00; Byte.x00; Byte.x05; Byte.x00; Byte.x06; Byte.x00;
   Byte.x4d; Byte.x00; Byte.x00; Byte.x00].

Lemma message_roundtrip_witness :
  exists receiver' c,
    getMsg (fun _ => true) (camera_with hello_bytes) =
      (receiver', Some (MkHeader HANDSHAKE 0 5 6 77, [])) /\
    its_conn receiver' = Some c /\ map Stream.code (Stream.inbox c) = [].
Proof.
  apply (message_roundtrip (fun _ => true) (camera_with []) (camera_with hello_bytes)
           (MkConn [] []) (MkConn hello_bytes []) hello [] []); try reflexivity.
  - unfold header_ok, hello, HANDSHAKE. cbn. lia.
  - intros c Hc. vm_compute in Hc. injection Hc as <-. reflexivity.
Defined.

Definition poll_state (p : sproc) : sproc :=
  match pollMsg (fun _ => true) zero_header p with Ret (p', _) => p' | _ => p end.

Lemma pollMsg_answers_witness :
  exists c', its_conn (poll_state (camera_with hello_bytes)) = Some c' /\
    Stream.outbox c' =
      [1; 0; 4; 0; 5; 0; 6; 0; 77; 0; 0; 0; 1; 0; 0; 0] ++
      [233; 3; 0; 0; 0; 0; 0; 0; 0; 0; 0; 0].
Proof.
  destruct (pollMsg_answers (fun _ => true) zero_header (camera_with hello_bytes)
              (poll_state (camera_with hello_bytes)) 0 (MkConn hello_bytes []))
    as (_ & (c' & Hc' & Ho) & _).
  - reflexivity.
  - vm_compute. reflexivity.
  - exists c'. split; [exact Hc'|]. rewrite Ho. vm_compute. reflexivity.
Defined.

(** A message with id 9, which [pollMsg] has no case for. *)
Definition unknown_bytes : list Byte.byte :=
  [Byte.x09; Byte.x00; Byte.x00; Byte.x00; Byte.x00; Byte.x00; Byte.x00; Byte.x00;
   Byte.x00; Byte.x00; Byte.x00; Byte.x00].

Lemma pollMsg_heap_witness :
  live (poll_state (camera_with unknown_bytes)) - live (camera_with unknown_bytes) = 1.
Proof.
  rewrite (pollMsg_heap (fun _ => true) zero_header (camera_with unknown_bytes)
             (poll_state (camera_with unknown_bytes)) 0).
  - vm_compute. reflexivity.
  - vm_compute. by eexists.
  - vm_compute. reflexivity.
Defined.

Definition run_state (k : nat) (p : sproc) : sproc :=
  match handler_run (fun _ => true) zero_header k 3 Polling p with
  | Ret (_, p') => p'
  | _ => p
  end.

Lemma handler_polls_global_socket_witness :
  Message.net (run_state 5 (camera_with hello_bytes)) !! 3 = Some (MkConn [] []).
Proof.
  destruct (handler_polls_global_socket (fun _ => true) zero_header 5 3 (camera_with hello_bytes)
              (run_state 5 (camera_with hello_bytes)) Polling) as [_ H].
  - vm_compute. by eexists.
  - cbn. lia.
  - vm_compute. reflexivity.
  - rewrite H. vm_compute. reflexivity.
Defined.
