(* ===== verification/NgxNumber.v ===== *)
(** Numbers in text: the decimal and hexadecimal parsers and the printer of
    src/vod/nginx-1.2.9/src/core/ngx_string.c and the size, offset and time
    parsers of ngx_parse.c.

    A (pointer, length) pair is the list of its bytes; [ngx_int_t], [ssize_t],
    [off_t] and [time_t] are 64 bits wide. *)

From S2P Require Import Prelude.

(** * The code *)

Module Number.

Definition is_digit (c : Z) : bool := ("0"%c <=? c) && (c <=? "9"%c).

(** The loop shared by the four parsers: [None] is the early return. *)
Fixpoint ato_loop (line : list Z) (value : Z) : option Z :=
  match line with
  | [] => Some value
  | c :: line =>
      if (c <? "0"%c) || ("9"%c <? c) then None
      else ato_loop line (wrapS 64 (value * 10 + (c - "0"%c)))
  end.

Definition ngx_atoi (line : list Z) : Z :=
  match line with
  | [] => NGX_ERROR
  | _ =>
      match ato_loop line 0 with
      | None => NGX_ERROR
      | Some value => if value <? 0 then NGX_ERROR else value
      end
  end.

(** The same code for [ssize_t], [off_t] and [time_t]. *)
Definition ngx_atosz (line : list Z) : Z := ngx_atoi line.
Definition ngx_atoof (line : list Z) : Z := ngx_atoi line.
Definition ngx_atotm (line : list Z) : Z := ngx_atoi line.

(** [point] counts down once the dot was seen. *)
Fixpoint atofp_loop (line : list Z) (value point : Z) (dot : bool) : option (Z * Z) :=
  match line with
  | [] => Some (value, point)
  | c :: line =>
      if point =? 0 then None
      else if c =? "."%c then
        if dot then None else atofp_loop line value point true
      else if (c <? "0"%c) || ("9"%c <? c) then None
      else atofp_loop line (wrapS 64 (value * 10 + (c - "0"%c)))
             (point - (if dot then 1 else 0)) dot
  end.

Fixpoint scale10 (point : nat) (value : Z) : Z :=
  match point with
  | O => value
  | S point => scale10 point (wrapS 64 (value * 10))
  end.

Definition ngx_atofp (line : list Z) (point : Z) : Z :=
  match line with
  | [] => NGX_ERROR
  | _ =>
      match atofp_loop line 0 point false with
      | None => NGX_ERROR
      | Some (value, point) =>
          let value := scale10 (Z.to_nat point) value in
          if value <? 0 then NGX_ERROR else value
      end
  end.

Fixpoint hextoi_loop (line : list Z) (value : Z) : option Z :=
  match line with
  | [] => Some value
  | ch :: line =>
      if ("0"%c <=? ch) && (ch <=? "9"%c) then
        hextoi_loop line (wrapS 64 (value * 16 + (ch - "0"%c)))
      else
        let c := wrapU 8 (Z.lor ch 0x20) in
        if ("a"%c <=? c) && (c <=? "f"%c) then
          hextoi_loop line (wrapS 64 (value * 16 + (c - "a"%c + 10)))
        else None
  end.

Definition ngx_hextoi (line : list Z) : Z :=
  match line with
  | [] => NGX_ERROR
  | _ =>
      match hextoi_loop line 0 with
      | None => NGX_ERROR
      | Some value => if value <? 0 then NGX_ERROR else value
      end
  end.

(** static u_char hex[], HEX[] *)
Definition hex : list Z := $"0123456789abcdef".
Definition HEX : list Z := $"0123456789ABCDEF".

Definition hex_char (tab : list Z) (d : Z) : Z := nth (Z.to_nat d) tab 0.

Fixpoint ngx_hex_dump (src : list Z) : list Z :=
  match src with
  | [] => []
  | b :: src =>
      hex_char hex (Z.shiftr b 4) :: hex_char hex (Z.land b 0xf) :: ngx_hex_dump src
  end.

(** The do-while loops of [ngx_sprintf_num]: digits are stored downwards from
    the end of [temp], so the list grows at its head.  64 rounds of fuel are
    more than the digits of a 64-bit number. *)
Fixpoint dec_digits (fuel : nat) (n : Z) (p : list Z) : list Z :=
  match fuel with
  | O => p
  | S fuel =>
      let p := n mod 10 + "0"%c :: p in
      if n / 10 =? 0 then p else dec_digits fuel (n / 10) p
  end.

Fixpoint hex_digits (fuel : nat) (tab : list Z) (n : Z) (p : list Z) : list Z :=
  match fuel with
  | O => p
  | S fuel =>
      let p := hex_char tab (Z.land n 0xf) :: p in
      if Z.shiftr n 4 =? 0 then p else hex_digits fuel tab (Z.shiftr n 4) p
  end.

(** [room] is [last - buf]; the result is what is written to [buf]. *)
Definition ngx_sprintf_num (room : nat) (ui64 : Z) (zero : Z) (hexadecimal : Z) (width : nat)
  : list Z :=
  let p :=
    if hexadecimal =? 0 then
      if ui64 <=? 4294967295 then dec_digits 64 (wrapU 32 ui64) []
      else dec_digits 64 ui64 []
    else if hexadecimal =? 1 then hex_digits 64 hex ui64 []
    else hex_digits 64 HEX ui64 [] in
  let pad := Nat.min (width - length p) room in
  let room := (room - pad)%nat in
  replicate pad zero ++ take (if (room <? length p)%nat then room else length p) p.

(** ** ngx_parse.c *)

(** The unit switch of [ngx_parse_size]: the length left and the scale. *)
Definition size_unit (unit : Z) : bool * Z :=
  match unit with
  | "K"%c | "k"%c => (true, 1024)
  | "M"%c | "m"%c => (true, 1024 * 1024)
  | _ => (false, 1)
  end.

(** [line->data[len - 1]] of an empty line lies outside the line. *)
Definition ngx_parse_size (line : list Z) : outcome Z :=
  match List.rev line with
  | [] => Undefined
  | unit :: _ =>
      let '(has_unit, scale) := size_unit unit in
      let line := if has_unit then take (length line - 1) line else line in
      let size := ngx_atosz line in
      Ret (if size =? NGX_ERROR then NGX_ERROR else wrapS 64 (size * scale))
  end.

Definition offset_unit (unit : Z) : bool * Z :=
  match unit with
  | "K"%c | "k"%c => (true, 1024)
  | "M"%c | "m"%c => (true, 1024 * 1024)
  | "G"%c | "g"%c => (true, 1024 * 1024 * 1024)
  | _ => (false, 1)
  end.

Definition ngx_parse_offset (line : list Z) : outcome Z :=
  match List.rev line with
  | [] => Undefined
  | unit :: _ =>
      let '(has_unit, scale) := offset_unit unit in
      let line := if has_unit then take (length line - 1) line else line in
      let offset := ngx_atoof line in
      Ret (if offset =? NGX_ERROR then NGX_ERROR else wrapS 64 (offset * scale))
  end.

(** enum step of [ngx_parse_time] *)
Definition st_start : Z := 0.
Definition st_year : Z := 1.
Definition st_month : Z := 2.
Definition st_week : Z := 3.
Definition st_day : Z := 4.
Definition st_hour : Z := 5.
Definition st_min : Z := 6.
Definition st_sec : Z := 7.
Definition st_msec : Z := 8.
Definition st_last : Z := 9.

(** The switch on the unit character: the new step, [max] and [scale], and
    whether the "s" of "ms" was consumed; [next] is the byte after it. *)
Definition time_unit (is_sec : bool) (step c next : Z) : option (Z * Z * Z * bool) :=
  match c with
  | "y"%c => if st_start <? step then None
             else Some (st_year, NGX_MAX_INT32_VALUE / (60*60*24*365), 60*60*24*365, false)
  | "M"%c => if st_month <=? step then None
             else Some (st_month, NGX_MAX_INT32_VALUE / (60*60*24*30), 60*60*24*30, false)
  | "w"%c => if st_week <=? step then None
             else Some (st_week, NGX_MAX_INT32_VALUE / (60*60*24*7), 60*60*24*7, false)
  | "d"%c => if st_day <=? step then None
             else Some (st_day, NGX_MAX_INT32_VALUE / (60*60*24), 60*60*24, false)
  | "h"%c => if st_hour <=? step then None
             else Some (st_hour, NGX_MAX_INT32_VALUE / (60*60), 60*60, false)
  | "m"%c => if next =? "s"%c then
               if is_sec || (st_msec <=? step) then None
               else Some (st_msec, NGX_MAX_INT32_VALUE, 1, true)
             else if st_min <=? step then None
             else Some (st_min, NGX_MAX_INT32_VALUE / 60, 60, false)
  | "s"%c => if st_sec <=? step then None
             else Some (st_sec, NGX_MAX_INT32_VALUE, 1, false)
  | " "%c => if st_sec <=? step then None
             else Some (st_last, NGX_MAX_INT32_VALUE, 1, false)
  | _ => None
  end.

Fixpoint skip_spaces (p : list Z) : list Z :=
  match p with
  | " "%c :: p => skip_spaces p
  | _ => p
  end.

(** [after] is the byte at [last], which the test for "ms" may read. *)
Fixpoint parse_time_loop (fuel : nat) (is_sec : bool) (after : Z) (p : list Z)
    (value total step : Z) (valid : bool) : outcome Z :=
  match fuel with
  | O => NoFuel
  | S fuel =>
      match p with
      | [] =>
          Ret (if valid then wrapS 64 (total + wrapS 64 (value * (if is_sec then 1 else 1000)))
               else NGX_ERROR)
      | c :: p =>
          if is_digit c then
            parse_time_loop fuel is_sec after p (wrapS 64 (value * 10 + (c - "0"%c))) total step true
          else
            match time_unit is_sec step c (List.hd after p) with
            | None => Ret NGX_ERROR
            | Some (step, max, scale, two) =>
                let p := if two then tail p else p in
                let '(scale, max) :=
                  if negb (step =? st_msec) && negb is_sec then (scale * 1000, max / 1000)
                  else (scale, max) in
                if max <? wrapU 64 value then Ret NGX_ERROR
                else
                  let total := wrapS 64 (total + wrapS 64 (value * scale)) in
                  if NGX_MAX_INT32_VALUE <? wrapU 64 total then Ret NGX_ERROR
                  else parse_time_loop fuel is_sec after (skip_spaces p) 0 total step valid
            end
      end
  end.

Definition ngx_parse_time (after : Z) (line : list Z) (is_sec : bool) : outcome Z :=
  parse_time_loop (S (length line)) is_sec after line 0 0
    (if is_sec then st_start else st_month) false.

End Number.
Import Number.

(** * Reference definitions *)

(** The value of a string of digits in base [b]: each digit at its place. *)
Fixpoint place_value (b : Z) (digit : Z -> Z) (l : list Z) : Z :=
  match l with
  | [] => 0
  | c :: l => digit c * b ^ Z.of_nat (length l) + place_value b digit l
  end.

Definition dec_digit (c : Z) : Z := c - "0"%c.

Definition decimal (l : list Z) : Z := place_value 10 dec_digit l.

Definition is_decimal (l : list Z) : bool :=
  match l with [] => false | _ => forallb is_digit l end.

Lemma is_digit_test c : is_digit c = negb ((c <? "0"%c) || ("9"%c <? c)).
Proof. unfold is_digit. rewrite negb_orb, !Z.leb_antisym, ?Z.ltb_antisym. done. Qed.

Lemma ato_loop_value l v :
  ato_loop l (wrapS 64 v) =
    if forallb is_digit l
    then Some (wrapS 64 (v * 10 ^ Z.of_nat (length l) + decimal l))
    else None.
Proof.
  revert v. induction l as [|c l IH]; intros v.
  - cbn [ato_loop forallb decimal place_value length]. do 2 f_equal. cbn. lia.
  - cbn [ato_loop forallb length]. rewrite is_digit_test.
    destruct (_ || _)%bool; cbn [negb andb]; [done|].
    rewrite wrapS_mul_add, IH by lia. destruct (forallb is_digit l); [|done].
    do 2 f_equal. unfold decimal. cbn [place_value]. unfold dec_digit.
    rewrite Nat2Z.inj_succ, Z.pow_succ_r by lia. ring.
Qed.

Lemma atoi_value l :
  ngx_atoi l =
    if is_decimal l then
      let v := wrapS 64 (decimal l) in if v <? 0 then NGX_ERROR else v
    else NGX_ERROR.
Proof.
  destruct l as [|c l]; [done|]. unfold ngx_atoi, is_decimal.
  change 0 with (wrapS 64 0) at 1. rewrite ato_loop_value.
  destruct (forallb is_digit (c :: l)); [|done]. rewrite Z.mul_0_l, Z.add_0_l. done.
Qed.

Lemma decimal_nonneg l : forallb is_digit l = true -> 0 <= decimal l.
Proof.
  induction l as [|c l IH]; [done|]. cbn [forallb]. intros H. boolify.
  unfold decimal in *. cbn [place_value]. unfold is_digit in *. boolify.
  pose proof (Z.pow_pos_nonneg 10 (Z.of_nat (length l))). unfold dec_digit at 1. specialize (IH H0). nia.
Qed.

Lemma atoi_exact l :
  is_decimal l = true -> decimal l < 2 ^ 63 -> ngx_atoi l = decimal l.
Proof.
  intros Hd Hb. rewrite atoi_value, Hd. cbv zeta.
  assert (0 <= decimal l) by (apply decimal_nonneg; destruct l; done).
  rewrite wrapS_small by (cbn in *; lia). rewrite (proj2 (Z.ltb_ge _ _)) by lia. done.
Qed.

(** * The printer *)

Lemma place_value_app b digit l k :
  0 < b ->
  place_value b digit (l ++ k) =
    place_value b digit l * b ^ Z.of_nat (length k) + place_value b digit k.
Proof.
  intros Hb. induction l as [|c l IH]; [done|]. cbn [app place_value].
  rewrite IH, length_app, Nat2Z.inj_add, Z.pow_add_r by lia. ring.
Qed.

(** What the do-while loop prints: the digits of [n], at most [k] of them. *)
Lemma dec_digits_spec k fuel n p :
  0 <= n < 10 ^ Z.of_nat k -> (0 < k <= fuel)%nat ->
  exists ds, dec_digits fuel n p = ds ++ p /\ is_decimal ds = true /\
    decimal ds = n /\ (length ds <= k)%nat.
Proof.
  revert k n p. induction fuel as [|fuel IH]; intros k n p Hn Hk; [lia|].
  cbn [dec_digits]. assert (0 <= n mod 10 < 10) as Hm by (apply Z.mod_pos_bound; lia).
  assert (is_digit (n mod 10 + "0"%c) = true) as Hdig.
  { unfold is_digit. apply andb_true_iff. rewrite !Z.leb_le. lia. }
  destruct (Z.eqb_spec (n / 10) 0) as [E|E].
  - exists [n mod 10 + "0"%c]. split; [done|]. cbn [is_decimal forallb]. rewrite Hdig.
    split; [done|]. split; [|cbn [length]; lia].
    unfold decimal. cbn [place_value length]. unfold dec_digit. pose proof (Z.div_mod n 10). cbn. lia.
  - destruct k as [|k]; [lia|]. rewrite Nat2Z.inj_succ, Z.pow_succ_r in Hn by lia.
    assert (0 < k)%nat as Hk0.
    { destruct k; [|lia]. change (10 ^ Z.of_nat 0) with 1 in Hn. rewrite Z.div_small in E; lia. }
    destruct (IH k (n / 10) (n mod 10 + "0"%c :: p)) as (ds & -> & Hd & Hv & Hl).
    { split; [apply Z.div_pos; lia|]. apply Z.div_lt_upper_bound; lia. }
    { lia. }
    exists (ds ++ [n mod 10 + "0"%c]). rewrite <- app_assoc. split; [done|].
    split; [|split].
    + destruct ds as [|d ds]; [done|]. cbn [app is_decimal] in *.
      rewrite app_comm_cons, forallb_app, Hd. cbn [forallb]. rewrite Hdig. done.
    + unfold decimal in *. rewrite place_value_app, Hv by lia. cbn [place_value length].
      unfold dec_digit. pose proof (Z.div_mod n 10). cbn. lia.
    + rewrite length_app. cbn [length]. lia.
Qed.

(** One round of the loop. *)
Lemma dec_digits_step fuel n p :
  n / 10 <> 0 -> dec_digits (S fuel) n p = dec_digits fuel (n / 10) (n mod 10 + "0"%c :: p).
Proof. intros H. cbn [dec_digits]. rewrite (proj2 (Z.eqb_neq _ _)) by done. done. Qed.

Lemma dec_digits_last fuel n p :
  n / 10 = 0 -> dec_digits (S fuel) n p = n mod 10 + "0"%c :: p.
Proof. intros H. cbn [dec_digits]. rewrite H. done. Qed.

Lemma sprintf_num_dec room n zero :
  0 <= n < 2 ^ 64 -> (20 <= room)%nat ->
  is_decimal (ngx_sprintf_num room n zero 0 0) = true /\
  decimal (ngx_sprintf_num room n zero 0 0) = n /\
  (length (ngx_sprintf_num room n zero 0 0) <= 20)%nat.
Proof.
  intros Hn Hr.
  assert (exists ds, (if n <=? 4294967295 then dec_digits 64 (wrapU 32 n) []
                      else dec_digits 64 n []) = ds /\
            is_decimal ds = true /\ decimal ds = n /\ (length ds <= 20)%nat) as (ds & Hds & Hd & Hv & Hl).
  { destruct (Z.leb_spec n 4294967295).
    - rewrite wrapU_small by lia.
      destruct (dec_digits_spec 20 64 n []) as (ds & -> & Hds); [cbn; lia|lia|].
      exists ds. rewrite app_nil_r. done.
    - destruct (dec_digits_spec 20 64 n []) as (ds & -> & Hds); [cbn; lia|lia|].
      exists ds. rewrite app_nil_r. done. }
  unfold ngx_sprintf_num. change (0 =? 0) with true. cbv iota zeta. rewrite Hds.
  cbn [Nat.sub Nat.min replicate app]. rewrite Nat.sub_0_r.
  rewrite (proj2 (Nat.ltb_ge _ _)), take_ge by lia. done.
Qed.

(** * Hexadecimal *)

Definition is_hex (c : Z) : bool :=
  is_digit c || (("a"%c <=? wrapU 8 (Z.lor c 0x20)) && (wrapU 8 (Z.lor c 0x20) <=? "f"%c)).

Definition hex_digit (c : Z) : Z :=
  if is_digit c then c - "0"%c else wrapU 8 (Z.lor c 0x20) - "a"%c + 10.

Definition hexadecimal_value (l : list Z) : Z := place_value 16 hex_digit l.

Definition is_hexadecimal (l : list Z) : bool :=
  match l with [] => false | _ => forallb is_hex l end.

Lemma hextoi_loop_value l v :
  hextoi_loop l (wrapS 64 v) =
    if forallb is_hex l
    then Some (wrapS 64 (v * 16 ^ Z.of_nat (length l) + hexadecimal_value l))
    else None.
Proof.
  revert v. induction l as [|c l IH]; intros v.
  - cbn [hextoi_loop forallb length]. do 2 f_equal. cbn. lia.
  - cbn [hextoi_loop forallb length]. unfold is_hex at 1. fold (is_digit c).
    unfold hexadecimal_value. cbn [place_value]. unfold hex_digit at 1.
    rewrite Nat2Z.inj_succ, Z.pow_succ_r by lia.
    destruct (is_digit c); cbn [orb andb].
    + rewrite wrapS_mul_add, IH by lia. destruct (forallb is_hex l); [|done].
      do 2 f_equal. unfold hexadecimal_value. ring.
    + cbv zeta. destruct (("a"%c <=? _) && _); cbn [andb]; [|done].
      rewrite wrapS_mul_add, IH by lia. destruct (forallb is_hex l); [|done].
      do 2 f_equal. unfold hexadecimal_value. ring.
Qed.

Lemma hextoi_exact l :
  is_hexadecimal l = true -> 0 <= hexadecimal_value l < 2 ^ 63 ->
  ngx_hextoi l = hexadecimal_value l.
Proof.
  destruct l as [|c l]; [done|]. unfold ngx_hextoi, is_hexadecimal. intros Hd Hb.
  change 0 with (wrapS 64 0) at 1. rewrite hextoi_loop_value, Hd, Z.mul_0_l, Z.add_0_l.
  rewrite wrapS_small by (cbn in *; lia). rewrite (proj2 (Z.ltb_ge _ _)) by lia. done.
Qed.

Lemma hex_char_digit tab d :
  tab = hex \/ tab = HEX -> 0 <= d < 16 ->
  is_hex (hex_char tab d) = true /\ hex_digit (hex_char tab d) = d.
Proof.
  intros Htab Hd.
  apply (Zrange_forall (fun d => is_hex (hex_char tab d) = true /\ hex_digit (hex_char tab d) = d)
    (fun d => is_hex (hex_char tab d) && (hex_digit (hex_char tab d) =? d)) 16); [|destruct Htab as [-> | ->]; done|done].
  intros z H. apply andb_true_iff in H as [-> H]. by apply Z.eqb_eq in H.
Qed.

Lemma hex_digits_spec k fuel tab n p :
  tab = hex \/ tab = HEX -> 0 <= n < 16 ^ Z.of_nat k -> (0 < k <= fuel)%nat ->
  exists ds, hex_digits fuel tab n p = ds ++ p /\ is_hexadecimal ds = true /\
    hexadecimal_value ds = n /\ (length ds <= k)%nat.
Proof.
  intros Htab. revert k n p. induction fuel as [|fuel IH]; intros k n p Hn Hk; [lia|].
  cbn [hex_digits]. change 0xf with (Z.ones 4). rewrite Z.land_ones, Z.shiftr_div_pow2 by lia.
  change (2 ^ 4) with 16. assert (0 <= n mod 16 < 16) as Hm by (apply Z.mod_pos_bound; lia).
  destruct (hex_char_digit tab (n mod 16) Htab Hm) as [Hdig Hval].
  destruct (Z.eqb_spec (n / 16) 0) as [E|E].
  - exists [hex_char tab (n mod 16)]. split; [done|]. cbn [is_hexadecimal forallb]. rewrite Hdig.
    split; [done|]. split; [|cbn [length]; lia].
    unfold hexadecimal_value. cbn [place_value length]. rewrite Hval.
    pose proof (Z.div_mod n 16). cbn. lia.
  - destruct k as [|k]; [lia|]. rewrite Nat2Z.inj_succ, Z.pow_succ_r in Hn by lia.
    assert (0 < k)%nat as Hk0.
    { destruct k; [|lia]. change (16 ^ Z.of_nat 0) with 1 in Hn. rewrite Z.div_small in E; lia. }
    destruct (IH k (n / 16) (hex_char tab (n mod 16) :: p)) as (ds & -> & Hd & Hv & Hl).
    { split; [apply Z.div_pos; lia|]. apply Z.div_lt_upper_bound; lia. }
    { lia. }
    exists (ds ++ [hex_char tab (n mod 16)]). rewrite <- app_assoc. split; [done|].
    split; [|split].
    + destruct ds as [|d ds]; [done|]. cbn [app is_hexadecimal] in *.
      rewrite app_comm_cons, forallb_app, Hd. cbn [forallb]. rewrite Hdig. done.
    + unfold hexadecimal_value in *. rewrite place_value_app, Hv by lia.
      cbn [place_value length]. rewrite Hval. pose proof (Z.div_mod n 16). cbn. lia.
    + rewrite length_app. cbn [length]. lia.
Qed.

Lemma sprintf_num_hex room n zero h :
  0 <= n < 2 ^ 64 -> (16 <= room)%nat -> h = 1 \/ h = 2 ->
  is_hexadecimal (ngx_sprintf_num room n zero h 0) = true /\
  hexadecimal_value (ngx_sprintf_num room n zero h 0) = n.
Proof.
  intros Hn Hr Hh.
  assert (exists ds, (if h =? 0 then if n <=? 4294967295 then dec_digits 64 (wrapU 32 n) []
                                     else dec_digits 64 n []
                      else if h =? 1 then hex_digits 64 hex n [] else hex_digits 64 HEX n []) = ds /\
            is_hexadecimal ds = true /\ hexadecimal_value ds = n /\ (length ds <= 16)%nat)
    as (ds & Hds & Hd & Hv & Hl).
  { destruct Hh as [-> | ->]; cbn [Z.eqb Pos.eqb].
    - destruct (hex_digits_spec 16 64 hex n []) as (ds & -> & Hds); [by left|cbn; lia|lia|].
      exists ds. rewrite app_nil_r. done.
    - destruct (hex_digits_spec 16 64 HEX n []) as (ds & -> & Hds); [by right|cbn; lia|lia|].
      exists ds. rewrite app_nil_r. done. }
  unfold ngx_sprintf_num. rewrite Hds. cbn [Nat.sub Nat.min replicate app].
  rewrite Nat.sub_0_r, (proj2 (Nat.ltb_ge _ _)), take_ge by lia. done.
Qed.

(** * Times *)

Inductive time_unit_name := Uyear | Umonth | Uweek | Uday | Uhour | Umin | Usec.

Definition unit_char (u : time_unit_name) : Z :=
  match u with
  | Uyear => "y"%c | Umonth => "M"%c | Uweek => "w"%c | Uday => "d"%c
  | Uhour => "h"%c | Umin => "m"%c | Usec => "s"%c
  end.

Definition unit_seconds (u : time_unit_name) : Z :=
  match u with
  | Uyear => 60*60*24*365 | Umonth => 60*60*24*30 | Uweek => 60*60*24*7 | Uday => 60*60*24
  | Uhour => 60*60 | Umin => 60 | Usec => 1
  end.

Definition unit_step (u : time_unit_name) : Z :=
  match u with
  | Uyear => st_year | Umonth => st_month | Uweek => st_week | Uday => st_day
  | Uhour => st_hour | Umin => st_min | Usec => st_sec
  end.

(** One part of a time: its digits, its unit, and the spaces after it. *)
Record time_part := Part { digits : list Z; unit_of : time_unit_name; spaces : nat }.

Fixpoint render (parts : list time_part) : list Z :=
  match parts with
  | [] => []
  | Part ds u k :: parts => ds ++ unit_char u :: replicate k " "%c ++ render parts
  end.

Definition seconds (parts : list time_part) : Z :=
  foldr (fun x n => decimal (digits x) * unit_seconds (unit_of x) + n) 0 parts.

(** Every part has digits, and the units go strictly from large to small. *)
Fixpoint parts_ok (step : Z) (parts : list time_part) : bool :=
  match parts with
  | [] => true
  | Part ds u _ :: parts =>
      is_decimal ds && (step <? unit_step u) && parts_ok (unit_step u) parts
  end.

Lemma parts_digits_nonneg ds : is_decimal ds = true -> 0 <= decimal ds.
Proof. destruct ds; [done|]. apply decimal_nonneg. Qed.

Lemma seconds_nonneg step parts : parts_ok step parts = true -> 0 <= seconds parts.
Proof.
  revert step. induction parts as [|[ds u k] parts IH]; intros step; [cbn; lia|].
  cbn [parts_ok seconds foldr digits unit_of]. intros H. boolify.
  fold (seconds parts). specialize (IH _ H0). pose proof (parts_digits_nonneg ds H).
  assert (1 <= unit_seconds u) by (destruct u; cbn; lia). nia.
Qed.

(** The digit loop of the parser accumulates the decimal value. *)
Lemma parse_time_digits is_sec fuel after ds p v total step valid :
  forallb is_digit ds = true ->
  parse_time_loop (length ds + fuel) is_sec after (ds ++ p) (wrapS 64 v) total step valid =
  parse_time_loop fuel is_sec after p (wrapS 64 (v * 10 ^ Z.of_nat (length ds) + decimal ds))
    total step (match ds with [] => valid | _ => true end).
Proof.
  revert v valid. induction ds as [|c ds IH]; intros v valid Hd.
  - cbn [length app Nat.add]. do 2 f_equal. cbn. lia.
  - cbn [forallb] in Hd. boolify. cbn [length app Nat.add parse_time_loop]. rewrite H.
    rewrite wrapS_mul_add, IH by (lia || done).
    replace (match ds with [] => true | _ => true end) with true by (destruct ds; done).
    do 2 f_equal. unfold decimal. cbn [place_value]. unfold dec_digit.
    rewrite Nat2Z.inj_succ, Z.pow_succ_r by lia. ring.
Qed.

Lemma skip_spaces_render k step parts :
  parts_ok step parts = true ->
  skip_spaces (replicate k " "%c ++ render parts) = render parts.
Proof.
  intros Hp. induction k as [|k IH]; [|cbn; exact IH]. cbn [replicate app].
  destruct parts as [|[ds u j] parts]; [done|]. cbn [parts_ok render] in *. boolify.
  destruct ds as [|c ds]; [done|]. cbn [is_decimal forallb] in H. boolify.
  unfold is_digit in H. boolify. cbn [app]. cbn [skip_spaces].
  assert (c <> 32) by lia. destruct c as [|c|c]; try done.
  repeat (destruct c as [c|c|]; try done; try lia).
Qed.

Lemma hd_render after k step parts :
  after <> "s"%c -> parts_ok step parts = true ->
  List.hd after (replicate k " "%c ++ render parts) <> "s"%c.
Proof.
  intros Ha Hp. destruct k as [|k]; [|done]. cbn [replicate app].
  destruct parts as [|[ds u j] parts]; [done|]. cbn [parts_ok render] in *. boolify.
  destruct ds as [|c ds]; [done|]. cbn [is_decimal forallb] in H. boolify.
  unfold is_digit in H. boolify. cbn. lia.
Qed.

Lemma time_unit_sec step u next :
  0 <= step < unit_step u -> next <> "s"%c ->
  time_unit true step (unit_char u) next =
    Some (unit_step u, NGX_MAX_INT32_VALUE / unit_seconds u, unit_seconds u, false).
Proof.
  intros Hs Hn.
  destruct u; cbn [unit_char unit_step unit_seconds time_unit] in *;
    unfold st_start, st_year, st_month, st_week, st_day, st_hour, st_min, st_sec in *;
    split_ifs; done.
Qed.

Lemma parse_time_parts fuel after parts total step valid :
  after <> "s"%c -> 0 <= step -> 0 <= total ->
  parts_ok step parts = true -> total + seconds parts <= NGX_MAX_INT32_VALUE ->
  (length (render parts) < fuel)%nat -> valid = true \/ parts <> [] ->
  parse_time_loop fuel true after (render parts) 0 total step valid = Ret (total + seconds parts).
Proof.
  unfold NGX_MAX_INT32_VALUE. intros Ha. revert fuel total step valid.
  induction parts as [|[ds u k] parts IH]; intros fuel total step valid Hst Ht Hp Hb Hf Hv.
  - destruct fuel; [cbn in Hf; lia|]. cbn [render parse_time_loop seconds foldr] in *.
    destruct Hv as [-> |]; [|done]. rewrite Z.mul_0_l, Z.add_0_r.
    rewrite !wrapS_small by lia. f_equal. lia.
  - cbn [parts_ok render seconds foldr digits unit_of] in *. boolify. fold (seconds parts) in *.
    pose proof (seconds_nonneg _ _ H0). pose proof (parts_digits_nonneg ds H).
    assert (1 <= unit_seconds u) by (destruct u; cbn; lia).
    assert (decimal ds <= decimal ds * unit_seconds u) by nia.
    assert (decimal ds <= NGX_MAX_INT32_VALUE / unit_seconds u) as Hmax
      by (apply Z.div_le_lower_bound; unfold NGX_MAX_INT32_VALUE; lia).
    rewrite length_app in Hf. cbn [length] in Hf.
    replace fuel with (length ds + S (fuel - length ds - 1))%nat by lia.
    change 0 with (wrapS 64 0) at 1.
    rewrite parse_time_digits by (destruct ds; done). rewrite Z.mul_0_l, Z.add_0_l.
    rewrite (wrapS_small 64 (decimal ds)) by lia. cbn [parse_time_loop].
    replace (is_digit (unit_char u)) with false by (destruct u; done).
    rewrite time_unit_sec by (try lia; eapply hd_render; done). cbn [negb andb].
    rewrite andb_false_r. rewrite (wrapU_small 64 (decimal ds)) by lia.
    rewrite (proj2 (Z.ltb_ge _ _)) by lia.
    rewrite (wrapS_small 64 (decimal ds * unit_seconds u)) by lia.
    rewrite (wrapS_small 64 (total + _)), wrapU_small by lia.
    unfold NGX_MAX_INT32_VALUE. rewrite (proj2 (Z.ltb_ge _ _)) by lia.
    erewrite skip_spaces_render by exact H0.
    assert (0 <= unit_step u) by (destruct u; vm_compute; congruence).
    rewrite (IH _ _ (unit_step u)); [f_equal; lia|lia|lia|done|lia| |].
    + rewrite length_app, length_replicate in Hf. lia.
    + left. destruct ds; done.
Qed.

(** * Properties *)

(** 2. [ngx_atoi] (and the identical [ngx_atosz], [ngx_atoof], [ngx_atotm])
    returns the positional value of a non-empty digit string below 2^63 and an
    error for an empty string or any other byte; above, it returns the value
    modulo 2^64 when that lies below 2^63 and an error otherwise, so overflow is
    detected for some inputs only. *)
Theorem ngx_atoi_spec l :
  ngx_atoi l =
    (if is_decimal l then
       if decimal l <? 2 ^ 63 then decimal l
       else if decimal l mod 2 ^ 64 <? 2 ^ 63 then decimal l mod 2 ^ 64 else NGX_ERROR
     else NGX_ERROR) /\
  ngx_atosz l = ngx_atoi l /\ ngx_atoof l = ngx_atoi l /\ ngx_atotm l = ngx_atoi l.
Proof.
  split; [|done]. rewrite atoi_value. destruct (is_decimal l) eqn:Hd; [|done]. cbv zeta.
  pose proof (parts_digits_nonneg l Hd). set (v := decimal l) in *. clearbody v.
  pose proof (wrapS_mod 64 v ltac:(lia)) as Hm. pose proof (wrapS_range 64 v ltac:(lia)) as Hr.
  destruct (Z.ltb_spec v (2 ^ 63)).
  - rewrite wrapS_small by lia. rewrite (proj2 (Z.ltb_ge _ _)) by lia. done.
  - rewrite <- Hm. destruct (Z.ltb_spec (wrapS 64 v) 0).
    + rewrite <- (Z_mod_plus_full _ 1), Z.mod_small by lia.
      rewrite (proj2 (Z.ltb_ge _ _)) by lia. done.
    + rewrite Z.mod_small by lia. rewrite (proj2 (Z.ltb_lt _ _)) by lia. done.
Qed.

(** Printing a number below 2^63 with [ngx_sprintf_num] and reading it back
    gives the number: decimal through [ngx_atoi], lower- and upper-case
    hexadecimal through [ngx_hextoi]. *)
Theorem sprintf_num_roundtrip n zero room :
  0 <= n < 2 ^ 63 -> (20 <= room)%nat ->
  ngx_atoi (ngx_sprintf_num room n zero 0 0) = n /\
  ngx_hextoi (ngx_sprintf_num room n zero 1 0) = n /\
  ngx_hextoi (ngx_sprintf_num room n zero 2 0) = n.
Proof.
  intros Hn Hr. split; [|split].
  - destruct (sprintf_num_dec room n zero) as (Hd & Hv & _); [lia|done|].
    rewrite atoi_exact; [done|done|lia].
  - destruct (sprintf_num_hex room n zero 1) as (Hd & Hv); [lia|lia|by left|].
    rewrite hextoi_exact; [done|done|lia].
  - destruct (sprintf_num_hex room n zero 2) as (Hd & Hv); [lia|lia|by right|].
    rewrite hextoi_exact; [done|done|lia].
Qed.

Lemma sprintf_num_roundtrip_witness :
  ngx_atoi (ngx_sprintf_num 20 4294967299 "0"%c 0 0) = 4294967299.
Proof. apply (sprintf_num_roundtrip 4294967299 "0"%c 20); lia. Defined.

(** 3. [ngx_parse_time] of seconds: a sequence of numbers with units from
    years down to seconds in strictly decreasing order, with spaces allowed
    after each unit, is read as the sum of the parts, as long as the sum fits
    31 bits. *)
Theorem ngx_parse_time_sum after parts :
  after <> "s"%c -> parts <> [] -> parts_ok st_start parts = true ->
  seconds parts <= NGX_MAX_INT32_VALUE ->
  ngx_parse_time after (render parts) true = Ret (seconds parts).
Proof.
  intros Ha Hne Hp Hs. unfold ngx_parse_time.
  apply (parse_time_parts _ after parts 0 st_start false);
    unfold st_start in *; try done; try lia. by right.
Qed.

(** "1d 2h30m" *)
Lemma ngx_parse_time_sum_witness :
  ngx_parse_time 0 $"1d 2h30m" true = Ret (86400 + 2 * 3600 + 30 * 60).
Proof.
  apply (ngx_parse_time_sum 0
    [Part $"1" Uday 1; Part $"2" Uhour 0; Part $"30" Umin 0]); try done.
Defined.
