(* ===== verification/NgxPrintf.v ===== *)
(** Formatted output: [ngx_vslprintf] of src/core/ngx_string.c and its three
    callers, with the digits of a number from [ngx_sprintf_num] of NgxNumber.

    The room left is [last - buf]; [None] is the [(void * ) -1] of ngx_sprintf,
    which no buffer reaches.  The arguments are those of the va_list in order;
    one whose kind is not the kind the conversion takes is [Undefined]. *)

From S2P Require Import Prelude NgxNumber.

Module Printf.
Import Number.

(** A double: its sign, the integer part of its magnitude, and for a scale
    the value (uint64_t) ((f - (double) ui64) * scale + 0.5). *)
Record double := MkDouble { negative : bool; whole : Z; scaled_fraction : Z -> Z }.

Inductive va :=
| Num (z : Z)             (* any integer type, char and void * included *)
| Str (s : list Z)        (* ngx_str_t * or ngx_variable_value_t * *)
| Ptr (s : list Z)        (* u_char *: the readable bytes from there on *)
| Dbl (f : double).

Definition NGX_INT_T_LEN : Z := 20.
Definition NGX_ATOMIC_T_LEN : Z := 20.
Definition NGX_PTR_SIZE : Z := 8.
Definition no_slen : Z := wrapU 64 (-1).

(** What the flags of a conversion set. *)
Record flags := MkFlags {
  zero : Z; width : Z; sign : bool; hexa : Z; max_width : bool; frac_width : Z; slen : Z }.

(** [while ( *fmt >= '0' && *fmt <= '9') { v = v * 10 + *fmt++ - '0'; }]. *)
Fixpoint read_number (v : Z) (fmt : list Z) : Z * list Z :=
  match fmt with
  | c :: rest =>
    if is_digit c then read_number (wrapU 64 (v * 10 + c - "0"%c)) rest else (v, fmt)
  | [] => (v, [])
  end.

(** The flags before the first [switch], [fmt] being past the '%'. *)
Definition start_flags (fmt : list Z) : flags * list Z :=
  let zero := if hd 0 fmt =? "0"%c then "0"%c else " "%c in
  let '(width, fmt) := read_number 0 fmt in
  (MkFlags zero width true 0 false 0 no_slen, fmt).

(** The loop [for ( ;; ) switch ( *fmt)]. *)
Fixpoint read_flags (fl : flags) (fmt : list Z) (args : list va)
    : outcome (flags * list Z * list va) :=
  let 'MkFlags z w s h m f l := fl in
  match fmt with
  | [] => Ret (fl, [], args)
  | c :: rest =>
    if c =? "u"%c then read_flags (MkFlags z w false h m f l) rest args
    else if c =? "m"%c then read_flags (MkFlags z w s h true f l) rest args
    else if c =? "X"%c then read_flags (MkFlags z w false 2 m f l) rest args
    else if c =? "x"%c then read_flags (MkFlags z w false 1 m f l) rest args
    else if c =? "."%c then
      let '(f, rest) := read_number f rest in Ret (MkFlags z w s h m f l, rest, args)
    else if c =? "*"%c then
      match args with
      | Num n :: args => read_flags (MkFlags z w s h m f (wrapU 64 n)) rest args
      | _ => Undefined
      end
    else Ret (fl, fmt, args)
  end.

(** ** Copies into the room left *)

Definition clip (room : option nat) (l : list Z) : list Z :=
  match room with Some n => take n l | None => l end.

Definition less (room : option nat) (k : nat) : option nat :=
  match room with Some n => Some (n - k)%nat | None => None end.

(** [while ( *p && buf < last) { *buf++ = *p++; }]: the bytes must end with a
    NUL unless the room does first. *)
Fixpoint copy_cstr (room : option nat) (p : list Z) : outcome (list Z) :=
  match p with
  | [] => Undefined
  | c :: p =>
    if (c =? 0) || bool_decide (room = Some O) then Ret []
    else let! l := copy_cstr (less room 1) p in Ret (c :: l)
  end.

(** [ngx_cpymem(buf, p, ngx_min(last - buf, slen))]. *)
Definition copy_counted (room : option nat) (slen : Z) (p : list Z) : outcome (list Z) :=
  let len := match room with
             | Some n => Z.to_nat (Z.min (Z.of_nat n) slen)
             | None => Z.to_nat slen
             end in
  if (len <=? length p)%nat then Ret (take len p) else Undefined.

(** ngx_sprintf_num into the room left: no number has more than 64 digits, so
    the unbounded room is [width + 64]. *)
Definition put_num (room : option nat) (ui64 zero hex width : Z) : list Z :=
  let width := Z.to_nat width in
  ngx_sprintf_num (match room with Some n => n | None => width + 64 end)%nat
    ui64 zero hex width.

(** ** The second switch *)

(** The conversions that take an integer, by the width in bits of its type;
    [sign], [i64] and [ui64] after the case. *)
Definition int_value (c : Z) (sign : bool) (arg : Z) : bool * Z * Z :=
  let signed w := (true, wrapS w arg, 0) in
  let either w := if sign then (true, wrapS w arg, 0) else (false, 0, wrapU w arg) in
  if c =? "O"%c then signed 64
  else if c =? "P"%c then signed 32
  else if c =? "T"%c then signed 64
  else if c =? "M"%c then
    if wrapS 64 arg =? -1 then (true, -1, 0) else (false, 0, wrapU 64 arg)
  else if c =? "z"%c then either 64
  else if c =? "i"%c then either 64
  else if c =? "d"%c then either 32
  else if c =? "l"%c then either 64
  else if c =? "D"%c then either 32
  else if c =? "L"%c then either 64
  else if c =? "A"%c then either 64
  else if c =? "r"%c then signed 64
  else (* 'p' *) (false, 0, wrapU 64 arg).

Definition takes_int (c : Z) : bool := bool_decide (c ∈ $"OPTMzidlDLArp").

(** The integer conversions: the widths 'm' and 'p' give, the minus, the digits. *)
Definition put_int (room : option nat) (c : Z) (fl : flags) (arg : Z) : list Z :=
  let width :=
    if (c =? "i"%c) && max_width fl then NGX_INT_T_LEN
    else if (c =? "A"%c) && max_width fl then NGX_ATOMIC_T_LEN
    else if c =? "p"%c then NGX_PTR_SIZE * 2
    else width fl in
  let hex := if c =? "p"%c then 2 else hexa fl in
  let zero := if c =? "p"%c then "0"%c else zero fl in
  let '(sign, i64, ui64) := int_value c (sign fl) arg in
  if sign then
    if i64 <? 0 then "-"%c :: put_num (less room 1) (wrapU 64 (- i64)) zero hex width
    else put_num room (wrapU 64 i64) zero hex width
  else put_num room ui64 zero hex width.

(** 'f'; the scale is a product of [frac_width] tens. *)
Definition put_double (room : option nat) (fl : flags) (f : double) : list Z :=
  let minus := if negative f then ["-"%c] else [] in
  let room := less room (length minus) in
  let ui64 := wrapU 64 (whole f) in
  let '(ui64, frac) :=
    if frac_width fl =? 0 then (ui64, 0)
    else
      let scale := Nat.iter (Z.to_nat (frac_width fl)) (fun s => wrapU 64 (s * 10)) 1 in
      let frac := wrapU 64 (scaled_fraction f scale) in
      if frac =? scale then (wrapU 64 (ui64 + 1), 0) else (ui64, frac) in
  let int := put_num room ui64 (zero fl) 0 (width fl) in
  let room := less room (length int) in
  let point := clip room ["."%c] in
  let room := less room (length point) in
  minus ++ int
    ++ (if frac_width fl =? 0 then [] else point ++ put_num room frac "0"%c 0 (frac_width fl)).

(** One conversion: what it writes, the rest of the format and of the
    arguments.  A format that ends after a '%' makes the code step over its
    NUL. *)
Definition convert (room : option nat) (fl : flags) (fmt : list Z) (args : list va)
    : outcome (list Z * list Z * list va) :=
  match fmt with
  | [] => Undefined
  | c :: fmt =>
    if (c =? "V"%c) || (c =? "v"%c) then
      match args with
      | Str s :: args => Ret (clip room s, fmt, args)
      | _ => Undefined
      end
    else if c =? "s"%c then
      match args with
      | Ptr p :: args =>
        let! l := (if slen fl =? no_slen then copy_cstr room p
                   else copy_counted room (slen fl) p) in
        Ret (l, fmt, args)
      | _ => Undefined
      end
    else if takes_int c then
      match args with
      | Num z :: args => Ret (put_int room c fl z, fmt, args)
      | _ => Undefined
      end
    else if c =? "f"%c then
      match args with
      | Dbl f :: args => Ret (put_double room fl f, fmt, args)
      | _ => Undefined
      end
    else if c =? "c"%c then
      match args with
      | Num d :: args => Ret ([Z.land d 0xff], fmt, args)
      | _ => Undefined
      end
    else if c =? "Z"%c then Ret ([0], fmt, args)
    else if c =? "N"%c then Ret ([10], fmt, args)
    else Ret ([c], fmt, args)
  end.

(** ** The loop, and its callers *)

Fixpoint vslprintf_loop (fuel : nat) (room : option nat) (fmt : list Z) (args : list va)
    : outcome (list Z) :=
  match fuel with
  | O => NoFuel
  | S fuel =>
    match fmt with
    | [] => Ret []
    | c :: rest =>
      if (c =? 0) || bool_decide (room = Some O) then Ret []
      else if c =? "%"%c then
        let '(fl, rest) := start_flags rest in
        let! (fl, rest, args) := read_flags fl rest args in
        let! (written, rest, args) := convert room fl rest args in
        let! more := vslprintf_loop fuel (less room (length written)) rest args in
        Ret (written ++ more)
      else
        let! more := vslprintf_loop fuel (less room 1) rest args in
        Ret (c :: more)
    end
  end.

(** Every round consumes a character of the format. *)
Definition ngx_vslprintf (room : option nat) (fmt : list Z) (args : list va) : outcome (list Z) :=
  vslprintf_loop (S (length fmt)) room fmt args.

Definition ngx_sprintf (fmt : list Z) (args : list va) : outcome (list Z) :=
  ngx_vslprintf None fmt args.

Definition ngx_snprintf (max : nat) (fmt : list Z) (args : list va) : outcome (list Z) :=
  ngx_vslprintf (Some max) fmt args.

(** [room] is [last - buf]. *)
Definition ngx_slprintf (room : nat) (fmt : list Z) (args : list va) : outcome (list Z) :=
  ngx_vslprintf (Some room) fmt args.

End Printf.
Import Number Printf.

(** * Lemmas *)

Lemma length_take_room n (l : list Z) : (n - length (take n l) = n - length l)%nat.
Proof. rewrite length_take. lia. Qed.

Lemma less_take n (l : list Z) : less (Some n) (length (take n l)) = Some (n - length l)%nat.
Proof. cbn [less]. by rewrite length_take_room. Qed.

(** Two copies in a row into the room left are one copy of both. *)
Lemma clip_app n (l k : list Z) :
  clip (Some n) l ++ clip (less (Some n) (length (clip (Some n) l))) k = take n (l ++ k).
Proof. cbn [clip]. rewrite less_take. cbn [clip]. by rewrite take_app. Qed.

(** ** Numbers *)

Lemma length_dec_digits fuel n p : (length (dec_digits fuel n p) <= fuel + length p)%nat.
Proof.
  revert n p. induction fuel as [|fuel IH]; intros n p; cbn [dec_digits]; [lia|].
  case_if E; [cbn; lia|]. etrans; [apply IH|]. cbn. lia.
Qed.

Lemma length_hex_digits fuel tab n p :
  (length (hex_digits fuel tab n p) <= fuel + length p)%nat.
Proof.
  revert n p. induction fuel as [|fuel IH]; intros n p; cbn [hex_digits]; [lia|].
  case_if E; [cbn; lia|]. etrans; [apply IH|]. cbn. lia.
Qed.

(** The text of a number, before it is cut to the room. *)
Definition num_text (ui64 zero hex : Z) (width : nat) : list Z :=
  let p := if hex =? 0 then
             if ui64 <=? 4294967295 then dec_digits 64 (wrapU 32 ui64) []
             else dec_digits 64 ui64 []
           else if hex =? 1 then hex_digits 64 Number.hex ui64 []
           else hex_digits 64 HEX ui64 [] in
  replicate (width - length p) zero ++ p.

Lemma sprintf_num_text room ui64 zero hex width :
  ngx_sprintf_num room ui64 zero hex width = take room (num_text ui64 zero hex width).
Proof.
  unfold ngx_sprintf_num, num_text.
  set (p := if hex =? 0 then _ else _). rewrite take_app, take_replicate, length_replicate.
  rewrite (Nat.min_comm room). f_equal.
  destruct (Nat.ltb_spec (room - Nat.min (width - length p) room) (length p)).
  - f_equal. lia.
  - rewrite !take_ge by lia. done.
Qed.

Lemma length_num_text ui64 zero hex width :
  (length (num_text ui64 zero hex width) <= width + 64)%nat.
Proof.
  unfold num_text. rewrite length_app, length_replicate.
  set (p := if hex =? 0 then _ else _).
  assert (length p <= 64)%nat; [|lia]. subst p.
  repeat case_match; first [apply length_dec_digits | apply length_hex_digits].
Qed.

Lemma put_num_text room ui64 zero hex width :
  put_num room ui64 zero hex width = clip room (num_text ui64 zero hex (Z.to_nat width)).
Proof.
  unfold put_num. rewrite sprintf_num_text. destruct room; [done|].
  apply take_ge, length_num_text.
Qed.

Lemma put_int_clip n c fl arg :
  put_int (Some (S n)) c fl arg = take (S n) (put_int None c fl arg).
Proof.
  unfold put_int. destruct (int_value _ _ _) as [[sg i64] ui64].
  repeat case_match; rewrite !put_num_text; cbn [less clip take];
    rewrite ?Nat.sub_succ, ?Nat.sub_0_r; done.
Qed.

Lemma put_double_clip n fl f :
  put_double (Some (S n)) fl f = take (S n) (put_double None fl f).
Proof.
  unfold put_double. destruct (if frac_width fl =? 0 then _ else _) as [ui64 frac].
  rewrite !put_num_text. cbn [less clip].
  assert (forall m : list Z, (length m <= 1)%nat -> forall l, take (S n) (m ++ l) = m ++ take (S n - length m) l)
    as Hm by (intros m Hl l; rewrite take_app, (take_ge m) by lia; done).
  rewrite Hm by (destruct (negative f); cbn; lia). f_equal.
  set (r := (S n - _)%nat). rewrite length_take_room.
  destruct (frac_width fl =? 0).
  - rewrite !app_nil_r. done.
  - rewrite take_app. f_equal. by rewrite length_take_room, <- take_app.
Qed.

(** ** Conversions *)

Lemma copy_cstr_clip n p l :
  copy_cstr None p = Ret l -> copy_cstr (Some n) p = Ret (take n l).
Proof.
  revert n l. induction p as [|c p IH]; intros n l; cbn [copy_cstr less]; [done|].
  rewrite (bool_decide_false (None = Some O)), orb_false_r by done.
  destruct (c =? 0); cbn [orb]; [intros [= <-]; by rewrite take_nil|].
  destruct (copy_cstr None p) as [k| |]; cbn [outcome_bind]; [|done..]. intros [= <-].
  destruct n as [|n]; [done|]. rewrite bool_decide_false by done.
  rewrite Nat.sub_succ, Nat.sub_0_r, (IH n k) by done. done.
Qed.

Lemma copy_counted_clip n sl p l :
  copy_counted None sl p = Ret l -> copy_counted (Some n) sl p = Ret (take n l).
Proof.
  unfold copy_counted. destruct (Nat.leb_spec (Z.to_nat sl) (length p)); [|done].
  intros [= <-]. rewrite (proj2 (Nat.leb_le _ _)) by lia.
  rewrite take_take. do 2 f_equal. lia.
Qed.

Lemma convert_clip n fl fmt args l fmt' args' :
  convert None fl fmt args = Ret (l, fmt', args') ->
  convert (Some (S n)) fl fmt args = Ret (take (S n) l, fmt', args').
Proof.
  unfold convert. destruct fmt as [|c fmt]; [done|].
  assert (forall x : Z, take (S n) [x] = [x]) as H1 by (intros; by destruct n).
  repeat (let E := fresh in case_if E); try (intros [= <- <- <-]; by rewrite H1);
    (destruct args as [|[] args]; try done); try (intros [= <- <- <-]; rewrite ?H1);
    rewrite ?put_int_clip, ?put_double_clip; try done.
  - destruct (copy_cstr None s) as [k| |] eqn:Hc; cbn [outcome_bind]; try done.
    intros [= <- <- <-]. by rewrite (copy_cstr_clip _ _ _ Hc).
  - destruct (copy_counted None (slen fl) s) as [k| |] eqn:Hc; cbn [outcome_bind]; try done.
    intros [= <- <- <-]. by rewrite (copy_counted_clip _ _ _ _ Hc).
Qed.

Lemma loop_clip fuel n fmt args l :
  vslprintf_loop fuel None fmt args = Ret l ->
  vslprintf_loop fuel (Some n) fmt args = Ret (take n l).
Proof.
  revert n fmt args l. induction fuel as [|fuel IH]; intros n fmt args l; [done|].
  cbn [vslprintf_loop]. destruct fmt as [|c rest]; [intros [= <-]; by rewrite take_nil|].
  rewrite (bool_decide_false (None = Some O)), orb_false_r by done.
  destruct (c =? 0); cbn [orb]; [intros [= <-]; by rewrite take_nil|].
  destruct n as [|n].
  { rewrite bool_decide_true by done. done. }
  rewrite bool_decide_false by done. destruct (c =? "%"%c).
  - destruct (start_flags rest) as [fl rest']. destruct (read_flags fl rest' args) as [[[fl' r] a]| |];
      cbn [outcome_bind]; try done.
    destruct (convert None fl' r a) as [[[w r'] a']| |] eqn:Hc; cbn [outcome_bind]; try done.
    rewrite (convert_clip _ _ _ _ _ _ _ Hc). cbn [outcome_bind less].
    destruct (vslprintf_loop fuel None r' a') as [more| |] eqn:Hm; cbn [outcome_bind]; try done.
    intros [= <-]. rewrite (IH _ _ _ _ Hm), take_app, length_take_room. done.
  - cbn [less]. destruct (vslprintf_loop fuel None rest args) as [more| |] eqn:Hm; cbn [outcome_bind]; try done.
    intros [= <-]. rewrite (IH _ _ _ _ Hm). cbn [outcome_bind take].
    by rewrite Nat.sub_succ, Nat.sub_0_r.
Qed.

(** ** The format is consumed *)

Lemma read_number_shorter v fmt : (length (read_number v fmt).2 <= length fmt)%nat.
Proof.
  revert v. induction fmt as [|c fmt IH]; intros v; cbn [read_number]; [done|].
  case_match; cbn [snd length]; [|lia]. etrans; [apply IH|lia].
Qed.

Lemma start_flags_shorter fmt : (length (start_flags fmt).2 <= length fmt)%nat.
Proof.
  unfold start_flags. pose proof (read_number_shorter 0 fmt).
  destruct (read_number 0 fmt). done.
Qed.

Lemma read_flags_shorter fl fmt args fl' fmt' args' :
  read_flags fl fmt args = Ret (fl', fmt', args') -> (length fmt' <= length fmt)%nat.
Proof.
  revert fl args. induction fmt as [|c fmt IH]; intros [z w s h m f l] args; cbn [read_flags];
    [by intros [= _ <- _]|].
  repeat (let E := fresh in case_if E); cbn [length];
    try (intros H'; apply IH in H'; lia).
  - pose proof (read_number_shorter f fmt). destruct (read_number f fmt).
    intros [= _ <- _]. cbn [snd] in *. lia.
  - destruct args as [|[] args]; try done. intros H'; apply IH in H'. lia.
  - by intros [= _ <- _].
Qed.

Lemma convert_shorter room fl fmt args l fmt' args' :
  convert room fl fmt args = Ret (l, fmt', args') -> (length fmt' < length fmt)%nat.
Proof.
  unfold convert. destruct fmt as [|c fmt]; [done|]. cbn [length].
  repeat (let E := fresh in case_if E); try (destruct args as [|[] args]; try done);
    try (intros [= _ <- _]; lia).
  all: destruct (copy_cstr _ _) || destruct (copy_counted _ _ _); cbn [outcome_bind]; try done;
    intros [= _ <- _]; lia.
Qed.

Lemma read_flags_fuel fl fmt args : read_flags fl fmt args <> NoFuel.
Proof.
  revert fl args. induction fmt as [|c fmt IH]; intros [z w s h m f l] args; cbn [read_flags]; [done|].
  repeat (let E := fresh in case_if E); try apply IH; try done.
  - by destruct (read_number f fmt).
  - by destruct args as [|[] args].
Qed.

Lemma copy_cstr_fuel room p : copy_cstr room p <> NoFuel.
Proof.
  revert room. induction p as [|c p IH]; intros room; cbn [copy_cstr]; [done|].
  case_match; [done|]. specialize (IH (less room 1)).
  by destruct (copy_cstr (less room 1) p).
Qed.

Lemma convert_fuel room fl fmt args : convert room fl fmt args <> NoFuel.
Proof.
  unfold convert. destruct fmt as [|c fmt]; [done|].
  repeat (let E := fresh in case_if E); try (destruct args as [|[] args]; done); try done;
    (destruct args as [|[] args]; try done).
  - pose proof (copy_cstr_fuel room s). by destruct (copy_cstr room s).
  - unfold copy_counted. by case_match.
Qed.

Lemma loop_fuel fuel room fmt args :
  (length fmt < fuel)%nat -> vslprintf_loop fuel room fmt args <> NoFuel.
Proof.
  revert room fmt args. induction fuel as [|fuel IH]; intros room fmt args Hf; [lia|].
  cbn [vslprintf_loop]. destruct fmt as [|c rest]; [done|]. cbn [length] in Hf.
  case_match; [done|]. case_match.
  - pose proof (start_flags_shorter rest). destruct (start_flags rest) as [fl rest']. cbn [snd] in *.
    pose proof (read_flags_fuel fl rest' args).
    destruct (read_flags fl rest' args) as [[[fl' r] a]| |] eqn:Hr; cbn [outcome_bind]; try done.
    apply read_flags_shorter in Hr. pose proof (convert_fuel room fl' r a).
    destruct (convert room fl' r a) as [[[w r'] a']| |] eqn:Hc; cbn [outcome_bind]; try done.
    apply convert_shorter in Hc.
    specialize (IH (less room (length w)) r' a'). destruct (vslprintf_loop _ _ _ _); try done.
    by apply IH; lia.
  - specialize (IH (less room 1) rest args). destruct (vslprintf_loop _ _ _ _); try done.
    apply IH; lia.
Qed.

(** ** Decimal numbers *)

(** A number of at most [k] digits, padded to [width]. *)
Lemma num_text_dec k n zero width :
  0 <= n < 10 ^ Z.of_nat k -> (0 < k <= 64)%nat ->
  exists ds, num_text n zero 0 width = replicate (width - length ds) zero ++ ds /\
    is_decimal ds = true /\ decimal ds = n /\ (length ds <= k)%nat.
Proof.
  intros Hn Hk. unfold num_text. cbn [Z.eqb].
  destruct (dec_digits_spec k 64 n [] Hn ltac:(lia)) as (ds & Hds & Hd & Hv & Hl).
  rewrite app_nil_r in Hds. exists ds. split; [|done].
  destruct (Z.leb_spec n 4294967295); [rewrite wrapU_small by lia|]; by rewrite Hds.
Qed.

(** What "%O" prints. *)
Definition off_text (z : Z) : list Z :=
  put_int None "O"%c (MkFlags " "%c 0 true 0 false 0 no_slen) z.

Lemma off_text_dec z :
  0 <= z < 2 ^ 63 -> is_decimal (off_text z) = true /\ decimal (off_text z) = z.
Proof.
  intros Hz. unfold off_text, put_int. cbn [Z.eqb Pos.eqb andb max_width width hexa zero sign int_value].
  rewrite wrapS_small by lia. destruct (Z.ltb_spec z 0); [lia|].
  rewrite put_num_text, wrapU_small by lia. cbn [clip]. change (Z.to_nat 0) with O.
  destruct (num_text_dec 20 z " "%c 0) as (ds & -> & Hd & Hv & _); [cbn; lia|lia|]. done.
Qed.

Lemma length_off_text z : (length (off_text z) <= 20)%nat.
Proof.
  unfold off_text, put_int. cbn [Z.eqb Pos.eqb andb max_width width hexa zero sign int_value].
  pose proof (wrapS_range 64 z ltac:(lia)) as Hr. set (i := wrapS 64 z) in *.
  assert (forall n, 0 <= n <= 2 ^ 63 -> (length (num_text n " "%c 0 0) <= 19)%nat) as Hlen.
  { intros n Hn. destruct (num_text_dec 19 n " "%c 0) as (ds & -> & _ & _ & Hl); [|lia|].
    - change (10 ^ Z.of_nat 19) with 10000000000000000000. lia.
    - rewrite Nat.sub_0_l. cbn [replicate app]. lia. }
  destruct (Z.ltb_spec i 0); rewrite put_num_text, wrapU_small by lia; cbn [clip less length];
    change (Z.to_nat 0) with O.
  - specialize (Hlen (- i) ltac:(lia)). lia.
  - specialize (Hlen i ltac:(lia)). lia.
Qed.

(** What "%0muA" prints: twenty digits. *)
Definition boundary_text (z : Z) : list Z :=
  put_int None "A"%c (MkFlags "0"%c 0 false 0 true 0 no_slen) z.

Lemma length_boundary_text z : length (boundary_text z) = 20%nat.
Proof.
  unfold boundary_text, put_int. cbn [Z.eqb Pos.eqb andb max_width width hexa zero sign int_value].
  rewrite put_num_text. cbn [clip]. pose proof (wrapU_range 64 z ltac:(lia)) as Hr.
  destruct (num_text_dec 20 (wrapU 64 z) "0"%c 20) as (ds & Heq & _ & _ & Hl); [|lia|].
  { change (10 ^ Z.of_nat 20) with 100000000000000000000. lia. }
  change (Z.to_nat NGX_ATOMIC_T_LEN) with 20%nat. rewrite Heq, length_app, length_replicate. lia.
Qed.

(** * Properties *)

(** C37. A bounded print is the prefix that fits of the unbounded one: what
    ngx_snprintf and ngx_slprintf write is what ngx_sprintf would write, cut to
    the room given, so they never write past it; and none of the three loops
    runs for ever, whatever the format and the arguments are. *)
Theorem snprintf_truncates room fmt args text :
  ngx_sprintf fmt args = Ret text ->
  ngx_snprintf room fmt args = Ret (take room text) /\
  ngx_slprintf room fmt args = Ret (take room text) /\
  (length (take room text) <= room)%nat /\
  forall bound fmt' args', ngx_vslprintf bound fmt' args' <> NoFuel.
Proof.
  intros H. split_and!.
  - by apply loop_clip.
  - by apply loop_clip.
  - rewrite length_take. lia.
  - intros bound fmt' args'. apply loop_fuel. lia.
Qed.

(** A number with its minus and its fraction, cut after nine bytes. *)
Lemma snprintf_truncates_witness :
  ngx_snprintf 9 ($"%04uxi: %d, %.2f")
    [Num 254; Num (-17); Dbl (MkDouble true 3 (fun scale => scale / 4))] = Ret ($"00fe: -17").
Proof.
  exact (proj1 (snprintf_truncates 9 ($"%04uxi: %d, %.2f")
    [Num 254; Num (-17); Dbl (MkDouble true 3 (fun scale => scale / 4))]
    ($"00fe: -17, -3.25") eq_refl)).
Defined.
