(* ===== verification/NgxBase64.v ===== *)
(** Base64: [ngx_encode_base64] and the decoders of
    src/vod/nginx-1.2.9/src/core/ngx_string.c.  The destination buffer is the
    returned list of bytes. *)

From S2P Require Import Prelude.

(** * The code *)

Module Base64.

(** static u_char basis64[] of [ngx_encode_base64] *)
Definition basis64 : list Z :=
  $"ABCDEFGHIJKLMNOPQRSTUVWXYZabcdefghijklmnopqrstuvwxyz0123456789+/".

Definition enc (i : Z) : Z := nth (Z.to_nat i) basis64 0.

Fixpoint ngx_encode_base64 (s : list Z) : list Z :=
  match s with
  | s0 :: s1 :: s2 :: s =>
      enc (Z.land (Z.shiftr s0 2) 0x3f) ::
      enc (Z.lor (Z.shiftl (Z.land s0 3) 4) (Z.shiftr s1 4)) ::
      enc (Z.lor (Z.shiftl (Z.land s1 0x0f) 2) (Z.shiftr s2 6)) ::
      enc (Z.land s2 0x3f) :: ngx_encode_base64 s
  | [s0; s1] =>
      [enc (Z.land (Z.shiftr s0 2) 0x3f);
       enc (Z.lor (Z.shiftl (Z.land s0 3) 4) (Z.shiftr s1 4));
       enc (Z.shiftl (Z.land s1 0x0f) 2); "="%c]
  | [s0] =>
      [enc (Z.land (Z.shiftr s0 2) 0x3f); enc (Z.shiftl (Z.land s0 3) 4); "="%c; "="%c]
  | [] => []
  end.

(** static u_char basis64[] of [ngx_decode_base64] *)
Definition decode_basis : list Z :=
  [
   77; 77; 77; 77; 77; 77; 77; 77; 77; 77; 77; 77; 77; 77; 77; 77;
   77; 77; 77; 77; 77; 77; 77; 77; 77; 77; 77; 77; 77; 77; 77; 77;
   77; 77; 77; 77; 77; 77; 77; 77; 77; 77; 77; 62; 77; 77; 77; 63;
   52; 53; 54; 55; 56; 57; 58; 59; 60; 61; 77; 77; 77; 77; 77; 77;
   77; 0; 1; 2; 3; 4; 5; 6; 7; 8; 9; 10; 11; 12; 13; 14;
   15; 16; 17; 18; 19; 20; 21; 22; 23; 24; 25; 77; 77; 77; 77; 77;
   77; 26; 27; 28; 29; 30; 31; 32; 33; 34; 35; 36; 37; 38; 39; 40;
   41; 42; 43; 44; 45; 46; 47; 48; 49; 50; 51; 77; 77; 77; 77; 77;
   77; 77; 77; 77; 77; 77; 77; 77; 77; 77; 77; 77; 77; 77; 77; 77;
   77; 77; 77; 77; 77; 77; 77; 77; 77; 77; 77; 77; 77; 77; 77; 77;
   77; 77; 77; 77; 77; 77; 77; 77; 77; 77; 77; 77; 77; 77; 77; 77;
   77; 77; 77; 77; 77; 77; 77; 77; 77; 77; 77; 77; 77; 77; 77; 77;
   77; 77; 77; 77; 77; 77; 77; 77; 77; 77; 77; 77; 77; 77; 77; 77;
   77; 77; 77; 77; 77; 77; 77; 77; 77; 77; 77; 77; 77; 77; 77; 77;
   77; 77; 77; 77; 77; 77; 77; 77; 77; 77; 77; 77; 77; 77; 77; 77;
   77; 77; 77; 77; 77; 77; 77; 77; 77; 77; 77; 77; 77; 77; 77; 77].

(** static u_char basis64[] of [ngx_decode_base64url] *)
Definition decode_basis_url : list Z :=
  [
   77; 77; 77; 77; 77; 77; 77; 77; 77; 77; 77; 77; 77; 77; 77; 77;
   77; 77; 77; 77; 77; 77; 77; 77; 77; 77; 77; 77; 77; 77; 77; 77;
   77; 77; 77; 77; 77; 77; 77; 77; 77; 77; 77; 77; 77; 62; 77; 77;
   52; 53; 54; 55; 56; 57; 58; 59; 60; 61; 77; 77; 77; 77; 77; 77;
   77; 0; 1; 2; 3; 4; 5; 6; 7; 8; 9; 10; 11; 12; 13; 14;
   15; 16; 17; 18; 19; 20; 21; 22; 23; 24; 25; 77; 77; 77; 77; 63;
   77; 26; 27; 28; 29; 30; 31; 32; 33; 34; 35; 36; 37; 38; 39; 40;
   41; 42; 43; 44; 45; 46; 47; 48; 49; 50; 51; 77; 77; 77; 77; 77;
   77; 77; 77; 77; 77; 77; 77; 77; 77; 77; 77; 77; 77; 77; 77; 77;
   77; 77; 77; 77; 77; 77; 77; 77; 77; 77; 77; 77; 77; 77; 77; 77;
   77; 77; 77; 77; 77; 77; 77; 77; 77; 77; 77; 77; 77; 77; 77; 77;
   77; 77; 77; 77; 77; 77; 77; 77; 77; 77; 77; 77; 77; 77; 77; 77;
   77; 77; 77; 77; 77; 77; 77; 77; 77; 77; 77; 77; 77; 77; 77; 77;
   77; 77; 77; 77; 77; 77; 77; 77; 77; 77; 77; 77; 77; 77; 77; 77;
   77; 77; 77; 77; 77; 77; 77; 77; 77; 77; 77; 77; 77; 77; 77; 77;
   77; 77; 77; 77; 77; 77; 77; 77; 77; 77; 77; 77; 77; 77; 77; 77].

Definition at_basis (basis : list Z) (c : Z) : Z := nth (Z.to_nat c) basis 0.

(** The first loop: the number of bytes before a padding byte or the end. *)
Fixpoint valid_prefix (basis : list Z) (src : list Z) : option nat :=
  match src with
  | [] => Some O
  | c :: src =>
      if c =? "="%c then Some O
      else if at_basis basis c =? 77 then None
      else match valid_prefix basis src with
           | None => None
           | Some len => Some (S len)
           end
  end.

Fixpoint decode_groups (basis : list Z) (s : list Z) : list Z :=
  let b := at_basis basis in
  match s with
  | s0 :: s1 :: s2 :: s3 :: s =>
      wrapU 8 (Z.lor (Z.shiftl (b s0) 2) (Z.shiftr (b s1) 4)) ::
      wrapU 8 (Z.lor (Z.shiftl (b s1) 4) (Z.shiftr (b s2) 2)) ::
      wrapU 8 (Z.lor (Z.shiftl (b s2) 6) (b s3)) :: decode_groups basis s
  | [s0; s1; s2] =>
      [wrapU 8 (Z.lor (Z.shiftl (b s0) 2) (Z.shiftr (b s1) 4));
       wrapU 8 (Z.lor (Z.shiftl (b s1) 4) (Z.shiftr (b s2) 2))]
  | [s0; s1] => [wrapU 8 (Z.lor (Z.shiftl (b s0) 2) (Z.shiftr (b s1) 4))]
  | _ => []
  end.

(** [None] is NGX_ERROR, [Some d] NGX_OK with the bytes of [dst]. *)
Definition ngx_decode_base64_internal (src : list Z) (basis : list Z) : option (list Z) :=
  match valid_prefix basis src with
  | None => None
  | Some len =>
      if (len mod 4 =? 1)%nat then None
      else Some (decode_groups basis (take len src))
  end.

Definition ngx_decode_base64 (src : list Z) : option (list Z) :=
  ngx_decode_base64_internal src decode_basis.

Definition ngx_decode_base64url (src : list Z) : option (list Z) :=
  ngx_decode_base64_internal src decode_basis_url.

End Base64.
Import Base64.

(** * Sextets

    The encoder writes the sextets of the input through [basis64]; the decoder
    table is the inverse of it. *)

Lemma land_ones_range a n : 0 <= n -> 0 <= Z.land a (Z.ones n) < 2 ^ n.
Proof. intros Hn. rewrite Z.land_ones by done. apply Z.mod_pos_bound. lia. Qed.

Lemma shiftr_byte_range a n : is_byte a -> 0 <= n <= 8 -> 0 <= Z.shiftr a n < 2 ^ (8 - n).
Proof.
  unfold is_byte. intros Ha Hn. rewrite Z.shiftr_div_pow2 by lia.
  split; [apply Z.div_pos; lia|]. apply Z.div_lt_upper_bound; [lia|].
  rewrite <- Z.pow_add_r by lia. replace (n + (8 - n)) with 8 by lia. lia.
Qed.

Definition sextet_ok (i : Z) : bool :=
  negb (enc i =? "="%c) && (at_basis decode_basis (enc i) =? i) && (i <? 64).

Lemma sextets_ok i : 0 <= i < 64 -> sextet_ok i = true.
Proof. intros Hi. apply (below_spec 64); [vm_compute; done|lia]. Qed.

Lemma dec_enc i : 0 <= i < 64 -> at_basis decode_basis (enc i) = i.
Proof.
  intros Hi. pose proof (sextets_ok i Hi) as H. unfold sextet_ok in H. boolify. done.
Qed.

(** The bytes come back from their sextets: each fact mentions the few bits of
    the neighbouring bytes that share a sextet. *)
Definition check_first (a y : Z) : bool :=
  let i := Z.land (Z.shiftr a 2) 0x3f in
  let j := Z.lor (Z.shiftl (Z.land a 3) 4) y in
  (0 <=? i) && (i <? 64) && (0 <=? j) && (j <? 64) &&
  (wrapU 8 (Z.lor (Z.shiftl i 2) (Z.shiftr j 4)) =? a).

Definition check_second (x b y : Z) : bool :=
  let j := Z.lor (Z.shiftl x 4) (Z.shiftr b 4) in
  let k := Z.lor (Z.shiftl (Z.land b 0x0f) 2) y in
  (0 <=? k) && (k <? 64) && (0 <=? j) && (j <? 64) &&
  (wrapU 8 (Z.lor (Z.shiftl j 4) (Z.shiftr k 2)) =? b).

Definition check_third (x c : Z) : bool :=
  let k := Z.lor (Z.shiftl x 2) (Z.shiftr c 6) in
  let l := Z.land c 0x3f in
  (0 <=? k) && (k <? 64) && (0 <=? l) && (l <? 64) &&
  (wrapU 8 (Z.lor (Z.shiftl k 6) l) =? c).

Lemma first_ok a y : is_byte a -> 0 <= y < 16 -> check_first a y = true.
Proof.
  intros Ha Hy. unfold is_byte in Ha.
  assert (below 256 (fun a => below 16 (fun y => check_first a y)) = true) as H by (vm_compute; done).
  apply (below_spec 256 _ a) in H; [|lia]. by apply (below_spec 16 _ y) in H.
Qed.

Lemma second_ok x b y : 0 <= x < 4 -> is_byte b -> 0 <= y < 4 -> check_second x b y = true.
Proof.
  intros Hx Hb Hy. unfold is_byte in Hb.
  assert (below 4 (fun x => below 256 (fun b => below 4 (fun y => check_second x b y))) = true)
    as H by (vm_compute; done).
  apply (below_spec 4 _ x) in H; [|lia]. apply (below_spec 256 _ b) in H; [|lia].
  by apply (below_spec 4 _ y) in H.
Qed.

Lemma third_ok x c : 0 <= x < 16 -> is_byte c -> check_third x c = true.
Proof.
  intros Hx Hc. unfold is_byte in Hc.
  assert (below 16 (fun x => below 256 (fun c => check_third x c)) = true) as H by (vm_compute; done).
  apply (below_spec 16 _ x) in H; [|lia]. by apply (below_spec 256 _ c) in H.
Qed.

(** Range facts about the parts of a byte. *)
Lemma low2 a : 0 <= Z.land a 3 < 4.
Proof. apply (land_ones_range a 2). lia. Qed.
Lemma low4 a : 0 <= Z.land a 0x0f < 16.
Proof. apply (land_ones_range a 4). lia. Qed.
Lemma high4 a : is_byte a -> 0 <= Z.shiftr a 4 < 16.
Proof. intros H. apply (shiftr_byte_range a 4 H). lia. Qed.
Lemma high2 a : is_byte a -> 0 <= Z.shiftr a 6 < 4.
Proof. intros H. apply (shiftr_byte_range a 6 H). lia. Qed.

#[local] Hint Resolve low2 low4 high4 high2 : xh.

(** Induction three bytes at a time. *)
Lemma list_ind3 {A} (P : list A -> Prop) :
  P [] -> (forall a, P [a]) -> (forall a b, P [a; b]) ->
  (forall a b c l, P l -> P (a :: b :: c :: l)) -> forall l, P l.
Proof.
  intros H0 H1 H2 H3. refine (fix f l := _). destruct l as [|a [|b [|c l]]].
  - exact H0.
  - apply H1.
  - apply H2.
  - apply H3, f.
Qed.

(** The sextets the encoder looks up are below 64. *)
Definition sextets_valid (l : list Z) : Prop := Forall (fun c => exists i, 0 <= i < 64 /\ c = enc i) l.

Lemma valid_prefix_sextets l rest :
  sextets_valid l -> (rest = [] \/ exists r, rest = "="%c :: r) ->
  valid_prefix decode_basis (l ++ rest) = Some (length l).
Proof.
  intros Hl Hr. induction Hl as [|c l (i & Hi & ->) Hl IH].
  - destruct Hr as [-> | (r & ->)]; done.
  - cbn [app valid_prefix length]. pose proof (sextets_ok i Hi) as H. unfold sextet_ok in H. boolify.
    rewrite (proj2 (Z.eqb_neq _ _)), (proj2 (Z.eqb_neq (at_basis _ _) _)) by lia.
    rewrite IH. done.
Qed.

(** The encoding is complete groups of sextets and then the padding. *)
Lemma encode_decode s :
  bytes_ok s ->
  exists l pad,
    ngx_encode_base64 s = l ++ pad /\ sextets_valid l /\
    (pad = [] \/ exists r, pad = "="%c :: r) /\ (length l mod 4 <> 1)%nat /\
    decode_groups decode_basis l = s.
Proof.
  induction s as [|a|a b|a b c s IH] using list_ind3; intros Hs;
    repeat (apply bytes_ok_cons in Hs as [? Hs]).
  - exists [], []. cbn. repeat split; auto. constructor.
  - pose proof (first_ok a 0 H ltac:(lia)) as F. unfold check_first in F. cbv zeta in F.
    rewrite Z.lor_0_r in F. boolify.
    eexists [_; _], ["="%c; "="%c]. cbn [ngx_encode_base64]. split; [done|].
    split; [repeat constructor; eauto|]. split; [eauto|]. split; [done|].
    cbn [decode_groups]. rewrite !dec_enc by lia. congruence.
  - pose proof (first_ok a (Z.shiftr b 4) H ltac:(auto with xh)) as F.
    pose proof (second_ok (Z.land a 3) b 0 ltac:(auto with xh) H0 ltac:(lia)) as G.
    unfold check_first, check_second in F, G. cbv zeta in F, G. rewrite Z.lor_0_r in G. boolify.
    eexists [_; _; _], ["="%c]. cbn [ngx_encode_base64]. split; [done|].
    split; [repeat constructor; eauto|]. split; [eauto|]. split; [done|].
    cbn [decode_groups]. rewrite !dec_enc by lia. congruence.
  - destruct (IH Hs) as (l & pad & He & Hv & Hp & Hm & Hd).
    pose proof (first_ok a (Z.shiftr b 4) H ltac:(auto with xh)) as F.
    pose proof (second_ok (Z.land a 3) b (Z.shiftr c 6) ltac:(auto with xh) H0 ltac:(auto with xh)) as G.
    pose proof (third_ok (Z.land b 0x0f) c ltac:(auto with xh) H1) as K.
    unfold check_first, check_second, check_third in F, G, K. cbv zeta in F, G, K. boolify.
    eexists (_ :: _ :: _ :: _ :: l), pad. cbn [ngx_encode_base64 app]. rewrite He.
    split; [done|]. split; [repeat constructor; eauto|]. split; [done|].
    split; [change (length _) with (4 + length l)%nat;
            rewrite <- Nat.Div0.add_mod_idemp_l; done|].
    cbn [decode_groups]. rewrite !dec_enc by lia. congruence.
Qed.

(** * Properties *)

(** Decoding what [ngx_encode_base64] produces succeeds and gives back the
    bytes, for every byte string. *)
Theorem base64_roundtrip s :
  bytes_ok s -> ngx_decode_base64 (ngx_encode_base64 s) = Some s.
Proof.
  intros Hs. destruct (encode_decode s Hs) as (l & pad & -> & Hv & Hp & Hm & Hd).
  unfold ngx_decode_base64, ngx_decode_base64_internal.
  rewrite valid_prefix_sextets by done. rewrite (proj2 (Nat.eqb_neq _ _)) by done.
  rewrite take_app_length, Hd. done.
Qed.

Lemma base64_roundtrip_witness :
  ngx_decode_base64 $"eGhvbWU=" = Some $"xhome".
Proof. apply (base64_roundtrip $"xhome"). apply (bool_decide_unpack _). done. Defined.
