(* ===== verification/NgxEscape.v ===== *)
(** Escaping: [ngx_escape_uri], [ngx_unescape_uri] and [ngx_escape_html] of
    src/vod/nginx-1.2.9/src/core/ngx_string.c.  The call with a null [dst],
    which only counts, and the call that writes are two definitions. *)

From S2P Require Import Prelude NgxNumber.
Import Number.

(** * The code *)

Module Escape.

(** The bitmaps: bit [c & 0x1f] of word [c >> 5] says that [c] is escaped. *)
Definition uri : list Z :=
  [0xffffffff; 0x80000029; 0x00000000; 0x80000000;
   0xffffffff; 0xffffffff; 0xffffffff; 0xffffffff].

Definition args : list Z :=
  [0xffffffff; 0x88000869; 0x00000000; 0x80000000;
   0xffffffff; 0xffffffff; 0xffffffff; 0xffffffff].

Definition uri_component : list Z :=
  [0xffffffff; 0xfc009fff; 0x78000001; 0xb8000001;
   0xffffffff; 0xffffffff; 0xffffffff; 0xffffffff].

Definition html : list Z :=
  [0xffffffff; 0x000000ad; 0x00000000; 0x80000000;
   0xffffffff; 0xffffffff; 0xffffffff; 0xffffffff].

Definition refresh : list Z :=
  [0xffffffff; 0x00000085; 0x00000000; 0x80000000;
   0xffffffff; 0xffffffff; 0xffffffff; 0xffffffff].

Definition memcached : list Z :=
  [0xffffffff; 0x00000021; 0x00000000; 0x00000000;
   0x00000000; 0x00000000; 0x00000000; 0x00000000].

(** static uint32_t *map[] *)
Definition maps : list (list Z) :=
  [uri; args; uri_component; html; refresh; memcached; memcached].

(** [escape[*src >> 5] & (1 << ( *src & 0x1f))] *)
Definition escaped (escape : list Z) (c : Z) : bool :=
  negb (Z.land (nth (Z.to_nat (Z.shiftr c 5)) escape 0)
               (Z.shiftl 1 (Z.land c 0x1f)) =? 0).

(** [ngx_escape_uri(NULL, src, size, type)] *)
Fixpoint escape_count (escape : list Z) (src : list Z) : Z :=
  match src with
  | [] => 0
  | c :: src => (if escaped escape c then 1 else 0) + escape_count escape src
  end.

Fixpoint escape_write (escape : list Z) (src : list Z) : list Z :=
  match src with
  | [] => []
  | c :: src =>
      if escaped escape c then
        "%"%c :: hex_char hex (Z.shiftr c 4) :: hex_char hex (Z.land c 0xf) ::
        escape_write escape src
      else c :: escape_write escape src
  end.

Definition escape_map (type : nat) : list Z := nth type maps [].

Definition ngx_escape_uri_count (src : list Z) (type : nat) : Z :=
  escape_count (escape_map type) src.

Definition ngx_escape_uri (src : list Z) (type : nat) : list Z :=
  escape_write (escape_map type) src.

Definition NGX_UNESCAPE_URI : Z := 1.
Definition NGX_UNESCAPE_REDIRECT : Z := 2.

(** enum state of [ngx_unescape_uri]; the third state also has [decoded] and
    the byte at [s - 1], which becomes [s - 2] when the next byte is read. *)
Inductive unescape_state :=
| sw_usual
| sw_quoted
| sw_quoted_second (decoded prev : Z).

(** The value of the hexadecimal digit [ch], if it is one. *)
Definition quoted_digit (ch : Z) : option Z :=
  if ("0"%c <=? ch) && (ch <=? "9"%c) then Some (wrapU 8 (ch - "0"%c))
  else
    let c := wrapU 8 (Z.lor ch 0x20) in
    if ("a"%c <=? c) && (c <=? "f"%c) then Some (wrapU 8 (c - "a"%c + 10))
    else None.

(** The two branches of [case sw_quoted_second] after the value is known: the
    bytes written and whether the loop ends. *)
Definition second_digit (type : Z) (prev src : Z) (ch : Z) : list Z * bool :=
  if ("0"%c <=? src) && (src <=? "9"%c) then
    if negb (Z.land type NGX_UNESCAPE_REDIRECT =? 0) then
      if ("%"%c <? ch) && (ch <? 0x7f) then ([ch], false)
      else (["%"%c; prev; src], false)
    else ([ch], false)
  else
    if negb (Z.land type NGX_UNESCAPE_URI =? 0) then
      if ch =? "?"%c then ([ch], true) else ([ch], false)
    else if negb (Z.land type NGX_UNESCAPE_REDIRECT =? 0) then
      if ch =? "?"%c then ([ch], true)
      else if ("%"%c <? ch) && (ch <? 0x7f) then ([ch], false)
      else (["%"%c; prev; src], false)
    else ([ch], false).

(** Returns what is written to [dst] and the source left at [done]. *)
Fixpoint unescape_loop (type : Z) (state : unescape_state) (s : list Z) : list Z * list Z :=
  match s with
  | [] => ([], [])
  | ch :: s =>
      match state with
      | sw_usual =>
          if (ch =? "?"%c) &&
             negb (Z.land type (Z.lor NGX_UNESCAPE_URI NGX_UNESCAPE_REDIRECT) =? 0)
          then ([ch], s)
          else if ch =? "%"%c then unescape_loop type sw_quoted s
          else let '(d, r) := unescape_loop type sw_usual s in (ch :: d, r)
      | sw_quoted =>
          match quoted_digit ch with
          | Some decoded => unescape_loop type (sw_quoted_second decoded ch) s
          | None => let '(d, r) := unescape_loop type sw_usual s in (ch :: d, r)
          end
      | sw_quoted_second decoded prev =>
          match quoted_digit ch with
          | Some low =>
              let '(w, stop) :=
                second_digit type prev ch (wrapU 8 (Z.shiftl decoded 4 + low)) in
              if stop : bool then (w, s)
              else let '(d, r) := unescape_loop type sw_usual s in (w ++ d, r)
          | None => unescape_loop type sw_usual s
          end
      end
  end.

Definition ngx_unescape_uri (src : list Z) (type : Z) : list Z * list Z :=
  unescape_loop type sw_usual src.

(** [ngx_escape_html(NULL, src, size)]: the bytes needed beyond [size]. *)
Definition html_extra (c : Z) : Z :=
  match c with
  | "<"%c => 5 - 2
  | ">"%c => 5 - 2
  | "&"%c => 6 - 2
  | 34 => 7 - 2
  | _ => 0
  end.

Fixpoint ngx_escape_html_count (src : list Z) : Z :=
  match src with
  | [] => 0
  | c :: src => html_extra c + ngx_escape_html_count src
  end.

Definition html_entity (ch : Z) : list Z :=
  match ch with
  | "<"%c => $"&lt;"
  | ">"%c => $"&gt;"
  | "&"%c => $"&amp;"
  | 34 => $"&quot;"
  | _ => [ch]
  end.

Fixpoint ngx_escape_html (src : list Z) : list Z :=
  match src with
  | [] => []
  | ch :: src => html_entity ch ++ ngx_escape_html src
  end.

End Escape.
Import Escape.

(** * Lemmas *)

(** Every map but [refresh] escapes the percent sign. *)
Definition percent_escaped (escape : list Z) : Prop := escaped escape "%"%c = true.

Lemma maps_percent type :
  (type < 7)%nat -> type <> 4%nat -> percent_escaped (escape_map type).
Proof. intros H Hne. do 7 (destruct type as [|type]; [done|]). lia. Qed.

(** Decoding the two digits the writer puts after a percent sign. *)
Definition digits_back (c : Z) : bool :=
  match quoted_digit (hex_char hex (Z.shiftr c 4)), quoted_digit (hex_char hex (Z.land c 0xf)) with
  | Some h, Some l => wrapU 8 (Z.shiftl h 4 + l) =? c
  | _, _ => false
  end.

Lemma digits_back_ok c : is_byte c -> digits_back c = true.
Proof.
  unfold is_byte. intros H. apply (below_spec 256 digits_back); [vm_compute; done|lia].
Qed.

Lemma second_digit_plain prev src ch : second_digit 0 prev src ch = ([ch], false).
Proof. unfold second_digit. cbn. destruct (_ && _); done. Qed.

Lemma unescape_quoted c s d r :
  is_byte c -> unescape_loop 0 sw_usual s = (d, r) ->
  unescape_loop 0 sw_usual
    ("%"%c :: hex_char hex (Z.shiftr c 4) :: hex_char hex (Z.land c 0xf) :: s) = (c :: d, r).
Proof.
  intros Hc Hs. pose proof (digits_back_ok c Hc) as Hd. unfold digits_back in Hd.
  cbn [unescape_loop]. change ("%"%c =? "?"%c) with false. change ("%"%c =? "%"%c) with true.
  cbn [andb]. destruct (quoted_digit (hex_char hex (Z.shiftr c 4))) as [h|]; [|done].
  destruct (quoted_digit (hex_char hex (Z.land c 0xf))) as [l|]; [|done]. boolify.
  rewrite second_digit_plain, Hs, Hd. done.
Qed.

Lemma unescape_escape escape s :
  percent_escaped escape -> bytes_ok s ->
  unescape_loop 0 sw_usual (escape_write escape s) = (s, []).
Proof.
  intros Hp Hs. induction Hs as [|c s Hc Hs IH]; [done|]. cbn [escape_write].
  destruct (escaped escape c) eqn:E; [by apply unescape_quoted|].
  cbn [unescape_loop]. change (Z.land 0 (Z.lor NGX_UNESCAPE_URI NGX_UNESCAPE_REDIRECT) =? 0) with true.
  rewrite andb_false_r. destruct (Z.eqb_spec c "%"%c) as [-> |Hne].
  - unfold percent_escaped in Hp. congruence.
  - rewrite IH. done.
Qed.

Lemma length_escape_write escape s :
  Z.of_nat (length (escape_write escape s)) = Z.of_nat (length s) + 2 * escape_count escape s.
Proof.
  induction s as [|c s IH]; [done|]. cbn [escape_write escape_count].
  destruct (escaped escape c); cbn [length]; lia.
Qed.

(** What the writer emits is a percent sign, a hexadecimal digit or a byte that
    is not escaped. *)
Lemma escape_write_safe escape s :
  bytes_ok s ->
  Forall (fun c => c = "%"%c \/ is_hex c = true \/ escaped escape c = false) (escape_write escape s).
Proof.
  intros Hs. induction Hs as [|c s Hc Hs IH]; [constructor|]. cbn [escape_write].
  destruct (escaped escape c) eqn:E; [|constructor; auto].
  assert (0 <= Z.shiftr c 4 < 16) as H1.
  { unfold is_byte in Hc. rewrite Z.shiftr_div_pow2 by lia. split; [apply Z.div_pos; lia|].
    apply Z.div_lt_upper_bound; lia. }
  assert (0 <= Z.land c 0xf < 16) as H2.
  { change 0xf with (Z.ones 4). rewrite Z.land_ones by lia. apply Z.mod_pos_bound. lia. }
  constructor; [by left|].
  constructor; [right; left; apply (hex_char_digit hex); auto|].
  constructor; [right; left; apply (hex_char_digit hex); auto|done].
Qed.

Lemma length_html_entity c : Z.of_nat (length (html_entity c)) = 1 + html_extra c.
Proof.
  unfold html_entity, html_extra.
  destruct c as [|c|c]; [done| |done].
  do 6 (destruct c as [c|c|]; try reflexivity).
Qed.

Lemma html_entity_safe c : is_byte c -> Forall (fun b => b <> "<"%c /\ b <> ">"%c /\ b <> 34) (html_entity c).
Proof.
  unfold is_byte. intros Hc.
  assert (forallb (fun b => negb (b =? "<"%c) && negb (b =? ">"%c) && negb (b =? 34)) (html_entity c) = true) as H.
  { apply (below_spec 256 (fun c => forallb (fun b => negb (b =? "<"%c) && negb (b =? ">"%c) && negb (b =? 34)) (html_entity c)));
      [vm_compute; done|lia]. }
  apply Forall_forall. intros b Hb. rewrite forallb_forall in H.
  apply list_elem_of_In in Hb. apply H in Hb. boolify. lia.
Qed.

(** * Properties *)

(** Unescaping (without the URI and redirect options) what
    [ngx_escape_uri] wrote gives back the bytes and consumes all of them, for
    every escaping type but [NGX_ESCAPE_REFRESH] (4), whose map does not escape
    the percent sign, so that for it the round trip fails. *)
Theorem uri_escape_roundtrip s type :
  (type < 7)%nat -> type <> 4%nat -> bytes_ok s ->
  ngx_unescape_uri (ngx_escape_uri s type) 0 = (s, []) /\
  ngx_unescape_uri (ngx_escape_uri $"%41" 4) 0 = ($"A", []).
Proof.
  intros Ht Hne Hs. split; [|reflexivity]. apply unescape_escape; [by apply maps_percent|done].
Qed.

Lemma uri_escape_roundtrip_witness :
  ngx_unescape_uri $"/a%20b%3f%ff" 0 = (($"/a b?" ++ [255]), []).
Proof.
  apply (uri_escape_roundtrip ($"/a b?" ++ [255]) 0); [lia|lia|].
  apply (bool_decide_unpack _). done.
Defined.

(** The counting call of [ngx_escape_uri] gives exactly the space the
    writing call needs (two more bytes for each counted one), and what is
    written holds only percent signs, hexadecimal digits and bytes the type does
    not escape. *)
Theorem uri_escape_output s type :
  bytes_ok s ->
  Z.of_nat (length (ngx_escape_uri s type)) =
    Z.of_nat (length s) + 2 * ngx_escape_uri_count s type /\
  Forall (fun c => c = "%"%c \/ is_hex c = true \/ escaped (escape_map type) c = false)
    (ngx_escape_uri s type).
Proof. intros Hs. split; [apply length_escape_write|by apply escape_write_safe]. Qed.

Lemma uri_escape_output_witness :
  Z.of_nat (length (ngx_escape_uri $"a b#" 0)) = 4 + 2 * 2.
Proof.
  apply (uri_escape_output $"a b#" 0). apply (bool_decide_unpack _). done.
Defined.

(** 6. [ngx_escape_html]: the counting call gives exactly the extra bytes the
    writing call produces, and no angle bracket or double quote is left. *)
Theorem html_escape_output s :
  bytes_ok s ->
  Z.of_nat (length (ngx_escape_html s)) = Z.of_nat (length s) + ngx_escape_html_count s /\
  Forall (fun b => b <> "<"%c /\ b <> ">"%c /\ b <> 34) (ngx_escape_html s).
Proof.
  intros Hs. induction Hs as [|c s Hc Hs [IH1 IH2]]; [split; [done|constructor]|].
  cbn [ngx_escape_html ngx_escape_html_count length]. split.
  - rewrite length_app, Nat2Z.inj_add, length_html_entity. lia.
  - apply Forall_app. split; [by apply html_entity_safe|done].
Qed.

Lemma html_escape_output_witness :
  Z.of_nat (length (ngx_escape_html $"<a>&b")) = 5 + 10.
Proof. apply (html_escape_output $"<a>&b"). apply (bool_decide_unpack _). done. Defined.
