(* ===== verification/NgxTime.v ===== *)
(** Calendar time: [ngx_gmtime] and [ngx_http_time] of
    src/vod/nginx-1.2.9/src/core/ngx_times.c and the date parser
    src/vod/nginx-1.2.9/src/http/ngx_http_parse_time.c. *)

From S2P Require Import Prelude NgxNumber.
Import Number.

(** * The code *)

Module Time.

(** ngx_tm_t: the fields [ngx_gmtime] fills. *)
Record ngx_tm_t := Tm {
  tm_sec : Z; tm_min : Z; tm_hour : Z; tm_mday : Z; tm_mon : Z; tm_year : Z; tm_wday : Z }.

Definition b2z (b : bool) : Z := if b then 1 else 0.

(** (year % 4 == 0) && (year % 100 || (year % 400 == 0)) *)
Definition leap_year (year : Z) : bool :=
  (year mod 4 =? 0) && (negb (year mod 100 =? 0) || (year mod 400 =? 0)).

(** The year that starts on March 1 and the day in it, from the days since
    March 1, 1 BC. *)
Definition march_year (days : Z) : Z * Z :=
  let year := (days + 2) * 400 / (365 * 400 + 100 - 4 + 1) in
  let yday := days - (365 * year + year / 4 - year / 100 + year / 400) in
  if yday <? 0 then (year - 1, 365 + b2z (leap_year year) + yday)
  else (year, yday).

(** Year, month and day of the month from them. *)
Definition march_date (year yday : Z) : Z * Z * Z :=
  let mon := (yday + 31) * 10 / 306 in
  let mday := yday - (367 * mon / 12 - 30) + 1 in
  if 306 <=? yday then (year + 1, mon - 10, mday) else (year, mon + 2, mday).

Definition ngx_gmtime (t : Z) : ngx_tm_t :=
  let n := wrapU 64 t in
  let days := n / 86400 in
  let wday := (4 + days) mod 7 in
  let n := n mod 86400 in
  let hour := n / 3600 in
  let n := n mod 3600 in
  let min := n / 60 in
  let sec := n mod 60 in
  let days := days - (31 + 28) + 719527 in
  let '(year, yday) := march_year days in
  let '(year, mon, mday) := march_date year yday in
  Tm sec min hour mday mon (wrapS 32 year) wday.

(** static char *week[], *months[] *)
Definition week : list (list Z) :=
  [$"Sun"; $"Mon"; $"Tue"; $"Wed"; $"Thu"; $"Fri"; $"Sat"].

Definition months : list (list Z) :=
  [$"Jan"; $"Feb"; $"Mar"; $"Apr"; $"May"; $"Jun"; $"Jul"; $"Aug"; $"Sep"; $"Oct";
   $"Nov"; $"Dec"].

(** "%02d" and "%4d" of [ngx_sprintf]: [ngx_sprintf_num] with its width. *)
Definition fmt_02d (n : Z) : list Z := ngx_sprintf_num 64 n "0"%c 0 2.
Definition fmt_4d (n : Z) : list Z := ngx_sprintf_num 64 n " "%c 0 4.

(** "%s, %02d %s %4d %02d:%02d:%02d GMT" *)
Definition ngx_http_time (t : Z) : list Z :=
  let tm := ngx_gmtime t in
  nth (Z.to_nat (tm_wday tm)) week [] ++ $", " ++ fmt_02d (tm_mday tm) ++ $" " ++
  nth (Z.to_nat (tm_mon tm - 1)) months [] ++ $" " ++ fmt_4d (tm_year tm) ++ $" " ++
  fmt_02d (tm_hour tm) ++ $":" ++ fmt_02d (tm_min tm) ++ $":" ++ fmt_02d (tm_sec tm) ++ $" GMT".

(** ** ngx_http_parse_time *)

Inductive time_fmt := no | rfc822 | rfc850 | isoc.

#[global] Instance time_fmt_eq_dec : EqDecision time_fmt.
Proof. solve_decision. Defined.

(** The first loop: up to a comma or a space, and the format it shows. *)
Fixpoint find_comma (p : list Z) : list Z * time_fmt :=
  match p with
  | [] => ([], no)
  | c :: q =>
      if c =? ","%c then (p, no)
      else if c =? " "%c then (p, isoc)
      else find_comma q
  end.

(** [for (p++; p < end; p++) if ( *p != ' ') break;] *)
Fixpoint skip_blank (p : list Z) : list Z :=
  match p with
  | [] => []
  | c :: q => if c =? " "%c then skip_blank q else p
  end.

Section Parse.

(** The byte any read past the end would see. *)
Context (after : Z).

Definition at_ (p : list Z) (i : nat) : Z := nth i p after.

Definition two_digits (p : list Z) : option Z :=
  if is_digit (at_ p 0) && is_digit (at_ p 1)
  then Some ((at_ p 0 - "0"%c) * 10 + at_ p 1 - "0"%c) else None.

Definition four_digits (p : list Z) : option Z :=
  if is_digit (at_ p 0) && is_digit (at_ p 1) && is_digit (at_ p 2) && is_digit (at_ p 3)
  then Some ((at_ p 0 - "0"%c) * 1000 + (at_ p 1 - "0"%c) * 100 + (at_ p 2 - "0"%c) * 10
             + at_ p 3 - "0"%c) else None.

(** The switch on the month name. *)
Definition month_of (p : list Z) : option Z :=
  match at_ p 0 with
  | "J"%c => Some (if at_ p 1 =? "a"%c then 0 else if at_ p 2 =? "n"%c then 5 else 6)
  | "F"%c => Some 1
  | "M"%c => Some (if at_ p 2 =? "r"%c then 2 else 4)
  | "A"%c => Some (if at_ p 1 =? "p"%c then 3 else 7)
  | "S"%c => Some 8
  | "O"%c => Some 9
  | "N"%c => Some 10
  | "D"%c => Some 11
  | _ => None
  end.

(** The day before the month, for the formats with a comma. *)
Definition leading_day (p : list Z) : option (Z * time_fmt * list Z) :=
  match two_digits p with
  | None => None
  | Some day =>
      let p := drop 2 p in
      if at_ p 0 =? " "%c then
        if (length p <? 18)%nat then None else Some (day, rfc822, drop 1 p)
      else if at_ p 0 =? "-"%c then Some (day, rfc850, drop 1 p)
      else None
  end.

(** The year (or, for the asctime format, the day) after the month. *)
Definition after_month (fmt : time_fmt) (day : Z) (p : list Z) : option (Z * Z * list Z) :=
  match fmt with
  | rfc822 =>
      match four_digits p with
      | None => None
      | Some year => Some (day, year, drop 4 p)
      end
  | rfc850 =>
      match two_digits p with
      | None => None
      | Some year => Some (day, year + (if year <? 70 then 2000 else 1900), drop 2 p)
      end
  | _ =>
      let p := if at_ p 0 =? " "%c then drop 1 p else p in
      if negb (is_digit (at_ p 0)) then None
      else
        let day := at_ p 0 - "0"%c in
        let p := drop 1 p in
        let r :=
          if negb (at_ p 0 =? " "%c) then
            if negb (is_digit (at_ p 0)) then None
            else Some (day * 10 + at_ p 0 - "0"%c, drop 1 p)
          else Some (day, p) in
        match r with
        | None => None
        | Some (day, p) => if (length p <? 14)%nat then None else Some (day, 0, p)
        end
  end.

(** " hh:mm:ss" *)
Definition clock (p : list Z) : option (Z * Z * Z * list Z) :=
  if negb (at_ p 0 =? " "%c) then None
  else
    let p := drop 1 p in
    match two_digits p with
    | None => None
    | Some hour =>
        let p := drop 2 p in
        if negb (at_ p 0 =? ":"%c) then None
        else
          let p := drop 1 p in
          match two_digits p with
          | None => None
          | Some min =>
              let p := drop 2 p in
              if negb (at_ p 0 =? ":"%c) then None
              else
                let p := drop 1 p in
                match two_digits p with
                | None => None
                | Some sec => Some (hour, min, sec, p)
                end
          end
    end.

End Parse.

(** static ngx_uint_t mday[] *)
Definition mday_table : list Z := [31; 28; 31; 30; 31; 30; 31; 31; 30; 31; 30; 31].

(** The checks and Gauss' formula at the end; [month] counts from 0. *)
Definition date_to_time (day month year hour min sec : Z) : Z :=
  if (23 <? hour) || (59 <? min) || (59 <? sec) then NGX_ERROR
  else if
    (if (day =? 29) && (month =? 1) then
       negb (Z.land year 3 =? 0) || ((year mod 100 =? 0) && negb (year mod 400 =? 0))
     else nth (Z.to_nat month) mday_table 0 <? day)
  then NGX_ERROR
  else
    let '(month, year) :=
      if month - 1 <=? 0 then (month - 1 + 12, wrapU 64 (year - 1)) else (month - 1, year) in
    let time :=
      wrapU 64 (365 * year + year / 4 - year / 100 + year / 400
                + 367 * month / 12 - 30 + day - 1 - 719527 + 31 + 28) * 86400
      + hour * 3600 + min * 60 + sec in
    wrapS 64 time.

Definition ngx_http_parse_time (after : Z) (value : list Z) : Z :=
  let '(p, fmt) := find_comma value in
  let p := skip_blank (drop 1 p) in
  if (length p <? 18)%nat then NGX_ERROR
  else
    let head :=
      match fmt with
      | isoc => Some (0, isoc, p)
      | _ => leading_day after p
      end in
    match head with
    | None => NGX_ERROR
    | Some (day, fmt, p) =>
        match month_of after p with
        | None => NGX_ERROR
        | Some month =>
            let p := drop 3 p in
            if (bool_decide (fmt = rfc822) && negb (at_ after p 0 =? " "%c)) ||
               (bool_decide (fmt = rfc850) && negb (at_ after p 0 =? "-"%c))
            then NGX_ERROR
            else
              match after_month after fmt day (drop 1 p) with
              | None => NGX_ERROR
              | Some (day, year, p) =>
                  match clock after p with
                  | None => NGX_ERROR
                  | Some (hour, min, sec, p) =>
                      match fmt with
                      | isoc =>
                          let p := drop 2 p in
                          if negb (at_ after p 0 =? " "%c) then NGX_ERROR
                          else match four_digits after (drop 1 p) with
                               | None => NGX_ERROR
                               | Some year => date_to_time day month year hour min sec
                               end
                      | _ => date_to_time day month year hour min sec
                      end
                  end
              end
        end
    end.

End Time.
Import Time.

(** * The calendar *)

(** Days before March 1 of the year [y]. *)
Definition march_days (y : Z) : Z := 365 * y + y / 4 - y / 100 + y / 400.

(** Arithmetic with divisions by constants. *)
Ltac div_lia := Z.to_euclidean_division_equations; lia.

Lemma march_days_succ y :
  march_days (y + 1) = march_days y + 365 + b2z (leap_year (y + 1)).
Proof.
  unfold march_days, leap_year, b2z.
  destruct (Z.eqb_spec ((y + 1) mod 4) 0), (Z.eqb_spec ((y + 1) mod 100) 0),
    (Z.eqb_spec ((y + 1) mod 400) 0); cbn [andb orb negb]; div_lia.
Qed.

Lemma b2z_range b : 0 <= b2z b <= 1.
Proof. destruct b; cbn; lia. Qed.

(** [march_year] finds the March year the day lies in. *)
Lemma march_year_spec days :
  0 <= days ->
  let '(y, d) := march_year days in
  march_days y + d = days /\ 0 <= d < 365 + b2z (leap_year (y + 1)) /\ 0 <= y.
Proof.
  intros Hd. unfold march_year. change (365 * 400 + 100 - 4 + 1) with 146097.
  set (y := (days + 2) * 400 / 146097).
  assert (146097 * y <= (days + 2) * 400 < 146097 * y + 146097) as Hy by (subst y; div_lia).
  clearbody y. fold (march_days y).
  assert (0 <= y) by lia.
  assert (146097 * y - 699 <= 400 * march_days y <= 146097 * y + 396) as B1
    by (unfold march_days; div_lia).
  assert (146097 * (y + 1) - 699 <= 400 * march_days (y + 1)) as B2
    by (unfold march_days; div_lia).
  pose proof (march_days_succ y) as S1. pose proof (march_days_succ (y - 1)) as S0.
  replace (y - 1 + 1) with y in S0 by lia.
  pose proof (b2z_range (leap_year y)).
  destruct (Z.ltb_spec (days - march_days y) 0).
  - replace (y - 1 + 1) with y by lia. split; [lia|]. split; [lia|].
    assert (0 < y); [|lia]. destruct (Z.eq_dec y 0) as [->|]; [|lia]. cbn in *. lia.
  - split; [lia|]. split; lia.
Qed.

(** The decomposition is unique. *)
Lemma march_days_unique y d y' d' :
  march_days y + d = march_days y' + d' ->
  0 <= d < 365 + b2z (leap_year (y + 1)) -> 0 <= d' < 365 + b2z (leap_year (y' + 1)) ->
  y = y' /\ d = d'.
Proof.
  intros He Hd Hd'.
  assert (forall a b, a < b -> march_days (a + 1) <= march_days b) as Hmono.
  { intros a b Hab. unfold march_days. div_lia. }
  pose proof (march_days_succ y). pose proof (march_days_succ y').
  destruct (Z.lt_trichotomy y y') as [H1|[H1|H1]].
  - specialize (Hmono y y' H1). lia.
  - subst. lia.
  - specialize (Hmono y' y H1). lia.
Qed.

(** The civil calendar, day by day. *)
Definition month_length (leap : bool) (m : Z) : Z :=
  if (m =? 2) && leap then 29 else nth (Z.to_nat (m - 1)) mday_table 0.

Definition next_day (date : Z * Z * Z) : Z * Z * Z :=
  let '(y, m, d) := date in
  if d <? month_length (leap_year y) m then (y, m, d + 1)
  else if m <? 12 then (y, m + 1, 1)
  else (y + 1, 1, 1).

Definition valid_date (date : Z * Z * Z) : Prop :=
  let '(y, m, d) := date in 1 <= m <= 12 /\ 1 <= d <= month_length (leap_year y) m.

(** [march_date] with the year as an offset: 366 values, checked one by one. *)
Definition march_md (yday : Z) : Z * Z * Z := march_date 0 yday.

Lemma march_date_offset y yday :
  march_date y yday = let '(o, m, d) := march_md yday in (y + o, m, d).
Proof. unfold march_md, march_date. cbv zeta. case_if E; f_equal; f_equal; lia. Qed.

Definition md_eqb (a b : Z * Z * Z) : bool :=
  let '(a1, a2, a3) := a in let '(b1, b2, b3) := b in (a1 =? b1) && (a2 =? b2) && (a3 =? b3).

Definition check_day (leap : bool) (yday : Z) : bool :=
  let '(o, m, d) := march_md yday in
  (1 <=? m) && (m <=? 12) && (1 <=? d) && (d <=? month_length leap m) &&
  (0 <=? o) && (o <=? 1) && (if m =? 2 then o =? 1 else true) &&
  (if yday =? 364 + b2z leap then (m =? 2) && (d =? month_length leap m)
   else if 364 + b2z leap <? yday then true
   else md_eqb (march_md (yday + 1))
          (if d <? month_length leap m then (o, m, d + 1)
           else if m <? 12 then (o, m + 1, 1) else (o + 1, 1, 1))).

Lemma check_days leap yday :
  0 <= yday < 365 + b2z leap -> check_day leap yday = true.
Proof.
  intros H. destruct leap; cbn [b2z] in H.
  - apply (below_spec 366); [vm_compute; done|lia].
  - apply (below_spec 365); [vm_compute; done|lia].
Qed.

Lemma md_eqb_eq a b : md_eqb a b = true -> a = b.
Proof.
  destruct a as [[a1 a2] a3], b as [[b1 b2] b3]. cbn. intros H. boolify. congruence.
Qed.

(** The length of a month only depends on the leap year in February, which
    belongs to the next civil year. *)
Lemma month_length_feb y o m :
  (m = 2 -> o = 1) -> month_length (leap_year (y + o)) m = month_length (leap_year (y + 1)) m.
Proof.
  intros H. unfold month_length. destruct (Z.eqb_spec m 2) as [Hm|]; cbn [andb]; [|done].
  rewrite (H Hm). done.
Qed.

Lemma march_date_valid y yday :
  0 <= yday < 365 + b2z (leap_year (y + 1)) -> valid_date (march_date y yday).
Proof.
  intros H. pose proof (check_days _ _ H) as C. rewrite march_date_offset.
  unfold check_day in C. destruct (march_md yday) as [[o m] d].
  apply andb_true_iff in C as [C _]. boolify. unfold valid_date.
  rewrite month_length_feb; [lia|]. intros ->. cbn in *. boolify. done.
Qed.

Lemma march_date_next y yday :
  0 <= yday < 365 + b2z (leap_year (y + 1)) ->
  next_day (march_date y yday) =
    if yday =? 364 + b2z (leap_year (y + 1)) then march_date (y + 1) 0
    else march_date y (yday + 1).
Proof.
  intros H. pose proof (check_days _ _ H) as C. rewrite !march_date_offset.
  change (march_md 0) with (0, 3, 1). unfold check_day in C.
  destruct (march_md yday) as [[o m] d]. apply andb_true_iff in C as [C1 C2]. boolify.
  assert (m = 2 -> o = 1) as Hfeb by (intros ->; cbn in *; boolify; done).
  unfold next_day. rewrite month_length_feb by done.
  destruct (yday =? 364 + b2z (leap_year (y + 1))).
  - boolify. subst m. rewrite Hfeb by done. rewrite (proj2 (Z.ltb_ge _ _)) by lia.
    cbn [Z.ltb Z.compare Pos.compare Pos.compare_cont]. rewrite Z.add_0_r. done.
  - destruct (364 + b2z (leap_year (y + 1)) <? yday) eqn:E; boolify; [lia|].
    apply md_eqb_eq in C2. rewrite C2. case_if E1; [done|]. case_if E2; [done|].
    f_equal; f_equal; lia.
Qed.

(** * [ngx_gmtime] *)

Definition epoch_march : Z := 719468.

(** The civil date of the day [days] after January 1, 1970. *)
Definition civil (days : Z) : Z * Z * Z :=
  let '(y, d) := march_year (days + epoch_march) in march_date y d.

Lemma civil_next days : 0 <= days -> civil (days + 1) = next_day (civil days).
Proof.
  intros Hd. unfold civil, epoch_march.
  pose proof (march_year_spec (days + 719468) ltac:(lia)) as H0.
  pose proof (march_year_spec (days + 1 + 719468) ltac:(lia)) as H1.
  destruct (march_year (days + 719468)) as [y d].
  destruct (march_year (days + 1 + 719468)) as [y' d'].
  destruct H0 as (E0 & R0 & P0), H1 as (E1 & R1 & P1).
  rewrite march_date_next by done. pose proof (march_days_succ y).
  pose proof (b2z_range (leap_year (y' + 1))). pose proof (b2z_range (leap_year (y + 1 + 1))).
  destruct (Z.eqb_spec d (364 + b2z (leap_year (y + 1)))) as [->|Hne].
  - destruct (march_days_unique y' d' (y + 1) 0) as [-> ->]; [lia|done|lia|done].
  - destruct (march_days_unique y' d' y (d + 1)) as [-> ->]; [lia|done|lia|done].
Qed.

Lemma civil_valid days : 0 <= days -> valid_date (civil days).
Proof.
  intros Hd. unfold civil, epoch_march.
  pose proof (march_year_spec (days + 719468) ltac:(lia)) as H0.
  destruct (march_year (days + 719468)) as [y d]. apply march_date_valid, H0.
Qed.

Lemma civil_year_bound days :
  0 <= days < 2 ^ 39 -> 0 <= fst (fst (civil days)) < 2 ^ 31.
Proof.
  intros Hd. unfold civil, epoch_march.
  pose proof (march_year_spec (days + 719468) ltac:(lia)) as H0.
  destruct (march_year (days + 719468)) as [y d]. destruct H0 as (E & R & P).
  assert (365 * y <= march_days y) by (unfold march_days; div_lia).
  unfold march_date. cbv zeta. case_if E1; cbn [fst]; lia.
Qed.

Lemma civil_years days :
  0 <= days < 2932897 -> 1970 <= fst (fst (civil days)) < 10000.
Proof.
  intros Hd. unfold civil, epoch_march.
  pose proof (march_year_spec (days + 719468) ltac:(lia)) as H0.
  destruct (march_year (days + 719468)) as [y d]. destruct H0 as (E & R & P).
  pose proof (b2z_range (leap_year (y + 1))).
  assert (1969 <= y <= 9999) by (unfold march_days in E; div_lia).
  unfold march_date. cbv zeta. destruct (Z.leb_spec 306 d); cbn [fst].
  - assert (y <> 9999); [|lia]. intros ->. change (march_days 9999) with 3652059 in E. lia.
  - assert (y <> 1969); [|lia]. intros ->. change (march_days 1969) with 719162 in E. lia.
Qed.

Lemma month_length_le leap m : 1 <= m <= 12 -> month_length leap m <= 31.
Proof.
  intros H. unfold month_length. case_if E; [lia|].
  assert (below 12 (fun m => nth (Z.to_nat m) mday_table 0 <=? 31) = true) as C by done.
  apply (below_spec 12 _ (m - 1)) in C; [|lia]. by apply Z.leb_le in C.
Qed.

Definition tm_date (tm : ngx_tm_t) : Z * Z * Z := (tm_year tm, tm_mon tm, tm_mday tm).

(** The fields of [ngx_gmtime], in terms of [civil]. *)
Lemma gmtime_fields t :
  0 <= t < 2 ^ 55 ->
  let tm := ngx_gmtime t in
  tm_date tm = civil (t / 86400) /\ tm_wday tm = (4 + t / 86400) mod 7 /\
  tm_hour tm = t mod 86400 / 3600 /\ tm_min tm = t mod 86400 mod 3600 / 60 /\
  tm_sec tm = t mod 86400 mod 3600 mod 60.
Proof.
  intros Ht. unfold ngx_gmtime. rewrite wrapU_small by lia.
  assert (0 <= t / 86400 < 2 ^ 39) as Hb by div_lia.
  pose proof (civil_year_bound (t / 86400) Hb) as Hy. unfold civil, epoch_march in *.
  replace (t / 86400 - (31 + 28) + 719527) with (t / 86400 + 719468) by lia.
  destruct (march_year (t / 86400 + 719468)) as [y d].
  destruct (march_date y d) as [[y' m] dd]. cbn [fst] in Hy.
  cbn. rewrite wrapS_small by lia. done.
Qed.

Lemma civil_epoch : civil 0 = (1970, 1, 1).
Proof. vm_compute. done. Qed.

(** * The round trip through HTTP dates *)

Definition digit_char (n : Z) : Z := n + "0"%c.

Lemma fmt_02d_digits n :
  0 <= n < 100 -> fmt_02d n = [digit_char (n / 10); digit_char (n mod 10)].
Proof.
  intros Hn.
  assert (below 100 (fun n => bool_decide (fmt_02d n = [digit_char (n / 10); digit_char (n mod 10)])) = true)
    as H by (vm_compute; done).
  apply (below_spec 100 _ n) in H; [|lia]. by apply bool_decide_eq_true in H.
Qed.

Lemma fmt_4d_digits n :
  1000 <= n < 10000 ->
  fmt_4d n = [digit_char (n / 1000); digit_char (n / 100 mod 10); digit_char (n / 10 mod 10);
              digit_char (n mod 10)].
Proof.
  intros Hn. unfold fmt_4d, ngx_sprintf_num. change (0 =? 0) with true. cbv iota zeta.
  rewrite (proj2 (Z.leb_le n _)), wrapU_small by lia.
  replace (dec_digits 64 n []) with
    [digit_char (n / 1000); digit_char (n / 100 mod 10); digit_char (n / 10 mod 10); digit_char (n mod 10)];
    [done|].
  symmetry. change 64%nat with (S (S (S (S 60)))).
  rewrite dec_digits_step by div_lia. rewrite dec_digits_step by div_lia.
  rewrite dec_digits_step by div_lia. rewrite dec_digits_last by div_lia.
  unfold digit_char. repeat (apply (f_equal2 cons); [div_lia|]). done.
Qed.

Lemma is_digit_char n : 0 <= n < 10 -> is_digit (digit_char n) = true.
Proof.
  intros H. unfold is_digit, digit_char. apply andb_true_iff. rewrite !Z.leb_le. lia.
Qed.

Lemma two_digits_char after a b l :
  0 <= a < 10 -> 0 <= b < 10 ->
  two_digits after (digit_char a :: digit_char b :: l) = Some (a * 10 + b).
Proof.
  intros Ha Hb. unfold two_digits, at_. cbn [nth]. rewrite !is_digit_char by done.
  cbn [andb]. unfold digit_char. f_equal. lia.
Qed.

Lemma four_digits_char after a b c d l :
  0 <= a < 10 -> 0 <= b < 10 -> 0 <= c < 10 -> 0 <= d < 10 ->
  four_digits after (digit_char a :: digit_char b :: digit_char c :: digit_char d :: l) =
    Some (a * 1000 + b * 100 + c * 10 + d).
Proof.
  intros Ha Hb Hc Hd. unfold four_digits, at_. cbn [nth]. rewrite !is_digit_char by done.
  cbn [andb]. unfold digit_char. f_equal. lia.
Qed.

Lemma clock_chars after h1 h2 m1 m2 s1 s2 l :
  0 <= h1 < 10 -> 0 <= h2 < 10 -> 0 <= m1 < 10 -> 0 <= m2 < 10 -> 0 <= s1 < 10 -> 0 <= s2 < 10 ->
  clock after (" "%c :: digit_char h1 :: digit_char h2 :: ":"%c :: digit_char m1 :: digit_char m2 ::
               ":"%c :: digit_char s1 :: digit_char s2 :: l) =
    Some (h1 * 10 + h2, m1 * 10 + m2, s1 * 10 + s2, digit_char s1 :: digit_char s2 :: l).
Proof.
  intros. unfold clock. cbn [at_ nth Z.eqb Pos.eqb negb drop].
  repeat (rewrite two_digits_char by done; cbn [at_ nth Z.eqb Pos.eqb negb drop]). done.
Qed.

(** The fixed-length fields of an HTTP date, read by the parser. *)
Lemma parse_http_date after w d1 d2 m y1 y2 y3 y4 h1 h2 i1 i2 s1 s2 :
  0 <= w < 7 -> 0 <= m < 12 ->
  Forall (fun x => 0 <= x < 10) [d1; d2; y1; y2; y3; y4; h1; h2; i1; i2; s1; s2] ->
  ngx_http_parse_time after
    (nth (Z.to_nat w) week [] ++ $", " ++ [digit_char d1; digit_char d2] ++ $" " ++
     nth (Z.to_nat m) months [] ++ $" " ++
     [digit_char y1; digit_char y2; digit_char y3; digit_char y4] ++ $" " ++
     [digit_char h1; digit_char h2] ++ $":" ++ [digit_char i1; digit_char i2] ++ $":" ++
     [digit_char s1; digit_char s2] ++ $" GMT") =
  date_to_time (d1 * 10 + d2) m (y1 * 1000 + y2 * 100 + y3 * 10 + y4)
    (h1 * 10 + h2) (i1 * 10 + i2) (s1 * 10 + s2).
Proof.
  intros Hw Hm Hd. repeat (apply Forall_cons in Hd as [? Hd]).
  set (tail := nth (Z.to_nat m) months [] ++ _).
  assert (forall rest, find_comma (nth (Z.to_nat w) week [] ++ $", " ++ rest) = ($", " ++ rest, no)) as Hf.
  { intros rest. destruct w as [|w|w]; [done| |lia]. do 3 (destruct w as [w|w|]; try done; try lia). }
  unfold ngx_http_parse_time. rewrite Hf.
  assert (Hdig : (digit_char d1 =? " "%c) = false) by (unfold digit_char; apply Z.eqb_neq; lia).
  cbn [codes_of app drop skip_blank]. change (" "%c =? " "%c) with true. cbv iota. rewrite Hdig.
  assert (exists a b c, nth (Z.to_nat m) months [] = [a; b; c] /\
            forall l, month_of after (a :: b :: c :: l) = Some m) as (a & b & c & Hmon & Hmo).
  { destruct m as [|m|m]; [by eexists _, _, _| |lia].
    do 4 (destruct m as [m|m|]; try (by eexists _, _, _); try lia). }
  subst tail. rewrite Hmon. cbn [codes_of app length Nat.ltb Nat.leb]. unfold leading_day.
  rewrite two_digits_char by done. cbn [drop at_ nth]. change (" "%c =? " "%c) with true.
  cbn [length Nat.ltb Nat.leb drop]. rewrite Hmo. cbn [drop at_ nth]. change (" "%c =? " "%c) with true.
  cbn [negb]. rewrite !andb_false_r.
  rewrite (bool_decide_eq_false_2 (rfc822 = rfc850)) by done. cbn [andb orb].
  unfold after_month. rewrite four_digits_char by done. cbn [drop].
  rewrite clock_chars by done. done.
Qed.

(** March months: the part of the year decides whether the civil year is ahead. *)
Definition check_month (yday : Z) : bool :=
  let mon := (yday + 31) * 10 / 306 in
  let '(o, m, d) := march_md yday in
  (d =? yday - (367 * mon / 12 - 30) + 1) &&
  (if 306 <=? yday then (1 <=? m) && (m <=? 2) && (mon =? m + 10) && (o =? 1)
   else (3 <=? m) && (m <=? 12) && (mon =? m - 2) && (o =? 0)).

Lemma check_months yday : 0 <= yday < 366 -> check_month yday = true.
Proof. intros H. apply (below_spec 366); [vm_compute; done|lia]. Qed.

Lemma leap_year_test year :
  negb (Z.land year 3 =? 0) || ((year mod 100 =? 0) && negb (year mod 400 =? 0)) =
  negb (leap_year year).
Proof.
  unfold leap_year. change 3 with (Z.ones 2). rewrite Z.land_ones by lia. change (2 ^ 2) with 4.
  destruct (year mod 4 =? 0), (year mod 100 =? 0), (year mod 400 =? 0); done.
Qed.

(** The date check of the parser accepts valid dates. *)
Lemma valid_date_accepted y m d :
  valid_date (y, m, d) ->
  (if (d =? 29) && (m - 1 =? 1) then
     negb (Z.land y 3 =? 0) || ((y mod 100 =? 0) && negb (y mod 400 =? 0))
   else nth (Z.to_nat (m - 1)) mday_table 0 <? d) = false.
Proof.
  intros [Hm Hd]. unfold month_length in Hd. rewrite leap_year_test.
  destruct (Z.eqb_spec d 29) as [->|Hne], (Z.eqb_spec (m - 1) 1) as [He|Hne2]; cbn [andb].
  - replace m with 2 in * by lia. cbn [Z.eqb Pos.eqb andb] in Hd. destruct (leap_year y); [done|].
    change (nth (Z.to_nat (2 - 1)) mday_table 0) with 28 in Hd. lia.
  - rewrite (proj2 (Z.eqb_neq m 2)) in Hd by lia. cbn [andb] in Hd. apply Z.ltb_ge. lia.
  - replace m with 2 in * by lia. cbn [Z.eqb Pos.eqb andb] in Hd.
    change (nth (Z.to_nat (2 - 1)) mday_table 0) with 28 in *. apply Z.ltb_ge.
    destruct (leap_year y); lia.
  - rewrite (proj2 (Z.eqb_neq m 2)) in Hd by lia. cbn [andb] in Hd. apply Z.ltb_ge. lia.
Qed.

(** Gauss' formula undoes [civil]. *)
Lemma date_to_time_civil days y m d h i sec :
  0 <= days < 2 ^ 39 -> civil days = (y, m, d) ->
  0 <= h < 24 -> 0 <= i < 60 -> 0 <= sec < 60 ->
  date_to_time d (m - 1) y h i sec = days * 86400 + h * 3600 + i * 60 + sec.
Proof.
  intros Hd Hc Hh Hi Hs. pose proof (civil_valid days ltac:(lia)) as Hv. rewrite Hc in Hv.
  unfold date_to_time. rewrite !(proj2 (Z.ltb_ge _ _)) by lia. cbn [orb].
  rewrite valid_date_accepted by done. unfold civil, epoch_march in Hc.
  pose proof (march_year_spec (days + 719468) ltac:(lia)) as Hm.
  destruct (march_year (days + 719468)) as [my md]. destruct Hm as (E & R & P).
  pose proof (b2z_range (leap_year (my + 1))).
  pose proof (check_months md ltac:(lia)) as C. unfold check_month in C.
  rewrite march_date_offset in Hc. destruct (march_md md) as [[o m'] d'].
  injection Hc as Hy -> ->. apply andb_true_iff in C as [C1 C2]. apply Z.eqb_eq in C1.
  assert (1000 <= my < 2 ^ 40) by (unfold march_days in E; div_lia).
  unfold march_days in E. set (mon := (md + 31) * 10 / 306) in *.
  destruct (306 <=? md); boolify; subst o.
  - rewrite (proj2 (Z.leb_le _ _)) by lia. replace (m - 1 - 1 + 12) with mon by lia.
    rewrite <- Hy. replace (my + 1 - 1) with my by lia.
    rewrite (wrapU_small 64 my), (wrapU_small 64) by lia. rewrite wrapS_small by lia. lia.
  - rewrite (proj2 (Z.leb_gt _ _)) by lia. replace (m - 1 - 1) with mon by lia.
    rewrite <- Hy. replace (my + 0) with my by lia.
    rewrite (wrapU_small 64) by lia. rewrite wrapS_small by lia. lia.
Qed.

(** * Reads stay inside the text

    The length tests of the parser make every read of [at_] fall inside the
    list, whatever byte follows it. *)

Section InBounds.
Context (a b : Z).

Lemma at_in p i : (i < length p)%nat -> at_ a p i = at_ b p i.
Proof. intros H. unfold at_. by apply nth_indep. Qed.

Lemma two_digits_in p : (2 <= length p)%nat -> two_digits a p = two_digits b p.
Proof. intros H. unfold two_digits. rewrite !(at_in p) by lia. done. Qed.

Lemma four_digits_in p : (4 <= length p)%nat -> four_digits a p = four_digits b p.
Proof. intros H. unfold four_digits. rewrite !(at_in p) by lia. done. Qed.

Lemma month_of_in p : (3 <= length p)%nat -> month_of a p = month_of b p.
Proof. intros H. unfold month_of. rewrite !(at_in p) by lia. done. Qed.

Lemma clock_in p : (9 <= length p)%nat -> clock a p = clock b p.
Proof.
  intros H. unfold clock.
  do 9 (destruct p as [|? p]; [cbn in H; lia|]). cbn [drop].
  rewrite !at_in, !two_digits_in by (cbn [length]; lia). done.
Qed.

Lemma clock_rest p hour min sec q :
  clock b p = Some (hour, min, sec, q) -> length q = (length p - 7)%nat.
Proof.
  unfold clock. repeat case_match; intros; simplify_eq. rewrite !length_drop. lia.
Qed.

Lemma leading_day_in p : (18 <= length p)%nat -> leading_day a p = leading_day b p.
Proof.
  intros H. unfold leading_day. rewrite two_digits_in by lia.
  rewrite (at_in (drop 2 p) 0) by (rewrite length_drop; lia). done.
Qed.

(** What is left after the day: enough for either format. *)
Lemma leading_day_rest p day fmt q :
  (18 <= length p)%nat -> leading_day b p = Some (day, fmt, q) ->
  (fmt = rfc822 /\ 17 <= length q)%nat \/ (fmt = rfc850 /\ 15 <= length q)%nat.
Proof.
  intros Hp. unfold leading_day. case_match; [|done]. case_if E1.
  - destruct (Nat.ltb_spec (length (drop 2 p)) 18); [done|]. intros; simplify_eq.
    left. rewrite length_drop. split; [done|lia].
  - case_if E2; [|done]. intros; simplify_eq. right. rewrite !length_drop. split; [done|lia].
Qed.

Lemma after_month_in fmt day p :
  (fmt = rfc822 /\ 13 <= length p)%nat \/ (fmt = rfc850 /\ 11 <= length p)%nat \/
  (fmt = isoc /\ 14 <= length p)%nat ->
  after_month a fmt day p = after_month b fmt day p /\
  (forall d y q, after_month b fmt day p = Some (d, y, q) ->
     (9 <= length q)%nat /\ (fmt = isoc -> 14 <= length q)%nat).
Proof.
  intros [[-> H]|[[-> H]|[-> H]]]; cbn [after_month].
  - rewrite four_digits_in by lia. split; [done|]. intros d y q. case_match; [|done].
    intros; simplify_eq. rewrite length_drop. split; [lia|done].
  - rewrite two_digits_in by lia. split; [done|]. intros d y q. case_match; [|done].
    intros; simplify_eq. rewrite length_drop. split; [lia|done].
  - destruct p as [|c0 [|c1 [|c2 p]]]; try (cbn in H; lia). split.
    + unfold at_. cbn [nth]. destruct (c0 =? " "%c); done.
    + intros d y q. repeat case_match; intros; simplify_eq;
        match goal with E : (_ <? 14)%nat = false |- _ => apply Nat.ltb_ge in E end;
        split; intros; lia.
Qed.

End InBounds.

(** * Properties *)

(** [ngx_gmtime] follows the Gregorian calendar: time 0 is Thursday,
    January 1, 1970; the date is always valid; one day later it is the next date
    and the next weekday at the same time of day; and the time of day is the
    remainder of the seconds. *)
Theorem gmtime_calendar t :
  0 <= t < 2 ^ 54 ->
  let tm := ngx_gmtime t in
  let tm' := ngx_gmtime (t + 86400) in
  ngx_gmtime 0 = Tm 0 0 0 1 1 1970 4 /\
  valid_date (tm_date tm) /\
  tm_date tm' = next_day (tm_date tm) /\
  tm_wday tm' = (tm_wday tm + 1) mod 7 /\
  (tm_hour tm' = tm_hour tm /\ tm_min tm' = tm_min tm /\ tm_sec tm' = tm_sec tm) /\
  tm_hour tm * 3600 + tm_min tm * 60 + tm_sec tm = t mod 86400 /\
  0 <= tm_hour tm < 24 /\ 0 <= tm_min tm < 60 /\ 0 <= tm_sec tm < 60.
Proof.
  intros Ht. cbv zeta.
  destruct (gmtime_fields t) as (-> & -> & -> & -> & ->); [lia|].
  destruct (gmtime_fields (t + 86400)) as (-> & -> & -> & -> & ->); [lia|].
  replace ((t + 86400) / 86400) with (t / 86400 + 1) by div_lia.
  replace ((t + 86400) mod 86400) with (t mod 86400) by div_lia.
  assert (0 <= t / 86400) by div_lia.
  split; [vm_compute; done|]. split; [by apply civil_valid|].
  split; [by apply civil_next|]. split; [|div_lia].
  rewrite Zplus_mod_idemp_l. f_equal. lia.
Qed.

Lemma gmtime_calendar_witness :
  tm_date (ngx_gmtime 951782400) = (2000, 2, 29) /\
  tm_date (ngx_gmtime (951782400 + 86400)) = (2000, 3, 1).
Proof.
  destruct (gmtime_calendar 951782400 ltac:(lia)) as (_ & _ & H & _).
  split; [vm_compute; reflexivity|]. rewrite H. vm_compute. reflexivity.
Defined.

(** C38. HTTP dates round trip: [ngx_http_parse_time] of the text
    [ngx_http_time] writes is the time, for every time up to the end of the year
    9999. *)
Theorem http_time_roundtrip after t :
  0 <= t < 253402300800 -> ngx_http_parse_time after (ngx_http_time t) = t.
Proof.
  intros Ht. unfold ngx_http_time. cbv zeta.
  destruct (gmtime_fields t) as (Hdate & Hwd & Hh & Hi & Hs); [lia|].
  assert (0 <= t / 86400 < 2932897) as Hdays by div_lia.
  pose proof (civil_valid (t / 86400) ltac:(lia)) as Hv.
  pose proof (civil_years (t / 86400) Hdays) as Hy.
  rewrite <- Hdate in Hv, Hy. unfold tm_date, valid_date in Hv. unfold tm_date in Hy, Hdate. cbn [fst] in Hy.
  destruct Hv as [Hm Hd]. pose proof (month_length_le (leap_year (tm_year (ngx_gmtime t))) _ Hm).
  rewrite !fmt_02d_digits by (rewrite ?Hh, ?Hi, ?Hs; lia || div_lia).
  rewrite fmt_4d_digits by lia.
  rewrite parse_http_date; [|rewrite Hwd; div_lia|lia|].
  2: { rewrite Hh, Hi, Hs. repeat (apply Forall_cons; split; [div_lia|]). constructor. }
  replace (tm_mday (ngx_gmtime t) / 10 * 10 + tm_mday (ngx_gmtime t) mod 10)
    with (tm_mday (ngx_gmtime t)) by div_lia.
  replace (_ * 1000 + _ * 100 + _ * 10 + _) with (tm_year (ngx_gmtime t)) by div_lia.
  erewrite date_to_time_civil; [| |symmetry; exact Hdate|..];
    rewrite ?Hh, ?Hi, ?Hs; div_lia.
Qed.

Lemma http_time_roundtrip_witness :
  ngx_http_parse_time 0 $"Sun, 06 Nov 1994 08:49:37 GMT" = 784111777.
Proof. apply (http_time_roundtrip 0 784111777). lia. Defined.

(** 8. [ngx_http_parse_time] never depends on a byte outside the text it is
    given: every read lies below [end], whatever the text. *)
Theorem parse_time_reads_inside a b value :
  ngx_http_parse_time a value = ngx_http_parse_time b value.
Proof.
  unfold ngx_http_parse_time. destruct (find_comma value) as [p0 fmt0].
  set (p := skip_blank (drop 1 p0)). destruct (Nat.ltb_spec (length p) 18) as [|Hlen]; [done|].
  assert (exists head, match fmt0 with isoc => Some (0, isoc, p) | _ => leading_day a p end = head /\
            match fmt0 with isoc => Some (0, isoc, p) | _ => leading_day b p end = head /\
            forall day fmt q, head = Some (day, fmt, q) ->
              (fmt = rfc822 /\ 17 <= length q)%nat \/ (fmt = rfc850 /\ 15 <= length q)%nat \/
              (fmt = isoc /\ 18 <= length q)%nat) as (head & -> & -> & Hq).
  { rewrite (leading_day_in a b) by done. eexists. split; [done|]. split; [done|].
    intros day fmt q Hh. destruct fmt0; try (apply leading_day_rest in Hh; [tauto|done]).
    injection Hh as <- <- <-. tauto. }
  destruct head as [[[day fmt] q]|]; [|done]. specialize (Hq day fmt q eq_refl).
  assert (15 <= length q)%nat as Hq15 by lia.
  rewrite (month_of_in a b) by lia. destruct (month_of b q) as [month|]; [|done].
  rewrite (at_in a b (drop 3 q)) by (rewrite length_drop; lia).
  case_if E; [done|].
  destruct (after_month_in a b fmt day (drop 1 (drop 3 q))) as [-> Hr].
  { rewrite !length_drop. destruct Hq as [[-> H]|[[-> H]|[-> H]]]; [left|right; left|right; right];
      (split; [done|lia]). }
  destruct (after_month b fmt day (drop 1 (drop 3 q))) as [[[d y] r]|]; [|done].
  destruct (Hr d y r eq_refl) as [H9 H14].
  rewrite (clock_in a b) by lia. destruct (clock b r) as [[[[h i] sec] u]|] eqn:Hc; [|done].
  apply clock_rest in Hc. destruct fmt; try done. specialize (H14 eq_refl).
  rewrite (at_in a b (drop 2 u)) by (rewrite length_drop; lia).
  rewrite (four_digits_in a b) by (rewrite !length_drop; lia). done.
Qed.
