(* ===== verification/NgxMachine.v ===== *)
(** The shape shared by the incremental parsers of src/http/ngx_http_parse.c.

    [ngx_http_parse_request_line], [ngx_http_parse_header_line] and
    [ngx_http_parse_status_line] are one loop each: [for (p = b->pos;
    p < b->last; p++) { ch = *p; switch (state) ... }], left by running out of
    bytes (NGX_AGAIN, the state is saved in the request), by a jump to a label
    after the loop, or by returning an error code.  A parser is the body of the
    switch; the class [ByteMachine] adds the law the callers rely on, that a
    step looks at no byte beyond the one it is given, and from it follows that
    a line parsed in pieces is parsed as if it had arrived at once. *)

From S2P Require Import Prelude.

(** The bytes [b->start, b->last) of a buffer and the position [b->pos]. *)
Record ngx_buf_t := MkBuf { bytes : list Z; pos : Z }.

(** [*(start + i)]. *)
Definition byte_at (buf : list Z) (i : Z) : Z := nth (Z.to_nat i) buf 0.

(** One iteration of the loop: stay in it, jump to a label, return a code. *)
Inductive step_result (S L : Type) : Type :=
| Go (s : S)
| Goto (s : S) (l : L)
| Return (s : S) (rc : Z).

Arguments Go {S L} s.
Arguments Goto {S L} s l.
Arguments Return {S L} s rc.

(** How the loop was left, with [p] at that time. *)
Inductive loop_result (S L : Type) : Type :=
| Exhausted (s : S) (p : Z)
| Jumped (s : S) (p : Z) (l : L)
| Returned (s : S) (rc : Z).

Arguments Exhausted {S L} s p.
Arguments Jumped {S L} s p l.
Arguments Returned {S L} s rc.

(** The body of a loop: buffer, state, [p] and [ch]. *)
Definition body (S L : Type) : Type := list Z -> S -> Z -> Z -> step_result S L.

Fixpoint run_loop {S L} (step : body S L) (buf : list Z) (rest : list Z) (p : Z) (s : S)
  : loop_result S L :=
  match rest with
  | [] => Exhausted s p
  | ch :: rest =>
    match step buf s p ch with
    | Go s => run_loop step buf rest (p + 1) s
    | Goto s l => Jumped s p l
    | Return s rc => Returned s rc
    end
  end.

Definition run_buf {S L} (step : body S L) (b : ngx_buf_t) (s : S) : loop_result S L :=
  run_loop step (bytes b) (drop (Z.to_nat (pos b)) (bytes b)) (pos b) s.

(** The end of a parser: [fin] is the code at the labels.  On NGX_AGAIN and at
    a label [b->pos] moves, on an error it stays. *)
Definition parse_with {S L} (step : body S L) (fin : S -> Z -> L -> S * Z)
    (s : S) (b : ngx_buf_t) : S * Z * Z :=
  match run_buf step b s with
  | Exhausted s p => (s, p, NGX_AGAIN)
  | Jumped s p l => let '(s, rc) := fin s p l in (s, p + 1, rc)
  | Returned s rc => (s, pos b, rc)
  end.

(** The loop of the callers: while the parser asks for more, the next bytes
    from the client are appended to the buffer and it is called again. *)
Fixpoint feed {S} (parse : S -> ngx_buf_t -> S * Z * Z) (s : S) (data : list Z) (p : Z)
    (chunks : list (list Z)) : S * Z * Z :=
  match chunks with
  | [] => (s, p, NGX_AGAIN)
  | c :: chunks =>
    let '(s, p, rc) := parse s (MkBuf (data ++ c) p) in
    if rc =? NGX_AGAIN then feed parse s (data ++ c) p chunks else (s, p, rc)
  end.

(** The parser reads behind [p], never ahead of it. *)
Class ByteMachine {S L} (step : body S L) : Prop :=
  step_local : forall buf more s p ch,
    0 <= p < Z.of_nat (length buf) -> step (buf ++ more) s p ch = step buf s p ch.

(** * Lemmas *)

Lemma byte_at_app_l buf more i :
  i < Z.of_nat (length buf) -> (0 < length buf)%nat ->
  byte_at (buf ++ more) i = byte_at buf i.
Proof. intros Hi Hl. unfold byte_at. rewrite app_nth1 by lia. done. Qed.

Lemma byte_at_nth buf pre ch rest :
  buf = pre ++ ch :: rest -> byte_at buf (Z.of_nat (length pre)) = ch.
Proof.
  intros ->. unfold byte_at. rewrite Nat2Z.id, app_nth2, Nat.sub_diag by lia. done.
Qed.

Section Loop.
Context {S L : Type} (step : body S L).

Lemma run_loop_app buf xs ys p s :
  run_loop step buf (xs ++ ys) p s =
    match run_loop step buf xs p s with
    | Exhausted s p => run_loop step buf ys p s
    | Jumped s p l => Jumped s p l
    | Returned s rc => Returned s rc
    end.
Proof.
  revert p s. induction xs as [|ch xs IH]; intros p s; [done|].
  cbn [app run_loop]. destruct (step buf s p ch); [apply IH|done|done].
Qed.

Lemma run_loop_go buf x l p s s' :
  step buf s p x = Go s' -> run_loop step buf (x :: l) p s = run_loop step buf l (p + 1) s'.
Proof. intros H. cbn [run_loop]. by rewrite H. Qed.

Lemma run_loop_exhausted_pos buf xs p s s' q :
  run_loop step buf xs p s = Exhausted s' q -> q = p + Z.of_nat (length xs).
Proof.
  revert p s. induction xs as [|ch xs IH]; intros p s H; cbn [run_loop] in H.
  - injection H as <- <-. simpl. lia.
  - destruct (step buf s p ch); [|done|done]. apply IH in H. cbn [length]. lia.
Qed.

(** The loop before more bytes were appended to the buffer. *)
Lemma run_loop_extend `{!ByteMachine step} buf more xs p s :
  0 <= p -> p + Z.of_nat (length xs) <= Z.of_nat (length buf) ->
  run_loop step (buf ++ more) xs p s = run_loop step buf xs p s.
Proof.
  revert p s. induction xs as [|ch xs IH]; intros p s H0 Hp; [done|].
  cbn [run_loop length] in *. rewrite step_local by lia.
  destruct (step buf s p ch); [|done|done]. apply IH; lia.
Qed.

(** Parsing what arrived, then the rest, is parsing everything. *)
Lemma run_buf_resume `{!ByteMachine step} data more p s :
  0 <= p <= Z.of_nat (length data) ->
  run_buf step (MkBuf (data ++ more) p) s =
    match run_buf step (MkBuf data p) s with
    | Exhausted s' q => run_buf step (MkBuf (data ++ more) q) s'
    | Jumped s' q l => Jumped s' q l
    | Returned s' rc => Returned s' rc
    end.
Proof.
  intros Hp. unfold run_buf. cbn [bytes pos].
  rewrite drop_app_le by lia. rewrite run_loop_app, run_loop_extend.
  2, 3: rewrite ?length_drop; lia.
  destruct (run_loop step data _ p s) as [s' q| |] eqn:E; [|done|done].
  apply run_loop_exhausted_pos in E. rewrite length_drop in E.
  replace (Z.to_nat q) with (length data) by lia.
  rewrite drop_app_length. done.
Qed.

(** Rule induction on the loop: [I] holds before every byte. *)
Lemma run_loop_invariant (I : Z -> S -> Prop) (Q : Z -> S -> L -> Prop) buf xs p s :
  0 <= p -> drop (Z.to_nat p) buf = xs ->
  I p s ->
  (forall p s ch, 0 <= p < Z.of_nat (length buf) -> ch = byte_at buf p -> I p s ->
    match step buf s p ch with
    | Go s' => I (p + 1) s'
    | Goto s' l => Q p s' l
    | Return _ _ => True
    end) ->
  match run_loop step buf xs p s with
  | Exhausted s' q => I q s' /\ q = p + Z.of_nat (length xs)
  | Jumped s' q l => Q q s' l /\ p <= q < p + Z.of_nat (length xs)
  | Returned _ _ => True
  end.
Proof.
  intros Hp Hdrop HI Hstep. revert p s Hp Hdrop HI.
  induction xs as [|ch xs IH]; intros p s Hp Hdrop HI.
  { cbn [run_loop length]. split; [done|lia]. }
  assert (Hlen : (length (drop (Z.to_nat p) buf) = 1 + length xs)%nat) by (rewrite Hdrop; done).
  rewrite length_drop in Hlen.
  assert (Hch : ch = byte_at buf p).
  { unfold byte_at. rewrite <- (Nat.add_0_r (Z.to_nat p)), <- nth_skipn.
    change (skipn (Z.to_nat p) buf) with (drop (Z.to_nat p) buf). rewrite Hdrop. done. }
  assert (Hrest : drop (Z.to_nat (p + 1)) buf = xs).
  { replace (Z.to_nat (p + 1)) with (Z.to_nat p + 1)%nat by lia.
    rewrite <- drop_drop, Hdrop. done. }
  cbn [run_loop]. specialize (Hstep p s ch ltac:(lia) Hch HI).
  destruct (step buf s p ch) as [s'|s' l|s' rc]; [|cbn [length]; split; [done|lia]|done].
  specialize (IH (p + 1) s' ltac:(lia) Hrest Hstep). cbn [length].
  destruct (run_loop step buf xs (p + 1) s'); [|destruct IH; split; [done|lia]|done].
  destruct IH; split; [done|lia].
Qed.

Lemma run_loop_codes (P : Z -> Prop) buf xs p s s' rc :
  (forall s p ch s' rc, step buf s p ch = Return s' rc -> P rc) ->
  run_loop step buf xs p s = Returned s' rc -> P rc.
Proof.
  intros HP. revert p s. induction xs as [|ch xs IH]; intros p s H; [done|].
  cbn [run_loop] in H. destruct (step buf s p ch) eqn:E; [by eapply IH|done|].
  simplify_eq. by eapply HP.
Qed.

(** The parser run once on everything. *)
Definition whole_agrees (x y : S * Z * Z) : Prop :=
  let '(s, p, rc) := x in
  let '(s', p', rc') := y in
  s = s' /\ rc = rc' /\ (rc = NGX_OK \/ rc = NGX_AGAIN -> p = p').

Section Feed.
Context (fin : S -> Z -> L -> S * Z) `{!ByteMachine step}.
Hypothesis fin_code : forall s p l, snd (fin s p l) <> NGX_AGAIN.
Hypothesis step_code : forall buf s p ch s' rc,
  step buf s p ch = Return s' rc -> rc <> NGX_AGAIN /\ rc <> NGX_OK.

Lemma parse_with_final data more p s s' q rc :
  0 <= p <= Z.of_nat (length data) ->
  parse_with step fin s (MkBuf data p) = (s', q, rc) -> rc <> NGX_AGAIN ->
  parse_with step fin s (MkBuf (data ++ more) p) = (s', q, rc).
Proof.
  intros Hp H Hrc. unfold parse_with in *. rewrite run_buf_resume by done.
  destruct (run_buf step (MkBuf data p) s); [simplify_eq|done|done].
Qed.

Lemma parse_with_again data more p s s' q :
  0 <= p <= Z.of_nat (length data) ->
  parse_with step fin s (MkBuf data p) = (s', q, NGX_AGAIN) ->
  q = Z.of_nat (length data) /\
  whole_agrees (parse_with step fin s (MkBuf (data ++ more) p))
    (parse_with step fin s' (MkBuf (data ++ more) q)).
Proof.
  intros Hp H. unfold parse_with in *. rewrite run_buf_resume by done.
  destruct (run_buf step (MkBuf data p) s) as [s1 q1|s1 q1 l|s1 rc1] eqn:E.
  - simplify_eq. split.
    + apply run_loop_exhausted_pos in E. cbn in E. rewrite length_drop in E. lia.
    + destruct (run_buf step _ s') as [s2 q2|s2 q2 l|s2 rc] eqn:E2; [done| |].
      * destruct (fin s2 q2 l). done.
      * apply (run_loop_codes (fun rc => rc <> NGX_AGAIN /\ rc <> NGX_OK)) in E2;
          [|apply step_code]. cbn. naive_solver.
  - pose proof (fin_code s1 q1 l) as Hf. destruct (fin s1 q1 l). simplify_eq.
  - apply (run_loop_codes (fun rc => rc <> NGX_AGAIN /\ rc <> NGX_OK)) in E;
      [naive_solver|apply step_code].
Qed.

Lemma feed_whole chunks data p s :
  0 <= p <= Z.of_nat (length data) -> drop (Z.to_nat p) data = [] ->
  whole_agrees (feed (parse_with step fin) s data p chunks)
    (parse_with step fin s (MkBuf (data ++ concat chunks) p)).
Proof.
  revert data p s. induction chunks as [|c chunks IH]; intros data p s Hp Hd.
  - cbn. rewrite app_nil_r. unfold parse_with, run_buf. cbn. rewrite Hd. done.
  - cbn [feed concat]. rewrite app_assoc.
    destruct (parse_with step fin s (MkBuf (data ++ c) p)) as [[s1 q] rc] eqn:E.
    assert (Hp' : 0 <= p <= Z.of_nat (length (data ++ c))) by (rewrite length_app; lia).
    destruct (rc =? NGX_AGAIN) eqn:Erc; boolify; subst.
    + apply (parse_with_again _ (concat chunks)) in E as [Hq E]; [|done].
      specialize (IH (data ++ c) q s1). rewrite Hq in IH at 1 2.
      specialize (IH ltac:(lia)). rewrite Hq, Nat2Z.id, drop_all in IH.
      rewrite Hq in E. specialize (IH eq_refl). rewrite Hq.
      unfold whole_agrees in *. repeat case_match. naive_solver.
    + rewrite (parse_with_final _ _ _ _ _ _ _ Hp' E Erc). done.
Qed.
End Feed.
End Loop.
