(* ===== verification/NgxRequestLine.v ===== *)
(** The request-line parser of the VOD server: [ngx_http_parse_request_line] of
    src/http/ngx_http_parse.c.

    [request] holds the fields of ngx_http_request_t the function reads or
    writes; a pointer into the header buffer is the offset of its byte, and
    [None] is NULL.  [rl_step] is the body of the switch, split by groups of
    states as the comments of the source group them. *)

From S2P Require Import Prelude NgxMachine.

Module RequestLine.

Definition CR : Z := 13.
Definition LF : Z := 10.

Definition NGX_HTTP_PARSE_INVALID_METHOD : Z := 10.
Definition NGX_HTTP_PARSE_INVALID_REQUEST : Z := 11.
Definition NGX_HTTP_PARSE_INVALID_09_METHOD : Z := 12.

Definition NGX_HTTP_UNKNOWN : Z := 0x1.
Definition NGX_HTTP_GET : Z := 0x2.
Definition NGX_HTTP_HEAD : Z := 0x4.
Definition NGX_HTTP_POST : Z := 0x8.
Definition NGX_HTTP_PUT : Z := 0x10.
Definition NGX_HTTP_DELETE : Z := 0x20.
Definition NGX_HTTP_MKCOL : Z := 0x40.
Definition NGX_HTTP_COPY : Z := 0x80.
Definition NGX_HTTP_MOVE : Z := 0x100.
Definition NGX_HTTP_OPTIONS : Z := 0x200.
Definition NGX_HTTP_PROPFIND : Z := 0x400.
Definition NGX_HTTP_PROPPATCH : Z := 0x800.
Definition NGX_HTTP_LOCK : Z := 0x1000.
Definition NGX_HTTP_UNLOCK : Z := 0x2000.
Definition NGX_HTTP_PATCH : Z := 0x4000.
Definition NGX_HTTP_TRACE : Z := 0x8000.

(** The bytes of a URI that need no attention: a bit per byte, 32 to a word. *)
Definition usual_map : list Z :=
  [0xffffdbfe; 0x7fff37d6; 0xffffffff; 0xffffffff;
   0xffffffff; 0xffffffff; 0xffffffff; 0xffffffff].

(** [usual[ch >> 5] & (1 << (ch & 0x1f))]. *)
Definition usual (ch : Z) : bool :=
  Z.testbit (nth (Z.to_nat (Z.shiftr ch 5)) usual_map 0) (Z.land ch 0x1f).

Inductive rl_state :=
| sw_start | sw_method | sw_spaces_before_uri | sw_schema | sw_schema_slash
| sw_schema_slash_slash | sw_host_start | sw_host | sw_host_end | sw_host_ip_literal
| sw_port | sw_host_http_09 | sw_after_slash_in_uri | sw_check_uri
| sw_check_uri_http_09 | sw_uri | sw_http_09 | sw_http_H | sw_http_HT | sw_http_HTT
| sw_http_HTTP | sw_first_major_digit | sw_major_digit | sw_first_minor_digit
| sw_minor_digit | sw_spaces_after_digit | sw_almost_done.

#[global] Instance rl_state_eq_dec : EqDecision rl_state.
Proof. solve_decision. Defined.

Record request := MkRequest {
  state : rl_state;
  method : Z;
  request_start : option Z; request_end : option Z; method_end : option Z;
  schema_start : option Z; schema_end : option Z;
  host_start : option Z; host_end : option Z; port_end : option Z;
  uri_start : option Z; uri_end : option Z; uri_ext : option Z; args_start : option Z;
  http_protocol : option Z;
  http_major : Z; http_minor : Z; http_version : Z;
  complex_uri : bool; quoted_uri : bool; plus_in_uri : bool; space_in_uri : bool }.

Definition request_eta (r : request) : request :=
  MkRequest (state r) (method r) (request_start r) (request_end r) (method_end r)
    (schema_start r) (schema_end r) (host_start r) (host_end r) (port_end r)
    (uri_start r) (uri_end r) (uri_ext r) (args_start r) (http_protocol r)
    (http_major r) (http_minor r) (http_version r)
    (complex_uri r) (quoted_uri r) (plus_in_uri r) (space_in_uri r).

Definition set_state v (r : request) : request := ltac:(record_set request_eta state v r).
Definition set_method v (r : request) : request := ltac:(record_set request_eta method v r).
Definition set_request_start v (r : request) : request := ltac:(record_set request_eta request_start v r).
Definition set_request_end v (r : request) : request := ltac:(record_set request_eta request_end v r).
Definition set_method_end v (r : request) : request := ltac:(record_set request_eta method_end v r).
Definition set_schema_start v (r : request) : request := ltac:(record_set request_eta schema_start v r).
Definition set_schema_end v (r : request) : request := ltac:(record_set request_eta schema_end v r).
Definition set_host_start v (r : request) : request := ltac:(record_set request_eta host_start v r).
Definition set_host_end v (r : request) : request := ltac:(record_set request_eta host_end v r).
Definition set_port_end v (r : request) : request := ltac:(record_set request_eta port_end v r).
Definition set_uri_start v (r : request) : request := ltac:(record_set request_eta uri_start v r).
Definition set_uri_end v (r : request) : request := ltac:(record_set request_eta uri_end v r).
Definition set_uri_ext v (r : request) : request := ltac:(record_set request_eta uri_ext v r).
Definition set_args_start v (r : request) : request := ltac:(record_set request_eta args_start v r).
Definition set_http_protocol v (r : request) : request := ltac:(record_set request_eta http_protocol v r).
Definition set_http_major v (r : request) : request := ltac:(record_set request_eta http_major v r).
Definition set_http_minor v (r : request) : request := ltac:(record_set request_eta http_minor v r).
Definition set_http_version v (r : request) : request := ltac:(record_set request_eta http_version v r).
Definition set_complex_uri v (r : request) : request := ltac:(record_set request_eta complex_uri v r).
Definition set_quoted_uri v (r : request) : request := ltac:(record_set request_eta quoted_uri v r).
Definition set_plus_in_uri v (r : request) : request := ltac:(record_set request_eta plus_in_uri v r).
Definition set_space_in_uri v (r : request) : request := ltac:(record_set request_eta space_in_uri v r).

(** The request as ngx_http_init_request leaves it: everything zero, the
    method unknown. *)
Definition init_request : request :=
  MkRequest sw_start NGX_HTTP_UNKNOWN None None None None None None None None None None None
    None None 0 0 0 false false false false.

Inductive rl_label := done.

Definition rl_body : Type := request -> Z -> Z -> step_result request rl_label.

Definition go (st : rl_state) (r : request) : step_result request rl_label :=
  Go (set_state st r).

Definition finish (r : request) : step_result request rl_label := Goto r done.

Definition invalid_request (r : request) : step_result request rl_label :=
  Return r NGX_HTTP_PARSE_INVALID_REQUEST.

(** [(ch < 'A' || ch > 'Z') && ch != '_'], negated. *)
Definition method_char (ch : Z) : bool :=
  negb (((ch <? "A"%c) || (ch >? "Z"%c)) && negb (ch =? "_"%c)).

(** [c = (u_char) (ch | 0x20); c >= 'a' && c <= 'z']. *)
Definition alpha (ch : Z) : bool :=
  let c := Z.lor ch 0x20 in (c >=? "a"%c) && (c <=? "z"%c).

Definition digit (ch : Z) : bool := (ch >=? "0"%c) && (ch <=? "9"%c).

(** The ngx_strNcmp macros: the bytes at [m] are those of the literal. *)
Definition str_at (buf : list Z) (m : Z) (s : list Z) : bool :=
  bool_decide (map (fun i => byte_at buf (m + Z.of_nat i)) (seq 0 (length s)) = s).

(** [switch (p - m)]: the method of the bytes between [m] and [p]; a name that
    is none of these leaves r->method as it was. *)
Definition method_of (buf : list Z) (m p old : Z) : Z :=
  let lit s := str_at buf m s in
  if p - m =? 3 then
    if lit $"GET " then NGX_HTTP_GET
    else if lit $"PUT " then NGX_HTTP_PUT
    else old
  else if p - m =? 4 then
    if byte_at buf (m + 1) =? "O"%c then
      if lit $"POST" then NGX_HTTP_POST
      else if lit $"COPY" then NGX_HTTP_COPY
      else if lit $"MOVE" then NGX_HTTP_MOVE
      else if lit $"LOCK" then NGX_HTTP_LOCK
      else old
    else if lit $"HEAD" then NGX_HTTP_HEAD
    else old
  else if p - m =? 5 then
    let method := if lit $"MKCOL" then NGX_HTTP_MKCOL else old in
    let method := if lit $"PATCH" then NGX_HTTP_PATCH else method in
    if lit $"TRACE" then NGX_HTTP_TRACE else method
  else if p - m =? 6 then
    if lit $"DELETE" then NGX_HTTP_DELETE
    else if lit $"UNLOCK" then NGX_HTTP_UNLOCK
    else old
  else if p - m =? 7 then
    if lit $"OPTIONS " then NGX_HTTP_OPTIONS else old
  else if p - m =? 8 then
    if lit $"PROPFIND" then NGX_HTTP_PROPFIND else old
  else if p - m =? 9 then
    if lit $"PROPPATCH" then NGX_HTTP_PROPPATCH else old
  else old.

(** HTTP methods. *)
Definition step_start : rl_body := fun r p ch =>
  let r := set_request_start (Some p) r in
  if (ch =? CR) || (ch =? LF) then Go r
  else if negb (method_char ch) then Return r NGX_HTTP_PARSE_INVALID_METHOD
  else go sw_method r.

Definition step_method (buf : list Z) : rl_body := fun r p ch =>
  if ch =? " "%c then
    let r := set_method_end (Some (p - 1)) r in
    let r := match request_start r with
             | Some m => set_method (method_of buf m p (method r)) r
             | None => r
             end in
    go sw_spaces_before_uri r
  else if negb (method_char ch) then Return r NGX_HTTP_PARSE_INVALID_METHOD
  else Go r.

(** space* before URI. *)
Definition step_spaces_before_uri : rl_body := fun r p ch =>
  if ch =? "/"%c then go sw_after_slash_in_uri (set_uri_start (Some p) r)
  else if alpha ch then go sw_schema (set_schema_start (Some p) r)
  else if ch =? " "%c then Go r
  else invalid_request r.

Definition step_schema : rl_body := fun r p ch =>
  if alpha ch then Go r
  else if ch =? ":"%c then go sw_schema_slash (set_schema_end (Some p) r)
  else invalid_request r.

Definition step_schema_slash : rl_body := fun r p ch =>
  if ch =? "/"%c then go sw_schema_slash_slash r else invalid_request r.

Definition step_schema_slash_slash : rl_body := fun r p ch =>
  if ch =? "/"%c then go sw_host_start r else invalid_request r.

(** [r->uri_start = r->schema_end + 1; r->uri_end = r->schema_end + 2]: the
    single "/" of the schema stands for the missing URI. *)
Definition slash_of_schema (r : request) : request :=
  set_uri_end (option_map (fun e => e + 2) (schema_end r))
    (set_uri_start (option_map (fun e => e + 1) (schema_end r)) r).

Definition step_host_end : rl_body := fun r p ch =>
  let r := set_host_end (Some p) r in
  if ch =? ":"%c then go sw_port r
  else if ch =? "/"%c then go sw_after_slash_in_uri (set_uri_start (Some p) r)
  else if ch =? " "%c then go sw_host_http_09 (slash_of_schema r)
  else invalid_request r.

Definition step_host : rl_body := fun r p ch =>
  if alpha ch then Go r
  else if digit ch || (ch =? "."%c) || (ch =? "-"%c) then Go r
  else step_host_end r p ch.

Definition step_host_start : rl_body := fun r p ch =>
  let r := set_host_start (Some p) r in
  if ch =? "["%c then go sw_host_ip_literal r
  else step_host (set_state sw_host r) p ch.

(** Unreserved and sub-delims of an IP literal. *)
Definition ip_literal_char (ch : Z) : bool :=
  existsb (Z.eqb ch) [":"%c; "-"%c; "."%c; "_"%c; "~"%c; "!"%c; "$"%c; "&"%c; "'"%c;
                      "("%c; ")"%c; "*"%c; "+"%c; ","%c; ";"%c; "="%c].

Definition step_host_ip_literal : rl_body := fun r p ch =>
  if digit ch then Go r
  else if alpha ch then Go r
  else if ch =? "]"%c then go sw_host_end r
  else if ip_literal_char ch then Go r
  else invalid_request r.

Definition step_port : rl_body := fun r p ch =>
  if digit ch then Go r
  else if ch =? "/"%c then
    go sw_after_slash_in_uri (set_uri_start (Some p) (set_port_end (Some p) r))
  else if ch =? " "%c then go sw_host_http_09 (slash_of_schema (set_port_end (Some p) r))
  else invalid_request r.

(** space+ after "http://host[:port] ". *)
Definition step_host_http_09 : rl_body := fun r p ch =>
  if ch =? " "%c then Go r
  else if ch =? CR then go sw_almost_done (set_http_minor 9 r)
  else if ch =? LF then finish (set_http_minor 9 r)
  else if ch =? "H"%c then go sw_http_H (set_http_protocol (Some p) r)
  else invalid_request r.

(** check "/.", "//", "%" in URI. *)
Definition step_after_slash_in_uri : rl_body := fun r p ch =>
  if usual ch then go sw_check_uri r
  else if ch =? " "%c then go sw_check_uri_http_09 (set_uri_end (Some p) r)
  else if ch =? CR then go sw_almost_done (set_http_minor 9 (set_uri_end (Some p) r))
  else if ch =? LF then finish (set_http_minor 9 (set_uri_end (Some p) r))
  else if ch =? "."%c then go sw_uri (set_complex_uri true r)
  else if ch =? "%"%c then go sw_uri (set_quoted_uri true r)
  else if ch =? "/"%c then go sw_uri (set_complex_uri true r)
  else if ch =? "?"%c then go sw_uri (set_args_start (Some (p + 1)) r)
  else if ch =? "#"%c then go sw_uri (set_complex_uri true r)
  else if ch =? "+"%c then Go (set_plus_in_uri true r)
  else if ch =? 0 then invalid_request r
  else go sw_check_uri r.

(** check "/", "%" in URI. *)
Definition step_check_uri : rl_body := fun r p ch =>
  if usual ch then Go r
  else if ch =? "/"%c then go sw_after_slash_in_uri (set_uri_ext None r)
  else if ch =? "."%c then Go (set_uri_ext (Some (p + 1)) r)
  else if ch =? " "%c then go sw_check_uri_http_09 (set_uri_end (Some p) r)
  else if ch =? CR then go sw_almost_done (set_http_minor 9 (set_uri_end (Some p) r))
  else if ch =? LF then finish (set_http_minor 9 (set_uri_end (Some p) r))
  else if ch =? "%"%c then go sw_uri (set_quoted_uri true r)
  else if ch =? "?"%c then go sw_uri (set_args_start (Some (p + 1)) r)
  else if ch =? "#"%c then go sw_uri (set_complex_uri true r)
  else if ch =? "+"%c then Go (set_plus_in_uri true r)
  else if ch =? 0 then invalid_request r
  else Go r.

(** space+ after URI; anything but the version goes back to the URI. *)
Definition step_after_uri (back : rl_state) : rl_body := fun r p ch =>
  if ch =? " "%c then Go r
  else if ch =? CR then go sw_almost_done (set_http_minor 9 r)
  else if ch =? LF then finish (set_http_minor 9 r)
  else if ch =? "H"%c then go sw_http_H (set_http_protocol (Some p) r)
  else go back (set_space_in_uri true r).

Definition step_check_uri_http_09 : rl_body := step_after_uri sw_check_uri.

(** URI. *)
Definition step_uri : rl_body := fun r p ch =>
  if usual ch then Go r
  else if ch =? " "%c then go sw_http_09 (set_uri_end (Some p) r)
  else if ch =? CR then go sw_almost_done (set_http_minor 9 (set_uri_end (Some p) r))
  else if ch =? LF then finish (set_http_minor 9 (set_uri_end (Some p) r))
  else if ch =? "#"%c then Go (set_complex_uri true r)
  else if ch =? 0 then invalid_request r
  else Go r.

Definition step_http_09 : rl_body := step_after_uri sw_uri.

(** "HTTP/", a letter at a time. *)
Definition step_letter (letter : Z) (next : rl_state) : rl_body := fun r p ch =>
  if ch =? letter then go next r else invalid_request r.

Definition step_first_major_digit : rl_body := fun r p ch =>
  if (ch <? "1"%c) || (ch >? "9"%c) then invalid_request r
  else go sw_major_digit (set_http_major (ch - "0"%c) r).

(** r->http_major and r->http_minor are bit fields of 16 bits. *)
Definition step_major_digit : rl_body := fun r p ch =>
  if ch =? "."%c then go sw_first_minor_digit r
  else if negb (digit ch) then invalid_request r
  else Go (set_http_major (wrapU 16 (http_major r * 10 + ch - "0"%c)) r).

Definition step_first_minor_digit : rl_body := fun r p ch =>
  if negb (digit ch) then invalid_request r
  else go sw_minor_digit (set_http_minor (ch - "0"%c) r).

Definition step_minor_digit : rl_body := fun r p ch =>
  if ch =? CR then go sw_almost_done r
  else if ch =? LF then finish r
  else if ch =? " "%c then go sw_spaces_after_digit r
  else if negb (digit ch) then invalid_request r
  else Go (set_http_minor (wrapU 16 (http_minor r * 10 + ch - "0"%c)) r).

Definition step_spaces_after_digit : rl_body := fun r p ch =>
  if ch =? " "%c then Go r
  else if ch =? CR then go sw_almost_done r
  else if ch =? LF then finish r
  else invalid_request r.

(** end of request line. *)
Definition step_almost_done : rl_body := fun r p ch =>
  let r := set_request_end (Some (p - 1)) r in
  if ch =? LF then finish r else invalid_request r.

(** [switch (state)]. *)
Definition rl_step : body request rl_label := fun buf r =>
  match state r with
  | sw_start => step_start r
  | sw_method => step_method buf r
  | sw_spaces_before_uri => step_spaces_before_uri r
  | sw_schema => step_schema r
  | sw_schema_slash => step_schema_slash r
  | sw_schema_slash_slash => step_schema_slash_slash r
  | sw_host_start => step_host_start r
  | sw_host => step_host r
  | sw_host_end => step_host_end r
  | sw_host_ip_literal => step_host_ip_literal r
  | sw_port => step_port r
  | sw_host_http_09 => step_host_http_09 r
  | sw_after_slash_in_uri => step_after_slash_in_uri r
  | sw_check_uri => step_check_uri r
  | sw_check_uri_http_09 => step_check_uri_http_09 r
  | sw_uri => step_uri r
  | sw_http_09 => step_http_09 r
  | sw_http_H => step_letter "T"%c sw_http_HT r
  | sw_http_HT => step_letter "T"%c sw_http_HTT r
  | sw_http_HTT => step_letter "P"%c sw_http_HTTP r
  | sw_http_HTTP => step_letter "/"%c sw_first_major_digit r
  | sw_first_major_digit => step_first_major_digit r
  | sw_major_digit => step_major_digit r
  | sw_first_minor_digit => step_first_minor_digit r
  | sw_minor_digit => step_minor_digit r
  | sw_spaces_after_digit => step_spaces_after_digit r
  | sw_almost_done => step_almost_done r
  end.

(** The label [done], with [p] at the line feed. *)
Definition rl_done (r : request) (p : Z) : request * Z :=
  let r := match request_end r with
           | None => set_request_end (Some p) r
           | Some _ => r
           end in
  let r := set_http_version (http_major r * 1000 + http_minor r) r in
  let r := set_state sw_start r in
  if (http_version r =? 9) && negb (method r =? NGX_HTTP_GET)
  then (r, NGX_HTTP_PARSE_INVALID_09_METHOD) else (r, NGX_OK).

(** The request, the new [b->pos] and the code returned. *)
Definition ngx_http_parse_request_line : request -> ngx_buf_t -> request * Z * Z :=
  parse_with rl_step (fun r p _ => rl_done r p).

End RequestLine.
Export RequestLine.

(** * What an accepted request line looks like *)

Section Shape.
Context (buf : list Z).

Notation "'B' i" := (byte_at buf i) (at level 9, i at level 9).

(** [u, p) holds no line break and, unless a space was let in, no space and
    no NUL. *)
Definition no_breaks (sp : bool) (u p : Z) : Prop :=
  forall i, u <= i < p ->
    B i <> CR /\ B i <> LF /\ (sp = false -> B i <> " "%c /\ B i <> 0).

(** [u, p) is a path that needs no normalising: nothing quoted, no query, no
    fragment, and after a slash neither a slash nor a dot. *)
Definition plain (u p : Z) : Prop :=
  forall i, u <= i < p ->
    B i <> "%"%c /\ B i <> "#"%c /\ B i <> "?"%c /\
    (i + 1 < p -> B i = "/"%c -> B (i + 1) <> "/"%c /\ B (i + 1) <> "."%c).

Definition blanks (v p : Z) : Prop := v <= p /\ forall i, v <= i < p -> B i = " "%c.

(** None of the flags that make the caller look at the URI again is set. *)
Definition simple (r : request) : Prop :=
  complex_uri r = false /\ quoted_uri r = false /\ space_in_uri r = false.

(** The path of a URI that begins at [u] and is read up to [v]. *)
Definition path_ok (r : request) (u v : Z) : Prop :=
  match args_start r with
  | Some a => u + 1 < a <= v /\ (simple r -> plain u (a - 1))
  | None => simple r -> plain u v
  end.

Definition method_read (r : request) (p : Z) : Prop :=
  exists m, request_start r = Some m /\ 0 <= m < p /\
    forall i, m <= i < p -> method_char (B i) = true.

Definition method_ok (r : request) (u : Z) : Prop :=
  exists m e, request_start r = Some m /\ method_end r = Some e /\
    0 <= m <= e /\ e + 1 < u /\
    forall i, m <= i <= e -> method_char (B i) = true.

Definition uri_open (r : request) (p : Z) : Prop :=
  exists u, uri_start r = Some u /\ u < p /\ B u = "/"%c /\
    method_ok r u /\ no_breaks (space_in_uri r) u p /\ path_ok r u p.

Definition uri_closed (r : request) (p : Z) : Prop :=
  exists u v, uri_start r = Some u /\ uri_end r = Some v /\ u < v <= p /\
    B u = "/"%c /\ method_ok r u /\ no_breaks (space_in_uri r) u v /\ path_ok r u v.

Definition no_flags (r : request) : Prop :=
  simple r /\ args_start r = None /\ request_end r = None.

Definition schema_read (r : request) (p : Z) (k : Z) : Prop :=
  exists s, schema_end r = Some s /\ s + k < p /\ method_ok r s /\ B (s + 1) = "/"%c.

(** What holds before the byte at [p] in each state. *)
Definition rl_inv (p : Z) (r : request) : Prop :=
  match state r with
  | sw_start => no_flags r
  | sw_method => no_flags r /\ method_read r p
  | sw_spaces_before_uri | sw_schema => no_flags r /\ method_ok r p
  | sw_schema_slash =>
    no_flags r /\ exists s, schema_end r = Some s /\ s + 1 = p /\ method_ok r s
  | sw_schema_slash_slash | sw_host_start | sw_host | sw_host_end
  | sw_host_ip_literal | sw_port => no_flags r /\ schema_read r p 1
  | sw_after_slash_in_uri =>
    uri_open r p /\ args_start r = None /\ request_end r = None
  | sw_check_uri =>
    uri_open r p /\ args_start r = None /\ request_end r = None /\
    (simple r -> B (p - 1) <> "/"%c)
  | sw_uri =>
    uri_open r p /\ request_end r = None /\ (args_start r = None -> ~ simple r)
  | sw_check_uri_http_09 =>
    uri_closed r p /\ request_end r = None /\ args_start r = None /\
    exists v, uri_end r = Some v /\ blanks v p
  | sw_http_09 =>
    uri_closed r p /\ request_end r = None /\ (args_start r = None -> ~ simple r) /\
    exists v, uri_end r = Some v /\ blanks v p
  | sw_almost_done =>
    request_end r = None /\ uri_closed r (p - 1)
  | _ => request_end r = None /\ uri_closed r p
  end.

Definition rl_post (p : Z) (r : request) (_ : rl_label) : Prop :=
  match request_end r with
  | None => uri_closed r p
  | Some q => q = p - 1 /\ uri_closed r q
  end.

(** The goal of a preservation lemma. *)
Definition keeps (p : Z) (res : step_result request rl_label) : Prop :=
  match res with
  | Go r => rl_inv (p + 1) r
  | Goto r l => rl_post p r l
  | Return _ _ => True
  end.
End Shape.

(** * The invariant is kept *)

Lemma usual_false ch :
  usual ch = true ->
  ch <> 0 /\ ch <> CR /\ ch <> LF /\ ch <> " "%c /\ ch <> "%"%c /\ ch <> "#"%c /\
  ch <> "?"%c /\ ch <> "/"%c /\ ch <> "."%c /\ ch <> "+"%c.
Proof. intros H. repeat split; intros ->; vm_compute in H; discriminate. Qed.

Section Snoc.
Context (buf : list Z).

Lemma no_breaks_snoc sp u p :
  no_breaks buf sp u p ->
  byte_at buf p <> CR -> byte_at buf p <> LF ->
  (sp = false -> byte_at buf p <> " "%c /\ byte_at buf p <> 0) ->
  no_breaks buf sp u (p + 1).
Proof.
  intros H Hcr Hlf Hsp i Hi. destruct (decide (i = p)) as [->|]; [done|]. apply H. lia.
Qed.

Lemma no_breaks_first sp p : byte_at buf p = "/"%c -> no_breaks buf sp p (p + 1).
Proof. intros H i Hi. replace i with p by lia. rewrite H. done. Qed.

Lemma no_breaks_weaken sp u p : no_breaks buf sp u p -> no_breaks buf true u p.
Proof. intros H i Hi. destruct (H i Hi) as (? & ? & ?). done. Qed.

Lemma no_breaks_blanks sp u v p :
  no_breaks buf sp u v -> blanks buf v p -> no_breaks buf true u p.
Proof.
  intros H [Hv Hb] i Hi. destruct (decide (i < v)) as [Hlt|Hge].
  - destruct (H i) as (? & ? & ?); [lia|done].
  - rewrite Hb by lia. done.
Qed.

Lemma blanks_snoc v p :
  blanks buf v p -> byte_at buf p = " "%c -> blanks buf v (p + 1).
Proof.
  intros [Hv Hb] Hp. split; [lia|]. intros i Hi.
  destruct (decide (i = p)) as [->|]; [done|]. apply Hb. lia.
Qed.

Lemma blanks_first p : byte_at buf p = " "%c -> blanks buf p (p + 1).
Proof. intros Hp. split; [lia|]. intros i Hi. replace i with p by lia. done. Qed.

Lemma plain_snoc u p :
  plain buf u p ->
  byte_at buf p <> "%"%c -> byte_at buf p <> "#"%c -> byte_at buf p <> "?"%c ->
  (u < p -> byte_at buf (p - 1) = "/"%c -> byte_at buf p <> "/"%c /\ byte_at buf p <> "."%c) ->
  plain buf u (p + 1).
Proof.
  intros H H1 H2 H3 H4 i Hi. destruct (decide (i = p)) as [->|Hne].
  - split_and!; [done..|lia].
  - destruct (H i) as (? & ? & ? & Hs); [lia|]. split_and!; [done..|]. intros Hlt Hsl.
    destruct (decide (i + 1 < p)) as [Hin|Hout]; [by apply Hs|].
    replace i with (p - 1) in Hsl by lia. replace (i + 1) with p by lia.
    apply H4; [lia|done].
Qed.

Lemma plain_first p : byte_at buf p = "/"%c -> plain buf p (p + 1).
Proof.
  intros H. assert (plain buf p p) as H0 by (intros i Hi; lia).
  apply plain_snoc; rewrite ?H; done || lia.
Qed.
End Snoc.

Section Keeps.
Context (buf : list Z).

Notation "'B' i" := (byte_at buf i) (at level 9, i at level 9).

(** Opens a step and splits its tests; what is left are the branches that
    go on, with the byte at [p] known. *)
Ltac branches :=
  repeat match goal with
  | |- context [if ?b then _ else _] => let E := fresh "E" in destruct b eqn:E; boolify
  end;
  try exact I.

Lemma method_ok_extend r u u' : method_ok buf r u -> u <= u' -> method_ok buf r u'.
Proof. intros (m & e & ? & ? & ? & ? & ?) ?. exists m, e. split_and!; lia || done. Qed.

Lemma uri_closed_extend r p q : uri_closed buf r p -> p <= q -> uri_closed buf r q.
Proof.
  intros (u & v & ? & ? & ? & ? & ? & ? & ?) ?. exists u, v. split_and!; done || lia.
Qed.

(** A slash opens the URI. *)
Lemma uri_open_first r p :
  method_ok buf r p -> no_flags r -> uri_start r = Some p -> B p = "/"%c ->
  uri_open buf r (p + 1).
Proof.
  intros Hm (Hs & Ha & _) Hu Hp. exists p. unfold path_ok. rewrite Ha.
  split_and!; [done|lia|done|done|by apply no_breaks_first..|]. auto using plain_first.
Qed.

(** The end of the URI is met. *)
Lemma uri_open_close r p :
  uri_open buf r p -> uri_end r = Some p -> uri_closed buf r p.
Proof. intros (u & ? & ? & ? & ? & ? & ?) ?. exists u, p. split_and!; lia || done. Qed.

(** One more byte of the URI. *)
Lemma uri_open_snoc r p :
  uri_open buf r p ->
  B p <> CR -> B p <> LF ->
  (space_in_uri r = false -> B p <> " "%c /\ B p <> 0) ->
  (args_start r = None -> simple r ->
    B p <> "%"%c /\ B p <> "#"%c /\ B p <> "?"%c /\
    (B (p - 1) = "/"%c -> B p <> "/"%c /\ B p <> "."%c)) ->
  uri_open buf r (p + 1).
Proof.
  intros (u & Hu & Hlt & Hsl & Hm & Hb & Hp) Hcr Hlf Hsp Hpl.
  exists u. split_and!; try done; [lia|by apply no_breaks_snoc|].
  unfold path_ok in *. destruct (args_start r) as [a|].
  - destruct Hp. split; [lia|done].
  - intros Hs. destruct (Hpl eq_refl Hs) as (? & ? & ? & ?).
    apply plain_snoc; auto.
Qed.

(** The query begins after the byte at [p]. *)
Lemma uri_open_args r p :
  uri_open buf r p -> args_start r = None -> B p = "?"%c ->
  uri_open buf (set_args_start (Some (p + 1)) r) (p + 1).
Proof.
  intros (u & Hu & Hlt & Hsl & Hm & Hb & Hp) Ha Hq. exists u.
  split_and!; try done; [lia| |].
  - apply no_breaks_snoc; rewrite ?Hq; done.
  - unfold path_ok in *. rewrite Ha in Hp. cbn. split; [lia|]. intros Hs.
    replace (p + 1 - 1) with p by lia. apply Hp. done.
Qed.

(** The flags may only grow. *)
Lemma uri_open_flags r r' p :
  uri_open buf r p ->
  uri_start r' = uri_start r -> args_start r' = args_start r ->
  request_start r' = request_start r -> method_end r' = method_end r ->
  (space_in_uri r' = false -> space_in_uri r = false) ->
  (simple r' -> simple r) ->
  uri_open buf r' p.
Proof.
  intros (u & Hu & Hlt & Hsl & Hm & Hb & Hp) H1 H2 H3 H4 H5 H6. exists u.
  rewrite H1. split_and!; try done.
  - unfold method_ok in *. rewrite H3, H4. done.
  - intros i Hi. destruct (Hb i Hi) as (? & ? & Hn). auto.
  - unfold path_ok in *. rewrite H2. destruct (args_start r); [destruct Hp; split|]; auto.
Qed.

Lemma keeps_start r p ch :
  0 <= p -> ch = B p -> state r = sw_start -> rl_inv buf p r -> keeps buf p (step_start r p ch).
Proof.
  intros Hp -> Hst Hinv. unfold rl_inv in Hinv. rewrite Hst in Hinv.
  unfold step_start. branches.
  - unfold keeps, rl_inv. cbn. rewrite Hst. exact Hinv.
  - unfold keeps, rl_inv. cbn. rewrite Hst. exact Hinv.
  - split; [exact Hinv|]. exists p. cbn. split_and!; [done|lia..|].
    intros i Hi. replace i with p by lia. done.
Qed.

Lemma keeps_method r p ch :
  0 <= p -> ch = B p -> state r = sw_method -> rl_inv buf p r ->
  keeps buf p (step_method buf r p ch).
Proof.
  intros Hp -> Hst Hinv. unfold rl_inv in Hinv. rewrite Hst in Hinv.
  destruct Hinv as (Hf & m & Hm & Hlt & Hc). unfold step_method. branches.
  - cbn. rewrite Hm. split; [exact Hf|]. exists m, (p - 1). cbn.
    split_and!; [done|done|lia..|]. intros i Hi. apply Hc. lia.
  - unfold keeps, rl_inv. rewrite Hst. split; [exact Hf|]. exists m.
    split_and!; [done|lia..|]. intros i Hi.
    destruct (decide (i = p)) as [->|]; [done|apply Hc; lia].
Qed.

Lemma keeps_spaces_before_uri r p ch :
  ch = B p -> state r = sw_spaces_before_uri -> rl_inv buf p r ->
  keeps buf p (step_spaces_before_uri r p ch).
Proof.
  intros -> Hst Hinv. unfold rl_inv in Hinv. rewrite Hst in Hinv.
  destruct Hinv as (Hf & Hm). unfold step_spaces_before_uri. branches.
  - destruct Hf as (Hs & Ha & He). split_and!; [|exact Ha|exact He].
    apply uri_open_first; done.
  - split; [exact Hf|]. apply (method_ok_extend r p); [done|lia].
  - unfold keeps, rl_inv. rewrite Hst. split; [done|].
    apply (method_ok_extend r p); [done|lia].
Qed.

Lemma keeps_schema r p ch :
  ch = B p -> state r = sw_schema -> rl_inv buf p r -> keeps buf p (step_schema r p ch).
Proof.
  intros -> Hst Hinv. unfold rl_inv in Hinv. rewrite Hst in Hinv.
  destruct Hinv as (Hf & Hm). unfold step_schema. branches.
  - unfold keeps, rl_inv. rewrite Hst. split; [done|].
    apply (method_ok_extend r p); [done|lia].
  - split; [exact Hf|]. exists p. split_and!; [done|lia|exact Hm].
Qed.

Lemma keeps_schema_slash r p ch :
  ch = B p -> state r = sw_schema_slash -> rl_inv buf p r ->
  keeps buf p (step_schema_slash r p ch).
Proof.
  intros -> Hst Hinv. unfold rl_inv in Hinv. rewrite Hst in Hinv.
  destruct Hinv as (Hf & e & He & Hp & Hm). unfold step_schema_slash. branches.
  split; [exact Hf|]. exists e. rewrite Hp.
  split_and!; [exact He|lia|exact Hm|done].
Qed.

(** The states between the schema and the URI. *)
Definition host_inv (p : Z) (r : request) : Prop := no_flags r /\ schema_read buf r p 1.

Lemma host_inv_next p r : host_inv p r -> host_inv (p + 1) r.
Proof.
  intros (Hf & e & He & Hp & Hm & Hs). split; [done|]. exists e.
  split_and!; [done|lia|done..].
Qed.

Lemma host_inv_uri p r :
  host_inv p r -> B p = "/"%c -> uri_open buf (set_uri_start (Some p) r) (p + 1).
Proof.
  intros (Hf & e & He & Hp & Hm & Hs) Hsl. apply uri_open_first; try done.
  apply (method_ok_extend _ e); [exact Hm|lia].
Qed.

Lemma host_inv_slash p r : host_inv p r -> uri_closed buf (slash_of_schema r) (p + 1).
Proof.
  intros (Hf & e & He & Hp & Hm & Hs). destruct Hf as (Hsi & Ha & Hre).
  exists (e + 1), (e + 2). unfold slash_of_schema. rewrite He. cbn.
  replace (e + 2) with (e + 1 + 1) by lia.
  split_and!; [done|done|lia..|done| |by apply no_breaks_first|].
  - apply (method_ok_extend _ e); [exact Hm|lia].
  - unfold path_ok. cbn. rewrite Ha. intros _. by apply plain_first.
Qed.

Lemma keeps_host_end r p ch :
  ch = B p -> host_inv p r -> keeps buf p (step_host_end r p ch).
Proof.
  intros -> Hinv. unfold step_host_end. branches.
  - apply host_inv_next. exact Hinv.
  - split_and!; [by apply (host_inv_uri p (set_host_end (Some p) r))|apply Hinv..].
  - split; [apply Hinv|]. apply (host_inv_slash p (set_host_end (Some p) r)). exact Hinv.
Qed.

Lemma keeps_host r p ch :
  ch = B p -> state r = sw_host -> host_inv p r -> keeps buf p (step_host r p ch).
Proof.
  intros Hch Hst Hinv. unfold step_host. branches.
  all: try (unfold keeps, rl_inv; rewrite Hst; by apply host_inv_next).
  by apply keeps_host_end.
Qed.

Lemma keeps_host_start r p ch :
  ch = B p -> host_inv p r -> keeps buf p (step_host_start r p ch).
Proof.
  intros Hch Hinv. unfold step_host_start. branches.
  - apply host_inv_next. exact Hinv.
  - apply keeps_host; [done|done|exact Hinv].
Qed.

Lemma keeps_host_ip_literal r p ch :
  state r = sw_host_ip_literal -> host_inv p r ->
  keeps buf p (step_host_ip_literal r p ch).
Proof.
  intros Hst Hinv. apply host_inv_next in Hinv. unfold step_host_ip_literal. branches.
  all: try (unfold keeps, rl_inv; rewrite Hst; exact Hinv).
  exact Hinv.
Qed.

Lemma keeps_port r p ch :
  ch = B p -> state r = sw_port -> host_inv p r -> keeps buf p (step_port r p ch).
Proof.
  intros -> Hst Hinv. unfold step_port. branches.
  - unfold keeps, rl_inv. rewrite Hst. by apply host_inv_next.
  - split_and!; [by apply (host_inv_uri p (set_port_end (Some p) r))|apply Hinv..].
  - split; [apply Hinv|]. apply (host_inv_slash p (set_port_end (Some p) r)). exact Hinv.
Qed.

(** The states after the URI: nothing of it changes any more. *)
Definition tail_inv (p : Z) (r : request) : Prop := request_end r = None /\ uri_closed buf r p.

Lemma tail_inv_next p r : tail_inv p r -> tail_inv (p + 1) r.
Proof. intros [? ?]. split; [done|]. apply (uri_closed_extend r p); [done|lia]. Qed.

Lemma tail_inv_post p r : tail_inv p r -> rl_post buf p r done.
Proof. intros [Hr Hu]. unfold rl_post. rewrite Hr. done. Qed.

Lemma tail_inv_crlf p r : tail_inv p r -> rl_inv buf (p + 1) (set_state sw_almost_done r).
Proof.
  intros [Hr Hu]. split; [done|]. replace (p + 1 - 1) with p by lia. exact Hu.
Qed.

(** The byte after which the URI is closed. *)
Lemma open_tail r p :
  uri_open buf r p -> request_end r = None -> tail_inv p (set_uri_end (Some p) r).
Proof. intros Hu Hr. split; [done|]. apply uri_open_close; [exact Hu|done]. Qed.

Lemma complex_not_simple r : complex_uri r = true -> ~ simple r.
Proof. intros H (Hc & _ & _). congruence. Qed.

Lemma quoted_not_simple r : quoted_uri r = true -> ~ simple r.
Proof. intros H (_ & Hq & _). congruence. Qed.

(** A byte that makes the URI complex or quoted. *)
Lemma uri_open_flagged r r' p :
  uri_open buf r p ->
  B p <> CR -> B p <> LF -> B p <> " "%c -> B p <> 0 ->
  uri_start r' = uri_start r -> args_start r' = args_start r ->
  request_start r' = request_start r -> method_end r' = method_end r ->
  space_in_uri r' = space_in_uri r -> ~ simple r' ->
  uri_open buf r' (p + 1).
Proof.
  intros Hu ???? H1 H2 H3 H4 H5 Hs.
  apply uri_open_snoc; [|done..].
  apply (uri_open_flags r); [done..|by rewrite H5|done].
Qed.

(** A byte of a path that is neither special nor a slash after a slash. *)
Lemma uri_open_plain r p :
  uri_open buf r p ->
  B p <> CR -> B p <> LF -> B p <> " "%c -> B p <> 0 ->
  B p <> "%"%c -> B p <> "#"%c -> B p <> "?"%c ->
  (simple r -> B (p - 1) = "/"%c -> B p <> "/"%c /\ B p <> "."%c) ->
  uri_open buf r (p + 1).
Proof. intros. apply uri_open_snoc; auto. Qed.

Lemma keeps_after_slash_in_uri r p ch :
  ch = B p -> state r = sw_after_slash_in_uri -> rl_inv buf p r ->
  keeps buf p (step_after_slash_in_uri r p ch).
Proof.
  intros -> Hst Hinv. unfold rl_inv in Hinv. rewrite Hst in Hinv.
  destruct Hinv as (Hu & Ha & Hr). pose proof (open_tail r p Hu Hr) as Htail.
  unfold step_after_slash_in_uri. branches.
  - apply usual_false in E as (? & ? & ? & ? & ? & ? & ? & ? & ? & ?).
    split_and!; [by apply (uri_open_plain r)|done..|].
    replace (p + 1 - 1) with p by lia. done.
  - destruct (tail_inv_next _ _ Htail) as [? ?]. split_and!; [done..|].
    exists p. split; [done|by apply blanks_first].
  - apply (tail_inv_crlf p (set_http_minor 9 (set_uri_end (Some p) r))), Htail.
  - apply (tail_inv_post p (set_http_minor 9 (set_uri_end (Some p) r))), Htail.
  - split_and!; [|exact Hr|intros _; by apply complex_not_simple].
    apply (uri_open_flagged r); rewrite ?E3; try done. by apply complex_not_simple.
  - split_and!; [|exact Hr|intros _; by apply quoted_not_simple].
    apply (uri_open_flagged r); rewrite ?E4; try done. by apply quoted_not_simple.
  - split_and!; [|exact Hr|intros _; by apply complex_not_simple].
    apply (uri_open_flagged r); rewrite ?E5; try done. by apply complex_not_simple.
  - split_and!; [|exact Hr|done]. exact (uri_open_args r p Hu Ha ltac:(done)).
  - split_and!; [|exact Hr|intros _; by apply complex_not_simple].
    apply (uri_open_flagged r); rewrite ?E7; try done. by apply complex_not_simple.
  - unfold keeps, rl_inv. cbn. rewrite Hst. split_and!; [|done..].
    apply uri_open_plain; rewrite ?E8; done.
  - split_and!; [by apply (uri_open_plain r)|done..|].
    replace (p + 1 - 1) with p by lia. done.
Qed.

Lemma keeps_check_uri r p ch :
  ch = B p -> state r = sw_check_uri -> rl_inv buf p r -> keeps buf p (step_check_uri r p ch).
Proof.
  intros -> Hst Hinv. unfold rl_inv in Hinv. rewrite Hst in Hinv.
  destruct Hinv as (Hu & Ha & Hr & Hsl). pose proof (open_tail r p Hu Hr) as Htail.
  assert (Hstay : forall r', state r' = sw_check_uri -> args_start r' = None ->
    request_end r' = None -> uri_open buf r' (p + 1) -> B p <> "/"%c ->
    keeps buf p (Go r')).
  { intros r' Hst' Ha' Hr' Hu' Hne. unfold keeps, rl_inv. rewrite Hst'.
    split_and!; [done..|]. replace (p + 1 - 1) with p by lia. done. }
  unfold step_check_uri. branches.
  - apply usual_false in E as (? & ? & ? & ? & ? & ? & ? & ? & ? & ?).
    apply Hstay; try done. by apply uri_open_plain.
  - split_and!; [|done..]. apply (uri_open_plain (set_uri_ext None r)); rewrite ?E0; try done.
    intros Hs. apply Hsl in Hs. done.
  - apply Hstay; try done; rewrite ?E1; try done.
    apply uri_open_plain; rewrite ?E1; try done.
    intros Hs. apply Hsl in Hs. done.
  - destruct (tail_inv_next _ _ Htail) as [? ?]. split_and!; [done..|].
    exists p. split; [done|by apply blanks_first].
  - apply (tail_inv_crlf p (set_http_minor 9 (set_uri_end (Some p) r))), Htail.
  - apply (tail_inv_post p (set_http_minor 9 (set_uri_end (Some p) r))), Htail.
  - split_and!; [|exact Hr|intros _; by apply quoted_not_simple].
    apply (uri_open_flagged r); rewrite ?E5; try done. by apply quoted_not_simple.
  - split_and!; [|exact Hr|done]. exact (uri_open_args r p Hu Ha ltac:(done)).
  - split_and!; [|exact Hr|intros _; by apply complex_not_simple].
    apply (uri_open_flagged r); rewrite ?E7; try done. by apply complex_not_simple.
  - apply Hstay; try done; rewrite ?E8; try done. apply uri_open_plain; rewrite ?E8; done.
  - apply Hstay; try done. by apply uri_open_plain.
Qed.

Lemma keeps_uri r p ch :
  ch = B p -> state r = sw_uri -> rl_inv buf p r -> keeps buf p (step_uri r p ch).
Proof.
  intros -> Hst Hinv. unfold rl_inv in Hinv. rewrite Hst in Hinv.
  destruct Hinv as (Hu & Hr & Hs). pose proof (open_tail r p Hu Hr) as Htail.
  unfold step_uri. branches.
  - apply usual_false in E as (? & ? & ? & ? & _).
    unfold keeps, rl_inv. rewrite Hst. split_and!; [|done..].
    apply uri_open_snoc; try done. intros Ha Hsi. by destruct (Hs Ha Hsi).
  - destruct (tail_inv_next _ _ Htail) as [? ?]. split_and!; [done..|].
    exists p. split; [done|by apply blanks_first].
  - apply (tail_inv_crlf p (set_http_minor 9 (set_uri_end (Some p) r))), Htail.
  - apply (tail_inv_post p (set_http_minor 9 (set_uri_end (Some p) r))), Htail.
  - unfold keeps, rl_inv. cbn. rewrite Hst.
    split_and!; [|done|intros _; by apply complex_not_simple].
    apply (uri_open_flagged r); rewrite ?E3; try done. by apply complex_not_simple.
  - unfold keeps, rl_inv. rewrite Hst. split_and!; [|done..].
    apply uri_open_snoc; try done. intros Ha Hsi. by destruct (Hs Ha Hsi).
Qed.

(** A blank that turned out to be part of the URI. *)
Lemma reopen r p v :
  uri_closed buf r p -> uri_end r = Some v -> blanks buf v p ->
  B p <> CR -> B p <> LF ->
  uri_open buf (set_space_in_uri true r) (p + 1).
Proof.
  intros (u & v' & Hu & Hv & Hlt & Hsl & Hm & Hb & Hp) Hv' Hbl Hcr Hlf.
  assert (v' = v) as -> by congruence.
  exists u. cbn. split_and!; [done|lia|done|exact Hm| |].
  - apply no_breaks_snoc; [|done..]. apply (no_breaks_blanks _ _ _ v p Hb Hbl).
  - unfold path_ok in *. cbn. destruct (args_start r) as [a|].
    + destruct Hp as [? Hp]. split; [lia|]. intros (_ & _ & Hsp). done.
    + intros (_ & _ & Hsp). done.
Qed.

Lemma keeps_check_uri_http_09 r p ch :
  ch = B p -> state r = sw_check_uri_http_09 -> rl_inv buf p r ->
  keeps buf p (step_check_uri_http_09 r p ch).
Proof.
  intros -> Hst Hinv. unfold rl_inv in Hinv. rewrite Hst in Hinv.
  destruct Hinv as (Hu & Hr & Ha & v & Hv & Hbl).
  unfold step_check_uri_http_09, step_after_uri. branches.
  - unfold keeps, rl_inv. rewrite Hst. split_and!; [|done..|].
    + apply (uri_closed_extend r p); [done|lia].
    + exists v. split; [done|by apply blanks_snoc].
  - apply (tail_inv_crlf p (set_http_minor 9 r)). done.
  - apply (tail_inv_post p (set_http_minor 9 r)). done.
  - apply (tail_inv_next p (set_http_protocol (Some p) r)). done.
  - split_and!; [|done..|intros (_ & _ & Hsp); done].
    exact (reopen r p v Hu Hv Hbl ltac:(done) ltac:(done)).
Qed.

Lemma keeps_http_09 r p ch :
  ch = B p -> state r = sw_http_09 -> rl_inv buf p r -> keeps buf p (step_http_09 r p ch).
Proof.
  intros -> Hst Hinv. unfold rl_inv in Hinv. rewrite Hst in Hinv.
  destruct Hinv as (Hu & Hr & Ha & v & Hv & Hbl).
  unfold step_http_09, step_after_uri. branches.
  - unfold keeps, rl_inv. rewrite Hst. split_and!; [|done..|].
    + apply (uri_closed_extend r p); [done|lia].
    + exists v. split; [done|by apply blanks_snoc].
  - apply (tail_inv_crlf p (set_http_minor 9 r)). done.
  - apply (tail_inv_post p (set_http_minor 9 r)). done.
  - apply (tail_inv_next p (set_http_protocol (Some p) r)). done.
  - split_and!; [|done|intros _ (_ & _ & Hsp); done].
    exact (reopen r p v Hu Hv Hbl ltac:(done) ltac:(done)).
Qed.

(** The states of the version only look for the end of the line. *)
Lemma keeps_tail r p ch :
  ch = B p -> tail_inv p r ->
  match state r with
  | sw_host_http_09 | sw_http_H | sw_http_HT | sw_http_HTT | sw_http_HTTP
  | sw_first_major_digit | sw_major_digit | sw_first_minor_digit | sw_minor_digit
  | sw_spaces_after_digit => keeps buf p (rl_step buf r p ch)
  | _ => True
  end.
Proof.
  intros _ Hinv. pose proof (tail_inv_next _ _ Hinv) as Hnext. unfold rl_step.
  destruct (state r) eqn:Hst; try exact I;
    unfold step_host_http_09, step_letter, step_first_major_digit, step_major_digit,
      step_first_minor_digit, step_minor_digit, step_spaces_after_digit; branches.
  all: try exact Hnext.
  all: try (unfold keeps, rl_inv; cbn; rewrite Hst; exact Hnext).
  all: try exact (tail_inv_crlf p r Hinv).
  all: try exact (tail_inv_crlf p (set_http_minor 9 r) Hinv).
  all: try exact (tail_inv_post p r Hinv).
Qed.

Lemma keeps_almost_done r p ch :
  state r = sw_almost_done -> rl_inv buf p r -> keeps buf p (step_almost_done r p ch).
Proof.
  intros Hst Hinv. unfold rl_inv in Hinv. rewrite Hst in Hinv.
  unfold step_almost_done. branches. split; [done|apply Hinv].
Qed.

Lemma rl_step_keeps r p ch :
  0 <= p -> ch = B p -> rl_inv buf p r -> keeps buf p (rl_step buf r p ch).
Proof.
  intros Hp Hch Hinv. pose proof (keeps_tail r p ch Hch) as Htail.
  assert (Hhost := Hinv). unfold rl_inv in Hhost.
  unfold rl_step in *. destruct (state r) eqn:Hst.
  all: try (apply Htail; exact Hhost).
  - by apply keeps_start.
  - by apply keeps_method.
  - by apply keeps_spaces_before_uri.
  - by apply keeps_schema.
  - by apply keeps_schema_slash.
  - unfold step_schema_slash_slash. branches. apply (host_inv_next p r), Hhost.
  - by apply keeps_host_start.
  - by apply keeps_host.
  - by apply keeps_host_end.
  - by apply keeps_host_ip_literal.
  - by apply keeps_port.
  - by apply keeps_after_slash_in_uri.
  - by apply keeps_check_uri.
  - by apply keeps_check_uri_http_09.
  - by apply keeps_uri.
  - by apply keeps_http_09.
  - by apply keeps_almost_done.
Qed.
End Keeps.

(** * Parsing in pieces *)

Lemma str_at_local buf more m p s :
  0 <= p < Z.of_nat (length buf) -> m + Z.of_nat (length s) <= p + 1 ->
  str_at (buf ++ more) m s = str_at buf m s.
Proof.
  intros Hp Hm. unfold str_at. apply bool_decide_ext.
  rewrite (map_ext_in (fun i => byte_at (buf ++ more) (m + Z.of_nat i))
             (fun i => byte_at buf (m + Z.of_nat i))); [done|].
  intros i Hi%in_seq. apply byte_at_app_l; lia.
Qed.

Lemma method_of_local buf more m p old :
  0 <= p < Z.of_nat (length buf) -> method_of (buf ++ more) m p old = method_of buf m p old.
Proof.
  intros Hp. unfold method_of.
  repeat match goal with
  | |- (if ?b then _ else _) = (if ?b then _ else _) =>
    let E := fresh "E" in destruct b eqn:E; boolify; [|clear E]
  end; try done.
  all: rewrite ?byte_at_app_l by lia.
  all: rewrite !(str_at_local buf more m p) by (simpl; lia); done.
Qed.

#[global] Instance rl_step_machine : ByteMachine rl_step.
Proof.
  intros buf more r p ch Hp. unfold rl_step. destruct (state r); try done.
  unfold step_method. destruct (request_start _) as [m|]; [|done].
  rewrite method_of_local by done. done.
Qed.

(** The codes of the loop are those of the source, NGX_AGAIN is not one. *)
Lemma rl_step_code buf r p ch r' rc :
  rl_step buf r p ch = Return r' rc ->
  rc = NGX_HTTP_PARSE_INVALID_METHOD \/ rc = NGX_HTTP_PARSE_INVALID_REQUEST.
Proof.
  unfold rl_step. destruct (state r);
    unfold step_start, step_method, step_spaces_before_uri, step_schema, step_schema_slash,
      step_schema_slash_slash, step_host_start, step_host, step_host_end,
      step_host_ip_literal, step_port, step_host_http_09, step_after_slash_in_uri,
      step_check_uri, step_check_uri_http_09, step_uri, step_http_09, step_after_uri,
      step_letter, step_first_major_digit, step_major_digit, step_first_minor_digit,
      step_minor_digit, step_spaces_after_digit, step_almost_done, go, finish, invalid_request.
  all: intros H; repeat case_match; simplify_eq; auto.
Qed.

Lemma rl_done_code r p : snd (rl_done r p) <> NGX_AGAIN.
Proof. unfold rl_done. repeat case_match; cbn; done. Qed.

Lemma rl_done_request r p r' rc :
  rl_done r p = (r', rc) ->
  r' = set_state sw_start (set_http_version (http_major r * 1000 + http_minor r)
         (set_request_end (Some (default p (request_end r))) r)) /\
  rc = if (http_version r' =? 9) && negb (method r' =? NGX_HTTP_GET)
       then NGX_HTTP_PARSE_INVALID_09_METHOD else NGX_OK.
Proof.
  unfold rl_done. intros H.
  assert (Hr : (match request_end r with None => set_request_end (Some p) r | Some _ => r end) =
    set_request_end (Some (default p (request_end r))) r).
  { destruct r as [? ? ? [?|]]; done. }
  rewrite Hr in H. cbn in H. destruct (_ && _) eqn:E in H; simplify_eq; cbn; by rewrite E.
Qed.

Lemma rl_step_not_again buf r p ch r' rc :
  rl_step buf r p ch = Return r' rc -> rc <> NGX_AGAIN /\ rc <> NGX_OK.
Proof. intros [->| ->]%rl_step_code; done. Qed.

(** * A well-formed request line *)

(** The method names and their codes. *)
Definition methods : list (list Z * Z) :=
  [($"GET", NGX_HTTP_GET); ($"PUT", NGX_HTTP_PUT); ($"POST", NGX_HTTP_POST);
   ($"COPY", NGX_HTTP_COPY); ($"MOVE", NGX_HTTP_MOVE); ($"LOCK", NGX_HTTP_LOCK);
   ($"HEAD", NGX_HTTP_HEAD); ($"MKCOL", NGX_HTTP_MKCOL); ($"PATCH", NGX_HTTP_PATCH);
   ($"TRACE", NGX_HTTP_TRACE); ($"DELETE", NGX_HTTP_DELETE); ($"UNLOCK", NGX_HTTP_UNLOCK);
   ($"OPTIONS", NGX_HTTP_OPTIONS); ($"PROPFIND", NGX_HTTP_PROPFIND);
   ($"PROPPATCH", NGX_HTTP_PROPPATCH)].

(** The bytes of a path after its first slash: no dot or slash after a slash. *)
Fixpoint path_from (after_slash : bool) (l : list Z) : bool :=
  match l with
  | [] => true
  | c :: l =>
    if usual c then path_from false l
    else if after_slash then false
    else if c =? "/"%c then path_from true l
    else if c =? "."%c then path_from false l
    else false
  end.

(** Where the extension begins: after the last dot of the last segment. *)
Fixpoint ext_from (p : Z) (ext : option Z) (l : list Z) : option Z :=
  match l with
  | [] => ext
  | c :: l =>
    ext_from (p + 1)
      (if c =? "/"%c then None else if c =? "."%c then Some (p + 1) else ext) l
  end.

Definition query_char (c : Z) : bool :=
  usual c || existsb (Z.eqb c) ["/"%c; "."%c; "%"%c; "?"%c; "+"%c].

(** Method, path without its first slash, query, digits of the version. *)
Record line_parts := MkLine {
  l_method : list Z; l_path : list Z; l_query : option (list Z); l_major : Z; l_minor : Z }.

Definition line_text (t : line_parts) : list Z :=
  l_method t ++ [" "%c; "/"%c] ++ l_path t
    ++ (match l_query t with Some q => "?"%c :: q | None => [] end)
    ++ $" HTTP/" ++ [l_major t; "."%c; l_minor t; CR; LF].

Definition line_ok (t : line_parts) : bool :=
  existsb (fun mc => bool_decide (fst mc = l_method t)) methods
    && path_from true (l_path t)
    && (match l_query t with Some q => forallb query_char q | None => true end)
    && ("1"%c <=? l_major t) && (l_major t <=? "9"%c)
    && ("0"%c <=? l_minor t) && (l_minor t <=? "9"%c).

Definition code_of (m : list Z) : Z :=
  match List.find (fun mc => bool_decide (fst mc = m)) methods with
  | Some (_, code) => code
  | None => NGX_HTTP_UNKNOWN
  end.

(** The request the parser should leave. *)
Definition line_request (t : line_parts) : request :=
  let m := Z.of_nat (length (l_method t)) in
  let path_end := m + 2 + Z.of_nat (length (l_path t)) in
  let end_ := match l_query t with
              | Some q => path_end + 1 + Z.of_nat (length q)
              | None => path_end
              end in
  {| state := sw_start; method := code_of (l_method t);
     request_start := Some 0; request_end := Some (end_ + 9); method_end := Some (m - 1);
     schema_start := None; schema_end := None; host_start := None; host_end := None;
     port_end := None; uri_start := Some (m + 1); uri_end := Some end_;
     uri_ext := ext_from (m + 2) None (l_path t);
     args_start := option_map (fun _ => path_end + 1) (l_query t);
     http_protocol := Some (end_ + 1);
     http_major := l_major t - "0"%c; http_minor := l_minor t - "0"%c;
     http_version := (l_major t - "0"%c) * 1000 + (l_minor t - "0"%c);
     complex_uri := false; quoted_uri := false; plus_in_uri := false; space_in_uri := false |}.

(** The request after the method and the first slash. *)
Definition after_method (code m : Z) : request :=
  set_uri_start (Some (m + 1)) (set_method code (set_method_end (Some (m - 1))
    (set_request_start (Some 0) (set_state sw_after_slash_in_uri init_request)))).

Lemma run_method name rest :
  existsb (fun mc => bool_decide (fst mc = name)) methods = true ->
  run_loop rl_step (name ++ " "%c :: "/"%c :: rest) (name ++ [" "%c; "/"%c]) 0 init_request =
    Exhausted (after_method (code_of name) (Z.of_nat (length name)))
      (Z.of_nat (length name) + 2).
Proof.
  intros H. apply existsb_exists in H as ([n code] & Hin & Hn).
  apply bool_decide_eq_true in Hn. cbn in Hn. subst n.
  repeat (destruct Hin as [[= <- <-]|Hin]; [vm_compute; reflexivity|]). destruct Hin.
Qed.

(** The state in the path. *)
Definition path_state (after_slash : bool) : rl_state :=
  if after_slash then sw_after_slash_in_uri else sw_check_uri.

Definition ends_slash (after_slash : bool) (l : list Z) : bool :=
  match last l with Some c => c =? "/"%c | None => after_slash end.

Lemma ends_slash_cons b c l : ends_slash b (c :: l) = ends_slash (c =? "/"%c) l.
Proof.
  unfold ends_slash. destruct l as [|d l]; [done|]. rewrite last_cons_cons.
  destruct (last (d :: l)) eqn:E; [done|]. by apply last_None in E.
Qed.

Lemma set_state_same r st : state r = st -> set_state st r = r.
Proof. intros <-. destruct r. done. Qed.

Lemma run_path buf l b p r :
  path_from b l = true -> state r = path_state b ->
  (b = true -> uri_ext r = None) ->
  run_loop rl_step buf l p r =
    Exhausted (set_uri_ext (ext_from p (uri_ext r) l) (set_state (path_state (ends_slash b l)) r))
      (p + Z.of_nat (length l)).
Proof.
  revert b p r. induction l as [|c l IH]; intros b p r Hl Hst Hext.
  { cbn. rewrite Z.add_0_r. f_equal. destruct r. cbn in *. by rewrite Hst. }
  rewrite ends_slash_cons. cbn [path_from run_loop ext_from length] in *.
  replace (p + Z.of_nat (S (length l))) with (p + 1 + Z.of_nat (length l)) by lia.
  assert (Hstep : exists r', rl_step buf r p c = Go r' /\ state r' = path_state (c =? "/"%c) /\
    uri_ext r' = (if c =? "/"%c then None else if c =? "."%c then Some (p + 1) else uri_ext r) /\
    set_uri_ext None (set_state sw_start r') = set_uri_ext None (set_state sw_start r) /\
    path_from (c =? "/"%c) l = true).
  { unfold rl_step. rewrite Hst. destruct (usual c) eqn:Eu.
    - apply usual_false in Eu as Hc. destruct Hc as (_ & _ & _ & _ & _ & _ & _ & Hsl & Hdot & _).
      apply Z.eqb_neq in Hsl, Hdot. rewrite Hsl, Hdot. exists (set_state sw_check_uri r).
      destruct b; cbn; unfold step_after_slash_in_uri, step_check_uri; rewrite Eu; [done|].
      by rewrite set_state_same.
    - destruct b; [done|]. cbn in Hst. cbn. unfold step_check_uri. rewrite Eu.
      destruct (c =? "/"%c) eqn:Es; [by exists (set_state sw_after_slash_in_uri (set_uri_ext None r))|].
      destruct (c =? "."%c) eqn:Ed; [|done]. by exists (set_uri_ext (Some (p + 1)) r). }
  destruct Hstep as (r' & -> & Hst' & Hext' & Hsame & Hrest).
  rewrite (IH (c =? "/"%c)), Hext'; [|done..|].
  - f_equal. destruct r, r'. cbn in *. by simplify_eq.
  - intros Hc. rewrite Hext', Hc. done.
Qed.

Lemma run_query buf l p r :
  forallb query_char l = true -> state r = sw_uri ->
  run_loop rl_step buf l p r = Exhausted r (p + Z.of_nat (length l)).
Proof.
  revert p. induction l as [|c l IH]; intros p Hl Hst; [cbn; by rewrite Z.add_0_r|].
  cbn [forallb run_loop length] in *. apply andb_true_iff in Hl as [Hc Hl].
  replace (p + Z.of_nat (S (length l))) with (p + 1 + Z.of_nat (length l)) by lia.
  replace (rl_step buf r p c) with (@Go request rl_label r); [by apply IH|].
  unfold rl_step. rewrite Hst. unfold step_uri. unfold query_char in Hc.
  destruct (usual c); [done|]. cbn in Hc. boolify; try done; subst c; done.
Qed.

(** The version ends the line from any state that waits for it. *)
Lemma run_http buf p r :
  state r = sw_check_uri \/ state r = sw_after_slash_in_uri \/ state r = sw_uri ->
  run_loop rl_step buf $" HTTP/" p r =
    Exhausted (set_state sw_first_major_digit (set_http_protocol (Some (p + 1))
      (set_uri_end (Some p) r))) (p + 6).
Proof.
  intros Hst. destruct r. cbn in Hst. destruct Hst as [->|[->| ->]].
  all: cbv - [Z.add]; rewrite <- !Z.add_assoc; done.
Qed.

Lemma run_version buf mj mn p r :
  state r = sw_first_major_digit ->
  "1"%c <= mj <= "9"%c -> "0"%c <= mn <= "9"%c ->
  run_loop rl_step buf [mj; "."%c; mn; CR; LF] p r =
    Jumped (set_request_end (Some (p + 3)) (set_state sw_almost_done
      (set_http_minor (mn - "0"%c) (set_http_major (mj - "0"%c) r)))) (p + 4) done.
Proof.
  intros Hst Hmj Hmn.
  assert (E1 : (mj <? "1"%c) || (mj >? "9"%c) = false)
    by (rewrite Z.gtb_ltb; apply orb_false_iff; split; apply Z.ltb_ge; lia).
  assert (E2 : negb (digit mn) = false)
    by (unfold digit; rewrite Z.geb_leb; apply negb_false_iff, andb_true_iff; split;
        apply Z.leb_le; lia).
  cbn [run_loop]. unfold rl_step at 1. rewrite Hst. unfold step_first_major_digit. rewrite E1.
  unfold go at 1. unfold rl_step at 1. cbn [state set_state]. unfold step_major_digit.
  unfold rl_step at 1. cbn [state set_state go Z.eqb Pos.eqb]. unfold step_first_minor_digit.
  rewrite E2. destruct r. cbv - [Z.add Z.sub].
  replace (p + 1 + 1 + 1 + 1) with (p + 4) by lia. replace (p + 4 - 1) with (p + 3) by lia.
  done.
Qed.

(** The path and the query, up to the version. *)
Definition at_version (t : line_parts) : request :=
  let m := Z.of_nat (length (l_method t)) in
  let path_end := m + 2 + Z.of_nat (length (l_path t)) in
  let r := set_uri_ext (ext_from (m + 2) None (l_path t)) (after_method (code_of (l_method t)) m) in
  match l_query t with
  | Some q => set_args_start (Some (path_end + 1)) (set_state sw_uri r)
  | None => set_state (path_state (ends_slash true (l_path t))) r
  end.

Lemma run_target buf t :
  path_from true (l_path t) = true ->
  (match l_query t with Some q => forallb query_char q | None => true end) = true ->
  run_loop rl_step buf
    (l_path t ++ (match l_query t with Some q => "?"%c :: q | None => [] end))
    (Z.of_nat (length (l_method t)) + 2)
    (after_method (code_of (l_method t)) (Z.of_nat (length (l_method t)))) =
    Exhausted (at_version t) (default 0 (uri_end (line_request t))).
Proof.
  intros Hp Hq. rewrite run_loop_app, (run_path _ _ true) by done.
  unfold at_version. cbn [uri_end line_request default].
  destruct (l_query t) as [q|]; [|done].
  cbn [run_loop]. set (r1 := set_uri_ext _ (set_state _ _)).
  assert (Hst : rl_step buf r1 (Z.of_nat (length (l_method t)) + 2 + Z.of_nat (length (l_path t)))
    "?"%c = go sw_uri (set_args_start (Some (Z.of_nat (length (l_method t)) + 2 +
                         Z.of_nat (length (l_path t)) + 1)) r1))
    by (unfold rl_step, r1; destruct (ends_slash true (l_path t)); done).
  rewrite Hst. unfold go. rewrite run_query by done. done.
Qed.

Lemma run_line t :
  line_ok t = true ->
  run_loop rl_step (line_text t) (line_text t) 0 init_request =
    Jumped (set_http_version 0 (set_state sw_almost_done (line_request t)))
      (Z.of_nat (length (line_text t)) - 1) done.
Proof.
  unfold line_ok. intros H. boolify. unfold line_text at 2.
  change ([" "%c; "/"%c] ++ ?x) with ([" "%c; "/"%c] ++ x).
  rewrite (app_assoc (l_method t)), run_loop_app.
  unfold line_text at 1. cbn [app]. rewrite run_method by done.
  rewrite (app_assoc (l_path t)), run_loop_app, run_target by done.
  rewrite run_loop_app, run_http, run_version; [|done|lia|lia|].
  2: { unfold at_version. destruct (l_query t); cbn; [by auto|].
       destruct (ends_slash _ _); auto. }
  unfold at_version, line_request, line_text. cbn [uri_end default codes_of].
  destruct (l_query t) as [q|]; do 3 (cbn; rewrite ?length_app); cbn.
  all: f_equal; [rewrite <- !Z.add_assoc; done|lia].
Qed.

(** A request with a blank and the byte [x] inside the URI. *)
Definition spaced_text (a : list Z) (x : Z) (b : list Z) : list Z :=
  $"GET /" ++ a ++ [" "%c; x] ++ b ++ $" HTTP/" ++ ["1"%c; "."%c; "1"%c; CR; LF].

Definition slice (buf : list Z) (a b : Z) : list Z :=
  take (Z.to_nat (b - a)) (drop (Z.to_nat a) buf).

Lemma slice_spaced a x b :
  slice (spaced_text a x b) 4 (7 + Z.of_nat (length a + length b)) =
    "/"%c :: a ++ " "%c :: x :: b.
Proof.
  unfold slice.
  replace (drop (Z.to_nat 4) (spaced_text a x b)) with
    (("/"%c :: a ++ " "%c :: x :: b) ++ $" HTTP/" ++ ["1"%c; "."%c; "1"%c; CR; LF])
    by (unfold spaced_text; cbn; by rewrite <- app_assoc).
  apply take_app_length'. cbn. rewrite length_app. cbn. lia.
Qed.

Lemma run_spaced a x b :
  path_from true a = true -> path_from false b = true ->
  x <> " "%c -> x <> CR -> x <> LF -> x <> "H"%c ->
  exists r p, run_loop rl_step (spaced_text a x b) (spaced_text a x b) 0 init_request =
    Jumped r p done /\
    http_major r = 1 /\ http_minor r = 1 /\ method r = NGX_HTTP_GET /\
    complex_uri r = false /\ quoted_uri r = false /\ space_in_uri r = true /\
    uri_start r = Some 4 /\ uri_end r = Some (7 + Z.of_nat (length a + length b)).
Proof.
  intros Ha Hb Hsp Hcr Hlf HH. set (tail := a ++ [" "%c; x] ++ b ++ $" HTTP/" ++ ["1"%c; "."%c; "1"%c; CR; LF]).
  change (spaced_text a x b) with ($"GET" ++ " "%c :: "/"%c :: tail) at 1.
  change (spaced_text a x b) with (($"GET" ++ [" "%c; "/"%c]) ++ tail).
  rewrite run_loop_app, run_method by done. unfold tail at 2.
  rewrite run_loop_app, (run_path _ _ true) by done.
  set (p1 := _ + _ + Z.of_nat (length a)). set (r1 := set_uri_ext _ (set_state _ _)).
  rewrite run_loop_app. cbn [run_loop].
  assert (Hs1 : forall bf, rl_step bf r1 p1 " "%c =
    Go (set_state sw_check_uri_http_09 (set_uri_end (Some p1) r1)))
    by (intros bf; unfold rl_step, r1; destruct (ends_slash true a); done).
  rewrite Hs1. unfold rl_step at 1. cbn [state set_state].
  unfold step_check_uri_http_09, step_after_uri.
  apply Z.eqb_neq in Hsp, Hcr, Hlf, HH. rewrite Hsp, Hcr, Hlf, HH. unfold go.
  rewrite run_loop_app, (run_path _ _ false) by done.
  rewrite run_loop_app, run_http, run_version; [|done|lia|lia|].
  2: { cbn. destruct (ends_slash false b); auto. }
  eexists _, _. split; [reflexivity|]. cbn. split_and!; try done.
  f_equal. unfold p1. cbn. lia.
Qed.

(** The state of the request when a line is accepted. *)
Lemma accepted_run buf p r q :
  0 <= p <= Z.of_nat (length buf) ->
  ngx_http_parse_request_line init_request (MkBuf buf p) = (r, q, NGX_OK) ->
  exists l, request_end r = Some l /\ l < q <= Z.of_nat (length buf) /\ uri_closed buf r l.
Proof.
  intros Hp H. unfold ngx_http_parse_request_line, parse_with in H.
  assert (Hrun := run_loop_invariant rl_step (rl_inv buf) (rl_post buf) buf
    (drop (Z.to_nat p) buf) p init_request ltac:(lia) eq_refl ltac:(done)
    (fun p s ch Hp Hch Hinv => rl_step_keeps buf s p ch (proj1 Hp) Hch Hinv)).
  unfold run_buf in H. cbn [bytes pos] in H.
  destruct (run_loop _ _ _ _ _) as [s' q'|s' q' l|s' rc] eqn:E; [done| |].
  2: { apply (run_loop_codes rl_step (fun rc => rc <> NGX_OK)) in E; [by simplify_eq|].
       intros ? ? ? ? ? [? ?]%rl_step_not_again. done. }
  rewrite length_drop in Hrun. destruct Hrun as [Hpost Hq']. unfold rl_post in Hpost.
  destruct (rl_done s' q') as [r1 rc] eqn:Ed. apply rl_done_request in Ed as [Hr1 _].
  simplify_eq. exists (default q' (request_end s')).
  destruct (request_end s') as [l0|]; [destruct Hpost as [-> Hu]|].
  all: split_and!; [done|cbn; lia..|assumption].
Qed.

(** What the parser promises of a line it accepts. *)
Definition line_shape (buf : list Z) (r : request) (q : Z) : Prop :=
  exists m e u v l,
    request_start r = Some m /\ method_end r = Some e /\ uri_start r = Some u /\
    uri_end r = Some v /\ request_end r = Some l /\
    0 <= m <= e /\ e + 1 < u /\ u < v <= l /\ l < q <= Z.of_nat (length buf) /\
    (forall i, m <= i <= e -> method_char (byte_at buf i) = true) /\
    byte_at buf u = "/"%c /\
    no_breaks buf (space_in_uri r) u v /\
    path_ok buf r u v.

(** * Theorems *)

(** C33 A well-formed request line of any known method, a path without dot
    segments or double slashes, an optional query and a one-digit version is
    accepted: the method, the bounds of the URI, of its extension and of the
    query, the version and the end of the line are those of the text, and no
    flag asks for another look at the URI. *)
Theorem request_line_parsed t :
  line_ok t = true ->
  ngx_http_parse_request_line init_request (MkBuf (line_text t) 0) =
    (line_request t, Z.of_nat (length (line_text t)), NGX_OK).
Proof.
  intros Ht. unfold ngx_http_parse_request_line, parse_with, run_buf. cbn [bytes pos].
  rewrite drop_0, run_line by done. unfold rl_done. cbn.
  unfold line_ok in Ht. boolify.
  destruct ((l_major t - 48) * 1000 + (l_minor t - 48) =? 9) eqn:E; boolify; [lia|].
  cbn. rewrite Z.sub_add. done.
Qed.

Lemma request_line_parsed_witness :
  ngx_http_parse_request_line init_request
    (MkBuf (line_text (MkLine $"GET" $"vod/a.b/film.mp4" (Some $"start=10") "1"%c "1"%c)) 0) =
    (line_request (MkLine $"GET" $"vod/a.b/film.mp4" (Some $"start=10") "1"%c "1"%c),
      41, NGX_OK).
Proof.
  exact (request_line_parsed (MkLine $"GET" $"vod/a.b/film.mp4" (Some $"start=10") "1"%c "1"%c)
           eq_refl).
Defined.

(** C23 Every line the parser accepts has the shape its callers rely on: the
    method, the URI and the end of the line lie in this order inside the bytes
    read; the method consists of capitals and
    underscores; the URI begins with a slash and holds no line break, and
    unless the parser reported a space in it, no space and no NUL; and when the
    parser reports neither a complex nor a quoted URI nor a space, the path has
    no dot or slash after a slash and nothing quoted, so it may be used as it
    stands. *)
Theorem request_line_shape buf p r q :
  0 <= p <= Z.of_nat (length buf) ->
  ngx_http_parse_request_line init_request (MkBuf buf p) = (r, q, NGX_OK) ->
  line_shape buf r q.
Proof.
  intros Hp H. destruct (accepted_run buf p r q Hp H) as (ln & Hln & Hle & Hu).
  destruct Hu as (u & v & Hus & Hue & Huv & Hsl & (m & e & Hm & He & Hme & Heu & Hmc) & Hb & Hpath).
  exists m, e, u, v, ln. split_and!; done || lia.
Qed.

Definition sample_line : list Z := $"GET /a.b HTTP/1.0" ++ [CR; LF].

Definition sample_request : request :=
  fst (fst (ngx_http_parse_request_line init_request (MkBuf sample_line 0))).

Lemma request_line_shape_witness : line_shape sample_line sample_request 19.
Proof.
  apply (request_line_shape sample_line 0 sample_request 19); [cbn; lia|].
  vm_compute. reflexivity.
Defined.

(** C34 The line may arrive in any pieces: feeding the parser chunk by chunk,
    as the connection delivers them, leaves the request, the code and, when
    the line is complete or more is wanted, the position that one call on all
    the bytes leaves. *)
Theorem request_line_in_pieces chunks :
  whole_agrees (feed ngx_http_parse_request_line init_request [] 0 chunks)
    (ngx_http_parse_request_line init_request (MkBuf (concat chunks) 0)).
Proof.
  apply (feed_whole rl_step (fun r p _ => rl_done r p) (fun r p _ => rl_done_code r p)
           rl_step_not_again chunks [] 0 init_request); [cbn; lia|done].
Qed.

(** The byte after a blank inside a URI is not looked at: whatever it is,
    a NUL, a percent sign or the slash of a dot segment, the line is accepted
    as a URI that is neither complex nor quoted, with that byte inside it. *)
Theorem byte_after_space_unchecked a x b :
  path_from true a = true -> path_from false b = true ->
  x <> " "%c -> x <> CR -> x <> LF -> x <> "H"%c ->
  let '(r, _, rc) := ngx_http_parse_request_line init_request (MkBuf (spaced_text a x b) 0) in
  rc = NGX_OK /\ complex_uri r = false /\ quoted_uri r = false /\
  exists u v, uri_start r = Some u /\ uri_end r = Some v /\
    slice (spaced_text a x b) u v = "/"%c :: a ++ " "%c :: x :: b.
Proof.
  intros Ha Hb H1 H2 H3 H4.
  destruct (run_spaced a x b Ha Hb H1 H2 H3 H4) as
    (r & p & Hrun & Hmj & Hmn & Hm & Hc & Hq & _ & Hus & Hue).
  unfold ngx_http_parse_request_line, parse_with, run_buf. cbn [bytes pos].
  rewrite drop_0, Hrun. destruct (rl_done r p) as [r' rc] eqn:Ed.
  apply rl_done_request in Ed as [-> ->]. cbn. rewrite Hmj, Hmn.
  split_and!; [done..|]. eexists _, _. split_and!; [done..|].
  apply slice_spaced.
Qed.

Lemma byte_after_space_unchecked_witness :
  let '(r, _, rc) := ngx_http_parse_request_line init_request
    (MkBuf ($"GET /a /../secret HTTP/1.1" ++ [CR; LF]) 0) in
  rc = NGX_OK /\ complex_uri r = false /\ quoted_uri r = false /\
  exists u v, uri_start r = Some u /\ uri_end r = Some v /\
    slice ($"GET /a /../secret HTTP/1.1" ++ [CR; LF]) u v = $"/a /../secret".
Proof.
  exact (byte_after_space_unchecked $"a" "/"%c $"../secret" eq_refl eq_refl
           ltac:(discriminate) ltac:(discriminate) ltac:(discriminate) ltac:(discriminate)).
Defined.
