(* ===== verification/NgxComplexUri.v ===== *)
(** Normalising a request URI: [ngx_http_parse_complex_uri] and
    [ngx_http_parse_unsafe_uri] of src/http/ngx_http_parse.c, and the use
    [ngx_http_process_request_line] of src/http/ngx_http_request.c makes of
    the first when the request-line parser reports a complex or quoted URI.

    The function rewrites the bytes between r->uri_start and r->uri_end into
    r->uri.data, with [u] the next byte to write; the bytes written are a
    stack here, last byte on top, since the code only appends to them and
    walks back over them. *)

From S2P Require Import Prelude NgxMachine NgxRequestLine.

Module ComplexUri.

Inductive cu_state := cu_usual | cu_slash | cu_dot | cu_dot_dot | cu_quoted | cu_quoted_second.

#[global] Instance cu_state_eq_dec : EqDecision cu_state.
Proof. solve_decision. Defined.

(** The locals and the fields of the request the function writes; [written]
    are the bytes from r->uri.data to [u], the last one first, [uri_ext] and
    [ext] count bytes of them. *)
Record scan := MkScan {
  cstate : cu_state; quoted_state : cu_state; decoded : Z;
  written : list Z; ext : option Z; args : option Z;
  plus : bool; quoted : bool }.

Definition scan_eta (s : scan) : scan :=
  MkScan (cstate s) (quoted_state s) (decoded s) (written s) (ext s) (args s) (plus s) (quoted s).

Definition set_cstate v (s : scan) : scan := ltac:(record_set scan_eta cstate v s).
Definition set_quoted_state v (s : scan) : scan := ltac:(record_set scan_eta quoted_state v s).
Definition set_decoded v (s : scan) : scan := ltac:(record_set scan_eta decoded v s).
Definition set_written v (s : scan) : scan := ltac:(record_set scan_eta written v s).
Definition set_ext v (s : scan) : scan := ltac:(record_set scan_eta ext v s).
Definition set_args v (s : scan) : scan := ltac:(record_set scan_eta args v s).
Definition set_plus v (s : scan) : scan := ltac:(record_set scan_eta plus v s).
Definition set_quoted v (s : scan) : scan := ltac:(record_set scan_eta quoted v s).

Inductive cu_label := cu_done | cu_args.

Definition cu_res : Type := step_result scan cu_label.

(** [*u++ = ch]. *)
Definition put (ch : Z) (s : scan) : scan := set_written (ch :: written s) s.

(** [u - r->uri.data]. *)
Definition u_pos (s : scan) : Z := Z.of_nat (length (written s)).

Definition invalid (s : scan) : cu_res := Return s NGX_HTTP_PARSE_INVALID_REQUEST.

(** What the states of the path share: '%', '?', '#' and '+', and any other
    byte, written in the state [next]. *)
Definition common (next : cu_state) (s : scan) (p ch : Z) : cu_res :=
  if ch =? "%"%c then Go (set_cstate cu_quoted (set_quoted_state (cstate s) s))
  else if ch =? "?"%c then Goto (set_args (Some (p + 1)) s) cu_args
  else if ch =? "#"%c then Goto s cu_done
  else if ch =? "+"%c then Go (put ch (set_cstate next (set_plus true s)))
  else Go (put ch (set_cstate next s)).

Definition step_usual (s : scan) (p ch : Z) : cu_res :=
  if usual ch then Go (put ch s)
  else if ch =? "/"%c then Go (put ch (set_cstate cu_slash (set_ext None s)))
  else if ch =? "."%c then Go (put ch (set_ext (Some (u_pos s + 1)) s))
  else common cu_usual s p ch.

Definition step_slash (merge_slashes : bool) (s : scan) (p ch : Z) : cu_res :=
  if usual ch then Go (put ch (set_cstate cu_usual s))
  else if ch =? "/"%c then Go (if merge_slashes then s else put ch s)
  else if ch =? "."%c then Go (put ch (set_cstate cu_dot s))
  else common cu_usual s p ch.

Definition step_dot (s : scan) (p ch : Z) : cu_res :=
  if usual ch then Go (put ch (set_cstate cu_usual s))
  else if ch =? "/"%c then Go (set_written (tail (written s)) (set_cstate cu_slash s))
  else if ch =? "."%c then Go (put ch (set_cstate cu_dot_dot s))
  else common cu_usual s p ch.

(** The loop after [u -= 5]: back to the slash before the parent segment,
    keeping it; below r->uri.data there is none. *)
Fixpoint back_to_slash (below : list Z) : option (list Z) :=
  match below with
  | [] => None
  | c :: rest => if c =? "/"%c then Some (c :: rest) else back_to_slash rest
  end.

Definition step_dot_dot (s : scan) (p ch : Z) : cu_res :=
  if usual ch then Go (put ch (set_cstate cu_usual s))
  else if ch =? "/"%c then
    match back_to_slash (drop 4 (written s)) with
    | Some w => Go (set_written w (set_cstate cu_slash s))
    | None => invalid s
    end
  else common cu_usual s p ch.

(** An iteration in a state of the path. *)
Definition step_path (merge_slashes : bool) (st : cu_state) (s : scan) (p ch : Z) : cu_res :=
  match st with
  | cu_usual => step_usual s p ch
  | cu_slash => step_slash merge_slashes s p ch
  | cu_dot => step_dot s p ch
  | cu_dot_dot => step_dot_dot s p ch
  | cu_quoted | cu_quoted_second => invalid s
  end.

(** A hexadecimal digit; [c = (u_char) (ch | 0x20)]. *)
Definition letter_digit (ch : Z) : option Z :=
  let c := Z.lor ch 0x20 in
  if (c >=? "a"%c) && (c <=? "f"%c) then Some (c - "a"%c + 10) else None.

Definition step_quoted (s : scan) (p ch : Z) : cu_res :=
  let s := set_quoted true s in
  if digit ch then Go (set_cstate cu_quoted_second (set_decoded (ch - "0"%c) s))
  else match letter_digit ch with
       | Some d => Go (set_cstate cu_quoted_second (set_decoded d s))
       | None => invalid s
       end.

(** [state = quoted_state; break;] without reading another byte: the next
    iteration is that of the path state on the decoded byte. *)
Definition again (merge_slashes : bool) (s : scan) (p ch : Z) : cu_res :=
  step_path merge_slashes (quoted_state s) (set_cstate (quoted_state s) s) p ch.

Definition step_quoted_second (merge_slashes : bool) (s : scan) (p ch : Z) : cu_res :=
  if digit ch then
    let ch := wrapU 8 (Z.shiftl (decoded s) 4 + ch - "0"%c) in
    if (ch =? "%"%c) || (ch =? "#"%c) then Go (put ch (set_cstate cu_usual s))
    else if ch =? 0 then invalid s
    else again merge_slashes s p ch
  else match letter_digit ch with
       | Some d =>
         let ch := wrapU 8 (Z.shiftl (decoded s) 4 + d) in
         if ch =? "?"%c then Go (put ch (set_cstate cu_usual s))
         else again merge_slashes (if ch =? "+"%c then set_plus true s else s) p ch
       | None => invalid s
       end.

Definition cu_step (merge_slashes : bool) : body scan cu_label := fun _ s p ch =>
  match cstate s with
  | cu_quoted => step_quoted s p ch
  | cu_quoted_second => step_quoted_second merge_slashes s p ch
  | st => step_path merge_slashes st s p ch
  end.

(** [state = sw_usual; u = r->uri.data; r->uri_ext = NULL; r->args_start =
    NULL]; the flags are those of the request. *)
Definition scan_start (plus quoted : bool) : scan :=
  MkScan cu_usual cu_usual 0 [] None None plus quoted.

(** The result: r->uri, r->exten, r->args when a fragment ends the query, and
    r->args_start otherwise. *)
Record normalized := MkNormalized {
  uri : list Z; exten : option (list Z); args_bounds : option (Z * Z);
  rest_args : option Z; n_plus : bool; n_quoted : bool }.

(** The loop at the label args: the position of '#' in the query, if any. *)
Fixpoint find_hash (p : Z) (l : list Z) : option Z :=
  match l with
  | [] => None
  | c :: l => if c =? "#"%c then Some p else find_hash (p + 1) l
  end.

(** The code at both labels; [query] are the bytes between [p] and r->uri_end
    at the label args. *)
Definition finish_uri (s : scan) (query : list Z) : normalized :=
  let path := rev (written s) in
  let exten := option_map (fun e => drop (Z.to_nat e) path) (ext s) in
  match args s with
  | Some a =>
    match find_hash a query with
    | Some h => MkNormalized path exten (Some (a, h - a)) None (plus s) (quoted s)
    | None => MkNormalized path exten None (Some a) (plus s) (quoted s)
    end
  | None => MkNormalized path exten None None (plus s) (quoted s)
  end.

(** The URI is [target], its first byte at [uri_start]. *)
Definition ngx_http_parse_complex_uri (merge_slashes plus quoted : bool) (uri_start : Z)
    (target : list Z) : normalized + Z :=
  match run_loop (cu_step merge_slashes) target target uri_start (scan_start plus quoted) with
  | Exhausted s _ | Jumped s _ cu_done => inl (finish_uri s [])
  | Jumped s p cu_args => inl (finish_uri s (drop (Z.to_nat (p + 1 - uri_start)) target))
  | Returned _ rc => inr rc
  end.

(** [ngx_path_separator]. *)
Definition path_separator (c : Z) : bool := c =? "/"%c.

(** The loop of [ngx_http_parse_unsafe_uri] over the [len] bytes [l]; [after]
    is the byte that follows the URI in memory. *)
Fixpoint unsafe_loop (after : Z) (l : list Z) : option (option (list Z)) :=
  match l with
  | [] => Some None
  | ch :: rest =>
    if usual ch then unsafe_loop after rest
    else if ch =? "?"%c then Some (Some rest)
    else if ch =? 0 then None
    else if path_separator ch && (2 <? Z.of_nat (length l))
            && (nth 0 rest after =? "."%c) && (nth 1 rest after =? "."%c)
            && path_separator (nth 2 rest after)
    then None
    else unsafe_loop after rest
  end.

(** [Some (uri, args)] is NGX_OK with the two strings, [None] is NGX_ERROR. *)
Definition ngx_http_parse_unsafe_uri (after : Z) (l : list Z) : option (list Z * option (list Z)) :=
  match l with
  | [] => None
  | c :: _ =>
    if c =? "?"%c then None
    else if (c =? "."%c) && (Z.of_nat (length l) =? 3) && (nth 1 l after =? "."%c)
            && path_separator (nth 2 l after)
    then None
    else match unsafe_loop after l with
         | None => None
         | Some None => Some (l, None)
         | Some (Some args) => Some (take (length l - length args - 1) l, Some args)
         end
  end.

End ComplexUri.
Export ComplexUri.

(** * Segments of the bytes written *)

Definition avoids (pat l : list Z) : Prop := forall a b, l <> a ++ pat ++ b.

Lemma avoids_cons pat c l :
  pat <> [] -> avoids pat l -> (forall b, c :: l <> pat ++ b) -> avoids pat (c :: l).
Proof.
  intros Hp Hl Hc a b H. destruct a as [|x a]; [by apply (Hc b)|].
  cbn in H. injection H as _ H. by apply (Hl a b).
Qed.

Lemma avoids_suffix pat a l : avoids pat (a ++ l) -> avoids pat l.
Proof. intros H x y ->. apply (H (a ++ x) y). by rewrite <- !app_assoc. Qed.

Lemma avoids_tail pat l : avoids pat l -> avoids pat (tail l).
Proof. destruct l as [|c l]; [done|]. intros H. by apply (avoids_suffix pat [c]). Qed.

Lemma avoids_rev pat l : rev pat = pat -> avoids pat l -> avoids pat (rev l).
Proof.
  intros Hpat H a b Hl. apply (H (rev b) (rev a)).
  rewrite <- (rev_involutive l), Hl, !rev_app_distr, Hpat. by rewrite app_assoc.
Qed.

(** The bytes after the last slash, last byte first. *)
Fixpoint top_seg (w : list Z) : list Z :=
  match w with
  | [] => []
  | c :: w => if c =? "/"%c then [] else c :: top_seg w
  end.

(** The last segment is not empty and neither "." nor "..". *)
Definition solid (w : list Z) : Prop :=
  (3 <= length (top_seg w))%nat \/ Exists (fun c => c <> "."%c) (top_seg w).

Lemma solid_cons c w : c <> "/"%c -> solid w -> solid (c :: w).
Proof.
  intros Hc [H|H]; unfold solid; cbn; apply Z.eqb_neq in Hc; rewrite Hc.
  - left. cbn. lia.
  - right. by constructor.
Qed.

Lemma solid_new c w : c <> "/"%c -> c <> "."%c -> solid (c :: w).
Proof.
  intros Hc Hd. right. cbn. apply Z.eqb_neq in Hc. rewrite Hc. by constructor.
Qed.

Lemma solid_dots w : solid ("."%c :: "."%c :: "."%c :: w).
Proof. left. cbn. lia. Qed.

Lemma solid_no_dots w b :
  solid w -> w <> "/"%c :: b /\ w <> "."%c :: "/"%c :: b /\ w <> "."%c :: "."%c :: "/"%c :: b.
Proof.
  intros H. split_and!; intros ->; destruct H as [H|H]; cbn in H; try lia.
  all: repeat (apply Exists_cons in H as [H|H]; [done|]); by apply Exists_nil in H.
Qed.

(** No segment that is followed by a slash is "." or "..", and none is empty
    when slashes are merged. *)
Record tidy (merge : bool) (w : list Z) : Prop := Tidy {
  tidy_dot : avoids $"/./" w;
  tidy_dot_dot : avoids $"/../" w;
  tidy_slashes : merge = true -> avoids $"//" w;
  tidy_root : last w = Some "/"%c }.

Lemma last_cons_some {A} (x y : A) l : last l = Some y -> last (x :: l) = Some y.
Proof. intros H. rewrite last_cons, H. done. Qed.

Lemma tidy_cons merge c w : c <> "/"%c -> tidy merge w -> tidy merge (c :: w).
Proof.
  intros Hc [H1 H2 H3 H4]. split; [..|by apply last_cons_some].
  all: intros; apply avoids_cons; auto; intros ? [=]; congruence.
Qed.

(** A slash may follow a segment that is none of these. *)
Lemma tidy_slash merge w : solid w -> tidy merge w -> tidy merge ("/"%c :: w).
Proof.
  intros Hs [H1 H2 H3 H4]. split; [..|by apply last_cons_some].
  all: intros; apply avoids_cons; auto; intros b [= Heq].
  all: destruct (solid_no_dots w b Hs) as (? & ? & ?); auto.
Qed.

Lemma tidy_suffix merge a w : tidy merge (a ++ w) -> w <> [] -> tidy merge w.
Proof.
  intros [H1 H2 H3 H4] Hw. split; eauto using avoids_suffix.
  by rewrite last_app_Some_2 in H4 || (rewrite last_app in H4; destruct (last w) eqn:E; [done|];
    by apply last_None in E).
Qed.

(** Without merging a second slash is kept. *)
Lemma tidy_slash_slash w : tidy false ("/"%c :: w) -> tidy false ("/"%c :: "/"%c :: w).
Proof.
  intros [H1 H2 H3 H4]. split; [..|by apply last_cons_some].
  all: intros; try done; apply avoids_cons; auto; intros b [=].
Qed.

Lemma back_to_slash_suffix l w :
  back_to_slash l = Some w -> (exists a, l = a ++ w) /\ exists w', w = "/"%c :: w'.
Proof.
  induction l as [|c l IH]; cbn; [done|]. destruct (c =? "/"%c) eqn:E; boolify; intros H.
  - simplify_eq. split; [by exists []|by eexists].
  - destruct (IH H) as [[a ->] ?]. split; [by exists (c :: a)|done].
Qed.

Section Inv.
Context (merge : bool).

(** What holds of the bytes written in a state of the path. *)
Definition path_inv (st : cu_state) (w : list Z) (e : option Z) : Prop :=
  tidy merge w /\
  match st with
  | cu_usual => solid w /\ (forall x, e = Some x -> 0 <= x <= Z.of_nat (length w))
  | cu_slash => e = None /\ exists w', w = "/"%c :: w'
  | cu_dot => e = None /\ exists w', w = "."%c :: "/"%c :: w'
  | cu_dot_dot => e = None /\ exists w', w = "."%c :: "."%c :: "/"%c :: w'
  | cu_quoted | cu_quoted_second => False
  end.

Definition scan_inv (s : scan) : Prop :=
  match cstate s with
  | cu_quoted | cu_quoted_second => path_inv (quoted_state s) (written s) (ext s)
  | st => path_inv st (written s) (ext s)
  end.

(** The room used grows by at most the byte read. *)
Definition step_ok (s : scan) (res : cu_res) : Prop :=
  match res with
  | Go s' => scan_inv s' /\ (length (written s') <= S (length (written s)))%nat
  | Goto s' _ => scan_inv s' /\ written s' = written s
  | Return _ rc => rc = NGX_HTTP_PARSE_INVALID_REQUEST
  end.

Lemma path_inv_put ch st w e :
  path_inv st w e -> ch <> "/"%c -> (ch = "."%c -> st = cu_usual \/ st = cu_dot_dot) ->
  path_inv cu_usual (ch :: w) e.
Proof.
  intros [Ht Hst] Hsl Hdot. split; [by apply tidy_cons|].
  destruct (decide (ch = "."%c)) as [->|Hd].
  - destruct (Hdot eq_refl) as [->| ->].
    + destruct Hst as [Hs He]. split; [by apply solid_cons|].
      intros x Hx. apply He in Hx. cbn. lia.
    + destruct Hst as [-> [w' ->]]. split; [apply solid_dots|done].
  - split; [by apply solid_new|]. intros x Hx. destruct st; try done.
    + destruct Hst as [_ He]. apply He in Hx. cbn. lia.
    + destruct Hst as [-> _]. done.
    + destruct Hst as [-> _]. done.
    + destruct Hst as [-> _]. done.
Qed.

Lemma common_ok s p ch :
  path_inv (cstate s) (written s) (ext s) -> ch <> "/"%c ->
  (ch = "."%c -> cstate s = cu_dot_dot) -> step_ok s (common cu_usual s p ch).
Proof.
  intros Hi Hsl Hdot. unfold common.
  assert (Hput : path_inv cu_usual (ch :: written s) (ext s))
    by (apply (path_inv_put _ (cstate s)); auto).
  assert (Hs : scan_inv s).
  { unfold scan_inv. destruct (cstate s) eqn:E; try done; by destruct Hi. }
  repeat (let E := fresh "E" in case_if E); cbn; (split; [|done || lia]); done.
Qed.

Lemma usual_ok s ch :
  path_inv (cstate s) (written s) (ext s) -> usual ch = true ->
  step_ok s (Go (put ch (set_cstate cu_usual s))).
Proof.
  intros Hi (_ & _ & _ & _ & _ & _ & _ & Hsl & Hd & _)%usual_false. cbn. split; [|lia].
  by apply (path_inv_put _ (cstate s)).
Qed.

Lemma step_usual_ok s p ch :
  cstate s = cu_usual -> path_inv cu_usual (written s) (ext s) ->
  step_ok s (step_usual s p ch).
Proof.
  intros Hst Hi. unfold step_usual.
  destruct (usual ch) eqn:Eu.
  { replace (put ch s) with (put ch (set_cstate cu_usual s))
      by (destruct s; cbn in *; by subst).
    apply usual_ok; by rewrite ?Hst. }
  repeat (let E := fresh "E" in case_if E); boolify; subst; [| |apply common_ok; rewrite ?Hst; done].
  - destruct Hi as [Ht [Hs _]]. cbn. split; [|lia]. split; [by apply tidy_slash|].
    split; [done|by eexists].
  - destruct Hi as [Ht [Hs _]]. cbn. split; [|lia]. unfold scan_inv. cbn. rewrite Hst.
    split; [by apply tidy_cons|]. split; [by apply solid_cons|].
    intros x [= <-]. unfold u_pos. cbn. lia.
Qed.

Lemma step_slash_ok s p ch :
  cstate s = cu_slash -> path_inv cu_slash (written s) (ext s) ->
  step_ok s (step_slash merge s p ch).
Proof.
  intros Hst Hi. unfold step_slash.
  destruct (usual ch) eqn:Eu; [apply usual_ok; by rewrite ?Hst|].
  destruct (ch =? "/"%c) eqn:E; boolify; [subst|].
  { destruct (bool_decide (merge = true)) eqn:Em.
    - apply bool_decide_eq_true in Em. rewrite Em. cbn. split; [|lia].
      unfold scan_inv. rewrite Hst. done.
    - apply bool_decide_eq_false, not_true_is_false in Em. rewrite Em. cbn.
      split; [|lia]. destruct Hi as [Ht [He [w' Hw]]]. unfold scan_inv. cbn.
      rewrite Hst, Hw in *. split; [|by eauto]. rewrite Em in *. by apply tidy_slash_slash. }
  destruct (ch =? "."%c) eqn:E'; boolify; [subst|].
  { destruct Hi as [Ht [He [w' Hw]]]. cbn. split; [|lia]. split; [by apply tidy_cons|].
    cbn. rewrite Hw. eauto. }
  apply common_ok; rewrite ?Hst; done.
Qed.

Lemma step_dot_ok s p ch :
  cstate s = cu_dot -> path_inv cu_dot (written s) (ext s) -> step_ok s (step_dot s p ch).
Proof.
  intros Hst Hi. unfold step_dot.
  destruct (usual ch) eqn:Eu; [apply usual_ok; by rewrite ?Hst|].
  destruct (ch =? "/"%c) eqn:E; boolify; [subst|].
  { destruct Hi as [Ht [He [w' Hw]]]. cbn. rewrite Hw in *. cbn. split; [|lia].
    split; [|by eauto]. by apply (tidy_suffix merge ["."%c]). }
  destruct (ch =? "."%c) eqn:E'; boolify; [subst|].
  { destruct Hi as [Ht [He [w' Hw]]]. cbn. split; [|lia]. split; [by apply tidy_cons|].
    cbn. rewrite Hw. eauto. }
  apply common_ok; rewrite ?Hst; done.
Qed.

Lemma step_dot_dot_ok s p ch :
  cstate s = cu_dot_dot -> path_inv cu_dot_dot (written s) (ext s) ->
  step_ok s (step_dot_dot s p ch).
Proof.
  intros Hst Hi. unfold step_dot_dot.
  destruct (usual ch) eqn:Eu; [apply usual_ok; by rewrite ?Hst|].
  destruct (ch =? "/"%c) eqn:E; boolify; [subst|by apply common_ok; rewrite ?Hst].
  destruct Hi as [Ht [He _]].
  destruct (back_to_slash (drop 4 (written s))) as [w|] eqn:Eb; [|done].
  apply back_to_slash_suffix in Eb as [[a Ha] [w' ->]].
  assert (Hw : written s = (take 4 (written s) ++ a) ++ "/"%c :: w')
    by (rewrite <- app_assoc, <- Ha, take_drop; done).
  cbn. split; [|rewrite Hw, !length_app; cbn; lia].
  split; [|by eauto]. rewrite Hw in Ht. by apply tidy_suffix in Ht.
Qed.

Lemma step_path_ok st s p ch :
  cstate s = st -> path_inv st (written s) (ext s) ->
  step_ok s (step_path merge st s p ch).
Proof.
  intros Hst Hi. destruct st; cbn; auto using step_usual_ok, step_slash_ok, step_dot_ok,
    step_dot_dot_ok.
Qed.

Lemma again_ok s p ch :
  path_inv (quoted_state s) (written s) (ext s) -> step_ok s (again merge s p ch).
Proof.
  intros Hi. apply (step_path_ok _ (set_cstate (quoted_state s) s) p ch); done.
Qed.

Lemma quoted_put_ok s ch :
  path_inv (quoted_state s) (written s) (ext s) -> ch <> "/"%c -> ch <> "."%c ->
  step_ok s (Go (put ch (set_cstate cu_usual s))).
Proof.
  intros Hi Hsl Hd. cbn. split; [|lia]. by apply (path_inv_put _ (quoted_state s)).
Qed.

Lemma cu_step_ok buf s p ch : scan_inv s -> step_ok s (cu_step merge buf s p ch).
Proof.
  intros Hi. unfold cu_step, scan_inv in *. destruct (cstate s) eqn:Hst.
  1-4: by apply step_path_ok.
  - unfold step_quoted. repeat case_match; cbn; auto.
  - unfold step_quoted_second. repeat case_match; boolify; try done.
    all: try (apply quoted_put_ok; [done|congruence..]).
    all: by apply again_ok || (apply (again_ok (set_plus true s)); done).
Qed.
End Inv.

Lemma cu_run_ok merge buf l p s :
  scan_inv merge s ->
  match run_loop (cu_step merge) buf l p s with
  | Exhausted s' _ | Jumped s' _ _ =>
    scan_inv merge s' /\ (length (written s') <= length (written s) + length l)%nat
  | Returned _ rc => rc = NGX_HTTP_PARSE_INVALID_REQUEST
  end.
Proof.
  revert p s. induction l as [|ch l IH]; intros p s Hi; cbn [run_loop length].
  { split; [done|lia]. }
  pose proof (cu_step_ok merge buf s p ch Hi) as Hs. unfold step_ok in Hs.
  destruct (cu_step merge buf s p ch) as [s'|s' lb|s' rc]; [|destruct Hs as [? ->]; split; [done|lia]|done].
  destruct Hs as [Hi' Hl]. specialize (IH (p + 1) s' Hi').
  destruct (run_loop (cu_step merge) buf l (p + 1) s'); [| |done].
  all: destruct IH; split; [done|lia].
Qed.

(** The last state is one of the path, or its bytes are those of one. *)
Lemma scan_inv_tidy merge s :
  scan_inv merge s ->
  tidy merge (written s) /\ (forall x, ext s = Some x -> 0 <= x <= Z.of_nat (length (written s))).
Proof.
  assert (Hp : forall st w e, path_inv merge st w e ->
    tidy merge w /\ (forall x, e = Some x -> 0 <= x <= Z.of_nat (length w))).
  { intros st w e [Ht Hst]. split; [done|].
    destruct st; [apply Hst|destruct Hst as [-> _]; done..|done|done]. }
  unfold scan_inv. intros H. destruct (cstate s); by apply Hp in H.
Qed.

(** The first slash. *)
Lemma cu_first merge buf rest p pl qu :
  run_loop (cu_step merge) buf ("/"%c :: rest) p (scan_start pl qu) =
    run_loop (cu_step merge) buf rest (p + 1)
      (MkScan cu_slash cu_usual 0 ["/"%c] None None pl qu).
Proof. done. Qed.

Lemma slash_inv merge st d pl qu : scan_inv merge (MkScan cu_slash st d ["/"%c] None None pl qu).
Proof.
  split; [|by eauto].
  split; [| |intros _|done]; intros a b H; apply (f_equal length) in H;
    rewrite !length_app in H; cbn in H; lia.
Qed.

(** * What the path means *)

(** The path with these segments. *)
Definition text (segs : list (list Z)) : list Z := concat (map (fun s => "/"%c :: s) segs).

(** The segments with "." and ".." followed by a slash resolved, nearest
    first; empty ones go with the dots.  The last segment is kept as it is. *)
Fixpoint resolve (stk segs : list (list Z)) : option (list (list Z)) :=
  match segs with
  | [] => Some stk
  | [s] => Some (s :: stk)
  | s :: segs =>
    if bool_decide (s = []) || bool_decide (s = $".") then resolve stk segs
    else if bool_decide (s = $"..") then
      match stk with
      | [] => None
      | _ :: stk => resolve stk segs
      end
    else resolve (s :: stk) segs
  end.

Lemma resolve_cons stk s segs :
  segs <> [] ->
  resolve stk (s :: segs) =
    if bool_decide (s = []) || bool_decide (s = $".") then resolve stk segs
    else if bool_decide (s = $"..") then
      match stk with
      | [] => None
      | _ :: stk => resolve stk segs
      end
    else resolve (s :: stk) segs.
Proof. by destruct segs. Qed.

Definition seg_char (c : Z) : bool := usual c || (c =? "."%c).

(** The bytes written for the segments of a stack, the last byte first. *)
Fixpoint written_for (stk : list (list Z)) : list Z :=
  match stk with
  | [] => ["/"%c]
  | s :: stk => "/"%c :: rev s ++ written_for stk
  end.

Lemma text_app a b : text (a ++ b) = text a ++ text b.
Proof. unfold text. by rewrite map_app, concat_app. Qed.

Lemma rev_written_for stk s : rev (rev s ++ written_for stk) = text (rev (s :: stk)).
Proof.
  revert s. induction stk as [|s' stk IH]; intros s; cbn [written_for].
  - rewrite rev_app_distr, rev_involutive. cbn. by rewrite app_nil_r.
  - rewrite rev_app_distr, rev_involutive. cbn [rev]. rewrite IH, <- app_assoc.
    cbn [rev app]. rewrite (text_app _ [s]). cbn. by rewrite app_nil_r.
Qed.

(** The scan is in state [st] with the bytes [w] written. *)
Definition sits (st : cu_state) (w : list Z) (s : scan) : Prop :=
  cstate s = st /\ written s = w.

(** An ordinary segment. *)
Definition ordinary (seg : list Z) : Prop :=
  Forall (fun c => seg_char c = true) seg /\ seg <> [] /\ seg <> $"." /\ seg <> $"..".

Lemma seg_char_cases c : seg_char c = true -> usual c = true /\ c <> "/"%c \/ c = "."%c.
Proof.
  unfold seg_char. intros H. boolify; [left|by right].
  split; [done|]. apply usual_false in H. tauto.
Qed.

Section Segments.
Context (buf : list Z).

(** The loop over [l] leads from [s] to a state with [P]. *)
Definition leads (l : list Z) (s : scan) (P : scan -> Prop) : Prop :=
  forall p, exists s' q, run_loop (cu_step true) buf l p s = Exhausted s' q /\ P s'.

Lemma leads_nil s (P : scan -> Prop) : P s -> leads [] s P.
Proof. intros H p. by exists s, p. Qed.

Lemma leads_app l k s (P Q : scan -> Prop) :
  leads l s P -> (forall s', P s' -> leads k s' Q) -> leads (l ++ k) s Q.
Proof.
  intros Hl Hk p. rewrite run_loop_app. destruct (Hl p) as (s' & q & -> & HP).
  by apply Hk.
Qed.

Lemma leads_step c s s' (P : scan -> Prop) :
  (forall p, cu_step true buf s p c = Go s') -> P s' -> leads [c] s P.
Proof. intros Hs HP p. exists s', (p + 1). cbn. by rewrite Hs. Qed.

Lemma leads_cons c l s s' (P : scan -> Prop) :
  (forall p, cu_step true buf s p c = Go s') -> leads l s' P -> leads (c :: l) s P.
Proof.
  intros Hs HP. apply (leads_app [c] l s (fun x => x = s')); [|by intros ? ->].
  by apply (leads_step c s s').
Qed.

(** A usual byte, from any state of the path. *)
Lemma step_on_usual s p c :
  usual c = true ->
  cstate s = cu_usual \/ cstate s = cu_slash \/ cstate s = cu_dot \/ cstate s = cu_dot_dot ->
  cu_step true buf s p c = Go (put c (set_cstate cu_usual s)).
Proof.
  intros Hc Hst. unfold cu_step.
  destruct Hst as [Hst|[Hst|[Hst|Hst]]]; rewrite Hst; cbn;
    unfold step_usual, step_slash, step_dot, step_dot_dot; rewrite Hc; [|done..].
  f_equal. f_equal. destruct s. cbn in *. by subst.
Qed.

Lemma leads_usual l w s :
  Forall (fun c => seg_char c = true) l -> sits cu_usual w s ->
  leads l s (sits cu_usual (rev l ++ w)).
Proof.
  intros Hl. revert w s. induction Hl as [|c l Hc _ IH]; intros w s [Hst Hw].
  { by apply leads_nil. }
  cbn [rev]. rewrite <- app_assoc. cbn [app].
  apply seg_char_cases in Hc as [[Hc _]| ->].
  - apply (leads_cons c l s (put c (set_cstate cu_usual s))); [|apply IH].
    + intros p. apply step_on_usual; auto.
    + split; [done|]. cbn. by rewrite Hw.
  - apply (leads_cons "."%c l s (put "."%c (set_ext (Some (u_pos s + 1)) s))); [|apply IH].
    + intros p. unfold cu_step. by rewrite Hst.
    + split; [done|]. cbn. by rewrite Hw.
Qed.

(** The byte that makes a segment ordinary, and the rest of it. *)
Lemma leads_enter c l w s :
  Forall (fun c => seg_char c = true) l -> written s = w ->
  (usual c = true /\ cstate s <> cu_quoted /\ cstate s <> cu_quoted_second) \/
  (c = "."%c /\ cstate s = cu_dot_dot) ->
  leads (c :: l) s (sits cu_usual (rev (c :: l) ++ w)).
Proof.
  intros Hl Hw Hc. cbn [rev]. rewrite <- app_assoc. cbn [app].
  apply (leads_cons c l s (put c (set_cstate cu_usual s))).
  - intros p. destruct Hc as [(Hc & H1 & H2)|[-> Hst]].
    + apply step_on_usual; [done|]. destruct (cstate s); auto; done.
    + unfold cu_step. by rewrite Hst.
  - apply leads_usual; [done|]. split; [done|]. cbn. by rewrite Hw.
Qed.

(** A segment that begins after a slash. *)
Lemma leads_ordinary seg w s :
  ordinary seg -> sits cu_slash w s -> leads seg s (sits cu_usual (rev seg ++ w)).
Proof.
  intros (Hseg & Hn & H1 & H2) [Hst Hw].
  destruct seg as [|c seg]; [done|]. apply Forall_cons in Hseg as [Hc Hseg].
  apply seg_char_cases in Hc as [[Hc _]| ->].
  { apply leads_enter; [done..|left]. rewrite Hst. done. }
  apply (leads_cons _ _ _ (put "."%c (set_cstate cu_dot s))).
  { intros p. unfold cu_step. by rewrite Hst. }
  cbn [rev]. rewrite <- app_assoc.
  destruct seg as [|d seg]; [done|]. apply Forall_cons in Hseg as [Hd Hseg].
  apply seg_char_cases in Hd as [[Hd _]| ->].
  { apply leads_enter; [done|cbn; by rewrite Hw|left; done]. }
  apply (leads_cons _ _ _ (put "."%c (set_cstate cu_dot_dot (put "."%c (set_cstate cu_dot s)))));
    [done|].
  cbn [rev]. rewrite <- app_assoc.
  destruct seg as [|e seg]; [done|]. apply Forall_cons in Hseg as [He Hseg].
  apply seg_char_cases in He as [[He _]| ->].
  all: apply leads_enter; [done|cbn; by rewrite Hw|cbn; auto].
Qed.

Lemma leads_slash w s : sits cu_usual w s -> leads $"/" s (sits cu_slash ("/"%c :: w)).
Proof.
  intros [Hst Hw]. apply (leads_step _ s (put "/"%c (set_cstate cu_slash (set_ext None s)))).
  - intros p. unfold cu_step. by rewrite Hst.
  - split; [done|]. cbn. by rewrite Hw.
Qed.

(** Back over the parent segment. *)
Lemma back_over seg w :
  ordinary seg -> (exists v, w = "/"%c :: v) ->
  back_to_slash (drop 2 ("/"%c :: rev seg ++ w)) = Some w.
Proof.
  intros (Hseg & Hn & _ & _) [v Hw].
  assert (Hr : Forall (fun c => seg_char c = true) (rev seg)) by by apply Forall_rev.
  destruct (rev seg) as [|c t] eqn:E.
  { apply (f_equal (@rev Z)) in E. rewrite rev_involutive in E. done. }
  apply Forall_cons in Hr as [_ Hr]. cbn. clear E Hseg Hn seg c. subst w.
  induction Hr as [|c t Hc _ IH]; [done|]. cbn.
  destruct (c =? "/"%c) eqn:Es; [|done]. boolify. subst c. done.
Qed.

Lemma step_up s p :
  cstate s = cu_dot_dot ->
  cu_step true buf s p "/"%c =
    match back_to_slash (drop 4 (written s)) with
    | Some w => Go (set_written w (set_cstate cu_slash s))
    | None => invalid s
    end.
Proof. intros Hst. unfold cu_step. by rewrite Hst. Qed.

Lemma written_for_slash stk : exists v, written_for stk = "/"%c :: v.
Proof. destruct stk; cbn; eauto. Qed.

(** One segment and the slash after it: what [resolve] does. *)
Lemma leads_segment seg stk s :
  Forall (fun c => seg_char c = true) seg -> Forall ordinary stk ->
  sits cu_slash (written_for stk) s ->
  (seg = $".." /\ stk = [] /\
    forall p, exists s', run_loop (cu_step true) buf (seg ++ $"/") p s = Returned s' NGX_HTTP_PARSE_INVALID_REQUEST) \/
  exists stk', Forall ordinary stk' /\
    leads (seg ++ $"/") s (sits cu_slash (written_for stk')) /\
    forall segs, segs <> [] -> resolve stk (seg :: segs) = resolve stk' segs.
Proof.
  intros Hseg Hstk [Hst Hw].
  destruct (decide (seg = [])) as [->|Hn].
  { right. exists stk. split_and!; [done| |by intros []].
    apply (leads_step _ s s); [|done]. intros p. unfold cu_step. by rewrite Hst. }
  destruct (decide (seg = $".")) as [->|H1].
  { right. exists stk. split_and!; [done| |by intros []].
    apply (leads_cons _ _ s (put "."%c (set_cstate cu_dot s))).
    - intros p. unfold cu_step. by rewrite Hst.
    - by eapply leads_step. }
  set (s1 := put "."%c (set_cstate cu_dot s)).
  destruct (decide (seg = $"..")) as [->|H2].
  - destruct stk as [|x stk].
    + left. split_and!; [done..|]. intros p. exists (put "."%c (set_cstate cu_dot_dot s1)).
      cbn [app codes_of run_loop].
      replace (cu_step true buf s p _) with (@Go scan cu_label s1)
        by (unfold cu_step; by rewrite Hst).
      replace (cu_step true buf s1 _ _) with
        (@Go scan cu_label (put "."%c (set_cstate cu_dot_dot s1))) by done.
      rewrite step_up by done. cbn [written put set_cstate set_written s1]. by rewrite Hw.
    + right. exists stk. apply Forall_cons in Hstk as [Hx Hstk].
      split_and!; [done| |by intros []].
      apply (leads_cons _ _ s s1); [intros p; unfold cu_step; by rewrite Hst|].
      apply (leads_cons _ _ s1 (put "."%c (set_cstate cu_dot_dot s1))); [done|].
      apply (leads_step _ _ (set_written (written_for stk)
        (set_cstate cu_slash (put "."%c (set_cstate cu_dot_dot s1))))); [|done].
      intros p. rewrite step_up by done. cbn [written put set_cstate set_written s1].
      rewrite Hw. cbn [written_for]. change (drop 4 (?a :: ?b :: ?l)) with (drop 2 l).
      rewrite back_over by auto using written_for_slash. done.
  - right. exists (seg :: stk). split_and!; [by constructor| |].
    + apply (leads_app _ _ _ (sits cu_usual (rev seg ++ written_for stk))).
      * by apply leads_ordinary.
      * intros s' Hs'. by apply leads_slash.
    + intros segs Hsegs. rewrite resolve_cons by done. by rewrite !bool_decide_eq_false_2.
Qed.

(** The last segment is not followed by a slash. *)
Lemma leads_last seg w s :
  Forall (fun c => seg_char c = true) seg -> sits cu_slash w s ->
  leads seg s (fun s' => written s' = rev seg ++ w).
Proof.
  intros Hseg [Hst Hw].
  assert (Hdot : forall p, cu_step true buf s p "."%c = Go (put "."%c (set_cstate cu_dot s)))
    by (intros p; unfold cu_step; by rewrite Hst).
  destruct (decide (seg = [])) as [->|Hn]; [by apply leads_nil|].
  destruct (decide (seg = $".")) as [->|H1].
  { eapply leads_step; [done|]. cbn. by rewrite Hw. }
  destruct (decide (seg = $"..")) as [->|H2].
  { eapply leads_cons; [done|]. eapply leads_step; [done|]. cbn. by rewrite Hw. }
  intros p. destruct (leads_ordinary seg w s ltac:(done) ltac:(done) p) as (s' & q & Hr & [_ Hs']).
  by exists s', q.
Qed.

(** From the slash before the first of the segments. *)
Lemma run_segments segs stk s p :
  segs <> [] -> Forall (Forall (fun c => seg_char c = true)) segs -> Forall ordinary stk ->
  sits cu_slash (written_for stk) s ->
  match run_loop (cu_step true) buf (tail (text segs)) p s, resolve stk segs with
  | Exhausted s' _, Some out => rev (written s') = text (rev out)
  | Returned _ rc, None => rc = NGX_HTTP_PARSE_INVALID_REQUEST
  | _, _ => False
  end.
Proof.
  intros Hne Hsegs. revert stk s p. induction Hsegs as [|seg segs Hseg Hsegs IH]; [done|].
  intros stk s p Hstk Hs. destruct segs as [|seg2 segs].
  { cbn. rewrite app_nil_r.
    destruct (leads_last seg _ s Hseg Hs p) as (s' & q & -> & ->). apply rev_written_for. }
  replace (tail (text (seg :: seg2 :: segs))) with ((seg ++ $"/") ++ tail (text (seg2 :: segs)))
    by (cbn; by rewrite <- app_assoc).
  rewrite run_loop_app.
  destruct (leads_segment seg stk s Hseg Hstk Hs) as [(-> & -> & Hr)|(stk' & Hstk' & Hl & ->)];
    [|destruct (Hl p) as (s' & q & -> & Hs'); by apply IH|done].
  destruct (Hr p) as [s' ->]. done.
Qed.
End Segments.

Lemma uri_finish s query : uri (finish_uri s query) = rev (written s).
Proof. unfold finish_uri. repeat case_match; done. Qed.

Lemma exten_finish s query :
  exten (finish_uri s query) =
    option_map (fun e => drop (Z.to_nat e) (rev (written s))) (ext s).
Proof. unfold finish_uri. destruct (args s); [destruct (find_hash _ _)|]; done. Qed.

(** The scan that gave the result. *)
Lemma complex_run merge pl qu start rest :
  match ngx_http_parse_complex_uri merge pl qu start ("/"%c :: rest) with
  | inl n => exists s query, n = finish_uri s query /\ scan_inv merge s /\
               (length (written s) <= length ("/"%c :: rest))%nat
  | inr rc => rc = NGX_HTTP_PARSE_INVALID_REQUEST
  end.
Proof.
  unfold ngx_http_parse_complex_uri. rewrite cu_first.
  pose proof (cu_run_ok merge ("/"%c :: rest) rest (start + 1)
    (MkScan cu_slash cu_usual 0 ["/"%c] None None pl qu) (slash_inv _ _ _ _ _)) as Hrun.
  destruct (run_loop _ _ _ _ _) as [s q|s q []|s rc]; [..|done].
  all: destruct Hrun; eexists s, _; split_and!; [done..|cbn in *; lia].
Qed.

Lemma finish_tidy merge s query n :
  scan_inv merge s -> (length (written s) <= n)%nat ->
  (exists t, uri (finish_uri s query) = "/"%c :: t) /\
  (length (uri (finish_uri s query)) <= n)%nat /\
  avoids $"/./" (uri (finish_uri s query)) /\ avoids $"/../" (uri (finish_uri s query)) /\
  (merge = true -> avoids $"//" (uri (finish_uri s query))) /\
  (forall e, exten (finish_uri s query) = Some e -> exists a, uri (finish_uri s query) = a ++ e).
Proof.
  intros Hi Hlen. apply scan_inv_tidy in Hi as [[H1 H2 H3 H4] He].
  rewrite uri_finish, exten_finish. split_and!.
  - apply last_Some in H4 as [l ->]. exists (rev l). rewrite rev_app_distr. done.
  - rewrite length_rev. cbn. lia.
  - by apply avoids_rev.
  - by apply avoids_rev.
  - intros Hm. apply avoids_rev; auto.
  - intros e. destruct (ext s) as [x|]; [|done]. intros [= <-].
    exists (take (Z.to_nat x) (rev (written s))). by rewrite take_drop.
Qed.

(** * Spelling *)

Definition hex_value (ch : Z) : option Z :=
  if digit ch then Some (ch - "0"%c) else letter_digit ch.

(** A byte of the URI, written as it is or as two hexadecimal digits. *)
Record token := Tok { tok_byte : Z; spelling : option (Z * Z) }.

Definition spell (t : token) : list Z :=
  match spelling t with
  | None => [tok_byte t]
  | Some (h, l) => ["%"%c; h; l]
  end.

Definition tok_ok (t : token) : bool :=
  (0 <? tok_byte t) && (tok_byte t <? 256)
    && negb (existsb (Z.eqb (tok_byte t)) ["%"%c; "#"%c; "?"%c])
    && match spelling t with
       | None => true
       | Some (h, l) =>
         match hex_value h, hex_value l with
         | Some a, Some b => a * 16 + b =? tok_byte t
         | _, _ => false
         end
       end.

(** Equal but for what the quoting left behind. *)
Definition same (s s' : scan) : Prop :=
  cstate s = cstate s' /\ written s = written s' /\ ext s = ext s' /\ args s = args s' /\
  plus s = plus s'.

#[global] Instance same_equiv : Equivalence same.
Proof.
  split; unfold same; [done|intros ? ? (? & ? & ? & ? & ?); done|].
  intros ? ? ? (? & ? & ? & ? & ?) (? & ? & ? & ? & ?). split_and!; congruence.
Qed.

Definition path_state_of (st : cu_state) : Prop := st <> cu_quoted /\ st <> cu_quoted_second.

(** The two results agree, in a state of the path. *)
Definition same_res (x y : cu_res) : Prop :=
  match x, y with
  | Go a, Go b => same a b /\ path_state_of (cstate a)
  | Return _ rc, Return _ rc' => rc = rc'
  | _, _ => False
  end.

Lemma same_set_plus s s' : same s s' -> same (set_plus true s) (set_plus true s').
Proof. unfold same. intros (? & ? & ? & ? & ?). done. Qed.

Lemma step_path_same merge st s s' p p' ch :
  same s s' -> cstate s = st -> path_state_of st ->
  ch <> "%"%c -> ch <> "#"%c -> ch <> "?"%c ->
  same_res (step_path merge st s p ch) (step_path merge st s' p' ch).
Proof.
  intros (H1 & H2 & H3 & H4 & H5) Hst Hps Hp Hh Hq.
  apply Z.eqb_neq in Hp, Hh, Hq.
  destruct st; cbn; unfold step_usual, step_slash, step_dot, step_dot_dot, common, u_pos;
    rewrite ?Hp, ?Hh, ?Hq, ?H2; try (by destruct Hps).
  all: repeat case_match; cbn; try done; unfold same, path_state_of; cbn;
    rewrite ?Hst in *; split_and!; congruence.
Qed.

Lemma hex_value_range ch a : hex_value ch = Some a -> 0 <= a < 16.
Proof.
  unfold hex_value, digit, letter_digit. rewrite !Z.geb_leb.
  repeat case_match; intros; simplify_eq; boolify; lia.
Qed.

Section Token.
Context (merge : bool) (buf : list Z).

(** The percent sign and the first digit. *)
Lemma run_quote s h a p :
  path_state_of (cstate s) -> hex_value h = Some a ->
  exists s', run_loop (cu_step merge) buf ["%"%c; h] p s = Exhausted s' (p + 2) /\
    cstate s' = cu_quoted_second /\ quoted_state s' = cstate s /\ decoded s' = a /\
    same (set_cstate (cstate s) s') s.
Proof.
  intros Hps Hh.
  assert (Hq : cu_step merge buf s p "%"%c =
    Go (set_cstate cu_quoted (set_quoted_state (cstate s) s))).
  { unfold cu_step. destruct (cstate s) eqn:E; cbn;
      unfold step_usual, step_slash, step_dot, step_dot_dot, common; cbn; rewrite ?E; try done.
    all: by destruct Hps. }
  cbn [run_loop]. rewrite Hq. unfold cu_step at 1. cbn [cstate set_cstate].
  unfold step_quoted. unfold hex_value in Hh. cbn [run_loop].
  destruct (digit h); [|rewrite Hh]; simplify_eq; eexists; rewrite <- Z.add_assoc; done.
Qed.

(** The decoded byte, in the state before the percent sign. *)
Lemma step_decoded s l a b p c :
  cstate s = cu_quoted_second -> decoded s = a -> 0 <= a < 16 -> hex_value l = Some b ->
  a * 16 + b = c -> c <> 0 -> c <> "%"%c -> c <> "#"%c -> c <> "?"%c ->
  cu_step merge buf s p l = again merge (if c =? "+"%c then set_plus true s else s) p c.
Proof.
  intros Hst Hd Ha Hl Hc H0 H1 H2 H3. pose proof (hex_value_range l b Hl) as Hb.
  unfold cu_step. rewrite Hst. unfold step_quoted_second. rewrite Hd.
  replace (Z.shiftl a 4) with (a * 16) by (rewrite Z.shiftl_mul_pow2 by lia; lia).
  apply Z.eqb_neq in H0, H1, H2, H3. unfold hex_value in Hl. destruct (digit l) eqn:El.
  - replace (a * 16 + l - "0"%c) with c by (simplify_eq; lia).
    assert ((c =? "+"%c) = false) as -> by (apply Z.eqb_neq; unfold digit in El; boolify; simplify_eq; lia).
    rewrite wrapU_small by (change (2 ^ 8) with 256; lia). by rewrite H0, H1, H2.
  - rewrite Hl, Hc, wrapU_small by (change (2 ^ 8) with 256; lia). by rewrite H3.
Qed.

Definition same_loop (x y : loop_result scan cu_label) : Prop :=
  match x, y with
  | Exhausted a _, Exhausted b _ => same a b /\ path_state_of (cstate a)
  | Returned _ rc, Returned _ rc' => rc = rc'
  | _, _ => False
  end.

Lemma run_token t s s' p p' :
  tok_ok t = true -> same s s' -> path_state_of (cstate s) ->
  same_loop (run_loop (cu_step merge) buf (spell t) p s)
    (run_loop (cu_step merge) buf [tok_byte t] p' s').
Proof.
  unfold tok_ok. intros Ht Hs Hps. boolify. cbn in *. boolify.
  assert (Hraw : forall x q, same x s' -> cstate x = cstate s ->
    same_res (step_path merge (cstate s) x q (tok_byte t)) (cu_step merge buf s' p' (tok_byte t))).
  { intros x q Hx Hst. unfold cu_step. destruct Hs as (Hc & _). rewrite <- Hc.
    pose proof (step_path_same merge (cstate s) x s' q p' (tok_byte t) Hx Hst Hps) as Hsp.
    destruct (cstate s) eqn:E; try (by destruct Hps); by apply Hsp. }
  unfold spell. destruct (spelling t) as [[h l]|].
  - destruct (hex_value h) as [a|] eqn:Eh; [|done]. destruct (hex_value l) as [b|] eqn:El; [|done].
    boolify. change ["%"%c; h; l] with (["%"%c; h] ++ [l]). rewrite run_loop_app.
    destruct (run_quote s h a p Hps Eh) as (s2 & -> & Hst2 & Hq2 & Hd2 & Hsame).
    pose proof (hex_value_range h a Eh).
    cbn [run_loop].
    rewrite (step_decoded s2 l a b _ (tok_byte t)) by (done || lia).
    assert (Hag : same_res (again merge s2 (p + 2) (tok_byte t))
      (cu_step merge buf s' p' (tok_byte t))).
    { unfold again. rewrite Hq2. apply Hraw; [by transitivity s|done]. }
    replace (again merge (if tok_byte t =? "+"%c then set_plus true s2 else s2) (p + 2) (tok_byte t))
      with (again merge s2 (p + 2) (tok_byte t))
      by (destruct (tok_byte t =? "+"%c) eqn:E; [|done]; apply Z.eqb_eq in E; rewrite E;
          unfold again; cbn; rewrite Hq2; destruct (cstate s) in Hps |- *;
          try done; by destruct Hps).
    unfold same_res in Hag. repeat case_match; done.
  - cbn [run_loop].
    replace (cu_step merge buf s p (tok_byte t)) with (step_path merge (cstate s) s p (tok_byte t))
      by (unfold cu_step; destruct (cstate s) eqn:E; try done; by destruct Hps).
    specialize (Hraw s p Hs eq_refl). unfold same_res in Hraw. repeat case_match; done.
Qed.
End Token.

Lemma run_any_buf merge b b' l p s :
  run_loop (cu_step merge) b l p s = run_loop (cu_step merge) b' l p s.
Proof.
  revert p s. induction l as [|c l IH]; intros p s; [done|]. cbn [run_loop].
  change (cu_step merge b' s p c) with (cu_step merge b s p c).
  destruct (cu_step merge b s p c); [apply IH|done|done].
Qed.

Lemma run_tokens merge buf toks s s' p p' :
  Forall (fun t => tok_ok t = true) toks -> same s s' -> path_state_of (cstate s) ->
  same_loop (run_loop (cu_step merge) buf (concat (map spell toks)) p s)
    (run_loop (cu_step merge) buf (map tok_byte toks) p' s').
Proof.
  intros Ht. revert s s' p p'. induction Ht as [|t toks Ht _ IH]; intros s s' p p' Hs Hps; [done|].
  cbn [map concat]. change (tok_byte t :: ?l) with ([tok_byte t] ++ l). rewrite !run_loop_app.
  pose proof (run_token merge buf t s s' p p' Ht Hs Hps) as H. unfold same_loop in H.
  destruct (run_loop _ _ (spell t) _ _) as [a q|a q l|a rc],
    (run_loop _ _ [tok_byte t] _ _) as [b q'|b q' l'|b rc']; try done.
  destruct H. by apply IH.
Qed.

(** * The check of internal redirects *)

Lemma unsafe_loop_ok after l res :
  unsafe_loop after l = Some res ->
  exists u, l = u ++ match res with Some a => "?"%c :: a | None => [] end /\
    Forall (fun c => c <> 0 /\ c <> "?"%c) u /\ avoids $"/../" u.
Proof.
  revert res. induction l as [|c l IH]; intros res H.
  { injection H as <-. exists []. split_and!; [done..|]. intros [] ?; done. }
  cbn [unsafe_loop] in H. destruct (usual c) eqn:Eu.
  { apply IH in H as (u & -> & Hu & Ha). exists (c :: u). apply usual_false in Eu.
    split_and!; [done|constructor; tauto|]. apply avoids_cons; [done..|].
    intros b [= ? ?]. tauto. }
  destruct (c =? "?"%c) eqn:Eq; boolify.
  { injection H as <-. subst c. exists []. split_and!; [done..|]. intros [] ?; done. }
  destruct (c =? 0) eqn:E0; boolify; [done|].
  destruct (_ && _) eqn:Ed; [done|].
  apply IH in H as (u & -> & Hu & Ha). exists (c :: u).
  split_and!; [done|by constructor|]. apply avoids_cons; [done..|].
  intros b [= -> Hb]. subst u. cbn in Ed. boolify; try done.
  rewrite length_app in *. lia.
Qed.

(** * Theorems *)

(** C24 Whatever the bytes of a URI that begins with a slash, quoted or not,
    the path the normaliser stores begins with a slash, fits in the room the
    bytes of the URI took, and has no segment "." or ".." followed by a slash,
    nor an empty one when slashes are merged; its extension lies inside it;
    and a URI it does not accept is refused with the code for an invalid
    request. *)
Theorem complex_uri_tidy merge pl qu start rest :
  match ngx_http_parse_complex_uri merge pl qu start ("/"%c :: rest) with
  | inl n =>
    (exists t, uri n = "/"%c :: t) /\
    (length (uri n) <= length ("/"%c :: rest))%nat /\
    avoids $"/./" (uri n) /\ avoids $"/../" (uri n) /\
    (merge = true -> avoids $"//" (uri n)) /\
    (forall e, exten n = Some e -> exists a, uri n = a ++ e)
  | inr rc => rc = NGX_HTTP_PARSE_INVALID_REQUEST
  end.
Proof.
  pose proof (complex_run merge pl qu start rest) as Hrun.
  destruct (ngx_http_parse_complex_uri _ _ _ _ _) as [n|rc]; [|done].
  destruct Hrun as (s & query & -> & Hi & Hlen). by apply finish_tidy.
Qed.

(** C31 With slashes merged, normalising a path means resolving its segments:
    "." and empty segments disappear, ".." takes its parent away and is refused
    when there is none, any other segment stays; only the last segment, with no
    slash after it, is kept whatever it is. *)
Theorem complex_uri_resolves pl qu start segs :
  segs <> [] -> Forall (Forall (fun c => seg_char c = true)) segs ->
  match ngx_http_parse_complex_uri true pl qu start (text segs), resolve [] segs with
  | inl n, Some out => uri n = text (rev out)
  | inr rc, None => rc = NGX_HTTP_PARSE_INVALID_REQUEST
  | _, _ => False
  end.
Proof.
  intros Hne Hsegs. unfold ngx_http_parse_complex_uri.
  assert (Hfirst : run_loop (cu_step true) (text segs) (text segs) start (scan_start pl qu) =
    run_loop (cu_step true) (text segs) (tail (text segs)) (start + 1)
      (MkScan cu_slash cu_usual 0 ["/"%c] None None pl qu)) by (destruct segs; done).
  rewrite Hfirst. clear Hfirst.
  pose proof (run_segments (text segs) segs [] (MkScan cu_slash cu_usual 0 ["/"%c] None None pl qu)
    (start + 1) Hne Hsegs ltac:(constructor) ltac:(done)) as Hrun.
  destruct (run_loop _ _ _ _ _) as [s q|s q []|s rc], (resolve [] segs); try done.
  by rewrite uri_finish.
Qed.

Lemma complex_uri_resolves_witness :
  ngx_http_parse_complex_uri true false false 0 $"/a/./b//../c.mp4" =
    inl (MkNormalized $"/a/c.mp4" (Some $"mp4") None None false false) /\
  uri (MkNormalized $"/a/c.mp4" (Some $"mp4") None None false false) = $"/a/c.mp4".
Proof.
  split; [vm_compute; reflexivity|].
  exact (complex_uri_resolves false false 0 [$"a"; $"."; $"b"; []; $".."; $"c.mp4"]
           ltac:(discriminate) ltac:(repeat constructor)).
Defined.

(** How the bytes of a path are spelled makes no difference: a byte written
    as "%" and two hexadecimal digits, a dot or a slash among them, is resolved
    as the byte itself. *)
Theorem spelling_irrelevant merge pl qu start toks :
  Forall (fun t => tok_ok t = true) toks ->
  match ngx_http_parse_complex_uri merge pl qu start (concat (map spell toks)),
    ngx_http_parse_complex_uri merge pl qu start (map tok_byte toks) with
  | inl n, inl n' => uri n = uri n' /\ exten n = exten n' /\ n_plus n = n_plus n'
  | inr rc, inr rc' => rc = rc'
  | _, _ => False
  end.
Proof.
  intros Ht. unfold ngx_http_parse_complex_uri.
  pose proof (run_tokens merge [] toks (scan_start pl qu) (scan_start pl qu) start start Ht
    ltac:(done) ltac:(done)) as H. unfold same_loop in H.
  rewrite !(run_any_buf merge (_ _) []).
  destruct (run_loop _ _ (concat _) _ _) as [a q|a q l|a rc],
    (run_loop _ _ (map _ _) _ _) as [b q'|b q' l'|b rc']; try done.
  destruct H as [(? & Hw & He & Ha & Hp) _].
  rewrite !uri_finish, !exten_finish, Hw, He. split_and!; [done..|].
  unfold finish_uri. rewrite Ha. repeat case_match; done.
Qed.

Lemma spelling_irrelevant_witness :
  match ngx_http_parse_complex_uri true false false 0 $"/a/%2e%2E%2fb",
    ngx_http_parse_complex_uri true false false 0 $"/a/../b" with
  | inl n, inl n' => uri n = uri n' /\ exten n = exten n' /\ n_plus n = n_plus n'
  | inr rc, inr rc' => rc = rc'
  | _, _ => False
  end.
Proof.
  exact (spelling_irrelevant true false false 0
    [Tok "/"%c None; Tok "a"%c None; Tok "/"%c None; Tok "."%c (Some ("2"%c, "e"%c));
     Tok "."%c (Some ("2"%c, "E"%c)); Tok "/"%c (Some ("2"%c, "f"%c)); Tok "b"%c None]
    ltac:(repeat constructor)).
Defined.

(** A URI that [ngx_http_parse_unsafe_uri] lets through has no segment
    ".." between two slashes, no NUL and no question mark; the rest after the
    first question mark, if there is one, is the query. *)
Theorem unsafe_uri_checked after l u args :
  ngx_http_parse_unsafe_uri after l = Some (u, args) ->
  l = u ++ match args with Some a => "?"%c :: a | None => [] end /\
  Forall (fun c => c <> 0 /\ c <> "?"%c) u /\ avoids $"/../" u.
Proof.
  unfold ngx_http_parse_unsafe_uri. intros H. destruct l as [|c l]; [done|].
  destruct (c =? "?"%c); [done|]. destruct (_ && _); [done|].
  destruct (unsafe_loop after (c :: l)) as [res|] eqn:E; [|done].
  apply unsafe_loop_ok in E as (u' & Hl & Hu & Ha).
  destruct res as [a|]; simplify_eq.
  - assert (take (length (c :: l) - length a - 1) (c :: l) = u') as ->.
    { rewrite Hl, length_app. apply take_app_length'. cbn. lia. }
    done.
  - rewrite app_nil_r in *. by subst.
Qed.

Lemma unsafe_uri_checked_witness :
  $"/a/..b?x=1" = $"/a/..b" ++ "?"%c :: $"x=1" /\
  Forall (fun c => c <> 0 /\ c <> "?"%c) $"/a/..b" /\ avoids $"/../" $"/a/..b".
Proof. exact (unsafe_uri_checked 0 $"/a/..b?x=1" $"/a/..b" (Some $"x=1") eq_refl). Defined.
