(* ===== verification/NgxHttpRequest.v ===== *)
(** From the request line to the request: the part of
    [ngx_http_process_request_line] of src/http/ngx_http_request.c that turns
    the pointers of the line parser into the strings of the request, calling
    the normaliser when the parser asked for it, and [ngx_http_validate_host],
    which both the request line and the Host header go through. *)

From S2P Require Import Prelude NgxMachine NgxRequestLine NgxComplexUri.

Module HttpRequest.

Definition NGX_HTTP_BAD_REQUEST : Z := 400.

(** The strings of the request; the bytes of [buf] between two pointers are a
    [slice]. *)
Record target := MkTarget {
  request_line : list Z; t_uri : list Z; t_exten : option (list Z); t_args : list Z;
  unparsed_uri : list Z; valid_unparsed_uri : bool; method_name : list Z;
  protocol : option (list Z) }.

(** [if (r->args_start && r->uri_end > r->args_start)]: the query between two
    pointers, or what the normaliser left in r->args. *)
Definition query_between (buf : list Z) (args_start : option Z) (uri_end : Z) (args : list Z)
    : list Z :=
  match args_start with
  | Some a => if uri_end >? a then slice buf a uri_end else args
  | None => args
  end.

(** The pointers that the parser sets on every line it accepts. *)
Definition line_pointers (r : request) : option (Z * Z * Z * Z * Z) :=
  match request_start r, method_end r, uri_start r, uri_end r, request_end r with
  | Some m, Some e, Some u, Some v, Some l => Some (m, e, u, v, l)
  | _, _, _, _, _ => None
  end.

(** The URI, its extension and the query; [inr] is the code the request is
    finalized with. *)
Definition request_uri (merge_slashes : bool) (r : request) (buf : list Z) (u v : Z)
    : list Z * option (list Z) * list Z + Z :=
  if complex_uri r || quoted_uri r then
    match ngx_http_parse_complex_uri merge_slashes (plus_in_uri r) (quoted_uri r) u
            (slice buf u v) with
    | inr _ => inr NGX_HTTP_BAD_REQUEST
    | inl n =>
      let args := match args_bounds n with
                  | Some (a, len) => slice buf a (a + len)
                  | None => []
                  end in
      inl (uri n, exten n, query_between buf (rest_args n) v args)
    end
  else
    let e := match args_start r with Some a => a - 1 | None => v end in
    inl (slice buf u e, option_map (fun x => slice buf x e) (uri_ext r),
         query_between buf (args_start r) v []).

(** [Undefined] when a pointer the code dereferences is NULL. *)
Definition process_request_target (merge_slashes : bool) (r : request) (buf : list Z)
    : outcome (target + Z) :=
  match line_pointers r with
  | None => Undefined
  | Some (m, e, u, v, l) =>
    Ret (match request_uri merge_slashes r buf u v with
         | inr code => inr code
         | inl (path, ext, query) =>
           inl (MkTarget (slice buf m l) path ext query (slice buf u v)
                  (negb (space_in_uri r)) (slice buf m (e + 1))
                  (option_map (fun h => slice buf h l) (http_protocol r)))
         end)
  end.

(** * Hosts *)

Inductive host_state := h_usual | h_literal | h_rest.

(** The locals of the loop: [dot_pos], [host_len], [state] and [alloc]; the
    lengths are size_t, and [dot_pos] starts at the length. *)
Record host_scan := MkHost { dot_pos : Z; host_len : Z; hstate : host_state; alloc : bool }.

Definition host_step (s : host_scan) (i ch : Z) : option host_scan :=
  if ch =? "."%c then
    if dot_pos s =? wrapU 64 (i - 1) then None
    else Some (MkHost i (host_len s) (hstate s) (alloc s))
  else if ch =? ":"%c then
    match hstate s with
    | h_usual => Some (MkHost (dot_pos s) i h_rest (alloc s))
    | _ => Some s
    end
  else if ch =? "["%c then
    if i =? 0 then Some (MkHost (dot_pos s) (host_len s) h_literal (alloc s)) else Some s
  else if ch =? "]"%c then
    match hstate s with
    | h_literal => Some (MkHost (dot_pos s) (i + 1) h_rest (alloc s))
    | _ => Some s
    end
  else if ch =? 0 then None
  else if path_separator ch then None
  else if ("A"%c <=? ch) && (ch <=? "Z"%c) then
    Some (MkHost (dot_pos s) (host_len s) (hstate s) true)
  else Some s.

Fixpoint host_loop (s : host_scan) (i : Z) (h : list Z) : option host_scan :=
  match h with
  | [] => Some s
  | ch :: h =>
    match host_step s i ch with
    | Some s => host_loop s (i + 1) h
    | None => None
    end
  end.

(** [ngx_tolower] and [ngx_strlow]. *)
Definition ngx_tolower (c : Z) : Z :=
  if (c >=? "A"%c) && (c <=? "Z"%c) then Z.lor c 0x20 else c.

Definition ngx_strlow (s : list Z) : list Z := map ngx_tolower s.

(** The host the request is for, [None] for the results 0 and -1 (an empty
    host, one that is refused, or no memory for the copy). *)
Definition ngx_http_validate_host (alloc_ok : bool) (h : list Z) (alloc0 : bool)
    : option (list Z) :=
  let len := Z.of_nat (length h) in
  match host_loop (MkHost len len h_usual alloc0) 0 h with
  | None => None
  | Some s =>
    let host_len := if dot_pos s =? wrapU 64 (host_len s - 1)
                    then host_len s - 1 else host_len s in
    if host_len =? 0 then None
    else if alloc s then
      if alloc_ok then Some (ngx_strlow (take (Z.to_nat host_len) h)) else None
    else Some (take (Z.to_nat host_len) h)
  end.

End HttpRequest.
Export HttpRequest.

(** * Slices *)

Lemma byte_at_slice buf u v k :
  0 <= u -> 0 <= k < v - u -> u + k < Z.of_nat (length buf) ->
  nth (Z.to_nat k) (slice buf u v) 0 = byte_at buf (u + k).
Proof.
  intros Hu Hk Hlen. unfold slice, byte_at.
  rewrite !nth_lookup, lookup_take_lt, lookup_drop by lia. do 2 f_equal. lia.
Qed.

Lemma length_slice buf u v :
  0 <= u <= v -> v <= Z.of_nat (length buf) -> length (slice buf u v) = Z.to_nat (v - u).
Proof. intros. unfold slice. rewrite length_take, length_drop. lia. Qed.

(** A byte of a slice, by its place. *)
Lemma slice_middle buf u v a c b :
  0 <= u <= v -> v <= Z.of_nat (length buf) -> slice buf u v = a ++ c :: b ->
  u + Z.of_nat (length a) < v /\ byte_at buf (u + Z.of_nat (length a)) = c.
Proof.
  intros Hu Hv Hs. pose proof (f_equal length Hs) as Hl.
  rewrite length_slice in Hl by lia. rewrite length_app in Hl. cbn in Hl.
  split; [lia|]. rewrite <- (byte_at_slice buf u v) by lia.
  rewrite Hs, Nat2Z.id, app_nth2, Nat.sub_diag by lia. done.
Qed.

Lemma slice_cons buf u v :
  0 <= u < v -> v <= Z.of_nat (length buf) ->
  slice buf u v = byte_at buf u :: slice buf (u + 1) v.
Proof.
  intros Hu Hv. unfold slice, byte_at.
  replace (Z.to_nat (v - u)) with (S (Z.to_nat (v - (u + 1)))) by lia.
  replace (Z.to_nat (u + 1)) with (S (Z.to_nat u)) by lia.
  destruct (lookup_lt_is_Some_2 buf (Z.to_nat u)) as [x Hx]; [lia|].
  rewrite (drop_S buf x) by done. cbn [take]. f_equal.
  symmetry. apply (nth_lookup_Some buf _ 0 x Hx).
Qed.

Lemma plain_avoids buf u e :
  0 <= u <= e -> e <= Z.of_nat (length buf) -> plain buf u e ->
  avoids $"/./" (slice buf u e) /\ avoids $"/../" (slice buf u e) /\ avoids $"//" (slice buf u e).
Proof.
  intros Hu He Hp.
  assert (Hc : forall a x b, slice buf u e = a ++ "/"%c :: x :: b -> x <> "."%c /\ x <> "/"%c).
  { intros a x b Hs. apply slice_middle in Hs as Hs1; [|lia..].
    replace (a ++ "/"%c :: x :: b) with ((a ++ ["/"%c]) ++ x :: b) in Hs
      by by rewrite <- app_assoc.
    apply slice_middle in Hs as [Hlt Hx]; [|lia..]. rewrite length_app in Hlt, Hx. cbn in Hlt, Hx.
    destruct Hs1 as [Hlt1 Hsl]. destruct (Hp (u + Z.of_nat (length a))) as (_ & _ & _ & Hn); [lia|].
    replace (u + Z.of_nat (length a + 1)) with (u + Z.of_nat (length a) + 1) in Hx by lia.
    rewrite <- Hx. destruct Hn as [? ?]; [lia|done|done]. }
  split_and!; intros a b Hs; by apply Hc in Hs as [? ?].
Qed.

(** * Bytes of the normalised path *)

Definition nonzero (l : list Z) : Prop := Forall (fun c => c <> 0) l.

Lemma step_path_nonzero merge st s p ch :
  nonzero (written s) -> ch <> 0 ->
  match step_path merge st s p ch with
  | Go s' | Goto s' _ => nonzero (written s')
  | Return _ _ => True
  end.
Proof.
  intros Hs Hc.
  assert (Hput : nonzero (ch :: written s)) by by constructor.
  assert (Htail : nonzero (tail (written s))) by (destruct (written s); [done|]; by apply Forall_cons in Hs as [_ ?]).
  destruct st; cbn; unfold step_usual, step_slash, step_dot, step_dot_dot, common, put;
    repeat case_match; simplify_eq; cbn; try done.
  match goal with H : back_to_slash _ = Some _ |- _ =>
    apply back_to_slash_suffix in H as [[a Ha] _] end.
  assert (Hd : nonzero (drop 4 (written s))) by by apply Forall_drop.
  rewrite Ha in Hd. by apply Forall_app in Hd as [_ Hd].
Qed.

Definition decoded_ok (s : scan) : Prop := 0 <= decoded s < 16.

Lemma step_path_decoded merge st s p ch :
  match step_path merge st s p ch with
  | Go s' => decoded s' = decoded s
  | _ => True
  end.
Proof.
  destruct st; cbn; unfold step_usual, step_slash, step_dot, step_dot_dot, common, put;
    repeat case_match; simplify_eq; done.
Qed.

Lemma letter_digit_range ch d : letter_digit ch = Some d -> 10 <= d < 16.
Proof.
  unfold letter_digit. rewrite Z.geb_leb. case_match; intros; simplify_eq; boolify; lia.
Qed.

Lemma cu_step_nonzero merge buf s p ch :
  nonzero (written s) -> decoded_ok s -> ch <> 0 ->
  match cu_step merge buf s p ch with
  | Go s' => nonzero (written s') /\ decoded_ok s'
  | Goto s' _ => nonzero (written s')
  | Return _ _ => True
  end.
Proof.
  intros Hs Hd Hc.
  assert (Hpath : forall st x c, c <> 0 -> written x = written s -> decoded x = decoded s ->
    match step_path merge st x p c with
    | Go s' => nonzero (written s') /\ decoded_ok s'
    | Goto s' _ => nonzero (written s')
    | Return _ _ => True
    end).
  { intros st x c Hcc Hw Hdx. pose proof (step_path_nonzero merge st x p c) as H1.
    pose proof (step_path_decoded merge st x p c) as H2. rewrite Hw in H1.
    destruct (step_path merge st x p c); [|by apply H1|done].
    split; [by apply H1|]. unfold decoded_ok in *. congruence. }
  unfold cu_step. destruct (cstate s); try by apply Hpath.
  - unfold step_quoted, digit. rewrite Z.geb_leb. repeat case_match; simplify_eq; try done.
    + split; [done|]. unfold decoded_ok. cbn. boolify. lia.
    + split; [done|]. unfold decoded_ok. cbn.
      match goal with H : letter_digit _ = _ |- _ => apply letter_digit_range in H end. lia.
  - unfold step_quoted_second, digit, decoded_ok in *. rewrite Z.geb_leb.
    rewrite Z.shiftl_mul_pow2 by lia. change (2 ^ 4) with 16.
    destruct (_ && _) eqn:E.
    + boolify. rewrite wrapU_small by (change (2 ^ 8) with 256; lia).
      destruct (_ || _) eqn:E2.
      { cbn. split; [constructor; [|done]|done]. boolify; lia. }
      case_if E3; [done|]. boolify. by apply Hpath.
    + clear E. destruct (letter_digit ch) as [d|] eqn:E2; [|done]. apply letter_digit_range in E2.
      rewrite wrapU_small by (change (2 ^ 8) with 256; lia).
      case_if E3; boolify; [cbn; split; [constructor; [lia|done]|done]|].
      unfold again. case_if E4; apply Hpath; done || lia.
Qed.

Lemma cu_run_nonzero merge buf l p s :
  nonzero (written s) -> decoded_ok s -> nonzero l ->
  match run_loop (cu_step merge) buf l p s with
  | Exhausted s' _ | Jumped s' _ _ => nonzero (written s')
  | Returned _ _ => True
  end.
Proof.
  intros Hs Hd Hl. revert p s Hs Hd. induction Hl as [|c l Hc _ IH]; intros p s Hs Hd; [done|].
  cbn [run_loop]. pose proof (cu_step_nonzero merge buf s p c Hs Hd Hc) as H.
  destruct (cu_step merge buf s p c); [|done|done]. destruct H. by apply IH.
Qed.

Lemma complex_uri_nonzero merge pl qu start l n :
  ngx_http_parse_complex_uri merge pl qu start l = inl n -> nonzero l -> nonzero (uri n).
Proof.
  intros H Hl. unfold ngx_http_parse_complex_uri in H.
  pose proof (cu_run_nonzero merge l l start (scan_start pl qu) ltac:(constructor)
    ltac:(unfold decoded_ok; cbn; lia) Hl) as Hr.
  destruct (run_loop _ _ _ _ _) as [s q|s q []|s rc]; simplify_eq.
  all: rewrite uri_finish; by apply Forall_rev.
Qed.

(** A URI without a break has no NUL. *)
Lemma no_breaks_nonzero buf u v :
  0 <= u <= v -> v <= Z.of_nat (length buf) -> no_breaks buf false u v -> nonzero (slice buf u v).
Proof.
  intros Hu Hv Hb. apply Forall_forall. intros c Hc. apply list_elem_of_split in Hc as (a & b & Hs).
  apply slice_middle in Hs as [Hlt <-]; [|lia..]. apply (Hb (u + Z.of_nat (length a))); [lia|done].
Qed.

(** * The host *)

(** The bytes [pre] seen so far are fit for a host name. *)
Definition host_bytes (pre : list Z) (s : host_scan) : Prop :=
  Forall (fun c => c <> 0 /\ c <> "/"%c) pre /\
  avoids $".." pre /\
  (last pre = Some "."%c -> dot_pos s = Z.of_nat (length pre) - 1) /\
  (alloc s = false -> Forall (fun c => ngx_tolower c = c) pre).

(** Where the host ends: before the first colon unless it is a literal. *)
Definition host_end_ok (h pre : list Z) (s : host_scan) : Prop :=
  0 <= host_len s <= Z.of_nat (length h) /\
  match hstate s with
  | h_usual => host_len s = Z.of_nat (length h) /\ ~ In ":"%c pre
  | h_literal => head h = Some "["%c
  | h_rest => head h = Some "["%c \/
              host_len s <= Z.of_nat (length pre) /\ ~ In ":"%c (take (Z.to_nat (host_len s)) pre)
  end.

Lemma avoids_snoc pat l c :
  avoids pat l -> (forall a, l ++ [c] <> a ++ pat) -> avoids pat (l ++ [c]).
Proof.
  intros Hl Hc a b H.
  destruct b as [|y b _] using rev_ind; [by rewrite app_nil_r in H; apply Hc in H|].
  rewrite !app_assoc in H. apply app_inj_tail in H as [H _].
  apply (Hl a b). by rewrite H, <- app_assoc.
Qed.

Lemma no_dots_snoc pre ch :
  avoids $".." pre -> (ch = "."%c -> last pre <> Some "."%c) -> avoids $".." (pre ++ [ch]).
Proof.
  intros Hp Hc. apply avoids_snoc; [done|]. intros a H.
  change $".." with (["."%c] ++ ["."%c]) in H. rewrite app_assoc in H.
  apply app_inj_tail in H as [-> ->]. apply (Hc eq_refl). by rewrite last_snoc.
Qed.

Lemma tolower_fix c : ~ ("A"%c <= c <= "Z"%c) -> ngx_tolower c = c.
Proof. intros H. unfold ngx_tolower. rewrite Z.geb_leb. split_ifs. Qed.

Lemma host_bytes_snoc pre ch s s' :
  host_bytes pre s -> ch <> 0 -> ch <> "/"%c ->
  (ch = "."%c -> last pre <> Some "."%c /\ dot_pos s' = Z.of_nat (length pre)) ->
  (alloc s' = false -> alloc s = false /\ ~ ("A"%c <= ch <= "Z"%c)) ->
  host_bytes (pre ++ [ch]) s'.
Proof.
  intros (H1 & H2 & H3 & H4) H0 Hsl Hdot Hal. split_and!.
  - apply Forall_app. split; [done|by repeat constructor].
  - apply no_dots_snoc; [done|]. intros Hd. by apply Hdot.
  - rewrite last_snoc, length_app. cbn. intros [= Hd]. destruct (Hdot Hd). lia.
  - intros Ha. destruct (Hal Ha) as [Has Hup]. apply Forall_app. split; [by apply H4|].
    repeat constructor. by apply tolower_fix.
Qed.

Lemma host_step_bytes pre s ch s' :
  Z.of_nat (length pre) < 2 ^ 64 -> host_bytes pre s ->
  host_step s (Z.of_nat (length pre)) ch = Some s' -> host_bytes (pre ++ [ch]) s'.
Proof.
  intros Hlen Hb Hs.
  assert (Hlast : dot_pos s <> wrapU 64 (Z.of_nat (length pre) - 1) -> last pre <> Some "."%c).
  { intros Hne Hl. apply Hne. destruct Hb as (_ & _ & H3 & _). rewrite (H3 Hl), wrapU_small; [done|].
    destruct pre; [done|]. cbn in *. lia. }
  unfold host_step in Hs.
  destruct (ch =? "."%c) eqn:E1; boolify.
  { destruct (_ =? wrapU _ _) eqn:E2; [done|]. boolify. simplify_eq.
    apply (host_bytes_snoc pre _ s); [done..| |]; cbn; [by auto|]. intros ->. lia. }
  apply (host_bytes_snoc pre _ s); [done|..].
  - intros ->. done.
  - intros ->. done.
  - done.
  - intros Ha. unfold path_separator in Hs.
    repeat case_match; simplify_eq; boolify; cbn in *; split; done || lia.
Qed.

Lemma host_step_end h pre s ch s' :
  (length pre < length h)%nat -> (pre = [] -> head h = Some ch) -> host_end_ok h pre s ->
  host_step s (Z.of_nat (length pre)) ch = Some s' -> host_end_ok h (pre ++ [ch]) s'.
Proof.
  intros Hlen Hh [Hr He] Hs.
  assert (Hkeep : ch <> ":"%c \/ hstate s <> h_usual -> host_end_ok h (pre ++ [ch]) s).
  { intros Hk. split; [done|]. destruct (hstate s); [|done|].
    - destruct He as [He1 He2]. split; [done|]. rewrite in_app_iff. cbn. intuition.
    - destruct He as [He|[He1 He2]]; [by left|right]. split; [rewrite length_app; lia|].
      rewrite take_app_le by lia. done. }
  unfold host_step in Hs.
  destruct (ch =? "."%c) eqn:E1; boolify.
  { case_match; simplify_eq. apply Hkeep. left. lia. }
  destruct (ch =? ":"%c) eqn:E2; boolify.
  { destruct (hstate s) eqn:Est; simplify_eq; [|apply Hkeep; by right..].
    split; cbn; [lia|]. right. split; [rewrite length_app; lia|].
    rewrite Nat2Z.id, take_app_length. apply He. }
  assert (Hk := Hkeep (or_introl E2)). clear Hkeep.
  destruct (ch =? "["%c) eqn:E3; boolify.
  { destruct (_ =? 0) eqn:E4; simplify_eq; [|done]. boolify.
    destruct pre; [|done]. split; [done|]. by apply Hh. }
  destruct (ch =? "]"%c) eqn:E5; boolify.
  { destruct (hstate s); simplify_eq; [done| |done]. split; cbn; [lia|by left]. }
  destruct (ch =? 0); [done|]. destruct (path_separator ch); [done|].
  destruct (_ && _); simplify_eq; exact Hk.
Qed.

Lemma host_loop_inv h pre s rest s' :
  Z.of_nat (length h) < 2 ^ 64 -> h = pre ++ rest -> host_bytes pre s -> host_end_ok h pre s ->
  host_loop s (Z.of_nat (length pre)) rest = Some s' -> host_bytes h s' /\ host_end_ok h h s'.
Proof.
  revert pre s. induction rest as [|ch rest IH]; intros pre s Hlen Hh Hb He Hl; cbn in Hl.
  { injection Hl as <-. rewrite app_nil_r in Hh. by subst. }
  destruct (host_step s (Z.of_nat (length pre)) ch) as [s1|] eqn:E; [|done].
  assert (Hpre : (length pre < length h)%nat) by (rewrite Hh, length_app; cbn; lia).
  apply (IH (pre ++ [ch]) s1); [done|..].
  - by rewrite <- app_assoc.
  - apply (host_step_bytes pre s ch); [lia|done..].
  - apply (host_step_end h pre s ch); try done. intros ->. by rewrite Hh.
  - rewrite length_app. cbn. by replace (Z.of_nat (length pre + 1)) with (Z.of_nat (length pre) + 1) by lia.
Qed.

(** The parts of the host that survive taking a prefix. *)
Lemma avoids_take pat n l : avoids pat l -> avoids pat (take n l).
Proof.
  intros H a b E. apply (H a (b ++ drop n l)).
  rewrite <- (take_drop n l) at 1. rewrite E. by rewrite <- !app_assoc.
Qed.

Lemma strlow_fix l : Forall (fun c => ngx_tolower c = c) l -> ngx_strlow l = l.
Proof.
  unfold ngx_strlow. induction 1 as [|c l Hc _ IH]; [done|]. cbn. by rewrite Hc, IH.
Qed.

(** The last dot seen has an index of the host. *)
Lemma host_loop_dot s i h s' :
  host_loop s i h = Some s' ->
  dot_pos s' = dot_pos s \/ i <= dot_pos s' < i + Z.of_nat (length h).
Proof.
  revert s i. induction h as [|ch h IH]; intros s i H; cbn in H; [simplify_eq; by left|].
  destruct (host_step s i ch) as [s1|] eqn:E; [|done]. apply IH in H.
  assert (dot_pos s1 = dot_pos s \/ dot_pos s1 = i).
  { unfold host_step in E. repeat case_match; simplify_eq; cbn; auto. }
  cbn [length]. lia.
Qed.

(** Lower case has no capitals, and adds neither dots nor separators. *)
Lemma tolower_cases c :
  ngx_tolower c = c /\ ~ ("A"%c <= c <= "Z"%c) \/ "a"%c <= ngx_tolower c <= "z"%c.
Proof.
  unfold ngx_tolower. rewrite Z.geb_leb. destruct (_ && _) eqn:E; [right|left].
  - boolify. pose proof (below_spec 26 (fun d =>
      ("a"%c <=? Z.lor (d + "A"%c) 32) && (Z.lor (d + "A"%c) 32 <=? "z"%c)) (c - "A"%c)
      eq_refl ltac:(lia)) as Hc.
    cbn beta in Hc. rewrite Z.sub_add in Hc. boolify. lia.
  - split; [done|]. boolify; lia.
Qed.

Lemma strlow_avoids_dots l : avoids $".." l -> avoids $".." (ngx_strlow l).
Proof.
  intros H a b E. unfold ngx_strlow in E. apply map_eq_app in E as (l1 & l2 & -> & _ & E).
  apply map_eq_app in E as (l3 & l4 & -> & E & _). apply (H l1 l4). do 2 f_equal.
  assert (Hdot : forall c, ngx_tolower c = "."%c -> c = "."%c).
  { intros c Hc. destruct (tolower_cases c); lia. }
  destruct l3 as [|c [|d [|]]]; cbn in E; simplify_eq. by rewrite (Hdot c), (Hdot d).
Qed.

(** * Theorems *)

(** C1 The path a request is served under is safe to map to files: for every
    line the parser accepts without a space in the URI, whether the path is
    taken as it stands or normalised first, it begins with a slash, has no
    segment "." or ".." followed by a slash, no empty segment when slashes are
    merged, and no NUL; a line the normaliser refuses is answered with 400, and
    no NULL pointer is used. *)
Theorem served_path_safe merge buf p r q :
  0 <= p <= Z.of_nat (length buf) ->
  ngx_http_parse_request_line init_request (MkBuf buf p) = (r, q, NGX_OK) ->
  space_in_uri r = false ->
  match process_request_target merge r buf with
  | Ret (inl t) =>
    (exists rest, t_uri t = "/"%c :: rest) /\
    avoids $"/./" (t_uri t) /\ avoids $"/../" (t_uri t) /\
    (merge = true -> avoids $"//" (t_uri t)) /\
    Forall (fun c => c <> 0) (t_uri t)
  | Ret (inr code) => code = NGX_HTTP_BAD_REQUEST
  | _ => False
  end.
Proof.
  intros Hp Hparse Hsp.
  destruct (accepted_run buf p r q Hp Hparse) as (l & Hl & Hlq & u & v & Hu & Hv & Huv & Hsl &
    (m & e & Hm & He & Hme & Heu & _) & Hb & Hpath).
  unfold process_request_target, line_pointers. rewrite Hm, He, Hu, Hv, Hl.
  rewrite Hsp in Hb. unfold request_uri.
  destruct (complex_uri r || quoted_uri r) eqn:Ecq.
  - rewrite (slice_cons buf u v), Hsl by lia.
    destruct (ngx_http_parse_complex_uri _ _ _ _ _) as [n|rc] eqn:En; [|done].
    pose proof (complex_run merge (plus_in_uri r) (quoted_uri r) u (slice buf (u + 1) v)) as Ht.
    rewrite En in Ht. destruct Ht as (s & query & -> & Hi & Hlen).
    destruct (finish_tidy merge s query _ Hi Hlen) as (? & _ & ? & ? & ? & _).
    split_and!; try done.
    apply (complex_uri_nonzero _ _ _ _ _ _ En). rewrite <- Hsl, <- slice_cons by lia.
    apply no_breaks_nonzero; [lia..|done].
  - apply orb_false_iff in Ecq as [Hcx Hqu]. assert (Hsi : simple r) by done.
    cbn. set (e0 := match args_start r with Some a => a - 1 | None => v end).
    assert (He0 : u < e0 <= v /\ plain buf u e0).
    { unfold e0, path_ok in *. destruct (args_start r) as [a|]; [|split; [lia|auto]].
      destruct Hpath as [Ha Hpl]. split; [lia|auto]. }
    destruct He0 as [Hlt Hpl].
    destruct (plain_avoids buf u e0 ltac:(lia) ltac:(lia) Hpl) as (? & ? & ?).
    split_and!; try done.
    + rewrite slice_cons, Hsl by lia. eauto.
    + apply no_breaks_nonzero; [lia..|]. intros i Hi. apply Hb. lia.
Qed.

Definition quoted_line : list Z := $"GET /a/%2e%2e/b.mp4?x HTTP/1.1" ++ [CR; LF].

Definition quoted_request : request :=
  fst (fst (ngx_http_parse_request_line init_request (MkBuf quoted_line 0))).

Lemma served_path_safe_witness :
  match process_request_target true quoted_request quoted_line with
  | Ret (inl t) =>
    (exists rest, t_uri t = "/"%c :: rest) /\
    avoids $"/./" (t_uri t) /\ avoids $"/../" (t_uri t) /\
    (true = true -> avoids $"//" (t_uri t)) /\
    Forall (fun c => c <> 0) (t_uri t)
  | Ret (inr code) => code = NGX_HTTP_BAD_REQUEST
  | _ => False
  end.
Proof.
  apply (served_path_safe true quoted_line 0 quoted_request 32); [cbn; lia|..];
    vm_compute; reflexivity.
Defined.

(** The host a request names is a name: it is not empty, it is a prefix of
    what the client sent put in lower case, it holds no NUL, no slash, no capital
    and no two dots in a row, and unless the client sent an IP literal in
    brackets it ends before the first colon. *)
Theorem validated_host alloc_ok h alloc0 x :
  Z.of_nat (length h) < 2 ^ 63 ->
  ngx_http_validate_host alloc_ok h alloc0 = Some x ->
  x <> [] /\ (exists n, x = ngx_strlow (take n h)) /\
  Forall (fun c => c <> 0 /\ c <> "/"%c /\ ~ ("A"%c <= c <= "Z"%c)) x /\
  avoids $".." x /\
  (head h <> Some "["%c -> ~ In ":"%c x).
Proof.
  intros Hlen H. unfold ngx_http_validate_host in H.
  destruct (host_loop _ 0 h) as [s|] eqn:El; [|done].
  pose proof (host_loop_dot _ _ _ _ El) as Hdp. cbn in Hdp.
  apply (host_loop_inv h [] _ h) in El as [(Hb & Hd & _ & Hup) [Hr He]]; [|lia|done|..].
  2: { split_and!; [done| |done|done]. intros [] ?; done. }
  2: { split; cbn; [lia|]. split; [done|auto]. }
  cbn zeta in H. set (n := if _ =? _ then host_len s - 1 else host_len s) in H.
  assert (Hn : 0 <= n <= host_len s).
  { unfold n. case_if E; boolify; [|lia]. destruct (decide (host_len s = 0)) as [H0|]; [|lia].
    rewrite H0 in E. vm_compute (wrapU 64 (0 - 1)) in E. lia. }
  destruct (n =? 0) eqn:En; [done|]. boolify.
  assert (Hx : x = ngx_strlow (take (Z.to_nat n) h)).
  { destruct (alloc s); [destruct alloc_ok; by simplify_eq|]. simplify_eq.
    symmetry. apply strlow_fix, Forall_take. by apply Hup. }
  rewrite Hx. split_and!.
  - intros Hnil. apply (f_equal length) in Hnil. unfold ngx_strlow in Hnil.
    rewrite length_map, length_take in Hnil. cbn in Hnil. lia.
  - by exists (Z.to_nat n).
  - apply Forall_map, Forall_take. eapply Forall_impl; [exact Hb|]. cbn.
    intros c [Hc0 Hcs]. destruct (tolower_cases c) as [[-> ?]|?]; [done|lia].
  - by apply strlow_avoids_dots, avoids_take.
  - intros Hlit Hin. apply in_map_iff in Hin as (c & Hc & Hin).
    assert (c = ":"%c) as -> by (destruct (tolower_cases c); lia). clear Hc.
    assert (Hsub : In ":"%c (take (Z.to_nat (host_len s)) h)).
    { rewrite <- (take_drop (Z.to_nat n)). rewrite in_app_iff. left.
      rewrite take_take. by replace (Z.to_nat n `min` Z.to_nat (host_len s))%nat with (Z.to_nat n) by lia. }
    destruct (hstate s).
    + destruct He as [He Hno]. apply Hno. rewrite take_ge in Hsub by lia. done.
    + done.
    + destruct He as [He|[_ Hno]]; [done|]. by apply Hno.
Qed.

Lemma validated_host_witness :
  $"vod.example" <> [] /\ (exists n, $"vod.example" = ngx_strlow (take n $"VOD.example.:8080")) /\
  Forall (fun c => c <> 0 /\ c <> "/"%c /\ ~ ("A"%c <= c <= "Z"%c)) $"vod.example" /\
  avoids $".." $"vod.example" /\
  (head $"VOD.example.:8080" <> Some "["%c -> ~ In ":"%c $"vod.example").
Proof.
  apply (validated_host true $"VOD.example.:8080" false); [cbn; lia|vm_compute; reflexivity].
Defined.
