(* ===== verification/NgxHeaderLine.v ===== *)
(** The header-line parser: [ngx_http_parse_header_line] of
    src/http/ngx_http_parse.c, used for the headers of clients and of
    upstream servers.

    The locals [hash] and [i] are kept in the fields they are loaded from and
    saved to, r->header_hash and r->lowcase_index; the paths that leave the
    function without saving them end the request or its header, after which
    the two are not read again. *)

From S2P Require Import Prelude NgxMachine NgxRequestLine.

Module HeaderLine.

Definition NGX_HTTP_PARSE_HEADER_DONE : Z := 1.
Definition NGX_HTTP_PARSE_INVALID_HEADER : Z := 13.
Definition NGX_HTTP_LC_HEADER_LEN : Z := 32.

(** [#define ngx_hash(key, c)   ((ngx_uint_t) key * 31 + c)]. *)
Definition ngx_hash (key c : Z) : Z := wrapU 64 (key * 31 + c).

(** The table [lowcase]: the bytes of a header name in lower case, 0 for the
    bytes that do not belong there. *)
Definition lowcase_map : list Z :=
  replicate 32 0
    ++ replicate 13 0 ++ ["-"%c; 0; 0] ++ $"0123456789" ++ replicate 6 0
    ++ [0] ++ $"abcdefghijklmnopqrstuvwxyz" ++ replicate 5 0
    ++ [0] ++ $"abcdefghijklmnopqrstuvwxyz" ++ replicate 5 0
    ++ replicate 128 0.

Definition lowcase (ch : Z) : Z := nth (Z.to_nat ch) lowcase_map 0.

Inductive hl_state :=
| hl_start | hl_name | hl_space_before_value | hl_value | hl_space_after_value
| hl_ignore_line | hl_almost_done | hl_header_almost_done.

#[global] Instance hl_state_eq_dec : EqDecision hl_state.
Proof. solve_decision. Defined.

Record header := MkHeader {
  hl : hl_state;
  header_hash : Z; lowcase_index : Z; lowcase_header : list Z;
  invalid_header : bool;
  header_name_start : option Z; header_name_end : option Z;
  header_start : option Z; header_end : option Z }.

Definition header_eta (r : header) : header :=
  MkHeader (hl r) (header_hash r) (lowcase_index r) (lowcase_header r) (invalid_header r)
    (header_name_start r) (header_name_end r) (header_start r) (header_end r).

Definition set_hl v (r : header) : header := ltac:(record_set header_eta hl v r).
Definition set_hash v (r : header) : header := ltac:(record_set header_eta header_hash v r).
Definition set_index v (r : header) : header := ltac:(record_set header_eta lowcase_index v r).
Definition set_lowcase v (r : header) : header := ltac:(record_set header_eta lowcase_header v r).
Definition set_invalid v (r : header) : header := ltac:(record_set header_eta invalid_header v r).
Definition set_name_start v (r : header) : header := ltac:(record_set header_eta header_name_start v r).
Definition set_name_end v (r : header) : header := ltac:(record_set header_eta header_name_end v r).
Definition set_start v (r : header) : header := ltac:(record_set header_eta header_start v r).
Definition set_end v (r : header) : header := ltac:(record_set header_eta header_end v r).

Definition init_header : header :=
  MkHeader hl_start 0 0 (replicate 32 0) false None None None None.

Inductive hl_label := hl_done | hl_header_done.

Definition hl_res : Type := step_result header hl_label.

Definition to (st : hl_state) (r : header) : hl_res := Go (set_hl st r).

Definition bad_header (r : header) : hl_res := Return r NGX_HTTP_PARSE_INVALID_HEADER.

(** [hash = ngx_hash(hash, c); r->lowcase_header[i++] = c;
    i &= (NGX_HTTP_LC_HEADER_LEN - 1);] *)
Definition name_char (c : Z) (r : header) : header :=
  set_index (Z.land (lowcase_index r + 1) (NGX_HTTP_LC_HEADER_LEN - 1))
    (set_lowcase (<[Z.to_nat (lowcase_index r) := c]> (lowcase_header r))
      (set_hash (ngx_hash (header_hash r) c) r)).

(** [hash = ngx_hash(0, c); r->lowcase_header[0] = c; i = 1;] *)
Definition first_name_char (c : Z) (r : header) : header :=
  set_index 1 (set_lowcase (<[0%nat := c]> (lowcase_header r)) (set_hash (ngx_hash 0 c) r)).

Definition step_hl_start (r : header) (p ch : Z) : hl_res :=
  let r := set_invalid false (set_name_start (Some p) r) in
  if ch =? CR then to hl_header_almost_done (set_end (Some p) r)
  else if ch =? LF then Goto (set_end (Some p) r) hl_header_done
  else
    let r := set_hl hl_name r in
    let c := lowcase ch in
    if negb (c =? 0) then Go (first_name_char c r)
    else if ch =? 0 then bad_header r
    else Go (set_invalid true r).

(** [allow_underscores] is the argument, [upstream] says whether r->upstream
    is set: a server may repeat its status line among the headers. *)
Definition step_hl_name (allow_underscores upstream : bool) (buf : list Z)
    (r : header) (p ch : Z) : hl_res :=
  let c := lowcase ch in
  if negb (c =? 0) then Go (name_char c r)
  else if ch =? "_"%c then
    if allow_underscores then Go (name_char ch r) else Go (set_invalid true r)
  else if ch =? ":"%c then to hl_space_before_value (set_name_end (Some p) r)
  else if ch =? CR then
    to hl_almost_done (set_end (Some p) (set_start (Some p) (set_name_end (Some p) r)))
  else if ch =? LF then
    Goto (set_end (Some p) (set_start (Some p) (set_name_end (Some p) r))) hl_done
  else if (ch =? "/"%c) && upstream
          && (match header_name_start r with
              | Some s => (p - s =? 4) && str_at buf s $"HTTP"
              | None => false
              end)
  then to hl_ignore_line r
  else if ch =? 0 then bad_header r
  else Go (set_invalid true r).

Definition step_hl_space_before_value (r : header) (p ch : Z) : hl_res :=
  if ch =? " "%c then Go r
  else if ch =? CR then to hl_almost_done (set_end (Some p) (set_start (Some p) r))
  else if ch =? LF then Goto (set_end (Some p) (set_start (Some p) r)) hl_done
  else if ch =? 0 then bad_header r
  else to hl_value (set_start (Some p) r).

Definition step_hl_value (r : header) (p ch : Z) : hl_res :=
  if ch =? " "%c then to hl_space_after_value (set_end (Some p) r)
  else if ch =? CR then to hl_almost_done (set_end (Some p) r)
  else if ch =? LF then Goto (set_end (Some p) r) hl_done
  else if ch =? 0 then bad_header r
  else Go r.

Definition step_hl_space_after_value (r : header) (p ch : Z) : hl_res :=
  if ch =? " "%c then Go r
  else if ch =? CR then to hl_almost_done r
  else if ch =? LF then Goto r hl_done
  else if ch =? 0 then bad_header r
  else to hl_value r.

Definition step_hl_ignore_line (r : header) (p ch : Z) : hl_res :=
  if ch =? LF then to hl_start r else Go r.

Definition step_hl_almost_done (r : header) (p ch : Z) : hl_res :=
  if ch =? LF then Goto r hl_done
  else if ch =? CR then Go r
  else bad_header r.

Definition step_hl_header_almost_done (r : header) (p ch : Z) : hl_res :=
  if ch =? LF then Goto r hl_header_done else bad_header r.

Definition hl_step (allow_underscores upstream : bool) : body header hl_label := fun buf r =>
  match hl r with
  | hl_start => step_hl_start r
  | hl_name => step_hl_name allow_underscores upstream buf r
  | hl_space_before_value => step_hl_space_before_value r
  | hl_value => step_hl_value r
  | hl_space_after_value => step_hl_space_after_value r
  | hl_ignore_line => step_hl_ignore_line r
  | hl_almost_done => step_hl_almost_done r
  | hl_header_almost_done => step_hl_header_almost_done r
  end.

(** The labels done and header_done. *)
Definition hl_finish (r : header) (l : hl_label) : header * Z :=
  (set_hl hl_start r,
   match l with hl_done => NGX_OK | hl_header_done => NGX_HTTP_PARSE_HEADER_DONE end).

Definition ngx_http_parse_header_line (allow_underscores upstream : bool)
    : header -> ngx_buf_t -> header * Z * Z :=
  parse_with (hl_step allow_underscores upstream) (fun r _ l => hl_finish r l).

End HeaderLine.
Export HeaderLine.

(** * Parsing in pieces *)

#[global] Instance hl_step_machine a u : ByteMachine (hl_step a u).
Proof.
  intros buf more r p ch Hp. unfold hl_step. destruct (hl r); try done.
  unfold step_hl_name. destruct (header_name_start r) as [s|]; [|done].
  destruct (p - s =? 4) eqn:E; [|done]. boolify.
  rewrite (str_at_local buf more s p) by (cbn; lia). done.
Qed.

Lemma hl_step_code a u buf r p ch r' rc :
  hl_step a u buf r p ch = Return r' rc -> rc <> NGX_AGAIN /\ rc <> NGX_OK.
Proof.
  unfold hl_step. destruct (hl r);
    unfold step_hl_start, step_hl_name, step_hl_space_before_value, step_hl_value,
      step_hl_space_after_value, step_hl_ignore_line, step_hl_almost_done,
      step_hl_header_almost_done, to, bad_header.
  all: intros H; repeat case_match; simplify_eq; done.
Qed.

Lemma hl_finish_code r l : snd (hl_finish r l) <> NGX_AGAIN.
Proof. destruct l; done. Qed.

(** * A well-formed header line *)

(** A byte of a name and what it becomes. *)
Definition name_ok (allow : bool) (c : Z) : bool :=
  negb (lowcase c =? 0) || (allow && (c =? "_"%c)).

Definition lc (c : Z) : Z := if lowcase c =? 0 then c else lowcase c.

Definition add_name (r : header) (l : list Z) : header :=
  fold_left (fun r c => name_char (lc c) r) l r.

Lemma underscore_lowcase : lowcase "_"%c = 0.
Proof. reflexivity. Qed.

Section Header.
Context (allow upstream : bool) (buf : list Z).

Lemma run_name l p r :
  forallb (name_ok allow) l = true -> hl r = hl_name ->
  run_loop (hl_step allow upstream) buf l p r = Exhausted (add_name r l) (p + Z.of_nat (length l)).
Proof.
  revert p r. induction l as [|c l IH]; intros p r Hl Hst; [cbn; by rewrite Z.add_0_r|].
  cbn [forallb] in Hl. apply andb_true_iff in Hl as [Hc Hl]. cbn [run_loop length].
  replace (hl_step allow upstream buf r p c) with (@Go header hl_label (name_char (lc c) r)).
  - rewrite IH by done. cbn [add_name fold_left]. f_equal. lia.
  - unfold hl_step. rewrite Hst. unfold step_hl_name, lc. unfold name_ok in Hc.
    destruct (lowcase c =? 0); [|done]. cbn in Hc. destruct allow; [|done]. cbn in Hc. by rewrite Hc.
Qed.

Lemma run_spaces_before n p r :
  hl r = hl_space_before_value ->
  run_loop (hl_step allow upstream) buf (replicate n " "%c) p r = Exhausted r (p + Z.of_nat n).
Proof.
  intros Hst. revert p. induction n as [|n IH]; intros p; [cbn; by rewrite Z.add_0_r|].
  cbn [replicate run_loop]. unfold hl_step at 1. rewrite Hst. cbn. rewrite IH. f_equal. lia.
Qed.

Lemma run_spaces_after n p r :
  hl r = hl_space_after_value ->
  run_loop (hl_step allow upstream) buf (replicate n " "%c) p r = Exhausted r (p + Z.of_nat n).
Proof.
  intros Hst. revert p. induction n as [|n IH]; intros p; [cbn; by rewrite Z.add_0_r|].
  cbn [replicate run_loop]. unfold hl_step at 1. rewrite Hst. cbn. rewrite IH. f_equal. lia.
Qed.

(** A byte of a value. *)
Definition value_char (c : Z) : bool := negb ((c =? CR) || (c =? LF) || (c =? 0)).

(** Inside the value, with the end of the last word remembered. *)
Lemma run_value l p r :
  forallb value_char l = true -> hl r = hl_value \/ hl r = hl_space_after_value ->
  exists e, run_loop (hl_step allow upstream) buf l p r =
    Exhausted (set_end e (set_hl (match last l with
                                  | Some c => if c =? " "%c then hl_space_after_value else hl_value
                                  | None => hl r
                                  end) r)) (p + Z.of_nat (length l)).
Proof.
  revert p r. induction l as [|c l IH]; intros p r Hl Hst.
  { exists (header_end r). cbn. rewrite Z.add_0_r. f_equal. by destruct r. }
  cbn [forallb] in Hl. apply andb_true_iff in Hl as [Hc Hl].
  assert (Hstep : exists e st, hl_step allow upstream buf r p c = Go (set_end e (set_hl st r)) /\
    st = if c =? " "%c then hl_space_after_value else hl_value).
  { unfold value_char in Hc. boolify. unfold hl_step.
    destruct Hst as [Hst|Hst]; rewrite Hst; unfold step_hl_value, step_hl_space_after_value, to.
    all: apply Z.eqb_neq in H, H0, H1; rewrite ?H, ?H0, ?H1; destruct (c =? " "%c) eqn:Es.
    1: by exists (Some p), hl_space_after_value.
    all: exists (header_end r); eexists; split; [|reflexivity]; destruct r; cbn in *; by subst. }
  destruct Hstep as (e & st & Hgo & Hs). cbn [run_loop length]. rewrite Hgo.
  destruct (IH (p + 1) (set_end e (set_hl st r)) Hl) as [e' He'].
  { subst st. cbn. destruct (c =? " "%c); auto. }
  exists e'. rewrite He'. f_equal; [|lia]. rewrite last_cons. cbn. rewrite Hs.
  destruct (last l); done.
Qed.

(** Trailing spaces and the end of the line. *)
Lemma run_line_end n p r :
  hl r = hl_value ->
  run_loop (hl_step allow upstream) buf (replicate n " "%c ++ [CR; LF]) p r =
    Jumped (set_hl hl_almost_done (set_end (Some p) r)) (p + Z.of_nat n + 1) hl_done.
Proof.
  intros Hst. rewrite run_loop_app. destruct n as [|n].
  - cbn. unfold hl_step at 1. rewrite Hst. cbn. by rewrite Z.add_0_r.
  - cbn [replicate run_loop]. unfold hl_step at 1. rewrite Hst. cbn - [run_loop].
    rewrite run_spaces_after by done. cbn. f_equal; lia.
Qed.
End Header.

(** The parts of a line. *)
Record header_parts := MkParts {
  h_name : list Z; h_before : nat; h_value : list Z; h_after : nat }.

Definition header_text (t : header_parts) : list Z :=
  h_name t ++ [":"%c] ++ replicate (h_before t) " "%c ++ h_value t
    ++ replicate (h_after t) " "%c ++ [CR; LF].

Definition parts_fit (allow : bool) (t : header_parts) : bool :=
  match h_name t, h_value t, last (h_value t) with
  | c :: _, v :: _, Some w =>
    negb (lowcase c =? 0) && negb (c =? CR) && negb (c =? LF)
      && forallb (name_ok allow) (h_name t)
      && forallb value_char (h_value t) && negb (v =? " "%c) && negb (w =? " "%c)
  | _, _, _ => false
  end.

Lemma add_name_fields l r :
  hl (add_name r l) = hl r /\ invalid_header (add_name r l) = invalid_header r /\
  header_name_start (add_name r l) = header_name_start r /\
  header_hash (add_name r l) = fold_left ngx_hash (map lc l) (header_hash r).
Proof.
  revert r. induction l as [|c l IH]; intros r; [done|]. cbn [add_name fold_left map].
  destruct (IH (name_char (lc c) r)) as (H1 & H2 & H3 & H4). unfold add_name in *.
  by rewrite H1, H2, H3, H4.
Qed.

(** A name that fits in the array is there in lower case. *)
Lemma add_name_lowcase l r :
  0 <= lowcase_index r -> lowcase_index r + Z.of_nat (length l) < 32 ->
  length (lowcase_header r) = 32%nat ->
  lowcase_index (add_name r l) = lowcase_index r + Z.of_nat (length l) /\
  take (Z.to_nat (lowcase_index r) + length l) (lowcase_header (add_name r l)) =
    take (Z.to_nat (lowcase_index r)) (lowcase_header r) ++ map lc l.
Proof.
  revert r. induction l as [|c l IH]; intros r H0 Hi Hl.
  { cbn. by rewrite Z.add_0_r, Nat.add_0_r, app_nil_r. }
  cbn [add_name fold_left map length] in *.
  assert (Hidx : lowcase_index (name_char (lc c) r) = lowcase_index r + 1).
  { cbn [lowcase_index name_char set_index].
    change (NGX_HTTP_LC_HEADER_LEN - 1) with (Z.ones 5). rewrite Z.land_ones by lia. apply Z.mod_small.
    change (2 ^ 5) with 32. lia. }
  destruct (IH (name_char (lc c) r)) as [H1 H2].
  { lia. }
  { lia. }
  { cbn. by rewrite length_insert. }
  unfold add_name in *. rewrite H1, Hidx in *. split; [lia|].
  replace (Z.to_nat (lowcase_index r) + S (length l))%nat
    with (Z.to_nat (lowcase_index r + 1) + length l)%nat by lia.
  rewrite H2. cbn [lowcase_header name_char set_index set_lowcase set_hash].
  replace (Z.to_nat (lowcase_index r + 1)) with (S (Z.to_nat (lowcase_index r))) by lia.
  rewrite (take_S_r _ _ (lc c)) by (apply list_lookup_insert_eq; lia).
  rewrite take_insert_ge by lia. by rewrite <- app_assoc.
Qed.

(** The request when the value begins. *)
Definition named (r : header) (c : Z) (rest : list Z) : header :=
  add_name (first_name_char (lowcase c) (set_hl hl_name (set_invalid false
    (set_name_start (Some 0) r)))) rest.

Section HeaderRun.
Context (allow upstream : bool) (buf : list Z).

Lemma run_header_name r c rest :
  hl r = hl_start -> lowcase c <> 0 -> c <> CR -> c <> LF ->
  forallb (name_ok allow) rest = true ->
  run_loop (hl_step allow upstream) buf (c :: rest ++ [":"%c]) 0 r =
    Exhausted (set_hl hl_space_before_value
      (set_name_end (Some (Z.of_nat (length (c :: rest)))) (named r c rest)))
      (Z.of_nat (length (c :: rest)) + 1).
Proof.
  intros Hst Hc Hcr Hlf Hrest. apply Z.eqb_neq in Hc, Hcr, Hlf.
  cbn [run_loop]. unfold hl_step at 1. rewrite Hst. unfold step_hl_start.
  rewrite Hc, Hcr, Hlf. cbn [negb]. rewrite run_loop_app, run_name by done.
  fold (named r c rest). cbn [run_loop].
  replace (0 + 1 + Z.of_nat (length rest)) with (Z.of_nat (length (c :: rest))) by (cbn; lia).
  unfold hl_step at 1. unfold named at 1. rewrite (proj1 (add_name_fields _ _)). done.
Qed.

Lemma run_header_value n v m p r :
  hl r = hl_space_before_value -> forallb value_char v = true ->
  head v <> Some " "%c -> (exists w, last v = Some w /\ w <> " "%c) ->
  run_loop (hl_step allow upstream) buf
    (replicate n " "%c ++ v ++ replicate m " "%c ++ [CR; LF]) p r =
    Jumped (set_hl hl_almost_done (set_end (Some (p + Z.of_nat n + Z.of_nat (length v)))
      (set_start (Some (p + Z.of_nat n)) r)))
      (p + Z.of_nat n + Z.of_nat (length v) + Z.of_nat m + 1) hl_done.
Proof.
  intros Hst Hv Hhead (w & Hw & Hws). rewrite run_loop_app, run_spaces_before by done.
  destruct v as [|c v]; [done|]. cbn [app run_loop].
  cbn [forallb] in Hv. apply andb_true_iff in Hv as [Hc Hv].
  replace (hl_step allow upstream buf r (p + Z.of_nat n) c) with
    (@Go header hl_label (set_hl hl_value (set_start (Some (p + Z.of_nat n)) r))).
  2: { unfold hl_step. rewrite Hst. unfold step_hl_space_before_value.
       unfold value_char in Hc. boolify. apply Z.eqb_neq in H, H0, H1. rewrite H, H0, H1.
       destruct (c =? " "%c) eqn:E; [|done]. boolify. by subst. }
  rewrite run_loop_app.
  destruct (run_value allow upstream buf v (p + Z.of_nat n + 1)
    (set_hl hl_value (set_start (Some (p + Z.of_nat n)) r)) Hv ltac:(auto)) as [e ->].
  rewrite run_line_end.
  - cbn [length]. f_equal; [|lia].
    replace (p + Z.of_nat n + Z.of_nat (S (length v))) with (p + Z.of_nat n + 1 + Z.of_nat (length v))
      by lia. by destruct r.
  - cbn. rewrite last_cons in Hw. destruct (last v) as [x|]; [|done]. simplify_eq.
    by apply Z.eqb_neq in Hws; rewrite Hws.
Qed.
End HeaderRun.

(** * What an accepted header line looks like *)

Section HeaderShape.
Context (buf : list Z).

Notation "'B' i" := (byte_at buf i) (at level 9, i at level 9).

(** [a, b) holds no line break and no NUL. *)
Definition printable (a b : Z) : Prop :=
  forall i, a <= i < b -> B i <> CR /\ B i <> LF /\ B i <> 0.

(** The name lies in [m, e). *)
Definition name_read (r : header) (p : Z) : Prop :=
  exists m, header_name_start r = Some m /\ 0 <= m < p /\ printable m p.

Definition name_done (r : header) (p : Z) : Prop :=
  exists m e, header_name_start r = Some m /\ header_name_end r = Some e /\
    0 <= m < e /\ e < p /\ printable m e.

(** The value lies in [s, e) and begins with no space. *)
Definition value_done (r : header) (p : Z) : Prop :=
  exists m e s v, header_name_start r = Some m /\ header_name_end r = Some e /\
    header_start r = Some s /\ header_end r = Some v /\
    0 <= m < e /\ e <= s <= v /\ v <= p /\ printable m e /\ printable s v /\
    (s < v -> B s <> " "%c /\ B (v - 1) <> " "%c).

Definition value_read (r : header) (p : Z) : Prop :=
  name_done r p /\ exists s, header_start r = Some s /\
    (exists e, header_name_end r = Some e /\ e < s) /\ s < p /\ printable s p /\ B s <> " "%c.

Definition hl_inv (p : Z) (r : header) : Prop :=
  match hl r with
  | hl_start | hl_ignore_line | hl_header_almost_done => True
  | hl_name => name_read r p
  | hl_space_before_value => name_done r p
  | hl_value => value_read r p /\ B (p - 1) <> " "%c
  | hl_space_after_value => value_read r p /\ value_done r p
  | hl_almost_done => value_done r p
  end.

Definition hl_post (p : Z) (r : header) (l : hl_label) : Prop :=
  match l with hl_done => value_done r p | hl_header_done => True end.

Lemma printable_snoc a p :
  printable a p -> B p <> CR -> B p <> LF -> B p <> 0 -> printable a (p + 1).
Proof. intros H ? ? ? i Hi. destruct (decide (i = p)) as [->|]; [done|]. apply H. lia. Qed.

Lemma printable_le a p q : printable a p -> q <= p -> printable a q.
Proof. intros H Hq i Hi. apply H. lia. Qed.

Lemma printable_empty a : printable a a.
Proof. intros i Hi. lia. Qed.

Lemma value_done_next r p : value_done r p -> value_done r (p + 1).
Proof.
  intros (m & e & st & v & ? & ? & ? & ? & ? & ? & ? & ? & ? & ?).
  exists m, e, st, v. split_and!; done || lia.
Qed.

(** The value ends before the byte at [p]. *)
Lemma value_read_done r p :
  value_read r p -> B (p - 1) <> " "%c -> value_done (set_end (Some p) r) p.
Proof.
  intros ((m & e & Hm & He & Hme & Hep & Hpr) & s & Hs & (e' & He' & Hes) & Hsp & Hps & Hb) Hl.
  exists m, e, s, p. cbn. simplify_eq. split_and!; done || lia.
Qed.

Lemma value_read_next r p :
  value_read r p -> B p <> CR -> B p <> LF -> B p <> 0 -> value_read r (p + 1).
Proof.
  intros ((m & e & Hm & He & Hme & Hep & Hpr) & s & Hs & Hes & Hsp & Hps & Hb) ? ? ?.
  split; [exists m, e; split_and!; done || lia|]. exists s.
  split_and!; [done..|lia|by apply printable_snoc|done].
Qed.

(** An empty value at [p]. *)
Lemma name_done_empty r p :
  name_done r p -> value_done (set_end (Some p) (set_start (Some p) r)) p.
Proof.
  intros (m & e & Hm & He & Hme & Hep & Hpr). exists m, e, p, p. cbn.
  split_and!; [done..|lia|lia|lia|lia|lia|done|apply printable_empty|lia].
Qed.

(** A name without a value. *)
Lemma name_read_end r p :
  name_read r p ->
  value_done (set_end (Some p) (set_start (Some p) (set_name_end (Some p) r))) p.
Proof.
  intros (m & Hm & Hmp & Hpr). exists m, p, p, p. cbn.
  split_and!; [done..|lia|lia|lia|lia|lia|done|apply printable_empty|lia].
Qed.

Lemma name_read_next r p :
  name_read r p -> B p <> CR -> B p <> LF -> B p <> 0 -> name_read r (p + 1).
Proof.
  intros (m & Hm & Hmp & Hpr) ? ? ?. exists m.
  split_and!; [done|lia..|by apply printable_snoc].
Qed.

Lemma lowcase_zero c : lowcase c <> 0 -> c <> CR /\ c <> LF /\ c <> 0.
Proof. intros H. split_and!; intros ->; by vm_compute in H. Qed.

Definition hl_keeps (p : Z) (res : hl_res) : Prop :=
  match res with
  | Go r => hl_inv (p + 1) r
  | Goto r l => hl_post p r l
  | Return _ _ => True
  end.

Ltac hl_branches :=
  repeat match goal with
  | |- context [if ?b then _ else _] => let E := fresh "E" in destruct b eqn:E; boolify
  end; try exact I; subst.

Lemma hl_start_keeps r p : 0 <= p -> hl_keeps p (step_hl_start r p (B p)).
Proof.
  intros Hp. unfold step_hl_start.
  assert (Hn : B p <> CR -> B p <> LF -> B p <> 0 ->
    name_read (set_name_start (Some p) r) (p + 1)).
  { intros. exists p. split_and!; [done|lia..|]. apply printable_snoc; [|done..]. apply printable_empty. }
  hl_branches; apply Hn; done || (apply lowcase_zero; done).
Qed.

Lemma hl_name_keeps a u r p :
  hl r = hl_name -> name_read r p -> hl_keeps p (step_hl_name a u buf r p (B p)).
Proof.
  intros Hst Hr. unfold step_hl_name. pose proof (name_read_next r p Hr) as Hn.
  assert (Hstay : forall r', hl r' = hl_name -> name_read r' (p + 1) -> hl_keeps p (Go r')).
  { intros r' Hst' Hr'. unfold hl_keeps, hl_inv. by rewrite Hst'. }
  destruct (negb (lowcase (B p) =? 0)) eqn:E0; boolify.
  { apply lowcase_zero in E0 as (? & ? & ?). apply Hstay; [exact Hst|by apply Hn]. }
  destruct (B p =? "_"%c) eqn:E1; boolify.
  { rewrite E1 in *. destruct a; (apply Hstay; [exact Hst|by apply Hn]). }
  destruct (B p =? ":"%c) eqn:E2; boolify.
  { destruct Hr as (m & Hm & Hmp & Hpr). exists m, p. cbn. split_and!; done || lia. }
  destruct (B p =? CR) eqn:E3; boolify.
  { by apply value_done_next, name_read_end. }
  destruct (B p =? LF) eqn:E4; boolify.
  { by apply name_read_end. }
  destruct (_ && _); [done|]. destruct (B p =? 0) eqn:E5; boolify; [done|].
  apply Hstay; [exact Hst|by apply Hn].
Qed.

Lemma hl_before_keeps r p :
  hl r = hl_space_before_value -> name_done r p ->
  hl_keeps p (step_hl_space_before_value r p (B p)).
Proof.
  intros Hst Hr. unfold step_hl_space_before_value.
  assert (Hnext : name_done r (p + 1)).
  { destruct Hr as (m & e & ? & ? & ? & ? & ?). exists m, e. split_and!; done || lia. }
  hl_branches.
  - unfold hl_keeps, hl_inv. by rewrite Hst.
  - by apply value_done_next, name_done_empty.
  - by apply name_done_empty.
  - split; [split; [exact Hnext|]|by replace (p + 1 - 1) with p by lia].
    exists p. cbn. destruct Hr as (m & e & ? & ? & ? & ? & ?).
    split_and!; [done|by exists e|lia| |done].
    apply printable_snoc; [apply printable_empty|done..].
Qed.

Lemma hl_value_keeps r p :
  hl r = hl_value -> value_read r p -> B (p - 1) <> " "%c ->
  hl_keeps p (step_hl_value r p (B p)).
Proof.
  intros Hst Hr Hl. unfold step_hl_value. pose proof (value_read_done r p Hr Hl) as Hd.
  hl_branches.
  - split; [|by apply value_done_next]. apply (value_read_next r p Hr); rewrite E; done.
  - by apply value_done_next.
  - done.
  - unfold hl_keeps, hl_inv. rewrite Hst. split; [by apply value_read_next|].
    by replace (p + 1 - 1) with p by lia.
Qed.

Lemma hl_after_keeps r p :
  hl r = hl_space_after_value -> value_read r p -> value_done r p ->
  hl_keeps p (step_hl_space_after_value r p (B p)).
Proof.
  intros Hst Hr Hd. unfold step_hl_space_after_value. hl_branches.
  - unfold hl_keeps, hl_inv. rewrite Hst. split; [|by apply value_done_next].
    apply value_read_next; rewrite ?E; done.
  - by apply value_done_next.
  - done.
  - split; [by apply (value_read_next r p)|]. by replace (p + 1 - 1) with p by lia.
Qed.

Lemma hl_step_keeps a u r p ch :
  0 <= p -> ch = B p -> hl_inv p r -> hl_keeps p (hl_step a u buf r p ch).
Proof.
  intros Hp -> Hi. unfold hl_inv in Hi. unfold hl_step. destruct (hl r) eqn:Hst.
  - by apply hl_start_keeps.
  - by apply hl_name_keeps.
  - by apply hl_before_keeps.
  - destruct Hi. by apply hl_value_keeps.
  - destruct Hi. by apply hl_after_keeps.
  - unfold step_hl_ignore_line. hl_branches. unfold hl_keeps, hl_inv. by rewrite Hst.
  - unfold step_hl_almost_done. hl_branches; [done|].
    unfold hl_keeps, hl_inv. rewrite Hst. by apply value_done_next.
  - unfold step_hl_header_almost_done. hl_branches.
Qed.
End HeaderShape.

Lemma run_header allow upstream buf r t c rest :
  hl r = hl_start -> parts_fit allow t = true -> h_name t = c :: rest ->
  run_loop (hl_step allow upstream) buf (header_text t) 0 r =
    Jumped (set_hl hl_almost_done
      (set_end (Some (Z.of_nat (length (h_name t) + 1 + h_before t + length (h_value t))))
        (set_start (Some (Z.of_nat (length (h_name t) + 1 + h_before t)))
          (set_name_end (Some (Z.of_nat (length (h_name t)))) (named r c rest)))))
      (Z.of_nat (length (header_text t)) - 1) hl_done.
Proof.
  intros Hst Hfit Hn. unfold parts_fit in Hfit. rewrite Hn in Hfit.
  destruct (h_value t) as [|v vs] eqn:Hv; [done|]. rewrite <- Hv in *.
  destruct (last (h_value t)) as [w|] eqn:Hw; [|done]. cbn [forallb] in Hfit. boolify.
  assert (Htext : header_text t = (c :: rest ++ [":"%c]) ++ replicate (h_before t) " "%c
    ++ h_value t ++ replicate (h_after t) " "%c ++ [CR; LF])
    by (unfold header_text; rewrite Hn; cbn; by rewrite <- app_assoc).
  rewrite Htext, run_loop_app, run_header_name by done.
  rewrite run_header_value; [|done|done|by rewrite Hv; intros [= ->]|by exists w].
  rewrite Hn. f_equal.
  - replace (Z.of_nat (length (c :: rest)) + 1 + Z.of_nat (h_before t))
      with (Z.of_nat (length (c :: rest) + 1 + h_before t)) by lia.
    replace (Z.of_nat (length (c :: rest) + 1 + h_before t) + Z.of_nat (length (h_value t)))
      with (Z.of_nat (length (c :: rest) + 1 + h_before t + length (h_value t))) by lia.
    done.
  - rewrite !length_app, !length_replicate. cbn [length]. rewrite !length_app. cbn. lia.
Qed.

(** * Theorems *)

(** A well-formed header line, "Name: value" with any number of spaces
    before and after the value, is accepted: the bounds of the name and of the
    value, without those spaces, are those of the text, the hash is the hash of
    the name in lower case, and a name of fewer than 32 bytes is in the array of
    the request in lower case. *)
Theorem header_line_parsed allow upstream r t :
  hl r = hl_start -> length (lowcase_header r) = 32%nat -> parts_fit allow t = true ->
  exists r', ngx_http_parse_header_line allow upstream r (MkBuf (header_text t) 0) =
    (r', Z.of_nat (length (header_text t)), NGX_OK) /\
    invalid_header r' = false /\ header_name_start r' = Some 0 /\
    header_name_end r' = Some (Z.of_nat (length (h_name t))) /\
    header_start r' = Some (Z.of_nat (length (h_name t) + 1 + h_before t)) /\
    header_end r' = Some (Z.of_nat (length (h_name t) + 1 + h_before t + length (h_value t))) /\
    header_hash r' = fold_left ngx_hash (map lc (h_name t)) 0 /\
    ((length (h_name t) < 32)%nat ->
      lowcase_index r' = Z.of_nat (length (h_name t)) /\
      take (length (h_name t)) (lowcase_header r') = map lc (h_name t)).
Proof.
  intros Hst Hlen Hfit. destruct (h_name t) as [|c rest] eqn:Hn.
  { unfold parts_fit in Hfit. by rewrite Hn in Hfit. }
  unfold ngx_http_parse_header_line, parse_with, run_buf. cbn [bytes pos]. rewrite drop_0.
  rewrite (run_header _ _ _ _ _ c rest) by done. cbn [hl_finish]. rewrite Hn.
  eexists. split; [by rewrite Z.sub_add|].
  set (r0 := first_name_char (lowcase c) (set_hl hl_name (set_invalid false
    (set_name_start (Some 0) r)))).
  destruct (add_name_fields rest r0) as (_ & Hi & Hs & Hh).
  assert (Hlc : lc c = lowcase c).
  { unfold parts_fit in Hfit. rewrite Hn in Hfit. unfold lc. repeat case_match; boolify; done. }
  split_and!; [exact Hi|exact Hs|done|done|done| |].
  - cbn [map fold_left]. rewrite Hlc. exact Hh.
  - intros Hshort. cbn [length] in Hshort.
    destruct (add_name_lowcase rest r0) as [H1 H2]; [done|cbn; lia|cbn; by rewrite length_insert|].
    split; [etransitivity; [exact H1|cbn; lia]|].
    etransitivity; [exact H2|]. cbn [map]. rewrite Hlc. cbn.
    destruct (lowcase_header r); done.
Qed.

Lemma header_line_parsed_witness :
  exists r', ngx_http_parse_header_line false false init_header
    (MkBuf ($"Range:  bytes=0-99 " ++ [CR; LF]) 0) = (r', 21, NGX_OK) /\
    invalid_header r' = false /\ header_name_start r' = Some 0 /\
    header_name_end r' = Some 5 /\ header_start r' = Some 8 /\ header_end r' = Some 18 /\
    header_hash r' = fold_left ngx_hash $"range" 0 /\
    ((5 < 32)%nat -> lowcase_index r' = 5 /\ take 5 (lowcase_header r') = $"range").
Proof.
  exact (header_line_parsed false false init_header (MkParts $"Range" 2 $"bytes=0-99" 1)
           eq_refl eq_refl eq_refl).
Defined.

(** Every header line the parser accepts has its name and its value inside
    the bytes read, the name first and not empty, both without line breaks and
    NUL, and a value that neither begins nor ends with a space. *)
Theorem header_line_shape allow upstream buf p r r' q :
  0 <= p <= Z.of_nat (length buf) -> hl r = hl_start ->
  ngx_http_parse_header_line allow upstream r (MkBuf buf p) = (r', q, NGX_OK) ->
  q <= Z.of_nat (length buf) /\ value_done buf r' (q - 1).
Proof.
  intros Hp Hst H. unfold ngx_http_parse_header_line, parse_with, run_buf in H.
  cbn [bytes pos] in H.
  assert (Hinv : hl_inv buf p r) by (unfold hl_inv; by rewrite Hst).
  assert (Hrun := run_loop_invariant (hl_step allow upstream) (hl_inv buf) (hl_post buf) buf
    (drop (Z.to_nat p) buf) p r ltac:(lia) eq_refl Hinv
    (fun p s ch Hp Hch Hi => hl_step_keeps buf allow upstream s p ch (proj1 Hp) Hch Hi)).
  destruct (run_loop _ _ _ _ _) as [s q'|s q' l|s rc] eqn:E; [done| |].
  - rewrite length_drop in Hrun. destruct Hrun as [Hpost Hq].
    destruct l; cbn in H; [|done]. simplify_eq. split; [lia|].
    replace (q' + 1 - 1) with q' by lia. exact Hpost.
  - apply (run_loop_codes (hl_step allow upstream) (fun rc => rc <> NGX_OK)) in E; [by simplify_eq|].
    intros ? ? ? ? ? [? ?]%hl_step_code. done.
Qed.

Lemma header_line_shape_witness :
  20 <= 20 /\ value_done ($"Host: a.example  " ++ [CR; LF; 120])
    (fst (fst (ngx_http_parse_header_line false false init_header
      (MkBuf ($"Host: a.example  " ++ [CR; LF; 120]) 0)))) (19 - 1).
Proof.
  split; [lia|].
  exact (proj2 (header_line_shape false false ($"Host: a.example  " ++ [CR; LF; 120]) 0 init_header
    (fst (fst (ngx_http_parse_header_line false false init_header
      (MkBuf ($"Host: a.example  " ++ [CR; LF; 120]) 0)))) 19
    ltac:(cbn; lia) eq_refl ltac:(vm_compute; reflexivity))).
Defined.

(** A header line may arrive in any pieces, like the request line. *)
Theorem header_line_in_pieces allow upstream r chunks :
  whole_agrees (feed (ngx_http_parse_header_line allow upstream) r [] 0 chunks)
    (ngx_http_parse_header_line allow upstream r (MkBuf (concat chunks) 0)).
Proof.
  apply (feed_whole (hl_step allow upstream) (fun r _ l => hl_finish r l)
           (fun r _ l => hl_finish_code r l) (hl_step_code allow upstream) chunks [] 0 r);
    [cbn; lia|done].
Qed.
