(* ===== verification/NgxStatusLine.v ===== *)
(** The parser of the status lines of upstream servers:
    [ngx_http_parse_status_line] of src/http/ngx_http_parse.c, with the
    structure ngx_http_status_t it fills. *)

From S2P Require Import Prelude NgxMachine NgxRequestLine.

Module StatusLine.

Inductive sl_state :=
| sl_start | sl_H | sl_HT | sl_HTT | sl_HTTP | sl_first_major_digit | sl_major_digit
| sl_first_minor_digit | sl_minor_digit | sl_status | sl_space_after_status
| sl_status_text | sl_almost_done.

#[global] Instance sl_state_eq_dec : EqDecision sl_state.
Proof. solve_decision. Defined.

(** r->state, r->http_major, r->http_minor and the fields of the status. *)
Record status := MkStatus {
  sl : sl_state; s_major : Z; s_minor : Z;
  code : Z; count : Z; s_start : option Z; s_end : option Z; s_version : Z }.

Definition status_eta (s : status) : status :=
  MkStatus (sl s) (s_major s) (s_minor s) (code s) (count s) (s_start s) (s_end s) (s_version s).

Definition set_sl v (s : status) : status := ltac:(record_set status_eta sl v s).
Definition set_major v (s : status) : status := ltac:(record_set status_eta s_major v s).
Definition set_minor v (s : status) : status := ltac:(record_set status_eta s_minor v s).
Definition set_code v (s : status) : status := ltac:(record_set status_eta code v s).
Definition set_count v (s : status) : status := ltac:(record_set status_eta count v s).
Definition set_s_start v (s : status) : status := ltac:(record_set status_eta s_start v s).
Definition set_s_end v (s : status) : status := ltac:(record_set status_eta s_end v s).
Definition set_s_version v (s : status) : status := ltac:(record_set status_eta s_version v s).

Definition init_status : status := MkStatus sl_start 0 0 0 0 None None 0.

Inductive sl_label := sl_done.

Definition sl_res : Type := step_result status sl_label.

Definition sl_to (st : sl_state) (s : status) : sl_res := Go (set_sl st s).

Definition sl_error (s : status) : sl_res := Return s NGX_ERROR.

(** "HTTP/", a letter at a time. *)
Definition sl_letter (letter : Z) (next : sl_state) (s : status) (p ch : Z) : sl_res :=
  if ch =? letter then sl_to next s else sl_error s.

Definition step_sl_first_major (s : status) (p ch : Z) : sl_res :=
  if (ch <? "1"%c) || (ch >? "9"%c) then sl_error s
  else sl_to sl_major_digit (set_major (ch - "0"%c) s).

Definition step_sl_major (s : status) (p ch : Z) : sl_res :=
  if ch =? "."%c then sl_to sl_first_minor_digit s
  else if negb (digit ch) then sl_error s
  else Go (set_major (wrapU 16 (s_major s * 10 + ch - "0"%c)) s).

Definition step_sl_first_minor (s : status) (p ch : Z) : sl_res :=
  if negb (digit ch) then sl_error s
  else sl_to sl_minor_digit (set_minor (ch - "0"%c) s).

Definition step_sl_minor (s : status) (p ch : Z) : sl_res :=
  if ch =? " "%c then sl_to sl_status s
  else if negb (digit ch) then sl_error s
  else Go (set_minor (wrapU 16 (s_minor s * 10 + ch - "0"%c)) s).

(** HTTP status code: three digits, [++status->count == 3]. *)
Definition step_sl_status (s : status) (p ch : Z) : sl_res :=
  if ch =? " "%c then Go s
  else if negb (digit ch) then sl_error s
  else
    let s := set_count (count s + 1) (set_code (wrapU 64 (code s * 10 + ch - "0"%c)) s) in
    if count s =? 3 then sl_to sl_space_after_status (set_s_start (Some (p - 2)) s)
    else Go s.

Definition step_sl_space_after_status (s : status) (p ch : Z) : sl_res :=
  if ch =? " "%c then sl_to sl_status_text s
  else if ch =? "."%c then sl_to sl_status_text s
  else if ch =? CR then sl_to sl_almost_done s
  else if ch =? LF then Goto s sl_done
  else sl_error s.

Definition step_sl_status_text (s : status) (p ch : Z) : sl_res :=
  if ch =? CR then sl_to sl_almost_done s
  else if ch =? LF then Goto s sl_done
  else Go s.

Definition step_sl_almost_done (s : status) (p ch : Z) : sl_res :=
  let s := set_s_end (Some (p - 1)) s in
  if ch =? LF then Goto s sl_done else sl_error s.

Definition sl_step : body status sl_label := fun _ s =>
  match sl s with
  | sl_start => sl_letter "H"%c sl_H s
  | sl_H => sl_letter "T"%c sl_HT s
  | sl_HT => sl_letter "T"%c sl_HTT s
  | sl_HTT => sl_letter "P"%c sl_HTTP s
  | sl_HTTP => sl_letter "/"%c sl_first_major_digit s
  | sl_first_major_digit => step_sl_first_major s
  | sl_major_digit => step_sl_major s
  | sl_first_minor_digit => step_sl_first_minor s
  | sl_minor_digit => step_sl_minor s
  | sl_status => step_sl_status s
  | sl_space_after_status => step_sl_space_after_status s
  | sl_status_text => step_sl_status_text s
  | sl_almost_done => step_sl_almost_done s
  end.

(** The label done. *)
Definition sl_finish (s : status) (p : Z) : status * Z :=
  let s := match s_end s with None => set_s_end (Some p) s | Some _ => s end in
  (set_sl sl_start (set_s_version (s_major s * 1000 + s_minor s) s), NGX_OK).

Definition ngx_http_parse_status_line : status -> ngx_buf_t -> status * Z * Z :=
  parse_with sl_step (fun s p _ => sl_finish s p).

End StatusLine.
Export StatusLine.

#[global] Instance sl_step_machine : ByteMachine sl_step.
Proof. intros buf more s p ch Hp. done. Qed.

Lemma sl_step_code buf s p ch s' rc :
  sl_step buf s p ch = Return s' rc -> rc <> NGX_AGAIN /\ rc <> NGX_OK.
Proof.
  unfold sl_step. destruct (sl s);
    unfold sl_letter, step_sl_first_major, step_sl_major, step_sl_first_minor, step_sl_minor,
      step_sl_status, step_sl_space_after_status, step_sl_status_text, step_sl_almost_done,
      sl_to, sl_error.
  all: intros H; repeat case_match; simplify_eq; done.
Qed.

(** * A well-formed status line *)

Definition status_text (mj mn a b c : Z) (reason : list Z) : list Z :=
  $"HTTP/" ++ [mj; "."%c; mn; " "%c; a; b; c; " "%c] ++ reason ++ [CR; LF].

Definition is_dig (c : Z) : Prop := "0"%c <= c <= "9"%c.

Lemma digit_ok c : is_dig c -> digit c = true.
Proof.
  unfold is_dig, digit. intros H. rewrite Z.geb_leb. apply andb_true_iff.
  split; apply Z.leb_le; lia.
Qed.

Lemma run_reason buf l p s :
  Forall (fun c => c <> CR /\ c <> LF) l -> sl s = sl_status_text ->
  run_loop sl_step buf l p s = Exhausted s (p + Z.of_nat (length l)).
Proof.
  intros Hl Hst. revert p. induction Hl as [|c l [Hcr Hlf] _ IH]; intros p; [cbn; by rewrite Z.add_0_r|].
  cbn [run_loop length]. unfold sl_step at 1. rewrite Hst. unfold step_sl_status_text.
  apply Z.eqb_neq in Hcr, Hlf. rewrite Hcr, Hlf, IH. f_equal. lia.
Qed.

Lemma sl_step_major buf s p c :
  sl s = sl_first_major_digit -> "1"%c <= c <= "9"%c ->
  sl_step buf s p c = Go (set_sl sl_major_digit (set_major (c - "0"%c) s)).
Proof.
  intros Hst Hc. unfold sl_step. rewrite Hst. unfold step_sl_first_major. split_ifs. done.
Qed.

Lemma sl_step_minor buf s p c :
  sl s = sl_first_minor_digit -> is_dig c ->
  sl_step buf s p c = Go (set_sl sl_minor_digit (set_minor (c - "0"%c) s)).
Proof.
  intros Hst Hc. unfold sl_step. rewrite Hst. unfold step_sl_first_minor. by rewrite digit_ok.
Qed.

Lemma sl_step_digit buf s p c :
  sl s = sl_status -> is_dig c -> 0 <= code s < 100 ->
  sl_step buf s p c =
    let s := set_count (count s + 1) (set_code (code s * 10 + (c - "0"%c)) s) in
    if count s =? 3 then Go (set_sl sl_space_after_status (set_s_start (Some (p - 2)) s)) else Go s.
Proof.
  intros Hst Hc Hs. unfold sl_step. rewrite Hst. unfold step_sl_status. rewrite digit_ok by done.
  unfold is_dig in Hc. destruct (c =? " "%c) eqn:E; boolify; [lia|].
  rewrite wrapU_small by (change (2 ^ 64) with 18446744073709551616; lia).
  by rewrite Z.add_sub_assoc.
Qed.

Definition status_of (mj mn a b c : Z) (reason : list Z) : status :=
  MkStatus sl_start (mj - "0"%c) (mn - "0"%c)
    ((a - "0"%c) * 100 + (b - "0"%c) * 10 + (c - "0"%c)) 3
    (Some 9) (Some (13 + Z.of_nat (length reason)))
    ((mj - "0"%c) * 1000 + (mn - "0"%c)).

(** A status line "HTTP/m.n abc reason" is accepted, with the version, the
    code and the bounds of "abc reason" those of the text. *)
Theorem status_line_parsed mj mn a b c reason :
  "1"%c <= mj <= "9"%c -> is_dig mn -> is_dig a -> is_dig b -> is_dig c ->
  Forall (fun x => x <> CR /\ x <> LF) reason ->
  ngx_http_parse_status_line init_status (MkBuf (status_text mj mn a b c reason) 0) =
    (status_of mj mn a b c reason, 15 + Z.of_nat (length reason), NGX_OK).
Proof.
  intros Hmj Hmn Ha Hb Hc Hr. unfold ngx_http_parse_status_line, parse_with, run_buf.
  cbn [bytes pos]. rewrite drop_0. generalize (status_text mj mn a b c reason) at 1. intros buf.
  unfold status_text.
  cbn [codes_of app]. unfold is_dig in *.
  do 5 erewrite run_loop_go by reflexivity.
  erewrite run_loop_go by (apply sl_step_major; done).
  erewrite run_loop_go by reflexivity.
  erewrite run_loop_go by (apply sl_step_minor; done).
  erewrite run_loop_go by reflexivity.
  erewrite run_loop_go by (rewrite sl_step_digit by (done || (cbn; lia)); reflexivity).
  erewrite run_loop_go by (rewrite sl_step_digit by (done || (cbn; lia)); reflexivity).
  erewrite run_loop_go by (rewrite sl_step_digit by (done || (cbn; lia)); reflexivity).
  erewrite run_loop_go by reflexivity.
  rewrite run_loop_app, run_reason by done.
  erewrite run_loop_go by reflexivity.
  cbv - [Z.mul Z.add Z.sub Z.of_nat length].
  f_equal. f_equal; [|lia]. f_equal; [lia|f_equal; lia].
Qed.

Lemma status_line_parsed_witness :
  ngx_http_parse_status_line init_status (MkBuf ($"HTTP/1.1 206 Partial Content" ++ [CR; LF]) 0) =
    (MkStatus sl_start 1 1 206 3 (Some 9) (Some 28) 1001, 30, NGX_OK).
Proof.
  apply (status_line_parsed "1"%c "1"%c "2"%c "0"%c "6"%c $"Partial Content");
    unfold is_dig; try lia. repeat constructor; discriminate.
Defined.

(** A status line may arrive in any pieces. *)
Theorem status_line_in_pieces s chunks :
  whole_agrees (feed ngx_http_parse_status_line s [] 0 chunks)
    (ngx_http_parse_status_line s (MkBuf (concat chunks) 0)).
Proof.
  apply (feed_whole sl_step (fun s p _ => sl_finish s p) (fun s p _ => ltac:(done))
           sl_step_code chunks [] 0 s); [cbn; lia|done].
Qed.
