(* ===== verification/NgxRange.v ===== *)
(** Byte ranges: the header and body filters of
    src/http/modules/ngx_http_range_filter_module.c, which a player uses to
    seek in a film.

    off_t has 64 bits and wraps where a header is read or written; the
    positions in a body are those of a file, below 2^63.  Allocation succeeds. *)

From S2P Require Import Prelude NgxNumber NgxPrintf NgxTime NgxRequestLine.

Module Range.
Import Number Printf Time.

Definition NGX_HTTP_RANGE_NOT_SATISFIABLE : Z := 416.

Record ngx_http_range_t := MkRange { start : Z; end_ : Z }.

#[global] Instance range_eq_dec : EqDecision ngx_http_range_t.
Proof. solve_decision. Defined.

(** [*p]; the value of the header ends with a NUL. *)
Definition at_p (p : list Z) : Z := hd 0 p.

(** [while ( *p == ' ') { p++; }]. *)
Fixpoint skip_blanks (p : list Z) : list Z :=
  match p with
  | c :: rest => if c =? " "%c then skip_blanks rest else p
  | [] => []
  end.

(** [while ( *p >= '0' && *p <= '9') { v = v * 10 + *p++ - '0'; }]. *)
Fixpoint read_off (v : Z) (p : list Z) : Z * list Z :=
  match p with
  | c :: rest =>
    if digit c then read_off (wrapS 64 (v * 10 + c - "0"%c)) rest else (v, p)
  | [] => (v, [])
  end.

(** One range, up to the label found: its bounds and the rest of the value,
    [None] for NGX_HTTP_RANGE_NOT_SATISFIABLE. *)
Definition last_bound (content_length start : Z) (suffix : bool) (p : list Z)
    : option (Z * Z * list Z) :=
  if negb (digit (at_p p)) then None
  else
    let '(e, p) := read_off 0 p in
    let p := skip_blanks p in
    if negb (at_p p =? ","%c) && negb (at_p p =? 0) then None
    else
      let '(s, e) := if suffix then (wrapS 64 (content_length - e), wrapS 64 (content_length - 1))
                     else (start, e) in
      Some (s, if e >=? content_length then content_length else wrapS 64 (e + 1), p).

Definition parse_one (content_length : Z) (p : list Z) : option (Z * Z * list Z) :=
  let p := skip_blanks p in
  if negb (at_p p =? "-"%c) then
    if negb (digit (at_p p)) then None
    else
      let '(s, p) := read_off 0 p in
      let p := skip_blanks p in
      if negb (at_p p =? "-"%c) then None
      else
        let p := skip_blanks (tail p) in
        if (at_p p =? ","%c) || (at_p p =? 0) then Some (s, content_length, p)
        else last_bound content_length s false p
  else last_bound content_length 0 true (tail p).

(** The loop; [found] are the ranges pushed, in order, [size] their sum. *)
Fixpoint range_loop (fuel : nat) (content_length ranges : Z) (found : list ngx_http_range_t)
    (size : Z) (p : list Z) : outcome (list ngx_http_range_t * Z) :=
  match fuel with
  | O => NoFuel
  | S fuel =>
    match parse_one content_length p with
    | None => Ret (found, NGX_HTTP_RANGE_NOT_SATISFIABLE)
    | Some (s, e, p) =>
      let next found ranges size :=
        if negb (at_p p =? ","%c) then
          Ret (found,
               if bool_decide (found = []) then NGX_HTTP_RANGE_NOT_SATISFIABLE
               else if size >? content_length then NGX_DECLINED
               else NGX_OK)
        else range_loop fuel content_length ranges found size (tail p) in
      if s <? e then
        let found := found ++ [MkRange s e] in
        let size := wrapS 64 (size + wrapS 64 (e - s)) in
        if ranges =? 0 then Ret (found, NGX_DECLINED)
        else next found (ranges - 1) size
      else next found ranges size
    end
  end.

(** [value] is what follows "bytes=". *)
Definition ngx_http_range_parse (content_length ranges : Z) (value : list Z)
    : outcome (list ngx_http_range_t * Z) :=
  range_loop (S (length value)) content_length ranges [] 0 value.

(** ** The header filter *)

(** What the filter reads of the request, of the response and of the
    configuration; [content_type] and [charset] are empty when not set. *)
Record response := MkResponse {
  http_version : Z; status : Z; is_main : bool; content_length_n : Z; allow_ranges : bool;
  max_ranges : Z; range : option (list Z); if_range : option (list Z);
  last_modified_time : Z; content_type : list Z; charset : list Z }.

Definition NGX_HTTP_VERSION_10 : Z := 1000.
Definition NGX_HTTP_OK : Z := 200.
Definition NGX_ATOMIC_T_LEN : nat := 20.
Definition NGX_OFF_T_LEN : nat := 20.

(** ctx->boundary_header, ctx->ranges and their content_range strings; and
    what is changed in the headers of the response. *)
Record partial := MkPartial {
  boundary_header : list Z;
  ranges : list ngx_http_range_t;
  content_ranges : list (list Z);
  out_content_range : option (list Z);
  out_content_type : list Z;
  out_charset : list Z;
  out_content_length_n : Z }.

(** What the filter returns: the next header filter, with "Accept-Ranges"
    added or without, on a response that is unchanged or partial (206); or
    NGX_HTTP_RANGE_NOT_SATISFIABLE, with its Content-Range. *)
Inductive header_result :=
| NextFilter (accept_ranges : bool)
| PartialContent (p : partial)
| NotSatisfiable (content_range : list Z).

(** ngx_tolower as ngx_strncasecmp writes it. *)
Definition tolower (c : Z) : Z :=
  if (c >=? "A"%c) && (c <=? "Z"%c) then Z.lor c 0x20 else c.

(** The strings are NUL-terminated or have n bytes. *)
Fixpoint ngx_strncasecmp (s1 s2 : list Z) (n : nat) : Z :=
  match n with
  | O => 0
  | S n =>
    let c1 := tolower (at_p s1) in
    let c2 := tolower (at_p s2) in
    if c1 =? c2 then if negb (c1 =? 0) then ngx_strncasecmp (tail s1) (tail s2) n else 0
    else c1 - c2
  end.

Definition CRLF : list Z := [CR; LF].

(** "bytes SSSS-EEEE/TTTT", and the new length of the body. *)
Definition ngx_http_range_singlepart_header (r : response) (range : ngx_http_range_t)
    : outcome header_result :=
  let! content_range :=
    ngx_sprintf $"bytes %O-%O/%O"
      [Num (start range); Num (end_ range - 1); Num (content_length_n r)] in
  Ret (PartialContent (MkPartial [] [range] [] (Some content_range)
                         (content_type r) (charset r) (wrapS 64 (end_ range - start range)))).

(** The three forms of ctx->boundary_header. *)
Definition make_boundary_header (r : response) (boundary : Z) : outcome (list Z) :=
  if bool_decide (charset r <> []) then
    ngx_sprintf (CRLF ++ $"--%0muA" ++ CRLF ++ $"Content-Type: %V; charset=%V" ++ CRLF
                   ++ $"Content-Range: bytes ")
      [Num boundary; Str (content_type r); Str (charset r)]
  else if bool_decide (content_type r <> []) then
    ngx_sprintf (CRLF ++ $"--%0muA" ++ CRLF ++ $"Content-Type: %V" ++ CRLF
                   ++ $"Content-Range: bytes ")
      [Num boundary; Str (content_type r)]
  else
    ngx_sprintf (CRLF ++ $"--%0muA" ++ CRLF ++ $"Content-Range: bytes ") [Num boundary].

(** range[i].content_range. *)
Definition make_content_range (r : response) (range : ngx_http_range_t) : outcome (list Z) :=
  ngx_sprintf ($"%O-%O/%O" ++ CRLF ++ CRLF)
    [Num (start range); Num (end_ range - 1); Num (content_length_n r)].

(** The loop over the ranges: the content_range strings and the length. *)
Fixpoint part_headers (r : response) (boundary_len : nat) (ranges : list ngx_http_range_t)
    (len : Z) : outcome (list (list Z) * Z) :=
  match ranges with
  | [] => Ret ([], len)
  | range :: ranges =>
    let! content_range := make_content_range r range in
    let! (more, len) :=
      part_headers r boundary_len ranges
        (wrapU 64 (len + (Z.of_nat boundary_len + Z.of_nat (length content_range)
                          + wrapU 64 (end_ range - start range)))) in
    Ret (content_range :: more, len)
  end.

(** [boundary] is what ngx_next_temp_number returns. *)
Definition ngx_http_range_multipart_header (r : response) (boundary : Z)
    (ranges : list ngx_http_range_t) : outcome header_result :=
  let! boundary_header := make_boundary_header r boundary in
  let! new_type := ngx_sprintf $"multipart/byteranges; boundary=%0muA" [Num boundary] in
  let! (content_ranges, len) :=
    part_headers r (length boundary_header) ranges (Z.of_nat (4 + NGX_ATOMIC_T_LEN + 4)) in
  Ret (PartialContent (MkPartial boundary_header ranges content_ranges None new_type []
                         (wrapS 64 len))).

Definition ngx_http_range_not_satisfiable (r : response) : outcome header_result :=
  let! content_range := ngx_sprintf $"bytes */%O" [Num (content_length_n r)] in
  Ret (NotSatisfiable content_range).

Definition ngx_http_range_header_filter (r : response) (boundary : Z) : outcome header_result :=
  if (http_version r <? NGX_HTTP_VERSION_10) || negb (status r =? NGX_HTTP_OK)
     || negb (is_main r) || (content_length_n r =? -1) || negb (allow_ranges r)
  then Ret (NextFilter false)
  else if max_ranges r =? 0 then Ret (NextFilter false)
  else
    match range r with
    | None => Ret (NextFilter true)
    | Some value =>
      if (length value <? 7)%nat || negb (ngx_strncasecmp value $"bytes=" 6 =? 0)
      then Ret (NextFilter true)
      else if match if_range r with
              | Some date =>
                negb (last_modified_time r =? -1)
                && negb (ngx_http_parse_time 0 date =? last_modified_time r)
              | None => false
              end
      then Ret (NextFilter true)
      else
        let! (found, rc) := ngx_http_range_parse (content_length_n r) (max_ranges r) (drop 6 value) in
        if rc =? NGX_OK then
          match found with
          | [one] => ngx_http_range_singlepart_header r one
          | _ => ngx_http_range_multipart_header r boundary found
          end
        else if rc =? NGX_HTTP_RANGE_NOT_SATISFIABLE then ngx_http_range_not_satisfiable r
        else Ret (NextFilter true)
    end.

(** ** The body filter *)

(** A buffer refers to bytes of memory (one of temporary, memory and mmap is
    set) or of a file by their positions. *)
Record buf := MkBufT {
  in_memory : bool; in_file : bool; flush : bool; last_buf : bool; sync : bool;
  b_pos : Z; b_last : Z; file_pos : Z; file_last : Z }.

Definition buf_eta (b : buf) : buf :=
  MkBufT (in_memory b) (in_file b) (flush b) (last_buf b) (sync b)
    (b_pos b) (b_last b) (file_pos b) (file_last b).

Definition set_b_pos v (b : buf) : buf := ltac:(record_set buf_eta b_pos v b).
Definition set_b_last v (b : buf) : buf := ltac:(record_set buf_eta b_last v b).
Definition set_file_pos v (b : buf) : buf := ltac:(record_set buf_eta file_pos v b).
Definition set_file_last v (b : buf) : buf := ltac:(record_set buf_eta file_last v b).
Definition set_last_buf v (b : buf) : buf := ltac:(record_set buf_eta last_buf v b).
Definition set_sync v (b : buf) : buf := ltac:(record_set buf_eta sync v b).

#[global] Instance buf_eq_dec : EqDecision buf.
Proof. solve_decision. Defined.

Definition ngx_buf_special (b : buf) : bool :=
  (flush b || last_buf b || sync b) && negb (in_memory b) && negb (in_file b).

Definition ngx_buf_size (b : buf) : Z :=
  if in_memory b then b_last b - b_pos b else file_last b - file_pos b.

(** A buffer outside the range is emptied. *)
Definition skip_buf (b : buf) : buf :=
  let b := if in_file b then set_file_pos (file_last b) b else b in
  set_sync true (set_b_pos (b_last b) b).

(** [range->start > start]: the bytes before the range are dropped. *)
Definition trim_start (by_ : Z) (b : buf) : buf :=
  let b := if in_file b then set_file_pos (file_pos b + by_) b else b in
  if in_memory b then set_b_pos (b_pos b + by_) b else b.

(** [range->end <= last]: the bytes after it too. *)
Definition trim_end (by_ : Z) (b : buf) : buf :=
  let b := if in_file b then set_file_last (file_last b - by_) b else b in
  set_last_buf true (if in_memory b then set_b_last (b_last b - by_) b else b).

(** The loop over the chain: the new ctx->offset and the chain that [out]
    heads.  [linked] are the buffers linked so far, [skipped] those skipped
    since, which stay behind the last linked one until another is linked. *)
Fixpoint singlepart_loop (range : ngx_http_range_t) (offset : Z) (chain linked skipped : list buf)
    : Z * list buf :=
  match chain with
  | [] => (offset, match linked with [] => [] | _ => linked ++ skipped end)
  | b :: chain =>
    let start0 := offset in
    let last := offset + ngx_buf_size b in
    if ngx_buf_special b then singlepart_loop range last chain (linked ++ [b]) []
    else if (end_ range <=? start0) || (start range >=? last) then
      singlepart_loop range last chain linked (skipped ++ [skip_buf b])
    else
      let b := if start range >? start0 then trim_start (start range - start0) b else b in
      if end_ range <=? last then (last, linked ++ [trim_end (last - end_ range) b])
      else singlepart_loop range last chain (linked ++ [b]) []
  end.

(** The chain passed to the next filter, empty when [out] is NULL. *)
Definition ngx_http_range_singlepart_body (range : ngx_http_range_t) (offset : Z) (in_ : list buf)
    : Z * list buf :=
  singlepart_loop range offset in_ [] [].

(** [Some offset] is NGX_OK. *)
Definition ngx_http_range_test_overlapped (ranges : list ngx_http_range_t) (offset : Z) (b : buf)
    : option Z :=
  if negb (offset =? 0) then None
  else if negb (last_buf b)
          && existsb (fun range => (0 >? start range) || (ngx_buf_size b <? end_ range)) ranges
  then None
  else Some (ngx_buf_size b).

(** What is passed to the next body filter: strings the filter made, with
    their last_buf, and buffers of the response. *)
Inductive part := Text (s : list Z) (last : bool) | Piece (b : buf).

(** The range data: the flags of the buffer and its positions. *)
Definition range_data (b : buf) (range : ngx_http_range_t) : buf :=
  MkBufT (in_memory b) (in_file b) false false false
    (if in_memory b then b_pos b + start range else 0)
    (if in_memory b then b_pos b + end_ range else 0)
    (if in_file b then file_pos b + start range else 0)
    (if in_file b then file_pos b + end_ range else 0).

Definition ngx_http_range_multipart_body (p : partial) (b : buf) : list part :=
  flat_map (fun '(range, content_range) =>
      [Text (boundary_header p) false; Text content_range false; Piece (range_data b range)])
    (zip (ranges p) (content_ranges p))
    ++ [Text (take (4 + NGX_ATOMIC_T_LEN) (boundary_header p) ++ $"--" ++ CRLF) true].

(** [Forward out] calls the next body filter, [Quiet] is NGX_OK with nothing
    passed on, [Overlapped] is NGX_ERROR. *)
Inductive body_result := Forward (out : list part) | Quiet | Overlapped.

(** The context, when the header filter has set one: [p] and ctx->offset. *)
Definition ngx_http_range_body_filter (ctx : option (partial * Z)) (in_ : list buf)
    : option (partial * Z) * body_result :=
  match in_, ctx with
  | [], _ | _, None => (ctx, Forward (map Piece in_))
  | b :: _, Some (p, offset) =>
    match ranges p with
    | [range] =>
      let '(offset, out) := ngx_http_range_singlepart_body range offset in_ in
      (Some (p, offset), if bool_decide (out = []) then Quiet else Forward (map Piece out))
    | _ =>
      if ngx_buf_special b then (ctx, Forward (map Piece in_))
      else
        match ngx_http_range_test_overlapped (ranges p) offset b with
        | None => (ctx, Overlapped)
        | Some offset => (Some (p, offset), Forward (ngx_http_range_multipart_body p b))
        end
    end
  end.

End Range.
Import Number Printf Range.

(** * The ranges a header can name *)

(** One range of the header, with its blanks: "a-b", "a-" or "-n". *)
Inductive range_spec :=
| FromTo (k1 : nat) (a : list Z) (k2 k3 : nat) (b : list Z) (k4 : nat)
| Onwards (k1 : nat) (a : list Z) (k2 k3 : nat)
| Suffix (k1 : nat) (n : list Z) (k4 : nat).

Definition blanks (k : nat) : list Z := replicate k " "%c.

Definition render_spec (sp : range_spec) : list Z :=
  match sp with
  | FromTo k1 a k2 k3 b k4 =>
    blanks k1 ++ a ++ blanks k2 ++ "-"%c :: blanks k3 ++ b ++ blanks k4
  | Onwards k1 a k2 k3 => blanks k1 ++ a ++ blanks k2 ++ "-"%c :: blanks k3
  | Suffix k1 n k4 => blanks k1 ++ "-"%c :: n ++ blanks k4
  end.

Fixpoint render_specs (sps : list range_spec) : list Z :=
  match sps with
  | [] => []
  | [sp] => render_spec sp
  | sp :: sps => render_spec sp ++ ","%c :: render_specs sps
  end.

Definition off_numeral (l : list Z) : bool := is_decimal l && (decimal l <? 2 ^ 63).

Definition spec_ok (sp : range_spec) : bool :=
  match sp with
  | FromTo _ a _ _ b _ => off_numeral a && off_numeral b
  | Onwards _ a _ _ => off_numeral a
  | Suffix _ n _ => off_numeral n
  end.

(** The bytes [start, end) it asks for, of a body of [cl] bytes. *)
Definition meaning (cl : Z) (sp : range_spec) : ngx_http_range_t :=
  match sp with
  | FromTo _ a _ _ b _ => MkRange (decimal a) (Z.min (decimal b + 1) cl)
  | Onwards _ a _ _ => MkRange (decimal a) cl
  | Suffix _ n _ => MkRange (cl - decimal n) cl
  end.

Definition nonempty (r : ngx_http_range_t) : bool := start r <? end_ r.

Definition asked (cl : Z) (sps : list range_spec) : list ngx_http_range_t :=
  List.filter nonempty (map (meaning cl) sps).

Definition total (rs : list ngx_http_range_t) : Z :=
  foldr (fun r n => end_ r - start r + n) 0 rs.

Definition verdict (cl : Z) (found : list ngx_http_range_t) : Z :=
  if bool_decide (found = []) then NGX_HTTP_RANGE_NOT_SATISFIABLE
  else if total found >? cl then NGX_DECLINED else NGX_OK.

(** * Lemmas on the parser *)

Lemma digit_is_digit c : digit c = is_digit c.
Proof. unfold digit, is_digit. by rewrite Z.geb_leb. Qed.

Lemma read_off_digits v ds rest :
  forallb is_digit ds = true -> digit (at_p rest) = false ->
  read_off (wrapS 64 v) (ds ++ rest) =
    (wrapS 64 (v * 10 ^ Z.of_nat (length ds) + decimal ds), rest).
Proof.
  intros Hds Hr. revert v Hds. induction ds as [|c ds IH]; intros v Hds.
  - cbn [app length]. unfold decimal. cbn [place_value].
    replace (v * 10 ^ Z.of_nat 0 + 0) with v by lia.
    destruct rest as [|c rest]; [done|]. cbn [read_off]. cbn [at_p hd] in Hr. by rewrite Hr.
  - cbn [forallb] in Hds. apply andb_true_iff in Hds as [Hc Hds].
    cbn [app read_off length]. rewrite digit_is_digit, Hc.
    replace (wrapS 64 v * 10 + c - "0"%c) with (wrapS 64 v * 10 + (c - "0"%c)) by lia.
    rewrite wrapS_mul_add, IH by (done || lia). do 2 f_equal.
    unfold decimal. cbn [place_value]. rewrite Nat2Z.inj_succ, Z.pow_succ_r by lia.
    unfold dec_digit. ring.
Qed.

Lemma off_numeral_spec l :
  off_numeral l = true -> forallb is_digit l = true /\ 0 <= decimal l < 2 ^ 63 /\
    digit (at_p l) = true /\ l <> [].
Proof.
  unfold off_numeral. intros H. boolify. unfold is_decimal in *. destruct l as [|c l]; [done|].
  split_and!; try done; [by apply decimal_nonneg|].
  cbn [forallb at_p hd] in *. rewrite digit_is_digit. by destruct (is_digit c).
Qed.

(** A numeral, then something that is no digit. *)
Lemma read_off_numeral l rest :
  off_numeral l = true -> digit (at_p rest) = false -> read_off 0 (l ++ rest) = (decimal l, rest).
Proof.
  intros (Hd & Hv & _)%off_numeral_spec Hr.
  change 0 with (wrapS 64 0) at 1. rewrite read_off_digits by done.
  rewrite wrapS_small by lia. done.
Qed.

Lemma skip_blanks_replicate k rest :
  (at_p rest =? " "%c) = false -> skip_blanks (blanks k ++ rest) = rest.
Proof.
  intros Hr. induction k as [|k IH]; [|done].
  destruct rest as [|c rest]; [done|]. cbn. cbn in Hr. by rewrite Hr.
Qed.

Lemma at_p_app l rest : l <> [] -> at_p (l ++ rest) = at_p l.
Proof. by destruct l. Qed.

Lemma at_p_blanks k rest c :
  at_p (blanks k ++ rest) = c -> c = " "%c \/ c = at_p rest.
Proof. destruct k; cbn; auto. Qed.

(** The rest of the header after a range: its end or a comma. *)
Definition delimited (rest : list Z) : Prop := at_p rest = 0 \/ at_p rest = ","%c.

Lemma digit_blanks k rest :
  digit (at_p rest) = false -> digit (at_p (blanks k ++ rest)) = false.
Proof. by destruct k. Qed.

Lemma last_bound_spec cl s suffix n k rest :
  0 <= cl < 2 ^ 63 -> off_numeral n = true -> delimited rest ->
  last_bound cl s suffix (n ++ blanks k ++ rest) =
    Some (if suffix then cl - decimal n else s,
          if suffix then cl else Z.min (decimal n + 1) cl, rest).
Proof.
  intros Hcl Hn Hrest. pose proof (off_numeral_spec n Hn) as (_ & Hv & Hd & Hne).
  unfold last_bound. rewrite at_p_app, Hd by done. cbn [negb].
  rewrite read_off_numeral
    by first [done | apply digit_blanks; by destruct Hrest as [-> | ->]].
  rewrite skip_blanks_replicate by (by destruct Hrest as [-> | ->]).
  assert (negb (at_p rest =? ","%c) && negb (at_p rest =? 0) = false) as ->
    by (by destruct Hrest as [-> | ->]).
  destruct suffix; cbv iota.
  - rewrite !(wrapS_small 64) by lia. destruct (Z.geb_spec (cl - 1) cl); [lia|].
    do 3 f_equal. lia.
  - destruct (Z.geb_spec (decimal n) cl); do 3 f_equal; [lia|]. rewrite wrapS_small; lia.
Qed.

Lemma parse_one_spec cl sp rest :
  0 <= cl < 2 ^ 63 -> spec_ok sp = true -> delimited rest ->
  parse_one cl (render_spec sp ++ rest) =
    Some (start (meaning cl sp), end_ (meaning cl sp), rest).
Proof.
  intros Hcl Hok Hrest. unfold parse_one.
  assert (forall c, digit c = true -> (c =? " "%c) = false /\ (c =? "-"%c) = false /\
    (c =? ","%c) || (c =? 0) = false) as Hdig.
  { intros c Hc. unfold digit in Hc. boolify. rewrite !(proj2 (Z.eqb_neq _ _)) by lia. done. }
  destruct sp as [k1 a k2 k3 b k4|k1 a k2 k3|k1 n k4]; cbn [render_spec meaning start end_ spec_ok] in *;
    rewrite <- !app_assoc; boolify.
  - pose proof (off_numeral_spec a ltac:(done)) as (_ & _ & Ha & Hne).
    pose proof (off_numeral_spec b ltac:(done)) as (_ & _ & Hb & Hneb).
    rewrite skip_blanks_replicate by (rewrite at_p_app by done; by apply Hdig).
    rewrite at_p_app, Ha by done. destruct (Hdig _ Ha) as (_ & -> & _). cbn [negb].
    rewrite read_off_numeral by first [done | by apply digit_blanks].
    rewrite <- app_comm_cons, skip_blanks_replicate by done. cbn [at_p hd tail negb Z.eqb Pos.eqb].
    rewrite <- !app_assoc, skip_blanks_replicate by (rewrite at_p_app by done; by apply Hdig).
    rewrite at_p_app by done. destruct (Hdig _ Hb) as (_ & _ & ->).
    by rewrite last_bound_spec.
  - pose proof (off_numeral_spec a ltac:(done)) as (_ & _ & Ha & Hne).
    rewrite skip_blanks_replicate by (rewrite at_p_app by done; by apply Hdig).
    rewrite at_p_app, Ha by done. destruct (Hdig _ Ha) as (_ & -> & _). cbn [negb].
    rewrite read_off_numeral by first [done | by apply digit_blanks].
    rewrite <- app_comm_cons, skip_blanks_replicate by done. cbn [at_p hd tail negb Z.eqb Pos.eqb].
    rewrite skip_blanks_replicate by (by destruct Hrest as [-> | ->]).
    by assert ((at_p rest =? ","%c) || (at_p rest =? 0) = true) as ->
      by (by destruct Hrest as [-> | ->]).
  - rewrite <- app_comm_cons, skip_blanks_replicate by done.
    cbn [at_p hd tail negb Z.eqb Pos.eqb]. by rewrite <- app_assoc, last_bound_spec.
Qed.

(** What the numbers of the ranges that hold a byte add up to. *)
Lemma total_nonneg cl sps : 0 <= total (asked cl sps).
Proof.
  induction sps as [|sp sps IH]; [done|]. unfold asked in *. cbn [map List.filter].
  destruct (nonempty _) eqn:E; [|done]. cbn [total foldr]. unfold nonempty in E. boolify.
  change (foldr _ 0 ?l) with (total l). lia.
Qed.

Lemma total_app l k : total (l ++ k) = total l + total k.
Proof. induction l as [|r l IH]; cbn [app total foldr]; [done|]. change (foldr _ 0 ?x) with (total x). lia. Qed.

Lemma render_specs_cons sp sps :
  exists rest, render_specs (sp :: sps) = render_spec sp ++ rest /\ delimited rest /\
    (sps = [] /\ rest = [] \/ sps <> [] /\ rest = ","%c :: render_specs sps).
Proof.
  destruct sps as [|sp' sps].
  - exists []. rewrite app_nil_r. split_and!; [done|by left|by left].
  - exists (","%c :: render_specs (sp' :: sps)). split_and!; [done|by right|by right].
Qed.

Lemma range_loop_spec fuel cl max sps found :
  0 <= cl < 2 ^ 63 -> sps <> [] -> (length sps <= fuel)%nat -> Z.of_nat (length sps) <= max ->
  forallb spec_ok sps = true -> 0 <= total found -> total found + total (asked cl sps) < 2 ^ 63 ->
  range_loop fuel cl max found (total found) (render_specs sps) =
    Ret (found ++ asked cl sps, verdict cl (found ++ asked cl sps)).
Proof.
  intros Hcl. revert fuel max found. induction sps as [|sp sps IH]; [done|].
  intros [|fuel] max found _ Hf Hmax Hok Hfound Htot; [cbn in Hf; lia|].
  cbn [forallb length] in *. apply andb_true_iff in Hok as [Hsp Hok].
  destruct (render_specs_cons sp sps) as (rest & -> & Hdel & Hrest).
  cbn [range_loop]. rewrite parse_one_spec by done. cbv beta iota zeta.
  set (m := meaning cl sp) in *.
  assert (asked cl (sp :: sps) = (if nonempty m then [m] else []) ++ asked cl sps) as Hasked.
  { unfold asked. cbn [map List.filter]. fold m. by destruct (nonempty m). }
  rewrite Hasked in *. clear Hasked. rewrite total_app in Htot.
  pose proof (total_nonneg cl sps) as Hnn.
  assert (forall found' max', 0 <= total found' -> total found' + total (asked cl sps) < 2 ^ 63 ->
    Z.of_nat (length sps) <= max' ->
    (if negb (at_p rest =? ","%c) then
       Ret (found', if bool_decide (found' = []) then NGX_HTTP_RANGE_NOT_SATISFIABLE
                    else if total found' >? cl then NGX_DECLINED else NGX_OK)
     else range_loop fuel cl max' found' (total found') (tail rest)) =
    Ret (found' ++ asked cl sps, verdict cl (found' ++ asked cl sps))) as Hnext.
  { intros found' max' H0 H1 H2. destruct Hrest as [[-> ->]|[Hne ->]].
    - cbn. rewrite app_nil_r. done.
    - cbn [at_p hd tail Z.eqb Pos.eqb negb]. apply IH; done || lia. }
  unfold nonempty in *. destruct (start m <? end_ m) eqn:E.
  - replace (MkRange (start m) (end_ m)) with m by (by destruct m).
    boolify. cbn [total foldr] in Htot.
    destruct (Z.eqb_spec max 0); [lia|].
    rewrite (wrapS_small 64 (end_ m - start m)), (wrapS_small 64) by lia.
    replace (total found + (end_ m - start m)) with (total (found ++ [m]))
      by (rewrite total_app; cbn; lia).
    rewrite Hnext by (rewrite ?total_app; cbn; lia). by rewrite <- app_assoc.
  - apply Hnext; cbn in Htot; lia.
Qed.

Lemma length_render_specs sps : (length sps <= S (length (render_specs sps)))%nat.
Proof.
  induction sps as [|sp sps IH]; [cbn; lia|].
  destruct (render_specs_cons sp sps) as (rest & -> & _ & [[-> _]|[_ ->]]);
    rewrite length_app; cbn [length] in *; lia.
Qed.

Lemma skip_blanks_shorter p : (length (skip_blanks p) <= length p)%nat.
Proof. induction p as [|c p IH]; cbn [skip_blanks]; [done|]. case_match; cbn [length]; lia. Qed.

Lemma read_off_shorter v p : (length (read_off v p).2 <= length p)%nat.
Proof.
  revert v. induction p as [|c p IH]; intros v; cbn [read_off]; [done|].
  case_match; [|done]. etrans; [apply IH|]. cbn [length]. lia.
Qed.

Lemma length_tail (p : list Z) : (length (tail p) <= length p)%nat.
Proof. destruct p; cbn; lia. Qed.

Lemma last_bound_shorter cl s b p s' e' p' :
  last_bound cl s b p = Some (s', e', p') -> (length p' <= length p)%nat.
Proof.
  unfold last_bound. case_match; [done|]. pose proof (read_off_shorter 0 p).
  destruct (read_off 0 p) as [e q]. cbn [snd] in *. pose proof (skip_blanks_shorter q).
  case_match; [done|]. destruct (if b then _ else _). intros [= _ _ <-]. lia.
Qed.

Lemma parse_one_shorter cl p s e p' :
  parse_one cl p = Some (s, e, p') -> (length p' <= length p)%nat.
Proof.
  unfold parse_one. pose proof (skip_blanks_shorter p). set (q := skip_blanks p) in *.
  case_match; [|intros Hl%last_bound_shorter; pose proof (length_tail q); lia].
  case_match; [done|]. pose proof (read_off_shorter 0 q).
  destruct (read_off 0 q) as [v q2]. cbn [snd] in *.
  pose proof (skip_blanks_shorter q2). case_match; [done|].
  pose proof (length_tail (skip_blanks q2)). pose proof (skip_blanks_shorter (tail (skip_blanks q2))).
  case_match; [intros [= _ _ <-]; lia|]. intros Hl%last_bound_shorter. lia.
Qed.

Lemma range_loop_fuel fuel cl max found size p :
  (length p < fuel)%nat -> range_loop fuel cl max found size p <> NoFuel.
Proof.
  revert max found size p. induction fuel as [|fuel IH]; intros max found size p Hf; [lia|].
  cbn [range_loop]. destruct (parse_one cl p) as [[[s e] q]|] eqn:Hp; [|done].
  apply parse_one_shorter in Hp.
  assert (forall m fnd sz x, (if negb (at_p q =? ","%c) then Ret (fnd, x)
    else range_loop fuel cl m fnd sz (tail q)) <> NoFuel) as Hnext.
  { intros m fnd sz x. destruct q as [|c q]; [done|]. case_match; [done|].
    apply IH. cbn [tail length] in *. lia. }
  destruct (s <? e); [|apply Hnext]. destruct (max =? 0); [done|apply Hnext].
Qed.

(** Every range asked for lies in the body, when together they are no longer
    than it. *)
Lemma asked_bounds cl sps :
  0 <= cl -> forallb spec_ok sps = true -> total (asked cl sps) <= cl ->
  Forall (fun r => 0 <= start r < end_ r /\ end_ r <= cl) (asked cl sps).
Proof.
  intros Hcl Hok Htot. revert Hok Htot. induction sps as [|sp sps IH]; [constructor|].
  cbn [forallb]. intros [Hsp Hok]%andb_true_iff. unfold asked in *. cbn [map List.filter].
  pose proof (total_nonneg cl sps) as Hnn. unfold asked in Hnn.
  destruct (nonempty (meaning cl sp)) eqn:E; [|by apply IH].
  unfold nonempty in E. boolify. cbn [total foldr]. change (foldr _ 0 ?l) with (total l).
  intros Htot. constructor; [|apply IH; [done|lia]].
  destruct sp; cbn [meaning start end_ spec_ok] in *; boolify;
    repeat match goal with H : off_numeral _ = true |- _ => apply off_numeral_spec in H as (_ & ? & _) end;
    lia.
Qed.

(** * The bytes of a body *)

(** The bytes of memory or of the file a buffer refers to. *)
Definition stretch (f : Z -> Z) (a b : Z) : list Z := map f (seqZ a (b - a)).

Section contents.
Context (mem file : Z -> Z).

Definition content (b : buf) : list Z :=
  if in_memory b then stretch mem (b_pos b) (b_last b)
  else stretch file (file_pos b) (file_last b).

Definition contents (l : list buf) : list Z := flat_map content l.

Definition part_bytes (p : part) : list Z :=
  match p with Text s _ => s | Piece b => content b end.

Definition sent (r : body_result) : list part :=
  match r with Forward out => out | _ => [] end.

Definition bytes_sent (rs : list body_result) : list Z :=
  flat_map part_bytes (flat_map sent rs).
End contents.

(** What the code relies on: the positions are in order, a buffer that is in
    memory and in a file has the same length in both, and one that is in
    neither is empty. *)
Definition buf_ok (b : buf) : bool :=
  (b_pos b <=? b_last b) && (file_pos b <=? file_last b)
  && (negb (in_memory b && in_file b) || (b_last b - b_pos b =? file_last b - file_pos b))
  && (in_memory b || in_file b || (ngx_buf_size b =? 0)).

(** The calls of the body filter, one per chain. *)
Fixpoint serve (ctx : option (partial * Z)) (chains : list (list buf)) : list body_result :=
  match chains with
  | [] => []
  | in_ :: chains =>
    let '(ctx, result) := ngx_http_range_body_filter ctx in_ in result :: serve ctx chains
  end.

(** The part in [s, e) of bytes that begin at [off]. *)
Definition window (s e off : Z) (l : list Z) : list Z :=
  drop (Z.to_nat (s - off)) (take (Z.to_nat (e - off)) l).

Lemma lookup_stretch f a b i :
  stretch f a b !! i = if bool_decide (Z.of_nat i < b - a) then Some (f (a + Z.of_nat i)) else None.
Proof.
  unfold stretch. change (map f ?l) with (f <$> l). rewrite list_lookup_fmap.
  case_bool_decide.
  - by rewrite lookup_seqZ_lt by lia.
  - by rewrite lookup_seqZ_ge by lia.
Qed.

Lemma length_stretch f a b : length (stretch f a b) = Z.to_nat (b - a).
Proof. unfold stretch. rewrite length_map, length_seqZ. done. Qed.

Lemma stretch_drop f a b k :
  0 <= k -> stretch f (a + k) b = drop (Z.to_nat k) (stretch f a b).
Proof.
  intros Hk. apply list_eq. intros i. rewrite lookup_drop, !lookup_stretch.
  repeat case_bool_decide; try lia; [|done]. do 2 f_equal. lia.
Qed.

Lemma stretch_take f a b k :
  0 <= k <= b - a -> stretch f a (b - k) = take (Z.to_nat (b - a - k)) (stretch f a b).
Proof.
  intros Hk. apply list_eq. intros i. destruct (decide (i < Z.to_nat (b - a - k))%nat).
  - rewrite lookup_take_lt, !lookup_stretch by done. repeat case_bool_decide; done || lia.
  - rewrite lookup_take_ge, !lookup_stretch by lia. case_bool_decide; [lia|done].
Qed.

Lemma window_app s e off l k :
  s <= e -> window s e off (l ++ k) = window s e off l ++ window s e (off + Z.of_nat (length l)) k.
Proof.
  intros Hse. unfold window. rewrite take_app, drop_app, length_take. f_equal.
  destruct (decide (Z.to_nat (e - off) <= length l)%nat).
  - replace (Z.to_nat (e - (off + Z.of_nat (length l)))) with O by lia.
    replace (Z.to_nat (e - off) - length l)%nat with O by lia. by rewrite !take_0, !drop_nil.
  - f_equal; [lia|]. f_equal. lia.
Qed.

Lemma window_after s e off l : e <= off -> window s e off l = [].
Proof. intros. unfold window. replace (Z.to_nat (e - off)) with O by lia. by rewrite take_0, drop_nil. Qed.

Lemma window_before s e off l : off + Z.of_nat (length l) <= s -> window s e off l = [].
Proof. intros. unfold window. apply drop_ge. rewrite length_take. lia. Qed.

(** ** One buffer *)

Ltac buf_cases b :=
  unfold buf_ok, ngx_buf_size, content, skip_buf, trim_start, trim_end in *;
  destruct b as [m f fl lb sy p l fp fl']; destruct m, f;
  cbn [in_memory in_file b_pos b_last file_pos file_last set_b_pos set_b_last set_file_pos
       set_file_last set_last_buf set_sync andb orb negb] in *; boolify.

Section buffers.
Context (mem file : Z -> Z).

Lemma length_content b : buf_ok b = true -> Z.of_nat (length (content mem file b)) = ngx_buf_size b.
Proof. intros H. buf_cases b; rewrite length_stretch; lia. Qed.

Lemma content_skip b : buf_ok b = true -> content mem file (skip_buf b) = [].
Proof. intros H. apply nil_length_inv. buf_cases b; rewrite length_stretch; lia. Qed.

Lemma content_trim_start b k :
  buf_ok b = true -> 0 <= k -> content mem file (trim_start k b) = drop (Z.to_nat k) (content mem file b).
Proof.
  intros H Hk. buf_cases b; try by rewrite stretch_drop.
  rewrite drop_ge; [|rewrite length_stretch; lia]. apply nil_length_inv. rewrite length_stretch. lia.
Qed.

Lemma trim_start_ok b k :
  buf_ok b = true -> 0 <= k <= ngx_buf_size b ->
  buf_ok (trim_start k b) = true /\ (in_memory b || in_file b = true -> ngx_buf_size (trim_start k b) = ngx_buf_size b - k).
Proof.
  intros H Hk. buf_cases b; split; repeat rewrite ?andb_true_iff, ?orb_true_iff, ?Z.leb_le, ?Z.eqb_eq; try lia; done.
Qed.

Lemma content_trim_end b k :
  buf_ok b = true -> 0 <= k <= ngx_buf_size b ->
  content mem file (trim_end k b) = take (Z.to_nat (ngx_buf_size b - k)) (content mem file b).
Proof.
  intros H Hk. buf_cases b; try (apply stretch_take; lia).
  rewrite take_ge; [done|]. rewrite length_stretch. lia.
Qed.

Lemma contents_app l k : contents mem file (l ++ k) = contents mem file l ++ contents mem file k.
Proof. apply flat_map_app. Qed.

Lemma special_empty b : buf_ok b = true -> ngx_buf_special b = true -> content mem file b = [] /\ ngx_buf_size b = 0.
Proof.
  intros H Hs. pose proof (length_content b H) as Hl.
  assert (ngx_buf_size b = 0) as H0.
  { unfold ngx_buf_special in Hs. unfold buf_ok in H.
    destruct (in_memory b), (in_file b); rewrite ?andb_false_r in Hs; cbn [andb orb negb] in *;
      boolify; done. }
  split; [|done]. apply nil_length_inv. lia.
Qed.

(** The two trims of a buffer that holds a byte of the range leave its window. *)
Lemma content_trims b s e off :
  buf_ok b = true -> s < off + ngx_buf_size b -> off < e -> s < e ->
  let b' := if s >? off then trim_start (s - off) b else b in
  content mem file (if e <=? off + ngx_buf_size b then trim_end (off + ngx_buf_size b - e) b' else b') =
    window s e off (content mem file b).
Proof.
  intros H Hs He Hse. cbv zeta. set (size := ngx_buf_size b) in *.
  pose proof (length_content b H) as Hl. fold size in Hl.
  assert (exists b', (if s >? off then trim_start (s - off) b else b) = b' /\ buf_ok b' = true /\
    content mem file b' = drop (Z.to_nat (s - off)) (content mem file b) /\
    Z.of_nat (length (content mem file b')) = ngx_buf_size b') as (b' & -> & Hok & Hc & Hl').
  { destruct (Z.gtb_spec s off).
    - eexists; split; [done|]. destruct (trim_start_ok b (s - off) H) as [Hok _]; [lia|].
      split_and!; [done|apply content_trim_start; [done|lia]|by apply length_content].
    - exists b. replace (Z.to_nat (s - off)) with O by lia. done. }
  unfold window. destruct (Z.leb_spec e (off + size)).
  - rewrite Hc, length_drop in Hl'.
    rewrite content_trim_end, Hc by (done || lia). rewrite skipn_firstn_comm. f_equal. lia.
  - rewrite Hc, take_ge by lia. done.
Qed.

(** ** A chain, then a sequence of chains *)

Lemma singlepart_loop_window r off chain linked skipped :
  start r < end_ r -> Forall (fun b => buf_ok b = true) chain ->
  contents mem file skipped = [] ->
  let '(off', out) := singlepart_loop r off chain linked skipped in
  let len := Z.of_nat (length (contents mem file chain)) in
  contents mem file out = contents mem file linked ++ window (start r) (end_ r) off (contents mem file chain) /\
  (off' = off + len \/ end_ r <= off' /\ end_ r <= off + len) /\
  (off < end_ r <= off + len -> Exists (fun b => last_buf b = true) out).
Proof.
  intros Hr Hok. revert off linked skipped.
  induction Hok as [|b chain Hb Hok IH]; intros off linked skipped Hs; cbn [singlepart_loop].
  - cbn [contents flat_map length Z.of_nat]. unfold window. rewrite take_nil, drop_nil, app_nil_r.
    split_and!; [|lia|lia]. destruct linked; [done|]. by rewrite contents_app, Hs, app_nil_r.
  - pose proof (length_content b Hb) as Hl.
    change (contents mem file (b :: chain)) with (content mem file b ++ contents mem file chain).
    rewrite window_app by lia. rewrite length_app, Nat2Z.inj_add, Hl.
    destruct (ngx_buf_special b) eqn:Hsp.
    { destruct (special_empty b Hb Hsp) as [Hc H0]. rewrite Hc, H0.
      specialize (IH (off + 0) (linked ++ [b]) [] eq_refl).
      destruct (singlepart_loop _ _ _ _ _) as [off' out]. destruct IH as (-> & Ho & He).
      rewrite contents_app. cbn [contents flat_map]. rewrite Hc, !app_nil_r.
      unfold window at 2. rewrite take_nil, drop_nil. cbn [app].
      split_and!; [done|lia|intros; apply He; lia]. }
    destruct ((end_ r <=? off) || (start r >=? off + ngx_buf_size b)) eqn:Hskip.
    { specialize (IH (off + ngx_buf_size b) linked (skipped ++ [skip_buf b])).
      rewrite contents_app, Hs in IH. cbn [contents flat_map] in IH.
      rewrite content_skip in IH by done. specialize (IH eq_refl).
      destruct (singlepart_loop _ _ _ _ _) as [off' out]. destruct IH as (-> & Ho & He).
      assert (window (start r) (end_ r) off (content mem file b) = []) as ->.
      { boolify; [by apply window_after|apply window_before; lia]. }
      split_and!; [done|lia|intros; apply He; boolify; lia]. }
    apply orb_false_iff in Hskip as [H1 H2]. boolify.
    pose proof (content_trims b (start r) (end_ r) off Hb ltac:(lia) ltac:(lia) Hr) as Ht.
    cbv zeta in Ht. set (b' := if start r >? off then _ else _) in *.
    destruct (Z.leb_spec (end_ r) (off + ngx_buf_size b)).
    + rewrite contents_app. cbn [contents flat_map]. rewrite Ht, app_nil_r.
      rewrite (window_after _ _ (off + _)), app_nil_r by lia.
      split_and!; [done|lia|]. intros _. apply Exists_app. right. constructor.
      unfold trim_end. destruct (in_file b'), (in_memory _); done.
    + specialize (IH (off + ngx_buf_size b) (linked ++ [b']) [] eq_refl).
      destruct (singlepart_loop _ _ _ _ _) as [off' out]. destruct IH as (-> & Ho & He).
      rewrite contents_app. cbn [contents flat_map]. rewrite Ht, app_nil_r, app_assoc.
      split_and!; [done|lia|intros; apply He; lia].
Qed.

(** The context between the calls: past the bytes received, or past the range. *)
Lemma serve_window p r off base chains :
  ranges p = [r] -> start r < end_ r -> Forall (Forall (fun b => buf_ok b = true)) chains ->
  off = base \/ end_ r <= off /\ end_ r <= base ->
  let len := Z.of_nat (length (contents mem file (concat chains))) in
  let results := serve (Some (p, off)) chains in
  bytes_sent mem file results = window (start r) (end_ r) base (contents mem file (concat chains)) /\
  (base < end_ r <= base + len ->
     Exists (fun q => match q with Piece b => last_buf b = true | Text _ _ => False end) (flat_map sent results)) /\
  ~ In Overlapped results.
Proof.
  intros Hp Hr Hok. cbv zeta. revert off base.
  induction Hok as [|chain chains Hc Hok IH]; intros off base Hoff; cbn [serve concat].
  - unfold window. cbn [contents flat_map]. rewrite take_nil, drop_nil.
    split_and!; [done|cbn; lia|intros []].
  - rewrite contents_app, length_app, Nat2Z.inj_add, window_app by lia.
    destruct chain as [|b chain].
    { cbn [ngx_http_range_body_filter]. destruct (IH off base Hoff) as (Hb & He & Hn).
      cbn [app contents flat_map length map sent]. unfold bytes_sent. cbn [flat_map sent map app].
      rewrite Z.add_0_r. unfold window at 1. rewrite take_nil, drop_nil.
      split_and!; [exact Hb|intros; apply He; lia|intros [?|?]; done]. }
    cbn [ngx_http_range_body_filter]. rewrite Hp. unfold ngx_http_range_singlepart_body.
    pose proof (singlepart_loop_window r off (b :: chain) [] [] Hr Hc eq_refl) as Hloop.
    destruct (singlepart_loop r off (b :: chain) [] []) as [off' out].
    cbv zeta in Hloop. destruct Hloop as (Hcont & Hoff' & Hlast). cbn [contents flat_map app] in Hcont.
    set (len := Z.of_nat (length (contents mem file (b :: chain)))) in *.
    destruct (IH off' (base + len) ltac:(lia)) as (Hb & He & Hn).
    assert (flat_map sent ((if bool_decide (out = []) then Quiet else Forward (map Piece out)) :: serve (Some (p, off')) chains)
            = map Piece out ++ flat_map sent (serve (Some (p, off')) chains)) as Hsent
      by (case_bool_decide; subst; done).
    unfold bytes_sent in *. rewrite Hsent, flat_map_app, Hb.
    assert (forall l, flat_map (part_bytes mem file) (map Piece l) = contents mem file l) as Hpieces
      by (intros l; induction l as [|x l IHl]; cbn; [done|]; by rewrite IHl).
    rewrite Hpieces, Hcont. split_and!.
    + f_equal. destruct Hoff as [->|[? ?]]; [done|]. by rewrite !window_after.
    + intros Hlen. rewrite Exists_app. destruct (decide (end_ r <= base + len)).
      * left. rewrite Exists_fmap. eapply Exists_impl; [apply Hlast; lia|done].
      * right. apply He. lia.
    + intros [Heq|Hin]; [by case_bool_decide|done].
Qed.

End buffers.

(** * The headers *)

Definition range_text (r : response) (x : ngx_http_range_t) : list Z :=
  off_text (start x) ++ $"-" ++ off_text (end_ x - 1) ++ $"/" ++ off_text (content_length_n r).

Lemma singlepart_header_eq r x :
  ngx_http_range_singlepart_header r x =
    Ret (PartialContent (MkPartial [] [x] [] (Some ($"bytes " ++ range_text r x))
           (content_type r) (charset r) (wrapS 64 (end_ x - start x)))).
Proof. unfold range_text. rewrite <- (app_nil_r (off_text (content_length_n r))). reflexivity. Qed.

Lemma content_range_eq r x : make_content_range r x = Ret (range_text r x ++ CRLF ++ CRLF).
Proof. unfold range_text. rewrite <- !app_assoc. reflexivity. Qed.

(** The header of a part. *)
Definition boundary_header_text (r : response) (boundary : Z) : list Z :=
  CRLF ++ $"--" ++ boundary_text boundary ++ CRLF
    ++ (if bool_decide (charset r <> []) then
          $"Content-Type: " ++ content_type r ++ $"; charset=" ++ charset r ++ CRLF
        else if bool_decide (content_type r <> []) then
          $"Content-Type: " ++ content_type r ++ CRLF
        else [])
    ++ $"Content-Range: bytes ".

Lemma boundary_header_eq r boundary :
  make_boundary_header r boundary = Ret (boundary_header_text r boundary).
Proof.
  unfold make_boundary_header, boundary_header_text.
  case_bool_decide; [|case_bool_decide]; rewrite <- ?app_assoc; reflexivity.
Qed.

(** The bytes a part adds to the body, in the headers' view. *)
Definition part_length (r : response) (boundary_len : nat) (x : ngx_http_range_t) : Z :=
  Z.of_nat boundary_len + Z.of_nat (length (range_text r x ++ CRLF ++ CRLF)) + (end_ x - start x).

Definition parts_length (r : response) (boundary_len : nat) (xs : list ngx_http_range_t) : Z :=
  foldr (fun x n => part_length r boundary_len x + n) 0 xs.

Lemma part_headers_texts r bl xs len :
  exists len', part_headers r bl xs len =
    Ret (map (fun x => range_text r x ++ CRLF ++ CRLF) xs, len').
Proof.
  revert len. induction xs as [|x xs IH]; intros len; cbn [part_headers map]; [by eexists|].
  rewrite content_range_eq. cbn [outcome_bind]. edestruct IH as [len' ->]. by eexists.
Qed.

Lemma part_headers_length r bl xs len :
  Forall (fun x => start x <= end_ x) xs -> 0 <= len -> len + parts_length r bl xs < 2 ^ 63 ->
  part_headers r bl xs len =
    Ret (map (fun x => range_text r x ++ CRLF ++ CRLF) xs, len + parts_length r bl xs).
Proof.
  intros Hxs. revert len. induction Hxs as [|x xs Hx Hxs IH]; intros len H0 Hlen;
    cbn [part_headers map parts_length foldr] in *; [by rewrite Z.add_0_r|].
  change (foldr _ 0 xs) with (parts_length r bl xs) in *.
  assert (0 <= parts_length r bl xs).
  { clear -Hxs. induction Hxs as [|y ys Hy Hys IHy]; [done|]. cbn [parts_length foldr].
    change (foldr _ 0 ys) with (parts_length r bl ys). unfold part_length. lia. }
  rewrite content_range_eq. cbn [outcome_bind]. unfold part_length in *.
  rewrite (wrapU_small 64 (end_ x - start x)), (wrapU_small 64) by lia.
  rewrite IH by lia. cbn [outcome_bind]. do 2 f_equal. lia.
Qed.

Lemma not_satisfiable_eq r :
  ngx_http_range_not_satisfiable r = Ret (NotSatisfiable ($"bytes */" ++ off_text (content_length_n r))).
Proof. rewrite <- (app_nil_r (off_text _)). reflexivity. Qed.

(** A 206 is made by one of the two header functions. *)
Lemma header_filter_partial r boundary p :
  ngx_http_range_header_filter r boundary = Ret (PartialContent p) ->
  (exists x, ngx_http_range_singlepart_header r x = Ret (PartialContent p) /\ ranges p = [x]) \/
  ngx_http_range_multipart_header r boundary (ranges p) = Ret (PartialContent p) /\
    length (ranges p) <> 1%nat.
Proof.
  unfold ngx_http_range_header_filter.
  destruct (_ || _); [done|]. destruct (max_ranges r =? 0); [done|].
  destruct (range r) as [value|]; [|done]. destruct (_ || _); [done|].
  destruct (match if_range r with Some _ => _ | None => _ end); [done|].
  destruct (ngx_http_range_parse _ _ _) as [[found rc]| |]; cbn [outcome_bind]; [|done..].
  destruct (rc =? NGX_OK); [|destruct (rc =? _); [|done]; by rewrite not_satisfiable_eq].
  assert (forall xs, ngx_http_range_multipart_header r boundary xs = Ret (PartialContent p) -> ranges p = xs) as Hxs.
  { intros xs. unfold ngx_http_range_multipart_header. rewrite boundary_header_eq. cbn [outcome_bind].
    destruct (ngx_sprintf _ _) as [t| |]; cbn [outcome_bind]; [|done..].
    edestruct part_headers_texts as [len ->]. cbn [outcome_bind]. by intros [= <-]. }
  destruct found as [|x [|y found]].
  - intros H. right. by rewrite (Hxs _ H).
  - intros H. left. exists x. split; [done|]. rewrite singlepart_header_eq in H. by injection H as <-.
  - intros H. right. by rewrite (Hxs _ H).
Qed.

(** The multipart body, as one text. *)
Definition multipart_text (r : response) (boundary : Z) (body : list Z)
    (xs : list ngx_http_range_t) : list Z :=
  flat_map (fun x => boundary_header_text r boundary ++ (range_text r x ++ CRLF ++ CRLF)
              ++ window (start x) (end_ x) 0 body) xs
    ++ CRLF ++ $"--" ++ boundary_text boundary ++ $"--" ++ CRLF.

Lemma content_range_data mem file b x :
  buf_ok b = true -> 0 <= start x < end_ x -> end_ x <= ngx_buf_size b ->
  content mem file (range_data b x) = window (start x) (end_ x) 0 (content mem file b).
Proof.
  intros H Hx He. unfold window. rewrite !Z.sub_0_r.
  assert (forall f p l, 0 <= start x < end_ x -> end_ x <= l - p ->
    stretch f (p + start x) (p + end_ x) =
      drop (Z.to_nat (start x)) (take (Z.to_nat (end_ x)) (stretch f p l))) as Hst.
  { intros f p l Hse Hl. rewrite stretch_drop by lia. f_equal.
    replace (p + end_ x) with (l - (l - (p + end_ x))) by lia. rewrite stretch_take by lia.
    f_equal. lia. }
  unfold range_data. buf_cases b; try (apply Hst; lia). lia.
Qed.

Lemma length_window s e body :
  0 <= s <= e -> e <= Z.of_nat (length body) -> Z.of_nat (length (window s e 0 body)) = e - s.
Proof. intros. unfold window. rewrite length_drop, length_take. lia. Qed.

Lemma length_multipart_text r boundary body xs :
  Forall (fun x => 0 <= start x < end_ x /\ end_ x <= Z.of_nat (length body)) xs ->
  Z.of_nat (length (multipart_text r boundary body xs)) =
    28 + parts_length r (length (boundary_header_text r boundary)) xs.
Proof.
  intros Hxs. unfold multipart_text. rewrite length_app, Nat2Z.inj_add.
  rewrite (Z.add_comm (Z.of_nat _)). f_equal.
  - rewrite !length_app, length_boundary_text. done.
  - induction Hxs as [|x xs [Hx He] Hxs IH]; [done|].
    cbn [flat_map parts_length foldr].
    change (foldr _ 0 xs) with (parts_length r (length (boundary_header_text r boundary)) xs).
    rewrite length_app, Nat2Z.inj_add, IH. unfold part_length.
    rewrite length_app, (length_app (range_text r x ++ _) (window _ _ _ _)), !Nat2Z.inj_add.
    rewrite length_window by lia. lia.
Qed.

Lemma not_overlapped xs b :
  Forall (fun x => 0 <= start x < end_ x /\ end_ x <= ngx_buf_size b) xs ->
  ngx_http_range_test_overlapped xs 0 b = Some (ngx_buf_size b).
Proof.
  intros Hxs. unfold ngx_http_range_test_overlapped. cbn [Z.eqb negb].
  assert (existsb (fun x => (0 >? start x) || (ngx_buf_size b <? end_ x)) xs = false) as ->.
  { apply not_true_is_false. intros (y & Hin & Hy)%existsb_exists.
    rewrite Forall_forall in Hxs. apply list_elem_of_In, Hxs in Hin. boolify; lia. }
  by rewrite andb_false_r.
Qed.

Lemma take_boundary r boundary :
  take (4 + NGX_ATOMIC_T_LEN) (boundary_header_text r boundary) =
    CRLF ++ $"--" ++ boundary_text boundary.
Proof.
  unfold boundary_header_text.
  match goal with |- take _ (CRLF ++ ?d ++ ?t ++ ?rest) = _ =>
    replace (CRLF ++ d ++ t ++ rest) with ((CRLF ++ d ++ t) ++ rest) by (by rewrite <- !app_assoc)
  end.
  apply take_app_length'.
  rewrite !length_app, length_boundary_text. done.
Qed.

(** ** Their sizes *)

Lemma range_parse_returns cl max value : exists res, ngx_http_range_parse cl max value = Ret res.
Proof.
  assert (forall fuel found size max p, range_loop fuel cl max found size p <> Undefined) as Hu.
  { intros fuel. induction fuel as [|fuel IH]; intros found size m p; cbn [range_loop]; [done|].
    destruct (parse_one cl p) as [[[s e] q]|]; [|done].
    destruct (s <? e), (negb (at_p q =? ","%c)); try destruct (m =? 0); try done; apply IH. }
  pose proof (range_loop_fuel (S (length value)) cl max [] 0 value ltac:(lia)) as Hf.
  unfold ngx_http_range_parse. specialize (Hu (S (length value)) [] 0 max value).
  destruct (range_loop _ _ _ _ _ _); [by eexists|done|done].
Qed.

Lemma length_range_text r x : (length (range_text r x) <= 62)%nat.
Proof.
  unfold range_text. rewrite !length_app.
  pose proof (length_off_text (start x)). pose proof (length_off_text (end_ x - 1)).
  pose proof (length_off_text (content_length_n r)). cbn [length codes_of]. lia.
Qed.

Definition boundary_room (r : response) : nat :=
  length (CRLF ++ $"--") + NGX_ATOMIC_T_LEN + length (CRLF ++ $"Content-Type: ")
    + length (content_type r) + length (CRLF ++ $"Content-Range: bytes ")
    + (if bool_decide (charset r <> []) then length $"; charset=" + length (charset r) else 0).

Lemma length_boundary_header r boundary :
  (length (boundary_header_text r boundary) <= boundary_room r)%nat.
Proof.
  unfold boundary_header_text, boundary_room. rewrite !length_app, length_boundary_text.
  unfold NGX_ATOMIC_T_LEN. cbn [length codes_of CRLF].
  destruct (bool_decide (charset r <> [])); [|destruct (bool_decide _)];
    rewrite ?length_app; cbn [length codes_of CRLF]; lia.
Qed.

(** What the code allocates. *)
Definition fits (r : response) (p : partial) : Prop :=
  match out_content_range p with
  | Some text => (length text <= length $"bytes -/" + 3 * NGX_OFF_T_LEN)%nat
  | None => (length (out_content_type p) <=
      length $"Content-Type: multipart/byteranges; boundary=" + NGX_ATOMIC_T_LEN)%nat
  end /\
  (length (boundary_header p) <= boundary_room r)%nat /\
  Forall (fun text => (length text <= 3 * NGX_OFF_T_LEN + 2 + 4)%nat) (content_ranges p).

Lemma singlepart_header_fits r x :
  exists p, ngx_http_range_singlepart_header r x = Ret (PartialContent p) /\ fits r p.
Proof.
  rewrite singlepart_header_eq. eexists. split; [done|].
  unfold fits. cbn [out_content_range boundary_header content_ranges]. split_and!; [|cbn; lia|done].
  rewrite length_app. pose proof (length_range_text r x). unfold NGX_OFF_T_LEN. cbn [length codes_of]. lia.
Qed.

Lemma multipart_header_fits r boundary xs :
  exists p, ngx_http_range_multipart_header r boundary xs = Ret (PartialContent p) /\ fits r p.
Proof.
  unfold ngx_http_range_multipart_header. rewrite boundary_header_eq. cbn [outcome_bind].
  assert (ngx_sprintf $"multipart/byteranges; boundary=%0muA" [Num boundary] =
    Ret ($"multipart/byteranges; boundary=" ++ boundary_text boundary)) as ->
    by (rewrite <- (app_nil_r (boundary_text _)); reflexivity).
  cbn [outcome_bind]. edestruct part_headers_texts as [len ->]. cbn [outcome_bind].
  eexists. split; [done|]. unfold fits. cbn [out_content_range out_content_type boundary_header content_ranges].
  split_and!.
  - rewrite length_app, length_boundary_text. by apply Nat.leb_le.
  - apply length_boundary_header.
  - apply Forall_map, Forall_true. intros x. rewrite length_app.
    pose proof (length_range_text r x). unfold NGX_OFF_T_LEN. cbn [length CRLF app]. lia.
Qed.

(** * Properties *)

(** C28. The Range header is read right: whatever list of ranges "a-b", "a-"
    and "-n", with blanks, a header spells, within the number allowed and with
    numerals and a sum of the sizes below 2^63, [ngx_http_range_parse] finds those that hold
    a byte, in order and clipped to the body, and answers 416 when there is
    none, NGX_DECLINED (the whole body) when they add up to more than the body,
    and NGX_OK otherwise, when each of them lies inside the body.  It stops on
    every header.  (Without the bound of 2^63 ranges outside of the body are
    accepted, as the examples after the witness show.) *)
Theorem ranges_parsed cl max sps :
  0 <= cl < 2 ^ 63 -> sps <> [] -> Z.of_nat (length sps) <= max ->
  forallb spec_ok sps = true -> total (asked cl sps) < 2 ^ 63 ->
  ngx_http_range_parse cl max (render_specs sps) =
    Ret (asked cl sps, verdict cl (asked cl sps)) /\
  (verdict cl (asked cl sps) = NGX_OK ->
     Forall (fun r => 0 <= start r < end_ r /\ end_ r <= cl) (asked cl sps)) /\
  forall cl' max' value, ngx_http_range_parse cl' max' value <> NoFuel.
Proof.
  intros Hcl Hne Hmax Hok Htot. split_and!.
  - unfold ngx_http_range_parse.
    rewrite (range_loop_spec _ cl max sps []); try done. apply length_render_specs.
  - unfold verdict. case_match; [done|]. case_match; [done|]. intros _. boolify.
    apply asked_bounds; [lia|done|lia].
  - intros cl' max' value. apply range_loop_fuel. lia.
Qed.

(** "0-9, -5" of a body of 100 bytes. *)
Lemma ranges_parsed_witness :
  ngx_http_range_parse 100 8 $"0-9, -5" = Ret ([MkRange 0 10; MkRange 95 100], NGX_OK).
Proof.
  exact (proj1 (ranges_parsed 100 8 [FromTo 0 $"0" 0 0 $"9" 0; Suffix 1 $"5" 0]
    ltac:(lia) ltac:(done) ltac:(done) eq_refl ltac:(by vm_compute))).
Defined.

(** Sizes that overflow an off_t pass the check against the length of the
    body: two suffixes whose sum wraps, or one start that wraps, are accepted
    with a range that begins before the body (CVE-2017-7529). *)
Theorem range_overflow_accepted :
  ngx_http_range_parse 100 8 $"-9223372036854775000,-9223372036854775000" =
    Ret ([MkRange (-9223372036854774900) 100; MkRange (-9223372036854774900) 100], NGX_OK) /\
  ngx_http_range_parse 100 8 $"9223372036854775808-" =
    Ret ([MkRange (-9223372036854775808) 100], NGX_OK).
Proof. split; vm_compute; reflexivity. Qed.

(** C27. A single range is served exactly: however the response is cut into
    buffers and chains, in memory or in a file, what the body filter passes on
    is the bytes [start, end) of it and nothing else, as many as the new
    Content-Length says; Content-Range names these bytes; the buffer with the
    last byte is marked last_buf; and no call fails. *)
Theorem single_range_served mem file r boundary p x chains :
  ngx_http_range_header_filter r boundary = Ret (PartialContent p) -> ranges p = [x] ->
  0 <= start x < end_ x -> end_ x <= Z.of_nat (length (contents mem file (concat chains))) < 2 ^ 63 ->
  0 <= content_length_n r < 2 ^ 63 ->
  Forall (Forall (fun b => buf_ok b = true)) chains ->
  let results := serve (Some (p, 0)) chains in
  bytes_sent mem file results =
    take (Z.to_nat (end_ x - start x))
      (drop (Z.to_nat (start x)) (contents mem file (concat chains))) /\
  Z.of_nat (length (bytes_sent mem file results)) = out_content_length_n p /\
  (exists first last whole,
     out_content_range p = Some ($"bytes " ++ first ++ $"-" ++ last ++ $"/" ++ whole) /\
     decimal first = start x /\ decimal last = end_ x - 1 /\ decimal whole = content_length_n r) /\
  Exists (fun q => match q with Piece b => last_buf b = true | Text _ _ => False end)
    (flat_map sent results) /\
  ~ In Overlapped results.
Proof.
  intros Hh Hp Hx He Hcl Hok. cbv zeta.
  destruct (serve_window mem file p x 0 0 chains Hp ltac:(lia) Hok ltac:(by left)) as (Hb & Hl & Hn).
  assert (window (start x) (end_ x) 0 (contents mem file (concat chains)) =
    take (Z.to_nat (end_ x - start x))
      (drop (Z.to_nat (start x)) (contents mem file (concat chains)))) as Hw.
  { unfold window. rewrite !Z.sub_0_r, skipn_firstn_comm. f_equal. lia. }
  destruct (header_filter_partial _ _ _ Hh) as [(y & Hy & Hpy)|[_ H1]]; [|by rewrite Hp in H1].
  rewrite Hp in Hpy. injection Hpy as <-. rewrite singlepart_header_eq in Hy. injection Hy as <-.
  cbn [out_content_range out_content_length_n]. split_and!.
  - by rewrite Hb, Hw.
  - rewrite Hb, Hw, length_take, length_drop, wrapS_small by lia. lia.
  - exists (off_text (start x)), (off_text (end_ x - 1)), (off_text (content_length_n r)).
    split_and!; [done|apply off_text_dec; lia..].
  - apply Hl. lia.
  - done.
Qed.

(** The fields of a response of five bytes asked for its bytes 1 to 3. *)
Definition example_response (value : list Z) : response :=
  MkResponse 1001 200 true 5 true 8 (Some value) None (-1) $"video/mp4" [].

(** Two chains: two bytes in memory, then three of the file. *)
Definition example_chains : list (list buf) :=
  [[MkBufT true false false false false 10 12 0 0];
   [MkBufT false true false true false 0 0 2 5]].

Lemma single_range_served_witness :
  bytes_sent (fun i => i) (fun i => 100 + i)
    (serve (Some (MkPartial [] [MkRange 1 4] [] (Some $"bytes 1-3/5") $"video/mp4" [] 3, 0)) example_chains)
  = [11; 102; 103].
Proof.
  exact (proj1 (single_range_served (fun i => i) (fun i => 100 + i)
    (example_response $"bytes=1-3") 0 _ (MkRange 1 4) example_chains
    eq_refl eq_refl ltac:(cbn; lia) ltac:(split; by vm_compute) ltac:(cbn; lia)
    ltac:(repeat constructor))).
Defined.

(** C40: several ranges are served as announced: when the whole response is in
    one buffer, what the body filter passes on is a multipart body with, for
    each range in order, the boundary, its Content-Range and its bytes, then
    the closing boundary, marked last_buf, and its length is the Content-Length
    the header filter has put in the headers. *)
Theorem multipart_served mem file r boundary p b :
  ngx_http_range_header_filter r boundary = Ret (PartialContent p) ->
  length (ranges p) <> 1%nat -> buf_ok b = true -> ngx_buf_special b = false ->
  Forall (fun x => 0 <= start x < end_ x /\ end_ x <= ngx_buf_size b) (ranges p) ->
  let text := multipart_text r boundary (content mem file b) (ranges p) in
  Z.of_nat (length text) < 2 ^ 63 ->
  exists out,
    ngx_http_range_body_filter (Some (p, 0)) [b] = (Some (p, ngx_buf_size b), Forward out) /\
    flat_map (part_bytes mem file) out = text /\
    (exists parts closing, out = parts ++ [Text closing true]) /\
    Z.of_nat (length text) = out_content_length_n p.
Proof.
  intros Hh H1 Hok Hsp Hxs. cbv zeta. intros Hlen.
  destruct (header_filter_partial _ _ _ Hh) as [(x & _ & Hx)|[Hm _]]; [by rewrite Hx in H1|].
  pose proof (length_content mem file b Hok) as Hl. rewrite <- Hl in Hxs.
  pose proof (length_multipart_text r boundary (content mem file b) _ Hxs) as Htext.
  unfold ngx_http_range_multipart_header in Hm. rewrite boundary_header_eq in Hm.
  cbn [outcome_bind] in Hm. destruct (ngx_sprintf _ _) as [t| |]; [|done..]. cbn [outcome_bind] in Hm.
  change (Z.of_nat (4 + NGX_ATOMIC_T_LEN + 4)) with 28 in Hm.
  rewrite part_headers_length in Hm; [|eapply Forall_impl; [exact Hxs|cbn; lia]|lia|lia].
  cbn [outcome_bind] in Hm. set (xs := ranges p) in *.
  match type of Hm with Ret (PartialContent ?q) = _ => assert (q = p) as Hp by congruence end.
  exists (ngx_http_range_multipart_body p b).
  assert (ngx_http_range_test_overlapped xs 0 b = Some (ngx_buf_size b)) as Hov
    by (apply not_overlapped; by rewrite <- Hl).
  split_and!.
  - unfold ngx_http_range_body_filter. rewrite Hsp. fold xs. rewrite Hov.
    destruct xs as [|x [|y xs']]; done.
  - unfold ngx_http_range_multipart_body, multipart_text. fold xs.
    rewrite flat_map_app. rewrite <- Hp at 1 2. rewrite <- Hp. cbn [boundary_header content_ranges].
    rewrite take_boundary. f_equal; [|cbn [flat_map part_bytes]; by rewrite app_nil_r, <- !app_assoc].
    clear Hp Hov Hh H1 Hlen Htext Hm. rewrite Hl in Hxs.
    induction Hxs as [|x xs' [Hx He] Hxs IH]; [done|]. cbn [map zip zip_with flat_map part_bytes app].
    cbn [flat_map app part_bytes] in IH. rewrite IH, content_range_data by done.
    by rewrite <- !app_assoc.
  - unfold ngx_http_range_multipart_body. by eexists _, _.
  - apply (f_equal out_content_length_n) in Hp. cbn [out_content_length_n] in Hp.
    rewrite wrapS_small in Hp by lia. lia.
Qed.

(** Two ranges of five bytes in memory. *)
Definition example_buf : buf := MkBufT true false false true false 10 15 0 0.

Definition example_partial : partial :=
  MkPartial (boundary_header_text (example_response []) 7) [MkRange 0 1; MkRange 3 5]
    [$"0-0/5" ++ CRLF ++ CRLF; $"3-4/5" ++ CRLF ++ CRLF] None
    ($"multipart/byteranges; boundary=" ++ boundary_text 7) [] 193.

Lemma multipart_served_witness :
  exists out,
    ngx_http_range_body_filter (Some (example_partial, 0)) [example_buf] =
      (Some (example_partial, 5), Forward out) /\
    length (flat_map (part_bytes (fun i => i) (fun i => i)) out) = 193%nat.
Proof.
  destruct (multipart_served (fun i => i) (fun i => i) (example_response $"bytes=0-0,3-") 7
    example_partial example_buf ltac:(vm_compute; reflexivity) ltac:(done) eq_refl eq_refl
    ltac:(repeat constructor; cbn; lia) ltac:(by vm_compute)) as (out & Hout & Htext & _).
  exists out. split; [exact Hout|]. rewrite Htext. vm_compute. reflexivity.
Defined.

(** The header filter writes inside what it allocates: for every request,
    response and boundary it returns, and the strings it prints into memory of
    a computed size (Content-Range, the header of the parts, the range of each
    part, the new Content-Type) are no longer than the sizes the code passes to
    ngx_pnalloc. *)
Theorem header_texts_fit r boundary :
  exists result, ngx_http_range_header_filter r boundary = Ret result /\
  match result with
  | NextFilter _ => True
  | NotSatisfiable text => (length text <= length $"bytes */" + NGX_OFF_T_LEN)%nat
  | PartialContent p => fits r p
  end.
Proof.
  unfold ngx_http_range_header_filter.
  destruct (_ || _); [by eexists|]. destruct (max_ranges r =? 0); [by eexists|].
  destruct (range r) as [value|]; [|by eexists]. destruct (_ || _); [by eexists|].
  destruct (match if_range r with Some _ => _ | None => _ end); [by eexists|].
  destruct (range_parse_returns (content_length_n r) (max_ranges r) (drop 6 value)) as ([found rc] & ->).
  cbn [outcome_bind]. destruct (rc =? NGX_OK).
  - destruct found as [|x [|y found]];
      [destruct (multipart_header_fits r boundary []) as (p & -> & Hp)
      |destruct (singlepart_header_fits r x) as (p & -> & Hp)
      |destruct (multipart_header_fits r boundary (x :: y :: found)) as (p & -> & Hp)];
      by exists (PartialContent p).
  - destruct (rc =? _); [|by eexists]. rewrite not_satisfiable_eq. eexists. split; [done|].
    cbv beta iota. rewrite length_app. pose proof (length_off_text (content_length_n r)). unfold NGX_OFF_T_LEN. lia.
Qed.
