(* ===== verification/NgxChunked.v ===== *)
(** Chunked bodies: the filter that writes them,
    src/http/modules/ngx_http_chunked_filter_module.c, and the proxy's filters
    that read the body of an upstream, src/http/modules/ngx_http_proxy_module.c.

    A buffer of a response is its bytes and its flags.  The buffers that the
    buffered filters take out of a read buffer are lists of bytes, the ring of
    their shadow pointers is their order, and the free raw buffers a number.
    The unbuffered filters work on the memory of u->buffer, so their output
    buffers are pairs of positions.  Allocation succeeds. *)

From S2P Require Import Prelude NgxNumber NgxPrintf NgxMachine NgxRequestLine.

Module Chunked.
Import Number Printf.

(** * Writing *)

(** ngx_buf_t of a response: the bytes in memory or in the file. *)
Record obuf := MkObuf {
  data : list Z; flush : bool; sync : bool; in_memory : bool; in_file : bool; last_buf : bool }.

Definition buf_size (b : obuf) : Z := Z.of_nat (length (data b)).

(** The first loop: the size, the buffers linked, and the last buffer. *)
Fixpoint sum_chain (size : Z) (out : list obuf) (cl : list obuf) : Z * list obuf :=
  match cl with
  | [] => (size, out)
  | b :: cl =>
    sum_chain (wrapS 64 (size + buf_size b))
      (if flush b || sync b || in_memory b || in_file b then out ++ [b] else out) cl
  end.

Definition memory_buf (text : list Z) (last : bool) : obuf := MkObuf text false false true false last.

Definition clear_last (b : obuf) : obuf :=
  MkObuf (data b) (flush b) (sync b) (in_memory b) (in_file b) false.

(** [cl->buf->last_buf = 0], on the buffer that ends the chain, wherever it is
    linked. *)
Definition clear_last_of (n : bool) (out : list obuf) : list obuf :=
  if n then
    match List.rev out with
    | b :: l => List.rev (clear_last b :: l)
    | [] => []
    end
  else out.

(** The chain given to the next filter. *)
Definition chunked_chain (cl : list obuf) : outcome (list obuf) :=
  match last cl with
  | None => Undefined
  | Some b =>
    let '(size, out) := sum_chain 0 [] cl in
    let linked := flush b || sync b || in_memory b || in_file b in
    let! head :=
      if size =? 0 then Ret []
      else let! text := ngx_sprintf ($"%xO" ++ [CR; LF]) [Num size] in
           Ret [MkObuf text false false true false false] in
    if last_buf b then
      Ret (head ++ clear_last_of linked out
             ++ [memory_buf (drop (if size =? 0 then 2 else 0) ([CR; LF] ++ $"0" ++ [CR; LF; CR; LF])) true])
    else if size >? 0 then Ret (head ++ out ++ [memory_buf [CR; LF] false])
    else Ret (head ++ out)
  end.

(** [next] is the next body filter. *)
Definition ngx_http_chunked_body_filter (chunked header_only : bool) (inp : list obuf)
    : outcome (list obuf) :=
  if bool_decide (inp = []) || negb chunked || header_only then Ret inp else chunked_chain inp.

Definition NGX_HTTP_NOT_MODIFIED : Z := 304.
Definition NGX_HTTP_NO_CONTENT : Z := 204.
Definition NGX_HTTP_VERSION_11 : Z := 1001.

(** r->chunked and r->keepalive after the header filter. *)
Definition ngx_http_chunked_header_filter (status : Z) (is_main head : bool) (content_length_n http_version : Z)
    (chunked_transfer_encoding chunked keepalive : bool) : bool * bool :=
  if (status =? NGX_HTTP_NOT_MODIFIED) || (status =? NGX_HTTP_NO_CONTENT) || negb is_main || head
  then (chunked, keepalive)
  else if content_length_n =? -1 then
    if http_version <? NGX_HTTP_VERSION_11 then (chunked, false)
    else if chunked_transfer_encoding then (true, keepalive)
    else (chunked, false)
  else (chunked, keepalive).

(** * Reading *)

Inductive chunk_state :=
| sw_chunk_start | sw_chunk_size | sw_chunk_extension | sw_chunk_extension_almost_done
| sw_chunk_data | sw_after_data | sw_after_data_almost_done
| sw_last_chunk_extension | sw_last_chunk_extension_almost_done
| sw_trailer | sw_trailer_almost_done | sw_trailer_header | sw_trailer_header_almost_done.

#[global] Instance chunk_state_eq_dec : EqDecision chunk_state.
Proof. solve_decision. Defined.

Record ngx_http_proxy_ctx_t := MkProxyCtx { state : chunk_state; size : Z; length_ : Z }.

Definition ctx_eta (c : ngx_http_proxy_ctx_t) : ngx_http_proxy_ctx_t := MkProxyCtx (state c) (size c) (length_ c).

Definition set_state v c := ltac:(record_set ctx_eta state v c).
Definition set_size v c := ltac:(record_set ctx_eta size v c).
Definition set_length v c := ltac:(record_set ctx_eta length_ v c).

Inductive chunk_label := at_data | at_done | at_invalid.

(** The value of a digit of a size. *)
Definition chunk_digit (ch : Z) : option Z :=
  if ("0"%c <=? ch) && (ch <=? "9"%c) then Some (ch - "0"%c)
  else
    let c := wrapU 8 (Z.lor ch 0x20) in
    if ("a"%c <=? c) && (c <=? "f"%c) then Some (c - "a"%c + 10) else None.

(** The end of a line: where CR, LF and the other bytes lead. *)
Definition on_eol {A} (ch : Z) (cr lf other : A) : A :=
  if ch =? CR then cr else if ch =? LF then lf else other.

(** The body of the loop; ctx->state is the local variable. *)
Definition chunk_step (_ : list Z) (c : ngx_http_proxy_ctx_t) (_ ch : Z)
    : step_result ngx_http_proxy_ctx_t chunk_label :=
  let to st := Go (set_state st c) in
  let only_lf r := if ch =? LF then r else Goto c at_invalid in
  match state c with
  | sw_chunk_start =>
    match chunk_digit ch with
    | Some d => Go (set_size d (set_state sw_chunk_size c))
    | None => Goto c at_invalid
    end
  | sw_chunk_size =>
    match chunk_digit ch with
    | Some d => Go (set_size (wrapS 64 (size c * 16 + d)) c)
    | None =>
      if size c =? 0 then
        on_eol ch (to sw_last_chunk_extension_almost_done) (to sw_trailer)
          (if (ch =? ";"%c) || (ch =? " "%c) || (ch =? 9) then to sw_last_chunk_extension
           else Goto c at_invalid)
      else
        on_eol ch (to sw_chunk_extension_almost_done) (to sw_chunk_data)
          (if (ch =? ";"%c) || (ch =? " "%c) || (ch =? 9) then to sw_chunk_extension
           else Goto c at_invalid)
    end
  | sw_chunk_extension => on_eol ch (to sw_chunk_extension_almost_done) (to sw_chunk_data) (Go c)
  | sw_chunk_extension_almost_done => only_lf (to sw_chunk_data)
  | sw_chunk_data => Goto c at_data
  | sw_after_data => on_eol ch (to sw_after_data_almost_done) (to sw_chunk_start) (Go c)
  | sw_after_data_almost_done => only_lf (to sw_chunk_start)
  | sw_last_chunk_extension =>
    on_eol ch (to sw_last_chunk_extension_almost_done) (to sw_trailer) (Go c)
  | sw_last_chunk_extension_almost_done => only_lf (to sw_trailer)
  | sw_trailer => on_eol ch (to sw_trailer_almost_done) (Goto c at_done) (to sw_trailer_header)
  | sw_trailer_almost_done => only_lf (Goto c at_done)
  | sw_trailer_header => on_eol ch (to sw_trailer_header_almost_done) (to sw_trailer) (Go c)
  | sw_trailer_header_almost_done => only_lf (to sw_trailer)
  end.

(** The least number of bytes that must still come. *)
Definition least_length (st : chunk_state) (size : Z) : Z :=
  match st with
  | sw_chunk_start => 3
  | sw_chunk_size => 2 + (if size =? 0 then 0 else size + 4)
  | sw_chunk_extension | sw_chunk_extension_almost_done => 1 + size + 4
  | sw_chunk_data => size + 4
  | sw_after_data | sw_after_data_almost_done => 4
  | sw_last_chunk_extension | sw_last_chunk_extension_almost_done => 2
  | sw_trailer | sw_trailer_almost_done => 1
  | sw_trailer_header | sw_trailer_header_almost_done => 2
  end.

(** From the label data on. *)
Definition parsed (c : ngx_http_proxy_ctx_t) (p rc : Z) : ngx_http_proxy_ctx_t * Z * Z :=
  let c := set_length (wrapS 64 (least_length (state c) (size c))) c in
  (c, p, if (size c <? 0) || (length_ c <? 0) then NGX_ERROR else rc).

(** The result has ctx, buf->pos and the code. *)
Definition ngx_http_proxy_parse_chunked (c : ngx_http_proxy_ctx_t) (b : ngx_buf_t)
    : ngx_http_proxy_ctx_t * Z * Z :=
  let st := if bool_decide (state c = sw_chunk_data) && (size c =? 0) then sw_after_data else state c in
  match run_buf chunk_step b (set_state st c) with
  | Exhausted s p => parsed s p NGX_AGAIN
  | Jumped s p at_data => parsed s p NGX_OK
  | Jumped s _ at_done => (set_state (state c) s, pos b, NGX_DONE)
  | Jumped s _ at_invalid => (set_state (state c) s, pos b, NGX_ERROR)
  | Returned s rc => (s, pos b, rc)
  end.

(** ** Into the pipe *)

(** The fields of the pipe and of the upstream that the filters use: p->in,
    p->length, p->upstream_done, the number of the free raw buffers, and
    u->keepalive. *)
Record pipe := MkPipe {
  p_in : list (list Z); p_length : Z; upstream_done : bool; free_raw : nat; keepalive : bool }.

Definition pipe_eta (p : pipe) : pipe :=
  MkPipe (p_in p) (p_length p) (upstream_done p) (free_raw p) (keepalive p).

Definition set_in v p := ltac:(record_set pipe_eta p_in v p).
Definition set_p_length v p := ltac:(record_set pipe_eta p_length v p).
Definition set_upstream_done v p := ltac:(record_set pipe_eta upstream_done v p).
Definition set_free_raw v p := ltac:(record_set pipe_eta free_raw v p).
Definition set_keepalive v p := ltac:(record_set pipe_eta keepalive v p).

Section filters.
(** u->headers_in.connection_close *)
Context (connection_close : bool).

(** The part of the buffer that the chunk has: its end, and what is left of
    the chunk. *)
Definition take_chunk (c : ngx_http_proxy_ctx_t) (b : ngx_buf_t) (p : Z) : Z * ngx_http_proxy_ctx_t :=
  let last := Z.of_nat (length (bytes b)) in
  if last - p >=? size c then (p + size c, set_size 0 c)
  else (last, set_size (wrapS 64 (size c - (last - p))) c).

Definition slice_of (b : ngx_buf_t) (p q : Z) : list Z :=
  take (Z.to_nat (q - p)) (drop (Z.to_nat p) (bytes b)).

(** The loop of the buffered filter; [some]: b is not null. *)
Fixpoint chunked_filter_loop (fuel : nat) (c : ngx_http_proxy_ctx_t) (b : ngx_buf_t) (p : pipe) (some : bool)
    : outcome (ngx_http_proxy_ctx_t * pipe * Z) :=
  match fuel with
  | O => NoFuel
  | S fuel =>
    let '(c, q, rc) := ngx_http_proxy_parse_chunked c b in
    let leave p := Ret (c, if some then p else set_free_raw (S (free_raw p)) p, NGX_OK) in
    if rc =? NGX_OK then
      let '(q', c) := take_chunk c b q in
      chunked_filter_loop fuel c (MkBuf (bytes b) q') (set_in (p_in p ++ [slice_of b q q']) p) true
    else if rc =? NGX_DONE then leave (set_upstream_done true (set_keepalive (negb connection_close) p))
    else if rc =? NGX_AGAIN then leave (set_p_length (length_ c) p)
    else Ret (c, p, NGX_ERROR)
  end.

(** Each round takes a byte at least. *)
Definition ngx_http_proxy_chunked_filter (c : ngx_http_proxy_ctx_t) (p : pipe) (b : ngx_buf_t)
    : outcome (ngx_http_proxy_ctx_t * pipe * Z) :=
  if pos b =? Z.of_nat (length (bytes b)) then Ret (c, p, NGX_OK)
  else chunked_filter_loop (S (length (bytes b))) c b p false.

Definition ngx_http_proxy_copy_filter (p : pipe) (b : ngx_buf_t) : pipe * Z :=
  let last := Z.of_nat (length (bytes b)) in
  if pos b =? last then (p, NGX_OK)
  else
    let p := set_in (p_in p ++ [slice_of b (pos b) last]) p in
    if p_length p =? -1 then (p, NGX_OK)
    else
      let p := set_p_length (wrapS 64 (p_length p - (last - pos b))) p in
      let p := if p_length p =? 0 then set_upstream_done true (set_keepalive (negb connection_close) p)
               else if p_length p <? 0 then set_upstream_done true p
               else p in
      (p, NGX_OK).

(** ** Without buffering *)

(** u->buffer (its memory, pos and last), u->out_bufs as pairs of positions in
    it, u->length and u->keepalive. *)
Record unbuffered := MkUnbuf {
  memory : list Z; u_pos : Z; u_last : Z; out_bufs : list (Z * Z); u_length : Z; u_keepalive : bool }.

Definition u_eta (u : unbuffered) : unbuffered :=
  MkUnbuf (memory u) (u_pos u) (u_last u) (out_bufs u) (u_length u) (u_keepalive u).

Definition set_memory v u := ltac:(record_set u_eta memory v u).
Definition set_u_pos v u := ltac:(record_set u_eta u_pos v u).
Definition set_u_last v u := ltac:(record_set u_eta u_last v u).
Definition set_out_bufs v u := ltac:(record_set u_eta out_bufs v u).
Definition set_u_length v u := ltac:(record_set u_eta u_length v u).
Definition set_u_keepalive v u := ltac:(record_set u_eta u_keepalive v u).

Definition ngx_http_proxy_non_buffered_copy_filter (u : unbuffered) (n : Z) : unbuffered * Z :=
  let u := set_out_bufs (out_bufs u ++ [(u_last u, u_last u + n)]) u in
  let u := set_u_last (u_last u + n) u in
  if u_length u =? -1 then (u, NGX_OK)
  else
    let u := set_u_length (wrapS 64 (u_length u - n)) u in
    (if u_length u =? 0 then set_u_keepalive (negb connection_close) u else u, NGX_OK).

(** What the parser reads: the memory up to u->buffer.last. *)
Definition u_buf (u : unbuffered) : ngx_buf_t := MkBuf (take (Z.to_nat (u_last u)) (memory u)) (u_pos u).

Fixpoint non_buffered_loop (fuel : nat) (c : ngx_http_proxy_ctx_t) (u : unbuffered)
    : outcome (ngx_http_proxy_ctx_t * unbuffered * Z) :=
  match fuel with
  | O => NoFuel
  | S fuel =>
    let '(c, q, rc) := ngx_http_proxy_parse_chunked c (u_buf u) in
    let u := set_u_pos q u in
    if rc =? NGX_OK then
      let '(q', c) := take_chunk c (u_buf u) q in
      non_buffered_loop fuel c (set_u_pos q' (set_out_bufs (out_bufs u ++ [(q, q')]) u))
    else if rc =? NGX_DONE then Ret (c, set_u_length 0 (set_u_keepalive (negb connection_close) u), NGX_OK)
    else if rc =? NGX_AGAIN then Ret (c, u, NGX_OK)
    else Ret (c, u, NGX_ERROR)
  end.

(** ngx_movemem, which gives the end of the copy. *)
Definition movemem (m : list Z) (dst src : Z) (n : nat) : list Z :=
  take (Z.to_nat dst) m ++ take n (drop (Z.to_nat src) m) ++ drop (Z.to_nat dst + n) m.

(** The buffers of the chain moved together, from [last] on. *)
Fixpoint compact (m : list Z) (last : Z) (l : list (Z * Z)) : list Z * Z * list (Z * Z) :=
  match l with
  | [] => (m, last, [])
  | (p, q) :: l =>
    let '(m, last') := if last =? p then (m, q) else (movemem m last p (Z.to_nat (q - p)), last + (q - p)) in
    let '(m, last, l) := compact m last' l in
    (m, last, (last' - (q - p), last') :: l)
  end.

Definition ngx_http_proxy_non_buffered_chunked_filter (subrequest_in_memory : bool)
    (c : ngx_http_proxy_ctx_t) (u : unbuffered) (n : Z)
    : outcome (ngx_http_proxy_ctx_t * unbuffered * Z) :=
  let u := set_u_last (u_last u + n) (set_u_pos (u_last u) u) in
  let! (c, u, rc) := non_buffered_loop (S (Z.to_nat n)) c u in
  if rc =? NGX_ERROR then Ret (c, u, rc)
  else if subrequest_in_memory then
    let p := match out_bufs u with (p, _) :: _ => p | [] => u_pos u end in
    let '(m, last, l) := compact (memory u) p (out_bufs u) in
    Ret (c, set_memory m (set_u_pos p (set_u_last last (set_out_bufs l u))), NGX_OK)
  else Ret (c, u, NGX_OK).
End filters.

(** Which filter the answer of an upstream gets, and the length expected. *)
Inductive input_filter := Chunked_filter | Copy_filter.

Definition ngx_http_proxy_input_filter_init (status_n : Z) (head chunked connection_close : bool)
    (content_length_n : Z) (keepalive : bool) : input_filter * Z * Z * bool :=
  if (status_n =? NGX_HTTP_NO_CONTENT) || (status_n =? NGX_HTTP_NOT_MODIFIED) || head
  then (Copy_filter, 0, 0, negb connection_close)
  else if chunked then (Chunked_filter, 3, -1, keepalive)
  else if content_length_n =? 0 then (Copy_filter, 0, 0, negb connection_close)
  else (Copy_filter, content_length_n, content_length_n, keepalive).

End Chunked.
