(* ===== verification/NgxChunkedBody.v ===== *)
(** A chunked body is read as it was written: proofs on NgxChunked.

    [decode] reads byte by byte; the filters of the proxy, which take as much of
    a buffer at a time as they can, come to the same however the bytes are cut
    into buffers, as long as no size is too large for an off_t.  [message] is
    the grammar of a chunked body, [render] its text. *)

From S2P Require Import Prelude NgxNumber NgxPrintf NgxMachine NgxRequestLine NgxChunked.

Module ChunkedBody.
Import Number Printf Chunked.

(** * Byte by byte *)

(** The largest size whose least length is still an off_t. *)
Definition MAX_SIZE : Z := 2 ^ 63 - 7.

Inductive verdict :=
| Running (st : chunk_state) (n : Z)
| Finished (rest : list Z)
| Bad
| TooBig.

(** The state in which the byte after a chunk is read. *)
Definition norm (st : chunk_state) (n : Z) : chunk_state :=
  if bool_decide (st = sw_chunk_data) && (n =? 0) then sw_after_data else st.

(** A further digit of a size. *)
Definition size_digit (st : chunk_state) (ch : Z) : option Z :=
  if bool_decide (st = sw_chunk_size) then chunk_digit ch else None.

Fixpoint decode (st : chunk_state) (n : Z) (l : list Z) : list Z * verdict :=
  match l with
  | [] => ([], Running (norm st n) n)
  | ch :: l =>
    if bool_decide (st = sw_chunk_data) && (0 <? n) then
      let '(o, v) := decode sw_chunk_data (n - 1) l in (ch :: o, v)
    else
      match size_digit (norm st n) ch with
      | Some d =>
        if n * 16 + d >? MAX_SIZE then ([], TooBig) else decode sw_chunk_size (n * 16 + d) l
      | None =>
        match chunk_step [] (MkProxyCtx (norm st n) n 0) 0 ch with
        | Go c => decode (state c) (size c) l
        | Goto _ at_done => ([], Finished l)
        | _ => ([], Bad)
        end
      end
  end.

(** The states between the size of a chunk and its end have a size. *)
Definition sized (st : chunk_state) : bool :=
  match st with
  | sw_chunk_extension | sw_chunk_extension_almost_done | sw_chunk_data => true
  | _ => false
  end.

Definition ctx_ok (st : chunk_state) (n : Z) : Prop := 0 <= n <= MAX_SIZE /\ (sized st = true -> 0 < n).

Lemma chunk_digit_range ch d : chunk_digit ch = Some d -> 0 <= d < 16.
Proof. unfold chunk_digit. split_ifs; intros [= <-]; lia. Qed.

(** A step that is not in the data of a chunk. *)
Lemma chunk_step_ok buf c p ch :
  ctx_ok (state c) (size c) -> state c <> sw_chunk_data ->
  (forall d, state c = sw_chunk_size -> chunk_digit ch = Some d -> size c * 16 + d <= MAX_SIZE) ->
  match chunk_step buf c p ch with
  | Go c' => ctx_ok (state c') (size c') /\ length_ c' = length_ c
  | Goto c' l => c' = c /\ l <> at_data
  | Return _ _ => False
  end.
Proof.
  intros [Hn Hs] Hd Hmax. unfold ctx_ok, sized in *. destruct c as [st n len]; cbn [state size length_] in *.
  destruct st; unfold chunk_step, on_eol; cbn [state size length_ set_state set_size];
    repeat case_match; simplify_eq; cbn [state size length_ set_state set_size] in *; try done; boolify;
    try match goal with H : chunk_digit _ = Some _ |- _ => pose proof (chunk_digit_range _ _ H) end;
    try specialize (Hmax _ eq_refl eq_refl);
    unfold MAX_SIZE in *; rewrite ?wrapS_small by lia; split_and!; try done; try lia.
Qed.

(** Nothing depends on the buffer, the position and the length. *)
Lemma chunk_step_same st n len buf p ch :
  match chunk_step [] (MkProxyCtx st n 0) 0 ch, chunk_step buf (MkProxyCtx st n len) p ch with
  | Go a, Go b => state a = state b /\ size a = size b
  | Goto _ l, Goto _ l' => l = l'
  | _, _ => False
  end.
Proof. destruct st; unfold chunk_step, on_eol; cbn; repeat case_match; simplify_eq; done. Qed.

Lemma decode_cons st n ch l len buf p :
  st <> sw_chunk_data -> ctx_ok st n -> snd (decode st n (ch :: l)) <> TooBig ->
  match chunk_step buf (MkProxyCtx st n len) p ch with
  | Go c => decode st n (ch :: l) = decode (state c) (size c) l /\ ctx_ok (state c) (size c)
  | Goto _ at_done => decode st n (ch :: l) = ([], Finished l)
  | Goto _ at_invalid => decode st n (ch :: l) = ([], Bad)
  | _ => False
  end.
Proof.
  intros Hst Hok. cbn [decode]. rewrite (bool_decide_eq_false_2 _ Hst). cbn [andb].
  assert (norm st n = st) as -> by (unfold norm; by rewrite (bool_decide_eq_false_2 _ Hst)).
  pose proof (chunk_step_ok buf (MkProxyCtx st n len) p ch Hok Hst) as Hstep. cbn [state size] in Hstep.
  pose proof (chunk_step_same st n len buf p ch) as Hsame.
  destruct (size_digit st ch) as [d|] eqn:Ed; unfold size_digit in Ed; case_bool_decide as Hsz; try done.
  - subst st. case_if E; boolify; [done|]. intros _. unfold chunk_step in *. cbn [state size] in *. rewrite Ed in *.
    specialize (Hstep ltac:(intros ? _ [= <-]; lia)). cbn [state size set_size] in *. destruct Hok as [Hn _].
    pose proof (chunk_digit_range _ _ Ed). unfold MAX_SIZE in *. rewrite wrapS_small in * by lia. by destruct Hstep.
  - intros _. specialize (Hstep ltac:(congruence)).
    destruct (chunk_step [] _ 0 ch) as [a|a la|], (chunk_step buf _ p ch) as [b|b lb|]; try done.
    + destruct Hsame as [-> ->]. by destruct Hstep.
    + subst. destruct lb; [by destruct Hstep|done..].
  - intros _. specialize (Hstep ltac:(done)).
    destruct (chunk_step [] _ 0 ch) as [a|a la|], (chunk_step buf _ p ch) as [b|b lb|]; try done.
    + destruct Hsame as [-> ->]. by destruct Hstep.
    + subst. destruct lb; [by destruct Hstep|done..].
Qed.

(** The loop of the parser against [decode]. *)
Lemma loop_decode buf rest p c :
  ctx_ok (state c) (size c) -> snd (decode (state c) (size c) rest) <> TooBig ->
  match run_loop chunk_step buf rest p c with
  | Exhausted s q =>
    q = p + Z.of_nat (length rest) /\ ctx_ok (state s) (size s)
    /\ decode (state c) (size c) rest = ([], Running (state s) (size s))
  | Jumped s q at_data =>
    exists pre rest', rest = pre ++ rest' /\ rest' <> [] /\ q = p + Z.of_nat (length pre)
      /\ state s = sw_chunk_data /\ ctx_ok (state s) (size s)
      /\ decode (state c) (size c) rest = decode (state s) (size s) rest'
  | Jumped s q at_done => exists more, decode (state c) (size c) rest = ([], Finished more)
  | Jumped s q at_invalid => decode (state c) (size c) rest = ([], Bad)
  | Returned _ _ => False
  end.
Proof.
  revert p c. induction rest as [|ch rest IH]; intros p c Hok Hbig.
  { cbn [run_loop decode length]. split_and!; [lia|done|]. unfold norm. destruct Hok as [_ Hok].
    case_bool_decide as Hst; [|done]. rewrite Hst in Hok. specialize (Hok eq_refl). destruct (size c =? 0) eqn:E; boolify; [lia|done]. }
  destruct (decide (state c = sw_chunk_data)) as [Hst|Hst].
  { cbn [run_loop]. unfold chunk_step. rewrite Hst. exists [], (ch :: rest). split_and!; try done; [cbn; lia|by rewrite <- Hst]. }
  destruct c as [st n len]. cbn [state size] in *.
  pose proof (decode_cons st n ch rest len buf p Hst Hok Hbig) as Hd. cbn [run_loop].
  destruct (chunk_step buf _ p ch) as [c'|c' l|]; [|by destruct l; eauto|done].
  destruct Hd as [Hd Hok']. rewrite Hd in Hbig |- *. specialize (IH (p + 1) c' Hok' Hbig).
  destruct (run_loop chunk_step buf rest (p + 1) c') as [s q|s q l|s rc]; [|destruct l|done].
  - cbn [length]. destruct IH as (-> & ? & ?). split_and!; [lia|done..].
  - destruct IH as (pre & rest' & -> & ? & -> & ? & ? & ?). exists (ch :: pre), rest'.
    split_and!; try done. cbn [length]. lia.
  - done.
  - done.
Qed.

(** * Buffer by buffer *)

Lemma decode_norm st n l : decode (norm st n) n l = decode st n l.
Proof.
  unfold norm. case_bool_decide as Hst; [|done]. subst st. destruct (n =? 0) eqn:E; [|done]. boolify. subst n.
  by destruct l.
Qed.

Lemma least_length_range st n : 0 <= n <= MAX_SIZE -> 0 <= least_length st n < 2 ^ 63.
Proof. unfold MAX_SIZE, least_length. intros Hn. destruct st; split_ifs. Qed.

Lemma parsed_ok c p rc :
  ctx_ok (state c) (size c) -> parsed c p rc = (set_length (least_length (state c) (size c)) c, p, rc).
Proof.
  intros [Hn _]. pose proof (least_length_range (state c) _ Hn). unfold parsed. rewrite wrapS_small by lia.
  cbn [size length_ set_length]. unfold MAX_SIZE in *.
  by rewrite !(proj2 (Z.ltb_ge _ _)) by lia.
Qed.

(** One call of the parser. *)
Lemma parse_decode c data p :
  ctx_ok (norm (state c) (size c)) (size c) -> 0 <= p <= Z.of_nat (length data) ->
  let rest := drop (Z.to_nat p) data in
  snd (decode (state c) (size c) rest) <> TooBig ->
  exists c' q rc, ngx_http_proxy_parse_chunked c (MkBuf data p) = (c', q, rc) /\
  ((rc = NGX_AGAIN /\ q = Z.of_nat (length data) /\ ctx_ok (state c') (size c')
    /\ decode (state c) (size c) rest = ([], Running (state c') (size c'))
    /\ length_ c' = least_length (state c') (size c')) \/
   (rc = NGX_OK /\ p <= q < Z.of_nat (length data) /\ state c' = sw_chunk_data /\ ctx_ok (state c') (size c')
    /\ decode (state c) (size c) rest = decode (state c') (size c') (drop (Z.to_nat q) data)) \/
   (rc = NGX_DONE /\ exists more, decode (state c) (size c) rest = ([], Finished more)) \/
   (rc = NGX_ERROR /\ decode (state c) (size c) rest = ([], Bad))).
Proof.
  intros Hok Hp rest Hbig. unfold ngx_http_proxy_parse_chunked. fold (norm (state c) (size c)).
  rewrite <- decode_norm in *. set (c0 := set_state (norm (state c) (size c)) c).
  pose proof (loop_decode data rest p c0 Hok Hbig) as H. unfold run_buf. cbn [bytes pos].
  change (norm (state c) (size c)) with (state c0). change (size c) with (size c0).
  subst rest. set (rest := drop (Z.to_nat p) data) in *.
  destruct (run_loop chunk_step data rest p c0) as [s q|s q l|s rc]; [|destruct l|done].
  - destruct H as (-> & Hs & Hd). rewrite parsed_ok by done. eexists _, _, _. split; [reflexivity|]. left.
    cbn [state size length_ set_length]. split_and!; try done. unfold rest. rewrite length_drop. lia.
  - destruct H as (pre & rest' & Hr & Hne & -> & Hst & Hs & Hd). rewrite parsed_ok by done.
    eexists _, _, _. split; [reflexivity|]. right; left. cbn [state size set_length].
    assert (length data = Z.to_nat p + length pre + length rest')%nat as Hl.
    { apply (f_equal length) in Hr. unfold rest in Hr. rewrite length_drop, length_app in Hr. lia. }
    assert (0 < length rest')%nat by (destruct rest'; [done|cbn; lia]).
    split_and!; try done; try lia. rewrite Hd. f_equal.
    replace (Z.to_nat (p + Z.of_nat (length pre))) with (Z.to_nat p + length pre)%nat by lia.
    rewrite <- drop_drop. fold rest. by rewrite Hr, drop_app_length.
  - eexists _, _, _. split; [reflexivity|]. right; right; left. done.
  - eexists _, _, _. split; [reflexivity|]. right; right; right. done.
Qed.

Lemma decode_take k n l :
  Z.of_nat k <= n -> (k <= length l)%nat ->
  decode sw_chunk_data n l = (let '(o, v) := decode sw_chunk_data (n - Z.of_nat k) (drop k l) in (take k l ++ o, v)).
Proof.
  revert n l. induction k as [|k IH]; intros n l Hn Hk.
  - change (Z.of_nat 0) with 0. rewrite Z.sub_0_r, drop_0. by destruct (decode sw_chunk_data n l).
  - destruct l as [|ch l]; [cbn in Hk; lia|]. cbn [decode drop take]. rewrite (proj2 (Z.ltb_lt 0 n)) by lia.
    cbn [andb]. rewrite (bool_decide_eq_true_2 _ eq_refl). cbn [andb]. cbn [length] in Hk. rewrite (IH (n - 1)) by lia.
    replace (n - 1 - Z.of_nat k) with (n - Z.of_nat (S k)) by lia. by destruct (decode _ _ (drop k l)).
Qed.

(** The part of a chunk that a buffer has. *)
Lemma take_chunk_decode c data q :
  state c = sw_chunk_data -> ctx_ok (state c) (size c) -> 0 <= q < Z.of_nat (length data) ->
  exists q' c', take_chunk c (MkBuf data q) q = (q', c') /\ q < q' <= Z.of_nat (length data)
    /\ ctx_ok (norm (state c') (size c')) (size c') /\ (forall p, slice_of (MkBuf data p) q q' = take (Z.to_nat (q' - q)) (drop (Z.to_nat q) data))
    /\ decode (state c) (size c) (drop (Z.to_nat q) data)
       = (let '(o, v) := decode (state c') (size c') (drop (Z.to_nat q') data) in
          (take (Z.to_nat (q' - q)) (drop (Z.to_nat q) data) ++ o, v)).
Proof.
  intros Hst [Hn Hs] Hq. rewrite Hst in Hs. specialize (Hs eq_refl). unfold take_chunk. cbn [bytes].
  set (k := Z.min (size c) (Z.of_nat (length data) - q)).
  assert (forall c', state c' = sw_chunk_data -> size c' = size c - k ->
    ctx_ok (norm (state c') (size c')) (size c') /\
    decode (state c) (size c) (drop (Z.to_nat q) data)
    = (let '(o, v) := decode (state c') (size c') (drop (Z.to_nat (q + k)) data) in
       (take (Z.to_nat (q + k - q)) (drop (Z.to_nat q) data) ++ o, v))) as Hk.
  { intros c' Hst' Hsz. rewrite Hst, Hst', Hsz. split.
    - split; [unfold k; lia|]. unfold norm. rewrite (bool_decide_eq_true_2 _ eq_refl). cbn [andb].
      destruct (size c - k =? 0) eqn:E; [done|]. boolify. intros _. unfold k in *. lia.
    - rewrite (decode_take (Z.to_nat k)) by (rewrite ?length_drop; unfold k; lia).
      rewrite drop_drop. replace (Z.of_nat (Z.to_nat k)) with k by (unfold k; lia).
      replace (Z.to_nat q + Z.to_nat k)%nat with (Z.to_nat (q + k)) by (unfold k; lia).
      replace (q + k - q) with k by lia. done. }
  case_if E; boolify.
  - assert (k = size c) as Ek by (unfold k; lia). exists (q + size c), (set_size 0 c).
    destruct (Hk (set_size 0 c)) as [H1 H2]; [done|cbn; lia|]. rewrite Ek in H2. split_and!; try done; lia.
  - assert (k = Z.of_nat (length data) - q) as Ek by (unfold k; lia).
    eexists _, _. split; [reflexivity|]. unfold MAX_SIZE in Hn. rewrite wrapS_small by lia.
    destruct (Hk (set_size (size c - (Z.of_nat (length data) - q)) c)) as [H1 H2]; [done|cbn; lia|].
    replace (q + k) with (Z.of_nat (length data)) in H2 by lia. split_and!; try done; lia.
Qed.

(** What a filter has done when [decode] gives [v]. *)
Definition filtered (close : bool) (v : verdict) (c : ngx_http_proxy_ctx_t) (p p' : pipe) (rc : Z) : Prop :=
  match v with
  | Running st n =>
    rc = NGX_OK /\ state c = st /\ size c = n /\ ctx_ok st n /\ p_length p' = least_length st n
    /\ upstream_done p' = upstream_done p /\ keepalive p' = keepalive p
  | Finished _ => rc = NGX_OK /\ upstream_done p' = true /\ keepalive p' = negb close
  | Bad => rc = NGX_ERROR
  | TooBig => False
  end.

Lemma filter_loop_decode close fuel c data q p some :
  ctx_ok (norm (state c) (size c)) (size c) -> 0 <= q <= Z.of_nat (length data) ->
  Z.of_nat (length data) - q < Z.of_nat fuel ->
  snd (decode (state c) (size c) (drop (Z.to_nat q) data)) <> TooBig ->
  exists c' p' rc, chunked_filter_loop close fuel c (MkBuf data q) p some = Ret (c', p', rc) /\
    concat (p_in p') = concat (p_in p) ++ fst (decode (state c) (size c) (drop (Z.to_nat q) data)) /\
    filtered close (snd (decode (state c) (size c) (drop (Z.to_nat q) data))) c' p p' rc.
Proof.
  revert c q p some. induction fuel as [|fuel IH]; intros c q p some Hok Hq Hf Hbig; [lia|].
  cbn [chunked_filter_loop]. destruct (parse_decode c data q Hok Hq Hbig) as (c1 & q1 & rc & -> & Hcase).
  destruct Hcase as [(-> & -> & Hok1 & -> & Hl)|[(-> & Hq1 & Hst & Hok1 & Hd)|[(-> & more & ->)|(-> & ->)]]]; cbn [Z.eqb Pos.eqb NGX_OK NGX_DONE NGX_AGAIN NGX_ERROR].
  - eexists _, _, _. split; [reflexivity|]. cbn [fst snd filtered]. rewrite app_nil_r. destruct some; by split_and!.
  - destruct (take_chunk_decode c1 data q1 Hst Hok1 ltac:(lia)) as (q2 & c2 & Ht & Hq2 & Hok2 & Hsl & Hd2).
    replace (take_chunk c1 (MkBuf data q) q1) with (take_chunk c1 (MkBuf data q1) q1) by done. rewrite Ht. cbn [bytes].
    rewrite Hd, Hd2 in Hbig |- *. destruct (decode (state c2) (size c2) (drop (Z.to_nat q2) data)) as [o v] eqn:Ed. cbn [snd fst] in *.
    destruct (IH c2 q2 (set_in (p_in p ++ [slice_of (MkBuf data q) q1 q2]) p) true Hok2) as (c3 & p3 & rc & -> & Ho & Hv);
      [lia|lia|by rewrite Ed|]. rewrite Ed in Ho, Hv. cbn [fst snd] in Ho, Hv.
    exists c3, p3, rc. split_and!; [done| |by destruct v].
    rewrite Ho. cbn [p_in set_in]. rewrite concat_app, Hsl. cbn [concat]. by rewrite app_nil_r, <- app_assoc.
  - eexists _, _, _. split; [reflexivity|]. cbn [fst snd filtered]. rewrite app_nil_r. destruct some; by split_and!.
  - eexists _, _, _. split; [reflexivity|]. cbn [fst snd filtered]. by rewrite app_nil_r.
Qed.

Lemma decode_app st n l k :
  decode st n (l ++ k) =
  match decode st n l with
  | (o, Running st' n') => let '(o', v) := decode st' n' k in (o ++ o', v)
  | (o, Finished rest) => (o, Finished (rest ++ k))
  | r => r
  end.
Proof.
  revert st n. induction l as [|ch l IH]; intros st n.
  - cbn [app decode]. rewrite decode_norm. by destruct (decode st n k).
  - cbn [app decode]. case_if E.
    + rewrite IH. destruct (decode _ _ l) as [o [st' n'|r| |]]; try done. by destruct (decode st' n' k).
    + destruct (size_digit _ _) as [d|]; [case_if E2; [done|apply IH]|].
      destruct (chunk_step _ _ _ _) as [c|c lab|]; [apply IH|by destruct lab|done].
Qed.

(** A body that arrives in several buffers, until the filter says that it has
    ended. *)
Fixpoint read_pieces (close : bool) (c : ngx_http_proxy_ctx_t) (p : pipe) (pieces : list (list Z))
    : outcome (ngx_http_proxy_ctx_t * pipe * Z) :=
  match pieces with
  | [] => Ret (c, p, NGX_OK)
  | b :: pieces =>
    let! (c, p, rc) := ngx_http_proxy_chunked_filter close c p (MkBuf b 0) in
    if (rc =? NGX_ERROR) || upstream_done p then Ret (c, p, rc) else read_pieces close c p pieces
  end.

(** The pieces do not matter. *)
Lemma read_pieces_decode close c p pieces :
  ctx_ok (norm (state c) (size c)) (size c) -> upstream_done p = false ->
  snd (decode (state c) (size c) (concat pieces)) <> TooBig ->
  exists c' p' rc, read_pieces close c p pieces = Ret (c', p', rc) /\
    concat (p_in p') = concat (p_in p) ++ fst (decode (state c) (size c) (concat pieces)) /\
    match snd (decode (state c) (size c) (concat pieces)) with
    | Running st n => rc = NGX_OK /\ norm (state c') (size c') = st /\ size c' = n /\ upstream_done p' = false
    | Finished _ => rc = NGX_OK /\ upstream_done p' = true /\ keepalive p' = negb close
    | Bad => rc = NGX_ERROR
    | TooBig => False
    end.
Proof.
  revert c p. induction pieces as [|b pieces IH]; intros c p Hok Hdone Hbig.
  { exists c, p, NGX_OK. cbn [concat decode fst snd]. rewrite app_nil_r. by split_and!. }
  cbn [read_pieces concat] in *. unfold ngx_http_proxy_chunked_filter. cbn [pos bytes].
  destruct b as [|ch b].
  { rewrite (proj2 (Z.eqb_eq 0 (Z.of_nat (length [])))) by done. cbn [outcome_bind app] in *.
    change (NGX_OK =? NGX_ERROR) with false. rewrite Hdone. by apply IH. }
  rewrite (proj2 (Z.eqb_neq 0 _)) by (cbn; lia). set (b' := ch :: b) in *. rewrite decode_app in Hbig |- *.
  destruct (filter_loop_decode close (S (length b')) c b' 0 p false Hok) as (c1 & p1 & rc & -> & Ho & Hv); [lia|lia| |].
  { rewrite drop_0. destruct (decode _ _ b') as [o [| | |]]; done. }
  rewrite drop_0 in Ho, Hv. cbn [outcome_bind]. destruct (decode (state c) (size c) b') as [o v]. cbn [fst snd] in Ho, Hv.
  destruct v as [st n|r| |]; cbn [filtered] in Hv; [| | |done].
  - destruct Hv as (-> & Hst & Hn & Hok1 & _ & Hdone1 & _). rewrite Hdone1, Hdone. cbn [NGX_OK NGX_ERROR Z.eqb orb].
    rewrite <- Hst, <- Hn in *. destruct (decode (state c1) (size c1) (concat pieces)) as [o' v'] eqn:Ed. cbn [fst snd] in *.
    destruct (IH c1 p1) as (c2 & p2 & rc2 & -> & Ho2 & Hv2); [|congruence|by rewrite Ed|].
    { unfold norm. case_bool_decide as Hs; [|done]. cbn [andb]. destruct Hok1 as [? Hpos]. rewrite Hs in Hpos.
      specialize (Hpos eq_refl). rewrite (proj2 (Z.eqb_neq _ _)) by lia. rewrite Hs. done. }
    rewrite Ed in Ho2, Hv2. cbn [fst snd] in *. exists c2, p2, rc2. split_and!; [done| |done].
    by rewrite Ho2, Ho, <- app_assoc.
  - destruct Hv as (-> & Hd & Hk). rewrite Hd, orb_true_r. by exists c1, p1, NGX_OK.
  - subst rc. cbn [NGX_ERROR Z.eqb Pos.eqb orb]. by exists c1, p1, (-1).
Qed.

(** * The grammar *)

Inductive eol := Crlf | Lf.

Definition eol_text (e : eol) : list Z := match e with Crlf => [CR; LF] | Lf => [LF] end.

Definition plain (l : list Z) : Prop := Forall (fun c => c <> CR /\ c <> LF) l.

(** An extension is empty or begins with a semicolon or a blank. *)
Definition extension_ok (l : list Z) : Prop :=
  plain l /\ match l with [] => True | c :: _ => c = ";"%c \/ c = " "%c \/ c = 9 end.

Record chunk := MkChunk { digits : list Z; extension : list Z; size_eol : eol; chunk_data : list Z; data_eol : eol }.

Definition chunk_ok (k : chunk) : Prop :=
  is_hexadecimal (digits k) = true /\ hexadecimal_value (digits k) = Z.of_nat (length (chunk_data k)) /\
  0 < Z.of_nat (length (chunk_data k)) <= MAX_SIZE /\ extension_ok (extension k).

Definition chunk_text (k : chunk) : list Z :=
  digits k ++ extension k ++ eol_text (size_eol k) ++ chunk_data k ++ eol_text (data_eol k).

Record message := MkMessage {
  chunks : list chunk; last_digits : list Z; last_extension : list Z; last_eol : eol;
  trailers : list (list Z * eol); end_eol : eol }.

Definition message_ok (m : message) : Prop :=
  Forall chunk_ok (chunks m) /\ is_hexadecimal (last_digits m) = true /\ hexadecimal_value (last_digits m) = 0 /\
  extension_ok (last_extension m) /\ Forall (fun t => plain (fst t) /\ fst t <> []) (trailers m).

Definition render (m : message) : list Z :=
  concat (map chunk_text (chunks m)) ++ last_digits m ++ last_extension m ++ eol_text (last_eol m)
  ++ concat (map (fun t => fst t ++ eol_text (snd t)) (trailers m)) ++ eol_text (end_eol m).

Definition content (m : message) : list Z := concat (map chunk_data (chunks m)).

Lemma chunk_digit_hex c : is_hex c = true -> chunk_digit c = Some (hex_digit c).
Proof.
  unfold is_hex, chunk_digit, hex_digit, is_digit. intros H. case_if E; [done|]. cbn [orb] in H. by rewrite H.
Qed.

Lemma not_hex_digit c : is_hex c = false -> chunk_digit c = None.
Proof.
  unfold is_hex, chunk_digit, is_digit. intros H. case_if E; [done|]. cbn [orb] in H. by rewrite H.
Qed.

(** A byte outside the data and the digits of a size. *)
Lemma decode_go st n ch l :
  st <> sw_chunk_data -> size_digit st ch = None ->
  decode st n (ch :: l) =
  match chunk_step [] (MkProxyCtx st n 0) 0 ch with
  | Go c => decode (state c) (size c) l
  | Goto _ at_done => ([], Finished l)
  | _ => ([], Bad)
  end.
Proof.
  intros Hst Hd. cbn [decode]. rewrite (bool_decide_eq_false_2 _ Hst). cbn [andb].
  assert (norm st n = st) as -> by (unfold norm; by rewrite (bool_decide_eq_false_2 _ Hst)). by rewrite Hd.
Qed.

Lemma place_value_nonneg ds : forallb is_hex ds = true -> 0 <= hexadecimal_value ds.
Proof.
  unfold hexadecimal_value. induction ds as [|d ds IH]; cbn [place_value forallb]; [lia|]. intros [Hd Hds]%andb_true_iff.
  pose proof (chunk_digit_range d _ (chunk_digit_hex d Hd)). pose proof (Z.pow_nonneg 16 (Z.of_nat (length ds))).
  specialize (IH Hds). nia.
Qed.

Lemma decode_digits n ds l :
  forallb is_hex ds = true -> 0 <= n ->
  n * 16 ^ Z.of_nat (length ds) + hexadecimal_value ds <= MAX_SIZE ->
  decode sw_chunk_size n (ds ++ l)
  = decode sw_chunk_size (n * 16 ^ Z.of_nat (length ds) + hexadecimal_value ds) l.
Proof.
  revert n. induction ds as [|d ds IH]; intros n Hds Hn Hmax.
  { cbn. f_equal. lia. }
  cbn [forallb] in Hds. apply andb_true_iff in Hds as [Hd Hds]. unfold hexadecimal_value in *.
  cbn [place_value length] in *. rewrite Nat2Z.inj_succ, Z.pow_succ_r in * by lia.
  pose proof (chunk_digit_hex d Hd) as Ed. pose proof (chunk_digit_range d _ Ed).
  pose proof (place_value_nonneg ds Hds) as Hv. unfold hexadecimal_value in Hv.
  pose proof (Z.pow_pos_nonneg 16 (Z.of_nat (length ds)) ltac:(lia) ltac:(lia)) as Hpow.
  cbn [app decode]. change (norm sw_chunk_size n) with sw_chunk_size.
  rewrite (bool_decide_eq_false_2 (sw_chunk_size = sw_chunk_data)) by done. cbn [andb].
  unfold size_digit. rewrite (bool_decide_eq_true_2 (sw_chunk_size = sw_chunk_size)) by done. rewrite Ed.
  case_if E; boolify; [exfalso; nia|]. rewrite IH; [f_equal; ring|done|lia|].
  replace ((n * 16 + hex_digit d) * 16 ^ Z.of_nat (length ds) + place_value 16 hex_digit ds)
    with (n * (16 * 16 ^ Z.of_nat (length ds)) + (hex_digit d * 16 ^ Z.of_nat (length ds) + place_value 16 hex_digit ds)) by ring.
  done.
Qed.

Lemma decode_size n ds l :
  is_hexadecimal ds = true -> hexadecimal_value ds <= MAX_SIZE ->
  decode sw_chunk_start n (ds ++ l) = decode sw_chunk_size (hexadecimal_value ds) l.
Proof.
  intros Hds Hmax. destruct ds as [|d ds]; [done|]. cbn [is_hexadecimal forallb] in Hds.
  apply andb_true_iff in Hds as [Hd Hds]. cbn [app]. rewrite decode_go by done.
  unfold chunk_step. cbn [state]. rewrite (chunk_digit_hex d Hd). cbn [state size set_size set_state].
  unfold hexadecimal_value in *. cbn [place_value] in *.
  pose proof (chunk_digit_range d _ (chunk_digit_hex d Hd)). by rewrite decode_digits by (done || lia).
Qed.

(** The rest of a line. *)
Lemma decode_line st n l e k next almost :
  st <> sw_chunk_data -> st <> sw_chunk_size -> almost <> sw_chunk_data -> almost <> sw_chunk_size ->
  (forall ch, ch <> CR -> ch <> LF -> chunk_step [] (MkProxyCtx st n 0) 0 ch = Go (MkProxyCtx st n 0)) ->
  chunk_step [] (MkProxyCtx st n 0) 0 CR = Go (MkProxyCtx almost n 0) ->
  chunk_step [] (MkProxyCtx st n 0) 0 LF = Go (MkProxyCtx next n 0) ->
  chunk_step [] (MkProxyCtx almost n 0) 0 LF = Go (MkProxyCtx next n 0) ->
  plain l -> decode st n (l ++ eol_text e ++ k) = decode next n k.
Proof.
  intros H1 H2 H3 H4 Hstay Hcr Hlf Half Hl.
  assert (forall st, st <> sw_chunk_size -> forall ch, size_digit st ch = None) as Hsd.
  { intros st' Hst' ch. unfold size_digit. by rewrite (bool_decide_eq_false_2 _ Hst'). }
  induction Hl as [|ch l [Hc1 Hc2] Hl IH]; cbn [app].
  - destruct e; cbn [eol_text app]; rewrite decode_go by auto.
    + rewrite Hcr. cbn [state size]. rewrite decode_go by auto. by rewrite Half.
    + by rewrite Hlf.
  - rewrite decode_go by auto. by rewrite Hstay.
Qed.

(** The goals that [decode_line] leaves for a state of the parser. *)
Ltac line_steps :=
  try done; intros; unfold chunk_step, on_eol; cbn [state set_state size];
  rewrite ?(proj2 (Z.eqb_neq _ _)) by done; done.

Lemma decode_extension n x e k :
  extension_ok x -> decode sw_chunk_size n (x ++ eol_text e ++ k)
    = decode (if n =? 0 then sw_trailer else sw_chunk_data) n k.
Proof.
  intros [Hp Hx]. destruct x as [|c x].
  - cbn [app].
    assert (decode sw_chunk_size n (LF :: k) = decode (if n =? 0 then sw_trailer else sw_chunk_data) n k) as Hlf.
    { rewrite decode_go by done. unfold chunk_step. cbn [state size]. change (chunk_digit LF) with (@None Z).
      by destruct (n =? 0). }
    destruct e; cbn [eol_text app]; [|done]. rewrite decode_go by done. unfold chunk_step at 1. cbn [state size].
    change (chunk_digit CR) with (@None Z). destruct (n =? 0); unfold on_eol; rewrite Z.eqb_refl;
      cbn [state size set_state]; by rewrite decode_go by done.
  - apply Forall_cons in Hp as [_ Hp]. cbn [app].
    assert (chunk_digit c = None) as Hd by (destruct Hx as [->|[->| ->]]; done).
    rewrite decode_go; [|done|unfold size_digit; by rewrite Hd]. unfold chunk_step at 1. cbn [state size]. rewrite Hd.
    assert (forall A (a b d : A), on_eol c a b d = d) as Ho by (intros; destruct Hx as [->|[->| ->]]; done).
    assert ((c =? ";"%c) || (c =? " "%c) || (c =? 9) = true) as Hc by (destruct Hx as [->|[->| ->]]; done).
    rewrite !Ho, Hc. destruct (n =? 0); cbn [state size set_state].
    + apply (decode_line _ _ _ _ _ sw_trailer sw_last_chunk_extension_almost_done); line_steps.
    + apply (decode_line _ _ _ _ _ sw_chunk_data sw_chunk_extension_almost_done); line_steps.
Qed.

Lemma decode_chunk n k rest :
  chunk_ok k ->
  decode sw_chunk_start n (chunk_text k ++ rest)
  = (let '(o, v) := decode sw_chunk_start 0 rest in (chunk_data k ++ o, v)).
Proof.
  intros (Hd & Hv & Hl & Hx). unfold chunk_text. rewrite <- !app_assoc. rewrite decode_size by (done || lia).
  rewrite Hv, decode_extension by done. rewrite (proj2 (Z.eqb_neq _ _)) by lia.
  rewrite (decode_take (length (chunk_data k))) by (rewrite ?length_app; lia).
  rewrite drop_app_length, take_app_length, Z.sub_diag. rewrite <- decode_norm.
  change (norm sw_chunk_data 0) with sw_after_data.
  pose proof (decode_line sw_after_data 0 [] (data_eol k) rest sw_chunk_start sw_after_data_almost_done) as H.
  cbn [app] in H. rewrite H by (line_steps || constructor). done.
Qed.

Lemma decode_trailers n ts e rest :
  Forall (fun t => plain (fst t) /\ fst t <> []) ts ->
  decode sw_trailer n (concat (map (fun t => fst t ++ eol_text (snd t)) ts) ++ eol_text e ++ rest) = ([], Finished rest).
Proof.
  induction 1 as [|[l e'] ts [Hl Hne] Hts IH]; cbn [map concat app fst snd] in *.
  - destruct e; cbn [eol_text app]; rewrite decode_go by done; [|done].
    change (decode sw_trailer_almost_done n (LF :: rest) = ([], Finished rest)). by rewrite decode_go by done.
  - destruct l as [|c l]; [done|]. apply Forall_cons in Hl as [[Hc1 Hc2] Hl]. cbn [app]. rewrite <- !app_assoc.
    rewrite decode_go by done. unfold chunk_step at 1, on_eol. cbn [state].
    rewrite !(proj2 (Z.eqb_neq _ _)) by done. cbn [state size set_state].
    rewrite (decode_line _ _ _ _ _ sw_trailer sw_trailer_header_almost_done) by line_steps. done.
Qed.

(** A message is decoded to its content. *)
Lemma decode_message n m rest :
  message_ok m -> decode sw_chunk_start n (render m ++ rest) = (content m, Finished rest).
Proof.
  intros (Hk & Hd & Hv & Hx & Ht). unfold render, content. rewrite <- !app_assoc.
  revert n. induction Hk as [|k ks Hk Hks IH]; intros n; cbn [map concat app].
  - rewrite decode_size by (done || (rewrite Hv; unfold MAX_SIZE; lia)). rewrite Hv, decode_extension by done.
    cbn [Z.eqb]. by rewrite decode_trailers.
  - rewrite <- app_assoc, decode_chunk by done. by rewrite IH.
Qed.

(** * Reading a body *)

Definition start_ctx : ngx_http_proxy_ctx_t := MkProxyCtx sw_chunk_start 0 0.

Definition start_pipe : pipe := MkPipe [] 3 false 0 false.

(** C26: a well-formed chunked body, with any extensions, trailers and line ends,
    is read to its content, however it is cut into buffers and whatever follows
    it, and its end is noticed. *)
Theorem chunked_body_read close m rest pieces :
  message_ok m -> concat pieces = render m ++ rest ->
  exists c p, read_pieces close start_ctx start_pipe pieces = Ret (c, p, NGX_OK) /\
    concat (p_in p) = content m /\ upstream_done p = true /\ keepalive p = negb close.
Proof.
  intros Hm Hp. pose proof (decode_message 0 m rest Hm) as Hd.
  destruct (read_pieces_decode close start_ctx start_pipe pieces) as (c & p & rc & Hr & Ho & Hv); [done|done| |].
  { cbn [state size start_ctx]. by rewrite Hp, Hd. }
  cbn [state size start_ctx] in Ho, Hv. rewrite Hp, Hd in Ho, Hv. cbn [fst snd] in Ho, Hv.
  destruct Hv as (-> & ? & ?). exists c, p. by split_and!.
Qed.

(** * Writing a body *)

(** What "%xO" prints. *)
Definition size_text (n : Z) : list Z :=
  put_int None "O"%c (MkFlags " "%c 0 false 1 false 0 no_slen) n.

Lemma size_text_printed n : ngx_sprintf ($"%xO" ++ [CR; LF]) [Num n] = Ret (size_text n ++ [CR; LF]).
Proof. reflexivity. Qed.

(** The digits, and that they fit the sixteen bytes of the buffer. *)
Lemma size_text_hex n :
  0 <= n < 2 ^ 63 ->
  is_hexadecimal (size_text n) = true /\ hexadecimal_value (size_text n) = n /\ (length (size_text n) <= 16)%nat.
Proof.
  intros Hn. unfold size_text, put_int. cbn [Z.eqb Pos.eqb andb max_width width hexa zero sign int_value].
  rewrite wrapS_small by lia. destruct (Z.ltb_spec n 0); [lia|]. rewrite put_num_text, wrapU_small by lia.
  cbn [clip]. unfold num_text. cbn [Z.eqb Pos.eqb].
  destruct (hex_digits_spec 16 64 hex n []) as (ds & Hds & Hd & Hv & Hl); [by left|cbn; lia|lia|].
  rewrite app_nil_r in Hds. rewrite Hds. change (Z.to_nat 0) with O. cbn [Nat.sub replicate app]. done.
Qed.

Definition wire (l : list obuf) : list Z := concat (map data l).

Definition linked (b : obuf) : bool := flush b || sync b || in_memory b || in_file b.

(** A buffer with bytes has them in memory or in a file. *)
Definition obuf_ok (b : obuf) : Prop := linked b = false -> data b = [].

Lemma wire_app l k : wire (l ++ k) = wire l ++ wire k.
Proof. unfold wire. by rewrite map_app, concat_app. Qed.

Lemma sum_chain_spec s out cl :
  Forall obuf_ok cl -> 0 <= s -> s + Z.of_nat (length (wire cl)) < 2 ^ 63 ->
  exists out', sum_chain s out cl = (s + Z.of_nat (length (wire cl)), out') /\ wire out' = wire out ++ wire cl.
Proof.
  intros Hcl. revert s out. induction Hcl as [|b cl Hb Hcl IH]; intros s out Hs Hlt.
  { exists out. cbn. rewrite app_nil_r. split; [f_equal; lia|done]. }
  cbn [sum_chain]. unfold wire in Hlt |- *. cbn [map concat] in Hlt |- *. rewrite length_app in Hlt |- *.
  fold (wire cl) in *. unfold buf_size. rewrite wrapS_small by lia.
  destruct (IH (s + Z.of_nat (length (data b))) (if linked b then out ++ [b] else out)) as (out' & Ho & Hw); [lia|lia|].
  exists out'. unfold linked in Ho. rewrite Ho. split; [f_equal; lia|]. fold (wire out'). rewrite Hw.
  unfold obuf_ok in Hb. fold (wire out). destruct (linked b).
  - rewrite wire_app. cbn. by rewrite app_nil_r, <- app_assoc.
  - by rewrite Hb.
Qed.

Lemma wire_clear_last n out : wire (clear_last_of n out) = wire out.
Proof.
  unfold clear_last_of. destruct n; [|done]. destruct (List.rev out) as [|b l] eqn:E.
  - apply (f_equal (@List.rev _)) in E. rewrite rev_involutive in E. by subst.
  - apply (f_equal (@List.rev _)) in E. rewrite rev_involutive in E. subst. cbn [List.rev]. by rewrite !wire_app.
Qed.

(** The chunk of one call, and the message of all. *)
Definition call_chunk (body : list Z) : chunk := MkChunk (size_text (Z.of_nat (length body))) [] Crlf body Crlf.

Definition call_chunks (body : list Z) : list chunk := match body with [] => [] | _ => [call_chunk body] end.

Definition calls_message (bodies : list (list Z)) : message :=
  MkMessage (flat_map call_chunks bodies) $"0" [] Crlf [] Crlf.

Lemma chunked_chain_wire inp b :
  last inp = Some b -> Forall obuf_ok inp -> Z.of_nat (length (wire inp)) < 2 ^ 63 ->
  exists out, chunked_chain inp = Ret out /\
    wire out = concat (map chunk_text (call_chunks (wire inp)))
               ++ (if last_buf b then $"0" ++ [CR; LF; CR; LF] else []).
Proof.
  intros Hb Hok Hlt. unfold chunked_chain. rewrite Hb.
  destruct (sum_chain_spec 0 [] inp Hok ltac:(lia) Hlt) as (out & -> & Hw). rewrite Z.add_0_l. cbn [wire map concat app] in Hw.
  fold (linked b).
  destruct (wire inp) as [|c l] eqn:Ei.
  - cbn [length Z.of_nat Z.eqb outcome_bind call_chunks map concat app]. destruct (last_buf b).
    + eexists. split; [reflexivity|]. rewrite !wire_app, wire_clear_last, Hw. reflexivity.
    + change (0 >? 0) with false. by exists out.
  - rewrite <- Ei in *. assert (0 < Z.of_nat (length (wire inp))) by (rewrite Ei; cbn; lia).
    rewrite (proj2 (Z.eqb_neq _ _)) by lia. rewrite size_text_printed. cbn [outcome_bind].
    assert (call_chunks (wire inp) = [call_chunk (wire inp)]) as -> by by rewrite Ei.
    cbn [map concat]. unfold chunk_text, call_chunk. cbn [digits extension size_eol chunk_data data_eol eol_text].
    rewrite app_nil_r. destruct (last_buf b).
    + eexists. split; [reflexivity|]. rewrite !wire_app, wire_clear_last, Hw. cbn [wire map concat data memory_buf drop app].
      rewrite !app_nil_r, <- !app_assoc. cbn [app]. rewrite <- !app_assoc. reflexivity.
    + rewrite (proj2 (Z.gtb_lt _ _)) by lia. eexists. split; [reflexivity|]. rewrite !wire_app, Hw.
      cbn [wire map concat data memory_buf app]. rewrite !app_nil_r, <- !app_assoc. reflexivity.
Qed.

(** The calls of the filter for one response: the last buffer of the last call
    ends it. *)
Inductive calls : list (list obuf) -> Prop :=
| calls_last inp b : last inp = Some b -> last_buf b = true -> calls [inp]
| calls_more inp b l : last inp = Some b -> last_buf b = false -> calls l -> calls (inp :: l).

Fixpoint write_calls (l : list (list obuf)) : outcome (list obuf) :=
  match l with
  | [] => Ret []
  | inp :: l =>
    let! out := ngx_http_chunked_body_filter true false inp in
    let! more := write_calls l in Ret (out ++ more)
  end.

Lemma write_calls_wire l :
  calls l -> Forall (fun inp => Forall obuf_ok inp /\ Z.of_nat (length (wire inp)) < 2 ^ 63) l ->
  exists out, write_calls l = Ret out /\ wire out = render (calls_message (map wire l)).
Proof.
  unfold render. cbn [chunks calls_message last_digits last_extension last_eol trailers end_eol eol_text map concat app].
  induction 1 as [inp b Hb Hlast|inp b l Hb Hlast Hl IH]; intros Hok; apply Forall_cons in Hok as [[Ho Hs] Hok];
    cbn [write_calls]; unfold ngx_http_chunked_body_filter;
    (rewrite bool_decide_eq_false_2 by (intros ->; done)); cbn [negb orb];
    destruct (chunked_chain_wire inp b Hb Ho Hs) as (out & -> & Hw); rewrite Hlast in Hw; cbn [outcome_bind map flat_map].
  - exists (out ++ []). split; [done|]. rewrite app_nil_r, Hw, app_nil_r. done.
  - destruct (IH Hok) as (more & -> & Hm). cbn [outcome_bind]. exists (out ++ more). split; [done|].
    rewrite wire_app, Hw, Hm, map_app, concat_app, app_nil_r, <- !app_assoc. done.
Qed.

Lemma calls_message_ok bodies :
  Forall (fun b => Z.of_nat (length b) <= MAX_SIZE) bodies -> message_ok (calls_message bodies).
Proof.
  intros Hb. unfold message_ok. cbn [chunks calls_message last_digits last_extension trailers].
  split_and!; [|done|done|by split; [constructor|]|constructor].
  induction Hb as [|b bodies Hb _ IH]; [constructor|]. cbn [flat_map]. apply Forall_app. split; [|done].
  destruct b as [|c b]; [constructor|]. constructor; [|constructor].
  destruct (size_text_hex (Z.of_nat (length (c :: b)))) as (? & ? & _); [unfold MAX_SIZE in Hb; lia|].
  unfold chunk_ok, call_chunk. cbn [digits extension chunk_data]. split_and!; [done|done|cbn; lia|done|by split; [constructor|]].
Qed.

Lemma calls_message_content bodies : content (calls_message bodies) = concat bodies.
Proof.
  unfold content. cbn [chunks calls_message]. induction bodies as [|b bodies IH]; [done|].
  cbn [flat_map concat]. rewrite map_app, concat_app, IH. f_equal. destruct b; [done|]. cbn. by rewrite app_nil_r.
Qed.

(** C25: what the chunked filter writes for a response, over any number of calls,
    the proxy's filter reads back to the bytes of the buffers, however the text
    is cut on the way. *)
Theorem chunked_roundtrip close l pieces :
  calls l -> Forall (fun inp => Forall obuf_ok inp /\ Z.of_nat (length (wire inp)) <= MAX_SIZE) l ->
  exists out, write_calls l = Ret out /\
    (concat pieces = wire out ->
     exists c p, read_pieces close start_ctx start_pipe pieces = Ret (c, p, NGX_OK) /\
       concat (p_in p) = concat (map wire l) /\ upstream_done p = true).
Proof.
  intros Hl Hok. destruct (write_calls_wire l Hl) as (out & Ho & Hw).
  { eapply Forall_impl; [exact Hok|]. intros inp [? ?]. split; [done|]. unfold MAX_SIZE in *. lia. }
  exists out. split; [done|]. intros Hp. pose proof (calls_message_ok (map wire l)) as Hm.
  pose proof (decode_message 0 (calls_message (map wire l)) [] ltac:(apply Hm, Forall_map; eapply Forall_impl; [exact Hok|]; by intros ? [_ ?])) as Hd.
  rewrite app_nil_r, <- Hw, <- Hp, calls_message_content in Hd.
  destruct (read_pieces_decode close start_ctx start_pipe pieces) as (c & p & rc & Hr & Hc & Hv); [done|done|cbn [state size start_ctx]; by rewrite Hd|].
  cbn [state size start_ctx] in Hc, Hv. rewrite Hd in Hc, Hv. destruct Hv as (-> & ? & _). exists c, p. by split_and!.
Qed.

(** * Without buffering *)

Definition text_of (m : list Z) (x : Z * Z) : list Z := take (Z.to_nat (x.2 - x.1)) (drop (Z.to_nat x.1) m).

Definition texts (m : list Z) (l : list (Z * Z)) : list Z := concat (map (text_of m) l).

Lemma texts_app m l k : texts m (l ++ k) = texts m l ++ texts m k.
Proof. unfold texts. by rewrite map_app, concat_app. Qed.

Lemma text_of_take m n x : 0 <= x.1 -> x.2 <= Z.of_nat n -> text_of (take n m) x = text_of m x.
Proof.
  intros H1 H2. unfold text_of. destruct (decide (x.1 <= x.2)).
  - rewrite skipn_firstn_comm, take_take. f_equal. lia.
  - replace (Z.to_nat (x.2 - x.1)) with O by lia. done.
Qed.

(** The buffers are in order, from [last] on. *)
Fixpoint ordered (last : Z) (l : list (Z * Z)) (top : Z) : Prop :=
  match l with
  | [] => last <= top
  | (p, q) :: l => last <= p /\ p <= q /\ ordered q l top
  end.

Lemma ordered_top last l top : ordered last l top -> last <= top.
Proof. revert last. induction l as [|[p q] l IH]; intros last; cbn; [done|]. intros (? & ? & H%IH). lia. Qed.

Lemma ordered_mono last l top top' : ordered last l top -> top <= top' -> ordered last l top'.
Proof. revert last. induction l as [|[p q] l IH]; intros last; cbn; [lia|]. intros (? & ? & ?) ?. auto. Qed.

Lemma ordered_snoc last l top p q : ordered last l top -> top <= p -> p <= q -> ordered last (l ++ [(p, q)]) q.
Proof.
  revert last. induction l as [|[a b] l IH]; intros last; cbn [ordered app]; [intros; split_and!; lia|].
  intros (? & ? & ?) ? ?. auto.
Qed.

Lemma non_buffered_decode close fuel c u :
  ctx_ok (norm (state c) (size c)) (size c) -> 0 <= u_pos u <= u_last u -> u_last u <= Z.of_nat (length (memory u)) ->
  u_last u - u_pos u < Z.of_nat fuel ->
  let rest := drop (Z.to_nat (u_pos u)) (take (Z.to_nat (u_last u)) (memory u)) in
  snd (decode (state c) (size c) rest) <> TooBig ->
  exists c' u' rc, non_buffered_loop close fuel c u = Ret (c', u', rc) /\ memory u' = memory u /\
    (forall b, ordered b (out_bufs u) (u_pos u) -> ordered b (out_bufs u') (u_last u)) /\
    texts (memory u) (out_bufs u') = texts (memory u) (out_bufs u) ++ fst (decode (state c) (size c) rest) /\
    match snd (decode (state c) (size c) rest) with
    | Running st n => rc = NGX_OK /\ state c' = st /\ size c' = n /\ ctx_ok st n /\ u_length u' = u_length u
    | Finished _ => rc = NGX_OK /\ u_length u' = 0 /\ u_keepalive u' = negb close
    | Bad => rc = NGX_ERROR
    | TooBig => False
    end.
Proof.
  revert c u. induction fuel as [|fuel IH]; intros c u Hok Hp Hm Hf rest Hbig; [lia|].
  set (data := take (Z.to_nat (u_last u)) (memory u)) in *.
  assert (Z.of_nat (length data) = u_last u) as Hl by (unfold data; rewrite length_take; lia).
  cbn [non_buffered_loop]. unfold u_buf. fold data.
  destruct (parse_decode c data (u_pos u) Hok ltac:(lia) Hbig) as (c1 & q1 & rc & -> & Hcase). fold rest in Hcase.
  destruct Hcase as [(-> & -> & Hok1 & -> & _)|[(-> & Hq1 & Hst & Hok1 & Hd)|[(-> & more & ->)|(-> & ->)]]];
    cbn [Z.eqb Pos.eqb NGX_OK NGX_DONE NGX_AGAIN NGX_ERROR].
  - eexists _, _, _. split; [reflexivity|]. cbn [fst snd]. rewrite app_nil_r.
    split_and!; try done. intros b Hb. apply (ordered_mono _ _ _ _ Hb). lia.
  - destruct (take_chunk_decode c1 data q1 Hst Hok1 ltac:(lia)) as (q2 & c2 & Ht & Hq2 & Hok2 & Hsl & Hd2).
    cbn [memory set_u_pos u_last u_pos]. fold data. rewrite Ht, Hd, Hd2 in *.
    set (u2 := set_u_pos q2 (set_out_bufs (out_bufs u ++ [(q1, q2)]) (set_u_pos q1 u))).
    destruct (decode (state c2) (size c2) (drop (Z.to_nat q2) data)) as [o v] eqn:Ed. cbn [fst snd] in *.
    destruct (IH c2 u2 Hok2) as (c3 & u3 & rc & Hr & Hmem & Hord & Ho & Hv); cbn [u_pos u_last memory u2 set_u_pos set_out_bufs];
      fold data; [lia|done|lia|by rewrite Ed|].
    cbn [u_pos u_last memory u2 set_u_pos set_out_bufs out_bufs u_length] in Hmem, Hord, Ho, Hv. fold data in Ho, Hv.
    rewrite Ed in Ho, Hv. cbn [fst snd] in Ho, Hv. exists c3, u3, rc. split_and!; [done|done| | |by destruct v].
    { intros b Hb. apply Hord. apply (ordered_snoc _ _ (u_pos u)); [done|lia|lia]. }
    rewrite Ho, texts_app, <- app_assoc. f_equal. f_equal. unfold texts. cbn [map concat].
    rewrite app_nil_r, <- (text_of_take _ (Z.to_nat (u_last u))) by (cbn [fst snd]; lia). done.
  - eexists _, _, _. split; [reflexivity|]. cbn [fst snd]. rewrite app_nil_r.
    split_and!; try done. intros b Hb. apply (ordered_mono _ _ _ _ Hb). lia.
  - eexists _, _, _. split; [reflexivity|]. cbn [fst snd]. rewrite app_nil_r.
    split_and!; try done. intros b Hb. apply (ordered_mono _ _ _ _ Hb). lia.
Qed.

Lemma movemem_spec m d s n :
  0 <= d <= s -> s + Z.of_nat n <= Z.of_nat (length m) ->
  length (movemem m d s n) = length m /\
  take (Z.to_nat d) (movemem m d s n) = take (Z.to_nat d) m /\
  take n (drop (Z.to_nat d) (movemem m d s n)) = take n (drop (Z.to_nat s) m) /\
  drop (Z.to_nat s + n) (movemem m d s n) = drop (Z.to_nat s + n) m.
Proof.
  intros Hd Hs. unfold movemem.
  assert (length (take (Z.to_nat d) m) = Z.to_nat d) as L1 by (rewrite length_take; lia).
  assert (length (take n (drop (Z.to_nat s) m)) = n) as L2 by (rewrite length_take, length_drop; lia).
  split_and!.
  - rewrite !length_app, length_drop, L1, L2. lia.
  - by rewrite take_app_length' by done.
  - rewrite drop_app_length' by done. by rewrite take_app_length' by done.
  - rewrite app_assoc, drop_app_ge by (rewrite length_app, L1, L2; lia). rewrite length_app, L1, L2, drop_drop. f_equal. lia.
Qed.

Lemma texts_above m m' q l top :
  0 <= q -> ordered q l top -> drop (Z.to_nat q) m = drop (Z.to_nat q) m' -> texts m l = texts m' l.
Proof.
  intros Hq Ho Hd. revert q Hq Ho Hd. induction l as [|[a b] l IH]; intros q Hq Ho Hd; [done|].
  cbn [ordered] in Ho. destruct Ho as (H1 & H2 & Ho).
  assert (forall k, q <= k -> drop (Z.to_nat k) m = drop (Z.to_nat k) m') as Hk.
  { intros k Hk. replace (Z.to_nat k) with (Z.to_nat q + (Z.to_nat k - Z.to_nat q))%nat by lia.
    by rewrite <- !drop_drop, Hd. }
  unfold texts in *. cbn [map concat]. f_equal; [|apply (IH b); [lia|done|apply Hk; lia]].
  unfold text_of. cbn [fst snd]. by rewrite Hk.
Qed.

(** The buffers are moved together without a change of their bytes. *)
Lemma compact_spec m last l top :
  0 <= last -> ordered last l top -> top <= Z.of_nat (length m) ->
  let '(m', last', l') := compact m last l in
  length m' = length m /\ take (Z.to_nat last) m' = take (Z.to_nat last) m /\ last <= last' <= top /\
  texts m' l' = texts m l /\ take (Z.to_nat (last' - last)) (drop (Z.to_nat last) m') = texts m l.
Proof.
  revert m last. induction l as [|[p q] l IH]; intros m last H0 Ho Ht; cbn [compact ordered] in *.
  { replace (Z.to_nat (last - last)) with O by lia. split_and!; done || lia. }
  destruct Ho as (Hp & Hq & Ho). pose proof (ordered_top _ _ _ Ho) as Htop.
  set (n := Z.to_nat (q - p)).
  assert (exists m1, (if last =? p then (m, q) else (movemem m last p n, last + (q - p))) = (m1, last + (q - p)) /\
    length m1 = length m /\ take (Z.to_nat last) m1 = take (Z.to_nat last) m /\
    take n (drop (Z.to_nat last) m1) = text_of m (p, q) /\ drop (Z.to_nat q) m1 = drop (Z.to_nat q) m)
    as (m1 & -> & Hl1 & Ht1 & Hx1 & Hd1).
  { case_if E; boolify.
    - subst p. exists m. replace (last + (q - last)) with q by lia. by split_and!.
    - destruct (movemem_spec m last p n ltac:(lia) ltac:(unfold n; lia)) as (M1 & M2 & M3 & M4).
      exists (movemem m last p n). split_and!; try done.
      replace (Z.to_nat p + n)%nat with (Z.to_nat q) in M4 by (unfold n; lia). done. }
  set (last1 := last + (q - p)). assert (ordered last1 l top) as Ho1.
  { unfold last1. destruct l as [|[a b] l]; cbn [ordered] in Ho |- *; [lia|]. destruct Ho as (? & ? & ?). split_and!; [lia|done|done]. }
  specialize (IH m1 last1 ltac:(lia) Ho1 ltac:(lia)). destruct (compact m1 last1 l) as [[m' last'] l'].
  destruct IH as (I1 & I2 & I3 & I4 & I5).
  assert (texts m1 l = texts m l) as Htl by (apply (texts_above _ _ q _ top); [lia|done|done]).
  assert (forall k : nat, (k <= Z.to_nat last1)%nat -> take k m' = take k m1) as Htk.
  { intros k Hk. pose proof (f_equal (take k) I2) as H. rewrite !take_take in H. replace (Nat.min k (Z.to_nat last1)) with k in H by lia. done. }
  assert (take n (drop (Z.to_nat last) m') = text_of m (p, q)) as Hx.
  { rewrite <- Hx1, !take_drop_commute. by rewrite Htk by (unfold n, last1; lia). }
  assert (texts m l = texts m1 l) as Htl' by done.
  split_and!; [lia|rewrite Htk by (unfold last1; lia); done|unfold last1 in *; lia|lia| |].
  - unfold texts in *. cbn [map concat]. f_equal; [|congruence]. rewrite <- Hx. unfold text_of. cbn [fst snd].
    unfold n, last1. f_equal; [lia|]. f_equal. lia.
  - unfold texts in *. cbn [map concat]. rewrite Htl', <- I5, <- Hx.
    replace (Z.to_nat (last' - last)) with (n + Z.to_nat (last' - last1))%nat by (unfold n, last1 in *; lia).
    rewrite <- take_take_drop, drop_drop. do 3 f_equal. unfold n, last1. lia.
Qed.

(** A body read into memory for a subrequest: after every call the buffer has the
    bytes of the buffers that were there and of the chunks, without a gap. *)
Theorem unbuffered_in_memory close c u n :
  ctx_ok (norm (state c) (size c)) (size c) -> 0 <= u_last u -> 0 <= n -> u_last u + n <= Z.of_nat (length (memory u)) ->
  (exists b, 0 <= b /\ ordered b (out_bufs u) (u_last u)) ->
  let came := drop (Z.to_nat (u_last u)) (take (Z.to_nat (u_last u + n)) (memory u)) in
  snd (decode (state c) (size c) came) <> TooBig -> snd (decode (state c) (size c) came) <> Bad ->
  exists c' u', ngx_http_proxy_non_buffered_chunked_filter close true c u n = Ret (c', u', NGX_OK) /\
    take (Z.to_nat (u_last u' - u_pos u')) (drop (Z.to_nat (u_pos u')) (memory u'))
    = texts (memory u) (out_bufs u) ++ fst (decode (state c) (size c) came).
Proof.
  intros Hok Hl Hn Hm (b & Hb & Hord) came Hbig Hbad. unfold ngx_http_proxy_non_buffered_chunked_filter.
  set (u1 := set_u_last (u_last u + n) (set_u_pos (u_last u) u)).
  destruct (non_buffered_decode close (S (Z.to_nat n)) c u1 Hok) as (c' & u' & rc & -> & Hmem & Ho & Ht & Hv);
    cbn [u_pos u_last memory u1 set_u_pos set_u_last]; [lia|done|lia|done|].
  cbn [u_pos u_last memory u1 set_u_pos set_u_last out_bufs u_length] in Hmem, Ho, Ht, Hv. fold came in Ht, Hv.
  cbn [outcome_bind]. assert (rc = NGX_OK) as -> by (destruct (snd (decode _ _ came)); naive_solver).
  change (NGX_OK =? NGX_ERROR) with false. specialize (Ho b Hord). rewrite Hmem.
  set (p := match out_bufs u' with (p, _) :: _ => p | [] => u_pos u' end).
  destruct (out_bufs u') as [|[p0 q0] l] eqn:El.
  - cbn [compact]. eexists _, _. split; [reflexivity|]. cbn [u_pos u_last memory set_memory set_u_pos set_u_last set_out_bufs].
    rewrite <- Ht. replace (Z.to_nat (p - p)) with O by lia. done.
  - assert (ordered p ((p0, q0) :: l) (u_last u + n)) as Hp by (cbn [ordered] in Ho |- *; destruct Ho as (? & ? & ?); split_and!; [lia|done|done]).
    pose proof (compact_spec (memory u) p ((p0, q0) :: l) (u_last u + n)) as Hc.
    destruct (compact (memory u) p _) as [[m' last'] l']. destruct Hc as (_ & _ & _ & _ & Hc); [|done|done|].
    { cbn [ordered] in Ho. subst p. lia. }
    eexists _, _. split; [reflexivity|]. cbn [u_pos u_last memory set_memory set_u_pos set_u_last set_out_bufs].
    by rewrite Hc, Ht.
Qed.

(** * Sizes that are too large *)

(** the overflow of a size is noticed only when what is left of it is
    negative at the end of a buffer or at the data: 2^64 + 1 is read as 1, and
    whether sixteen digits and a zero are refused depends on where the buffer
    ends. *)
Theorem chunk_size_wraps close :
  let text := $"10000000000000001" ++ [LF] ++ $"x" ++ [LF] ++ $"0" ++ [LF; LF] in
  (exists c p, read_pieces close start_ctx start_pipe [text] = Ret (c, p, NGX_OK) /\ concat (p_in p) = $"x"
               /\ upstream_done p = true) /\
  (exists c p, read_pieces close start_ctx start_pipe [$"80000000000000000" ++ [LF; LF]] = Ret (c, p, NGX_OK)
               /\ upstream_done p = true) /\
  (exists c p, read_pieces close start_ctx start_pipe [$"8000000000000000"; $"0" ++ [LF; LF]] = Ret (c, p, NGX_ERROR)).
Proof.
  split_and!; eexists _, _; [split_and!|split|]; vm_compute; reflexivity.
Qed.

(** Bytes between the data of a chunk and the end of its line are skipped. *)
Example junk_after_data_skipped :
  exists c p, read_pieces false start_ctx start_pipe
      [$"1" ++ [CR; LF] ++ $"a" ++ $"junk" ++ [CR; LF] ++ $"0" ++ [CR; LF; CR; LF]] = Ret (c, p, NGX_OK)
    /\ p_in p = [$"a"] /\ upstream_done p = true.
Proof. eexists _, _. split_and!; vm_compute; reflexivity. Qed.

(** * The theorems at concrete bodies *)

Definition two_chunks : message :=
  MkMessage [MkChunk $"0A" $"; name=x" Crlf $"0123456789" Crlf; MkChunk $"1" [] Lf $"z" Crlf]
    $"00" $" x" Crlf [($"Trailer: 1", Crlf)] Crlf.

Lemma chunked_body_read_witness :
  exists c p,
    read_pieces true start_ctx start_pipe [take 5 (render two_chunks); drop 5 (render two_chunks) ++ $"more"]
    = Ret (c, p, NGX_OK) /\
    concat (p_in p) = $"0123456789z" /\ upstream_done p = true /\ keepalive p = false.
Proof.
  apply (chunked_body_read true two_chunks $"more").
  - assert (Hplain : forall l, forallb (fun c => negb (c =? CR) && negb (c =? LF)) l = true -> plain l).
    { intros l Hl. apply Forall_forall. intros c Hc. rewrite forallb_forall in Hl. apply list_elem_of_In, Hl in Hc.
      boolify. done. }
    unfold message_ok, chunk_ok, extension_ok, MAX_SIZE. cbn [two_chunks chunks trailers digits extension chunk_data].
    split; [|split; [done|split; [done|split; [split; [by apply Hplain|by right; left]|]]]].
    + constructor; [|constructor; [|constructor]];
        (split; [done|split; [done|split; [done|split; [by apply Hplain|]]]]); cbn; auto.
    + constructor; [|constructor]. split; [by apply Hplain|done].
  - cbn [concat]. by rewrite app_nil_r, app_assoc, take_drop.
Defined.

Lemma chunked_roundtrip_witness :
  let l := [[MkObuf $"abc" false false true false false; MkObuf $"def" false false false true false];
            [MkObuf [] true false false false false];
            [MkObuf $"g" false false true false true]] in
  exists out, write_calls l = Ret out /\
    (concat [take 4 (wire out); drop 4 (wire out)] = wire out ->
     exists c p, read_pieces false start_ctx start_pipe [take 4 (wire out); drop 4 (wire out)] = Ret (c, p, NGX_OK) /\
       concat (p_in p) = $"abcdefg" /\ upstream_done p = true).
Proof.
  intros l.
  destruct (chunked_roundtrip false l
              [take 4 (wire (default [] (match write_calls l with Ret o => Some o | _ => None end)));
               drop 4 (wire (default [] (match write_calls l with Ret o => Some o | _ => None end)))]) as (out & Ho & Hr).
  - eapply calls_more; [reflexivity|reflexivity|]. eapply calls_more; [reflexivity|reflexivity|].
    eapply calls_last; reflexivity.
  - repeat (constructor; [split; [|unfold MAX_SIZE; cbn; lia]; repeat (constructor; [intros H; cbn in H; done|]); constructor|]).
    constructor.
  - exists out. rewrite Ho in Hr. cbn [default] in Hr. done.
Defined.

End ChunkedBody.
