(* ===== verification/NgxMp4.v ===== *)
(** Seeking in MP4 files: src/http/modules/ngx_http_mp4_module.c, from the
    atoms of the file to the response that begins at a given time.

    The file is a list of bytes.  mp4->buffer_pos always points at the byte
    mp4->offset of the file, because both move together, so the buffer is kept
    as [avail], the number of bytes that mp4->buffer_end is past it (negative
    when an atom was skipped); an access beyond them is [Undefined].  The
    buffers of a track are its atoms: bytes for the headers, and for the tables
    of the sample atoms the entries with the values the macros get and set.
    Allocation and reads of the file succeed. *)

From S2P Require Import Prelude.

Module Mp4.

(** ** Big-endian numbers *)

Definition byte_of (p : list Z) (i : nat) : Z := nth i p 0.

Definition ngx_mp4_get_32value (p : list Z) : Z :=
  Z.shiftl (byte_of p 0) 24 + Z.shiftl (byte_of p 1) 16 + Z.shiftl (byte_of p 2) 8 + byte_of p 3.

Definition ngx_mp4_set_32value (n : Z) : list Z :=
  [wrapU 8 (Z.shiftr n 24); wrapU 8 (Z.shiftr n 16); wrapU 8 (Z.shiftr n 8); wrapU 8 n].

Definition ngx_mp4_get_64value (p : list Z) : Z :=
  Z.shiftl (byte_of p 0) 56 + Z.shiftl (byte_of p 1) 48 + Z.shiftl (byte_of p 2) 40
    + Z.shiftl (byte_of p 3) 32 + Z.shiftl (byte_of p 4) 24 + Z.shiftl (byte_of p 5) 16
    + Z.shiftl (byte_of p 6) 8 + byte_of p 7.

Definition ngx_mp4_set_64value (n : Z) : list Z :=
  [wrapU 8 (Z.shiftr n 56); wrapU 8 (Z.shiftr n 48); wrapU 8 (Z.shiftr n 40);
   wrapU 8 (Z.shiftr n 32); wrapU 8 (Z.shiftr n 24); wrapU 8 (Z.shiftr n 16);
   wrapU 8 (Z.shiftr n 8); wrapU 8 n].

(** The bytes [v] stored at [off] in an atom. *)
Definition store_at (off : nat) (v : list Z) (atom : list Z) : list Z :=
  take off atom ++ v ++ drop (off + length v) atom.

Definition get32_at (off : nat) (atom : list Z) : Z := ngx_mp4_get_32value (drop off atom).
Definition get64_at (off : nat) (atom : list Z) : Z := ngx_mp4_get_64value (drop off atom).
Definition set32_at (off : nat) (n : Z) := store_at off (ngx_mp4_set_32value n).
Definition set64_at (off : nat) (n : Z) := store_at off (ngx_mp4_set_64value n).

(** ** Tables *)

Record ngx_mp4_stts_entry_t := MkStts { stts_count : Z; stts_duration : Z }.
Record ngx_mp4_ctts_entry_t := MkCtts { ctts_count : Z; ctts_offset : Z }.
Record ngx_mp4_stsc_entry_t := MkStsc { stsc_chunk : Z; stsc_samples : Z; stsc_id : Z }.

(** The entries of a table of [n] entries of [size] bytes. *)
Fixpoint table {A} (size : nat) (get : list Z -> A) (n : nat) (p : list Z) : list A :=
  match n with
  | O => []
  | S n => get p :: table size get n (drop size p)
  end.

Definition get_stts (p : list Z) : ngx_mp4_stts_entry_t := MkStts (get32_at 0 p) (get32_at 4 p).
Definition get_ctts (p : list Z) : ngx_mp4_ctts_entry_t := MkCtts (get32_at 0 p) (get32_at 4 p).
Definition get_stsc (p : list Z) : ngx_mp4_stsc_entry_t :=
  MkStsc (get32_at 0 p) (get32_at 4 p) (get32_at 8 p).

Definition put_stts (e : ngx_mp4_stts_entry_t) : list Z :=
  ngx_mp4_set_32value (stts_count e) ++ ngx_mp4_set_32value (stts_duration e).
Definition put_ctts (e : ngx_mp4_ctts_entry_t) : list Z :=
  ngx_mp4_set_32value (ctts_count e) ++ ngx_mp4_set_32value (ctts_offset e).
Definition put_stsc (e : ngx_mp4_stsc_entry_t) : list Z :=
  ngx_mp4_set_32value (stsc_chunk e) ++ ngx_mp4_set_32value (stsc_samples e)
    ++ ngx_mp4_set_32value (stsc_id e).

(** ** Tracks *)

Record ngx_http_mp4_trak_t := MkTrak {
  timescale : Z;
  time_to_sample_entries : Z; sample_to_chunk_entries : Z; sync_samples_entries : Z;
  composition_offset_entries : Z; sample_sizes_entries : Z; chunks : Z;
  start_sample : Z; start_chunk : Z; chunk_samples : Z; chunk_samples_size : Z; start_offset : Z;
  tkhd_size : Z; mdhd_size : Z; hdlr_size : Z; vmhd_size : Z; smhd_size : Z; dinf_size : Z;
  size : Z;
  trak_atom : option (list Z); tkhd_atom : option (list Z); mdia_atom : option (list Z);
  mdhd_atom : option (list Z); hdlr_atom : option (list Z); minf_atom : option (list Z);
  vmhd_atom : option (list Z); smhd_atom : option (list Z); dinf_atom : option (list Z);
  stbl_atom : option (list Z); stsd_atom : option (list Z);
  stts_atom : option (list Z); stts_data : option (list ngx_mp4_stts_entry_t);
  stss_atom : option (list Z); stss_data : option (list Z);
  ctts_atom : option (list Z); ctts_data : option (list ngx_mp4_ctts_entry_t);
  stsc_atom : option (list Z); stsc_first : option ngx_mp4_stsc_entry_t;
  stsc_data : option (list ngx_mp4_stsc_entry_t);
  stsz_atom : option (list Z); stsz_data : option (list Z);
  stco_atom : option (list Z); stco_data : option (list Z);
  co64_atom : option (list Z); co64_data : option (list Z) }.

(** ngx_memzero. *)
Definition no_trak : ngx_http_mp4_trak_t :=
  MkTrak 0 0 0 0 0 0 0 0 0 0 0 0 0 0 0 0 0 0 0
    None None None None None None None None None None None None None None None None None
    None None None None None None None None None.

Definition trak_eta (t : ngx_http_mp4_trak_t) : ngx_http_mp4_trak_t :=
  MkTrak (timescale t) (time_to_sample_entries t) (sample_to_chunk_entries t)
    (sync_samples_entries t) (composition_offset_entries t) (sample_sizes_entries t) (chunks t)
    (start_sample t) (start_chunk t) (chunk_samples t) (chunk_samples_size t) (start_offset t)
    (tkhd_size t) (mdhd_size t) (hdlr_size t) (vmhd_size t) (smhd_size t) (dinf_size t) (size t)
    (trak_atom t) (tkhd_atom t) (mdia_atom t) (mdhd_atom t) (hdlr_atom t) (minf_atom t)
    (vmhd_atom t) (smhd_atom t) (dinf_atom t) (stbl_atom t) (stsd_atom t)
    (stts_atom t) (stts_data t) (stss_atom t) (stss_data t) (ctts_atom t) (ctts_data t)
    (stsc_atom t) (stsc_first t) (stsc_data t) (stsz_atom t) (stsz_data t)
    (stco_atom t) (stco_data t) (co64_atom t) (co64_data t).

Definition set_timescale v t := ltac:(record_set trak_eta timescale v t).
Definition set_time_to_sample_entries v t := ltac:(record_set trak_eta time_to_sample_entries v t).
Definition set_sample_to_chunk_entries v t := ltac:(record_set trak_eta sample_to_chunk_entries v t).
Definition set_sync_samples_entries v t := ltac:(record_set trak_eta sync_samples_entries v t).
Definition set_composition_offset_entries v t :=
  ltac:(record_set trak_eta composition_offset_entries v t).
Definition set_sample_sizes_entries v t := ltac:(record_set trak_eta sample_sizes_entries v t).
Definition set_chunks v t := ltac:(record_set trak_eta chunks v t).
Definition set_start_sample v t := ltac:(record_set trak_eta start_sample v t).
Definition set_start_chunk v t := ltac:(record_set trak_eta start_chunk v t).
Definition set_chunk_samples v t := ltac:(record_set trak_eta chunk_samples v t).
Definition set_chunk_samples_size v t := ltac:(record_set trak_eta chunk_samples_size v t).
Definition set_start_offset v t := ltac:(record_set trak_eta start_offset v t).
Definition set_tkhd_size v t := ltac:(record_set trak_eta tkhd_size v t).
Definition set_mdhd_size v t := ltac:(record_set trak_eta mdhd_size v t).
Definition set_hdlr_size v t := ltac:(record_set trak_eta hdlr_size v t).
Definition set_vmhd_size v t := ltac:(record_set trak_eta vmhd_size v t).
Definition set_dinf_size v t := ltac:(record_set trak_eta dinf_size v t).
Definition set_size v t := ltac:(record_set trak_eta size v t).
Definition set_trak_atom v t := ltac:(record_set trak_eta trak_atom v t).
Definition set_tkhd_atom v t := ltac:(record_set trak_eta tkhd_atom v t).
Definition set_mdia_atom v t := ltac:(record_set trak_eta mdia_atom v t).
Definition set_mdhd_atom v t := ltac:(record_set trak_eta mdhd_atom v t).
Definition set_hdlr_atom v t := ltac:(record_set trak_eta hdlr_atom v t).
Definition set_minf_atom v t := ltac:(record_set trak_eta minf_atom v t).
Definition set_vmhd_atom v t := ltac:(record_set trak_eta vmhd_atom v t).
Definition set_smhd_atom v t := ltac:(record_set trak_eta smhd_atom v t).
Definition set_dinf_atom v t := ltac:(record_set trak_eta dinf_atom v t).
Definition set_stbl_atom v t := ltac:(record_set trak_eta stbl_atom v t).
Definition set_stsd_atom v t := ltac:(record_set trak_eta stsd_atom v t).
Definition set_stts_atom v t := ltac:(record_set trak_eta stts_atom v t).
Definition set_stts_data v t := ltac:(record_set trak_eta stts_data v t).
Definition set_stss_atom v t := ltac:(record_set trak_eta stss_atom v t).
Definition set_stss_data v t := ltac:(record_set trak_eta stss_data v t).
Definition set_ctts_atom v t := ltac:(record_set trak_eta ctts_atom v t).
Definition set_ctts_data v t := ltac:(record_set trak_eta ctts_data v t).
Definition set_stsc_atom v t := ltac:(record_set trak_eta stsc_atom v t).
Definition set_stsc_first v t := ltac:(record_set trak_eta stsc_first v t).
Definition set_stsc_data v t := ltac:(record_set trak_eta stsc_data v t).
Definition set_stsz_atom v t := ltac:(record_set trak_eta stsz_atom v t).
Definition set_stsz_data v t := ltac:(record_set trak_eta stsz_data v t).
Definition set_stco_atom v t := ltac:(record_set trak_eta stco_atom v t).
Definition set_stco_data v t := ltac:(record_set trak_eta stco_data v t).
Definition set_co64_atom v t := ltac:(record_set trak_eta co64_atom v t).
Definition set_co64_data v t := ltac:(record_set trak_eta co64_data v t).

(** trak->size += n. *)
Definition add_size (n : Z) (t : ngx_http_mp4_trak_t) : ngx_http_mp4_trak_t :=
  set_size (wrapU 64 (size t + n)) t.

(** ** Cropping the tables *)

(** The loop of ngx_http_mp4_update_stts_atom: [entries] left, the start
    sample and the table from the entry found on.  count * duration is a
    product of two uint32_t; only in the test it is widened first. *)
Fixpoint stts_loop (entries start_time sample : Z) (data : list ngx_mp4_stts_entry_t)
    : option (Z * Z * list ngx_mp4_stts_entry_t) :=
  match data with
  | [] => None
  | entry :: rest =>
    let count := stts_count entry in
    let duration := stts_duration entry in
    if start_time <? wrapU 64 (count * duration) then
      Some (entries, wrapU 64 (sample + start_time / duration),
            MkStts (wrapU 32 (count - wrapU 32 (start_time / duration))) duration :: rest)
    else
      stts_loop (wrapU 32 (entries - 1)) (wrapU 64 (start_time - wrapU 32 (count * duration)))
        (wrapU 64 (sample + count)) rest
  end.

Definition sizeof_stts_atom : Z := 16.

(** [set_entries]: the size and the number of entries in the header of a
    table atom, at offset [off]. *)
Definition set_header (off : nat) (atom_size entries : Z) (atom : option (list Z)) : option (list Z) :=
  (fun a => set32_at off entries (set32_at 0 atom_size a)) <$> atom.

Definition ngx_http_mp4_update_stts_atom (start : Z) (trak : ngx_http_mp4_trak_t)
    : option ngx_http_mp4_trak_t :=
  match stts_data trak with
  | None => None
  | Some data =>
    let start_time := wrapU 64 (start * timescale trak) / 1000 in
    match stts_loop (time_to_sample_entries trak) start_time 0 data with
    | None => None
    | Some (entries, sample, data) =>
      let atom_size := sizeof_stts_atom + 8 * Z.of_nat (length data) in
      Some (set_stts_atom (set_header 12 atom_size entries (stts_atom trak))
             (set_stts_data (Some data)
               (add_size atom_size (set_start_sample sample trak))))
    end
  end.

(** The first loop of ngx_http_mp4_update_stss_atom. *)
Fixpoint stss_loop (entries first : Z) (data : list Z) : option (Z * list Z) :=
  match data with
  | [] => None
  | sample :: rest =>
    if sample >=? first then Some (entries, data)
    else stss_loop (wrapU 32 (entries - 1)) first rest
  end.

Definition ngx_http_mp4_update_stss_atom (trak : ngx_http_mp4_trak_t) : option ngx_http_mp4_trak_t :=
  match stss_data trak with
  | None => Some trak
  | Some data =>
    match stss_loop (sync_samples_entries trak) (wrapU 32 (start_sample trak + 1)) data with
    | None => None
    | Some (entries, data) =>
      let atom_size := 16 + 4 * Z.of_nat (length data) in
      Some (set_stss_atom (set_header 12 atom_size entries (stss_atom trak))
             (set_stss_data (Some (map (fun s => wrapU 32 (s - wrapU 32 (start_sample trak))) data))
               (add_size atom_size trak)))
    end
  end.

Fixpoint ctts_loop (entries first : Z) (data : list ngx_mp4_ctts_entry_t)
    : option (Z * list ngx_mp4_ctts_entry_t) :=
  match data with
  | [] => None
  | entry :: rest =>
    let count := ctts_count entry in
    if first <=? count then
      Some (entries, MkCtts (wrapU 32 (count - (first - 1))) (ctts_offset entry) :: rest)
    else ctts_loop (wrapU 32 (entries - 1)) (wrapU 32 (first - count)) rest
  end.

Definition ngx_http_mp4_update_ctts_atom (trak : ngx_http_mp4_trak_t) : ngx_http_mp4_trak_t :=
  match ctts_data trak with
  | None => trak
  | Some data =>
    match ctts_loop (composition_offset_entries trak) (wrapU 32 (start_sample trak + 1)) data with
    | None => set_ctts_atom None (set_ctts_data None trak)
    | Some (entries, data) =>
      let atom_size := 16 + 8 * Z.of_nat (length data) in
      set_ctts_atom (set_header 12 atom_size entries (ctts_atom trak))
        (set_ctts_data (Some data) (add_size atom_size trak))
    end
  end.

(** What the search of ngx_http_mp4_update_stsc_atom leaves: start_sample,
    entries, the entry it stopped at, next_chunk and the table after it. *)
Record stsc_found := MkFound {
  f_sample : Z; f_entries : Z; f_entry : ngx_mp4_stsc_entry_t; f_next_chunk : Z;
  f_rest : list ngx_mp4_stsc_entry_t }.

(** The loop over the entries after [cur]; [chunks] is trak->chunks. *)
Fixpoint stsc_loop (chunks sample entries : Z) (cur : ngx_mp4_stsc_entry_t)
    (rest : list ngx_mp4_stsc_entry_t) : option stsc_found :=
  match rest with
  | [] =>
    let n := wrapU 32 (wrapU 32 (chunks - stsc_chunk cur) * stsc_samples cur) in
    if sample >? n then None else Some (MkFound sample entries cur chunks [])
  | entry :: rest' =>
    let next_chunk := stsc_chunk entry in
    let n := wrapU 32 (wrapU 32 (next_chunk - stsc_chunk cur) * stsc_samples cur) in
    if sample <=? n then Some (MkFound sample entries cur next_chunk rest)
    else stsc_loop chunks (wrapU 32 (sample - n)) (wrapU 32 (entries - 1)) entry rest'
  end.

(** After the label found, with samples not zero: entries, the extra entry
    and the table. *)
Definition stsc_crop (f : stsc_found) (chunk_samples start_chunk : Z)
    : Z * option ngx_mp4_stsc_entry_t * list ngx_mp4_stsc_entry_t :=
  let 'MkStsc chunk samples id := f_entry f in
  let entries := wrapU 32 (f_entries f + 1) in
  let rest := map (fun e => MkStsc (wrapU 32 (stsc_chunk e - start_chunk)) (stsc_samples e)
                              (stsc_id e)) (f_rest f) in
  if negb (chunk_samples =? 0) && (wrapU 64 (f_next_chunk f - start_chunk) =? 2) then
    (entries, None, MkStsc 1 (wrapU 32 (samples - chunk_samples)) id :: rest)
  else if negb (chunk_samples =? 0) then
    (wrapU 32 (entries + 1), Some (MkStsc 1 (wrapU 32 (samples - chunk_samples)) id),
     MkStsc 2 samples id :: rest)
  else (entries, None, MkStsc 1 samples id :: rest).

(** With entries in the header but none in the table the first one would be
    read outside the table. *)
Definition ngx_http_mp4_update_stsc_atom (trak : ngx_http_mp4_trak_t)
    : outcome (option ngx_http_mp4_trak_t) :=
  match stsc_data trak with
  | None => Ret None
  | Some data =>
    if sample_to_chunk_entries trak =? 0 then Ret None
    else
      match data with
      | [] => Undefined
      | first :: rest =>
        match stsc_loop (chunks trak) (wrapU 32 (start_sample trak))
                (sample_to_chunk_entries trak - 1) first rest with
        | None => Ret None
        | Some f =>
          let samples := stsc_samples (f_entry f) in
          if samples =? 0 then Ret None
          else
            let start_chunk :=
              wrapU 64 (wrapU 32 (stsc_chunk (f_entry f) - 1) + f_sample f / samples) in
            let chunk_samples := f_sample f mod samples in
            let '(entries, extra, data) := stsc_crop f chunk_samples start_chunk in
            let atom_size := 16 + 12 * Z.of_nat (length data)
                             + match extra with Some _ => 12 | None => 0 end in
            Ret (Some
              (set_stsc_atom (set_header 12 atom_size entries (stsc_atom trak))
                (set_stsc_first extra
                  (set_stsc_data (Some data)
                    (add_size atom_size
                      (set_chunk_samples chunk_samples (set_start_chunk start_chunk trak)))))))
        end
      end
  end.

(** The sizes of the samples of the start chunk that are left out are read
    backwards from the start sample. *)
Definition ngx_http_mp4_update_stsz_atom (trak : ngx_http_mp4_trak_t)
    : outcome (option ngx_http_mp4_trak_t) :=
  match stsz_data trak with
  | None => Ret (Some trak)
  | Some data =>
    if start_sample trak >? sample_sizes_entries trak then Ret None
    else if (chunk_samples trak >? start_sample trak)
            || (start_sample trak >? Z.of_nat (length data)) then Undefined
    else
      let skipped := take (Z.to_nat (chunk_samples trak))
                       (drop (Z.to_nat (start_sample trak - chunk_samples trak)) data) in
      let data := drop (Z.to_nat (start_sample trak)) data in
      let atom_size := 20 + 4 * Z.of_nat (length data) in
      Ret (Some
        (set_stsz_atom (set_header 16 atom_size
                          (wrapU 32 (sample_sizes_entries trak - start_sample trak)) (stsz_atom trak))
          (set_stsz_data (Some data)
            (add_size atom_size
              (set_chunk_samples_size
                 (fold_left (fun n s => wrapU 64 (n + s)) skipped (chunk_samples_size trak)) trak)))))
  end.

(** ngx_http_mp4_update_stco_atom and ngx_http_mp4_update_co64_atom differ in
    the width of an offset.  The offset of a chunk past the last one is read
    outside the table. *)
Definition crop_offsets (width : Z) (data : list Z) (trak : ngx_http_mp4_trak_t)
    : outcome (option (list Z * Z)) :=
  if start_chunk trak >? chunks trak then Ret None
  else
    match drop (Z.to_nat (start_chunk trak)) data with
    | [] => Undefined
    | first :: rest =>
      let offset := wrapS 64 (first + chunk_samples_size trak) in
      Ret (Some (wrapU width offset :: rest, offset))
    end.

Definition ngx_http_mp4_update_stco_atom (trak : ngx_http_mp4_trak_t)
    : outcome (option ngx_http_mp4_trak_t) :=
  match stco_data trak with
  | None => Ret None
  | Some data =>
    let! cropped := crop_offsets 32 data trak in
    match cropped with
    | None => Ret None
    | Some (data, offset) =>
      let atom_size := 16 + 4 * Z.of_nat (length data) in
      Ret (Some
        (set_stco_atom (set_header 12 atom_size (wrapU 32 (chunks trak - start_chunk trak))
                          (stco_atom trak))
          (set_stco_data (Some data) (add_size atom_size (set_start_offset offset trak)))))
    end
  end.

Definition ngx_http_mp4_update_co64_atom (trak : ngx_http_mp4_trak_t)
    : outcome (option ngx_http_mp4_trak_t) :=
  match co64_data trak with
  | None => Ret None
  | Some data =>
    let! cropped := crop_offsets 64 data trak in
    match cropped with
    | None => Ret None
    | Some (data, offset) =>
      let atom_size := 16 + 8 * Z.of_nat (length data) in
      Ret (Some
        (set_co64_atom (set_header 12 atom_size (wrapU 32 (chunks trak - start_chunk trak))
                          (co64_atom trak))
          (set_co64_data (Some data) (add_size atom_size (set_start_offset offset trak)))))
    end
  end.

Definition ngx_http_mp4_adjust_stco_atom (adjustment : Z) (trak : ngx_http_mp4_trak_t)
    : ngx_http_mp4_trak_t :=
  set_stco_data (map (fun offset => wrapU 32 (offset + wrapS 32 adjustment)) <$> stco_data trak) trak.

Definition ngx_http_mp4_adjust_co64_atom (adjustment : Z) (trak : ngx_http_mp4_trak_t)
    : ngx_http_mp4_trak_t :=
  set_co64_data (map (fun offset => wrapU 64 (offset + adjustment)) <$> co64_data trak) trak.

(** The atoms that hold other atoms: their sizes, from the inside out. *)
Definition set_atom_size (n : Z) (atom : option (list Z)) : option (list Z) :=
  set32_at 0 n <$> atom.

Definition ngx_http_mp4_update_stbl_atom (t : ngx_http_mp4_trak_t) : ngx_http_mp4_trak_t :=
  let t := add_size 8 t in set_stbl_atom (set_atom_size (size t) (stbl_atom t)) t.

Definition ngx_http_mp4_update_minf_atom (t : ngx_http_mp4_trak_t) : ngx_http_mp4_trak_t :=
  let t := add_size (8 + vmhd_size t + smhd_size t + dinf_size t) t in
  set_minf_atom (set_atom_size (size t) (minf_atom t)) t.

Definition ngx_http_mp4_update_mdia_atom (t : ngx_http_mp4_trak_t) : ngx_http_mp4_trak_t :=
  let t := add_size 8 t in set_mdia_atom (set_atom_size (size t) (mdia_atom t)) t.

Definition ngx_http_mp4_update_trak_atom (t : ngx_http_mp4_trak_t) : ngx_http_mp4_trak_t :=
  let t := add_size 8 t in set_trak_atom (set_atom_size (size t) (trak_atom t)) t.

(** ** The file *)

Record ngx_http_mp4_file_t := MkMp4 {
  offset : Z; avail : Z; buffer_size : Z; content_length : Z; mp4_timescale : Z;
  trak : list ngx_http_mp4_trak_t; ftyp_size : Z; moov_size : Z;
  ftyp_atom : option (list Z); mvhd_atom : option (list Z);
  mdat_last : option Z }.

Definition mp4_eta (m : ngx_http_mp4_file_t) : ngx_http_mp4_file_t :=
  MkMp4 (offset m) (avail m) (buffer_size m) (content_length m) (mp4_timescale m) (trak m)
    (ftyp_size m) (moov_size m) (ftyp_atom m) (mvhd_atom m) (mdat_last m).

Definition set_offset v m := ltac:(record_set mp4_eta offset v m).
Definition set_avail v m := ltac:(record_set mp4_eta avail v m).
Definition set_buffer_size v m := ltac:(record_set mp4_eta buffer_size v m).
Definition set_content_length v m := ltac:(record_set mp4_eta content_length v m).
Definition set_mp4_timescale v m := ltac:(record_set mp4_eta mp4_timescale v m).
Definition set_trak v m := ltac:(record_set mp4_eta trak v m).
Definition set_ftyp_size v m := ltac:(record_set mp4_eta ftyp_size v m).
Definition set_moov_size v m := ltac:(record_set mp4_eta moov_size v m).
Definition set_ftyp_atom v m := ltac:(record_set mp4_eta ftyp_atom v m).
Definition set_mvhd_atom v m := ltac:(record_set mp4_eta mvhd_atom v m).
Definition set_mdat_last v m := ltac:(record_set mp4_eta mdat_last v m).

(** ngx_pcalloc, then the buffer size of the configuration. *)
Definition mp4_start (conf_buffer_size : Z) : ngx_http_mp4_file_t :=
  MkMp4 0 0 conf_buffer_size 0 0 [] 0 0 None None None.

(** ** Reading the atoms *)

Section Read.
Context (file : list Z) (max_buffer_size start : Z).

Definition mp4_end : Z := Z.of_nat (length file).

Definition NGX_MAX_OFF_T_VALUE : Z := 2 ^ 63 - 1.
Definition NGX_HTTP_MP4_MOOV_BUFFER_EXCESS : Z := 4 * 1024.

(** The state and NGX_OK, NGX_ERROR or NGX_DECLINED. *)
Definition result : Type := outcome (ngx_http_mp4_file_t * Z).

Definition atom_handler : Type := ngx_http_mp4_file_t -> Z -> result.

(** [n] bytes that begin [back] bytes before mp4->buffer_pos. *)
Definition peek (m : ngx_http_mp4_file_t) (back n : Z) : outcome (list Z) :=
  if (n - back <=? avail m) && (back <=? offset m)
  then Ret (take (Z.to_nat n) (drop (Z.to_nat (offset m - back)) file))
  else Undefined.

Definition ngx_mp4_atom_next (n : Z) (m : ngx_http_mp4_file_t) : ngx_http_mp4_file_t :=
  set_offset (wrapS 64 (offset m + n)) (set_avail (wrapS 64 (avail m - n)) m).

Definition ngx_http_mp4_read (m : ngx_http_mp4_file_t) (size : Z) : ngx_http_mp4_file_t * Z :=
  if size <=? avail m then (m, NGX_OK)
  else
    let m := if offset m + buffer_size m >? mp4_end
             then set_buffer_size (wrapU 64 (mp4_end - offset m)) m else m in
    if buffer_size m <? size then (m, NGX_ERROR)
    else (set_avail (buffer_size m) m, NGX_OK).

(** Runs [k] when the bytes are in the buffer. *)
Definition reading (m : ngx_http_mp4_file_t) (size : Z) (k : ngx_http_mp4_file_t -> result) : result :=
  let '(m, rc) := ngx_http_mp4_read m size in
  if rc =? NGX_OK then k m else Ret (m, NGX_ERROR).

Fixpoint find_handler (atoms : list (list Z * atom_handler)) (name : list Z) : option atom_handler :=
  match atoms with
  | [] => None
  | (n, h) :: atoms => if bool_decide (n = name) then Some h else find_handler atoms name
  end.

(** The rest of a round of ngx_http_mp4_read_atom, for an atom of [atom_size]
    bytes with a header of [header_size]; [again] is the next round. *)
Definition read_sized (atoms : list (list Z * atom_handler)) (end_ : Z) (again : ngx_http_mp4_file_t -> result)
    (m : ngx_http_mp4_file_t) (atom_size header_size : Z) : result :=
  reading m 8 (fun m =>
    let! header := peek m 0 8 in
    if (atom_size >? NGX_MAX_OFF_T_VALUE - offset m) || (offset m + atom_size >? end_)
    then Ret (m, NGX_ERROR)
    else
      match find_handler atoms (take 4 (drop 4 header)) with
      | Some h =>
        let! (m, rc) := h (ngx_mp4_atom_next header_size m) (wrapU 64 (atom_size - header_size)) in
        if rc =? NGX_OK then again m else Ret (m, rc)
      | None => again (ngx_mp4_atom_next atom_size m)
      end).

Fixpoint read_atom_loop (fuel : nat) (atoms : list (list Z * atom_handler)) (end_ : Z)
    (m : ngx_http_mp4_file_t) : result :=
  match fuel with
  | O => NoFuel
  | S fuel =>
    if offset m <? end_ then
      reading m 4 (fun m =>
        let! header := peek m 0 4 in
        let atom_size := ngx_mp4_get_32value header in
        if atom_size =? 0 then Ret (m, NGX_OK)
        else if atom_size <? 8 then
          if atom_size =? 1 then
            reading m 16 (fun m =>
              let! header := peek m 0 16 in
              read_sized atoms end_ (read_atom_loop fuel atoms end_) m (get64_at 8 header) 16)
          else Ret (m, NGX_ERROR)
        else read_sized atoms end_ (read_atom_loop fuel atoms end_) m atom_size 8)
    else Ret (m, NGX_OK)
  end.

Context (fuel : nat).

Definition ngx_http_mp4_read_atom (atoms : list (list Z * atom_handler)) : atom_handler := fun m size =>
  read_atom_loop fuel atoms (wrapS 64 (offset m + size)) m.

(** *** The file level *)

Definition ngx_http_mp4_read_ftyp_atom : atom_handler := fun m size =>
  if (size >? 1024) || (size >? avail m) then Ret (m, NGX_ERROR)
  else
    let! data := peek m 0 size in
    let atom_size := 8 + size in
    Ret (ngx_mp4_atom_next size
           (set_content_length atom_size
             (set_ftyp_size atom_size
               (set_ftyp_atom (Some (ngx_mp4_set_32value atom_size ++ $"ftyp" ++ data)) m))), NGX_OK).

Definition ngx_http_mp4_read_mdat_atom : atom_handler := fun m size =>
  let m := set_mdat_last (Some (wrapS 64 (offset m + size))) m in
  Ret (match trak m with
       | _ :: _ => set_offset mp4_end m
       | [] => ngx_mp4_atom_next size m
       end, NGX_OK).

(** *** Atoms that are kept whole

    The header is what lies before the data, with its name and, where the
    handler sets it, its size. *)

(** [atom_header .. atom_header + 8 + size), with the name set. *)
Definition named_atom (m : ngx_http_mp4_file_t) (name : list Z) (size : Z) : outcome (list Z) :=
  let! atom := peek m 8 (8 + size) in
  Ret (store_at 4 name atom).

Definition sized_atom (m : ngx_http_mp4_file_t) (name : list Z) (size : Z) : outcome (list Z) :=
  let! atom := named_atom m name size in
  Ret (set32_at 0 (wrapU 64 (8 + size)) atom).

(** ngx_mp4_last_trak(mp4), updated. *)
Definition update_last (f : ngx_http_mp4_trak_t -> ngx_http_mp4_trak_t) (m : ngx_http_mp4_file_t)
    : ngx_http_mp4_file_t :=
  set_trak (match List.rev (trak m) with
            | [] => []
            | t :: ts => List.rev ts ++ [f t]
            end) m.

(** mvhd, tkhd and mdhd: the duration is shortened by the start time.
    [layout] gives for the versions 0 and 1 the size of the structure and the
    offsets of its timescale and its duration. *)
Definition shorten (m : ngx_http_mp4_file_t) (name : list Z) (size : Z)
    (layout0 layout1 : Z * nat * nat) (own_timescale : bool)
    : outcome (option (list Z * Z)) :=
  let '(sizeof0, timescale0, duration0) := layout0 in
  let '(sizeof1, timescale1, duration1) := layout1 in
  if sizeof0 - 8 >? size then Ret None
  else
    let! atom := sized_atom m name size in
    let version0 := byte_of atom 8 =? 0 in
    if negb version0 && (sizeof1 - 8 >? size) then Ret None
    else
      let scale := if own_timescale
                   then get32_at (if version0 then timescale0 else timescale1) atom
                   else mp4_timescale m in
      let duration := if version0 then get32_at duration0 atom else get64_at duration1 atom in
      let duration := wrapU 64 (duration - wrapU 64 (start * scale) / 1000) in
      Ret (Some (if version0 then set32_at duration0 duration atom
                 else set64_at duration1 duration atom, scale)).

Definition ngx_http_mp4_read_mvhd_atom : atom_handler := fun m size =>
  let! atom := shorten m $"mvhd" size (108, 20%nat, 24%nat) (120, 28%nat, 32%nat) true in
  match atom with
  | None => Ret (m, NGX_ERROR)
  | Some (atom, scale) =>
    Ret (ngx_mp4_atom_next size (set_mvhd_atom (Some atom) (set_mp4_timescale scale m)), NGX_OK)
  end.

Definition ngx_http_mp4_read_tkhd_atom : atom_handler := fun m size =>
  let! atom := shorten m $"tkhd" size (92, 0%nat, 28%nat) (104, 0%nat, 36%nat) false in
  match atom with
  | None => Ret (m, NGX_ERROR)
  | Some (atom, _) =>
    Ret (ngx_mp4_atom_next size
           (update_last (fun t => set_tkhd_atom (Some atom) (set_tkhd_size (wrapU 64 (8 + size)) t)) m),
         NGX_OK)
  end.

Definition ngx_http_mp4_read_mdhd_atom : atom_handler := fun m size =>
  let! atom := shorten m $"mdhd" size (32, 20%nat, 24%nat) (44, 28%nat, 32%nat) true in
  match atom with
  | None => Ret (m, NGX_ERROR)
  | Some (atom, scale) =>
    Ret (ngx_mp4_atom_next size
           (update_last (fun t => set_mdhd_atom (Some atom)
                          (set_timescale scale (set_mdhd_size (wrapU 64 (8 + size)) t))) m), NGX_OK)
  end.

(** hdlr, vmhd, smhd and dinf; [f] stores the atom and its size. *)
Definition keep_atom (name : list Z) (f : list Z -> Z -> ngx_http_mp4_trak_t -> ngx_http_mp4_trak_t)
    : atom_handler := fun m size =>
  let! atom := sized_atom m name size in
  Ret (ngx_mp4_atom_next size (update_last (f atom (wrapU 64 (8 + size))) m), NGX_OK).

Definition ngx_http_mp4_read_hdlr_atom : atom_handler :=
  keep_atom $"hdlr" (fun atom n t => set_hdlr_size n (set_hdlr_atom (Some atom) t)).
Definition ngx_http_mp4_read_vmhd_atom : atom_handler :=
  keep_atom $"vmhd" (fun atom n t => set_vmhd_size (wrapU 64 (vmhd_size t + n)) (set_vmhd_atom (Some atom) t)).
Definition ngx_http_mp4_read_smhd_atom : atom_handler :=
  keep_atom $"smhd" (fun atom n t => set_vmhd_size (wrapU 64 (vmhd_size t + n)) (set_smhd_atom (Some atom) t)).
Definition ngx_http_mp4_read_dinf_atom : atom_handler :=
  keep_atom $"dinf" (fun atom n t => set_dinf_size (wrapU 64 (dinf_size t + n)) (set_dinf_atom (Some atom) t)).

Definition ngx_http_mp4_read_cmov_atom : atom_handler := fun m _ => Ret (m, NGX_ERROR).

Definition ngx_http_mp4_read_stsd_atom : atom_handler := fun m size =>
  let! atom := sized_atom m $"stsd" size in
  if 24 - 8 >? size then Ret (m, NGX_ERROR)
  else
    let media_name := take 4 (drop 20 atom) in
    if bool_decide (media_name <> $"avc1") && bool_decide (media_name <> $"mp4a")
    then Ret (m, NGX_DECLINED)
    else Ret (ngx_mp4_atom_next size
                (update_last (fun t => add_size (wrapU 64 (8 + size)) (set_stsd_atom (Some atom) t)) m),
              NGX_OK).

(** *** Tables *)

(** A table atom with a header of [sizeof] bytes and its number of entries at
    the end of it, of [width] bytes each: the header, the entries, and the
    bytes after the header.  The product entries * sizeof(entry) is of 64
    bits. *)
Definition read_table (name : list Z) (sizeof width : Z) (m : ngx_http_mp4_file_t) (size : Z)
    (k : list Z -> Z -> list Z -> result) : result :=
  if sizeof - 8 >? size then Ret (m, NGX_ERROR)
  else
    let! header := named_atom m name (sizeof - 8) in
    let entries := get32_at (Z.to_nat (sizeof - 4)) header in
    if sizeof - 8 + entries * width >? size then Ret (m, NGX_ERROR)
    else
      let! data := peek m (8 - sizeof) (entries * width) in
      k header entries data.

Definition ngx_http_mp4_read_stts_atom : atom_handler := fun m size =>
  read_table $"stts" 16 8 m size (fun header entries data =>
    Ret (ngx_mp4_atom_next size (update_last (fun t =>
           set_stts_atom (Some header) (set_stts_data (Some (table 8 get_stts (Z.to_nat entries) data))
             (set_time_to_sample_entries entries t))) m), NGX_OK)).

Definition ngx_http_mp4_read_stss_atom : atom_handler := fun m size =>
  read_table $"stss" 16 4 m size (fun header entries data =>
    Ret (ngx_mp4_atom_next size (update_last (fun t =>
           set_stss_atom (Some header)
             (set_stss_data (Some (table 4 ngx_mp4_get_32value (Z.to_nat entries) data))
               (set_sync_samples_entries entries t))) m), NGX_OK)).

Definition ngx_http_mp4_read_ctts_atom : atom_handler := fun m size =>
  read_table $"ctts" 16 8 m size (fun header entries data =>
    Ret (ngx_mp4_atom_next size (update_last (fun t =>
           set_ctts_atom (Some header) (set_ctts_data (Some (table 8 get_ctts (Z.to_nat entries) data))
             (set_composition_offset_entries entries t))) m), NGX_OK)).

Definition ngx_http_mp4_read_stsc_atom : atom_handler := fun m size =>
  read_table $"stsc" 16 12 m size (fun header entries data =>
    Ret (ngx_mp4_atom_next size (update_last (fun t =>
           set_stsc_atom (Some header) (set_stsc_data (Some (table 12 get_stsc (Z.to_nat entries) data))
             (set_sample_to_chunk_entries entries t))) m), NGX_OK)).

(** A table of sizes, or one size for all samples, which is left as it is. *)
Definition ngx_http_mp4_read_stsz_atom : atom_handler := fun m size =>
  if 20 - 8 >? size then Ret (m, NGX_ERROR)
  else
    let! header := named_atom m $"stsz" (20 - 8) in
    let uniform_size := get32_at 12 header in
    let entries := get32_at 16 header in
    if uniform_size =? 0 then
      if 20 - 8 + entries * 4 >? size then Ret (m, NGX_ERROR)
      else
        let! data := peek m (8 - 20) (entries * 4) in
        Ret (ngx_mp4_atom_next size (update_last (fun t =>
               set_stsz_atom (Some header)
                 (set_stsz_data (Some (table 4 ngx_mp4_get_32value (Z.to_nat entries) data))
                   (set_sample_sizes_entries entries t))) m), NGX_OK)
    else
      let atom_size := wrapU 64 (8 + size) in
      Ret (ngx_mp4_atom_next size (update_last (fun t =>
             add_size atom_size (set_stsz_atom (Some (set32_at 0 atom_size header))
               (set_sample_sizes_entries entries t))) m), NGX_OK).

Definition ngx_http_mp4_read_stco_atom : atom_handler := fun m size =>
  read_table $"stco" 16 4 m size (fun header entries data =>
    Ret (ngx_mp4_atom_next size (update_last (fun t =>
           set_stco_atom (Some header)
             (set_stco_data (Some (table 4 ngx_mp4_get_32value (Z.to_nat entries) data))
               (set_chunks entries t))) m), NGX_OK)).

Definition ngx_http_mp4_read_co64_atom : atom_handler := fun m size =>
  read_table $"co64" 16 8 m size (fun header entries data =>
    Ret (ngx_mp4_atom_next size (update_last (fun t =>
           set_co64_atom (Some header)
             (set_co64_data (Some (table 8 ngx_mp4_get_64value (Z.to_nat entries) data))
               (set_chunks entries t))) m), NGX_OK)).

(** *** Atoms that hold atoms, from the inside out *)

Definition ngx_http_mp4_stbl_atoms : list (list Z * atom_handler) :=
  [($"stsd", ngx_http_mp4_read_stsd_atom); ($"stts", ngx_http_mp4_read_stts_atom);
   ($"stss", ngx_http_mp4_read_stss_atom); ($"ctts", ngx_http_mp4_read_ctts_atom);
   ($"stsc", ngx_http_mp4_read_stsc_atom); ($"stsz", ngx_http_mp4_read_stsz_atom);
   ($"stco", ngx_http_mp4_read_stco_atom); ($"co64", ngx_http_mp4_read_co64_atom)].

(** The header of 8 bytes is kept, then the atoms inside are read. *)
Definition read_inside (name : list Z) (f : list Z -> ngx_http_mp4_trak_t -> ngx_http_mp4_trak_t)
    (atoms : list (list Z * atom_handler)) : atom_handler := fun m size =>
  let! header := named_atom m name 0 in
  ngx_http_mp4_read_atom atoms (update_last (f header) m) size.

Definition ngx_http_mp4_read_stbl_atom : atom_handler :=
  read_inside $"stbl" (fun h => set_stbl_atom (Some h)) ngx_http_mp4_stbl_atoms.

Definition ngx_http_mp4_minf_atoms : list (list Z * atom_handler) :=
  [($"vmhd", ngx_http_mp4_read_vmhd_atom); ($"smhd", ngx_http_mp4_read_smhd_atom);
   ($"dinf", ngx_http_mp4_read_dinf_atom); ($"stbl", ngx_http_mp4_read_stbl_atom)].

Definition ngx_http_mp4_read_minf_atom : atom_handler :=
  read_inside $"minf" (fun h => set_minf_atom (Some h)) ngx_http_mp4_minf_atoms.

Definition ngx_http_mp4_mdia_atoms : list (list Z * atom_handler) :=
  [($"mdhd", ngx_http_mp4_read_mdhd_atom); ($"hdlr", ngx_http_mp4_read_hdlr_atom);
   ($"minf", ngx_http_mp4_read_minf_atom)].

Definition ngx_http_mp4_read_mdia_atom : atom_handler :=
  read_inside $"mdia" (fun h => set_mdia_atom (Some h)) ngx_http_mp4_mdia_atoms.

Definition ngx_http_mp4_trak_atoms : list (list Z * atom_handler) :=
  [($"tkhd", ngx_http_mp4_read_tkhd_atom); ($"mdia", ngx_http_mp4_read_mdia_atom)].

(** NGX_DECLINED from inside skips the track. *)
Definition ngx_http_mp4_read_trak_atom : atom_handler := fun m size =>
  let! header := named_atom m $"trak" 0 in
  let before := m in
  let m := set_trak (trak m ++ [set_trak_atom (Some header) no_trak]) m in
  let! (m, rc) := ngx_http_mp4_read_atom ngx_http_mp4_trak_atoms m size in
  if rc =? NGX_DECLINED then
    Ret (set_offset (wrapS 64 (offset before + size)) (set_avail (wrapS 64 (avail before - size))
           (set_trak (removelast (trak m)) m)), NGX_OK)
  else Ret (m, rc).

Definition ngx_http_mp4_moov_atoms : list (list Z * atom_handler) :=
  [($"mvhd", ngx_http_mp4_read_mvhd_atom); ($"trak", ngx_http_mp4_read_trak_atom);
   ($"cmov", ngx_http_mp4_read_cmov_atom)].

(** mp4->trak.elts is set to the two tracks in the structure; more than two
    from a moov atom before lie elsewhere. *)
Definition ngx_http_mp4_read_moov_atom : atom_handler := fun m size =>
  let no_mdat := bool_decide (mdat_last m = None) in
  if no_mdat && (start =? 0) then Ret (m, NGX_DECLINED)
  else if (size >? buffer_size m) && (size >? max_buffer_size) then Ret (m, NGX_ERROR)
  else
    let m := if size >? buffer_size m
             then set_buffer_size
                    (size + (if no_mdat then NGX_HTTP_MP4_MOOV_BUFFER_EXCESS else 0)) (set_avail 0 m)
             else m in
    reading m size (fun m =>
      if (2 <? length (trak m))%nat then Undefined
      else
        let! (m, rc) := ngx_http_mp4_read_atom ngx_http_mp4_moov_atoms m size in
        let m :=
          if no_mdat then
            let m := set_buffer_size NGX_HTTP_MP4_MOOV_BUFFER_EXCESS m in
            if buffer_size m >? avail m then set_avail 0 m else m
          else set_offset mp4_end m in
        Ret (m, rc)).

Definition ngx_http_mp4_atoms : list (list Z * atom_handler) :=
  [($"ftyp", ngx_http_mp4_read_ftyp_atom); ($"moov", ngx_http_mp4_read_moov_atom);
   ($"mdat", ngx_http_mp4_read_mdat_atom)].

End Read.

(** ** Building the response *)

(** The chain of a track, in the order of the indices of trak->out. *)
Definition trak_out (t : ngx_http_mp4_trak_t) : list Z :=
  let atom o := default [] o in
  atom (trak_atom t) ++ atom (tkhd_atom t) ++ atom (mdia_atom t) ++ atom (mdhd_atom t)
    ++ atom (hdlr_atom t) ++ atom (minf_atom t) ++ atom (vmhd_atom t) ++ atom (smhd_atom t)
    ++ atom (dinf_atom t) ++ atom (stbl_atom t) ++ atom (stsd_atom t)
    ++ atom (stts_atom t) ++ flat_map put_stts (default [] (stts_data t))
    ++ atom (stss_atom t) ++ flat_map ngx_mp4_set_32value (default [] (stss_data t))
    ++ atom (ctts_atom t) ++ flat_map put_ctts (default [] (ctts_data t))
    ++ atom (stsc_atom t) ++ flat_map put_stsc (option_list (stsc_first t))
    ++ flat_map put_stsc (default [] (stsc_data t))
    ++ atom (stsz_atom t) ++ flat_map ngx_mp4_set_32value (default [] (stsz_data t))
    ++ atom (stco_atom t) ++ flat_map ngx_mp4_set_32value (default [] (stco_data t))
    ++ atom (co64_atom t) ++ flat_map ngx_mp4_set_64value (default [] (co64_data t)).

(** The body of the loop over the tracks, up to trak[i].size; [None] is
    NGX_ERROR. *)
Definition update_trak (start : Z) (t : ngx_http_mp4_trak_t) : outcome (option ngx_http_mp4_trak_t) :=
  match ngx_http_mp4_update_stts_atom start t with
  | None => Ret None
  | Some t =>
    match ngx_http_mp4_update_stss_atom t with
    | None => Ret None
    | Some t =>
      let! t := ngx_http_mp4_update_stsc_atom (ngx_http_mp4_update_ctts_atom t) in
      match t with
      | None => Ret None
      | Some t =>
        let! t := ngx_http_mp4_update_stsz_atom t in
        match t with
        | None => Ret None
        | Some t =>
          let! t := (match co64_data t with
                     | Some _ => ngx_http_mp4_update_co64_atom t
                     | None => ngx_http_mp4_update_stco_atom t
                     end) in
          match t with
          | None => Ret None
          | Some t =>
            let t := ngx_http_mp4_update_minf_atom (ngx_http_mp4_update_stbl_atom t) in
            let t := add_size (hdlr_size t) (add_size (mdhd_size t) t) in
            let t := ngx_http_mp4_update_mdia_atom t in
            let t := add_size (tkhd_size t) t in
            Ret (Some (ngx_http_mp4_update_trak_atom t))
          end
        end
      end
    end
  end.

(** The loop over the tracks: moov_size and the least start_offset. *)
Fixpoint update_traks (start moov_size least : Z) (traks : list ngx_http_mp4_trak_t)
    : outcome (option (Z * Z * list ngx_http_mp4_trak_t)) :=
  match traks with
  | [] => Ret (Some (moov_size, least, []))
  | t :: traks =>
    let! t := update_trak start t in
    match t with
    | None => Ret None
    | Some t =>
      let! rest := update_traks start (wrapU 64 (moov_size + size t))
                     (if least >? start_offset t then start_offset t else least) traks in
      match rest with
      | None => Ret None
      | Some (moov_size, least, traks) => Ret (Some (moov_size, least, t :: traks))
      end
    end
  end.

(** ngx_http_mp4_update_mdat_atom: the new header and what is added to
    mp4->content_length; the return value is the length of the header. *)
Definition ngx_http_mp4_update_mdat_atom (file_last start_offset : Z) : list Z * Z :=
  let atom_data_size := file_last - start_offset in
  if wrapU 64 atom_data_size >? 0xffffffff then
    (ngx_mp4_set_32value 1 ++ $"mdat" ++ ngx_mp4_set_64value (16 + atom_data_size),
     16 + atom_data_size)
  else (ngx_mp4_set_32value (8 + atom_data_size) ++ $"mdat", 8 + atom_data_size).

(** mp4->out: the bytes in memory, then the bytes [from, to) of the file. *)
Record mp4_response := MkResponse { head : list Z; from : Z; to_ : Z; length_n : Z }.

(** ngx_http_mp4_process after the atoms are read; [end_] is mp4->end. *)
Definition mp4_output (start end_ : Z) (m : ngx_http_mp4_file_t)
    : outcome (Z * option (ngx_http_mp4_file_t * mp4_response)) :=
  match trak m, mdat_last m with
  | [], _ | _, None => Ret (NGX_ERROR, None)
  | _, Some file_last =>
    let mvhd := default [] (mvhd_atom m) in
    let moov_size := wrapU 64 (moov_size m + Z.of_nat (length mvhd)) in
    let! updated := update_traks start moov_size end_ (trak m) in
    match updated with
    | None => Ret (NGX_ERROR, None)
    | Some (moov_size, start_offset, traks) =>
      let moov_size := wrapU 64 (moov_size + 8) in
      let moov_header := ngx_mp4_set_32value moov_size ++ $"moov" in
      if start_offset >? file_last then Ret (NGX_ERROR, None)
      else
        let '(mdat_header, mdat_length) := ngx_http_mp4_update_mdat_atom file_last start_offset in
        let adjustment :=
          wrapS 64 (ftyp_size m + moov_size + Z.of_nat (length mdat_header) - start_offset) in
        let traks :=
          map (fun t => match co64_data t with
                        | Some _ => ngx_http_mp4_adjust_co64_atom adjustment t
                        | None => ngx_http_mp4_adjust_stco_atom adjustment t
                        end) traks in
        let content_length := wrapS 64 (wrapS 64 (content_length m + moov_size) + mdat_length) in
        Ret (NGX_OK, Some
          (set_trak traks (set_moov_size moov_size (set_content_length content_length m)),
           MkResponse (default [] (ftyp_atom m) ++ moov_header ++ mvhd ++ flat_map trak_out traks
                         ++ mdat_header)
             start_offset file_last content_length))
    end
  end.

(** The start is in milliseconds. *)
Definition ngx_http_mp4_process (fuel : nat) (file : list Z) (conf_buffer_size max_buffer_size start : Z)
    : outcome (Z * option (ngx_http_mp4_file_t * mp4_response)) :=
  let! (m, rc) := ngx_http_mp4_read_atom file fuel (ngx_http_mp4_atoms file max_buffer_size start fuel)
                    (mp4_start conf_buffer_size) (mp4_end file) in
  if rc =? NGX_OK then mp4_output start (mp4_end file) m else Ret (rc, None).

End Mp4.
