(* ===== verification/NgxMp4Seek.v ===== *)
(** What the tables of an MP4 track mean, and that cropping them at a start
    time leaves exactly the samples from that time on, at their places in the
    response. *)

From Stdlib Require Import Sorting.Sorted.
From S2P Require Import Prelude NgxMp4.
Import Mp4.

(** * The samples a track describes *)

Definition expand_stts (es : list ngx_mp4_stts_entry_t) : list Z :=
  flat_map (fun e => replicate (Z.to_nat (stts_count e)) (stts_duration e)) es.

Definition expand_ctts (es : list ngx_mp4_ctts_entry_t) : list Z :=
  flat_map (fun e => replicate (Z.to_nat (ctts_count e)) (ctts_offset e)) es.

(** The number of samples of each chunk: an entry stands for the chunks up to
    the first one of the next entry, the last entry for the rest of them. *)
Definition next_chunk (K : Z) (rest : list ngx_mp4_stsc_entry_t) : Z :=
  match rest with e :: _ => stsc_chunk e | [] => K + 1 end.

Fixpoint samples_per_chunk (K : Z) (es : list ngx_mp4_stsc_entry_t) : list nat :=
  match es with
  | [] => []
  | e :: rest =>
    replicate (Z.to_nat (next_chunk K rest - stsc_chunk e)) (Z.to_nat (stsc_samples e))
      ++ samples_per_chunk K rest
  end.

(** Samples of these sizes one after the other. *)
Fixpoint consecutive (offset : Z) (sizes : list Z) : list (Z * Z) :=
  match sizes with
  | [] => []
  | z :: sizes => (offset, z) :: consecutive (offset + z) sizes
  end.

(** Offset and size of every sample, chunk by chunk. *)
Fixpoint places (offsets : list Z) (spc : list nat) (sizes : list Z) : list (Z * Z) :=
  match offsets, spc with
  | o :: offsets, n :: spc => consecutive o (take n sizes) ++ places offsets spc (drop n sizes)
  | _, _ => []
  end.

Definition total (l : list Z) : Z := foldr Z.add 0 l.

(** * Lists *)

Lemma ztotal_app l k : total (l ++ k) = total l + total k.
Proof. induction l as [|x l IH]; cbn [app total foldr]; [done|]. fold (total (l ++ k)) (total l). lia. Qed.

Lemma total_replicate n z : total (replicate n z) = Z.of_nat n * z.
Proof. induction n as [|n IH]; cbn [replicate total foldr]; [done|]. fold (total (replicate n z)). lia. Qed.

Lemma ztotal_nonneg l : Forall (fun z => 0 <= z) l -> 0 <= total l.
Proof. induction 1; cbn [total foldr]; [done|]. fold (total l). lia. Qed.

Lemma drop_replicate_app {A} k n (x : A) l :
  (k <= n)%nat -> drop k (replicate n x ++ l) = replicate (n - k) x ++ l.
Proof.
  intros Hk. rewrite drop_app, drop_replicate, length_replicate.
  replace (k - n)%nat with O by lia. done.
Qed.

Lemma take_replicate_app {A} k n (x : A) l :
  (k <= n)%nat -> take k (replicate n x ++ l) = replicate k x.
Proof.
  intros Hk. rewrite take_app, take_replicate, length_replicate, Nat.min_l by lia.
  replace (k - n)%nat with O by lia. by rewrite take_0, app_nil_r.
Qed.

Lemma sum_list_app (l k : list nat) : sum_list (l ++ k) = (sum_list l + sum_list k)%nat.
Proof. apply sum_list_with_app. Qed.

Lemma sum_list_take_le k l : (sum_list (take k l) <= sum_list l)%nat.
Proof. rewrite <- (take_drop k l) at 2. rewrite sum_list_app. lia. Qed.

Lemma fold_left_total n l :
  0 <= n -> Forall (fun z => 0 <= z) l -> n + total l < 2 ^ 64 ->
  fold_left (fun n s => wrapU 64 (n + s)) l n = n + total l.
Proof.
  intros Hn Hl. revert n Hn. induction Hl as [|z l Hz Hl IH]; intros n Hn Hb; cbn [fold_left total foldr] in *; [lia|].
  fold (total l) in *. pose proof (ztotal_nonneg l Hl). rewrite wrapU_small, IH by lia. lia.
Qed.

(** * Time to sample *)

Definition stts_entry_ok (e : ngx_mp4_stts_entry_t) : bool :=
  (0 <=? stts_count e) && (0 <=? stts_duration e)
  && (stts_count e <? 2 ^ 32) && (stts_count e * stts_duration e <? 2 ^ 32).

Lemma total_stts_cons e es :
  0 <= stts_count e ->
  total (expand_stts (e :: es)) = stts_count e * stts_duration e + total (expand_stts es).
Proof.
  intros H. unfold expand_stts. cbn [flat_map].
  rewrite ztotal_app, total_replicate, Z2Nat.id by lia. done.
Qed.

(** The entry found holds the sample shown at the start time. *)
Lemma stts_loop_spec es entries time sample :
  forallb stts_entry_ok es = true -> 0 <= time < 2 ^ 64 -> 0 <= sample ->
  sample + Z.of_nat (length (expand_stts es)) < 2 ^ 64 ->
  Z.of_nat (length es) <= entries < 2 ^ 32 -> time < total (expand_stts es) ->
  exists k es',
    stts_loop entries time sample es =
      Some (entries - Z.of_nat (length es - length es'), sample + Z.of_nat k, es') /\
    (length es' <= length es)%nat /\
    expand_stts es' = drop k (expand_stts es) /\ (k < length (expand_stts es))%nat /\
    total (take k (expand_stts es)) <= time < total (take (S k) (expand_stts es)).
Proof.
  revert entries time sample. induction es as [|e es IH]; intros entries time sample Hok Ht Hs Hn He Htot.
  { cbn in Htot. lia. }
  cbn [forallb] in Hok. apply andb_true_iff in Hok as [Hok1 Hok]. unfold stts_entry_ok in Hok1.
  boolify. rewrite total_stts_cons in Htot by done.
  set (c := stts_count e) in *. set (d := stts_duration e) in *.
  assert (expand_stts (e :: es) = replicate (Z.to_nat c) d ++ expand_stts es) as Hex by done.
  rewrite Hex in *. rewrite length_app, length_replicate in Hn.
  cbn [stts_loop length] in *. fold c d. rewrite (wrapU_small 64 (c * d)) by nia.
  destruct (Z.ltb_spec time (c * d)) as [Hlt|Hge].
  - assert (0 < d) by nia.
    assert (0 <= time / d < c) as Hq.
    { split; [apply Z.div_pos; lia|]. apply Z.div_lt_upper_bound; nia. }
    pose proof (Z.div_mod time d ltac:(lia)). pose proof (Z.mod_pos_bound time d ltac:(lia)).
    exists (Z.to_nat (time / d)), (MkStts (c - time / d) d :: es).
    rewrite (wrapU_small 32 (time / d)), (wrapU_small 32 (c - time / d)), (wrapU_small 64) by lia.
    split_and!.
    + do 3 f_equal. cbn [length]. lia.
      lia.
    + done.
    + rewrite drop_replicate_app by lia. unfold expand_stts. cbn [flat_map stts_count stts_duration].
      do 2 f_equal. lia.
    + rewrite length_app, length_replicate. lia.
    + rewrite take_replicate_app, total_replicate by lia. nia.
    + rewrite take_replicate_app, total_replicate by lia. nia.
  - rewrite (wrapU_small 32 (c * d)), (wrapU_small 32 (entries - 1)), (wrapU_small 64 (time - c * d)),
      (wrapU_small 64 (sample + c)) by nia.
    destruct (IH (entries - 1) (time - c * d) (sample + c)) as (k & es' & -> & Hl & Hx & Hk & Hw1 & Hw2);
      try done; try lia.
    exists (Z.to_nat c + k)%nat, es'. split_and!.
    + do 3 f_equal; [lia|]. lia.
    + lia.
    + rewrite Hx, drop_app, length_replicate, drop_replicate.
      replace (Z.to_nat c - (Z.to_nat c + k))%nat with O by lia.
      replace (Z.to_nat c + k - Z.to_nat c)%nat with k by lia. done.
    + rewrite length_app, length_replicate. lia.
    + rewrite take_app, length_replicate, take_replicate, Nat.min_r by lia.
      replace (Z.to_nat c + k - Z.to_nat c)%nat with k by lia.
      rewrite ztotal_app, total_replicate. lia.
    + rewrite take_app, length_replicate, take_replicate, Nat.min_r by lia.
      replace (S (Z.to_nat c + k) - Z.to_nat c)%nat with (S k) by lia.
      rewrite ztotal_app, total_replicate. lia.
Qed.

(** * Sync samples and composition offsets *)

(** The samples of a sorted table that come after sample [k] (from 0). *)
Definition later (k : Z) (l : list Z) : list Z := List.filter (fun s => k <? s) l.

Lemma stss_loop_spec l entries k :
  StronglySorted Z.le l -> Exists (fun s => k < s) l -> 0 <= k -> k + 1 < 2 ^ 32 ->
  Z.of_nat (length l) <= entries < 2 ^ 32 ->
  exists l', stss_loop entries (k + 1) l = Some (entries - Z.of_nat (length l - length l'), l') /\
    l' = later k l /\ (length l' <= length l)%nat.
Proof.
  intros Hsort. revert entries. induction Hsort as [|s l Hsort IH Hall]; intros entries Hex Hk Hk2 He.
  { inversion Hex. }
  cbn [stss_loop length] in *. unfold later. cbn [List.filter].
  destruct (Z.geb_spec s (k + 1)) as [Hge|Hlt].
  - exists (s :: l). rewrite (proj2 (Z.ltb_lt k s)) by lia.
    assert (List.filter (fun s => k <? s) l = l) as ->.
    { clear -Hall Hge. induction Hall as [|x l Hx Hall IH]; cbn; [done|].
      rewrite (proj2 (Z.ltb_lt k x)), IH by lia. done. }
    split_and!; [do 2 f_equal; cbn [length]; lia|done|done].
  - rewrite (proj2 (Z.ltb_ge k s)) by lia. rewrite wrapU_small by lia.
    destruct (IH (entries - 1)) as (l' & -> & -> & Hl); try done.
    { inversion Hex as [? ? Hx|]; subst; [lia|done]. }
    { lia. }
    exists (later k l). split_and!; [do 2 f_equal; lia|done|cbn [length]; lia].
Qed.

Definition ctts_entry_ok (e : ngx_mp4_ctts_entry_t) : bool :=
  (0 <=? ctts_count e) && (ctts_count e <? 2 ^ 32).

Lemma ctts_loop_spec es entries k :
  forallb ctts_entry_ok es = true -> 0 <= k -> k + 1 < 2 ^ 32 ->
  Z.of_nat (length es) <= entries < 2 ^ 32 ->
  match ctts_loop entries (k + 1) es with
  | Some (entries', es') =>
    entries' = entries - Z.of_nat (length es - length es') /\ (length es' <= length es)%nat /\
    expand_ctts es' = drop (Z.to_nat k) (expand_ctts es)
  | None => drop (Z.to_nat k) (expand_ctts es) = []
  end.
Proof.
  revert entries k. induction es as [|e es IH]; intros entries k Hok Hk Hk2 He; cbn [ctts_loop].
  { apply drop_nil. }
  cbn [forallb length] in *. apply andb_true_iff in Hok as [H1 Hok]. unfold ctts_entry_ok in H1. boolify.
  set (c := ctts_count e) in *.
  assert (expand_ctts (e :: es) = replicate (Z.to_nat c) (ctts_offset e) ++ expand_ctts es) as -> by done.
  destruct (Z.leb_spec (k + 1) c).
  - rewrite wrapU_small by lia. split_and!; [cbn [length]; lia|done|].
    rewrite drop_replicate_app by lia. unfold expand_ctts. cbn [flat_map ctts_count ctts_offset].
    do 2 f_equal. lia.
  - rewrite !wrapU_small by lia. specialize (IH (entries - 1) (k - c)).
    replace (k + 1 - c) with (k - c + 1) by lia.
    assert (drop (Z.to_nat k) (replicate (Z.to_nat c) (ctts_offset e) ++ expand_ctts es) =
            drop (Z.to_nat (k - c)) (expand_ctts es)) as ->.
    { rewrite drop_app, drop_replicate, length_replicate.
      replace (Z.to_nat c - Z.to_nat k)%nat with O by lia.
      replace (Z.to_nat k - Z.to_nat c)%nat with (Z.to_nat (k - c)) by lia. done. }
    destruct (ctts_loop (entries - 1) (k - c + 1) es) as [[entries' es']|];
      [destruct IH as (-> & Hl & Hx); try done; try lia; split_and!; [lia|lia|done]|apply IH; done || lia].
Qed.

(** * Sample to chunk *)

(** Chunk numbers increase and stay within the [K] chunks; no entry has chunks
    without samples. *)
Fixpoint stsc_ok (K : Z) (es : list ngx_mp4_stsc_entry_t) : bool :=
  match es with
  | [] => true
  | e :: rest =>
    (1 <=? stsc_chunk e) && (0 <? stsc_samples e) && (stsc_samples e <? 2 ^ 32)
    && (match rest with e' :: _ => stsc_chunk e <? stsc_chunk e' | [] => stsc_chunk e <=? K end)
    && stsc_ok K rest
  end.

Lemma stsc_ok_tail K e rest : stsc_ok K (e :: rest) = true -> stsc_ok K rest = true.
Proof. cbn [stsc_ok]. intros H. by apply andb_true_iff in H as [_ H]. Qed.

Lemma stsc_ok_head K e rest :
  stsc_ok K (e :: rest) = true ->
  1 <= stsc_chunk e < next_chunk K rest /\ 0 < stsc_samples e < 2 ^ 32.
Proof. cbn [stsc_ok]. intros H. destruct rest; boolify; cbn [next_chunk]; lia. Qed.

Lemma stsc_ok_le K e rest :
  stsc_ok K (e :: rest) = true -> stsc_chunk e < next_chunk K rest <= K + 1.
Proof.
  revert e. induction rest as [|e' rest IH]; intros e H; pose proof (stsc_ok_head _ _ _ H);
    cbn [next_chunk] in *; [lia|]. specialize (IH e' (stsc_ok_tail _ _ _ H)). lia.
Qed.

Lemma length_samples_per_chunk K e rest :
  stsc_ok K (e :: rest) = true ->
  Z.of_nat (length (samples_per_chunk K (e :: rest))) = K + 1 - stsc_chunk e.
Proof.
  revert e. induction rest as [|e' rest IH]; intros e H; pose proof (stsc_ok_le _ _ _ H) as Hle;
    cbn [samples_per_chunk next_chunk] in *; rewrite length_app, length_replicate.
  - cbn [length]. lia.
  - specialize (IH e' (stsc_ok_tail _ _ _ H)). cbn [samples_per_chunk] in IH.
    rewrite Nat2Z.inj_add, IH. lia.
Qed.

(** The entry the search stops at: what lies before it is [skipped]. *)
Lemma stsc_loop_spec K sample entries cur rest :
  stsc_ok K (cur :: rest) = true -> 0 <= sample -> K < 2 ^ 32 ->
  Z.of_nat (sum_list (samples_per_chunk K (cur :: rest))) < 2 ^ 32 ->
  sample <= Z.of_nat (sum_list (take (Z.to_nat (K - stsc_chunk cur)) (samples_per_chunk K (cur :: rest)))) ->
  Z.of_nat (length rest) <= entries < 2 ^ 32 ->
  exists f skipped,
    stsc_loop K sample entries cur rest = Some f /\
    samples_per_chunk K (cur :: rest) = skipped ++ samples_per_chunk K (f_entry f :: f_rest f) /\
    Z.of_nat (length skipped) = stsc_chunk (f_entry f) - stsc_chunk cur /\
    sample = Z.of_nat (sum_list skipped) + f_sample f /\ 0 <= f_sample f /\
    f_sample f <= (f_next_chunk f - stsc_chunk (f_entry f)) * stsc_samples (f_entry f) /\
    f_next_chunk f = (match f_rest f with e :: _ => stsc_chunk e | [] => K end) /\
    stsc_ok K (f_entry f :: f_rest f) = true /\
    f_entries f = entries - Z.of_nat (length rest - length (f_rest f)) /\
    (length (f_rest f) <= length rest)%nat.
Proof.
  revert sample entries cur. induction rest as [|e rest IH]; intros sample entries cur Hok Hs HK Hsum Hle He;
    pose proof (stsc_ok_le _ _ _ Hok) as Hc; pose proof (stsc_ok_head _ _ _ Hok) as Hh;
    set (s := stsc_samples cur) in *; set (c := stsc_chunk cur) in *; cbn [next_chunk] in *.
  - cbn [samples_per_chunk next_chunk stsc_loop length] in *. fold c s in Hsum, Hle |- *.
    rewrite app_nil_r in Hsum, Hle. rewrite take_replicate, Nat.min_l, sum_list_replicate in Hle by lia.
    rewrite sum_list_replicate in Hsum.
    rewrite (wrapU_small 32 (K - c)), (wrapU_small 32) by nia.
    destruct (Z.gtb_spec sample ((K - c) * s)); [nia|].
    exists (MkFound sample entries cur K []), []. cbn [f_entry f_rest f_sample f_next_chunk f_entries].
    split_and!; try done; cbn [length sum_list sum_list_with]; lia.
  - cbn [stsc_loop length] in *. fold c s.
    assert (samples_per_chunk K (cur :: e :: rest) =
      replicate (Z.to_nat (stsc_chunk e - c)) (Z.to_nat s) ++ samples_per_chunk K (e :: rest)) as Hspc by done.
    rewrite Hspc in *. pose proof (sum_list_take_le (Z.to_nat (K - c))
      (replicate (Z.to_nat (stsc_chunk e - c)) (Z.to_nat s) ++ samples_per_chunk K (e :: rest))) as Hle'.
    rewrite sum_list_app in Hsum, Hle'.
    rewrite sum_list_replicate in Hsum, Hle'.
    set (n := (stsc_chunk e - c) * s) in *.
    assert (Z.of_nat (Z.to_nat (stsc_chunk e - c) * Z.to_nat s) = n) as Hn by nia.
    rewrite (wrapU_small 32 (stsc_chunk e - c)), (wrapU_small 32 ((stsc_chunk e - c) * s)) by nia.
    fold n. destruct (Z.leb_spec sample n).
    + exists (MkFound sample entries cur (stsc_chunk e) (e :: rest)), [].
      cbn [f_entry f_rest f_sample f_next_chunk f_entries].
      split_and!; try done; cbn [length sum_list sum_list_with]; lia.
    + pose proof (stsc_ok_tail _ _ _ Hok) as Hok'. pose proof (stsc_ok_le _ _ _ Hok') as Hce.
      rewrite (wrapU_small 32), (wrapU_small 32) by lia.
      destruct (IH (sample - n) (entries - 1) e) as
        (f & skipped & -> & Hx & Hl & Hsm & H0 & Hb & Hnx & Hokf & Hent & Hlen); try done; try lia.
      { rewrite take_app, length_replicate, take_replicate, Nat.min_r, sum_list_app, sum_list_replicate in Hle by lia.
        replace (Z.to_nat (K - c) - Z.to_nat (stsc_chunk e - c))%nat with (Z.to_nat (K - stsc_chunk e)) in Hle by lia.
        lia. }
      exists f, (replicate (Z.to_nat (stsc_chunk e - c)) (Z.to_nat s) ++ skipped).
      rewrite Hx, <- app_assoc, length_app, length_replicate, sum_list_app, sum_list_replicate.
      split_and!; try done; lia.
Qed.

(** Renumbering the chunks of a table. *)
Lemma samples_per_chunk_shift K d es :
  forallb (fun e => (0 <=? stsc_chunk e - d) && (stsc_chunk e - d <? 2 ^ 32)) es = true ->
  samples_per_chunk (K - d)
    (map (fun e => MkStsc (wrapU 32 (stsc_chunk e - d)) (stsc_samples e) (stsc_id e)) es) =
  samples_per_chunk K es.
Proof.
  induction es as [|e es IH]; [done|]. cbn [forallb]. intros [He Hes]%andb_true_iff. boolify.
  cbn [map samples_per_chunk]. rewrite IH by done. f_equal. f_equal. cbn [stsc_chunk].
  rewrite wrapU_small by lia. destruct es as [|e' es]; cbn [map next_chunk]; [lia|].
  cbn [forallb stsc_chunk] in *. boolify. rewrite wrapU_small by lia. lia.
Qed.

Lemma stsc_ok_chunks K e rest :
  stsc_ok K (e :: rest) = true ->
  Forall (fun e' => stsc_chunk e < stsc_chunk e' <= K) rest.
Proof.
  revert e. induction rest as [|e' rest IH]; intros e H; [done|].
  pose proof (stsc_ok_tail _ _ _ H) as H'. pose proof (stsc_ok_le _ _ _ H) as Hle.
  pose proof (stsc_ok_le _ _ _ H') as Hle'. cbn [next_chunk] in *.
  constructor; [lia|]. eapply Forall_impl; [by apply IH|]. cbn. lia.
Qed.

(** The table after the label found: the rest of the chunk the start sample is
    in, then the other chunks.  In the last entry, where next_chunk is one too
    small, the last but one chunk is only right when it is not split. *)
Lemma stsc_crop_spec K f q cs :
  stsc_ok K (f_entry f :: f_rest f) = true -> K < 2 ^ 32 ->
  f_sample f = q * stsc_samples (f_entry f) + cs -> 0 <= q -> 0 <= cs < stsc_samples (f_entry f) ->
  f_sample f <= (f_next_chunk f - stsc_chunk (f_entry f)) * stsc_samples (f_entry f) ->
  f_next_chunk f = (match f_rest f with e :: _ => stsc_chunk e | [] => K end) ->
  Z.of_nat (length (f_rest f)) <= f_entries f < 2 ^ 32 - 2 ->
  let start_chunk := stsc_chunk (f_entry f) - 1 + q in
  (f_rest f = [] -> cs <> 0 -> K - start_chunk <> 2) ->
  let '(entries, extra, data) := stsc_crop f cs start_chunk in
  let spc := samples_per_chunk K (f_entry f :: f_rest f) in
  samples_per_chunk (K - start_chunk) (option_list extra ++ data) =
    (if cs =? 0 then drop (Z.to_nat q) spc
     else Z.to_nat (stsc_samples (f_entry f) - cs) :: drop (S (Z.to_nat q)) spc) /\
  entries = f_entries f + 1 + (match extra with Some _ => 1 | None => 0 end) /\
  length data = S (length (f_rest f)).
Proof.
  intros Hok HK Hfs Hq Hcs Hle Hnext Hent. cbv zeta. intros Hlast.
  pose proof (stsc_ok_head _ _ _ Hok) as Hh. pose proof (stsc_ok_le _ _ _ Hok) as Hnc.
  pose proof (stsc_ok_chunks _ _ _ Hok) as Hch.
  destruct f as [fs ents [c s id] nx rest]. cbn [f_sample f_entries f_entry f_next_chunk f_rest
    stsc_samples stsc_chunk] in *.
  set (sc := c - 1 + q) in *.
  assert (q <= nx - c) as Hq1 by nia.
  assert (cs <> 0 -> q < nx - c) as Hq2 by nia.
  assert (nx <= next_chunk K rest) as Hnn by (destruct rest; cbn [next_chunk] in *; lia).
  assert (samples_per_chunk (K - sc) (map (fun e => MkStsc (wrapU 32 (stsc_chunk e - sc)) (stsc_samples e) (stsc_id e)) rest)
          = samples_per_chunk K rest) as Hshift.
  { apply samples_per_chunk_shift. apply forallb_forall. intros e He.
    destruct rest as [|e1 rest]; [done|]. cbn [next_chunk] in *.
    assert (nx <= stsc_chunk e <= K).
    { destruct He as [<-|He]; [rewrite Hnext; rewrite Forall_cons in Hch; lia|].
      pose proof (stsc_ok_chunks _ _ _ (stsc_ok_tail _ _ _ Hok)) as Hch'.
      rewrite Forall_forall in Hch'. specialize (Hch' e). rewrite list_elem_of_In in Hch'. specialize (Hch' He). lia. }
    apply andb_true_iff. rewrite Z.leb_le, Z.ltb_lt. lia. }
  assert (forall d, 0 <= d -> d = next_chunk K rest - c - q ->
    next_chunk (K - sc) (map (fun e => MkStsc (wrapU 32 (stsc_chunk e - sc)) (stsc_samples e) (stsc_id e)) rest) = d + 1) as Hnx.
  { intros d Hd ->. destruct rest as [|e1 rest]; cbn [map next_chunk stsc_chunk] in *; [lia|].
    rewrite Forall_cons in Hch. rewrite wrapU_small by lia. lia. }
  unfold stsc_crop. cbn [f_sample f_entries f_entry f_next_chunk f_rest].
  rewrite (wrapU_small 64), !(wrapU_small 32 (ents + 1)) by lia.
  destruct (Z.eqb_spec cs 0) as [->|Hcs0]; cbn [negb andb].
  - cbn [option_list option_rect app samples_per_chunk stsc_chunk stsc_samples length]. rewrite length_map.
    split_and!; [|lia|done].
    rewrite (Hnx (next_chunk K rest - c - q)) by lia. rewrite drop_replicate_app by lia.
    f_equal; [f_equal; lia|done].
  - specialize (Hq2 Hcs0). destruct (Z.eqb_spec (nx - sc) 2) as [H2|H2].
    + cbn [option_list option_rect app samples_per_chunk stsc_chunk stsc_samples length]. rewrite length_map.
      split_and!; [|lia|done]. rewrite (wrapU_small 32) by lia.
      assert (next_chunk K rest = nx) as Hnn' by (destruct rest; [exfalso; subst nx; by apply Hlast|done]).
      rewrite (Hnx (next_chunk K rest - c - q)), drop_replicate_app, Hshift by lia.
      replace (Z.to_nat (next_chunk K rest - c - q + 1 - 1)) with 1%nat by lia.
      replace (Z.to_nat (next_chunk K rest - c) - S (Z.to_nat q))%nat with O by lia. done.
    + cbn [option_list option_rect app samples_per_chunk stsc_chunk stsc_samples length next_chunk]. rewrite length_map.
      rewrite !(wrapU_small 32) by lia. split_and!; [|lia|done].
      rewrite (Hnx (next_chunk K rest - c - q)), drop_replicate_app, Hshift by lia.
      cbn [replicate app]. do 3 f_equal. lia.
Qed.

(** No chunk is empty. *)
Lemma samples_positive K es : stsc_ok K es = true -> Forall (fun n => (0 < n)%nat) (samples_per_chunk K es).
Proof.
  induction es as [|e rest IH]; intros H; [constructor|]. cbn [samples_per_chunk].
  pose proof (stsc_ok_head _ _ _ H). apply Forall_app. split; [|apply IH, (stsc_ok_tail _ _ _ H)].
  apply Forall_replicate. lia.
Qed.

(** The counts from the chunk [q] of an entry on, less [cs] samples. *)
Lemma crop_head K e rest q cs :
  stsc_ok K (e :: rest) = true -> q <= K - stsc_chunk e -> 0 <= q -> 0 <= cs < stsc_samples e ->
  (cs <> 0 -> q < next_chunk K rest - stsc_chunk e) ->
  let R := samples_per_chunk K (e :: rest) in
  exists n spc, drop (Z.to_nat q) R = n :: spc /\ cs < Z.of_nat n /\
    (n - Z.to_nat cs)%nat :: spc =
      (if cs =? 0 then drop (Z.to_nat q) R
       else Z.to_nat (stsc_samples e - cs) :: drop (S (Z.to_nat q)) R).
Proof.
  intros Hok Hq Hq0 Hcs Hlt. cbv zeta. pose proof (length_samples_per_chunk _ _ _ Hok) as Hlen.
  destruct (Z.eqb_spec cs 0) as [->|Hnz].
  - pose proof (samples_positive _ _ Hok) as Hpos.
    rewrite <- (take_drop (Z.to_nat q)), Forall_app in Hpos. destruct Hpos as [_ Hpos].
    destruct (drop (Z.to_nat q) _) as [|n spc] eqn:Hdr.
    { apply (f_equal length) in Hdr. rewrite length_drop in Hdr. cbn [length] in Hdr. lia. }
    rewrite Forall_cons in Hpos. exists n, spc. rewrite Nat.sub_0_r. split_and!; [done|lia|done].
  - specialize (Hlt Hnz). cbn [samples_per_chunk].
    exists (Z.to_nat (stsc_samples e)), (drop (S (Z.to_nat q)) (samples_per_chunk K (e :: rest))).
    cbn [samples_per_chunk]. split_and!; [|lia|f_equal; lia].
    rewrite !drop_replicate_app by lia.
    replace (Z.to_nat (next_chunk K rest - stsc_chunk e) - Z.to_nat q)%nat with
      (S (Z.to_nat (next_chunk K rest - stsc_chunk e) - S (Z.to_nat q))) by lia. done.
Qed.

(** * Places *)

Lemma length_consecutive o l : length (consecutive o l) = length l.
Proof. revert o. induction l; intros o; cbn [consecutive length]; auto. Qed.

Lemma drop_consecutive n o l :
  drop n (consecutive o l) = consecutive (o + total (take n l)) (drop n l).
Proof.
  revert o n. induction l as [|z l IH]; intros o [|n]; cbn [consecutive drop take total foldr]; try done.
  - by rewrite Z.add_0_r.
  - rewrite IH. f_equal. fold (total (take n l)). lia.
Qed.

(** Whole chunks left out. *)
Lemma places_skip A B offs sizes :
  (length A <= length offs)%nat -> (sum_list A <= length sizes)%nat ->
  drop (sum_list A) (places offs (A ++ B) sizes) =
    places (drop (length A) offs) B (drop (sum_list A) sizes).
Proof.
  revert offs sizes. induction A as [|n A IH]; intros offs sizes Ho Hs; [done|].
  destruct offs as [|o offs]; [cbn in Ho; lia|].
  cbn [app places length drop]. change (sum_list (n :: A)) with (n + sum_list A)%nat in *.
  cbn [length] in Ho. rewrite drop_app, length_consecutive, length_take, Nat.min_l by lia.
  rewrite drop_ge by (rewrite length_consecutive, length_take; lia). cbn [app].
  replace (n + sum_list A - n)%nat with (sum_list A) by lia.
  rewrite IH by (rewrite ?length_drop; lia). by rewrite drop_drop.
Qed.

(** The first samples of the first chunk left out. *)
Lemma places_split o offs n spc sizes cs :
  (cs <= n)%nat -> (n <= length sizes)%nat ->
  drop cs (places (o :: offs) (n :: spc) sizes) =
    places (o + total (take cs sizes) :: offs) ((n - cs)%nat :: spc) (drop cs sizes).
Proof.
  intros Hcs Hn. cbn [places].
  rewrite drop_app, length_consecutive, length_take, Nat.min_l by lia.
  replace (cs - n)%nat with O by lia. rewrite drop_0, drop_consecutive, drop_drop.
  rewrite take_take, Nat.min_l by lia.
  rewrite skipn_firstn_comm. by replace (cs + (n - cs))%nat with n by lia.
Qed.

(** Both: what is left of the places from sample [k] on. *)
Lemma places_crop offs spc sizes sc cs n spc' o offs' :
  (length spc <= length offs)%nat -> (sum_list spc <= length sizes)%nat ->
  (sc <= length spc)%nat -> drop sc spc = n :: spc' -> drop sc offs = o :: offs' -> (cs <= n)%nat ->
  let k := (sum_list (take sc spc) + cs)%nat in
  drop k (places offs spc sizes) =
    places (o + total (take cs (drop (sum_list (take sc spc)) sizes)) :: offs')
      ((n - cs)%nat :: spc') (drop k sizes).
Proof.
  intros Ho Hs Hsc Hspc Hoffs Hcs. cbv zeta.
  rewrite <- drop_drop.
  rewrite <- (take_drop sc spc) at 2. pose proof (sum_list_take_le sc spc).
  rewrite places_skip by (rewrite ?length_take; lia).
  rewrite length_take, Nat.min_l, Hspc, Hoffs by lia.
  rewrite places_split; [by rewrite drop_drop|done|].
  rewrite length_drop. rewrite <- (take_drop sc spc), sum_list_app, Hspc in Hs.
  change (sum_list (n :: spc')) with (n + sum_list spc')%nat in Hs. lia.
Qed.

(** * The sample shown at a time *)

Fixpoint sample_at (durations : list Z) (time : Z) : nat :=
  match durations with
  | [] => O
  | d :: ds => if time <? d then O else S (sample_at ds (time - d))
  end.

Lemma sample_at_unique ds time k :
  Forall (fun d => 0 <= d) ds ->
  total (take k ds) <= time < total (take (S k) ds) -> sample_at ds time = k.
Proof.
  intros Hds. revert time k. induction Hds as [|d ds Hd Hds IH]; intros time k Hk.
  { rewrite !take_nil in Hk. cbn in Hk. lia. }
  cbn [sample_at]. destruct k as [|k].
  - change (take 1 (d :: ds)) with (d :: take 0 ds) in Hk. rewrite !take_0 in Hk. cbn in Hk.
    by rewrite (proj2 (Z.ltb_lt _ _)) by lia.
  - change (total (take (S k) (d :: ds))) with (d + total (take k ds)) in Hk.
    change (total (take (S (S k)) (d :: ds))) with (d + total (take (S k) ds)) in Hk.
    assert (0 <= total (take k ds)) by (apply ztotal_nonneg; by apply Forall_take).
    rewrite (proj2 (Z.ltb_ge _ _)) by lia. f_equal. apply IH. lia.
Qed.

(** * A whole track *)

Definition chunk_offsets (t : ngx_http_mp4_trak_t) : list Z :=
  default (default [] (stco_data t)) (co64_data t).

Definition stsc_table (t : ngx_http_mp4_trak_t) : list ngx_mp4_stsc_entry_t :=
  option_list (stsc_first t) ++ default [] (stsc_data t).

Definition chunk_counts (t : ngx_http_mp4_trak_t) : list nat :=
  samples_per_chunk (Z.of_nat (length (chunk_offsets t))) (stsc_table t).

Definition sample_places (t : ngx_http_mp4_trak_t) : list (Z * Z) :=
  places (chunk_offsets t) (chunk_counts t) (default [] (stsz_data t)).

Definition durations (t : ngx_http_mp4_trak_t) : list Z := expand_stts (default [] (stts_data t)).

Definition composition_offsets (t : ngx_http_mp4_trak_t) : list Z :=
  expand_ctts (default [] (ctts_data t)).

(** A track whose tables agree: the same number of samples everywhere, the
    number of entries of each table in its header, and numbers that fit. *)
Record consistent (t : ngx_http_mp4_trak_t) : Prop := Consistent {
  c_stts : exists stts, stts_data t = Some stts /\ forallb stts_entry_ok stts = true /\
    time_to_sample_entries t = Z.of_nat (length stts) /\ Z.of_nat (length stts) < 2 ^ 32;
  c_stss : match stss_data t with
    | Some l => StronglySorted Z.le l /\ Forall (fun s => s < 2 ^ 32) l /\
        sync_samples_entries t = Z.of_nat (length l) /\ Z.of_nat (length l) < 2 ^ 32
    | None => True end;
  c_ctts : match ctts_data t with
    | Some l => forallb ctts_entry_ok l = true /\
        composition_offset_entries t = Z.of_nat (length l) /\ Z.of_nat (length l) < 2 ^ 32
    | None => True end;
  c_stsc : exists e rest, stsc_data t = Some (e :: rest) /\ stsc_first t = None /\ stsc_chunk e = 1 /\
    stsc_ok (chunks t) (e :: rest) = true /\
    sample_to_chunk_entries t = Z.of_nat (S (length rest)) /\ Z.of_nat (length rest) < 2 ^ 32 - 3;
  c_stsz : exists sizes, stsz_data t = Some sizes /\ Forall (fun z => 0 <= z < 2 ^ 32) sizes /\
    sample_sizes_entries t = Z.of_nat (length sizes) /\ Z.of_nat (length sizes) < 2 ^ 32 - 1 /\
    length sizes = length (durations t) /\ length sizes = sum_list (chunk_counts t) /\
    Forall (fun o => 0 <= o /\ o + total sizes < match co64_data t with Some _ => 2 ^ 63 | None => 2 ^ 32 end) (chunk_offsets t);
  c_offsets : co64_data t <> None \/ stco_data t <> None;
  c_chunks : chunks t = Z.of_nat (length (chunk_offsets t)) /\ chunks t < 2 ^ 32;
  c_skipped : chunk_samples_size t = 0 }.

(** The table of the chunks, for a start sample [k] before the last two. *)
Lemma update_stsc_spec t e rest k :
  stsc_data t = Some (e :: rest) -> stsc_chunk e = 1 -> stsc_ok (chunks t) (e :: rest) = true ->
  sample_to_chunk_entries t = Z.of_nat (S (length rest)) -> Z.of_nat (length rest) < 2 ^ 32 - 3 ->
  chunks t < 2 ^ 32 -> start_sample t = Z.of_nat k ->
  let spc := samples_per_chunk (chunks t) (e :: rest) in
  Z.of_nat (sum_list spc) < 2 ^ 32 ->
  (k <= sum_list (take (Z.to_nat (chunks t - 2)) spc))%nat ->
  exists entries extra data sc cs n spc',
    ngx_http_mp4_update_stsc_atom t = Ret (Some
      (set_stsc_atom (set_header 12 (16 + 12 * Z.of_nat (length data)
                        + match extra with Some _ => 12 | None => 0 end) entries (stsc_atom t))
        (set_stsc_first extra
          (set_stsc_data (Some data)
            (add_size (16 + 12 * Z.of_nat (length data) + match extra with Some _ => 12 | None => 0 end)
              (set_chunk_samples (Z.of_nat cs) (set_start_chunk (Z.of_nat sc) t))))))) /\
    (sc < length spc)%nat /\ k = (sum_list (take sc spc) + cs)%nat /\
    drop sc spc = n :: spc' /\ (cs < n)%nat /\
    samples_per_chunk (chunks t - Z.of_nat sc) (option_list extra ++ data) = (n - cs)%nat :: spc' /\
    entries = Z.of_nat (length (option_list extra ++ data)).
Proof.
  intros Hd He Hok Hent Hlen HK Hk. cbv zeta. set (K := chunks t) in *. intros Hsum Hpos.
  assert (sum_list (take (Z.to_nat (K - 2)) (samples_per_chunk K (e :: rest))) <=
          sum_list (take (Z.to_nat (K - stsc_chunk e)) (samples_per_chunk K (e :: rest))))%nat as Hmono.
  { rewrite He. replace (take (Z.to_nat (K - 2)) (samples_per_chunk K (e :: rest))) with
      (take (Z.to_nat (K - 2)) (take (Z.to_nat (K - 1)) (samples_per_chunk K (e :: rest))))
      by (rewrite take_take; f_equal; lia). apply sum_list_take_le. }
  pose proof (sum_list_take_le (Z.to_nat (K - 2)) (samples_per_chunk K (e :: rest))) as Hle2.
  destruct (stsc_loop_spec K (Z.of_nat k) (Z.of_nat (length rest)) e rest) as
    (f & skipped & Hloop & Hspc & Hls & Hsm & H0 & Hb & Hnx & Hokf & Hfe & Hlf); try done; try lia.
  pose proof (stsc_ok_head _ _ _ Hokf) as [Hc Hs].
  set (s := stsc_samples (f_entry f)) in *. set (c := stsc_chunk (f_entry f)) in *.
  set (q := f_sample f / s). set (cs := f_sample f mod s).
  assert (f_sample f = q * s + cs) as Hdm by (unfold q, cs; pose proof (Z.div_mod (f_sample f) s); lia).
  assert (0 <= cs < s) as Hcs by (apply Z.mod_pos_bound; lia).
  assert (0 <= q) as Hq by (apply Z.div_pos; lia).
  assert (q <= f_next_chunk f - c) as Hq1 by nia.
  pose proof (length_samples_per_chunk K (f_entry f) (f_rest f) Hokf) as Hlen'. fold c in Hlen'.
  assert (f_next_chunk f <= K) as HnK.
  { rewrite Hnx. destruct (f_rest f) as [|e1 r1] eqn:Hr; [lia|].
    pose proof (stsc_ok_chunks _ _ _ Hokf) as Hch. rewrite Forall_cons in Hch. lia. }
  set (R := samples_per_chunk K (f_entry f :: f_rest f)) in *.
  assert (forall j, (j <= Z.to_nat (f_next_chunk f - c))%nat ->
    take (Z.to_nat (c - 1) + j) (samples_per_chunk K (e :: rest)) = skipped ++ replicate j (Z.to_nat s)) as Htake.
  { intros j Hj. rewrite Hspc, take_app. rewrite take_ge by lia. f_equal.
    replace (Z.to_nat (c - 1) + j - length skipped)%nat with j by lia.
    unfold R. cbn [samples_per_chunk]. fold s c. apply take_replicate_app.
    destruct (f_rest f); cbn [next_chunk]; lia. }
  pose proof (stsc_crop_spec K f q cs Hokf HK Hdm Hq Hcs Hb Hnx ltac:(lia)) as Hcrop. cbv zeta in Hcrop.
  fold c R in Hcrop.
  assert (f_rest f = [] -> cs <> 0 -> K - (c - 1 + q) <> 2) as Hlast.
  { intros Hr Hcs0 HK2. specialize (Htake (Z.to_nat q) ltac:(lia)).
    replace (Z.to_nat (c - 1) + Z.to_nat q)%nat with (Z.to_nat (K - 2)) in Htake by lia.
    rewrite Htake, sum_list_app, sum_list_replicate in Hpos. nia. }
  specialize (Hcrop Hlast).
  unfold ngx_http_mp4_update_stsc_atom. rewrite Hd, Hent, Hk.
  destruct (Z.eqb_spec (Z.of_nat (S (length rest))) 0); [lia|].
  rewrite (wrapU_small 32 (Z.of_nat k)) by lia.
  replace (Z.of_nat (S (length rest)) - 1) with (Z.of_nat (length rest)) by lia.
  fold K. rewrite Hloop. fold s c. destruct (Z.eqb_spec s 0); [lia|].
  fold q cs. rewrite (wrapU_small 32 (c - 1)), (wrapU_small 64) by lia.
  destruct (stsc_crop f cs (c - 1 + q)) as [[entries extra] data]. destruct Hcrop as (Hx & Hentr & Hdl).
  destruct (crop_head K (f_entry f) (f_rest f) q cs) as (n' & spc' & Hdrop & Hn & Hres);
    [done|fold c; lia|lia|done|fold s c; destruct (f_rest f); cbn [next_chunk]; nia|].
  exists entries, extra, data, (Z.to_nat (c - 1 + q)), (Z.to_nat cs), n', spc'.
  rewrite !Z2Nat.id by lia. split_and!.
  - done.
  - rewrite Hspc, length_app. lia.
  - replace (Z.to_nat (c - 1 + q)) with (Z.to_nat (c - 1) + Z.to_nat q)%nat by lia.
    rewrite Htake, sum_list_app, sum_list_replicate by lia. nia.
  - rewrite Hspc, drop_app. rewrite drop_ge by lia. cbn [app]. rewrite <- Hdrop. f_equal. lia.
  - lia.
  - rewrite Hx; symmetry; exact Hres.
  - rewrite Hentr, length_app, Hdl. destruct extra; cbn [option_list option_rect length]; lia.
Qed.

Lemma expand_nonneg es :
  forallb stts_entry_ok es = true -> Forall (fun d => 0 <= d) (expand_stts es).
Proof.
  induction es as [|e es IH]; [constructor|]. cbn [forallb]. intros [He Hes]%andb_true_iff.
  unfold stts_entry_ok in He. boolify. unfold expand_stts. cbn [flat_map].
  apply Forall_app. split; [by apply Forall_replicate|by apply IH].
Qed.

Definition start_time (start : Z) (t : ngx_http_mp4_trak_t) : Z :=
  wrapU 64 (start * timescale t) / 1000.

(** The first sample of the response. *)
Definition first_sample (start : Z) (t : ngx_http_mp4_trak_t) : nat :=
  sample_at (durations t) (start_time start t).

Lemma start_time_range start t : 0 <= start_time start t < 2 ^ 64.
Proof.
  unfold start_time. pose proof (wrapU_range 64 (start * timescale t) ltac:(lia)).
  split; [apply Z.div_pos; lia|]. apply Z.div_lt_upper_bound; lia.
Qed.

(** A table atom and its size after an update. *)
Definition put_table (entries width : Z) (atom : option (list Z)) : option (list Z) :=
  set_header 12 (16 + width * entries) entries atom.

Lemma update_stts_spec start t stts :
  stts_data t = Some stts -> forallb stts_entry_ok stts = true ->
  time_to_sample_entries t = Z.of_nat (length stts) -> Z.of_nat (length stts) < 2 ^ 32 ->
  Z.of_nat (length (durations t)) < 2 ^ 32 -> start_time start t < total (durations t) ->
  let k := first_sample start t in
  exists es,
    ngx_http_mp4_update_stts_atom start t = Some
      (set_stts_atom (put_table (Z.of_nat (length es)) 8 (stts_atom t))
        (set_stts_data (Some es)
          (add_size (16 + 8 * Z.of_nat (length es)) (set_start_sample (Z.of_nat k) t)))) /\
    expand_stts es = drop k (durations t) /\ (k < length (durations t))%nat.
Proof.
  intros Hd Hok Hn Hlt HN Ht. cbv zeta.
  assert (durations t = expand_stts stts) as Hdur by (unfold durations; by rewrite Hd).
  rewrite Hdur in *. pose proof (start_time_range start t) as Hr.
  destruct (stts_loop_spec stts (Z.of_nat (length stts)) (start_time start t) 0) as
    (k & es & Hloop & Hl & Hx & Hk & Hw); try done; try lia.
  assert (first_sample start t = k) as ->.
  { unfold first_sample. rewrite Hdur. apply sample_at_unique; [by apply expand_nonneg|lia]. }
  exists es. split_and!; [|done|done].
  unfold ngx_http_mp4_update_stts_atom. rewrite Hd, Hn. fold (start_time start t). rewrite Hloop.
  unfold put_table, sizeof_stts_atom.
  replace (Z.of_nat (length stts) - Z.of_nat (length stts - length es)) with (Z.of_nat (length es)) by lia.
  done.
Qed.

Lemma add_size_0 t : 0 <= size t < 2 ^ 64 -> add_size 0 t = t.
Proof. intros H. unfold add_size. rewrite Z.add_0_r, wrapU_small by done. by destruct t. Qed.

Definition shift_sync (k : nat) (l : list Z) : list Z :=
  map (fun s => s - Z.of_nat k) (later (Z.of_nat k) l).

Lemma update_stss_spec t k :
  start_sample t = Z.of_nat k -> Z.of_nat k < 2 ^ 32 - 1 -> 0 <= size t < 2 ^ 64 ->
  match stss_data t with
  | Some l => StronglySorted Z.le l /\ Forall (fun s => s < 2 ^ 32) l /\
      sync_samples_entries t = Z.of_nat (length l) /\ Z.of_nat (length l) < 2 ^ 32
  | None => True end ->
  match stss_data t with Some l => Exists (fun s => Z.of_nat k < s) l | None => True end ->
  exists n,
    ngx_http_mp4_update_stss_atom t = Some
      (set_stss_atom (match stss_data t with
                      | Some l => put_table (Z.of_nat (length (shift_sync k l))) 4 (stss_atom t)
                      | None => stss_atom t end)
        (set_stss_data (shift_sync k <$> stss_data t) (add_size n t))) /\
    n = match stss_data t with Some l => 16 + 4 * Z.of_nat (length (shift_sync k l)) | None => 0 end.
Proof.
  intros Hk Hlt Hsz Hok Hex. unfold ngx_http_mp4_update_stss_atom.
  destruct (stss_data t) as [l|] eqn:Hd.
  - destruct Hok as (Hs & Hb & Hn & Hl). rewrite Hk, Hn, (wrapU_small 32 (Z.of_nat k + 1)) by lia.
    destruct (stss_loop_spec l (Z.of_nat (length l)) (Z.of_nat k)) as (l' & -> & -> & Hle); try done; try lia.
    assert (map (fun s => wrapU 32 (s - wrapU 32 (Z.of_nat k))) (later (Z.of_nat k) l) = shift_sync k l) as ->.
    { unfold shift_sync. apply map_ext_in. intros s [Hin Hlts%Z.ltb_lt]%filter_In.
      rewrite Forall_forall in Hb. apply list_elem_of_In, Hb in Hin. rewrite (wrapU_small 32 (Z.of_nat k)), wrapU_small by lia. done. }
    eexists. split; [|done]. unfold shift_sync. rewrite length_map. unfold put_table.
    replace (Z.of_nat (length l) - Z.of_nat (length l - length (later (Z.of_nat k) l)))
      with (Z.of_nat (length (later (Z.of_nat k) l))) by lia. done.
  - eexists. split; [|done]. rewrite add_size_0 by done. f_equal. destruct t; cbn [stss_data] in Hd; by subst.
Qed.

Lemma update_ctts_spec t k :
  start_sample t = Z.of_nat k -> Z.of_nat k < 2 ^ 32 - 1 -> 0 <= size t < 2 ^ 64 ->
  match ctts_data t with
  | Some l => forallb ctts_entry_ok l = true /\
      composition_offset_entries t = Z.of_nat (length l) /\ Z.of_nat (length l) < 2 ^ 32
  | None => True end ->
  exists d n,
    ngx_http_mp4_update_ctts_atom t =
      set_ctts_atom (match d with
                     | Some es => put_table (Z.of_nat (length es)) 8 (ctts_atom t)
                     | None => if ctts_data t is Some _ then None else ctts_atom t end)
        (set_ctts_data d (add_size n t)) /\
    expand_ctts (default [] d) = drop k (composition_offsets t) /\
    n = (match d with Some es => 16 + 8 * Z.of_nat (length es) | None => 0 end) /\
    (ctts_data t = None -> d = None).
Proof.
  intros Hk Hlt Hsz Hok. unfold ngx_http_mp4_update_ctts_atom, composition_offsets.
  destruct (ctts_data t) as [l|] eqn:Hd; cbn [default from_option].
  - destruct Hok as (Hok & Hn & Hl). rewrite Hk, Hn, (wrapU_small 32) by lia.
    pose proof (ctts_loop_spec l (Z.of_nat (length l)) (Z.of_nat k) Hok ltac:(lia) ltac:(lia) ltac:(lia)) as Hloop.
    rewrite Nat2Z.id in Hloop.
    destruct (ctts_loop _ _ l) as [[entries es]|].
    + destruct Hloop as (-> & Hle & Hx). exists (Some es). eexists. split_and!; [|done..].
      unfold put_table.
      by replace (Z.of_nat (length l) - Z.of_nat (length l - length es)) with (Z.of_nat (length es)) by lia.
    + exists None. eexists. split_and!; [|done..]. by rewrite add_size_0.
  - exists None. eexists. rewrite add_size_0 by done. split_and!; [|by destruct k|done..].
    rewrite <- Hd. by destruct t.
Qed.

Lemma total_bound l : Forall (fun z => 0 <= z < 2 ^ 32) l -> 0 <= total l <= Z.of_nat (length l) * 2 ^ 32.
Proof. induction 1; cbn [total foldr length]; [done|]. fold (total l). lia. Qed.

Lemma update_stsz_spec t k cs sizes :
  stsz_data t = Some sizes -> Forall (fun z => 0 <= z < 2 ^ 32) sizes ->
  sample_sizes_entries t = Z.of_nat (length sizes) -> Z.of_nat (length sizes) < 2 ^ 32 ->
  start_sample t = Z.of_nat (k + cs) -> chunk_samples t = Z.of_nat cs -> chunk_samples_size t = 0 ->
  (k + cs <= length sizes)%nat ->
  let left := drop (k + cs) sizes in
  ngx_http_mp4_update_stsz_atom t = Ret (Some
    (set_stsz_atom (set_header 16 (20 + 4 * Z.of_nat (length left)) (Z.of_nat (length left)) (stsz_atom t))
      (set_stsz_data (Some left)
        (add_size (20 + 4 * Z.of_nat (length left))
          (set_chunk_samples_size (total (take cs (drop k sizes))) t))))).
Proof.
  intros Hd Hall Hn Hlt Hs Hcs Hz Hle. cbv zeta. unfold ngx_http_mp4_update_stsz_atom.
  rewrite Hd, Hn, Hs, Hcs, Hz.
  destruct (Z.gtb_spec (Z.of_nat (k + cs)) (Z.of_nat (length sizes))); [lia|].
  destruct (Z.gtb_spec (Z.of_nat cs) (Z.of_nat (k + cs))); [lia|]. cbn [orb].
  replace (Z.to_nat (Z.of_nat (k + cs) - Z.of_nat cs)) with k by lia. rewrite !Nat2Z.id.
  assert (Forall (fun z => 0 <= z < 2 ^ 32) (take cs (drop k sizes))) as Hall'
    by (by apply Forall_take, Forall_drop).
  pose proof (total_bound _ Hall'). rewrite length_take, length_drop in *.
  rewrite fold_left_total; [|lia|eapply Forall_impl; [exact Hall'|cbn; lia]|lia].
  rewrite wrapU_small by lia.
  by replace (Z.of_nat (length sizes) - Z.of_nat (k + cs)) with (Z.of_nat (length sizes - (k + cs))) by lia.
Qed.

Lemma crop_offsets_spec width data t sc o offs :
  start_chunk t = Z.of_nat sc -> start_chunk t <= chunks t -> drop sc data = o :: offs ->
  0 <= width -> 0 <= o + chunk_samples_size t < 2 ^ 63 -> o + chunk_samples_size t < 2 ^ width ->
  crop_offsets width data t =
    Ret (Some (o + chunk_samples_size t :: offs, o + chunk_samples_size t)).
Proof.
  intros Hsc Hle Hd Hw Ho Ho2. unfold crop_offsets. rewrite Hsc in *.
  destruct (Z.gtb_spec (Z.of_nat sc) (chunks t)); [lia|]. rewrite Nat2Z.id, Hd.
  by rewrite wrapS_small, wrapU_small by lia.
Qed.
