(* ===== verification/NgxMp4Response.v ===== *)
(** The response of a seek: the tracks it describes, its length, and that the
    samples of the file from the start time on are found in it at the places
    that its tables name. *)

From stdpp Require Import sorting.
From S2P Require Import Prelude NgxMp4 NgxMp4Seek.
Import Mp4.

(** Computes the fields of a track that is given field by field. *)
Ltac trak_flat :=
  cbv beta iota delta [
    timescale time_to_sample_entries sample_to_chunk_entries sync_samples_entries
    composition_offset_entries sample_sizes_entries chunks start_sample start_chunk chunk_samples
    chunk_samples_size start_offset tkhd_size mdhd_size hdlr_size vmhd_size smhd_size dinf_size
    size trak_atom tkhd_atom mdia_atom mdhd_atom hdlr_atom minf_atom vmhd_atom smhd_atom
    dinf_atom stbl_atom stsd_atom stts_atom stts_data stss_atom stss_data ctts_atom ctts_data
    stsc_atom stsc_first stsc_data stsz_atom stsz_data stco_atom stco_data co64_atom co64_data
    set_timescale set_time_to_sample_entries set_sample_to_chunk_entries set_sync_samples_entries
    set_composition_offset_entries set_sample_sizes_entries set_chunks set_start_sample
    set_start_chunk set_chunk_samples set_chunk_samples_size set_start_offset set_tkhd_size
    set_mdhd_size set_hdlr_size set_vmhd_size set_dinf_size set_size set_trak_atom set_tkhd_atom
    set_mdia_atom set_mdhd_atom set_hdlr_atom set_minf_atom set_vmhd_atom set_smhd_atom
    set_dinf_atom set_stbl_atom set_stsd_atom set_stts_atom set_stts_data set_stss_atom
    set_stss_data set_ctts_atom set_ctts_data set_stsc_atom set_stsc_first set_stsc_data
    set_stsz_atom set_stsz_data set_stco_atom set_stco_data set_co64_atom set_co64_data add_size].
Ltac trak_flat_in H :=
  cbv beta iota delta [
    timescale time_to_sample_entries sample_to_chunk_entries sync_samples_entries
    composition_offset_entries sample_sizes_entries chunks start_sample start_chunk chunk_samples
    chunk_samples_size start_offset tkhd_size mdhd_size hdlr_size vmhd_size smhd_size dinf_size
    size trak_atom tkhd_atom mdia_atom mdhd_atom hdlr_atom minf_atom vmhd_atom smhd_atom
    dinf_atom stbl_atom stsd_atom stts_atom stts_data stss_atom stss_data ctts_atom ctts_data
    stsc_atom stsc_first stsc_data stsz_atom stsz_data stco_atom stco_data co64_atom co64_data
    set_timescale set_time_to_sample_entries set_sample_to_chunk_entries set_sync_samples_entries
    set_composition_offset_entries set_sample_sizes_entries set_chunks set_start_sample
    set_start_chunk set_chunk_samples set_chunk_samples_size set_start_offset set_tkhd_size
    set_mdhd_size set_hdlr_size set_vmhd_size set_dinf_size set_size set_trak_atom set_tkhd_atom
    set_mdia_atom set_mdhd_atom set_hdlr_atom set_minf_atom set_vmhd_atom set_smhd_atom
    set_dinf_atom set_stbl_atom set_stsd_atom set_stts_atom set_stts_data set_stss_atom
    set_stss_data set_ctts_atom set_ctts_data set_stsc_atom set_stsc_first set_stsc_data
    set_stsz_atom set_stsz_data set_stco_atom set_stco_data set_co64_atom set_co64_data add_size] in H.

(** * The bytes of a track *)

Definition alen (o : option (list Z)) : Z := Z.of_nat (length (default [] o)).

Lemma length_flat_map {A} (f : A -> list Z) n l :
  (forall x, length (f x) = n) -> length (flat_map f l) = (n * length l)%nat.
Proof. intros Hf. induction l as [|x l IH]; cbn [flat_map length]; [lia|]. rewrite length_app, Hf, IH. lia. Qed.

Lemma length_put_stsc l : length (flat_map put_stsc l) = (12 * length l)%nat.
Proof. by apply length_flat_map. Qed.

(** The length of trak->out: the atoms around the tables, the tables, and the
    offsets of the chunks. *)
Definition outer_size (t : ngx_http_mp4_trak_t) : Z :=
  alen (trak_atom t) + alen (tkhd_atom t) + alen (mdia_atom t) + alen (mdhd_atom t)
  + alen (hdlr_atom t) + alen (minf_atom t) + alen (vmhd_atom t) + alen (smhd_atom t)
  + alen (dinf_atom t) + alen (stbl_atom t).

Definition tables_size (t : ngx_http_mp4_trak_t) : Z :=
  alen (stsd_atom t) + alen (stts_atom t) + 8 * Z.of_nat (length (default [] (stts_data t)))
  + alen (stss_atom t) + 4 * Z.of_nat (length (default [] (stss_data t)))
  + alen (ctts_atom t) + 8 * Z.of_nat (length (default [] (ctts_data t)))
  + alen (stsc_atom t) + 12 * Z.of_nat (length (stsc_table t))
  + alen (stsz_atom t) + 4 * Z.of_nat (length (default [] (stsz_data t))).

Definition offsets_size (t : ngx_http_mp4_trak_t) : Z :=
  alen (stco_atom t) + 4 * Z.of_nat (length (default [] (stco_data t)))
  + alen (co64_atom t) + 8 * Z.of_nat (length (default [] (co64_data t))).

Definition out_size (t : ngx_http_mp4_trak_t) : Z := outer_size t + tables_size t + offsets_size t.

Lemma length_trak_out t : Z.of_nat (length (trak_out t)) = out_size t.
Proof.
  unfold trak_out, out_size, outer_size, tables_size, offsets_size, stsc_table, alen. rewrite !length_app, !length_put_stsc.
  rewrite (length_flat_map put_stts 8), (length_flat_map put_ctts 8) by done.
  rewrite !(length_flat_map ngx_mp4_set_32value 4), (length_flat_map ngx_mp4_set_64value 8) by done.
  lia.
Qed.

Lemma length_store_at off v atom :
  (off + length v <= length atom)%nat -> length (store_at off v atom) = length atom.
Proof. intros H. unfold store_at. rewrite !length_app, length_take, length_drop. lia. Qed.

Lemma alen_set_header off n e a :
  Z.of_nat off + 4 <= alen a -> alen (set_header off n e a) = alen a.
Proof.
  unfold alen, set_header. destruct a as [a|]; cbn [from_option id fmap option_fmap option_map length]; [|lia].
  intros H. assert (length (set32_at 0 n a) = length a) as Hn
    by (apply length_store_at; cbn [length ngx_mp4_set_32value]; lia).
  rewrite <- Hn. f_equal. apply length_store_at. rewrite Hn. cbn [length ngx_mp4_set_32value]. lia.
Qed.

Lemma alen_set_atom_size n a : 4 <= alen a -> alen (set_atom_size n a) = alen a.
Proof.
  unfold alen, set_atom_size. destruct a as [a|]; cbn [from_option id fmap option_fmap option_map length]; [|lia].
  intros H. unfold set32_at. f_equal. apply length_store_at. cbn [length ngx_mp4_set_32value]; lia.
Qed.

(** The sizes that were kept while the atoms were read, and the headers. *)
Record framed_outer (t : ngx_http_mp4_trak_t) : Prop := FramedOuter {
  fr_trak : alen (trak_atom t) = 8; fr_tkhd : alen (tkhd_atom t) = tkhd_size t;
  fr_mdia : alen (mdia_atom t) = 8; fr_mdhd : alen (mdhd_atom t) = mdhd_size t;
  fr_hdlr : alen (hdlr_atom t) = hdlr_size t; fr_minf : alen (minf_atom t) = 8;
  fr_media : alen (vmhd_atom t) + alen (smhd_atom t) = vmhd_size t + smhd_size t;
  fr_dinf : alen (dinf_atom t) = dinf_size t; fr_stbl : alen (stbl_atom t) = 8 }.

Record framed_tables (t : ngx_http_mp4_trak_t) : Prop := FramedTables {
  fr_stsd : alen (stsd_atom t) = size t /\ size t < 2 ^ 64; fr_stts : alen (stts_atom t) = 16;
  fr_stss : alen (stss_atom t) = if stss_data t is Some _ then 16 else 0;
  fr_ctts : alen (ctts_atom t) = if ctts_data t is Some _ then 16 else 0;
  fr_stsc : alen (stsc_atom t) = 16; fr_stsz : alen (stsz_atom t) = 20 }.

(** One table of offsets, of either width. *)
Definition framed_offsets (t : ngx_http_mp4_trak_t) : Prop :=
  match co64_data t with
  | Some _ => alen (co64_atom t) = 16 /\ stco_data t = None /\ alen (stco_atom t) = 0
  | None => stco_data t <> None /\ alen (stco_atom t) = 16 /\ alen (co64_atom t) = 0
  end.

Lemma wrapU_add a b w : 0 <= w -> wrapU w (wrapU w a + b) = wrapU w (a + b).
Proof. intros H. unfold wrapU. rewrite Zplus_mod_idemp_l. done. Qed.

(** The tables after ngx_http_mp4_update_stsz_atom, for the start sample [k],
    which is the sample [cs] of the [n] samples of chunk [sc]. *)
Record cropped (k sc cs n : nat) (spc : list nat) (t t' : ngx_http_mp4_trak_t) : Prop := Cropped {
  cr_durations : durations t' = drop k (durations t);
  cr_sync : stss_data t' = shift_sync k <$> stss_data t;
  cr_composition : composition_offsets t' = drop k (composition_offsets t);
  cr_sizes : default [] (stsz_data t') = drop k (default [] (stsz_data t));
  cr_counts : samples_per_chunk (chunks t - Z.of_nat sc) (stsc_table t') = (n - cs)%nat :: spc;
  cr_chunk : start_chunk t' = Z.of_nat sc; cr_chunks : chunks t' = chunks t;
  cr_skipped : chunk_samples_size t' =
    total (take cs (drop (sum_list (take sc (chunk_counts t))) (default [] (stsz_data t))));
  cr_stco : stco_data t' = stco_data t; cr_co64 : co64_data t' = co64_data t;
  cr_size : size t' = wrapU 64 (tables_size t');
  cr_outer : framed_outer t'; cr_offsets : framed_offsets t' }.

(** The start sample can be sought to: a sample of the track before the last
    two chunks, with a sync sample after it. *)
Definition seekable (start : Z) (t : ngx_http_mp4_trak_t) : Prop :=
  start_time start t < total (durations t) /\
  (first_sample start t <= sum_list (take (Z.to_nat (chunks t - 2)) (chunk_counts t)))%nat /\
  match stss_data t with Some l => Exists (fun s => Z.of_nat (first_sample start t) < s) l | None => True end.

Lemma alen_put_table e w a : alen a = 16 -> alen (put_table e w a) = 16.
Proof. intros H. unfold put_table. rewrite alen_set_header; [done|lia]. Qed.

(** The sizes added for the tables of a cropped track. *)
Lemma tables_sum k n stsd stts stss ctts stsc stsz (es : list ngx_mp4_stts_entry_t) (sync : option (list Z))
    (old new : option (list ngx_mp4_ctts_entry_t)) (extra : option ngx_mp4_stsc_entry_t)
    (data : list ngx_mp4_stsc_entry_t) (left : list Z) n4 e4 n5 e5 :
  alen stsd = n -> alen stts = 16 -> alen stss = (if sync is Some _ then 16 else 0) ->
  alen ctts = (if old is Some _ then 16 else 0) -> alen stsc = 16 -> alen stsz = 20 ->
  (old = None -> new = None) ->
  wrapU 64 (wrapU 64 (wrapU 64 (wrapU 64 (wrapU 64 (n + (16 + 8 * Z.of_nat (length es)))
      + match sync with Some l => 16 + 4 * Z.of_nat (length (shift_sync k l)) | None => 0 end)
      + match new with Some es => 16 + 8 * Z.of_nat (length es) | None => 0 end)
      + (16 + 12 * Z.of_nat (length data) + match extra with Some _ => 12 | None => 0 end))
      + (20 + 4 * Z.of_nat (length left))) =
  wrapU 64 (alen stsd + alen (put_table (Z.of_nat (length es)) 8 stts)
    + 8 * Z.of_nat (length (default [] (Some es)))
    + alen (match sync with
            | Some l => put_table (Z.of_nat (length (shift_sync k l))) 4 stss | None => stss end)
    + 4 * Z.of_nat (length (default [] (shift_sync k <$> sync)))
    + alen (match new with
            | Some es => put_table (Z.of_nat (length es)) 8 ctts
            | None => if old is Some _ then None else ctts end)
    + 8 * Z.of_nat (length (default [] new)) + alen (set_header 12 n4 e4 stsc)
    + 12 * Z.of_nat (length (option_list extra ++ default [] (Some data)))
    + alen (set_header 16 n5 e5 stsz) + 4 * Z.of_nat (length (default [] (Some left)))).
Proof.
  intros H1 H2 H3 H4 H5 H6 H7. repeat (rewrite wrapU_add by lia; rewrite <- ?Z.add_assoc). f_equal.
  rewrite (alen_put_table _ _ stts), !alen_set_header, H1, H5, H6 by lia.
  destruct sync as [l|]; [rewrite (alen_put_table _ _ stss) by done|rewrite H3];
  (destruct old as [o|]; [|rewrite (H7 eq_refl) in *; rewrite H4]);
  destruct new as [d|]; try rewrite (alen_put_table _ _ ctts) by done;
  destruct extra; unfold alen; cbn [option_list option_rect app length from_option id fmap option_fmap option_map];
  rewrite ?length_app; lia.
Qed.

(** The steps up to the sizes of the samples. *)
Definition update_tables (start : Z) (t : ngx_http_mp4_trak_t) : outcome (option ngx_http_mp4_trak_t) :=
  match ngx_http_mp4_update_stts_atom start t with
  | None => Ret None
  | Some t =>
    match ngx_http_mp4_update_stss_atom t with
    | None => Ret None
    | Some t =>
      let! t := ngx_http_mp4_update_stsc_atom (ngx_http_mp4_update_ctts_atom t) in
      match t with None => Ret None | Some t => ngx_http_mp4_update_stsz_atom t end
    end
  end.

Lemma update_tables_spec start t :
  consistent t -> framed_outer t -> framed_tables t -> framed_offsets t -> seekable start t ->
  exists sc cs n spc t',
    let k := first_sample start t in
    update_tables start t = Ret (Some t') /\ (sc < length (chunk_counts t))%nat /\
    k = (sum_list (take sc (chunk_counts t)) + cs)%nat /\
    drop sc (chunk_counts t) = n :: spc /\ (cs < n)%nat /\ cropped k sc cs n spc t t'.
Proof.
  intros Hc Hout Hfr Hoff (Ht & Hpos & Hsync). set (k := first_sample start t) in *.
  assert (0 <= size t < 2 ^ 64) as Hsz by (destruct (fr_stsd t Hfr) as [Hs ?]; unfold alen in Hs; lia).
  destruct Hc as [(stts & Hstts & Hok1 & Hn1 & Hl1) Hss Hct
    (e & rest & Hstsc & Hfirst & He & Hok4 & Hn4 & Hl4) (sizes & Hstsz & Hall & Hn5 & Hl5 & Hdur & Hcnt & Hoffs)
    Hsome [Hch HK] Hskip].
  assert (chunk_counts t = samples_per_chunk (chunks t) (e :: rest)) as Hcc.
  { unfold chunk_counts, stsc_table. by rewrite Hfirst, Hstsc, Hch. }
  destruct (update_stts_spec start t stts) as (es & H1 & Hx1 & Hk); try done; [lia|]. fold k in H1, Hx1, Hk.
  remember (durations t) as ds eqn:Hds. remember (chunk_counts t) as spc eqn:Hspc.
  remember (composition_offsets t) as cts eqn:Hcts.
  destruct t. trak_flat_in H1.
  match type of H1 with _ = Some ?x => set (t1 := x) in H1 end.
  destruct (update_stss_spec t1 k) as (n2 & H2 & Hn2); [done|lia|apply wrapU_range; lia|exact Hss|exact Hsync|].
  subst t1. trak_flat_in H2. trak_flat_in Hn2.
  match type of H2 with _ = Some ?x => set (t2 := x) in H2 end.
  destruct (update_ctts_spec t2 k) as (d3 & n3 & H3 & Hx3 & Hn3 & Hd3); [done|lia|apply wrapU_range; lia|exact Hct|].
  subst t2. trak_flat_in H3. match type of H3 with _ = ?x => set (t3 := x) in H3 end.
  cbn [chunks] in Hcc.
  destruct (update_stsc_spec t3 e rest k) as
    (entries & extra & data & sc & cs & n & spc' & H4 & Hsc & Hkk & Hd & Hcs & Hx4 & Hent);
    [done..|subst t3; cbn [chunks]; rewrite <- Hcc; lia|subst t3; cbn [chunks]; by rewrite <- Hcc|].
  subst t3. trak_flat_in H4. cbn [chunks] in *. rewrite <- Hcc in Hsc, Hkk, Hd.
  match type of H4 with _ = Ret (Some ?x) => set (t4 := x) in H4 end.
  pose proof (update_stsz_spec t4 (sum_list (take sc spc)) cs sizes Hstsz Hall Hn5 ltac:(lia)
    ltac:(cbn [start_sample t4]; lia) eq_refl Hskip ltac:(lia)) as H5.
  subst t4. cbv zeta in H5. rewrite <- Hkk in H5. trak_flat_in H5.
  exists sc, cs, n, spc'. eexists. cbv zeta. split.
  { unfold update_tables. rewrite H1, H2, H3. cbn [outcome_bind]. rewrite H4. exact H5. }
  clear H1 H2 H3 H4 H5. split_and!; try assumption.
  trak_flat_in Hstsz. constructor; unfold durations, composition_offsets, tables_size, framed_offsets in *; trak_flat; try done.
  - rewrite Hds in Hx1. exact Hx1.
  - by rewrite Hstsz.
  - by rewrite <- Hspc, Hstsz.
  - destruct Hfr as [[? ?] ? ? ? ? ?]. rewrite Hn2, Hn3. by apply tables_sum.
  - by destruct Hout; constructor.
Qed.

(** * The offsets and the enclosing atoms *)

(** The rest of the loop body. *)
Definition enclose (t : ngx_http_mp4_trak_t) : ngx_http_mp4_trak_t :=
  let t := ngx_http_mp4_update_minf_atom (ngx_http_mp4_update_stbl_atom t) in
  let t := add_size (hdlr_size t) (add_size (mdhd_size t) t) in
  let t := ngx_http_mp4_update_mdia_atom t in
  ngx_http_mp4_update_trak_atom (add_size (tkhd_size t) t).

Definition update_rest (t : ngx_http_mp4_trak_t) : outcome (option ngx_http_mp4_trak_t) :=
  let! t := (match co64_data t with
             | Some _ => ngx_http_mp4_update_co64_atom t
             | None => ngx_http_mp4_update_stco_atom t
             end) in
  match t with None => Ret None | Some t => Ret (Some (enclose t)) end.

(** The tables are as they were. *)
Lemma enclose_tables t :
  start_offset (enclose t) = start_offset t /\ durations (enclose t) = durations t /\
  stss_data (enclose t) = stss_data t /\ composition_offsets (enclose t) = composition_offsets t /\
  stsz_data (enclose t) = stsz_data t /\ stsc_table (enclose t) = stsc_table t /\
  chunk_offsets (enclose t) = chunk_offsets t /\ co64_data (enclose t) = co64_data t /\
  tables_size (enclose t) = tables_size t /\ offsets_size (enclose t) = offsets_size t.
Proof. by destruct t. Qed.

Lemma enclose_size t :
  framed_outer t -> size t = wrapU 64 (tables_size t + offsets_size t) ->
  size (enclose t) = wrapU 64 (out_size (enclose t)).
Proof.
  intros Hf Hs. unfold out_size.
  destruct (enclose_tables t) as (_ & _ & _ & _ & _ & _ & _ & _ & -> & ->).
  set (tables := tables_size t) in *. set (offsets := offsets_size t) in *. clearbody tables offsets.
  destruct t, Hf. unfold outer_size, enclose, ngx_http_mp4_update_trak_atom, ngx_http_mp4_update_mdia_atom,
    ngx_http_mp4_update_minf_atom, ngx_http_mp4_update_stbl_atom. cbv zeta. trak_flat.
  cbn [size trak_atom tkhd_atom mdia_atom mdhd_atom hdlr_atom minf_atom vmhd_atom smhd_atom dinf_atom
    stbl_atom tkhd_size mdhd_size hdlr_size vmhd_size smhd_size dinf_size] in *.
  rewrite !alen_set_atom_size by lia. rewrite Hs.
  repeat (rewrite wrapU_add by lia; rewrite <- ?Z.add_assoc). f_equal. lia.
Qed.

Lemma update_trak_parts start t t' :
  update_tables start t = Ret (Some t') -> update_trak start t = update_rest t'.
Proof.
  unfold update_tables, update_trak.
  destruct (ngx_http_mp4_update_stts_atom start t) as [t1|]; [|done].
  destruct (ngx_http_mp4_update_stss_atom t1) as [t2|]; [|done].
  destruct (ngx_http_mp4_update_stsc_atom (ngx_http_mp4_update_ctts_atom t2)) as [[t3|]| |]; try done.
  cbn [outcome_bind]. by intros ->.
Qed.

Lemma total_part a b l :
  Forall (fun z => 0 <= z) l -> 0 <= total (take a (drop b l)) <= total l.
Proof.
  intros H.
  assert (total l = total (take b l) + (total (take a (drop b l)) + total (drop a (drop b l)))) as ->
    by (by rewrite <- !ztotal_app, !take_drop).
  pose proof (ztotal_nonneg _ (Forall_take _ b _ H)).
  pose proof (ztotal_nonneg _ (Forall_take _ a _ (Forall_drop _ b _ H))).
  pose proof (ztotal_nonneg _ (Forall_drop _ a _ (Forall_drop _ b _ H))). lia.
Qed.

(** What a seek to sample [k] does to a track. *)
Record sought (k : nat) (t t' : ngx_http_mp4_trak_t) : Prop := Sought {
  s_durations : durations t' = drop k (durations t);
  s_places : sample_places t' = drop k (sample_places t);
  s_sync : stss_data t' = shift_sync k <$> stss_data t;
  s_composition : composition_offsets t' = drop k (composition_offsets t);
  s_first : exists z rest, sample_places t' = (start_offset t', z) :: rest;
  s_co64 : co64_data t' = None <-> co64_data t = None;
  s_chunks : length (chunk_counts t') = length (chunk_offsets t') /\
    Forall (fun n => (0 < n)%nat) (chunk_counts t') /\
    (sum_list (chunk_counts t') <= length (default [] (stsz_data t')))%nat;
  s_size : size t' = wrapU 64 (out_size t') }.

(** The offset and the rest of the table at the start chunk. *)
Lemma offsets_fit t sizes sc o offs a b :
  stsz_data t = Some sizes -> Forall (fun z => 0 <= z < 2 ^ 32) sizes ->
  Forall (fun o => 0 <= o /\ o + total sizes < match co64_data t with Some _ => 2 ^ 63 | None => 2 ^ 32 end)
    (chunk_offsets t) ->
  drop sc (chunk_offsets t) = o :: offs ->
  let first := o + total (take a (drop b sizes)) in
  0 <= first < 2 ^ 63 /\ (co64_data t = None -> first < 2 ^ 32).
Proof.
  intros Hs Hall Hoffs Hd. cbv zeta.
  pose proof (total_part a b sizes ltac:(eapply Forall_impl; [exact Hall|cbn; lia])) as Hp.
  rewrite <- (take_drop sc), Hd in Hoffs. apply Forall_app in Hoffs as [_ Hoffs].
  apply Forall_cons in Hoffs as [[? Ho] _]. destruct (co64_data t); split; try lia; done.
Qed.

(** Both updates of the offsets keep the tables and count what they put. *)
Definition put_offsets (offsets : list Z) (first e : Z) (t : ngx_http_mp4_trak_t) : ngx_http_mp4_trak_t :=
  match co64_data t with
  | Some _ =>
    let n := 16 + 8 * Z.of_nat (length offsets) in
    set_co64_atom (set_header 12 n e (co64_atom t))
      (set_co64_data (Some offsets) (add_size n (set_start_offset first t)))
  | None =>
    let n := 16 + 4 * Z.of_nat (length offsets) in
    set_stco_atom (set_header 12 n e (stco_atom t))
      (set_stco_data (Some offsets) (add_size n (set_start_offset first t)))
  end.

Lemma put_offsets_tables offsets first e t :
  let t' := put_offsets offsets first e t in
  start_offset t' = first /\ durations t' = durations t /\ stss_data t' = stss_data t /\
  composition_offsets t' = composition_offsets t /\ stsz_data t' = stsz_data t /\
  stsc_table t' = stsc_table t /\ chunk_offsets t' = offsets /\
  (co64_data t' = None <-> co64_data t = None).
Proof.
  cbv zeta. unfold put_offsets. destruct (co64_data t) as [l|] eqn:H; destruct t; cbn [co64_data] in H; subst;
  split_and!; done.
Qed.

Lemma put_offsets_size offsets first e t :
  framed_outer t -> framed_offsets t -> size t = wrapU 64 (tables_size t) ->
  let t' := put_offsets offsets first e t in
  framed_outer t' /\ size t' = wrapU 64 (tables_size t' + offsets_size t').
Proof.
  intros Hf Ho Hs. cbv zeta. unfold put_offsets, framed_offsets in *.
  destruct (co64_data t) as [l|] eqn:H.
  - destruct Ho as (H1 & H2 & H3). split; [by destruct t, Hf; constructor|].
    assert (forall a n, tables_size (set_co64_atom a (set_co64_data (Some offsets) (add_size n (set_start_offset first t))))
      = tables_size t) as -> by (intros; by destruct t).
    remember (tables_size t) as tables eqn:E. clear E. destruct t. unfold offsets_size. trak_flat. cbn [stco_data stco_atom co64_atom size] in *.
    rewrite alen_set_header, Hs, wrapU_add, H1, H2, H3 by lia. f_equal; cbn [from_option id length]; lia.
  - destruct Ho as (H1 & H2 & H3). split; [by destruct t, Hf; constructor|].
    assert (forall a n, tables_size (set_stco_atom a (set_stco_data (Some offsets) (add_size n (set_start_offset first t))))
      = tables_size t) as -> by (intros; by destruct t).
    remember (tables_size t) as tables eqn:E. clear E. destruct t. unfold offsets_size. trak_flat. cbn [co64_data stco_atom co64_atom size] in *.
    rewrite alen_set_header, Hs, wrapU_add, H, H2, H3 by lia. f_equal; cbn [from_option id length]; lia.
Qed.

Lemma update_rest_spec k sc cs n spc sizes o offs t t5 :
  consistent t -> cropped k sc cs n spc t t5 -> stsz_data t = Some sizes ->
  (sc < length (chunk_counts t))%nat -> k = (sum_list (take sc (chunk_counts t)) + cs)%nat ->
  drop sc (chunk_counts t) = n :: spc -> (cs < n)%nat -> drop sc (chunk_offsets t) = o :: offs ->
  exists t', update_rest t5 = Ret (Some t') /\ start_offset t' = o + chunk_samples_size t5 /\
    durations t' = durations t5 /\ stss_data t' = stss_data t5 /\
    composition_offsets t' = composition_offsets t5 /\ stsz_data t' = stsz_data t5 /\
    stsc_table t' = stsc_table t5 /\ chunk_offsets t' = o + chunk_samples_size t5 :: offs /\
    (co64_data t' = None <-> co64_data t5 = None) /\ size t' = wrapU 64 (out_size t').
Proof.
  intros Hc Hcr Hst Hsc Hk Hd Hcs Hdo.
  destruct (c_stsz t Hc) as (sizes' & Hst' & Hall & _ & _ & _ & _ & Hoffs). rewrite Hst in Hst'. injection Hst' as <-.
  destruct Hcr as [_ _ _ _ _ Hchunk Hch Hskip Hstco Hco64 Hsize Hout Hof].
  rewrite Hst in Hskip. cbn [default from_option id] in Hskip.
  destruct (offsets_fit t sizes sc o offs cs (sum_list (take sc (chunk_counts t))) Hst Hall Hoffs Hdo) as [Hb Hb32].
  rewrite <- Hskip in Hb, Hb32.
  assert (Z.of_nat sc <= chunks t) as Hle.
  { destruct (c_chunks t Hc) as [-> _]. apply (f_equal length) in Hdo. rewrite length_drop in Hdo. cbn [length] in Hdo. lia. }
  rewrite <- Hch, <- Hchunk in Hle.
  assert (exists e, update_rest t5 = Ret (Some (enclose
    (put_offsets (o + chunk_samples_size t5 :: offs) (o + chunk_samples_size t5) e t5)))) as [e He].
  { eexists. unfold update_rest, put_offsets, chunk_offsets, framed_offsets in *. rewrite <- Hco64, <- Hstco in *.
    destruct (co64_data t5) as [offs64|] eqn:H64.
    - unfold ngx_http_mp4_update_co64_atom. rewrite H64.
      by rewrite (crop_offsets_spec 64 offs64 t5 sc o offs Hchunk Hle Hdo) by lia.
    - unfold ngx_http_mp4_update_stco_atom. destruct (stco_data t5) as [offs32|] eqn:H32; [|by destruct Hof].
      by rewrite (crop_offsets_spec 32 offs32 t5 sc o offs Hchunk Hle Hdo) by (try lia; by apply Hb32). }
  eexists. split; [exact He|].
  set (l := o + chunk_samples_size t5 :: offs).
  destruct (put_offsets_size l (o + chunk_samples_size t5) e t5 Hout Hof Hsize) as [Hfo Hfs].
  destruct (put_offsets_tables l (o + chunk_samples_size t5) e t5) as (E1 & E2 & E3 & E4 & E5 & E6 & E7 & E8).
  set (t6 := put_offsets l _ e t5) in *. clearbody t6.
  destruct (enclose_tables t6) as (-> & -> & -> & -> & -> & -> & -> & -> & _).
  split_and!; try done. by apply enclose_size.
Qed.

Lemma chunk_counts_shape t :
  consistent t ->
  length (chunk_counts t) = length (chunk_offsets t) /\ Forall (fun n => (0 < n)%nat) (chunk_counts t).
Proof.
  intros Hc. destruct (c_stsc t Hc) as (e & rest & Hd & Hf & He & Hok & _). destruct (c_chunks t Hc) as [Hch _].
  unfold chunk_counts, stsc_table. rewrite Hd, Hf, <- Hch.
  change (option_list None ++ default [] (Some (e :: rest))) with (e :: rest).
  pose proof (length_samples_per_chunk _ _ _ Hok) as Hl. rewrite He in Hl.
  split; [lia|by apply samples_positive].
Qed.

(** A track that can be sought is cropped at the sample shown at the start. *)
Lemma update_trak_spec start t :
  consistent t -> framed_outer t -> framed_tables t -> framed_offsets t -> seekable start t ->
  exists t', update_trak start t = Ret (Some t') /\ sought (first_sample start t) t t'.
Proof.
  intros Hc Ho Ht Hof Hs. destruct (update_tables_spec start t Hc Ho Ht Hof Hs) as
    (sc & cs & n & spc & t5 & Hup & Hsc & Hk & Hd & Hcs & Hcr). cbv zeta in *.
  set (k := first_sample start t) in *.
  destruct (chunk_counts_shape t Hc) as [Hlen Hpos]. destruct (c_chunks t Hc) as [Hch _].
  destruct (c_stsz t Hc) as (sizes & Hst & _ & _ & _ & _ & Hsum & _).
  destruct (drop sc (chunk_offsets t)) as [|o offs] eqn:Hdo.
  { apply (f_equal length) in Hdo. rewrite length_drop in Hdo. cbn [length] in Hdo. lia. }
  destruct (update_rest_spec k sc cs n spc sizes o offs t t5 Hc Hcr Hst Hsc Hk Hd Hcs Hdo) as
    (t' & Hup' & E1 & E2 & E3 & E4 & E5 & E6 & E7 & E8 & E9).
  exists t'. split; [by rewrite (update_trak_parts start t t5)|].
  pose proof (f_equal length Hdo) as Hlo. rewrite length_drop in Hlo. cbn [length] in Hlo.
  assert (chunk_counts t' = (n - cs)%nat :: spc) as Hcnt.
  { unfold chunk_counts. rewrite E6, E7. rewrite <- (cr_counts _ _ _ _ _ _ _ Hcr). f_equal. cbn [length]. lia. }
  assert (default [] (stsz_data t') = drop k sizes) as Hsz
    by (rewrite E5, (cr_sizes _ _ _ _ _ _ _ Hcr); by rewrite Hst).
  assert (sum_list ((n - cs)%nat :: spc) = length (drop k sizes)) as Hsum'.
  { rewrite length_drop, Hsum, Hk. rewrite <- (take_drop sc (chunk_counts t)) at 1. rewrite sum_list_app, Hd.
    change (sum_list (n :: spc)) with (n + sum_list spc)%nat.
    change (sum_list ((n - cs)%nat :: spc)) with ((n - cs) + sum_list spc)%nat. lia. }
  assert (sample_places t' = drop k (sample_places t)) as Hpl.
  { unfold sample_places. rewrite Hcnt, E7, Hsz, Hst, (cr_skipped _ _ _ _ _ _ _ Hcr), Hst.
    cbn [from_option id]. symmetry. rewrite Hk. apply places_crop; try done; lia. }
  constructor; try done.
  - by rewrite E2, (cr_durations _ _ _ _ _ _ _ Hcr).
  - by rewrite E3, (cr_sync _ _ _ _ _ _ _ Hcr).
  - by rewrite E4, (cr_composition _ _ _ _ _ _ _ Hcr).
  - unfold sample_places. rewrite Hcnt, E1, E7, Hsz. cbn [places].
    destruct (drop k sizes) as [|z zs] eqn:Hz.
    { cbn [length] in Hsum'. change (sum_list ((n - cs)%nat :: spc)) with ((n - cs) + sum_list spc)%nat in Hsum'. lia. }
    destruct (n - cs)%nat eqn:Hn; [lia|]. cbn [take consecutive app]. eauto.
  - by rewrite E8, (cr_co64 _ _ _ _ _ _ _ Hcr).
  - rewrite Hcnt, E7, Hsz, Hsum'. split_and!; [|constructor; [lia|]|lia].
    + apply (f_equal length) in Hd. rewrite length_drop in Hd. cbn [length] in *. lia.
    + rewrite <- (take_drop sc (chunk_counts t)), Hd in Hpos. apply Forall_app in Hpos as [_ Hpos].
      by apply Forall_cons in Hpos as [_ Hpos].
Qed.

(** * The response *)

Definition slice (o z : Z) (l : list Z) : list Z := take (Z.to_nat z) (drop (Z.to_nat o) l).

(** What the client receives. *)
Definition body (file : list Z) (r : mp4_response) : list Z := head r ++ slice (from r) (to_ r - from r) file.

(** The bytes of the samples that a track describes. *)
Definition samples (file : list Z) (t : ngx_http_mp4_trak_t) : list (list Z) :=
  map (fun p => slice p.1 p.2 file) (sample_places t).

(** The samples lie in the mdat atom, in the order of the track. *)
Record playable (start last : Z) (t : ngx_http_mp4_trak_t) : Prop := Playable {
  p_consistent : consistent t; p_outer : framed_outer t; p_tables : framed_tables t;
  p_offsets : framed_offsets t; p_seekable : seekable start t;
  p_inside : Forall (fun p => 0 <= p.1 /\ 0 <= p.2 /\ p.1 + p.2 <= last) (sample_places t);
  p_ordered : StronglySorted (fun p q => p.1 <= q.1) (sample_places t) }.

Lemma consecutive_shift a o l :
  consecutive (o + a) l = map (fun p => (p.1 + a, p.2)) (consecutive o l).
Proof.
  revert o. induction l as [|z l IH]; intros o; cbn [consecutive map fst snd]; [done|].
  rewrite <- IH. do 2 f_equal. lia.
Qed.

Lemma places_shift a offs spc sizes :
  places (map (fun o => o + a) offs) spc sizes = map (fun p => (p.1 + a, p.2)) (places offs spc sizes).
Proof.
  revert spc sizes. induction offs as [|o offs IH]; intros [|n spc] sizes; cbn [map places]; try done.
  by rewrite map_app, IH, consecutive_shift.
Qed.

(** A chunk begins with its first sample. *)
Lemma places_heads offs spc sizes o :
  length spc = length offs -> Forall (fun n => (0 < n)%nat) spc -> (sum_list spc <= length sizes)%nat ->
  In o offs -> exists z, In (o, z) (places offs spc sizes).
Proof.
  revert spc sizes. induction offs as [|o' offs IH]; intros [|n spc] sizes Hl Hp Hs Hin; try done.
  apply Forall_cons in Hp as [Hn Hp]. change (sum_list (n :: spc)) with (n + sum_list spc)%nat in Hs.
  cbn [places]. destruct Hin as [->|Hin].
  - destruct sizes as [|z sizes]; [cbn in Hs; lia|]. destruct n as [|n]; [lia|].
    exists z. apply in_or_app. left. by left.
  - destruct (IH spc (drop n sizes)) as [z Hz]; try done; [cbn [length] in *; lia|rewrite length_drop; lia|].
    exists z. apply in_or_app. by right.
Qed.

(** A piece of the file is found in the response, moved by the adjustment. *)
Lemma slice_moved file h fr to o z :
  0 <= fr -> fr <= o -> 0 <= z -> o + z <= to ->
  slice (o + (Z.of_nat (length h) - fr)) z (h ++ slice fr (to - fr) file) = slice o z file.
Proof.
  intros Hf Ho Hz Ht. unfold slice.
  replace (Z.to_nat (o + (Z.of_nat (length h) - fr))) with (length h + Z.to_nat (o - fr))%nat by lia.
  rewrite <- drop_drop, drop_app_length.
  rewrite skipn_firstn_comm, drop_drop, take_take. f_equal; [lia|]. f_equal. lia.
Qed.

Lemma sought_inside start last k t t' :
  playable start last t -> sought k t t' ->
  0 <= start_offset t' <= last /\
  Forall (fun p => start_offset t' <= p.1 /\ 0 <= p.2 /\ p.1 + p.2 <= last) (sample_places t').
Proof.
  intros Hp Hs. destruct (s_first _ _ _ Hs) as (z & rest & Hf).
  pose proof (Forall_drop _ k _ (p_inside _ _ _ Hp)) as Hin. rewrite <- (s_places _ _ _ Hs) in Hin.
  assert (StronglySorted (fun p q => p.1 <= q.1) (sample_places t')) as Hord.
  { rewrite (s_places _ _ _ Hs). pose proof (p_ordered _ _ _ Hp) as Ho.
    rewrite <- (take_drop k (sample_places t)) in Ho. by apply StronglySorted_app_1_r in Ho. }
  rewrite Hf in *. apply Forall_cons in Hin as [(Hz & Hz1 & Hz2) Hin]. cbn [fst snd] in *.
  apply StronglySorted_inv in Hord as [_ Hord]. split; [lia|]. constructor; [cbn; lia|].
  rewrite Forall_forall in *. intros p Hpin. specialize (Hin p Hpin). specialize (Hord p Hpin). cbn in *. lia.
Qed.

Lemma length_traks_out ts : Z.of_nat (length (flat_map trak_out ts)) = total (map out_size ts).
Proof.
  induction ts as [|t ts IH]; cbn [flat_map map total foldr]; [done|]. fold (total (map out_size ts)).
  rewrite length_app, Nat2Z.inj_add, IH, length_trak_out. done.
Qed.

Lemma update_traks_spec start last ts moov least :
  Forall (playable start last) ts -> 0 <= least -> 0 <= moov < 2 ^ 64 ->
  exists least' ts',
    update_traks start moov least ts = Ret (Some (wrapU 64 (moov + total (map out_size ts')), least', ts')) /\
    Forall2 (fun t t' => sought (first_sample start t) t t') ts ts' /\
    0 <= least' <= least /\ Forall (fun t' => least' <= start_offset t') ts'.
Proof.
  intros Hts. revert moov least. induction Hts as [|t ts Ht Hts IH]; intros moov least Hl Hm.
  { exists least, []. cbn [update_traks map total foldr]. rewrite Z.add_0_r, wrapU_small by done.
    split_and!; [done|constructor|lia|lia|constructor]. }
  destruct Ht as [H1 H2 H3 H4 H5 H6 H7] eqn:E; clear E.
  destruct (update_trak_spec start t H1 H2 H3 H4 H5) as (t' & Hup & Hs).
  destruct (sought_inside start last _ t t' Ht Hs) as [Hso _].
  set (least1 := if least >? start_offset t' then start_offset t' else least).
  assert (0 <= least1 <= least /\ least1 <= start_offset t') as [Hl1 Hl2]
    by (unfold least1; destruct (Z.gtb_spec least (start_offset t')); lia).
  destruct (IH (wrapU 64 (moov + size t')) least1) as (least' & ts' & Hr & Hf2 & Hl' & Hall);
    [lia|apply wrapU_range; lia|].
  exists least', (t' :: ts'). cbn [update_traks]. rewrite Hup. cbn [outcome_bind]. fold least1. rewrite Hr.
  cbn [outcome_bind]. split_and!; [|by constructor|lia|lia|constructor; [lia|done]].
  do 3 f_equal. cbn [map total foldr]. fold (total (map out_size ts')).
  rewrite (s_size _ _ _ Hs), wrapU_add, (Z.add_comm moov), <- Z.add_assoc, wrapU_add by lia. do 2 f_equal. lia.
Qed.

Definition adjust (a : Z) (t : ngx_http_mp4_trak_t) : ngx_http_mp4_trak_t :=
  match co64_data t with
  | Some _ => ngx_http_mp4_adjust_co64_atom a t
  | None => ngx_http_mp4_adjust_stco_atom a t
  end.

(** The largest offset that fits the table of a track. *)
Definition offset_limit (t : ngx_http_mp4_trak_t) : Z :=
  match co64_data t with Some _ => 2 ^ 63 | None => 2 ^ 32 end.

Lemma wrapU_wrapS w o a : 0 < w -> wrapU w (o + wrapS w a) = wrapU w (o + a).
Proof.
  intros Hw. unfold wrapU, wrapS.
  replace (o + ((a + 2 ^ (w - 1)) mod 2 ^ w - 2 ^ (w - 1)))
    with ((a + 2 ^ (w - 1)) mod 2 ^ w + (o - 2 ^ (w - 1))) by lia.
  rewrite Zplus_mod_idemp_l. f_equal. lia.
Qed.

Lemma adjust_size a t : out_size (adjust a t) = out_size t.
Proof.
  unfold out_size.
  assert (outer_size (adjust a t) = outer_size t /\ tables_size (adjust a t) = tables_size t) as [-> ->]
    by (unfold adjust; by destruct (co64_data t), t).
  f_equal. unfold adjust. destruct (co64_data t) as [l|] eqn:H; destruct t; cbn [co64_data] in H; subst.
  - unfold offsets_size. trak_flat. cbn. by rewrite length_map.
  - unfold offsets_size, ngx_http_mp4_adjust_stco_atom. trak_flat.
    destruct stco_data0; cbn; by rewrite ?length_map.
Qed.

Lemma adjust_tables a t :
  durations (adjust a t) = durations t /\ stss_data (adjust a t) = stss_data t /\
  composition_offsets (adjust a t) = composition_offsets t.
Proof. unfold adjust. by destruct (co64_data t), t. Qed.

Lemma adjust_places a t :
  Forall (fun o => 0 <= o + a < offset_limit t) (chunk_offsets t) ->
  sample_places (adjust a t) = map (fun p => (p.1 + a, p.2)) (sample_places t).
Proof.
  intros H. assert (chunk_offsets (adjust a t) = map (fun o => o + a) (chunk_offsets t)) as Ho.
  { unfold adjust, offset_limit, chunk_offsets in *. destruct (co64_data t) as [l|] eqn:E; destruct t; cbn [co64_data] in E; subst.
    - cbn in *. apply map_ext_Forall. eapply Forall_impl; [exact H|]. cbn. intros o Hr. apply wrapU_small. lia.
    - cbn in *. destruct stco_data0 as [l|]; [|done]. cbn in *. apply map_ext_Forall. eapply Forall_impl; [exact H|].
      cbn. intros o Hr. rewrite wrapU_wrapS, wrapU_small by lia. done. }
  unfold sample_places, chunk_counts. rewrite Ho, length_map, places_shift.
  unfold adjust. by destruct (co64_data t), t.
Qed.

(** The samples of a track from [k] on, through the response [h ++ file[fr, to)]. *)
Lemma adjusted_samples file h fr to start k t t' :
  playable start to t -> sought k t t' -> 0 <= fr <= start_offset t' ->
  Z.of_nat (length h) + (to - fr) < offset_limit t ->
  let t'' := adjust (Z.of_nat (length h) - fr) t' in
  samples (h ++ slice fr (to - fr) file) t'' = drop k (samples file t).
Proof.
  intros Hp Hs Hfr Hlim. cbv zeta. destruct (sought_inside start to k t t' Hp Hs) as [Hso Hin].
  destruct (s_chunks _ _ _ Hs) as (Hlen & Hpos & Hsum).
  assert (offset_limit t' = offset_limit t) as Hol.
  { unfold offset_limit. pose proof (s_co64 _ _ _ Hs) as [E1 E2].
    destruct (co64_data t'), (co64_data t); try done; [by specialize (E2 eq_refl)|by specialize (E1 eq_refl)]. }
  unfold samples. rewrite adjust_places.
  - rewrite map_map, skipn_map, <- (s_places _ _ _ Hs). apply map_ext_Forall.
    eapply Forall_impl; [exact Hin|]. intros [o z] Hoz. cbn [fst snd] in *. apply slice_moved; lia.
  - rewrite Forall_forall. intros o Ho. rewrite Hol.
    destruct (places_heads _ _ _ o Hlen Hpos Hsum ltac:(by apply list_elem_of_In)) as [z Hz].
    rewrite Forall_forall in Hin. specialize (Hin (o, z) ltac:(by apply list_elem_of_In)). cbn [fst snd] in Hin. lia.
Qed.

(** What is served for a playable movie. *)
Definition served (start : Z) (file : list Z) (r : mp4_response) (t t' : ngx_http_mp4_trak_t) : Prop :=
  let k := first_sample start t in
  samples (body file r) t' = drop k (samples file t) /\ durations t' = drop k (durations t) /\
  composition_offsets t' = drop k (composition_offsets t) /\
  stss_data t' = shift_sync k <$> stss_data t.

Lemma mdat_length last fr :
  let '(h, n) := ngx_http_mp4_update_mdat_atom last fr in n = Z.of_nat (length h) + (last - fr).
Proof. unfold ngx_http_mp4_update_mdat_atom. case_if E; cbn; lia. Qed.

Lemma length_body file r :
  0 <= from r <= to_ r -> to_ r <= Z.of_nat (length file) ->
  Z.of_nat (length (body file r)) = Z.of_nat (length (head r)) + (to_ r - from r).
Proof. intros H1 H2. unfold body, slice. rewrite length_app, length_take, length_drop. lia. Qed.

Lemma adjusted_head ts a ftyp mvhd n mh :
  Z.of_nat (length (ftyp ++ (ngx_mp4_set_32value n ++ $"moov") ++ mvhd ++ flat_map trak_out (map (adjust a) ts) ++ mh))
  = Z.of_nat (length ftyp) + 8 + Z.of_nat (length mvhd) + total (map out_size ts) + Z.of_nat (length mh).
Proof.
  rewrite !length_app, !Nat2Z.inj_add, length_traks_out, map_map.
  rewrite (map_ext (fun x => out_size (adjust a x)) out_size) by apply adjust_size. cbn. lia.
Qed.

Lemma served_all start file h fr to n ts ts' :
  Forall (playable start to) ts ->
  Forall2 (fun t t' => sought (first_sample start t) t t') ts ts' ->
  0 <= fr -> Forall (fun t' => fr <= start_offset t') ts' ->
  Forall (fun t => Z.of_nat (length h) + (to - fr) < offset_limit t) ts ->
  Forall2 (served start file (MkResponse h fr to n)) ts (map (adjust (Z.of_nat (length h) - fr)) ts').
Proof.
  intros Hp Hs Hfr Hall Hlim. induction Hs as [|t t' ts ts' Hs _ IH]; [constructor|].
  apply Forall_cons in Hp as [Hp1 Hp], Hall as [Hall1 Hall], Hlim as [Hlim1 Hlim].
  constructor; [|by apply IH]. set (a := Z.of_nat (length h) - fr).
  destruct (adjust_tables a t') as (E1 & E2 & E3). unfold served. cbv zeta. rewrite E1, E2, E3. split_and!.
  - unfold body. cbn [head from to_]. by apply (adjusted_samples file h fr to start).
  - by apply s_durations.
  - by apply s_composition.
  - by apply s_sync.
Qed.


(** * The last chunk *)

(** The search gives up on a sample after the first one of the last chunk. *)
Lemma stsc_loop_last K sample entries cur rest :
  stsc_ok K (cur :: rest) = true -> sample < 2 ^ 32 -> K < 2 ^ 32 ->
  Z.of_nat (sum_list (samples_per_chunk K (cur :: rest))) < 2 ^ 32 ->
  Z.of_nat (sum_list (take (Z.to_nat (K - stsc_chunk cur)) (samples_per_chunk K (cur :: rest)))) < sample ->
  stsc_loop K sample entries cur rest = None.
Proof.
  revert sample entries cur. induction rest as [|e rest IH]; intros sample entries cur Hok Hs HK Hsum Hlt;
    pose proof (stsc_ok_le _ _ _ Hok) as Hc; pose proof (stsc_ok_head _ _ _ Hok) as Hh;
    set (s := stsc_samples cur) in *; set (c := stsc_chunk cur) in *; cbn [next_chunk] in *.
  - cbn [samples_per_chunk next_chunk stsc_loop] in *. fold c s in Hsum, Hlt |- *.
    rewrite app_nil_r in Hsum, Hlt. rewrite take_replicate, Nat.min_l, sum_list_replicate in Hlt by lia.
    rewrite sum_list_replicate in Hsum. rewrite (wrapU_small 32 (K - c)), (wrapU_small 32) by nia.
    destruct (Z.gtb_spec sample ((K - c) * s)); [done|nia].
  - cbn [stsc_loop]. fold c s. pose proof (stsc_ok_le _ _ _ (stsc_ok_tail _ _ _ Hok)) as Hc'.
    assert (samples_per_chunk K (cur :: e :: rest) =
      replicate (Z.to_nat (stsc_chunk e - c)) (Z.to_nat s) ++ samples_per_chunk K (e :: rest)) as Hspc by done.
    rewrite Hspc in *. rewrite take_app, length_replicate, take_replicate, Nat.min_r, sum_list_app,
      sum_list_replicate in Hlt by lia.
    rewrite sum_list_app, sum_list_replicate in Hsum.
    replace (Z.to_nat (K - c) - Z.to_nat (stsc_chunk e - c))%nat with (Z.to_nat (K - stsc_chunk e)) in Hlt by lia.
    rewrite (wrapU_small 32 (stsc_chunk e - c)), (wrapU_small 32 ((stsc_chunk e - c) * s)) by nia.
    destruct (Z.leb_spec sample ((stsc_chunk e - c) * s)); [nia|].
    rewrite (wrapU_small 32 (sample - _)) by nia. apply IH; try done; try nia. by apply stsc_ok_tail in Hok.
Qed.

(** The tables of the samples leave the table of the chunks alone. *)
Definition same_chunks (t t' : ngx_http_mp4_trak_t) : Prop :=
  stsc_data t' = stsc_data t /\ sample_to_chunk_entries t' = sample_to_chunk_entries t /\
  chunks t' = chunks t.

Lemma stts_same_chunks start t t' :
  ngx_http_mp4_update_stts_atom start t = Some t' -> same_chunks t t'.
Proof.
  unfold ngx_http_mp4_update_stts_atom. destruct (stts_data t) as [l|]; [|done].
  destruct (stts_loop _ _ _ _) as [[[? ?] ?]|]; [|done]. intros [= <-]. by destruct t.
Qed.

Lemma stss_same_chunks t t' :
  ngx_http_mp4_update_stss_atom t = Some t' -> same_chunks t t' /\ start_sample t' = start_sample t.
Proof.
  unfold ngx_http_mp4_update_stss_atom. destruct (stss_data t) as [l|]; [|by intros [= <-]].
  destruct (stss_loop _ _ _) as [[? ?]|]; [|done]. intros [= <-]. by destruct t.
Qed.

Lemma ctts_same_chunks t :
  same_chunks t (ngx_http_mp4_update_ctts_atom t) /\
  start_sample (ngx_http_mp4_update_ctts_atom t) = start_sample t.
Proof.
  unfold ngx_http_mp4_update_ctts_atom. destruct (ctts_data t) as [l|]; [|done].
  destruct (ctts_loop _ _ _) as [[? ?]|]; by destruct t.
Qed.

(** The start time is that of a sample of the last chunk, after its first one. *)
Definition in_last_chunk (start : Z) (t : ngx_http_mp4_trak_t) : Prop :=
  start_time start t < total (durations t) /\
  (sum_list (take (Z.to_nat (chunks t - 1)) (chunk_counts t)) < first_sample start t)%nat.

(** the last chunk cannot be sought into.  The search of
    ngx_http_mp4_update_stsc_atom counts one chunk too few for the last entry
    (next_chunk = trak->chunks), so a start time after the first sample of the
    last chunk ends in NGX_ERROR although the track has that sample. *)
Theorem mp4_last_chunk_refused start t :
  consistent t -> in_last_chunk start t -> update_trak start t = Ret None.
Proof.
  intros Hc [Ht Hlt]. set (k := first_sample start t) in *.
  destruct (c_stts t Hc) as (stts & Hstts & Hok1 & Hn1 & Hl1).
  destruct (c_stsc t Hc) as (e & rest & Hstsc & Hfirst & He & Hok4 & Hn4 & Hl4).
  destruct (c_stsz t Hc) as (sizes & _ & _ & _ & Hl5 & Hdur & Hcnt & _). destruct (c_chunks t Hc) as [Hch HK].
  assert (chunk_counts t = samples_per_chunk (chunks t) (e :: rest)) as Hcc.
  { unfold chunk_counts, stsc_table. by rewrite Hfirst, Hstsc, Hch. }
  destruct (update_stts_spec start t stts) as (es & H1 & _ & Hk); try done; [lia|]. fold k in H1, Hk.
  unfold update_trak. destruct (ngx_http_mp4_update_stts_atom start t) as [t1|] eqn:E; [|done].
  destruct (stts_same_chunks _ _ _ E) as (A1 & A2 & A3).
  assert (start_sample t1 = Z.of_nat k) as A4 by (injection H1 as ->; by destruct t). clear H1 E.
  destruct (ngx_http_mp4_update_stss_atom t1) as [t2|] eqn:E; [|done].
  destruct (stss_same_chunks _ _ E) as [(B1 & B2 & B3) B4].
  destruct (ctts_same_chunks t2) as [(C1 & C2 & C3) C4].
  unfold ngx_http_mp4_update_stsc_atom.
  rewrite C1, B1, A1, C2, B2, A2, C4, B4, A4, C3, B3, A3, Hstsc, Hn4.
  destruct (Z.eqb_spec (Z.of_nat (S (length rest))) 0); [lia|].
  rewrite wrapU_small by lia. rewrite stsc_loop_last; try done; try lia.
  - rewrite <- Hcc. lia.
  - rewrite He, <- Hcc. lia.
Qed.

(** * Atoms of 64-bit size *)

(** An atom with a 64-bit size of 0. *)
Definition empty_atom (name : list Z) : list Z := [0; 0; 0; 1] ++ name ++ repeat 0 8.

Lemma empty_atom_stays file atoms end_ m name fuel :
  0 <= offset m < end_ -> end_ < 2 ^ 63 - 1 -> 16 <= avail m < 2 ^ 63 ->
  take 16 (drop (Z.to_nat (offset m)) file) = empty_atom name -> length name = 4%nat ->
  find_handler atoms name = None ->
  read_atom_loop file fuel atoms end_ m = NoFuel.
Proof.
  intros Ho He Ha Hf Hn Hh. induction fuel as [|fuel IH]; [done|]. cbn [read_atom_loop].
  destruct (Z.ltb_spec (offset m) end_); [|lia].
  assert (forall n k, n <= 16 -> reading file m n k = k m) as Hr.
  { intros n k Hk. unfold reading, ngx_http_mp4_read. destruct (Z.leb_spec n (avail m)); [done|lia]. }
  assert (forall n, 0 <= n <= 16 -> peek file m 0 n = Ret (take (Z.to_nat n) (empty_atom name))) as Hp.
  { intros n Hk. unfold peek. rewrite Z.sub_0_r, Z.sub_0_r.
    rewrite (proj2 (Z.leb_le n (avail m))), (proj2 (Z.leb_le 0 (offset m))) by lia. cbn [andb].
    rewrite <- Hf, take_take, Nat.min_l by lia. done. }
  destruct name as [|b1 [|b2 [|b3 [|b4 [|]]]]]; try done.
  rewrite Hr, Hp by lia. cbn [outcome_bind empty_atom app take Z.to_nat]. 
  change (ngx_mp4_get_32value _) with 1. cbn [Z.eqb Z.ltb Z.compare Pos.compare Pos.compare_cont].
  rewrite Hr, Hp by lia. cbn [outcome_bind]. change (get64_at 8 _) with 0.
  unfold read_sized. rewrite Hr, Hp by lia. cbn [outcome_bind].
  assert ((0 >? NGX_MAX_OFF_T_VALUE - offset m) || (offset m + 0 >? end_) = false) as ->.
  { apply orb_false_iff. unfold NGX_MAX_OFF_T_VALUE. rewrite !Z.gtb_ltb, !Z.ltb_ge. lia. }
  change (take 4 (drop 4 (take (Z.to_nat 8) (empty_atom [b1; b2; b3; b4])))) with [b1; b2; b3; b4].
  rewrite Hh. unfold ngx_mp4_atom_next. rewrite Z.add_0_r, Z.sub_0_r, !wrapS_small by lia.
  destruct m. exact IH.
Qed.

(** an atom with a 64-bit size of 0 is never passed.  For every file that
    begins with such an atom, of a name without a handler, no number of rounds
    is enough for ngx_http_mp4_process to return: the worker loops at offset 0. *)
Theorem mp4_empty_atom_never_ends fuel file rest name conf_buffer_size max_buffer_size start :
  file = empty_atom name ++ rest -> length name = 4%nat ->
  name <> $"ftyp" -> name <> $"moov" -> name <> $"mdat" ->
  Z.of_nat (length file) < 2 ^ 63 - 1 -> 16 <= conf_buffer_size < 2 ^ 63 ->
  ngx_http_mp4_process fuel file conf_buffer_size max_buffer_size start = NoFuel.
Proof.
  intros Hf Hn H1 H2 H3 Hlen Hb. unfold ngx_http_mp4_process, ngx_http_mp4_read_atom.
  assert (length (empty_atom name) = 16%nat) as H16 by (unfold empty_atom; rewrite !length_app; cbn; lia).
  assert (16 <= Z.of_nat (length file)) as Hl by (rewrite Hf, length_app; lia).
  set (atoms := ngx_http_mp4_atoms _ _ _ _). set (m := mp4_start conf_buffer_size).
  assert (find_handler atoms name = None) as Hh.
  { unfold atoms, ngx_http_mp4_atoms. cbn [find_handler]. by rewrite !bool_decide_false by congruence. }
  change (offset m) with 0. rewrite Z.add_0_l, wrapS_small by (unfold mp4_end; lia).
  set (n := if 0 + conf_buffer_size >? mp4_end file then mp4_end file else conf_buffer_size).
  assert (16 <= n < 2 ^ 63) as Hnr by (unfold n, mp4_end in *; destruct (Z.gtb_spec (0 + conf_buffer_size) (Z.of_nat (length file))); lia).
  set (m1 := set_avail n (set_buffer_size n m)).
  assert (read_atom_loop file fuel atoms (mp4_end file) m = read_atom_loop file fuel atoms (mp4_end file) m1) as ->.
  { destruct fuel as [|fuel]; [done|]. cbn [read_atom_loop]. change (offset m1) with (offset m).
    destruct (offset m <? mp4_end file) eqn:E; [|apply Z.ltb_ge in E; unfold mp4_end in E; cbn in E; lia].
    unfold reading, ngx_http_mp4_read. change (avail m) with 0. change (avail m1) with n.
    rewrite (proj2 (Z.leb_gt 4 0)), (proj2 (Z.leb_le 4 n)) by lia.
    change (offset m) with 0. change (buffer_size m) with conf_buffer_size.
    assert ((if 0 + conf_buffer_size >? mp4_end file then set_buffer_size (wrapU 64 (mp4_end file - 0)) m else m)
      = set_buffer_size n m) as ->.
    { unfold n. destruct (0 + conf_buffer_size >? mp4_end file); [|done].
      rewrite Z.sub_0_r, wrapU_small; [done|unfold mp4_end; lia]. }
    change (buffer_size (set_buffer_size n m)) with n. by rewrite (proj2 (Z.ltb_ge n 4)) by lia. }
  rewrite (empty_atom_stays file atoms (mp4_end file) m1 name); try done; unfold mp4_end; change (offset m1) with 0; try lia.
  rewrite Hf, drop_0. rewrite <- H16. apply take_app_length.
Qed.

(** * A small movie

    One track of 10 samples in 4 chunks, of 3, 3, 2 and 2 samples. *)

Definition atom (name data : list Z) : list Z :=
  ngx_mp4_set_32value (8 + Z.of_nat (length data)) ++ name ++ data.

Definition words (l : list Z) : list Z := flat_map ngx_mp4_set_32value l.

Definition movie (offsets : list Z) : list Z :=
  atom $"moov" (atom $"mvhd" (words [0; 0; 0; 1000; 1000] ++ repeat 0 80) ++
    atom $"trak" (atom $"tkhd" (words [0; 0; 0; 1; 0; 1000] ++ repeat 0 60) ++
      atom $"mdia" (atom $"mdhd" (words [0; 0; 0; 1000; 1000; 0]) ++ atom $"hdlr" [1; 2; 3] ++
        atom $"minf" (atom $"vmhd" [5] ++ atom $"dinf" [6] ++
          atom $"stbl" (atom $"stsd" (words [0; 1; 8] ++ $"avc1") ++
            atom $"stts" (words [0; 1; 10; 100]) ++
            atom $"stss" (words [0; 3; 1; 4; 9]) ++
            atom $"ctts" (words [0; 2; 3; 0; 7; 40]) ++
            atom $"stsc" (words [0; 2; 1; 3; 1; 3; 2; 1]) ++
            atom $"stsz" (words [0; 0; 10; 1; 2; 3; 4; 5; 6; 7; 8; 9; 10]) ++
            atom $"stco" (words ([0; 4] ++ offsets))))))).

Definition movie_file : list Z :=
  Eval vm_compute in
    let base := Z.of_nat (length (movie [0; 0; 0; 0])) + 10 + 8 in
    atom $"ftyp" [9; 9] ++ movie [base; base + 6; base + 21; base + 36]
      ++ atom $"mdat" (map Z.of_nat (seq 100 55)).

(** The state after the atoms are read. *)
Definition movie_read : ngx_http_mp4_file_t :=
  Eval vm_compute in
    match ngx_http_mp4_read_atom movie_file 20 (ngx_http_mp4_atoms movie_file 10000 400 20)
            (mp4_start 10000) (mp4_end movie_file) with
    | Ret (m, _) => m
    | _ => mp4_start 0
    end.

Lemma movie_is_read :
  ngx_http_mp4_read_atom movie_file 20 (ngx_http_mp4_atoms movie_file 10000 400 20)
    (mp4_start 10000) (mp4_end movie_file) = Ret (movie_read, NGX_OK).
Proof. vm_compute. reflexivity. Qed.

Ltac concrete := repeat match goal with
  | |- _ /\ _ => split
  | |- Forall _ _ => constructor
  | |- match ?o with _ => _ end => let v := eval hnf in o in change o with v; cbv iota
  | |- StronglySorted _ _ => constructor
  end; try (cbn; lia); try (vm_compute; reflexivity).

Lemma movie_playable start :
  In start [0; 300; 350; 400] -> Forall (playable start (Z.of_nat (length movie_file))) (trak movie_read).
Proof.
  intros Hs. constructor; [|constructor].
  match goal with |- playable _ _ ?t => set (x := t) end.
  assert (consistent x) as Hc.
  { constructor.
    - eexists. split; [reflexivity|]. concrete.
    - concrete.
    - concrete.
    - eexists _, _. split; [reflexivity|]. concrete.
    - eexists. split; [reflexivity|]. concrete.
    - right. discriminate.
    - concrete.
    - concrete. }
  constructor; [done|constructor; reflexivity|constructor; try split; reflexivity|split; [done|split; reflexivity]| | |].
  - destruct Hs as [<-|[<-|[<-|[<-|[]]]]]; (split; [reflexivity|split; [by apply Nat.leb_le|]]);
    apply Exists_cons_tl, Exists_cons_tl, Exists_cons_hd; reflexivity.
  - vm_compute. concrete; discriminate.
  - vm_compute. concrete; discriminate.
Qed.


(** 900 ms is in the second sample of the last chunk. *)
Lemma mp4_last_chunk_refused_witness :
  exists t, In t (trak movie_read) /\ update_trak 900 t = Ret None.
Proof.
  eexists. split; [by left|]. apply (mp4_last_chunk_refused 900).
  - pose proof (movie_playable 0 ltac:(by left)) as H. apply Forall_cons in H as [H _]. exact (p_consistent _ _ _ H).
  - split; [reflexivity|]. by apply Nat.ltb_lt.
Defined.

Lemma mp4_empty_atom_never_ends_witness :
  ngx_http_mp4_process 1000 (empty_atom $"free") 524288 10485760 1000 = NoFuel.
Proof. by apply (mp4_empty_atom_never_ends 1000 _ [] $"free"). Defined.

(** The chunk before the last one is split wrongly: at 700 ms its last sample
    stands for both chunks that are left. *)
Example mp4_split_near_end :
  exists t t', In t (trak movie_read) /\ update_trak 700 t = Ret (Some t') /\
    length (durations t') = 3%nat /\ chunk_counts t' = [1; 1]%nat.
Proof. eexists _, _. split; [by left|]. split; [vm_compute; reflexivity|]. split; reflexivity. Qed.
