(* ===== verification/NgxSort.v ===== *)
(** The insertion sorts of nginx, ngx_sort of src/core/ngx_string.c and
    ngx_queue_sort of src/core/ngx_queue.c, and ngx_queue_middle.

    A queue is the list of its elements from the head.  Both sorts insert each
    element into the sorted ones before it, searching from the last one
    backwards; [sort_insert] is that search on the reversed list. *)

From stdpp Require Import sorting.
From S2P Require Import Prelude.

#[local] Open Scope Z_scope.

(** * The code *)

(** Those elements for which cmp is positive move up. *)
Fixpoint sort_insert {A} (cmp : A -> A -> Z) (p : A) (before : list A) : list A :=
  match before with
  | [] => [p]
  | q :: before => if cmp q p >? 0 then q :: sort_insert cmp p before else p :: q :: before
  end.

Definition ngx_sort {A} (cmp : A -> A -> Z) (l : list A) : list A :=
  List.rev (fold_left (fun before p => sort_insert cmp p before) l []).

Definition ngx_queue_sort {A} (cmp : A -> A -> Z) (queue : list A) : list A :=
  match queue with
  | [] | [_] => queue
  | q :: rest => List.rev (fold_left (fun before q => sort_insert cmp q before) rest [q])
  end.

(** The loop of ngx_queue_middle; middle, next and last are positions. *)
Fixpoint queue_middle_loop (fuel middle next last : nat) : outcome nat :=
  match fuel with
  | O => NoFuel
  | S fuel =>
    let middle := S middle in
    let next := S next in
    if decide (next = last) then Ret middle
    else
      let next := S next in
      if decide (next = last) then Ret middle else queue_middle_loop fuel middle next last
  end.

Definition ngx_queue_middle {A} (queue : list A) : outcome nat :=
  let last := (length queue - 1)%nat in
  if decide (last = 0%nat) then Ret 0%nat else queue_middle_loop (length queue) 0 0 last.

(** * Their laws *)

Lemma queue_middle_loop_spec fuel m next last :
  (next < last)%nat -> (last - next <= 2 * fuel)%nat ->
  queue_middle_loop fuel m next last = Ret (m + (last - next + 1) / 2)%nat.
Proof.
  revert m next. induction fuel as [|fuel IH]; intros m next H Hf; [lia|]. cbn [queue_middle_loop].
  case_decide as E1; [|case_decide as E2].
  - f_equal. subst. replace (S next - next + 1)%nat with 2%nat by lia. cbn. lia.
  - f_equal. subst. replace (S (S next) - next + 1)%nat with 3%nat by lia. cbn. lia.
  - rewrite IH by lia. f_equal.
    replace (last - next + 1)%nat with ((last - S (S next) + 1) + 1 * 2)%nat by lia.
    rewrite Nat.div_add by lia. lia.
Qed.

(** The middle element of an odd queue, the first of the second half of an even
    one. *)
Lemma ngx_queue_middle_spec {A} (l : list A) : ngx_queue_middle l = Ret (length l / 2)%nat.
Proof.
  unfold ngx_queue_middle. case_decide as E.
  - destruct l as [|a [|b l]]; cbn in E; [done..|lia].
  - rewrite queue_middle_loop_spec by lia. by replace (length l - 1 - 0 + 1)%nat with (length l) by lia.
Qed.

Lemma sort_insert_perm {A} (cmp : A -> A -> Z) p l : sort_insert cmp p l ≡ₚ p :: l.
Proof.
  induction l as [|q l IH]; cbn [sort_insert]; [done|]. case_if E; [|done]. rewrite IH. apply Permutation_swap.
Qed.

Lemma sort_fold_perm {A} (cmp : A -> A -> Z) l acc :
  fold_left (fun before p => sort_insert cmp p before) l acc ≡ₚ l ++ acc.
Proof.
  revert acc. induction l as [|p l IH]; intros acc; cbn [fold_left app]; [done|].
  rewrite IH, sort_insert_perm. symmetry. apply Permutation_middle.
Qed.

Lemma ngx_sort_perm {A} (cmp : A -> A -> Z) l : ngx_sort cmp l ≡ₚ l.
Proof. unfold ngx_sort. by rewrite <- Permutation_rev, sort_fold_perm, app_nil_r. Qed.

(** The two sorts order alike. *)
Lemma ngx_queue_sort_sort {A} (cmp : A -> A -> Z) l : ngx_queue_sort cmp l = ngx_sort cmp l.
Proof. destruct l as [|a [|b l]]; reflexivity. Qed.

Lemma sfilter_rev {A} (P : A -> Prop) `{!forall x, Decision (P x)} l :
  filter P (List.rev l) = List.rev (filter P l).
Proof.
  induction l as [|a l IH]; [done|]. cbn [List.rev]. rewrite filter_app, IH, !filter_cons, filter_nil.
  case_decide; [done|]. by rewrite app_nil_r.
Qed.

(** Elements among which cmp is never positive keep their order. *)
Lemma ngx_sort_stable {A} (cmp : A -> A -> Z) (P : A -> Prop) `{!forall x, Decision (P x)} l :
  (forall x y, P x -> P y -> cmp x y <= 0) ->
  filter P (ngx_sort cmp l) = filter P l.
Proof.
  intros Hle. unfold ngx_sort.
  assert (forall p k, filter P (sort_insert cmp p k) = filter P (p :: k)) as Hi.
  { intros p k. induction k as [|q k IH]; cbn [sort_insert]; [done|]. case_if E; [|done]. boolify.
    rewrite !filter_cons, IH, filter_cons. repeat case_decide; try done. unshelve epose proof (Hle q p _ _); [done..|lia]. }
  assert (forall acc, filter P (List.rev (fold_left (fun before p => sort_insert cmp p before) l acc))
                      = filter P (List.rev acc) ++ filter P l) as Hf; [|by rewrite Hf].
  induction l as [|p l IH]; intros acc; cbn [fold_left].
  { by rewrite filter_nil, app_nil_r. }
  rewrite IH, !sfilter_rev, Hi, !filter_cons. case_decide; [|done].
  cbn [List.rev]. by rewrite <- app_assoc.
Qed.

Section sorted.
Context {A} (cmp : A -> A -> Z) (P : A -> Prop).
Let le x y := cmp x y <= 0.
Context (le_total : forall x y, P x -> P y -> le x y \/ le y x).
Context (le_trans : forall x y z, P x -> P y -> P z -> le x y -> le y z -> le x z).

Lemma sort_insert_sorted p l :
  P p -> Forall P l -> StronglySorted (flip le) l -> StronglySorted (flip le) (sort_insert cmp p l).
Proof.
  intros Hp Hl Hs. induction Hs as [|q l Hs IH Hq]; cbn [sort_insert]; [repeat constructor|].
  apply Forall_cons in Hl as [Pq Pl]. case_if E; boolify.
  - constructor; [by apply IH|]. rewrite sort_insert_perm. constructor; [|done].
    unfold flip, le. destruct (le_total p q) as [?|Hle]; [done..|]. unfold le in Hle. lia.
  - constructor; [by constructor|]. constructor; [done|].
    rewrite Forall_forall in Hq, Pl |- *. intros x Hx. unfold flip in *.
    apply (le_trans x q p); auto.
Qed.

Lemma ngx_sort_sorted l : Forall P l -> StronglySorted le (ngx_sort cmp l).
Proof.
  intros Hl. unfold ngx_sort.
  assert (forall acc, Forall P acc -> StronglySorted (flip le) acc ->
            StronglySorted (flip le) (fold_left (fun before p => sort_insert cmp p before) l acc)) as H.
  { induction Hl as [|p l Hp Hl IH]; intros acc Ha Hs; [done|]. cbn [fold_left].
    apply IH; [by rewrite sort_insert_perm; constructor|by apply sort_insert_sorted]. }
  specialize (H [] ltac:(constructor) ltac:(constructor)).
  induction H as [|q k Hs IH Hq]; cbn [List.rev]; [constructor|].
  apply StronglySorted_app_2; [|done|].
  - intros x y Hx Hy. apply list_elem_of_singleton in Hy as ->.
    rewrite Forall_forall in Hq. apply Hq. by rewrite <- Permutation_rev in Hx.
  - repeat constructor.
Qed.
End sorted.
