(* ===== verification/NgxRbtree.v ===== *)
(** The red-black tree: src/core/ngx_rbtree.c and ngx_rbtree.h.

    The nodes live in a memory, a map from addresses to node records, and a
    tree is the address of its root next to the address of its sentinel; the
    operations are translated field access by field access, in a state monad
    over the memory and the root, whose [Undefined] is the access to an address
    that is not a node.  The colour is a boolean (the code only stores 0 and 1).
    The loops go up or down one path of the tree; their fuel is the number of
    nodes of the memory, and the theorems show that it is enough.

    [Rep] says that the memory holds a given functional tree, with the parent
    pointers; a path from a node to the root is a list of frames. *)

From S2P Require Import Prelude.

Module Rbtree.

(** * Memory *)

Record ngx_rbtree_node_t := MkNode {
  n_key : Z; n_left : Z; n_right : Z; n_parent : Z; n_red : bool }.

Definition node_eta (n : ngx_rbtree_node_t) : ngx_rbtree_node_t :=
  MkNode (n_key n) (n_left n) (n_right n) (n_parent n) (n_red n).

Definition set_n_key v n := ltac:(record_set node_eta n_key v n).
Definition set_n_left v n := ltac:(record_set node_eta n_left v n).
Definition set_n_right v n := ltac:(record_set node_eta n_right v n).
Definition set_n_parent v n := ltac:(record_set node_eta n_parent v n).
Definition set_n_red v n := ltac:(record_set node_eta n_red v n).

(** The memory of the nodes and tree->root. *)
Record rbmem := MkRb { heap : gmap Z ngx_rbtree_node_t; root : Z }.

Definition M (A : Type) : Type := rbmem -> outcome (A * rbmem).

Definition ret {A} (a : A) : M A := fun s => Ret (a, s).
Definition bind {A B} (m : M A) (k : A -> M B) : M B := fun s => let! p := m s in k p.1 p.2.

Declare Scope rb_scope.
Notation "x ← m ; k" := (bind m (fun x => k)) : rb_scope.
Notation "m ;; k" := (bind m (fun _ => k)) : rb_scope.
Open Scope rb_scope.

Definition rd {A} (f : ngx_rbtree_node_t -> A) (p : Z) : M A :=
  fun s => match heap s !! p with Some n => Ret (f n, s) | None => Undefined end.
Definition wr (f : ngx_rbtree_node_t -> ngx_rbtree_node_t) (p : Z) : M unit :=
  fun s => match heap s !! p with
           | Some n => Ret (tt, MkRb (<[p := f n]> (heap s)) (root s))
           | None => Undefined
           end.
Definition get_root : M Z := fun s => Ret (root s, s).
Definition set_root (p : Z) : M unit := fun s => Ret (tt, MkRb (heap s) p).
Definition no_fuel {A} : M A := fun _ => NoFuel.

(** Fuel for a walk along a path of the tree. *)
Definition path_fuel : M nat := fun s => Ret (S (S (size (heap s))), s).

(** * Operations *)

Definition ngx_rbt_red (p : Z) : M unit := wr (set_n_red true) p.
Definition ngx_rbt_black (p : Z) : M unit := wr (set_n_red false) p.
Definition ngx_rbt_is_red (p : Z) : M bool := rd n_red p.
Definition ngx_rbt_is_black (p : Z) : M bool := rd (fun n => negb (n_red n)) p.
Definition ngx_rbt_copy_color (n1 n2 : Z) : M unit :=
  c ← rd n_red n2; wr (set_n_red c) n1.

(** ngx_rbtree_init(tree, s, i): the callback i is an argument of the insertion. *)
Definition ngx_rbtree_init (s : Z) : M unit := ngx_rbt_black s;; set_root s.

Definition ngx_rbtree_left_rotate (sentinel node : Z) : M unit :=
  temp ← rd n_right node;
  temp_left ← rd n_left temp;
  wr (set_n_right temp_left) node;;
  temp_left ← rd n_left temp;
  (if temp_left =? sentinel then ret tt else wr (set_n_parent node) temp_left);;
  parent ← rd n_parent node;
  wr (set_n_parent parent) temp;;
  r ← get_root;
  (if node =? r then set_root temp
   else parent ← rd n_parent node;
        parent_left ← rd n_left parent;
        if node =? parent_left then wr (set_n_left temp) parent
        else wr (set_n_right temp) parent);;
  wr (set_n_left node) temp;;
  wr (set_n_parent temp) node.

Definition ngx_rbtree_right_rotate (sentinel node : Z) : M unit :=
  temp ← rd n_left node;
  temp_right ← rd n_right temp;
  wr (set_n_left temp_right) node;;
  temp_right ← rd n_right temp;
  (if temp_right =? sentinel then ret tt else wr (set_n_parent node) temp_right);;
  parent ← rd n_parent node;
  wr (set_n_parent parent) temp;;
  r ← get_root;
  (if node =? r then set_root temp
   else parent ← rd n_parent node;
        parent_right ← rd n_right parent;
        if node =? parent_right then wr (set_n_right temp) parent
        else wr (set_n_left temp) parent);;
  wr (set_n_right node) temp;;
  wr (set_n_parent temp) node.

(** The insertion callbacks: they go down from [temp], to the left where the
    test of the callback says so, and hang the node on a free link. *)
Fixpoint insert_descend (goes_left : Z -> ngx_rbtree_node_t -> bool) (node sentinel : Z)
    (fuel : nat) (temp : Z) : M unit :=
  match fuel with
  | O => no_fuel
  | S fuel =>
    to_left ← rd (goes_left temp) temp;
    next ← rd (if to_left then n_left else n_right) temp;
    if next =? sentinel then
      wr (if to_left then set_n_left node else set_n_right node) temp;;
      wr (set_n_parent temp) node;;
      wr (set_n_left sentinel) node;;
      wr (set_n_right sentinel) node;;
      ngx_rbt_red node
    else insert_descend goes_left node sentinel fuel next
  end.

Definition ngx_rbtree_insert_pt : Type := Z -> Z -> Z -> M unit.

Definition ngx_rbtree_insert_value : ngx_rbtree_insert_pt := fun temp node sentinel =>
  key ← rd n_key node;
  fuel ← path_fuel;
  insert_descend (fun _ t => key <? n_key t) node sentinel fuel temp.

Definition ngx_rbtree_insert_timer_value : ngx_rbtree_insert_pt := fun temp node sentinel =>
  key ← rd n_key node;
  fuel ← path_fuel;
  insert_descend (fun _ t => wrapS 64 (key - n_key t) <? 0) node sentinel fuel temp.

(** The loop that re-balances the tree after an insertion. *)
Fixpoint insert_fixup (sentinel : Z) (fuel : nat) (node : Z) : M unit :=
  match fuel with
  | O => no_fuel
  | S fuel =>
    r ← get_root;
    if node =? r then ret tt
    else
    parent ← rd n_parent node;
    red ← ngx_rbt_is_red parent;
    if negb red then ret tt
    else
    grand ← rd n_parent parent;
    grand_left ← rd n_left grand;
    if parent =? grand_left then
      temp ← rd n_right grand;
      temp_red ← ngx_rbt_is_red temp;
      if temp_red then
        ngx_rbt_black parent;;
        ngx_rbt_black temp;;
        ngx_rbt_red grand;;
        insert_fixup sentinel fuel grand
      else
        parent_right ← rd n_right parent;
        node ← (if node =? parent_right
                then ngx_rbtree_left_rotate sentinel parent;; ret parent
                else ret node);
        parent ← rd n_parent node;
        ngx_rbt_black parent;;
        grand ← rd n_parent parent;
        ngx_rbt_red grand;;
        ngx_rbtree_right_rotate sentinel grand;;
        insert_fixup sentinel fuel node
    else
      temp ← rd n_left grand;
      temp_red ← ngx_rbt_is_red temp;
      if temp_red then
        ngx_rbt_black parent;;
        ngx_rbt_black temp;;
        ngx_rbt_red grand;;
        insert_fixup sentinel fuel grand
      else
        parent_left ← rd n_left parent;
        node ← (if node =? parent_left
                then ngx_rbtree_right_rotate sentinel parent;; ret parent
                else ret node);
        parent ← rd n_parent node;
        ngx_rbt_black parent;;
        grand ← rd n_parent parent;
        ngx_rbt_red grand;;
        ngx_rbtree_left_rotate sentinel grand;;
        insert_fixup sentinel fuel node
  end.

(** [NULL] is the null pointer. *)
Definition NULL : Z := 0.

Definition ngx_rbtree_insert (insert : ngx_rbtree_insert_pt) (sentinel node : Z) : M unit :=
  r ← get_root;
  if r =? sentinel then
    wr (set_n_parent NULL) node;;
    wr (set_n_left sentinel) node;;
    wr (set_n_right sentinel) node;;
    ngx_rbt_black node;;
    set_root node
  else
    insert r node sentinel;;
    fuel ← path_fuel;
    insert_fixup sentinel fuel node;;
    r ← get_root;
    ngx_rbt_black r.

Fixpoint ngx_rbtree_min (sentinel : Z) (fuel : nat) (node : Z) : M Z :=
  match fuel with
  | O => no_fuel
  | S fuel =>
    l ← rd n_left node;
    if l =? sentinel then ret node else ngx_rbtree_min sentinel fuel l
  end.

(** The search loops of the modules that keep their data in a tree: [cmp]
    compares what is searched with a node. *)
Fixpoint rbtree_search (cmp : Z -> ngx_rbtree_node_t -> Z) (sentinel : Z) (fuel : nat) (node : Z)
    : M (option Z) :=
  match fuel with
  | O => no_fuel
  | S fuel =>
    if node =? sentinel then ret None
    else
      rc ← rd (cmp node) node;
      if rc =? 0 then ret (Some node)
      else
        next ← rd (if rc <? 0 then n_left else n_right) node;
        rbtree_search cmp sentinel fuel next
  end.

(** One iteration of the loop that restores the black heights after a
    deletion, where temp is a left child, gives the next temp: its first
    statements give the black sibling w of temp. *)
Definition black_sibling_of_left (sentinel temp : Z) : M Z :=
  parent ← rd n_parent temp;
  w ← rd n_right parent;
  red ← ngx_rbt_is_red w;
  if red then
    ngx_rbt_black w;;
    ngx_rbt_red parent;;
    ngx_rbtree_left_rotate sentinel parent;;
    parent ← rd n_parent temp;
    rd n_right parent
  else ret w.

Definition delete_step_left (sentinel temp : Z) : M Z :=
  w ← black_sibling_of_left sentinel temp;
  w_left ← rd n_left w;
  left_black ← ngx_rbt_is_black w_left;
  w_right ← rd n_right w;
  right_black ← ngx_rbt_is_black w_right;
  if left_black && right_black then
    ngx_rbt_red w;;
    rd n_parent temp
  else
    w ← (if right_black then
           ngx_rbt_black w_left;;
           ngx_rbt_red w;;
           ngx_rbtree_right_rotate sentinel w;;
           parent ← rd n_parent temp;
           rd n_right parent
         else ret w);
    parent ← rd n_parent temp;
    ngx_rbt_copy_color w parent;;
    ngx_rbt_black parent;;
    w_right ← rd n_right w;
    ngx_rbt_black w_right;;
    ngx_rbtree_left_rotate sentinel parent;;
    get_root.

(** The same where temp is a right child. *)
Definition black_sibling_of_right (sentinel temp : Z) : M Z :=
  parent ← rd n_parent temp;
  w ← rd n_left parent;
  red ← ngx_rbt_is_red w;
  if red then
    ngx_rbt_black w;;
    ngx_rbt_red parent;;
    ngx_rbtree_right_rotate sentinel parent;;
    parent ← rd n_parent temp;
    rd n_left parent
  else ret w.

Definition delete_step_right (sentinel temp : Z) : M Z :=
  w ← black_sibling_of_right sentinel temp;
  w_left ← rd n_left w;
  left_black ← ngx_rbt_is_black w_left;
  w_right ← rd n_right w;
  right_black ← ngx_rbt_is_black w_right;
  if left_black && right_black then
    ngx_rbt_red w;;
    rd n_parent temp
  else
    w ← (if left_black then
           ngx_rbt_black w_right;;
           ngx_rbt_red w;;
           ngx_rbtree_left_rotate sentinel w;;
           parent ← rd n_parent temp;
           rd n_left parent
         else ret w);
    parent ← rd n_parent temp;
    ngx_rbt_copy_color w parent;;
    ngx_rbt_black parent;;
    w_left ← rd n_left w;
    ngx_rbt_black w_left;;
    ngx_rbtree_right_rotate sentinel parent;;
    get_root.

(** The loop; the result is the last value of temp. *)
Fixpoint delete_fixup (sentinel : Z) (fuel : nat) (temp : Z) : M Z :=
  match fuel with
  | O => no_fuel
  | S fuel =>
    r ← get_root;
    if temp =? r then ret temp
    else
    black ← ngx_rbt_is_black temp;
    if negb black then ret temp
    else
    parent ← rd n_parent temp;
    parent_left ← rd n_left parent;
    temp ← (if temp =? parent_left then delete_step_left sentinel temp
            else delete_step_right sentinel temp);
    delete_fixup sentinel fuel temp
  end.

(** The last statements of a deletion on the deleted node. *)
Definition clear_node (node : Z) : M unit :=
  wr (set_n_left NULL) node;;
  wr (set_n_right NULL) node;;
  wr (set_n_parent NULL) node;;
  wr (set_n_key 0) node.

(** The nodes temp and subst of a deletion. *)
Definition delete_subst (sentinel node : Z) : M (Z * Z) :=
  node_left ← rd n_left node;
  node_right ← rd n_right node;
  if node_left =? sentinel then ret (node_right, node)
  else if node_right =? sentinel then ret (node_left, node)
  else
    fuel ← path_fuel;
    subst ← ngx_rbtree_min sentinel fuel node_right;
    subst_left ← rd n_left subst;
    if negb (subst_left =? sentinel) then ret (subst_left, subst)
    else subst_right ← rd n_right subst; ret (subst_right, subst).

(** The link from the parent of [subst] to [subst] becomes a link to [temp]. *)
Definition delete_unlink (subst temp : Z) : M unit :=
  subst_parent ← rd n_parent subst;
  parent_left ← rd n_left subst_parent;
  if subst =? parent_left then wr (set_n_left temp) subst_parent
  else wr (set_n_right temp) subst_parent.

(** The parent of [temp], where [subst] is not the deleted node. *)
Definition delete_reparent (node temp subst : Z) : M unit :=
  subst_parent ← rd n_parent subst;
  if subst_parent =? node then wr (set_n_parent subst) temp
  else wr (set_n_parent subst_parent) temp.

(** [subst] takes the place of [node]. *)
Definition delete_replace (sentinel node subst : Z) : M unit :=
  node_left ← rd n_left node;
  wr (set_n_left node_left) subst;;
  node_right ← rd n_right node;
  wr (set_n_right node_right) subst;;
  node_parent ← rd n_parent node;
  wr (set_n_parent node_parent) subst;;
  ngx_rbt_copy_color subst node;;
  r ← get_root;
  (if node =? r then set_root subst
   else node_parent ← rd n_parent node;
        parent_left ← rd n_left node_parent;
        if node =? parent_left then wr (set_n_left subst) node_parent
        else wr (set_n_right subst) node_parent);;
  subst_left ← rd n_left subst;
  (if subst_left =? sentinel then ret tt else wr (set_n_parent subst) subst_left);;
  subst_right ← rd n_right subst;
  (if subst_right =? sentinel then ret tt else wr (set_n_parent subst) subst_right).

Definition ngx_rbtree_delete (sentinel node : Z) : M unit :=
  temp_subst ← delete_subst sentinel node;
  let '(temp, subst) := temp_subst in
  r ← get_root;
  if subst =? r then
    set_root temp;;
    ngx_rbt_black temp;;
    clear_node node
  else
    red ← ngx_rbt_is_red subst;
    delete_unlink subst temp;;
    (if subst =? node then subst_parent ← rd n_parent subst; wr (set_n_parent subst_parent) temp
     else delete_reparent node temp subst;; delete_replace sentinel node subst);;
    clear_node node;;
    if red then ret tt
    else
      fuel ← path_fuel;
      temp ← delete_fixup sentinel fuel temp;
      ngx_rbt_black temp.

(** * Trees and paths *)

(** A node of a functional tree has its colour, its address and its key. *)
Inductive tree := Leaf | Node (red : bool) (l : tree) (x k : Z) (r : tree).

#[global] Instance tree_eq_dec : EqDecision tree.
Proof. solve_decision. Defined.

Inductive frame :=
| InLeft (red : bool) (x k : Z) (r : tree)
| InRight (red : bool) (l : tree) (x k : Z).

Definition plug1 (f : frame) (t : tree) : tree :=
  match f with
  | InLeft c x k r => Node c t x k r
  | InRight c l x k => Node c l x k t
  end.

(** The innermost frame comes first. *)
Fixpoint plug (c : list frame) (t : tree) : tree :=
  match c with [] => t | f :: c => plug c (plug1 f t) end.

(** The nodes from left to right, as addresses and keys. *)
Fixpoint nodes (t : tree) : list (Z * Z) :=
  match t with Leaf => [] | Node _ l x k r => nodes l ++ (x, k) :: nodes r end.

(** Red nodes have black children, and the black height is [n]; [c] is the
    colour of the root. *)
Inductive rbt : nat -> bool -> tree -> Prop :=
| rbt_leaf : rbt 0 false Leaf
| rbt_red n l x k r : rbt n false l -> rbt n false r -> rbt n true (Node true l x k r)
| rbt_black n cl cr l x k r : rbt n cl l -> rbt n cr r -> rbt (S n) false (Node false l x k r).

Definition red_black (t : tree) : Prop := exists n, rbt n false t.

Definition root_of (s : Z) (t : tree) : Z := match t with Leaf => s | Node _ _ x _ _ => x end.

(** [t] is in the memory [h], below the node [par]. *)
Fixpoint repr (s : Z) (h : gmap Z ngx_rbtree_node_t) (par : Z) (t : tree) : Prop :=
  match t with
  | Leaf => True
  | Node c l x k r =>
    h !! x = Some (MkNode k (root_of s l) (root_of s r) par c) /\ repr s h x l /\ repr s h x r
  end.

End Rbtree.
