(* ===== verification/NgxRbtreeRep.v ===== *)
(** The red-black tree in memory: what the rotations and the recolourings of
    NgxRbtree do to the functional tree the memory holds.

    [wp] is the weakest precondition of a computation: it ends, makes no
    undefined access, and its result satisfies the postcondition. *)

From S2P Require Import Prelude NgxRbtree.

Module RbtreeRep.

Export Rbtree.

(** * Weakest preconditions *)

Definition wp {A} (m : M A) (Q : A -> rbmem -> Prop) (st : rbmem) : Prop :=
  match m st with Ret (a, st') => Q a st' | _ => False end.

Lemma wp_ret {A} (a : A) Q st : Q a st -> wp (ret a) Q st.
Proof. done. Qed.

Lemma wp_bind {A B} (m : M A) (k : A -> M B) Q st :
  wp m (fun a st' => wp (k a) Q st') st -> wp (bind m k) Q st.
Proof. unfold wp, bind. by destruct (m st) as [[a st']| |]. Qed.

Lemma wp_mono {A} (m : M A) (P Q : A -> rbmem -> Prop) st :
  wp m P st -> (forall a st', P a st' -> Q a st') -> wp m Q st.
Proof. unfold wp. destruct (m st) as [[a st']| |]; auto. Qed.

Lemma wp_elim {A} (m : M A) Q st : wp m Q st -> exists a st', m st = Ret (a, st') /\ Q a st'.
Proof. unfold wp. destruct (m st) as [[a st']| |]; eauto; done. Qed.

Lemma wp_rd {A} (f : ngx_rbtree_node_t -> A) p n Q st :
  heap st !! p = Some n -> Q (f n) st -> wp (rd f p) Q st.
Proof. unfold wp, rd. by intros ->. Qed.

Lemma wp_wr f p n (Q : unit -> rbmem -> Prop) st :
  heap st !! p = Some n -> Q tt (MkRb (<[p := f n]> (heap st)) (root st)) -> wp (wr f p) Q st.
Proof. unfold wp, wr. by intros ->. Qed.

Lemma wp_get_root Q st : Q (root st) st -> wp get_root Q st.
Proof. done. Qed.

Lemma wp_set_root p (Q : unit -> rbmem -> Prop) st : Q tt (MkRb (heap st) p) -> wp (set_root p) Q st.
Proof. done. Qed.

Lemma wp_path_fuel (Q : nat -> rbmem -> Prop) st :
  Q (S (S (size (heap st)))) st -> wp path_fuel Q st.
Proof. done. Qed.

(** * The set of nodes is never changed *)

Definition keeps {A} (m : M A) : Prop :=
  forall st a st', m st = Ret (a, st') -> dom (heap st') = dom (heap st).

Lemma keeps_bind {A B} (m : M A) (k : A -> M B) :
  keeps m -> (forall a, keeps (k a)) -> keeps (bind m k).
Proof.
  intros Hm Hk st b st'. unfold bind. destruct (m st) as [[a st1]| |] eqn:E; cbn; [|done..].
  intros H%Hk. rewrite H. by eapply Hm.
Qed.

Lemma keeps_ret {A} (a : A) : keeps (ret a).
Proof. by intros st b st' [= _ <-]. Qed.

Lemma keeps_rd {A} (f : _ -> A) p : keeps (rd f p).
Proof. intros st b st'. unfold rd. destruct (_ !! _); [intros [= _ <-]|]; done. Qed.

Lemma keeps_wr f p : keeps (wr f p).
Proof.
  intros st b st'. unfold wr. destruct (_ !! _) eqn:E; [|done]. intros [= _ <-]. cbn.
  apply dom_insert_lookup_L. eauto.
Qed.

Lemma keeps_root : keeps get_root /\ (forall p, keeps (set_root p)) /\ keeps path_fuel.
Proof. split_and!; [intros st b st'| intros p st b st' | intros st b st']; by intros [= _ <-]. Qed.

Lemma keeps_no_fuel {A} : keeps (@no_fuel A).
Proof. by intros st b st'. Qed.

Lemma wp_keeps {A} (m : M A) (Q : A -> rbmem -> Prop) st :
  keeps m -> wp m Q st -> wp m (fun a st' => Q a st' /\ dom (heap st') = dom (heap st)) st.
Proof. intros Hk. unfold wp. destruct (m st) as [[a st']| |] eqn:E; eauto. Qed.

Ltac keeps_step :=
  first [ apply keeps_bind; [|intros ?] | apply keeps_ret | apply keeps_rd | apply keeps_wr
        | apply keeps_root | apply keeps_no_fuel
        | match goal with |- keeps (if ?b then _ else _) => destruct b end
        | match goal with |- keeps (let '(_, _) := ?p in _) => destruct p end ].

Ltac keeps := repeat keeps_step.

Lemma keeps_left_rotate s x : keeps (ngx_rbtree_left_rotate s x).
Proof. unfold ngx_rbtree_left_rotate. keeps. Qed.

Lemma keeps_right_rotate s x : keeps (ngx_rbtree_right_rotate s x).
Proof. unfold ngx_rbtree_right_rotate. keeps. Qed.

Lemma keeps_min s fuel x : keeps (ngx_rbtree_min s fuel x).
Proof. revert x. induction fuel as [|fuel IH]; intros x; cbn [ngx_rbtree_min]; keeps. apply IH. Qed.

Lemma keeps_descend g x s fuel y : keeps (insert_descend g x s fuel y).
Proof. revert y. induction fuel as [|fuel IH]; intros y; cbn [insert_descend]; keeps. apply IH. Qed.

Lemma keeps_insert_fixup s fuel x : keeps (insert_fixup s fuel x).
Proof.
  revert x. induction fuel as [|fuel IH]; intros x; cbn [insert_fixup]; keeps;
    solve [apply IH | apply keeps_left_rotate | apply keeps_right_rotate].
Qed.

Lemma keeps_delete_fixup s fuel x : keeps (delete_fixup s fuel x).
Proof.
  revert x. induction fuel as [|fuel IH]; intros x; cbn [delete_fixup]; keeps;
    unfold delete_step_left, delete_step_right, black_sibling_of_left, black_sibling_of_right; keeps;
    solve [apply IH | apply keeps_left_rotate | apply keeps_right_rotate].
Qed.

(** The operations change the records of nodes and add or remove none. *)
Lemma keeps_insert ins s x : (forall t, keeps (ins t x s)) -> keeps (ngx_rbtree_insert ins s x).
Proof.
  intros Hins. unfold ngx_rbtree_insert. keeps; [apply Hins|apply keeps_insert_fixup].
Qed.

Lemma keeps_delete s x : keeps (ngx_rbtree_delete s x).
Proof.
  unfold ngx_rbtree_delete, delete_subst, delete_unlink, delete_reparent, delete_replace, clear_node.
  keeps; solve [apply keeps_min | apply keeps_delete_fixup].
Qed.

(** * Addresses and paths *)

Fixpoint addrs (t : tree) : list Z :=
  match t with Leaf => [] | Node _ l x _ r => x :: addrs l ++ addrs r end.

Lemma addrs_nodes t : addrs t ≡ₚ (nodes t).*1.
Proof.
  induction t as [|c l IHl x k r IHr]; [done|]. cbn. rewrite fmap_app; cbn.
  rewrite IHl, IHr. by rewrite Permutation_middle.
Qed.

Definition frame_addr (f : frame) : Z := match f with InLeft _ x _ _ | InRight _ _ x _ => x end.
Definition frame_red (f : frame) : bool := match f with InLeft c _ _ _ | InRight c _ _ _ => c end.
Definition frame_tree (f : frame) : tree := match f with InLeft _ _ _ t | InRight _ t _ _ => t end.

Definition caddrs (c : list frame) : list Z :=
  flat_map (fun f => frame_addr f :: addrs (frame_tree f)) c.

Fixpoint before (c : list frame) : list (Z * Z) :=
  match c with
  | [] => []
  | InLeft _ _ _ _ :: c => before c
  | InRight _ l x k :: c => before c ++ nodes l ++ [(x, k)]
  end.
Fixpoint after (c : list frame) : list (Z * Z) :=
  match c with
  | [] => []
  | InLeft _ x k r :: c => (x, k) :: nodes r ++ after c
  | InRight _ _ _ _ :: c => after c
  end.

Lemma nodes_plug c t : nodes (plug c t) = before c ++ nodes t ++ after c.
Proof.
  revert t. induction c as [|[red x k r|red l x k] c IH]; intros t; cbn.
  - by rewrite app_nil_r.
  - rewrite IH. cbn. by rewrite <- app_assoc.
  - rewrite IH. cbn. by rewrite <- !app_assoc.
Qed.

Lemma before_app c d : before (c ++ d) = before d ++ before c.
Proof. induction c as [|[] c IH]; cbn; rewrite ?app_nil_r, ?IH, <- ?app_assoc; done. Qed.

Lemma after_app c d : after (c ++ d) = after c ++ after d.
Proof. induction c as [|[] c IH]; cbn; rewrite ?IH, <- ?app_assoc; done. Qed.

Lemma addrs_plug c t : addrs (plug c t) ≡ₚ addrs t ++ caddrs c.
Proof.
  revert t. induction c as [|[red x k r|red l x k] c IH]; intros t; cbn.
  - by rewrite app_nil_r.
  - rewrite IH. cbn. rewrite <- Permutation_middle, app_assoc. done.
  - rewrite IH. cbn. rewrite <- Permutation_middle, app_assoc, (Permutation_app_comm (addrs l)). done.
Qed.

Lemma plug_app c d t : plug (c ++ d) t = plug d (plug c t).
Proof. revert t. induction c as [|f c IH]; intros t; cbn; auto. Qed.

Definition par_of (p0 : Z) (c : list frame) : Z :=
  match c with [] => p0 | f :: _ => frame_addr f end.

(** The frames [c] are in the memory, around a tree whose root is at [p]. *)
Fixpoint reprc (s : Z) (h : gmap Z ngx_rbtree_node_t) (p0 : Z) (c : list frame) (p : Z) : Prop :=
  match c with
  | [] => True
  | InLeft red x k r :: c =>
    h !! x = Some (MkNode k p (root_of s r) (par_of p0 c) red) /\ repr s h x r /\ reprc s h p0 c x
  | InRight red l x k :: c =>
    h !! x = Some (MkNode k (root_of s l) p (par_of p0 c) red) /\ repr s h x l /\ reprc s h p0 c x
  end.

Lemma repr_plug s h p0 c t :
  repr s h p0 (plug c t) <-> reprc s h p0 c (root_of s t) /\ repr s h (par_of p0 c) t.
Proof.
  revert t. induction c as [|[red x k r|red l x k] c IH]; intros t; cbn; [tauto| |].
  - rewrite IH; cbn. tauto.
  - rewrite IH; cbn. tauto.
Qed.

Lemma root_plug s c t :
  root_of s (plug c t) = match last c with None => root_of s t | Some f => frame_addr f end.
Proof.
  revert t. induction c as [|f c IH]; intros t; cbn; [done|]. rewrite IH.
  destruct c as [|g c]; [by destruct f|].
  change (last (f :: g :: c)) with (last (g :: c)).
  destruct (last (g :: c)) eqn:E; [done|]. by apply last_None in E.
Qed.

Lemma last_frame_in f c : exists g, last (f :: c) = Some g /\ frame_addr g ∈ caddrs (f :: c).
Proof.
  revert f. induction c as [|g c IH]; intros f.
  - exists f. split; [done|]. cbn. constructor.
  - destruct (IH g) as (g' & Hl & Hin). exists g'. split; [by rewrite <- Hl|].
    change (caddrs (f :: g :: c)) with ((frame_addr f :: addrs (frame_tree f)) ++ caddrs (g :: c)).
    apply elem_of_app. by right.
Qed.

(** * Frame rules *)

Lemma repr_insert s h par t a n : a ∉ addrs t -> repr s h par t -> repr s (<[a := n]> h) par t.
Proof.
  revert par. induction t as [|c l IHl x k r IHr]; intros par; cbn; [done|].
  rewrite not_elem_of_cons, not_elem_of_app. intros (Hx & Hl & Hr) (H & H1 & H2).
  rewrite lookup_insert_ne by done. auto.
Qed.

Lemma reprc_insert s h p0 c p a n :
  a ∉ caddrs c -> reprc s h p0 c p -> reprc s (<[a := n]> h) p0 c p.
Proof.
  revert p. induction c as [|[red x k t|red t x k] c IH]; intros p; cbn; [done| |];
    rewrite not_elem_of_cons, not_elem_of_app; intros (Hx & Hl & Hr) (H & H1 & H2);
    rewrite lookup_insert_ne by done; auto using repr_insert.
Qed.

(** * The memory holds a tree *)

Record Rep (s : Z) (sn : ngx_rbtree_node_t) (t : tree) (st : rbmem) : Prop := MkRep {
  rep_tree : exists p0, repr s (heap st) p0 t;
  rep_root : root st = root_of s t;
  rep_nodup : NoDup (s :: addrs t);
  rep_sentinel : heap st !! s = Some sn }.

Lemma NoDup_pull {A} (l k : list A) x : NoDup (l ++ x :: k) -> (x ∉ l ++ k) /\ NoDup (l ++ k).
Proof. rewrite <- Permutation_middle. apply NoDup_cons. Qed.

(** The tactic that takes the addresses of a [NoDup] hypothesis apart. *)
Ltac nodup_split :=
  repeat match goal with
  | H : _ ∉ _ :: _ |- _ => apply not_elem_of_cons in H as [? H]
  | H : _ ∉ _ ++ _ |- _ => apply not_elem_of_app in H as [? H]
  | H : NoDup (_ :: _) |- _ => apply NoDup_cons in H as [? H]
  | H : NoDup ?l |- _ =>
    match l with context [_ :: _] =>
      rewrite ?app_assoc in H; apply NoDup_pull in H as [? H];
      rewrite <- ?app_assoc in H; cbn [app] in H
    end
  end.

Ltac simpl_node :=
  cbv beta delta [set_n_key set_n_left set_n_right set_n_parent set_n_red];
  cbn [heap root n_key n_left n_right n_parent n_red negb].

(** One step of a computation: the accessed address is found in the context. *)
Ltac find_node :=
  cbn [heap root];
  repeat (first [ rewrite lookup_insert_eq | rewrite lookup_insert_ne by congruence ]);
  eassumption || reflexivity.

Ltac wp_step :=
  lazymatch goal with
  | |- wp (bind _ _) _ _ => apply wp_bind
  | |- wp (ret _) _ _ => apply wp_ret
  | |- wp (rd _ _) _ _ => eapply wp_rd; [find_node|]
  | |- wp (wr _ _) _ _ => eapply wp_wr; [find_node|]
  | |- wp get_root _ _ => apply wp_get_root
  | |- wp (set_root _) _ _ => apply wp_set_root
  | |- wp path_fuel _ _ => apply wp_path_fuel
  | |- wp (ngx_rbt_is_red _) _ _ => unfold ngx_rbt_is_red
  | |- wp (ngx_rbt_is_black _) _ _ => unfold ngx_rbt_is_black
  end;
  simpl_node.

(** What the memory holds after some writes. *)
Ltac frames :=
  repeat first [ apply repr_insert; [assumption|] | apply reprc_insert; [assumption|] ]; eassumption.

(** The equations of pointers that the code tests. *)
Lemma root_of_neq s t x : x ∉ addrs t -> s <> x -> root_of s t <> x.
Proof. destruct t; cbn; [done|]. rewrite not_elem_of_cons. intros [? _] _. congruence. Qed.

Ltac ptr_neq :=
  first [ congruence | apply root_of_neq; [assumption|congruence]
        | apply not_eq_sym; apply root_of_neq; [assumption|congruence] ].

Ltac wp_ifs :=
  repeat (match goal with
  | |- context [?a =? ?a] => rewrite (Z.eqb_refl a)
  | H : ?a = ?b |- context [?b =? ?a] => rewrite (proj2 (Z.eqb_eq b a) (eq_sym H))
  | |- context [?a =? ?b] => rewrite (proj2 (Z.eqb_neq a b)) by ptr_neq
  end; cbn [negb andb]; repeat wp_step).

(** Unfolds what is known of the memory, with the distinctness [ND]. *)
Ltac open_mem ND :=
  cbn [root_of addrs repr reprc caddrs flat_map frame_addr frame_tree app par_of] in *;
  rewrite <- ?app_assoc in ND; cbn [app] in ND; destruct_and?; nodup_split.

Ltac close_mem :=
  cbn [root_of addrs repr reprc caddrs flat_map frame_addr frame_tree app par_of];
  split_and!; first [find_node | frames | done].

Lemma Rep_perm s t t' : nodes t' = nodes t -> NoDup (s :: addrs t) -> NoDup (s :: addrs t').
Proof. intros E. by rewrite !addrs_nodes, E. Qed.

Lemma nodes_plug_eq c t t' : nodes t' = nodes t -> nodes (plug c t') = nodes (plug c t).
Proof. intros E. by rewrite !nodes_plug, E. Qed.

(** The two uses of the distinctness of the addresses: the facts about the old
    tree, and the distinctness for the new one. *)
Lemma Rep_build s c t t' :
  nodes t' = nodes (plug c t) -> NoDup (s :: addrs (plug c t)) ->
  NoDup (s :: addrs t ++ caddrs c) /\
  (forall h p0 r sn, repr s h p0 t' -> r = root_of s t' -> h !! s = Some sn ->
   Rep s sn t' (MkRb h r)).
Proof.
  intros E ND. split; [by rewrite addrs_plug in ND|].
  intros. split; cbn; [by exists p0|done|by eapply Rep_perm|done].
Qed.

Section Rotations.
Context (s : Z) (sn : ngx_rbtree_node_t).

Lemma root_cases c t st :
  Rep s sn (plug c t) st ->
  match c with
  | [] => root st = root_of s t
  | _ => root_of s t <> root st /\ forall t', root st = root_of s (plug c t')
  end.
Proof.
  intros [_ Hr ND _]. rewrite Hr. destruct c as [|f c]; [done|]. rewrite root_plug.
  destruct (last_frame_in f c) as (g & E & Hin). rewrite E. split; [|by intros; rewrite root_plug, E].
  rewrite addrs_plug in ND. apply NoDup_cons in ND as [Hs ND]. apply NoDup_app in ND as (_ & Hd & _).
  destruct t as [|red l x k r]; cbn; [set_solver|].
  intros ->. apply (Hd (frame_addr g)); [constructor|done].
Qed.

Lemma left_rotate_ok c red redy a x kx b y ky d st :
  Rep s sn (plug c (Node red a x kx (Node redy b y ky d))) st ->
  wp (ngx_rbtree_left_rotate s x)
     (fun _ => Rep s sn (plug c (Node redy (Node red a x kx b) y ky d))) st.
Proof.
  intros R. pose proof (root_cases _ _ _ R) as Hr. destruct R as [[p0 H] _ ND Hs].
  set (t' := plug c _).
  apply (Rep_build _ _ _ t') in ND as [ND Hk]; [|apply nodes_plug_eq; cbn; by rewrite <- !app_assoc].
  apply repr_plug in H as [Hc H]. cbn in H. destruct H as (Hx & Ha & Hy & Hb & Hd).
  unfold ngx_rbtree_left_rotate.
  destruct c as [|f c]; [|destruct Hr as [Hne Hr]; destruct f as [redp p kp t|redp t p kp]];
    (destruct b as [|redz b1 z kz b2]; open_mem ND; repeat wp_step; wp_ifs).
  all: eapply Hk; unfold t'; [rewrite repr_plug; close_mem|eauto|find_node].
Qed.

Lemma right_rotate_ok c red redy a x kx b y ky d st :
  Rep s sn (plug c (Node redy (Node red a x kx b) y ky d)) st ->
  wp (ngx_rbtree_right_rotate s y)
     (fun _ => Rep s sn (plug c (Node red a x kx (Node redy b y ky d)))) st.
Proof.
  intros R. pose proof (root_cases _ _ _ R) as Hr. destruct R as [[p0 H] _ ND Hs].
  set (t' := plug c _).
  apply (Rep_build _ _ _ t') in ND as [ND Hk]; [|apply nodes_plug_eq; cbn; by rewrite <- !app_assoc].
  apply repr_plug in H as [Hc H]. cbn in H. destruct H as (Hy & (Hx & Ha & Hb) & Hd).
  unfold ngx_rbtree_right_rotate.
  destruct c as [|f c]; [|destruct Hr as [Hne Hr]; destruct f as [redp p kp t|redp t p kp]];
    (destruct b as [|redz b1 z kz b2]; open_mem ND; repeat wp_step; wp_ifs).
  all: eapply Hk; unfold t'; [rewrite repr_plug; close_mem|eauto|find_node].
Qed.
Lemma set_red_ok c v red a x k b st :
  Rep s sn (plug c (Node red a x k b)) st ->
  wp (wr (set_n_red v) x) (fun _ => Rep s sn (plug c (Node v a x k b))) st.
Proof.
  intros R. pose proof (root_cases _ _ _ R) as Hr. destruct R as [[p0 H] _ ND Hs].
  set (t' := plug c _).
  apply (Rep_build _ _ _ t') in ND as [ND Hk]; [|by apply nodes_plug_eq].
  apply repr_plug in H as [Hc H]. open_mem ND.
  wp_step. eapply Hk; unfold t'; [rewrite repr_plug; close_mem| |find_node].
  destruct c; [done|apply Hr].
Qed.

(** What can be read in the memory around a node. *)
Lemma Rep_open c t st :
  Rep s sn (plug c t) st ->
  exists p0, reprc s (heap st) p0 c (root_of s t) /\ repr s (heap st) (par_of p0 c) t /\
             heap st !! s = Some sn /\ NoDup (s :: addrs t ++ caddrs c).
Proof.
  intros [[p0 H] _ ND Hs]. apply repr_plug in H as [Hc H]. rewrite addrs_plug in ND. eauto.
Qed.

End Rotations.

(** * The fuel of the loops *)

Fixpoint height (t : tree) : nat :=
  match t with Leaf => 0 | Node _ l _ _ r => S (Nat.max (height l) (height r)) end.

Lemma height_addrs t : (height t <= length (addrs t))%nat.
Proof. induction t; cbn; rewrite ?length_app; lia. Qed.

Lemma length_caddrs c : (length c <= length (caddrs c))%nat.
Proof. unfold caddrs. induction c as [|f c IH]; cbn; rewrite ?length_app; lia. Qed.

Lemma repr_dom s h par t x : repr s h par t -> x ∈ addrs t -> x ∈ dom h.
Proof.
  revert par. induction t as [|c l IHl y k r IHr]; intros par; cbn; [set_solver|].
  intros (H & Hl & Hr) [->|[Hx|Hx]%elem_of_app]%elem_of_cons; eauto.
  apply elem_of_dom. eauto.
Qed.

(** The memory has at least the nodes of the tree and the sentinel. *)
Lemma Rep_size s sn t st : Rep s sn t st -> (length (addrs t) < size (heap st))%nat.
Proof.
  intros [[p0 H] _ ND Hs]. rewrite <- size_dom.
  assert (Hsub : list_to_set (s :: addrs t) ⊆ dom (heap st)).
  { intros x. rewrite elem_of_list_to_set. intros [->|Hx]%elem_of_cons; [|by eapply repr_dom].
    apply elem_of_dom. eauto. }
  apply subseteq_size in Hsub. rewrite size_list_to_set in Hsub by done. cbn in Hsub. lia.
Qed.

Lemma Rep_path_fuel s sn c t st :
  Rep s sn (plug c t) st -> (length c + height t < size (heap st))%nat.
Proof.
  intros H%Rep_size. rewrite addrs_plug, length_app in H.
  pose proof (height_addrs t). pose proof (length_caddrs c). lia.
Qed.

(** Uses [Rep_open] and forgets it after the reads. *)
Ltac open_rep R :=
  let p0 := fresh "p0" in let Hc := fresh "Hc" in let Ht := fresh "Ht" in
  let Hs := fresh "Hs" in let ND := fresh "ND" in
  destruct (Rep_open _ _ _ _ _ R) as (p0 & Hc & Ht & Hs & ND); open_mem ND.

(** * Paths of a red-black tree *)

(** The frames accept a tree of black height [n], with a red root only if
    [b]. *)
Inductive rbc : nat -> bool -> list frame -> Prop :=
| rbc_nil n : rbc n false []
| rbc_red n f c :
    frame_red f = true -> rbt n false (frame_tree f) -> rbc n true c -> rbc n false (f :: c)
| rbc_black n cf b f c :
    frame_red f = false -> rbt n cf (frame_tree f) -> rbc (S n) b c -> rbc n true (f :: c).

Lemma rbt_root n c t : rbt n c t -> c = match t with Leaf => false | Node red _ _ _ _ => red end.
Proof. by intros []. Qed.

Lemma rbc_plug n b c red t : rbc n b c -> rbt n red t -> (red = true -> b = true) -> red_black (plug c t).
Proof.
  intros H. revert red t. induction H as [n|n f c Hf Ht H IH|n cf b f c Hf Ht H IH]; intros red t R Hred.
  - exists n. cbn. destruct red; [|done]. by specialize (Hred eq_refl).
  - apply (IH true); [|done]. destruct red; [by specialize (Hred eq_refl)|].
    destruct f; cbn in *; subst; by constructor.
  - apply (IH false); [|done]. destruct f; cbn in *; subst; by econstructor.
Qed.

Lemma rbc_unplug c t n : rbt n false (plug c t) ->
  exists m red b, rbt m red t /\ rbc m b c /\ (red = true -> b = true).
Proof.
  revert t. induction c as [|f c IH]; intros t H; cbn in H.
  - exists n, false, false. split; [done|]. split; [constructor|done].
  - destruct (IH _ H) as (m & red & b & Ht & Hc & Hb).
    destruct f as [redf x k r|redf l x k]; cbn in Ht; inversion Ht; subst;
      (eexists _, _, _; split; [eassumption|]);
      try (rewrite Hb in Hc by done);
      (split; [econstructor; cbn; [done|eassumption|eassumption]|done]).
Qed.

(** The colour that the code reads at the root of a tree. *)
Lemma root_red s sn n c t h par :
  n_red sn = false -> h !! s = Some sn -> repr s h par t -> rbt n c t ->
  exists m, h !! root_of s t = Some m /\ n_red m = c.
Proof.
  intros Hsn Hs Hr Ht. destruct t as [|red l x k r]; cbn in *.
  - inversion Ht; subst. eauto.
  - destruct Hr as (H & _). eexists; split; [exact H|]. apply rbt_root in Ht. by subst.
Qed.

Lemma plug_node c red l x k r : exists red' a y k' b, plug c (Node red l x k r) = Node red' a y k' b.
Proof.
  revert red l x k r. induction c as [|[]]; intros; cbn; eauto 8.
Qed.

(** * Automation of the proofs about the loops *)

(** A step that changes the tree of [R]: the facts about the old memory go. *)
Ltac tree_step lem c :=
  match goal with
  | R : Rep ?s ?sn _ ?st |- wp _ _ ?st =>
    let st' := fresh "st" in
    eapply wp_mono; [eapply (lem s sn c); exact R|]; clear R;
    repeat match goal with H : context [st] |- _ => clear H end;
    cbv beta; intros _ st' R; clear st
  end.
Ltac enter := repeat lazymatch goal with |- wp (bind _ _) _ _ => apply wp_bind end.
Ltac recolour c := enter; tree_step set_red_ok c.
Ltac rotate_left c := enter; tree_step left_rotate_ok c.
Ltac rotate_right c := enter; tree_step right_rotate_ok c.

(** Finds the colour of the root of the tree of [Ht], a fact [rbt _ _ _]. *)
Ltac read_root Ht :=
  let m := fresh "m" in let Hm := fresh "Hm" in let Hred := fresh "Hred" in
  match type of Ht with rbt _ _ ?t =>
  match goal with
  | Hsn : n_red ?sn = false, Hs : ?h !! ?s = Some ?sn, H : repr ?s ?h _ t |- _ =>
    destruct (root_red s sn _ _ _ _ _ Hsn Hs H Ht) as (m & Hm & Hred)
  end end.

Ltac same_nodes := rewrite ?nodes_plug; cbn [plug plug1 nodes before after];
  repeat (rewrite <- ?app_assoc; cbn [app]); reflexivity.

End RbtreeRep.
