(* ===== verification/NgxRbtreeInsert.v ===== *)
(** The insertion into a red-black tree keeps it a red-black tree. *)

From S2P Require Import Prelude NgxRbtree NgxRbtreeRep.

Module RbtreeInsert.

Export RbtreeRep.

(** * Re-balancing *)

Section Insert.
Context (s : Z) (sn : ngx_rbtree_node_t) (Hsn : n_red sn = false).

Definition fixed (l : list (Z * Z)) (st : rbmem) : Prop :=
  exists n red a x k b, Rep s sn (Node red a x k b) st /\ rbt n red (Node red a x k b) /\
    nodes (Node red a x k b) = l.

Lemma fixed_intro n b c red l x k r st ns :
  Rep s sn (plug c (Node red l x k r)) st ->
  rbc n b c -> rbt n red (Node red l x k r) -> (red = true -> b = true) ->
  nodes (plug c (Node red l x k r)) = ns -> fixed ns st.
Proof.
  intros HR Hc Ht Hb Hn. destruct (rbc_plug _ _ _ _ _ Hc Ht Hb) as [m Hm].
  destruct (plug_node c red l x k r) as (red' & a & y & k' & b' & E). rewrite E in *.
  pose proof (rbt_root _ _ _ Hm) as Hroot. cbn in Hroot. subst red'. exists m, false, a, y, k', b'. done.
Qed.

Lemma insert_fixup_stop fuel f c red l x k r st Q :
  (0 < fuel)%nat -> frame_red f = false -> Rep s sn (plug (f :: c) (Node red l x k r)) st ->
  Q tt st -> wp (insert_fixup s fuel x) Q st.
Proof.
  intros Hfuel Hf R HQ. destruct fuel as [|fuel]; [lia|]. cbn [insert_fixup].
  destruct (root_cases _ _ _ _ _ R) as [Hne _]. cbn in Hne.
  destruct f as [redp p kp t|redp t p kp]; cbn in Hf; subst; open_rep R;
    repeat wp_step; wp_ifs; exact HQ.
Qed.

(** The end of the two kinds of steps: the loop goes on at the grandparent,
    or the node that took its place is black. *)
Ltac go_up c IH :=
  recolour c; eapply (IH c); [cbn in *; lia|eassumption| |eassumption|same_nodes];
  constructor; econstructor; eassumption.
Ltac settled f c :=
  eapply (insert_fixup_stop _ f c); [cbn in *; lia|done|eassumption|];
  eapply (fixed_intro _ _ c); [eassumption|eassumption| |done|same_nodes];
  repeat match goal with H : rbt _ true (Node true _ _ _ _) |- _ => inversion H; subst; clear H end;
  econstructor; first [eassumption | constructor; eassumption].

Lemma insert_fixup_ok fuel : forall c l x k r n b st ns,
  (length c < fuel)%nat -> rbc n b c -> rbt n true (Node true l x k r) ->
  Rep s sn (plug c (Node true l x k r)) st -> nodes (plug c (Node true l x k r)) = ns ->
  wp (insert_fixup s fuel x) (fun _ => fixed ns) st.
Proof.
  induction fuel as [|fuel IH]; intros c l x k r n b st ns Hfuel Hc Ht R Hns; [lia|].
  cbn [insert_fixup].
  pose proof (root_cases _ _ _ _ _ R) as Hr.
  destruct Hc as [n|n f c Hf Hft Hc|n cf b f c Hf Hft Hc].
  - repeat wp_step. cbn in Hr. wp_ifs. by exists n, true, l, x, k, r.
  - destruct Hr as [Hne _]. cbn in Hne.
    inversion Hc as [| |? cg b' g c' Hg Hgt Hc' E1 E2]; subst.
    destruct f as [redp p kp t|redp t p kp], g as [redg g kg u|redg u g kg]; cbn in Hf, Hg; subst.
    all: cbn in Hgt; open_rep R; read_root Hgt; repeat wp_step; wp_ifs; rewrite Hred; destruct cg;
      [inversion Hgt as [|? u1 y ky u2 Hu1 Hu2|]; subst; cbn [root_of] | repeat wp_step; wp_ifs].
    (* the uncle is red: it and the parent become black *)
    + recolour (InLeft false g kg (Node true u1 y ky u2) :: c').
      recolour (InRight false (Node false (Node true l x k r) p kp t) g kg :: c'). go_up c' IH.
    + recolour (InLeft false g kg u :: c'). open_rep R. repeat wp_step. recolour c'. rotate_right c'.
      settled (InLeft false p kp (Node true t g kg u)) c'.
    + recolour (InRight false (Node true u1 y ky u2) g kg :: c').
      recolour (InLeft false g kg (Node false (Node true l x k r) p kp t) :: c'). go_up c' IH.
    + rotate_right (InRight false u g kg :: c'). open_rep R. repeat wp_step.
      recolour (InRight false u g kg :: c'). open_rep R. repeat wp_step. recolour c'. rotate_left c'.
      settled (InRight false (Node true u g kg l) x k) c'.
    + recolour (InLeft false g kg (Node true u1 y ky u2) :: c').
      recolour (InRight false (Node false t p kp (Node true l x k r)) g kg :: c'). go_up c' IH.
    + rotate_left (InLeft false g kg u :: c'). open_rep R. repeat wp_step.
      recolour (InLeft false g kg u :: c'). open_rep R. repeat wp_step. recolour c'. rotate_right c'.
      settled (InLeft false x k (Node true r g kg u)) c'.
    + recolour (InRight false (Node true u1 y ky u2) g kg :: c').
      recolour (InLeft false g kg (Node false t p kp (Node true l x k r)) :: c'). go_up c' IH.
    + recolour (InRight false u g kg :: c'). open_rep R. repeat wp_step. recolour c'. rotate_left c'.
      settled (InRight false (Node true u g kg t) p kp) c'.
  - eapply insert_fixup_stop with (fuel := S fuel); [lia|done|exact R|].
    eapply (fixed_intro n true (f :: c)); [exact R|by econstructor|done..].
Qed.

(** * The new leaf *)

(** The frames of a path that follows the test of a callback. *)
Definition path_ok (gl : Z * Z -> bool) (c : list frame) : Prop :=
  Forall (fun f => match f with
                   | InLeft _ y k _ => gl (y, k) = true
                   | InRight _ _ y k => gl (y, k) = false
                   end) c.

Definition hung (gl : Z * Z -> bool) (t : tree) (x k : Z) (st : rbmem) : Prop :=
  exists c, plug c Leaf = t /\ path_ok gl c /\ Rep s sn (plug c (Node true Leaf x k Leaf)) st.

(** The new leaf hangs on a free link of the node [y]. *)
Lemma hang_ok c red l y ky r x k xl xr xp xc (to_left : bool) st :
  Rep s sn (plug c (Node red l y ky r)) st -> (if to_left then l else r) = Leaf ->
  heap st !! x = Some (MkNode k xl xr xp xc) -> x ∉ s :: addrs (plug c (Node red l y ky r)) ->
  wp (wr (if to_left then set_n_left x else set_n_right x) y;;
      wr (set_n_parent y) x;; wr (set_n_left s) x;; wr (set_n_right s) x;; ngx_rbt_red x)
     (fun _ => Rep s sn (plug ((if to_left then InLeft red y ky r else InRight red l y ky) :: c)
                           (Node true Leaf x k Leaf))) st.
Proof.
  clear Hsn. intros R E Hx Hfresh. pose proof (root_cases _ _ _ _ _ R) as Hr.
  assert (Hr' : forall t', root_of s t' = y -> root st = root_of s (plug c t')).
  { intros t' Ht'. destruct c; [cbn in *; congruence|apply Hr]. }
  set (t' := plug _ (Node true Leaf x k Leaf)).
  assert (Hk : forall p0 h r', repr s h p0 t' -> r' = root_of s t' -> h !! s = Some sn ->
               Rep s sn t' (MkRb h r')).
  { intros p0 h r' H1 H2 H3. split; eauto. unfold t'.
    rewrite addrs_plug in *. destruct R as [_ _ ND _]. rewrite addrs_plug in ND.
    destruct to_left; subst; cbn in *; rewrite ?app_nil_r in ND; rewrite Permutation_swap;
      apply NoDup_cons; split; auto; rewrite not_elem_of_cons in *; cbn in *;
      rewrite ?app_nil_r in Hfresh; intuition. }
  rewrite addrs_plug in Hfresh. open_rep R.
  destruct to_left; subst l || subst r; cbn [root_of repr addrs app] in *;
    rewrite ?app_nil_r in *; open_mem Hfresh; unfold ngx_rbt_red; repeat wp_step.
  all: eapply Hk; unfold t'; [rewrite repr_plug; close_mem|by apply Hr'|find_node].
Qed.

Lemma insert_descend_ok goes_left gl x k xl xr xp xc fuel : forall c red l y ky r st,
  (forall y n, goes_left y n = gl (y, n_key n)) ->
  (height (Node red l y ky r) <= fuel)%nat -> path_ok gl c ->
  Rep s sn (plug c (Node red l y ky r)) st ->
  heap st !! x = Some (MkNode k xl xr xp xc) -> x ∉ s :: addrs (plug c (Node red l y ky r)) ->
  wp (insert_descend goes_left x s fuel y) (fun _ => hung gl (plug c (Node red l y ky r)) x k) st.
Proof.
  clear Hsn. induction fuel as [|fuel IH]; intros c red l y ky r st Hg Hfuel Hp R Hx Hfresh; [cbn in Hfuel; lia|].
  cbn [insert_descend].
  assert (Hy : exists par, heap st !! y = Some (MkNode ky (root_of s l) (root_of s r) par red)).
  { destruct (Rep_open _ _ _ _ _ R) as (p0 & _ & (H & _) & _). eauto. }
  destruct Hy as [par Hy].
  assert (Hsl : (s ∉ addrs l) /\ (s ∉ addrs r)).
  { destruct R as [_ _ ND _]. rewrite addrs_plug in ND. cbn in ND. apply NoDup_cons in ND as [ND _].
    set_solver. }
  apply wp_bind. eapply wp_rd; [exact Hy|]. rewrite Hg. cbn [n_key].
  assert (Hlr : forall b : bool, wp (rd (if b then n_left else n_right) y) (fun p st' =>
                  p = root_of s (if b then l else r) /\ st' = st) st)
    by (intros []; by eapply wp_rd).
  destruct (gl (y, ky)) eqn:E.
  - apply wp_bind. eapply wp_mono; [apply (Hlr true)|]. cbn. intros ? ? [-> ->].
    destruct l as [|redl l1 z kz l2]; cbn [root_of].
    + rewrite Z.eqb_refl. eapply wp_mono; [by eapply (hang_ok c red Leaf y ky r) with (to_left := true)|].
      cbn. intros _ st' R'. exists (InLeft red y ky r :: c). split; [done|]. split; [by constructor|done].
    + rewrite (proj2 (Z.eqb_neq z s)) by set_solver.
      eapply (IH (InLeft red y ky r :: c)); try done; [cbn in *; lia|by constructor].
  - apply wp_bind. eapply wp_mono; [apply (Hlr false)|]. cbn. intros ? ? [-> ->].
    destruct r as [|redr r1 z kz r2]; cbn [root_of].
    + rewrite Z.eqb_refl. eapply wp_mono; [by eapply (hang_ok c red l y ky Leaf) with (to_left := false)|].
      cbn. intros _ st' R'. exists (InRight red l y ky :: c). split; [done|]. split; [by constructor|done].
    + rewrite (proj2 (Z.eqb_neq z s)) by set_solver.
      eapply (IH (InRight red l y ky :: c)); try done; [cbn in *; lia|by constructor].
Qed.

End Insert.

(** * The place of the new node *)

(** Before the first node to the left of which the new node goes. *)
Fixpoint place (gl : Z * Z -> bool) (e : Z * Z) (l : list (Z * Z)) : list (Z * Z) :=
  match l with
  | [] => [e]
  | p :: l => if gl p then e :: p :: l else p :: place gl e l
  end.

(** The test of the callback agrees with the order of the nodes: it is false
    up to some node and true from there on. *)
Definition parted (gl : Z * Z -> bool) (l : list (Z * Z)) : Prop :=
  exists l1 l2, l = l1 ++ l2 /\ Forall (fun p => gl p = false) l1 /\ Forall (fun p => gl p = true) l2.

Lemma place_app gl e l1 l2 :
  Forall (fun p => gl p = false) l1 -> Forall (fun p => gl p = true) l2 ->
  place gl e (l1 ++ l2) = l1 ++ e :: l2.
Proof.
  intros H1 H2. induction H1 as [|p l1 Hp _ IH]; cbn.
  - destruct H2 as [|p l2 Hp _]; cbn; [done|]. by rewrite Hp.
  - rewrite Hp. by rewrite IH.
Qed.

Lemma path_before gl c : path_ok gl c ->
  before c = [] \/ exists b p, before c = b ++ [p] /\ gl p = false.
Proof.
  induction 1 as [|f c Hf _ IH]; [by left|]. destruct f as [red y k r|red l y k]; cbn; [done|].
  right. exists (before c ++ nodes l), (y, k). by rewrite <- app_assoc.
Qed.

Lemma path_after gl c : path_ok gl c ->
  after c = [] \/ exists a p, after c = p :: a /\ gl p = true.
Proof.
  induction 1 as [|f c Hf _ IH]; [by left|]. destruct f as [red y k r|red l y k]; cbn; [|done].
  right. by exists (nodes r ++ after c), (y, k).
Qed.

Lemma parted_cons gl p l : parted gl (p :: l) ->
  if gl p then Forall (fun p => gl p = true) (p :: l) else parted gl l.
Proof.
  intros (l1 & l2 & E & H1 & H2). destruct l1 as [|q l1]; cbn in E; subst.
  - pose proof H2 as H2'. apply Forall_cons in H2' as [-> _]. done.
  - injection E as -> ->. apply Forall_cons in H1 as [-> H1]. by exists l1, l2.
Qed.

Lemma parted_at gl b a :
  parted gl (b ++ a) ->
  (b = [] \/ exists b' p, b = b' ++ [p] /\ gl p = false) ->
  (a = [] \/ exists a' p, a = p :: a' /\ gl p = true) ->
  Forall (fun p => gl p = false) b /\ Forall (fun p => gl p = true) a.
Proof.
  intros H Hb Ha.
  induction b as [|q b IH]; cbn in H.
  - split; [done|]. destruct Ha as [->|(a' & p & -> & Hp)]; [done|].
    apply parted_cons in H. by rewrite Hp in H.
  - apply parted_cons in H.
    assert (Hq : gl q = false).
    { destruct (gl q) eqn:E; [|done]. destruct Hb as [Hb|(b' & p & Hb & Hp)]; [done|].
      rewrite app_comm_cons, Hb, !Forall_app in H. destruct H as [[_ H] _].
      apply Forall_cons in H as [H _]. congruence. }
    rewrite Hq in H. destruct b as [|q' b].
    + destruct (IH H (or_introl eq_refl)). split; [by constructor|done].
    + destruct IH; [done| |split; [by constructor|done]].
      destruct Hb as [Hb|(b' & p & Hb & Hp)]; [done|]. right.
      destruct b' as [|q2 b']; cbn in Hb; [done|]. injection Hb as -> Hb. eauto.
Qed.

Lemma hung_nodes gl t x k c :
  parted gl (nodes t) -> plug c Leaf = t -> path_ok gl c ->
  nodes (plug c (Node true Leaf x k Leaf)) = place gl (x, k) (nodes t).
Proof.
  intros H <- Hp. rewrite nodes_plug in H |- *. cbn in H |- *. rewrite nodes_plug. cbn.
  destruct (parted_at gl (before c) (after c)) as [H1 H2];
    [done|by apply path_before|by apply path_after|]. by rewrite place_app.
Qed.

(** * The interface of the callbacks *)

(** What an insertion callback promises: the new node becomes a red leaf, on
    the path that the test [gl] chooses. *)
Class InsertCallback (ins : ngx_rbtree_insert_pt) (gl : Z * Z -> Z * Z -> bool) : Prop :=
  callback_hangs : forall s sn t st x n,
    t <> Leaf -> Rep s sn t st -> (x ∉ s :: addrs t) -> heap st !! x = Some n ->
    wp (ins (root_of s t) x s) (fun _ => hung s sn (gl (x, n_key n)) t x (n_key n)) st.

Definition value_left (e p : Z * Z) : bool := e.2 <? p.2.
Definition timer_left (e p : Z * Z) : bool := wrapS 64 (e.2 - p.2) <? 0.

Lemma descend_callback gl :
  InsertCallback (fun temp node sentinel =>
    key ← rd n_key node; fuel ← path_fuel;
    insert_descend (fun a t => gl (node, key) (a, n_key t)) node sentinel fuel temp) gl.
Proof.
  intros s sn t st x [k xl xr xp xc] Hne R Hfresh Hx.
  apply wp_bind. eapply wp_rd; [exact Hx|]. apply wp_bind, wp_path_fuel.
  destruct t as [|red l y ky r]; [done|]. cbn [root_of n_key].
  eapply insert_descend_ok with (c := []) (gl := gl (x, k));
    [done| |by constructor|exact R|exact Hx|exact Hfresh].
  pose proof (Rep_path_fuel s sn [] _ _ R). cbn in *. lia.
Qed.

#[global] Instance insert_value_callback : InsertCallback ngx_rbtree_insert_value value_left.
Proof. exact (descend_callback value_left). Qed.

#[global] Instance insert_timer_value_callback : InsertCallback ngx_rbtree_insert_timer_value timer_left.
Proof. exact (descend_callback timer_left). Qed.

(** * The insertion *)

Section InsertTheorem.
Context `{InsertCallback ins gl}.

(** The node [x] with key [k] is in the memory and not in the tree. *)
Definition free_node (s : Z) (t : tree) (x k : Z) (st : rbmem) : Prop :=
  (x ∉ s :: addrs t) /\ exists n, heap st !! x = Some n /\ n_key n = k.

Lemma insert_first_ok s sn x k st :
  Rep s sn Leaf st -> free_node s Leaf x k st ->
  wp (ngx_rbtree_insert ins s x) (fun _ => Rep s sn (Node false Leaf x k Leaf)) st.
Proof.
  intros R [Hf (n & Hx & Hk)]. destruct n as [k0 xl xr xp xc]; cbn in Hk; subst k0.
  destruct R as [_ Hr _ Hs]. cbn in Hr, Hf. apply not_elem_of_cons in Hf as [Hf _].
  unfold ngx_rbtree_insert. repeat wp_step. rewrite Hr, Z.eqb_refl. unfold ngx_rbt_black. repeat wp_step.
  apply MkRep; cbn [heap root].
  - exists NULL. close_mem.
  - done.
  - cbn. constructor; [set_solver|]. constructor; [set_solver|constructor].
  - find_node.
Qed.

Lemma rbtree_insert_ok s sn t x k st :
  n_red sn = false -> red_black t -> Rep s sn t st -> free_node s t x k st ->
  parted (gl (x, k)) (nodes t) ->
  wp (ngx_rbtree_insert ins s x)
     (fun _ st' => exists t', Rep s sn t' st' /\ red_black t' /\
        nodes t' = place (gl (x, k)) (x, k) (nodes t)) st.
Proof.
  intros Hsn [n Ht] R Hfree Hp. destruct t as [|red l y ky r].
  { eapply wp_mono; [by apply insert_first_ok|]. cbn. intros _ st' R'. eexists. split; [exact R'|].
    split; [|done]. exists 1%nat. repeat econstructor. }
  destruct Hfree as [Hf (m & Hx & Hk)]. subst k.
  pose proof (rep_root _ _ _ _ R) as Hr. cbn in Hr.
  assert (Hys : y <> s).
  { destruct R as [_ _ ND _]. apply NoDup_cons in ND as [ND _]. cbn in ND. set_solver. }
  unfold ngx_rbtree_insert. repeat wp_step. rewrite Hr, (proj2 (Z.eqb_neq y s)) by done.
  apply wp_bind. eapply wp_mono; [by eapply (callback_hangs s sn (Node red l y ky r))|].
  cbv beta. intros _ st1 (c & Hc & Hpath & R1).
  destruct (rbc_unplug c Leaf n) as (m' & red' & b & Hleaf & Hrbc & _); [by rewrite Hc|].
  inversion Hleaf; subst.
  apply wp_bind, wp_path_fuel. apply wp_bind.
  eapply wp_mono.
  { eapply (insert_fixup_ok s sn Hsn _ c); [|done|by repeat constructor|exact R1|reflexivity].
    pose proof (Rep_path_fuel _ _ _ _ _ R1). lia. }
  cbv beta. intros _ st2 (n2 & red2 & a & z & kz & b2 & R2 & Ht2 & Hn2).
  pose proof (rep_root _ _ _ _ R2) as Hr2. cbn in Hr2. repeat wp_step. rewrite Hr2.
  eapply wp_mono; [by eapply (set_red_ok s sn [])|]. cbn. intros _ st3 R3.
  eexists. split; [exact R3|]. split.
  - inversion Ht2; subst; eexists; by econstructor.
  - change (nodes (Node false a z kz b2)) with (nodes (Node red2 a z kz b2)). rewrite Hn2.
    by apply (hung_nodes _ (Node red l (root st) ky r)).
Qed.

End InsertTheorem.

End RbtreeInsert.
