(* ===== verification/NgxRbtreeDelete.v ===== *)
(** The deletion from a red-black tree keeps it a red-black tree. *)

From S2P Require Import Prelude NgxRbtree NgxRbtreeRep.

Module RbtreeDelete.

Export RbtreeRep.

Section Delete.
Context (s : Z) (sn : ngx_rbtree_node_t) (Hsn : n_red sn = false).

(** * Restoring the black heights *)

(** The parent link of the root of [t] is [p]; for an empty tree it is that of
    the sentinel. *)
Definition under (p : Z) (t : tree) : Prop :=
  match t with Leaf => n_parent sn = p | _ => True end.

Lemma under_parent f c t st :
  Rep s sn (plug (f :: c) t) st -> under (frame_addr f) t ->
  exists n, heap st !! root_of s t = Some n /\ n_parent n = frame_addr f.
Proof.
  intros R Hu. destruct (Rep_open _ _ _ _ _ R) as (p0 & _ & Ht & Hs & _).
  destruct t; cbn in *; eauto. destruct Ht as [Ht _]. eauto.
Qed.

(** The code reads the parent of temp. *)
Lemma wp_parent f c t st (Q : Z -> rbmem -> Prop) :
  Rep s sn (plug (f :: c) t) st -> under (frame_addr f) t -> Q (frame_addr f) st ->
  wp (rd n_parent (root_of s t)) Q st.
Proof.
  intros R Hu HQ. destruct (under_parent _ _ _ _ R Hu) as (n & H & E).
  eapply wp_rd; [exact H|]. by rewrite E.
Qed.

(** A red sibling: its parent and it are black. *)
Lemma red_sibling n b f c cw :
  rbc (S n) b (f :: c) -> rbt (S n) cw (frame_tree f) -> cw = true ->
  exists b', frame_red f = false /\ rbc (S (S n)) b' c /\
    exists l y ky r, frame_tree f = Node true l y ky r /\ rbt (S n) false l /\ rbt (S n) false r.
Proof.
  intros Hc Hw ->. remember (frame_tree f) as w eqn:Ew.
  destruct w as [|redw l y ky r]; [inversion Hw|]. inversion Hw; subst.
  inversion Hc as [|? ? ? Hf Hft|? ? b' ? ? Hf Hft Hc']; subst.
  - rewrite <- Ew in Hft. inversion Hft.
  - exists b'. split_and!; eauto 8.
Qed.

Lemma black_node n t : rbt (S n) false t -> exists l y ky r, t = Node false l y ky r.
Proof. inversion 1; subst; eauto. Qed.

(** The sibling of temp after the first statements of a step. *)
Lemma black_sibling_of_left_ok red p kp w c t n b cw st :
  Rep s sn (plug (InLeft red p kp w :: c) t) st -> under p t ->
  rbc (S n) b (InLeft red p kp w :: c) -> rbt (S n) cw w ->
  wp (black_sibling_of_left s (root_of s t)) (fun y st' =>
    exists red' c' b' l ky r,
      let f := InLeft red' p kp (Node false l y ky r) in
      Rep s sn (plug (f :: c') t) st' /\ rbc (S n) b' (f :: c') /\
      nodes (plug (f :: c') t) = nodes (plug (InLeft red p kp w :: c) t) /\
      (red' = true \/ c' = c)) st.
Proof.
  intros R Hu Hc Hw. unfold black_sibling_of_left.
  apply wp_bind. eapply wp_parent; [exact R|done|]. cbn [frame_addr].
  open_rep R. read_root Hw. repeat wp_step. rewrite Hred. destruct cw.
  - destruct (red_sibling _ _ _ _ _ Hc Hw eq_refl) as (b' & E1 & Hc' & l & y & ky & r & E2 & Hl & Hr).
    cbn in E1, E2. subst. cbn [root_of].
    recolour (InRight false t p kp :: c). recolour c. rotate_left c.
    apply wp_bind. eapply (wp_parent (InLeft true p kp l) (InLeft false y ky r :: c)); [exact R|done|].
    cbn [frame_addr]. open_rep R. repeat wp_step.
    destruct (black_node _ _ Hl) as (l1 & z & kz & l2 & ->).
    eexists true, (InLeft false y ky r :: c), false, _, _, _.
    split; [exact R|]. split; [by apply rbc_red; [..|eapply rbc_black]|]. split; [same_nodes|by left].
  - repeat wp_step. destruct (black_node _ _ Hw) as (l1 & z & kz & l2 & ->).
    eexists red, c, b, _, _, _. split; [exact R|]. split; [done|]. split; [done|by right].
Qed.

(** The tree below temp lacks one black node: its root is black, or red and
    then becomes black after the loop. *)
Inductive short (n : nat) : bool -> tree -> Prop :=
| short_black t : rbt n false t -> short n false t
| short_red l x k r : rbt (S n) false (Node false l x k r) -> short n true (Node true l x k r).

(** What a step of the loop gives: either the place where a black node is
    missing moved up, or the tree is a red-black tree and temp is its root. *)
Definition moved_up (len : nat) (ns : list (Z * Z)) (temp : Z) (st : rbmem) : Prop :=
  exists c t n red b, t <> Leaf /\ temp = root_of s t /\ Rep s sn (plug c t) st /\
    short n red t /\ rbc (S n) b c /\ nodes (plug c t) = ns /\ (red = true \/ (length c < len)%nat).

Definition restored (ns : list (Z * Z)) (temp : Z) (st : rbmem) : Prop :=
  exists t, t <> Leaf /\ temp = root_of s t /\ Rep s sn t st /\ red_black t /\ nodes t = ns.

(** Both children of the sibling are black. *)
Lemma moved_up_intro f red p kp c l r n b st ns len :
  let t := Node red l p kp r in
  Rep s sn (plug c t) st -> nodes (plug c t) = ns ->
  (red = true \/ (length c < len)%nat) ->
  rbc (S n) b (f :: c) -> frame_red f = red ->
  (exists cl cr, rbt n cl l /\ rbt n cr r) ->
  moved_up len ns p st.
Proof.
  intros t R Hns Hlen Hc Hf (cl & cr & Hl & Hr). revert t R Hns.
  inversion Hc as [|? ? ? Hf' Hft Hc'|? ? b1 ? ? Hf' Hft Hc']; subst; rewrite Hf' in *; intros t R Hns.
  - exists c, t, n, true, true. split_and!; try done. constructor. by econstructor.
  - exists c, t, (S n), false, b1. split_and!; try done. constructor. by econstructor.
Qed.

(** The root of the tree after the last rotation of a step. *)
Lemma restored_intro f c l x k r n b st ns :
  let t := Node (frame_red f) l x k r in
  Rep s sn (plug c t) st -> nodes (plug c t) = ns ->
  rbc (S n) b (f :: c) -> rbt (S n) false l -> rbt (S n) false r ->
  wp get_root (fun temp st' => restored ns temp st') st.
Proof.
  intros t R Hns Hc Hl Hr. apply wp_get_root. exists (plug c t).
  destruct (plug_node c (frame_red f) l x k r) as (red' & a & y & k' & d & E).
  split; [unfold t; by rewrite E|]. split; [apply (rep_root _ _ _ _ R)|]. split; [done|]. split; [|done].
  inversion Hc as [|? ? ? Hf Hft Hc'|? ? b1 ? ? Hf Hft Hc']; subst.
  - apply (rbc_plug _ _ _ true _ Hc'); [|done]. unfold t. rewrite Hf. by constructor.
  - apply (rbc_plug _ _ _ false _ Hc'); [|done]. unfold t. rewrite Hf. by econstructor.
Qed.

Lemma wp_or_r {A} (m : M A) (P Q : A -> rbmem -> Prop) st :
  wp m Q st -> wp m (fun a st' => P a st' \/ Q a st') st.
Proof. intros H. eapply wp_mono; [exact H|]. auto. Qed.

Lemma wp_unbind {A B} (m : M A) (k : A -> M B) Q st :
  wp (bind m k) Q st -> wp m (fun a st' => wp (k a) Q st') st.
Proof. unfold wp, bind. by destruct (m st) as [[a st']| |]. Qed.

Lemma wp_assoc {A B C} (m : M A) (k : M B) (k' : M C) Q st :
  wp ((m;; k);; k') Q st -> wp (m;; k;; k') Q st.
Proof.
  unfold wp, bind. destruct (m st) as [[a st1]| |]; cbn; [|done..]. by destruct (k st1) as [[b st2]| |].
Qed.

Lemma rbc_sibling n b f f' c :
  rbc n b (f :: c) -> frame_red f' = frame_red f -> rbt n false (frame_tree f') -> rbc n b (f' :: c).
Proof. inversion 1; subst; intros E Ht; econstructor; by rewrite ?E. Qed.

(** The right child of the sibling is red. *)
Lemma red_nephew_left red p kp l y ky r c t n b cl st ns :
  let f := InLeft red p kp (Node false l y ky r) in
  Rep s sn (plug (f :: c) t) st -> under p t -> rbc (S n) b (f :: c) ->
  rbt n false t -> rbt n cl l -> rbt n true r -> nodes (plug (f :: c) t) = ns ->
  wp (parent ← rd n_parent (root_of s t);
      ngx_rbt_copy_color y parent;;
      ngx_rbt_black parent;;
      w_right ← rd n_right y;
      ngx_rbt_black w_right;;
      ngx_rbtree_left_rotate s parent;;
      get_root) (fun temp st' => restored ns temp st') st.
Proof.
  intros f R Hu Hc Ht Hl Hr Hns. subst f. destruct r as [|redr r1 z kz r2]; inversion Hr; subst redr.
  apply wp_bind. eapply (wp_parent (InLeft _ _ _ _) c); [exact R|done|]. cbn [frame_addr].
  unfold ngx_rbt_copy_color. open_rep R. do 3 wp_step.
  recolour (InRight red t p kp :: c). recolour c. open_rep R. repeat wp_step.
  recolour (InRight red l y ky :: InRight false t p kp :: c). rotate_left c.
  eapply (restored_intro (InLeft red p kp _) c); [exact R|rewrite <- Hns; same_nodes|exact Hc|..]; by econstructor.
Qed.

Lemma delete_step_left_ok red p kp w c t n b cw st ns :
  Rep s sn (plug (InLeft red p kp w :: c) t) st -> under p t ->
  rbc (S n) b (InLeft red p kp w :: c) -> rbt (S n) cw w -> rbt n false t ->
  nodes (plug (InLeft red p kp w :: c) t) = ns ->
  wp (delete_step_left s (root_of s t)) (fun temp st' =>
    moved_up (length (InLeft red p kp w :: c)) ns temp st' \/ restored ns temp st') st.
Proof.
  intros R Hu Hc Hw Ht Hns0. unfold delete_step_left. apply wp_bind.
  eapply wp_mono; [by eapply black_sibling_of_left_ok|]. cbv beta zeta.
  clear R Hc. intros y st1 (red' & c' & b' & l & ky & r & R & Hc & Hns & Hlen).
  rewrite Hns0 in Hns. clear Hns0.
  assert (Hw' : exists cl cr, rbt n cl l /\ rbt n cr r).
  { inversion Hc as [|? ? ? _ H|? ? ? ? ? _ H]; subst; inversion H; eauto. }
  destruct Hw' as (cl & cr & Hl & Hr).
  open_rep R. read_root Hl. read_root Hr. repeat wp_step. rewrite Hred, Hred0.
  destruct cl, cr; cbn [negb andb].
  4: { recolour (InRight red' t p kp :: c').
       eapply (wp_parent (InLeft red' p kp (Node true l y ky r)) c'); [exact R|done|]. left.
       eapply moved_up_intro; [exact R|rewrite <- Hns; same_nodes| |exact Hc|done|].
       - destruct Hlen as [->| ->]; [by left|right; cbn; lia].
       - eexists _, _. split; [exact Ht|by constructor]. }
  2: { destruct l as [|redl l1 v kv l2]; inversion Hl; subst redl. cbn [root_of].
       recolour (InLeft false y ky r :: InRight red' t p kp :: c').
       recolour (InRight red' t p kp :: c'). rotate_right (InRight red' t p kp :: c').
       apply wp_bind. eapply (wp_parent (InLeft red' p kp _) c'); [exact R|done|].
       cbn [frame_addr]. open_rep R. wp_step.
       apply wp_or_r.
       eapply (red_nephew_left red' p kp l1 v kv (Node true l2 y ky r) c' t);
         [exact R|done| |done|eassumption|by apply rbt_red|rewrite <- Hns; same_nodes].
       eapply rbc_sibling; [exact Hc|done|]. econstructor; [done|by constructor]. }
  all: apply wp_bind, wp_ret, wp_or_r; by eapply red_nephew_left.
Qed.

(** * The mirror images *)

Lemma black_sibling_of_right_ok red p kp w c t n b cw st :
  Rep s sn (plug (InRight red w p kp :: c) t) st -> under p t ->
  rbc (S n) b (InRight red w p kp :: c) -> rbt (S n) cw w ->
  wp (black_sibling_of_right s (root_of s t)) (fun y st' =>
    exists red' c' b' l ky r,
      let f := InRight red' (Node false l y ky r) p kp in
      Rep s sn (plug (f :: c') t) st' /\ rbc (S n) b' (f :: c') /\
      nodes (plug (f :: c') t) = nodes (plug (InRight red w p kp :: c) t) /\
      (red' = true \/ c' = c)) st.
Proof.
  intros R Hu Hc Hw. unfold black_sibling_of_right.
  apply wp_bind. eapply wp_parent; [exact R|done|]. cbn [frame_addr].
  open_rep R. read_root Hw. repeat wp_step. rewrite Hred. destruct cw.
  - destruct (red_sibling _ _ _ _ _ Hc Hw eq_refl) as (b' & E1 & Hc' & l & y & ky & r & E2 & Hl & Hr).
    cbn in E1, E2. subst. cbn [root_of].
    recolour (InLeft false p kp t :: c). recolour c. rotate_right c.
    apply wp_bind. eapply (wp_parent (InRight true r p kp) (InRight false l y ky :: c)); [exact R|done|].
    cbn [frame_addr]. open_rep R. repeat wp_step.
    destruct (black_node _ _ Hr) as (l1 & z & kz & l2 & ->).
    eexists true, (InRight false l y ky :: c), false, _, _, _.
    split; [exact R|]. split; [by apply rbc_red; [..|eapply rbc_black]|]. split; [same_nodes|by left].
  - repeat wp_step. destruct (black_node _ _ Hw) as (l1 & z & kz & l2 & ->).
    eexists red, c, b, _, _, _. split; [exact R|]. split; [done|]. split; [done|by right].
Qed.

Lemma red_nephew_right red p kp l y ky r c t n b cr st ns :
  let f := InRight red (Node false l y ky r) p kp in
  Rep s sn (plug (f :: c) t) st -> under p t -> rbc (S n) b (f :: c) ->
  rbt n false t -> rbt n true l -> rbt n cr r -> nodes (plug (f :: c) t) = ns ->
  wp (parent ← rd n_parent (root_of s t);
      ngx_rbt_copy_color y parent;;
      ngx_rbt_black parent;;
      w_left ← rd n_left y;
      ngx_rbt_black w_left;;
      ngx_rbtree_right_rotate s parent;;
      get_root) (fun temp st' => restored ns temp st') st.
Proof.
  intros f R Hu Hc Ht Hl Hr Hns. subst f. destruct l as [|redl l1 z kz l2]; inversion Hl; subst redl.
  apply wp_bind. eapply (wp_parent (InRight _ _ _ _) c); [exact R|done|]. cbn [frame_addr].
  unfold ngx_rbt_copy_color. open_rep R. do 3 wp_step.
  recolour (InLeft red p kp t :: c). recolour c. open_rep R. repeat wp_step.
  recolour (InLeft red y ky r :: InLeft false p kp t :: c). rotate_right c.
  eapply (restored_intro (InRight red _ p kp) c); [exact R|rewrite <- Hns; same_nodes|exact Hc|..];
    by econstructor.
Qed.

Lemma delete_step_right_ok red p kp w c t n b cw st ns :
  Rep s sn (plug (InRight red w p kp :: c) t) st -> under p t ->
  rbc (S n) b (InRight red w p kp :: c) -> rbt (S n) cw w -> rbt n false t ->
  nodes (plug (InRight red w p kp :: c) t) = ns ->
  wp (delete_step_right s (root_of s t)) (fun temp st' =>
    moved_up (length (InRight red w p kp :: c)) ns temp st' \/ restored ns temp st') st.
Proof.
  intros R Hu Hc Hw Ht Hns0. unfold delete_step_right. apply wp_bind.
  eapply wp_mono; [by eapply black_sibling_of_right_ok|]. cbv beta zeta.
  clear R Hc. intros y st1 (red' & c' & b' & l & ky & r & R & Hc & Hns & Hlen).
  rewrite Hns0 in Hns. clear Hns0.
  assert (Hw' : exists cl cr, rbt n cl l /\ rbt n cr r).
  { inversion Hc as [|? ? ? _ H|? ? ? ? ? _ H]; subst; inversion H; eauto. }
  destruct Hw' as (cl & cr & Hl & Hr).
  open_rep R. read_root Hl. read_root Hr. repeat wp_step. rewrite Hred, Hred0.
  destruct cl, cr; cbn [negb andb].
  4: { recolour (InLeft red' p kp t :: c').
       eapply (wp_parent (InRight red' (Node true l y ky r) p kp) c'); [exact R|done|]. left.
       eapply moved_up_intro; [exact R|rewrite <- Hns; same_nodes| |exact Hc|done|].
       - destruct Hlen as [->| ->]; [by left|right; cbn; lia].
       - eexists _, _. split; [by constructor|exact Ht]. }
  3: { destruct r as [|redr r1 v kv r2]; inversion Hr; subst redr. cbn [root_of].
       recolour (InRight false l y ky :: InLeft red' p kp t :: c').
       recolour (InLeft red' p kp t :: c'). rotate_left (InLeft red' p kp t :: c').
       apply wp_bind. eapply (wp_parent (InRight red' _ p kp) c'); [exact R|done|].
       cbn [frame_addr]. open_rep R. wp_step. apply wp_or_r.
       eapply (red_nephew_right red' p kp (Node true l y ky r1) v kv r2 c' t);
         [exact R|done| |done|by apply rbt_red|eassumption|rewrite <- Hns; same_nodes].
       eapply rbc_sibling; [exact Hc|done|]. econstructor; [by constructor|done]. }
  all: apply wp_bind, wp_ret, wp_or_r; by eapply red_nephew_right.
Qed.

(** * The loop *)

Lemma sibling_height f c n b : rbc (S n) b (f :: c) -> exists cw, rbt (S n) cw (frame_tree f).
Proof. inversion 1; eauto. Qed.

Lemma sibling_neq f c t n b st :
  Rep s sn (plug (f :: c) t) st -> rbc (S n) b (f :: c) -> root_of s t <> root_of s (frame_tree f).
Proof.
  intros [_ _ ND _] Hc. rewrite addrs_plug in ND. destruct (sibling_height _ _ _ _ Hc) as [cw Hw].
  cbn in ND. remember (frame_tree f) as w. destruct w as [|red l x k r]; [inversion Hw|].
  destruct t as [|redt tl z kz tr]; cbn in ND |- *; nodup_split; [done|].
  intros ->. set_solver.
Qed.

Definition deleted (ns : list (Z * Z)) (st : rbmem) : Prop :=
  exists t, Rep s sn t st /\ red_black t /\ nodes t = ns.

(** The statement after the loop. *)
Lemma blacken_ok c t n red b st :
  Rep s sn (plug c t) st -> short n red t -> rbc (S n) b c -> red = true \/ c = [] ->
  wp (ngx_rbt_black (root_of s t)) (fun _ => deleted (nodes (plug c t))) st.
Proof.
  intros R Ht Hc Hred. destruct t as [|redt l x k r].
  - inversion Ht; subst. destruct Hred as [| ->]; [done|]. cbn in *. destruct R as [_ Hr ND Hs].
    unfold ngx_rbt_black. wp_step.
    eexists. split; [|split; [exists 0%nat; constructor|done]].
    split; cbn [heap root]; [by exists 0|done|done|].
    rewrite lookup_insert_eq. destruct sn; cbn in Hsn |- *. by rewrite Hsn.
  - eapply wp_mono; [by eapply (set_red_ok s sn c)|]. cbv beta; intros _ st' R'.
    eexists. split; [exact R'|]. split; [|same_nodes].
    inversion Ht; subst.
    + destruct Hred as [| ->]; [done|]. pose proof (rbt_root _ _ _ H) as E. cbn in E. subst redt. by exists n.
    + by eapply (rbc_plug _ _ _ false).
Qed.

Lemma fixup_restored fuel temp st ns :
  (0 < fuel)%nat -> restored ns temp st ->
  wp (temp ← delete_fixup s fuel temp; ngx_rbt_black temp) (fun _ => deleted ns) st.
Proof.
  intros Hfuel (t & Hne & -> & R & [n Hrb] & <-). destruct fuel as [|fuel]; [lia|]. cbn [delete_fixup].
  pose proof (rep_root _ _ _ _ R) as Hr. repeat wp_step. rewrite Hr, Z.eqb_refl. apply wp_ret.
  eapply (blacken_ok [] t); [exact R|by constructor|apply (rbc_nil (S n))|by right].
Qed.

(** The loop and the statement after it. *)
Lemma delete_fixup_ok fuel : forall c t n red b st ns,
  Rep s sn (plug c t) st -> short n red t -> rbc (S n) b c -> under (par_of 0 c) t ->
  nodes (plug c t) = ns -> ((red = true /\ 0 < fuel) \/ length c < fuel)%nat ->
  wp (temp ← delete_fixup s fuel (root_of s t); ngx_rbt_black temp) (fun _ => deleted ns) st.
Proof.
  induction fuel as [|fuel IH]; intros c t n red b st ns R Ht Hc Hu Hns Hfuel; [lia|].
  cbn [delete_fixup]. pose proof (root_cases _ _ _ _ _ R) as Hr. subst ns. destruct c as [|f c].
  - repeat wp_step. rewrite Hr, Z.eqb_refl. apply wp_ret. eapply (blacken_ok []); eauto.
  - destruct Hr as [Hne _]. repeat wp_step. rewrite (proj2 (Z.eqb_neq _ _)) by done.
    assert (Hm : exists m, heap st !! root_of s t = Some m /\ n_red m = red).
    { destruct (Rep_open _ _ _ _ _ R) as (p0 & _ & Ht' & Hs & _). destruct Ht as [t Ht|l x k r Ht].
      - by eapply root_red.
      - destruct Ht' as [Ht' _]. eauto. }
    destruct Hm as (m & Hm & Hmred). apply wp_bind. eapply wp_rd; [exact Hm|].
    rewrite Hmred. destruct Ht as [t Ht|l x k r Ht]; cbn [negb].
    2: { apply wp_ret. eapply (blacken_ok (f :: c)); [exact R|by constructor|exact Hc|by left]. }
    apply wp_bind. eapply wp_parent; [exact R|done|]. cbn [par_of] in Hu.
    destruct (sibling_height _ _ _ _ Hc) as [cw Hw]. pose proof (sibling_neq _ _ _ _ _ _ R Hc) as Hsib.
    destruct (Rep_open _ _ _ _ _ R) as (p0 & Hf & _). 
    set (ns := nodes _) in *.
    assert (Hk : forall temp st',
              moved_up (length (f :: c)) ns temp st' \/ restored ns temp st' ->
              wp (delete_fixup s fuel temp)
                 (fun temp st'' => wp (ngx_rbt_black temp) (fun _ => deleted ns) st'') st').
    { cbn in Hfuel |- *. intros temp st' [(c' & t' & n' & red' & b' & Ht' & -> & R' & Hsh & Hc' & Hns & Hlen)|Hres].
      - apply wp_unbind. eapply IH; try done; [by destruct t'|]. destruct Hlen; [left|right]; lia || eauto with lia.
      - apply wp_unbind, fixup_restored; [lia|done]. }
    destruct f as [redp p kp w|redp w p kp]; destruct Hf as [Hf _]; apply wp_bind;
      (eapply wp_rd; [exact Hf|]); cbn [n_left]; apply wp_bind.
    + rewrite Z.eqb_refl. eapply wp_mono; [by eapply delete_step_left_ok|exact Hk].
    + rewrite (proj2 (Z.eqb_neq _ _)) by done. eapply wp_mono; [by eapply delete_step_right_ok|exact Hk].
Qed.

End Delete.
(** * Unlinking a node *)

Section Unlink.
Context (s : Z).

Lemma Rep_insert sn t x n h r :
  (x ∉ s :: addrs t) -> Rep s sn t (MkRb h r) -> Rep s sn t (MkRb (<[x := n]> h) r).
Proof.
  rewrite not_elem_of_cons. intros [Hs Hx] [[p0 H] Hr ND Hh]. split; cbn [heap root] in *.
  - exists p0. by apply repr_insert.
  - done.
  - done.
  - by rewrite lookup_insert_ne.
Qed.

Lemma clear_node_ok sn t x st :
  (x ∉ s :: addrs t) -> Rep s sn t st -> x ∈ dom (heap st) -> wp (clear_node x) (fun _ => Rep s sn t) st.
Proof.
  intros Hx R [n Hn]%elem_of_dom. unfold clear_node. destruct st as [h r0]. cbn in Hn.
  repeat (first [wp_step | eapply wp_wr; [cbn; apply lookup_insert_eq|]]).
  by repeat (apply Rep_insert; [done|]).
Qed.

(** [ch] is the only child of the node. *)
Definition only_child (l r ch : tree) : Prop := (l = Leaf /\ ch = r) \/ (r = Leaf /\ ch = l).

Definition new_parent (sn : ngx_rbtree_node_t) (p : Z) (t : tree) : ngx_rbtree_node_t :=
  match t with Leaf => set_n_parent p sn | _ => sn end.

Lemma only_child_addrs l r ch c red x k :
  only_child l r ch -> addrs (plug c (Node red l x k r)) ≡ₚ x :: addrs ch ++ caddrs c.
Proof.
  intros H. rewrite addrs_plug. destruct H as [[-> ->]|[-> ->]]; cbn; by rewrite ?app_nil_r.
Qed.

(** The statements that set the parent of the child, in the two cases. *)
Definition reparents (p x temp : Z) (m : M unit) : Prop :=
  m = (subst_parent ← rd n_parent x; wr (set_n_parent subst_parent) temp) \/
  exists node, p <> node /\ m = delete_reparent node temp x.

(** The child takes the place of its parent [x]. *)
Lemma unlink_ok sn f c red l x k r ch m st :
  only_child l r ch -> reparents (frame_addr f) x (root_of s ch) m ->
  Rep s sn (plug (f :: c) (Node red l x k r)) st ->
  wp (delete_unlink x (root_of s ch);; m)
     (fun _ st' => Rep s (new_parent sn (frame_addr f) ch) (plug (f :: c) ch) st' /\
        heap st' !! x = heap st !! x) st.
Proof.
  intros Hch Hm R. destruct (root_cases _ _ _ _ _ R) as [_ Hr].
  destruct R as [[p0 H] _ ND Hs]. rewrite (only_child_addrs _ _ _ _ _ _ _ Hch) in ND.
  assert (Hk : forall h sn' r', repr s h p0 (plug (f :: c) ch) -> r' = root_of s (plug (f :: c) ch) ->
                h !! s = Some sn' -> Rep s sn' (plug (f :: c) ch) (MkRb h r')).
  { intros h sn' r' H1 H2 H3. split; eauto. rewrite addrs_plug.
    rewrite Permutation_swap in ND. by apply NoDup_cons in ND as [_ ND]. }
  apply repr_plug in H as (Hc & Hx & Hl & Hrr).
  assert (Hchr : repr s (heap st) x ch) by (destruct Hch as [[-> ->]|[-> ->]]; done). clear Hl Hrr.
  unfold delete_unlink.
  destruct f as [redp p kp w|redp w p kp]; (destruct ch as [|redc ch1 z kz ch2]; open_mem ND;
    (destruct Hm as [->|(node & Hnode & ->)]; unfold delete_reparent;
     repeat wp_step; wp_ifs; repeat wp_step));
    (split; [apply Hk; [rewrite repr_plug; close_mem|apply Hr|find_node]|
             cbn [heap]; rewrite !lookup_insert_ne by congruence; done]).
Qed.

(** * The substitute takes the place of the deleted node *)

Lemma replace_ok sn c red l x k r y ky yl yr yp yc q p0 st :
  reprc s (heap st) p0 c x ->
  heap st !! x = Some (MkNode k (root_of s l) (root_of s r) (par_of p0 c) red) ->
  repr s (heap st) x l -> repr s (heap st) q r -> heap st !! s = Some sn ->
  heap st !! y = Some (MkNode ky yl yr yp yc) ->
  NoDup (s :: y :: x :: addrs l ++ addrs r ++ caddrs c) ->
  match c with
  | [] => root st = x
  | _ => x <> root st /\ forall t', root st = root_of s (plug c t')
  end ->
  wp (delete_replace s x y) (fun _ => Rep s sn (plug c (Node red l y ky r))) st.
Proof.
  intros Hc Hx Hl Hr Hs Hy ND Hroot.
  assert (Hk : forall h r', repr s h p0 (plug c (Node red l y ky r)) ->
                r' = root_of s (plug c (Node red l y ky r)) ->
                h !! s = Some sn -> Rep s sn (plug c (Node red l y ky r)) (MkRb h r')).
  { intros h r' H1 H2 H3. split; eauto. rewrite addrs_plug. cbn. rewrite <- app_assoc.
    rewrite (Permutation_swap x y), (Permutation_swap x s) in ND. by apply NoDup_cons in ND as [_ ND]. }
  unfold delete_replace, ngx_rbt_copy_color.
  destruct c as [|f c]; [|destruct Hroot as [Hne Hroot]; destruct f as [redp p kp w|redp w p kp]];
    (destruct l as [|redl l1 z kz l2]; destruct r as [|redr r1 v kv r2]; open_mem ND;
     repeat wp_step; wp_ifs; repeat wp_step).
  all: apply Hk; [rewrite repr_plug; close_mem|first [reflexivity|apply Hroot]|find_node].
Qed.

Definition in_left (f : frame) : Prop := match f with InLeft _ _ _ _ => True | _ => False end.

Lemma min_ok sn c r fuel : forall rc red l y k r' st,
  Rep s sn (plug c r) st -> r = plug rc (Node red l y k r') -> Forall in_left rc ->
  (height (Node red l y k r') <= fuel)%nat ->
  wp (ngx_rbtree_min s fuel y) (fun z st' => st' = st /\
    exists rc red k r', r = plug rc (Node red Leaf z k r') /\ Forall in_left rc) st.
Proof.
  induction fuel as [|fuel IH]; intros rc red l y k r' st R -> Hrc Hfuel; [cbn in Hfuel; lia|].
  cbn [ngx_rbtree_min]. pose proof R as R'. rewrite <- plug_app in R'.
  destruct (Rep_open _ _ _ _ _ R') as (p0 & _ & [Hy _] & _ & ND).
  apply wp_bind. eapply wp_rd; [exact Hy|]. cbn [n_left].
  destruct l as [|redl l1 z kz l2]; cbn [root_of].
  - rewrite Z.eqb_refl. apply wp_ret. split; [done|]. by eexists _, _, _, _.
  - rewrite (proj2 (Z.eqb_neq z s)) by (apply NoDup_cons in ND as [ND _]; set_solver).
    eapply (IH (InLeft red y k r' :: rc)); [exact R|done|by constructor|cbn in *; lia].
Qed.

(** The parent of temp after the deletion of a node with two children. *)
Definition subst_frames (rc : list frame) (red : bool) (l : tree) (y ky : Z) (c : list frame) : list frame :=
  rc ++ InRight red l y ky :: c.

Lemma two_children_ok sn c red l x k rc redy y ky yr st :
  Forall in_left rc ->
  Rep s sn (plug c (Node red l x k (plug rc (Node redy Leaf y ky yr)))) st ->
  let c' := subst_frames rc red l y ky c in
  wp (delete_unlink y (root_of s yr);;
      delete_reparent x (root_of s yr) y;; delete_replace s x y)
     (fun _ => Rep s (new_parent sn (par_of 0 c') yr) (plug c' yr)) st.
Proof.
  intros Hrc R c'. pose proof (root_cases _ _ _ _ _ R) as Hroot. cbn [root_of] in Hroot.
  destruct (Rep_open _ _ _ _ _ R) as (p0 & Hc & Ht & Hs & ND).
  assert (Hrep : forall p0 q r' sn' yl yr' yp yc st',
    addrs (plug rc (Node redy Leaf y ky yr)) ≡ₚ y :: addrs r' ->
    reprc s (heap st') p0 c x ->
    heap st' !! x = Some (MkNode k (root_of s l) (root_of s r') (par_of p0 c) red) ->
    repr s (heap st') x l -> repr s (heap st') q r' -> heap st' !! s = Some sn' ->
    heap st' !! y = Some (MkNode ky yl yr' yp yc) -> root st' = root st ->
    wp (delete_replace s x y) (fun _ => Rep s sn' (plug c (Node red l y ky r'))) st').
  { clear p0 Hc Ht Hs. intros p0 q r' sn' yl yr' yp yc st' Hp H1 H2 H3 H4 H5 H6 H7. eapply replace_ok; eauto.
    - cbn [addrs] in ND. rewrite Hp in ND. cbn in ND. rewrite <- app_assoc in ND. cbn in ND.
      by rewrite <- (Permutation_middle (addrs l)), (Permutation_swap y x) in ND.
    - by rewrite H7. }
  destruct rc as [|f rc].
  - (* the substitute is the right child *)
    cbn [plug] in *. unfold delete_unlink, delete_reparent. 
    destruct yr as [|redz z1 z kz z2]; open_mem ND; repeat wp_step; wp_ifs; repeat wp_step.
    + eapply (Hrep p0 x Leaf); cbn [heap root]; [done|by frames|find_node|by frames|done|find_node|find_node|done].
    + eapply (Hrep p0 y (Node redz z1 z kz z2)); cbn [heap root]; [done|by frames|find_node|by frames| |find_node|find_node|done].
      close_mem.
  - apply wp_assoc. apply Forall_cons in Hrc as [Hf Hrc]. clear Hc Ht Hs.
    assert (Hfx : frame_addr f <> x /\ y <> s).
    { assert (ND' : NoDup (s :: addrs (Node redy Leaf y ky yr) ++ caddrs ((f :: rc) ++ InRight red l x k :: c))).
      { rewrite <- addrs_plug, plug_app. cbn [plug plug1]. by rewrite addrs_plug. }
      cbn in ND'. rewrite NoDup_cons, NoDup_cons, NoDup_app, NoDup_cons in ND'. unfold caddrs in ND'.
      rewrite flat_map_app in ND'. set_solver. }
    assert (R1 : Rep s sn (plug (f :: rc ++ InRight red l x k :: c) (Node redy Leaf y ky yr)) st).
    { change (f :: rc ++ InRight red l x k :: c) with ((f :: rc) ++ InRight red l x k :: c).
      rewrite plug_app. exact R. }
    destruct (Rep_open _ _ _ _ _ R1) as (p1 & _ & [Hy _] & _).
    apply wp_bind. eapply wp_mono.
    { eapply (unlink_ok sn f); [by left|right; exists x; by destruct Hfx|exact R1]. }
    cbv beta. intros _ st' [R2 Hy']. rewrite Hy in Hy'.
    assert (R3 : Rep s (new_parent sn (frame_addr f) yr) (plug c (Node red l x k (plug (f :: rc) yr))) st').
    { change (f :: rc ++ InRight red l x k :: c) with ((f :: rc) ++ InRight red l x k :: c) in R2.
      rewrite plug_app in R2. exact R2. }
    destruct (Rep_open _ _ _ _ _ R3) as (p2 & Hc & (Hx & Hl & Hr) & Hs & _).
    eapply wp_mono; [eapply (Hrep p2 x (plug (f :: rc) yr)); eauto|].
    + by rewrite !addrs_plug.
    + rewrite (rep_root _ _ _ _ R3), (rep_root _ _ _ _ R), !root_plug. done.
    + cbv beta. intros _ st2 R4. unfold c', subst_frames. rewrite plug_app. exact R4.
Qed.

End Unlink.

(** * The deletion *)

Lemma short_of_rbt n red t : rbt n red t -> short n red t.
Proof. destruct 1; constructor; by econstructor. Qed.

(** The colours around the only child of a node of the tree. *)
Definition gap (red : bool) (c : list frame) (ch : tree) : Prop :=
  exists n b, if red then rbt n false ch /\ rbc n b c
              else exists rc, rbt n rc ch /\ rbc (S n) b c.

Lemma gap_intro n c red l x k r ch :
  rbt n false (plug c (Node red l x k r)) -> only_child l r ch -> gap red c ch.
Proof.
  intros H Hch. destruct (rbc_unplug _ _ _ H) as (m & redm & b & Ht & Hc & _).
  pose proof (rbt_root _ _ _ Ht) as ->.
  inversion Ht as [|? ? ? ? ? Hl Hr|? cl cr ? ? ? ? Hl Hr]; subst.
  - exists m, b. destruct Hch as [[-> ->]|[-> ->]]; done.
  - exists n0, b. destruct Hch as [[-> ->]|[-> ->]]; eauto.
Qed.

Lemma gap_frames red c ch rc red' l x k y ky :
  gap red (rc ++ InRight red' l x k :: c) ch -> gap red (subst_frames rc red' l y ky c) ch.
Proof.
  assert (H : forall n b, rbc n b (rc ++ InRight red' l x k :: c) ->
              rbc n b (subst_frames rc red' l y ky c)).
  { unfold subst_frames. induction rc as [|f rc IH]; cbn; intros n b Hc; inversion Hc; subst.
    - by apply rbc_red.
    - by eapply rbc_black.
    - apply rbc_red; auto.
    - eapply rbc_black; eauto. }
  intros (n & b & Hg). exists n, b. destruct red; [naive_solver|].
  destruct Hg as (rc' & ? & ?). eauto.
Qed.

Section DeleteTheorem.
Context (s : Z).

Definition delete_done (ns : list (Z * Z)) (st : rbmem) : Prop :=
  exists sn, n_red sn = false /\ deleted s sn ns st.

(** The statements after the child has taken the place of the substitute. *)
Lemma finish_ok sn c x red ch st :
  n_red sn = false -> gap red c ch -> under sn (par_of 0 c) ch -> (x ∉ s :: addrs (plug c ch)) ->
  x ∈ dom (heap st) -> Rep s sn (plug c ch) st ->
  wp (clear_node x;;
      if red then ret tt
      else fuel ← path_fuel; temp ← delete_fixup s fuel (root_of s ch); ngx_rbt_black temp)
     (fun _ => delete_done (nodes (plug c ch))) st.
Proof.
  intros Hsn (n & b & Hg) Hu Hx Hdom R. apply wp_bind.
  eapply wp_mono; [by apply (clear_node_ok s sn (plug c ch))|]. cbv beta. intros _ st' R'.
  destruct red.
  - destruct Hg as [Hch Hc]. apply wp_ret. exists sn. split; [done|]. exists (plug c ch).
    split; [done|]. split; [|done]. by apply (rbc_plug _ _ _ _ _ Hc Hch).
  - destruct Hg as (rc & Hch & Hc). apply wp_bind, wp_path_fuel.
    eapply wp_mono; [eapply (delete_fixup_ok s sn Hsn _ c ch)|].
    + exact R'.
    + by apply short_of_rbt.
    + exact Hc.
    + exact Hu.
    + reflexivity.
    + right. pose proof (Rep_path_fuel _ _ _ _ _ R'). lia.
    + cbv beta. intros _ st2 Hd. by exists sn.
Qed.

Lemma new_parent_red sn p t : n_red (new_parent sn p t) = n_red sn.
Proof. by destruct t, sn. Qed.

Lemma new_parent_under sn p t : under (new_parent sn p t) p t.
Proof. by destruct t. Qed.

(** Where the code goes on from the choice of temp and subst. *)
Definition delete_from (node temp subst : Z) : M unit :=
  r ← get_root;
  if subst =? r then set_root temp;; ngx_rbt_black temp;; clear_node node
  else
    red ← ngx_rbt_is_red subst;
    delete_unlink subst temp;;
    (if subst =? node then subst_parent ← rd n_parent subst; wr (set_n_parent subst_parent) temp
     else delete_reparent node temp subst;; delete_replace s node subst);;
    clear_node node;;
    if red then ret tt
    else
      fuel ← path_fuel;
      temp ← delete_fixup s fuel temp;
      ngx_rbt_black temp.

Lemma delete_from_one sn c red l x k r ch n st :
  n_red sn = false -> rbt n false (plug c (Node red l x k r)) -> only_child l r ch ->
  Rep s sn (plug c (Node red l x k r)) st ->
  wp (delete_from x (root_of s ch) x) (fun _ => delete_done (nodes (plug c ch))) st.
Proof.
  intros Hsn Hrb Hch R. pose proof (gap_intro _ _ _ _ _ _ _ _ Hrb Hch) as Hg.
  pose proof (root_cases _ _ _ _ _ R) as Hroot. cbn [root_of] in Hroot.
  destruct (Rep_open _ _ _ _ _ R) as (p0 & _ & [Hx Hsub] & _).
  assert (Hfresh : x ∉ s :: addrs (plug c ch)).
  { destruct R as [_ _ ND _]. rewrite (only_child_addrs _ _ _ _ _ _ _ Hch), Permutation_swap in ND.
    apply NoDup_cons in ND as [ND _]. by rewrite addrs_plug. }
  assert (Hdom : x ∈ dom (heap st)) by (apply elem_of_dom; eauto).
  unfold delete_from. apply wp_bind, wp_get_root. destruct c as [|f c].
  - rewrite Hroot, Z.eqb_refl. apply wp_bind, wp_set_root, wp_bind. cbn [plug] in *.
    assert (R' : Rep s sn (plug [] ch) (MkRb (heap st) (root_of s ch))).
    { destruct R as [[p1 H] _ ND Hs]. split; cbn [heap root plug]; try done.
      - exists x. destruct Hch as [[-> ->]|[-> ->]]; apply H.
      - rewrite (only_child_addrs _ _ _ [] red x k Hch), Permutation_swap in ND. cbn in ND.
        rewrite app_nil_r in ND. by apply NoDup_cons in ND as [_ ND]. }
    destruct Hg as (m & b & Hg).
    assert (Hs : exists m red', short m red' ch).
    { destruct red; [destruct Hg as [H _]|destruct Hg as (rc & H & _)]; eauto using short_of_rbt. }
    destruct Hs as (m' & red' & Hs).
    eapply wp_mono; [eapply wp_keeps; [apply keeps_wr|]; eapply (blacken_ok s sn Hsn [] ch); eauto using rbc_nil|].
    cbv beta. intros _ st' [(t' & R1 & Hrb' & Hn) Hd].
    eapply wp_mono; [apply (clear_node_ok s sn t'); [|done|by rewrite Hd]|].
    + rewrite addrs_nodes, Hn, <- addrs_nodes. exact Hfresh.
    + cbv beta. intros _ st2 R2. exists sn. split; [done|]. by exists t'.
  - destruct Hroot as [Hne _]. rewrite (proj2 (Z.eqb_neq x _)) by done.
    apply wp_bind. eapply wp_rd; [exact Hx|]. cbn [n_red]. apply wp_assoc. rewrite Z.eqb_refl. apply wp_bind.
    eapply wp_mono.
    { eapply wp_keeps; [unfold delete_unlink; keeps|]. eapply (unlink_ok s sn f); [exact Hch|by left|exact R]. }
    cbv beta. intros _ st' [[R' _] Hd].
    eapply (finish_ok (new_parent sn (frame_addr f) ch)); try done.
    + by rewrite new_parent_red.
    + apply new_parent_under.
    + by rewrite Hd.
Qed.

Lemma before_in_left rc : Forall in_left rc -> before rc = [].
Proof. induction 1 as [|f rc Hf _ IH]; [done|]. by destruct f. Qed.

Lemma caddrs_mid rc red l x k c :
  caddrs (rc ++ InRight red l x k :: c) ≡ₚ x :: caddrs rc ++ addrs l ++ caddrs c.
Proof. unfold caddrs. rewrite flat_map_app. cbn. symmetry; apply Permutation_middle. Qed.

Lemma delete_from_two sn c red l x k rc redy y ky yr n st :
  let t := plug c (Node red l x k (plug rc (Node redy Leaf y ky yr))) in
  n_red sn = false -> rbt n false t -> Forall in_left rc -> Rep s sn t st ->
  wp (delete_from x (root_of s yr) y)
     (fun _ => delete_done (nodes (plug (subst_frames rc red l y ky c) yr))) st.
Proof.
  intros t Hsn Hrb Hrc R. set (c0 := rc ++ InRight red l x k :: c).
  assert (E : t = plug c0 (Node redy Leaf y ky yr)) by (unfold t, c0; by rewrite plug_app).
  rewrite E in R, Hrb.
  assert (Hg : gap redy c0 yr) by (eapply gap_intro; [exact Hrb|by left]).
  assert (Hc0 : c0 <> []) by (unfold c0; by destruct rc).
  pose proof (root_cases _ _ _ _ _ R) as Hroot.
  destruct (Rep_open _ _ _ _ _ R) as (p0 & _ & [Hy _] & _ & ND).
  assert (Hxy : x <> y /\ x ∉ s :: addrs (plug (subst_frames rc red l y ky c) yr)).
  { rewrite addrs_plug. unfold c0, subst_frames in *. rewrite caddrs_mid in ND |- *.
    cbn in ND |- *.
    rewrite <- !Permutation_middle in ND |- *. nodup_split. set_solver. }
  assert (Hdom : x ∈ dom (heap st)).
  { rewrite <- E in R. destruct (Rep_open _ _ _ _ _ R) as (p1 & _ & [Hx _] & _).
    apply elem_of_dom. eauto. }
  unfold delete_from. apply wp_bind, wp_get_root.
  assert (Hne : y <> root st) by (destruct c0; [done|]; apply Hroot).
  rewrite (proj2 (Z.eqb_neq y _)) by done.
  apply wp_bind. eapply wp_rd; [exact Hy|]. cbn [n_red]. apply wp_assoc.
  rewrite (proj2 (Z.eqb_neq y x)) by (destruct Hxy; congruence). apply wp_bind.
  eapply wp_mono.
  { eapply wp_keeps; [unfold delete_unlink, delete_reparent, delete_replace, ngx_rbt_copy_color; keeps|].
    eapply two_children_ok; [exact Hrc|]. rewrite <- E in R. exact R. }
  cbv beta. intros _ st' [R' Hd].
  eapply finish_ok; [| |apply new_parent_under|apply Hxy|by rewrite Hd|exact R'].
  - by rewrite new_parent_red.
  - by eapply gap_frames.
Qed.

(** The path to a node of the tree. *)
Lemma find_path t l1 x k l2 : nodes t = l1 ++ (x, k) :: l2 ->
  exists c red l r, t = plug c (Node red l x k r) /\ before c ++ nodes l = l1 /\ nodes r ++ after c = l2.
Proof.
  revert l1 l2. induction t as [|red l IHl y ky r IHr]; intros l1 l2 H; cbn in H.
  - by destruct l1.
  - apply app_eq_app in H as (m & [[H1 H2]|[H1 H2]]).
    + destruct m as [|p m]; cbn in H2.
      * injection H2 as -> -> ->. exists [], red, l, r. cbn. rewrite !app_nil_r in *. by subst.
      * injection H2 as <- ->. destruct (IHl l1 m H1) as (c & red' & a & b & -> & <- & <-).
        exists (c ++ [InLeft red y ky r]), red', a, b. rewrite plug_app, before_app, after_app. cbn.
        by rewrite app_nil_r, <- app_assoc.
    + destruct m as [|p m]; cbn in H2.
      * injection H2 as <- <- <-. exists [], red, l, r. cbn. rewrite !app_nil_r in *. by subst.
      * injection H2 as <- H2. destruct (IHr m l2 H2) as (c & red' & a & b & -> & <- & <-).
        exists (c ++ [InRight red l y ky]), red', a, b. rewrite plug_app, before_app, after_app. cbn.
        subst l1. rewrite app_nil_r, <- !app_assoc. done.
Qed.

Lemma delete_subst_one sn c red l x k r st :
  Rep s sn (plug c (Node red l x k r)) st -> l = Leaf \/ r = Leaf ->
  exists ch, only_child l r ch /\
    wp (delete_subst s x) (fun p st' => p = (root_of s ch, x) /\ st' = st) st.
Proof.
  intros R Hlr. destruct (Rep_open _ _ _ _ _ R) as (p0 & _ & [Hx _] & _ & ND).
  assert (Hs : s ∉ addrs l).
  { apply NoDup_cons in ND as [ND _]. cbn in ND. set_solver. }
  unfold delete_subst. destruct l as [|redl l1 z kz l2].
  - exists r. split; [by left|]. repeat wp_step. cbn [root_of]. by rewrite Z.eqb_refl.
  - destruct Hlr as [| ->]; [done|]. eexists. split; [by right|]. repeat wp_step. cbn [root_of].
    rewrite (proj2 (Z.eqb_neq z s)), Z.eqb_refl by (cbn in Hs; set_solver). done.
Qed.

Lemma delete_subst_two sn c red l x k r st :
  Rep s sn (plug c (Node red l x k r)) st -> l <> Leaf -> r <> Leaf ->
  wp (delete_subst s x) (fun p st' => st' = st /\ exists rc redy y ky yr,
    p = (root_of s yr, y) /\ r = plug rc (Node redy Leaf y ky yr) /\ Forall in_left rc) st.
Proof.
  intros R Hl Hr. destruct (Rep_open _ _ _ _ _ R) as (p0 & _ & [Hx _] & _ & ND).
  unfold delete_subst. destruct l as [|redl l1 z kz l2]; [done|]. destruct r as [|redr r1 v kv r2]; [done|].
  repeat wp_step. cbn [root_of].
  apply NoDup_cons in ND as [ND _]. cbn in ND.
  rewrite (proj2 (Z.eqb_neq z s)), (proj2 (Z.eqb_neq v s)) by set_solver.
  apply wp_bind, wp_path_fuel, wp_bind. set (r := Node redr r1 v kv r2).
  eapply wp_mono.
  { eapply (min_ok s sn (InRight red (Node redl l1 z kz l2) x k :: c) r _ [] redr r1 v kv r2);
      [exact R|done|by constructor|].
    pose proof (Rep_path_fuel _ _ _ _ _ R). cbn in *. lia. }
  cbv beta. intros y st' (-> & rc & redy & ky & yr & E & Hrc). unfold r in E. rewrite E in R.
  assert (R1 : Rep s sn (plug (rc ++ InRight red (Node redl l1 z kz l2) x k :: c) (Node redy Leaf y ky yr)) st).
  { rewrite plug_app. exact R. }
  destruct (Rep_open _ _ _ _ _ R1) as (p1 & _ & [Hy _] & _).
  apply wp_bind. eapply wp_rd; [exact Hy|]. cbn [n_left root_of]. rewrite Z.eqb_refl. cbn [negb].
  apply wp_bind. eapply wp_rd; [exact Hy|]. cbn [n_right]. apply wp_ret.
  split; [done|]. by exists rc, redy, y, ky, yr.
Qed.

Lemma rbtree_delete_ok sn t x k l1 l2 st :
  n_red sn = false -> red_black t -> Rep s sn t st -> nodes t = l1 ++ (x, k) :: l2 ->
  wp (ngx_rbtree_delete s x)
     (fun _ st' => exists sn' t', n_red sn' = false /\ Rep s sn' t' st' /\ red_black t' /\
        nodes t' = l1 ++ l2) st.
Proof.
  intros Hsn [n Hrb] R Hn. destruct (find_path _ _ _ _ _ Hn) as (c & red & l & r & -> & <- & <-).
  assert (Hend : forall ns st', delete_done ns st' -> ns = (before c ++ nodes l) ++ nodes r ++ after c ->
            exists sn' t', n_red sn' = false /\ Rep s sn' t' st' /\ red_black t' /\
              nodes t' = (before c ++ nodes l) ++ nodes r ++ after c).
  { intros ns st' (sn' & Hsn' & t' & HR & Hrb' & Hns) ->. eauto 6. }
  unfold ngx_rbtree_delete. apply wp_bind.
  destruct (decide (l = Leaf \/ r = Leaf)) as [Hlr|Hlr].
  - destruct (delete_subst_one _ _ _ _ _ _ _ _ R Hlr) as (ch & Hch & Hsub).
    eapply wp_mono; [exact Hsub|]. cbv beta. intros ? ? [-> ->].
    eapply wp_mono; [by eapply delete_from_one|]. cbv beta. intros _ st' Hd.
    apply (Hend _ _ Hd). rewrite nodes_plug.
    destruct Hch as [[-> ->]|[-> ->]]; cbn; by rewrite ?app_nil_r, <- ?app_assoc.
  - eapply wp_mono; [eapply delete_subst_two; [exact R|tauto|tauto]|]. cbv beta.
    intros ? ? (-> & rc & redy & y & ky & yr & -> & -> & Hrc).
    eapply wp_mono; [by eapply delete_from_two|]. cbv beta. intros _ st' Hd.
    apply (Hend _ _ Hd). unfold subst_frames. rewrite !nodes_plug, before_app, after_app.
    rewrite (before_in_left rc) by done. cbn. rewrite !app_nil_r, <- !app_assoc. done.
Qed.

End DeleteTheorem.

End RbtreeDelete.
