(* ===== verification/NgxRbtreeOrder.v ===== *)
(** What a red-black tree is for: its nodes are in the order of their keys and
    its height is logarithmic, after any sequence of insertions and deletions. *)

From stdpp Require Import sorting.
From S2P Require Import Prelude NgxRbtree NgxRbtreeRep NgxRbtreeInsert NgxRbtreeDelete.

#[local] Open Scope Z_scope.

Module RbtreeOrder.

Export RbtreeInsert RbtreeDelete.

(** * Placing a node in a sorted list *)

Definition by_key (p q : Z * Z) : Prop := p.2 <= q.2.

Lemma place_perm g e l : place g e l ≡ₚ e :: l.
Proof.
  induction l as [|p l IH]; cbn; [done|]. case_match; [done|]. rewrite IH. apply Permutation_swap.
Qed.

Lemma place_map {g g'} f e l :
  Forall (fun q => g (f q) = g' q) l -> place g (f e) (map f l) = map f (place g' e l).
Proof.
  induction 1 as [|q l Hq _ IH]; cbn; [done|]. rewrite Hq. destruct (g' q); cbn; [done|]. by rewrite IH.
Qed.

Lemma place_sorted e l :
  StronglySorted by_key l -> StronglySorted by_key (place (fun q => e.2 <? q.2) e l).
Proof.
  induction 1 as [|p l Hs IH Hp]; cbn; [by repeat constructor|]. case_match; boolify.
  - constructor; [by constructor|]. constructor; [unfold by_key; lia|].
    eapply Forall_impl; [exact Hp|]. unfold by_key. intros; lia.
  - constructor; [exact IH|]. rewrite place_perm. constructor; [unfold by_key; lia|done].
Qed.

Lemma sorted_parted f g l D :
  StronglySorted by_key l -> Forall (fun q => g (f q) = (D <? q.2)) l -> parted g (map f l).
Proof.
  induction 1 as [|p l Hs IH Hp]; intros Hg; [by exists [], []|].
  apply Forall_cons in Hg as [Hg1 Hg2]. destruct (D <? p.2) eqn:E; boolify.
  - exists [], (map f (p :: l)). split; [done|]. split; [done|]. cbn. constructor; [done|].
    apply Forall_map. assert (H := conj Hg2 Hp). rewrite <- Forall_and in H.
    eapply Forall_impl; [exact H|]. cbn. intros q [-> Hq]. apply Z.ltb_lt. unfold by_key in Hq. lia.
  - destruct (IH Hg2) as (l1 & l2 & El & H1 & H2). exists (f p :: l1), l2. cbn. rewrite El.
    split; [done|]. split; [by constructor|done].
Qed.

(** The same for any order of the nodes that the test agrees with. *)
Lemma order_parted (R : Z * Z -> Z * Z -> Prop) g l :
  StronglySorted R l -> (forall p q, p ∈ l -> q ∈ l -> R p q -> g p = true -> g q = true) -> parted g l.
Proof.
  induction 1 as [|p l Hs IH Hp]; intros Hg; [by exists [], []|].
  destruct (g p) eqn:E.
  - exists [], (p :: l). split; [done|]. split; [done|]. constructor; [done|].
    rewrite Forall_forall in Hp |- *. intros q Hq. apply (Hg p q); [constructor|by constructor|auto|done].
  - destruct IH as (l1 & l2 & -> & H1 & H2).
    { intros q r Hq Hr. apply Hg; by constructor. }
    exists (p :: l1), l2. split; [done|]. split; [by constructor|done].
Qed.

Lemma order_place (R : Z * Z -> Z * Z -> Prop) g e l :
  StronglySorted R l -> parted g l -> (forall p, p ∈ l -> if g p then R e p else R p e) ->
  StronglySorted R (place g e l).
Proof.
  intros Hs (l1 & l2 & -> & H1 & H2) He. rewrite place_app by done.
  apply StronglySorted_app in Hs as (H12 & Hs1 & Hs2). rewrite Forall_forall in H1, H2.
  apply StronglySorted_app_2; [|done|].
  - intros p q Hp [->|Hq]%elem_of_cons; [|auto].
    specialize (He p). rewrite (H1 p Hp) in He. apply He, elem_of_app. by left.
  - constructor; [done|]. apply Forall_forall. intros q Hq.
    specialize (He q). rewrite (H2 q Hq) in He. apply He, elem_of_app. by right.
Qed.

(** * The height *)

Lemma rbt_size n c t : rbt n c t -> 2 ^ Z.of_nat n <= Z.of_nat (length (nodes t)) + 1.
Proof.
  induction 1 as [|n l x k r Hl IHl Hr IHr|n cl cr l x k r Hl IHl Hr IHr]; cbn; [lia| |];
    rewrite length_app; cbn; [lia|].
  rewrite Nat2Z.inj_succ, Z.pow_succ_r by lia. lia.
Qed.

Lemma rbt_height n c t : rbt n c t -> (height t <= 2 * n + if c then 1 else 0)%nat.
Proof. induction 1 as [|n l x k r _ IHl _ IHr|n [] [] l x k r _ IHl _ IHr]; cbn in *; lia. Qed.

Lemma red_black_height t : red_black t ->
  2 ^ (Z.of_nat (height t) / 2) <= Z.of_nat (length (nodes t)) + 1.
Proof.
  intros [n H]. pose proof (rbt_height _ _ _ H). pose proof (rbt_size _ _ _ H).
  etrans; [|exact H1]. apply Z.pow_le_mono_r; [lia|]. cbn in *. apply Z.div_le_upper_bound; lia.
Qed.

(** * Searching *)

(** The comparison with the nodes agrees with their order. *)
Definition sided (cmp : Z * Z -> Z) (l : list (Z * Z)) : Prop :=
  StronglySorted (fun p q => Z.sgn (cmp q) <= Z.sgn (cmp p)) l.

Lemma sided_node cmp l x r : sided cmp (l ++ x :: r) ->
  sided cmp l /\ sided cmp r /\ (cmp x < 0 -> Forall (fun q => cmp q <> 0) r) /\
  (0 < cmp x -> Forall (fun q => cmp q <> 0) l).
Proof.
  unfold sided. intros (Hlr & Hl & Hx)%StronglySorted_app. inversion Hx as [|? ? Hr Hxr]; subst.
  split_and!; [done|done| |].
  - intros H. eapply Forall_impl; [exact Hxr|]. cbn. intros q. lia.
  - intros H. apply Forall_forall. intros q Hq. specialize (Hlr q x Hq ltac:(constructor)). cbn in Hlr. lia.
Qed.

Lemma search_ok s sn cmp cmp' fuel : forall c t st,
  Rep s sn (plug c t) st -> (forall a n, cmp a n = cmp' (a, n_key n)) -> sided cmp' (nodes t) ->
  (height t < fuel)%nat ->
  wp (rbtree_search cmp s fuel (root_of s t)) (fun r st' => st' = st /\
    match r with
    | Some a => exists k, (a, k) ∈ nodes t /\ cmp' (a, k) = 0
    | None => Forall (fun q => cmp' q <> 0) (nodes t)
    end) st.
Proof.
  induction fuel as [|fuel IH]; intros c t st R Hcmp Hs Hf; [lia|]. cbn [rbtree_search].
  destruct t as [|red l x k r]; cbn [root_of].
  { rewrite Z.eqb_refl. apply wp_ret. by split. }
  destruct (Rep_open _ _ _ _ _ R) as (p0 & _ & [Hx _] & _ & ND).
  apply NoDup_cons in ND as [ND _]. cbn in ND. apply not_elem_of_cons in ND as [ND _].
  rewrite (proj2 (Z.eqb_neq x s)) by congruence.
  apply wp_bind. eapply wp_rd; [exact Hx|]. rewrite Hcmp. cbn [n_key].
  cbn in Hs. destruct (sided_node _ _ _ _ Hs) as (Hl & Hr & Hlt & Hgt).
  destruct (Z.eqb_spec (cmp' (x, k)) 0) as [E|E].
  { apply wp_ret. split; [done|]. exists k. split; [|done]. apply elem_of_app. right. constructor. }
  cbn in Hf. destruct (cmp' (x, k) <? 0) eqn:Elt; boolify.
  - apply wp_bind. eapply wp_rd; [exact Hx|]. cbn [n_left].
    eapply wp_mono; [apply (IH (InLeft red x k r :: c) l); [exact R|done|done|lia]|].
    cbv beta. intros [a|] st' [-> H]; (split; [done|]).
    + destruct H as (k' & Hin & H0). exists k'. split; [|done]. apply elem_of_app. by left.
    + apply Forall_app. split; [done|]. constructor; [done|]. by apply Hlt.
  - apply wp_bind. eapply wp_rd; [exact Hx|]. cbn [n_right].
    eapply wp_mono; [apply (IH (InRight red l x k :: c) r); [exact R|done|done|lia]|].
    cbv beta. intros [a|] st' [-> H]; (split; [done|]).
    + destruct H as (k' & Hin & H0). exists k'. split; [|done]. apply elem_of_app. right. by constructor.
    + apply Forall_app. split; [apply Hgt; lia|]. by constructor.
Qed.

(** * Sequences of operations *)

Inductive rb_op := Insert (x k : Z) | Delete (x : Z).

(** The key is set before the insertion, as the callers do. *)
Definition rb_run_op (s : Z) (op : rb_op) : M unit :=
  match op with
  | Insert x k => wr (set_n_key k) x;; ngx_rbtree_insert ngx_rbtree_insert_value s x
  | Delete x => ngx_rbtree_delete s x
  end.

Fixpoint rb_run (s : Z) (ops : list rb_op) : M unit :=
  match ops with [] => ret tt | op :: ops => rb_run_op s op;; rb_run s ops end.

(** The specification: a list that is kept sorted, equal keys in the order of
    their insertion. *)
Definition rb_spec_op (op : rb_op) (l : list (Z * Z)) : list (Z * Z) :=
  match op with
  | Insert x k => place (fun q => k <? q.2) (x, k) l
  | Delete x => filter (fun p => p.1 <> x) l
  end.

Definition rb_spec (ops : list rb_op) (l : list (Z * Z)) : list (Z * Z) :=
  fold_left (fun l op => rb_spec_op op l) ops l.

(** Nodes that are not in the tree are inserted, and nodes of the tree
    deleted. *)
Fixpoint rb_ops_ok (s : Z) (mem : gset Z) (ops : list rb_op) (l : list (Z * Z)) : Prop :=
  match ops with
  | [] => True
  | op :: ops =>
    match op with
    | Insert x _ => x ∈ mem /\ (x ∉ s :: l.*1)
    | Delete x => x ∈ l.*1
    end /\ rb_ops_ok s mem ops (rb_spec_op op l)
  end.

Definition holds (s : Z) (mem : gset Z) (l : list (Z * Z)) (st : rbmem) : Prop :=
  dom (heap st) = mem /\ exists sn t, n_red sn = false /\ Rep s sn t st /\ red_black t /\ nodes t = l.

Lemma filter_first x k (l1 l2 : list (Z * Z)) :
  NoDup ((l1 ++ (x, k) :: l2).*1) -> filter (fun p => p.1 <> x) (l1 ++ (x, k) :: l2) = l1 ++ l2.
Proof.
  rewrite fmap_app. cbn. rewrite <- Permutation_middle, <- fmap_app. intros [Hx ND]%NoDup_cons.
  rewrite filter_app, filter_cons_False by (cbn; tauto). rewrite <- filter_app.
  clear ND. induction (l1 ++ l2) as [|p l IH]; [done|]. cbn in Hx.
  apply not_elem_of_cons in Hx as [Hp Hx]. rewrite filter_cons_True by congruence. by rewrite IH.
Qed.

Lemma rb_run_op_ok s mem op l st :
  holds s mem l st -> StronglySorted by_key l -> rb_ops_ok s mem [op] l ->
  wp (rb_run_op s op) (fun _ => holds s mem (rb_spec_op op l)) st.
Proof.
  intros [Hdom (sn & t & Hsn & R & Hrb & <-)] Hs [Hop _]. destruct op as [x k|x]; cbn [rb_run_op rb_spec_op].
  - destruct Hop as [Hx Hfresh]. rewrite <- Hdom in Hx. apply elem_of_dom in Hx as [n Hn].
    rewrite <- addrs_nodes in Hfresh.
    eapply wp_mono.
    + apply (wp_keeps _ (fun _ st' => exists t', Rep s sn t' st' /\ red_black t' /\
          nodes t' = place (fun q => k <? q.2) (x, k) (nodes t))).
      { apply keeps_bind; [apply keeps_wr|intros _]. apply keeps_insert. intros t0.
        unfold ngx_rbtree_insert_value. keeps. apply keeps_descend. }
      apply wp_bind. eapply wp_wr; [exact Hn|].
      eapply (rbtree_insert_ok (gl := value_left)); [exact Hsn|exact Hrb|apply Rep_insert; [exact Hfresh|]| |].
      * destruct st. exact R.
      * split; [exact Hfresh|]. eexists. cbn [heap]. rewrite lookup_insert_eq. split; [done|reflexivity].
      * rewrite <- (map_id (nodes t)). apply (sorted_parted _ _ _ k); [done|].
        apply Forall_forall. done.
    + cbv beta. intros _ st' [(t' & R' & Hrb' & Hn') Hd]. split; [by rewrite Hd|]. by exists sn, t'.
  - apply list_elem_of_fmap in Hop as ([x' k] & -> & Hin). cbn.
    apply list_elem_of_split in Hin as (l1 & l2 & El).
    assert (ND : NoDup ((nodes t).*1)).
    { rewrite <- addrs_nodes. destruct R as [_ _ ND _]. by apply NoDup_cons in ND as [_ ND]. }
    rewrite El in ND |- *. rewrite filter_first by done.
    eapply wp_mono; [apply wp_keeps; [apply keeps_delete|]; by eapply rbtree_delete_ok|].
    cbv beta. intros _ st' [(sn' & t' & Hsn' & R' & Hrb' & Hn') Hd]. split; [by rewrite Hd|]. eauto 6.
Qed.

Lemma rb_spec_op_sorted op l : StronglySorted by_key l -> StronglySorted by_key (rb_spec_op op l).
Proof.
  intros H. destruct op as [x k|x]; cbn; [by apply (place_sorted (x, k))|].
  induction H as [|p l Hs IH Hp]; [constructor|]. rewrite filter_cons. case_decide; [|done].
  constructor; [done|]. rewrite Forall_forall in *. intros q [_ Hq]%list_elem_of_filter. auto.
Qed.

Lemma rb_run_ok s mem ops : forall l st,
  holds s mem l st -> StronglySorted by_key l -> rb_ops_ok s mem ops l ->
  wp (rb_run s ops) (fun _ st' => holds s mem (rb_spec ops l) st' /\ StronglySorted by_key (rb_spec ops l)) st.
Proof.
  induction ops as [|op ops IH]; intros l st Hh Hs Hops; [by apply wp_ret|].
  destruct Hops as [Hop Hops]. apply wp_bind.
  eapply wp_mono; [apply (rb_run_op_ok s mem op l); [done|done|by split]|].
  cbv beta. intros _ st' Hh'. apply IH; [done|by apply rb_spec_op_sorted|done].
Qed.

(** C10: the red-black tree.  After any sequence of insertions of nodes that are
    not in the tree and deletions of nodes that are, none of which makes an
    undefined access or fails to end, the memory holds a red-black tree whose
    nodes from left to right are those inserted and not deleted, in the order
    of their keys and, for equal keys, of their insertion; its height is at
    most twice the logarithm of its size. *)
Theorem rbtree_run s ops st :
  s ∈ dom (heap st) -> rb_ops_ok s (dom (heap st)) ops [] ->
  exists st' sn t, (ngx_rbtree_init s;; rb_run s ops) st = Ret (tt, st') /\
    Rep s sn t st' /\ red_black t /\ nodes t = rb_spec ops [] /\ StronglySorted by_key (nodes t) /\
    2 ^ (Z.of_nat (height t) / 2) <= Z.of_nat (length (nodes t)) + 1.
Proof.
  intros Hs Hops. pose proof Hs as [sn Hsn]%elem_of_dom.
  assert (H : wp (ngx_rbtree_init s;; rb_run s ops) (fun _ st' =>
            holds s (dom (heap st)) (rb_spec ops []) st' /\ StronglySorted by_key (rb_spec ops [])) st).
  { unfold ngx_rbtree_init, ngx_rbt_black. apply wp_bind, wp_bind. eapply wp_wr; [exact Hsn|].
    apply wp_set_root. cbn [heap root]. apply rb_run_ok; [|constructor|done].
    split; cbn; [apply dom_insert_lookup_L; eauto|].
    exists (set_n_red false sn), Leaf. split_and!; [done| |by exists 0%nat; constructor|done].
    split; cbn; [by exists 0|done|constructor; [set_solver|constructor]|by rewrite lookup_insert_eq]. }
  apply wp_elim in H as ([] & st' & E & [_ (sn' & t & _ & R & Hrb & Hn)] & Hsort).
  exists st', sn', t. rewrite Hn in *. split_and!; try done. rewrite <- Hn. by apply red_black_height.
Qed.

(** * A concrete tree *)

Definition mem0 : rbmem :=
  MkRb (list_to_map (map (fun x => (x, MkNode 0 0 0 0 true)) [1; 10; 20; 30; 40; 50; 60; 70])) 0.

Definition ops0 : list rb_op :=
  [Insert 10 5; Insert 20 6; Insert 30 7; Insert 40 8; Delete 20; Insert 50 7; Insert 60 1;
   Delete 10; Insert 70 2; Delete 40].

Example ops0_spec : rb_spec ops0 [] = [(60, 1); (70, 2); (30, 7); (50, 7)].
Proof. reflexivity. Qed.

Lemma rbtree_run_witness : exists st' sn t, (ngx_rbtree_init 1;; rb_run 1 ops0) mem0 = Ret (tt, st') /\
  Rep 1 sn t st' /\ red_black t /\ nodes t = rb_spec ops0 [] /\ StronglySorted by_key (nodes t) /\
  2 ^ (Z.of_nat (height t) / 2) <= Z.of_nat (length (nodes t)) + 1.
Proof.
  apply (rbtree_run 1 ops0 mem0); [apply (bool_decide_unpack _); vm_compute; exact I|].
  cbn [rb_ops_ok ops0]. split_and!; try done; apply (bool_decide_unpack _); vm_compute; exact I.
Defined.

End RbtreeOrder.
