(* ===== verification/NgxEventTimer.v ===== *)
(** The timers of the event loop: src/event/ngx_event_timer.c and
    ngx_event_timer.h, on the red-black tree of NgxRbtree.

    The timer node is a part of its event, so an event is named by the address
    of that node.  The build is without threads.  The handler of an event is
    code of the modules: here it is a function that gives the timers the
    handler sets and removes, which are all that it can do to the tree, from
    the event and the events that were handled before it.

    A due time is abstractly an unbounded number of milliseconds; the code
    keeps it modulo 2^64. *)

From stdpp Require Import sorting.
From S2P Require Import Prelude NgxRbtree NgxRbtreeRep NgxRbtreeInsert NgxRbtreeDelete NgxRbtreeOrder.

#[local] Open Scope Z_scope.

Module EventTimer.

Export RbtreeOrder.

(** * The code *)

Definition NGX_TIMER_INFINITE : Z := 2 ^ 64 - 1.
Definition NGX_TIMER_LAZY_DELAY : Z := 300.

Record ngx_event_t := MkEvent { timer_set : bool; timedout : bool }.

(** The memory of the timer nodes with ngx_event_timer_rbtree, and the flags
    of the events. *)
Record timers := MkTimers { rb : rbmem; events : gmap Z ngx_event_t }.

Section Timers.
Context (sentinel : Z).

Definition ngx_event_timer_init (st : timers) : outcome timers :=
  let! p := ngx_rbtree_init sentinel (rb st) in Ret (MkTimers p.2 (events st)).

Definition event (ev : Z) (st : timers) : outcome ngx_event_t :=
  match events st !! ev with Some e => Ret e | None => Undefined end.

Definition ngx_event_del_timer (ev : Z) (st : timers) : outcome timers :=
  let! p := ngx_rbtree_delete sentinel ev (rb st) in
  let! e := event ev st in
  Ret (MkTimers p.2 (<[ev := MkEvent false (timedout e)]> (events st))).

(** The statements of ngx_event_add_timer from [ev->timer.key = key]. *)
Definition timer_insert (ev key : Z) (st : timers) : outcome timers :=
  let! p := (wr (set_n_key key) ev;;
             ngx_rbtree_insert ngx_rbtree_insert_timer_value sentinel ev) (rb st) in
  let! e := event ev st in
  Ret (MkTimers p.2 (<[ev := MkEvent true (timedout e)]> (events st))).

Definition ngx_event_add_timer (now ev timer : Z) (st : timers) : outcome timers :=
  let key := wrapU 64 (now + timer) in
  let! e := event ev st in
  if timer_set e then
    let! old := rd n_key ev (rb st) in
    let diff := wrapS 64 (key - old.1) in
    if Z.abs diff <? NGX_TIMER_LAZY_DELAY then Ret st
    else let! st := ngx_event_del_timer ev st in timer_insert ev key st
  else timer_insert ev key st.

Definition timer_min : M Z := r ← get_root; fuel ← path_fuel; ngx_rbtree_min sentinel fuel r.

Definition ngx_event_find_timer (now : Z) (st : timers) : outcome Z :=
  if root (rb st) =? sentinel then Ret NGX_TIMER_INFINITE
  else
    let! p := (node ← timer_min; rd n_key node) (rb st) in
    let timer := wrapS 64 (p.1 - now) in
    Ret (if timer >? 0 then timer else 0).

(** What a handler does to the timers. *)
Inductive timer_op := AddTimer (ev timer : Z) | DelTimer (ev : Z).

(** The callers remove a timer only if it is set. *)
Definition run_op (now : Z) (op : timer_op) (st : timers) : outcome timers :=
  match op with
  | AddTimer ev timer => ngx_event_add_timer now ev timer st
  | DelTimer ev =>
    let! e := event ev st in if timer_set e then ngx_event_del_timer ev st else Ret st
  end.

Fixpoint run_ops (now : Z) (ops : list timer_op) (st : timers) : outcome timers :=
  match ops with
  | [] => Ret st
  | op :: ops => let! st := run_op now op st in run_ops now ops st
  end.

(** The result has the events whose handlers were called, in order.  Each
    call takes one of the due timers; the fuel is the number of nodes. *)
Fixpoint expire_loop (handler : list Z -> Z -> list timer_op) (now : Z) (fuel : nat)
    (past : list Z) (st : timers) : outcome (list Z * timers) :=
  match fuel with
  | O => NoFuel
  | S fuel =>
    if root (rb st) =? sentinel then Ret ([], st)
    else
      let! p := timer_min (rb st) in
      let ev := p.1 in
      let! key := rd n_key ev (rb st) in
      if wrapS 64 (key.1 - now) <=? 0 then
        let! st := ngx_event_del_timer ev st in
        let! e := event ev st in
        let st := MkTimers (rb st) (<[ev := MkEvent (timer_set e) true]> (events st)) in
        let! st := run_ops now (handler past ev) st in
        let! rest := expire_loop handler now fuel (ev :: past) st in
        Ret (ev :: rest.1, rest.2)
      else Ret ([], st)
  end.

Definition ngx_event_expire_timers (handler : list Z -> Z -> list timer_op) (now : Z) (st : timers)
    : outcome (list Z * timers) :=
  expire_loop handler now (S (size (heap (rb st)))) [] st.

(** What a worker does to the timers: operations of the modules, the clock
    (ngx_time_update), and the expiry. *)
Inductive timer_cmd :=
| Op (op : timer_op) | Tick (ms : Z) | Expire (handler : list Z -> Z -> list timer_op).

(** [now] is the time; the code has it modulo 2^64 in ngx_current_msec. *)
Fixpoint run_cmds (now : Z) (cmds : list timer_cmd) (st : timers) : outcome (list Z * timers) :=
  match cmds with
  | [] => Ret ([], st)
  | Op op :: cmds => let! st := run_op (wrapU 64 now) op st in run_cmds now cmds st
  | Tick ms :: cmds => run_cmds (now + ms) cmds st
  | Expire handler :: cmds =>
    let! r := ngx_event_expire_timers handler (wrapU 64 now) st in
    let! rest := run_cmds now cmds r.2 in
    Ret (r.1 ++ rest.1, rest.2)
  end.

(** * The abstract timers: the due time of each armed event *)

Definition spec_add (now ev timer : Z) (tm : gmap Z Z) : gmap Z Z :=
  match tm !! ev with
  | Some due => if Z.abs (now + timer - due) <? NGX_TIMER_LAZY_DELAY then tm
                else <[ev := now + timer]> tm
  | None => <[ev := now + timer]> tm
  end.

Definition spec_op (now : Z) (op : timer_op) (tm : gmap Z Z) : gmap Z Z :=
  match op with
  | AddTimer ev timer => spec_add now ev timer tm
  | DelTimer ev => delete ev tm
  end.

Definition spec_ops (now : Z) (ops : list timer_op) (tm : gmap Z Z) : gmap Z Z :=
  fold_left (fun tm op => spec_op now op tm) ops tm.

(** [ev] is an earliest timer. *)
Definition earliest (ev : Z) (tm : gmap Z Z) : Prop :=
  exists due, tm !! ev = Some due /\ map_Forall (fun _ due' => due <= due') tm.

(** The handlers that run: always that of an earliest timer, as long as one is
    due. *)
Inductive fires (handler : list Z -> Z -> list timer_op) (now : Z)
    : list Z -> gmap Z Z -> list Z -> gmap Z Z -> Prop :=
| fires_none past tm : map_Forall (fun _ due => now < due) tm -> fires handler now past tm [] tm
| fires_one past tm ev due evs tm' :
    tm !! ev = Some due -> earliest ev tm -> due <= now ->
    fires handler now (ev :: past) (spec_ops now (handler past ev) (delete ev tm)) evs tm' ->
    fires handler now past tm (ev :: evs) tm'.

Inductive spec_run : Z -> gmap Z Z -> list timer_cmd -> list Z -> gmap Z Z -> Prop :=
| spec_nil now tm : spec_run now tm [] [] tm
| spec_cmd now tm op cmds evs tm' :
    spec_run now (spec_op now op tm) cmds evs tm' -> spec_run now tm (Op op :: cmds) evs tm'
| spec_tick now tm ms cmds evs tm' :
    spec_run (now + ms) tm cmds evs tm' -> spec_run now tm (Tick ms :: cmds) evs tm'
| spec_expire now tm handler cmds evs1 tm1 evs2 tm' :
    fires handler now [] tm evs1 tm1 -> spec_run now tm1 cmds evs2 tm' ->
    spec_run now tm (Expire handler :: cmds) (evs1 ++ evs2) tm'.

(** The times of the comparison: all timers are less than 2^62 ms away. *)
Definition in_window (now : Z) (tm : gmap Z Z) : Prop :=
  map_Forall (fun _ due => now - 2 ^ 62 < due < now + 2 ^ 62) tm.

(** The tree has the armed timers in the order of their due times, and the
    flags say which timers are armed. *)
Record TimersOk (tm : gmap Z Z) (st : timers) : Prop := MkTimersOk {
  tm_tree : exists sn t l, n_red sn = false /\ Rep sentinel sn t (rb st) /\ red_black t /\
    nodes t = map (fun p => (p.1, wrapU 64 p.2)) l /\ StronglySorted by_key l /\ l ≡ₚ map_to_list tm;
  tm_flags : map_Forall (fun ev e => timer_set e = true <-> is_Some (tm !! ev)) (events st);
  tm_armed : dom tm ⊆ dom (events st);
  tm_nodes : dom (events st) ⊆ dom (heap (rb st)) ∖ {[sentinel]} }.

(** * The order of the tree *)

Lemma wrap_due D E : - 2 ^ 63 <= D - E < 2 ^ 63 -> wrapS 64 (wrapU 64 D - wrapU 64 E) = D - E.
Proof.
  intros H. rewrite <- (wrapS_small 64 (D - E)) by lia. apply wrapS_cong. unfold wrapU.
  by rewrite <- Zminus_mod.
Qed.

Lemma wrap_now key now : wrapS 64 (wrapU 64 key - wrapU 64 now) = wrapS 64 (key - now).
Proof. apply wrapS_cong. unfold wrapU. by rewrite <- Zminus_mod. Qed.

Definition to_key (p : Z * Z) : Z * Z := (p.1, wrapU 64 p.2).

(** * The operations *)

Lemma event_found tm st ev due :
  TimersOk tm st -> tm !! ev = Some due -> exists e, events st !! ev = Some e /\ timer_set e = true.
Proof.
  intros [_ Hf Ha _] Hev. assert (Hd : ev ∈ dom (events st)) by (apply Ha, elem_of_dom; eauto).
  apply elem_of_dom in Hd as [e He]. exists e. split; [done|]. apply (Hf _ _ He). eauto.
Qed.

(** The nodes and the events stay. *)
Definition same_nodes_events (st st' : timers) : Prop :=
  dom (heap (rb st')) = dom (heap (rb st)) /\ dom (events st') = dom (events st).

Lemma del_timer_ok tm st ev due :
  TimersOk tm st -> tm !! ev = Some due ->
  exists st', ngx_event_del_timer ev st = Ret st' /\ TimersOk (delete ev tm) st' /\
    same_nodes_events st st'.
Proof.
  intros Hok Hev. destruct (event_found _ _ _ _ Hok Hev) as (e & He & _).
  destruct Hok as [(sn & t & l & Hsn & R & Hrb & Hn & Hsort & Hperm) Hf Ha Hd].
  assert (Hin : (ev, due) ∈ l) by (rewrite Hperm; by apply elem_of_map_to_list).
  apply list_elem_of_split in Hin as (l1 & l2 & ->).
  rewrite map_app in Hn. cbn in Hn.
  pose proof (rbtree_delete_ok sentinel sn t ev _ _ _ _ Hsn Hrb R Hn) as H.
  apply (wp_keeps _ _ _ (keeps_delete _ _)), wp_elim in H.
  destruct H as ([] & rb' & E & (sn' & t' & Hsn' & R' & Hrb' & Hn') & Hdom).
  unfold ngx_event_del_timer, event. rewrite E. cbn. rewrite He. cbn. eexists. split; [done|].
  split; [split; cbn|].
  - exists sn', t', (l1 ++ l2). split_and!; try done.
    + by rewrite map_app.
    + apply StronglySorted_app in Hsort as (H1 & H2 & H3). inversion H3; subst.
      apply StronglySorted_app_2; [|done|done]. intros; apply H1; [done|]. by apply elem_of_cons; right.
    + apply (Permutation_cons_inv (a := (ev, due))). rewrite map_to_list_delete by done.
      by rewrite <- Hperm, Permutation_middle.
  - intros ev' e'. destruct (decide (ev' = ev)) as [->|Hne].
    + rewrite lookup_insert_eq, lookup_delete_eq. intros [= <-]. cbn. split; [done|by intros []].
    + rewrite lookup_insert_ne, lookup_delete_ne by done. apply Hf.
  - rewrite dom_delete_L, dom_insert_L. set_solver.
  - rewrite dom_insert_lookup_L by eauto. by rewrite Hdom.
  - split; [done|]. cbn. by rewrite dom_insert_lookup_L by eauto.
Qed.

Definition near (due : Z) (tm : gmap Z Z) : Prop :=
  map_Forall (fun _ due' => - 2 ^ 63 <= due - due' < 2 ^ 63) tm.

Lemma timer_insert_ok tm st ev due :
  TimersOk tm st -> tm !! ev = None -> ev ∈ dom (events st) -> near due tm ->
  exists st', timer_insert ev (wrapU 64 due) st = Ret st' /\ TimersOk (<[ev := due]> tm) st' /\
    same_nodes_events st st'.
Proof.
  intros [(sn & t & l & Hsn & R & Hrb & Hn & Hsort & Hperm) Hf Ha Hd] Hev [e He]%elem_of_dom Hnear.
  assert (Hevd : ev ∈ dom (heap (rb st)) ∖ {[sentinel]}) by (apply Hd, elem_of_dom; eauto).
  apply elem_of_difference in Hevd as [[n Hnode]%elem_of_dom Hne%not_elem_of_singleton].
  assert (Hfresh : ev ∉ sentinel :: addrs t).
  { apply not_elem_of_cons. split; [done|]. rewrite addrs_nodes, Hn. rewrite list_elem_of_fmap.
    intros ([x k] & Ex & Hx). cbn in Ex. subst x. apply list_elem_of_fmap in Hx as ([x D] & [= -> _] & Hx).
    rewrite Hperm in Hx. apply elem_of_map_to_list in Hx. congruence. }
  assert (Hgl : Forall (fun q => timer_left (ev, wrapU 64 due) (to_key q) = (due <? q.2)) l).
  { apply Forall_forall. intros [x D] Hx. rewrite Hperm in Hx. apply elem_of_map_to_list in Hx.
    unfold timer_left. cbn. rewrite wrap_due by (apply (Hnear x D Hx)). lia. }
  assert (Hwp : wp (wr (set_n_key (wrapU 64 due)) ev;;
                    ngx_rbtree_insert ngx_rbtree_insert_timer_value sentinel ev)
                (fun _ st' => exists t', Rep sentinel sn t' st' /\ red_black t' /\
                   nodes t' = map to_key (place (fun q => due <? q.2) (ev, due) l)) (rb st)).
  { apply wp_bind. eapply wp_wr; [exact Hnode|]. eapply wp_mono.
    - eapply (rbtree_insert_ok (gl := timer_left)); [exact Hsn|exact Hrb|apply Rep_insert; [exact Hfresh|]| |].
      + destruct (rb st). exact R.
      + split; [exact Hfresh|]. eexists. cbn [heap]. rewrite lookup_insert_eq. split; [done|reflexivity].
      + rewrite Hn. by eapply sorted_parted.
    - cbv beta. intros _ st' (t' & R' & Hrb' & Hn'). exists t'. split_and!; try done.
      rewrite Hn', Hn. change (ev, n_key (set_n_key (wrapU 64 due) n)) with (to_key (ev, due)).
      by apply place_map. }
  apply wp_keeps, wp_elim in Hwp.
  2: { apply keeps_bind; [apply keeps_wr|intros _]. apply keeps_insert. intros t0.
       unfold ngx_rbtree_insert_timer_value. keeps. apply keeps_descend. }
  destruct Hwp as ([] & rb' & E & (t' & R' & Hrb' & Hn') & Hdom).
  unfold timer_insert, event. rewrite E. cbn. rewrite He. cbn. eexists. split; [done|].
  split; [split; cbn|].
  - eexists sn, t', _. split_and!; [done|done|done|exact Hn'|by apply (place_sorted (ev, due))|].
    by rewrite place_perm, map_to_list_insert, Hperm.
  - intros ev' e'. destruct (decide (ev' = ev)) as [->|Hne'].
    + rewrite !lookup_insert_eq. intros [= <-]. cbn. split; [by eexists|done].
    + rewrite !lookup_insert_ne by done. apply Hf.
  - rewrite !dom_insert_L. set_solver.
  - rewrite dom_insert_lookup_L by eauto. by rewrite Hdom.
  - split; [done|]. cbn. by rewrite dom_insert_lookup_L by eauto.
Qed.

Lemma node_key sn t st x k :
  Rep sentinel sn t st -> (x, k) ∈ nodes t -> exists n, heap st !! x = Some n /\ n_key n = k.
Proof.
  intros R (l1 & l2 & H)%list_elem_of_split.
  destruct (find_path t l1 x k l2 H) as (c & red & l & r & -> & _).
  destruct (Rep_open _ _ _ _ _ R) as (p0 & _ & [Hx _] & _). eauto.
Qed.

Lemma timer_key tm st ev due :
  TimersOk tm st -> tm !! ev = Some due -> rd n_key ev (rb st) = Ret (wrapU 64 due, rb st).
Proof.
  intros [(sn & t & l & _ & R & _ & Hn & _ & Hperm) _ _ _] Hev.
  destruct (node_key sn t (rb st) ev (wrapU 64 due) R) as (n & Hx & Hk).
  - rewrite Hn. apply list_elem_of_fmap. exists (ev, due). split; [done|]. rewrite Hperm.
    by apply elem_of_map_to_list.
  - unfold rd. by rewrite Hx, Hk.
Qed.

Lemma window_near now tm due : in_window now tm -> now - 2 ^ 62 < due < now + 2 ^ 62 -> near due tm.
Proof. intros Hw Hd ev due' H%Hw. cbn in H. lia. Qed.

Lemma add_timer_ok now tm st ev timer :
  TimersOk tm st -> in_window now tm -> ev ∈ dom (events st) -> 0 <= timer < 2 ^ 62 ->
  exists st', ngx_event_add_timer (wrapU 64 now) ev timer st = Ret st' /\
    TimersOk (spec_add now ev timer tm) st' /\ in_window now (spec_add now ev timer tm) /\
    same_nodes_events st st'.
Proof.
  intros Hok Hw Hdom Ht. pose proof Hdom as [e He]%elem_of_dom.
  assert (Hkey : wrapU 64 (wrapU 64 now + timer) = wrapU 64 (now + timer)).
  { unfold wrapU. by rewrite Zplus_mod_idemp_l. }
  assert (Hnear : forall tm', in_window now tm' -> near (now + timer) tm' /\
                    in_window now (<[ev := now + timer]> tm')).
  { intros tm' Hw'. split; [apply (window_near now); [done|lia]|]. apply map_Forall_insert_2; [lia|done]. }
  unfold ngx_event_add_timer, event. rewrite He, Hkey. cbn [outcome_bind].
  pose proof (tm_flags _ _ Hok _ _ He) as Hset. unfold spec_add.
  destruct (tm !! ev) as [due|] eqn:Hev.
  - assert (timer_set e = true) as -> by (apply Hset; eauto).
    rewrite (timer_key _ _ _ _ Hok Hev). cbn [outcome_bind fst].
    pose proof (Hw _ _ Hev) as Hd. cbn in Hd. rewrite wrap_due by lia. case_match eqn:E; boolify.
    + eexists. split; [done|]. split_and!; done.
    + destruct (del_timer_ok _ _ _ _ Hok Hev) as (st1 & -> & Hok1 & Hd1 & He1). cbn [outcome_bind].
      assert (Hw1 : in_window now (delete ev tm)) by (by apply map_Forall_delete).
      destruct (timer_insert_ok _ st1 ev (now + timer) Hok1) as (st2 & -> & Hok2 & Hd2 & He2);
        [by rewrite lookup_delete_eq|by rewrite He1|by apply Hnear|].
      rewrite insert_delete_eq in Hok2. eexists. split; [done|].
      split_and!; [done|by apply Hnear|split; congruence].
  - destruct (timer_set e) eqn:Es; [destruct (proj1 Hset Es); congruence|].
    destruct (timer_insert_ok _ st ev (now + timer) Hok) as (st2 & -> & Hok2 & Hd2 & He2);
      [done|done|by apply Hnear|].
    eexists. split; [done|]. split_and!; [done|by apply Hnear|done].
Qed.

(** An operation on the timers that the events know, with a delay that the
    comparison can tell from a time in the past. *)
Definition op_ok (st : timers) (least : Z) (op : timer_op) : Prop :=
  match op with
  | AddTimer ev timer => ev ∈ dom (events st) /\ least <= timer < 2 ^ 61
  | DelTimer ev => ev ∈ dom (events st)
  end.

Lemma run_op_ok now tm st least op :
  0 <= least -> TimersOk tm st -> in_window now tm -> op_ok st least op ->
  exists st', run_op (wrapU 64 now) op st = Ret st' /\ TimersOk (spec_op now op tm) st' /\
    in_window now (spec_op now op tm) /\ same_nodes_events st st'.
Proof.
  intros Hl Hok Hw Hop. destruct op as [ev timer|ev]; cbn in Hop |- *.
  - apply add_timer_ok; [done|done|tauto|lia].
  - pose proof Hop as [e He]%elem_of_dom. pose proof (tm_flags _ _ Hok _ _ He) as Hset.
    unfold event. rewrite He. cbn [outcome_bind].
    assert (Hw' : in_window now (delete ev tm)) by (by apply map_Forall_delete).
    destruct (tm !! ev) as [due|] eqn:Hev.
    + assert (timer_set e = true) as -> by (apply Hset; eauto).
      destruct (del_timer_ok _ _ _ _ Hok Hev) as (st1 & -> & Hok1 & Hsame). eauto 6.
    + destruct (timer_set e) eqn:Es; [destruct (proj1 Hset Es); congruence|].
      rewrite delete_id by done. exists st. split_and!; done.
Qed.

Lemma run_ops_ok now least ops : forall tm st,
  0 <= least -> TimersOk tm st -> in_window now tm -> Forall (op_ok st least) ops ->
  exists st', run_ops (wrapU 64 now) ops st = Ret st' /\ TimersOk (spec_ops now ops tm) st' /\
    in_window now (spec_ops now ops tm) /\ same_nodes_events st st'.
Proof.
  induction ops as [|op ops IH]; intros tm st Hl Hok Hw Hops; cbn.
  - exists st. split_and!; done.
  - apply Forall_cons in Hops as [Hop Hops].
    destruct (run_op_ok _ _ _ _ _ Hl Hok Hw Hop) as (st1 & -> & Hok1 & Hw1 & Hd1 & He1).
    destruct (IH _ st1 Hl Hok1 Hw1) as (st2 & E2 & Hok2 & Hw2 & Hd2 & He2).
    { eapply Forall_impl; [exact Hops|]. intros []; cbn; by rewrite He1. }
    cbn. exists st2. split_and!; [done|done|done|split; congruence].
Qed.

(** * The earliest timer *)

Lemma timer_min_ok sn t st x k rest :
  Rep sentinel sn t st -> nodes t = (x, k) :: rest -> timer_min st = Ret (x, st).
Proof.
  intros R Hn. destruct t as [|red l y ky r]; [done|].
  assert (H : wp timer_min (fun z st' => z = x /\ st' = st) st).
  { unfold timer_min. apply wp_bind, wp_get_root, wp_bind, wp_path_fuel.
    rewrite (rep_root _ _ _ _ R). cbn [root_of]. eapply wp_mono.
    - eapply (min_ok sentinel sn [] (Node red l y ky r) _ [] red l y ky r);
        [exact R|done|by constructor|].
      pose proof (Rep_path_fuel _ _ [] _ _ R). cbn in *. lia.
    - cbv beta. intros z st' (-> & rc & red' & k' & r' & E & Hrc). split; [|done].
      rewrite E, nodes_plug, before_in_left in Hn by done. cbn in Hn. congruence. }
  apply wp_elim in H as (a & st' & -> & -> & ->). done.
Qed.

(** The empty tree, or the earliest timer. *)
Lemma first_timer tm st : TimersOk tm st ->
  (root (rb st) = sentinel /\ tm = ∅) \/
  exists ev due, root (rb st) <> sentinel /\ timer_min (rb st) = Ret (ev, rb st) /\
    tm !! ev = Some due /\ earliest ev tm.
Proof.
  intros [(sn & t & l & _ & R & _ & Hn & Hs & Hp) _ _ _].
  destruct l as [|[ev due] l].
  - left. split; [|apply map_to_list_empty_iff; symmetry in Hp; by apply Permutation_nil_r in Hp].
    rewrite (rep_root _ _ _ _ R). destruct t as [|red a x k b]; [done|]. cbn in Hn.
    by apply app_eq_nil in Hn as [_ ?].
  - right. exists ev, due.
    assert (Hev : tm !! ev = Some due).
    { apply elem_of_map_to_list. rewrite <- Hp. by apply elem_of_cons; left. }
    split_and!; [|eapply timer_min_ok; [exact R|exact Hn]|done|].
    + rewrite (rep_root _ _ _ _ R). destruct t as [|red a x k b]; [done|].
      pose proof (rep_nodup _ _ _ _ R) as ND. apply NoDup_cons in ND as [ND _].
      cbn in ND |- *. apply not_elem_of_cons in ND as [ND _]. congruence.
    + exists due. split; [done|]. intros ev' due' H%elem_of_map_to_list. rewrite <- Hp in H.
      apply elem_of_cons in H as [[= _ ->]|H]; [lia|]. inversion Hs as [|? ? _ Hf]; subst.
      rewrite Forall_forall in Hf. apply (Hf _ H).
Qed.

Lemma find_timer_ok now tm st :
  TimersOk tm st -> in_window now tm ->
  ngx_event_find_timer (wrapU 64 now) st = Ret NGX_TIMER_INFINITE /\ tm = ∅ \/
  exists ev due, tm !! ev = Some due /\ earliest ev tm /\
    ngx_event_find_timer (wrapU 64 now) st = Ret (Z.max 0 (due - now)).
Proof.
  intros Hok Hw. unfold ngx_event_find_timer.
  destruct (first_timer _ _ Hok) as [[Hr Htm]|(ev & due & Hr & Hmin & Hev & He)].
  - left. by rewrite Hr, Z.eqb_refl.
  - right. exists ev, due. split; [done|]. split; [done|].
    rewrite (proj2 (Z.eqb_neq _ _)) by done. unfold bind. rewrite Hmin. cbn [outcome_bind fst snd].
    rewrite (timer_key _ _ _ _ Hok Hev). cbn [outcome_bind fst snd].
    pose proof (Hw _ _ Hev) as Hd. cbn in Hd. rewrite wrap_due by lia.
    case_match eqn:E; f_equal; lia.
Qed.

(** * Expiring *)

Definition due_timers (now : Z) (tm : gmap Z Z) : gmap Z Z := filter (fun p => p.2 <= now) tm.

(** A handler that only sets timers in the future makes no timer due. *)
Lemma spec_ops_due now ops tm st :
  Forall (op_ok st 1) ops -> due_timers now (spec_ops now ops tm) ⊆ due_timers now tm.
Proof.
  revert tm. induction ops as [|op ops IH]; intros tm Hops; [done|].
  apply Forall_cons in Hops as [Hop Hops]. cbn. etrans; [by apply IH|]. unfold due_timers.
  assert (Hins : forall ev timer, 1 <= timer ->
            filter (fun p : Z * Z => p.2 <= now) (<[ev := now + timer]> tm) ⊆ filter (fun p => p.2 <= now) tm).
  { intros ev timer Ht. rewrite map_filter_insert_False by (cbn; lia).
    rewrite map_filter_delete. apply delete_subseteq. }
  destruct op as [ev timer|ev]; cbn in Hop |- *.
  - unfold spec_add. destruct (tm !! ev); [case_match|]; try done; apply Hins; lia.
  - rewrite map_filter_delete. apply delete_subseteq.
Qed.

Lemma timedout_ok tm st ev e :
  TimersOk tm st -> events st !! ev = Some e ->
  TimersOk tm (MkTimers (rb st) (<[ev := MkEvent (timer_set e) true]> (events st))).
Proof.
  intros [Ht Hf Ha Hn] Hev. split; cbn; [done| | |].
  - intros ev' e'. destruct (decide (ev' = ev)) as [->|Hne].
    + rewrite lookup_insert_eq. intros [= <-]. cbn. apply (Hf _ _ Hev).
    + rewrite lookup_insert_ne by done. apply Hf.
  - by rewrite dom_insert_lookup_L by eauto.
  - by rewrite dom_insert_lookup_L by eauto.
Qed.

Lemma expire_loop_ok handler now fuel : forall past tm st,
  TimersOk tm st -> in_window now tm -> (forall past ev, Forall (op_ok st 1) (handler past ev)) ->
  (size (due_timers now tm) < fuel)%nat ->
  exists evs st' tm', expire_loop handler (wrapU 64 now) fuel past st = Ret (evs, st') /\
    fires handler now past tm evs tm' /\ TimersOk tm' st' /\ in_window now tm' /\ same_nodes_events st st'.
Proof.
  induction fuel as [|fuel IH]; intros past tm st Hok Hw Hh Hfuel; [lia|]. cbn [expire_loop].
  destruct (first_timer _ _ Hok) as [[Hr ->]|(ev & due & Hr & Hmin & Hev & He)].
  { rewrite Hr, Z.eqb_refl. exists [], st, ∅. split_and!; try done. by constructor. }
  rewrite (proj2 (Z.eqb_neq _ _)) by done. rewrite Hmin. cbn [outcome_bind fst].
  rewrite (timer_key _ _ _ _ Hok Hev). cbn [outcome_bind fst].
  pose proof (Hw _ _ Hev) as Hd. cbn in Hd. rewrite wrap_due by lia. case_match eqn:E; boolify.
  - destruct (del_timer_ok _ _ _ _ Hok Hev) as (st1 & -> & Hok1 & Hd1 & He1). cbn [outcome_bind].
    assert (Hev1 : ev ∈ dom (events st1)).
    { rewrite He1. apply (tm_armed _ _ Hok), elem_of_dom. eauto. }
    apply elem_of_dom in Hev1 as [e Hev1]. unfold event. rewrite Hev1. cbn [outcome_bind].
    set (st2 := MkTimers _ _).
    assert (Hok2 : TimersOk (delete ev tm) st2) by (by apply timedout_ok).
    assert (Hse : dom (events st2) = dom (events st)).
    { cbn. by rewrite dom_insert_lookup_L by eauto. }
    assert (Hh2 : forall past ev', Forall (op_ok st2 1) (handler past ev')).
    { intros past' ev'. eapply Forall_impl; [apply Hh|]. intros []; unfold op_ok; by rewrite Hse. }
    assert (Hw2 : in_window now (delete ev tm)) by (by apply map_Forall_delete).
    destruct (run_ops_ok now 1 (handler past ev) (delete ev tm) st2) as (st3 & -> & Hok3 & Hw3 & Hd3 & He3);
      [lia|done|done|apply Hh2|]. cbn [outcome_bind].
    destruct (IH (ev :: past) _ st3 Hok3 Hw3) as (evs & st4 & tm' & -> & Hf & Hok4 & Hw4 & Hd4 & He4).
    + intros past' ev'. eapply Forall_impl; [apply Hh2|]. intros []; unfold op_ok; by rewrite He3.
    + pose proof (spec_ops_due now (handler past ev) (delete ev tm) st2 (Hh2 past ev)) as Hsub.
      apply map_subseteq_size in Hsub. unfold due_timers in *. rewrite map_filter_delete in Hsub.
      assert (Hl : filter (fun p : Z * Z => p.2 <= now) tm !! ev = Some due)
        by (apply map_lookup_filter_Some; cbn; split; [done|lia]).
      rewrite map_size_delete_Some in Hsub by eauto.
      assert (0 < size (filter (fun p : Z * Z => (p.2 <= now)%Z) tm))%nat; [|lia].
      apply Nat.neq_0_lt_0. rewrite map_size_empty_iff. intros Hemp.
      by rewrite Hemp, lookup_empty in Hl.
    + cbn [outcome_bind fst snd]. exists (ev :: evs), st4, tm'. split_and!; try done.
      * eapply fires_one; [exact Hev|exact He|lia|exact Hf].
      * split; [rewrite Hd4, Hd3; exact Hd1|congruence].
  - exists [], st, tm. split_and!; try done. constructor. intros ev' due' Hev'.
    destruct He as (due0 & Hdue0 & He). rewrite Hev in Hdue0. injection Hdue0 as <-.
    specialize (He _ _ Hev'). cbn in He. lia.
Qed.

Lemma timers_size tm st : TimersOk tm st -> (size tm < size (heap (rb st)))%nat.
Proof.
  intros [(sn & t & l & _ & R & _ & Hn & _ & Hp) _ _ _]. apply Rep_size in R.
  rewrite addrs_nodes, Hn, !length_fmap, Hp in R. by rewrite length_map_to_list in R.
Qed.

Lemma fires_none_due handler now past tm evs tm' :
  fires handler now past tm evs tm' -> map_Forall (fun _ due => now < due) tm'.
Proof. by induction 1. Qed.

Lemma expire_ok handler now tm st :
  TimersOk tm st -> in_window now tm -> (forall past ev, Forall (op_ok st 1) (handler past ev)) ->
  exists evs st' tm', ngx_event_expire_timers handler (wrapU 64 now) st = Ret (evs, st') /\
    fires handler now [] tm evs tm' /\ TimersOk tm' st' /\ in_window now tm' /\ same_nodes_events st st'.
Proof.
  intros Hok Hw Hh. apply expire_loop_ok; [done..|].
  pose proof (timers_size _ _ Hok). pose proof (map_subseteq_size _ _ (map_filter_subseteq (fun p => p.2 <= now) tm)).
  unfold due_timers. lia.
Qed.

(** * Sequences of operations *)

Definition cmd_ok (st : timers) (c : timer_cmd) : Prop :=
  match c with
  | Op op => op_ok st 0 op
  | Tick ms => 0 <= ms
  | Expire handler => forall past ev, Forall (op_ok st 1) (handler past ev)
  end.

Definition elapsed (cmds : list timer_cmd) : Z :=
  fold_right (fun c t => match c with Tick ms => ms + t | _ => t end) 0 cmds.

(** The timers set since the time [first]. *)
Definition in_range (first now : Z) (tm : gmap Z Z) : Prop :=
  map_Forall (fun _ due => first <= due < now + 2 ^ 61) tm.

Lemma range_window first now tm : now - first < 2 ^ 61 -> in_range first now tm -> in_window now tm.
Proof. intros Ht H ev due Hev%H. cbn in Hev. lia. Qed.

Lemma spec_op_range first now st least op tm :
  first <= now -> 0 <= least -> op_ok st least op -> in_range first now tm ->
  in_range first now (spec_op now op tm).
Proof.
  intros Hn Hl Hop H. destruct op as [ev timer|ev]; cbn in *; [|by apply map_Forall_delete].
  assert (Hi : in_range first now (<[ev := now + timer]> tm)) by (apply map_Forall_insert_2; [lia|done]).
  unfold spec_add. repeat case_match; done.
Qed.

Lemma spec_ops_range first now st least ops : forall tm,
  first <= now -> 0 <= least -> Forall (op_ok st least) ops -> in_range first now tm ->
  in_range first now (spec_ops now ops tm).
Proof.
  induction ops as [|op ops IH]; intros tm Hn Hl Hops H; [done|].
  apply Forall_cons in Hops as [Hop Hops]. cbn. apply IH; try done. by eapply spec_op_range.
Qed.

Lemma fires_range first now st handler past tm evs tm' :
  fires handler now past tm evs tm' -> first <= now ->
  (forall past ev, Forall (op_ok st 1) (handler past ev)) ->
  in_range first now tm -> in_range first now tm'.
Proof.
  induction 1 as [|past tm ev due evs tm' Hev He Hd Hf IH]; intros Hn Hh Hr; [done|].
  apply IH; try done. eapply (spec_ops_range first now st 1); [done|lia|apply Hh|].
  by apply map_Forall_delete.
Qed.

Lemma elapsed_nonneg st cmds : Forall (cmd_ok st) cmds -> 0 <= elapsed cmds.
Proof. unfold elapsed. induction 1 as [|[] cmds Hc _ IH]; cbn [cmd_ok fold_right] in *; lia. Qed.

Lemma cmd_ok_same st st' c : dom (events st') = dom (events st) -> cmd_ok st c -> cmd_ok st' c.
Proof.
  intros E. destruct c as [op| |handler]; cbn; [|done|].
  - destruct op; cbn; by rewrite E.
  - intros H past ev. eapply Forall_impl; [apply H|]. intros []; cbn; by rewrite E.
Qed.

Lemma run_cmds_ok first cmds : forall now tm st,
  TimersOk tm st -> in_range first now tm -> first <= now -> now + elapsed cmds - first < 2 ^ 61 ->
  Forall (cmd_ok st) cmds ->
  exists evs st' tm', run_cmds now cmds st = Ret (evs, st') /\ spec_run now tm cmds evs tm' /\
    TimersOk tm' st'.
Proof.
  induction cmds as [|c cmds IH]; intros now tm st Hok Hr Hn Ht Hc.
  { exists [], st, tm. split_and!; [done|constructor|done]. }
  apply Forall_cons in Hc as [Hc Hcs]. pose proof (elapsed_nonneg _ _ Hcs) as Hel.
  destruct c as [op|ms|handler]; cbn [run_cmds elapsed fold_right cmd_ok] in *; fold (elapsed cmds) in Ht.
  - destruct (run_op_ok now tm st 0 op) as (st1 & -> & Hok1 & _ & _ & He1);
      [done|done|apply (range_window first); [lia|done]|done|]. cbn [outcome_bind].
    destruct (IH now (spec_op now op tm) st1) as (evs & st2 & tm' & -> & Hs & Hok2);
      [done|by apply (spec_op_range first now st 0)|done|lia|eapply Forall_impl; [exact Hcs|]; eauto using cmd_ok_same|].
    exists evs, st2, tm'. split_and!; [done|by constructor|done].
  - destruct (IH (now + ms) tm st) as (evs & st2 & tm' & -> & Hs & Hok2); [done| |lia|lia|done|].
    + eapply map_Forall_impl; [exact Hr|]. cbn. intros; lia.
    + exists evs, st2, tm'. split_and!; [done|by constructor|done].
  - destruct (expire_ok handler now tm st) as (evs & st1 & tm1 & -> & Hf & Hok1 & _ & _ & He1);
      [done|apply (range_window first); [lia|done]|done|]. cbn [outcome_bind fst snd].
    destruct (IH now tm1 st1) as (evs2 & st2 & tm' & -> & Hs & Hok2);
      [done|by eapply fires_range|done|lia|eapply Forall_impl; [exact Hcs|]; eauto using cmd_ok_same|].
    exists (evs ++ evs2), st2, tm'. split_and!; [done|by econstructor|done].
Qed.

(** Before the initialisation: the sentinel is there, and the events have
    their nodes and no timer. *)
Definition no_timers (st : timers) : Prop :=
  sentinel ∈ dom (heap (rb st)) /\ map_Forall (fun _ e => timer_set e = false) (events st) /\
  dom (events st) ⊆ dom (heap (rb st)) ∖ {[sentinel]}.

Lemma timer_init_ok st : no_timers st ->
  exists st', ngx_event_timer_init st = Ret st' /\ TimersOk ∅ st' /\ events st' = events st.
Proof.
  intros ([sn Hs]%elem_of_dom & Hf & Hd). unfold ngx_event_timer_init, ngx_rbtree_init, bind, ngx_rbt_black, wr.
  rewrite Hs. cbn. eexists. split; [done|]. split; [|done]. split; cbn.
  - exists (set_n_red false sn), Leaf, []. split_and!; try done; [|by exists 0%nat; constructor|constructor].
    split; cbn; [by exists 0|done|constructor; [set_solver|constructor]|by rewrite lookup_insert_eq].
  - intros ev e He. rewrite lookup_empty, (Hf _ _ He). split; [done|by intros []].
  - set_solver.
  - rewrite dom_insert_lookup_L by eauto. done.
Qed.

(** C19: the timers of a worker.  From the initialisation on, for any sequence
    of operations on the timers of its events, steps of the clock and expiries,
    the code makes no undefined access and ends; the handlers it calls are
    those of the abstract timers, a map from the armed events to their due
    times: each expiry calls the handler of an earliest timer as long as one is
    due.  The tree stays a red-black tree with the armed timers in the order of
    their due times, also where the 64-bit time wraps around. *)
Theorem timers_run st now cmds :
  no_timers st -> Forall (cmd_ok st) cmds -> elapsed cmds < 2 ^ 61 ->
  exists st0 evs st' tm,
    ngx_event_timer_init st = Ret st0 /\ run_cmds now cmds st0 = Ret (evs, st') /\
    spec_run now ∅ cmds evs tm /\ TimersOk tm st'.
Proof.
  intros Hn Hc Hel. destruct (timer_init_ok st Hn) as (st0 & E & Hok & He).
  destruct (run_cmds_ok now cmds now ∅ st0) as (evs & st' & tm & Hrun & Hs & Hok');
    [done|apply map_Forall_empty|lia|lia| |by exists st0, evs, st', tm].
  eapply Forall_impl; [exact Hc|]. intros c. apply cmd_ok_same. by rewrite He.
Qed.

(** C30: an expiry calls the handlers of the due timers and of no others, the
    earliest first, for any handlers that set timers with a delay of at least a
    millisecond; the handlers of one expiry may set and remove the timers of
    any events.  The expiry ends, and leaves no timer that is due. *)
Theorem expire_fires_due handler now tm st :
  TimersOk tm st -> in_window now tm -> (forall past ev, Forall (op_ok st 1) (handler past ev)) ->
  exists evs st' tm', ngx_event_expire_timers handler (wrapU 64 now) st = Ret (evs, st') /\
    fires handler now [] tm evs tm' /\ TimersOk tm' st' /\ map_Forall (fun _ due => now < due) tm'.
Proof.
  intros Hok Hw Hh. destruct (expire_ok handler now tm st Hok Hw Hh) as (evs & st' & tm' & E & Hf & Hok' & _).
  exists evs, st', tm'. split_and!; try done. by eapply fires_none_due.
Qed.

(** the event loop sleeps until the earliest timer is due: with no timer
    forever, and not at all if one is due. *)
Theorem find_timer_earliest now tm st :
  TimersOk tm st -> in_window now tm ->
  (tm = ∅ /\ ngx_event_find_timer (wrapU 64 now) st = Ret NGX_TIMER_INFINITE) \/
  exists ev due, tm !! ev = Some due /\ earliest ev tm /\
    ngx_event_find_timer (wrapU 64 now) st = Ret (Z.max 0 (due - now)).
Proof. intros Hok Hw. destruct (find_timer_ok _ _ _ Hok Hw) as [[? ?]|?]; auto. Qed.

(** a handler that sets its own timer with no delay is called forever:
    the expiry of such a timer never ends. *)
Theorem zero_delay_never_ends handler now ev due st fuel past :
  TimersOk {[ev := due]} st -> now - 2 ^ 62 < due <= now ->
  (forall past, handler past ev = [AddTimer ev 0]) ->
  expire_loop handler (wrapU 64 now) fuel past st = NoFuel.
Proof.
  intros Hok Hd Hh. revert past due st Hok Hd.
  induction fuel as [|fuel IH]; intros past due st Hok Hd; [done|]. cbn [expire_loop].
  destruct (first_timer _ _ Hok) as [[_ He]|(ev' & due' & Hr & Hmin & Hev & _)].
  { by apply map_non_empty_singleton in He. }
  apply lookup_singleton_Some in Hev as Hev'. destruct Hev' as [<- <-].
  rewrite (proj2 (Z.eqb_neq _ _)) by done. rewrite Hmin. cbn [outcome_bind fst].
  rewrite (timer_key _ _ _ _ Hok Hev). cbn [outcome_bind fst]. rewrite wrap_due by lia.
  rewrite (proj2 (Z.leb_le _ _)) by lia.
  assert (Hd0 : ev ∈ dom (events st)) by (apply (tm_armed _ _ Hok), elem_of_dom; eauto).
  destruct (del_timer_ok _ _ _ _ Hok Hev) as (st1 & -> & Hok1 & _ & He1). cbn [outcome_bind].
  rewrite delete_singleton_eq in Hok1. rewrite <- He1 in Hd0. apply elem_of_dom in Hd0 as [e Hev1].
  unfold event. rewrite Hev1. cbn [outcome_bind]. rewrite Hh. cbn [run_ops run_op].
  set (st2 := MkTimers _ _). assert (Hok2 : TimersOk ∅ st2) by (by apply timedout_ok).
  destruct (add_timer_ok now ∅ st2 ev 0) as (st3 & -> & Hok3 & _); [done|apply map_Forall_empty| |lia|].
  { apply elem_of_dom. exists (MkEvent (timer_set e) true). apply lookup_insert_eq. }
  cbn [outcome_bind]. unfold spec_add in Hok3. rewrite lookup_empty in Hok3.
  rewrite (IH _ (now + 0) st3); [done|exact Hok3|lia].
Qed.

End Timers.

(** * A concrete worker *)

(** Three events with their timer nodes; the time is about to wrap around. *)
Definition timers0 : timers :=
  MkTimers (MkRb (list_to_map (map (fun x => (x, MkNode 0 0 0 0 true)) [1; 10; 20; 30])) 0)
           (list_to_map (map (fun x => (x, MkEvent false false)) [10; 20; 30])).

Definition now0 : Z := 2 ^ 64 - 3.

(** The handler of 20 sets the timer of 30 and the others do nothing. *)
Definition handler0 (past : list Z) (ev : Z) : list timer_op :=
  if ev =? 20 then [AddTimer 30 400] else [].

Definition cmds0 : list timer_cmd :=
  [Op (AddTimer 10 7); Op (AddTimer 20 1); Tick 8; Expire handler0; Tick 400; Expire handler0].

Definition fired (r : outcome (list Z * timers)) : option (list Z) :=
  match r with Ret (evs, _) => Some evs | _ => None end.

Example timers0_fired : fired (let! st := ngx_event_timer_init 1 timers0 in run_cmds 1 now0 cmds0 st)
  = Some [20; 10; 30].
Proof. vm_compute. reflexivity. Qed.

Ltac by_decision := apply (bool_decide_unpack _); vm_compute; exact I.

Lemma handler0_ok st past ev : 30 ∈ dom (events st) -> Forall (op_ok st 1) (handler0 past ev).
Proof.
  intros H. unfold handler0. destruct (ev =? 20); [|constructor].
  constructor; [|constructor]. split; [done|lia].
Qed.

Lemma timers0_ok : no_timers 1 timers0.
Proof. split_and!; by_decision. Qed.

Lemma timers_run_witness : exists st0 evs st' tm,
  ngx_event_timer_init 1 timers0 = Ret st0 /\ run_cmds 1 now0 cmds0 st0 = Ret (evs, st') /\
  spec_run now0 ∅ cmds0 evs tm /\ TimersOk 1 tm st'.
Proof.
  apply (timers_run 1 timers0 now0 cmds0); [apply timers0_ok| |reflexivity].
  unfold cmds0. repeat (apply Forall_cons; split); [..|by apply Forall_nil]; cbn [cmd_ok op_ok];
    try lia; try (split; [by_decision|lia]); intros; apply handler0_ok; by_decision.
Defined.

(** The timer of the event 10 is set, and due. *)
Definition timers1 : timers :=
  MkTimers (MkRb (list_to_map [(1, MkNode 0 0 0 0 false); (10, MkNode 5 1 1 0 false);
                               (30, MkNode 0 0 0 0 false)]) 10)
           (list_to_map [(10, MkEvent true false); (30, MkEvent false false)]).

Lemma timers1_ok : TimersOk 1 {[10 := 2 ^ 64 + 5]} timers1.
Proof.
  split; try by_decision.
  exists (MkNode 0 0 0 0 false), (Node false Leaf 10 5 Leaf), [(10, 2 ^ 64 + 5)].
  split_and!; try reflexivity.
  - split; [exists 0; vm_compute; done|done|by_decision|done].
  - exists 1%nat. repeat econstructor.
  - repeat constructor.
Qed.

Lemma timers1_window : in_window (2 ^ 64 + 9) {[10 := 2 ^ 64 + 5]}.
Proof. by_decision. Qed.

Lemma expire_fires_due_witness : exists evs st' tm',
  ngx_event_expire_timers 1 handler0 (wrapU 64 (2 ^ 64 + 9)) timers1 = Ret (evs, st') /\
  fires handler0 (2 ^ 64 + 9) [] {[10 := 2 ^ 64 + 5]} evs tm' /\ TimersOk 1 tm' st' /\
  map_Forall (fun _ due => 2 ^ 64 + 9 < due) tm'.
Proof.
  apply (expire_fires_due 1 handler0 (2 ^ 64 + 9) {[10 := 2 ^ 64 + 5]} timers1).
  - apply timers1_ok.
  - apply timers1_window.
  - intros. apply handler0_ok. by_decision.
Defined.

Lemma find_timer_earliest_witness :
  ({[10 := 2 ^ 64 + 5]} = (∅ : gmap Z Z) /\
   ngx_event_find_timer 1 (wrapU 64 (2 ^ 64 + 9)) timers1 = Ret NGX_TIMER_INFINITE) \/
  exists ev due, ({[10 := 2 ^ 64 + 5]} : gmap Z Z) !! ev = Some due /\ earliest ev {[10 := 2 ^ 64 + 5]} /\
    ngx_event_find_timer 1 (wrapU 64 (2 ^ 64 + 9)) timers1 = Ret (Z.max 0 (due - (2 ^ 64 + 9))).
Proof. apply (find_timer_earliest 1 (2 ^ 64 + 9)); [apply timers1_ok|apply timers1_window]. Defined.

Lemma zero_delay_never_ends_witness :
  expire_loop 1 (fun _ ev => [AddTimer ev 0]) (wrapU 64 (2 ^ 64 + 9)) 1000 [] timers1 = NoFuel.
Proof.
  eapply (zero_delay_never_ends 1 _ (2 ^ 64 + 9) 10); [apply timers1_ok|lia|done].
Defined.

End EventTimer.
