(* ===== verification/NgxCrc32.v ===== *)
(** The checksums of src/core/ngx_crc32.h and ngx_crc32.c.

    The two table-driven loops of CRC-32, one with a table of 16 entries and
    two lookups per byte, one with 256 entries and one lookup, compute the
    remainder that the bit-by-bit division [crc_bits] defines. *)

From S2P Require Import Prelude.

Module Crc32.

(** * The code *)

Definition ngx_crc32_table16 : list Z :=
  [0x00000000; 0x1db71064; 0x3b6e20c8; 0x26d930ac; 0x76dc4190; 0x6b6b51f4;
   0x4db26158; 0x5005713c; 0xedb88320; 0xf00f9344; 0xd6d6a3e8; 0xcb61b38c;
   0x9b64c2b0; 0x86d3d2d4; 0xa00ae278; 0xbdbdf21c].

Definition ngx_crc32_table256 : list Z :=
  [0x00000000; 0x77073096; 0xee0e612c; 0x990951ba; 0x076dc419; 0x706af48f;
   0xe963a535; 0x9e6495a3; 0x0edb8832; 0x79dcb8a4; 0xe0d5e91e; 0x97d2d988;
   0x09b64c2b; 0x7eb17cbd; 0xe7b82d07; 0x90bf1d91; 0x1db71064; 0x6ab020f2;
   0xf3b97148; 0x84be41de; 0x1adad47d; 0x6ddde4eb; 0xf4d4b551; 0x83d385c7;
   0x136c9856; 0x646ba8c0; 0xfd62f97a; 0x8a65c9ec; 0x14015c4f; 0x63066cd9;
   0xfa0f3d63; 0x8d080df5; 0x3b6e20c8; 0x4c69105e; 0xd56041e4; 0xa2677172;
   0x3c03e4d1; 0x4b04d447; 0xd20d85fd; 0xa50ab56b; 0x35b5a8fa; 0x42b2986c;
   0xdbbbc9d6; 0xacbcf940; 0x32d86ce3; 0x45df5c75; 0xdcd60dcf; 0xabd13d59;
   0x26d930ac; 0x51de003a; 0xc8d75180; 0xbfd06116; 0x21b4f4b5; 0x56b3c423;
   0xcfba9599; 0xb8bda50f; 0x2802b89e; 0x5f058808; 0xc60cd9b2; 0xb10be924;
   0x2f6f7c87; 0x58684c11; 0xc1611dab; 0xb6662d3d; 0x76dc4190; 0x01db7106;
   0x98d220bc; 0xefd5102a; 0x71b18589; 0x06b6b51f; 0x9fbfe4a5; 0xe8b8d433;
   0x7807c9a2; 0x0f00f934; 0x9609a88e; 0xe10e9818; 0x7f6a0dbb; 0x086d3d2d;
   0x91646c97; 0xe6635c01; 0x6b6b51f4; 0x1c6c6162; 0x856530d8; 0xf262004e;
   0x6c0695ed; 0x1b01a57b; 0x8208f4c1; 0xf50fc457; 0x65b0d9c6; 0x12b7e950;
   0x8bbeb8ea; 0xfcb9887c; 0x62dd1ddf; 0x15da2d49; 0x8cd37cf3; 0xfbd44c65;
   0x4db26158; 0x3ab551ce; 0xa3bc0074; 0xd4bb30e2; 0x4adfa541; 0x3dd895d7;
   0xa4d1c46d; 0xd3d6f4fb; 0x4369e96a; 0x346ed9fc; 0xad678846; 0xda60b8d0;
   0x44042d73; 0x33031de5; 0xaa0a4c5f; 0xdd0d7cc9; 0x5005713c; 0x270241aa;
   0xbe0b1010; 0xc90c2086; 0x5768b525; 0x206f85b3; 0xb966d409; 0xce61e49f;
   0x5edef90e; 0x29d9c998; 0xb0d09822; 0xc7d7a8b4; 0x59b33d17; 0x2eb40d81;
   0xb7bd5c3b; 0xc0ba6cad; 0xedb88320; 0x9abfb3b6; 0x03b6e20c; 0x74b1d29a;
   0xead54739; 0x9dd277af; 0x04db2615; 0x73dc1683; 0xe3630b12; 0x94643b84;
   0x0d6d6a3e; 0x7a6a5aa8; 0xe40ecf0b; 0x9309ff9d; 0x0a00ae27; 0x7d079eb1;
   0xf00f9344; 0x8708a3d2; 0x1e01f268; 0x6906c2fe; 0xf762575d; 0x806567cb;
   0x196c3671; 0x6e6b06e7; 0xfed41b76; 0x89d32be0; 0x10da7a5a; 0x67dd4acc;
   0xf9b9df6f; 0x8ebeeff9; 0x17b7be43; 0x60b08ed5; 0xd6d6a3e8; 0xa1d1937e;
   0x38d8c2c4; 0x4fdff252; 0xd1bb67f1; 0xa6bc5767; 0x3fb506dd; 0x48b2364b;
   0xd80d2bda; 0xaf0a1b4c; 0x36034af6; 0x41047a60; 0xdf60efc3; 0xa867df55;
   0x316e8eef; 0x4669be79; 0xcb61b38c; 0xbc66831a; 0x256fd2a0; 0x5268e236;
   0xcc0c7795; 0xbb0b4703; 0x220216b9; 0x5505262f; 0xc5ba3bbe; 0xb2bd0b28;
   0x2bb45a92; 0x5cb36a04; 0xc2d7ffa7; 0xb5d0cf31; 0x2cd99e8b; 0x5bdeae1d;
   0x9b64c2b0; 0xec63f226; 0x756aa39c; 0x026d930a; 0x9c0906a9; 0xeb0e363f;
   0x72076785; 0x05005713; 0x95bf4a82; 0xe2b87a14; 0x7bb12bae; 0x0cb61b38;
   0x92d28e9b; 0xe5d5be0d; 0x7cdcefb7; 0x0bdbdf21; 0x86d3d2d4; 0xf1d4e242;
   0x68ddb3f8; 0x1fda836e; 0x81be16cd; 0xf6b9265b; 0x6fb077e1; 0x18b74777;
   0x88085ae6; 0xff0f6a70; 0x66063bca; 0x11010b5c; 0x8f659eff; 0xf862ae69;
   0x616bffd3; 0x166ccf45; 0xa00ae278; 0xd70dd2ee; 0x4e048354; 0x3903b3c2;
   0xa7672661; 0xd06016f7; 0x4969474d; 0x3e6e77db; 0xaed16a4a; 0xd9d65adc;
   0x40df0b66; 0x37d83bf0; 0xa9bcae53; 0xdebb9ec5; 0x47b2cf7f; 0x30b5ffe9;
   0xbdbdf21c; 0xcabac28a; 0x53b39330; 0x24b4a3a6; 0xbad03605; 0xcdd70693;
   0x54de5729; 0x23d967bf; 0xb3667a2e; 0xc4614ab8; 0x5d681b02; 0x2a6f2b94;
   0xb40bbe37; 0xc30c8ea1; 0x5a05df1b; 0x2d02ef8d].

(** A lookup in a table of [n] entries, by an index that the code masks. *)
Definition table_at (t : list Z) (i : Z) : Z := nth (Z.to_nat i) t 0.

Definition crc_short_byte (crc c : Z) : Z :=
  let crc := Z.lxor (table_at ngx_crc32_table16 (Z.land (Z.lxor crc (Z.land c 0xf)) 0xf)) (Z.shiftr crc 4) in
  Z.lxor (table_at ngx_crc32_table16 (Z.land (Z.lxor crc (Z.shiftr c 4)) 0xf)) (Z.shiftr crc 4).

Definition ngx_crc32_short (p : list Z) : Z :=
  Z.lxor (fold_left crc_short_byte p 0xffffffff) 0xffffffff.

Definition crc_long_byte (crc c : Z) : Z :=
  Z.lxor (table_at ngx_crc32_table256 (Z.land (Z.lxor crc c) 0xff)) (Z.shiftr crc 8).

Definition ngx_crc32_long (p : list Z) : Z :=
  Z.lxor (fold_left crc_long_byte p 0xffffffff) 0xffffffff.

Definition ngx_crc32_init : Z := 0xffffffff.
Definition ngx_crc32_update (crc : Z) (p : list Z) : Z := fold_left crc_long_byte p crc.
Definition ngx_crc32_final (crc : Z) : Z := Z.lxor crc 0xffffffff.

(** * The division, bit by bit *)

(** The polynomial of CRC-32, reflected. *)
Definition crc_poly : Z := 0xedb88320.

Definition crc_bit (crc : Z) : Z :=
  if Z.odd crc then Z.lxor (Z.shiftr crc 1) crc_poly else Z.shiftr crc 1.

Fixpoint crc_bits (n : nat) (crc : Z) : Z :=
  match n with O => crc | S n => crc_bits n (crc_bit crc) end.

Definition crc_byte (crc c : Z) : Z := crc_bits 8 (Z.lxor crc c).

Definition crc_reference (p : list Z) : Z := Z.lxor (fold_left crc_byte p 0xffffffff) 0xffffffff.

(** * The tables *)

Lemma crc_bit_lxor a b : crc_bit (Z.lxor a b) = Z.lxor (crc_bit a) (crc_bit b).
Proof.
  unfold crc_bit. rewrite Z.shiftr_lxor.
  assert (Z.odd (Z.lxor a b) = xorb (Z.odd a) (Z.odd b)) as ->.
  { rewrite <- !Z.bit0_odd. apply Z.lxor_spec. }
  destruct (Z.odd a), (Z.odd b); cbn [xorb]; apply Z.bits_inj'; intros n Hn;
    rewrite ?Z.lxor_spec; destruct (Z.testbit (Z.shiftr a 1) n), (Z.testbit (Z.shiftr b 1) n),
      (Z.testbit crc_poly n); reflexivity.
Qed.

Lemma crc_bits_lxor n a b : crc_bits n (Z.lxor a b) = Z.lxor (crc_bits n a) (crc_bits n b).
Proof.
  revert a b. induction n as [|n IH]; intros a b; cbn; [done|]. by rewrite crc_bit_lxor, IH.
Qed.

Lemma crc_bits_add n m a : crc_bits (n + m) a = crc_bits m (crc_bits n a).
Proof. revert a. induction n as [|n IH]; intros a; cbn; auto. Qed.

Lemma crc_bits_shift n h : crc_bits n (Z.shiftl h (Z.of_nat n)) = h.
Proof.
  revert h. induction n as [|n IH]; intros h; [apply Z.shiftl_0_r|].
  cbn [crc_bits].
  assert (crc_bit (Z.shiftl h (Z.of_nat (S n))) = Z.shiftl h (Z.of_nat n)) as ->; [|apply IH].
  unfold crc_bit. rewrite <- Z.bit0_odd, Z.shiftl_spec_low by lia.
  rewrite Z.shiftr_shiftl_l by lia. f_equal. lia.
Qed.

(** A number is its low bits and the rest. *)
Lemma split_low n a : 0 <= n -> a = Z.lxor (Z.land a (Z.ones n)) (Z.shiftl (Z.shiftr a n) n).
Proof.
  intros Hn. apply Z.bits_inj'. intros i Hi. rewrite Z.lxor_spec, Z.land_spec.
  destruct (decide (i < n)).
  - rewrite Z.ones_spec_low, Z.shiftl_spec_low by lia. by rewrite andb_true_r, xorb_false_r.
  - rewrite Z.ones_spec_high, Z.shiftl_spec, Z.shiftr_spec by lia. rewrite andb_false_r.
    cbn. f_equal. lia.
Qed.

(** The lookup does the steps of the low bits at once. *)
Lemma table_step t n a :
  forallb (fun i => table_at t i =? crc_bits n i) (map Z.of_nat (seq 0 (Nat.pow 2 n))) = true ->
  Z.lxor (table_at t (Z.land a (Z.ones (Z.of_nat n)))) (Z.shiftr a (Z.of_nat n)) = crc_bits n a.
Proof.
  intros Ht. rewrite (split_low (Z.of_nat n) a) at 3 by lia. rewrite crc_bits_lxor, crc_bits_shift.
  f_equal. set (i := Z.land a _). rewrite forallb_forall in Ht. specialize (Ht i).
  apply Z.eqb_eq, Ht. apply in_map_iff. exists (Z.to_nat i).
  assert (0 <= i < 2 ^ Z.of_nat n).
  { unfold i. rewrite Z.land_ones by lia. apply Z.mod_pos_bound. lia. }
  split; [lia|]. apply in_seq.
  assert (Z.of_nat (Nat.pow 2 n) = 2 ^ Z.of_nat n) by (rewrite Nat2Z.inj_pow; done). lia.
Qed.

Lemma byte_high c n : is_byte c -> 8 <= n -> Z.shiftr c n = 0.
Proof.
  intros [H0 H1] Hn. rewrite Z.shiftr_div_pow2 by lia. apply Z.div_small. split; [lia|].
  apply (Z.lt_le_trans _ (2 ^ 8)); [lia|]. apply Z.pow_le_mono_r; lia.
Qed.

Lemma long_byte_ok crc c : is_byte c -> crc_long_byte crc c = crc_byte crc c.
Proof.
  intros Hc. unfold crc_long_byte, crc_byte.
  rewrite <- (table_step ngx_crc32_table256 8) by (vm_compute; reflexivity).
  change (Z.of_nat 8) with 8. rewrite Z.shiftr_lxor, (byte_high c 8), Z.lxor_0_r by (done || lia). done.
Qed.

Lemma nibble_step crc c : 0 <= c < 16 ->
  Z.lxor (table_at ngx_crc32_table16 (Z.land (Z.lxor crc c) 0xf)) (Z.shiftr crc 4) = crc_bits 4 (Z.lxor crc c).
Proof.
  intros Hc. rewrite <- (table_step ngx_crc32_table16 4) by (vm_compute; reflexivity).
  rewrite Z.shiftr_lxor.
  assert (Z.shiftr c (Z.of_nat 4) = 0) as ->; [|by rewrite Z.lxor_0_r].
  rewrite Z.shiftr_div_pow2 by lia. apply Z.div_small. lia.
Qed.

Lemma short_byte_ok crc c : is_byte c -> crc_short_byte crc c = crc_byte crc c.
Proof.
  intros [H0 H1]. unfold crc_short_byte. cbv zeta.
  assert (Hl : 0 <= Z.land c 0xf < 16).
  { change 0xf with (Z.ones 4). rewrite Z.land_ones by lia. apply Z.mod_pos_bound. lia. }
  assert (Hh : 0 <= Z.shiftr c 4 < 16).
  { rewrite Z.shiftr_div_pow2 by lia. split; [apply Z.div_pos; lia|apply Z.div_lt_upper_bound; lia]. }
  rewrite (nibble_step _ _ Hl), (nibble_step _ _ Hh). unfold crc_byte.
  rewrite (split_low 4 c) at 3 by lia. change (crc_bits 8) with (crc_bits (4 + 4)).
  rewrite <- Z.lxor_assoc, crc_bits_add, (crc_bits_lxor 4 _ (Z.shiftl _ _)), (crc_bits_shift 4). done.
Qed.

Lemma fold_bytes (f g : Z -> Z -> Z) p crc :
  (forall crc c, is_byte c -> f crc c = g crc c) -> bytes_ok p -> fold_left f p crc = fold_left g p crc.
Proof.
  intros H Hp. revert crc. induction Hp as [|c p Hc _ IH]; intros crc; cbn; [done|].
  by rewrite H, IH.
Qed.

(** C39: both table-driven routines compute the CRC-32 that the division of the
    bits by the polynomial defines, so that they agree, and the incremental one
    gives the same whether the bytes come at once or in pieces. *)
Theorem crc32_is_division p q : bytes_ok p -> bytes_ok q ->
  ngx_crc32_short (p ++ q) = crc_reference (p ++ q) /\
  ngx_crc32_long (p ++ q) = crc_reference (p ++ q) /\
  ngx_crc32_final (ngx_crc32_update (ngx_crc32_update ngx_crc32_init p) q) = crc_reference (p ++ q).
Proof.
  intros Hp Hq. assert (Hpq : bytes_ok (p ++ q)) by (by apply bytes_ok_app).
  unfold ngx_crc32_short, ngx_crc32_long, ngx_crc32_final, ngx_crc32_update, ngx_crc32_init, crc_reference.
  rewrite <- fold_left_app. split_and!; f_equal; apply fold_bytes; auto using short_byte_ok, long_byte_ok.
Qed.

Lemma crc32_is_division_witness :
  ngx_crc32_short ($"1234" ++ $"56789") = crc_reference ($"1234" ++ $"56789") /\
  ngx_crc32_long ($"1234" ++ $"56789") = crc_reference ($"1234" ++ $"56789") /\
  ngx_crc32_final (ngx_crc32_update (ngx_crc32_update ngx_crc32_init $"1234") $"56789")
    = crc_reference ($"1234" ++ $"56789").
Proof. apply (crc32_is_division $"1234" $"56789"); apply (bool_decide_unpack _); vm_compute; exact I. Defined.

(** The check value of CRC-32. *)
Example crc32_check : ngx_crc32_short $"123456789" = 0xcbf43926.
Proof. vm_compute. reflexivity. Qed.

End Crc32.
