(* ===== verification/NgxStringCmp.v ===== *)
(** Comparisons of strings: ngx_memn2cmp of src/core/ngx_string.c.  The order
    it defines is the lexicographic one. *)

From S2P Require Import Prelude.

Module StringCmp.

(** memcmp of the first [n] bytes, which both strings have. *)
Fixpoint ngx_memcmp_n (s1 s2 : list Z) (n : nat) {struct n} : Z :=
  match n, s1, s2 with
  | S n, c1 :: s1, c2 :: s2 => if c1 =? c2 then ngx_memcmp_n s1 s2 n else c1 - c2
  | _, _, _ => 0
  end.

Definition ngx_memn2cmp (s1 s2 : list Z) (n1 n2 : Z) : Z :=
  let '(n, z) := if n1 <=? n2 then (n1, -1) else (n2, 1) in
  let m := ngx_memcmp_n s1 s2 (Z.to_nat n) in
  if negb (m =? 0) || (n1 =? n2) then m else z.

(** * The lexicographic order *)

Fixpoint bytes_cmp (s1 s2 : list Z) : Z :=
  match s1, s2 with
  | [], [] => 0
  | [], _ => -1
  | _, [] => 1
  | c1 :: s1, c2 :: s2 => if c1 =? c2 then bytes_cmp s1 s2 else c1 - c2
  end.

Lemma bytes_cmp_refl s : bytes_cmp s s = 0.
Proof. induction s; cbn; [done|]. by rewrite Z.eqb_refl. Qed.

Lemma bytes_cmp_eq s1 s2 : bytes_cmp s1 s2 = 0 <-> s1 = s2.
Proof.
  split; [|intros ->; apply bytes_cmp_refl]. revert s2.
  induction s1 as [|a s1 IH]; intros [|b s2]; cbn; try done. destruct (a =? b) eqn:E; boolify; [|lia].
  intros H. by rewrite (IH _ H), E.
Qed.

Lemma bytes_cmp_opp s1 s2 : bytes_cmp s1 s2 < 0 <-> 0 < bytes_cmp s2 s1.
Proof.
  revert s2. induction s1 as [|a s1 IH]; intros [|b s2]; cbn; try lia.
  rewrite (Z.eqb_sym b a). destruct (a =? b) eqn:E; [apply IH|lia].
Qed.

Lemma bytes_cmp_trans s1 s2 s3 : bytes_cmp s1 s2 < 0 -> bytes_cmp s2 s3 < 0 -> bytes_cmp s1 s3 < 0.
Proof.
  revert s2 s3. induction s1 as [|a s1 IH]; intros [|b s2] [|c s3]; cbn; try lia.
  destruct (a =? b) eqn:E1, (b =? c) eqn:E2, (a =? c) eqn:E3; boolify; try lia; eauto.
Qed.

Lemma memn2cmp_cons a s1 b s2 n1 n2 : 0 <= n1 -> 0 <= n2 ->
  ngx_memn2cmp (a :: s1) (b :: s2) (n1 + 1) (n2 + 1) = if a =? b then ngx_memn2cmp s1 s2 n1 n2 else a - b.
Proof.
  intros H1 H2. unfold ngx_memn2cmp.
  replace (n1 + 1 <=? n2 + 1) with (n1 <=? n2) by lia. replace (n1 + 1 =? n2 + 1) with (n1 =? n2) by lia.
  destruct (n1 <=? n2); rewrite Z2Nat.inj_add, Nat.add_1_r by lia; cbn [ngx_memcmp_n];
    (destruct (a =? b) eqn:E; [done|]; boolify; rewrite (proj2 (Z.eqb_neq (a - b) 0)) by lia; done).
Qed.

Lemma memn2cmp_lex s1 s2 :
  ngx_memn2cmp s1 s2 (Z.of_nat (length s1)) (Z.of_nat (length s2)) = bytes_cmp s1 s2.
Proof.
  revert s2. induction s1 as [|a s1 IH]; intros [|b s2]; try done.
  cbn [length bytes_cmp]. rewrite !Nat2Z.inj_succ, <- !Z.add_1_r, memn2cmp_cons by lia. by rewrite IH.
Qed.

(** A string is compared by its first [n] bytes. *)
Lemma memcmp_take s1 s2 n n2 : (n <= n2)%nat -> ngx_memcmp_n s1 (take n2 s2) n = ngx_memcmp_n s1 s2 n.
Proof.
  revert s1 s2 n2. induction n as [|n IH]; intros s1 s2 n2 Hn; [done|].
  destruct n2 as [|n2]; [lia|]. destruct s1 as [|a s1], s2 as [|b s2]; cbn; try done.
  rewrite IH by lia. done.
Qed.

Lemma memn2cmp_take s1 s2 n2 : 0 <= n2 <= Z.of_nat (length s2) ->
  ngx_memn2cmp s1 s2 (Z.of_nat (length s1)) n2 = bytes_cmp s1 (take (Z.to_nat n2) s2).
Proof.
  intros Hn. rewrite <- memn2cmp_lex, length_take, Nat.min_l, Z2Nat.id by lia.
  unfold ngx_memn2cmp. destruct (_ <=? _) eqn:E; boolify; rewrite memcmp_take by lia; done.
Qed.

End StringCmp.
