(* ===== verification/NgxSlabClass.v ===== *)
(** What a zone of shared memory needs of its slab pool: the interface between the
    modules that keep records in shared memory and the allocator.  NgxSlabPool
    has the allocator of core/ngx_slab.c as an instance. *)

From S2P Require Import Prelude.

#[local] Open Scope Z_scope.

Module SlabClass.

(** The addresses in use are [slab_live]. *)
Class SlabPool (P : Type) := {
  slab_alloc : P -> Z -> option (Z * P);
  slab_free : P -> Z -> P;
  slab_live : P -> gset Z }.

(** An address in use is never given again, and only a free takes one away. *)
Class SlabLaws (P : Type) `{SlabPool P} : Prop := {
  slab_alloc_live p n a p' : slab_alloc p n = Some (a, p') ->
    (a ∉ slab_live p) /\ slab_live p' = {[a]} ∪ slab_live p;
  slab_free_live p a : a ∈ slab_live p -> slab_live (slab_free p a) = slab_live p ∖ {[a]} }.

(** A pool of [slab_pages] pages.  While it has only blocks of at most a page
    ([slab_small]), an allocation of at most a page fails only when the blocks
    are as many as the pages. *)
Class SlabRoom (P : Type) `{SlabPool P} := {
  slab_pages : nat;
  slab_small : P -> Prop;
  slab_room p n : slab_small p -> 0 <= n <= 4096 -> (size (slab_live p) < slab_pages)%nat -> slab_alloc p n <> None;
  slab_small_alloc p n a p' : slab_small p -> 0 <= n <= 4096 -> slab_alloc p n = Some (a, p') -> slab_small p';
  slab_small_free p a : slab_small p -> a ∈ slab_live p -> slab_small (slab_free p a) }.

End SlabClass.
