(* ===== verification/NgxSlab.v ===== *)
(** The slab allocator of shared memory: core/ngx_slab.c and .h, on pages of 4096
    bytes, with the smallest chunk of 8 bytes that ngx_init_zone_pool sets.

    The descriptors of the pages, the heads of the lists of pages with free
    chunks and the head of the list of free pages are nodes of a memory; a
    pointer to a node with a type in its two low bits is the pair of both.  The
    bitmap of a page of small chunks is in the page itself, in chunks that are
    never given away; [bitmaps] has its words.  The lock is the caller's, the log
    and the filling of memory for debugging are left out. *)

From S2P Require Import Prelude.

#[local] Open Scope Z_scope.

Module Slab.

Definition ngx_pagesize : Z := 4096.
Definition ngx_pagesize_shift : Z := 12.
Definition ngx_slab_max_size : Z := 2048.
Definition ngx_slab_exact_size : Z := 64.
Definition ngx_slab_exact_shift : Z := 6.
Definition min_size : Z := 8.
Definition min_shift : Z := 3.

Definition NGX_SLAB_PAGE_MASK : Z := 3.
Definition NGX_SLAB_PAGE : Z := 0.
Definition NGX_SLAB_BIG : Z := 1.
Definition NGX_SLAB_EXACT : Z := 2.
Definition NGX_SLAB_SMALL : Z := 3.
Definition NGX_SLAB_PAGE_FREE : Z := 0.
Definition NGX_SLAB_PAGE_BUSY : Z := 0xffffffffffffffff.
Definition NGX_SLAB_PAGE_START : Z := 0x8000000000000000.
Definition NGX_SLAB_SHIFT_MASK : Z := 0xf.
Definition NGX_SLAB_MAP_MASK : Z := 0xffffffff00000000.
Definition NGX_SLAB_MAP_SHIFT : Z := 32.
Definition NGX_SLAB_BUSY : Z := 0xffffffffffffffff.

(** pool->pages[i], slots[j] and pool->free. *)
Inductive slab_ptr := PPage (i : nat) | PSlot (j : nat) | PFree.

#[export] Instance slab_ptr_eq_dec : EqDecision slab_ptr.
Proof. solve_decision. Defined.

#[export] Program Instance slab_ptr_countable : Countable slab_ptr :=
  inj_countable' (fun p => match p with PPage i => inl i | PSlot j => inr (inl j) | PFree => inr (inr ()) end)
    (fun s => match s with inl i => PPage i | inr (inl j) => PSlot j | inr (inr _) => PFree end) _.
Next Obligation. by intros []. Qed.

(** [prev] is a pointer with a type. *)
Record ngx_slab_page_t := MkPage { slab : Z; next : option slab_ptr; prev : option slab_ptr * Z }.

Record ngx_slab_pool_t := MkPool {
  nodes : gmap slab_ptr ngx_slab_page_t; bitmaps : gmap nat (list Z); start : Z; end_ : Z }.

Definition set_nodes (m : gmap slab_ptr ngx_slab_page_t) (st : ngx_slab_pool_t) : ngx_slab_pool_t :=
  MkPool m (bitmaps st) (start st) (end_ st).
Definition set_bitmap (i : nat) (ws : list Z) (st : ngx_slab_pool_t) : ngx_slab_pool_t :=
  MkPool (nodes st) (<[i := ws]> (bitmaps st)) (start st) (end_ st).

(** Reading and writing through a pointer. *)
Definition rd (p : option slab_ptr) (st : ngx_slab_pool_t) : outcome ngx_slab_page_t :=
  match p with
  | None => Undefined
  | Some p => match nodes st !! p with Some g => Ret g | None => Undefined end
  end.

Definition wr (p : option slab_ptr) (f : ngx_slab_page_t -> ngx_slab_page_t) (st : ngx_slab_pool_t) : outcome ngx_slab_pool_t :=
  let! g := rd p st in
  match p with None => Undefined | Some p => Ret (set_nodes (<[p := f g]> (nodes st)) st) end.

Definition set_slab v (g : ngx_slab_page_t) : ngx_slab_page_t := MkPage v (next g) (prev g).
Definition set_next v (g : ngx_slab_page_t) : ngx_slab_page_t := MkPage (slab g) v (prev g).
Definition set_prev v (g : ngx_slab_page_t) : ngx_slab_page_t := MkPage (slab g) (next g) v.

Definition rd_bitmap (i : nat) (st : ngx_slab_pool_t) : outcome (list Z) :=
  match bitmaps st !! i with Some ws => Ret ws | None => Undefined end.

Definition page_addr (i : nat) (st : ngx_slab_pool_t) : Z := start st + Z.shiftl (Z.of_nat i) ngx_pagesize_shift.

(** * Pages *)

(** The node is taken out of its list: prev->next = page->next;
    page->next->prev = page->prev. *)
Definition unlink (g : ngx_slab_page_t) (st : ngx_slab_pool_t) : outcome ngx_slab_pool_t :=
  let! st := wr (prev g).1 (set_next (next g)) st in
  wr (next g) (set_prev (prev g)) st.

(** [pages] descriptors from [i] on become [g]. *)
Fixpoint fill_pages (g : ngx_slab_page_t) (pages : nat) (i : nat) (st : ngx_slab_pool_t) : outcome ngx_slab_pool_t :=
  match pages with
  | O => Ret st
  | S pages => let! st := wr (Some (PPage i)) (fun _ => g) st in fill_pages g pages (S i) st
  end.

Definition mark_busy : nat -> nat -> ngx_slab_pool_t -> outcome ngx_slab_pool_t :=
  fill_pages (MkPage NGX_SLAB_PAGE_BUSY None (None, NGX_SLAB_PAGE)).

Fixpoint alloc_pages_loop (fuel : nat) (pages : Z) (page : option slab_ptr) (st : ngx_slab_pool_t) : outcome (option nat * ngx_slab_pool_t) :=
  match fuel with
  | O => NoFuel
  | S fuel =>
    match page with
    | Some PFree => Ret (None, st)
    | Some (PPage i) =>
      let! g := rd page st in
      if slab g >=? pages then
        let k := Z.to_nat pages in
        let! st :=
          (if slab g >? pages then
             let! st := wr (Some (PPage (i + k))) (fun _ => MkPage (slab g - pages) (next g) (prev g)) st in
             let! st := wr (prev g).1 (set_next (Some (PPage (i + k)))) st in
             wr (next g) (set_prev (Some (PPage (i + k)), 0)) st
           else unlink g st) in
        let! st := wr page (fun _ => MkPage (Z.lor pages NGX_SLAB_PAGE_START) None (None, NGX_SLAB_PAGE)) st in
        let! st := mark_busy (k - 1) (S i) st in
        Ret (Some i, st)
      else alloc_pages_loop fuel pages (next g) st
    | _ => Undefined
    end
  end.

Definition ngx_slab_alloc_pages (pages : Z) (st : ngx_slab_pool_t) : outcome (option nat * ngx_slab_pool_t) :=
  let! g := rd (Some PFree) st in
  alloc_pages_loop (S (size (nodes st))) pages (next g) st.

(** ngx_memzero of [pages] descriptors from [i] on. *)
Definition zero_pages : nat -> nat -> ngx_slab_pool_t -> outcome ngx_slab_pool_t := fill_pages (MkPage 0 None (None, 0)).

(** The page comes to the front of the list of free pages. *)
Definition enlist_free (i : nat) (st : ngx_slab_pool_t) : outcome ngx_slab_pool_t :=
  let page := Some (PPage i) in
  let! st := wr page (set_prev (Some PFree, 0)) st in
  let! free := rd (Some PFree) st in
  let! st := wr page (set_next (next free)) st in
  let! st := wr (next free) (set_prev (page, 0)) st in
  wr (Some PFree) (set_next page) st.

Definition ngx_slab_free_pages (i : nat) (pages : Z) (st : ngx_slab_pool_t) : outcome ngx_slab_pool_t :=
  let page := Some (PPage i) in
  let! st := wr page (set_slab pages) st in
  let! st := zero_pages (Z.to_nat (pages - 1)) (S i) st in
  let! g := rd page st in
  let! st := match next g with Some _ => unlink g st | None => Ret st end in
  enlist_free i st.

(** * Chunks *)

(** The number of the words of the bitmap of a page of small chunks, and of the
    chunks it takes. *)
Definition map_words (shift : Z) : nat := Z.to_nat (Z.shiftl 1 (ngx_pagesize_shift - shift) / 64).
Definition map_chunks (shift : Z) : Z :=
  let n := Z.shiftl 1 (ngx_pagesize_shift - shift) / 8 / Z.shiftl 1 shift in if n =? 0 then 1 else n.

(** for (m = 1 << i; m & mask; m <<= 1, i++) until a bit of [w] that is not set;
    [fuel] is the number of the bits of m that are left. *)
Fixpoint zero_bit (fuel : nat) (mask w i : Z) : option Z :=
  match fuel with
  | O => None
  | S fuel =>
    if Z.testbit mask i then (if Z.testbit w i then zero_bit fuel mask w (i + 1) else Some i) else None
  end.

Definition set_bit (w i : Z) : Z := Z.lor w (Z.shiftl 1 i).
Definition clear_bit (w i : Z) : Z := Z.ldiff w (Z.shiftl 1 i).

(** The first word with a free bit: its place, the bit and the words after. *)
Fixpoint scan_bitmap (ws : list Z) : option (nat * Z * list Z) :=
  match ws with
  | [] => None
  | w :: ws =>
    match (if w =? NGX_SLAB_BUSY then None else zero_bit 64 NGX_SLAB_BUSY w 0) with
    | Some i => Some (O, i, set_bit w i :: ws)
    | None => match scan_bitmap ws with Some (n, i, ws') => Some (S n, i, w :: ws') | None => None end
    end
  end.

(** The page has no free chunk any more: it leaves its list. *)
Definition retire (page : option slab_ptr) (type : Z) (st : ngx_slab_pool_t) : outcome ngx_slab_pool_t :=
  let! g := rd page st in
  let! st := unlink g st in
  wr page (fun g => MkPage (slab g) None (None, type)) st.

Definition small_chunk (shift : Z) (i : nat) (st : ngx_slab_pool_t) : outcome (option Z * ngx_slab_pool_t) :=
  let! ws := rd_bitmap i st in
  match scan_bitmap ws with
  | None => Ret (None, st)
  | Some (n, b, ws') =>
    let st := set_bitmap i ws' st in
    let c := Z.of_nat n * 64 + b in
    let full := forallb (fun w => w =? NGX_SLAB_BUSY) (drop n ws') in
    let! st := (if full then retire (Some (PPage i)) NGX_SLAB_SMALL st else Ret st) in
    Ret (Some (page_addr i st + Z.shiftl c shift), st)
  end.

Definition exact_chunk (shift : Z) (i : nat) (st : ngx_slab_pool_t) : outcome (option Z * ngx_slab_pool_t) :=
  let page := Some (PPage i) in
  let! g := rd page st in
  match (if slab g =? NGX_SLAB_BUSY then None else zero_bit 64 NGX_SLAB_BUSY (slab g) 0) with
  | None => Ret (None, st)
  | Some c =>
    let slab' := set_bit (slab g) c in
    let! st := wr page (set_slab slab') st in
    let! st := (if slab' =? NGX_SLAB_BUSY then retire page NGX_SLAB_EXACT st else Ret st) in
    Ret (Some (page_addr i st + Z.shiftl c shift), st)
  end.

Definition big_chunk (mask shift : Z) (i : nat) (st : ngx_slab_pool_t) : outcome (option Z * ngx_slab_pool_t) :=
  let page := Some (PPage i) in
  let! g := rd page st in
  match (if Z.land (slab g) NGX_SLAB_MAP_MASK =? mask then None else zero_bit 32 mask (slab g) NGX_SLAB_MAP_SHIFT) with
  | None => Ret (None, st)
  | Some m =>
    let c := m - NGX_SLAB_MAP_SHIFT in
    let slab' := set_bit (slab g) m in
    let! st := wr page (set_slab slab') st in
    let! st := (if Z.land slab' NGX_SLAB_MAP_MASK =? mask then retire page NGX_SLAB_BIG st else Ret st) in
    Ret (Some (page_addr i st + Z.shiftl c shift), st)
  end.

(** do { ... } while (page): the pages of the list, until one gives a chunk. *)
Fixpoint chunk_loop (take : nat -> ngx_slab_pool_t -> outcome (option Z * ngx_slab_pool_t)) (fuel : nat) (page : option slab_ptr)
    (st : ngx_slab_pool_t) : outcome (option Z * ngx_slab_pool_t) :=
  match fuel with
  | O => NoFuel
  | S fuel =>
    match page with
    | None => Ret (None, st)
    | Some (PPage i) =>
      let! (r, st) := take i st in
      match r with
      | Some p => Ret (Some p, st)
      | None => let! g := rd page st in chunk_loop take fuel (next g) st
      end
    | Some _ => Undefined
    end
  end.

(** A new page is the only one of its list. *)
Definition link (i slot : nat) (slab type : Z) (st : ngx_slab_pool_t) : outcome ngx_slab_pool_t :=
  let! st := wr (Some (PPage i)) (fun _ => MkPage slab (Some (PSlot slot)) (Some (PSlot slot), type)) st in
  wr (Some (PSlot slot)) (set_next (Some (PPage i))) st.

(** The first chunk of a new page. *)
Definition new_page (shift : Z) (slot : nat) (st : ngx_slab_pool_t) : outcome (option Z * ngx_slab_pool_t) :=
  let! (page, st) := ngx_slab_alloc_pages 1 st in
  match page with
  | None => Ret (None, st)
  | Some i =>
    if shift <? ngx_slab_exact_shift then
      let n := map_chunks shift in
      let st := set_bitmap i ((Z.shiftl 2 n - 1) :: repeat 0 (map_words shift - 1)) st in
      let! st := link i slot shift NGX_SLAB_SMALL st in
      Ret (Some (page_addr i st + Z.shiftl 1 shift * n), st)
    else if shift =? ngx_slab_exact_shift then
      let! st := link i slot 1 NGX_SLAB_EXACT st in Ret (Some (page_addr i st), st)
    else
      let! st := link i slot (Z.lor (Z.shiftl 1 NGX_SLAB_MAP_SHIFT) shift) NGX_SLAB_BIG st in Ret (Some (page_addr i st), st)
  end.

(** shift = 1; for (s = size - 1; s >>= 1; shift++) *)
Fixpoint shift_loop (fuel : nat) (s shift : Z) : Z :=
  match fuel with
  | O => shift
  | S fuel => let s := Z.shiftr s 1 in if s =? 0 then shift else shift_loop fuel s (shift + 1)
  end.

(** The address, or None for NULL. *)
Definition ngx_slab_alloc_locked (bytes : Z) (st : ngx_slab_pool_t) : outcome (option Z * ngx_slab_pool_t) :=
  if bytes >=? ngx_slab_max_size then
    let! (page, st) := ngx_slab_alloc_pages (Z.shiftr bytes ngx_pagesize_shift + (if bytes mod ngx_pagesize =? 0 then 0 else 1)) st in
    Ret (match page with Some i => Some (page_addr i st) | None => None end, st)
  else
    let shift := if bytes >? min_size then shift_loop 64 (bytes - 1) 1 else min_shift in
    let slot := Z.to_nat (shift - min_shift) in
    let! s := rd (Some (PSlot slot)) st in
    let page := next s in
    let! g := rd page st in
    let! (r, st) :=
      (if decide (next g = page) then Ret (None, st)
       else
         let fuel := S (size (nodes st)) in
         if shift <? ngx_slab_exact_shift then chunk_loop (small_chunk shift) fuel page st
         else if shift =? ngx_slab_exact_shift then chunk_loop (exact_chunk shift) fuel page st
         else
           let n := Z.shiftl 1 (ngx_pagesize_shift - Z.land (slab g) NGX_SLAB_SHIFT_MASK) in
           let mask := Z.shiftl (Z.shiftl 1 n - 1) NGX_SLAB_MAP_SHIFT in
           chunk_loop (big_chunk mask shift) fuel page st) in
    match r with
    | Some p => Ret (Some p, st)
    | None => new_page shift slot st
    end.

(** ** Freeing *)

(** A page without a free chunk enters the list of its slot again. *)
Definition relist (i : nat) (slot : nat) (type : Z) (st : ngx_slab_pool_t) : outcome ngx_slab_pool_t :=
  let page := Some (PPage i) in
  let! s := rd (Some (PSlot slot)) st in
  let! st := wr page (set_next (next s)) st in
  let! st := wr (Some (PSlot slot)) (set_next page) st in
  let! st := wr page (set_prev (Some (PSlot slot), type)) st in
  wr (next s) (set_prev (page, type)) st.

Definition slot_of (shift : Z) : nat := Z.to_nat (shift - min_shift).

(** A pointer that is not one of a chunk or of a page, or to a free one, is
    reported in the log only. *)
Definition ngx_slab_free_locked (p : Z) (st : ngx_slab_pool_t) : outcome ngx_slab_pool_t :=
  if (p <? start st) || (p >? end_ st) then Ret st
  else
    let i := Z.to_nat (Z.shiftr (p - start st) ngx_pagesize_shift) in
    let page := Some (PPage i) in
    let! g := rd page st in
    let slab0 := slab g in
    let type := (prev g).2 in
    if type =? NGX_SLAB_SMALL then
      let shift := Z.land slab0 NGX_SLAB_SHIFT_MASK in
      if negb (Z.land p (Z.shiftl 1 shift - 1) =? 0) then Ret st
      else
        let c := Z.shiftr (Z.land p (ngx_pagesize - 1)) shift in
        let n := Z.to_nat (c / 64) in
        let! ws := rd_bitmap i st in
        match ws !! n with
        | None => Undefined
        | Some w =>
          if Z.testbit w (Z.land c 63) then
            let! st := (match next g with None => relist i (slot_of shift) NGX_SLAB_SMALL st | Some _ => Ret st end) in
            let ws := <[n := clear_bit w (Z.land c 63)]> ws in
            let st := set_bitmap i ws st in
            let k := map_chunks shift in
            if negb (Z.ldiff (hd 0 ws) (Z.shiftl 1 k - 1) =? 0) then Ret st
            else if existsb (fun w => negb (w =? 0)) (take (map_words shift - 1) (tl ws)) then Ret st
            else ngx_slab_free_pages i 1 st
          else Ret st
        end
    else if type =? NGX_SLAB_EXACT then
      let m := Z.shiftr (Z.land p (ngx_pagesize - 1)) ngx_slab_exact_shift in
      if negb (Z.land p (ngx_slab_exact_size - 1) =? 0) then Ret st
      else if Z.testbit slab0 m then
        let! st := (if slab0 =? NGX_SLAB_BUSY then relist i (slot_of ngx_slab_exact_shift) NGX_SLAB_EXACT st else Ret st) in
        let! st := wr page (set_slab (clear_bit slab0 m)) st in
        if negb (clear_bit slab0 m =? 0) then Ret st else ngx_slab_free_pages i 1 st
      else Ret st
    else if type =? NGX_SLAB_BIG then
      let shift := Z.land slab0 NGX_SLAB_SHIFT_MASK in
      if negb (Z.land p (Z.shiftl 1 shift - 1) =? 0) then Ret st
      else
        let m := Z.shiftr (Z.land p (ngx_pagesize - 1)) shift + NGX_SLAB_MAP_SHIFT in
        if Z.testbit slab0 m then
          let! st := (match next g with None => relist i (slot_of shift) NGX_SLAB_BIG st | Some _ => Ret st end) in
          let! st := wr page (set_slab (clear_bit slab0 m)) st in
          if negb (Z.land (clear_bit slab0 m) NGX_SLAB_MAP_MASK =? 0) then Ret st else ngx_slab_free_pages i 1 st
        else Ret st
    else
      if negb (Z.land p (ngx_pagesize - 1) =? 0) then Ret st
      else if slab0 =? NGX_SLAB_PAGE_FREE then Ret st
      else if slab0 =? NGX_SLAB_PAGE_BUSY then Ret st
      else ngx_slab_free_pages i (Z.ldiff slab0 NGX_SLAB_PAGE_START) st.

(** * The initialisation *)

(** The number of slots. *)
Definition slots_n : nat := Z.to_nat (ngx_pagesize_shift - min_shift).

(** [p] is the address behind the pool structure. *)
Definition ngx_slab_init (p end_ : Z) : ngx_slab_pool_t :=
  let size := end_ - p in
  let p := p + Z.of_nat slots_n * 24 in
  let pages := size / (ngx_pagesize + 24) in
  let start := Z.land (p + pages * 24 + (ngx_pagesize - 1)) (Z.lnot (ngx_pagesize - 1)) in
  let m := pages - (end_ - start) / ngx_pagesize in
  let used := if m >? 0 then pages - m else pages in
  let slots := map (fun j => (PSlot j, MkPage 0 (Some (PSlot j)) (None, 0))) (seq 0 slots_n) in
  let descs := map (fun i => (PPage i, MkPage 0 None (None, 0))) (seq 0 (Z.to_nat pages)) in
  let nodes := list_to_map (slots ++ descs ++ [(PFree, MkPage 0 (Some (PPage 0)) (None, 0))]) in
  MkPool (<[PPage 0 := MkPage used (Some PFree) (Some PFree, 0)]> nodes) ∅ start end_.

End Slab.
