(* ===== verification/NgxSlabRings.v ===== *)
(** The lists of the slab allocator: rings of page descriptors through the heads
    of the slots and of the free pages. *)

From S2P Require Import Prelude NgxSlab.

#[local] Open Scope Z_scope.

Module SlabRings.

Export Slab.

Abbreviation mem := (gmap slab_ptr ngx_slab_page_t).

Definition page0 : ngx_slab_page_t := MkPage 0 None (None, 0).
Definition pg (m : mem) (p : slab_ptr) : ngx_slab_page_t := default page0 (m !! p).

Lemma pg_insert (m : mem) p q g : pg (<[p := g]> m) q = if decide (p = q) then g else pg m q.
Proof.
  unfold pg. destruct (decide (p = q)) as [->|Hne]; [by rewrite lookup_insert_eq|by rewrite lookup_insert_ne].
Qed.

Lemma rd_ok p st : p ∈ dom (nodes st) -> rd (Some p) st = Ret (pg (nodes st) p).
Proof. intros [g Hg]%elem_of_dom. unfold rd, pg. by rewrite Hg. Qed.

Lemma wr_ok p f st : p ∈ dom (nodes st) -> wr (Some p) f st = Ret (set_nodes (<[p := f (pg (nodes st) p)]> (nodes st)) st).
Proof. intros Hp. unfold wr. by rewrite rd_ok. Qed.

Lemma page_eq (g g' : ngx_slab_page_t) : slab g = slab g' -> next g = next g' -> prev g = prev g' -> g = g'.
Proof. destruct g, g'. cbn. by intros -> -> ->. Qed.

(** The fields of nodes after a sequence of writes. *)
Ltac fields := intros; rewrite ?pg_insert; repeat case_decide; subst; cbn [slab next prev set_slab set_next set_prev]; try congruence; try done.

(** * Chains *)

(** From [x] through the nodes of [l] to [e], with the type [t] in the pointers
    back. *)
Fixpoint chain (m : mem) (t : Z) (x : slab_ptr) (l : list slab_ptr) (e : slab_ptr) : Prop :=
  match l with
  | [] => next (pg m x) = Some e
  | y :: l => next (pg m x) = Some y /\ prev (pg m y) = (Some x, t) /\ chain m t y l e
  end.

Lemma chain_first m t x l e : chain m t x l e -> next (pg m x) = Some (hd e l).
Proof. by destruct l; cbn; [|intros [? _]]. Qed.

Lemma chain_ext m m' t x l e : (forall p, p ∈ x :: l -> next (pg m' p) = next (pg m p)) ->
  (forall p, p ∈ l -> prev (pg m' p) = prev (pg m p)) -> chain m t x l e -> chain m' t x l e.
Proof.
  revert x. induction l as [|y l IH]; intros x Hn Hp; cbn [chain].
  - by rewrite Hn by (by left).
  - intros (H1 & H2 & H3). rewrite Hn by (by left). rewrite Hp by (by left). split; [done|]. split; [done|].
    apply IH; [|intros p Hin; apply Hp; by right|done]. intros p Hin. apply Hn. by right.
Qed.

Definition last_of (x : slab_ptr) (l : list slab_ptr) : slab_ptr := List.last l x.

Lemma last_of_cons x y l : last_of x (y :: l) = last_of y l.
Proof. unfold last_of. revert y. induction l as [|z l IH]; intros y; [done|]. cbn [List.last]. destruct l; [done|]. apply (IH y). Qed.

Lemma last_of_in x l : last_of x l ∈ x :: l.
Proof.
  revert x. induction l as [|y l IH]; intros x; [by left|]. rewrite last_of_cons. right. apply IH.
Qed.

Lemma chain_app m t x l1 y l2 e :
  chain m t x (l1 ++ y :: l2) e <-> chain m t x l1 y /\ prev (pg m y) = (Some (last_of x l1), t) /\ chain m t y l2 e.
Proof.
  revert x. induction l1 as [|z l1 IH]; intros x; cbn [app chain]; [tauto|]. rewrite IH, last_of_cons. tauto.
Qed.

(** The end of a chain is moved. *)
Lemma chain_redirect m m' t x l e e' : NoDup (x :: l) -> next (pg m' (last_of x l)) = Some e' ->
  (forall p, p ∈ x :: l -> p <> last_of x l -> next (pg m' p) = next (pg m p)) ->
  (forall p, p ∈ l -> prev (pg m' p) = prev (pg m p)) -> chain m t x l e -> chain m' t x l e'.
Proof.
  revert x. induction l as [|y l IH]; intros x ND Hl Hn Hp; cbn [chain]; [done|]. intros (H1 & H2 & H3).
  apply NoDup_cons in ND as [Hx ND]. rewrite last_of_cons in *.
  assert (Hxl : x <> last_of y l) by (intros ->; apply Hx, last_of_in).
  rewrite Hn by (by left || done). rewrite Hp by (by left). split; [done|]. split; [done|].
  apply IH; [done|done| |intros p Hin; apply Hp; by right|done]. intros p Hin Hne. apply Hn; [by right|done].
Qed.

Section Splice.
Context (m m' : mem) (t : Z) (x : slab_ptr) (l1 : list slab_ptr) (y : slab_ptr) (l2 : list slab_ptr) (e : slab_ptr).
Context (ND : NoDup (x :: l1 ++ y :: l2)) (C : chain m t x (l1 ++ y :: l2) e).

Lemma splice_facts : NoDup (x :: l1) /\ NoDup (y :: l2) /\ (forall p, p ∈ x :: l1 -> p ∉ y :: l2).
Proof.
  change (x :: l1 ++ y :: l2) with ((x :: l1) ++ y :: l2) in ND. apply NoDup_app in ND as (H1 & H2 & H3). split_and!; try done.
Qed.

(** The node [y] leaves the chain. *)
Lemma chain_unlink : next (pg m' (last_of x l1)) = Some (hd e l2) -> (l2 <> [] -> prev (pg m' (hd e l2)) = (Some (last_of x l1), t)) ->
  (forall p, p ∈ x :: l1 ++ l2 -> p <> last_of x l1 -> next (pg m' p) = next (pg m p)) ->
  (forall p, p ∈ l1 ++ l2 -> p <> hd e l2 -> prev (pg m' p) = prev (pg m p)) -> e ∉ l1 ->
  chain m' t x (l1 ++ l2) e.
Proof.
  destruct splice_facts as (N1 & N2 & Hd). intros Hl Hf Hn Hp He. apply chain_app in C as (C1 & Cy & C2).
  assert (C1' : chain m' t x l1 (hd e l2)).
  { apply (chain_redirect m m' t x l1 y); [done|done| | |done].
    - intros p Hin. apply Hn. set_solver.
    - intros p Hin. apply Hp; [set_solver|]. intros ->. destruct l2 as [|z l2']; [by cbn in Hin|]. apply (Hd z); [by right|right; by left]. }
  destruct l2 as [|z l2']; [by rewrite app_nil_r|]. apply chain_app. split; [done|]. split; [by apply Hf|].
  destruct C2 as (_ & _ & C2). apply NoDup_cons in N2 as [Hy N2]. apply NoDup_cons in N2 as [Hz N2].
  apply (chain_ext m); [| |done].
  - intros p Hin. apply Hn; [set_solver|]. intros ->. apply (Hd (last_of x l1)); [apply last_of_in|by right].
  - intros p Hin. apply Hp; [set_solver|]. cbn. intros ->. done.
Qed.

(** The node [y'] comes into its place. *)
Lemma chain_replace y' : y' ∉ x :: l1 ++ l2 -> next (pg m' (last_of x l1)) = Some y' -> prev (pg m' y') = (Some (last_of x l1), t) ->
  next (pg m' y') = Some (hd e l2) -> (l2 <> [] -> prev (pg m' (hd e l2)) = (Some y', t)) ->
  (forall p, p ∈ x :: l1 ++ l2 -> p <> last_of x l1 -> next (pg m' p) = next (pg m p)) ->
  (forall p, p ∈ l1 ++ l2 -> p <> hd e l2 -> prev (pg m' p) = prev (pg m p)) -> e ∉ l1 ->
  chain m' t x (l1 ++ y' :: l2) e.
Proof.
  destruct splice_facts as (N1 & N2 & Hd). intros Hy' Hl Hpv Hny Hf Hn Hp He. apply chain_app in C as (C1 & Cy & C2).
  apply chain_app. split; [|split; [done|]].
  - apply (chain_redirect m m' t x l1 y); [done|done| | |done].
    + intros p Hin. apply Hn. set_solver.
    + intros p Hin. apply Hp; [set_solver|]. intros ->. destruct l2 as [|z l2']; [by cbn in Hin|]. apply (Hd z); [by right|right; by left].
  - destruct l2 as [|z l2']; [done|]. cbn [chain hd] in *. split; [done|]. split; [by apply Hf|].
    destruct C2 as (_ & _ & C2). apply NoDup_cons in N2 as [Hy N2]. apply NoDup_cons in N2 as [Hz N2].
    apply (chain_ext m); [| |done].
    + intros p Hin. apply Hn; [set_solver|]. intros ->. apply (Hd (last_of x l1)); [apply last_of_in|by right].
    + intros p Hin. apply Hp; [set_solver|]. intros ->. done.
Qed.

End Splice.

(** A node comes to the front. *)
Lemma chain_push m m' t x y l e : y ∉ x :: l -> x ∉ l -> NoDup l -> chain m t x l e ->
  next (pg m' x) = Some y -> prev (pg m' y) = (Some x, t) -> next (pg m' y) = Some (hd e l) -> (l <> [] -> prev (pg m' (hd e l)) = (Some y, t)) ->
  (forall p, p ∈ l -> next (pg m' p) = next (pg m p)) -> (forall p, p ∈ l -> p <> hd e l -> prev (pg m' p) = prev (pg m p)) ->
  chain m' t x (y :: l) e.
Proof.
  intros Hy Hx ND C H1 H2 H3 H4 H5 H6. cbn [chain]. split; [done|]. split; [done|]. destruct l as [|z l]; [done|]. cbn [chain hd] in *.
  destruct C as (_ & _ & C). apply NoDup_cons in ND as [Hz ND]. split; [done|]. split; [by apply H4|].
  apply (chain_ext m); [| |done].
  - intros p Hin. by apply H5.
  - intros p Hin. apply H6; [by right|]. by intros ->.
Qed.

(** * The rings of a pool *)

Definition heads : list slab_ptr := PFree :: map PSlot (seq 0 slots_n).

Definition ring_type (h : slab_ptr) : Z :=
  match h with
  | PSlot j => if (j <? 3)%nat then NGX_SLAB_SMALL else if (j =? 3)%nat then NGX_SLAB_EXACT else NGX_SLAB_BIG
  | _ => NGX_SLAB_PAGE
  end.

Record Rings (m : mem) (R : slab_ptr -> list nat) : Prop := {
  rg_chain : forall h, h ∈ heads -> chain m (ring_type h) h (PPage <$> R h) h;
  rg_nodup : forall h, h ∈ heads -> NoDup (R h);
  rg_apart : forall h h' i, h ∈ heads -> h' ∈ heads -> i ∈ R h -> i ∈ R h' -> h = h' }.

Definition put (h : slab_ptr) (l : list nat) (R : slab_ptr -> list nat) : slab_ptr -> list nat := fun h' => if decide (h' = h) then l else R h'.

Lemma put_eq h l R : put h l R h = l.
Proof. unfold put. by rewrite decide_True. Qed.

Lemma put_ne h l R h' : h' <> h -> put h l R h' = R h'.
Proof. intros Hne. unfold put. by rewrite decide_False. Qed.

Lemma head_not_page h i : h ∈ heads -> h <> PPage i.
Proof. unfold heads. rewrite elem_of_cons, list_elem_of_In, in_map_iff. by intros [->|(j & <- & _)]. Qed.

Lemma page_in i (l : list nat) : PPage i ∈ PPage <$> l <-> i ∈ l.
Proof. rewrite list_elem_of_fmap. split; [by intros (j & [= ->] & Hj)|]. intros Hi. by exists i. Qed.

Lemma head_notin h (l : list nat) : h ∈ heads -> h ∉ PPage <$> l.
Proof. intros Hh Hin. apply list_elem_of_fmap in Hin as (i & -> & _). by apply (head_not_page _ i) in Hh. Qed.

Lemma ring_NoDup m R h : Rings m R -> h ∈ heads -> NoDup (h :: (PPage <$> R h)).
Proof.
  intros HR Hh. apply NoDup_cons. split; [by apply head_notin|]. apply NoDup_fmap_2; [by intros ? ? [=]|]. by apply (rg_nodup _ _ HR).
Qed.

(** What a change of the ring of [h] may touch. *)
Definition ring_nodes (R : slab_ptr -> list nat) (h : slab_ptr) : list slab_ptr := h :: (PPage <$> R h).

Lemma rings_disjoint m R h h' p : Rings m R -> h ∈ heads -> h' ∈ heads -> h' <> h -> p ∈ ring_nodes R h -> p ∈ ring_nodes R h' -> False.
Proof.
  intros HR Hh Hh' Hne. unfold ring_nodes. intros [->|Hp]%elem_of_cons [->|Hp']%elem_of_cons; [done|by apply head_notin in Hp'|by apply head_notin in Hp|].
  apply list_elem_of_fmap in Hp as (i & -> & Hi). apply page_in in Hp'. apply Hne. by apply (rg_apart _ _ HR h' h i).
Qed.

(** The other rings are not touched by a change of the ring of [h] and of pages
    in no ring. *)
Lemma rings_other m m' R h h' : Rings m R -> h ∈ heads -> h' ∈ heads -> h' <> h ->
  (forall p, p ∈ ring_nodes R h' -> next (pg m' p) = next (pg m p)) ->
  (forall i, i ∈ R h' -> prev (pg m' (PPage i)) = prev (pg m (PPage i))) ->
  chain m' (ring_type h') h' (PPage <$> R h') h'.
Proof.
  intros HR Hh Hh' Hne Hn Hp. apply (chain_ext m); [done| |by apply (rg_chain _ _ HR)].
  intros p Hin. apply list_elem_of_fmap in Hin as (i & -> & Hi). by apply Hp.
Qed.

(** The ring of [h] becomes [l]. *)
Lemma rings_put m m' R h l : Rings m R -> h ∈ heads -> NoDup l ->
  (forall i, i ∈ l -> i ∈ R h \/ forall h', h' ∈ heads -> i ∉ R h') ->
  chain m' (ring_type h) h (PPage <$> l) h ->
  (forall h' p, h' ∈ heads -> h' <> h -> p ∈ ring_nodes R h' -> next (pg m' p) = next (pg m p)) ->
  (forall h' i, h' ∈ heads -> h' <> h -> i ∈ R h' -> prev (pg m' (PPage i)) = prev (pg m (PPage i))) ->
  Rings m' (put h l R).
Proof.
  intros HR Hh ND Hl C Hn Hp. assert (Hnew : forall h' i, h' ∈ heads -> h' <> h -> i ∈ l -> i ∉ R h').
  { intros h' i Hh' Hne Hi Hi'. destruct (Hl i Hi) as [Hi''|Hno]; [|by apply (Hno h')]. apply Hne. by apply (rg_apart _ _ HR h' h i). }
  split.
  - intros h' Hh'. destruct (decide (h' = h)) as [->|Hne]; [by rewrite put_eq|]. rewrite put_ne by done.
    apply (rings_other m m' R h h' HR Hh Hh' Hne); [intros p; by apply Hn|intros i; by apply Hp].
  - intros h' Hh'. destruct (decide (h' = h)) as [->|Hne]; [by rewrite put_eq|]. rewrite put_ne by done. by apply (rg_nodup _ _ HR).
  - intros h1 h2 i H1 H2. destruct (decide (h1 = h)) as [->|N1], (decide (h2 = h)) as [->|N2]; rewrite ?put_eq, ?put_ne by done; try done.
    + intros Hi Hi2. by destruct (Hnew h2 i H2 N2 Hi).
    + intros Hi Hi2. by destruct (Hnew h1 i H1 N1 Hi2).
    + by apply (rg_apart _ _ HR).
Qed.

(** ** A page leaves its ring *)

Definition without (i : nat) (l : list nat) : list nat := filter (fun j => j <> i) l.

Lemma without_split i l1 l2 : NoDup (l1 ++ i :: l2) -> without i (l1 ++ i :: l2) = l1 ++ l2.
Proof.
  intros ND. apply NoDup_app in ND as (N1 & Hd & N2). apply NoDup_cons in N2 as [Hi N2]. unfold without.
  rewrite filter_app, filter_cons_False by tauto.
  assert (Hall : forall l : list nat, i ∉ l -> filter (fun j => j <> i) l = l).
  { induction l as [|j l IH]; intros Hl; [done|]. apply not_elem_of_cons in Hl as [Hj Hl]. rewrite filter_cons_True by congruence. by rewrite IH. }
  rewrite !Hall; [done|done|]. intros Hin. apply (Hd i Hin). by left.
Qed.

Lemma elem_without i j l : j ∈ without i l <-> j ∈ l /\ j <> i.
Proof. unfold without. rewrite list_elem_of_filter. tauto. Qed.

(** A pool but for its nodes. *)
Definition same_pool (st st' : ngx_slab_pool_t) : Prop :=
  bitmaps st' = bitmaps st /\ start st' = start st /\ end_ st' = end_ st /\ dom (nodes st') = dom (nodes st).

Definition nodes_there (st : ngx_slab_pool_t) (R : slab_ptr -> list nat) : Prop :=
  forall h, h ∈ heads -> forall p, p ∈ ring_nodes R h -> p ∈ dom (nodes st).

Lemma unlink_ring st R h i : Rings (nodes st) R -> nodes_there st R -> h ∈ heads -> i ∈ R h ->
  exists st', unlink (pg (nodes st) (PPage i)) st = Ret st' /\ same_pool st st' /\ Rings (nodes st') (put h (without i (R h)) R) /\
    (forall p, slab (pg (nodes st') p) = slab (pg (nodes st) p)) /\
    (forall j, j ∉ without i (R h) -> pg (nodes st') (PPage j) = pg (nodes st) (PPage j)).
Proof.
  intros HR Hd Hh Hi. pose proof (ring_NoDup _ _ h HR Hh) as ND. pose proof (rg_chain _ _ HR h Hh) as C.
  pose proof (rg_nodup _ _ HR h Hh) as NDl. destruct (list_elem_of_split _ _ Hi) as (l1 & l2 & El). rewrite El in *.
  rewrite fmap_app in *. cbn [fmap list_fmap] in *. set (L1 := PPage <$> l1) in *. set (L2 := PPage <$> l2) in *.
  pose proof C as C0. apply chain_app in C0 as (C1 & Cy & C2). pose proof (chain_first _ _ _ _ _ C2) as Hnext.
  set (pr := last_of h L1) in *. set (nxt := hd h L2) in *. set (m := nodes st) in *.
  assert (Hprin : pr ∈ h :: L1) by apply last_of_in. assert (Hnxtin : nxt ∈ h :: L2) by (unfold nxt; destruct L2; [by left|right; by left]).
  assert (Hin : forall p, p ∈ h :: L1 ++ PPage i :: L2 -> p ∈ dom m).
  { intros p Hp. apply (Hd h Hh). unfold ring_nodes. rewrite El, fmap_app. exact Hp. }
  unfold unlink. rewrite Cy, Hnext. cbn [fst]. rewrite wr_ok by (apply Hin; set_solver). cbn [outcome_bind].
  rewrite wr_ok by (cbn [nodes set_nodes]; rewrite dom_insert_L; apply elem_of_union_r, Hin; set_solver).
  eexists. split; [done|]. cbn [nodes set_nodes bitmaps start end_]. fold m. set (m' := <[nxt := _]> _).
  assert (Hy : (PPage i ∉ h :: L1) /\ (PPage i ∉ L2)).
  { change (h :: L1 ++ PPage i :: L2) with ((h :: L1) ++ PPage i :: L2) in ND. apply NoDup_app in ND as (_ & Hdis & N2).
    apply NoDup_cons in N2 as [N2 _]. split; [|done]. intros Hp. apply (Hdis _ Hp). by left. }
  assert (Hh2 : forall j, h <> PPage j) by (intros j; by apply head_not_page).
  assert (Hnx : forall p, next (pg m' p) = if decide (pr = p) then Some nxt else next (pg m p)) by (unfold m'; fields).
  assert (Hpv : forall p, prev (pg m' p) = if decide (nxt = p) then (Some pr, ring_type h) else prev (pg m p)) by (unfold m'; fields).
  assert (Hsl : forall p, slab (pg m' p) = slab (pg m p)) by (unfold m'; fields).
  assert (Hprd : pr ∈ dom m) by (apply Hin; set_solver). assert (Hnxtd : nxt ∈ dom m) by (apply Hin; set_solver).
  assert (Hrpr : pr ∈ ring_nodes R h) by (unfold ring_nodes; rewrite El, fmap_app; cbn [fmap list_fmap]; fold L1 L2; set_solver).
  assert (Hrnx : nxt ∈ ring_nodes R h) by (unfold ring_nodes; rewrite El, fmap_app; cbn [fmap list_fmap]; fold L1 L2; set_solver).
  split; [|split; [|split; [done|]]].
  - unfold same_pool. cbn [nodes set_nodes bitmaps start end_]. split_and!; [done..|]. unfold m'. rewrite !dom_insert_L. set_solver.
  - rewrite without_split by done. apply (rings_put m m' R h); [done|done| | | | |].
    + apply NoDup_app in NDl as (N1 & N2 & N3). apply NoDup_cons in N3 as [_ N3]. apply NoDup_app. split_and!; [done| |done].
      intros j Hj1 Hj2. apply (N2 j Hj1). by right.
    + intros j Hj. left. rewrite El. set_solver.
    + rewrite fmap_app. fold L1 L2. apply (chain_unlink m m' (ring_type h) h L1 (PPage i) L2 h ND C).
      * by rewrite Hnx, decide_True.
      * intros _. by rewrite Hpv, decide_True.
      * intros p _ Hne. by rewrite Hnx, decide_False.
      * intros p _ Hne. by rewrite Hpv, decide_False.
      * unfold L1. by apply head_notin.
    + intros h' p Hh' Hne Hp. rewrite Hnx, decide_False; [done|]. intros <-. by apply (rings_disjoint m R h h' pr).
    + intros h' j Hh' Hne Hj. rewrite Hpv, decide_False; [done|]. intros E. apply (rings_disjoint m R h h' nxt); try done.
      rewrite E. right. by apply page_in.
  - intros j Hj. rewrite without_split in Hj by done.
    assert (Hj1 : PPage j ∉ L1 ++ L2) by (unfold L1, L2; rewrite <- fmap_app, page_in; done).
    apply page_eq; [done| |].
    + rewrite Hnx, decide_False; [done|]. intros E'. rewrite E' in Hprin. apply elem_of_cons in Hprin as [E|E]; [by apply (Hh2 j)|set_solver].
    + rewrite Hpv, decide_False; [done|]. intros E'. rewrite E' in Hnxtin. apply elem_of_cons in Hnxtin as [E|E]; [by apply (Hh2 j)|set_solver].
Qed.

(** ** A page comes to the front of a ring *)

Definition first_of (R : slab_ptr -> list nat) (h : slab_ptr) : slab_ptr := hd h (PPage <$> R h).

Lemma first_in R h : first_of R h ∈ ring_nodes R h.
Proof. unfold first_of, ring_nodes. destruct (R h); cbn; [by left|right; by left]. Qed.

Lemma rings_push m m' R h i : Rings m R -> h ∈ heads -> (forall h', h' ∈ heads -> i ∉ R h') ->
  (forall p, next (pg m' p) = if decide (PPage i = p) then next (pg m h) else if decide (h = p) then Some (PPage i) else next (pg m p)) ->
  (forall j, prev (pg m' (PPage j)) = if decide (i = j) then (Some h, ring_type h)
     else if decide (first_of R h = PPage j) then (Some (PPage i), ring_type h) else prev (pg m (PPage j))) ->
  Rings m' (put h (i :: R h) R).
Proof.
  intros HR Hh Hi Hnx Hpv. pose proof (ring_NoDup _ _ h HR Hh) as ND. pose proof (rg_chain _ _ HR h Hh) as C.
  pose proof (head_not_page h i Hh) as Hhi. apply NoDup_cons in ND as [Hhl ND].
  assert (Hil : PPage i ∉ PPage <$> R h) by (rewrite page_in; by apply Hi).
  apply (rings_put m m' R h); [done|done| | | | |].
  - apply NoDup_cons. split; [by apply Hi|by apply (rg_nodup _ _ HR)].
  - intros j [->|Hj]%elem_of_cons; [by right|by left].
  - cbn [fmap list_fmap]. apply (chain_push m); [|done|done|done| | | | | |].
    + apply not_elem_of_cons. split; [congruence|done].
    + rewrite Hnx, decide_False, decide_True by done. done.
    + by rewrite Hpv, decide_True.
    + rewrite Hnx, decide_True by done. by apply chain_first in C.
    + fold (first_of R h). intros Hne. unfold first_of. destruct (R h) as [|z l] eqn:E; [done|]. cbn [fmap list_fmap hd].
      rewrite Hpv, decide_False, decide_True; [done| |]; [by unfold first_of; rewrite E|]. intros ->. apply (Hi h Hh). rewrite E. by left.
    + intros p Hp. rewrite Hnx, !decide_False; [done| |]; intros E; by rewrite <- E in Hp.
    + fold (first_of R h). intros p Hp Hne. apply list_elem_of_fmap in Hp as (j & -> & Hj). rewrite Hpv, !decide_False; [done|done|].
      intros ->. by apply (Hi h Hh).
  - intros h' p Hh' Hne Hp. rewrite Hnx, !decide_False; [done| |].
    + intros E. apply (rings_disjoint m R h h' p); try done. rewrite <- E. by left.
    + intros E0. rewrite <- E0 in Hp. apply elem_of_cons in Hp as [E|E]; [by apply (head_not_page h' i Hh')|]. apply page_in in E. by apply (Hi h').
  - intros h' j Hh' Hne Hj. rewrite Hpv, !decide_False; [done| |].
    + intros E. apply (rings_disjoint m R h h' (first_of R h)); try done; [apply first_in|]. rewrite E. right. by apply page_in.
    + intros ->. by apply (Hi h').
Qed.

Definition pushed (st st' : ngx_slab_pool_t) (R : slab_ptr -> list nat) (h : slab_ptr) (i : nat) : Prop :=
  same_pool st st' /\ Rings (nodes st') (put h (i :: R h) R) /\
  (forall j, j <> i -> slab (pg (nodes st') (PPage j)) = slab (pg (nodes st) (PPage j))) /\
  (forall j, j <> i -> j ∉ R h -> pg (nodes st') (PPage j) = pg (nodes st) (PPage j)).

Lemma pushed_intro st m' R h i : Rings (nodes st) R -> h ∈ heads -> (forall h', h' ∈ heads -> i ∉ R h') -> dom m' = dom (nodes st) ->
  (forall p, next (pg m' p) = if decide (PPage i = p) then next (pg (nodes st) h) else if decide (h = p) then Some (PPage i) else next (pg (nodes st) p)) ->
  (forall j, prev (pg m' (PPage j)) = if decide (i = j) then (Some h, ring_type h)
     else if decide (first_of R h = PPage j) then (Some (PPage i), ring_type h) else prev (pg (nodes st) (PPage j))) ->
  (forall j, j <> i -> slab (pg m' (PPage j)) = slab (pg (nodes st) (PPage j))) ->
  pushed st (set_nodes m' st) R h i.
Proof.
  intros HR Hh Hi Hd Hnx Hpv Hsl. split; [done|]. split; [by apply (rings_push (nodes st))|]. split; [done|].
  intros j Hj Hjr. cbn [nodes set_nodes]. apply page_eq; [by apply Hsl| |].
  - rewrite Hnx, !decide_False; [done| |congruence]. intros ->. by apply (head_not_page _ j) in Hh.
  - rewrite Hpv, !decide_False; [done| |congruence]. intros E. pose proof (first_in R h) as Hin. rewrite E in Hin.
    apply elem_of_cons in Hin as [<-|Hin]; [by apply (head_not_page _ j) in Hh|]. by apply page_in in Hin.
Qed.

Lemma slot_head j : (j < slots_n)%nat -> PSlot j ∈ heads.
Proof. intros Hj. right. apply list_elem_of_In, in_map_iff. exists j. split; [done|]. apply in_seq. lia. Qed.

Lemma ring_first m R h : Rings m R -> h ∈ heads -> next (pg m h) = Some (first_of R h).
Proof. intros HR Hh. by apply (chain_first _ _ _ _ _ (rg_chain _ _ HR h Hh)). Qed.

Section Push.
Context (st : ngx_slab_pool_t) (R : slab_ptr -> list nat) (i : nat).
Context (HR : Rings (nodes st) R) (Hd : nodes_there st R) (Hi : forall h, h ∈ heads -> i ∉ R h) (Hpi : PPage i ∈ dom (nodes st)).

Lemma relist_ok j : (j < slots_n)%nat -> exists st', relist i j (ring_type (PSlot j)) st = Ret st' /\
  pushed st st' R (PSlot j) i /\ slab (pg (nodes st') (PPage i)) = slab (pg (nodes st) (PPage i)).
Proof.
  intros Hj. pose proof (slot_head j Hj) as Hh. set (h := PSlot j) in *. pose proof (ring_first _ _ h HR Hh) as Hfirst.
  assert (Hhd : h ∈ dom (nodes st)) by (apply (Hd h Hh); by left).
  assert (Hfd : first_of R h ∈ dom (nodes st)) by (apply (Hd h Hh), first_in).
  assert (Hfi : first_of R h <> PPage i).
  { intros E. pose proof (first_in R h) as Hin. rewrite E in Hin. apply elem_of_cons in Hin as [Hin|Hin]; [done|]. apply page_in in Hin. by apply (Hi h). }
  unfold relist. fold h. rewrite rd_ok by done. cbn [outcome_bind]. rewrite Hfirst. rewrite wr_ok by done. cbn [outcome_bind].
  rewrite wr_ok by (cbn [nodes set_nodes]; set_solver). cbn [outcome_bind]. rewrite wr_ok by (cbn [nodes set_nodes]; set_solver). cbn [outcome_bind].
  rewrite wr_ok by (cbn [nodes set_nodes]; set_solver). cbn [nodes set_nodes].
  eexists. split; [done|]. split.
  - eapply (pushed_intro st); [done|done|done|cbn [nodes set_nodes]; set_solver| | |]; cbn [nodes set_nodes].
    + rewrite Hfirst. fields.
    + fields.
    + fields.
  - cbn [nodes set_nodes]. fields.
Qed.

(** The ring of the slot is empty. *)
Lemma link_ok j s : (j < slots_n)%nat -> R (PSlot j) = [] -> exists st', link i j s (ring_type (PSlot j)) st = Ret st' /\
  pushed st st' R (PSlot j) i /\ slab (pg (nodes st') (PPage i)) = s.
Proof.
  intros Hj Hempty. pose proof (slot_head j Hj) as Hh. set (h := PSlot j) in *. pose proof (ring_first _ _ h HR Hh) as Hfirst.
  assert (Hhd : h ∈ dom (nodes st)) by (apply (Hd h Hh); by left).
  assert (Hf : first_of R h = h) by (unfold first_of; by rewrite Hempty). rewrite Hf in Hfirst.
  unfold link. fold h. rewrite wr_ok by done. cbn [outcome_bind]. rewrite wr_ok by (cbn [nodes set_nodes]; set_solver). cbn [nodes set_nodes].
  eexists. split; [done|]. split.
  - eapply (pushed_intro st); [done|done|done|cbn [nodes set_nodes]; set_solver| | |]; cbn [nodes set_nodes].
    + rewrite Hfirst. fields.
    + rewrite Hf. fields.
    + fields.
  - cbn [nodes set_nodes]. fields.
Qed.

Lemma enlist_free_ok : exists st', enlist_free i st = Ret st' /\
  pushed st st' R PFree i /\ slab (pg (nodes st') (PPage i)) = slab (pg (nodes st) (PPage i)).
Proof.
  assert (Hh : PFree ∈ heads) by (by left). set (h := PFree) in *. pose proof (ring_first _ _ h HR Hh) as Hfirst.
  assert (Hhd : h ∈ dom (nodes st)) by (apply (Hd h Hh); by left).
  assert (Hfd : first_of R h ∈ dom (nodes st)) by (apply (Hd h Hh), first_in).
  assert (Hfi : first_of R h <> PPage i).
  { intros E. pose proof (first_in R h) as Hin. rewrite E in Hin. apply elem_of_cons in Hin as [Hin|Hin]; [done|]. apply page_in in Hin. by apply (Hi h). }
  unfold enlist_free. fold h. rewrite wr_ok by done. cbn [outcome_bind]. rewrite rd_ok by (cbn [nodes set_nodes]; set_solver). cbn [outcome_bind nodes set_nodes].
  rewrite pg_insert, decide_False by done. rewrite Hfirst. rewrite wr_ok by (cbn [nodes set_nodes]; set_solver). cbn [outcome_bind].
  rewrite wr_ok by (cbn [nodes set_nodes]; set_solver). cbn [outcome_bind]. rewrite wr_ok by (cbn [nodes set_nodes]; set_solver). cbn [nodes set_nodes].
  eexists. split; [done|]. split.
  - eapply (pushed_intro st); [done|done|done|cbn [nodes set_nodes]; set_solver| | |]; cbn [nodes set_nodes].
    + rewrite Hfirst. fields.
    + fields.
    + fields.
  - cbn [nodes set_nodes]. fields.
Qed.

End Push.

(** ** Changes outside the rings *)

Lemma rings_same m m' R : Rings m R -> (forall h p, h ∈ heads -> p ∈ ring_nodes R h -> next (pg m' p) = next (pg m p)) ->
  (forall h i, h ∈ heads -> i ∈ R h -> prev (pg m' (PPage i)) = prev (pg m (PPage i))) -> Rings m' R.
Proof.
  intros HR Hn Hp. split; [|apply HR|apply HR]. intros h Hh. apply (chain_ext m); [intros p; by apply Hn| |by apply HR].
  intros p Hin. apply list_elem_of_fmap in Hin as (i & -> & Hi). by apply (Hp h).
Qed.

(** The descriptors from [i] to [i + n] are filled. *)
Lemma fill_pages_ok g n i st : (forall k, (i <= k < i + n)%nat -> PPage k ∈ dom (nodes st)) ->
  exists st', fill_pages g n i st = Ret st' /\ same_pool st st' /\
    (forall p, pg (nodes st') p = match p with PPage k => if decide ((i <= k < i + n)%nat) then g else pg (nodes st) p | _ => pg (nodes st) p end).
Proof.
  revert i st. induction n as [|n IH]; intros i st Hin; cbn [fill_pages].
  - exists st. split; [done|]. split; [done|]. intros [k| |]; try done. rewrite decide_False by lia. done.
  - assert (Hi : PPage i ∈ dom (nodes st)) by (apply Hin; lia). rewrite wr_ok by done. cbn [outcome_bind].
    destruct (IH (S i) (set_nodes (<[PPage i := g]> (nodes st)) st)) as (st' & E & (S1 & S2 & S3 & S4) & Hg).
    { intros k Hk. cbn [nodes set_nodes]. rewrite dom_insert_L. apply elem_of_union_r, Hin. lia. }
    exists st'. split; [done|]. split.
    + split_and!; try done. rewrite S4. cbn [nodes set_nodes]. set_solver.
    + intros p. rewrite Hg. destruct p as [k| |]; cbn [nodes set_nodes]; rewrite ?pg_insert; [|done|done].
      repeat case_decide; simplify_eq; try done; lia || (exfalso; assert (i <> k) by congruence; lia).
Qed.

(** ** A page takes the place of another *)

Section Split.
Context (st : ngx_slab_pool_t) (R : slab_ptr -> list nat) (i i' : nat) (l1 l2 : list nat) (s : Z).
Context (HR : Rings (nodes st) R) (Hd : nodes_there st R) (El : R PFree = l1 ++ i :: l2).
Context (Hi' : forall h, h ∈ heads -> i' ∉ R h) (Hpi : PPage i' ∈ dom (nodes st)).

Definition split_run (st : ngx_slab_pool_t) : outcome ngx_slab_pool_t :=
  let g := pg (nodes st) (PPage i) in
  let! st := wr (Some (PPage i')) (fun _ => MkPage s (next g) (prev g)) st in
  let! st := wr (prev g).1 (set_next (Some (PPage i'))) st in
  wr (next g) (set_prev (Some (PPage i'), 0)) st.

Lemma split_run_ok : exists st', split_run st = Ret st' /\ same_pool st st' /\ Rings (nodes st') (put PFree (l1 ++ i' :: l2) R) /\
    slab (pg (nodes st') (PPage i')) = s /\
    (forall j, j <> i' -> slab (pg (nodes st') (PPage j)) = slab (pg (nodes st) (PPage j))) /\
    (forall j, j <> i' -> j ∉ l1 ++ l2 -> pg (nodes st') (PPage j) = pg (nodes st) (PPage j)).
Proof.
  assert (Hh : PFree ∈ heads) by (by left). pose proof (ring_NoDup _ _ PFree HR Hh) as ND. pose proof (rg_chain _ _ HR PFree Hh) as C.
  pose proof (rg_nodup _ _ HR PFree Hh) as NDl. pose proof (Hi' PFree Hh) as Hni. rewrite El in ND, C, NDl, Hni.
  rewrite fmap_app in ND, C. cbn [fmap list_fmap] in ND, C. set (L1 := PPage <$> l1) in *. set (L2 := PPage <$> l2) in *. 
  pose proof C as C0. apply chain_app in C0 as (C1 & Cy & C2). pose proof (chain_first _ _ _ _ _ C2) as Hnext.
  set (pr := last_of PFree L1) in *. set (nxt := hd PFree L2) in *. set (m := nodes st) in *.
  assert (Hprin : pr ∈ PFree :: L1) by apply last_of_in. assert (Hnxtin : nxt ∈ PFree :: L2) by (unfold nxt; destruct L2; [by left|right; by left]).
  assert (HinR : forall p, p ∈ PFree :: L1 ++ PPage i :: L2 -> p ∈ ring_nodes R PFree).
  { intros p Hp. unfold ring_nodes. rewrite El, fmap_app. exact Hp. }
  assert (Hin : forall p, p ∈ PFree :: L1 ++ PPage i :: L2 -> p ∈ dom m) by (intros p Hp; by apply (Hd PFree Hh), HinR).
  assert (HL : PPage i' ∉ PFree :: L1 ++ PPage i :: L2).
  { intros [Hp|Hp]%elem_of_cons; [done|]. apply Hni. rewrite <- page_in, fmap_app. exact Hp. }
  assert (Hpr' : PPage i' <> pr) by (intros E'; apply HL; rewrite E'; set_solver).
  assert (Hnx' : PPage i' <> nxt) by (intros E'; apply HL; rewrite E'; set_solver).
  assert (Hprd : pr ∈ dom m) by (apply Hin; set_solver). assert (Hnxtd : nxt ∈ dom m) by (apply Hin; set_solver).
  assert (Hrpr : pr ∈ ring_nodes R PFree) by (apply HinR; set_solver).
  assert (Hrnx : nxt ∈ ring_nodes R PFree) by (apply HinR; set_solver).
  unfold split_run. fold m. rewrite Cy, Hnext. cbn [fst]. rewrite wr_ok by done. cbn [outcome_bind].
  rewrite wr_ok by (cbn [nodes set_nodes]; rewrite dom_insert_L; set_solver). cbn [outcome_bind].
  rewrite wr_ok by (cbn [nodes set_nodes]; rewrite !dom_insert_L; set_solver). cbn [nodes set_nodes]. fold m.
  eexists. split; [done|]. cbn [nodes set_nodes bitmaps start end_]. set (m' := <[nxt := _]> _).
  assert (Hnx : forall p, next (pg m' p) = if decide (PPage i' = p) then Some nxt else if decide (pr = p) then Some (PPage i') else next (pg m p)) by (unfold m'; fields).
  assert (Hpv : forall p, prev (pg m' p) = if decide (PPage i' = p) then (Some pr, 0) else if decide (nxt = p) then (Some (PPage i'), 0) else prev (pg m p))
    by (unfold m'; fields).
  assert (Hsl : forall p, slab (pg m' p) = if decide (PPage i' = p) then s else slab (pg m p)) by (unfold m'; fields).
  split; [|split; [|split; [|split]]].
  - unfold same_pool. cbn [nodes set_nodes bitmaps start end_]. split_and!; [done..|]. unfold m'. rewrite !dom_insert_L. set_solver.
  - apply (rings_put m m' R PFree); [done|done| | | | |].
    + apply NoDup_app in NDl as (N1 & N2 & N3). apply NoDup_cons in N3 as [N4 N3]. apply NoDup_app. split_and!; [done| |].
      * intros j Hj1 [->|Hj2]%elem_of_cons; [apply Hni; set_solver|]. apply (N2 j Hj1). by right.
      * apply NoDup_cons. split; [set_solver|done].
    + intros j Hj. rewrite El. destruct (decide (j = i')) as [->|Hne]; [by right|]. left. set_solver.
    + rewrite fmap_app. cbn [fmap list_fmap]. fold L1 L2. apply (chain_replace m m' _ PFree L1 (PPage i) L2 PFree ND C).
      * set_solver.
      * rewrite Hnx, decide_False, decide_True by done. done.
      * by rewrite Hpv, decide_True.
      * by rewrite Hnx, decide_True.
      * intros _. fold nxt. rewrite Hpv, decide_False, decide_True by done. done.
      * intros p Hp Hne. rewrite Hnx, !decide_False; [done| |]; [by intros ?; apply Hne|]. intros E'. apply HL. rewrite E'. set_solver.
      * intros p Hp Hne. rewrite Hpv, !decide_False; [done| |]; [by intros ?; apply Hne|]. intros E'. apply HL. rewrite E'. set_solver.
      * unfold L1. by apply head_notin.
    + intros h' p Hh' Hne Hp. rewrite Hnx, !decide_False; [done| |].
      * intros E'. apply (rings_disjoint m R PFree h' p); try done. by rewrite <- E'.
      * intros E'. rewrite <- E' in Hp. apply elem_of_cons in Hp as [E''|E'']; [by apply (head_not_page h' i' Hh')|]. apply page_in in E''. by apply (Hi' h').
    + intros h' j Hh' Hne Hj. rewrite Hpv, !decide_False; [done| |].
      * intros E'. apply (rings_disjoint m R PFree h' nxt); try done. rewrite E'. right. by apply page_in.
      * intros [= ->]. by apply (Hi' h').
  - by rewrite Hsl, decide_True.
  - intros j Hne. rewrite Hsl, decide_False by congruence. done.
  - intros j Hne Hj.
    assert (Hj1 : PPage j ∉ L1 ++ L2) by (unfold L1, L2; rewrite <- fmap_app, page_in; done).
    apply page_eq; [rewrite Hsl, decide_False by congruence; done| |].
    + rewrite Hnx, !decide_False; [done| |congruence]. intros E'. rewrite E' in Hprin. apply elem_of_cons in Hprin as [E|E]; [done|set_solver].
    + rewrite Hpv, !decide_False; [done| |congruence]. intros E'. rewrite E' in Hnxtin. apply elem_of_cons in Hnxtin as [E|E]; [done|set_solver].
Qed.

End Split.

End SlabRings.
