(* ===== verification/NgxSlabChunks.v ===== *)
(** The chunks of a page of the slab allocator: the bits of words and bitmaps
    (module [SlabBits]), and taking a chunk and giving one back (module
    [SlabChunks]). *)

From S2P Require Import Prelude NgxSlab NgxSlabRings.

#[local] Open Scope Z_scope.

Module SlabBits.

Export SlabRings.

(** * Words *)

Abbreviation word w := (0 <= w < 2 ^ 64).

Lemma ones_iff n w : 0 <= n -> 0 <= w < 2 ^ n -> w = 2 ^ n - 1 <-> forall c, 0 <= c < n -> Z.testbit w c = true.
Proof.
  intros Hn Hw. split.
  - intros -> c Hc. rewrite Z.sub_1_r, <- Z.ones_equiv. apply Z.ones_spec_low. lia.
  - intros Hall. rewrite Z.sub_1_r, <- Z.ones_equiv. apply Z.bits_inj'. intros c Hc. destruct (Z.ltb_spec c n).
    + rewrite Z.ones_spec_low by lia. apply Hall. lia.
    + rewrite Z.ones_spec_high by lia. rewrite <- (Z.mod_small w (2 ^ n)) by lia. by rewrite Z.mod_pow2_bits_high by lia.
Qed.

Lemma zero_iff n w : 0 <= n -> 0 <= w < 2 ^ n -> w = 0 <-> forall c, 0 <= c < n -> Z.testbit w c = false.
Proof.
  intros Hn Hw. split; [intros -> c _; apply Z.bits_0|]. intros Hall. apply Z.bits_inj'. intros c Hc. rewrite Z.bits_0.
  destruct (Z.ltb_spec c n); [apply Hall; lia|]. rewrite <- (Z.mod_small w (2 ^ n)) by lia. by rewrite Z.mod_pow2_bits_high by lia.
Qed.

Lemma busy_iff w : word w -> w = NGX_SLAB_BUSY <-> forall c, 0 <= c < 64 -> Z.testbit w c = true.
Proof. intros Hw. by apply (ones_iff 64). Qed.

Lemma busy_bit c : 0 <= c < 64 -> Z.testbit NGX_SLAB_BUSY c = true.
Proof. revert c. by apply busy_iff. Qed.

Lemma one_bit i c : 0 <= i -> Z.testbit (Z.shiftl 1 i) c = (c =? i).
Proof.
  intros Hi. rewrite Z.shiftl_1_l, Z.pow2_bits_eqb by done. apply Z.eqb_sym.
Qed.

Lemma set_bit_spec w i c : 0 <= i -> Z.testbit (set_bit w i) c = (c =? i) || Z.testbit w c.
Proof. intros Hi. unfold set_bit. rewrite Z.lor_spec, one_bit by done. apply orb_comm. Qed.

Lemma clear_bit_spec w i c : 0 <= i -> Z.testbit (clear_bit w i) c = negb (c =? i) && Z.testbit w c.
Proof. intros Hi. unfold clear_bit. rewrite Z.ldiff_spec, one_bit by done. apply andb_comm. Qed.

(** A number is below a power of two when its bits are. *)
Lemma below_iff n w : 0 <= n -> 0 <= w -> w < 2 ^ n <-> forall c, n <= c -> Z.testbit w c = false.
Proof.
  intros Hn Hw. split.
  - intros Hlt c Hc. rewrite <- (Z.mod_small w (2 ^ n)) by lia. by rewrite Z.mod_pow2_bits_high by lia.
  - intros Hall. assert (E : w = w mod 2 ^ n).
    { apply Z.bits_inj'. intros c Hc. destruct (Z.ltb_spec c n); [by rewrite Z.mod_pow2_bits_low by lia|].
      rewrite Z.mod_pow2_bits_high by lia. apply Hall. lia. }
    rewrite E. apply Z.mod_pos_bound. lia.
Qed.

Lemma set_bit_below n w i : 0 <= w < 2 ^ n -> 0 <= i < n -> 0 <= set_bit w i < 2 ^ n.
Proof.
  intros Hw Hi. assert (H0 : 0 <= set_bit w i) by (unfold set_bit; apply Z.lor_nonneg; split; [lia|]; apply Z.shiftl_nonneg; lia).
  split; [done|]. apply below_iff; [lia|done|]. intros c Hc. rewrite set_bit_spec by lia.
  rewrite (proj2 (Z.eqb_neq c i)) by lia. apply (below_iff n w); lia.
Qed.

Lemma clear_bit_below n w i : 0 <= w < 2 ^ n -> 0 <= i < n -> 0 <= clear_bit w i < 2 ^ n.
Proof.
  intros Hw Hi. assert (H0 : 0 <= clear_bit w i) by (unfold clear_bit; apply Z.ldiff_nonneg; lia).
  split; [done|]. apply below_iff; [lia|done|]. intros c Hc. rewrite clear_bit_spec by lia.
  rewrite (proj1 (below_iff n w ltac:(lia) ltac:(lia))) by lia. apply andb_false_r.
Qed.

(** The search of a bit that is not set finds one. *)
Lemma zero_bit_ok fuel mask w i k : i <= k < i + Z.of_nat fuel -> Z.testbit w k = false ->
  (forall b, i <= b <= k -> Z.testbit mask b = true) ->
  exists b, zero_bit fuel mask w i = Some b /\ i <= b <= k /\ Z.testbit w b = false.
Proof.
  revert i. induction fuel as [|fuel IH]; intros i Hk Hw Hm; [lia|]. cbn [zero_bit]. rewrite Hm by lia.
  destruct (Z.testbit w i) eqn:E; [|exists i; split; [done|lia || (split; [lia|done])]].
  assert (i <> k) by congruence. destruct (IH (i + 1)) as (b & E' & Hb & Hwb); [lia|done| |].
  - intros b Hb. apply Hm. lia.
  - exists b. split; [done|]. split; [lia|done].
Qed.

(** * Bitmaps of several words *)

Definition word_bit (ws : list Z) (c : Z) : bool := Z.testbit (nth (Z.to_nat (c / 64)) ws 0) (c mod 64).

Lemma word_bit_cons w ws c : 0 <= c -> word_bit (w :: ws) c = if c <? 64 then Z.testbit w c else word_bit ws (c - 64).
Proof.
  intros Hc. unfold word_bit. destruct (Z.ltb_spec c 64).
  - rewrite Z.div_small, Z.mod_small by lia. done.
  - replace c with (c - 64 + 1 * 64) at 1 2 by lia. rewrite Z.div_add, Z.mod_add by lia.
    replace (Z.to_nat ((c - 64) / 64 + 1)) with (S (Z.to_nat ((c - 64) / 64))); [done|].
    assert (0 <= (c - 64) / 64) by (apply Z.div_pos; lia). lia.
Qed.

Lemma word_bit_insert ws n w c : 0 <= c -> (n < length ws)%nat ->
  word_bit (<[n := w]> ws) c = if decide (Z.to_nat (c / 64) = n) then Z.testbit w (c mod 64) else word_bit ws c.
Proof.
  intros Hc Hn. unfold word_bit. rewrite !nth_lookup. case_decide as E.
  - rewrite E, list_lookup_insert_eq by done. done.
  - by rewrite list_lookup_insert_ne.
Qed.

(** The bits of a bitmap of [n] words, and the two ends of it. *)
Lemma all_words P (Q : Z -> Z -> Prop) ws : (forall w, w ∈ ws -> P w <-> forall c, 0 <= c < 64 -> Q w c) ->
  Forall P ws <-> forall c, 0 <= c < 64 * Z.of_nat (length ws) -> Q (nth (Z.to_nat (c / 64)) ws 0) (c mod 64).
Proof.
  intros HP. rewrite Forall_lookup. split.
  - intros Hall c Hc. assert (Hlt : (Z.to_nat (c / 64) < length ws)%nat) by (assert (c / 64 < Z.of_nat (length ws)) by (apply Z.div_lt_upper_bound; lia); lia).
    destruct (lookup_lt_is_Some_2 ws _ Hlt) as [w Hw]. rewrite (nth_lookup_Some _ _ _ _ Hw).
    apply (HP w); [by eapply list_elem_of_lookup_2|by eapply Hall|]. apply Z.mod_pos_bound. lia.
  - intros Hall n w Hw. apply (HP w); [by eapply list_elem_of_lookup_2|]. intros c Hc. apply lookup_lt_Some in Hw as Hlt.
    specialize (Hall (Z.of_nat n * 64 + c)). revert Hall.
    rewrite Z.div_add_l, (Z.div_small c), Z.add_0_r, Nat2Z.id by lia. rewrite (nth_lookup_Some _ _ _ _ Hw).
    rewrite Z.add_comm, Z.mod_add, Z.mod_small by lia. intros Hall. apply Hall. lia.
Qed.

Lemma scan_bitmap_ok ws k : Forall (fun w => word w) ws -> 0 <= k < 64 * Z.of_nat (length ws) -> word_bit ws k = false ->
  exists n b w, scan_bitmap ws = Some (n, b, <[n := set_bit w b]> ws) /\ ws !! n = Some w /\ 0 <= b < 64 /\ Z.testbit w b = false /\
    Forall (fun w => w = NGX_SLAB_BUSY) (take n ws).
Proof.
  revert k. induction ws as [|w ws IH]; intros k Hws Hk Hb; [cbn in Hk; lia|]. apply Forall_cons in Hws as [Hw Hws]. cbn [scan_bitmap].
  rewrite word_bit_cons in Hb by lia. destruct (Z.eqb_spec w NGX_SLAB_BUSY) as [->|Hne].
  - destruct (Z.ltb_spec k 64); [by rewrite busy_bit in Hb by lia|].
    destruct (IH (k - 64)) as (n & b & w & E & Hn & Hb' & Hwb & Hall); [done|cbn [length] in Hk; lia|done|]. rewrite E.
    exists (S n), b, w. split; [done|]. split; [done|]. split; [done|]. split; [done|]. by constructor.
  - assert (Hz : exists k', 0 <= k' < 64 /\ Z.testbit w k' = false).
    { destruct (decide (Exists (fun c => Z.testbit w c = false) (seqZ 0 64))) as [Hex|Hno].
      - apply Exists_exists in Hex as (c & Hc & Hcw). apply elem_of_seqZ in Hc. exists c. split; [lia|done].
      - exfalso. apply Hne, busy_iff; [done|]. intros c Hc. destruct (Z.testbit w c) eqn:E; [done|]. exfalso. apply Hno, Exists_exists.
        exists c. split; [apply elem_of_seqZ; lia|done]. }
    destruct Hz as (k' & Hk' & Hwk). destruct (zero_bit_ok 64 NGX_SLAB_BUSY w 0 k') as (b & E & Hb' & Hwb); [lia|done| |].
    { intros c Hc. apply busy_bit. lia. }
    rewrite E. exists O, b, w. split; [done|]. split; [done|]. split; [lia|]. split; [done|]. constructor.
Qed.

(** * The chunks of the pages of a slot *)

Definition chunk_shift (j : nat) : Z := Z.of_nat j + 3.
Definition chunk_count (j : nat) : Z := 2 ^ (9 - Z.of_nat j).
Definition reserved (j : nat) : Z := if (j <? 3)%nat then map_chunks (chunk_shift j) else 0.

Definition chunks (j : nat) : gset Z := list_to_set (seqZ (reserved j) (chunk_count j - reserved j)).

Lemma elem_chunks j c : c ∈ chunks j <-> reserved j <= c < chunk_count j.
Proof. unfold chunks. rewrite elem_of_list_to_set, elem_of_seqZ. lia. Qed.

(** A fact about each of the nine slots. *)
Lemma each_slot (P : nat -> Prop) : Forall P (seq 0 9) -> forall j, (j < 9)%nat -> P j.
Proof. rewrite Forall_forall. intros H j Hj. apply H. apply list_elem_of_In, in_seq. lia. Qed.

Lemma slot_numbers j : (j < 9)%nat -> 0 <= reserved j < chunk_count j /\
  (if (j <? 3)%nat then chunk_count j = 64 * Z.of_nat (map_words (chunk_shift j)) /\ 1 <= reserved j < 32
   else if (j =? 3)%nat then chunk_count j = 64 else chunk_count j <= 32) /\
  chunk_count j * 2 ^ chunk_shift j = 4096 /\ reserved j + 1 < chunk_count j.
Proof. revert j. apply each_slot. repeat constructor; vm_compute; congruence. Qed.

(** What a page is: the first of a run of free or of given pages, inside of one, or
    divided into the chunks of a slot, of which some are given. *)
Inductive role := RFree (n : nat) | RRun (n : nat) | RIn | RChunks (j : nat) (B : gset Z).

(** The bit of a chunk in the descriptor or the bitmap. *)
Definition used (j : nat) (s : Z) (bm : option (list Z)) (c : Z) : bool :=
  if (j <? 3)%nat then match bm with Some ws => word_bit ws c | None => false end
  else if (j =? 3)%nat then Z.testbit s c else Z.testbit s (c + 32).

Definition shape (j : nat) (s : Z) (bm : option (list Z)) : Prop :=
  if (j <? 3)%nat then s = chunk_shift j /\ exists ws, bm = Some ws /\ length ws = map_words (chunk_shift j) /\ Forall (fun w => word w) ws
  else if (j =? 3)%nat then word s
  else Z.land s NGX_SLAB_SHIFT_MASK = chunk_shift j /\ 0 <= s < 2 ^ (32 + chunk_count j).

Definition marks (j : nat) (s : Z) (bm : option (list Z)) (B : gset Z) : Prop :=
  forall c, 0 <= c < chunk_count j -> used j s bm c = bool_decide (c < reserved j \/ c ∈ B).

Definition enc (s : Z) (bm : option (list Z)) (r : role) : Prop :=
  match r with
  | RFree n => s = Z.of_nat n /\ (0 < n)%nat
  | RRun n => s = Z.lor (Z.of_nat n) NGX_SLAB_PAGE_START /\ (0 < n)%nat
  | RIn => s = 0 \/ s = NGX_SLAB_PAGE_BUSY
  | RChunks j B => (j < 9)%nat /\ B ⊆ chunks j /\ shape j s bm /\ marks j s bm B
  end.

Lemma spare_chunk j B : B ⊆ chunks j -> B <> chunks j -> exists c, c ∈ chunks j /\ c ∉ B.
Proof.
  intros Hsub Hne. destruct (set_choose_or_empty (chunks j ∖ B)) as [[c Hc]|He]; [exists c; by apply elem_of_difference|].
  exfalso. apply Hne, set_eq. intros c. split; [apply Hsub|]. intros Hc. destruct (decide (c ∈ B)) as [|Hcb]; [done|]. exfalso.
  apply (not_elem_of_empty (C := gset Z) c). rewrite <- He. by apply elem_of_difference.
Qed.

Lemma chunks_full j B : B ⊆ chunks j -> B = chunks j <-> forall c, reserved j <= c < chunk_count j -> c ∈ B.
Proof.
  intros Hsub. split; [intros -> c Hc; by apply elem_chunks|]. intros Hall. apply set_eq. intros c. split; [apply Hsub|].
  intros Hc. by apply Hall, elem_chunks.
Qed.

Lemma full_iff j s bm B : (j < 9)%nat -> B ⊆ chunks j -> marks j s bm B -> (forall c, 0 <= c < chunk_count j -> used j s bm c = true) <-> B = chunks j.
Proof.
  intros Hj Hsub Hm. pose proof (slot_numbers j Hj) as [Hr _]. rewrite chunks_full by done. split.
  - intros Hall c Hc. specialize (Hall c ltac:(lia)). rewrite Hm in Hall by lia. apply bool_decide_eq_true in Hall as [|]; [lia|done].
  - intros Hall c Hc. rewrite Hm by done. apply bool_decide_eq_true. destruct (decide (c < reserved j)); [by left|]. right. apply Hall. lia.
Qed.

Lemma none_iff j s bm B : (j < 9)%nat -> B ⊆ chunks j -> marks j s bm B ->
  (forall c, reserved j <= c < chunk_count j -> used j s bm c = false) <-> B = ∅.
Proof.
  intros Hj Hsub Hm. pose proof (slot_numbers j Hj) as [Hr _]. split.
  - intros Hall. apply set_eq. intros c. split; [|set_solver]. intros Hc. exfalso. pose proof (Hsub c Hc) as Hc'. apply elem_chunks in Hc'.
    specialize (Hall c Hc'). rewrite Hm in Hall by lia. apply bool_decide_eq_false in Hall. tauto.
  - intros -> c Hc. rewrite Hm by lia. apply bool_decide_eq_false. intros [|]; [lia|set_solver].
Qed.

End SlabBits.

(** The chunks of the slab allocator: taking one from a page and giving it back
    change the set of the chunks of the page that are in use. *)

Module SlabChunks.

Export SlabBits.

(** * Bits and chunks *)

Lemma marks_set j s bm s' bm' B c : c ∈ chunks j ->
  (forall q, 0 <= q < chunk_count j -> used j s' bm' q = (q =? c) || used j s bm q) -> marks j s bm B -> marks j s' bm' ({[c]} ∪ B).
Proof.
  intros Hc Hu Hm q Hq. rewrite Hu, Hm by done. destruct (Z.eqb_spec q c) as [->|Hne]; cbn [orb].
  - symmetry. apply bool_decide_eq_true. right. set_solver.
  - apply bool_decide_ext. set_solver.
Qed.

Lemma marks_clear j s bm s' bm' B c : c ∈ chunks j ->
  (forall q, 0 <= q < chunk_count j -> used j s' bm' q = negb (q =? c) && used j s bm q) -> marks j s bm B -> marks j s' bm' (B ∖ {[c]}).
Proof.
  intros Hc Hu Hm q Hq. rewrite Hu, Hm by done. apply elem_chunks in Hc. destruct (Z.eqb_spec q c) as [->|Hne]; cbn [negb andb].
  - symmetry. apply bool_decide_eq_false. intros [|]; [lia|set_solver].
  - apply bool_decide_ext. set_solver.
Qed.

Section Page.
Context (j : nat) (s : Z) (bm : option (list Z)) (B : gset Z).
Context (E : enc s bm (RChunks j B)).

(** [s'] and [bm'] differ from [s] and [bm] in the bit of the chunk [c]. *)
Lemma enc_change s' bm' c : c ∈ chunks j -> shape j s' bm' ->
  (forall q, 0 <= q < chunk_count j -> used j s' bm' q = (q =? c) || used j s bm q) -> enc s' bm' (RChunks j ({[c]} ∪ B)).
Proof.
  intros Hc Hs Hu. destruct E as (Hj & Hsub & _ & Hm). split; [done|]. split; [set_solver|]. split; [done|]. by apply (marks_set j s bm).
Qed.

Lemma enc_change' s' bm' c : c ∈ chunks j -> shape j s' bm' ->
  (forall q, 0 <= q < chunk_count j -> used j s' bm' q = negb (q =? c) && used j s bm q) -> enc s' bm' (RChunks j (B ∖ {[c]})).
Proof.
  intros Hc Hs Hu. destruct E as (Hj & Hsub & _ & Hm). split; [done|]. split; [set_solver|]. split; [done|]. by apply (marks_clear j s bm).
Qed.

End Page.

Lemma low_bits_kept s s' : (forall c, 0 <= c < 32 -> Z.testbit s' c = Z.testbit s c) -> Z.land s' NGX_SLAB_SHIFT_MASK = Z.land s NGX_SLAB_SHIFT_MASK.
Proof.
  intros H. change NGX_SLAB_SHIFT_MASK with (Z.ones 4). apply Z.bits_inj'. intros c Hc. rewrite !Z.land_spec.
  destruct (Z.ltb_spec c 4); [rewrite H by lia; done|]. rewrite Z.ones_spec_high by lia. by rewrite !andb_false_r.
Qed.

(** The words of the three kinds of pages with a bit of a chunk changed. *)
Section Kinds.
Context (s : Z) (bm : option (list Z)) (B : gset Z).

Lemma exact_set c : enc s bm (RChunks 3 B) -> c ∈ chunks 3 -> enc (set_bit s c) bm (RChunks 3 ({[c]} ∪ B)).
Proof.
  intros E Hc. pose proof E as (_ & _ & Hs & _). pose proof Hc as Hc'. apply elem_chunks in Hc'. change (0 <= c < 64) in Hc'.
  eapply enc_change; [done|done| |].
  - by apply (set_bit_below 64).
  - intros q Hq. cbn. apply set_bit_spec. lia.
Qed.

Lemma exact_clear c : enc s bm (RChunks 3 B) -> c ∈ chunks 3 -> enc (clear_bit s c) bm (RChunks 3 (B ∖ {[c]})).
Proof.
  intros E Hc. pose proof E as (_ & _ & Hs & _). pose proof Hc as Hc'. apply elem_chunks in Hc'. change (0 <= c < 64) in Hc'.
  eapply enc_change'; [done|done| |].
  - by apply (clear_bit_below 64).
  - intros q Hq. cbn. apply clear_bit_spec. lia.
Qed.

Context (j : nat).

Lemma big_kind : (3 < j)%nat -> (j <? 3)%nat = false /\ (j =? 3)%nat = false.
Proof. intros H. split; [apply Nat.ltb_ge|apply Nat.eqb_neq]; lia. Qed.

Lemma big_set c : (3 < j)%nat -> enc s bm (RChunks j B) -> c ∈ chunks j -> enc (set_bit s (c + 32)) bm (RChunks j ({[c]} ∪ B)).
Proof.
  intros Hb E Hc. destruct (big_kind Hb) as [K1 K2]. pose proof E as (Hj & _ & Hs & _). pose proof Hc as Hc'. apply elem_chunks in Hc'.
  pose proof (slot_numbers j Hj) as [Hr _]. unfold shape in Hs. rewrite K1, K2 in Hs. destruct Hs as [Hs1 Hs2].
  eapply enc_change; [done|done| |].
  - unfold shape. rewrite K1, K2. split; [|apply set_bit_below; lia]. rewrite <- Hs1. apply low_bits_kept. intros q Hq.
    rewrite set_bit_spec by lia. by rewrite (proj2 (Z.eqb_neq q (c + 32))) by lia.
  - intros q Hq. unfold used. rewrite K1, K2. rewrite set_bit_spec by lia. f_equal. destruct (Z.eqb_spec q c); [apply Z.eqb_eq|apply Z.eqb_neq]; lia.
Qed.

Lemma big_clear c : (3 < j)%nat -> enc s bm (RChunks j B) -> c ∈ chunks j -> enc (clear_bit s (c + 32)) bm (RChunks j (B ∖ {[c]})).
Proof.
  intros Hb E Hc. destruct (big_kind Hb) as [K1 K2]. pose proof E as (Hj & _ & Hs & _). pose proof Hc as Hc'. apply elem_chunks in Hc'.
  pose proof (slot_numbers j Hj) as [Hr _]. unfold shape in Hs. rewrite K1, K2 in Hs. destruct Hs as [Hs1 Hs2].
  eapply enc_change'; [done|done| |].
  - unfold shape. rewrite K1, K2. split; [|apply clear_bit_below; lia]. rewrite <- Hs1. apply low_bits_kept. intros q Hq.
    rewrite clear_bit_spec by lia. by rewrite (proj2 (Z.eqb_neq q (c + 32))) by lia.
  - intros q Hq. unfold used. rewrite K1, K2. rewrite clear_bit_spec by lia. f_equal. f_equal. destruct (Z.eqb_spec q c); [apply Z.eqb_eq|apply Z.eqb_neq]; lia.
Qed.

Lemma small_kind : (j < 3)%nat -> (j <? 3)%nat = true.
Proof. apply Nat.ltb_lt. Qed.

(** The place of the bit of a chunk. *)
Lemma bit_place n b q : 0 <= b < 64 -> 0 <= q -> Z.to_nat (q / 64) = n -> (q mod 64 =? b) = (q =? Z.of_nat n * 64 + b).
Proof.
  intros Hb Hq <-. assert (0 <= q / 64) by (apply Z.div_pos; lia). rewrite Z2Nat.id by done. pose proof (Z.div_mod q 64 ltac:(lia)).
  destruct (Z.eqb_spec (q mod 64) b), (Z.eqb_spec q (q / 64 * 64 + b)); lia || done.
Qed.

Lemma bit_elsewhere n b q : 0 <= b < 64 -> 0 <= q -> Z.to_nat (q / 64) <> n -> (q =? Z.of_nat n * 64 + b) = false.
Proof.
  intros Hb Hq Hne. apply Z.eqb_neq. intros ->. apply Hne. rewrite Z.div_add_l, (Z.div_small b) by lia. lia.
Qed.

Context (ws : list Z) (n : nat) (w b : Z) (Hn : ws !! n = Some w) (Hb : 0 <= b < 64).

Lemma small_word c : 0 <= c -> Z.to_nat (c / 64) = n -> word_bit ws c = Z.testbit w (c mod 64).
Proof. intros Hc <-. unfold word_bit. by rewrite (nth_lookup_Some _ _ _ _ Hn). Qed.

Lemma small_shape w' : (j < 3)%nat -> word w' -> shape j s (Some ws) -> shape j s (Some (<[n := w']> ws)).
Proof.
  intros Hj Hw. unfold shape. rewrite (small_kind Hj). intros (-> & ws0 & [= <-] & Hl & Hall). split; [done|].
  exists (<[n := w']> ws). split; [done|]. split; [by rewrite length_insert|]. by apply Forall_insert.
Qed.

Lemma small_words : (j < 3)%nat -> shape j s (Some ws) -> Forall (fun w => word w) ws /\ length ws = map_words (chunk_shift j) /\ word w.
Proof.
  intros Hj. unfold shape. rewrite (small_kind Hj). intros (_ & ws0 & [= <-] & Hl & Hall). split; [done|]. split; [done|].
  by apply (Forall_lookup_1 _ _ _ _ Hall Hn).
Qed.

Lemma small_set : (j < 3)%nat -> enc s (Some ws) (RChunks j B) -> Z.of_nat n * 64 + b ∈ chunks j ->
  enc s (Some (<[n := set_bit w b]> ws)) (RChunks j ({[Z.of_nat n * 64 + b]} ∪ B)).
Proof.
  intros Hk E Hc. pose proof E as (Hj & _ & Hs & _). pose proof (small_words Hk Hs) as (Hall & Hl & Hw). apply lookup_lt_Some in Hn as Hlt.
  eapply enc_change; [done|done| |].
  - apply small_shape; [done|by apply set_bit_below|done].
  - intros q Hq. unfold used. rewrite (small_kind Hk), word_bit_insert by (done || lia). case_decide as En.
    + rewrite set_bit_spec, small_word by (done || lia). f_equal. apply bit_place; (done || lia).
    + by rewrite bit_elsewhere by (done || lia).
Qed.

Lemma small_clear : (j < 3)%nat -> enc s (Some ws) (RChunks j B) -> Z.of_nat n * 64 + b ∈ chunks j ->
  enc s (Some (<[n := clear_bit w b]> ws)) (RChunks j (B ∖ {[Z.of_nat n * 64 + b]})).
Proof.
  intros Hk E Hc. pose proof E as (Hj & _ & Hs & _). pose proof (small_words Hk Hs) as (Hall & Hl & Hw). apply lookup_lt_Some in Hn as Hlt.
  eapply enc_change'; [done|done| |].
  - apply small_shape; [done|by apply clear_bit_below|done].
  - intros q Hq. unfold used. rewrite (small_kind Hk), word_bit_insert by (done || lia). case_decide as En.
    + rewrite clear_bit_spec, small_word by (done || lia). f_equal. f_equal. apply bit_place; (done || lia).
    + by rewrite bit_elsewhere by (done || lia).
Qed.

End Kinds.

(** ** The tests of a page without a spare chunk and of one without a given chunk *)

Lemma eqb_decide (a b : Z) (P : Prop) `{Decision P} : (a = b <-> P) -> (a =? b) = bool_decide P.
Proof. intros HP. destruct (Z.eqb_spec a b); symmetry; [apply bool_decide_eq_true|apply bool_decide_eq_false]; tauto. Qed.

Lemma exact_full s bm B : enc s bm (RChunks 3 B) -> (s =? NGX_SLAB_BUSY) = bool_decide (B = chunks 3).
Proof. intros (Hj & Hsub & Hs & Hm). apply eqb_decide. rewrite busy_iff by done. by apply (full_iff 3 s bm B). Qed.

Lemma exact_empty s bm B : enc s bm (RChunks 3 B) -> (s =? 0) = bool_decide (B = ∅).
Proof. intros (Hj & Hsub & Hs & Hm). apply eqb_decide. rewrite (zero_iff 64) by (done || lia). by apply (none_iff 3 s bm B). Qed.

Definition big_mask (j : nat) : Z := Z.shiftl (Z.shiftl 1 (chunk_count j) - 1) NGX_SLAB_MAP_SHIFT.

Lemma map_bits s c : 0 <= c -> Z.testbit (Z.land s NGX_SLAB_MAP_MASK) c = (32 <=? c) && (c <? 64) && Z.testbit s c.
Proof.
  intros Hc. rewrite Z.land_spec. change NGX_SLAB_MAP_MASK with (Z.shiftl (Z.ones 32) 32). rewrite Z.shiftl_spec by lia. rewrite andb_comm. f_equal.
  destruct (Z.leb_spec 32 c); cbn [andb]; [|by rewrite Z.testbit_neg_r by lia].
  destruct (Z.ltb_spec c 64); [apply Z.ones_spec_low; lia|apply Z.ones_spec_high; lia].
Qed.

Lemma mask_bits j c : (j < 9)%nat -> 0 <= c -> Z.testbit (big_mask j) c = (32 <=? c) && (c <? 32 + chunk_count j).
Proof.
  intros Hj Hc. pose proof (slot_numbers j Hj) as [Hr _]. unfold big_mask, NGX_SLAB_MAP_SHIFT. rewrite Z.shiftl_spec, Z.shiftl_1_l, Z.sub_1_r, <- Z.ones_equiv by lia.
  destruct (Z.leb_spec 32 c); cbn [andb]; [|by rewrite Z.testbit_neg_r by lia].
  destruct (Z.ltb_spec c (32 + chunk_count j)); [apply Z.ones_spec_low; lia|apply Z.ones_spec_high; lia].
Qed.

Section Big.
Context (s : Z) (bm : option (list Z)) (B : gset Z) (j : nat) (Hb : (3 < j)%nat) (E : enc s bm (RChunks j B)).

Lemma big_facts : 0 < chunk_count j <= 32 /\ reserved j = 0 /\ 0 <= s < 2 ^ (32 + chunk_count j) /\
  (forall c, used j s bm c = Z.testbit s (c + 32)) /\ Z.land s NGX_SLAB_SHIFT_MASK = chunk_shift j.
Proof.
  destruct (big_kind j Hb) as [K1 K2]. destruct E as (Hj & _ & Hs & _). pose proof (slot_numbers j Hj) as (Hr & Hc & _).
  unfold shape in Hs. unfold used, reserved in *. rewrite K1, K2 in *. split; [lia|]. split; [done|]. split; [lia|]. split; [done|lia].
Qed.

Lemma big_full : (Z.land s NGX_SLAB_MAP_MASK =? big_mask j) = bool_decide (B = chunks j).
Proof.
  destruct big_facts as (Hc & Hr & Hs & Hu & _). pose proof E as (Hj & Hsub & _ & Hm). apply eqb_decide.
  rewrite <- (full_iff j s bm B) by done. split.
  - intros Heq c Hc'. rewrite Hu. assert (Hbit : Z.testbit (big_mask j) (c + 32) = true) by (rewrite mask_bits by (done || lia); apply andb_true_iff; lia).
    rewrite <- Heq, map_bits in Hbit by lia. by apply andb_true_iff in Hbit as [_ ?].
  - intros Hall. apply Z.bits_inj'. intros c Hc'. rewrite map_bits, mask_bits by done.
    destruct (Z.leb_spec 32 c); cbn [andb]; [|done]. destruct (Z.ltb_spec c (32 + chunk_count j)).
    + rewrite (proj2 (Z.ltb_lt c 64)) by lia. replace c with (c - 32 + 32) by lia. rewrite <- Hu. apply Hall. lia.
    + rewrite (proj1 (below_iff (32 + chunk_count j) s ltac:(lia) ltac:(lia))) by lia. apply andb_false_r.
Qed.

Lemma big_empty : (Z.land s NGX_SLAB_MAP_MASK =? 0) = bool_decide (B = ∅).
Proof.
  destruct big_facts as (Hc & Hr & Hs & Hu & _). pose proof E as (Hj & Hsub & _ & Hm). apply eqb_decide.
  rewrite <- (none_iff j s bm B) by done. rewrite Hr. split.
  - intros Heq c Hc'. rewrite Hu. assert (Hbit : Z.testbit (Z.land s NGX_SLAB_MAP_MASK) (c + 32) = false) by (rewrite Heq; apply Z.bits_0).
    rewrite map_bits in Hbit by lia. rewrite (proj2 (Z.leb_le _ _)), (proj2 (Z.ltb_lt _ _)) in Hbit by lia. done.
  - intros Hall. apply Z.bits_inj'. intros c Hc'. rewrite map_bits, Z.bits_0 by done.
    destruct (Z.leb_spec 32 c); cbn [andb]; [|done]. destruct (Z.ltb_spec c (32 + chunk_count j)).
    + replace c with (c - 32 + 32) at 2 by lia. rewrite <- Hu, Hall by lia. apply andb_false_r.
    + rewrite (proj1 (below_iff (32 + chunk_count j) s ltac:(lia) ltac:(lia))) by lia. apply andb_false_r.
Qed.

End Big.

Section Small.
Context (s : Z) (ws : list Z) (B : gset Z) (j : nat) (Hk : (j < 3)%nat) (E : enc s (Some ws) (RChunks j B)).

Lemma small_facts : s = chunk_shift j /\ length ws = map_words (chunk_shift j) /\ Forall (fun w => word w) ws /\
  chunk_count j = 64 * Z.of_nat (length ws) /\ 1 <= reserved j < 32 /\ (forall c, used j s (Some ws) c = word_bit ws c).
Proof.
  destruct E as (Hj & _ & Hs & _). pose proof (slot_numbers j Hj) as (Hr & Hc & _). unfold shape in Hs. unfold used.
  rewrite (small_kind j Hk) in *. destruct Hs as (-> & ws0 & [= <-] & Hl & Hall). rewrite Hl. split_and!; try done; lia.
Qed.

Lemma small_full n : Forall (fun w => w = NGX_SLAB_BUSY) (take n ws) ->
  forallb (fun w => w =? NGX_SLAB_BUSY) (drop n ws) = bool_decide (B = chunks j).
Proof.
  intros Ht. destruct small_facts as (_ & Hl & Hws & Hc & _ & Hu). pose proof E as (Hj & Hsub & _ & Hm).
  apply eq_true_iff_eq. rewrite bool_decide_eq_true, <- (full_iff j s (Some ws) B), forallb_forall by done. setoid_rewrite <- list_elem_of_In. rewrite <- Forall_forall.
  transitivity (Forall (fun w => w = NGX_SLAB_BUSY) ws).
  - rewrite <- (take_drop n ws) at 2. rewrite Forall_app. split.
    + intros Hd. split; [done|]. eapply Forall_impl; [exact Hd|]. cbn. intros w. apply Z.eqb_eq.
    + intros [_ Hd]. eapply Forall_impl; [exact Hd|]. cbn. intros w ->. done.
  - rewrite (all_words _ (fun w c => Z.testbit w c = true)), Hc.
    + split; intros Hall c Hc'; [rewrite Hu|]; [by apply Hall|]. specialize (Hall c Hc'). by rewrite Hu in Hall.
    + intros w Hw. apply busy_iff. rewrite Forall_forall in Hws. by apply Hws.
Qed.

Lemma small_empty :
  (Z.ldiff (hd 0 ws) (Z.shiftl 1 (map_chunks (chunk_shift j)) - 1) =? 0) &&
  negb (existsb (fun w => negb (w =? 0)) (take (map_words (chunk_shift j) - 1) (tl ws))) = bool_decide (B = ∅).
Proof.
  destruct small_facts as (_ & Hl & Hws & Hc & Hr & Hu). pose proof E as (Hj & Hsub & _ & Hm). rewrite <- Hl.
  assert (Hres : map_chunks (chunk_shift j) = reserved j) by (unfold reserved; by rewrite (small_kind j Hk)). rewrite Hres.
  pose proof (slot_numbers j Hj) as [Hpos _].
  destruct ws as [|w0 tl0]; [cbn [length] in Hc; lia|]. cbn [hd tl length] in *. replace (S (length tl0) - 1)%nat with (length tl0) by lia.
  rewrite take_ge by done. apply Forall_cons in Hws as [Hw0 Htl].
  apply eq_true_iff_eq. rewrite bool_decide_eq_true, <- (none_iff j s (Some (w0 :: tl0)) B), andb_true_iff by done.
  assert (H1 : (Z.ldiff w0 (Z.shiftl 1 (reserved j) - 1) =? 0) = true <-> forall c, reserved j <= c < 64 -> Z.testbit w0 c = false).
  { rewrite Z.eqb_eq, Z.shiftl_1_l, Z.sub_1_r, <- Z.ones_equiv. rewrite Z.ldiff_ones_r by lia. split.
    - intros Hz c Hc'. assert (Hbit : Z.testbit (Z.shiftl (Z.shiftr w0 (reserved j)) (reserved j)) c = false) by (rewrite Hz; apply Z.bits_0).
      rewrite Z.shiftl_spec, Z.shiftr_spec in Hbit by lia. by replace (c - reserved j + reserved j) with c in Hbit by lia.
    - intros Hall. replace (Z.shiftr w0 (reserved j)) with 0; [apply Z.shiftl_0_l|]. symmetry. apply Z.bits_inj'. intros c Hc'.
      rewrite Z.shiftr_spec, Z.bits_0 by lia. destruct (Z.ltb_spec (c + reserved j) 64); [apply Hall; lia|].
      apply (below_iff 64 w0); lia. }
  assert (H2 : negb (existsb (fun w => negb (w =? 0)) tl0) = true <-> forall c, 0 <= c < 64 * Z.of_nat (length tl0) -> word_bit tl0 c = false).
  { unfold word_bit. rewrite <- (all_words (fun w => w = 0) (fun w c => Z.testbit w c = false)).
    - rewrite negb_true_iff, <- not_true_iff_false, existsb_exists, Forall_forall. split.
      + intros Hno w Hw. destruct (Z.eqb_spec w 0) as [|Hne]; [done|]. exfalso. apply Hno. exists w. split; [by apply list_elem_of_In|].
        by apply negb_true_iff, Z.eqb_neq.
      + intros Hall (w & Hw & Hz). apply list_elem_of_In in Hw. by rewrite (Hall w Hw) in Hz.
    - intros w Hw. apply (zero_iff 64); [lia|]. rewrite Forall_forall in Htl. by apply Htl. }
  rewrite H1, H2. split.
  - intros [Ha Hb] c Hc'. rewrite Hu, word_bit_cons by lia. case_match; [apply Ha; lia|apply Hb; lia].
  - intros Hall. split; intros c Hc'.
    + specialize (Hall c ltac:(lia)). rewrite Hu, word_bit_cons, (proj2 (Z.ltb_lt c 64)) in Hall by lia. done.
    + specialize (Hall (c + 64) ltac:(lia)). rewrite Hu, word_bit_cons, (proj2 (Z.ltb_ge (c + 64) 64)) in Hall by lia.
      by replace (c + 64 - 64) with c in Hall by lia.
Qed.

End Small.

Lemma ring_type_small j : (j < 3)%nat -> ring_type (PSlot j) = NGX_SLAB_SMALL.
Proof. intros K. unfold ring_type. by rewrite (small_kind j K). Qed.

Lemma ring_type_big j : (3 < j)%nat -> ring_type (PSlot j) = NGX_SLAB_BIG.
Proof. intros K. unfold ring_type. by destruct (big_kind j K) as [-> ->]. Qed.

(** * The state with a bit changed *)

Definition pslab (st : ngx_slab_pool_t) (i : nat) : Z := slab (pg (nodes st) (PPage i)).

(** Only the bits of the page [i] have changed: its chunks [B] are given. *)
Record marked (st st' : ngx_slab_pool_t) (i j : nat) (B : gset Z) : Prop := {
  mk_start : start st' = start st; mk_end : end_ st' = end_ st; mk_dom : dom (nodes st') = dom (nodes st);
  mk_next : forall p, next (pg (nodes st') p) = next (pg (nodes st) p);
  mk_prev : forall p, prev (pg (nodes st') p) = prev (pg (nodes st) p);
  mk_slab : forall p, p <> PPage i -> slab (pg (nodes st') p) = slab (pg (nodes st) p);
  mk_bitmaps : forall q, q <> i -> bitmaps st' !! q = bitmaps st !! q;
  mk_enc : enc (pslab st' i) (bitmaps st' !! i) (RChunks j B) }.

Lemma marked_slab st i j B s : PPage i ∈ dom (nodes st) -> enc s (bitmaps st !! i) (RChunks j B) ->
  exists st', wr (Some (PPage i)) (set_slab s) st = Ret st' /\ marked st st' i j B /\ pslab st' i = s /\ bitmaps st' = bitmaps st.
Proof.
  intros Hi He. rewrite wr_ok by done. eexists. split; [done|].
  assert (Hs : pslab (set_nodes (<[PPage i := set_slab s (pg (nodes st) (PPage i))]> (nodes st)) st) i = s).
  { unfold pslab. cbn [nodes set_nodes]. by rewrite pg_insert, decide_True. }
  split; [|done]. split; cbn [nodes set_nodes bitmaps start end_]; try done.
  - set_solver.
  - fields.
  - fields.
  - fields.
  - by rewrite Hs.
Qed.

Lemma marked_bitmap st i j B ws : enc (pslab st i) (Some ws) (RChunks j B) -> marked st (set_bitmap i ws st) i j B.
Proof.
  intros He. split; cbn [nodes set_bitmap bitmaps start end_]; try done.
  - intros q Hq. by rewrite lookup_insert_ne.
  - by rewrite lookup_insert_eq.
Qed.

(** ** A chunk of a page *)

Definition chunk_of (j : nat) : nat -> ngx_slab_pool_t -> outcome (option Z * ngx_slab_pool_t) :=
  if (j <? 3)%nat then small_chunk (chunk_shift j) else if (j =? 3)%nat then exact_chunk (chunk_shift j) else big_chunk (big_mask j) (chunk_shift j).

(** The page leaves its list with its last chunk. *)
Definition taken (st : ngx_slab_pool_t) (i j : nat) (c : Z) (last : bool) : outcome (option Z * ngx_slab_pool_t) :=
  let! st := (if last then retire (Some (PPage i)) (ring_type (PSlot j)) st else Ret st) in
  Ret (Some (page_addr i st + Z.shiftl c (chunk_shift j)), st).

Lemma chunk_of_ok st i j B : PPage i ∈ dom (nodes st) -> enc (pslab st i) (bitmaps st !! i) (RChunks j B) -> B <> chunks j ->
  exists c st', c ∈ chunks j /\ (c ∉ B) /\ marked st st' i j ({[c]} ∪ B) /\
    chunk_of j i st = taken st' i j c (bool_decide ({[c]} ∪ B = chunks j)).
Proof.
  intros Hi E Hne. pose proof E as (Hj & Hsub & Hs & Hm). destruct (spare_chunk j B Hsub Hne) as (k & Hk & HkB).
  pose proof (slot_numbers j Hj) as (Hr & _). pose proof Hk as Hk'. apply elem_chunks in Hk'.
  assert (Hku : used j (pslab st i) (bitmaps st !! i) k = false).
  { rewrite Hm by lia. apply bool_decide_eq_false. intros [|]; [lia|done]. }
  assert (Hfree : forall c, 0 <= c < chunk_count j -> used j (pslab st i) (bitmaps st !! i) c = false -> c ∈ chunks j /\ c ∉ B).
  { intros c Hc Hu. rewrite Hm in Hu by done. apply bool_decide_eq_false in Hu. split; [apply elem_chunks; lia|tauto]. }
  unfold chunk_of. destruct (j <? 3)%nat eqn:K1; [|destruct (j =? 3)%nat eqn:K2].
  - assert (K : (j < 3)%nat) by (by apply Nat.ltb_lt). unfold shape in Hs. rewrite K1 in Hs. destruct Hs as (_ & ws & Ews & _). rewrite Ews in *.
    pose proof (small_facts _ _ _ _ K E) as (_ & Hl & Hws & Hc & _ & Hu). rewrite Hu in Hku.
    destruct (scan_bitmap_ok ws k Hws ltac:(lia) Hku) as (n & b & w & Escan & Hn & Hb & Hwb & Ht). apply lookup_lt_Some in Hn as Hlt.
    destruct (Hfree (Z.of_nat n * 64 + b)) as [Hc1 Hc2]; [lia| |].
    { rewrite Hu. unfold word_bit. rewrite Z.div_add_l, (Z.div_small b), Z.add_0_r, Nat2Z.id by lia. rewrite (nth_lookup_Some _ _ _ _ Hn).
      by rewrite Z.add_comm, Z.mod_add, Z.mod_small by lia. }
    pose proof (small_set _ _ _ _ _ _ _ Hn Hb K E Hc1) as E'.
    exists (Z.of_nat n * 64 + b). eexists. split; [done|]. split; [done|]. split; [by apply marked_bitmap|].
    unfold small_chunk, rd_bitmap. rewrite Ews. cbn [outcome_bind]. rewrite Escan.
    rewrite (small_full _ _ _ _ K E' n) by (by rewrite take_insert_ge). unfold taken. by rewrite (ring_type_small j K).
  - apply Nat.eqb_eq in K2 as ->. cbn [used Nat.ltb Nat.leb Nat.eqb] in Hku. change (chunk_count 3) with 64 in *.
    destruct (zero_bit_ok 64 NGX_SLAB_BUSY (pslab st i) 0 k) as (c & Ec & Hc & Hcw); [change (reserved 3) with 0 in *; lia|done|intros b Hb; apply busy_bit; lia|].
    destruct (Hfree c) as [Hc1 Hc2]; [lia|done|]. pose proof (exact_set _ _ _ c E Hc1) as E'.
    destruct (marked_slab st i 3 _ _ Hi E') as (st' & Ew & Hmk & Hs' & _).
    exists c, st'. split; [done|]. split; [done|]. split; [done|]. unfold exact_chunk. rewrite rd_ok by done. cbn [outcome_bind].
    fold (pslab st i). rewrite (exact_full _ _ _ E), bool_decide_eq_false_2 by done. rewrite Ec, Ew. cbn [outcome_bind].
    by rewrite (exact_full _ _ _ E').
  - assert (K : (3 < j)%nat) by (apply Nat.ltb_ge in K1; apply Nat.eqb_neq in K2; lia).
    pose proof (big_facts _ _ _ _ K E) as (Hcount & Hres & _ & Hu & _). rewrite Hu in Hku.
    destruct (zero_bit_ok 32 (big_mask j) (pslab st i) 32 (k + 32)) as (m & Em & Hmr & Hmw); [lia|done| |].
    { intros b Hb. rewrite mask_bits by (done || lia). apply andb_true_iff. lia. }
    destruct (Hfree (m - 32)) as [Hc1 Hc2]; [lia|rewrite Hu; by replace (m - 32 + 32) with m by lia|].
    pose proof (big_set _ _ _ _ (m - 32) K E Hc1) as E'. replace (m - 32 + 32) with m in E' by lia.
    destruct (marked_slab st i j _ _ Hi E') as (st' & Ew & Hmk & Hs' & _).
    exists (m - 32), st'. split; [done|]. split; [done|]. split; [done|]. unfold big_chunk. rewrite rd_ok by done. cbn [outcome_bind].
    fold (pslab st i). rewrite (big_full _ _ _ _ K E), bool_decide_eq_false_2 by done. change NGX_SLAB_MAP_SHIFT with 32. rewrite Em, Ew. cbn [outcome_bind].
    rewrite (big_full _ _ _ _ K E'). unfold taken. by rewrite (ring_type_big j K).
Qed.

End SlabChunks.
