(* ===== verification/NgxSlabInv.v ===== *)
(** The invariant of the pool of the slab allocator, and that giving and taking
    back pages keeps it. *)

From S2P Require Import Prelude NgxSlab NgxSlabRings NgxSlabChunks.

#[local] Open Scope Z_scope.

Module SlabInv.

Export SlabChunks.

Abbreviation roles := (nat -> role).

(** The list a page is in, the type in its descriptor, and its length. *)
Definition listed (r : role) : option slab_ptr :=
  match r with
  | RFree _ => Some PFree
  | RChunks j B => if decide (B = chunks j) then None else Some (PSlot j)
  | _ => None
  end.

Definition role_type (r : role) : Z := match r with RChunks j _ => ring_type (PSlot j) | _ => NGX_SLAB_PAGE end.

Definition span (r : role) : nat := match r with RFree n | RRun n => n | _ => 1%nat end.

(** The pool has [N] pages with the roles [ρ], in the lists [R]. *)
Record Inv (st : ngx_slab_pool_t) (N : nat) (R : slab_ptr -> list nat) (ρ : roles) : Prop := {
  iv_pages : forall i, (i < N)%nat -> PPage i ∈ dom (nodes st);
  iv_heads : forall h, h ∈ heads -> h ∈ dom (nodes st);
  iv_rings : Rings (nodes st) R;
  iv_home : forall h i, h ∈ heads -> i ∈ R h <-> (i < N)%nat /\ listed (ρ i) = Some h;
  iv_alone : forall i, (i < N)%nat -> listed (ρ i) = None -> next (pg (nodes st) (PPage i)) = None /\ (prev (pg (nodes st) (PPage i))).2 = role_type (ρ i);
  iv_enc : forall i, (i < N)%nat -> enc (pslab st i) (bitmaps st !! i) (ρ i);
  iv_runs : forall i, (i < N)%nat -> (i + span (ρ i) <= N)%nat /\ forall k, (i < k < i + span (ρ i))%nat -> ρ k = RIn;
  iv_inside : forall k, (k < N)%nat -> ρ k = RIn -> exists i, (i < k < i + span (ρ i))%nat;
  iv_place : start st mod 4096 = 0 /\ 0 <= start st /\ start st + Z.of_nat N * 4096 <= end_ st < 2 ^ 64;
  iv_rest : forall i, (N <= i)%nat -> pslab st i = 0 /\ (prev (pg (nodes st) (PPage i))).2 = NGX_SLAB_PAGE }.

Lemma listed_head st N R ρ i h : Inv st N R ρ -> (i < N)%nat -> listed (ρ i) = Some h -> h ∈ heads.
Proof.
  intros I Hi. pose proof (iv_enc _ _ _ _ I i Hi) as He. destruct (ρ i) as [n|n| |j B]; cbn [listed]; [intros [= <-]; by left|done|done|].
  case_decide; [done|]. intros [= <-]. apply slot_head. destruct He as [Hj _]. exact Hj.
Qed.

Lemma inv_nodes_there st N R ρ : Inv st N R ρ -> nodes_there st R.
Proof.
  intros I h Hh p [->|Hp]%elem_of_cons; [by apply (iv_heads _ _ _ _ I)|]. apply list_elem_of_fmap in Hp as (i & -> & Hi).
  apply (iv_home _ _ _ _ I h i Hh) in Hi as [Hi _]. by apply (iv_pages _ _ _ _ I).
Qed.

Lemma chain_prev m t x l e p : chain m t x l e -> p ∈ l -> exists y, prev (pg m p) = (Some y, t).
Proof.
  revert x. induction l as [|z l IH]; intros x; cbn [chain]; [intros _ Hp; by apply elem_of_nil in Hp|].
  intros (_ & Hz & Hl) [->|Hp]%elem_of_cons; [by exists x|by apply (IH z)].
Qed.

Lemma chain_next m t x l e p : chain m t x l e -> p ∈ l -> next (pg m p) <> None.
Proof.
  revert x. induction l as [|z l IH]; intros x; cbn [chain]; [intros _ Hp; by apply elem_of_nil in Hp|].
  intros (_ & _ & Hl) [->|Hp]%elem_of_cons; [by rewrite (chain_first _ _ _ _ _ Hl)|by apply (IH z)].
Qed.

Lemma inv_type st N R ρ i : Inv st N R ρ -> (i < N)%nat -> (prev (pg (nodes st) (PPage i))).2 = role_type (ρ i).
Proof.
  intros I Hi. destruct (listed (ρ i)) as [h|] eqn:E; [|by apply (iv_alone _ _ _ _ I)].
  pose proof (listed_head _ _ _ _ _ _ I Hi E) as Hh. assert (Hin : i ∈ R h) by (by apply (iv_home _ _ _ _ I)).
  destruct (chain_prev _ _ _ _ _ (PPage i) (rg_chain _ _ (iv_rings _ _ _ _ I) h Hh)) as [y Hy]; [by apply page_in|].
  rewrite Hy. cbn [snd]. destruct (ρ i); cbn [listed] in E; try done; [by injection E as <-|]. case_decide; [done|]. by injection E as <-.
Qed.

Lemma inv_next st N R ρ i : Inv st N R ρ -> (i < N)%nat -> next (pg (nodes st) (PPage i)) = None <-> listed (ρ i) = None.
Proof.
  intros I Hi. split; [|by intros ?; apply (iv_alone _ _ _ _ I)]. intros Hn. destruct (listed (ρ i)) as [h|] eqn:E; [|done].
  pose proof (listed_head _ _ _ _ _ _ I Hi E) as Hh. assert (Hin : i ∈ R h) by (by apply (iv_home _ _ _ _ I)).
  by destruct (chain_next _ _ _ _ _ (PPage i) (rg_chain _ _ (iv_rings _ _ _ _ I) h Hh) ltac:(by apply page_in)).
Qed.

Lemma inv_unlisted st N R ρ i h : Inv st N R ρ -> h ∈ heads -> listed (ρ i) <> Some h -> i ∉ R h.
Proof. intros I Hh Hl Hin. by apply (iv_home _ _ _ _ I) in Hin as [_ ?]. Qed.

(** No ring is longer than the memory. *)
Lemma ring_short st N R ρ h : Inv st N R ρ -> h ∈ heads -> (length (R h) < S (size (nodes st)))%nat.
Proof.
  intros I Hh. apply Nat.lt_succ_r. rewrite <- (length_fmap PPage). rewrite <- size_dom. pose proof (ring_NoDup _ _ h (iv_rings _ _ _ _ I) Hh) as ND.
  apply NoDup_cons in ND as [_ ND]. rewrite <- (size_list_to_set (C := gset slab_ptr)) by done. apply subseteq_size. intros p Hp.
  apply elem_of_list_to_set in Hp. apply (inv_nodes_there _ _ _ _ I h Hh). by right.
Qed.

(** A change of the pages [T] only. *)
Lemma pool_update (T : nat -> Prop) `{forall i, Decision (T i)} st st' N R R' (ρ ρ' : roles) : Inv st N R ρ ->
  start st' = start st -> end_ st' = end_ st -> dom (nodes st') = dom (nodes st) -> Rings (nodes st') R' ->
  (forall h i, h ∈ heads -> i ∈ R' h <-> (i < N)%nat /\ listed (ρ' i) = Some h) ->
  (forall i, T i -> (i < N)%nat /\ enc (pslab st' i) (bitmaps st' !! i) (ρ' i) /\
     (listed (ρ' i) = None -> next (pg (nodes st') (PPage i)) = None /\ (prev (pg (nodes st') (PPage i))).2 = role_type (ρ' i))) ->
  (forall i, ~ T i -> ρ' i = ρ i /\ pslab st' i = pslab st i /\ bitmaps st' !! i = bitmaps st !! i /\
     ((forall h, h ∈ heads -> i ∉ R' h) -> pg (nodes st') (PPage i) = pg (nodes st) (PPage i))) ->
  (forall i, (i < N)%nat -> (i + span (ρ' i) <= N)%nat /\ forall k, (i < k < i + span (ρ' i))%nat -> ρ' k = RIn) ->
  (forall k, (k < N)%nat -> ρ' k = RIn -> exists i, (i < k < i + span (ρ' i))%nat) ->
  Inv st' N R' ρ'.
Proof.
  intros I Hst Hend Hdom HR Hhome HT HnT Hruns Hins. split; try done.
  - intros i Hi. rewrite Hdom. by apply (iv_pages _ _ _ _ I).
  - intros h Hh. rewrite Hdom. by apply (iv_heads _ _ _ _ I).
  - intros i Hi Hl. destruct (decide (T i)) as [Ht|Ht]; [by apply HT|]. destruct (HnT i Ht) as (Er & _ & _ & Hpg).
    rewrite Hpg; [rewrite Er in *; by apply (iv_alone _ _ _ _ I)|]. intros h Hh Hin. apply Hhome in Hin as [_ Hin]; [|done]. by rewrite Hl in Hin.
  - intros i Hi. destruct (decide (T i)) as [Ht|Ht]; [by apply HT|]. destruct (HnT i Ht) as (-> & -> & -> & _). by apply (iv_enc _ _ _ _ I).
  - rewrite Hst, Hend. by apply (iv_place _ _ _ _ I).
  - intros i Hi. destruct (decide (T i)) as [Ht|Ht]; [by apply HT in Ht as [Ht _]; lia|]. destruct (HnT i Ht) as (_ & Hs & _ & Hpg). rewrite Hs, Hpg.
    + by apply (iv_rest _ _ _ _ I).
    + intros h Hh Hin. apply Hhome in Hin as [Hin _]; [lia|done].
Qed.

(** * Giving pages *)

(** The first [k] of the [n] free pages from [i] on are given. *)
Definition carve (i k n : nat) (ρ : roles) : roles :=
  fun q => if decide (q = i) then RRun k else if decide (q = i + k /\ k < n)%nat then RFree (n - k) else ρ q.

Section AllocPages.
Context (st : ngx_slab_pool_t) (N : nat) (R : slab_ptr -> list nat) (ρ : roles) (I : Inv st N R ρ).

Section Found.
Context (i k n : nat) (Hi : (i < N)%nat) (Hr : ρ i = RFree n) (Hk : (0 < k <= n)%nat).

Lemma found_run : (i + n <= N)%nat /\ forall q, (i < q < i + n)%nat -> ρ q = RIn.
Proof. pose proof (iv_runs _ _ _ _ I i Hi) as Hs. by rewrite Hr in Hs. Qed.

Lemma found_in h : h ∈ heads -> i ∈ R h <-> h = PFree.
Proof.
  intros Hh. rewrite (iv_home _ _ _ _ I h i Hh), Hr. cbn [listed]. split; [by intros [_ [= <-]]|]. by intros ->.
Qed.

Lemma inner_out q h : (i < q < i + n)%nat -> h ∈ heads -> q ∉ R h.
Proof. intros Hq Hh. apply (inv_unlisted _ _ _ _ _ _ I Hh). by rewrite (proj2 found_run q Hq). Qed.

Definition take_out (g : ngx_slab_page_t) (st : ngx_slab_pool_t) : outcome ngx_slab_pool_t :=
  if slab g >? Z.of_nat k then
    let! st := wr (Some (PPage (i + k))) (fun _ => MkPage (slab g - Z.of_nat k) (next g) (prev g)) st in
    let! st := wr (prev g).1 (set_next (Some (PPage (i + k)))) st in
    wr (next g) (set_prev (Some (PPage (i + k)), 0)) st
  else unlink g st.

Lemma take_out_ok : exists st' R', take_out (pg (nodes st) (PPage i)) st = Ret st' /\ same_pool st st' /\ Rings (nodes st') R' /\
  (forall h q, h ∈ heads -> q ∈ R' h <-> (h = PFree /\ (k < n)%nat /\ q = i + k)%nat \/ (q ∈ R h /\ q <> i)) /\
  ((k < n)%nat -> pslab st' (i + k) = Z.of_nat (n - k)) /\
  (forall q, ~ (k < n /\ q = i + k)%nat -> pslab st' q = pslab st q) /\
  (forall q, (forall h, h ∈ heads -> q ∉ R' h) -> pg (nodes st') (PPage q) = pg (nodes st) (PPage q)).
Proof.
  assert (Hf : PFree ∈ heads) by (by left). pose proof (proj2 (found_in PFree Hf) eq_refl) as Hin.
  pose proof (iv_enc _ _ _ _ I i Hi) as He. rewrite Hr in He. destruct He as [Hs _]. unfold take_out. fold (pslab st i). rewrite Hs.
  destruct (Z.gtb_spec (Z.of_nat n) (Z.of_nat k)) as [Hlt|Hge].
  - destruct (list_elem_of_split _ _ Hin) as (l1 & l2 & El). pose proof found_run as [Hn _].
    assert (ND : NoDup (l1 ++ i :: l2)) by (rewrite <- El; by apply (rg_nodup _ _ (iv_rings _ _ _ _ I))).
    destruct (split_run_ok st R i (i + k) l1 l2 (Z.of_nat n - Z.of_nat k) (iv_rings _ _ _ _ I) (inv_nodes_there _ _ _ _ I) El) as (st' & E & Hsame & HR & Hs1 & Hs2 & Hpg).
    { intros h Hh. apply inner_out; [lia|done]. }
    { apply (iv_pages _ _ _ _ I). lia. }
    exists st', (put PFree (l1 ++ (i + k)%nat :: l2) R). split; [exact E|]. split; [done|]. split; [done|]. apply NoDup_app in ND as (_ & N1 & N2). apply NoDup_cons in N2 as [N2 _].
    assert (Hi12 : i ∉ l1 ++ l2) by (intros [H1|H1]%elem_of_app; [apply (N1 i H1); by left|done]).
    assert (Hmem : forall h q, h ∈ heads -> q ∈ put PFree (l1 ++ (i + k)%nat :: l2) R h <-> (h = PFree /\ (k < n)%nat /\ q = i + k)%nat \/ (q ∈ R h /\ q <> i)).
    { intros h q Hh. destruct (decide (h = PFree)) as [->|Hne].
      - rewrite put_eq, El, !elem_of_app, !elem_of_cons. rewrite elem_of_app in Hi12. split.
        + intros [Hq|[->|Hq]]; [right|left|right]; (split; [tauto|]); try (intros ->; tauto). split; [lia|done].
        + intros [(_ & _ & ->)|[[Hq|[->|Hq]] Hne]]; tauto.
      - rewrite put_ne by done. split; [|intros [[? _]|[? _]]; [done|done]]. intros Hq. right. split; [done|]. intros ->. apply Hne. by apply found_in. }
    split; [done|]. split; [intros _; unfold pslab; rewrite Hs1; lia|]. split.
    + intros q Hq. apply Hs2. intros ->. apply Hq. lia.
    + intros q Hq. apply Hpg.
      * intros ->. apply (Hq PFree Hf). apply Hmem; [done|]. left. split; [done|]. split; [lia|done].
      * intros Hq'. apply (Hq PFree Hf). rewrite put_eq. rewrite elem_of_app in Hq'. rewrite elem_of_app, elem_of_cons. tauto.
  - destruct (unlink_ring st R PFree i (iv_rings _ _ _ _ I) (inv_nodes_there _ _ _ _ I) Hf Hin) as (st' & E & Hsame & HR & Hsl & Hpg).
    exists st', (put PFree (without i (R PFree)) R). split; [done|]. split; [done|]. split; [done|]. split; [|split; [lia|split]].
    + intros h q Hh. destruct (decide (h = PFree)) as [->|Hne].
      * rewrite put_eq, elem_without. split; [by right|]. intros [(_ & ? & _)|?]; [lia|done].
      * rewrite put_ne by done. split; [|intros [[? _]|[? _]]; [done|done]]. intros Hq. right. split; [done|]. intros ->. apply Hne. by apply found_in.
    + intros q _. apply Hsl.
    + intros q Hq. apply Hpg. specialize (Hq PFree Hf). by rewrite put_eq in Hq.
Qed.

Lemma carve_runs q : (q < N)%nat -> (q + span (carve i k n ρ q) <= N)%nat /\ forall p, (q < p < q + span (carve i k n ρ q))%nat -> carve i k n ρ p = RIn.
Proof.
  intros Hq. pose proof found_run as [Hn Hin]. unfold carve. case_decide as E1; [|case_decide as E2]; cbn [span].
  - subst q. split; [lia|]. intros p Hp. rewrite !decide_False by lia. apply Hin. lia.
  - destruct E2 as [-> E2]. split; [lia|]. intros p Hp. rewrite !decide_False by lia. apply Hin. lia.
  - pose proof (iv_runs _ _ _ _ I q Hq) as [H1 H2]. split; [done|]. intros p Hp. pose proof (H2 p Hp) as Hp'. rewrite !decide_False; [done| |].
    + intros [-> Hkn]. destruct (decide (q < i)%nat) as [Hlt|Hge]; [by rewrite H2 in Hr by lia|]. rewrite Hin in Hp by lia. cbn in Hp. lia.
    + intros ->. by rewrite Hr in Hp'.
Qed.

Lemma carve_inside q : (q < N)%nat -> carve i k n ρ q = RIn -> exists p, (p < q < p + span (carve i k n ρ p))%nat.
Proof.
  intros Hq Hq'. pose proof found_run as [Hn Hin]. unfold carve in Hq'. case_decide as E1; [done|]. case_decide as E2; [done|].
  destruct (iv_inside _ _ _ _ I q Hq Hq') as (p & Hp). destruct (decide (p = i)) as [->|Hpi].
  - rewrite Hr in Hp. cbn [span] in Hp. destruct (decide (q < i + k)%nat).
    + exists i. unfold carve. rewrite decide_True by done. cbn [span]. lia.
    + exists (i + k)%nat. unfold carve. rewrite decide_False, decide_True by lia. cbn [span]. lia.
  - exists p. unfold carve. rewrite decide_False by done. case_decide as E3; [|done]. destruct E3 as [-> E3]. rewrite Hin in Hp by lia. cbn [span] in Hp. lia.
Qed.

Definition give (st : ngx_slab_pool_t) : outcome (option nat * ngx_slab_pool_t) :=
  let! st := take_out (pg (nodes st) (PPage i)) st in
  let! st := wr (Some (PPage i)) (fun _ => MkPage (Z.lor (Z.of_nat k) NGX_SLAB_PAGE_START) None (None, NGX_SLAB_PAGE)) st in
  let! st := mark_busy (k - 1) (S i) st in
  Ret (Some i, st).

Lemma give_ok : exists st' R', give st = Ret (Some i, st') /\ Inv st' N R' (carve i k n ρ) /\ (forall j, (j < 9)%nat -> R (PSlot j) = [] -> R' (PSlot j) = []) /\
  start st' = start st /\ end_ st' = end_ st.
Proof.
  pose proof found_run as [Hn Hrun]. destruct take_out_ok as (st1 & R1 & E1 & (Sb & Ss & Se & Sd) & HR1 & Hmem & Hnew & Hsl & Hpg). unfold give. rewrite E1. cbn [outcome_bind].
  assert (Hd : forall q, (q < N)%nat -> PPage q ∈ dom (nodes st1)) by (intros q Hq; rewrite Sd; by apply (iv_pages _ _ _ _ I)).
  rewrite wr_ok by (by apply Hd). cbn [outcome_bind]. set (st2 := set_nodes _ st1).
  destruct (fill_pages_ok (MkPage NGX_SLAB_PAGE_BUSY None (None, NGX_SLAB_PAGE)) (k - 1) (S i) st2) as (st3 & E3 & (Sb3 & Ss3 & Se3 & Sd3) & Hpg3).
  { intros q Hq. unfold st2. cbn [nodes set_nodes]. rewrite dom_insert_L. apply elem_of_union_r, Hd. lia. }
  change mark_busy with (fill_pages (MkPage NGX_SLAB_PAGE_BUSY None (None, NGX_SLAB_PAGE))). rewrite E3. cbn [outcome_bind].
  assert (Hpage : forall q, pg (nodes st3) (PPage q) = if decide (q = i) then MkPage (Z.lor (Z.of_nat k) NGX_SLAB_PAGE_START) None (None, NGX_SLAB_PAGE)
    else if decide (i < q < i + k)%nat then MkPage NGX_SLAB_PAGE_BUSY None (None, NGX_SLAB_PAGE) else pg (nodes st1) (PPage q)).
  { intros q. rewrite Hpg3. unfold st2. cbn [nodes set_nodes]. rewrite pg_insert. repeat case_decide; try lia; try congruence; done. }
  assert (Hhead : forall h, h ∈ heads -> pg (nodes st3) h = pg (nodes st1) h).
  { intros h Hh. rewrite Hpg3. pose proof (head_not_page h) as Hne. destruct h as [q| |]; [by destruct (Hne q Hh)|..]; unfold st2; cbn [nodes set_nodes]; by rewrite pg_insert, decide_False. }
  assert (Hkeep : forall h q, h ∈ heads -> q ∈ R1 h -> pg (nodes st3) (PPage q) = pg (nodes st1) (PPage q)).
  { intros h q Hh Hq. rewrite Hpage. apply Hmem in Hq; [|done]. rewrite !decide_False; [done| |].
    - intros Hq'. destruct Hq as [(_ & _ & ->)|[Hq _]]; [lia|]. apply (inner_out q h); [lia|done|done].
    - intros ->. destruct Hq as [(_ & _ & ?)|[_ ?]]; [lia|done]. }
  exists st3, R1. split; [done|]. split; [|split; [|by rewrite Ss3, Se3]].
  - apply (pool_update (fun q => (i <= q < i + k)%nat \/ (q = i + k /\ k < n)%nat) st st3 N R R1 ρ); [done|by rewrite Ss3|by rewrite Se3| | | | | |apply carve_runs|apply carve_inside].
    + rewrite Sd3. unfold st2. cbn [nodes set_nodes]. rewrite dom_insert_L, <- Sd. specialize (Hd i Hi). set_solver.
    + apply (rings_same (nodes st1)); [done| |].
      * intros h p Hh [->|Hp]%elem_of_cons; [by rewrite Hhead|]. apply list_elem_of_fmap in Hp as (q & -> & Hq). by rewrite (Hkeep h).
      * intros h q Hh Hq. by rewrite (Hkeep h).
    + intros h q Hh. rewrite Hmem by done. rewrite (iv_home _ _ _ _ I h q Hh). unfold carve. case_decide as D1; [|case_decide as D2]; cbn [listed].
      * subst q. split; [intros [(_ & _ & ?)|[_ ?]]; [lia|done]|by intros [_ ?]].
      * destruct D2 as [-> D2]. split; [|intros [_ [= <-]]; left; split; [done|lia]]. intros [(-> & _ & _)|[[Hq Hl] _]]; [split; [lia|done]|].
        by rewrite Hrun in Hl by lia.
      * split; [|by right]. intros [(_ & ? & ->)|[? _]]; [lia|done].
    + intros q Hq. split; [lia|]. unfold pslab. rewrite Hpage. unfold carve. case_decide as D1.
      * subst q. cbn [enc listed slab next prev snd role_type]. split; [split; [done|lia]|done].
      * destruct Hq as [Hq|[-> Hkn]].
        -- rewrite (decide_True (P := (i < q < i + k)%nat)), decide_False, Hrun by lia. cbn [enc listed slab next prev snd role_type]. split; [by right|done].
        -- rewrite (decide_False (P := (i < i + k < i + k)%nat)), decide_True by lia. cbn [enc listed]. split; [|done]. fold (pslab st1 (i + k)). split; [by apply Hnew|lia].
    + intros q Hq. unfold carve, pslab. rewrite Hpage, !(decide_False (P := q = i)) by lia. rewrite !(decide_False (P := (i < q < i + k)%nat)), !decide_False by lia.
      split; [done|]. split; [apply Hsl; lia|]. split; [by rewrite Sb3; unfold st2; cbn [bitmaps set_nodes]; rewrite Sb|]. apply Hpg.
  - intros j Hj He. destruct (R1 (PSlot j)) as [|q l] eqn:E; [done|]. exfalso. assert (Hh : PSlot j ∈ heads) by (by apply slot_head).
    destruct (proj1 (Hmem (PSlot j) q Hh) ltac:(rewrite E; by left)) as [(? & _)|[Hq _]]; [done|]. rewrite He in Hq. by apply elem_of_nil in Hq.
Qed.

End Found.

Lemma alloc_loop_ok (k : nat) l2 l1 fuel : (0 < k)%nat -> R PFree = l1 ++ l2 -> (length l2 < fuel)%nat ->
  (forall i n, i ∈ l1 -> ρ i = RFree n -> (n < k)%nat) ->
  (alloc_pages_loop fuel (Z.of_nat k) (Some (hd PFree (PPage <$> l2))) st = Ret (None, st) /\ forall i n, (i < N)%nat -> ρ i = RFree n -> (n < k)%nat) \/
  exists i n, (i < N)%nat /\ ρ i = RFree n /\ (k <= n)%nat /\ alloc_pages_loop fuel (Z.of_nat k) (Some (hd PFree (PPage <$> l2))) st = give i k st.
Proof.
  intros Hk. assert (Hf : PFree ∈ heads) by (by left). revert l1 fuel. induction l2 as [|i l2 IH]; intros l1 [|fuel] El Hfuel Hsmall; try (cbn in Hfuel; lia); cbn [fmap list_fmap hd alloc_pages_loop].
  - left. split; [done|]. intros i n Hi Hr. apply (Hsmall i n); [|done]. rewrite app_nil_r in El. rewrite <- El. apply (iv_home _ _ _ _ I); [done|]. by rewrite Hr.
  - assert (Hin : i ∈ R PFree) by (rewrite El, elem_of_app, elem_of_cons; tauto). pose proof Hin as Hhome. apply (iv_home _ _ _ _ I) in Hhome as [Hi Hl]; [|done].
    destruct (ρ i) as [n|n| |j B] eqn:Hr; cbn [listed] in Hl; try done; [|by case_decide].
    pose proof (iv_enc _ _ _ _ I i Hi) as He. rewrite Hr in He. destruct He as [Hs _].
    rewrite rd_ok by (by apply (iv_pages _ _ _ _ I)). cbn [outcome_bind]. fold (pslab st i). rewrite Hs.
    destruct (Z.geb_spec (Z.of_nat n) (Z.of_nat k)) as [Hge|Hlt].
    + right. exists i, n. split; [done|]. split; [done|]. split; [lia|]. unfold give, take_out. fold (pslab st i). rewrite Hs, Nat2Z.id. done.
    + pose proof (rg_chain _ _ (iv_rings _ _ _ _ I) PFree Hf) as C. rewrite El, fmap_app in C. cbn [fmap list_fmap] in C. apply chain_app in C as (_ & _ & C).
      rewrite (chain_first _ _ _ _ _ C). apply (IH (l1 ++ [i])); [by rewrite <- app_assoc|cbn in Hfuel; lia|].
      intros q m [Hq| ->%list_elem_of_singleton]%elem_of_app Hm; [by apply (Hsmall q)|]. rewrite Hr in Hm. injection Hm as <-. lia.
Qed.

(** Either there is no run of [k] free pages, or the first that is long enough is
    carved. *)
Lemma alloc_pages_ok (k : nat) : (0 < k)%nat ->
  (ngx_slab_alloc_pages (Z.of_nat k) st = Ret (None, st) /\ forall i n, (i < N)%nat -> ρ i = RFree n -> (n < k)%nat) \/
  exists i n st' R', ngx_slab_alloc_pages (Z.of_nat k) st = Ret (Some i, st') /\ (i < N)%nat /\ ρ i = RFree n /\ (k <= n)%nat /\ Inv st' N R' (carve i k n ρ) /\
    (forall j, (j < 9)%nat -> R (PSlot j) = [] -> R' (PSlot j) = []) /\ start st' = start st /\ end_ st' = end_ st.
Proof.
  intros Hk. assert (Hf : PFree ∈ heads) by (by left). unfold ngx_slab_alloc_pages. rewrite rd_ok by (by apply (iv_heads _ _ _ _ I)). cbn [outcome_bind].
  rewrite (ring_first _ _ PFree (iv_rings _ _ _ _ I) Hf). unfold first_of.
  destruct (alloc_loop_ok k (R PFree) [] (S (size (nodes st))) Hk eq_refl (ring_short _ _ _ _ _ I Hf)) as [Hno|(i & n & Hi & Hr & Hn & E)].
  - intros i n Hi. by apply elem_of_nil in Hi.
  - by left.
  - right. destruct (give_ok i k n Hi Hr ltac:(lia)) as (st' & R' & E' & Hrest). exists i, n, st', R'. rewrite E. split; [done|]. split_and!; try done; apply Hrest.
Qed.

End AllocPages.

(** * One page changes *)

Definition upd (i : nat) (r : role) (ρ : roles) : roles := fun q => if decide (q = i) then r else ρ q.

Lemma upd_eq i r ρ : upd i r ρ i = r.
Proof. unfold upd. by rewrite decide_True. Qed.

Lemma upd_ne i r ρ q : q <> i -> upd i r ρ q = ρ q.
Proof. intros Hq. unfold upd. by rewrite decide_False. Qed.

(** The page [i] of a run gets a role of the same length. *)
Lemma inv_upd st st' N R R' ρ i r : Inv st N R ρ -> (i < N)%nat -> ρ i <> RIn -> r <> RIn -> span r = span (ρ i) ->
  start st' = start st -> end_ st' = end_ st -> dom (nodes st') = dom (nodes st) -> Rings (nodes st') R' ->
  (forall h q, h ∈ heads -> q ∈ R' h <-> if decide (q = i) then listed r = Some h else q ∈ R h) ->
  enc (pslab st' i) (bitmaps st' !! i) r ->
  (listed r = None -> next (pg (nodes st') (PPage i)) = None /\ (prev (pg (nodes st') (PPage i))).2 = role_type r) ->
  (forall q, q <> i -> (pslab st' q = pslab st q \/ (i < q < i + span r)%nat /\ pslab st' q = 0) /\ bitmaps st' !! q = bitmaps st !! q /\
     ((forall h, h ∈ heads -> q ∉ R' h) -> next (pg (nodes st') (PPage q)) = next (pg (nodes st) (PPage q)) /\
       (prev (pg (nodes st') (PPage q))).2 = (prev (pg (nodes st) (PPage q))).2)) ->
  Inv st' N R' (upd i r ρ).
Proof.
  intros I Hi Hni Hnr Hspan Hst Hend Hdom HR Hhome He Hl Hq. pose proof (iv_runs _ _ _ _ I i Hi) as [Hrun1 Hrun2].
  split; try done.
  - intros q Hqn. rewrite Hdom. by apply (iv_pages _ _ _ _ I).
  - intros h Hh. rewrite Hdom. by apply (iv_heads _ _ _ _ I).
  - intros h q Hh. rewrite Hhome by done. unfold upd. case_decide as E; [subst; tauto|]. by apply (iv_home _ _ _ _ I).
  - intros q Hqn Hlq. destruct (decide (q = i)) as [->|Hne]; [rewrite upd_eq in *; by apply Hl|]. rewrite upd_ne in * by done.
    destruct (Hq q Hne) as (_ & _ & Hpg). destruct Hpg as [-> ->].
    + intros h Hh Hin. apply Hhome in Hin; [|done]. rewrite decide_False in Hin by done. apply (iv_home _ _ _ _ I) in Hin as [_ Hin]; [|done]. congruence.
    + by apply (iv_alone _ _ _ _ I).
  - intros q Hqn. destruct (decide (q = i)) as [->|Hne]; [by rewrite upd_eq|]. rewrite upd_ne by done. destruct (Hq q Hne) as ([Hs|[Hin Hs]] & Hb & _).
    + rewrite Hs, Hb. by apply (iv_enc _ _ _ _ I).
    + rewrite Hs. rewrite Hspan in Hin. rewrite (Hrun2 q Hin). by left.
  - intros q Hqn. destruct (decide (q = i)) as [->|Hne].
    + rewrite upd_eq, Hspan. split; [done|]. intros p Hp. rewrite upd_ne by lia. by apply Hrun2.
    + rewrite upd_ne by done. pose proof (iv_runs _ _ _ _ I q Hqn) as [H1 H2]. split; [done|]. intros p Hp. rewrite upd_ne; [by apply H2|].
      intros ->. by rewrite H2 in Hni.
  - intros q Hqn Hq'. unfold upd in Hq'. case_decide as E; [done|]. destruct (iv_inside _ _ _ _ I q Hqn Hq') as (p & Hp). exists p.
    destruct (decide (p = i)) as [->|Hne]; [by rewrite upd_eq, Hspan|by rewrite upd_ne].
  - rewrite Hst, Hend. by apply (iv_place _ _ _ _ I).
  - intros q Hqn. assert (Hne : q <> i) by lia. destruct (Hq q Hne) as (Hs & _ & Hpg). destruct (iv_rest _ _ _ _ I q Hqn) as [Hz Ht].
    destruct Hpg as [_ ->]; [|split; [|done]].
    + intros h Hh Hin. apply Hhome in Hin; [|done]. rewrite decide_False in Hin by done. apply (iv_home _ _ _ _ I) in Hin as [Hin _]; [lia|done].
    + destruct Hs as [->|[_ ?]]; done.
Qed.

End SlabInv.
