(* ===== verification/NgxSlabRun.v ===== *)
(** The operations of the slab allocator keep its invariant: an allocation gives
    a block that no other block touches, and a block that is freed is free again. *)

From S2P Require Import Prelude NgxSlab NgxSlabRings NgxSlabChunks NgxSlabInv.

#[local] Open Scope Z_scope.

Module SlabRun.

Export SlabInv.

Lemma marked_rings st st' i j B R : marked st st' i j B -> Rings (nodes st) R -> Rings (nodes st') R.
Proof. intros M HR. apply (rings_same (nodes st)); [done|..]; intros; apply M. Qed.

Lemma marked_there st st' i j B R : marked st st' i j B -> nodes_there st R -> nodes_there st' R.
Proof. intros M Hd h Hh p Hp. rewrite (mk_dom _ _ _ _ _ M). by apply (Hd h). Qed.

(** * A page comes to the front of a list *)

Lemma push_mem R h0 i h q : h ∈ heads -> (forall h, h ∈ heads -> i ∉ R h) -> q ∈ put h0 (i :: R h0) R h <-> if decide (q = i) then h0 = h else q ∈ R h.
Proof.
  intros Hh Hno. destruct (decide (h = h0)) as [->|Hne].
  - rewrite put_eq, elem_of_cons. case_decide as E; [subst; tauto|tauto].
  - rewrite put_ne by done. case_decide as E; [|done]. subst q. split; [intros Hin; by destruct (Hno h)|]. intros ->. done.
Qed.

(** Its list is that of its new role; the slab and the bits of the page may change too. *)
Lemma inv_push st st' N R ρ i r h : Inv st N R ρ -> (i < N)%nat -> listed (ρ i) = None -> ρ i <> RIn -> r <> RIn -> span r = span (ρ i) ->
  h ∈ heads -> listed r = Some h ->
  start st' = start st -> end_ st' = end_ st -> dom (nodes st') = dom (nodes st) -> Rings (nodes st') (put h (i :: R h) R) ->
  enc (pslab st' i) (bitmaps st' !! i) r ->
  (forall q, q <> i -> (pslab st' q = pslab st q \/ (i < q < i + span r)%nat /\ pslab st' q = 0) /\ bitmaps st' !! q = bitmaps st !! q /\
     (q ∉ R h -> next (pg (nodes st') (PPage q)) = next (pg (nodes st) (PPage q)) /\
       (prev (pg (nodes st') (PPage q))).2 = (prev (pg (nodes st) (PPage q))).2)) ->
  Inv st' N (put h (i :: R h) R) (upd i r ρ).
Proof.
  intros I Hi Hl Hn1 Hn2 Hspan Hh Hlr Hst Hend Hdom HR He Hq.
  assert (Hno : forall h, h ∈ heads -> i ∉ R h) by (intros h' Hh'; apply (inv_unlisted _ _ _ _ _ _ I Hh'); congruence).
  apply (inv_upd st st' N R _ ρ i); try done.
  - intros h' q Hh'. rewrite push_mem by done. case_decide; [|done]. rewrite Hlr. split; [by intros ->|by intros [= <-]].
  - by rewrite Hlr.
  - intros q Hne. destruct (Hq q Hne) as (H1 & H2 & H3). split; [done|]. split; [done|]. intros Hout. apply H3. intros Hin.
    apply (Hout h Hh). rewrite put_eq. by right.
Qed.

Lemma pushed_other st st' R h i q : pushed st st' R h i -> q <> i ->
  pslab st' q = pslab st q /\ bitmaps st' !! q = bitmaps st !! q /\
  (q ∉ R h -> next (pg (nodes st') (PPage q)) = next (pg (nodes st) (PPage q)) /\ (prev (pg (nodes st') (PPage q))).2 = (prev (pg (nodes st) (PPage q))).2).
Proof.
  intros ((Sb & _) & _ & Hsl & Hpg) Hq. split; [by apply Hsl|]. split; [by rewrite Sb|]. intros Hin. by rewrite Hpg.
Qed.

(** * The first chunk of a page *)

Definition new_slab (j : nat) : Z :=
  if (j <? 3)%nat then chunk_shift j else if (j =? 3)%nat then 1 else Z.lor (Z.shiftl 1 NGX_SLAB_MAP_SHIFT) (chunk_shift j).
Definition new_bitmap (j : nat) : list Z := (Z.shiftl 2 (map_chunks (chunk_shift j)) - 1) :: repeat 0 (map_words (chunk_shift j) - 1).

Definition marks_of (j : nat) (bm : list Z) : bool :=
  forallb (fun c => Bool.eqb (used j (new_slab j) (Some bm) c) (c <=? reserved j)) (seqZ 0 (chunk_count j)).

Lemma new_marks j : (j < 9)%nat -> marks_of j (new_bitmap j) = true.
Proof. revert j. apply each_slot. repeat constructor. Qed.


Lemma new_shape j bm : (j < 9)%nat -> ((j < 3)%nat -> bm = Some (new_bitmap j)) -> shape j (new_slab j) bm.
Proof.
  intros Hj. unfold shape, new_slab. destruct (j <? 3)%nat eqn:K1.
  - intros E. apply Nat.ltb_lt in K1 as K. split; [done|]. exists (new_bitmap j). split; [by apply E|]. clear E K1.
    assert (Hall : length (new_bitmap j) = map_words (chunk_shift j) /\ forallb (fun w => (0 <=? w) && (w <? 2 ^ 64)) (new_bitmap j) = true).
    { do 3 (destruct j as [|j]; [by vm_compute|]). lia. }
    destruct Hall as [Hl Hall]. split; [done|]. rewrite forallb_forall in Hall. apply Forall_forall. intros w Hw. apply list_elem_of_In, Hall in Hw. lia.
  - intros _. destruct (j =? 3)%nat eqn:K2; [done|]. apply Nat.ltb_ge in K1. apply Nat.eqb_neq in K2.
    revert j Hj K1 K2. apply (each_slot (fun j => (3 <= j)%nat -> j <> 3%nat -> _)). repeat constructor; try lia; vm_compute; congruence.
Qed.

Lemma enc_new j bm : (j < 9)%nat -> ((j < 3)%nat -> bm = Some (new_bitmap j)) -> enc (new_slab j) bm (RChunks j {[reserved j]}).
Proof.
  intros Hj Hbm. pose proof (slot_numbers j Hj) as (Hr & _). split; [done|]. split; [intros c ->%elem_of_singleton; apply elem_chunks; lia|].
  split; [by apply new_shape|]. intros c Hc. pose proof (new_marks j Hj) as Hm. unfold marks_of in Hm. rewrite forallb_forall in Hm.
  specialize (Hm c ltac:(apply list_elem_of_In, elem_of_seqZ; lia)). apply eqb_prop in Hm.
  transitivity (used j (new_slab j) (Some (new_bitmap j)) c).
  - destruct (Nat.ltb_spec j 3) as [K|K]; [by rewrite Hbm|]. unfold used. rewrite (proj2 (Nat.ltb_ge j 3)) by lia. done.
  - rewrite Hm. apply eq_true_iff_eq. rewrite bool_decide_eq_true, elem_of_singleton. lia.
Qed.

Section Ops.
Context (st : ngx_slab_pool_t) (N : nat) (R : slab_ptr -> list nat) (ρ : roles) (I : Inv st N R ρ).

(** * A chunk of a page *)

Section Page.
Context (i j : nat) (B : gset Z) (Hi : (i < N)%nat) (Hr : ρ i = RChunks j B).

Lemma page_slot : (j < 9)%nat.
Proof. pose proof (iv_enc _ _ _ _ I i Hi) as He. rewrite Hr in He. apply He. Qed.

Lemma page_listed : B <> chunks j -> forall h, h ∈ heads -> i ∈ R h <-> h = PSlot j.
Proof.
  intros Hne h Hh. rewrite (iv_home _ _ _ _ I h i Hh), Hr. cbn [listed]. rewrite decide_False by done. split; [by intros [_ [= <-]]|]. by intros ->.
Qed.

Lemma taken_ok st1 c : B <> chunks j -> marked st st1 i j ({[c]} ∪ B) ->
  exists st2 R2, taken st1 i j c (bool_decide ({[c]} ∪ B = chunks j)) = Ret (Some (page_addr i st + Z.shiftl c (chunk_shift j)), st2) /\
    Inv st2 N R2 (upd i (RChunks j ({[c]} ∪ B)) ρ) /\ start st2 = start st /\ end_ st2 = end_ st.
Proof.
  intros Hne M. pose proof page_slot as Hj. assert (Hh : PSlot j ∈ heads) by (by apply slot_head).
  pose proof (marked_rings _ _ _ _ _ _ M (iv_rings _ _ _ _ I)) as HR1. pose proof (marked_there _ _ _ _ _ _ M (inv_nodes_there _ _ _ _ I)) as Hd1.
  assert (Hin : i ∈ R (PSlot j)) by (by apply page_listed). unfold taken.
  destruct (bool_decide_reflect ({[c]} ∪ B = chunks j)) as [Hfull|Hnot].
  - unfold retire. assert (Hpi : PPage i ∈ dom (nodes st1)) by (apply (Hd1 _ Hh); right; by apply page_in).
    rewrite rd_ok by done. cbn [outcome_bind].
    destruct (unlink_ring st1 R (PSlot j) i HR1 Hd1 Hh Hin) as (st2 & E2 & (Sb & Ss & Se & Sd) & HR2 & Hsl & Hpg). rewrite E2. cbn [outcome_bind].
    rewrite wr_ok by (by rewrite Sd). cbn [outcome_bind]. set (st3 := set_nodes _ st2).
    assert (Hmem : forall h q, h ∈ heads -> q ∈ put (PSlot j) (without i (R (PSlot j))) R h <-> if decide (q = i) then False else q ∈ R h).
    { intros h q Hh'. destruct (decide (h = PSlot j)) as [->|Hne'].
      - rewrite put_eq, elem_without. case_decide; tauto.
      - rewrite put_ne by done. case_decide as E; [|done]. subst q. split; [|done]. intros Hq. apply Hne'. by apply page_listed. }
    assert (Hp3 : forall p, p <> PPage i -> pg (nodes st3) p = pg (nodes st2) p) by (intros p Hp; unfold st3; cbn [nodes set_nodes]; by rewrite pg_insert, decide_False).
    assert (Hi3 : pg (nodes st3) (PPage i) = MkPage (pslab st2 i) None (None, ring_type (PSlot j))).
    { unfold st3. cbn [nodes set_nodes]. by rewrite pg_insert, decide_True. }
    assert (Hslab : pslab st3 i = pslab st1 i) by (unfold pslab at 1; rewrite Hi3; cbn [slab]; apply Hsl).
    exists st3, (put (PSlot j) (without i (R (PSlot j))) R). split; [|split; [|split]].
    + unfold page_addr. unfold st3. cbn [start set_nodes]. by rewrite Ss, (mk_start _ _ _ _ _ M).
    + apply (inv_upd st st3 N R _ ρ i); [done|done|by rewrite Hr|done|by rewrite Hr| | | | |  | | |].
      * unfold st3. cbn [start set_nodes]. by rewrite Ss, (mk_start _ _ _ _ _ M).
      * unfold st3. cbn [end_ set_nodes]. by rewrite Se, (mk_end _ _ _ _ _ M).
      * unfold st3. cbn [nodes set_nodes]. rewrite dom_insert_L, Sd, (mk_dom _ _ _ _ _ M). rewrite (mk_dom _ _ _ _ _ M) in Hpi. set_solver.
      * apply (rings_same (nodes st2)); [done|..].
        -- intros h p Hh' Hp. rewrite Hp3; [done|]. intros ->. apply elem_of_cons in Hp as [Hp|Hp]; [by apply (head_not_page h i)|].
           apply page_in in Hp. apply Hmem in Hp; [|done]. by rewrite decide_True in Hp.
        -- intros h q Hh' Hq. rewrite Hp3; [done|]. intros [= ->]. apply Hmem in Hq; [|done]. by rewrite decide_True in Hq.
      * intros h q Hh'. rewrite Hmem by done. case_decide; [|done]. cbn [listed]. by rewrite decide_True.
      * rewrite Hslab. unfold st3. cbn [bitmaps set_nodes]. rewrite Sb. apply (mk_enc _ _ _ _ _ M).
      * intros _. by rewrite Hi3.
      * intros q Hq. unfold pslab. rewrite Hp3 by congruence. split; [left; rewrite Hsl; apply (mk_slab _ _ _ _ _ M); congruence|].
        split; [unfold st3; cbn [bitmaps set_nodes]; rewrite Sb; by apply (mk_bitmaps _ _ _ _ _ M)|]. intros Hno.
        rewrite Hpg; [|intros Hin'; apply (Hno (PSlot j) Hh); by rewrite put_eq].
        by rewrite (mk_next _ _ _ _ _ M), (mk_prev _ _ _ _ _ M).
    + unfold st3. cbn [start set_nodes]. by rewrite Ss, (mk_start _ _ _ _ _ M).
    + unfold st3. cbn [end_ set_nodes]. by rewrite Se, (mk_end _ _ _ _ _ M).
  - cbn [outcome_bind]. exists st1, R. split; [unfold page_addr; by rewrite (mk_start _ _ _ _ _ M)|].
    split; [|split; apply M]. apply (inv_upd st st1 N R R ρ i); [done|done|by rewrite Hr|done|by rewrite Hr|apply M|apply M|apply M|done| | | |].
    + intros h q Hh'. case_decide as E; [|done]. subst q. cbn [listed]. rewrite decide_False by done. rewrite page_listed by done. split; [by intros ->|by intros [= <-]].
    + apply M.
    + cbn [listed]. by rewrite decide_False.
    + intros q Hq. split; [left; apply (mk_slab _ _ _ _ _ M); congruence|]. split; [by apply (mk_bitmaps _ _ _ _ _ M)|].
      intros _. by rewrite (mk_next _ _ _ _ _ M), (mk_prev _ _ _ _ _ M).
Qed.

End Page.

(** * A new page for a slot *)

Lemma shift_kinds j : (chunk_shift j <? ngx_slab_exact_shift) = (j <? 3)%nat /\ (chunk_shift j =? ngx_slab_exact_shift) = (j =? 3)%nat.
Proof.
  unfold chunk_shift, ngx_slab_exact_shift. split.
  - destruct (Nat.ltb_spec j 3); [apply Z.ltb_lt|apply Z.ltb_ge]; lia.
  - destruct (Nat.eqb_spec j 3); [apply Z.eqb_eq|apply Z.eqb_neq]; lia.
Qed.

Lemma new_page_eq j st0 : (j < 9)%nat -> new_page (chunk_shift j) j st0 =
  let! (page, st) := ngx_slab_alloc_pages 1 st0 in
  match page with
  | None => Ret (None, st)
  | Some i =>
    let! st := link i j (new_slab j) (ring_type (PSlot j)) (if (j <? 3)%nat then set_bitmap i (new_bitmap j) st else st) in
    Ret (Some (page_addr i st + Z.shiftl (reserved j) (chunk_shift j)), st)
  end.
Proof.
  intros Hj. unfold new_page. destruct (ngx_slab_alloc_pages 1 st0) as [[[i|] st1]| |]; try done. cbn [outcome_bind].
  destruct (shift_kinds j) as [-> ->]. unfold new_slab, ring_type, reserved. destruct (j <? 3)%nat; [|destruct (j =? 3)%nat].
  - fold (new_bitmap j). destruct (link _ _ _ _ _) as [st2| |]; try done. cbn [outcome_bind]. do 3 f_equal.
    unfold chunk_shift. rewrite !Z.shiftl_mul_pow2 by lia. lia.
  - destruct (link _ _ _ _ _) as [st2| |]; try done. cbn [outcome_bind]. do 3 f_equal. rewrite Z.shiftl_0_l. lia.
  - destruct (link _ _ _ _ _) as [st2| |]; try done. cbn [outcome_bind]. do 3 f_equal. rewrite Z.shiftl_0_l. lia.
Qed.

Lemma new_page_ok j : (j < 9)%nat -> R (PSlot j) = [] ->
  (new_page (chunk_shift j) j st = Ret (None, st) /\ forall i n, (i < N)%nat -> ρ i = RFree n -> (n < 1)%nat) \/
  exists i n st' R', new_page (chunk_shift j) j st = Ret (Some (page_addr i st + Z.shiftl (reserved j) (chunk_shift j)), st') /\ (i < N)%nat /\ ρ i = RFree n /\
    (1 <= n)%nat /\ Inv st' N R' (upd i (RChunks j {[reserved j]}) (carve i 1 n ρ)) /\ start st' = start st /\ end_ st' = end_ st.
Proof.
  intros Hj Hempty. rewrite new_page_eq by done. change (ngx_slab_alloc_pages 1 st) with (ngx_slab_alloc_pages (Z.of_nat 1) st).
  destruct (alloc_pages_ok st N R ρ I 1 ltac:(lia)) as [[E Hno]|(i & n & st1 & R1 & E & Hi & Hr & Hn & I1 & He & Hs1 & Hend1)]; rewrite E; cbn [outcome_bind]; [by left|right].
  assert (Hh : PSlot j ∈ heads) by (by apply slot_head). specialize (He j Hj Hempty).
  set (st2 := if (j <? 3)%nat then set_bitmap i (new_bitmap j) st1 else st1).
  assert (Hn2 : nodes st2 = nodes st1) by (unfold st2; by destruct (j <? 3)%nat).
  assert (Hs2 : start st2 = start st1 /\ end_ st2 = end_ st1) by (unfold st2; by destruct (j <? 3)%nat).
  assert (Hb2 : forall q, q <> i -> bitmaps st2 !! q = bitmaps st1 !! q).
  { intros q Hq. unfold st2. destruct (j <? 3)%nat; [|done]. cbn [bitmaps set_bitmap]. by rewrite lookup_insert_ne. }
  assert (Hci : carve i 1 n ρ i = RRun 1) by (unfold carve; by rewrite decide_True).
  assert (Hno : forall h, h ∈ heads -> i ∉ R1 h) by (intros h Hh'; apply (inv_unlisted _ _ _ _ _ _ I1 Hh'); by rewrite Hci).
  destruct (link_ok st2 R1 i) with (j := j) (s := new_slab j) as (st3 & E3 & Hp & Hslab); [by rewrite Hn2; apply I1| |done| |done|done|].
  { intros h Hh'. rewrite Hn2. by apply (inv_nodes_there _ _ _ _ I1). }
  { rewrite Hn2. by apply (iv_pages _ _ _ _ I1). }
  rewrite E3. cbn [outcome_bind]. pose proof Hp as ((Sb & Ss & Se & Sd) & HR3 & _).
  exists i, n, st3, (put (PSlot j) (i :: R1 (PSlot j)) R1). destruct Hs2 as [Hs2 Hs2'].
  split; [unfold page_addr; by rewrite Ss, Hs2, Hs1|]. split; [done|]. split; [done|]. split; [done|]. split; [|by rewrite Ss, Hs2, Se, Hs2'].
  assert (Hnf : {[reserved j]} <> chunks j).
  { intros E'. pose proof (slot_numbers j Hj) as (Hr' & _ & _ & Hm). assert (Hin : reserved j + 1 ∈ chunks j) by (apply elem_chunks; lia).
    rewrite <- E' in Hin. apply elem_of_singleton in Hin. lia. }
  apply (inv_push st1 st3 N R1 _ i _ (PSlot j)); [done|done|by rewrite Hci|by rewrite Hci|done|by rewrite Hci|done| |by rewrite Ss|by rewrite Se|by rewrite Sd, Hn2|done| |].
  - cbn [listed]. by rewrite decide_False.
  - unfold pslab. rewrite Hslab. apply enc_new; [done|]. intros K. rewrite Sb. unfold st2. rewrite (proj2 (Nat.ltb_lt j 3) K). cbn [bitmaps set_bitmap]. apply lookup_insert_eq.
  - intros q Hq. destruct (pushed_other _ _ _ _ _ _ Hp Hq) as (H1 & H2 & H3). unfold pslab in *. rewrite Hn2 in *. rewrite Hb2 in H2 by done. split; [by left|done].
Qed.

(** * The allocation *)

Lemma shift_of_size bytes : 0 <= bytes < 2048 -> exists j, (j < 9)%nat /\
  (if bytes >? min_size then shift_loop 64 (bytes - 1) 1 else min_shift) = chunk_shift j /\ bytes <= 2 ^ chunk_shift j.
Proof.
  intros Hb. assert (Hall : forallb (fun b => existsb (fun j => ((if b >? min_size then shift_loop 64 (b - 1) 1 else min_shift) =? chunk_shift j) && (b <=? 2 ^ chunk_shift j)) (seq 0 9)) (seqZ 0 2048) = true) by (vm_compute; reflexivity).
  rewrite forallb_forall in Hall. specialize (Hall bytes ltac:(apply list_elem_of_In, elem_of_seqZ; lia)).
  apply existsb_exists in Hall as (j & Hj & Hc). apply in_seq in Hj. apply andb_true_iff in Hc as [H1 H2]. exists j. split; [lia|]. split; [by apply Z.eqb_eq|by apply Z.leb_le].
Qed.

(** The pages of a slot with chunks to give. *)
Lemma first_page j : (j < 9)%nat -> match R (PSlot j) with
  | [] => next (pg (nodes st) (PSlot j)) = Some (PSlot j)
  | i :: _ => next (pg (nodes st) (PSlot j)) = Some (PPage i) /\ next (pg (nodes st) (PPage i)) <> Some (PPage i) /\ (i < N)%nat /\
      exists B, ρ i = RChunks j B /\ B <> chunks j
  end.
Proof.
  intros Hj. assert (Hh : PSlot j ∈ heads) by (by apply slot_head). pose proof (rg_chain _ _ (iv_rings _ _ _ _ I) _ Hh) as C.
  pose proof (rg_nodup _ _ (iv_rings _ _ _ _ I) _ Hh) as ND. destruct (R (PSlot j)) as [|i l] eqn:E; [done|]. cbn [fmap list_fmap chain] in C. destruct C as (C1 & _ & C2).
  split; [done|]. split.
  - rewrite (chain_first _ _ _ _ _ C2). apply NoDup_cons in ND as [ND _]. destruct l as [|q l]; cbn; [done|]. intros [= ->]. apply ND. by left.
  - assert (Hin : i ∈ R (PSlot j)) by (rewrite E; by left). apply (iv_home _ _ _ _ I) in Hin as [Hi Hl]; [|done]. split; [done|].
    destruct (ρ i) as [| | |j' B]; cbn [listed] in Hl; try done. case_decide; [done|]. injection Hl as ->. by exists B.
Qed.

(** ** The blocks of a pool *)

(** The page [i] has a block of [len] bytes at [b]. *)
Definition block (s : Z) (i : nat) (r : role) (b len : Z) : Prop :=
  match r with
  | RRun n => b = s + Z.of_nat i * 4096 /\ len = Z.of_nat n * 4096
  | RChunks j B => exists c, c ∈ B /\ b = s + Z.of_nat i * 4096 + c * 2 ^ chunk_shift j /\ len = 2 ^ chunk_shift j
  | _ => False
  end.

(** The blocks of the page [i] are one more. *)
Definition one_more (s : Z) (ρ ρ' : roles) (i : nat) (a len : Z) : Prop :=
  block s i (ρ' i) a len /\ (forall l, ~ block s i (ρ i) a l) /\
  (forall q b l, block s q (ρ' q) b l <-> (q = i /\ b = a /\ l = len) \/ block s q (ρ q) b l).

Definition tidy (ρ : roles) : Prop := forall i j, ρ i <> RChunks j ∅.

Definition pages_for (bytes : Z) : Z :=
  if bytes >=? ngx_slab_max_size then Z.shiftr bytes ngx_pagesize_shift + (if bytes mod ngx_pagesize =? 0 then 0 else 1) else 1.

Lemma page_addr_eq i st0 : page_addr i st0 = start st0 + Z.of_nat i * 4096.
Proof. unfold page_addr, ngx_pagesize_shift. by rewrite Z.shiftl_mul_pow2. Qed.

Lemma chunk_addr_eq i st0 c j : page_addr i st0 + Z.shiftl c (chunk_shift j) = start st0 + Z.of_nat i * 4096 + c * 2 ^ chunk_shift j.
Proof. rewrite page_addr_eq, Z.shiftl_mul_pow2 by (unfold chunk_shift; lia). done. Qed.

Lemma carve_blocks s i k n q b l : (i < N)%nat -> ρ i = RFree n -> (k <= n)%nat ->
  block s q (carve i k n ρ q) b l <-> if decide (q = i) then block s q (RRun k) b l else block s q (ρ q) b l.
Proof.
  intros Hi Hr Hk. unfold carve. case_decide as E1; [done|]. case_decide as E2; [|done]. destruct E2 as [-> E2]. cbn [block].
  split; [intros []|]. pose proof (iv_runs _ _ _ _ I i Hi) as [_ Hin]. rewrite Hr in Hin. cbn [span] in Hin.
  destruct (decide (k = 0)%nat) as [->|]; [replace (i + 0)%nat with i in E1 by lia; done|]. by rewrite Hin by lia.
Qed.

Lemma run_more s i k n : (i < N)%nat -> ρ i = RFree n -> (k <= n)%nat -> one_more s ρ (carve i k n ρ) i (s + Z.of_nat i * 4096) (Z.of_nat k * 4096).
Proof.
  intros Hi Hr Hk. split; [|split].
  - rewrite carve_blocks by done. by rewrite decide_True.
  - intros l. rewrite Hr. intros [].
  - intros q b l. rewrite carve_blocks by done. case_decide as E; [|naive_solver]. subst q. rewrite Hr. cbn [block]. naive_solver.
Qed.

Lemma chunk_more s (ρ0 ρ1 : roles) i j B c : (forall q, q <> i -> forall b l, block s q (ρ1 q) b l <-> block s q (ρ0 q) b l) ->
  (forall b l, block s i (ρ0 i) b l <-> block s i (RChunks j B) b l) ->
  ρ1 i = RChunks j ({[c]} ∪ B) -> c ∉ B -> one_more s ρ0 ρ1 i (s + Z.of_nat i * 4096 + c * 2 ^ chunk_shift j) (2 ^ chunk_shift j).
Proof.
  intros Hne H0 H1 Hc. assert (Hpos : 0 < 2 ^ chunk_shift j) by (unfold chunk_shift; lia). split; [|split].
  - rewrite H1. exists c. split; [set_solver|done].
  - intros l. rewrite H0. intros (c' & Hc' & E & _). assert (c' = c) by nia. congruence.
  - intros q b l. destruct (decide (q = i)) as [->|Hq].
    + rewrite H0, H1. cbn [block]. split.
      * intros (c' & Hc' & -> & ->). apply elem_of_union in Hc' as [->%elem_of_singleton|Hc']; [by left|]. right. by exists c'.
      * intros [(_ & -> & ->)|(c' & Hc' & -> & ->)]; [exists c|exists c']; (split; [set_solver|done]).
    + rewrite Hne by done. naive_solver.
Qed.

Lemma upd_blocks s i r q b l : block s q (upd i r ρ q) b l <-> if decide (q = i) then block s q r b l else block s q (ρ q) b l.
Proof. unfold upd. by case_decide. Qed.

(** Either there are no pages for the block, or it is one that was not there. *)
Lemma alloc_locked_ok bytes : 0 <= bytes -> tidy ρ ->
  exists r st' R' ρ', ngx_slab_alloc_locked bytes st = Ret (r, st') /\ Inv st' N R' ρ' /\ tidy ρ' /\ start st' = start st /\ end_ st' = end_ st /\
  match r with
  | None => st' = st /\ ρ' = ρ /\ forall i n, (i < N)%nat -> ρ i = RFree n -> Z.of_nat n < pages_for bytes
  | Some a => exists i len, (i < N)%nat /\ one_more (start st) ρ ρ' i a len /\ bytes <= len /\ (bytes <= 4096 -> len <= 4096)
  end.
Proof.
  intros Hb Ht. unfold ngx_slab_alloc_locked, pages_for. destruct (Z.geb_spec bytes ngx_slab_max_size) as [Hbig|Hsmall].
  - unfold ngx_slab_max_size in Hbig. set (k := Z.shiftr bytes ngx_pagesize_shift + _).
    assert (Hk : 1 <= k /\ bytes <= k * 4096 /\ (bytes <= 4096 -> k = 1)).
    { unfold k, ngx_pagesize_shift, ngx_pagesize. rewrite Z.shiftr_div_pow2 by lia. change (2 ^ 12) with 4096. pose proof (Z.div_mod bytes 4096 ltac:(lia)).
      pose proof (Z.mod_pos_bound bytes 4096 ltac:(lia)). destruct (Z.eqb_spec (bytes mod 4096) 0); lia. }
    replace k with (Z.of_nat (Z.to_nat k)) by lia. destruct (alloc_pages_ok st N R ρ I (Z.to_nat k) ltac:(lia)) as [[E Hno]|(i & n & st1 & R1 & E & Hi & Hr & Hn & I1 & _ & Hs & He)];
      rewrite E; cbn [outcome_bind].
    + exists None, st, R, ρ. split_and!; try done. intros i n Hi Hr. specialize (Hno i n Hi Hr). lia.
    + exists (Some (page_addr i st1)), st1, R1, (carve i (Z.to_nat k) n ρ). split_and!; try done.
      * intros q j. unfold carve. repeat case_decide; done || apply Ht.
      * exists i, (Z.of_nat (Z.to_nat k) * 4096). split; [done|]. split; [rewrite page_addr_eq, Hs; by apply run_more|]. lia.
  - unfold ngx_slab_max_size in Hsmall. destruct (shift_of_size bytes ltac:(lia)) as (j & Hj & -> & Hfit).
    replace (Z.to_nat (chunk_shift j - min_shift)) with j by (unfold chunk_shift, min_shift; lia).
    assert (Hsz : 2 ^ chunk_shift j <= 4096).
    { change 4096 with (2 ^ 12). apply Z.pow_le_mono_r; [lia|]. unfold chunk_shift. lia. }
    assert (Hh : PSlot j ∈ heads) by (by apply slot_head). rewrite rd_ok by (by apply (iv_heads _ _ _ _ I)). cbn [outcome_bind].
    pose proof (first_page j Hj) as Hf. destruct (R (PSlot j)) as [|i l] eqn:El.
    + rewrite Hf, rd_ok by (by apply (iv_heads _ _ _ _ I)). cbn [outcome_bind]. rewrite decide_True by done. cbn [outcome_bind].
      destruct (new_page_ok j Hj El) as [[E Hno]|(i & n & st' & R' & E & Hi & Hr & Hn & I' & Hs & He)]; rewrite E.
      * exists None, st, R, ρ. split_and!; try done. intros i n Hi Hr. specialize (Hno i n Hi Hr). lia.
      * eexists (Some _), st', R', _. split; [done|]. split; [done|]. split; [|split; [done|split; [done|]]].
        -- intros q j'. unfold upd, carve. repeat case_decide; done || apply Ht.
        -- exists i, (2 ^ chunk_shift j). split; [done|]. split; [|done]. rewrite chunk_addr_eq.
           apply (chunk_more _ _ _ i j ∅); [|by rewrite Hr; cbn [block]; set_solver|rewrite upd_eq; f_equal; set_solver|set_solver].
           intros q Hq b l. rewrite upd_ne by done. rewrite carve_blocks by done. by rewrite decide_False.
    + destruct Hf as (Hf & Hne & Hi & B & Hr & HB). rewrite Hf, rd_ok by (by apply (iv_pages _ _ _ _ I)). cbn [outcome_bind]. rewrite decide_False by done.
      pose proof (iv_enc _ _ _ _ I i Hi) as He. rewrite Hr in He.
      destruct (chunk_of_ok st i j B (iv_pages _ _ _ _ I i Hi) He HB) as (c & st1 & Hc & HcB & M & E).
      destruct (taken_ok i j B Hi Hr st1 c HB M) as (st2 & R2 & E2 & I2 & Hs & Hend). rewrite E2 in E.
      assert (Hloop : chunk_loop (chunk_of j) (S (size (nodes st))) (Some (PPage i)) st = Ret (Some (page_addr i st + Z.shiftl c (chunk_shift j)), st2)).
      { cbn [chunk_loop]. rewrite E. done. }
      assert (Hcode : (if chunk_shift j <? ngx_slab_exact_shift then chunk_loop (small_chunk (chunk_shift j)) (S (size (nodes st))) (Some (PPage i)) st
         else if chunk_shift j =? ngx_slab_exact_shift then chunk_loop (exact_chunk (chunk_shift j)) (S (size (nodes st))) (Some (PPage i)) st
         else chunk_loop (big_chunk (Z.shiftl (Z.shiftl 1 (Z.shiftl 1 (ngx_pagesize_shift - Z.land (slab (pg (nodes st) (PPage i))) NGX_SLAB_SHIFT_MASK)) - 1) NGX_SLAB_MAP_SHIFT) (chunk_shift j))
                (S (size (nodes st))) (Some (PPage i)) st) = chunk_loop (chunk_of j) (S (size (nodes st))) (Some (PPage i)) st).
      { unfold chunk_of. destruct (shift_kinds j) as [-> ->]. destruct (j <? 3)%nat eqn:K1; [done|]. destruct (j =? 3)%nat eqn:K2; [done|].
        assert (K : (3 < j)%nat) by (apply Nat.ltb_ge in K1; apply Nat.eqb_neq in K2; lia).
        destruct (big_facts _ _ _ _ K He) as (_ & _ & _ & _ & Hsh). fold (pslab st i). rewrite Hsh. unfold big_mask. repeat f_equal.
        unfold chunk_count, chunk_shift, ngx_pagesize_shift. rewrite Z.shiftl_1_l. f_equal. lia. }
      rewrite Hcode, Hloop. cbn [outcome_bind]. eexists (Some _), st2, R2, _. split; [done|]. split; [done|]. split; [|split; [done|split; [done|]]].
      * intros q j'. unfold upd. destruct (decide (q = i)); [|apply Ht]. intros [= _ E']. assert (Hin : c ∈ (∅ : gset Z)) by (rewrite <- E'; set_solver). set_solver.
      * exists i, (2 ^ chunk_shift j). split; [done|]. split; [|done]. rewrite chunk_addr_eq.
        apply (chunk_more _ _ _ i j B); [|by rewrite Hr|by rewrite upd_eq|done]. intros q Hq b l'. by rewrite upd_ne.
Qed.

(** * The pages are free again *)

(** The list that the page is in, if any, loses it. *)
Lemma leave_ok st0 i : nodes_there st0 R -> Rings (nodes st0) R -> (i < N)%nat -> PPage i ∈ dom (nodes st0) ->
  next (pg (nodes st0) (PPage i)) = next (pg (nodes st) (PPage i)) ->
  exists st' R', match next (pg (nodes st0) (PPage i)) with Some _ => unlink (pg (nodes st0) (PPage i)) st0 | None => Ret st0 end = Ret st' /\
    same_pool st0 st' /\ Rings (nodes st') R' /\ (forall h q, h ∈ heads -> q ∈ R' h <-> q ∈ R h /\ q <> i) /\
    (forall p, slab (pg (nodes st') p) = slab (pg (nodes st0) p)) /\
    (forall q, (forall h, h ∈ heads -> q ∉ R' h) -> pg (nodes st') (PPage q) = pg (nodes st0) (PPage q)).
Proof.
  intros Hd HR Hi Hpi Hn. destruct (listed (ρ i)) as [h|] eqn:El.
  - pose proof (listed_head _ _ _ _ _ _ I Hi El) as Hh. assert (Hin : i ∈ R h) by (by apply (iv_home _ _ _ _ I)).
    destruct (next (pg (nodes st0) (PPage i))) as [p|] eqn:En; [|symmetry in Hn; apply (inv_next _ _ _ _ _ I Hi) in Hn; congruence].
    destruct (unlink_ring st0 R h i HR Hd Hh Hin) as (st' & E & Hs & HR' & Hsl & Hpg). exists st', (put h (without i (R h)) R).
    split; [done|]. split; [done|]. split; [done|]. split; [|split; [done|]].
    + intros h' q Hh'. destruct (decide (h' = h)) as [->|Hne]; [by rewrite put_eq, elem_without|]. rewrite put_ne by done. split; [|tauto].
      intros Hq. split; [done|]. intros ->. apply Hne. apply (iv_home _ _ _ _ I) in Hq as [_ Hq]; [|done]. congruence.
    + intros q Hq. apply Hpg. specialize (Hq h Hh). by rewrite put_eq in Hq.
  - rewrite Hn. rewrite (proj2 (inv_next _ _ _ _ _ I Hi) El). exists st0, R. split_and!; try done. intros h q Hh. split; [|tauto]. intros Hq. split; [done|].
    intros ->. apply (iv_home _ _ _ _ I) in Hq as [_ Hq]; [|done]. congruence.
Qed.

Lemma free_pages_ok i n : (i < N)%nat -> ρ i <> RIn -> (forall m, ρ i <> RFree m) -> n = span (ρ i) -> (0 < n)%nat ->
  exists st' R', ngx_slab_free_pages i (Z.of_nat n) st = Ret st' /\ Inv st' N R' (upd i (RFree n) ρ) /\ start st' = start st /\ end_ st' = end_ st.
Proof.
  intros Hi Hin Hnf -> Hn. set (n := span (ρ i)) in *. pose proof (iv_runs _ _ _ _ I i Hi) as [Hrun Hinner]. fold n in Hrun, Hinner.
  assert (Hd : forall q, (q < N)%nat -> PPage q ∈ dom (nodes st)) by apply (iv_pages _ _ _ _ I).
  unfold ngx_slab_free_pages. rewrite wr_ok by (by apply Hd). cbn [outcome_bind]. set (st1 := set_nodes _ st).
  assert (Hd1 : dom (nodes st1) = dom (nodes st)) by (unfold st1; cbn [nodes set_nodes]; rewrite dom_insert_L; specialize (Hd i Hi); set_solver).
  destruct (fill_pages_ok (MkPage 0 None (None, 0)) (n - 1) (S i) st1) as (st2 & E2 & (Sb2 & Ss2 & Se2 & Sd2) & Hpg2).
  { intros q Hq. rewrite Hd1. apply Hd. lia. }
  unfold zero_pages. replace (Z.to_nat (Z.of_nat n - 1)) with (n - 1)%nat by lia. rewrite E2. cbn [outcome_bind].
  assert (Hpage : forall q, pg (nodes st2) (PPage q) = if decide (q = i) then set_slab (Z.of_nat n) (pg (nodes st) (PPage i))
    else if decide (i < q < i + n)%nat then MkPage 0 None (None, 0) else pg (nodes st) (PPage q)).
  { intros q. rewrite Hpg2. unfold st1. cbn [nodes set_nodes]. rewrite pg_insert. repeat case_decide; try lia; try congruence; done. }
  assert (Hhead : forall h, h ∈ heads -> pg (nodes st2) h = pg (nodes st) h).
  { intros h Hh. rewrite Hpg2. pose proof (head_not_page h) as Hne. destruct h as [q| |]; [by destruct (Hne q Hh)|..]; unfold st1; cbn [nodes set_nodes]; by rewrite pg_insert, decide_False. }
  assert (Hout : forall q h, (i < q < i + n)%nat -> h ∈ heads -> q ∉ R h).
  { intros q h Hq Hh. apply (inv_unlisted _ _ _ _ _ _ I Hh). by rewrite Hinner. }
  assert (HR2 : Rings (nodes st2) R).
  { apply (rings_same (nodes st)); [apply I|..].
    - intros h p Hh [->|Hp]%elem_of_cons; [by rewrite Hhead|]. apply list_elem_of_fmap in Hp as (q & -> & Hq). rewrite Hpage. case_decide; [by subst|].
      rewrite decide_False; [done|]. intros Hq'. by apply (Hout q h).
    - intros h q Hh Hq. rewrite Hpage. case_decide; [by subst|]. rewrite decide_False; [done|]. intros Hq'. by apply (Hout q h). }
  assert (Hd2 : dom (nodes st2) = dom (nodes st)) by congruence.
  rewrite rd_ok by (rewrite Hd2; by apply Hd). cbn [outcome_bind].
  destruct (leave_ok st2 i) as (st3 & R3 & E3 & (Sb3 & Ss3 & Se3 & Sd3) & HR3 & Hmem & Hsl3 & Hpg3); [|done|done|rewrite Hd2; by apply Hd|by rewrite Hpage, decide_True|].
  { intros h Hh p Hp. rewrite Hd2. by apply (inv_nodes_there _ _ _ _ I h). }
  rewrite E3. cbn [outcome_bind].
  assert (Hno : forall h, h ∈ heads -> i ∉ R3 h) by (intros h Hh Hq; apply Hmem in Hq as [_ ?]; done).
  destruct (enlist_free_ok st3 R3 i HR3) as (st4 & E4 & Hp & Hslab); [|done|rewrite Sd3, Hd2; by apply Hd|].
  { intros h Hh p [->|Hp]%elem_of_cons; [rewrite Sd3, Hd2; by apply (iv_heads _ _ _ _ I)|]. apply list_elem_of_fmap in Hp as (q & -> & Hq). rewrite Sd3, Hd2.
    apply Hmem in Hq as [Hq _]; [|done]. apply (inv_nodes_there _ _ _ _ I h Hh). right. by apply page_in. }
  pose proof Hp as ((Sb & Ss & Se & Sd) & HR4 & _).
  assert (Hst : start st4 = start st) by (rewrite Ss, Ss3, Ss2; done). assert (Hend : end_ st4 = end_ st) by (rewrite Se, Se3, Se2; done).
  assert (Hbm : bitmaps st4 = bitmaps st) by (rewrite Sb, Sb3, Sb2; done).
  exists st4, (put PFree (i :: R3 PFree) R3). split; [done|]. split; [|done].
  apply (inv_upd st st4 N R _ ρ i); [done|done|done|done|done|done|done|congruence|done| | |done|].
  - intros h q Hh. rewrite push_mem by done. case_decide as E; [|rewrite Hmem by done; tauto]. cbn [listed]. split; [by intros ->|by intros [= <-]].
  - unfold pslab. rewrite Hslab, Hsl3, Hpage, decide_True by done. split; [done|lia].
  - intros q Hq. destruct (pushed_other _ _ _ _ _ _ Hp Hq) as (H1 & _ & H3). unfold pslab in *. rewrite H1, Hsl3, Hpage, decide_False by done. cbn [span]. rewrite Hbm.
    split; [case_decide; [by right|by left]|]. split; [done|]. intros Hno'. 
    assert (Hq3 : forall h, h ∈ heads -> q ∉ R3 h) by (intros h Hh Hq3; apply (Hno' h Hh); apply push_mem; [done|done|by rewrite decide_False]).
    destruct H3 as [-> ->]; [apply Hq3; by left|]. rewrite Hpg3, Hpage, decide_False by done. case_decide as D; [|done]. cbn [next prev snd].
    destruct (iv_alone _ _ _ _ I q ltac:(lia)) as [-> ->]; [by rewrite Hinner|]. by rewrite Hinner.
Qed.

(** * A chunk is free again *)

Section Free.
Context (i j : nat) (B : gset Z) (Hi : (i < N)%nat) (Hr : ρ i = RChunks j B).

(** A page without a spare chunk is listed again. *)
Lemma relist_step : exists st1, (if decide (B = chunks j) then relist i j (ring_type (PSlot j)) st else Ret st) = Ret st1 /\
  pslab st1 i = pslab st i /\ bitmaps st1 = bitmaps st /\ PPage i ∈ dom (nodes st1) /\ start st1 = start st /\
  forall st2 B', marked st1 st2 i j B' -> B' <> chunks j -> exists R2, Inv st2 N R2 (upd i (RChunks j B') ρ) /\ start st2 = start st /\ end_ st2 = end_ st.
Proof.
  pose proof (iv_enc _ _ _ _ I i Hi) as He. rewrite Hr in He. destruct He as [Hj _]. assert (Hh : PSlot j ∈ heads) by (by apply slot_head).
  pose proof (iv_pages _ _ _ _ I i Hi) as Hpi. destruct (decide (B = chunks j)) as [Hfull|Hnot].
  - assert (Hl : listed (ρ i) = None) by (rewrite Hr; cbn [listed]; by rewrite decide_True).
    assert (Hno : forall h, h ∈ heads -> i ∉ R h) by (intros h Hh'; apply (inv_unlisted _ _ _ _ _ _ I Hh'); congruence).
    destruct (relist_ok st R i (iv_rings _ _ _ _ I) (inv_nodes_there _ _ _ _ I) Hno Hpi j Hj) as (st1 & E & Hp & Hs). pose proof Hp as ((Sb & Ss & Se & Sd) & HR1 & _).
    exists st1. split; [done|]. split; [done|]. split; [done|]. split; [by rewrite Sd|]. split; [done|]. intros st2 B' M HB'.
    exists (put (PSlot j) (i :: R (PSlot j)) R). split; [|by rewrite (mk_start _ _ _ _ _ M), (mk_end _ _ _ _ _ M)].
    apply (inv_push st st2 N R ρ i _ (PSlot j)); [done|done|done|by rewrite Hr|done|by rewrite Hr|done| | | | | | |].
    + cbn [listed]. by rewrite decide_False.
    + by rewrite (mk_start _ _ _ _ _ M).
    + by rewrite (mk_end _ _ _ _ _ M).
    + by rewrite (mk_dom _ _ _ _ _ M).
    + by apply (marked_rings _ _ _ _ _ _ M).
    + apply M.
    + intros q Hq. destruct (pushed_other _ _ _ _ _ _ Hp Hq) as (H1 & H2 & H3). unfold pslab in *. rewrite (mk_slab _ _ _ _ _ M), (mk_bitmaps _ _ _ _ _ M), (mk_next _ _ _ _ _ M), (mk_prev _ _ _ _ _ M) by congruence.
      split; [by left|done].
  - exists st. split; [done|]. split; [done|]. split; [done|]. split; [done|]. split; [done|]. intros st2 B' M HB'. exists R.
    split; [|by rewrite (mk_start _ _ _ _ _ M), (mk_end _ _ _ _ _ M)].
    apply (inv_upd st st2 N R R ρ i); [done|done|by rewrite Hr|done|by rewrite Hr|apply M|apply M|apply M|apply (marked_rings _ _ _ _ _ _ M); apply I| | | |].
    + intros h q Hh'. case_decide as E; [|done]. subst q. cbn [listed]. rewrite decide_False by done. rewrite (page_listed i j B Hi Hr) by done. split; [by intros ->|by intros [= <-]].
    + apply M.
    + cbn [listed]. by rewrite decide_False.
    + intros q Hq. split; [left; apply (mk_slab _ _ _ _ _ M); congruence|]. split; [by apply (mk_bitmaps _ _ _ _ _ M)|].
      intros _. by rewrite (mk_next _ _ _ _ _ M), (mk_prev _ _ _ _ _ M).
Qed.

Lemma next_full : next (pg (nodes st) (PPage i)) = None <-> B = chunks j.
Proof. rewrite (inv_next _ _ _ _ _ I Hi), Hr. cbn [listed]. by case_decide. Qed.

End Free.

End Ops.

(** The page goes back when its last chunk does. *)
Lemma finish_free st N R ρ i j B : Inv st N R (upd i (RChunks j B) ρ) -> (i < N)%nat ->
  exists st' R' ρ', (if bool_decide (B = ∅) then ngx_slab_free_pages i 1 st else Ret st) = Ret st' /\ Inv st' N R' ρ' /\
    start st' = start st /\ end_ st' = end_ st /\ (forall q, q <> i -> ρ' q = ρ q) /\ ρ' i = (if bool_decide (B = ∅) then RFree 1 else RChunks j B).
Proof.
  intros I Hi. case_bool_decide as HB.
  - destruct (free_pages_ok st N R _ I i 1 Hi) as (st' & R' & E & I' & Hs & He); rewrite ?upd_eq; try done; [lia|].
    exists st', R', (upd i (RFree 1) (upd i (RChunks j B) ρ)). split; [done|]. split; [done|]. split; [done|]. split; [done|].
    split; [intros q Hq; by rewrite !upd_ne|by rewrite upd_eq].
  - exists st, R, (upd i (RChunks j B) ρ). split; [done|]. split; [done|]. split; [done|]. split; [done|]. split; [intros q Hq; by rewrite upd_ne|by rewrite upd_eq].
Qed.

End SlabRun.
