(* ===== verification/NgxSlabFree.v ===== *)
(** Freeing a block of the slab allocator: the page and the chunk of an address
    are found again, and the block is the only one that is gone. *)

From S2P Require Import Prelude NgxSlab NgxSlabRings NgxSlabChunks NgxSlabInv NgxSlabRun.

#[local] Open Scope Z_scope.

Module SlabFree.

Export SlabRun.

Lemma land_low_bits a n : 0 <= n -> Z.land a (Z.shiftl 1 n - 1) = a mod 2 ^ n.
Proof. intros Hn. rewrite Z.shiftl_1_l, Z.sub_1_r, <- Z.ones_equiv. by apply Z.land_ones. Qed.

(** * The place of an address *)

Section Address.
Context (s : Z) (i j : nat) (c : Z) (Hs : s mod 4096 = 0) (Hj : (j < 9)%nat) (Hc : 0 <= c < chunk_count j).

Definition chunk_at : Z := s + Z.of_nat i * 4096 + c * 2 ^ chunk_shift j.

Lemma chunk_offset : 0 <= c * 2 ^ chunk_shift j < 4096.
Proof.
  pose proof (slot_numbers j Hj) as (_ & _ & H & _). assert (0 < 2 ^ chunk_shift j) by (unfold chunk_shift; lia). nia.
Qed.

Lemma page_number : Z.to_nat (Z.shiftr (chunk_at - s) ngx_pagesize_shift) = i.
Proof.
  pose proof chunk_offset. unfold chunk_at, ngx_pagesize_shift. rewrite Z.shiftr_div_pow2 by lia. change (2 ^ 12) with 4096.
  replace (s + Z.of_nat i * 4096 + c * 2 ^ chunk_shift j - s) with (Z.of_nat i * 4096 + c * 2 ^ chunk_shift j) by lia.
  rewrite Z.div_add_l, Z.div_small by lia. lia.
Qed.

Lemma chunk_in_page : Z.land chunk_at (ngx_pagesize - 1) = c * 2 ^ chunk_shift j.
Proof.
  pose proof chunk_offset. change (ngx_pagesize - 1) with (Z.ones 12). rewrite Z.land_ones by lia. change (2 ^ 12) with 4096. unfold chunk_at.
  rewrite (Z.div_mod s 4096), Hs by lia.
  replace (4096 * (s / 4096) + 0 + Z.of_nat i * 4096 + c * 2 ^ chunk_shift j) with (c * 2 ^ chunk_shift j + (s / 4096 + Z.of_nat i) * 4096) by lia.
  by rewrite Z.mod_add, Z.mod_small by lia.
Qed.

Lemma chunk_number : Z.shiftr (Z.land chunk_at (ngx_pagesize - 1)) (chunk_shift j) = c.
Proof.
  rewrite chunk_in_page. assert (0 <= chunk_shift j) by (unfold chunk_shift; lia). rewrite Z.shiftr_div_pow2 by lia. rewrite Z.div_mul; [done|]. lia.
Qed.

Lemma chunk_aligned : Z.land chunk_at (Z.shiftl 1 (chunk_shift j) - 1) = 0.
Proof.
  pose proof (slot_numbers j Hj) as (_ & _ & H & _). assert (0 <= chunk_shift j) by (unfold chunk_shift; lia). rewrite land_low_bits by done. unfold chunk_at.
  rewrite (Z.div_mod s 4096), Hs, <- H by lia.
  replace (chunk_count j * 2 ^ chunk_shift j * (s / (chunk_count j * 2 ^ chunk_shift j)) + 0 + Z.of_nat i * (chunk_count j * 2 ^ chunk_shift j) + c * 2 ^ chunk_shift j)
    with ((chunk_count j * (s / (chunk_count j * 2 ^ chunk_shift j)) + Z.of_nat i * chunk_count j + c) * 2 ^ chunk_shift j) by lia.
  apply Z.mod_mul. lia.
Qed.

End Address.

Lemma slot_of_shift j : slot_of (chunk_shift j) = j.
Proof. unfold slot_of, chunk_shift, min_shift. lia. Qed.

Lemma low_shift j : (j < 9)%nat -> Z.land (chunk_shift j) NGX_SLAB_SHIFT_MASK = chunk_shift j.
Proof. revert j. apply each_slot. repeat constructor. Qed.

Section Free.
Context (st : ngx_slab_pool_t) (N : nat) (R : slab_ptr -> list nat) (ρ : roles) (I : Inv st N R ρ).

Lemma inside_pool a i off : (i < N)%nat -> a = start st + Z.of_nat i * 4096 + off -> 0 <= off < 4096 -> (a <? start st) || (a >? end_ st) = false.
Proof. intros Hi -> Hoff. destruct (iv_place _ _ _ _ I) as (_ & _ & Hp & _). assert (Z.of_nat i < Z.of_nat N) by lia. apply orb_false_iff. split; [apply Z.ltb_ge|rewrite Z.gtb_ltb; apply Z.ltb_ge]; nia. Qed.

(** What freeing a chunk leaves. *)
Definition freed_chunk (st' : ngx_slab_pool_t) (i j : nat) (B : gset Z) : Prop :=
  exists R' ρ', Inv st' N R' ρ' /\ start st' = start st /\ end_ st' = end_ st /\ (forall q, q <> i -> ρ' q = ρ q) /\
    ρ' i = (if bool_decide (B = ∅) then RFree 1 else RChunks j B).

Section Chunk.
Context (i j : nat) (B : gset Z) (c : Z) (Hi : (i < N)%nat) (Hr : ρ i = RChunks j B) (Hc : c ∈ B).

#[local] Abbreviation a := (chunk_at (start st) i j c).

Lemma chunk_facts : (j < 9)%nat /\ enc (pslab st i) (bitmaps st !! i) (RChunks j B) /\ c ∈ chunks j /\ 0 <= c < chunk_count j /\ used j (pslab st i) (bitmaps st !! i) c = true /\
  B ∖ {[c]} <> chunks j.
Proof.
  pose proof (iv_enc _ _ _ _ I i Hi) as He. rewrite Hr in He. pose proof He as (Hj & Hsub & _ & Hm). pose proof (Hsub c Hc) as Hc'. pose proof Hc' as Hc2. apply elem_chunks in Hc2.
  pose proof (slot_numbers j Hj) as (Hr' & _). split; [done|]. split; [done|]. split; [done|]. split; [lia|]. split.
  - rewrite Hm by lia. apply bool_decide_eq_true. by right.
  - intros E. rewrite <- E in Hc'. set_solver.
Qed.

Lemma finish_freed st2 R2 : Inv st2 N R2 (upd i (RChunks j (B ∖ {[c]})) ρ) -> start st2 = start st -> end_ st2 = end_ st ->
  exists st', (if bool_decide (B ∖ {[c]} = ∅) then ngx_slab_free_pages i 1 st2 else Ret st2) = Ret st' /\ freed_chunk st' i j (B ∖ {[c]}).
Proof.
  intros I2 Hs He. destruct (finish_free st2 N R2 ρ i j (B ∖ {[c]}) I2 Hi) as (st' & R' & ρ' & E & I' & Hs' & He' & Hq & Hi'). exists st'. split; [done|]. exists R', ρ'.
  split; [done|]. split; [congruence|]. split; [congruence|done].
Qed.

Lemma free_small : (j < 3)%nat -> exists st', ngx_slab_free_locked a st = Ret st' /\ freed_chunk st' i j (B ∖ {[c]}).
Proof.
  intros K. destruct chunk_facts as (Hj & He & Hcc & Hcr & Hu & Hnf). destruct (iv_place _ _ _ _ I) as (Hst & _ & _).
  unfold ngx_slab_free_locked. rewrite (inside_pool a i _ Hi eq_refl (chunk_offset j c Hj Hcr)). rewrite page_number by done. rewrite rd_ok by (by apply (iv_pages _ _ _ _ I)). cbn [outcome_bind].
  rewrite (inv_type _ _ _ _ _ I Hi), Hr. cbn [role_type]. rewrite ring_type_small, Z.eqb_refl by done. fold (pslab st i).
  pose proof He as (_ & _ & Hs & _). unfold shape in Hs. rewrite (small_kind j K) in Hs. destruct Hs as (Hsl & ws & Ews & _). rewrite Hsl, low_shift by done.
  rewrite chunk_aligned, chunk_number by done. cbn [Z.eqb negb]. unfold rd_bitmap. rewrite Ews in *. cbn [outcome_bind].
  destruct (small_facts _ _ _ _ K He) as (_ & Hl & Hws & Hcount & _ & Hub). rewrite Hub in Hu.
  assert (Hlt : (Z.to_nat (c / 64) < length ws)%nat).
  { assert (c / 64 < Z.of_nat (length ws)) by (apply Z.div_lt_upper_bound; lia). pose proof (Z.div_pos c 64 ltac:(lia) ltac:(lia)). lia. }
  destruct (lookup_lt_is_Some_2 ws _ Hlt) as [w Hw]. rewrite Hw. change 63 with (Z.ones 6). rewrite !Z.land_ones by lia. change (2 ^ 6) with 64.
  unfold word_bit in Hu. rewrite (nth_lookup_Some _ _ _ _ Hw) in Hu. rewrite Hu. pose proof (Z.mod_pos_bound c 64 ltac:(lia)) as Hb.
  destruct (relist_step st N R ρ I i j B Hi Hr) as (st1 & E1 & Hs1 & Hb1 & _ & _ & Hnext).
  assert (E1' : match next (pg (nodes st) (PPage i)) with Some _ => Ret st | None => relist i (slot_of (chunk_shift j)) NGX_SLAB_SMALL st end = Ret st1).
  { rewrite slot_of_shift, <- E1, <- (ring_type_small j K). pose proof (next_full st N R ρ I i j B Hi Hr) as Hn. case_decide as D; [by rewrite (proj2 Hn D)|].
    destruct (next _) eqn:En; [done|]. exfalso. by apply D, Hn. }
  rewrite E1'. cbn [outcome_bind].
  assert (Hce : Z.of_nat (Z.to_nat (c / 64)) * 64 + c mod 64 = c).
  { pose proof (Z.div_pos c 64 ltac:(lia) ltac:(lia)). rewrite Z2Nat.id by done. pose proof (Z.div_mod c 64 ltac:(lia)). lia. }
  pose proof (small_clear _ _ _ _ _ _ (c mod 64) Hw Hb K He) as He'. rewrite Hce in He'. specialize (He' Hcc).
  set (ws' := <[Z.to_nat (c / 64) := _]> ws) in *. assert (M : marked st1 (set_bitmap i ws' st1) i j (B ∖ {[c]})) by (apply marked_bitmap; by rewrite Hs1).
  destruct (Hnext _ _ M Hnf) as (R2 & I2 & Hs2 & He2). destruct (finish_freed _ _ I2 Hs2 He2) as (st' & E' & Hf). exists st'. split; [|done]. rewrite <- E'.
  rewrite <- (small_empty _ _ _ _ K He'). destruct (Z.ldiff _ _ =? 0); cbn [negb andb]; [|done]. by destruct (existsb _ _).
Qed.

Lemma free_big : (3 < j)%nat -> exists st', ngx_slab_free_locked a st = Ret st' /\ freed_chunk st' i j (B ∖ {[c]}).
Proof.
  intros K. destruct chunk_facts as (Hj & He & Hcc & Hcr & Hu & Hnf). destruct (iv_place _ _ _ _ I) as (Hst & _ & _).
  unfold ngx_slab_free_locked. rewrite (inside_pool a i _ Hi eq_refl (chunk_offset j c Hj Hcr)). rewrite page_number by done. rewrite rd_ok by (by apply (iv_pages _ _ _ _ I)). cbn [outcome_bind].
  rewrite (inv_type _ _ _ _ _ I Hi), Hr. cbn [role_type]. rewrite ring_type_big by done. change (NGX_SLAB_BIG =? NGX_SLAB_SMALL) with false. change (NGX_SLAB_BIG =? NGX_SLAB_EXACT) with false.
  rewrite Z.eqb_refl. fold (pslab st i). destruct (big_facts _ _ _ _ K He) as (_ & _ & _ & Hub & Hsh). rewrite Hsh.
  rewrite chunk_aligned, chunk_number by done. cbn [Z.eqb negb]. rewrite Hub in Hu. change NGX_SLAB_MAP_SHIFT with 32. rewrite Hu.
  destruct (relist_step st N R ρ I i j B Hi Hr) as (st1 & E1 & Hs1 & Hb1 & Hd1 & _ & Hnext).
  assert (E1' : match next (pg (nodes st) (PPage i)) with Some _ => Ret st | None => relist i (slot_of (chunk_shift j)) NGX_SLAB_BIG st end = Ret st1).
  { rewrite slot_of_shift, <- E1, <- (ring_type_big j K). pose proof (next_full st N R ρ I i j B Hi Hr) as Hn. case_decide as D; [by rewrite (proj2 Hn D)|].
    destruct (next _) eqn:En; [done|]. exfalso. by apply D, Hn. }
  rewrite E1'. cbn [outcome_bind].
  pose proof (big_clear _ _ _ _ c K He Hcc) as He'. rewrite <- Hb1 in He'. destruct (marked_slab st1 i j _ _ Hd1 He') as (st2 & E2 & M & _). rewrite E2. cbn [outcome_bind].
  destruct (Hnext _ _ M Hnf) as (R2 & I2 & Hs2 & He2). destruct (finish_freed _ _ I2 Hs2 He2) as (st' & E' & Hf). exists st'. split; [|done]. rewrite <- E'.
  rewrite (big_empty _ _ _ _ K He'). destruct (decide (B ∖ {[c]} = ∅)); [by rewrite !bool_decide_eq_true_2|by rewrite !bool_decide_eq_false_2].
Qed.

End Chunk.

Lemma free_exact i B c : (i < N)%nat -> ρ i = RChunks 3 B -> c ∈ B ->
  exists st', ngx_slab_free_locked (chunk_at (start st) i 3 c) st = Ret st' /\ freed_chunk st' i 3 (B ∖ {[c]}).
Proof.
  intros Hi Hr Hc. destruct (chunk_facts i 3 B c Hi Hr Hc) as (Hj & He & Hcc & Hcr & Hu & Hnf). destruct (iv_place _ _ _ _ I) as (Hst & _ & _).
  unfold ngx_slab_free_locked. rewrite (inside_pool (chunk_at (start st) i 3 c) i _ Hi eq_refl (chunk_offset 3 c Hj Hcr)). rewrite page_number by done. rewrite rd_ok by (by apply (iv_pages _ _ _ _ I)). cbn [outcome_bind].
  rewrite (inv_type _ _ _ _ _ I Hi), Hr. cbn [role_type]. change ngx_slab_exact_size with (Z.shiftl 1 (chunk_shift 3)). change ngx_slab_exact_shift with (chunk_shift 3).
  cbn [ring_type Nat.ltb Nat.leb Nat.eqb]. change (NGX_SLAB_EXACT =? NGX_SLAB_SMALL) with false. change (NGX_SLAB_EXACT =? NGX_SLAB_EXACT) with true. cbn iota.
  rewrite chunk_aligned, chunk_number by done. cbn [Z.eqb negb]. fold (pslab st i). unfold used in Hu. cbn [Nat.ltb Nat.leb Nat.eqb] in Hu. rewrite Hu.
  destruct (relist_step st N R ρ I i 3 B Hi Hr) as (st1 & E1 & Hs1 & Hb1 & Hd1 & _ & Hnext).
  rewrite (exact_full _ _ _ He), slot_of_shift. change NGX_SLAB_EXACT with (ring_type (PSlot 3)).
  assert (E1' : (if bool_decide (B = chunks 3) then relist i 3 (ring_type (PSlot 3)) st else Ret st) = Ret st1).
  { rewrite <- E1. destruct (decide (B = chunks 3)); [by rewrite bool_decide_eq_true_2|by rewrite bool_decide_eq_false_2]. }
  rewrite E1'. cbn [outcome_bind].
  pose proof (exact_clear _ _ _ c He Hcc) as He'. rewrite <- Hb1 in He'. destruct (marked_slab st1 i 3 _ _ Hd1 He') as (st2 & E2 & M & _). rewrite E2. cbn [outcome_bind].
  destruct (Hnext _ _ M Hnf) as (R2 & I2 & Hs2 & He2). destruct (finish_freed i 3 B c Hi _ _ I2 Hs2 He2) as (st' & E' & Hf). exists st'. split; [|done]. rewrite <- E'.
  rewrite (exact_empty _ _ _ He'). destruct (decide (B ∖ {[c]} = ∅)); [by rewrite !bool_decide_eq_true_2|by rewrite !bool_decide_eq_false_2].
Qed.

(** ** A run of pages *)

Lemma start_bit c : 0 <= c -> Z.testbit NGX_SLAB_PAGE_START c = (c =? 63).
Proof. intros Hc. change NGX_SLAB_PAGE_START with (2 ^ 63). rewrite Z.pow2_bits_eqb by lia. apply Z.eqb_sym. Qed.

Lemma run_slab n : 0 <= n < 2 ^ 62 -> let s := Z.lor n NGX_SLAB_PAGE_START in
  Z.ldiff s NGX_SLAB_PAGE_START = n /\ s <> NGX_SLAB_PAGE_FREE /\ s <> NGX_SLAB_PAGE_BUSY.
Proof.
  intros Hn. cbn zeta. assert (Hbit : forall c, 62 <= c -> Z.testbit n c = false) by (apply below_iff; lia). split; [|split].
  - apply Z.bits_inj'. intros c Hc. rewrite Z.ldiff_spec, Z.lor_spec, start_bit by done. destruct (Z.eqb_spec c 63) as [->|]; cbn [negb].
    + rewrite Hbit by lia. done.
    + by rewrite orb_false_r, andb_true_r.
  - intros E. assert (H : Z.testbit (Z.lor n NGX_SLAB_PAGE_START) 63 = true) by (rewrite Z.lor_spec, start_bit by lia; apply orb_true_r). rewrite E in H. done.
  - intros E. assert (H : Z.testbit (Z.lor n NGX_SLAB_PAGE_START) 62 = false) by (rewrite Z.lor_spec, start_bit, Hbit by lia; done). rewrite E in H. done.
Qed.

Lemma run_bound i : (i < N)%nat -> 0 <= Z.of_nat (span (ρ i)) < 2 ^ 62.
Proof.
  intros Hi. pose proof (iv_runs _ _ _ _ I i Hi) as [Hn _]. destruct (iv_place _ _ _ _ I) as (_ & H0 & H1 & H2). lia.
Qed.

Lemma free_run i n : (i < N)%nat -> ρ i = RRun n ->
  exists st' R', ngx_slab_free_locked (start st + Z.of_nat i * 4096) st = Ret st' /\ Inv st' N R' (upd i (RFree n) ρ) /\ start st' = start st /\ end_ st' = end_ st.
Proof.
  intros Hi Hr. destruct (iv_place _ _ _ _ I) as (Hst & _ & _). pose proof (run_bound i Hi) as Hb. rewrite Hr in Hb. cbn [span] in Hb.
  pose proof (iv_enc _ _ _ _ I i Hi) as He. rewrite Hr in He. destruct He as [Hs Hn]. pose proof (run_slab (Z.of_nat n) Hb) as (H1 & H2 & H3).
  assert (Ea : start st + Z.of_nat i * 4096 = chunk_at (start st) i 0 0) by (unfold chunk_at; lia). rewrite Ea.
  assert (Hc : 0 <= 0 < chunk_count 0) by done.
  unfold ngx_slab_free_locked. rewrite (inside_pool (chunk_at (start st) i 0 0) i _ Hi eq_refl (chunk_offset 0 0 ltac:(lia) Hc)).
  rewrite page_number by (done || lia). rewrite rd_ok by (by apply (iv_pages _ _ _ _ I)). cbn [outcome_bind].
  rewrite (inv_type _ _ _ _ _ I Hi), Hr. cbn [role_type]. change (NGX_SLAB_PAGE =? NGX_SLAB_SMALL) with false. change (NGX_SLAB_PAGE =? NGX_SLAB_EXACT) with false.
  change (NGX_SLAB_PAGE =? NGX_SLAB_BIG) with false. rewrite chunk_in_page by (done || lia). cbn [Z.mul Z.eqb negb]. fold (pslab st i). rewrite Hs.
  rewrite (proj2 (Z.eqb_neq _ _) H2), (proj2 (Z.eqb_neq _ _) H3), H1.
  apply (free_pages_ok st N R ρ I i n Hi); rewrite ?Hr; done.
Qed.

(** A block that is there is the only one that is gone after it is freed. *)
Lemma free_locked_ok i a len : tidy ρ -> (i < N)%nat -> block (start st) i (ρ i) a len ->
  exists st' R' ρ', ngx_slab_free_locked a st = Ret st' /\ Inv st' N R' ρ' /\ tidy ρ' /\ start st' = start st /\ end_ st' = end_ st /\
    (forall q b l, block (start st) q (ρ' q) b l <-> block (start st) q (ρ q) b l /\ ~ (q = i /\ b = a)).
Proof.
  intros Ht Hi Hb. destruct (ρ i) as [|n| |j B] eqn:Hr; cbn [block] in Hb; try done.
  - destruct Hb as [-> ->]. destruct (free_run i n Hi Hr) as (st' & R' & E & I' & Hs & He). exists st', R', (upd i (RFree n) ρ). split_and!; try done.
    + intros q j. unfold upd. case_decide; [done|apply Ht].
    + intros q b l. unfold upd. case_decide as D; [subst q; rewrite Hr; cbn [block]; naive_solver|naive_solver].
  - destruct Hb as (c & Hc & -> & ->). fold (chunk_at (start st) i j c).
    assert (Hf : exists st', ngx_slab_free_locked (chunk_at (start st) i j c) st = Ret st' /\ freed_chunk st' i j (B ∖ {[c]})).
    { destruct (Nat.lt_total j 3) as [K|[->|K]]; [by apply free_small|by apply free_exact|by apply free_big]. }
    destruct Hf as (st' & E & R' & ρ' & I' & Hs & He & Hq & Hi'). exists st', R', ρ'. split_and!; try done.
    + intros q j'. destruct (decide (q = i)) as [->|Hne]; [|rewrite Hq by done; apply Ht]. rewrite Hi'. case_bool_decide; [done|]. intros [= _ E']. done.
    + intros q b l. destruct (decide (q = i)) as [->|Hne]; [|rewrite Hq by done; naive_solver]. rewrite Hi', Hr. unfold chunk_at.
      assert (Hpos : 0 < 2 ^ chunk_shift j) by (unfold chunk_shift; lia).
      assert (Hmain : block (start st) i (RChunks j (B ∖ {[c]})) b l <-> block (start st) i (RChunks j B) b l /\ ~ (i = i /\ b = start st + Z.of_nat i * 4096 + c * 2 ^ chunk_shift j)).
      { cbn [block]. split.
        - intros (c' & Hc' & -> & ->). apply elem_of_difference in Hc' as [Hc' Hne]. split; [by exists c'|]. intros [_ E']. apply Hne, elem_of_singleton. nia.
        - intros [(c' & Hc' & -> & ->) Hne]. exists c'. split; [|done]. apply elem_of_difference. split; [done|]. intros ->%elem_of_singleton. by apply Hne. }
      rewrite <- Hmain. case_bool_decide as D; [|done]. rewrite D. cbn [block]. split; [intros []|]. intros (c' & Hc' & _). set_solver.
Qed.

End Free.

End SlabFree.
