(* ===== verification/NgxSlabSpec.v ===== *)
(** What the slab allocator promises: the blocks that are in use lie in the pool
    and never touch, every one can be freed, and an allocation of at most a page
    fails only when the blocks in use are as many as the pages. *)

From S2P Require Import Prelude NgxSlab NgxSlabRings NgxSlabChunks NgxSlabInv NgxSlabRun NgxSlabFree.

#[local] Open Scope Z_scope.

Module SlabSpec.

Export SlabFree.

(** * Blocks do not touch *)

Section Blocks.
Context (st : ngx_slab_pool_t) (N : nat) (R : slab_ptr -> list nat) (ρ : roles) (I : Inv st N R ρ).

#[local] Abbreviation s := (start st).

Lemma block_inside i a l : (i < N)%nat -> block s i (ρ i) a l ->
  s + Z.of_nat i * 4096 <= a /\ 0 < l /\ a + l <= s + Z.of_nat (i + span (ρ i)) * 4096.
Proof.
  intros Hi. pose proof (iv_enc _ _ _ _ I i Hi) as He. destruct (ρ i) as [n|n| |j B]; cbn [block span]; try done.
  - intros [-> ->]. destruct He as [_ Hn]. lia.
  - intros (c & Hc & -> & ->). destruct He as (Hj & Hsub & _). apply Hsub, elem_chunks in Hc. pose proof (slot_numbers j Hj) as (Hr & _ & H & _).
    assert (0 < 2 ^ chunk_shift j) by (unfold chunk_shift; lia). assert ((c + 1) * 2 ^ chunk_shift j <= chunk_count j * 2 ^ chunk_shift j) by nia. nia.
Qed.

Lemma later_page i i' b k : (i < i' < N)%nat -> block s i' (ρ i') b k -> (i + span (ρ i) <= i')%nat.
Proof.
  intros Hi Hb. destruct (decide (i' < i + span (ρ i))%nat); [|lia]. pose proof (iv_runs _ _ _ _ I i ltac:(lia)) as [_ H]. by rewrite H in Hb by lia.
Qed.

Lemma blocks_apart i i' a l b k : (i < N)%nat -> (i' < N)%nat -> block s i (ρ i) a l -> block s i' (ρ i') b k ->
  (i = i' /\ a = b /\ l = k) \/ a + l <= b \/ b + k <= a.
Proof.
  intros Hi Hi' Ha Hb. destruct (block_inside i a l Hi Ha) as (H1 & H2 & H3). destruct (block_inside i' b k Hi' Hb) as (H4 & H5 & H6).
  destruct (Nat.lt_total i i') as [Hlt|[->|Hlt]].
  - pose proof (later_page i i' b k ltac:(lia) Hb). right. left. lia.
  - destruct (ρ i') as [n|n| |j B]; cbn [block] in *; try done; [left; naive_solver|]. destruct Ha as (c & Hc & -> & ->), Hb as (c' & Hc' & -> & ->).
    destruct (Z.lt_total c c') as [Hcc|[->|Hcc]]; [right; left; nia|by left|right; right; nia].
  - pose proof (later_page i' i a l ltac:(lia) Ha). right. right. lia.
Qed.

(** Every page has a block when none is free and no run is longer than one. *)
Definition some_block (i : nat) : Z :=
  s + Z.of_nat i * 4096 + match ρ i with RChunks j B => hd 0 (elements B) * 2 ^ chunk_shift j | _ => 0 end.

Lemma busy_page i : tidy ρ -> (i < N)%nat -> (forall i n, (i < N)%nat -> ρ i = RFree n -> (n < 1)%nat) ->
  (forall i a l, (i < N)%nat -> block s i (ρ i) a l -> l <= 4096) -> exists l, block s i (ρ i) (some_block i) l.
Proof.
  intros Ht Hi Hno Hone. unfold some_block. pose proof (iv_enc _ _ _ _ I i Hi) as He. destruct (ρ i) as [n|n| |j B] eqn:Hr; cbn [block].
  - destruct He as [_ Hn]. specialize (Hno i n Hi Hr). lia.
  - exists (Z.of_nat n * 4096). split; [lia|done].
  - exfalso. destruct (iv_inside _ _ _ _ I i Hi Hr) as (p & Hp). pose proof (iv_enc _ _ _ _ I p ltac:(lia)) as Hep. destruct (ρ p) as [n|n| |j B] eqn:Hrp; cbn [span] in Hp; try lia.
    + specialize (Hno p n ltac:(lia) Hrp). lia.
    + specialize (Hone p (s + Z.of_nat p * 4096) (Z.of_nat n * 4096) ltac:(lia)). rewrite Hrp in Hone. specialize (Hone ltac:(done)). lia.
  - exists (2 ^ chunk_shift j), (hd 0 (elements B)). split; [|done]. destruct (elements B) as [|c l] eqn:E; [apply elements_empty_inv, leibniz_equiv in E; by destruct (Ht i j); rewrite Hr, E|].
    apply elem_of_elements. rewrite E. by left.
Qed.

Lemma full_pages (m : gset Z) : tidy ρ -> (forall i n, (i < N)%nat -> ρ i = RFree n -> (n < 1)%nat) ->
  (forall i a l, (i < N)%nat -> block s i (ρ i) a l -> l <= 4096 /\ a ∈ m) -> (N <= size m)%nat.
Proof.
  intros Ht Hno Hone. assert (Hall : forall i, (i < N)%nat -> exists l, block s i (ρ i) (some_block i) l).
  { intros i Hi. apply busy_page; try done. intros i' a l Hi' Hb. by apply (Hone i' a l). }
  assert (ND : NoDup (map some_block (seq 0 N))).
  { apply NoDup_fmap_2_strong; [|apply NoDup_ListNoDup, seq_NoDup]. intros i i' Hi%list_elem_of_In%in_seq Hi'%list_elem_of_In%in_seq E.
    destruct (Hall i ltac:(lia)) as [l Hl], (Hall i' ltac:(lia)) as [l' Hl'].
    destruct (block_inside i _ _ ltac:(lia) Hl) as (_ & ? & _). destruct (block_inside i' _ _ ltac:(lia) Hl') as (_ & ? & _).
    destruct (blocks_apart i i' _ _ _ _ ltac:(lia) ltac:(lia) Hl Hl') as [[? _]|[?|?]]; [done|lia..]. }
  transitivity (size (list_to_set (map some_block (seq 0 N)) : gset Z)); [by rewrite size_list_to_set, length_map, length_seq|].
  apply subseteq_size. intros a Ha. apply elem_of_list_to_set, list_elem_of_In, in_map_iff in Ha as (i & <- & Hi). apply in_seq in Hi.
  destruct (Hall i ltac:(lia)) as [l Hl]. by apply (Hone i _ l ltac:(lia)).
Qed.

End Blocks.

(** * The specification *)

(** A pool with the sizes of the blocks that were asked for and not freed. *)
Inductive slab_step : ngx_slab_pool_t * gmap Z Z -> ngx_slab_pool_t * gmap Z Z -> Prop :=
| step_alloc st m n r st' : 0 <= n -> ngx_slab_alloc_locked n st = Ret (r, st') ->
    slab_step (st, m) (st', match r with Some a => <[a := n]> m | None => m end)
| step_free st m a st' : is_Some (m !! a) -> ngx_slab_free_locked a st = Ret st' -> slab_step (st, m) (st', delete a m).

(** The blocks of the pool are those of [m]. *)
Definition owns (N : nat) (st : ngx_slab_pool_t) (m : gmap Z Z) : Prop :=
  exists R ρ, Inv st N R ρ /\ tidy ρ /\
    (forall a n, m !! a = Some n -> exists i l, (i < N)%nat /\ block (start st) i (ρ i) a l /\ 0 <= n <= l /\ (n <= 4096 -> l <= 4096)) /\
    (forall i a l, (i < N)%nat -> block (start st) i (ρ i) a l -> is_Some (m !! a)).

Lemma owns_alloc N st m n : owns N st m -> 0 <= n -> exists r st', ngx_slab_alloc_locked n st = Ret (r, st') /\ start st' = start st /\ end_ st' = end_ st /\
  owns N st' (match r with Some a => <[a := n]> m | None => m end) /\
  match r with
  | Some a => m !! a = None
  | None => n <= 4096 -> (forall b k, m !! b = Some k -> k <= 4096) -> (N <= size m)%nat
  end.
Proof.
  intros (R & ρ & I & Ht & Hm & Hall) Hn. destruct (alloc_locked_ok st N R ρ I n Hn Ht) as (r & st' & R' & ρ' & E & I' & Ht' & Hs & He & Hr).
  exists r, st'. split; [done|]. split; [done|]. split; [done|]. destruct r as [a|].
  - destruct Hr as (i & len & Hi & (Hnew & Hfresh & Hmore) & Hlen & Hone).
    assert (Ha : m !! a = None).
    { destruct (m !! a) as [k|] eqn:Ea; [|done]. destruct (Hm a k Ea) as (q & l & Hq & Hb & _). exfalso.
      rewrite <- Hs in *. assert (Hb' : block (start st') q (ρ' q) a l) by (apply Hmore; by right).
      destruct (block_inside _ _ _ _ I' _ _ _ Hi Hnew) as (_ & ? & _). destruct (block_inside _ _ _ _ I' _ _ _ Hq Hb') as (_ & ? & _).
      destruct (blocks_apart _ _ _ _ I' i q _ _ _ _ Hi Hq Hnew Hb') as [(<- & _ & _)|[?|?]]; [by apply (Hfresh l)|lia..]. }
    split; [|done]. exists R', ρ'. split; [done|]. split; [done|]. rewrite Hs. split.
    + intros b k. rewrite lookup_insert_Some. intros [[<- <-]|[Hne Hb]]; [exists i, len; by auto|]. destruct (Hm b k Hb) as (q & l & Hq & Hbl & Hk). exists q, l. split; [done|]. split; [|done].
      apply Hmore. by right.
    + intros q b l Hq Hb. apply Hmore in Hb as [(-> & -> & ->)|Hb]; [by rewrite lookup_insert_eq|]. destruct (decide (a = b)) as [->|Hne]; [by rewrite lookup_insert_eq|].
      rewrite lookup_insert_ne by done. by apply (Hall q b l).
  - destruct Hr as (-> & -> & Hno). split; [by exists R, ρ|]. intros Hsmall Hones. rewrite <- size_dom. apply (full_pages st N R ρ I); [done| |].
    + intros i k Hi Hk. specialize (Hno i k Hi Hk). unfold pages_for, ngx_slab_max_size, ngx_pagesize_shift, ngx_pagesize in Hno.
      destruct (Z.geb_spec n 2048); [|lia]. rewrite Z.shiftr_div_pow2 in Hno by lia. change (2 ^ 12) with 4096 in Hno.
      pose proof (Z.div_mod n 4096 ltac:(lia)). pose proof (Z.mod_pos_bound n 4096 ltac:(lia)). destruct (Z.eqb_spec (n mod 4096) 0); lia.
    + intros i a l Hi Hb. destruct (Hall i a l Hi Hb) as [k Hk]. split; [|by apply elem_of_dom_2 in Hk]. destruct (Hm a k Hk) as (q & l' & Hq & Hb' & _ & Hk').
      destruct (block_inside _ _ _ _ I _ _ _ Hi Hb) as (_ & ? & _). destruct (block_inside _ _ _ _ I _ _ _ Hq Hb') as (_ & ? & _).
      destruct (blocks_apart _ _ _ _ I i q _ _ _ _ Hi Hq Hb Hb') as [(_ & _ & ->)|[?|?]]; [|lia..]. apply Hk'. by apply (Hones a).
Qed.

Lemma owns_free N st m a : owns N st m -> is_Some (m !! a) -> exists st', ngx_slab_free_locked a st = Ret st' /\ start st' = start st /\ end_ st' = end_ st /\
  owns N st' (delete a m).
Proof.
  intros (R & ρ & I & Ht & Hm & Hall) [n Ha]. destruct (Hm a n Ha) as (i & len & Hi & Hb & _). destruct (free_locked_ok st N R ρ I i a len Ht Hi Hb) as (st' & R' & ρ' & E & I' & Ht' & Hs & He & Hgone).
  exists st'. split; [done|]. split; [done|]. split; [done|]. exists R', ρ'. split; [done|]. split; [done|]. rewrite Hs. split.
  - intros b k. rewrite lookup_delete_Some. intros [Hne Hb']. destruct (Hm b k Hb') as (q & l & Hq & Hbl & Hk). exists q, l. split; [done|]. split; [|done].
    apply Hgone. split; [done|]. by intros [_ ->].
  - intros q b l Hq Hb'. apply Hgone in Hb' as [Hb' Hne]. rewrite lookup_delete_ne; [by apply (Hall q b l)|]. intros ->. apply Hne. split; [|done].
    destruct (block_inside _ _ _ _ I _ _ _ Hi Hb) as (_ & ? & _). destruct (block_inside _ _ _ _ I _ _ _ Hq Hb') as (_ & ? & _).
    destruct (blocks_apart _ _ _ _ I q i _ _ _ _ Hq Hi Hb' Hb) as [(-> & _)|[?|?]]; [done|lia..].
Qed.

(** * A new pool *)

(** The pages of the pool. *)
Definition init_pages (p end_ : Z) : Z :=
  let pages := (end_ - p) / (ngx_pagesize + 24) in
  Z.min pages ((end_ - start (ngx_slab_init p end_)) / ngx_pagesize).

Definition desc (i : nat) : slab_ptr * ngx_slab_page_t := (PPage i, page0).
Definition head_of (j : nat) : slab_ptr * ngx_slab_page_t := (PSlot j, MkPage 0 (Some (PSlot j)) (None, 0)).
Definition init_list (n : nat) : list (slab_ptr * ngx_slab_page_t) :=
  map head_of (seq 0 slots_n) ++ map desc (seq 0 n) ++ [(PFree, MkPage 0 (Some (PPage 0)) (None, 0))].

Lemma init_list_keys n : (init_list n).*1 = map PSlot (seq 0 slots_n) ++ map PPage (seq 0 n) ++ [PFree].
Proof.
  unfold init_list. rewrite !fmap_app.
  assert (Hmap : forall (f : nat -> slab_ptr * ngx_slab_page_t) l, (map f l).*1 = map (fun k => (f k).1) l) by (intros f l; induction l; [done|]; cbn; by f_equal).
  by rewrite !Hmap.
Qed.

Lemma init_list_NoDup n : NoDup (init_list n).*1.
Proof.
  rewrite init_list_keys. apply NoDup_app. split_and!.
  - apply NoDup_fmap_2_strong; [by intros ? ? _ _ [=]|apply NoDup_ListNoDup, seq_NoDup].
  - intros p Hp1 Hp2. apply list_elem_of_In, in_map_iff in Hp1 as (j & <- & _). apply elem_of_app in Hp2 as [Hp2|Hp2]; [|by apply list_elem_of_singleton in Hp2].
    by apply list_elem_of_In, in_map_iff in Hp2 as (k & Hk & _).
  - apply NoDup_app. split_and!.
    + apply NoDup_fmap_2_strong; [by intros ? ? _ _ [=]|apply NoDup_ListNoDup, seq_NoDup].
    + intros p Hp1 Hp2. apply list_elem_of_In, in_map_iff in Hp1 as (j & <- & _). by apply list_elem_of_singleton in Hp2.
    + apply NoDup_singleton.
Qed.

Lemma init_pg n p : pg (list_to_map (init_list n)) p =
  match p with
  | PSlot j => if decide (j < slots_n)%nat then MkPage 0 (Some (PSlot j)) (None, 0) else page0
  | PPage _ => page0
  | PFree => MkPage 0 (Some (PPage 0)) (None, 0)
  end.
Proof.
  assert (Hin : forall g, (p, g) ∈ init_list n -> pg (list_to_map (init_list n)) p = g).
  { intros g Hg. unfold pg. by rewrite (elem_of_list_to_map_1 _ _ g (init_list_NoDup n) Hg). }
  assert (Hout : p ∉ (init_list n).*1 -> pg (list_to_map (init_list n)) p = page0) by (intros Hp; unfold pg; by rewrite not_elem_of_list_to_map_1).
  unfold init_list in Hin. destruct p as [i|j|].
  - destruct (decide (i < n)%nat).
    + apply Hin. apply elem_of_app. right. apply elem_of_app. left. apply list_elem_of_In, in_map_iff. exists i. split; [done|]. apply in_seq. lia.
    + apply Hout. rewrite init_list_keys. rewrite !elem_of_app, list_elem_of_singleton, !list_elem_of_In, !in_map_iff. intros [(k & Hk & _)|[(k & [= ->] & Hk)|Hp]]; [done|apply in_seq in Hk; lia|done].
  - case_decide.
    + apply Hin. apply elem_of_app. left. apply list_elem_of_In, in_map_iff. exists j. split; [done|]. apply in_seq. lia.
    + apply Hout. rewrite init_list_keys. rewrite !elem_of_app, list_elem_of_singleton, !list_elem_of_In, !in_map_iff. intros [(k & [= ->] & Hk)|[(k & Hk & _)|Hp]]; [apply in_seq in Hk; lia|done|done].
  - apply Hin. apply elem_of_app. right. apply elem_of_app. right. by left.
Qed.

Section Init.
Context (p e : Z) (Hp : 0 <= p) (He : e < 2 ^ 64) (Hn : 1 <= init_pages p e).

#[local] Abbreviation pool := (ngx_slab_init p e).
#[local] Abbreviation N := (Z.to_nat (init_pages p e)).
#[local] Abbreviation pages := ((e - p) / (ngx_pagesize + 24)).

Lemma init_start : start pool mod 4096 = 0 /\ 0 <= start pool /\ start pool + Z.of_nat N * 4096 <= end_ pool < 2 ^ 64 /\ (N <= Z.to_nat pages)%nat.
Proof.
  unfold init_pages in *. cbn zeta in *.
  assert (Hal : start pool = (p + Z.of_nat slots_n * 24 + pages * 24 + 4095) / 4096 * 4096).
  { unfold ngx_slab_init. cbn [start]. change (Z.lnot (ngx_pagesize - 1)) with (Z.lnot (Z.ones 12)). rewrite <- Z.ldiff_land, Z.ldiff_ones_r by lia.
    rewrite Z.shiftr_div_pow2, Z.shiftl_mul_pow2 by lia. done. }
  assert (Hs : start pool mod 4096 = 0) by (rewrite Hal; apply Z.mod_mul; lia). split; [done|].
  assert (0 <= start pool) by (rewrite Hal; apply Z.mul_nonneg_nonneg; [apply Z.div_pos|]; lia). split; [done|].
  change (end_ pool) with e. split; [|lia]. split; [|done]. unfold ngx_pagesize in *. pose proof (Z.mul_div_le (e - start pool) 4096 ltac:(lia)). lia.
Qed.

Lemma init_behind : p + 24 * (Z.of_nat slots_n + pages) <= start pool.
Proof.
  unfold ngx_slab_init. cbn [start]. change (Z.lnot (ngx_pagesize - 1)) with (Z.lnot (Z.ones 12)). change (ngx_pagesize - 1) with 4095.
  assert (H : forall x, x <= Z.land (x + 4095) (Z.lnot (Z.ones 12))).
  { intros x. rewrite <- Z.ldiff_land, Z.ldiff_ones_r, Z.shiftr_div_pow2, Z.shiftl_mul_pow2 by lia. change (2 ^ 12) with 4096.
    pose proof (Z.div_mod (x + 4095) 4096 ltac:(lia)). pose proof (Z.mod_pos_bound (x + 4095) 4096 ltac:(lia)). lia. }
  etransitivity; [|apply H]. lia.
Qed.

Definition init_rings (h : slab_ptr) : list nat := if decide (h = PFree) then [0%nat] else [].
Definition init_roles (i : nat) : role := if decide (i = 0)%nat then RFree N else RIn.

Lemma init_nodes : nodes pool = <[PPage 0 := MkPage (init_pages p e) (Some PFree) (Some PFree, 0)]> (list_to_map (init_list (Z.to_nat pages))).
Proof.
  unfold ngx_slab_init. cbn [nodes]. unfold init_list. do 2 f_equal. unfold init_pages, ngx_slab_init. cbn [start]. match goal with |- context [?x >? 0] => destruct (Z.gtb_spec x 0) end; lia.
Qed.

Lemma init_ok : Inv pool N init_rings init_roles.
Proof.
  destruct init_start as (Hs1 & Hs2 & Hs3 & Hs4).
  assert (Hpg : forall q, pg (nodes pool) q = match q with
    | PPage i => if decide (i = 0)%nat then MkPage (init_pages p e) (Some PFree) (Some PFree, 0) else page0
    | PSlot j => if decide (j < slots_n)%nat then MkPage 0 (Some (PSlot j)) (None, 0) else page0
    | PFree => MkPage 0 (Some (PPage 0)) (None, 0) end).
  { intros q. rewrite init_nodes, pg_insert, init_pg. destruct q; repeat case_decide; try done; congruence. }
  assert (Hdom : forall q, q ∈ (init_list (Z.to_nat pages)).*1 -> q ∈ dom (nodes pool)).
  { intros q Hq. rewrite init_nodes, dom_insert_L, dom_list_to_map_L. apply elem_of_union_r. by apply elem_of_list_to_set. }
  assert (Hheads : forall h, h ∈ heads -> h = PFree \/ exists j, (j < slots_n)%nat /\ h = PSlot j).
  { intros h Hh. apply elem_of_cons in Hh as [->|Hh]; [by left|]. apply list_elem_of_In, in_map_iff in Hh as (j & <- & Hj). right. exists j. apply in_seq in Hj. split; [lia|done]. }
  split; try done.
  - intros i Hi. apply Hdom. rewrite init_list_keys. apply elem_of_app. right. apply elem_of_app. left. apply list_elem_of_In, in_map_iff. exists i. split; [done|]. apply in_seq. lia.
  - intros h Hh. apply Hdom. rewrite init_list_keys. apply Hheads in Hh as [->|(j & Hj & ->)].
    + apply elem_of_app. right. apply elem_of_app. right. by left.
    + apply elem_of_app. left. apply list_elem_of_In, in_map_iff. exists j. split; [done|]. apply in_seq. lia.
  - split.
    + intros h Hh. apply Hheads in Hh as [->|(j & Hj & ->)]; unfold init_rings.
      * rewrite decide_True by done. cbn [fmap list_fmap chain]. rewrite !Hpg. done.
      * rewrite decide_False by done. cbn [fmap list_fmap chain]. by rewrite Hpg, decide_True.
    + intros h _. unfold init_rings. case_decide; [apply NoDup_singleton|constructor].
    + intros h h' i _ _. unfold init_rings. repeat case_decide; try (subst; done); intros H1 H2; try (by apply elem_of_nil in H1); by apply elem_of_nil in H2.
  - intros h i Hh. unfold init_rings, init_roles. case_decide as D.
    + subst h. rewrite list_elem_of_singleton. case_decide; cbn [listed]; [|naive_solver]. subst i. split; [split; [lia|done]|done].
    + split; [intros Hi; by apply elem_of_nil in Hi|]. case_decide; cbn [listed]; naive_solver.
  - intros i Hi. unfold init_roles. case_decide as D; cbn [listed]; [done|]. intros _. by rewrite Hpg, decide_False.
  - intros i Hi. unfold init_roles, pslab. rewrite Hpg. case_decide; cbn [enc slab]; [split; lia|by left].
  - intros i Hi. unfold init_roles. case_decide as D; cbn [span]; [|split; [lia|intros k Hk; lia]]. split; [lia|]. intros k Hk. by rewrite decide_False by lia.
  - intros k Hk. unfold init_roles. case_decide; [done|]. intros _. exists 0%nat. rewrite decide_True by done. cbn [span]. lia.
  - intros i Hi. unfold pslab. rewrite Hpg, decide_False by lia. done.
Qed.

Lemma init_owns : owns N pool ∅.
Proof.
  exists init_rings, init_roles. split; [apply init_ok|]. split; [intros i j; unfold init_roles; by case_decide|]. split; [intros a n; by rewrite lookup_empty|].
  intros i a l Hi. unfold init_roles. by case_decide.
Qed.

End Init.

Lemma run_owns N x y : rtc slab_step x y -> owns N x.1 x.2 -> owns N y.1 y.2 /\ start y.1 = start x.1 /\ end_ y.1 = end_ x.1.
Proof.
  induction 1 as [x|x y z Hxy _ IH]; [done|]. intros Ho. assert (Hy : owns N y.1 y.2 /\ start y.1 = start x.1 /\ end_ y.1 = end_ x.1).
  { destruct Hxy as [st m n r st' Hn E|st m a st' Ha E]; cbn [fst snd] in *.
    - destruct (owns_alloc N st m n Ho Hn) as (r' & st2 & E' & Hs & He & Ho' & _). rewrite E in E'. injection E' as <- <-. done.
    - destruct (owns_free N st m a Ho Ha) as (st2 & E' & Hs & He & Ho'). rewrite E in E'. injection E' as <-. done. }
  destruct Hy as (Hy & Hs & He). destruct (IH Hy) as (Hz & Hs' & He'). split; [done|]. split; congruence.
Qed.

Lemma owns_place N st m a n : owns N st m -> m !! a = Some n -> start st <= a /\ a + n <= start st + Z.of_nat N * 4096 <= end_ st.
Proof.
  intros (R & ρ & I & Ht & Hm & _) Ha. destruct (Hm a n Ha) as (i & l & Hi & Hb & Hn & _). destruct (block_inside _ _ _ _ I _ _ _ Hi Hb) as (H1 & _ & H2).
  pose proof (iv_runs _ _ _ _ I i Hi) as [Hr _]. destruct (iv_place _ _ _ _ I) as (_ & _ & Hp). lia.
Qed.

Lemma owns_apart N st m a n b k : owns N st m -> m !! a = Some n -> m !! b = Some k -> a <> b -> a + n <= b \/ b + k <= a.
Proof.
  intros (R & ρ & I & Ht & Hm & _) Ha Hb Hne. destruct (Hm a n Ha) as (i & l & Hi & Hbl & Hn & _). destruct (Hm b k Hb) as (i' & l' & Hi' & Hbl' & Hk & _).
  destruct (blocks_apart _ _ _ _ I i i' _ _ _ _ Hi Hi' Hbl Hbl') as [(_ & ? & _)|[?|?]]; [done|lia..].
Qed.

(** A page of small chunks has its bitmap before them. *)
Lemma small_bitmap st N R ρ i g ws : Inv st N R ρ -> nodes st !! PPage i = Some g -> (prev g).2 = NGX_SLAB_SMALL -> bitmaps st !! i = Some ws ->
  exists j B, (i < N)%nat /\ ρ i = RChunks j B /\ 8 * Z.of_nat (length ws) <= reserved j * 2 ^ chunk_shift j <= 4096.
Proof.
  intros I Hg Ht Hws. assert (Epg : pg (nodes st) (PPage i) = g) by (unfold pg; by rewrite Hg).
  destruct (decide (i < N)%nat) as [Hi|Hi]; [|destruct (iv_rest _ _ _ _ I i ltac:(lia)) as [_ Hr]; by rewrite Epg, Ht in Hr].
  pose proof (inv_type _ _ _ _ i I Hi) as Hty. rewrite Epg, Ht in Hty. pose proof (iv_enc _ _ _ _ I i Hi) as He. rewrite Hws in He.
  destruct (ρ i) as [n|n| |j B]; cbn [role_type] in Hty; try done. exists j, B. split; [done|]. split; [done|].
  destruct He as (Hj & _ & Hs & _). destruct (j <? 3)%nat eqn:K; [|exfalso; revert Hty; unfold ring_type; rewrite K; by destruct (j =? 3)%nat].
  unfold shape in Hs. rewrite K in Hs. destruct Hs as (_ & ws0 & [= <-] & -> & _). clear - Hj K. revert j Hj K.
  apply (each_slot (fun j => (j <? 3)%nat = true -> 8 * Z.of_nat (map_words (chunk_shift j)) <= reserved j * 2 ^ chunk_shift j <= 4096)).
  repeat constructor; vm_compute; by try congruence.
Qed.

Lemma owns_bitmap N st m a n i g ws : owns N st m -> m !! a = Some n -> nodes st !! PPage i = Some g -> (prev g).2 = NGX_SLAB_SMALL ->
  bitmaps st !! i = Some ws -> a + n <= page_addr i st \/ page_addr i st + 8 * Z.of_nat (length ws) <= a.
Proof.
  intros (R & ρ & I & _ & Hm & _) Ha Hg Ht Hws. destruct (Hm a n Ha) as (q & l & Hq & Hb & Hn & _).
  destruct (small_bitmap _ _ _ _ _ _ _ I Hg Ht Hws) as (j & B & Hi & Hr & Hlen).
  destruct (block_inside _ _ _ _ I _ _ _ Hq Hb) as (H1 & _ & H3). unfold page_addr, ngx_pagesize_shift. rewrite Z.shiftl_mul_pow2 by lia. change (2 ^ 12) with 4096.
  destruct (Nat.lt_total q i) as [Hlt|[->|Hlt]]; [|right|right; lia].
  - left. pose proof (iv_runs _ _ _ _ I q Hq) as [_ Hin]. destruct (decide (i < q + span (ρ q))%nat); [|lia]. by rewrite Hin in Hr by lia.
  - rewrite Hr in Hb. destruct Hb as (c & Hc & -> & _). pose proof (iv_enc _ _ _ _ I i Hi) as He. rewrite Hr in He. destruct He as (_ & Hsub & _).
    apply Hsub, elem_chunks in Hc. assert (0 < 2 ^ chunk_shift j) by (apply Z.pow_pos_nonneg; unfold chunk_shift; lia). nia.
Qed.

(** C15: the slab allocator of shared memory.  From a new pool with at least one
    page, after any sequence of allocations and of frees of blocks that are in
    use: the blocks in use lie in the pages of the pool, behind the slots and
    the descriptors and outside of the bitmaps, and no two of them overlap;
    the next allocation of any size ends, with a block at an address
    that is not in use or with none; every block in use can be freed; and an
    allocation of at most 4096 bytes, when no block in use was asked for with
    more, fails only if there are as many blocks in use as pages. *)
Theorem slab_blocks_safe p e st m : 0 <= p -> e < 2 ^ 64 -> 1 <= init_pages p e -> rtc slab_step (ngx_slab_init p e, ∅) (st, m) ->
  (forall a n, m !! a = Some n -> p + 24 * (Z.of_nat slots_n + (e - p) / (ngx_pagesize + 24)) <= start st <= a /\ a + n <= e /\
     forall i g ws, nodes st !! PPage i = Some g -> (prev g).2 = NGX_SLAB_SMALL -> bitmaps st !! i = Some ws ->
       a + n <= page_addr i st \/ page_addr i st + 8 * Z.of_nat (length ws) <= a) /\
  (forall a n b k, m !! a = Some n -> m !! b = Some k -> a <> b -> a + n <= b \/ b + k <= a) /\
  (forall n, 0 <= n -> exists r st', ngx_slab_alloc_locked n st = Ret (r, st') /\
     match r with
     | Some a => m !! a = None
     | None => n <= 4096 -> (forall b k, m !! b = Some k -> k <= 4096) -> init_pages p e <= Z.of_nat (size m)
     end) /\
  (forall a, is_Some (m !! a) -> exists st', ngx_slab_free_locked a st = Ret st').
Proof.
  intros Hp He Hn Hrun. destruct (run_owns _ _ _ Hrun (init_owns p e Hp He Hn)) as (Ho & Hs & Hend). cbn [fst snd] in *. change (end_ (ngx_slab_init p e)) with e in Hend.
  split; [|split; [|split]].
  - intros a n Ha. destruct (owns_place _ _ _ _ _ Ho Ha). pose proof (init_behind p e). split; [lia|]. split; [lia|].
    intros i g ws. by apply (owns_bitmap _ _ _ _ _ i g ws Ho).
  - intros a n b k. by apply (owns_apart _ _ _ _ _ _ _ Ho).
  - intros n Hn0. destruct (owns_alloc _ _ _ n Ho Hn0) as (r & st' & E & _ & _ & _ & Hr). exists r, st'. split; [done|]. destruct r; [done|]. intros H1 H2. specialize (Hr H1 H2). lia.
  - intros a Ha. destruct (owns_free _ _ _ a Ho Ha) as (st' & E & _). by exists st'.
Qed.

(** * A run at a concrete pool *)

Inductive slab_op := Alloc (n : Z) | Free (a : Z).

Fixpoint slab_exec (ops : list slab_op) (st : ngx_slab_pool_t) (m : gmap Z Z) : outcome (ngx_slab_pool_t * gmap Z Z) :=
  match ops with
  | [] => Ret (st, m)
  | Alloc n :: ops => let! (r, st) := ngx_slab_alloc_locked n st in slab_exec ops st (match r with Some a => <[a := n]> m | None => m end)
  | Free a :: ops => if decide (is_Some (m !! a)) then let! st := ngx_slab_free_locked a st in slab_exec ops st (delete a m) else Undefined
  end.

Lemma slab_exec_run ops : forall st m st' m', Forall (fun o => match o with Alloc n => 0 <= n | Free _ => True end) ops ->
  slab_exec ops st m = Ret (st', m') -> rtc slab_step (st, m) (st', m').
Proof.
  induction ops as [|[n|a] ops IH]; intros st m st' m' Hops; cbn [slab_exec].
  - by intros [= <- <-].
  - apply Forall_cons in Hops as [Hn Hops]. destruct (ngx_slab_alloc_locked n st) as [[r st1]| |] eqn:E; try done. cbn [outcome_bind]. intros E'.
    eapply rtc_l; [by apply (step_alloc st m n r st1)|]. by apply IH.
  - apply Forall_cons in Hops as [_ Hops]. case_decide as Ha; [|done]. destruct (ngx_slab_free_locked a st) as [st1| |] eqn:E; try done. cbn [outcome_bind]. intros E'.
    eapply rtc_l; [by apply (step_free st m a st1)|]. by apply IH.
Qed.

(** Two chunks of 64 bytes, one of 8, three pages, and one of the chunks freed. *)
Definition ops0 : list slab_op := [Alloc 40; Alloc 64; Alloc 3; Alloc 9000; Alloc 1500; Free 1052672].

Example ops0_blocks : (let! (_, m) := slab_exec ops0 (ngx_slab_init 1048752 1114112) ∅ in Ret (size m, map (fun a => m !! a) [1052672; 1052736; 1056832; 1060864; 1073152])) =
  Ret (4%nat, [None; Some 64; Some 3; Some 9000; Some 1500]).
Proof. vm_compute. reflexivity. Qed.

Definition after0 : ngx_slab_pool_t * gmap Z Z :=
  match slab_exec ops0 (ngx_slab_init 1048752 1114112) ∅ with Ret x => x | _ => (ngx_slab_init 0 0, ∅) end.

Lemma after0_run : rtc slab_step (ngx_slab_init 1048752 1114112, ∅) (after0.1, after0.2).
Proof.
  apply (slab_exec_run ops0); [repeat constructor; lia|]. unfold after0. destruct (slab_exec ops0 _ _) as [[st m]| |] eqn:E; [done|..]; exfalso; revert E; vm_compute; discriminate.
Qed.

Lemma slab_blocks_safe_witness :
  (forall a n, after0.2 !! a = Some n -> 1048752 + 24 * (9 + 15) <= a /\ a + n <= 1114112) /\
  (forall a n b k, after0.2 !! a = Some n -> after0.2 !! b = Some k -> a <> b -> a + n <= b \/ b + k <= a) /\
  (exists r st', ngx_slab_alloc_locked 100 after0.1 = Ret (r, st')) /\ (exists st', ngx_slab_free_locked 1060864 after0.1 = Ret st').
Proof.
  destruct (slab_blocks_safe 1048752 1114112 after0.1 after0.2) as (H1 & H2 & H3 & H4); [lia|lia|vm_compute; discriminate|apply after0_run|].
  split; [intros a n Ha; destruct (H1 a n Ha) as ([Hs1 Hs2] & ? & _); split; [exact (Z.le_trans _ _ _ Hs1 Hs2)|done]|]. split; [exact H2|]. split.
  - destruct (H3 100 ltac:(lia)) as (r & st' & E & _). by exists r, st'.
  - apply H4. vm_compute. by eexists.
Defined.

End SlabSpec.
