(* ===== verification/NgxSlabPool.v ===== *)
(** The allocator of core/ngx_slab.c as the slab pool of the modules that keep
    records in shared memory. *)

From S2P Require Import Prelude NgxSlab NgxSlabRings NgxSlabChunks NgxSlabInv NgxSlabRun NgxSlabFree NgxSlabSpec NgxSlabClass.

#[local] Open Scope Z_scope.

Module SlabMemory.

Export SlabClass.
Import SlabSpec.

Section Pool.
Context (N : nat).

(** A pool of [N] pages with the blocks in use and the sizes they were asked for
    with. *)
Definition memory : Type := { x : ngx_slab_pool_t * gmap Z Z | owns N x.1 x.2 }.

Definition pool_of (p : memory) : ngx_slab_pool_t := (proj1_sig p).1.
Definition sizes (p : memory) : gmap Z Z := (proj1_sig p).2.

Lemma alloc_owns st m n a st' : owns N st m -> 0 <= n -> ngx_slab_alloc_locked n st = Ret (Some a, st') -> owns N st' (<[a := n]> m).
Proof. intros Ho Hn E. destruct (owns_alloc N st m n Ho Hn) as (r & st2 & E' & _ & _ & Ho' & _). rewrite E in E'. by injection E' as <- <-. Qed.

Lemma free_owns st m a st' : owns N st m -> is_Some (m !! a) -> ngx_slab_free_locked a st = Ret st' -> owns N st' (delete a m).
Proof. intros Ho Ha E. destruct (owns_free N st m a Ho Ha) as (st2 & E' & _ & _ & Ho'). rewrite E in E'. by injection E' as <-. Qed.

Definition memory_alloc (p : memory) (n : Z) : option (Z * memory) :=
  match decide (0 <= n) with
  | right _ => None
  | left Hn =>
    match ngx_slab_alloc_locked n (pool_of p) as o return ngx_slab_alloc_locked n (pool_of p) = o -> option (Z * memory) with
    | Ret (Some a, st') => fun E => Some (a, (st', <[a := n]> (sizes p)) ↾ alloc_owns _ _ n a st' (proj2_sig p) Hn E)
    | _ => fun _ => None
    end eq_refl
  end.

(** Freeing an address that is not in use is the caller's error. *)
Definition memory_free (p : memory) (a : Z) : memory :=
  match decide (is_Some (sizes p !! a)) with
  | right _ => p
  | left Ha =>
    match ngx_slab_free_locked a (pool_of p) as o return ngx_slab_free_locked a (pool_of p) = o -> memory with
    | Ret st' => fun E => (st', delete a (sizes p)) ↾ free_owns _ _ a st' (proj2_sig p) Ha E
    | _ => fun _ => p
    end eq_refl
  end.

Definition memory_live (p : memory) : gset Z := dom (sizes p).

Definition memory_small (p : memory) : Prop := forall b k, sizes p !! b = Some k -> k <= 4096.

Lemma memory_alloc_spec p n : match memory_alloc p n with
  | Some (a, p') => sizes p' = <[a := n]> (sizes p) /\ sizes p !! a = None
  | None => 0 <= n <= 4096 -> memory_small p -> (N <= size (sizes p))%nat
  end.
Proof.
  destruct p as [[st m] Ho]. unfold memory_alloc, memory_small, pool_of, sizes. cbn [fst snd proj1_sig proj2_sig] in *. case_decide as Hn; [|lia].
  destruct (owns_alloc N st m n Ho Hn) as (r & st2 & E2 & _ & _ & _ & Hr).
  generalize (eq_refl (ngx_slab_alloc_locked n st)). generalize (ngx_slab_alloc_locked n st) at 2 3. intros o Eo.
  pose proof Eo as Eo'. rewrite E2 in Eo'. destruct o as [[[a|] st']| |]; try done; injection Eo' as Er _; rewrite Er in Hr; [split; [reflexivity|exact Hr]|]. intros Hn' Hs. apply Hr; [lia|exact Hs].
Qed.

Lemma memory_free_spec p a : is_Some (sizes p !! a) -> sizes (memory_free p a) = delete a (sizes p).
Proof.
  destruct p as [[st m] Ho]. unfold memory_free, pool_of, sizes. cbn [fst snd proj1_sig proj2_sig] in *. intros Ha. case_decide; [|done].
  destruct (owns_free N st m a Ho Ha) as (st2 & E2 & _). generalize (eq_refl (ngx_slab_free_locked a st)). generalize (ngx_slab_free_locked a st) at 2 3.
  intros o Eo. pose proof Eo as Eo'. rewrite E2 in Eo'. by destruct o.
Qed.

End Pool.

#[export] Instance memory_pool N : SlabPool (memory N) := {
  slab_alloc := memory_alloc N; slab_free := memory_free N; slab_live := memory_live N }.

#[export] Instance memory_laws N : SlabLaws (memory N).
Proof.
  split.
  - intros p n a p' E. pose proof (memory_alloc_spec N p n) as Hs. cbn in E. rewrite E in Hs. destruct Hs as [Hm Ha]. cbn. unfold memory_live.
    rewrite Hm, dom_insert_L. split; [by apply not_elem_of_dom|done].
  - intros p a Ha. cbn in *. unfold memory_live in *. rewrite memory_free_spec by (by apply elem_of_dom). by rewrite dom_delete_L.
Qed.

#[export] Instance memory_room N : SlabRoom (memory N).
Proof.
  refine {| slab_pages := N; slab_small := memory_small N |}.
  - intros p n Hs Hn Hsize E. pose proof (memory_alloc_spec N p n) as Hspec. cbn in E, Hsize. rewrite E in Hspec. specialize (Hspec Hn Hs).
    unfold memory_live in Hsize. rewrite size_dom in Hsize. lia.
  - intros p n a p' Hs Hn E. pose proof (memory_alloc_spec N p n) as Hspec. cbn in E. rewrite E in Hspec. destruct Hspec as [Hm _]. intros b k. rewrite Hm.
    intros [[<- <-]|[_ Hb]]%lookup_insert_Some; [lia|by apply (Hs b)].
  - intros p a Hs Ha b k. cbn in *. rewrite memory_free_spec by (by apply elem_of_dom). intros [_ Hb]%lookup_delete_Some. by apply (Hs b).
Defined.

(** A pool that ngx_slab_init has made. *)
Definition new_memory (p e : Z) (Hp : 0 <= p) (He : e < 2 ^ 64) (Hn : 1 <= init_pages p e) : memory (Z.to_nat (init_pages p e)) :=
  (ngx_slab_init p e, ∅) ↾ init_owns p e Hp He Hn.

Lemma new_memory_small p e Hp He Hn : slab_small (new_memory p e Hp He Hn).
Proof. intros b k Hb. unfold sizes in Hb. cbn in Hb. by rewrite lookup_empty in Hb. Qed.

Lemma new_memory_live p e Hp He Hn : slab_live (new_memory p e Hp He Hn) = ∅.
Proof. cbn. apply dom_empty_L. Qed.

(** A pool of 64 kilobytes at 2^20. *)
Definition memory0 : memory (Z.to_nat (init_pages 1048752 1114112)) := new_memory 1048752 1114112 ltac:(lia) ltac:(lia) ltac:(vm_compute; discriminate).

Lemma memory0_pages : init_pages 1048752 1114112 = 15.
Proof. vm_compute. reflexivity. Qed.

End SlabMemory.
