(* ===== verification/NgxLimitReq.v ===== *)
(** The limit on the rate of requests: src/http/modules/ngx_http_limit_req_module.c,
    on the red-black tree of NgxRbtree.

    A zone is a piece of memory that the workers share, used under its lock: a
    red-black tree of nodes, the queue of the nodes with the last used one at
    its head, and the slab pool they are allocated from.  The node of a key is
    a tree node followed by the accounting record, so both have its address.
    The slab pool is the class [SlabPool] of NgxSlabClass; the laws [SlabLaws] say
    that it never gives an address that is in use.  The variable of a limit and the time are
    arguments.  Rates, bursts and excesses are in thousandths of a request. *)

From S2P Require Import Prelude NgxNumber NgxStringCmp NgxCrc32 NgxRbtree NgxSlabClass.

Module LimitReq.

Import StringCmp Crc32 Rbtree.
Export SlabClass.

(** * Data *)

Definition LIMIT_BUSY : Z := -3.
Definition NGX_HTTP_SERVICE_UNAVAILABLE : Z := 503.

(** [len] is a u_short; [excess] and [count] are ngx_uint_t. *)
Record ngx_http_limit_req_node_t := MkLr {
  lr_len : Z; lr_last : Z; lr_excess : Z; lr_count : Z; lr_data : list Z }.

Section LimitReq.
Context {P : Type} `{SlabPool P}.

(** The context of a zone: what it shares ([z_lr] are the accounting records),
    its rate, and ctx->node. *)
Record zone := MkZone {
  z_sentinel : Z; z_rb : rbmem; z_lr : gmap Z ngx_http_limit_req_node_t; z_queue : list Z;
  z_pool : P; z_rate : Z; z_node : option Z }.

Definition zone_eta (z : zone) : zone :=
  MkZone (z_sentinel z) (z_rb z) (z_lr z) (z_queue z) (z_pool z) (z_rate z) (z_node z).

Definition set_z_rb v z := ltac:(record_set zone_eta z_rb v z).
Definition set_z_lr v z := ltac:(record_set zone_eta z_lr v z).
Definition set_z_queue v z := ltac:(record_set zone_eta z_queue v z).
Definition set_z_pool v z := ltac:(record_set zone_eta z_pool v z).
Definition set_z_node v z := ltac:(record_set zone_eta z_node v z).

Definition lr_of (z : zone) (a : Z) : outcome ngx_http_limit_req_node_t :=
  match z_lr z !! a with Some lr => Ret lr | None => Undefined end.

Definition set_lr (a : Z) (lr : ngx_http_limit_req_node_t) (z : zone) : zone :=
  set_z_lr (<[a := lr]> (z_lr z)) z.

(** ngx_queue_remove of an element of the queue. *)
Definition ngx_queue_remove (a : Z) (q : list Z) : list Z := filter (fun b => b <> a) q.

(** * Code *)

(** ngx_http_limit_req_rbtree_insert_value goes left where the hash is smaller,
    and for equal hashes where the key is. *)
Definition limit_req_left (lrs : gmap Z ngx_http_limit_req_node_t) (node key temp : Z)
    (t : ngx_rbtree_node_t) : bool :=
  if key <? n_key t then true
  else if key >? n_key t then false
  else match lrs !! node, lrs !! temp with
       | Some lrn, Some lrnt =>
         ngx_memn2cmp (lr_data lrn) (lr_data lrnt) (lr_len lrn) (lr_len lrnt) <? 0
       | _, _ => false
       end.

Definition ngx_http_limit_req_rbtree_insert_value (lrs : gmap Z ngx_http_limit_req_node_t)
    : ngx_rbtree_insert_pt := fun temp node sentinel =>
  key ← rd n_key node;
  fuel ← path_fuel;
  insert_descend (limit_req_left lrs node key) node sentinel fuel temp.

(** The comparison of the search. *)
Definition limit_req_cmp (lrs : gmap Z ngx_http_limit_req_node_t) (hash : Z) (data : list Z)
    (a : Z) (n : ngx_rbtree_node_t) : Z :=
  if hash <? n_key n then -1
  else if hash >? n_key n then 1
  else match lrs !! a with
       | Some lr => ngx_memn2cmp data (lr_data lr) (Z.of_nat (length data)) (lr_len lr)
       | None => 0
       end.

(** The excess of a node after one more request at the time [now]. *)
Definition excess_at (rate now : Z) (lr : ngx_http_limit_req_node_t) : Z :=
  let ms := wrapS 64 (now - lr_last lr) in
  let excess := wrapS 64 (lr_excess lr - wrapU 64 (rate * Z.abs ms) / 1000 + 1000) in
  if excess <? 0 then 0 else excess.

(** One iteration of ngx_http_limit_req_expire; [None] is its return. *)
Definition expire_one (now n : Z) (z : zone) : outcome (option zone) :=
  match last (z_queue z) with
  | None => Ret None
  | Some a =>
    let! lr := lr_of z a in
    if negb (lr_count lr =? 0) then Ret None
    else
      let ms := Z.abs (wrapS 64 (now - lr_last lr)) in
      let excess := wrapS 64 (lr_excess lr - wrapU 64 (z_rate z * ms) / 1000) in
      if negb (n =? 0) && ((ms <? 60000) || (excess >? 0)) then Ret None
      else
        let z := set_z_queue (ngx_queue_remove a (z_queue z)) z in
        let! p := ngx_rbtree_delete (z_sentinel z) a (z_rb z) in
        let z := set_z_rb (MkRb (delete a (heap p.2)) (root p.2)) z in
        Ret (Some (set_z_lr (delete a (z_lr z)) (set_z_pool (slab_free (z_pool z) a) z)))
  end.

Fixpoint limit_req_expire_loop (now n : Z) (fuel : nat) (z : zone) : outcome zone :=
  match fuel with
  | O => Ret z
  | S fuel =>
    if n <? 3 then
      let! r := expire_one now n z in
      match r with None => Ret z | Some z => limit_req_expire_loop now (n + 1) fuel z end
    else Ret z
  end.

(** [n] grows with each iteration, up to 3. *)
Definition ngx_http_limit_req_expire (now n : Z) (z : zone) : outcome zone := limit_req_expire_loop now n 3 z.

(** The sizes of the structures before the data: 32 bytes of the tree node up
    to its colour and 48 of the accounting record. *)
Definition limit_req_node_size (len : Z) : Z := 32 + 48 + len.

(** The allocation of a node, with the entries that have to make room for it. *)
Definition limit_req_alloc (now len : Z) (z : zone) : outcome (option Z * zone) :=
  let size := limit_req_node_size len in
  let! z := ngx_http_limit_req_expire now 1 z in
  match slab_alloc (z_pool z) size with
  | Some (a, p) => Ret (Some a, set_z_pool p z)
  | None =>
    let! z := ngx_http_limit_req_expire now 0 z in
    match slab_alloc (z_pool z) size with
    | Some (a, p) => Ret (Some a, set_z_pool p z)
    | None => Ret (None, z)
    end
  end.

(** The new node of a key: what slab memory holds before it is written is
    never read. *)
Definition limit_req_new (now hash : Z) (data : list Z) (account : bool) (a : Z) (z : zone)
    : outcome zone :=
  let lr := MkLr (wrapU 8 (Z.of_nat (length data))) (if account then now else 0) 0
              (if account then 0 else 1) data in
  let z := set_lr a lr z in
  let rb := MkRb (<[a := MkNode hash 0 0 0 false]> (heap (z_rb z))) (root (z_rb z)) in
  let! p := ngx_rbtree_insert (ngx_http_limit_req_rbtree_insert_value (z_lr z)) (z_sentinel z) a rb in
  let z := set_z_queue (a :: z_queue z) (set_z_rb p.2 z) in
  Ret (if account then z else set_z_node (Some a) z).

(** The body of the lookup for a node that was found. *)
Definition limit_req_found (now burst : Z) (account : bool) (a : Z) (z : zone) : outcome (Z * Z * zone) :=
  let z := set_z_queue (a :: ngx_queue_remove a (z_queue z)) z in
  let! lr := lr_of z a in
  let excess := excess_at (z_rate z) now lr in
  if wrapU 64 excess >? burst then Ret (LIMIT_BUSY, excess, z)
  else if account then
    Ret (NGX_OK, excess, set_lr a (MkLr (lr_len lr) now (wrapU 64 excess) (lr_count lr) (lr_data lr)) z)
  else
    Ret (NGX_AGAIN, excess,
         set_z_node (Some a)
           (set_lr a (MkLr (lr_len lr) (lr_last lr) (lr_excess lr) (wrapU 64 (lr_count lr + 1)) (lr_data lr)) z)).

(** Its end, when none was. *)
Definition limit_req_missing (now hash : Z) (data : list Z) (account : bool) (z : zone)
    : outcome (Z * Z * zone) :=
  let! r := limit_req_alloc now (Z.of_nat (length data)) z in
  match r.1 with
  | None => Ret (NGX_ERROR, 0, r.2)
  | Some a =>
    let! z := limit_req_new now hash data account a r.2 in
    Ret (if account then NGX_OK else NGX_AGAIN, 0, z)
  end.

(** The result is the return value, the excess and the zone. *)
Definition ngx_http_limit_req_lookup (now burst hash : Z) (data : list Z) (account : bool) (z : zone)
    : outcome (Z * Z * zone) :=
  let! p := (r ← get_root; fuel ← path_fuel;
             rbtree_search (limit_req_cmp (z_lr z) hash data) (z_sentinel z) fuel r) (z_rb z) in
  match p.1 with
  | Some a => limit_req_found now burst account a z
  | None => limit_req_missing now hash data account z
  end.

(** A limit of a location with its zone and the value of its variable. *)
Record ngx_http_limit_req_limit_t := MkLimit {
  l_zone : zone; l_burst : Z; l_nodelay : bool; l_key : option (list Z) }.

Definition set_l_zone (z : zone) (l : ngx_http_limit_req_limit_t) : ngx_http_limit_req_limit_t :=
  MkLimit z (l_burst l) (l_nodelay l) (l_key l).

(** The loop over the limits.  [done] has the limits before the current one,
    the last first; the result has those at the end of the loop, and the
    current one, if the loop was left, with those after it. *)
Fixpoint limit_loop (now : Z) (done limits : list ngx_http_limit_req_limit_t) (rc excess : Z)
    : outcome (Z * Z * list ngx_http_limit_req_limit_t * list ngx_http_limit_req_limit_t) :=
  match limits with
  | [] => Ret (rc, excess, done, [])
  | l :: rest =>
    match l_key l with
    | None => limit_loop now (l :: done) rest rc excess
    | Some data =>
      let len := Z.of_nat (length data) in
      if (len =? 0) || (len >? 65535) then limit_loop now (l :: done) rest rc excess
      else
        let account := match rest with [] => true | _ => false end in
        let! p := ngx_http_limit_req_lookup now (l_burst l) (ngx_crc32_short data) data account (l_zone l) in
        let '(rc, excess, z) := p in
        let l := set_l_zone z l in
        if negb (rc =? NGX_AGAIN) then Ret (rc, excess, done, l :: rest)
        else limit_loop now (l :: done) rest rc excess
    end
  end.

(** A request that is refused is taken back from the zones before. *)
Definition release_node (a : Z) (z : zone) : outcome zone :=
  let! lr := lr_of z a in
  let lr := MkLr (lr_len lr) (lr_last lr) (lr_excess lr) (wrapU 64 (lr_count lr - 1)) (lr_data lr) in
  Ret (set_z_node None (set_lr a lr z)).

Definition release_one (l : ngx_http_limit_req_limit_t) : outcome ngx_http_limit_req_limit_t :=
  match z_node (l_zone l) with
  | None => Ret l
  | Some a => let! z := release_node a (l_zone l) in Ret (set_l_zone z l)
  end.

Fixpoint release (done : list ngx_http_limit_req_limit_t) : outcome (list ngx_http_limit_req_limit_t) :=
  match done with
  | [] => Ret []
  | l :: done => let! l := release_one l in let! done := release done in Ret (l :: done)
  end.

(** excess * 1000 / ctx->rate; a rate of 0 stops the process. *)
Definition delay_of (excess rate : Z) : outcome Z :=
  if rate =? 0 then Undefined else Ret (wrapU 64 (excess * 1000) / rate).

(** The accounting of the request in a zone before; the result has the excess. *)
Definition account_node (now a : Z) (z : zone) : outcome (Z * zone) :=
  let! lr := lr_of z a in
  let excess := excess_at (z_rate z) now lr in
  let lr := MkLr (lr_len lr) now (wrapU 64 excess) (wrapU 64 (lr_count lr - 1)) (lr_data lr) in
  Ret (excess, set_z_node None (set_lr a lr z)).

(** The loop of ngx_http_limit_req_account over the zones before, from the
    last one on. *)
Fixpoint account_loop (now max_delay : Z) (done : list ngx_http_limit_req_limit_t)
    : outcome (Z * list ngx_http_limit_req_limit_t) :=
  match done with
  | [] => Ret (max_delay, [])
  | l :: done =>
    match z_node (l_zone l) with
    | None => let! r := account_loop now max_delay done in Ret (r.1, l :: r.2)
    | Some a =>
      let! p := account_node now a (l_zone l) in
      let! max_delay := (if l_nodelay l then Ret max_delay
                         else let! delay := delay_of p.1 (z_rate (l_zone l)) in
                              Ret (if delay >? max_delay then delay else max_delay)) in
      let! r := account_loop now max_delay done in Ret (r.1, set_l_zone p.2 l :: r.2)
    end
  end.

(** [limit] is the limit at which the loop was left. *)
Definition ngx_http_limit_req_account (now excess : Z) (limit : option ngx_http_limit_req_limit_t)
    (done : list ngx_http_limit_req_limit_t) : outcome (Z * list ngx_http_limit_req_limit_t) :=
  let! max_delay :=
    match limit with
    | Some l => if (excess =? 0) || l_nodelay l then Ret 0 else delay_of excess (z_rate (l_zone l))
    | None => Ret 0
    end in
  account_loop now max_delay done.

(** What the handler does with the request. *)
Inductive verdict := Pass | Delay (ms : Z) | Refuse (status : Z).

Definition ngx_http_limit_req_handler (now : Z) (limit_req_set : bool)
    (limits : list ngx_http_limit_req_limit_t)
    : outcome (verdict * bool * list ngx_http_limit_req_limit_t) :=
  if limit_req_set then Ret (Pass, limit_req_set, limits)
  else
    let! p := limit_loop now [] limits NGX_DECLINED 0 in
    let '(rc, excess, done, rest) := p in
    if rc =? NGX_DECLINED then Ret (Pass, false, List.rev done ++ rest)
    else if (rc =? LIMIT_BUSY) || (rc =? NGX_ERROR) then
      let! done := release done in
      Ret (Refuse NGX_HTTP_SERVICE_UNAVAILABLE, true, List.rev done ++ rest)
    else
      let excess := if rc =? NGX_AGAIN then 0 else excess in
      let! r := ngx_http_limit_req_account now excess (head rest) done in
      Ret (if r.1 =? 0 then Pass else Delay r.1, true, List.rev r.2 ++ rest).

(** ngx_http_limit_req_init_zone.  [octx] is the context of the zone in the
    configuration before, if it had the zone, with its variable; [exists_] are
    the contents of a memory that exists already.  The sentinel is in the block
    of the shared context and has its address. *)
Definition shctx_size : Z := 80.

Definition ngx_http_limit_req_init_zone (var : list Z) (rate name_len : Z)
    (octx : option (list Z * zone)) (exists_ : option zone) (pool : P) : option zone :=
  let keep o := MkZone (z_sentinel o) (z_rb o) (z_lr o) (z_queue o) (z_pool o) rate None in
  match octx with
  | Some (ovar, o) => if decide (var = ovar) then Some (keep o) else None
  | None =>
    match exists_ with
    | Some o => Some (keep o)
    | None =>
      match slab_alloc pool shctx_size with
      | None => None
      | Some (sh, pool) =>
        match slab_alloc pool (22 + name_len) with
        | None => None
        | Some (_, pool) => Some (MkZone sh (MkRb {[sh := MkNode 0 0 0 0 false]} sh) ∅ [] pool rate None)
        end
      end
    end
  end.

End LimitReq.

Arguments zone : clear implicits.
Arguments ngx_http_limit_req_limit_t : clear implicits.

End LimitReq.
