(* ===== verification/NgxLimitReqZone.v ===== *)
(** The zone of a request limit: the invariant of its tree, queue and records,
    and what a lookup does to the records. *)

From stdpp Require Import sorting.
From S2P Require Import Prelude NgxStringCmp NgxCrc32 NgxRbtree NgxRbtreeRep NgxRbtreeInsert NgxRbtreeDelete NgxRbtreeOrder NgxLimitReq.

#[local] Open Scope Z_scope.

Module LimitReqZone.

Export StringCmp Crc32 RbtreeOrder LimitReq.

(** * The order of the nodes *)

(** The part of the key that a record is compared by. *)
Definition stored (lr : ngx_http_limit_req_node_t) : list Z := take (Z.to_nat (lr_len lr)) (lr_data lr).

Definition lr_wf (lr : ngx_http_limit_req_node_t) : Prop :=
  0 <= lr_len lr < 256 /\ lr_len lr <= Z.of_nat (length (lr_data lr)).

Definition kcmp (x y : Z * list Z) : Z :=
  if x.1 <? y.1 then -1 else if x.1 >? y.1 then 1 else bytes_cmp x.2 y.2.

Definition skey (lrs : gmap Z ngx_http_limit_req_node_t) (p : Z * Z) : Z * list Z :=
  (p.2, from_option stored [] (lrs !! p.1)).

Lemma kcmp_eq x y : kcmp x y = 0 <-> x = y.
Proof.
  destruct x as [h1 d1], y as [h2 d2]. unfold kcmp. cbn. split.
  - destruct (h1 <? h2) eqn:E1, (h1 >? h2) eqn:E2; boolify; try done. intros ->%bytes_cmp_eq. f_equal. lia.
  - intros [= -> ->]. rewrite Z.ltb_irrefl. destruct (h2 >? h2) eqn:E; boolify; [lia|]. apply bytes_cmp_refl.
Qed.

Lemma kcmp_opp x y : kcmp x y < 0 <-> 0 < kcmp y x.
Proof.
  destruct x as [h1 d1], y as [h2 d2]. unfold kcmp. cbn. pose proof (bytes_cmp_opp d1 d2).
  destruct (h1 <? h2) eqn:E1, (h1 >? h2) eqn:E2, (h2 <? h1) eqn:E3, (h2 >? h1) eqn:E4; boolify; lia.
Qed.

Lemma kcmp_trans x y z : kcmp x y < 0 -> kcmp y z < 0 -> kcmp x z < 0.
Proof.
  destruct x as [h1 d1], y as [h2 d2], z as [h3 d3]. unfold kcmp. cbn.
  pose proof (bytes_cmp_trans d1 d2 d3).
  destruct (h1 <? h2) eqn:E1, (h1 >? h2) eqn:E2, (h2 <? h3) eqn:E3, (h2 >? h3) eqn:E4,
    (h1 <? h3) eqn:E5, (h1 >? h3) eqn:E6; boolify; try lia; auto.
Qed.

(** The sign of the comparison falls along the order. *)
Lemma kcmp_mono t x y : kcmp x y <= 0 -> Z.sgn (kcmp t y) <= Z.sgn (kcmp t x).
Proof.
  intros H. destruct (Z.eq_dec (kcmp x y) 0) as [->%kcmp_eq|Hne]; [lia|]. assert (Hxy : kcmp x y < 0) by lia.
  destruct (Z.lt_trichotomy (kcmp t x) 0) as [Htx|[Htx|Htx]].
  - pose proof (kcmp_trans t x y Htx Hxy). lia.
  - apply kcmp_eq in Htx as ->. assert (kcmp x x = 0) by (by apply kcmp_eq). lia.
  - lia.
Qed.

(** What the comparisons of the code compute. *)
Lemma limit_req_cmp_kcmp lrs hash data a n lr :
  lrs !! a = Some lr -> lr_wf lr ->
  limit_req_cmp lrs hash data a n = kcmp (hash, data) (skey lrs (a, n_key n)).
Proof.
  intros Ha [Hwf Hwf']. unfold limit_req_cmp, kcmp, skey. cbn. rewrite Ha. cbn.
  destruct (hash <? n_key n), (hash >? n_key n); try done. apply memn2cmp_take. lia.
Qed.

Lemma memn2cmp_stored x y : lr_wf x -> lr_wf y ->
  ngx_memn2cmp (lr_data x) (lr_data y) (lr_len x) (lr_len y) = bytes_cmp (stored x) (stored y).
Proof.
  intros [Hx Hx'] [Hy Hy']. unfold stored at 2. rewrite <- memn2cmp_take by lia. unfold ngx_memn2cmp.
  assert (Hl : Z.of_nat (length (stored x)) = lr_len x).
  { unfold stored. rewrite length_take, Nat.min_l by lia. lia. }
  rewrite Hl. destruct (_ <=? _) eqn:E; boolify.
  - assert (ngx_memcmp_n (lr_data x) (lr_data y) (Z.to_nat (lr_len x)) =
            ngx_memcmp_n (stored x) (lr_data y) (Z.to_nat (lr_len x))) as ->; [|done].
    unfold stored. generalize (lr_data x) (lr_data y) (Z.to_nat (lr_len x)). clear.
    intros l1 l2 n. revert l1 l2. induction n as [|n IH]; intros [|a l1] [|b l2]; cbn; try done.
    by rewrite IH.
  - assert (ngx_memcmp_n (lr_data x) (lr_data y) (Z.to_nat (lr_len y)) =
            ngx_memcmp_n (stored x) (lr_data y) (Z.to_nat (lr_len y))) as ->; [|done].
    unfold stored. generalize (lr_data x) (lr_data y). assert (Hn : (Z.to_nat (lr_len y) <= Z.to_nat (lr_len x))%nat) by lia.
    revert Hn. generalize (Z.to_nat (lr_len x)) (Z.to_nat (lr_len y)). clear.
    intros m n Hn l1 l2. revert m Hn l1 l2.
    induction n as [|n IH]; intros [|m] Hn [|a l1] [|b l2]; cbn; try done; try lia. rewrite (IH m) by lia. done.
Qed.

(** * The invariant of a zone *)

Definition korder (lrs : gmap Z ngx_http_limit_req_node_t) (p q : Z * Z) : Prop :=
  kcmp (skey lrs p) (skey lrs q) <= 0.

Lemma sorted_ext {A} (R R' : A -> A -> Prop) l :
  (forall p q, p ∈ l -> q ∈ l -> R p q -> R' p q) -> StronglySorted R l -> StronglySorted R' l.
Proof.
  intros H Hs. induction Hs as [|p l Hs IH Hp]; [constructor|]. constructor.
  - apply IH. intros q r Hq Hr. apply H; by constructor.
  - rewrite Forall_forall in *. intros q Hq. apply H; [constructor|by constructor|auto].
Qed.

(** The records of the nodes of the tree. *)
Definition recorded (lrs : gmap Z ngx_http_limit_req_node_t) (l : list (Z * Z)) : Prop :=
  forall a k, (a, k) ∈ l -> exists lr, lrs !! a = Some lr /\ lr_wf lr /\ k = ngx_crc32_short (lr_data lr).

Definition TreeOk (s : Z) (lrs : gmap Z ngx_http_limit_req_node_t) (queue : list Z) (rb : rbmem) : Prop :=
  exists sn t, n_red sn = false /\ Rep s sn t rb /\ red_black t /\
    StronglySorted (korder lrs) (nodes t) /\ (nodes t).*1 ≡ₚ queue /\ recorded lrs (nodes t).

Lemma recorded_found lrs l a k : recorded lrs l -> (a, k) ∈ l ->
  exists lr, lrs !! a = Some lr /\ lr_wf lr /\ skey lrs (a, k) = (ngx_crc32_short (lr_data lr), stored lr).
Proof.
  intros H Hin. destruct (H _ _ Hin) as (lr & Hlr & Hwf & ->). exists lr. split_and!; [done..|].
  unfold skey. cbn. by rewrite Hlr.
Qed.

Lemma tree_queue s lrs queue rb a : TreeOk s lrs queue rb -> a ∈ queue ->
  exists lr, lrs !! a = Some lr /\ lr_wf lr.
Proof.
  intros (sn & t & _ & _ & _ & _ & Hq & Hrec) Ha. rewrite <- Hq in Ha.
  apply list_elem_of_fmap in Ha as ([a' k] & -> & Hin). destruct (Hrec _ _ Hin) as (lr & ? & ? & _). eauto.
Qed.

Lemma tree_NoDup s lrs queue rb : TreeOk s lrs queue rb -> NoDup queue /\ (s ∉ queue).
Proof.
  intros (sn & t & _ & [_ _ ND _] & _ & _ & Hq & _). rewrite addrs_nodes, Hq in ND.
  by apply NoDup_cons in ND as [? ?].
Qed.

Lemma tree_dom s lrs queue rb a : TreeOk s lrs queue rb -> a ∈ s :: queue -> a ∈ dom (heap rb).
Proof.
  intros (sn & t & _ & [[p0 R] _ _ Hs] & _ & _ & Hq & _) [->|Ha]%elem_of_cons.
  - apply elem_of_dom. eauto.
  - rewrite <- Hq, <- addrs_nodes in Ha. by eapply repr_dom.
Qed.

(** A change of the records that leaves the keys of the nodes. *)
Lemma tree_records s lrs lrs' queue rb :
  (forall a lr, a ∈ queue -> lrs !! a = Some lr -> exists lr', lrs' !! a = Some lr' /\
     lr_len lr' = lr_len lr /\ lr_data lr' = lr_data lr) ->
  TreeOk s lrs queue rb -> TreeOk s lrs' queue rb.
Proof.
  intros H (sn & t & Hsn & R & Hrb & Hs & Hq & Hrec). exists sn, t. split_and!; try done.
  - assert (Hk : forall p, p ∈ nodes t -> skey lrs' p = skey lrs p).
    { intros [a k] Hp. destruct (Hrec _ _ Hp) as (lr & Hlr & _). destruct (H a lr) as (lr' & Hlr' & Hl & Hd); [|done|].
      { rewrite <- Hq. apply list_elem_of_fmap. by exists (a, k). }
      unfold skey, stored. cbn. rewrite Hlr, Hlr'. cbn. by rewrite Hl, Hd. }
    eapply sorted_ext; [|exact Hs]. intros p q Hp Hq'. unfold korder. by rewrite !Hk.
  - intros a k Hin. destruct (Hrec _ _ Hin) as (lr & Hlr & [Hwf Hwf'] & ->).
    destruct (H a lr) as (lr' & Hlr' & Hl & Hd); [|done|].
    { rewrite <- Hq. apply list_elem_of_fmap. eexists. split; [|exact Hin]. done. }
    exists lr'. split; [done|]. unfold lr_wf. by rewrite Hl, Hd.
Qed.

(** * Searching *)

Definition key_of (lr : ngx_http_limit_req_node_t) : Z * list Z := (ngx_crc32_short (lr_data lr), stored lr).

Lemma limit_search_ok s lrs queue rb hash data : TreeOk s lrs queue rb ->
  exists r, (r ← get_root; fuel ← path_fuel; rbtree_search (limit_req_cmp lrs hash data) s fuel r) rb = Ret (r, rb) /\
    match r with
    | Some a => a ∈ queue /\ exists lr, lrs !! a = Some lr /\ lr_wf lr /\ key_of lr = (hash, data)
    | None => forall a lr, a ∈ queue -> lrs !! a = Some lr -> key_of lr <> (hash, data)
    end.
Proof.
  intros (sn & t & Hsn & R & Hrb & Hs & Hq & Hrec).
  set (cmp' := fun p : Z * Z => limit_req_cmp lrs hash data p.1 (MkNode p.2 0 0 0 false)).
  assert (Hcmp : forall p, p ∈ nodes t -> cmp' p = kcmp (hash, data) (skey lrs p)).
  { intros [a k] Hp. destruct (Hrec _ _ Hp) as (lr & Hlr & Hwf & _). unfold cmp'. cbn [fst snd].
    by erewrite limit_req_cmp_kcmp. }
  assert (H : wp (r ← get_root; fuel ← path_fuel; rbtree_search (limit_req_cmp lrs hash data) s fuel r)
    (fun r st' => st' = rb /\ match r with
       | Some a => exists k, (a, k) ∈ nodes t /\ cmp' (a, k) = 0
       | None => Forall (fun q => cmp' q <> 0) (nodes t)
       end) rb).
  { apply wp_bind, wp_get_root. apply wp_bind, wp_path_fuel. rewrite (rep_root _ _ _ _ R).
    apply (search_ok s sn _ cmp' _ []); [exact R|done| |].
    - eapply sorted_ext; [|exact Hs]. intros p q Hp Hq' Hpq. cbn beta. rewrite !Hcmp by done. by apply kcmp_mono.
    - pose proof (Rep_path_fuel s sn [] _ _ R). cbn in *. lia. }
  apply wp_elim in H as (r & st' & E & -> & H). exists r. split; [exact E|]. destruct r as [a|].
  - destruct H as (k & Hin & H0). rewrite Hcmp in H0 by done. apply kcmp_eq in H0.
    split; [rewrite <- Hq; apply list_elem_of_fmap; by exists (a, k)|].
    destruct (recorded_found _ _ _ _ Hrec Hin) as (lr & Hlr & Hwf & Hk). exists lr. unfold key_of. by rewrite <- Hk, <- H0.
  - intros a lr Ha Hlr Hk. rewrite <- Hq in Ha. apply list_elem_of_fmap in Ha as ([a' k] & -> & Hin).
    rewrite Forall_forall in H. apply (H _ Hin). rewrite Hcmp by done. apply kcmp_eq. cbn in Hlr.
    destruct (recorded_found _ _ _ _ Hrec Hin) as (lr' & Hlr' & _ & Hk'). unfold key_of in Hk. congruence.
Qed.

(** * Removing a node *)

Lemma repr_delete s h par t a : a ∉ addrs t -> repr s h par t -> repr s (delete a h) par t.
Proof.
  revert par. induction t as [|red l IHl x k r IHr]; cbn; intros par Ha; [done|].
  apply not_elem_of_cons in Ha as [Hx Ha]. apply not_elem_of_app in Ha as [Hl Hr].
  rewrite lookup_delete_ne by done. intros (H1 & H2 & H3). eauto.
Qed.

Lemma Rep_delete s sn t a h r :
  (a ∉ s :: addrs t) -> Rep s sn t (MkRb h r) -> Rep s sn t (MkRb (delete a h) r).
Proof.
  rewrite not_elem_of_cons. intros [Hs Ha] [[p0 H] Hr ND Hh]. split; cbn [heap root] in *; [|done|done|].
  - exists p0. by apply repr_delete.
  - by rewrite lookup_delete_ne.
Qed.

Lemma queue_remove_perm a q q' : q ≡ₚ a :: q' -> NoDup q -> ngx_queue_remove a q ≡ₚ q'.
Proof.
  intros Hp ND. unfold ngx_queue_remove. rewrite Hp, filter_cons_False by tauto. rewrite Hp in ND.
  apply NoDup_cons in ND as [Ha _]. clear Hp. induction q' as [|b q' IH]; [done|].
  apply not_elem_of_cons in Ha as [Hb Ha]. rewrite filter_cons_True by congruence. by rewrite (IH Ha).
Qed.

Lemma tree_remove s lrs queue rb a : TreeOk s lrs queue rb -> a ∈ queue ->
  exists rb', ngx_rbtree_delete s a rb = Ret (tt, rb') /\ dom (heap rb') = dom (heap rb) /\
    TreeOk s (delete a lrs) (ngx_queue_remove a queue) (MkRb (delete a (heap rb')) (root rb')).
Proof.
  intros HT Ha. destruct (tree_NoDup _ _ _ _ HT) as [NDq Hsq].
  destruct HT as (sn & t & Hsn & R & Hrb & Hs & Hq & Hrec). pose proof Ha as Hin.
  rewrite <- Hq in Hin. apply list_elem_of_fmap in Hin as ([a' k] & Ea & Hin). cbn in Ea. subst a'.
  apply list_elem_of_split in Hin as (l1 & l2 & El).
  assert (Hpq : queue ≡ₚ a :: (l1 ++ l2).*1).
  { rewrite <- Hq, El, !fmap_app. cbn. by rewrite Permutation_middle. }
  assert (H : wp (ngx_rbtree_delete s a) (fun _ st' => (exists sn' t', n_red sn' = false /\ Rep s sn' t' st' /\
              red_black t' /\ nodes t' = l1 ++ l2) /\ dom (heap st') = dom (heap rb)) rb).
  { apply wp_keeps; [apply keeps_delete|]. by eapply rbtree_delete_ok. }
  apply wp_elim in H as ([] & rb' & E & (sn' & t' & Hsn' & R' & Hrb' & Hn') & Hd).
  exists rb'. split; [exact E|]. split; [exact Hd|].
  assert (Ha' : a ∉ (l1 ++ l2).*1) by (rewrite Hpq in NDq; by apply NoDup_cons in NDq as [? _]).
  assert (Hle : forall p, p ∈ l1 ++ l2 -> p ∈ nodes t) by (rewrite El; set_solver).
  assert (Hne : forall p, p ∈ l1 ++ l2 -> a <> p.1).
  { intros p Hp ->. apply Ha'. apply list_elem_of_fmap. eauto. }
  exists sn', t'. rewrite Hn'. split_and!; [done| |done| |by symmetry; apply queue_remove_perm|].
  - apply Rep_delete; [|by destruct rb'].
    rewrite addrs_nodes, Hn'. set_solver.
  - rewrite El in Hs. apply StronglySorted_app in Hs as (H12 & Hs1 & Hs2). inversion_clear Hs2 as [|? ? Hs2' Hs2''].
    eapply sorted_ext; [|apply StronglySorted_app_2; [|exact Hs1|exact Hs2']].
    + intros p q Hp Hq'. unfold korder, skey. rewrite !lookup_delete_ne by auto. done.
    + intros p q Hp Hq'. apply H12; [done|by constructor].
  - intros b kb Hb. rewrite lookup_delete_ne by by apply (Hne (b, kb)). apply Hrec. auto.
Qed.

(** * Adding a node *)

Definition limit_left (lrs : gmap Z ngx_http_limit_req_node_t) (e p : Z * Z) : bool :=
  limit_req_left lrs e.1 e.2 p.1 (MkNode p.2 0 0 0 false).

#[global] Instance limit_req_callback lrs :
  InsertCallback (ngx_http_limit_req_rbtree_insert_value lrs) (limit_left lrs).
Proof. exact (descend_callback (limit_left lrs)). Qed.

Lemma limit_left_kcmp lrs x kx y ky lrx lry :
  lrs !! x = Some lrx -> lr_wf lrx -> lrs !! y = Some lry -> lr_wf lry ->
  limit_left lrs (x, kx) (y, ky) = (kcmp (skey lrs (x, kx)) (skey lrs (y, ky)) <? 0).
Proof.
  intros Hx Hwx Hy Hwy. unfold limit_left, limit_req_left, kcmp, skey. cbn. rewrite Hx, Hy. cbn.
  destruct (kx <? ky), (kx >? ky); try done. by rewrite memn2cmp_stored.
Qed.

Lemma kcmp_flip x y : 0 <= kcmp x y -> kcmp y x <= 0.
Proof. intros H. destruct (Z.lt_ge_cases 0 (kcmp y x)) as [H'|]; [|lia]. apply kcmp_opp in H'. lia. Qed.

Lemma tree_add s lrs queue rb a lr n : TreeOk s lrs queue rb -> a ∉ dom (heap rb) -> lr_wf lr ->
  n_key n = ngx_crc32_short (lr_data lr) ->
  exists rb', ngx_rbtree_insert (ngx_http_limit_req_rbtree_insert_value (<[a := lr]> lrs)) s a
                (MkRb (<[a := n]> (heap rb)) (root rb)) = Ret (tt, rb') /\
    dom (heap rb') = {[a]} ∪ dom (heap rb) /\ TreeOk s (<[a := lr]> lrs) (a :: queue) rb'.
Proof.
  intros HT Ha Hwf Hn. assert (Hfresh : a ∉ s :: queue).
  { intros Hin. apply Ha. by eapply tree_dom. }
  apply (tree_records _ _ (<[a := lr]> lrs)) in HT; [|intros b lb Hb Hlb; exists lb; split; [|done];
    rewrite lookup_insert_ne; [done|set_solver]].
  set (lrs' := <[a := lr]> lrs) in *. set (k := n_key n) in *.
  assert (Hlr : lrs' !! a = Some lr) by apply lookup_insert_eq.
  destruct HT as (sn & t & Hsn & R & Hrb & Hs & Hq & Hrec).
  assert (Hg : forall p, p ∈ nodes t -> limit_left lrs' (a, k) p = (kcmp (skey lrs' (a, k)) (skey lrs' p) <? 0)).
  { intros [b kb] Hp. destruct (Hrec _ _ Hp) as (lb & Hlb & Hwb & _). by eapply limit_left_kcmp. }
  assert (Hpart : parted (limit_left lrs' (a, k)) (nodes t)).
  { eapply order_parted; [exact Hs|]. intros p q Hp Hq' Hpq. rewrite !Hg by done. unfold korder in Hpq.
    pose proof (kcmp_mono (skey lrs' (a, k)) _ _ Hpq). intros ?. boolify. lia. }
  set (Q := fun (_ : unit) st' => exists t', Rep s sn t' st' /\ red_black t' /\
        nodes t' = place (limit_left lrs' (a, k)) (a, k) (nodes t)).
  set (st := MkRb (<[a := n]> (heap rb)) (root rb)).
  assert (H : wp (ngx_rbtree_insert (ngx_http_limit_req_rbtree_insert_value lrs') s a)
     (fun u st' => Q u st' /\ dom (heap st') = dom (heap st)) st).
  { apply (wp_keeps _ Q st).
    { apply keeps_insert. intros t0. unfold ngx_http_limit_req_rbtree_insert_value. keeps. apply keeps_descend. }
    assert (Hf : a ∉ s :: addrs t) by by rewrite addrs_nodes, Hq.
    eapply rbtree_insert_ok; [done|done|apply Rep_insert; [done|by destruct rb]| |done].
    split; [done|]. exists n. unfold st. cbn [heap]. by rewrite lookup_insert_eq. }
  apply wp_elim in H as ([] & rb' & E & (t' & R' & Hrb' & Hn') & Hd).
  exists rb'. split; [exact E|]. split; [rewrite Hd; unfold st; cbn [heap]; set_solver|].
  exists sn, t'. rewrite Hn'. split_and!; [done|done|done| | |].
  - apply order_place; [done|done|]. intros p Hp. rewrite Hg by done. unfold korder.
    destruct (_ <? 0) eqn:E0; boolify; [lia|by apply kcmp_flip].
  - rewrite place_perm. cbn. by rewrite Hq.
  - intros b kb. rewrite place_perm. intros [[= -> ->]|Hb]%elem_of_cons; [|by apply Hrec].
    exists lr. done.
Qed.

End LimitReqZone.
