(* ===== verification/NgxLimitReqLru.v ===== *)
(** What a zone is to the request limiter: the list of the accounting records,
    the last used first.  The lookup in the tree, the queue and the slab pool
    refines the operations on that list. *)

From stdpp Require Import sorting.
From S2P Require Import Prelude NgxNumber NgxStringCmp NgxCrc32 NgxRbtree NgxRbtreeRep NgxRbtreeInsert NgxRbtreeDelete NgxRbtreeOrder NgxLimitReq NgxLimitReqZone.

#[local] Open Scope Z_scope.

Module LimitReqLru.

Export LimitReqZone.

(** * The specification *)

Definition refused (v : verdict) : bool := match v with Refuse _ => true | _ => false end.

(** The test of ngx_http_limit_req_expire for the last record. *)
Definition forgotten (rate now n : Z) (lr : ngx_http_limit_req_node_t) : bool :=
  let ms := Z.abs (wrapS 64 (now - lr_last lr)) in
  (lr_count lr =? 0) &&
  ((n =? 0) || ((60000 <=? ms) && (wrapS 64 (lr_excess lr - wrapU 64 (rate * ms) / 1000) <=? 0))).

Fixpoint lru_expire (rate now n : Z) (fuel : nat) (l : list ngx_http_limit_req_node_t)
    : list ngx_http_limit_req_node_t :=
  match fuel with
  | O => l
  | S fuel =>
    match last l with
    | Some lr => if (n <? 3) && forgotten rate now n lr then lru_expire rate now (n + 1) fuel (removelast l) else l
    | None => l
    end
  end.

(** The record of a key and the others. *)
Fixpoint lru_take (data : list Z) (l : list ngx_http_limit_req_node_t)
    : option (ngx_http_limit_req_node_t * list ngx_http_limit_req_node_t) :=
  match l with
  | [] => None
  | lr :: l =>
    if decide (lr_data lr = data) then Some (lr, l)
    else match lru_take data l with Some (x, l) => Some (x, lr :: l) | None => None end
  end.

(** Room for a new record: [room] says whether the pool has it, first after
    the expired records are gone and then after the oldest one is. *)
Definition lru_room (rate now : Z) (room : bool * bool) (l : list ngx_http_limit_req_node_t)
    : bool * list ngx_http_limit_req_node_t :=
  let l := lru_expire rate now 1 3 l in
  if room.1 then (true, l)
  else let l := lru_expire rate now 0 3 l in (room.2, l).

Definition lru_new (now : Z) (data : list Z) (account : bool) : ngx_http_limit_req_node_t :=
  MkLr (wrapU 8 (Z.of_nat (length data))) (if account then now else 0) 0 (if account then 0 else 1) data.

Definition lru_lookup (rate now burst : Z) (data : list Z) (account : bool) (room : bool * bool)
    (l : list ngx_http_limit_req_node_t) : Z * Z * list ngx_http_limit_req_node_t :=
  match lru_take data l with
  | Some (lr, l) =>
    let excess := excess_at rate now lr in
    if wrapU 64 excess >? burst then (LIMIT_BUSY, excess, lr :: l)
    else if account then
      (NGX_OK, excess, MkLr (lr_len lr) now (wrapU 64 excess) (lr_count lr) (lr_data lr) :: l)
    else
      (NGX_AGAIN, excess,
       MkLr (lr_len lr) (lr_last lr) (lr_excess lr) (wrapU 64 (lr_count lr + 1)) (lr_data lr) :: l)
  | None =>
    let r := lru_room rate now room l in
    if r.1 then (if account then NGX_OK else NGX_AGAIN, 0, lru_new now data account :: r.2)
    else (NGX_ERROR, 0, r.2)
  end.

(** The keys are stored as they are, each once. *)
Record KeysOk (l : list ngx_http_limit_req_node_t) : Prop := MkKeysOk {
  ko_len : Forall (fun lr => lr_len lr = Z.of_nat (length (lr_data lr))) l;
  ko_nodup : NoDup (map lr_data l) }.

Lemma lru_expire_prefix rate now fuel : forall n l, exists l2, l = lru_expire rate now n fuel l ++ l2.
Proof.
  induction fuel as [|fuel IH]; intros n l; cbn; [by exists []; rewrite app_nil_r|].
  destruct (last l) as [lr|] eqn:El; [|by exists []; rewrite app_nil_r].
  destruct (_ && _); [|by exists []; rewrite app_nil_r].
  apply last_Some in El as [l' ->]. rewrite removelast_last.
  destruct (IH (n + 1) l') as [l2 E]. exists (l2 ++ [lr]). by rewrite app_assoc, <- E.
Qed.

Lemma lru_room_prefix rate now room l : exists l2, l = (lru_room rate now room l).2 ++ l2.
Proof.
  unfold lru_room. destruct (lru_expire_prefix rate now 3 1 l) as [l2 E2]. destruct room.1; [by exists l2|]. cbn [snd].
  destruct (lru_expire_prefix rate now 3 0 (lru_expire rate now 1 3 l)) as [l3 E3].
  exists (l3 ++ l2). by rewrite app_assoc, <- E3.
Qed.

Lemma lru_take_perm data l x l' : lru_take data l = Some (x, l') -> l ≡ₚ x :: l' /\ lr_data x = data.
Proof.
  revert l'. induction l as [|lr l IH]; intros l'; cbn; [done|]. case_decide as Hd.
  - intros [= -> ->]. done.
  - destruct (lru_take data l) as [[y l1]|]; [|done]. intros [= -> <-].
    destruct (IH l1 eq_refl) as [-> Hx]. split; [apply Permutation_swap|done].
Qed.

Lemma lru_take_none data l : lru_take data l = None <-> data ∉ map lr_data l.
Proof.
  induction l as [|lr l IH]; cbn; [set_solver|]. rewrite not_elem_of_cons. case_decide as Hd.
  - split; [done|]. intros [? _]. congruence.
  - destruct (lru_take data l) as [[y l1]|].
    + split; [done|]. intros [_ Hn]. by apply IH in Hn.
    + split; [|done]. intros _. split; [congruence|]. by apply IH.
Qed.

Lemma keys_perm l l' : l ≡ₚ l' -> KeysOk l -> KeysOk l'.
Proof. intros Hp [H1 H2]. split; [by rewrite <- Hp|]. by rewrite <- Hp. Qed.

Lemma keys_cons lr l : KeysOk (lr :: l) <->
  lr_len lr = Z.of_nat (length (lr_data lr)) /\ (lr_data lr ∉ map lr_data l) /\ KeysOk l.
Proof.
  split.
  - intros [H1 H2]. apply Forall_cons in H1 as [H1 H1']. apply NoDup_cons in H2 as [H2 H2']. done.
  - intros (H1 & H2 & [H3 H4]). split; [by constructor|]. by constructor.
Qed.

Lemma keys_app l l' : KeysOk (l ++ l') -> KeysOk l.
Proof. intros [[H1 _]%Forall_app H2]. split; [done|]. rewrite map_app in H2. by apply NoDup_app in H2 as [? _]. Qed.

Lemma lru_lookup_keys rate now burst data account room l :
  KeysOk l -> (length data < 256)%nat -> KeysOk (lru_lookup rate now burst data account room l).2.
Proof.
  intros HK Hlen. unfold lru_lookup. destruct (lru_take data l) as [[x l']|] eqn:Et.
  - apply lru_take_perm in Et as [Hp Hx]. apply (keys_perm _ _ Hp), keys_cons in HK as (H1 & H2 & H3).
    destruct (_ >? _); [by apply keys_cons|]. by destruct account; apply keys_cons.
  - apply lru_take_none in Et. destruct (lru_room_prefix rate now room l) as [l2 E].
    destruct (lru_room rate now room l) as [b l1]. cbn in *. subst l. rewrite map_app, not_elem_of_app in Et.
    destruct b; cbn; [|by eapply keys_app]. apply keys_cons. cbn.
    split_and!; [unfold wrapU; rewrite Z.mod_small; lia|tauto|by eapply keys_app].
Qed.

(** * The invariant *)

Section Lru.
Context {P : Type} `{SlabLaws P}.
Implicit Types z : zone P.

Record ZoneOk (z : zone P) : Prop := MkZoneOk {
  zo_tree : TreeOk (z_sentinel z) (z_lr z) (z_queue z) (z_rb z);
  zo_live : dom (heap (z_rb z)) ⊆ slab_live (z_pool z);
  zo_dom : forall a lr, z_lr z !! a = Some lr -> a ∈ z_queue z }.

Definition entries (z : zone P) : list ngx_http_limit_req_node_t := omap (fun a => z_lr z !! a) (z_queue z).

(** The number of the requests that hold a node. *)
Definition holds_count (z : zone P) (a : Z) : Z := from_option lr_count 0 (z_lr z !! a).

(** What no lookup changes. *)
Definition same_zone (z z' : zone P) : Prop :=
  z_sentinel z' = z_sentinel z /\ z_rate z' = z_rate z.

Lemma entries_ext z z' : z_queue z' = z_queue z ->
  (forall a, a ∈ z_queue z -> z_lr z' !! a = z_lr z !! a) -> entries z' = entries z.
Proof.
  unfold entries. intros -> Hl. induction (z_queue z) as [|a q IH]; [done|].
  cbn. rewrite Hl by constructor. rewrite IH; [done|]. intros b Hb. apply Hl. by constructor.
Qed.

Lemma omap_ext {A B} (f g : A -> option B) (l : list A) : (forall x, x ∈ l -> f x = g x) -> omap f l = omap g l.
Proof.
  induction l as [|x l IH]; intros Hl; [done|]. cbn. rewrite Hl by constructor. rewrite IH; [done|].
  intros y Hy. apply Hl. by constructor.
Qed.

(** * Expiring *)

Lemma queue_remove_notin a q : a ∉ q -> ngx_queue_remove a q = q.
Proof.
  induction q as [|b q IH]; [done|]. intros [Hb Ha]%not_elem_of_cons. unfold ngx_queue_remove.
  rewrite filter_cons_True by congruence. f_equal. by apply IH.
Qed.

Lemma queue_remove_last q a : NoDup (q ++ [a]) -> ngx_queue_remove a (q ++ [a]) = q.
Proof.
  intros ND. apply NoDup_app in ND as (_ & Hd & _). unfold ngx_queue_remove.
  rewrite filter_app, (filter_cons_False _ a) by tauto. cbn. rewrite app_nil_r.
  apply queue_remove_notin. intros Ha. apply (Hd a Ha). constructor.
Qed.

Lemma expire_test n ms ex :
  (n =? 0) || ((60000 <=? ms) && (ex <=? 0)) = negb (negb (n =? 0) && ((ms <? 60000) || (ex >? 0))).
Proof.
  rewrite (Z.leb_antisym ms 60000), (Z.leb_antisym 0 ex), Z.gtb_ltb. by destruct (n =? 0), (ms <? 60000), (0 <? ex).
Qed.

Lemma expire_one_ok now n z : ZoneOk z ->
  exists r, expire_one now n z = Ret r /\
    match r with
    | None => forall lr, last (entries z) = Some lr -> forgotten (z_rate z) now n lr = false
    | Some z' => ZoneOk z' /\ same_zone z z' /\ (exists lr, last (entries z) = Some lr /\
        forgotten (z_rate z) now n lr = true) /\ entries z' = removelast (entries z) /\ z_node z' = z_node z /\
        (forall a, holds_count z' a = holds_count z a) /\ z_lr z' ⊆ z_lr z
    end.
Proof.
  intros [HT HL HD]. unfold expire_one. destruct (last (z_queue z)) as [a|] eqn:El.
  2:{ apply last_None in El. exists None. split; [done|]. intros lr. unfold entries. by rewrite El. }
  apply last_Some in El as [q Eq]. assert (Ha : a ∈ z_queue z) by (rewrite Eq; set_solver).
  destruct (tree_queue _ _ _ _ _ HT Ha) as (lr & Hlr & _).
  assert (Hent : entries z = omap (fun a => z_lr z !! a) q ++ [lr]).
  { unfold entries. rewrite Eq, omap_app. cbn. by rewrite Hlr. }
  assert (Hlast : last (entries z) = Some lr) by (rewrite Hent; apply last_snoc).
  unfold lr_of. rewrite Hlr. cbn [outcome_bind]. unfold forgotten.
  destruct (lr_count lr =? 0) eqn:Ec; cbn [negb].
  2:{ exists None. split; [done|]. rewrite Hlast. intros ? [= <-]. by rewrite Ec. }
  set (ms := Z.abs _). set (ex := wrapS 64 _).
  destruct (negb (n =? 0) && ((ms <? 60000) || (ex >? 0))) eqn:Et.
  { exists None. split; [done|]. rewrite Hlast. intros ? [= <-]. rewrite Ec. fold ms. fold ex. by rewrite expire_test, Et. }
  destruct (tree_remove _ _ _ _ _ HT Ha) as (rb' & E & Hd & HT'). cbn [z_sentinel z_rb set_z_queue].
  rewrite E. cbn [outcome_bind snd]. eexists. split; [reflexivity|].
  destruct (tree_NoDup _ _ _ _ HT) as [ND _]. rewrite Eq in ND.
  split_and!.
  - split; cbn; [exact HT'| |].
    + rewrite dom_delete_L, Hd, slab_free_live; [set_solver|].
      apply HL. eapply tree_dom; [exact HT|by constructor].
    + intros b lb [Hne Hb]%lookup_delete_Some. apply list_elem_of_filter. split; [congruence|]. by eapply HD.
  - done.
  - exists lr. split; [done|]. rewrite Ec. fold ms. fold ex. by rewrite expire_test, Et.
  - rewrite Hent, removelast_last. unfold entries. cbn. rewrite Eq, queue_remove_last by done.
    apply omap_ext. intros b Hb. rewrite lookup_delete_ne; [done|]. intros ->.
    apply NoDup_app in ND as (_ & Hdis & _). apply (Hdis b); [done|constructor].
  - done.
  - intros b. unfold holds_count. cbn. destruct (decide (a = b)) as [<-|Hne]; [|by rewrite lookup_delete_ne].
    rewrite lookup_delete_eq, Hlr. cbn. apply Z.eqb_eq in Ec. lia.
  - apply delete_subseteq.
Qed.

Lemma limit_expire_loop_ok now n fuel : forall z, ZoneOk z ->
  exists z', limit_req_expire_loop now n fuel z = Ret z' /\ ZoneOk z' /\ same_zone z z' /\
    entries z' = lru_expire (z_rate z) now n fuel (entries z) /\ z_node z' = z_node z /\
    (forall a, holds_count z' a = holds_count z a) /\ z_lr z' ⊆ z_lr z.
Proof.
  revert n. induction fuel as [|fuel IH]; intros n z HZ; cbn [limit_req_expire_loop lru_expire].
  { exists z. done. }
  destruct (n <? 3) eqn:En; cbn [andb].
  2:{ exists z. split_and!; try done. by destruct (last (entries z)). }
  destruct (expire_one_ok now n z HZ) as ([z1|] & E & Hr); rewrite E; cbn [outcome_bind].
  - destruct Hr as (HZ1 & [Hs Hrt] & (lr & Hl & Hf) & He & Hnd & Hc & Hsub).
    destruct (IH (n + 1) z1 HZ1) as (z' & E' & HZ' & [Hs' Hrt'] & He' & Hnd' & Hc' & Hsub'). exists z'.
    rewrite E', Hl, Hf, <- He, He', Hrt. split_and!; [done|done|split; congruence|done|congruence| |by etrans].
    intros a. by rewrite Hc', Hc.
  - exists z. split_and!; try done. destruct (last (entries z)) as [lr|]; [|done]. by rewrite (Hr lr).
Qed.

(** * A new record *)

Lemma slab_alloc_ok z a p n : ZoneOk z -> slab_alloc (z_pool z) n = Some (a, p) ->
  ZoneOk (set_z_pool p z) /\ (a ∉ dom (heap (z_rb z))) /\ a ∈ slab_live p.
Proof.
  intros [HT HL HD] [Ha Hp]%slab_alloc_live. split_and!; [|set_solver..].
  split; cbn; [exact HT|set_solver|exact HD].
Qed.

(** The pool has no room for the record of a key of [len] bytes, after the old
    records are gone. *)
Definition pool_full (now len : Z) (z : zone P) : Prop :=
  exists z1, ngx_http_limit_req_expire now 1 z = Ret z1 /\ slab_alloc (z_pool z1) (limit_req_node_size len) = None.

(** [room] is what the pool answers. *)
Lemma limit_req_alloc_ok now len z : ZoneOk z ->
  exists room r z', limit_req_alloc now len z = Ret (r, z') /\ ZoneOk z' /\ same_zone z z' /\
    z_node z' = z_node z /\ (forall a, holds_count z' a = holds_count z a) /\ z_lr z' ⊆ z_lr z /\
    lru_room (z_rate z) now room (entries z) = (bool_decide (is_Some r), entries z') /\
    (room.1 = false -> pool_full now len z) /\
    match r with
    | Some a => (a ∉ dom (heap (z_rb z'))) /\ a ∈ slab_live (z_pool z')
    | None => pool_full now len z
    end.
Proof.
  intros HZ. unfold limit_req_alloc, ngx_http_limit_req_expire, lru_room.
  destruct (limit_expire_loop_ok now 1 3 z HZ) as (z1 & E1 & HZ1 & Hs1 & He1 & Hn1 & Hc1 & Hsub1). rewrite E1. cbn [outcome_bind].
  destruct (slab_alloc (z_pool z1) _) as [[a p]|] eqn:A1.
  { destruct (slab_alloc_ok _ _ _ _ HZ1 A1) as (HZ' & Ha & Hl).
    exists (true, true), (Some a), (set_z_pool p z1). rewrite <- He1. done. }
  destruct (limit_expire_loop_ok now 0 3 z1 HZ1) as (z2 & E2 & HZ2 & Hs2 & He2 & Hn2 & Hc2 & Hsub2). rewrite E2. cbn [outcome_bind].
  assert (Hc : forall a, holds_count z2 a = holds_count z a) by (intros a; by rewrite Hc2, Hc1).
  assert (Hsub : z_lr z2 ⊆ z_lr z) by (by etrans).
  assert (Hs : same_zone z z2) by (unfold same_zone in *; intuition congruence).
  assert (Hrt : z_rate z1 = z_rate z) by apply Hs1. rewrite Hrt in He2.
  destruct (slab_alloc (z_pool z2) _) as [[a p]|] eqn:A2.
  - destruct (slab_alloc_ok _ _ _ _ HZ2 A2) as (HZ' & Ha & Hl).
    exists (false, true), (Some a), (set_z_pool p z2). cbn [fst snd]. rewrite <- He1, <- He2.
    split_and!; try done; [cbn; congruence|]. intros _. by exists z1.
  - exists (false, false), None, z2. cbn [fst snd]. rewrite <- He1, <- He2.
    split_and!; try done; [congruence|..]; by exists z1.
Qed.

Lemma lru_new_wf now data account : lr_wf (lru_new now data account).
Proof.
  unfold lr_wf, lru_new. cbn. unfold wrapU. pose proof (Z.mod_pos_bound (Z.of_nat (length data)) (2 ^ 8) ltac:(lia)).
  split; [lia|]. apply Z.mod_le; lia.
Qed.

Lemma limit_req_new_ok now data account a z : ZoneOk z -> a ∉ dom (heap (z_rb z)) -> a ∈ slab_live (z_pool z) ->
  exists z', limit_req_new now (ngx_crc32_short data) data account a z = Ret z' /\ ZoneOk z' /\ same_zone z z' /\
    entries z' = lru_new now data account :: entries z /\
    z_node z' = (if account then z_node z else Some a) /\ head (z_queue z') = Some a /\
    holds_count z a = 0 /\ holds_count z' a = (if account then 0 else 1) /\
    (forall b, a <> b -> holds_count z' b = holds_count z b) /\ z_lr z !! a = None /\
    z_lr z' = <[a := lru_new now data account]> (z_lr z).
Proof.
  intros [HT HL HD] Ha Hl. unfold limit_req_new. fold (lru_new now data account).
  assert (Hq : a ∉ z_queue z). { intros Hin. apply Ha. eapply tree_dom; [exact HT|by constructor]. }
  destruct (tree_add _ _ _ _ a (lru_new now data account) (MkNode (ngx_crc32_short data) 0 0 0 false) HT Ha)
    as (rb' & E & Hd & HT'); [apply lru_new_wf|done|].
  cbn [set_lr set_z_lr z_rb z_lr z_sentinel]. rewrite E. cbn [outcome_bind snd].
  eexists. split; [reflexivity|].
  assert (He : omap (fun b => <[a := lru_new now data account]> (z_lr z) !! b) (a :: z_queue z) =
               lru_new now data account :: entries z).
  { cbn. rewrite lookup_insert_eq. f_equal. apply omap_ext. intros b Hb. apply lookup_insert_ne. by intros ->. }
  assert (Hnew : forall b lb, <[a := lru_new now data account]> (z_lr z) !! b = Some lb -> b ∈ a :: z_queue z).
  { intros b lb [[-> _]|[_ Hb]]%lookup_insert_Some; [constructor|]. apply elem_of_cons. right. by eapply HD. }
  assert (Hnone : z_lr z !! a = None).
  { destruct (z_lr z !! a) as [lr|] eqn:E0; [|done]. by apply HD in E0. }
  assert (Hc0 : holds_count z a = 0) by (unfold holds_count; by rewrite Hnone).
  assert (Hc : forall b, a <> b -> from_option lr_count 0 (<[a := lru_new now data account]> (z_lr z) !! b) =
                         holds_count z b).
  { intros b Hb. by rewrite lookup_insert_ne. }
  assert (Hc1 : from_option lr_count 0 (<[a := lru_new now data account]> (z_lr z) !! a) = if account then 0 else 1).
  { by rewrite lookup_insert_eq. }
  destruct account; (split_and!; [split; cbn; [exact HT'|set_solver|exact Hnew]|done|exact He|done..]).
Qed.

(** * The lookup *)

Lemma entries_take (lrs : gmap Z ngx_http_limit_req_node_t) a lr q :
  a ∈ q -> NoDup q -> lrs !! a = Some lr -> NoDup (map lr_data (omap (fun a => lrs !! a) q)) ->
  lru_take (lr_data lr) (omap (fun a => lrs !! a) q) =
  Some (lr, omap (fun a => lrs !! a) (ngx_queue_remove a q)).
Proof.
  intros Ha ND Hlr. induction q as [|b q IH]; [set_solver|]. apply NoDup_cons in ND as [Hb ND].
  unfold ngx_queue_remove. destruct (decide (b = a)) as [->|Hne].
  - rewrite filter_cons_False by tauto. cbn. rewrite Hlr. intros _. cbn. rewrite decide_True by done.
    do 2 f_equal. symmetry. apply queue_remove_notin in Hb. unfold ngx_queue_remove in Hb. by rewrite Hb.
  - rewrite filter_cons_True by done. apply elem_of_cons in Ha as [?|Ha]; [congruence|]. cbn.
    fold (ngx_queue_remove a q). destruct (lrs !! b) as [lb|]; [|by apply IH]. cbn.
    intros [Hn ND']%NoDup_cons. rewrite decide_False.
    + by rewrite IH.
    + intros E. apply Hn. rewrite E. apply list_elem_of_fmap. exists lr. split; [done|].
      apply list_elem_of_omap. eauto.
Qed.

(** The record is that of the key, or of a key that the tree takes for it. *)
Definition names (data : list Z) (lr : ngx_http_limit_req_node_t) : Prop :=
  lr_data lr = data \/ key_of lr = (ngx_crc32_short data, data).

(** The records after a lookup: that of the key is at the head of the queue,
    and charged or held; none of the others changes. *)
Definition recorded_at (now : Z) (data : list Z) (account : bool) (z : zone P) (rc : Z) (z' : zone P) : Prop :=
  (rc = (if account then NGX_OK else NGX_AGAIN) /\
   exists h lr', head (z_queue z') = Some h /\ z_lr z' !! h = Some lr' /\ names data lr' /\
     delete h (z_lr z') ⊆ z_lr z /\
     ((exists lr, z_lr z !! h = Some lr /\
         lr' = (if account
                then MkLr (lr_len lr) now (wrapU 64 (excess_at (z_rate z) now lr)) (lr_count lr) (lr_data lr)
                else MkLr (lr_len lr) (lr_last lr) (lr_excess lr) (wrapU 64 (lr_count lr + 1)) (lr_data lr))) \/
      lr' = lru_new now data account)) \/
  ((rc = LIMIT_BUSY \/ rc = NGX_ERROR) /\ z_lr z' ⊆ z_lr z).

(** What a lookup promises to the handler. *)
Definition looked_up (now burst : Z) (data : list Z) (account : bool) (z : zone P)
    (rc ex : Z) (z' : zone P) : Prop :=
  ZoneOk z' /\ same_zone z z' /\
  (KeysOk (entries z) -> (length data < 256)%nat ->
     exists room, (room.1 = false -> lru_take data (entries z) = None /\ pool_full now (Z.of_nat (length data)) z) /\
       lru_lookup (z_rate z) now burst data account room (entries z) = (rc, ex, entries z')) /\
  recorded_at now data account z rc z' /\
  ((256 <= length data)%nat -> ex = 0 /\ (rc = (if account then NGX_OK else NGX_AGAIN) \/ rc = NGX_ERROR)) /\
  z_node z' = (if rc =? NGX_AGAIN then head (z_queue z') else z_node z) /\
  (forall a, holds_count z' a =
     if (rc =? NGX_AGAIN) && bool_decide (head (z_queue z') = Some a)
     then wrapU 64 (holds_count z a + 1) else holds_count z a) /\
  (rc = NGX_ERROR -> pool_full now (Z.of_nat (length data)) z).

Lemma lookup_new_ok now burst data account z : ZoneOk z ->
  (KeysOk (entries z) -> (length data < 256)%nat -> lru_take data (entries z) = None) ->
  exists rc ex z', limit_req_missing now (ngx_crc32_short data) data account z
    = Ret (rc, ex, z') /\ looked_up now burst data account z rc ex z'.
Proof.
  intros HZ Ht. unfold limit_req_missing, looked_up, lru_lookup.
  destruct (limit_req_alloc_ok now (Z.of_nat (length data)) z HZ) as (room & r & z1 & E & HZ1 & Hs & Hn & Hc & Hsub & He & Hroom & Hr).
  rewrite E. cbn [outcome_bind fst snd]. destruct r as [a|].
  - destruct Hr as [Ha Hl]. destruct (limit_req_new_ok now data account a z1 HZ1 Ha Hl)
      as (z2 & E2 & HZ2 & Hs2 & He2 & Hn2 & Hh & Hc0 & Hc1 & Hc2 & Hnone & Hlrs). rewrite E2. cbn [outcome_bind].
    do 3 eexists. split; [reflexivity|]. split_and!; [done|unfold same_zone in *; intuition congruence| | |by auto| | |by destruct account].
    + intros HK Hlen. exists room. split; [by auto|]. rewrite (Ht HK Hlen), He, bool_decide_eq_true_2 by done. cbn [fst snd]. by rewrite He2.
    + left. split; [done|]. exists a, (lru_new now data account).
      split_and!; [done|by rewrite Hlrs, lookup_insert_eq|by left| |by right].
      by rewrite Hlrs, delete_insert_id.
    + rewrite Hn2, Hh. destruct account; [done|]. done.
    + intros b. rewrite Hh. destruct (decide (a = b)) as [<-|Hne].
      * rewrite Hc1, <- Hc, Hc0, bool_decide_eq_true_2 by done. by destruct account.
      * rewrite Hc2, Hc, bool_decide_eq_false_2 by congruence. by rewrite andb_false_r.
  - do 3 eexists. split; [reflexivity|]. split_and!; [done|done| |by right; auto|by auto|done|done|done].
    intros HK Hlen. exists room. split; [by auto|]. by rewrite (Ht HK Hlen), He.
Qed.

Lemma lookup_found_ok now burst account z a lr data : ZoneOk z ->
  a ∈ z_queue z -> z_lr z !! a = Some lr -> (length data < 256)%nat ->
  key_of lr = (ngx_crc32_short data, data) -> (KeysOk (entries z) -> lr_data lr = data) ->
  exists rc ex z', limit_req_found now burst account a z
    = Ret (rc, ex, z') /\ looked_up now burst data account z rc ex z'.
Proof.
  intros [HT HL HD] Ha Hlr Hlen Hkey Hdata. destruct (tree_NoDup _ _ _ _ HT) as [ND _].
  assert (Ht : KeysOk (entries z) -> lru_take data (entries z) =
            Some (lr, omap (fun b => z_lr z !! b) (ngx_queue_remove a (z_queue z)))).
  { intros HK. rewrite <- (Hdata HK). apply entries_take; [done|done|done|apply HK]. }
  unfold limit_req_found, looked_up, lru_lookup. cbn zeta. unfold lr_of. cbn [z_lr set_z_queue]. rewrite Hlr.
  cbn [outcome_bind z_rate set_z_queue]. set (q' := a :: ngx_queue_remove a (z_queue z)).
  assert (Hq : z_queue z ≡ₚ q').
  { apply list_elem_of_split in Ha as (q1 & q2 & E). unfold q'. rewrite E in *.
    rewrite (queue_remove_perm a (q1 ++ a :: q2) (q1 ++ q2)); [by rewrite Permutation_middle|by rewrite Permutation_middle|done]. }
  assert (HT' : forall lr', lr_len lr' = lr_len lr -> lr_data lr' = lr_data lr ->
            TreeOk (z_sentinel z) (<[a := lr']> (z_lr z)) q' (z_rb z)).
  { intros lr' Hl Hd. destruct HT as (sn & t & T). apply (tree_records _ (z_lr z)).
    - intros b lb Hb Hlb. destruct (decide (a = b)) as [<-|Hne].
      + exists lr'. rewrite lookup_insert_eq. split; [done|]. by simplify_eq.
      + exists lb. by rewrite lookup_insert_ne.
    - exists sn, t. by rewrite Hq in T. }
  assert (He : forall lr', omap (fun b => <[a := lr']> (z_lr z) !! b) q' =
            lr' :: omap (fun b => z_lr z !! b) (ngx_queue_remove a (z_queue z))).
  { intros lr'. cbn. rewrite lookup_insert_eq. f_equal. apply omap_ext. intros b Hb. apply lookup_insert_ne.
    intros ->. apply list_elem_of_filter in Hb. tauto. }
  assert (HD' : forall lr' b lb, <[a := lr']> (z_lr z) !! b = Some lb -> b ∈ q').
  { intros lr' b lb [[<- _]|[_ Hb]]%lookup_insert_Some; [constructor|]. rewrite <- Hq. by eapply HD. }
  assert (Hc : forall lr' b, from_option lr_count 0 (<[a := lr']> (z_lr z) !! b) =
            if bool_decide (Some a = Some b) then lr_count lr' else holds_count z b).
  { intros lr' b. case_bool_decide as Hb; [injection Hb as <-; by rewrite lookup_insert_eq|].
    rewrite lookup_insert_ne by congruence. done. }
  assert (Ha0 : lr_count lr = holds_count z a) by (unfold holds_count; by rewrite Hlr).
  destruct (_ >? _) eqn:Eb.
  - do 3 eexists. split; [reflexivity|]. split_and!; [|done| |by right; auto|lia|done|done|done].
    + split; cbn; [|done|intros b lb Hb; rewrite <- Hq; by eapply HD].
      specialize (HT' lr eq_refl eq_refl). by rewrite insert_id in HT'.
    + intros HK _. rewrite (Ht HK). cbn zeta. rewrite Eb. exists (true, true). split; [done|]. f_equal. unfold entries. cbn. by rewrite Hlr.
  - destruct account; do 3 eexists; (split; [reflexivity|]);
      (split_and!; [split; [by apply HT'|done|apply HD']|done|
        intros HK _; rewrite (Ht HK); cbn zeta; rewrite Eb; exists (true, true); split; [done|]; f_equal; symmetry; apply He| |lia|done| |done]).
    + left. split; [done|]. eexists a, _. cbn. rewrite lookup_insert_eq, delete_insert_eq.
      split_and!; [done|done|by right|apply delete_subseteq|left; eauto].
    + intros b. unfold holds_count at 1. cbn [set_lr set_z_lr z_lr set_z_queue]. rewrite Hc.
      case_bool_decide as Hb; [injection Hb as <-|]; done.
    + left. split; [done|]. eexists a, _. cbn. rewrite lookup_insert_eq, delete_insert_eq.
      split_and!; [done|done|by right|apply delete_subseteq|left; eauto].
    + intros b. unfold holds_count at 1. cbn [set_lr set_z_lr z_lr set_z_queue set_z_node]. rewrite Hc.
      cbn. case_bool_decide as Hb; [injection Hb as <-; cbn; by rewrite Ha0|done].
Qed.

Lemma lookup_ok now burst data account z : ZoneOk z ->
  exists rc ex z', ngx_http_limit_req_lookup now burst (ngx_crc32_short data) data account z = Ret (rc, ex, z') /\
    looked_up now burst data account z rc ex z'.
Proof.
  intros HZ. unfold ngx_http_limit_req_lookup.
  destruct (limit_search_ok _ _ _ _ (ngx_crc32_short data) data (zo_tree _ HZ)) as (r & E & Hr). rewrite E.
  cbn [outcome_bind fst]. assert (Hst : forall lr, KeysOk (entries z) -> lr ∈ entries z -> stored lr = lr_data lr).
  { intros lr [Hf _] Hin. rewrite Forall_forall in Hf. specialize (Hf lr Hin).
    unfold stored. rewrite Hf, Nat2Z.id. apply take_ge. lia. }
  destruct r as [a|].
  - destruct Hr as (Ha & lr & Hlr & [Hwf _] & Hk). pose proof Hk as Hk'. unfold key_of in Hk'. injection Hk' as _ Hk'.
    eapply lookup_found_ok; [done|done|done| |done|].
    + rewrite <- Hk'. unfold stored. rewrite length_take. lia.
    + intros HK. by rewrite <- (Hst lr HK) by (apply list_elem_of_omap; eauto).
  - apply lookup_new_ok; [done|]. intros HK _. apply lru_take_none. intros (lr & -> & Hin)%list_elem_of_fmap.
    pose proof Hin as (a & Ha & Hlr)%list_elem_of_omap. apply (Hr a lr Ha Hlr). unfold key_of. by rewrite Hst.
Qed.

(** * The steps on a node that is held *)

Lemma set_lr_ok a lr lr' z : ZoneOk z -> z_lr z !! a = Some lr -> lr_len lr' = lr_len lr -> lr_data lr' = lr_data lr ->
  ZoneOk (set_z_node None (set_lr a lr' z)).
Proof.
  intros [HT HL HD] Hlr Hl Hd. split; cbn; [|done|].
  - eapply tree_records; [|exact HT]. intros b lb Hb Hlb. destruct (decide (a = b)) as [<-|Hne].
    + exists lr'. rewrite lookup_insert_eq. split; [done|]. by simplify_eq.
    + exists lb. by rewrite lookup_insert_ne.
  - intros b lb [[<- _]|[_ Hb]]%lookup_insert_Some; by eapply HD.
Qed.

Lemma set_lr_count a lr' z b :
  holds_count (set_z_node None (set_lr a lr' z)) b = if bool_decide (a = b) then lr_count lr' else holds_count z b.
Proof.
  unfold holds_count. cbn. case_bool_decide as E; [subst b; by rewrite lookup_insert_eq|].
  by rewrite lookup_insert_ne.
Qed.

(** A held node has a record. *)
Lemma held_lr z a : holds_count z a <> 0 -> exists lr, z_lr z !! a = Some lr /\ lr_count lr = holds_count z a.
Proof. unfold holds_count. destruct (z_lr z !! a) as [lr|]; [|done]. by exists lr. Qed.

Lemma release_node_ok a z : ZoneOk z -> holds_count z a <> 0 ->
  exists z', release_node a z = Ret z' /\ ZoneOk z' /\ same_zone z z' /\
    (forall b, holds_count z' b = if bool_decide (a = b) then wrapU 64 (holds_count z a - 1) else holds_count z b).
Proof.
  intros HZ (lr & Hlr & Hc)%held_lr. unfold release_node, lr_of. rewrite Hlr. cbn [outcome_bind].
  eexists. split; [reflexivity|]. split; [by eapply set_lr_ok|]. split; [done|].
  intros b. rewrite set_lr_count. cbn. by rewrite Hc.
Qed.

Lemma account_node_ok now a z : ZoneOk z -> holds_count z a <> 0 ->
  exists ex z', account_node now a z = Ret (ex, z') /\ ZoneOk z' /\ same_zone z z' /\
    (forall b, holds_count z' b = if bool_decide (a = b) then wrapU 64 (holds_count z a - 1) else holds_count z b).
Proof.
  intros HZ (lr & Hlr & Hc)%held_lr. unfold account_node, lr_of. rewrite Hlr. cbn [outcome_bind].
  do 2 eexists. split; [reflexivity|]. split; [by eapply set_lr_ok|]. split; [done|].
  intros b. rewrite set_lr_count. cbn. by rewrite Hc.
Qed.

(** * A new zone *)

Lemma init_zone_ok var rate name_len pool z :
  ngx_http_limit_req_init_zone var rate name_len None None pool = Some z ->
  ZoneOk z /\ entries z = [] /\ (forall a, holds_count z a = 0) /\ z_rate z = rate /\ z_node z = None.
Proof.
  cbn. destruct (slab_alloc pool shctx_size) as [[sh p1]|] eqn:E1; [|done].
  destruct (slab_alloc p1 _) as [[lg p2]|] eqn:E2; [|done]. intros [= <-].
  apply slab_alloc_live in E1 as [_ E1]. apply slab_alloc_live in E2 as [_ E2].
  split_and!; [|done|done|done|done]. split; cbn; [|set_solver|done].
  exists (MkNode 0 0 0 0 false), Leaf. split_and!; [done| |by exists 0%nat; constructor|constructor|done|].
  - split; cbn; [by exists 0|done|constructor; [set_solver|constructor]|by rewrite lookup_singleton_eq].
  - intros a k Hin. set_solver.
Qed.

End Lru.

(** * A concrete pool *)

(** A pool that always has room: the set of the addresses in use. *)
Definition SetPool : Type := gset Z.

#[export] Instance set_pool : SlabPool SetPool := {
  slab_alloc p n := Some (fresh (p : gset Z), {[fresh p]} ∪ p);
  slab_free p a := p ∖ {[a]};
  slab_live p := p }.

#[export] Instance set_pool_laws : SlabLaws SetPool.
Proof. split; [|done]. intros p n a p' [= <- <-]. split; [apply is_fresh|done]. Qed.

Lemma set_pool_roomy (p : SetPool) n : slab_alloc p n <> None.
Proof. done. Qed.

(** A zone of one request in a second. *)
Definition zone0 : zone SetPool :=
  match ngx_http_limit_req_init_zone [118] 1000 4 None None (∅ : SetPool) with
  | Some z => z
  | None => MkZone 0 (MkRb ∅ 0) ∅ [] ∅ 0 None
  end.

Lemma zone0_new : ngx_http_limit_req_init_zone [118] 1000 4 None None (∅ : SetPool) = Some zone0.
Proof. reflexivity. Qed.

End LimitReqLru.
