(* ===== verification/NgxLimitReqRoom.v ===== *)
(** The room for the records of the request limiter in a pool of so many pages: a
    zone whose clients are fewer than the free pages never lacks memory. *)

From S2P Require Import Prelude NgxNumber NgxCrc32 NgxRbtree NgxSlabClass NgxLimitReq NgxLimitReqZone NgxLimitReqLru.

#[local] Open Scope Z_scope.

Module LimitReqRoom.

Export LimitReqLru.

Lemma size_union_le (X Y : gset Z) : (size (X ∪ Y) <= size X + size Y)%nat.
Proof. rewrite size_union_alt. apply Nat.add_le_mono_l, subseteq_size. set_solver. Qed.

Lemma size_list_le (l : list Z) : (size (list_to_set l : gset Z) <= length l)%nat.
Proof.
  induction l as [|a l IH]; [done|]. rewrite list_to_set_cons. etrans; [apply size_union_le|]. rewrite size_singleton. cbn [length]. lia.
Qed.

Section Room.
Context {P : Type} `{HL : SlabLaws P} {HR : SlabRoom P}.
Implicit Types z : zone P.

(** The blocks of the pool that are no records. *)
Definition others z : gset Z := slab_live (z_pool z) ∖ list_to_set (z_queue z).

Definition room_kept z z' : Prop := others z' = others z /\ (slab_small (z_pool z) -> slab_small (z_pool z')).

Lemma room_kept_trans z1 z2 z3 : room_kept z1 z2 -> room_kept z2 z3 -> room_kept z1 z3.
Proof. intros [H1 H2] [H3 H4]. split; [congruence|auto]. Qed.

Lemma queue_live z a : ZoneOk z -> a ∈ z_queue z -> a ∈ slab_live (z_pool z).
Proof. intros [HT Hl _] Ha. apply Hl. eapply tree_dom; [exact HT|]. by right. Qed.

Lemma expire_one_room now n z z' : ZoneOk z -> expire_one now n z = Ret (Some z') -> room_kept z z'.
Proof.
  intros HZ. unfold expire_one. destruct (last (z_queue z)) as [a|] eqn:El; [|done]. apply last_Some in El as [q Eq].
  assert (Ha : a ∈ z_queue z) by (rewrite Eq; set_solver). pose proof (queue_live z a HZ Ha) as Hal.
  destruct (lr_of z a) as [lr| |]; try done. cbn [outcome_bind]. destruct (negb (lr_count lr =? 0)); [done|]. destruct (negb (n =? 0) && _); [done|].
  cbn [z_sentinel z_rb set_z_queue]. destruct (ngx_rbtree_delete _ _ _) as [pr| |]; try done. cbn [outcome_bind]. intros [= <-].
  split; [|intros Hs; by apply slab_small_free]. unfold others. cbn [z_pool z_queue set_z_lr set_z_pool set_z_rb set_z_queue]. rewrite slab_free_live by done.
  apply set_eq. intros b. rewrite !elem_of_difference, elem_of_singleton, !elem_of_list_to_set. unfold ngx_queue_remove. rewrite list_elem_of_filter.
  split; [|intros [Hb Hq]; split; [split; [done|by intros ->]|tauto]]. intros [[Hb Hne] Hq]. split; [done|]. tauto.
Qed.

Lemma expire_loop_room now fuel : forall n z z', ZoneOk z -> limit_req_expire_loop now n fuel z = Ret z' -> room_kept z z'.
Proof.
  induction fuel as [|fuel IH]; intros n z z' HZ; cbn [limit_req_expire_loop]; [by intros [= <-]|]. destruct (n <? 3); [|by intros [= <-]].
  destruct (expire_one_ok now n z HZ) as (r & E & Hr). rewrite E. cbn [outcome_bind]. destruct r as [z1|]; [|by intros [= <-]].
  intros E'. apply (room_kept_trans z z1 z'); [by apply (expire_one_room now n)|]. apply (IH (n + 1) z1 z'); [apply Hr|done].
Qed.

Lemma expire_room now n z : ZoneOk z -> exists z', ngx_http_limit_req_expire now n z = Ret z' /\ ZoneOk z' /\
  entries z' = lru_expire (z_rate z) now n 3 (entries z) /\ room_kept z z'.
Proof.
  intros HZ. destruct (limit_expire_loop_ok now n 3 z HZ) as (z' & E & HZ' & _ & He & _). exists z'. split; [done|]. split; [done|]. split; [done|].
  by apply (expire_loop_room now 3 n).
Qed.

(** A block that the pool gives becomes the first of the queue. *)
Lemma alloc_room z a p n : ZoneOk z -> 0 <= n <= 4096 -> slab_alloc (z_pool z) n = Some (a, p) ->
  (slab_small (z_pool z) -> slab_small p) /\ slab_live p ∖ list_to_set (a :: z_queue z) = others z.
Proof.
  intros HZ Hn E. split; [intros Hs; by apply (slab_small_alloc _ _ _ _ Hs Hn E)|]. apply slab_alloc_live in E as [Ha ->]. unfold others.
  apply set_eq. intros b. rewrite list_to_set_cons. set_solver.
Qed.

Lemma new_room now hash data account a z z' : limit_req_new now hash data account a z = Ret z' -> z_pool z' = z_pool z /\ z_queue z' = a :: z_queue z.
Proof.
  unfold limit_req_new. destruct (ngx_rbtree_insert _ _ _ _) as [pr| |]; try done. cbn [outcome_bind]. intros [= <-]. by destruct account.
Qed.

Lemma missing_room now hash data account z rc ex z' : ZoneOk z -> (length data < 256)%nat ->
  limit_req_missing now hash data account z = Ret (rc, ex, z') -> room_kept z z'.
Proof.
  intros HZ Hlen. unfold limit_req_missing, limit_req_alloc. assert (Hsz : 0 <= limit_req_node_size (Z.of_nat (length data)) <= 4096) by (unfold limit_req_node_size; lia).
  assert (Hnew : forall z1 a p, ZoneOk z1 -> slab_alloc (z_pool z1) (limit_req_node_size (Z.of_nat (length data))) = Some (a, p) ->
    (let! z := limit_req_new now hash data account a (set_z_pool p z1) in Ret (if account then NGX_OK else NGX_AGAIN, 0, z)) = Ret (rc, ex, z') -> room_kept z1 z').
  { intros z1 a p HZ1 Ea. destruct (limit_req_new _ _ _ _ _ _) as [z2| |] eqn:En; try done. cbn [outcome_bind]. intros [= _ _ <-]. apply new_room in En as [Ep Eq].
    destruct (alloc_room z1 a p _ HZ1 Hsz Ea) as [H1 H2]. unfold room_kept, others at 1. rewrite Ep, Eq. cbn [z_pool z_queue set_z_pool]. done. }
  destruct (expire_room now 1 z HZ) as (z1 & E1 & HZ1 & _ & K1). rewrite E1. cbn [outcome_bind].
  destruct (slab_alloc (z_pool z1) _) as [[a p]|] eqn:A1; cbn [outcome_bind fst snd]; [intros E; by eapply room_kept_trans; [|eapply Hnew]|].
  destruct (expire_room now 0 z1 HZ1) as (z2 & E2 & HZ2 & _ & K2). rewrite E2. cbn [outcome_bind]. pose proof (room_kept_trans _ _ _ K1 K2) as K.
  destruct (slab_alloc (z_pool z2) _) as [[a p]|] eqn:A2; cbn [outcome_bind fst snd]; [intros E; by eapply room_kept_trans; [|eapply Hnew]|]. by intros [= _ _ <-].
Qed.

Lemma found_room now burst account a z rc ex z' : a ∈ z_queue z -> limit_req_found now burst account a z = Ret (rc, ex, z') -> room_kept z z'.
Proof.
  intros Ha. unfold limit_req_found. destruct (lr_of _ a) as [lr| |]; try done. cbn [outcome_bind].
  assert (Hq : (list_to_set (a :: ngx_queue_remove a (z_queue z)) : gset Z) = list_to_set (z_queue z)).
  { apply set_eq. intros b. rewrite !elem_of_list_to_set, elem_of_cons. unfold ngx_queue_remove. rewrite list_elem_of_filter.
    destruct (decide (b = a)) as [->|]; tauto. }
  destruct (_ >? _); [|destruct account]; intros [= _ _ <-]; (split; [|done]); unfold others; cbn [z_pool z_queue set_z_queue set_lr set_z_lr set_z_node]; by rewrite Hq.
Qed.

Lemma lookup_room now burst data account z rc ex z' : ZoneOk z -> (length data < 256)%nat ->
  ngx_http_limit_req_lookup now burst (ngx_crc32_short data) data account z = Ret (rc, ex, z') -> room_kept z z'.
Proof.
  intros HZ Hlen. unfold ngx_http_limit_req_lookup.
  destruct (limit_search_ok _ _ _ _ (ngx_crc32_short data) data (zo_tree _ HZ)) as (r & E & Hr). rewrite E. cbn [outcome_bind fst].
  destruct r as [a|]; [|by apply missing_room]. destruct Hr as (Ha & _). by apply found_room.
Qed.

(** * Room for the clients *)

(** The keys of the records are in [K], and every one of [K] can have a page. *)
Record RoomFor (K : gset (list Z)) z : Prop := {
  rf_small : slab_small (z_pool z);
  rf_pages : (size (others z) + size K <= slab_pages)%nat;
  rf_keys : forall lr, lr ∈ entries z -> lr_data lr ∈ K }.

Lemma live_size z : ZoneOk z -> (size (slab_live (z_pool z)) <= size (others z) + length (entries z))%nat.
Proof.
  intros HZ. assert (Hl : length (entries z) = length (z_queue z)).
  { unfold entries. assert (Hall : forall a, a ∈ z_queue z -> is_Some (z_lr z !! a)) by (intros a Ha; destruct (tree_queue _ _ _ _ _ (zo_tree _ HZ) Ha) as (lr & -> & _); done).
    induction (z_queue z) as [|a q IH]; [done|]. cbn. destruct (Hall a ltac:(by left)) as [lr ->]. cbn. f_equal. apply IH. intros b Hb. apply Hall. by right. }
  rewrite Hl. transitivity (size (others z ∪ list_to_set (z_queue z))).
  - apply subseteq_size. unfold others. intros a Ha. destruct (decide (a ∈ z_queue z)); [apply elem_of_union_r; by apply elem_of_list_to_set|].
    apply elem_of_union_l, elem_of_difference. split; [done|]. by rewrite elem_of_list_to_set.
  - etrans; [apply size_union_le|]. apply Nat.add_le_mono_l. apply size_list_le.
Qed.

Lemma room_not_full K now data z : ZoneOk z -> KeysOk (entries z) -> RoomFor K z -> data ∈ K -> (length data < 256)%nat ->
  lru_take data (entries z) = None -> ~ pool_full now (Z.of_nat (length data)) z.
Proof.
  intros HZ HK [Hs Hp Hk] Hd Hlen Ht (z1 & E & Hfull). destruct (expire_room now 1 z HZ) as (z1' & E' & HZ1 & He & Ho & Hs1). rewrite E in E'. injection E' as <-.
  apply lru_take_none in Ht. destruct (lru_expire_prefix (z_rate z) now 3 1 (entries z)) as [l2 Hpre]. rewrite <- He in Hpre.
  revert Hfull. apply slab_room; [by apply Hs1|unfold limit_req_node_size; lia|]. pose proof (live_size z1 HZ1) as Hsize. rewrite Ho in Hsize.
  assert (Hlt : (length (entries z1) < size K)%nat); [|lia].
  assert (ND : NoDup (data :: map lr_data (entries z1))).
  { apply NoDup_cons. rewrite Hpre, map_app in Ht. split; [set_solver|]. destruct HK as [_ HK]. rewrite Hpre, map_app in HK. by apply NoDup_app in HK as [? _]. }
  assert (Hsz : size (list_to_set (data :: map lr_data (entries z1)) : gset (list Z)) = S (length (entries z1))).
  { rewrite size_list_to_set by done. cbn [length]. by rewrite length_map. }
  unfold lt. rewrite <- Hsz. apply subseteq_size. intros k Hkk. apply elem_of_list_to_set, elem_of_cons in Hkk as [->|Hkk]; [done|].
  apply list_elem_of_In, in_map_iff in Hkk as (lr & <- & Hlr). apply Hk. rewrite Hpre. apply elem_of_app. left. by apply list_elem_of_In.
Qed.

Lemma lru_lookup_data rate now burst data account room l lr : lr ∈ (lru_lookup rate now burst data account room l).2 -> lr_data lr = data \/ lr_data lr ∈ map lr_data l.
Proof.
  unfold lru_lookup. destruct (lru_take data l) as [[x l1]|] eqn:Et.
  - apply lru_take_perm in Et as [Hp Hx].
    assert (Hin : forall y, y ∈ l1 -> lr_data y ∈ map lr_data l) by (intros y Hy; apply list_elem_of_In, in_map, list_elem_of_In; rewrite Hp; by right).
    destruct (_ >? _); [|destruct account]; cbn [snd]; intros [->|Hlr]%elem_of_cons; auto.
  - destruct (lru_room_prefix rate now room l) as [l2 E]. destruct (lru_room rate now room l) as [b l1]. cbn [fst snd] in *. subst l.
    assert (Hin : forall y, y ∈ l1 -> lr_data y ∈ map lr_data (l1 ++ l2)) by (intros y Hy; apply list_elem_of_In, in_map, list_elem_of_In, elem_of_app; by left).
    destruct b; cbn [snd]; [intros [->|Hlr]%elem_of_cons; auto|auto].
Qed.

Lemma room_for_kept K z z' rate now burst data account room rc ex : RoomFor K z -> room_kept z z' -> data ∈ K ->
  lru_lookup rate now burst data account room (entries z) = (rc, ex, entries z') -> RoomFor K z'.
Proof.
  intros [Hs Hp Hk] [Ho Hs'] Hd E. split; [by apply Hs'|by rewrite Ho|]. intros lr Hlr.
  destruct (lru_lookup_data rate now burst data account room (entries z) lr) as [->|Hin]; [by rewrite E|done|].
  apply list_elem_of_In, in_map_iff in Hin as (x & <- & Hx). apply Hk. by apply list_elem_of_In.
Qed.

(** A new zone in a pool of small blocks: its context and the context of its log
    take two blocks. *)
Lemma init_room K var rate name_len pool z : ngx_http_limit_req_init_zone var rate name_len None None pool = Some z ->
  slab_small pool -> 0 <= name_len <= 4000 -> (size (slab_live pool) + 2 + size K <= slab_pages)%nat -> RoomFor K z.
Proof.
  cbn. destruct (slab_alloc pool shctx_size) as [[sh p1]|] eqn:E1; [|done]. destruct (slab_alloc p1 _) as [[lg p2]|] eqn:E2; [|done]. intros [= <-] Hs Hn Hp.
  assert (H1 : slab_small p1) by (apply (slab_small_alloc _ _ _ _ Hs) in E1; [done|unfold shctx_size; lia]).
  assert (H2 : slab_small p2) by (apply (slab_small_alloc _ _ _ _ H1) in E2; [done|lia]).
  split; [done| |intros lr Hlr; by apply elem_of_nil in Hlr]. unfold others. cbn [z_pool z_queue list_to_set foldr].
  apply slab_alloc_live in E1 as [_ E1]. apply slab_alloc_live in E2 as [_ E2]. rewrite E2, E1.
  assert (size (({[lg]} ∪ ({[sh]} ∪ slab_live pool)) ∖ ∅ : gset Z) <= 2 + size (slab_live pool))%nat; [|lia].
  rewrite difference_empty_L. etrans; [apply size_union_le|]. rewrite size_singleton. etrans; [apply Nat.add_le_mono_l, size_union_le|]. rewrite size_singleton. lia.
Qed.

End Room.

End LimitReqRoom.
