(* ===== verification/NgxLimitReqWorkers.v ===== *)
(** The zone of a request limit shared by the workers: the sections that the
    workers run under the lock, in any order. *)

From S2P Require Import Prelude NgxNumber NgxCrc32 NgxRbtree NgxLimitReq NgxLimitReqLru.

Module LimitReqWorkers.

Export LimitReqLru.

Section Workers.
Context {P : Type} `{SlabLaws P}.

(** A state is the zone and the nodes that requests hold between their locked
    sections: a node is held from the lookup that returned NGX_AGAIN for it to
    the accounting or the release. *)
Definition wstate : Type := zone P * list Z.

Definition take_node (rc : Z) (z : zone P) (held : list Z) : list Z :=
  if rc =? NGX_AGAIN then match z_node z with Some a => a :: held | None => held end else held.

Inductive wstep : wstate -> wstate -> Prop :=
| WLookup now burst data account z held rc ex z' :
    Z.of_nat (length held) < 2 ^ 64 - 1 ->
    ngx_http_limit_req_lookup now burst (ngx_crc32_short data) data account z = Ret (rc, ex, z') ->
    wstep (z, held) (z', take_node rc z' held)
| WAccount now z held1 a held2 ex z' :
    account_node now a z = Ret (ex, z') -> wstep (z, held1 ++ a :: held2) (z', held1 ++ held2)
| WRelease z held1 a held2 z' :
    release_node a z = Ret z' -> wstep (z, held1 ++ a :: held2) (z', held1 ++ held2).

Definition occ (a : Z) (held : list Z) : Z := Z.of_nat (count_occ Z.eq_dec held a).

(** The counts of the nodes are the numbers of their holders. *)
Definition WInv (st : wstate) : Prop :=
  ZoneOk st.1 /\ Z.of_nat (length st.2) < 2 ^ 64 /\ forall a, holds_count st.1 a = occ a st.2.

Lemma occ_bound a held : 0 <= occ a held <= Z.of_nat (length held).
Proof. unfold occ. pose proof (count_occ_bound Z.eq_dec a held). lia. Qed.

Lemma occ_cons a b held : occ a (b :: held) = occ a held + if bool_decide (b = a) then 1 else 0.
Proof. unfold occ. cbn. destruct (Z.eq_dec b a), (bool_decide_reflect (b = a)); try done; lia. Qed.

Lemma occ_app a l l' : occ a (l ++ l') = occ a l + occ a l'.
Proof. unfold occ. rewrite count_occ_app. lia. Qed.

(** The invariant after one holder of [a] has gone. *)
Lemma drop_inv z z' a held1 held2 : WInv (z, held1 ++ a :: held2) -> ZoneOk z' ->
  (forall b, holds_count z' b = if bool_decide (a = b) then wrapU 64 (holds_count z a - 1) else holds_count z b) ->
  WInv (z', held1 ++ held2).
Proof.
  intros (HZ & Hl & Hc) HZ' Hc'. cbn in *. rewrite length_app in Hl. cbn in Hl.
  split; [done|]. split; [cbn; rewrite length_app; lia|]. intros b. cbn. rewrite Hc', !Hc, !occ_app, !occ_cons.
  pose proof (occ_bound a held1). pose proof (occ_bound a held2).
  case_bool_decide as E; [subst b|lia]. rewrite bool_decide_eq_true_2 by done.
  unfold wrapU. rewrite Z.mod_small; lia.
Qed.

Lemma held_count z held1 a held2 : WInv (z, held1 ++ a :: held2) -> holds_count z a <> 0.
Proof.
  intros (_ & _ & Hc). cbn in Hc. rewrite Hc, occ_app, occ_cons, bool_decide_eq_true_2 by done.
  pose proof (occ_bound a held1). pose proof (occ_bound a held2). lia.
Qed.

Lemma wstep_inv st st' : wstep st st' -> WInv st -> WInv st'.
Proof.
  intros [now burst data account z held rc ex z' Hlen E|now z held1 a held2 ex z' E|z held1 a held2 z' E] HI.
  - destruct HI as (HZ & Hl & Hc). cbn in *.
    destruct (lookup_ok now burst data account z HZ) as (rc1 & ex1 & z1 & E1 & HL). rewrite E in E1.
    injection E1 as <- <- <-. destruct HL as (HZ' & _ & _ & _ & _ & Hn & Hc' & _).
    unfold take_node. rewrite Hn. destruct (rc =? NGX_AGAIN); cbn [andb] in Hc'.
    2:{ split_and!; [done|done|]. intros a. cbn. by rewrite Hc', Hc. }
    destruct (head (z_queue z')) as [h|].
    + split; [done|]. split; [cbn; lia|]. intros a. cbn. rewrite Hc', occ_cons, Hc.
      pose proof (occ_bound a held). destruct (bool_decide_reflect (Some h = Some a)) as [Ea|Ea].
      * injection Ea as ->. rewrite bool_decide_eq_true_2 by done. unfold wrapU. rewrite Z.mod_small; lia.
      * rewrite bool_decide_eq_false_2 by congruence. lia.
    + split_and!; [done|done|]. intros a. cbn. by rewrite Hc', Hc.
  - destruct (account_node_ok now a z) as (ex1 & z1 & E1 & HZ' & _ & Hc'); [apply HI|by eapply held_count|].
    rewrite E in E1. injection E1 as <- <-. by eapply drop_inv.
  - destruct (release_node_ok a z) as (z1 & E1 & HZ' & _ & Hc'); [apply HI|by eapply held_count|].
    rewrite E in E1. injection E1 as <-. by eapply drop_inv.
Qed.

(** C22: safety of the shared zone.  From a new zone, after the locked sections of
    any number of workers in any order, every node that a request holds
    between its lookup and its accounting is still in the tree and in the
    queue, its count is the number of its holders, and the next section of any
    worker ends without an undefined access: a lookup of any key, and the
    accounting and the release of a held node. *)
Theorem workers_safe var rate name_len pool z0 z held :
  ngx_http_limit_req_init_zone var rate name_len None None pool = Some z0 ->
  rtc wstep (z0, []) (z, held) ->
  (forall a, a ∈ held -> a ∈ z_queue z /\ a ∈ dom (heap (z_rb z)) /\ holds_count z a = occ a held /\
     (forall now, exists ex z', account_node now a z = Ret (ex, z')) /\ (exists z', release_node a z = Ret z')) /\
  (forall now burst data account, exists r,
     ngx_http_limit_req_lookup now burst (ngx_crc32_short data) data account z = Ret r).
Proof.
  intros H0' Hsteps. destruct (init_zone_ok _ _ _ _ _ H0') as (HZ0 & _ & Hc0 & _).
  assert (HI : WInv (z, held)).
  { assert (HI0 : WInv (z0, [])) by (split; [done|split; [done|]; intros a; by rewrite Hc0]).
    clear H0' HZ0 Hc0. induction Hsteps as [|st st1 st2 Hs _ IH]; [done|]. eauto using wstep_inv. }
  pose proof HI as (HZ & _ & Hc). split.
  - intros a (held1 & held2 & E)%list_elem_of_split. subst held. apply held_count in HI as Hne.
    destruct (held_lr z a Hne) as (lr & Hlr & _). pose proof (zo_dom _ HZ _ _ Hlr) as Hq. split_and!.
    + done.
    + eapply tree_dom; [apply HZ|]. by constructor.
    + apply Hc.
    + intros now. destruct (account_node_ok now a z HZ Hne) as (ex & z' & E & _). eauto.
    + destruct (release_node_ok a z HZ Hne) as (z' & E & _). eauto.
  - intros now burst data account. destruct (lookup_ok now burst data account z HZ) as (rc & ex & z' & E & _). eauto.
Qed.

End Workers.

(** * Concrete workers *)

Definition zone_after {A} (z : zone SetPool) (r : outcome (A * zone SetPool)) : zone SetPool :=
  match r with Ret (_, z) => z | _ => z end.

(** Two requests of one key and one of another, the first accounted before the
    others. *)
Definition zone1 : zone SetPool :=
  zone_after zone0 (ngx_http_limit_req_lookup 1000 2000 (ngx_crc32_short [97]) [97] false zone0).
Definition zone2 : zone SetPool :=
  zone_after zone1 (ngx_http_limit_req_lookup 1001 2000 (ngx_crc32_short [98]) [98] false zone1).
Definition zone3 : zone SetPool :=
  zone_after zone2 (ngx_http_limit_req_lookup 1002 2000 (ngx_crc32_short [97]) [97] false zone2).
Definition held3 : list Z :=
  take_node NGX_AGAIN zone3 (take_node NGX_AGAIN zone2 (take_node NGX_AGAIN zone1 [])).
Definition node1 : Z := default 0 (z_node zone1).
Definition zone4 : zone SetPool := zone_after zone3 (account_node 1003 node1 zone3).

Lemma steps0 : rtc wstep (zone0, []) (zone4, node1 :: take_node NGX_AGAIN zone2 []).
Proof.
  eapply rtc_l; [apply (WLookup 1000 2000 [97] false zone0 [] NGX_AGAIN 0 zone1); [cbn; lia|vm_compute; reflexivity]|].
  eapply rtc_l; [apply (WLookup 1001 2000 [98] false zone1 _ NGX_AGAIN 0 zone2);
    [vm_compute; reflexivity|vm_compute; reflexivity]|].
  eapply rtc_l; [apply (WLookup 1002 2000 [97] false zone2 _ NGX_AGAIN 0 zone3);
    [vm_compute; reflexivity|vm_compute; reflexivity]|].
  apply rtc_once. change (take_node NGX_AGAIN zone3 _) with held3.
  replace held3 with ((node1 :: take_node NGX_AGAIN zone2 []) ++ node1 :: []) by (vm_compute; reflexivity).
  replace (node1 :: take_node NGX_AGAIN zone2 []) with ((node1 :: take_node NGX_AGAIN zone2 []) ++ []) at 2
    by (vm_compute; reflexivity).
  apply (WAccount 1003 zone3 _ node1 [] 0). vm_compute. reflexivity.
Qed.

Lemma workers_safe_witness :
  (forall a, a ∈ node1 :: take_node NGX_AGAIN zone2 [] ->
     a ∈ z_queue zone4 /\ a ∈ dom (heap (z_rb zone4)) /\
     holds_count zone4 a = occ a (node1 :: take_node NGX_AGAIN zone2 []) /\
     (forall now, exists ex z', account_node now a zone4 = Ret (ex, z')) /\
     (exists z', release_node a zone4 = Ret z')) /\
  (forall now burst data account, exists r,
     ngx_http_limit_req_lookup now burst (ngx_crc32_short data) data account zone4 = Ret r).
Proof. exact (workers_safe [118] 1000 4 ∅ zone0 zone4 _ zone0_new steps0). Defined.

End LimitReqWorkers.
