(* ===== verification/NgxLimitReqRate.v ===== *)
(** What a request limit promises: the number of the requests of a key that
    pass in a time, and that a client within the rate is never held back. *)

From S2P Require Import Prelude NgxNumber NgxCrc32 NgxRbtree NgxSlabClass NgxSlabPool NgxLimitReq NgxLimitReqLru NgxLimitReqRoom.

Module LimitReqRate.

Export LimitReqRoom.

(** * The record of a key *)

Definition record_of (d : list Z) (l : list ngx_http_limit_req_node_t) : option ngx_http_limit_req_node_t :=
  fst <$> lru_take d l.

Lemma record_cons d lr l : record_of d (lr :: l) = if decide (lr_data lr = d) then Some lr else record_of d l.
Proof. unfold record_of. cbn. case_decide; [done|]. by destruct (lru_take d l) as [[x l']|]. Qed.

Lemma record_none d l : record_of d l = None <-> d ∉ map lr_data l.
Proof. unfold record_of. rewrite <- lru_take_none. by destruct (lru_take d l). Qed.

Lemma record_some d l lr : KeysOk l -> record_of d l = Some lr <-> lr ∈ l /\ lr_data lr = d.
Proof.
  induction l as [|x l IH]; [intros _; split; [done|set_solver]|]. intros (_ & Hx & HK)%keys_cons.
  rewrite record_cons, elem_of_cons. case_decide as Hd.
  - split; [intros [= ->]; auto|]. intros [[->|Hin] E]; [done|]. destruct Hx. rewrite Hd, <- E.
    apply list_elem_of_fmap. eauto.
  - rewrite (IH HK). naive_solver.
Qed.

Lemma record_perm d l l' : KeysOk l -> l ≡ₚ l' -> record_of d l' = record_of d l.
Proof.
  intros HK Hp. pose proof (keys_perm _ _ Hp HK) as HK'. apply option_eq. intros lr.
  by rewrite !record_some, Hp.
Qed.

Lemma record_app d l l2 : KeysOk (l ++ l2) ->
  record_of d l = record_of d (l ++ l2) \/ (record_of d l = None /\ exists lr, record_of d (l ++ l2) = Some lr /\ lr ∈ l2).
Proof.
  intros HK. destruct (record_of d (l ++ l2)) as [lr|] eqn:E.
  - apply (record_some _ _ _ HK) in E as [[Hin|Hin]%elem_of_app Hd].
    + left. apply record_some; [by eapply keys_app|done].
    + right. split; [|by eauto]. apply record_none. intros Hl. destruct HK as [_ HK].
      rewrite map_app in HK. apply NoDup_app in HK as (_ & Hdis & _). apply (Hdis d Hl).
      apply list_elem_of_fmap. eauto.
  - left. apply record_none. apply record_none in E. rewrite map_app in E. set_solver.
Qed.

(** A record is dropped only when it is forgotten. *)
Definition dropped (rate now : Z) (d : list Z) (l l' : list ngx_http_limit_req_node_t) : Prop :=
  record_of d l' = None /\
  exists lr m, record_of d l = Some lr /\ 1 <= m /\ forgotten rate now m lr = true.

Lemma record_expire rate now d fuel : forall n l, 1 <= n -> KeysOk l ->
  record_of d (lru_expire rate now n fuel l) = record_of d l \/
  dropped rate now d l (lru_expire rate now n fuel l).
Proof.
  induction fuel as [|fuel IH]; intros n l Hn HK; cbn [lru_expire]; [by left|].
  destruct (last l) as [x|] eqn:El; [|by left]. destruct (_ && _) eqn:Ef; [|by left].
  apply andb_true_iff in Ef as [_ Ef]. apply last_Some in El as [l' ->]. rewrite removelast_last.
  pose proof (keys_app _ _ HK) as HK'. destruct (IH (n + 1) l' ltac:(lia) HK') as [E|(E1 & lr & m & E2 & Hm & Hf)].
  - destruct (record_app d l' [x] HK) as [E'|(E' & lr & E2 & Hin)]; [left; congruence|].
    right. split; [congruence|]. apply list_elem_of_singleton in Hin as ->. by exists x, n.
  - right. split; [done|]. exists lr, m. destruct (record_app d l' [x] HK) as [E'|(E' & _)]; [|congruence].
    rewrite <- E'. done.
Qed.

(** What a lookup of the key [k] does to the record of [d]. *)
Definition looked_up_record (rate now burst : Z) (d : list Z) (l : list ngx_http_limit_req_node_t)
    (rc ex : Z) (l' : list ngx_http_limit_req_node_t) : Prop :=
  match record_of d l with
  | Some lr =>
    let e := excess_at rate now lr in
    ex = e /\
    if wrapU 64 e >? burst then rc = LIMIT_BUSY /\ record_of d l' = Some lr
    else rc = NGX_OK /\ record_of d l' = Some (MkLr (lr_len lr) now (wrapU 64 e) (lr_count lr) (lr_data lr))
  | None => ex = 0 /\ rc = NGX_OK /\ record_of d l' = Some (lru_new now d true)
  end.

Lemma lookup_record rate now burst k d l rc ex l' : KeysOk l ->
  lru_lookup rate now burst k true (true, true) l = (rc, ex, l') ->
  if decide (k = d) then looked_up_record rate now burst d l rc ex l'
  else record_of d l' = record_of d l \/ dropped rate now d l l'.
Proof.
  intros HK. unfold lru_lookup, looked_up_record.
  destruct (lru_take k l) as [[lr l1]|] eqn:Et.
  - assert (Er : record_of k l = Some lr) by (unfold record_of; by rewrite Et).
    apply lru_take_perm in Et as [Hp Hd]. case_decide as Hk.
    + subst d. rewrite Er. destruct (_ >? _); intros [= <- <- <-]; rewrite record_cons; cbn;
        rewrite decide_True by done; done.
    + intros E. left. rewrite <- (record_perm d l (lr :: l1)), record_cons, decide_False by (done || congruence).
      destruct (_ >? _); injection E as <- <- <-; rewrite record_cons; cbn; rewrite decide_False by congruence; done.
  - unfold lru_room. cbn [fst snd]. pose proof (record_expire rate now d 3 1 l ltac:(lia) HK) as Hx.
    set (e := lru_expire rate now 1 3 l) in *. clearbody e. intros [= <- <- <-]. case_decide as Hk.
    + subst d. unfold record_of at 1. rewrite Et. cbn [fmap option_fmap option_map].
      rewrite record_cons, decide_True by done. done.
    + unfold dropped. by rewrite record_cons, decide_False.
Qed.

(** * One limit *)

Section Serve.
Context {P : Type} `{HL : SlabLaws P} {HR : SlabRoom P}.

Definition set_l_key (key : option (list Z)) (l : ngx_http_limit_req_limit_t P) : ngx_http_limit_req_limit_t P :=
  MkLimit (l_zone l) (l_burst l) (l_nodelay l) key.

(** The requests of a location with one limit, each with its time and the
    value of the variable. *)
Fixpoint serve (reqs : list (Z * list Z)) (l : ngx_http_limit_req_limit_t P)
    : outcome (list verdict * ngx_http_limit_req_limit_t P) :=
  match reqs with
  | [] => Ret ([], l)
  | (now, key) :: reqs =>
    let! p := ngx_http_limit_req_handler now false [set_l_key (Some key) l] in
    match p with
    | (v, _, [l]) => let! r := serve reqs l in Ret (v :: r.1, r.2)
    | _ => Undefined
    end
  end.

Definition LimitOk (l : ngx_http_limit_req_limit_t P) : Prop :=
  ZoneOk (l_zone l) /\ KeysOk (entries (l_zone l)) /\ 0 < z_rate (l_zone l).

Definition same_limit (l l' : ngx_http_limit_req_limit_t P) : Prop :=
  z_rate (l_zone l') = z_rate (l_zone l) /\ l_burst l' = l_burst l /\ l_nodelay l' = l_nodelay l.

(** The verdict for the result of the lookup. *)
Definition verdict_of (rate : Z) (nodelay : bool) (rc ex : Z) : verdict :=
  if rc =? NGX_OK then
    let delay := if (ex =? 0) || nodelay then 0 else wrapU 64 (ex * 1000) / rate in
    if delay =? 0 then Pass else Delay delay
  else Refuse NGX_HTTP_SERVICE_UNAVAILABLE.

Lemma handler_one K now key l :
  LimitOk l -> RoomFor K (l_zone l) -> key ∈ K -> (0 < length key < 256)%nat ->
  exists b l' rc ex,
    ngx_http_limit_req_handler now false [set_l_key (Some key) l] =
      Ret (verdict_of (z_rate (l_zone l)) (l_nodelay l) rc ex, b, [l']) /\
    LimitOk l' /\ RoomFor K (l_zone l') /\ same_limit l l' /\
    lru_lookup (z_rate (l_zone l)) now (l_burst l) key true (true, true) (entries (l_zone l)) =
      (rc, ex, entries (l_zone l')).
Proof.
  intros (HZ & HK & Hr) HF Hkey Hlen. unfold ngx_http_limit_req_handler. cbn [limit_loop set_l_key l_key].
  rewrite (proj2 (Z.eqb_neq (Z.of_nat (length key)) 0)) by lia.
  replace (Z.of_nat (length key) >? 65535) with false by lia. cbn [orb l_burst l_zone].
  change (l_burst (set_l_key (Some key) l)) with (l_burst l). change (l_zone (set_l_key (Some key) l)) with (l_zone l).
  destruct (lookup_ok now (l_burst l) key true (l_zone l) HZ) as (rc & ex & z' & E & HLk). rewrite E.
  pose proof (lookup_room now (l_burst l) key true (l_zone l) rc ex z' HZ ltac:(lia) E) as Hkept. destruct HLk as (HZ' & [Hs1 Hs2] & Hlru & _ & _ & Hn & _ & Herr).
  destruct (Hlru HK ltac:(lia)) as ([r1 r2] & Hroom & El). clear Hlru.
  assert (r1 = true) as ->. { destruct r1; [done|]. destruct (Hroom eq_refl) as [Ht Hp]. by apply (room_not_full K now key (l_zone l)) in Hp; [|done..|lia|]. }
  assert (Ecase : rc = NGX_OK \/ rc = LIMIT_BUSY).
  { revert El. unfold lru_lookup. destruct (lru_take key _) as [[lr l1]|].
    - destruct (_ >? _); intros [= <- _ _]; auto.
    - cbn. intros [= <- _ _]. auto. }
  assert (HK' : KeysOk (entries z')).
  { pose proof (lru_lookup_keys (z_rate (l_zone l)) now (l_burst l) key true (true, r2) _ HK ltac:(lia)) as Hk.
    by rewrite El in Hk. }
  set (l' := MkLimit z' (l_burst l) (l_nodelay l) (Some key)).
  pose proof (room_for_kept _ _ _ _ _ _ _ _ _ _ _ HF Hkept Hkey El) as HF'.
  assert (HL' : LimitOk l' /\ same_limit l l') by (split; [split_and!; [done|done|cbn; lia]|done]).
  cbn [outcome_bind]. destruct Ecase as [-> | ->]; cbn.
  - exists true, l', NGX_OK, ex. split; [|by destruct HL'; split_and!].
    change (set_l_zone z' (set_l_key (Some key) l)) with l'. unfold ngx_http_limit_req_account, verdict_of, delay_of.
    cbn [l_nodelay l_zone l']. rewrite Hs2, (proj2 (Z.eqb_neq (z_rate (l_zone l)) 0)) by lia.
    by destruct ((ex =? 0) || l_nodelay l).
  - exists true, l', LIMIT_BUSY, ex. by destruct HL'; split_and!.
Qed.

(** * The bound *)

(** The requests have keys of 1 to 255 bytes and times that do not go back. *)
Fixpoint timed (tend t : Z) (reqs : list (Z * list Z)) : Prop :=
  match reqs with
  | [] => t <= tend
  | (now, key) :: reqs => t <= now /\ (0 < length key < 256)%nat /\ timed tend now reqs
  end.

Fixpoint admitted (d : list Z) (reqs : list (Z * list Z)) (vs : list verdict) : Z :=
  match reqs, vs with
  | (_, k) :: reqs, v :: vs => (if decide (k = d) then if refused v then 0 else 1 else 0) + admitted d reqs vs
  | _, _ => 0
  end.

Lemma timed_end tend t reqs : timed tend t reqs -> t <= tend.
Proof. revert t. induction reqs as [|[now key] reqs IH]; cbn; intros t; [done|]. intros (? & _ & ?%IH). lia. Qed.

Section Rate.
Context (rate burst t0 tend : Z) (Hrate : 0 < rate) (Hburst : 0 <= burst < 2 ^ 62)
  (Ht : 0 <= t0) (Htend : tend < 2 ^ 62) (Hno : rate * (tend - t0) < 2 ^ 62).

(** The record of a client of the zone, at a time [t]. *)
Definition in_time (t : Z) (lr : ngx_http_limit_req_node_t) : Prop :=
  0 <= lr_excess lr <= burst /\ t0 <= lr_last lr <= t.

Lemma spent_bound last now : t0 <= last <= now -> now <= tend -> 0 <= rate * (now - last) < 2 ^ 62.
Proof. intros Hl Hn. split; [nia|]. assert (rate * (now - last) <= rate * (tend - t0)) by nia. lia. Qed.

Lemma wrapS64_small x : - 2 ^ 63 <= x < 2 ^ 63 -> wrapS 64 x = x.
Proof. intros Hx. unfold wrapS. rewrite Z.mod_small; lia. Qed.

Lemma excess_at_ok now lr : in_time now lr -> now <= tend ->
  excess_at rate now lr = Z.max 0 (lr_excess lr - rate * (now - lr_last lr) / 1000 + 1000).
Proof.
  intros [He Hl] Hn. pose proof (spent_bound _ _ Hl Hn) as Hs. unfold excess_at.
  rewrite (wrapS64_small (now - lr_last lr)), Z.abs_eq by lia. unfold wrapU. rewrite (Z.mod_small (rate * _)) by lia.
  assert (0 <= rate * (now - lr_last lr) / 1000 <= rate * (now - lr_last lr)).
  { split; [apply Z.div_pos; lia|]. apply Z.div_le_upper_bound; lia. }
  rewrite wrapS64_small by lia. destruct (_ <? 0) eqn:E; boolify; lia.
Qed.

Lemma forgotten_ok now m lr : in_time now lr -> now <= tend -> 1 <= m -> forgotten rate now m lr = true ->
  60000 <= now - lr_last lr /\ 1000 * lr_excess lr <= rate * (now - lr_last lr).
Proof.
  intros [He Hl] Hn Hm. pose proof (spent_bound _ _ Hl Hn) as Hs. unfold forgotten.
  rewrite (wrapS64_small (now - lr_last lr)), Z.abs_eq by lia. unfold wrapU. rewrite (Z.mod_small (rate * _)) by lia.
  assert (Hd : 0 <= rate * (now - lr_last lr) / 1000 <= rate * (now - lr_last lr)).
  { split; [apply Z.div_pos; lia|]. apply Z.div_le_upper_bound; lia. }
  rewrite wrapS64_small by lia. rewrite (proj2 (Z.eqb_neq m 0)) by lia. cbn [orb].
  intros [_ [H1 H2]%andb_true_iff]%andb_true_iff. boolify.
  pose proof (Z.mul_div_le (rate * (now - lr_last lr)) 1000 ltac:(lia)). lia.
Qed.

(** [A] requests of the key were admitted, and [L] records of it made. *)
Definition KInv (d : list Z) (A L t : Z) (l : list ngx_http_limit_req_node_t) : Prop :=
  t0 <= t /\
  match record_of d l with
  | Some lr => in_time t lr /\ 10 ^ 6 * (A - L) <= 1000 * lr_excess lr + rate * (lr_last lr - t0) /\
               60000 * (L - 1) <= lr_last lr - t0
  | None => 10 ^ 6 * (A - L) <= rate * (t - t0) /\ 60000 * L <= t - t0
  end.

Lemma lookup_other d A L t now l l' : KInv d A L t l -> t <= now <= tend ->
  record_of d l' = record_of d l \/ dropped rate now d l l' -> KInv d A L now l'.
Proof.
  intros [Ht0 HI] Hn. unfold KInv. intros [E|(E & lr & m & E1 & Hm & Hf)]; rewrite E.
  - split; [lia|]. destruct (record_of d l) as [lr|].
    + destruct HI as ([He Hl] & ?). split; [|done]. split; [done|lia].
    + destruct HI. split; [|lia]. nia.
  - split; [lia|]. rewrite E1 in HI. destruct HI as ([He Hl] & H1 & H2).
    destruct (forgotten_ok now m lr) as [H3 H4]; [split; [done|lia]|lia|done|done|]. split; [|lia]. nia.
Qed.

Lemma lookup_own d A L t now l rc ex l' : KInv d A L t l -> t <= now <= tend ->
  looked_up_record rate now burst d l rc ex l' ->
  (rc = NGX_OK \/ rc = LIMIT_BUSY) /\
  exists L', KInv d (A + if rc =? NGX_OK then 1 else 0) L' now l'.
Proof.
  intros [Ht0 HI] Hn. unfold looked_up_record. destruct (record_of d l) as [lr|] eqn:El.
  - destruct HI as ([He Hl] & H1 & H2). intros [_ Hl']. cbn zeta in Hl'.
    assert (Hit : in_time now lr) by (split; [done|lia]).
    pose proof (excess_at_ok now lr Hit ltac:(lia)) as Hex.
    pose proof (spent_bound (lr_last lr) now ltac:(lia) ltac:(lia)) as Hsb.
    pose proof (Z.mul_div_le (rate * (now - lr_last lr)) 1000 ltac:(lia)) as Hdiv.
    assert (Hb : 0 <= excess_at rate now lr < 2 ^ 64).
    { rewrite Hex. pose proof (Z.div_pos (rate * (now - lr_last lr)) 1000 ltac:(lia) ltac:(lia)). lia. }
    unfold wrapU in Hl'. rewrite Z.mod_small in Hl' by done.
    destruct (_ >? _) eqn:Eb; boolify; destruct Hl' as [-> Hl'].
    + split; [by right|]. exists L. split; [lia|]. rewrite Hl'. cbn. rewrite Z.add_0_r. done.
    + split; [by left|]. exists L. split; [lia|]. rewrite Hl'. cbn [lr_last lr_excess]. cbn.
      split; [split; cbn; lia|]. split; [|lia]. nia.
  - intros (_ & -> & Hl'). split; [by left|]. exists (L + 1). split; [lia|]. rewrite Hl'. cbn.
    split; [split; cbn; lia|]. destruct HI. split; [|lia]. cbn. nia.
Qed.

Lemma refused_of nodelay rc ex : rc = NGX_OK \/ rc = LIMIT_BUSY ->
  refused (verdict_of rate nodelay rc ex) = negb (rc =? NGX_OK).
Proof. intros [-> | ->]; unfold verdict_of; cbn; [|done]. by destruct (_ =? 0). Qed.

(** The keys of the clients. *)
Context (K : gset (list Z)).

Lemma serve_step now key l : LimitOk l -> RoomFor K (l_zone l) -> key ∈ K -> (0 < length key < 256)%nat -> z_rate (l_zone l) = rate ->
  l_burst l = burst ->
  exists b l' rc ex,
    ngx_http_limit_req_handler now false [set_l_key (Some key) l] =
      Ret (verdict_of rate (l_nodelay l) rc ex, b, [l']) /\
    LimitOk l' /\ RoomFor K (l_zone l') /\ same_limit l l' /\ forall d,
    if decide (key = d) then looked_up_record rate now burst d (entries (l_zone l)) rc ex (entries (l_zone l'))
    else record_of d (entries (l_zone l')) = record_of d (entries (l_zone l)) \/
         dropped rate now d (entries (l_zone l)) (entries (l_zone l')).
Proof.
  intros Hl HF HkK Hkey Hr Hb. destruct (handler_one K now key l Hl HF HkK Hkey) as (b & l' & rc & ex & E & Hl' & HF' & Hs & El).
  rewrite Hr in *. rewrite Hb in El. exists b, l', rc, ex. split_and!; [done..|]. intros d.
  apply (lookup_record _ _ _ _ d) in El; [done|apply Hl].
Qed.

Lemma serve_rate d reqs : Forall (fun r => r.2 ∈ K) reqs -> forall A L t l,
  LimitOk l -> RoomFor K (l_zone l) -> z_rate (l_zone l) = rate -> l_burst l = burst ->
  KInv d A L t (entries (l_zone l)) -> timed tend t reqs ->
  exists vs l' L', serve reqs l = Ret (vs, l') /\ LimitOk l' /\ length vs = length reqs /\
    exists t', t' <= tend /\ KInv d (A + admitted d reqs vs) L' t' (entries (l_zone l')).
Proof.
  induction reqs as [|[now key] reqs IH]; intros HkK A L t l Hl HF Hr Hb HI Htimed; cbn [serve].
  { exists [], l, L. split_and!; [done..|]. exists t. cbn in *. by rewrite Z.add_0_r. }
  apply Forall_cons in HkK as [HkK1 HkK]. cbn [snd] in HkK1.
  destruct Htimed as (Htn & Hkey & Htimed). pose proof (timed_end _ _ _ Htimed) as Hne.
  destruct (serve_step now key l Hl HF HkK1 Hkey Hr Hb) as (b & l1 & rc & ex & E & Hl1 & HF1 & (Hs1 & Hs2 & _) & Hrec).
  rewrite E. cbn [outcome_bind]. specialize (Hrec d).
  assert (HI1 : exists L1, KInv d (A + if decide (key = d) then if refused (verdict_of rate (l_nodelay l) rc ex) then 0 else 1 else 0)
                  L1 now (entries (l_zone l1))).
  { case_decide as Hk.
    - destruct (lookup_own d A L t now _ rc ex _ HI ltac:(lia) Hrec) as (Hrc & L' & HI'). exists L'.
      rewrite refused_of by done. by destruct (rc =? NGX_OK).
    - exists L. rewrite Z.add_0_r. eapply lookup_other; [exact HI|lia|exact Hrec]. }
  destruct HI1 as [L1 HI1].
  destruct (IH HkK _ L1 now l1 Hl1 HF1 ltac:(congruence) ltac:(congruence) HI1 Htimed) as (vs & l' & L' & E' & Hl' & Hlen & t' & Ht' & HI').
  rewrite E'. cbn [outcome_bind fst snd]. eexists _, l', L'. split; [reflexivity|]. split; [done|].
  split; [cbn; lia|]. exists t'. split; [done|]. cbn [admitted]. by rewrite Z.add_assoc.
Qed.

Lemma KInv_bound d A L t l : KInv d A L t l -> t <= tend ->
  A <= 1 + (tend - t0) / 60000 + (1000 * burst + rate * (tend - t0)) / 10 ^ 6.
Proof.
  intros [Ht0 HI] Hte. assert (H1 : 10 ^ 6 * (A - L) <= 1000 * burst + rate * (tend - t0)).
  { destruct (record_of d l) as [lr|]; [destruct HI as ([? ?] & ? & _)|destruct HI as [? _]]; nia. }
  assert (H2 : 60000 * (L - 1) <= tend - t0).
  { destruct (record_of d l) as [lr|]; [destruct HI as ([? ?] & _ & ?)|destruct HI as [_ ?]]; lia. }
  assert (A - L <= (1000 * burst + rate * (tend - t0)) / 10 ^ 6) by (apply Z.div_le_lower_bound; lia).
  assert (L - 1 <= (tend - t0) / 60000) by (apply Z.div_le_lower_bound; lia). lia.
Qed.

(** * A client within the rate *)

(** The requests of the client come at most [rate] times in 1000 seconds;
    [prev] is the time of the one before. *)
Fixpoint spaced (d : list Z) (prev : option Z) (reqs : list (Z * list Z)) : Prop :=
  match reqs with
  | [] => True
  | (now, key) :: reqs =>
    if decide (key = d) then
      match prev with Some t => 10 ^ 6 <= rate * (now - t) | None => True end /\ spaced d (Some now) reqs
    else spaced d prev reqs
  end.

Definition CInv (d : list Z) (prev : option Z) (t : Z) (l : list ngx_http_limit_req_node_t) : Prop :=
  t0 <= t /\ forall lr, record_of d l = Some lr -> in_time t lr /\ lr_excess lr = 0 /\ prev = Some (lr_last lr).

Lemma lookup_spaced d prev t now l rc ex l' : CInv d prev t l -> t <= now <= tend ->
  match prev with Some t => 10 ^ 6 <= rate * (now - t) | None => True end ->
  looked_up_record rate now burst d l rc ex l' -> rc = NGX_OK /\ ex = 0 /\ CInv d (Some now) now l'.
Proof.
  intros [Ht0 HI] Hn Hsp. unfold looked_up_record. destruct (record_of d l) as [lr|] eqn:El.
  - destruct (HI lr eq_refl) as ([He Hl] & H0' & ->). intros [-> Hl']. cbn zeta in Hl'.
    assert (Hit : in_time now lr) by (split; [done|lia]).
    rewrite (excess_at_ok now lr Hit ltac:(lia)) in *. rewrite H0' in *.
    assert (1000 <= rate * (now - lr_last lr) / 1000) by (apply Z.div_le_lower_bound; lia).
    rewrite Z.max_l in * by lia. change (wrapU 64 0) with 0 in Hl'.
    replace (0 >? burst) with false in Hl' by lia. destruct Hl' as [-> Hl'].
    split_and!; [done|done|]. split; [lia|]. rewrite Hl'. intros lr' [= <-]. cbn. split; [split; cbn; lia|done].
  - intros (-> & -> & Hl'). split_and!; [done|done|]. split; [lia|]. rewrite Hl'. intros lr' [= <-]. cbn.
    split; [split; cbn; lia|done].
Qed.

Lemma serve_spaced d reqs : Forall (fun r => r.2 ∈ K) reqs -> forall prev t l,
  LimitOk l -> RoomFor K (l_zone l) -> z_rate (l_zone l) = rate -> l_burst l = burst ->
  CInv d prev t (entries (l_zone l)) -> timed tend t reqs -> spaced d prev reqs ->
  exists vs l', serve reqs l = Ret (vs, l') /\ Forall2 (fun r v => r.2 = d -> v = Pass) reqs vs.
Proof.
  induction reqs as [|[now key] reqs IH]; intros HkK prev t l Hl HF Hr Hb HI Htimed Hsp; cbn [serve].
  { exists [], l. split; [done|constructor]. }
  apply Forall_cons in HkK as [HkK1 HkK]. cbn [snd] in HkK1.
  destruct Htimed as (Htn & Hkey & Htimed). pose proof (timed_end _ _ _ Htimed) as Hne.
  destruct (serve_step now key l Hl HF HkK1 Hkey Hr Hb) as (b & l1 & rc & ex & E & Hl1 & HF1 & (Hs1 & Hs2 & _) & Hrec).
  rewrite E. cbn [outcome_bind]. specialize (Hrec d). cbn [spaced] in Hsp.
  assert (HI1 : exists prev1, CInv d prev1 now (entries (l_zone l1)) /\ spaced d prev1 reqs /\
            (key = d -> verdict_of rate (l_nodelay l) rc ex = Pass)).
  { case_decide as Hk.
    - destruct Hsp as [Hsp1 Hsp]. destruct (lookup_spaced d prev t now _ rc ex _ HI ltac:(lia) Hsp1 Hrec) as (-> & -> & HI').
      exists (Some now). split_and!; [done|done|]. intros _. done.
    - exists prev. split_and!; [|done|done]. destruct HI as [Ht0 HI]. split; [lia|]. intros lr Hlr.
      destruct Hrec as [Hrec|[Hrec _]]; [|congruence]. rewrite Hrec in Hlr. destruct (HI lr Hlr) as ([? ?] & ? & ?).
      split; [split; [done|lia]|done]. }
  destruct HI1 as (prev1 & HI1 & Hsp1 & Hv).
  destruct (IH HkK prev1 now l1 Hl1 HF1 ltac:(congruence) ltac:(congruence) HI1 Htimed Hsp1) as (vs & l' & E' & Hvs).
  rewrite E'. cbn [outcome_bind fst snd]. do 2 eexists. split; [reflexivity|]. by constructor.
Qed.

End Rate.

(** A location whose only limit is on a new zone. *)
Definition new_limit (var : list Z) (rate burst name_len : Z) (nodelay : bool) (pool : P)
    (l : ngx_http_limit_req_limit_t P) : Prop :=
  exists z, ngx_http_limit_req_init_zone var rate name_len None None pool = Some z /\
    l = MkLimit z burst nodelay None.

(** The clients of the requests. *)
Definition clients (reqs : list (Z * list Z)) : gset (list Z) := list_to_set (map snd reqs).

Lemma clients_all reqs : Forall (fun r => r.2 ∈ clients reqs) reqs.
Proof. apply Forall_forall. intros r Hr. apply elem_of_list_to_set, list_elem_of_In, in_map, list_elem_of_In. exact Hr. Qed.

(** The pool has a page for every client, beside the blocks it has and the two
    that a new zone takes; none of its blocks is longer than a page. *)
Definition room_for_clients (pool : P) (name_len : Z) (reqs : list (Z * list Z)) : Prop :=
  slab_small pool /\ 0 <= name_len <= 4000 /\ (size (slab_live pool) + 2 + size (clients reqs) <= slab_pages)%nat.

(** A zone can be made in such a pool. *)
Lemma new_limit_made var rate burst name_len nodelay pool reqs : room_for_clients pool name_len reqs ->
  exists l, new_limit var rate burst name_len nodelay pool l.
Proof.
  intros (Hs & Hn & Hp). unfold new_limit. cbn.
  destruct (slab_alloc pool shctx_size) as [[sh p1]|] eqn:E1; [|exfalso; revert E1; apply slab_room; [done|unfold shctx_size; lia|lia]].
  assert (Hs1 : slab_small p1) by (apply (slab_small_alloc _ _ _ _ Hs) in E1; [done|unfold shctx_size; lia]). apply slab_alloc_live in E1 as [_ E1].
  destruct (slab_alloc p1 (22 + name_len)) as [[lg p2]|] eqn:E2; [by eauto|]. exfalso. revert E2. apply slab_room; [done|lia|]. rewrite E1.
  pose proof (size_union_le {[sh]} (slab_live pool)) as Hsz. rewrite size_singleton in Hsz. lia.
Qed.


(** C32: a client within the rate.  With one limit on a new zone in a slab pool
    that has a page for every client, a client whose requests are at least
    10^6 / rate milliseconds apart is neither refused nor delayed, whatever
    those clients do. *)
Theorem polite_client_passes var rate burst name_len nodelay pool l t0 tend d reqs :
  new_limit var rate burst name_len nodelay pool l -> room_for_clients pool name_len reqs ->
  0 < rate -> 0 <= burst < 2 ^ 62 -> 0 <= t0 -> tend < 2 ^ 62 -> rate * (tend - t0) < 2 ^ 62 ->
  timed tend t0 reqs -> spaced rate d None reqs ->
  exists vs l', serve reqs l = Ret (vs, l') /\ Forall2 (fun r v => r.2 = d -> v = Pass) reqs vs.
Proof.
  intros (z & Hz & ->) (Hs & Hnl & Hpg) Hr Hb Ht0 Hte Hno Htimed Hsp.
  destruct (init_zone_ok _ _ _ _ _ Hz) as (HZ & He & _ & Hrt & _).
  pose proof (init_room (clients reqs) _ _ _ _ _ Hz Hs Hnl Hpg) as HF.
  assert (Hl : LimitOk (MkLimit z burst nodelay None)).
  { split_and!; [done|cbn; rewrite He; by repeat constructor|cbn; lia]. }
  apply (serve_spaced rate burst t0 tend Hr Hb Ht0 Hte Hno (clients reqs) d reqs (clients_all reqs) None t0); [done..| |done|done].
  split; [lia|]. cbn. rewrite He. done.
Qed.

(** * Long keys *)

(** the length of a key is stored in one byte, so that keys of 256 bytes and
    more are never found again: every request with such a key passes at once,
    whatever the rate and the burst. *)
Theorem long_keys_pass (roomy : forall p n, slab_alloc (P := P) p n <> None) reqs : forall l,
  ZoneOk (l_zone l) -> Forall (fun r => 256 <= Z.of_nat (length r.2) <= 65535) reqs ->
  exists l', serve reqs l = Ret (map (fun _ => Pass) reqs, l').
Proof.
  induction reqs as [|[now key] reqs IH]; intros l HZ Hlen; cbn [serve map]; [by exists l|].
  apply Forall_cons in Hlen as [Hk Hlen]. cbn in Hk.
  unfold ngx_http_limit_req_handler. cbn [limit_loop set_l_key l_key].
  rewrite (proj2 (Z.eqb_neq (Z.of_nat (length key)) 0)) by lia.
  replace (Z.of_nat (length key) >? 65535) with false by lia. cbn [orb].
  change (l_burst (set_l_key (Some key) l)) with (l_burst l). change (l_zone (set_l_key (Some key) l)) with (l_zone l).
  destruct (lookup_ok now (l_burst l) key true (l_zone l) HZ) as (rc & ex & z' & E & HLk). rewrite E.
  destruct HLk as (HZ' & _ & _ & _ & Hlong & _ & _ & Herr). destruct (Hlong ltac:(lia)) as [-> [-> | ->]].
  - cbn [outcome_bind]. cbn. destruct (IH (MkLimit z' (l_burst l) (l_nodelay l) (Some key)) HZ' Hlen) as (l' & E').
    unfold set_l_zone, set_l_key in *. cbn [l_burst l_nodelay l_key]. rewrite E'. cbn. by exists l'.
  - destruct (Herr eq_refl) as (z1 & _ & Hp). by apply roomy in Hp.
Qed.

End Serve.

(** * Concrete requests *)

Import SlabMemory.

Definition limit0 : ngx_http_limit_req_limit_t SetPool := MkLimit zone0 2000 false None.

Definition reqs0 : list (Z * list Z) :=
  [(1000, [97; 98]); (1000, [99]); (1200, [97; 98]); (1300, [97; 98]); (1400, [97; 98]); (2500, [99])].

Example reqs0_served : exists l, serve reqs0 limit0 =
  Ret ([Pass; Pass; Delay 800; Delay 1700; Refuse 503; Pass], l).
Proof. eexists. vm_compute. reflexivity. Qed.

Lemma limit0_new : new_limit [118] 1000 2000 4 false (∅ : SetPool) limit0.
Proof. exists zone0. split; [apply zone0_new|reflexivity]. Qed.

(** The same requests in a zone of a pool of the slab allocator. *)
Lemma reqs0_room : room_for_clients memory0 4 reqs0.
Proof.
  split; [apply new_memory_small|]. split; [lia|]. unfold memory0. rewrite new_memory_live. vm_compute. lia.
Qed.


Lemma polite_client_passes_witness : exists l, new_limit [118] 1000 2000 4 false memory0 l /\
  exists vs l', serve reqs0 l = Ret (vs, l') /\ Forall2 (fun r v => r.2 = [99] -> v = Pass) reqs0 vs.
Proof.
  destruct (new_limit_made [118] 1000 2000 4 false memory0 reqs0 reqs0_room) as [l Hl]. exists l. split; [exact Hl|].
  apply (polite_client_passes [118] 1000 2000 4 false memory0 l 1000 2500 [99] reqs0 Hl reqs0_room); [lia..|cbn; lia|].
  vm_compute. split_and!; done.
Defined.

Lemma long_keys_pass_witness : exists l', serve [(1000, repeat 97 256); (1000, repeat 97 256)] limit0 =
  Ret (map (fun _ => Pass) [(1000, repeat 97 256); (1000, repeat 97 256)], l').
Proof.
  apply (long_keys_pass set_pool_roomy); [apply (init_zone_ok _ _ _ _ _ zone0_new)|].
  repeat constructor; vm_compute; done.
Defined.

End LimitReqRate.
