(* ===== verification/NgxLimitReqHandler.v ===== *)
(** The handler of the request limiter with several limits: a request is
    charged to all of them or to none. *)

From S2P Require Import Prelude NgxNumber NgxCrc32 NgxRbtree NgxLimitReq NgxLimitReqLru.

Module LimitReqHandler.

Export LimitReqLru.

Section Handler.
Context {P : Type} `{SlabLaws P}.
Implicit Types l : ngx_http_limit_req_limit_t P.

(** A limit between two requests. *)
Record LimitReady (l : ngx_http_limit_req_limit_t P) : Prop := MkReady {
  lo_zone : ZoneOk (l_zone l);
  lo_node : z_node (l_zone l) = None;
  lo_rate : z_rate (l_zone l) <> 0;
  lo_count : forall a, 0 <= holds_count (l_zone l) a < 2 ^ 64 - 1 }.

(** The limit applies to the request. *)
Definition applies (l : ngx_http_limit_req_limit_t P) (data : list Z) : Prop :=
  l_key l = Some data /\ 0 < Z.of_nat (length data) <= 65535.

Definition params_eq l l' : Prop :=
  same_zone (l_zone l) (l_zone l') /\ l_burst l' = l_burst l /\ l_nodelay l' = l_nodelay l /\ l_key l' = l_key l.

(** The limit after a lookup that the request passed, and that holds the node. *)
Definition Held (now : Z) l l' : Prop :=
  params_eq l l' /\ ZoneOk (l_zone l') /\
  ((l' = l /\ forall data, ~ applies l data) \/
   exists data h, applies l data /\ z_node (l_zone l') = Some h /\ head (z_queue (l_zone l')) = Some h /\
     recorded_at now data false (l_zone l) NGX_AGAIN (l_zone l') /\
     (forall a, holds_count (l_zone l') a =
        if bool_decide (h = a) then holds_count (l_zone l) a + 1 else holds_count (l_zone l) a)).

(** The limit after a request that was charged to it. *)
Definition Charged (now : Z) l l' : Prop :=
  params_eq l l' /\ LimitReady l' /\
  ((l' = l /\ forall data, ~ applies l data) \/
   exists data h lr', applies l data /\ z_lr (l_zone l') !! h = Some lr' /\ names data lr' /\
     delete h (z_lr (l_zone l')) ⊆ z_lr (l_zone l) /\
     ((exists lr, z_lr (l_zone l) !! h = Some lr /\
         lr' = MkLr (lr_len lr) now (wrapU 64 (excess_at (z_rate (l_zone l)) now lr)) (lr_count lr) (lr_data lr)) \/
      (lr_data lr' = data /\ lr_last lr' = now /\ lr_count lr' = 0))).

(** The limit after a request that was refused. *)
Definition NotCharged l l' : Prop :=
  params_eq l l' /\ LimitReady l' /\
  forall a lr', z_lr (l_zone l') !! a = Some lr' ->
    z_lr (l_zone l) !! a = Some lr' \/ (lr_excess lr' = 0 /\ lr_count lr' = 0).

Lemma count_wrap c : 0 <= c < 2 ^ 64 - 1 -> wrapU 64 (wrapU 64 (c + 1) - 1) = c.
Proof. intros Hc. unfold wrapU. rewrite (Z.mod_small (c + 1)) by lia. rewrite Z.mod_small; lia. Qed.

Lemma same_limit_ready l l' : LimitReady l -> params_eq l l' -> ZoneOk (l_zone l') -> z_node (l_zone l') = None ->
  (forall a, holds_count (l_zone l') a = holds_count (l_zone l) a) -> LimitReady l'.
Proof.
  intros [HZ Hn Hr Hc] ([_ Hp] & _) HZ' Hn' Hc'. split; [done|done|congruence|]. intros a. rewrite Hc'. apply Hc.
Qed.

(** The node that a limit holds, and the record after it is put back. *)
Lemma held_node now l l' data h : LimitReady l -> applies l data -> Held now l l' -> z_node (l_zone l') = Some h ->
  exists lr', z_lr (l_zone l') !! h = Some lr' /\ names data lr' /\ delete h (z_lr (l_zone l')) ⊆ z_lr (l_zone l) /\
    0 < lr_count lr' < 2 ^ 64 /\ lr_count lr' = holds_count (l_zone l) h + 1 /\
    (forall a, h <> a -> holds_count (l_zone l') a = holds_count (l_zone l) a) /\
    ((exists lr, z_lr (l_zone l) !! h = Some lr /\
        lr' = MkLr (lr_len lr) (lr_last lr) (lr_excess lr) (lr_count lr + 1) (lr_data lr)) \/
     lr' = lru_new now data false).
Proof.
  intros HR Ha (_ & HZ' & [[-> _]|(data' & h' & Ha' & Hn & Hh & Hrec & Hc)]) Hn'.
  { destruct HR as [_ Hn _ _]. congruence. }
  assert (data' = data) as -> by (destruct Ha, Ha'; congruence). assert (h' = h) as -> by congruence.
  destruct Hrec as [[_ (h' & lr' & Hh' & Hlr & Hnm & Hsub & Hor)]|[[E|E] _]]; [|done|done].
  assert (h' = h) as -> by congruence. pose proof (lo_count _ HR h) as Hb.
  assert (Hcl : lr_count lr' = holds_count (l_zone l) h + 1).
  { specialize (Hc h). rewrite bool_decide_eq_true_2 in Hc by done. rewrite <- Hc. unfold holds_count. by rewrite Hlr. }
  exists lr'. split_and!; [done..|lia|lia|done| |].
  - intros a Hne. rewrite Hc, bool_decide_eq_false_2 by done. done.
  - destruct Hor as [(lr & Hlr0 & ->)|Hnew]; [left|by right]. exists lr. split; [done|]. f_equal.
    unfold holds_count in Hb. rewrite Hlr0 in Hb. cbn in Hb. unfold wrapU. rewrite Z.mod_small; [done|lia].
Qed.

(** A node that is put back with the count it had. *)
Lemma put_back now l l' data h lr' lr2 : LimitReady l -> Held now l l' -> applies l data ->
  z_node (l_zone l') = Some h -> z_lr (l_zone l') !! h = Some lr' ->
  lr_len lr2 = lr_len lr' -> lr_data lr2 = lr_data lr' -> lr_count lr2 = lr_count lr' - 1 ->
  params_eq l (set_l_zone (set_z_node None (set_lr h lr2 (l_zone l'))) l') /\
  LimitReady (set_l_zone (set_z_node None (set_lr h lr2 (l_zone l'))) l').
Proof.
  intros HR HH Ha Hn Hlr Hl Hd Hc. destruct (held_node _ _ _ _ _ HR Ha HH Hn) as (lr1 & Hlr1 & _ & _ & _ & Hc1 & Hco & _).
  assert (lr1 = lr') as -> by congruence.
  assert (Hp : params_eq l (set_l_zone (set_z_node None (set_lr h lr2 (l_zone l'))) l')) by apply HH.
  split; [done|]. eapply same_limit_ready; [done|done| |done|].
  - by eapply set_lr_ok; [apply HH|..].
  - intros a. cbn [set_l_zone l_zone]. rewrite set_lr_count. case_bool_decide as E; [subst a; lia|by apply Hco].
Qed.

Lemma release_one_ok now l l' : LimitReady l -> Held now l l' ->
  exists l2, release_one l' = Ret l2 /\ NotCharged l l2.
Proof.
  intros HR HH. unfold release_one. destruct (z_node (l_zone l')) as [h|] eqn:Hn.
  2:{ exists l'. split; [done|]. destruct HH as (Hp & HZ & [[-> _]|(data & h & _ & Hn' & _)]); [|congruence].
      split_and!; [done|done|]. by left. }
  assert (Ha : exists data, applies l data).
  { destruct HH as (_ & _ & [[-> _]|(data & ? & ? & _)]); [destruct HR; congruence|eauto]. }
  destruct Ha as [data Ha].
  destruct (held_node _ _ _ _ _ HR Ha HH Hn) as (lr' & Hlr & _ & Hsub & Hb & Hc & _ & Hor).
  unfold release_node, lr_of. rewrite Hlr. cbn [outcome_bind]. eexists. split; [reflexivity|].
  set (lr2 := MkLr _ _ _ _ _). assert (Hc2 : lr_count lr2 = lr_count lr' - 1).
  { cbn. unfold wrapU. rewrite Z.mod_small; lia. }
  destruct (put_back now l l' data h lr' lr2) as [Hp HR2]; try done. split_and!; [done|done|].
  intros a lr3. cbn. intros [[<- <-]|[Hne Hlr3]]%lookup_insert_Some.
  - destruct Hor as [(lr & Hlr0 & ->)| ->]; [left|right].
    + rewrite Hlr0. f_equal. destruct lr. unfold lr2 in *. cbn in *. f_equal. lia.
    + done.
  - left. eapply lookup_weaken; [|exact Hsub]. by rewrite lookup_delete_ne.
Qed.

Lemma account_one_ok now l l' : LimitReady l -> Held now l l' ->
  match z_node (l_zone l') with
  | None => Charged now l l'
  | Some a => exists ex z2, account_node now a (l_zone l') = Ret (ex, z2) /\ Charged now l (set_l_zone z2 l')
  end.
Proof.
  intros HR HH. destruct (z_node (l_zone l')) as [h|] eqn:Hn.
  2:{ destruct HH as (Hp & HZ & [[-> Hno]|(data & h & _ & Hn' & _)]); [|congruence]. split_and!; [done|done|by left]. }
  assert (Ha : exists data, applies l data).
  { destruct HH as (_ & _ & [[-> _]|(data & ? & ? & _)]); [destruct HR; congruence|eauto]. }
  destruct Ha as [data Ha].
  destruct (held_node _ _ _ _ _ HR Ha HH Hn) as (lr' & Hlr & Hnm & Hsub & Hb & Hc & _ & Hor).
  unfold account_node, lr_of. rewrite Hlr. cbn [outcome_bind]. do 2 eexists. split; [reflexivity|].
  assert (Hrt : z_rate (l_zone l') = z_rate (l_zone l)) by apply HH. rewrite Hrt.
  set (lr2 := MkLr _ _ _ _ _). assert (Hc2 : lr_count lr2 = lr_count lr' - 1).
  { cbn. unfold wrapU. rewrite Z.mod_small; lia. }
  destruct (put_back now l l' data h lr' lr2) as [Hp HR2]; try done. split_and!; [done|done|]. right.
  exists data, h, lr2. cbn. rewrite lookup_insert_eq, delete_insert_eq. split_and!; [done..|].
  destruct Hor as [(lr & Hlr0 & ->)| ->]; [left|right].
  - exists lr. split; [done|]. unfold lr2 in *. cbn in *. f_equal. lia.
  - done.
Qed.

Lemma release_ok now odone done : Forall LimitReady odone -> Forall2 (Held now) odone done ->
  exists ls, release done = Ret ls /\ Forall2 NotCharged odone ls.
Proof.
  intros HR HH. revert HR. induction HH as [|l l' odone done Hl _ IH]; intros HR; cbn [release].
  { exists []. by split. }
  apply Forall_cons in HR as [HR1 HR]. destruct (release_one_ok now l l' HR1 Hl) as (l2 & E & Hl2). rewrite E.
  cbn [outcome_bind]. destruct (IH HR) as (ls & E' & Hls). rewrite E'. eexists. split; [reflexivity|]. by constructor.
Qed.

Lemma account_loop_ok now odone done : forall max_delay, Forall LimitReady odone -> Forall2 (Held now) odone done ->
  exists d ls, account_loop now max_delay done = Ret (d, ls) /\ Forall2 (Charged now) odone ls.
Proof.
  intros max_delay HR HH. revert max_delay HR. induction HH as [|l l' odone done Hl _ IH]; intros md HR; cbn [account_loop].
  { exists md, []. by split. }
  apply Forall_cons in HR as [HR1 HR]. pose proof (account_one_ok now l l' HR1 Hl) as Hone.
  destruct (z_node (l_zone l')) as [a|].
  - destruct Hone as (ex & z2 & E & Hch). rewrite E. cbn [outcome_bind fst snd].
    assert (Hrt : z_rate (l_zone l') <> 0). { destruct Hl as (([_ Hz] & _) & _). rewrite Hz. apply HR1. }
    unfold delay_of. rewrite (proj2 (Z.eqb_neq _ _) Hrt). cbn [outcome_bind].
    set (md' := if _ >? md then _ else md).
    assert (Hmd : exists m, (if l_nodelay l' then Ret md else Ret md') = Ret m).
    { destruct (l_nodelay l'); eauto. }
    destruct Hmd as [m Em]. rewrite Em. cbn [outcome_bind].
    destruct (IH m HR) as (d & ls & E' & Hls). rewrite E'. do 2 eexists. split; [reflexivity|]. by constructor.
  - destruct (IH md HR) as (d & ls & E' & Hls). rewrite E'. do 2 eexists. split; [reflexivity|]. by constructor.
Qed.

(** * The loop over the limits *)

(** How the loop ends: at its end, or at the limit where it was left. *)
Definition loop_done (now : Z) (all : list (ngx_http_limit_req_limit_t P)) (rc : Z)
    (done rest : list (ngx_http_limit_req_limit_t P)) : Prop :=
  exists odone, Forall LimitReady odone /\ Forall2 (Held now) odone done /\
  ((rest = [] /\ List.rev odone = all /\
    ((rc = NGX_DECLINED /\ Forall2 (fun l l' => l' = l /\ forall data, ~ applies l data) odone done) \/
     rc = NGX_AGAIN)) \/
   exists l l' after, rest = l' :: after /\ List.rev odone ++ l :: after = all /\ Forall LimitReady after /\
     ((rc = NGX_OK /\ Charged now l l' /\ after = []) \/
      ((rc = LIMIT_BUSY \/ rc = NGX_ERROR) /\ NotCharged l l'))).

Lemma lookup_one_ok now l data account : LimitReady l -> applies l data ->
  exists rc ex z', ngx_http_limit_req_lookup now (l_burst l) (ngx_crc32_short data) data account (l_zone l) =
      Ret (rc, ex, z') /\
    ((rc = NGX_AGAIN /\ account = false /\ Held now l (set_l_zone z' l)) \/
     (rc = NGX_OK /\ account = true /\ Charged now l (set_l_zone z' l)) \/
     ((rc = LIMIT_BUSY \/ rc = NGX_ERROR) /\ NotCharged l (set_l_zone z' l))).
Proof.
  intros HR Ha. destruct (lookup_ok now (l_burst l) data account (l_zone l) (lo_zone _ HR))
    as (rc & ex & z' & E & HZ' & Hs & _ & Hrec & _ & Hn & Hc & _).
  exists rc, ex, z'. split; [done|]. rewrite (lo_node _ HR) in Hn.
  assert (Hp : params_eq l (set_l_zone z' l)) by done.
  pose proof Hrec as [[Hrc (h & lr' & Hh & Hlr & Hnm & Hsub & Hor)]|[Hrc Hsub]].
  - destruct account; subst rc; cbn in Hn, Hc.
    + right. left. split_and!; [done|done|]. split_and!; [done|by eapply same_limit_ready|]. right.
      exists data, h, lr'. split_and!; [done..|].
      destruct Hor as [Hor| ->]; [by left|by right].
    + left. split_and!; [done|done|]. split_and!; [done|done|]. right.
      exists data, h. split_and!; [done|cbn; congruence|done|done|].
      intros a. cbn [set_l_zone l_zone]. rewrite Hc, Hh. pose proof (lo_count _ HR a) as Hb.
      destruct (bool_decide_reflect (Some h = Some a)) as [Ea|Ea].
      * injection Ea as ->. rewrite bool_decide_eq_true_2 by done. unfold wrapU. rewrite Z.mod_small; lia.
      * rewrite bool_decide_eq_false_2 by congruence. done.
  - right. right. split; [done|]. assert (Hne : (rc =? NGX_AGAIN) = false) by (by destruct Hrc as [-> | ->]).
    rewrite Hne in *. split_and!; [done| |].
    + eapply same_limit_ready; [done|done|done|done|]. intros a. cbn. by rewrite Hc.
    + intros a lr'' Hlr''. left. by eapply lookup_weaken.
Qed.

Lemma applies_dec l : {data | applies l data} +
  {forall data, ~ applies l data} .
Proof.
  destruct (l_key l) as [data|] eqn:Ek; [|right; intros data [E _]; congruence].
  destruct (decide (0 < Z.of_nat (length data) <= 65535)) as [Hl|Hl]; [left; by exists data|].
  right. intros data' [E ?]. assert (data' = data) as -> by congruence. done.
Qed.

(** A limit that does not apply is skipped. *)
Lemma limit_loop_skip now done l limits rc ex : (forall data, ~ applies l data) ->
  limit_loop now done (l :: limits) rc ex = limit_loop now (l :: done) limits rc ex.
Proof.
  intros Hno. cbn [limit_loop]. destruct (l_key l) as [data|] eqn:Ek; [|done].
  destruct ((_ =? 0) || _) eqn:E; [done|]. boolify. destruct (Hno data). split; [done|lia].
Qed.

Lemma limit_loop_applies now done l limits rc ex data : applies l data ->
  limit_loop now done (l :: limits) rc ex =
  (let! p := ngx_http_limit_req_lookup now (l_burst l) (ngx_crc32_short data) data
               (match limits with [] => true | _ => false end) (l_zone l) in
   let '(rc, excess, z) := p in
   if negb (rc =? NGX_AGAIN) then Ret (rc, excess, done, set_l_zone z l :: limits)
   else limit_loop now (set_l_zone z l :: done) limits rc excess).
Proof.
  intros [Ek Hl]. cbn [limit_loop]. rewrite Ek.
  replace ((Z.of_nat (length data) =? 0) || (Z.of_nat (length data) >? 65535)) with false by lia. done.
Qed.

Lemma limit_loop_ok now limits : forall odone done rc ex,
  Forall LimitReady limits -> Forall LimitReady odone -> Forall2 (Held now) odone done ->
  (rc = NGX_DECLINED /\ Forall2 (fun l l' => l' = l /\ forall data, ~ applies l data) odone done) \/ rc = NGX_AGAIN ->
  exists rc' ex' done' rest', limit_loop now done limits rc ex = Ret (rc', ex', done', rest') /\
    loop_done now (List.rev odone ++ limits) rc' done' rest'.
Proof.
  induction limits as [|l limits IH]; intros odone done rc ex HR HO HH Hrc.
  { exists rc, ex, done, []. split; [done|]. exists odone. split_and!; [done|done|]. left. by rewrite app_nil_r. }
  apply Forall_cons in HR as [HRl HR].
  assert (Eall : List.rev odone ++ l :: limits = List.rev (l :: odone) ++ limits) by (cbn; by rewrite <- app_assoc).
  destruct (applies_dec l) as [[data Ha]|Hno].
  - rewrite (limit_loop_applies _ _ _ _ _ _ data Ha).
    destruct (lookup_one_ok now l data (match limits with [] => true | _ => false end) HRl Ha)
      as (rc1 & ex1 & z1 & E & Hcase). rewrite E. cbn [outcome_bind].
    destruct Hcase as [(-> & _ & Hheld)|Hcase]; cbn [negb Z.eqb NGX_AGAIN].
    + rewrite Eall. apply (IH (l :: odone)); [done|by constructor|by constructor|by right].
    + assert (Hne : (rc1 =? NGX_AGAIN) = false) by (by destruct Hcase as [(-> & _)|[[-> | ->] _]]).
      rewrite Hne. cbn [negb]. do 4 eexists. split; [reflexivity|]. exists odone. split_and!; [done|done|]. right.
      exists l, (set_l_zone z1 l), limits. split_and!; [done|done|done|].
      destruct Hcase as [(-> & Hacc & Hch)|Hcase]; [left|by right]. split_and!; [done|done|]. by destruct limits.
  - rewrite limit_loop_skip by done. rewrite Eall.
    apply (IH (l :: odone)); [done|by constructor| |].
    + constructor; [|done]. split_and!; [done|apply HRl|by left].
    + destruct Hrc as [[-> Hsk]| ->]; [left|by right]. split; [done|]. by constructor.
Qed.

Lemma Forall2_rev {A B} (R : A -> B -> Prop) (xs : list A) (ys : list B) :
  Forall2 R xs ys -> Forall2 R (List.rev xs) (List.rev ys).
Proof. induction 1; cbn; [constructor|]. apply Forall2_app; [done|by repeat constructor]. Qed.

Lemma not_charged_refl l : LimitReady l -> NotCharged l l.
Proof. intros HR. split_and!; [done|done|]. by left. Qed.


End Handler.

(** * Two limits *)

Definition limits0 : list (ngx_http_limit_req_limit_t SetPool) :=
  [MkLimit zone0 1000 false (Some [97]); MkLimit zone0 0 true (Some [98])].

Lemma limits0_ready : Forall LimitReady limits0.
Proof.
  destruct (init_zone_ok _ _ _ _ _ zone0_new) as (HZ & _ & Hc & Hr & Hn).
  assert (Hl : forall b nd k, LimitReady (MkLimit zone0 b nd k)).
  { intros b nd k. split; [done|done|cbn; lia|]. intros a. cbn. rewrite Hc. lia. }
  constructor; [done|]. constructor; [done|constructor].
Qed.


(** The second request is refused by the second limit, and the first limit does
    not charge it. *)
Example limits0_twice :
  (let! p := ngx_http_limit_req_handler 1000 false limits0 in
   let! q := ngx_http_limit_req_handler 1000 false p.2 in
   Ret (p.1.1, q.1.1, map (fun l => map lr_excess (entries (l_zone l))) q.2)) =
  Ret (Pass, Refuse 503, [[0]; [0]]).
Proof. vm_compute. reflexivity. Qed.

End LimitReqHandler.
