(* ===== verification/NgxRoundRobin.v ===== *)
(** The choice of an upstream server: src/http/ngx_http_upstream_round_robin.c.

    The peers are shared by the requests of a worker; a request keeps which
    group it takes its peers from, the peer it got and the bits of the peers it
    tried.  The group of a request is a pointer into the configuration, so it is
    kept as the name of the group ([Primary] or [Backup]).  The time is an
    argument.  Allocation succeeds.  An access outside the array of the tried
    bits is [Undefined]. *)

From S2P Require Import Prelude NgxSort.

Module RoundRobin.

(** * Data *)

Definition NGX_PEER_FAILED : Z := 4.

(** The address and the name of a peer are kept together. *)
Record ngx_http_upstream_rr_peer_t := MkPeer {
  sockaddr : list Z;
  current_weight : Z; effective_weight : Z; weight : Z;
  fails : Z; accessed : Z; checked : Z;
  max_fails : Z; fail_timeout : Z; down : bool }.

Definition peer_eta (p : ngx_http_upstream_rr_peer_t) : ngx_http_upstream_rr_peer_t :=
  MkPeer (sockaddr p) (current_weight p) (effective_weight p) (weight p) (fails p) (accessed p)
    (checked p) (max_fails p) (fail_timeout p) (down p).

Definition set_current_weight v p := ltac:(record_set peer_eta current_weight v p).
Definition set_effective_weight v p := ltac:(record_set peer_eta effective_weight v p).
Definition set_fails v p := ltac:(record_set peer_eta fails v p).
Definition set_accessed v p := ltac:(record_set peer_eta accessed v p).
Definition set_checked v p := ltac:(record_set peer_eta checked v p).

(** [cached] has the last_cached connections, the last one first. *)
Record ngx_http_upstream_rr_peers_t := MkPeers {
  cached : list Z; total_weight : Z; single : bool; weighted : bool; host : list Z;
  peer : list ngx_http_upstream_rr_peer_t }.

Definition peers_eta (p : ngx_http_upstream_rr_peers_t) : ngx_http_upstream_rr_peers_t :=
  MkPeers (cached p) (total_weight p) (single p) (weighted p) (host p) (peer p).

Definition set_cached v p := ltac:(record_set peers_eta cached v p).
Definition set_single v p := ltac:(record_set peers_eta single v p).
Definition set_peer v p := ltac:(record_set peers_eta peer v p).

Definition number (p : ngx_http_upstream_rr_peers_t) : Z := Z.of_nat (length (peer p)).

(** The peers of an upstream and its backup peers (peers->next). *)
Record upstream := MkUpstream {
  primary : ngx_http_upstream_rr_peers_t; backup : option ngx_http_upstream_rr_peers_t }.

Inductive group := Primary | Backup.

Definition peers_of (g : group) (u : upstream) : option ngx_http_upstream_rr_peers_t :=
  match g with Primary => Some (primary u) | Backup => backup u end.

Definition set_peers (g : group) (p : ngx_http_upstream_rr_peers_t) (u : upstream) : upstream :=
  match g with
  | Primary => MkUpstream p (backup u)
  | Backup => MkUpstream (primary u) (Some p)
  end.

(** peers->next of a group. *)
Definition next (g : group) (u : upstream) : option ngx_http_upstream_rr_peers_t :=
  match g with Primary => backup u | Backup => None end.

Record ngx_http_upstream_rr_peer_data_t := MkRrp {
  rr_group : group; current : nat; tried : list Z }.

(** The fields of the peer connection that change: a cached connection, the
    address, the name and the number of tries left. *)
Record ngx_peer_connection_t := MkPc {
  connection : option Z; pc_cached : bool; pc_sockaddr : list Z; pc_name : list Z; tries : Z }.

(** * Configuration *)

Record ngx_http_upstream_server_t := MkServer {
  addrs : list (list Z); srv_weight : Z; srv_max_fails : Z; srv_fail_timeout : Z;
  srv_down : bool; srv_backup : bool }.

Definition ngx_http_upstream_cmp_servers (first second : ngx_http_upstream_rr_peer_t) : Z :=
  if weight first <? weight second then 1 else 0.

Definition server_peers (s : ngx_http_upstream_server_t) : list ngx_http_upstream_rr_peer_t :=
  map (fun a => MkPeer a 0 (srv_weight s) (srv_weight s) 0 0 0 (srv_max_fails s)
                  (srv_fail_timeout s) (srv_down s)) (addrs s).

(** The peers of the servers that are backup servers or are not; n and w of
    the code are their number and the sum of their weights. *)
Definition server_group (host : list Z) (servers : list ngx_http_upstream_server_t) (is_backup : bool)
    : option ngx_http_upstream_rr_peers_t :=
  let servers := filter (fun s => srv_backup s = is_backup) servers in
  let n := fold_left (fun n s => wrapU 64 (n + Z.of_nat (length (addrs s)))) servers 0 in
  let w := fold_left (fun w s => wrapU 64 (w + Z.of_nat (length (addrs s)) * srv_weight s)) servers 0 in
  if n =? 0 then None
  else Some (MkPeers [] w (n =? 1) (negb (w =? n)) host
               (ngx_sort ngx_http_upstream_cmp_servers (flat_map server_peers servers))).

(** The branch of an upstream block; [None] is NGX_ERROR. *)
Definition init_servers (host : list Z) (servers : list ngx_http_upstream_server_t) : option upstream :=
  match server_group host servers false with
  | None => None
  | Some peers =>
    match server_group host servers true with
    | None => Some (MkUpstream peers None)
    | Some backup => Some (MkUpstream (set_single false peers) (Some (set_single false backup)))
    end
  end.

(** The peers of an implicit upstream, and those of a name resolved at run
    time. *)
Definition implicit_peer (a : list Z) : ngx_http_upstream_rr_peer_t :=
  MkPeer a 0 1 1 0 0 0 1 10 false.

(** [resolved]: the addresses that ngx_inet_resolve_host gives for the host
    and the port, which are given by the caller. *)
Definition ngx_http_upstream_init_round_robin (host : list Z)
    (servers : option (list ngx_http_upstream_server_t)) (port default_port : Z)
    (resolved : option (list (list Z))) : option upstream :=
  match servers with
  | Some servers => init_servers host servers
  | None =>
    if (port =? 0) && (default_port =? 0) then None
    else
      match resolved with
      | None => None
      | Some l =>
        let n := Z.of_nat (length l) in
        Some (MkUpstream (MkPeers [] n (n =? 1) false host (map implicit_peer l)) None)
      end
  end.

(** * Requests *)

(** The words of the tried bits of [n] peers. *)
Definition tried_words (n : Z) : list Z :=
  if n <=? 64 then [0] else repeat 0 (Z.to_nat ((n + 63) / 64)).

Definition ngx_http_upstream_init_round_robin_peer (u : upstream) (pc : ngx_peer_connection_t)
    : ngx_http_upstream_rr_peer_data_t * ngx_peer_connection_t :=
  let n := number (primary u) in
  let n := match backup u with
           | Some b => if number b >? n then number b else n
           | None => n
           end in
  (MkRrp Primary 0 (tried_words n),
   MkPc (connection pc) (pc_cached pc) (pc_sockaddr pc) (pc_name pc) (number (primary u))).

(** A host given by its address, or the addresses it was resolved to with
    their names; peers->total_weight and peers->weighted stay 0. *)
Definition ngx_http_upstream_create_round_robin_peer (host : list Z) (addrs : list (list Z))
    (pc : ngx_peer_connection_t)
    : upstream * ngx_http_upstream_rr_peer_data_t * ngx_peer_connection_t :=
  let peers := MkPeers [] 0 (Z.of_nat (length addrs) =? 1) false host (map implicit_peer addrs) in
  (MkUpstream peers None, MkRrp Primary 0 (tried_words (number peers)),
   MkPc (connection pc) (pc_cached pc) (pc_sockaddr pc) (pc_name pc) (number peers)).

(** The bit of peer [i]: rrp->tried[n] & m. *)
Definition tried_bit (tried : list Z) (i : nat) : bool :=
  negb (Z.land (nth (i / 64) tried 0) (Z.shiftl 1 (Z.of_nat (i mod 64))) =? 0).

(** rrp->tried[n] |= m. *)
Definition set_tried (tried : list Z) (i : nat) : list Z :=
  <[(i / 64)%nat := Z.lor (nth (i / 64) tried 0) (Z.shiftl 1 (Z.of_nat (i mod 64)))]> tried.

(** The guards of the loop: the peer is not passed over. *)
Definition usable (tried : list Z) (now : Z) (i : nat) (p : ngx_http_upstream_rr_peer_t) : bool :=
  negb (tried_bit tried i) && negb (down p)
  && negb (negb (max_fails p =? 0) && (fails p >=? max_fails p)
           && (now - checked p <=? fail_timeout p)).

(** A peer that is not passed over, in the loop. *)
Definition weigh (p : ngx_http_upstream_rr_peer_t) : ngx_http_upstream_rr_peer_t :=
  let p := set_current_weight (wrapS 64 (current_weight p + effective_weight p)) p in
  if effective_weight p <? weight p then set_effective_weight (effective_weight p + 1) p else p.

(** The loop from peer [i] on; [best] is the index and the current weight of
    the best peer so far. *)
Fixpoint peer_loop (tried : list Z) (now : Z) (i : nat) (ps : list ngx_http_upstream_rr_peer_t)
    (best : option (nat * Z)) (total : Z)
    : list ngx_http_upstream_rr_peer_t * option (nat * Z) * Z :=
  match ps with
  | [] => ([], best, total)
  | p :: ps =>
    if usable tried now i p then
      let p' := weigh p in
      let best := match best with
                  | None => Some (i, current_weight p')
                  | Some (_, w) => if current_weight p' >? w then Some (i, current_weight p') else best
                  end in
      let '(ps, best, total) :=
        peer_loop tried now (S i) ps best (wrapS 64 (total + effective_weight p)) in
      (p' :: ps, best, total)
    else
      let '(ps, best, total) := peer_loop tried now (S i) ps best total in
      (p :: ps, best, total)
  end.

(** The result is the index of the peer. *)
Definition ngx_http_upstream_get_peer (now : Z) (peers : ngx_http_upstream_rr_peers_t)
    (rrp : ngx_http_upstream_rr_peer_data_t)
    : outcome (ngx_http_upstream_rr_peers_t * ngx_http_upstream_rr_peer_data_t * option nat) :=
  if number peers >? 64 * Z.of_nat (length (tried rrp)) then Undefined
  else
    let '(ps, best, total) := peer_loop (tried rrp) now 0 (peer peers) None 0 in
    match best with
    | None => Ret (set_peer ps peers, rrp, None)
    | Some (i, _) =>
      Ret (set_peer (alter (fun p => set_checked now
                       (set_current_weight (wrapS 64 (current_weight p - total)) p)) i ps) peers,
           MkRrp (rr_group rrp) i (set_tried (tried rrp) i), Some i)
    end.

(** rrp->tried[i] = 0 for the words of [n] peers. *)
Definition clear_tried (n : Z) (tried : list Z) : outcome (list Z) :=
  let words := Z.to_nat ((n + 63) / 64) in
  if (length tried <? words)%nat then Undefined
  else Ret (repeat 0 words ++ drop words tried).

Definition rr_state : Type := upstream * ngx_http_upstream_rr_peer_data_t * ngx_peer_connection_t.

(** Up to the label failed: the group has a cached connection or a peer. *)
Definition try_group (now : Z) (g : group) (peers : ngx_http_upstream_rr_peers_t)
    (s : rr_state) : outcome (rr_state * bool) :=
  let '(u, rrp, pc) := s in
  match cached peers with
  | c :: rest =>
    Ret (set_peers g (set_cached rest peers) u, rrp,
         MkPc (Some c) true (pc_sockaddr pc) (pc_name pc) (tries pc), true)
  | [] =>
    let pc := MkPc None false (pc_sockaddr pc) (pc_name pc) (tries pc) in
    let! (peers, rrp, got) :=
      (if single peers then
         match peer peers with
         | [] => Undefined
         | p :: _ => Ret (peers, rrp, if down p then None else Some 0%nat)
         end
       else ngx_http_upstream_get_peer now peers rrp) in
    let u := set_peers g peers u in
    match got with
    | None => Ret (u, rrp, pc, false)
    | Some i =>
      match peer peers !! i with
      | None => Undefined
      | Some p =>
        let tries := match next g u with
                     | Some b => if tries pc =? 1 then wrapU 64 (tries pc + number b) else tries pc
                     | None => tries pc
                     end in
        Ret (u, rrp, MkPc (connection pc) (pc_cached pc) (sockaddr p) (sockaddr p) tries, true)
      end
    end
  end.

(** All peers of a group failed: they are marked as live, and NGX_BUSY. *)
Definition all_failed (g : group) (s : rr_state) : rr_state :=
  let '(u, rrp, pc) := s in
  match peers_of g u with
  | None => s
  | Some peers =>
    (set_peers g (set_peer (map (set_fails 0) (peer peers)) peers) u, rrp,
     MkPc (connection pc) (pc_cached pc) (pc_sockaddr pc) (host peers) (tries pc))
  end.

(** The call for the backup peers, which have no peers->next. *)
Definition get_backup_peer (now : Z) (s : rr_state) : outcome (rr_state * Z) :=
  let '(u, rrp, pc) := s in
  match backup u with
  | None => Ret (s, NGX_BUSY)
  | Some b =>
    let! (s, ok) := try_group now Backup b s in
    if (ok : bool) then Ret (s, NGX_OK) else Ret (all_failed Backup s, NGX_BUSY)
  end.

Definition ngx_http_upstream_get_round_robin_peer (now : Z) (s : rr_state) : outcome (rr_state * Z) :=
  let '(u, rrp, pc) := s in
  match rr_group rrp with
  | Backup => get_backup_peer now s
  | Primary =>
    let! (s, ok) := try_group now Primary (primary u) s in
    if (ok : bool) then Ret (s, NGX_OK)
    else
      let '(u, rrp, pc) := s in
      match backup u with
      | None => Ret (all_failed Primary s, NGX_BUSY)
      | Some b =>
        let! tried := clear_tried (number b) (tried rrp) in
        let! (s, rc) := get_backup_peer now
          (u, MkRrp Backup (current rrp) tried,
           MkPc (connection pc) (pc_cached pc) (pc_sockaddr pc) (pc_name pc) (number b)) in
        if rc =? NGX_BUSY then Ret (all_failed Primary s, NGX_BUSY) else Ret (s, rc)
      end
  end.

(** The peer of a request that failed. *)
Definition peer_failed (now : Z) (p : ngx_http_upstream_rr_peer_t) : ngx_http_upstream_rr_peer_t :=
  let p := set_checked now (set_accessed now (set_fails (wrapU 64 (fails p + 1)) p)) in
  let p := if negb (max_fails p =? 0)
           then set_effective_weight
                  (wrapS 64 (effective_weight p - wrapU 64 (weight p) / max_fails p)) p
           else p in
  if effective_weight p <? 0 then set_effective_weight 0 p else p.

Definition peer_succeeded (p : ngx_http_upstream_rr_peer_t) : ngx_http_upstream_rr_peer_t :=
  if accessed p <? checked p then set_fails 0 p else p.

Definition ngx_http_upstream_free_round_robin_peer (now state : Z) (s : rr_state) : outcome rr_state :=
  let '(u, rrp, pc) := s in
  match peers_of (rr_group rrp) u with
  | None => Undefined
  | Some peers =>
    if single peers then
      Ret (u, rrp, MkPc (connection pc) (pc_cached pc) (pc_sockaddr pc) (pc_name pc) 0)
    else
      match peer peers !! current rrp with
      | None => Undefined
      | Some p =>
        let p := if negb (Z.land state NGX_PEER_FAILED =? 0) then peer_failed now p
                 else peer_succeeded p in
        Ret (set_peers (rr_group rrp) (set_peer (<[current rrp := p]> (peer peers)) peers) u, rrp,
             MkPc (connection pc) (pc_cached pc) (pc_sockaddr pc) (pc_name pc)
               (if tries pc =? 0 then 0 else tries pc - 1))
      end
  end.

End RoundRobin.

Import RoundRobin.

(** * The tried bits *)

Lemma land_bit w k : 0 <= k -> negb (Z.land w (Z.shiftl 1 k) =? 0) = Z.testbit w k.
Proof.
  intros Hk. rewrite Z.shiftl_1_l. destruct (Z.testbit w k) eqn:Hb.
  - apply negb_true_iff, Z.eqb_neq. intros H. apply (f_equal (fun z => Z.testbit z k)) in H.
    rewrite Z.land_spec, Hb, Z.pow2_bits_true, Z.bits_0 in H by done. done.
  - apply negb_false_iff, Z.eqb_eq. apply Z.bits_inj'. intros i Hi. rewrite Z.land_spec, Z.bits_0.
    destruct (Z.eq_dec i k) as [->|Hne]; [by rewrite Hb|]. rewrite Z.pow2_bits_false by done. by rewrite andb_false_r.
Qed.

Lemma tried_bit_test tried i :
  tried_bit tried i = Z.testbit (nth (i / 64) tried 0) (Z.of_nat (i mod 64)).
Proof. apply land_bit. lia. Qed.

Lemma tried_bit_set tried i j :
  (i < 64 * length tried)%nat ->
  tried_bit (set_tried tried i) j = bool_decide (i = j) || tried_bit tried j.
Proof.
  intros Hi. assert (i / 64 < length tried)%nat as Hw by (apply Nat.Div0.div_lt_upper_bound; lia).
  rewrite !tried_bit_test. unfold set_tried.
  pose proof (Nat.div_mod_eq i 64) as Di. pose proof (Nat.div_mod_eq j 64) as Dj.
  assert (forall l n, nth n l 0 = default 0 (l !! n)) as Hnth
    by (intros l n; rewrite nth_lookup; done).
  destruct (decide (i / 64 = j / 64)%nat) as [He|He].
  - rewrite Hnth, He, list_lookup_insert_eq by lia. cbn [from_option id]. rewrite Z.lor_spec, Z.shiftl_1_l, orb_comm. f_equal.
    destruct (decide (i = j)) as [->|Hne]; [by rewrite Z.pow2_bits_true, bool_decide_true by lia|].
    rewrite bool_decide_false, Z.pow2_bits_false by lia. done.
  - rewrite bool_decide_false by (intros ->; done). cbn [orb]. f_equal.
    by rewrite !Hnth, list_lookup_insert_ne.
Qed.

Lemma length_set_tried tried i : length (set_tried tried i) = length tried.
Proof. apply length_insert. Qed.

Lemma tried_bit_zeros n j rest : (j < 64 * n)%nat -> tried_bit (repeat 0 n ++ rest) j = false.
Proof.
  intros Hj. rewrite tried_bit_test. assert (j / 64 < n)%nat by (apply Nat.Div0.div_lt_upper_bound; lia).
  rewrite app_nth1 by (rewrite repeat_length; lia). rewrite nth_repeat. apply Z.bits_0.
Qed.

(** Enough words, all clear. *)
Lemma tried_words_spec n : 0 <= n ->
  n <= 64 * Z.of_nat (length (tried_words n)) /\ forall j, Z.of_nat j < n -> tried_bit (tried_words n) j = false.
Proof.
  intros Hn. unfold tried_words. case_if E; boolify.
  - split; [cbn; lia|]. intros j Hj. apply (tried_bit_zeros 1 j []). lia.
  - pose proof (Z.div_mod (n + 63) 64 ltac:(lia)). pose proof (Z.mod_pos_bound (n + 63) 64 ltac:(lia)).
    rewrite repeat_length, Z2Nat.id by (apply Z.div_pos; lia). split; [lia|]. intros j Hj.
    rewrite <- (app_nil_r (repeat _ _)). apply tried_bit_zeros. lia.
Qed.

Lemma clear_tried_spec n tried :
  0 <= n <= 64 * Z.of_nat (length tried) ->
  exists tried', clear_tried n tried = Ret tried' /\ length tried' = length tried /\
    forall j, Z.of_nat j < n -> tried_bit tried' j = false.
Proof.
  intros Hn. unfold clear_tried.
  pose proof (Z.div_mod (n + 63) 64 ltac:(lia)) as Hd. pose proof (Z.mod_pos_bound (n + 63) 64 ltac:(lia)).
  assert (0 <= (n + 63) / 64) by (apply Z.div_pos; lia).
  destruct (Nat.ltb_spec (length tried) (Z.to_nat ((n + 63) / 64))); [lia|].
  eexists. split; [done|]. split; [rewrite length_app, repeat_length, length_drop; lia|].
  intros j Hj. apply tried_bit_zeros. lia.
Qed.

(** * The loop *)

(** The peers after the loop. *)
Fixpoint weigh_all (tried : list Z) (now : Z) (i : nat) (ps : list ngx_http_upstream_rr_peer_t)
    : list ngx_http_upstream_rr_peer_t :=
  match ps with
  | [] => []
  | p :: ps => (if usable tried now i p then weigh p else p) :: weigh_all tried now (S i) ps
  end.

(** The weights that total adds up. *)
Fixpoint usable_weights (tried : list Z) (now : Z) (i : nat) (ps : list ngx_http_upstream_rr_peer_t) : list Z :=
  match ps with
  | [] => []
  | p :: ps =>
    (if usable tried now i p then [effective_weight p] else []) ++ usable_weights tried now (S i) ps
  end.

Definition zsum (l : list Z) : Z := foldr Z.add 0 l.

Lemma zsum_app l k : zsum (l ++ k) = zsum l + zsum k.
Proof. induction l as [|x l IH]; cbn [app zsum foldr]; [done|]. fold (zsum (l ++ k)) (zsum l). lia. Qed.

Lemma wrapS_add_l w a b : wrapS w (wrapS w a + b) = wrapS w (a + b).
Proof.
  unfold wrapS. f_equal.
  replace ((a + 2 ^ (w - 1)) mod 2 ^ w - 2 ^ (w - 1) + b + 2 ^ (w - 1))
    with ((a + 2 ^ (w - 1)) mod 2 ^ w + b) by lia.
  rewrite Zplus_mod_idemp_l. f_equal. lia.
Qed.

Lemma length_weigh_all tried now i ps : length (weigh_all tried now i ps) = length ps.
Proof. revert i. induction ps; intros i; cbn [weigh_all length]; auto. Qed.

Lemma lookup_weigh_all tried now i ps j :
  weigh_all tried now i ps !! j = (fun p => if usable tried now (i + j) p then weigh p else p) <$> ps !! j.
Proof.
  revert i j. induction ps as [|p ps IH]; intros i [|j]; cbn [weigh_all lookup list_lookup fmap option_fmap option_map]; try done.
  - by rewrite Nat.add_0_r.
  - rewrite IH. by replace (S i + j)%nat with (i + S j)%nat by lia.
Qed.

(** A peer that is weighed at position [j] of the peers from [i] on. *)
Definition candidate (tried : list Z) (now : Z) (i : nat) (ps : list ngx_http_upstream_rr_peer_t) (j : nat) (w : Z) : Prop :=
  exists p, ps !! j = Some p /\ usable tried now (i + j) p = true /\ w = current_weight (weigh p).

Lemma candidate_cons tried now i p ps j w :
  candidate tried now i (p :: ps) j w <->
  (j = 0%nat /\ usable tried now i p = true /\ w = current_weight (weigh p)) \/
  (exists j', j = S j' /\ candidate tried now (S i) ps j' w).
Proof.
  unfold candidate. split.
  - intros (q & Hq & Hu & Hw). destruct j as [|j]; cbn in Hq.
    + injection Hq as ->. rewrite Nat.add_0_r in Hu. left. done.
    + right. exists j. split; [done|]. exists q. replace (S i + j)%nat with (i + S j)%nat by lia. done.
  - intros [(-> & Hu & Hw)|(j' & -> & q & Hq & Hu & Hw)].
    + exists p. rewrite Nat.add_0_r. done.
    + exists q. replace (i + S j')%nat with (S i + j')%nat by lia. done.
Qed.

Lemma peer_loop_spec tried now i ps best total :
  exists best',
    peer_loop tried now i ps best (wrapS 64 total) =
      (weigh_all tried now i ps, best', wrapS 64 (total + zsum (usable_weights tried now i ps))) /\
    (forall j w, candidate tried now i ps j w -> exists k v, best' = Some (k, v) /\ w <= v) /\
    (forall k v, best = Some (k, v) -> exists k' v', best' = Some (k', v') /\ v <= v') /\
    (forall k v, best' = Some (k, v) ->
       best = Some (k, v) \/ exists j, k = (i + j)%nat /\ candidate tried now i ps j v).
Proof.
  revert i best total. induction ps as [|p ps IH]; intros i best total.
  { exists best. cbn. rewrite Z.add_0_r. split_and!; [done| |by eauto using Z.le_refl|auto].
    intros j w (q & Hq & _). done. }
  cbn [peer_loop weigh_all usable_weights]. destruct (usable tried now i p) eqn:Hu.
  - set (b := match best with None => _ | Some _ => _ end).
    rewrite wrapS_add_l. destruct (IH (S i) b (total + effective_weight p)) as (best' & -> & H1 & H2 & H3).
    exists best'. split_and!.
    + rewrite zsum_app. cbn [zsum foldr]. do 2 f_equal. lia.
    + intros j w [(-> & _ & ->)|(j' & -> & Hc)]%candidate_cons; [|by eauto].
      destruct best as [[k0 v0]|]; subst b; [|by eapply H2].
      destruct (Z.gtb_spec (current_weight (weigh p)) v0) as [Hg|Hg]; [by eapply H2|].
      destruct (H2 k0 v0 eq_refl) as (k & v & -> & ?). exists k, v. split; [done|lia].
    + intros k v ->. subst b. destruct (Z.gtb_spec (current_weight (weigh p)) v) as [Hg|Hg].
      * destruct (H2 _ _ eq_refl) as (k' & v' & -> & ?). exists k', v'. split; [done|lia].
      * by eapply H2.
    + intros k v Hb. destruct (H3 k v Hb) as [Hbb|(j & -> & Hc)].
      * subst b. destruct best as [[k0 v0]|]; [destruct (current_weight (weigh p) >? v0)|].
        1, 3: right; injection Hbb as <- <-; exists 0%nat; split; [lia|]; apply candidate_cons; by left.
        by left.
      * right. exists (S j). split; [lia|]. apply candidate_cons. right. eauto.
  - destruct (IH (S i) best total) as (best' & -> & H1 & H2 & H3). exists best'. split_and!; try done.
    + intros j w [(-> & Hu' & _)|(j' & -> & Hc)]%candidate_cons; [congruence|by eauto].
    + intros k v Hb. destruct (H3 k v Hb) as [Hbb|(j & -> & Hc)]; [by left|].
      right. exists (S j). split; [lia|]. apply candidate_cons. right. eauto.
Qed.

(** * One choice *)

(** What the chosen peer is charged. *)
Definition charge (now total : Z) (p : ngx_http_upstream_rr_peer_t) : ngx_http_upstream_rr_peer_t :=
  set_checked now (set_current_weight (wrapS 64 (current_weight p - total)) p).

Definition weights_sum (ps : list ngx_http_upstream_rr_peer_t) : Z := wrapS 64 (zsum (map current_weight ps)).

Lemma weigh_all_unusable tried now i ps :
  (forall j w, ~ candidate tried now i ps j w) -> weigh_all tried now i ps = ps.
Proof.
  revert i. induction ps as [|p ps IH]; intros i H; [done|]. cbn [weigh_all].
  destruct (usable tried now i p) eqn:Hu.
  - exfalso. apply (H 0%nat (current_weight (weigh p))). apply candidate_cons. by left.
  - rewrite IH; [done|]. intros j w Hc. apply (H (S j) w). apply candidate_cons. right. eauto.
Qed.

Lemma current_weight_weigh p : current_weight (weigh p) = wrapS 64 (current_weight p + effective_weight p).
Proof. unfold weigh. case_if E; done. Qed.

Lemma weights_sum_cons p ps : weights_sum (p :: ps) = wrapS 64 (current_weight p + weights_sum ps).
Proof. unfold weights_sum. cbn [map zsum foldr]. fold (zsum (map current_weight ps)). rewrite Z.add_comm, <- (wrapS_add_l 64), Z.add_comm. done. Qed.

Lemma wrapS_add_r w a b : wrapS w (a + wrapS w b) = wrapS w (a + b).
Proof. rewrite Z.add_comm, wrapS_add_l. f_equal. lia. Qed.

(** Weighing adds the total to the sum of the weights. *)
Lemma weigh_all_sum tried now i ps :
  weights_sum (weigh_all tried now i ps) = wrapS 64 (weights_sum ps + zsum (usable_weights tried now i ps)).
Proof.
  revert i. induction ps as [|p ps IH]; intros i.
  { cbn [weigh_all usable_weights zsum foldr]. unfold weights_sum. rewrite wrapS_add_l, Z.add_0_r. done. }
  cbn [weigh_all usable_weights]. rewrite !weights_sum_cons, IH, zsum_app.
  destruct (usable tried now i p); [rewrite current_weight_weigh|];
    cbn [zsum foldr]; rewrite !wrapS_add_l, wrapS_add_r; f_equal; lia.
Qed.

(** Charging takes it off again. *)
Lemma charge_sum now total ps i :
  (i < length ps)%nat ->
  weights_sum (alter (charge now total) i ps) = wrapS 64 (weights_sum ps - total).
Proof.
  revert i. induction ps as [|p ps IH]; intros i Hi; [cbn in Hi; lia|].
  destruct i as [|i]; cbn [alter list_alter].
  - rewrite !weights_sum_cons. change (current_weight (charge now total p)) with (wrapS 64 (current_weight p - total)).
    rewrite wrapS_add_l. change (wrapS 64 (current_weight p + weights_sum ps) - total)
      with (wrapS 64 (current_weight p + weights_sum ps) + - total). rewrite wrapS_add_l. f_equal. lia.
  - rewrite !weights_sum_cons. change (alter (charge now total) i ps) with (alter (charge now total) i ps).
    rewrite (IH i) by (cbn in Hi; lia). rewrite wrapS_add_r.
    change (wrapS 64 (current_weight p + weights_sum ps) - total)
      with (wrapS 64 (current_weight p + weights_sum ps) + - total). rewrite wrapS_add_l. f_equal. lia.
Qed.

Definition chosen (now : Z) (peers : ngx_http_upstream_rr_peers_t) (rrp : ngx_http_upstream_rr_peer_data_t)
    (i : nat) : Prop :=
  exists p, peer peers !! i = Some p /\ usable (tried rrp) now i p = true /\
    forall j q, peer peers !! j = Some q -> usable (tried rrp) now j q = true ->
      current_weight (weigh q) <= current_weight (weigh p).

Lemma get_peer_spec now peers rrp :
  number peers <= 64 * Z.of_nat (length (tried rrp)) ->
  match ngx_http_upstream_get_peer now peers rrp with
  | Ret (peers', rrp', None) =>
    peers' = peers /\ rrp' = rrp /\
    forall i p, peer peers !! i = Some p -> usable (tried rrp) now i p = false
  | Ret (peers', rrp', Some i) =>
    chosen now peers rrp i /\
    peers' = set_peer (alter (charge now (wrapS 64 (zsum (usable_weights (tried rrp) now 0 (peer peers))))) i
                         (weigh_all (tried rrp) now 0 (peer peers))) peers /\
    rrp' = MkRrp (rr_group rrp) i (set_tried (tried rrp) i)
  | _ => False
  end.
Proof.
  intros Hn. unfold ngx_http_upstream_get_peer.
  destruct (Z.gtb_spec (number peers) (64 * Z.of_nat (length (tried rrp)))); [lia|].
  destruct (peer_loop_spec (tried rrp) now 0 (peer peers) None 0) as (best & Hl & H1 & _ & H3).
  change (wrapS 64 0) with 0 in Hl. rewrite Hl, Z.add_0_l. destruct best as [[i v]|].
  - destruct (H3 i v eq_refl) as [|(j & -> & p & Hp & Hu & ->)]; [done|]. split_and!; try done.
    exists p. split_and!; try done. intros k q Hq Huq.
    destruct (H1 k (current_weight (weigh q))) as (k' & v' & [= <- <-] & Hle); [by exists q|done].
  - assert (forall j w, ~ candidate (tried rrp) now 0 (peer peers) j w) as Hno.
    { intros j w Hc. by destruct (H1 j w Hc) as (? & ? & ? & _). }
    rewrite weigh_all_unusable by done. split_and!; [by destruct peers|done|].
    intros i p Hp. destruct (usable (tried rrp) now i p) eqn:Hu; [|done]. exfalso. eapply (Hno i). by exists p.
Qed.

(** * Well-formed peers *)

Record peer_ok (p : ngx_http_upstream_rr_peer_t) : Prop := PeerOk {
  ok_effective : 0 <= effective_weight p <= weight p; ok_weight : weight p < 2 ^ 63;
  ok_fails : 0 <= fails p < 2 ^ 64; ok_max_fails : 0 <= max_fails p < 2 ^ 64 }.

Lemma weigh_ok p : peer_ok p -> peer_ok (weigh p).
Proof. intros []. unfold weigh. case_if E; constructor; cbn in *; boolify; lia. Qed.

Lemma charge_ok now total p : peer_ok p -> peer_ok (charge now total p).
Proof. intros []. by constructor. Qed.

Lemma peer_failed_ok now p : peer_ok p -> peer_ok (peer_failed now p).
Proof.
  intros [He Hw Hf Hm]. unfold peer_failed. pose proof (wrapU_range 64 (fails p + 1) ltac:(lia)).
  destruct (Z.eqb_spec (max_fails p) 0) as [E|E]; cbn [negb max_fails set_checked set_accessed set_fails];
    rewrite ?(proj2 (Z.eqb_eq _ _) E), ?(proj2 (Z.eqb_neq _ _) E); cbn [negb].
  - case_if E'; cbn in E'; boolify; constructor; cbn; lia.
  - assert (0 <= wrapU 64 (weight p) / max_fails p <= weight p) as Hq.
    { rewrite wrapU_small by lia. split; [apply Z.div_pos; lia|].
      apply Z.div_le_upper_bound; nia. }
    assert (wrapS 64 (effective_weight p - wrapU 64 (weight p) / max_fails p)
            = effective_weight p - wrapU 64 (weight p) / max_fails p) as Hs by (apply wrapS_small; lia).
    cbn [effective_weight weight max_fails set_checked set_accessed set_fails] in *.
    case_if E'; cbn in E'; boolify; constructor; cbn; rewrite ?Hs in *; lia.
Qed.

Lemma peer_succeeded_ok p : peer_ok p -> peer_ok (peer_succeeded p).
Proof. intros []. unfold peer_succeeded. case_if E; constructor; cbn; lia. Qed.

Lemma peer_failed_weight now p : current_weight (peer_failed now p) = current_weight p.
Proof. unfold peer_failed. case_if E; case_if E'; done. Qed.

Lemma peer_succeeded_weight p : current_weight (peer_succeeded p) = current_weight p.
Proof. unfold peer_succeeded. by case_if E. Qed.

Lemma set_fails_ok p : peer_ok p -> peer_ok (set_fails 0 p).
Proof. intros []. constructor; cbn; lia. Qed.

(** A group: well-formed peers whose current weights sum up to 0 (mod 2^64). *)
Record group_ok (g : ngx_http_upstream_rr_peers_t) : Prop := GroupOk {
  g_peers : Forall peer_ok (peer g); g_sum : weights_sum (peer g) = 0;
  g_some : peer g <> []; g_cached : cached g = [] }.

Lemma weigh_all_ok tried now i ps : Forall peer_ok ps -> Forall peer_ok (weigh_all tried now i ps).
Proof.
  intros H. revert i. induction H as [|p ps Hp Hps IH]; intros i; cbn [weigh_all]; constructor; [|done].
  case_if E; [by apply weigh_ok|done].
Qed.

Lemma alter_charge_ok now total i ps : Forall peer_ok ps -> Forall peer_ok (alter (charge now total) i ps).
Proof.
  intros H. revert i. induction H as [|p ps Hp Hps IH]; intros [|i]; cbn [alter list_alter]; constructor; try done.
  by apply charge_ok.
Qed.

(** What every operation keeps of a group. *)
Definition evolves (g g' : ngx_http_upstream_rr_peers_t) : Prop :=
  group_ok g' /\ number g' = number g /\ single g' = single g.

Lemma evolves_refl g : group_ok g -> evolves g g.
Proof. done. Qed.

Lemma get_peer_evolves now g rrp :
  group_ok g -> number g <= 64 * Z.of_nat (length (tried rrp)) ->
  exists g' rrp' got,
    ngx_http_upstream_get_peer now g rrp = Ret (g', rrp', got) /\ evolves g g' /\
    rr_group rrp' = rr_group rrp /\ length (tried rrp') = length (tried rrp) /\
    match got with
    | None => g' = g /\ rrp' = rrp
    | Some i => chosen now g rrp i /\ current rrp' = i /\ (i < length (peer g'))%nat /\
        tried rrp' = set_tried (tried rrp) i
    end.
Proof.
  intros [Hp Hs Hn Hc] Hb. pose proof (get_peer_spec now g rrp Hb) as H.
  destruct (ngx_http_upstream_get_peer now g rrp) as [[[g' rrp'] [i|]]| |]; try done;
    exists g', rrp'; [exists (Some i)|exists None].
  - destruct H as (Hch & -> & ->). pose proof Hch as (p & Hpi & _). apply lookup_lt_Some in Hpi.
    split_and!; try done; cbn [rr_group current tried peer set_peer];
      [|by rewrite length_set_tried|by rewrite length_alter, length_weigh_all].
    split_and!; [constructor; cbn [peer set_peer cached]| |done].
    + by apply alter_charge_ok, weigh_all_ok.
    + rewrite charge_sum, weigh_all_sum, Hs by (by rewrite length_weigh_all).
      rewrite Z.add_0_l, Z.sub_diag. done.
    + intros E. apply (f_equal length) in E. rewrite length_alter, length_weigh_all in E. cbn in E. lia.
    + done.
    + unfold number. cbn [peer set_peer]. by rewrite length_alter, length_weigh_all.
  - destruct H as (-> & -> & _). by split_and!.
Qed.

(** * Requests *)

(** Both groups are well formed. *)
Definition upstream_ok (u : upstream) : Prop :=
  group_ok (primary u) /\ match backup u with Some b => group_ok b | None => True end.

(** The number of peers of both groups. *)
Definition shape (u : upstream) : Z * bool * option (Z * bool) :=
  (number (primary u), single (primary u), (fun b => (number b, single b)) <$> backup u).

(** The bits of a request are enough for the peers of both groups. *)
Definition request_ok (u : upstream) (rrp : ngx_http_upstream_rr_peer_data_t) : Prop :=
  let words := 64 * Z.of_nat (length (tried rrp)) in
  number (primary u) <= words /\
  match backup u with Some b => number b <= words | None => rr_group rrp = Primary end.

(** A request has a peer that it may free. *)
Definition holds (u : upstream) (rrp : ngx_http_upstream_rr_peer_data_t) : Prop :=
  exists g, peers_of (rr_group rrp) u = Some g /\ (single g = true \/ (current rrp < length (peer g))%nat).

Lemma request_ok_shape u u' rrp : shape u = shape u' -> request_ok u rrp -> request_ok u' rrp.
Proof.
  unfold shape, request_ok. intros [= E1 _ E2] [H1 H2]. rewrite <- E1. split; [done|].
  destruct (backup u), (backup u'); cbn in E2; try done. by injection E2 as <- _.
Qed.

Lemma holds_shape u u' rrp : shape u = shape u' -> holds u rrp -> holds u' rrp.
Proof.
  unfold shape, holds, number. intros [= E1 E2 E3] (g & Hg & H). destruct (rr_group rrp); cbn [peers_of] in *.
  - injection Hg as <-. exists (primary u'). split; [done|]. rewrite <- E2. destruct H; [by left|right; lia].
  - destruct (backup u) as [b|]; [|done]. injection Hg as ->. destruct (backup u') as [b'|]; [|done].
    injection E3 as E3 E4. exists b'. split; [done|]. rewrite <- E4. destruct H; [by left|right; lia].
Qed.

Lemma set_peers_ok g p p' u :
  upstream_ok u -> peers_of g u = Some p -> evolves p p' ->
  upstream_ok (set_peers g p' u) /\ shape (set_peers g p' u) = shape u /\
  peers_of g (set_peers g p' u) = Some p'.
Proof.
  intros [Hp Hb] Hg (Hok & Hn & Hs). destruct g; cbn [peers_of set_peers] in *.
  - injection Hg as <-. unfold shape. cbn [primary backup]. by rewrite Hn, Hs.
  - unfold shape. rewrite Hg. cbn [primary backup fmap option_fmap option_map]. by rewrite Hn, Hs.
Qed.

(** What a call leaves. *)
Record kept (u u' : upstream) (rrp rrp' : ngx_http_upstream_rr_peer_data_t) : Prop := Kept {
  k_ok : upstream_ok u'; k_shape : shape u' = shape u; k_words : length (tried rrp') = length (tried rrp) }.

Lemma kept_request u u' rrp rrp' :
  kept u u' rrp rrp' -> request_ok u rrp -> (rr_group rrp' = Backup -> backup u <> None) -> request_ok u' rrp'.
Proof.
  intros [_ Hs Hw] H Hg. apply (request_ok_shape u); [done|]. unfold request_ok in *. rewrite Hw.
  destruct H as [H1 H2]. split; [done|]. destruct (backup u); [done|]. destruct (rr_group rrp'); [done|].
  by destruct (Hg eq_refl).
Qed.

Lemma kept_trans u1 u2 u3 r1 r2 r3 : kept u1 u2 r1 r2 -> kept u2 u3 r2 r3 -> kept u1 u3 r1 r3.
Proof. intros [_ A2 A3] [B1 B2 B3]. constructor; congruence. Qed.

Lemma try_group_spec now g p u rrp pc :
  upstream_ok u -> peers_of g u = Some p -> number p <= 64 * Z.of_nat (length (tried rrp)) ->
  exists u' rrp' pc' ok,
    try_group now g p (u, rrp, pc) = Ret (u', rrp', pc', ok) /\ kept u u' rrp rrp' /\
    rr_group rrp' = rr_group rrp /\
    (if ok : bool then
       (exists p', peers_of g u' = Some p' /\ (single p' = true \/ (current rrp' < length (peer p'))%nat)) /\
       (single p = false -> chosen now p rrp (current rrp') /\ tried rrp' = set_tried (tried rrp) (current rrp'))
     else u' = u /\ rrp' = rrp /\ tries pc' = tries pc).
Proof.
  intros Hok Hg Hn. assert (group_ok p) as Hp.
  { destruct Hok as [H1 H2]. destruct g; cbn in Hg; [by injection Hg as <-|by rewrite Hg in H2]. }
  unfold try_group. rewrite (g_cached p Hp). pose proof (g_some p Hp) as Hsome.
  assert (set_peers g p u = u) as Hsame.
  { destruct u, g; cbn [peers_of set_peers primary backup] in *; [by injection Hg as <-|by rewrite Hg]. }
  destruct (single p) eqn:Hsg.
  - destruct (peer p) as [|q qs] eqn:Hq; [done|]. cbn [outcome_bind]. rewrite Hsame. destruct (down q).
    + eexists _, _, _, false. split; [reflexivity|]. by split_and!.
    + cbn [lookup list_lookup]. rewrite Hq. cbn [lookup list_lookup].
      eexists _, _, _, true. split; [reflexivity|]. split_and!; try done. exists p. split; [done|by left].
  - destruct (get_peer_evolves now p rrp Hp Hn) as (p' & rrp' & got & -> & Hev & Hgr & Hw & Hgot).
    cbn [outcome_bind]. destruct (set_peers_ok g p p' u Hok Hg Hev) as (H1 & H2 & H3).
    destruct got as [i|].
    + destruct Hgot as (Hch & <- & Hi & Ht). destruct (lookup_lt_is_Some_2 _ _ Hi) as [q ->].
      eexists _, _, _, true. split; [reflexivity|]. split_and!; try done. exists p'. split; [done|by right].
    + destruct Hgot as [-> ->]. rewrite Hsame. eexists _, _, _, false. split; [reflexivity|]. by split_and!.
Qed.

Lemma all_failed_spec g u rrp pc :
  upstream_ok u -> peers_of g u <> None ->
  exists u' pc', all_failed g (u, rrp, pc) = (u', rrp, pc') /\ kept u u' rrp rrp.
Proof.
  intros Hok Hg. unfold all_failed. destruct (peers_of g u) as [p|] eqn:E; [|done].
  assert (group_ok p) as [H1 H2 H3 H4].
  { destruct Hok as [H1 H2]. destruct g; cbn in E; [by injection E as <-|by rewrite E in H2]. }
  eexists _, _. split; [reflexivity|].
  destruct (set_peers_ok g p (set_peer (map (set_fails 0) (peer p)) p) u Hok E) as (? & ? & ?); [|done].
  split_and!; [constructor; cbn [peer set_peer cached]|unfold number; cbn [peer set_peer]; by rewrite length_map|done].
  - apply Forall_map. eapply Forall_impl; [exact H1|]. cbn. apply set_fails_ok.
  - unfold weights_sum in *. by rewrite map_map.
  - intros E'. by apply map_eq_nil in E'.
  - done.
Qed.

(** The outcome of a call of ngx_http_upstream_get_round_robin_peer. *)
Definition got_peer (u' : upstream) (rrp' : ngx_http_upstream_rr_peer_data_t) (rc : Z) : Prop :=
  (rc = NGX_OK /\ holds u' rrp') \/ rc = NGX_BUSY.

Lemma get_backup_spec now u rrp pc :
  upstream_ok u -> request_ok u rrp -> rr_group rrp = Backup ->
  exists u' rrp' pc' rc,
    get_backup_peer now (u, rrp, pc) = Ret (u', rrp', pc', rc) /\ kept u u' rrp rrp' /\
    rr_group rrp' = Backup /\ got_peer u' rrp' rc /\
    (rc = NGX_OK -> forall b, backup u = Some b -> single b = false ->
       chosen now b rrp (current rrp') /\ tried rrp' = set_tried (tried rrp) (current rrp')).
Proof.
  intros Hok Hr Hg. unfold get_backup_peer. destruct (backup u) as [b|] eqn:Hb.
  2: { eexists _, _, _, _. split; [reflexivity|]. split_and!; try done. by right. }
  pose proof Hr as [_ Hw]. rewrite Hb in Hw.
  destruct (try_group_spec now Backup b u rrp pc Hok Hb Hw) as (u' & rrp' & pc' & ok & -> & Hk & Hgr & Ho).
  cbn [outcome_bind]. destruct ok.
  - destruct Ho as [(b' & Hb' & Hh) Hch]. eexists _, _, _, _. split; [reflexivity|].
    split_and!; [done|congruence|left; split; [done|]; exists b'; by rewrite Hgr, Hg|].
    by intros _ ? [= <-].
  - destruct Ho as (-> & -> & _). destruct (all_failed_spec Backup u rrp pc' Hok) as (u2 & pc2 & -> & Hk2);
      [cbn; congruence|].
    eexists _, _, _, _. split; [reflexivity|]. split_and!; try done. by right.
Qed.

Lemma get_rr_spec now u rrp pc :
  upstream_ok u -> request_ok u rrp ->
  exists u' rrp' pc' rc,
    ngx_http_upstream_get_round_robin_peer now (u, rrp, pc) = Ret (u', rrp', pc', rc) /\
    kept u u' rrp rrp' /\ got_peer u' rrp' rc /\
    (rr_group rrp' = Backup -> backup u <> None).
Proof.
  intros Hok Hr. unfold ngx_http_upstream_get_round_robin_peer. destruct (rr_group rrp) eqn:Hg.
  - pose proof Hr as [Hw Hwb].
    destruct (try_group_spec now Primary (primary u) u rrp pc Hok eq_refl Hw) as (u' & rrp' & pc' & ok & -> & Hk & Hgr & Ho).
    cbn [outcome_bind]. destruct ok.
    + destruct Ho as [(p' & Hp' & Hh) _]. eexists _, _, _, _. split; [reflexivity|].
      split_and!; [done|left; split; [done|]; exists p'; by rewrite Hgr, Hg|congruence].
    + destruct Ho as (-> & -> & _). destruct (backup u) as [b|] eqn:Hb.
      * destruct (clear_tried_spec (number b) (tried rrp)) as (tr & -> & Hl & Hz); [unfold number in *; lia|].
        cbn [outcome_bind]. set (r2 := MkRrp Backup (current rrp) tr).
        assert (request_ok u r2) as Hr2 by (unfold request_ok, r2; cbn [tried rr_group]; rewrite Hl, Hb; done).
        match goal with |- context [get_backup_peer now (u, r2, ?x)] => set (pc2 := x) end.
        destruct (get_backup_spec now u r2 pc2 Hok Hr2 eq_refl) as (u2 & r3 & pc3 & rc & -> & Hk2 & Hg3 & Hgp & _).
        cbn [outcome_bind]. assert (kept u u2 rrp r3) as Hk3 by (destruct Hk2; constructor; [done..|cbn in *; congruence]).
        destruct (Z.eqb_spec rc NGX_BUSY) as [->|Hrc].
        -- destruct (all_failed_spec Primary u2 r3 pc3 (k_ok _ _ _ _ Hk2) ltac:(done)) as (u4 & pc4 & -> & Hk4).
           eexists _, _, _, _. split; [reflexivity|]. split_and!; [by eapply kept_trans|by right|congruence].
        -- eexists _, _, _, _. split; [reflexivity|]. split_and!; [done|done|congruence].
      * destruct (all_failed_spec Primary u rrp pc' Hok ltac:(done)) as (u4 & pc4 & -> & Hk4).
        eexists _, _, _, _. split; [reflexivity|]. split_and!; [done|by right|congruence].
  - destruct (get_backup_spec now u rrp pc Hok Hr Hg) as (u' & rrp' & pc' & rc & -> & Hk & Hg' & Hgp & _).
    eexists _, _, _, _. split; [reflexivity|]. split_and!; try done. intros _ Hb.
    destruct Hr as [_ Hr]. rewrite Hb in Hr. congruence.
Qed.

Lemma map_insert_same {A B} (f : A -> B) l i p p' :
  l !! i = Some p -> f p' = f p -> map f (<[i := p']> l) = map f l.
Proof.
  revert i. induction l as [|q l IH]; intros [|i] Hl Hf; cbn in *; try done; [by injection Hl as ->; rewrite Hf|].
  f_equal. by apply IH.
Qed.

Lemma free_rr_spec now state u rrp pc :
  upstream_ok u -> holds u rrp ->
  exists u' pc', ngx_http_upstream_free_round_robin_peer now state (u, rrp, pc) = Ret (u', rrp, pc') /\
    kept u u' rrp rrp.
Proof.
  intros Hok (g & Hg & Hh). unfold ngx_http_upstream_free_round_robin_peer. rewrite Hg.
  destruct (single g) eqn:Hs.
  { eexists _, _. split; [reflexivity|]. done. }
  destruct Hh as [|Hc]; [congruence|]. destruct (lookup_lt_is_Some_2 _ _ Hc) as [p Hp]. rewrite Hp.
  set (p' := if negb (Z.land state NGX_PEER_FAILED =? 0) then peer_failed now p else peer_succeeded p).
  assert (group_ok g) as [H1 H2 H3 H4].
  { destruct Hok as [H1 H2]. destruct (rr_group rrp); cbn in Hg; [by injection Hg as <-|by rewrite Hg in H2]. }
  assert (peer_ok p') as Hp'.
  { rewrite Forall_lookup in H1. specialize (H1 _ _ Hp). unfold p'. case_if E; [by apply peer_failed_ok|by apply peer_succeeded_ok]. }
  assert (current_weight p' = current_weight p) as Hw.
  { unfold p'. case_if E; [apply peer_failed_weight|apply peer_succeeded_weight]. }
  eexists _, _. split; [reflexivity|].
  destruct (set_peers_ok (rr_group rrp) g (set_peer (<[current rrp := p']> (peer g)) g) u Hok Hg) as (? & ? & ?); [|done].
  split_and!; [constructor; cbn [peer set_peer cached]|unfold number; cbn [peer set_peer]; by rewrite length_insert|done].
  - by apply Forall_insert.
  - unfold weights_sum in *. rewrite <- H2. do 2 f_equal. by apply (map_insert_same _ _ _ p).
  - intros E. apply (f_equal length) in E. rewrite length_insert in E. cbn in E. lia.
  - done.
Qed.

(** * A worker with its requests *)

(** The requests with whether they hold a peer. *)
Record worker := MkWorker {
  up : upstream;
  requests : list (ngx_http_upstream_rr_peer_data_t * ngx_peer_connection_t * bool) }.

(** ngx_http_upstream.c takes a peer when a request has none, and frees it once
    (u->peer.sockaddr is set in between). *)
Inductive rr_step : worker -> worker -> Prop :=
| rr_arrive w pc rrp' pc' :
    ngx_http_upstream_init_round_robin_peer (up w) pc = (rrp', pc') ->
    rr_step w (MkWorker (up w) (requests w ++ [(rrp', pc', false)]))
| rr_get w k rrp pc now u' rrp' pc' rc :
    requests w !! k = Some (rrp, pc, false) ->
    ngx_http_upstream_get_round_robin_peer now (up w, rrp, pc) = Ret (u', rrp', pc', rc) ->
    rr_step w (MkWorker u' (<[k := (rrp', pc', rc =? NGX_OK)]> (requests w)))
| rr_free w k rrp pc now state u' rrp' pc' :
    requests w !! k = Some (rrp, pc, true) ->
    ngx_http_upstream_free_round_robin_peer now state (up w, rrp, pc) = Ret (u', rrp', pc') ->
    rr_step w (MkWorker u' (<[k := (rrp', pc', false)]> (requests w))).

Definition worker_ok (w : worker) : Prop :=
  upstream_ok (up w) /\
  Forall (fun r => request_ok (up w) r.1.1 /\ (r.2 = true -> holds (up w) r.1.1)) (requests w).

Lemma init_peer_ok u pc rrp pc' :
  upstream_ok u -> ngx_http_upstream_init_round_robin_peer u pc = (rrp, pc') -> request_ok u rrp.
Proof.
  intros Hu [= <- <-]. unfold request_ok. cbn [tried rr_group].
  set (n := match backup u with Some b => _ | None => _ end).
  assert (0 <= n) as Hn by (unfold n, number; destruct (backup u) as [b|]; [case_if E|]; lia).
  destruct (tried_words_spec n Hn) as [Hw _]. unfold n in *. destruct (backup u) as [b|]; [|done].
  destruct (Z.gtb_spec (number b) (number (primary u))); lia.
Qed.

Lemma requests_shape u u' rs :
  shape u' = shape u ->
  Forall (fun r : ngx_http_upstream_rr_peer_data_t * ngx_peer_connection_t * bool =>
            request_ok u r.1.1 /\ (r.2 = true -> holds u r.1.1)) rs ->
  Forall (fun r => request_ok u' r.1.1 /\ (r.2 = true -> holds u' r.1.1)) rs.
Proof.
  intros Hs H. eapply Forall_impl; [exact H|]. cbn. intros r [H1 H2].
  split; [by apply (request_ok_shape u)|]. intros Ht. apply (holds_shape u); auto.
Qed.

Lemma rr_step_ok w w' : worker_ok w -> rr_step w w' -> worker_ok w'.
Proof.
  intros [Hu Hr] Hst.
  destruct Hst as [w pc rrp' pc' Hi|w k rrp pc now u' rrp' pc' rc Hk Hg|w k rrp pc now state u' rrp' pc' Hk Hf];
    unfold worker_ok; cbn [up requests].
  - split; [done|]. apply Forall_app. split; [done|]. constructor; [|done]. cbn.
    split; [by eapply init_peer_ok|done].
  - rewrite Forall_lookup in Hr. destruct (Hr _ _ Hk) as [Hrq _]. cbn in Hrq.
    destruct (get_rr_spec now (up w) rrp pc Hu Hrq) as (u2 & r2 & p2 & rc2 & E & Hkept & Hgp & Hb).
    rewrite E in Hg. injection Hg as -> -> -> ->. split; [by apply k_ok in Hkept|].
    apply Forall_insert; [apply (requests_shape (up w)); [apply Hkept|by apply Forall_lookup]|]. cbn.
    split; [by eapply kept_request|]. intros ->%Z.eqb_eq. by destruct Hgp as [[_ ?]|].
  - rewrite Forall_lookup in Hr. destruct (Hr _ _ Hk) as [Hrq Hh]. cbn in Hrq, Hh.
    destruct (free_rr_spec now state (up w) rrp pc Hu (Hh eq_refl)) as (u2 & p2 & E & Hkept).
    rewrite E in Hf. injection Hf as -> -> ->. split; [by apply k_ok in Hkept|].
    apply Forall_insert; [apply (requests_shape (up w)); [apply Hkept|by apply Forall_lookup]|]. cbn.
    split; [|done]. apply (request_ok_shape (up w)); [by rewrite (k_shape _ _ _ _ Hkept)|done].
Qed.

Lemma rr_reachable_ok w w' : worker_ok w -> rtc rr_step w w' -> worker_ok w'.
Proof. intros Hw. induction 1 as [|w1 w2 w3 Hst _ IH]; [done|]. apply IH. by eapply rr_step_ok. Qed.

(** * The peers of a configuration *)

Definition server_ok (s : ngx_http_upstream_server_t) : Prop :=
  0 <= srv_weight s < 2 ^ 63 /\ 0 <= srv_max_fails s < 2 ^ 64.

Lemma server_peers_ok s : server_ok s -> Forall peer_ok (server_peers s).
Proof. intros [Hw Hm]. apply Forall_map, Forall_true. intros a. constructor; cbn; lia. Qed.

Lemma flat_map_peers_ok l : Forall server_ok l -> Forall peer_ok (flat_map server_peers l).
Proof. induction 1; cbn [flat_map]; [constructor|]. apply Forall_app. split; [by apply server_peers_ok|done]. Qed.

(** No peer has been chosen yet. *)
Lemma zsum_idle ps : Forall (fun p => current_weight p = 0) ps -> zsum (map current_weight ps) = 0.
Proof. induction 1 as [|p ps Hp _ IH]; cbn [map zsum foldr]; [done|]. fold (zsum (map current_weight ps)). lia. Qed.

Lemma server_peers_idle l : Forall (fun p => current_weight p = 0) (flat_map server_peers l).
Proof.
  induction l; cbn [flat_map]; [constructor|]. apply Forall_app. split; [|done].
  by apply Forall_map, Forall_true.
Qed.

Lemma server_group_ok host servers b g :
  Forall server_ok servers -> server_group host servers b = Some g -> group_ok g.
Proof.
  intros Hs. unfold server_group. set (l := filter _ servers).
  assert (Forall server_ok l) as Hl.
  { rewrite Forall_forall in *. intros s [_ Hin]%list_elem_of_filter. by apply Hs. }
  case_if E; [done|]. intros [= <-]. constructor; cbn [peer cached]; [| | |done].
  - rewrite ngx_sort_perm. by apply flat_map_peers_ok.
  - unfold weights_sum. rewrite zsum_idle; [done|]. rewrite ngx_sort_perm. apply server_peers_idle.
  - intros H. apply (f_equal length) in H. rewrite ngx_sort_perm in H. clear -E H. apply Z.eqb_neq in E.
    apply E. clear E. assert (forall n, n = 0 ->
      fold_left (fun n s => wrapU 64 (n + Z.of_nat (length (addrs s)))) l n = 0) as Hf; [|by apply Hf].
    induction l as [|s l IH]; intros n ->; [done|]. cbn [flat_map length] in H. rewrite length_app in H.
    cbn [fold_left]. apply IH; [cbn [length]; lia|]. unfold server_peers in H. rewrite length_map in H.
    cbn [length] in H. by replace (length (addrs s)) with 0%nat by lia.
Qed.

Lemma set_single_ok v g : group_ok g -> group_ok (set_single v g).
Proof. intros []. by constructor. Qed.

Lemma init_servers_ok host servers u :
  Forall server_ok servers -> init_servers host servers = Some u -> upstream_ok u.
Proof.
  intros Hs. unfold init_servers. destruct (server_group host servers false) as [p|] eqn:Hp; [|done].
  pose proof (server_group_ok _ _ _ _ Hs Hp).
  destruct (server_group host servers true) as [b|] eqn:Hb; intros [= <-]; split; cbn [primary backup]; try done;
    apply set_single_ok; [done|]. by apply (server_group_ok _ _ _ _ Hs Hb).
Qed.

(** * Properties *)

(** C36: whatever requests arrive, take peers and free them with any result and
    in any order, no access leaves the peers or the tried bits; every peer keeps
    an effective weight between 0 and its weight, and the current weights of a
    group sum up to 0 (as 64-bit numbers): what the chosen peer is charged is
    what the others gained. *)
Theorem rr_worker_invariant host servers u w :
  Forall server_ok servers -> init_servers host servers = Some u -> rtc rr_step (MkWorker u []) w ->
  (forall g p, In g (primary (up w) :: option_list (backup (up w))) ->
     weights_sum (peer g) = 0 /\ (In p (peer g) -> 0 <= effective_weight p <= weight p)) /\
  (forall k rrp pc now, requests w !! k = Some (rrp, pc, false) ->
     exists s rc, ngx_http_upstream_get_round_robin_peer now (up w, rrp, pc) = Ret (s, rc)) /\
  (forall k rrp pc now state, requests w !! k = Some (rrp, pc, true) ->
     exists s, ngx_http_upstream_free_round_robin_peer now state (up w, rrp, pc) = Ret s).
Proof.
  intros Hs Hi Hr. assert (worker_ok (MkWorker u [])) as H0
    by (split; [by eapply init_servers_ok|constructor]).
  pose proof (rr_reachable_ok _ _ H0 Hr) as [Hu Hreq]. rewrite Forall_lookup in Hreq. split_and!.
  - intros g p Hg. assert (group_ok g) as [Hp Hsum _ _].
    { destruct Hu as [Hp Hb]. destruct Hg as [<-|Hg]; [done|]. destruct (backup (up w)); [|done].
      by destruct Hg as [<-|]. }
    split; [done|]. intros Hin. rewrite Forall_forall in Hp. apply Hp. by apply list_elem_of_In.
  - intros k rrp pc now Hk. destruct (Hreq _ _ Hk) as [Hrq _].
    destruct (get_rr_spec now (up w) rrp pc Hu Hrq) as (u' & r' & pc' & rc & -> & _). eauto.
  - intros k rrp pc now state Hk. destruct (Hreq _ _ Hk) as [_ Hh].
    destruct (free_rr_spec now state (up w) rrp pc Hu (Hh eq_refl)) as (u' & pc' & -> & _). eauto.
Qed.
