(* ===== verification/NgxRoundRobinFair.v ===== *)
(** The round robin of the upstream servers is fair, and a request runs out of
    servers to try. *)

From S2P Require Import Prelude NgxSort NgxRoundRobin.
Import RoundRobin.

(** * Smooth weighted round robin

    The reference: every server gains its weight, the one with the most is
    chosen and charged the sum of all weights. *)

Definition smooth (ws cs : list Z) (i : nat) (cs' : list Z) : Prop :=
  exists c w, cs !! i = Some c /\ ws !! i = Some w /\
    (forall j c' w', cs !! j = Some c' -> ws !! j = Some w' -> c' + w' <= c + w) /\
    cs' = alter (fun c => c - zsum ws) i (zip_with Z.add cs ws).

(** The state after [picks]. *)
Record balanced (ws : list Z) (picks : list nat) (cs : list Z) : Prop := Balanced {
  b_len : length cs = length ws;
  b_val : forall j c w, cs !! j = Some c -> ws !! j = Some w ->
    c = Z.of_nat (length picks) * w - zsum ws * Z.of_nat (count_occ Nat.eq_dec picks j);
  b_low : Forall (fun c => - zsum ws < c) cs;
  b_sum : zsum cs = 0;
  b_in : Forall (fun i => (i < length ws)%nat) picks }.

Lemma zsum_zip cs ws : length cs = length ws -> zsum (zip_with Z.add cs ws) = zsum cs + zsum ws.
Proof.
  revert ws. induction cs as [|c cs IH]; intros [|w ws] H; try done. cbn [zip_with zsum foldr].
  fold (zsum (zip_with Z.add cs ws)) (zsum cs) (zsum ws). rewrite IH by (cbn in H; lia). lia.
Qed.

Lemma zsum_alter n i l c : l !! i = Some c -> zsum (alter (fun c => c - n) i l) = zsum l - n.
Proof.
  revert i. induction l as [|x l IH]; intros [|i] H; try done; cbn [alter list_alter zsum foldr] in *.
  - fold (zsum l). lia.
  - change (foldr Z.add 0 (list_alter (fun c => c - n) i l)) with (zsum (alter (fun c => c - n) i l)).
    rewrite IH by done. fold (zsum l). lia.
Qed.

Lemma zsum_nonpos l : Forall (fun c => c <= 0) l -> zsum l <= 0.
Proof. induction 1; cbn [zsum foldr]; [done|]. fold (zsum l). lia. Qed.

Lemma zsum_nonneg l : Forall (fun c => 0 <= c) l -> 0 <= zsum l.
Proof. induction 1; cbn [zsum foldr]; [done|]. fold (zsum l). lia. Qed.

(** The most that a server has is positive. *)
Lemma most_positive ws cs c w :
  length cs = length ws -> 0 < zsum cs + zsum ws ->
  (forall j c' w', cs !! j = Some c' -> ws !! j = Some w' -> c' + w' <= c + w) -> 0 < c + w.
Proof.
  intros Hl Hs Hmax. destruct (Z.lt_ge_cases 0 (c + w)) as [|Hn]; [done|]. exfalso.
  rewrite <- zsum_zip in Hs by done. assert (zsum (zip_with Z.add cs ws) <= 0); [|lia].
  apply zsum_nonpos, Forall_lookup. intros j x Hx. apply lookup_zip_with_Some in Hx as (c' & w' & -> & Hc & Hw).
  specialize (Hmax _ _ _ Hc Hw). lia.
Qed.

Lemma smooth_balanced ws picks cs i cs' :
  Forall (fun w => 0 <= w) ws -> 0 < zsum ws ->
  balanced ws picks cs -> smooth ws cs i cs' -> balanced ws (i :: picks) cs'.
Proof.
  intros Hws HW [Hl Hv Hlow Hs Hin] (c & w & Hc & Hw & Hmax & ->).
  pose proof (most_positive ws cs c w Hl ltac:(lia) Hmax) as Hpos.
  assert (zip_with Z.add cs ws !! i = Some (c + w)) as Hi by (apply lookup_zip_with_Some; eauto 6).
  constructor.
  - rewrite length_alter, length_zip_with. lia.
  - intros j c' w' Hc' Hw'. cbn [length count_occ]. destruct (Nat.eq_dec i j) as [<-|Hne].
    + rewrite list_lookup_alter_eq, Hi in Hc'. cbn in Hc'. injection Hc' as <-. rewrite Hw in Hw'. injection Hw' as <-.
      rewrite (Hv _ _ _ Hc Hw). lia.
    + rewrite list_lookup_alter_ne in Hc' by done. apply lookup_zip_with_Some in Hc' as (c0 & w0 & -> & Hc0 & Hw0).
      rewrite Hw0 in Hw'. injection Hw' as <-. rewrite (Hv _ _ _ Hc0 Hw0). lia.
  - apply Forall_lookup. intros j x Hx. destruct (decide (i = j)) as [<-|Hne].
    + rewrite list_lookup_alter_eq, Hi in Hx. cbn in Hx. injection Hx as <-. lia.
    + rewrite list_lookup_alter_ne in Hx by done. apply lookup_zip_with_Some in Hx as (c0 & w0 & -> & Hc0 & Hw0).
      rewrite Forall_lookup in Hlow, Hws. specialize (Hlow _ _ Hc0). specialize (Hws _ _ Hw0). cbn in *. lia.
  - rewrite (zsum_alter _ _ _ _ Hi), zsum_zip by done. lia.
  - constructor; [|done]. by apply lookup_lt_Some in Hw.
Qed.

(** * Counting *)

Lemma count_total picks n :
  Forall (fun i => (i < n)%nat) picks ->
  zsum (map (fun j => Z.of_nat (count_occ Nat.eq_dec picks j)) (seq 0 n)) = Z.of_nat (length picks).
Proof.
  induction 1 as [|i picks Hi Hp IH].
  { cbn [count_occ length]. induction (seq 0 n); [done|]. cbn [map zsum foldr]. done. }
  cbn [length]. rewrite Nat2Z.inj_succ, <- IH. clear IH Hp.
  assert (forall l, NoDup l -> zsum (map (fun j => Z.of_nat (count_occ Nat.eq_dec (i :: picks) j)) l) =
    zsum (map (fun j => Z.of_nat (count_occ Nat.eq_dec picks j)) l) + (if bool_decide (i ∈ l) then 1 else 0)) as H.
  { intros l Hnd. induction Hnd as [|x l Hx Hnd IH]; [done|]. cbn [map zsum foldr].
    fold (zsum (map (fun j => Z.of_nat (count_occ Nat.eq_dec (i :: picks) j)) l))
         (zsum (map (fun j => Z.of_nat (count_occ Nat.eq_dec picks j)) l)). rewrite IH. cbn [count_occ].
    destruct (Nat.eq_dec i x) as [->|Hne].
    - rewrite (bool_decide_false (x ∈ l)), bool_decide_true by (done || by left). lia.
    - rewrite (bool_decide_ext (i ∈ x :: l) (i ∈ l)) by (rewrite elem_of_cons; tauto). lia. }
  rewrite H by apply NoDup_seq. rewrite bool_decide_true; [lia|]. apply elem_of_seq. lia.
Qed.

(** Numbers below others with the same sum are equal to them. *)
Lemma equal_sums l k :
  Forall2 Z.le l k -> zsum l = zsum k -> l = k.
Proof.
  induction 1 as [|x y l k Hxy Hlk IH]; intros Hs; [done|]. cbn [zsum foldr] in Hs.
  fold (zsum l) (zsum k) in Hs.
  assert (zsum l <= zsum k) by (clear -Hlk; induction Hlk; cbn [zsum foldr]; [done|]; fold (zsum l) (zsum l'); lia).
  rewrite IH by lia. f_equal. lia.
Qed.

(** After as many picks as the weights sum up to, every server was chosen as
    often as its weight, and the state is as in the beginning. *)
Lemma balanced_cycle ws picks cs :
  0 < zsum ws -> Forall (fun w => 0 <= w) ws ->
  balanced ws picks cs -> Z.of_nat (length picks) = zsum ws ->
  (forall j w, ws !! j = Some w -> Z.of_nat (count_occ Nat.eq_dec picks j) = w) /\
  Forall (fun c => c = 0) cs.
Proof.
  intros HW Hws [Hl Hv Hlow Hs Hin] Hlen.
  assert (map (fun j => Z.of_nat (count_occ Nat.eq_dec picks j)) (seq 0 (length ws)) = ws) as Hcnt.
  { apply equal_sums; [|by rewrite count_total]. apply Forall2_same_length_lookup. split; [by rewrite length_map, length_seq|].
    intros j x y Hx Hy. rewrite list_lookup_fmap in Hx.
    apply fmap_Some in Hx as (j' & [-> Hj]%lookup_seq & ->).
    destruct (lookup_lt_is_Some_2 cs j ltac:(rewrite Hl; by apply lookup_lt_Some in Hy)) as [c Hc].
    pose proof (Hv _ _ _ Hc Hy) as E. rewrite Forall_lookup in Hlow. specialize (Hlow _ _ Hc). cbn in *.
    rewrite Hlen in E. nia. }
  assert (forall j w, ws !! j = Some w -> Z.of_nat (count_occ Nat.eq_dec picks j) = w) as Hc.
  { intros j w Hw. pose proof (lookup_lt_Some _ _ _ Hw) as Hj. rewrite <- Hcnt in Hw.
    rewrite list_lookup_fmap in Hw. apply fmap_Some in Hw as (j' & [-> _]%lookup_seq & ->). done. }
  split; [done|]. apply Forall_lookup. intros j c Hcj.
  destruct (lookup_lt_is_Some_2 ws j ltac:(rewrite <- Hl; by apply lookup_lt_Some in Hcj)) as [w Hw].
  rewrite (Hv _ _ _ Hcj Hw), Hlen, (Hc _ _ Hw). lia.
Qed.

(** The weights stay small. *)
Lemma balanced_bound ws picks cs :
  0 < zsum ws -> balanced ws picks cs ->
  Forall (fun c => - zsum ws < c <= Z.of_nat (length ws) * zsum ws) cs.
Proof.
  intros HW [Hl _ Hlow Hs _]. rewrite <- Hl. set (W := zsum ws) in *. clearbody W.
  assert (forall l, Forall (fun c => - W < c) l -> - Z.of_nat (length l) * W <= zsum l) as Hb.
  { clear -HW. intros l. induction 1; cbn [zsum foldr length]; [done|]. fold (zsum l). lia. }
  apply Forall_lookup. intros j c Hc. rewrite Forall_lookup in Hlow. pose proof (Hlow _ _ Hc). split; [done|].
  rewrite <- (take_drop_middle cs j c Hc) in Hs. rewrite zsum_app in Hs. cbn [zsum foldr] in Hs.
  fold (zsum (drop (S j) cs)) in Hs. rewrite <- Forall_lookup in Hlow.
  pose proof (Hb _ (Forall_take _ j _ Hlow)) as H1. pose proof (Hb _ (Forall_drop _ (S j) _ Hlow)) as H2.
  rewrite length_take, length_drop in *. pose proof (lookup_lt_Some _ _ _ Hc). nia.
Qed.

(** * Requests that succeed *)

(** A request: it is given its state, takes a peer and frees it. *)
Definition serve (now : Z) (u : upstream) : outcome (upstream * option (group * nat)) :=
  let '(rrp, pc) := ngx_http_upstream_init_round_robin_peer u (MkPc None false [] [] 0) in
  let! (u, rrp, pc, rc) := ngx_http_upstream_get_round_robin_peer now (u, rrp, pc) in
  if rc =? NGX_OK then
    let! (u, _, _) := ngx_http_upstream_free_round_robin_peer now 0 (u, rrp, pc) in
    Ret (u, Some (rr_group rrp, current rrp))
  else Ret (u, None).

Fixpoint serve_all (nows : list Z) (u : upstream) : outcome (upstream * list (option (group * nat))) :=
  match nows with
  | [] => Ret (u, [])
  | now :: nows =>
    let! (u, pick) := serve now u in
    let! (u, picks) := serve_all nows u in
    Ret (u, pick :: picks)
  end.

(** A peer that works at its full weight [w]. *)
Definition full_peer (w : Z) (p : ngx_http_upstream_rr_peer_t) : Prop :=
  weight p = w /\ effective_weight p = w /\ down p = false /\ fails p = 0 /\ 0 <= max_fails p.

(** Several peers at their full weights. *)
Record full (ws : list Z) (g : ngx_http_upstream_rr_peers_t) : Prop := Full {
  f_peers : Forall2 full_peer ws (peer g); f_single : single g = false; f_cached : cached g = [] }.

Lemma full_usable tried now i w p : full_peer w p -> tried_bit tried i = false -> usable tried now i p = true.
Proof.
  intros (_ & _ & Hd & Hf & Hm) Ht. unfold usable. rewrite Ht, Hd, Hf. cbn [negb andb].
  destruct (Z.eqb_spec (max_fails p) 0) as [|Hne]; [done|]. rewrite Z.geb_leb, (proj2 (Z.leb_gt _ _)) by lia. done.
Qed.

Lemma full_weigh w p : full_peer w p -> weigh p = set_current_weight (wrapS 64 (current_weight p + w)) p.
Proof.
  intros (Hw & He & _). unfold weigh. cbn [effective_weight weight set_current_weight].
  rewrite He, Hw, Z.ltb_irrefl. done.
Qed.

Lemma full_loop tried now i ws ps :
  Forall2 full_peer ws ps -> (forall j, (j < length ps)%nat -> tried_bit tried (i + j) = false) ->
  usable_weights tried now i ps = ws /\
  Forall2 full_peer ws (weigh_all tried now i ps) /\
  map current_weight (weigh_all tried now i ps) =
    zip_with (fun c w => wrapS 64 (c + w)) (map current_weight ps) ws.
Proof.
  intros H. revert i. induction H as [|w p ws ps Hp Hps IH]; intros i Ht; [done|].
  cbn [usable_weights weigh_all map zip_with].
  rewrite (full_usable tried now i w p Hp) by (rewrite <- (Nat.add_0_r i); apply Ht; cbn; lia).
  destruct (IH (S i)) as (-> & H2 & H3).
  { intros j Hj. replace (S i + j)%nat with (i + S j)%nat by lia. apply Ht. cbn. lia. }
  rewrite (full_weigh w p Hp), H3. pose proof Hp as (_ & -> & _). split_and!; [done|by constructor|done].
Qed.

Lemma zip_wrap cs ws :
  Forall2 (fun c w => - 2 ^ 63 <= c + w < 2 ^ 63) cs ws ->
  zip_with (fun c w => wrapS 64 (c + w)) cs ws = zip_with Z.add cs ws.
Proof. induction 1 as [|c w cs ws Hc _ IH]; cbn [zip_with]; [done|]. rewrite IH, wrapS_small by lia. done. Qed.

Lemma map_alter {A B} (f : A -> B) (g : A -> A) (h : B -> B) i l :
  (forall x, f (g x) = h (f x)) -> map f (alter g i l) = alter h i (map f l).
Proof.
  intros H. revert i. induction l as [|x l IH]; intros [|i]; cbn [alter list_alter map]; try done; [by rewrite H|].
  f_equal. apply IH.
Qed.

Lemma alter_full (f : ngx_http_upstream_rr_peer_t -> ngx_http_upstream_rr_peer_t) i ws ps :
  (forall w p, full_peer w p -> full_peer w (f p)) -> Forall2 full_peer ws ps -> Forall2 full_peer ws (alter f i ps).
Proof.
  intros Hf H. revert i. induction H; intros [|i]; cbn [alter list_alter]; constructor; auto.
Qed.

Lemma full_succeeded w p : full_peer w p -> full_peer w (peer_succeeded p).
Proof. intros (H1 & H2 & H3 & H4 & H5). unfold peer_succeeded. case_if E; by split_and!. Qed.

Lemma insert_full i ws ps p q :
  Forall2 full_peer ws ps -> ps !! i = Some p -> (forall w, full_peer w p -> full_peer w q) ->
  Forall2 full_peer ws (<[i := q]> ps).
Proof.
  intros H. revert i. induction H as [|w' p' ws ps Hp Hps IH]; intros [|i] Hl Hq; try done; cbn in *.
  - injection Hl as ->. constructor; auto.
  - constructor; [done|]. by apply (IH i).
Qed.

Lemma alter_ext_at {A} (f g : A -> A) (i : nat) (l : list A) x :
  l !! i = Some x -> f x = g x -> alter f i l = alter g i l.
Proof.
  revert i. induction l as [|y l IH]; intros [|i] Hl Hx; try done; cbn [alter list_alter] in *; [by injection Hl as ->; rewrite Hx|].
  f_equal. by apply IH.
Qed.

Lemma full_lookup ws ps i p :
  Forall2 full_peer ws ps -> ps !! i = Some p -> exists w, ws !! i = Some w /\ full_peer w p.
Proof. intros H Hp. destruct (Forall2_lookup_r _ _ _ _ _ H Hp) as (w & ? & ?). eauto. Qed.

Lemma full_charged now W tried ws ps i p :
  Forall2 full_peer ws ps -> ps !! i = Some p ->
  Forall2 (fun c w => - 2 ^ 63 <= c + w < 2 ^ 63) (map current_weight ps) ws ->
  (forall w, ws !! i = Some w -> - 2 ^ 63 <= current_weight p + w - W < 2 ^ 63) ->
  map current_weight (weigh_all tried now 0 ps) = zip_with Z.add (map current_weight ps) ws ->
  map current_weight (alter (charge now W) i (weigh_all tried now 0 ps)) =
    alter (fun c => c - W) i (zip_with Z.add (map current_weight ps) ws).
Proof.
  intros Hf Hp Hr HW Hmap. rewrite (map_alter _ _ (fun c => wrapS 64 (c - W))) by done. rewrite Hmap.
  destruct (full_lookup _ _ _ _ Hf Hp) as (w & Hw & _).
  apply (alter_ext_at _ _ _ _ (current_weight p + w)).
  - apply lookup_zip_with_Some. exists (current_weight p), w. split_and!; [done| |done].
    rewrite list_lookup_fmap, Hp. done.
  - specialize (HW _ Hw). apply wrapS_small; lia.
Qed.

Lemma full_weight_range ws ps j q w :
  Forall2 full_peer ws ps -> ps !! j = Some q -> ws !! j = Some w ->
  Forall2 (fun c w => - 2 ^ 63 <= c + w < 2 ^ 63) (map current_weight ps) ws ->
  current_weight (weigh q) = current_weight q + w.
Proof.
  intros Hf Hq Hw Hr. pose proof (Forall2_lookup_lr _ _ _ _ _ _ Hf Hw Hq) as Hfull.
  rewrite current_weight_weigh. pose proof Hfull as (_ & -> & _).
  assert (map current_weight ps !! j = Some (current_weight q)) as Hc by (by rewrite list_lookup_fmap, Hq).
  pose proof (Forall2_lookup_lr _ _ _ _ _ _ Hr Hc Hw). cbn in *. apply wrapS_small; lia.
Qed.

(** A choice among peers at their full weights is one of the reference. *)
Lemma get_peer_full now ws g rrp picks :
  full ws g -> 0 < zsum ws -> balanced ws picks (map current_weight (peer g)) ->
  (Z.of_nat (length ws) + 2) * zsum ws < 2 ^ 63 -> Forall (fun w => 0 <= w) ws ->
  number g <= 64 * Z.of_nat (length (tried rrp)) ->
  (forall j, Z.of_nat j < number g -> tried_bit (tried rrp) j = false) ->
  exists g' rrp' i,
    ngx_http_upstream_get_peer now g rrp = Ret (g', rrp', Some i) /\ full ws g' /\
    (i < length (peer g'))%nat /\ rrp' = MkRrp (rr_group rrp) i (set_tried (tried rrp) i) /\
    smooth ws (map current_weight (peer g)) i (map current_weight (peer g')).
Proof.
  intros [Hf Hs Hc] HW Hbal Hbig Hws Hn Ht. pose proof (Forall2_length _ _ _ Hf) as Hlen.
  set (W := zsum ws) in *. set (cs := map current_weight (peer g)) in *.
  destruct (full_loop (tried rrp) now 0 ws (peer g) Hf) as (Huw & Hfull & Hmap).
  { intros j Hj. apply Ht. unfold number. lia. }
  assert (forall w, w ∈ ws -> w <= W) as HwW.
  { intros w Hw. apply list_elem_of_lookup in Hw as [j Hj]. rewrite <- (take_drop_middle ws j w Hj) in Hws.
    unfold W. rewrite <- (take_drop_middle ws j w Hj). rewrite zsum_app. cbn [zsum foldr]. fold (zsum (drop (S j) ws)).
    apply Forall_app in Hws as [H1 H2]. apply Forall_cons in H2 as [_ H2].
    pose proof (zsum_nonneg _ H1). pose proof (zsum_nonneg _ H2). lia. }
  assert (Forall2 (fun c w => - 2 ^ 63 <= c + w < 2 ^ 63) cs ws) as Hrange.
  { apply Forall2_same_length_lookup. split; [apply (b_len _ _ _ Hbal)|]. intros j c w Hcj Hwj.
    pose proof (balanced_bound _ _ _ HW Hbal) as Hb. rewrite Forall_lookup in Hb, Hws.
    specialize (Hb _ _ Hcj). specialize (Hws _ _ Hwj). specialize (HwW w ltac:(by eapply list_elem_of_lookup_2)).
    fold W in Hb. cbn in *. nia. }
  fold cs in Hmap. rewrite (zip_wrap _ _ Hrange) in Hmap.
  pose proof (get_peer_spec now g rrp Hn) as H. rewrite Huw in H. fold W in H.
  rewrite (wrapS_small 64 W) in H by nia.
  destruct (ngx_http_upstream_get_peer now g rrp) as [[[g' rrp'] [i|]]| |]; try done.
  - destruct H as ((p & Hp & Hu & Hmax) & -> & ->). pose proof (lookup_lt_Some _ _ _ Hp) as Hi.
    eexists _, _, i. split; [reflexivity|]. cbn [peer set_peer].
    split; [constructor; cbn [peer set_peer]; [|done..]|].
    { apply alter_full; [|done]. intros w q (H1 & H2 & H3 & H4 & H5). by split_and!. }
    split; [by rewrite length_alter, length_weigh_all|]. split; [done|].
    destruct (full_lookup _ _ _ _ Hf Hp) as (w & Hw & Hpw).
    assert (cs !! i = Some (current_weight p)) as Hci by (unfold cs; by rewrite list_lookup_fmap, Hp).
    assert (forall j c' w', cs !! j = Some c' -> ws !! j = Some w' -> c' + w' <= current_weight p + w) as Hmax'.
    { intros j c' w' Hc' Hw'. unfold cs in Hc'. rewrite list_lookup_fmap in Hc'. apply fmap_Some in Hc' as (q & Hq & ->).
      pose proof (Forall2_lookup_lr _ _ _ _ _ _ Hf Hw' Hq) as Hqf.
      specialize (Hmax j q Hq (full_usable (tried rrp) now j w' q Hqf ltac:(apply Ht; apply lookup_lt_Some in Hq; unfold number; lia))).
      rewrite (full_weight_range ws (peer g) j q w'), (full_weight_range ws (peer g) i p w) in Hmax by done. done. }
    exists (current_weight p), w. split_and!; [done..|]. fold W. apply (full_charged now W (tried rrp) ws (peer g) i p); try done.
    intros w0 Hw0. rewrite Hw in Hw0. injection Hw0 as <-.
    assert (0 < zsum cs + zsum ws) as H0 by (pose proof (b_sum _ _ _ Hbal); lia).
    pose proof (most_positive ws cs _ _ (b_len _ _ _ Hbal) H0 Hmax').
    pose proof (Forall2_lookup_lr _ _ _ _ _ _ Hrange Hci Hw). cbn in *. nia.
  - exfalso. destruct H as (_ & _ & Hno). destruct (peer g) as [|p ps] eqn:Hpg.
    { destruct ws; [|done]. cbn in HW. lia. }
    destruct ws as [|w ws]; [done|]. apply Forall2_cons in Hf as [Hp _].
    specialize (Hno 0%nat p eq_refl). rewrite (full_usable (tried rrp) now 0 w p Hp) in Hno; [done|].
    apply Ht. unfold number. rewrite Hpg. cbn. lia.
Qed.

Lemma serve_full now ws u picks :
  full ws (primary u) -> 0 < zsum ws -> balanced ws picks (map current_weight (peer (primary u))) ->
  (Z.of_nat (length ws) + 2) * zsum ws < 2 ^ 63 -> Forall (fun w => 0 <= w) ws ->
  exists u' i, serve now u = Ret (u', Some (Primary, i)) /\ full ws (primary u') /\
    balanced ws (i :: picks) (map current_weight (peer (primary u'))).
Proof.
  intros Hfull HW Hbal Hbig Hws. unfold serve, ngx_http_upstream_init_round_robin_peer.
  set (n := match backup u with Some b => _ | None => _ end).
  assert (number (primary u) <= n) as Hn.
  { unfold n. destruct (backup u) as [b|]; [|lia]. destruct (Z.gtb_spec (number b) (number (primary u))); lia. }
  destruct (tried_words_spec n) as [Hw Ht]; [unfold number in Hn; lia|].
  destruct (get_peer_full now ws (primary u) (MkRrp Primary 0 (tried_words n)) picks) as
    (g' & rrp' & i & Hget & Hf' & Hi & -> & Hsm); try done; [cbn [tried]; lia|intros j Hj; apply Ht; lia|].
  destruct (lookup_lt_is_Some_2 _ _ Hi) as [p Hp].
  unfold ngx_http_upstream_get_round_robin_peer, try_group. cbn [rr_group].
  rewrite (f_cached _ _ Hfull), (f_single _ _ Hfull), Hget. cbn [outcome_bind].
  rewrite Hp. cbn [outcome_bind Z.eqb NGX_OK tried rr_group current set_peers].
  unfold ngx_http_upstream_free_round_robin_peer. cbn [rr_group peers_of primary current].
  rewrite (f_single _ _ Hf'), Hp. cbn [Z.land NGX_PEER_FAILED Z.eqb negb outcome_bind].
  eexists _, i. split; [reflexivity|]. cbn [primary set_peers peer set_peer]. split.
  - constructor; cbn [peer set_peer single cached]; [|apply Hf'..].
    apply (insert_full i ws (peer g') p); [apply Hf'|done|]. intros w. apply full_succeeded.
  - rewrite (map_insert_same _ _ _ p) by (done || apply peer_succeeded_weight).
    by eapply smooth_balanced.
Qed.

Lemma serve_all_full nows ws u picks :
  full ws (primary u) -> 0 < zsum ws -> balanced ws picks (map current_weight (peer (primary u))) ->
  (Z.of_nat (length ws) + 2) * zsum ws < 2 ^ 63 -> Forall (fun w => 0 <= w) ws ->
  exists u' ks, serve_all nows u = Ret (u', map (fun i => Some (Primary, i)) ks) /\ length ks = length nows /\
    full ws (primary u') /\ balanced ws (List.rev ks ++ picks) (map current_weight (peer (primary u'))).
Proof.
  intros Hfull HW Hbal Hbig Hws. revert u picks Hfull Hbal.
  induction nows as [|now nows IH]; intros u picks Hfull Hbal.
  { exists u, []. done. }
  destruct (serve_full now ws u picks) as (u1 & i & Hs & Hf1 & Hb1); try done.
  destruct (IH u1 (i :: picks) Hf1 Hb1) as (u2 & ks & Hr & Hl & Hf2 & Hb2).
  exists u2, (i :: ks). cbn [serve_all map length List.rev]. rewrite Hs. cbn [outcome_bind]. rewrite Hr. cbn [outcome_bind].
  split_and!; [done|lia|done|]. by rewrite <- app_assoc.
Qed.

(** The servers of a configuration without backup servers, all of them up. *)
Definition all_up (s : ngx_http_upstream_server_t) : bool := negb (srv_down s) && negb (srv_backup s).

Lemma server_group_full host servers g :
  Forall server_ok servers -> forallb all_up servers = true -> server_group host servers false = Some g ->
  single g = false -> full (map weight (peer g)) g /\ Forall (fun p => current_weight p = 0) (peer g).
Proof.
  intros Hok Hup. unfold server_group. set (l := filter _ servers).
  assert (Forall server_ok l /\ Forall (fun s => srv_down s = false) l) as [Hl Hd].
  { rewrite !Forall_forall in *. split; intros s [_ Hin]%list_elem_of_filter; [by apply Hok|].
    rewrite forallb_forall in Hup. specialize (Hup s ltac:(by apply list_elem_of_In)). unfold all_up in Hup.
    boolify. done. }
  case_if E; [done|]. intros [= <-] Hs. cbn [peer single cached] in *.
  assert (Forall (fun p => full_peer (weight p) p /\ current_weight p = 0) (flat_map server_peers l)) as Hp.
  { clear -Hl Hd. induction l as [|s l IH]; cbn [flat_map]; [constructor|].
    apply Forall_cons in Hl as [Hs Hl], Hd as [Hds Hd]. apply Forall_app. split; [|by apply IH].
    apply Forall_map, Forall_true. intros a. destruct Hs as [? ?]. repeat split; cbn; done || lia. }
  rewrite <- (ngx_sort_perm ngx_http_upstream_cmp_servers) in Hp. split.
  - constructor; cbn [peer]; try done. clear -Hp. induction Hp as [|p ps [Hp _] _ IH]; constructor; done.
  - eapply Forall_impl; [exact Hp|]. by intros p [_ H].
Qed.

Lemma balanced_start ws ps :
  length ws = length ps -> 0 < zsum ws -> Forall (fun p => current_weight p = 0) ps ->
  balanced ws [] (map current_weight ps).
Proof.
  intros Hl HW Hp. assert (forall j c, map current_weight ps !! j = Some c -> c = 0) as Hz.
  { intros j c Hc. rewrite list_lookup_fmap in Hc. apply fmap_Some in Hc as (p & Hpj & ->).
    rewrite Forall_lookup in Hp. by apply (Hp j). }
  constructor.
  - by rewrite length_map.
  - intros j c w Hc _. rewrite (Hz _ _ Hc). cbn. lia.
  - apply Forall_lookup. intros j c Hc. rewrite (Hz _ _ Hc). lia.
  - by apply zsum_idle.
  - constructor.
Qed.

(** C21: the round robin is fair.  For servers that are up and answer, among
    every [W] requests from the start, where [W] is the sum of the weights of
    the peers, each peer is chosen exactly as often as its weight, and after
    them all weights are as they were in the beginning, so that the next [W]
    requests are shared in the same way.  No peer waits longer than that. *)
Theorem rr_fair host servers u nows :
  Forall server_ok servers -> forallb all_up servers = true -> init_servers host servers = Some u ->
  single (primary u) = false ->
  let ws := map weight (peer (primary u)) in
  0 < zsum ws -> (Z.of_nat (length ws) + 2) * zsum ws < 2 ^ 63 -> Z.of_nat (length nows) = zsum ws ->
  exists u' ks,
    serve_all nows u = Ret (u', map (fun i => Some (Primary, i)) ks) /\
    (forall i w, ws !! i = Some w -> Z.of_nat (count_occ Nat.eq_dec ks i) = w) /\
    full ws (primary u') /\ Forall (fun p => current_weight p = 0) (peer (primary u')).
Proof.
  intros Hok Hup Hinit Hs ws HW Hbig Hlen. unfold init_servers in Hinit.
  destruct (server_group host servers false) as [g|] eqn:Hg; [|done].
  assert (primary u = g \/ primary u = set_single false g) as Hu.
  { destruct (server_group host servers true); injection Hinit as <-; auto. }
  assert (server_group host servers true = None) as Hnb.
  { unfold server_group. assert (filter (fun s => srv_backup s = true) servers = []) as ->; [|done].
    clear -Hup. induction servers as [|s l IH]; [done|]. cbn [forallb] in Hup.
    apply andb_true_iff in Hup as [Hs Hup]. unfold all_up in Hs. boolify.
    rewrite filter_cons_False by congruence. by apply IH. }
  rewrite Hnb in Hinit. injection Hinit as <-. cbn [primary] in *.
  destruct (server_group_full host servers g Hok Hup Hg Hs) as [Hf Hz].
  assert (Forall (fun w => 0 <= w) ws) as Hws.
  { apply Forall_map. eapply Forall_impl; [exact (g_peers _ (server_group_ok _ _ _ _ Hok Hg))|].
    intros p [Hp _ _ _]. cbn. lia. }
  destruct (serve_all_full nows ws (MkUpstream g None) []) as (u' & ks & Hrun & Hli & Hf' & Hb'); try done.
  { apply balanced_start; [unfold ws; by rewrite length_map|done..]. }
  rewrite app_nil_r in Hb'. destruct (balanced_cycle ws (List.rev ks) _ HW Hws Hb') as [Hc Hz'];
    [rewrite length_rev; lia|].
  exists u', ks. split_and!; [done| |done|by apply Forall_map in Hz'].
  intros i w Hi. rewrite <- (Hc i w Hi). f_equal. apply Permutation_count_occ. apply Permutation_rev.
Qed.

(** * Requests that fail *)

(** ngx_http_upstream_connect and ngx_http_upstream_next for a request whose
    every peer fails: peers are taken and freed until there are no tries left or
    NGX_BUSY.  [others] is what other requests do to the peers before each call. *)
Fixpoint retry (fuel : nat) (now : nat -> Z) (others : nat -> bool -> upstream -> upstream) (s : rr_state)
    : outcome (list (group * nat) * Z) :=
  match fuel with
  | O => NoFuel
  | S fuel =>
    let '(u, rrp, pc) := s in
    let! (u, rrp, pc, rc) := ngx_http_upstream_get_round_robin_peer (now fuel) (others fuel false u, rrp, pc) in
    if rc =? NGX_BUSY then Ret ([], NGX_BUSY)
    else
      let! (u, rrp, pc) :=
        ngx_http_upstream_free_round_robin_peer (now fuel) NGX_PEER_FAILED (others fuel true u, rrp, pc) in
      if tries pc =? 0 then Ret ([(rr_group rrp, current rrp)], NGX_ERROR)
      else
        let! (picks, rc) := retry fuel now others (u, rrp, pc) in
        Ret ((rr_group rrp, current rrp) :: picks, rc)
  end.

#[global] Instance group_eq_dec : EqDecision group.
Proof. solve_decision. Defined.

(** [i] was not tried before, and is the only peer that is tried after. *)
Definition newly_tried (t t' : list Z) (i : nat) : Prop :=
  tried_bit t i = false /\ forall j, tried_bit t' j = bool_decide (i = j) || tried_bit t j.

Lemma chosen_untried now g r i t' :
  number g <= 64 * Z.of_nat (length (tried r)) -> chosen now g r i -> t' = set_tried (tried r) i ->
  (i < length (peer g))%nat /\ newly_tried (tried r) t' i.
Proof.
  intros Hn (p & Hp & Hu & _) ->. pose proof (lookup_lt_Some _ _ _ Hp) as Hi.
  split; [done|]. unfold usable in Hu. apply andb_true_iff in Hu as [[Hu _]%andb_true_iff _].
  apply negb_true_iff in Hu. split; [done|]. intros j. apply tried_bit_set. unfold number in Hn. lia.
Qed.

(** The peer of a request is one of its group. *)
Definition in_group (u : upstream) (r : ngx_http_upstream_rr_peer_data_t) : Prop :=
  exists g, peers_of (rr_group r) u = Some g /\ (current r < length (peer g))%nat.

Lemma get_backup_pick now u r pc u' r' pc' :
  upstream_ok u -> request_ok u r -> (forall b, backup u = Some b -> single b = false) ->
  rr_group r = Backup -> get_backup_peer now (u, r, pc) = Ret (u', r', pc', NGX_OK) ->
  in_group u r' /\ rr_group r' = Backup /\ newly_tried (tried r) (tried r') (current r').
Proof.
  intros Hok Hr Hsb Hg E.
  destruct (get_backup_spec now u r pc Hok Hr Hg) as (u2 & r2 & p2 & rc2 & E2 & _ & Hg2 & _ & Hc).
  rewrite E2 in E. injection E as -> -> -> ->. destruct (backup u) as [b|] eqn:Hb.
  2: { unfold get_backup_peer in E2. rewrite Hb in E2. done. }
  destruct (Hc eq_refl b eq_refl (Hsb b eq_refl)) as [Hcho Htr]. pose proof Hr as [_ Hw]. rewrite Hb in Hw.
  destruct (chosen_untried now b r (current r') (tried r') Hw Hcho Htr) as [H1 H2].
  split_and!; [|done|done]. exists b. rewrite Hg2. done.
Qed.

(** The peer that a call of get gives was not tried in its group before. *)
Lemma get_rr_pick now u rrp pc u' rrp' pc' :
  upstream_ok u -> request_ok u rrp -> single (primary u) = false ->
  (forall b, backup u = Some b -> single b = false) ->
  ngx_http_upstream_get_round_robin_peer now (u, rrp, pc) = Ret (u', rrp', pc', NGX_OK) ->
  in_group u rrp' /\
  ((rr_group rrp' = rr_group rrp /\ newly_tried (tried rrp) (tried rrp') (current rrp')) \/
   (rr_group rrp = Primary /\ rr_group rrp' = Backup /\ tried_bit (tried rrp') (current rrp') = true)).
Proof.
  intros Hok Hr Hsp Hsb. unfold ngx_http_upstream_get_round_robin_peer. destruct (rr_group rrp) eqn:Hg.
  - pose proof Hr as [Hw Hwb].
    destruct (try_group_spec now Primary (primary u) u rrp pc Hok eq_refl Hw) as (u1 & r1 & p1 & ok & -> & Hk & Hgr & Ho).
    cbn [outcome_bind]. destruct ok.
    + intros [= <- <- <-]. destruct Ho as [_ Ho]. destruct (Ho Hsp) as [Hcho Htr].
      destruct (chosen_untried now (primary u) rrp _ _ Hw Hcho Htr) as [H1 H2].
      unfold in_group. rewrite Hgr, Hg. split; [exists (primary u); done|]. left. done.
    + destruct Ho as (-> & -> & _). destruct (backup u) as [b|] eqn:Hb; [|by destruct (all_failed _ _)].
      destruct (clear_tried_spec (number b) (tried rrp)) as (tr & -> & Hl & Hz); [unfold number in *; lia|].
      cbn [outcome_bind]. set (r2 := MkRrp Backup (current rrp) tr).
      assert (request_ok u r2) as Hr2 by (unfold request_ok, r2; cbn [tried rr_group]; rewrite Hl, Hb; done).
      match goal with |- context [get_backup_peer now (u, r2, ?x)] => set (pc2 := x) end.
      destruct (get_backup_peer now (u, r2, pc2)) as [[[[u3 r3] p3] rc]| |] eqn:E; [|done..]. cbn [outcome_bind].
      destruct (Z.eqb_spec rc NGX_BUSY) as [->|Hrc]; [by destruct (all_failed _ _)|]. intros [= -> -> -> ->].
      rewrite <- Hb in Hsb.
      destruct (get_backup_pick now u r2 pc2 _ _ _ Hok Hr2 Hsb eq_refl E) as (H1 & H2 & _ & H4). split; [done|]. right.
      split_and!; [done|done|]. rewrite H4, bool_decide_true by done. done.
  - intros E. destruct (get_backup_pick now u rrp pc _ _ _ Hok Hr Hsb Hg E) as (H1 & H2 & H3).
    split; [done|]. left. done.
Qed.

(** The peers that a request got before, in [got]. *)
Record visited (u : upstream) (r : ngx_http_upstream_rr_peer_data_t) (got : list (group * nat)) : Prop := Visited {
  v_nodup : NoDup got;
  v_tried : forall i, (rr_group r, i) ∈ got -> tried_bit (tried r) i = true;
  v_primary : rr_group r = Primary -> forall g i, (g, i) ∈ got -> g = Primary;
  v_bound : forall g i, (g, i) ∈ got -> exists p, peers_of g u = Some p /\ (i < length (peer p))%nat }.

(** The number of peers of both groups. *)
Definition all_peers (u : upstream) : nat :=
  (length (peer (primary u)) + match backup u with Some b => length (peer b) | None => 0 end)%nat.

Lemma visited_bound u r got : visited u r got -> (length got <= all_peers u)%nat.
Proof.
  intros [Hnd _ _ Hb]. unfold all_peers.
  set (all := map (pair Primary) (seq 0 (length (peer (primary u)))) ++
              map (pair Backup) (seq 0 (match backup u with Some b => length (peer b) | None => 0 end))).
  replace (length (peer (primary u)) + _)%nat with (length all)
    by (unfold all; rewrite length_app, !length_map, !length_seq; done).
  apply NoDup_incl_length; [by apply NoDup_ListNoDup|]. intros [g i] Hin. apply list_elem_of_In in Hin.
  destruct (Hb _ _ Hin) as (p & Hp & Hi). apply in_or_app. destruct g; cbn [peers_of] in Hp.
  - injection Hp as <-. left. apply in_map, in_seq. lia.
  - rewrite Hp. right. apply in_map, in_seq. lia.
Qed.

Lemma peers_of_shape g u u' p :
  shape u = shape u' -> peers_of g u = Some p -> exists p', peers_of g u' = Some p' /\ length (peer p') = length (peer p).
Proof.
  unfold shape, number. intros [= E1 _ E2] Hp. destruct g; cbn [peers_of] in *.
  - injection Hp as <-. exists (primary u'). split; [done|lia].
  - rewrite Hp in E2. destruct (backup u') as [b|]; [|done]. injection E2 as E2 _. exists b. split; [done|lia].
Qed.

Lemma all_peers_shape u u' : shape u = shape u' -> all_peers u = all_peers u'.
Proof.
  unfold shape, all_peers, number. intros [= E1 _ E2]. destruct (backup u), (backup u'); try done; [injection E2 as E2 _|]; lia.
Qed.

Lemma visited_pick u u' r r' got :
  shape u = shape u' -> visited u r got -> in_group u r' ->
  ((rr_group r' = rr_group r /\ newly_tried (tried r) (tried r') (current r')) \/
   (rr_group r = Primary /\ rr_group r' = Backup /\ tried_bit (tried r') (current r') = true)) ->
  visited u' r' (got ++ [(rr_group r', current r')]).
Proof.
  intros Hsh [Hnd Htr Hpr Hbd] (p & Hp & Hi) Hpick. constructor.
  - apply NoDup_app. split_and!; [done| |apply NoDup_singleton]. intros [g i] Hin.
    rewrite list_elem_of_singleton. intros [= -> ->]. destruct Hpick as [(Hg & Hu & _)|(Hg & Hg' & _)].
    + rewrite Hg in Hin. apply Htr in Hin. congruence.
    + specialize (Hpr Hg _ _ Hin). congruence.
  - intros i Hin. apply elem_of_app in Hin. rewrite list_elem_of_singleton in Hin.
    destruct Hpick as [(Hg & _ & Hb)|(Hg & Hg' & Hb)].
    + rewrite Hb. destruct Hin as [Hin|[= ->]]; [rewrite Hg in Hin; rewrite (Htr _ Hin); apply orb_true_r|].
      by rewrite bool_decide_true.
    + destruct Hin as [Hin|[= ->]]; [|done]. specialize (Hpr Hg _ _ Hin). congruence.
  - intros Hg g i Hin. apply elem_of_app in Hin. rewrite list_elem_of_singleton in Hin.
    destruct Hin as [Hin|[= -> _]]; [|done]. destruct Hpick as [(Hg' & _)|(_ & Hg' & _)]; [|congruence].
    apply (Hpr ltac:(congruence) g i Hin).
  - intros g i Hin. apply elem_of_app in Hin. rewrite list_elem_of_singleton in Hin.
    destruct Hin as [Hin|[= -> ->]].
    + destruct (Hbd _ _ Hin) as (q & Hq & Hqi). destruct (peers_of_shape _ _ _ _ Hsh Hq) as (q' & ? & ?).
      exists q'. split; [done|lia].
    + destruct (peers_of_shape _ _ _ _ Hsh Hp) as (q' & ? & ?). exists q'. split; [done|lia].
Qed.

(** What other requests may do to the peers (see rr_worker_invariant). *)
Definition harmless (others : nat -> bool -> upstream -> upstream) : Prop :=
  forall n b u, upstream_ok u -> upstream_ok (others n b u) /\ shape (others n b u) = shape u.

(** Several peers, also in the backup group. *)
Definition several (u : upstream) : Prop :=
  single (primary u) = false /\ forall b, backup u = Some b -> single b = false.

Lemma several_shape u u' : shape u = shape u' -> several u -> several u'.
Proof.
  unfold shape, several. intros [= _ E1 E2] [H1 H2]. split; [congruence|]. intros b Hb. rewrite Hb in E2.
  destruct (backup u) as [b0|]; [|done]. injection E2 as _ E2. rewrite <- E2. by apply H2.
Qed.

Lemma visited_shape u u' r got : shape u = shape u' -> visited u r got -> visited u' r got.
Proof.
  intros Hsh [H1 H2 H3 H4]. constructor; try done. intros g i Hin. destruct (H4 g i Hin) as (p & Hp & Hi).
  destruct (peers_of_shape _ _ _ _ Hsh Hp) as (p' & ? & ?). exists p'. split; [done|lia].
Qed.

Lemma retry_ends fuel now others u rrp pc got :
  harmless others -> upstream_ok u -> request_ok u rrp -> several u -> visited u rrp got ->
  (all_peers u < length got + fuel)%nat ->
  exists picks rc, retry fuel now others (u, rrp, pc) = Ret (picks, rc) /\
    NoDup (got ++ picks) /\ (length (got ++ picks) <= all_peers u)%nat.
Proof.
  intros Hoth. revert u rrp pc got. induction fuel as [|fuel IH]; intros u rrp pc got Hok Hr Hsev Hv Hfuel.
  { pose proof (visited_bound _ _ _ Hv). lia. }
  cbn [retry]. destruct (Hoth fuel false u Hok) as [Hok1 Hsh1]. set (u1 := others fuel false u) in *.
  pose proof (request_ok_shape _ _ _ (eq_sym Hsh1) Hr) as Hr1. pose proof (several_shape _ _ (eq_sym Hsh1) Hsev) as Hsev1.
  destruct (get_rr_spec (now fuel) u1 rrp pc Hok1 Hr1) as (u2 & r2 & p2 & rc & Hget & Hk & Hgp & Hbk).
  rewrite Hget. cbn [outcome_bind]. pose proof (all_peers_shape _ _ Hsh1) as Hall.
  destruct (Z.eqb_spec rc NGX_BUSY) as [->|Hrc].
  { eexists _, _. split; [reflexivity|]. rewrite app_nil_r. split; [apply Hv|by eapply visited_bound]. }
  destruct Hgp as [[-> Hh]|]; [|done].
  destruct (get_rr_pick (now fuel) u1 rrp pc u2 r2 p2 Hok1 Hr1 (proj1 Hsev1) (proj2 Hsev1) Hget) as [Hin Hpick].
  destruct (Hoth fuel true u2 (k_ok _ _ _ _ Hk)) as [Hok3 Hsh3]. set (u3 := others fuel true u2) in *.
  destruct (free_rr_spec (now fuel) NGX_PEER_FAILED u3 r2 p2 Hok3) as (u4 & p4 & -> & Hk4);
    [by apply (holds_shape u2)|]. cbn [outcome_bind].
  assert (shape u1 = shape u4) as Hsh4 by (rewrite (k_shape _ _ _ _ Hk4), Hsh3, (k_shape _ _ _ _ Hk); done).
  assert (visited u4 r2 (got ++ [(rr_group r2, current r2)])) as Hv4
    by (apply (visited_pick u1 u4 rrp); [done|by apply (visited_shape u)|done|done]).
  assert (all_peers u4 = all_peers u) as Hall4 by (rewrite <- Hall; by apply all_peers_shape).
  destruct (tries p4 =? 0).
  { eexists _, _. split; [reflexivity|]. split; [apply Hv4|]. rewrite <- Hall4. by eapply visited_bound. }
  destruct (IH u4 r2 p4 (got ++ [(rr_group r2, current r2)])) as (picks & rc & -> & Hnd & Hlen).
  - apply Hk4.
  - apply (request_ok_shape u1); [done|]. apply (kept_request u1 u1 rrp r2); [|done|done].
    constructor; [done|done|apply Hk].
  - by apply (several_shape u1).
  - done.
  - rewrite Hall4, length_app. cbn [length]. lia.
  - cbn [outcome_bind]. eexists _, _. split; [reflexivity|]. rewrite cons_middle, app_assoc. split; [done|lia].
Qed.

(** C35: a request runs out of peers.  Even if every peer it takes fails, and
    whatever other requests do to the peers in between, the rounds of
    ngx_http_upstream_next end: no peer is given to it twice, so that it has at
    most as many as both groups hold before the tries are used up or NGX_BUSY
    is the answer. *)
Theorem rr_retries_end fuel now others u rrp pc pc' :
  harmless others -> upstream_ok u -> several u ->
  ngx_http_upstream_init_round_robin_peer u pc = (rrp, pc') -> (all_peers u < fuel)%nat ->
  exists picks rc, retry fuel now others (u, rrp, pc') = Ret (picks, rc) /\
    NoDup picks /\ (length picks <= all_peers u)%nat.
Proof.
  intros Hoth Hok Hsev Hinit Hfuel.
  destruct (retry_ends fuel now others u rrp pc' []) as (picks & rc & H); try done; [by eapply init_peer_ok| |by eauto].
  constructor; [constructor|by intros ? ?%elem_of_nil|by intros ? ? ? ?%elem_of_nil|by intros ? ? ?%elem_of_nil].
Qed.

(** * Examples *)

Definition demo_servers : list ngx_http_upstream_server_t :=
  [MkServer [$"a:80"] 1 1 10 false false; MkServer [$"b:80"] 5 1 10 false false;
   MkServer [$"c:80"] 1 1 10 false false].

Definition demo_upstream : upstream :=
  Eval vm_compute in
    match init_servers $"backend" demo_servers with
    | Some u => u | None => MkUpstream (MkPeers [] 0 false false [] []) None
    end.

Lemma demo_servers_ok : Forall server_ok demo_servers.
Proof. repeat constructor; cbn; lia. Qed.

Definition demo_pc : ngx_peer_connection_t := MkPc None false [] [] 0.

(** Two requests arrive, each takes a peer, and the peer of the first fails. *)
Definition demo_get (k : nat) (w : worker) : worker :=
  match requests w !! k with
  | Some (rrp, pc, _) =>
    match ngx_http_upstream_get_round_robin_peer 100 (up w, rrp, pc) with
    | Ret (u, rrp, pc, rc) => MkWorker u (<[k := (rrp, pc, rc =? NGX_OK)]> (requests w))
    | _ => w
    end
  | None => w
  end.

Definition demo_free (k : nat) (w : worker) : worker :=
  match requests w !! k with
  | Some (rrp, pc, _) =>
    match ngx_http_upstream_free_round_robin_peer 101 NGX_PEER_FAILED (up w, rrp, pc) with
    | Ret (u, rrp, pc) => MkWorker u (<[k := (rrp, pc, false)]> (requests w))
    | _ => w
    end
  | None => w
  end.

Definition demo_arrive (w : worker) : worker :=
  let '(rrp, pc) := ngx_http_upstream_init_round_robin_peer (up w) demo_pc in
  MkWorker (up w) (requests w ++ [(rrp, pc, false)]).

Definition demo_worker : worker :=
  demo_free 0 (demo_get 1 (demo_get 0 (demo_arrive (demo_arrive (MkWorker demo_upstream []))))).

Lemma demo_run : rtc rr_step (MkWorker demo_upstream []) demo_worker.
Proof.
  eapply rtc_l; [by eapply (rr_arrive _ demo_pc)|]. eapply rtc_l; [by eapply (rr_arrive _ demo_pc)|].
  eapply rtc_l; [by eapply (rr_get _ 0 _ _ 100)|]. eapply rtc_l; [by eapply (rr_get _ 1 _ _ 100)|].
  eapply rtc_l; [by eapply (rr_free _ 0 _ _ 101 NGX_PEER_FAILED)|]. vm_compute. apply rtc_refl.
Qed.

Lemma rr_worker_invariant_witness :
  map current_weight (peer (primary (up demo_worker))) = [-4; 2; 2] /\ weights_sum (peer (primary (up demo_worker))) = 0.
Proof.
  split; [vm_compute; reflexivity|].
  apply (rr_worker_invariant $"backend" demo_servers demo_upstream demo_worker
           demo_servers_ok eq_refl demo_run) with (p := implicit_peer []). by left.
Defined.

Lemma rr_fair_witness :
  exists u' ks,
    serve_all (repeat 100 7) demo_upstream = Ret (u', map (fun i => Some (Primary, i)) ks) /\
    (forall i w, [5; 1; 1] !! i = Some w -> Z.of_nat (count_occ Nat.eq_dec ks i) = w) /\
    full [5; 1; 1] (primary u') /\ Forall (fun p => current_weight p = 0) (peer (primary u')).
Proof.
  apply (rr_fair $"backend" demo_servers demo_upstream (repeat 100 7) demo_servers_ok); reflexivity.
Defined.

Lemma rr_retries_end_witness :
  exists picks rc, retry 4 (fun _ => 100) (fun _ _ u => u)
      (demo_upstream, MkRrp Primary 0 [0], MkPc None false [] [] 3) = Ret (picks, rc) /\
    NoDup picks /\ (length picks <= 3)%nat.
Proof.
  apply (rr_retries_end 4 (fun _ => 100) (fun _ _ u => u) demo_upstream (MkRrp Primary 0 [0]) (MkPc None false [] [] 0)).
  - by intros n b u.
  - apply (init_servers_ok $"backend" demo_servers); [apply demo_servers_ok|reflexivity].
  - by split.
  - reflexivity.
  - cbn. lia.
Defined.
