(* ===== verification/NgxLocation.v ===== *)
(** The choice of the location of a request: the queue, the list and the tree of
    the locations, src/http/ngx_http.c, and the search,
    ngx_http_core_find_location of src/http/ngx_http_core_module.c.

    A location is kept by value; the code never reaches one by two ways that it
    changes.  The queues and the trees are polymorphic in what they point to, so
    that a location can hold a queue and a tree of locations.  r->loc_conf, the
    array of the settings of all modules, stands for the location it belongs to.
    A name ends in a NUL that is not an element of its list.  The regular
    expressions are a parameter.  Allocation succeeds, so that NGX_ERROR is only
    a duplicate location. *)

From S2P Require Import Prelude NgxSort.

#[local] Set Warnings "-register-all".

(** * String comparisons of the C library *)

(** The end of a list is its NUL. *)
Fixpoint ngx_strcmp (s t : list Z) : Z :=
  match s with
  | [] => - hd 0 t
  | a :: s => if a =? hd 0 t then (if a =? 0 then 0 else ngx_strcmp s (tl t)) else a - hd 0 t
  end.

Fixpoint ngx_strncmp (s t : list Z) (n : nat) : Z :=
  match n with
  | O => 0
  | S n =>
    let a := hd 0 s in
    if a =? hd 0 t then (if a =? 0 then 0 else ngx_strncmp (tl s) (tl t) n) else a - hd 0 t
  end.

(** Of as many bytes as both have, n by its callers. *)
Fixpoint ngx_memcmp (s t : list Z) : Z :=
  match s, t with
  | a :: s, b :: t => if a =? b then ngx_memcmp s t else a - b
  | _, _ => 0
  end.

Module Location.

(** * Data *)

(** The fields of a location that the choice depends on; a compiled expression
    is its number. *)
Record loc_attrs := MkAttrs {
  loc_name : list Z; loc_regex : option Z;
  noname : bool; named : bool; exact_match : bool; noregex : bool; auto_redirect : bool }.

Definition is_some {A} (o : option A) : bool := match o with Some _ => true | None => false end.

Inductive location_queue (A : Type) :=
| Lq (exact inclusive : option A) (name : list Z) (list : list (location_queue A)).

Arguments Lq {A} exact inclusive name list.

(** [NoNode] is a null pointer. *)
Inductive tree_node (A : Type) :=
| NoNode
| Node (left right tree : tree_node A) (exact inclusive : option A) (auto_redirect : bool) (len : Z)
    (name : list Z).

Arguments NoNode {A}.
Arguments Node {A} left right tree exact inclusive auto_redirect len name.

(** regex_locations is an array of pointers. *)
Inductive core_loc_conf :=
| Clcf (a : loc_attrs) (locations : option (list (location_queue core_loc_conf)))
    (static_locations : tree_node core_loc_conf) (regex_locations : option (list (option core_loc_conf))).

Definition attrs (c : core_loc_conf) : loc_attrs := let 'Clcf a _ _ _ := c in a.

Definition lq_exact {A} (q : location_queue A) : option A := let 'Lq e _ _ _ := q in e.
Definition lq_inclusive {A} (q : location_queue A) : option A := let 'Lq _ i _ _ := q in i.
Definition lq_name {A} (q : location_queue A) : list Z := let 'Lq _ _ n _ := q in n.
Definition lq_list {A} (q : location_queue A) : list (location_queue A) := let 'Lq _ _ _ l := q in l.

Definition set_inclusive {A} (i : option A) (q : location_queue A) : location_queue A :=
  Lq (lq_exact q) i (lq_name q) (lq_list q).

Definition set_list {A} (l : list (location_queue A)) (q : location_queue A) : location_queue A :=
  Lq (lq_exact q) (lq_inclusive q) (lq_name q) l.

(** lq->exact ? lq->exact : lq->inclusive *)
Definition lq_conf {A} (q : location_queue A) : option A :=
  match lq_exact q with Some c => Some c | None => lq_inclusive q end.

(** A change of the location that lq_conf points to. *)
Definition set_conf {A} (c : A) (q : location_queue A) : location_queue A :=
  match lq_exact q with
  | Some _ => Lq (Some c) (lq_inclusive q) (lq_name q) (lq_list q)
  | None => Lq None (Some c) (lq_name q) (lq_list q)
  end.

(** * Building the tree *)

Section build.
Context {A : Type} (attrs_of : A -> loc_attrs).

Definition lq_of (clcf : A) : location_queue A :=
  let a := attrs_of clcf in
  if exact_match a || is_some (loc_regex a) || named a || noname a
  then Lq (Some clcf) None (loc_name a) []
  else Lq None (Some clcf) (loc_name a) [].

Definition ngx_http_add_location (locations : option (list (location_queue A))) (clcf : A)
    : option (list (location_queue A)) :=
  Some (default [] locations ++ [lq_of clcf]).

Definition cmp_attrs (first second : loc_attrs) : Z :=
  if noname first && negb (noname second) then 1
  else if negb (noname first) && noname second then -1
  else if noname first || noname second then 0
  else if named first && negb (named second) then 1
  else if negb (named first) && named second then -1
  else if named first && named second then ngx_strcmp (loc_name first) (loc_name second)
  else if is_some (loc_regex first) && negb (is_some (loc_regex second)) then 1
  else if negb (is_some (loc_regex first)) && is_some (loc_regex second) then -1
  else if is_some (loc_regex first) || is_some (loc_regex second) then 0
  else
    let rc := ngx_strcmp (loc_name first) (loc_name second) in
    if (rc =? 0) && negb (exact_match first) && exact_match second then 1 else rc.

(** Every element of a queue has a location. *)
Definition ngx_http_cmp_locations (one two : location_queue A) : Z :=
  match lq_conf one, lq_conf two with
  | Some first, Some second => cmp_attrs (attrs_of first) (attrs_of second)
  | _, _ => 0
  end.

(** [None] is NGX_ERROR, for a duplicate location. *)
Fixpoint join_from (lq : location_queue A) (rest : list (location_queue A))
    : option (list (location_queue A)) :=
  match rest with
  | [] => Some [lq]
  | lx :: rest =>
    if ngx_strcmp (lq_name lq) (lq_name lx) =? 0 then
      if (is_some (lq_exact lq) && is_some (lq_exact lx))
         || (is_some (lq_inclusive lq) && is_some (lq_inclusive lx))
      then None
      else join_from (set_inclusive (lq_inclusive lx) lq) rest
    else
      match join_from lx rest with
      | Some l => Some (lq :: l)
      | None => None
      end
  end.

Definition ngx_http_join_exact_locations (locations : list (location_queue A))
    : option (list (location_queue A)) :=
  match locations with
  | [] => Some []
  | q :: rest => join_from q rest
  end.

(** The inner loop of ngx_http_create_locations_list: the elements after q that
    begin with its name, and the rest from x on. *)
Fixpoint split_inside (name : list Z) (rest : list (location_queue A))
    : list (location_queue A) * list (location_queue A) :=
  match rest with
  | [] => ([], [])
  | lx :: rest' =>
    if (length (lq_name lx) <? length name)%nat
       || negb (ngx_strncmp name (lq_name lx) (length name) =? 0)
    then ([], rest)
    else let '(inside, after) := split_inside name rest' in (lx :: inside, after)
  end.

(** The queue from q on. *)
Fixpoint ngx_http_create_locations_list (fuel : nat) (locations : list (location_queue A))
    : outcome (list (location_queue A)) :=
  match fuel with
  | O => NoFuel
  | S fuel =>
    match locations with
    | [] | [_] => Ret locations
    | lq :: rest =>
      match lq_inclusive lq with
      | None =>
        let! rest := ngx_http_create_locations_list fuel rest in Ret (lq :: rest)
      | Some _ =>
        match split_inside (lq_name lq) rest with
        | ([], x) =>
          let! x := ngx_http_create_locations_list fuel x in Ret (lq :: x)
        | (inside, []) =>
          let! list := ngx_http_create_locations_list fuel (lq_list lq ++ inside) in
          Ret [set_list list lq]
        | (inside, x) =>
          let! list := ngx_http_create_locations_list fuel (lq_list lq ++ inside) in
          let! x := ngx_http_create_locations_list fuel x in
          Ret (set_list list lq :: x)
        end
      end
    end
  end.

Definition redirects (c : option A) : bool :=
  match c with Some c => auto_redirect (attrs_of c) | None => false end.

Fixpoint ngx_http_create_locations_tree (fuel : nat) (locations : list (location_queue A)) (prefix : nat)
    : outcome (tree_node A) :=
  match fuel with
  | O => NoFuel
  | S fuel =>
    let! q := ngx_queue_middle locations in
    match locations !! q with
    | None => Undefined
    | Some lq =>
      let len := (length (lq_name lq) - prefix)%nat in
      let! ltree :=
        match take q locations with
        | [] => Ret NoNode
        | l => ngx_http_create_locations_tree fuel l prefix
        end in
      let! rtree :=
        match take q locations, drop (S q) locations with
        | [], _ | _, [] => Ret NoNode
        | _, l => ngx_http_create_locations_tree fuel l prefix
        end in
      let! tree :=
        match lq_list lq with
        | [] => Ret NoNode
        | l => ngx_http_create_locations_tree fuel l (prefix + len)
        end in
      Ret (Node ltree rtree tree (lq_exact lq) (lq_inclusive lq)
             (redirects (lq_exact lq) || redirects (lq_inclusive lq))
             (wrapU 8 (Z.of_nat len)) (drop prefix (lq_name lq)))
    end
  end.

(** * The search in the tree *)

(** [conf] is r->loc_conf; a null node->inclusive is undefined. *)
Fixpoint find_static (node : tree_node A) (uri : list Z) (rv : Z) (conf : A) : outcome (Z * A) :=
  match node with
  | NoNode => Ret (rv, conf)
  | Node ltree rtree tree exact inclusive auto_redirect nlen name =>
    let len := Z.of_nat (length uri) in
    let n := Z.to_nat (if len <=? nlen then len else nlen) in
    let rc := ngx_memcmp (take n uri) (take n name) in
    if negb (rc =? 0) then find_static (if rc <? 0 then ltree else rtree) uri rv conf
    else if len >? nlen then
      match inclusive with
      | Some c => find_static tree (drop n uri) NGX_AGAIN c
      | None => find_static rtree uri rv conf
      end
    else if len =? nlen then
      match exact, inclusive with
      | Some c, _ => Ret (NGX_OK, c)
      | None, Some c => Ret (NGX_AGAIN, c)
      | None, None => Undefined
      end
    else if (len + 1 =? nlen) && auto_redirect then
      match exact, inclusive with
      | Some c, _ | None, Some c => find_static ltree uri NGX_DONE c
      | None, None => Undefined
      end
    else find_static ltree uri rv conf
  end.

Definition ngx_http_core_find_static_location (uri : list Z) (node : tree_node A) (conf : A)
    : outcome (Z * A) :=
  find_static node uri NGX_DECLINED conf.
End build.

(** * Initialisation *)

(** What the loop of ngx_http_init_locations leaves: the queue, the first regex
    and the first named element with their numbers, and where it stopped. *)
Record scan_result := MkScan {
  scanned : list (location_queue core_loc_conf);
  first_regex : option nat; n_regex : nat; first_named : option nat; n_named : nat; stopped : nat }.

Definition scan_cons (q : location_queue core_loc_conf) (s : scan_result) : scan_result :=
  MkScan (q :: scanned s) (first_regex s) (n_regex s) (first_named s) (n_named s) (stopped s).

Definition or_pos (o : option nat) (pos : nat) : option nat :=
  match o with Some p => Some p | None => Some pos end.

Fixpoint scan_locations (init : core_loc_conf -> outcome core_loc_conf)
    (l : list (location_queue core_loc_conf)) (pos : nat) (regex : option nat) (r : nat)
    (named_ : option nat) (n : nat) : outcome scan_result :=
  match l with
  | [] => Ret (MkScan [] regex r named_ n pos)
  | lq :: l =>
    match lq_conf lq with
    | None => Undefined
    | Some clcf =>
      let! clcf := init clcf in
      let lq := set_conf clcf lq in
      if is_some (loc_regex (attrs clcf)) then
        let! s := scan_locations init l (S pos) (or_pos regex pos) (S r) named_ n in
        Ret (scan_cons lq s)
      else if named (attrs clcf) then
        let! s := scan_locations init l (S pos) regex r (or_pos named_ pos) (S n) in
        Ret (scan_cons lq s)
      else if noname (attrs clcf) then Ret (MkScan (lq :: l) regex r named_ n pos)
      else
        let! s := scan_locations init l (S pos) regex r named_ n in
        Ret (scan_cons lq s)
    end
  end.

(** The elements from [first] on, copied into an array with room for [n] of
    them and the null pointer, and the queue that is left. *)
Definition cut_locations {A} (first : option nat) (n : nat) (l : list (location_queue A))
    : outcome (option (list (option A)) * list (location_queue A)) :=
  match first with
  | None => Ret (None, l)
  | Some i =>
    if (n <? length (drop i l))%nat then Undefined
    else Ret (Some (map lq_exact (drop i l)), take i l)
  end.

(** [server]: whether cscf is not null.  The result is cscf->named_locations
    and the location. *)
Fixpoint ngx_http_init_locations (fuel : nat) (server : bool) (pclcf : core_loc_conf)
    : outcome (option (list (option core_loc_conf)) * core_loc_conf) :=
  match fuel with
  | O => NoFuel
  | S fuel =>
    let 'Clcf a locations st regexes := pclcf in
    match locations with
    | None => Ret (None, pclcf)
    | Some l =>
      let l := ngx_queue_sort (ngx_http_cmp_locations attrs) l in
      let! s := scan_locations (fun c => let! (_, c) := ngx_http_init_locations fuel false c in Ret c)
                  l 0 None 0 None 0 in
      let l := take (stopped s) (scanned s) in
      let! (named_locations, l) := cut_locations (first_named s) (n_named s) l in
      if is_some named_locations && negb server then Undefined
      else
        let! (regex_locations, l) := cut_locations (first_regex s) (n_regex s) l in
        Ret (named_locations,
             Clcf a (Some l) st (if is_some regex_locations then regex_locations else regexes))
    end
  end.

(** The loop of ngx_http_init_static_location_trees. *)
Fixpoint each_location (init : core_loc_conf -> outcome (option core_loc_conf))
    (l : list (location_queue core_loc_conf)) : outcome (option (list (location_queue core_loc_conf))) :=
  match l with
  | [] => Ret (Some [])
  | lq :: l =>
    match lq_conf lq with
    | None => Undefined
    | Some clcf =>
      let! clcf := init clcf in
      match clcf with
      | None => Ret None
      | Some clcf =>
        let! l := each_location init l in
        match l with
        | None => Ret None
        | Some l => Ret (Some (set_conf clcf lq :: l))
        end
      end
    end
  end.

(** [None] is NGX_ERROR.  The queue is taken apart by the construction of the
    tree and not used again: it is dropped. *)
Fixpoint ngx_http_init_static_location_trees (fuel : nat) (pclcf : core_loc_conf)
    : outcome (option core_loc_conf) :=
  match fuel with
  | O => NoFuel
  | S fuel =>
    let 'Clcf a locations st regexes := pclcf in
    match locations with
    | None | Some [] => Ret (Some pclcf)
    | Some l =>
      let! l := each_location (ngx_http_init_static_location_trees fuel) l in
      match l with
      | None => Ret None
      | Some l =>
        match ngx_http_join_exact_locations l with
        | None => Ret None
        | Some l =>
          let! q := ngx_http_create_locations_list (length l) l in
          let! t := ngx_http_create_locations_tree attrs (length l) q 0 in
          Ret (Some (Clcf a None t regexes))
        end
      end
    end
  end.

(** What ngx_http_block does with the locations of a server. *)
Definition init_server (fuel : nat) (clcf : core_loc_conf) : outcome (option core_loc_conf) :=
  let! (_, clcf) := ngx_http_init_locations fuel true clcf in
  ngx_http_init_static_location_trees fuel clcf.

(** * The search *)

Section find.
(** ngx_http_regex_exec: NGX_OK, NGX_DECLINED or an error. *)
Context (regex_exec : Z -> list Z -> Z).

Definition regex_of (c : core_loc_conf) : Z := default 0 (loc_regex (attrs c)).

(** The loop over the regex locations: the first that matches, [None] if none
    does; an error ends it. *)
Fixpoint find_regex (uri : list Z) (l : list (option core_loc_conf)) : option core_loc_conf + unit :=
  match l with
  | [] | None :: _ => inl None
  | Some c :: l =>
    let n := regex_exec (regex_of c) uri in
    if n =? NGX_OK then inl (Some c)
    else if n =? NGX_DECLINED then find_regex uri l
    else inr tt
  end.

(** The argument and the result have r->loc_conf. *)
Fixpoint ngx_http_core_find_location (fuel : nat) (uri : list Z) (pclcf : core_loc_conf)
    : outcome (Z * core_loc_conf) :=
  match fuel with
  | O => NoFuel
  | S fuel =>
    let 'Clcf _ _ static_locations regex_locations := pclcf in
    let! (rc, clcf) := ngx_http_core_find_static_location uri static_locations pclcf in
    let! (rc, clcf, noregex_) :=
      if rc =? NGX_AGAIN then
        let! (rc', clcf') := ngx_http_core_find_location fuel uri clcf in
        Ret (rc', clcf', noregex (attrs clcf))
      else Ret (rc, clcf, false) in
    if (rc =? NGX_OK) || (rc =? NGX_DONE) then Ret (rc, clcf)
    else
      match regex_locations with
      | Some l =>
        if noregex_ then Ret (rc, clcf)
        else
          match find_regex uri l with
          | inl None => Ret (rc, clcf)
          | inl (Some c) =>
            let! (rc, c) := ngx_http_core_find_location fuel uri c in
            Ret (if rc =? NGX_ERROR then rc else NGX_OK, c)
          | inr _ => Ret (NGX_ERROR, clcf)
          end
      | None => Ret (rc, clcf)
      end
  end.
End find.

(** * The directive *)

(** The number of an expression, compiled with or without regard to case;
    [None] is an error. *)
Section directive.
Context (regex_compile : list Z -> bool -> option Z).

(** A location with nothing set. *)
Definition no_attrs : loc_attrs := MkAttrs [] None false false false false false.

Definition ngx_http_core_regex_location (regex : list Z) (caseless : bool) : option loc_attrs :=
  match regex_compile regex caseless with
  | Some n => Some (MkAttrs regex (Some n) false false false false false)
  | None => None
  end.

(** The arguments after the word "location": [None] is NGX_CONF_ERROR. *)
Definition location_args (args : list (list Z)) : option loc_attrs :=
  match args with
  | [mod_; name] =>
    if bool_decide (mod_ = $"=") then Some (MkAttrs name None false false true false false)
    else if bool_decide (mod_ = $"^~") then Some (MkAttrs name None false false false true false)
    else if bool_decide (mod_ = $"~") then ngx_http_core_regex_location name false
    else if bool_decide (mod_ = $"~*") then ngx_http_core_regex_location name true
    else None
  | [name] =>
    if hd 0 name =? "="%c then Some (MkAttrs (tl name) None false false true false false)
    else if (hd 0 name =? "^"%c) && (hd 0 (tl name) =? "~"%c)
    then Some (MkAttrs (tl (tl name)) None false false false true false)
    else if hd 0 name =? "~"%c then
      if hd 0 (tl name) =? "*"%c then ngx_http_core_regex_location (tl (tl name)) true
      else ngx_http_core_regex_location (tl name) false
    else Some (MkAttrs name None false (hd 0 name =? "@"%c) false false false)
  | _ => None
  end.

(** Whether a location may stand in a location. *)
Definition nested_ok (parent a : loc_attrs) : bool :=
  match loc_name parent with
  | [] => true
  | pname =>
    negb (exact_match parent) && negb (named parent) && negb (named a)
    && (is_some (loc_regex a) || (ngx_strncmp (loc_name a) pname (length pname) =? 0))
  end.

(** A location block of the configuration; [redirecting] says that a directive
    in it (proxy_pass and the like) sets auto_redirect. *)
Inductive block := Block (args : list (list Z)) (redirecting : bool) (body : list block).

Definition set_auto_redirect v (a : loc_attrs) : loc_attrs :=
  MkAttrs (loc_name a) (loc_regex a) (noname a) (named a) (exact_match a) (noregex a) v.

(** The locations of a block are added to it one by one; an error ends the
    reading. *)
Definition add_each (read : block -> option core_loc_conf) (body : list block)
    : option (option (list (location_queue core_loc_conf))) :=
  fold_left (fun o b =>
    match o, read b with
    | Some locations, Some c => Some (ngx_http_add_location attrs locations c)
    | _, _ => None
    end) body (Some None).

Fixpoint ngx_http_core_location (parent : loc_attrs) (b : block) : option core_loc_conf :=
  let 'Block args redirecting body := b in
  match location_args args with
  | None => None
  | Some a =>
    if nested_ok parent a then
      match add_each (ngx_http_core_location a) body with
      | None => None
      | Some locations => Some (Clcf (set_auto_redirect redirecting a) locations NoNode None)
      end
    else None
  end.

(** The locations of a server block, whose own name is empty. *)
Definition read_server (body : list block) : option core_loc_conf :=
  match add_each (ngx_http_core_location no_attrs) body with
  | None => None
  | Some locations => Some (Clcf no_attrs locations NoNode None)
  end.
End directive.

End Location.
