(* ===== verification/NgxLocationTree.v ===== *)
(** The tree of the locations finds what the configuration names: proofs on the
    queue, the list and the tree of NgxLocation.

    Names are ordered byte by byte ([lexlt]).  After the sort and the join the
    names of a queue increase strictly; ngx_http_create_locations_list nests
    them by prefix ([level]) and keeps them in this order; the search in the
    tree made of them comes to the [choice] for a URI. *)

From stdpp Require Import sorting.
From S2P Require Import Prelude NgxSort NgxLocation.

#[local] Open Scope Z_scope.

Module LocationTree.
Import Location.

(** * The order of names *)

Fixpoint lexlt (s t : list Z) : Prop :=
  match s, t with
  | _, [] => False
  | [], _ :: _ => True
  | a :: s, b :: t => a < b \/ (a = b /\ lexlt s t)
  end.

(** [s] is smaller at a place that both have. *)
Definition differs (s t : list Z) : Prop :=
  exists p a b s' t', s = p ++ a :: s' /\ t = p ++ b :: t' /\ a < b.

Lemma lexlt_irrefl s : ~ lexlt s s.
Proof. induction s as [|a s IH]; cbn; [tauto|]. intros [?|[_ ?]]; [lia|tauto]. Qed.

Lemma lexlt_trans s t v : lexlt s t -> lexlt t v -> lexlt s v.
Proof.
  revert t v. induction s as [|a s IH]; intros [|b t] [|c v]; cbn; try done.
  intros [?|[-> ?]] [?|[-> ?]]; [left; lia|left; lia|left; lia|right]. split; [done|]. by apply (IH t).
Qed.

Lemma lexlt_total s t : lexlt s t \/ s = t \/ lexlt t s.
Proof.
  revert t. induction s as [|a s IH]; intros [|b t]; cbn; try tauto.
  destruct (Z.lt_total a b) as [?|[->|?]]; [tauto| |tauto].
  destruct (IH t) as [?|[->|?]]; tauto.
Qed.

Lemma prefix_lexlt s t : s `prefix_of` t -> s <> t -> lexlt s t.
Proof.
  intros [k ->] H. destruct k as [|a k]; [by rewrite app_nil_r in H|].
  clear H. induction s as [|b s IH]; cbn; [done|]. auto.
Qed.

Lemma differs_lexlt s t : differs s t -> lexlt s t.
Proof.
  intros (p & a & b & s' & t' & -> & -> & Hab). induction p; cbn; auto.
Qed.

Lemma differs_app s t k : differs s t -> differs (s ++ k) t.
Proof.
  intros (p & a & b & s' & t' & -> & -> & ?). exists p, a, b, (s' ++ k), t'. by rewrite <- app_assoc.
Qed.

Lemma differs_app_r s t k : differs s t -> differs s (t ++ k).
Proof.
  intros (p & a & b & s' & t' & -> & -> & ?). exists p, a, b, s', (t' ++ k). by rewrite <- app_assoc.
Qed.

Lemma differs_prefix s t : differs s t -> ~ s `prefix_of` t.
Proof.
  intros (p & a & b & s' & t' & -> & -> & Hab) H. apply prefix_app_inv, prefix_cons_inv_1 in H. lia.
Qed.

Lemma differs_app_l p s t : differs s t -> differs (p ++ s) (p ++ t).
Proof.
  intros (p' & a & b & s' & t' & -> & -> & Hab). exists (p ++ p'), a, b, s', t'. by rewrite !app_assoc.
Qed.

(** What lies between a name and an extension of it extends it. *)
Lemma lexlt_between e q u :
  e `prefix_of` u -> lexlt e q -> lexlt q u -> e `prefix_of` q.
Proof.
  intros [k ->]. revert q. induction e as [|a e IH]; intros q H1 H2; [apply prefix_nil|].
  destruct q as [|b q]; [done|]. cbn in H1, H2.
  destruct H1 as [?|[-> ?]], H2 as [?|[? ?]]; try lia. apply prefix_cons. by apply IH.
Qed.

(** A prefix of an extension of [u] is before everything that [u] differs from. *)
Lemma before_differs u q e c :
  differs u q -> e `prefix_of` (u ++ c) -> lexlt e q.
Proof.
  intros Hd He. assert (lexlt (u ++ c) q) as Hl by by apply differs_lexlt, differs_app.
  destruct (decide (e = u ++ c)) as [->|Hne]; [done|].
  eapply lexlt_trans; [|exact Hl]. by apply prefix_lexlt.
Qed.

(** Among increasing names each is there once. *)
Lemma increasing_unique {B} (f : B -> list Z) l x y :
  StronglySorted lexlt (map f l) -> x ∈ l -> y ∈ l -> f x = f y -> x = y.
Proof.
  induction l as [|z l IH]; cbn [map]; [by intros _ ?%elem_of_nil|].
  intros [Hz Hs]%StronglySorted_cons Hx Hy Hf. rewrite Forall_forall in Hz.
  assert (forall v, v ∈ l -> f v <> f z) as Hne.
  { intros v Hv Hv'. apply (lexlt_irrefl (f z)). rewrite <- Hv' at 2. apply Hz. by apply list_elem_of_fmap_2. }
  apply elem_of_cons in Hx as [->|Hx], Hy as [->|Hy]; [done| | |by apply IH].
  - by destruct (Hne y Hy).
  - by destruct (Hne x Hx).
Qed.

(** ** The comparisons of the C library *)

Definition no_nul (s : list Z) : Prop := Forall (fun b => 0 < b < 256) s.

Lemma ngx_strcmp_spec s t :
  no_nul s -> no_nul t ->
  (ngx_strcmp s t < 0 <-> lexlt s t) /\ (ngx_strcmp s t = 0 <-> s = t).
Proof.
  intros Hs. revert t. induction Hs as [|a s Ha Hs IH]; intros [|b t] Ht; cbn [ngx_strcmp lexlt hd tl].
  - split; [lia|done].
  - apply Forall_cons in Ht as [Hb _]. cbn beta in *. split; [lia|]. split; [intros; exfalso; lia|done].
  - cbn beta in *. case_if E; boolify; [lia|]. split; [lia|]. split; [intros; exfalso; lia|done].
  - apply Forall_cons in Ht as [Hb Ht]. destruct (IH t Ht) as [I1 I2]. cbn beta in *. case_if E; boolify.
    + subst. case_if E2; boolify; [lia|]. rewrite I1, I2. split.
      * split; [tauto|]. intros [?|[_ ?]]; [lia|done].
      * split; congruence.
    + split; [|split; [intros; exfalso; lia|congruence]]. split; [lia|]. intros [?|[? ?]]; lia.
Qed.

Lemma ngx_strncmp_prefix s t :
  no_nul s -> (length s <= length t)%nat -> ngx_strncmp s t (length s) = 0 <-> s `prefix_of` t.
Proof.
  intros Hs. revert t. induction Hs as [|a s Ha Hs IH]; intros [|b t] Hl; cbn [length ngx_strncmp hd tl] in *.
  - split; [intros; apply prefix_nil|done].
  - split; [intros; apply prefix_nil|done].
  - lia.
  - cbn beta in *. case_if E; boolify.
    + subst. case_if E2; boolify; [lia|]. rewrite IH by lia. split; [apply prefix_cons|apply prefix_cons_inv_2].
    + split; [intros; exfalso; lia|]. intros H%prefix_cons_inv_1. lia.
Qed.

(** Of two texts cut to the shorter one. *)
Lemma ngx_memcmp_spec u k :
  let n := Nat.min (length u) (length k) in
  let rc := ngx_memcmp (take n u) (take n k) in
  (rc < 0 -> differs u k) /\ (0 < rc -> differs k u)
  /\ (rc = 0 -> if (length k <=? length u)%nat then k `prefix_of` u else u `prefix_of` k).
Proof.
  revert k. induction u as [|a u IH]; intros [|b k]; cbn [length Nat.min take ngx_memcmp Nat.leb].
  - split_and!; try lia. intros. apply prefix_nil.
  - split_and!; try lia. intros. apply prefix_nil.
  - split_and!; try lia. intros. apply prefix_nil.
  - specialize (IH k). cbv zeta in IH. destruct IH as (I1 & I2 & I3).
    assert (forall s t, differs s t -> differs (a :: s) (a :: t)) as Hc.
    { intros s t (p & x & y & s' & t' & -> & -> & ?). by exists (a :: p), x, y, s', t'. }
    case_if E; boolify.
    + subst b. split_and!; [auto|auto|]. intros H. specialize (I3 H).
      destruct (length k <=? length u)%nat; by apply prefix_cons.
    + split_and!; [| |lia]; intros; [exists [], a, b, u, k|exists [], b, a, k, u]; split_and!; done || lia.
Qed.

(** * The nested list *)

Section tree.
Context {A : Type} (attrs_of : A -> loc_attrs).
Implicit Types (q x e : location_queue A) (l : list (location_queue A)).

(** The elements of a list with those of the lists in them, in the order of
    the names. *)
Fixpoint entries q : list (location_queue A) :=
  let 'Lq _ _ _ l := q in q :: flat_map entries l.

Definition flat l : list (location_queue A) := flat_map entries l.

Definition view q := (lq_exact q, lq_inclusive q, lq_name q).

Definition before x e : Prop := lexlt (lq_name x) (lq_name e).

(** [e] is after [x] and does not belong into its list. *)
Definition separated x e : Prop :=
  before x e /\ (lq_inclusive x <> None -> ~ lq_name x `prefix_of` lq_name e).

(** A list whose elements are in order, and nested wherever the name of an
    inclusive location begins another one. *)
Inductive level : list (location_queue A) -> Prop :=
| level_nil : level []
| level_cons q l :
    level (lq_list q) -> level l ->
    (forall e, e ∈ flat (lq_list q) ->
       lq_inclusive q <> None /\ lq_name q `prefix_of` lq_name e /\ before q e) ->
    (forall x e, x ∈ entries q -> e ∈ flat l -> separated x e) ->
    level (q :: l).

Lemma entries_eq q : entries q = q :: flat (lq_list q).
Proof. by destruct q. Qed.

Lemma flat_cons q l : flat (q :: l) = q :: flat (lq_list q) ++ flat l.
Proof. unfold flat at 1. cbn [flat_map]. by rewrite entries_eq. Qed.

Lemma flat_app l k : flat (l ++ k) = flat l ++ flat k.
Proof. apply flat_map_app. Qed.

Lemma flat_nonempty l : l <> [] -> (0 < length (flat l))%nat.
Proof. destruct l; [done|]. rewrite flat_cons. cbn. lia. Qed.

Lemma level_app l k :
  level (l ++ k) <->
  level l /\ level k /\ (forall x e, x ∈ flat l -> e ∈ flat k -> separated x e).
Proof.
  induction l as [|q l IH]; cbn [app].
  - split; [|tauto]. intros H. split_and!; [constructor|done|]. intros x e Hx. by apply elem_of_nil in Hx.
  - split.
    + inversion 1 as [|?? H1 H2 H3 H4]; subst. apply IH in H2 as (H5 & H6 & H7). split_and!; [|done|].
      * constructor; try done. intros x e Hx He. apply H4; [done|]. rewrite flat_app. set_solver.
      * intros x e Hx He. rewrite flat_cons, app_comm_cons, <- entries_eq in Hx.
        apply elem_of_app in Hx as [Hx|Hx]; [|by apply H7]. apply H4; [done|]. rewrite flat_app. set_solver.
    + intros (H1 & H2 & H3). inversion H1 as [|?? H4 H5 H6 H7]; subst. constructor; [done| |done|].
      * apply IH. split_and!; [done..|]. intros x e Hx. apply H3. rewrite flat_cons. set_solver.
      * intros x e Hx He. rewrite flat_app in He. apply elem_of_app in He as [He|He]; [by apply H7|].
        apply H3; [|done]. rewrite flat_cons, app_comm_cons, <- entries_eq. set_solver.
Qed.

Lemma separated_view x x' e e' : view x = view x' -> view e = view e' -> separated x e -> separated x' e'.
Proof. unfold separated, before. intros [= _ <- <-] [= _ _ <-]. done. Qed.

(** ** ngx_http_create_locations_list *)

Lemma split_inside_spec name l :
  no_nul name -> StronglySorted before l -> Forall (fun x => lexlt name (lq_name x)) l ->
  exists i k, split_inside name l = (i, k) /\ l = i ++ k
    /\ Forall (fun x => name `prefix_of` lq_name x) i
    /\ Forall (fun x => ~ name `prefix_of` lq_name x) k.
Proof.
  intros Hn Hs Hl. induction Hs as [|x l Hs IH Hx]; cbn [split_inside].
  { exists [], []. by repeat constructor. }
  apply Forall_cons in Hl as [Hx1 Hl].
  assert (~ name `prefix_of` lq_name x -> Forall (fun x => ~ name `prefix_of` lq_name x) (x :: l)) as Hstop.
  { intros Hnp. constructor; [done|]. rewrite Forall_forall in Hx |- *. intros y Hy Hp. apply Hnp.
    apply (lexlt_between _ _ (lq_name y)); [done..|]. by apply Hx. }
  case_if E.
  - exists [], (x :: l). split_and!; [done|done|constructor|]. apply Hstop. intros Hp.
    apply orb_true_iff in E as [E|E].
    + apply Nat.ltb_lt in E. apply prefix_length in Hp. lia.
    + apply ngx_strncmp_prefix in Hp as Hp0; [|done|by apply prefix_length]. boolify. done.
  - apply orb_false_iff in E as [El E]. apply Nat.ltb_ge in El. boolify.
    apply ngx_strncmp_prefix in E; [|done..].
    destruct (IH Hl) as (i & k & -> & -> & Hi & Hk). exists (x :: i), k. split_and!; [done..| |done].
    by constructor.
Qed.

Lemma view_elem l k x : map view l = map view k -> x ∈ l -> exists y, y ∈ k /\ view x = view y.
Proof.
  intros H Hx. assert (view x ∈ map view k) as Hv by (rewrite <- H; by apply list_elem_of_fmap_2).
  apply list_elem_of_fmap in Hv as (y & ? & ?). by exists y.
Qed.

(** The elements [i] go into the list of [q]. *)
Lemma level_nest q i k li lk :
  StronglySorted before (q :: i ++ k) ->
  (i <> [] -> lq_inclusive q <> None) ->
  Forall (fun x => lq_name q `prefix_of` lq_name x) i ->
  (lq_inclusive q <> None -> Forall (fun x => ~ lq_name q `prefix_of` lq_name x) k) ->
  level li -> map view (flat li) = map view i ->
  level lk -> map view (flat lk) = map view k ->
  level (set_list li q :: lk) /\ map view (flat (set_list li q :: lk)) = map view (q :: i ++ k).
Proof.
  intros Hs Hinc Hi Hk Hli Vi Hlk Vk. apply StronglySorted_cons in Hs as [Hq Hs].
  apply StronglySorted_app in Hs as (Hik & _ & _). rewrite Forall_app, !Forall_forall in Hq.
  destruct Hq as [Hqi Hqk]. rewrite Forall_forall in Hi.
  assert (forall x, x ∈ flat li -> exists y, y ∈ i /\ view x = view y) as Ei by (intros; by apply (view_elem _ _ _ Vi)).
  assert (forall x, x ∈ flat lk -> exists y, y ∈ k /\ view x = view y) as Ek by (intros; by apply (view_elem _ _ _ Vk)).
  split.
  - constructor; [by destruct q|done| |].
    + destruct q; cbn [lq_list set_list]. intros e He. destruct (Ei e He) as (y & Hy & [= _ _ Vy]).
      unfold before. rewrite Vy. split_and!; [|by apply Hi|by apply Hqi]. apply Hinc. by intros ->; apply elem_of_nil in Hy.
    + intros x e Hx He. destruct (Ek e He) as (y & Hy & Vy). rewrite entries_eq in Hx.
      apply elem_of_cons in Hx as [->|Hx].
      * apply (separated_view q _ y); [by destruct q|done|]. split; [by apply Hqk|].
        intros Hn. specialize (Hk Hn). rewrite Forall_forall in Hk. by apply Hk.
      * destruct q as [qe qi qn ql]; cbn [lq_list set_list] in Hx. destruct (Ei x Hx) as (z & Hz & Vz).
        apply (separated_view z _ y); [done..|]. split; [by apply Hik|]. intros _ Hp.
        assert (qi <> None) as Hn by (apply Hinc; by intros ->; apply elem_of_nil in Hz).
        specialize (Hk Hn). rewrite Forall_forall in Hk. apply (Hk y Hy). etrans; [by apply Hi|done].
  - rewrite flat_cons. destruct q; cbn [map lq_list set_list]. rewrite !map_app, Vi, Vk. done.
Qed.

Lemma create_locations_list_ok fuel l :
  StronglySorted before l -> Forall (fun q => lq_list q = []) l -> Forall (fun q => no_nul (lq_name q)) l ->
  (length l <= fuel)%nat -> (0 < fuel)%nat ->
  exists k, ngx_http_create_locations_list fuel l = Ret k /\ level k /\ map view (flat k) = map view l.
Proof.
  revert l. induction fuel as [|fuel IH]; intros l Hs Hl Hn Hf Hf0; [lia|].
  cbn [ngx_http_create_locations_list].
  destruct l as [|q rest].
  { exists []. split_and!; [done|constructor|done]. }
  apply Forall_cons in Hl as [Hq Hl], Hn as [Hqn Hn].
  assert (Hsr := Hs). apply StronglySorted_cons in Hsr as [Hqb Hsr].
  assert (set_list [] q = q) as Eq by (destruct q; cbn in *; by subst).
  destruct rest as [|y rest0].
  { exists [q]. split; [done|]. rewrite <- Eq at 1 2. apply (level_nest q [] []); try done; constructor. }
  set (rest := y :: rest0) in *. cbn [length] in Hf. assert (0 < length rest)%nat by (cbn; lia).
  destruct (lq_inclusive q) as [c|] eqn:Ei.
  - destruct (split_inside_spec (lq_name q) rest) as (i & k & E & Erest & Hi & Hk); [done..|]. rewrite E.
    rewrite Erest in Hs, Hsr, Hl, Hn, Hf |- *. rewrite length_app in Hf.
    apply StronglySorted_app in Hsr as (_ & Hsi & Hsk). apply Forall_app in Hl as [Hli Hlk], Hn as [Hni Hnk].
    assert (forall li lk, level li -> map view (flat li) = map view i -> level lk ->
              map view (flat lk) = map view k -> level (set_list li q :: lk) /\
              map view (flat (set_list li q :: lk)) = map view (q :: i ++ k)) as Hnest.
    { intros. apply level_nest; try done. by rewrite Ei. }
    destruct i as [|x i].
    + destruct (IH k) as (lk & -> & Hlev & Hv); [done..|cbn in Hf; lia|apply (f_equal length) in Erest; cbn in Erest, Hf; lia|].
      cbn [outcome_bind]. exists (q :: lk). split; [done|]. rewrite <- Eq. apply (Hnest [] lk); done || constructor.
    + destruct (IH (x :: i)) as (li & Eli & Hlev & Hv); [done..|cbn in Hf |- *; lia|cbn in Hf; lia|].
      rewrite Hq. cbn [app]. destruct k as [|z k].
      * rewrite Eli. cbn [outcome_bind]. exists [set_list li q]. split; [done|]. apply Hnest; done || constructor.
      * destruct (IH (z :: k)) as (lk & Elk & Hlevk & Hvk); [done..|cbn in Hf |- *; lia|cbn in Hf; lia|].
        rewrite Eli. cbn [outcome_bind]. rewrite Elk. cbn [outcome_bind]. exists (set_list li q :: lk).
        split; [done|]. by apply Hnest.
  - destruct (IH rest) as (lk & -> & Hlev & Hv); [done..|lia|lia|]. cbn [outcome_bind]. exists (q :: lk).
    split; [done|]. rewrite <- Eq. apply (level_nest q [] rest); try done; constructor.
Qed.

(** * The search *)

(** [x] is one byte longer than the URI and redirects. *)
Definition candidate (u : list Z) x : Prop :=
  redirects attrs_of (lq_exact x) || redirects attrs_of (lq_inclusive x) = true
  /\ exists c, lq_name x = u ++ [c].

(** No name lies between the URI and [x]. *)
Definition adjacent (u : list Z) (E : list (location_queue A)) x : Prop :=
  forall y, y ∈ E -> ~ (lexlt u (lq_name y) /\ lexlt (lq_name y) (lq_name x)).

Definition unnamed (u : list Z) (E : list (location_queue A)) : Prop := forall x, x ∈ E -> lq_name x <> u.

(** What the search comes to among the elements [E], from [base]. *)
Inductive found (u : list Z) (E : list (location_queue A)) (base : Z * A) : Z * A -> Prop :=
| found_exact x c :
    x ∈ E -> lq_name x = u -> lq_exact x = Some c -> found u E base (NGX_OK, c)
| found_same x c :
    x ∈ E -> lq_name x = u -> lq_exact x = None -> lq_inclusive x = Some c -> found u E base (NGX_AGAIN, c)
| found_redirect x c :
    unnamed u E -> x ∈ E -> candidate u x -> lq_conf x = Some c ->
    (forall y, y ∈ E -> candidate u y -> adjacent u E y -> y = x) ->
    found u E base (NGX_DONE, c)
| found_prefix x c :
    unnamed u E -> (forall y, y ∈ E -> candidate u y -> ~ adjacent u E y) ->
    x ∈ E -> lq_name x `prefix_of` u -> lq_inclusive x = Some c ->
    (forall y, y ∈ E -> lq_inclusive y <> None -> lq_name y `prefix_of` u -> lq_name y `prefix_of` lq_name x) ->
    found u E base (NGX_AGAIN, c)
| found_none :
    unnamed u E -> (forall y, y ∈ E -> candidate u y -> ~ adjacent u E y) ->
    (forall y, y ∈ E -> lq_inclusive y <> None -> ~ lq_name y `prefix_of` u) ->
    found u E base base.

(** Elements that do not matter for the URI. *)
Definition aside (u : list Z) (E : list (location_queue A)) x : Prop :=
  lq_name x <> u /\ (lq_inclusive x <> None -> ~ lq_name x `prefix_of` u)
  /\ (candidate u x -> ~ adjacent u E x).

Lemma adjacent_sub u E E' x : E' ⊆ E -> adjacent u E x -> adjacent u E' x.
Proof. intros H Ha y Hy. apply Ha. by apply H. Qed.

Lemma found_aside u E E' base res :
  E' ⊆ E -> (forall x, x ∈ E -> x ∈ E' \/ aside u E x) -> found u E' base res -> found u E base res.
Proof.
  intros Hsub Hall.
  assert (unnamed u E' -> unnamed u E) as Hu.
  { intros H x Hx. destruct (Hall x Hx) as [?|[? _]]; auto. }
  assert ((forall y, y ∈ E' -> candidate u y -> ~ adjacent u E' y) ->
          forall y, y ∈ E -> candidate u y -> ~ adjacent u E y) as Hc.
  { intros H y Hy Hcy Ha. destruct (Hall y Hy) as [?|(_ & _ & Hn)]; [|by apply Hn].
    apply (H y); [done..|]. by apply (adjacent_sub u E). }
  destruct 1 as [x c|x c|x c ???? Hone|x c ????? Hlong|].
  - eapply (found_exact _ _ _ x); eauto.
  - eapply (found_same _ _ _ x); eauto.
  - eapply found_redirect; eauto. intros y Hy Hcy Ha. destruct (Hall y Hy) as [?|(_ & _ & Hn)]; [|by destruct Hn].
    apply Hone; [done..|]. by apply (adjacent_sub u E).
  - eapply found_prefix; eauto. intros y Hy Hi Hp. destruct (Hall y Hy) as [?|(_ & Hn & _)]; [auto|by destruct Hn].
  - apply found_none; auto. intros y Hy Hi. destruct (Hall y Hy) as [?|(_ & Hn & _)]; auto.
Qed.

(** Going into the list of an inclusive location. *)
Lemma found_inside u E q c base res :
  lq_name q `prefix_of` u -> lq_name q <> u -> lq_inclusive q = Some c ->
  (forall e, e ∈ E -> lq_name q `prefix_of` lq_name e) ->
  found u E (NGX_AGAIN, c) res -> found u (q :: E) base res.
Proof.
  intros Hp Hne Hi Hin.
  assert (~ candidate u q) as Hqc.
  { intros [_ [b Hb]]. apply prefix_length in Hp. rewrite Hb, length_app in Hp. cbn in Hp. lia. }
  assert (unnamed u E -> unnamed u (q :: E)) as Hu.
  { intros H x [->|Hx]%elem_of_cons; auto. }
  assert (E ⊆ q :: E) as Hsub by set_solver.
  assert ((forall y, y ∈ E -> candidate u y -> ~ adjacent u E y) ->
          forall y, y ∈ q :: E -> candidate u y -> ~ adjacent u (q :: E) y) as Hc.
  { intros H y [->|Hy]%elem_of_cons Hcy Ha; [done|]. apply (H y); [done..|]. by apply (adjacent_sub u (q :: E)). }
  inversion 1 as [x d|x d|x d ???? Hone|x d ????? Hlong|]; subst.
  - eapply (found_exact _ _ _ x); eauto.
  - eapply (found_same _ _ _ x); eauto.
  - eapply found_redirect; eauto. intros y [->|Hy]%elem_of_cons Hcy Ha; [done|].
    apply Hone; [done..|]. by apply (adjacent_sub u (q :: E)).
  - eapply (found_prefix _ _ _ x); eauto. intros y [->|Hy]%elem_of_cons Hyi Hyp; auto.
  - apply (found_prefix _ _ _ q); eauto; [set_solver|]. intros y [->|Hy]%elem_of_cons Hyi Hyp; [done|].
    by destruct (H2 y Hy Hyi).
Qed.

(** Going left of an element that redirects. *)
Lemma found_candidate u E E' q c base res :
  E' ⊆ E -> q ∈ E -> candidate u q -> lq_conf q = Some c ->
  (forall x, x ∈ E -> x ∈ E' \/ x = q \/ aside u E x) ->
  (forall x, x ∈ E' -> separated x q) ->
  found u E' (NGX_DONE, c) res -> found u E base res.
Proof.
  intros Hsub Hq Hcq Hconf Hall Hleft. destruct (Hcq) as [_ [b Hb]].
  assert (lq_name q <> u) as Hqu.
  { intros H. rewrite Hb in H. apply (f_equal length) in H. rewrite length_app in H. cbn in H. lia. }
  assert (unnamed u E' -> unnamed u E) as Hu.
  { intros H x Hx. destruct (Hall x Hx) as [?|[->|[? _]]]; auto. }
  assert (forall y, y ∈ E -> y <> q -> adjacent u E y -> candidate u y -> y ∈ E' /\ adjacent u E' y) as Hother.
  { intros y Hy Hne Ha Hcy. destruct (Hall y Hy) as [?|[->|(_ & _ & Hn)]]; [|done|by destruct Hn].
    split; [done|]. by apply (adjacent_sub u E). }
  inversion 1 as [x d|x d|x d Hun Hx Hcx Hcd Hone|x d Hun Hnc Hx Hp Hi Hlong|Hun Hnc Hnp]; subst.
  - eapply (found_exact _ _ _ x); eauto.
  - eapply (found_same _ _ _ x); eauto.
  - eapply (found_redirect _ _ _ x); eauto. intros y Hy Hcy Ha.
    destruct (Hall y Hy) as [Hy'|[->|(_ & _ & Hn)]]; [|exfalso|by destruct Hn].
    + apply Hone; [done..|]. by apply (adjacent_sub u E).
    + apply (Ha x); [by apply Hsub|]. split; [|by apply Hleft]. destruct Hcx as [_ [b' ->]].
      apply prefix_lexlt; [by eexists|]. intros Heq. apply (f_equal length) in Heq. rewrite length_app in Heq.
      cbn in Heq. lia.
  - exfalso. destruct (Hleft x Hx) as [_ Hs]. apply Hs; [by rewrite Hi|]. rewrite Hb. by apply prefix_app_r.
  - apply (found_redirect _ _ _ q); eauto. intros y Hy Hcy Ha.
    destruct (Hall y Hy) as [Hy'|[->|(_ & _ & Hn)]]; [|done|by destruct Hn].
    destruct (Hnc y Hy' Hcy). by apply (adjacent_sub u E).
Qed.

(** ** Which elements do not matter *)

Lemma aside_prefix u E x : (forall c, ~ lq_name x `prefix_of` (u ++ c)) -> aside u E x.
Proof.
  intros H. split_and!.
  - intros Hx. apply (H []). by rewrite Hx, app_nil_r.
  - intros _ Hp. apply (H []). by rewrite app_nil_r.
  - intros [_ [c Hc]]. destruct (H [c]). by rewrite Hc.
Qed.

Lemma lexlt_app_r u c : c <> [] -> lexlt u (u ++ c).
Proof.
  intros Hc. apply prefix_lexlt; [by eexists|]. intros H. apply (f_equal length) in H.
  rewrite length_app in H. destruct c; [done|]. cbn in H. lia.
Qed.

Lemma aside_left u E q x : separated x q -> lexlt (lq_name q) u -> aside u E x.
Proof.
  intros [Hb Hs] Hq. unfold before in Hb. split_and!.
  - intros H. rewrite H in Hb. destruct (lexlt_irrefl u). by eapply lexlt_trans.
  - intros Hi Hp. apply (Hs Hi). by eapply lexlt_between.
  - intros [_ [c Hc]]. destruct (lexlt_irrefl u). apply (lexlt_trans _ (lq_name x)).
    + rewrite Hc. by apply lexlt_app_r.
    + by eapply lexlt_trans.
Qed.

Lemma aside_above u E q x : differs u (lq_name q) -> (x = q \/ before q x) -> aside u E x.
Proof.
  intros Hd Hx. apply aside_prefix. intros c Hp. apply (before_differs _ _ _ _ Hd) in Hp.
  destruct Hx as [->|Hx]; [by apply lexlt_irrefl in Hp|].
  apply (lexlt_irrefl (lq_name q)). by eapply lexlt_trans.
Qed.

Lemma aside_below u E q x : differs (lq_name q) u -> lq_name q `prefix_of` lq_name x -> aside u E x.
Proof.
  intros Hd [k Hk]. apply aside_prefix. intros c. rewrite Hk. by apply differs_prefix, differs_app, differs_app_r.
Qed.

Lemma aside_after u E q x :
  separated q x -> lq_inclusive q <> None -> lq_name q `prefix_of` u -> aside u E x.
Proof.
  intros [Hb Hs] Hi Hp. apply aside_prefix. intros c Hx.
  destruct (prefix_weak_total (lq_name q) (lq_name x) (u ++ c)) as [H|H].
  - by apply prefix_app_r.
  - done.
  - by apply (Hs Hi).
  - apply (lexlt_irrefl (lq_name q)). eapply lexlt_trans; [exact Hb|]. apply prefix_lexlt; [done|].
    intros Heq. unfold before in Hb. rewrite Heq in Hb. by apply lexlt_irrefl in Hb.
Qed.

(** The URI is a proper beginning of [q]: what extends [q], and what is after
    it. *)
Lemma aside_longer u E q x :
  u `prefix_of` lq_name q -> u <> lq_name q -> lq_name q `prefix_of` lq_name x -> before q x -> aside u E x.
Proof.
  intros Hu Hne Hq Hb.
  assert (length u < length (lq_name x) - 1)%nat as Hl.
  { assert (forall s t : list Z, s `prefix_of` t -> s <> t -> (length s < length t)%nat) as Hlt.
    { intros s t [k ->] H. rewrite length_app. destruct k; [by rewrite app_nil_r in H|]. cbn. lia. }
    assert (lq_name q <> lq_name x) by (intros H; unfold before in Hb; rewrite H in Hb; by apply lexlt_irrefl in Hb).
    pose proof (Hlt _ _ Hu Hne). pose proof (Hlt _ _ Hq ltac:(done)). lia. }
  split_and!.
  - intros H. rewrite H in Hl. lia.
  - intros _ H%prefix_length. lia.
  - intros [_ [c Hc]]. rewrite Hc, length_app in Hl. cbn in Hl. lia.
Qed.

Lemma aside_right u E q x :
  u `prefix_of` lq_name q -> u <> lq_name q -> q ∈ E -> before q x -> aside u E x.
Proof.
  intros Hu Hne Hq Hb. assert (lexlt u (lq_name q)) as Hlt by by apply prefix_lexlt.
  assert (lexlt u (lq_name x)) as Hux by by eapply lexlt_trans.
  split_and!.
  - intros H. rewrite H in Hux. by apply lexlt_irrefl in Hux.
  - intros _ Hp. destruct (decide (lq_name x = u)) as [H|H].
    + rewrite H in Hux. by apply lexlt_irrefl in Hux.
    + apply (lexlt_irrefl u). eapply lexlt_trans; [exact Hux|]. by apply prefix_lexlt.
  - intros _ Ha. by apply (Ha q).
Qed.

(** ** The tree *)

(** The search in [t] for a URI that begins with [p] comes to what is found
    among the elements [E]. *)
Definition finds (t : tree_node A) (p : list Z) (E : list (location_queue A)) : Prop :=
  forall u' rv conf, exists res,
    find_static t u' rv conf = Ret res /\ found (p ++ u') E (rv, conf) res.

Lemma finds_no_node p : finds NoNode p [].
Proof.
  intros u' rv conf. eexists. split; [done|].
  apply found_none; intros y Hy; by apply elem_of_nil in Hy.
Qed.

Lemma level_split la q lb :
  level (la ++ q :: lb) ->
  (level la /\ level (lq_list q) /\ level lb) /\
  (forall x, x ∈ flat la -> separated x q) /\
  (forall x, x ∈ flat (lq_list q) -> lq_inclusive q <> None /\ lq_name q `prefix_of` lq_name x /\ before q x) /\
  (forall x, x ∈ flat lb -> separated q x).
Proof.
  intros (H1 & H2 & H3)%level_app. inversion H2 as [|?? H4 H5 H6 H7]; subst. split_and!; try done.
  - intros x Hx. apply H3; [done|]. rewrite flat_cons. set_solver.
  - intros x Hx. apply H7; [|done]. rewrite entries_eq. set_solver.
Qed.

Lemma flat_middle x la q lb :
  x ∈ flat (la ++ q :: lb) <-> x ∈ flat la \/ x = q \/ x ∈ flat (lq_list q) \/ x ∈ flat lb.
Proof. rewrite flat_app, flat_cons. set_solver. Qed.

(** The five ways a node can go. *)
Section node.
Context (la lb : list (location_queue A)) (q : location_queue A).
Context (Hlevel : level (la ++ q :: lb)).
Let E := flat (la ++ q :: lb).

Lemma found_smaller u base res :
  differs u (lq_name q) -> found u (flat la) base res -> found u E base res.
Proof.
  apply level_split in Hlevel as (_ & _ & Hin & Hb). intros Hd. apply found_aside.
  { intros x Hx. apply flat_middle. auto. }
  intros x [Hx|Hx]%flat_middle; [by left|right]. apply (aside_above _ _ q); [done|].
  destruct Hx as [->|[Hx|Hx]]; [by left|right..]; [by apply Hin|by apply Hb].
Qed.

Lemma found_larger u base res :
  differs (lq_name q) u -> found u (flat lb) base res -> found u E base res.
Proof.
  apply level_split in Hlevel as (_ & Ha & Hin & _). intros Hd. apply found_aside.
  { intros x Hx. apply flat_middle. auto. }
  intros x [Hx|[->|[Hx|Hx]]]%flat_middle; [right|right|right|by left].
  - apply (aside_left _ _ q); [by apply Ha|by apply differs_lexlt].
  - by apply (aside_below _ _ q).
  - apply (aside_below _ _ q); [done|]. by apply Hin.
Qed.

Lemma found_descend u c base res :
  lq_name q `prefix_of` u -> lq_name q <> u -> lq_inclusive q = Some c ->
  found u (flat (lq_list q)) (NGX_AGAIN, c) res -> found u E base res.
Proof.
  apply level_split in Hlevel as (_ & Ha & Hin & Hb). intros Hp Hne Hi Hf.
  apply (found_aside _ _ (q :: flat (lq_list q))).
  { intros x [->|Hx]%elem_of_cons; apply flat_middle; auto. }
  - intros x [Hx|[->|[Hx|Hx]]]%flat_middle; [right|left|left|right]; [| set_solver..|].
    + apply (aside_left _ _ q); [by apply Ha|by apply prefix_lexlt].
    + apply (aside_after _ _ q); [by apply Hb|by rewrite Hi|done].
  - apply (found_inside _ _ q c); try done. intros e He. by apply Hin.
Qed.

Lemma found_only_exact u base res :
  lq_name q `prefix_of` u -> lq_name q <> u -> lq_inclusive q = None ->
  found u (flat lb) base res -> found u E base res.
Proof.
  apply level_split in Hlevel as (_ & Ha & Hin & _). intros Hp Hne Hi. apply found_aside.
  { intros x Hx. apply flat_middle. auto. }
  intros x [Hx|[->|[Hx|Hx]]]%flat_middle; [right|right|right|by left].
  - apply (aside_left _ _ q); [by apply Ha|by apply prefix_lexlt].
  - split_and!; [done|by rewrite Hi|]. intros [_ [b Hb]]. apply prefix_length in Hp.
    rewrite Hb, length_app in Hp. cbn in Hp. lia.
  - by destruct (Hin x Hx).
Qed.

Lemma beyond_aside u x :
  u `prefix_of` lq_name q -> u <> lq_name q -> x ∈ flat (lq_list q) \/ x ∈ flat lb -> aside u E x.
Proof.
  intros Hp Hne Hx. apply level_split in Hlevel as (_ & _ & Hin & Hb). destruct Hx as [Hx|Hx].
  - destruct (Hin x Hx) as (_ & ? & ?). by apply (aside_longer _ _ q).
  - apply (aside_right _ _ q); [done..| |by apply Hb]. apply flat_middle. auto.
Qed.

Lemma found_longer u base res :
  u `prefix_of` lq_name q -> u <> lq_name q -> ~ candidate u q ->
  found u (flat la) base res -> found u E base res.
Proof.
  intros Hp Hne Hc. apply found_aside.
  { intros x Hx. apply flat_middle. auto. }
  intros x [Hx|[->|Hx]]%flat_middle; [by left|right|right; by apply beyond_aside].
  split_and!; [done| |done]. intros _ H. apply Hne. apply (anti_symm prefix); done.
Qed.

Lemma found_redirected u c base res :
  candidate u q -> lq_conf q = Some c ->
  found u (flat la) (NGX_DONE, c) res -> found u E base res.
Proof.
  intros Hc Hconf. apply (found_candidate _ _ _ q c); try done.
  - intros x Hx. apply flat_middle. auto.
  - apply flat_middle. auto.
  - intros x [Hx|[->|Hx]]%flat_middle; [by left|by right; left|do 2 right].
    destruct Hc as [_ [b Hb]]. apply beyond_aside; [|  |done]; rewrite Hb.
    + by apply prefix_app_r.
    + intros H. apply (f_equal length) in H. rewrite length_app in H. cbn in H. lia.
  - intros x Hx. apply level_split in Hlevel as (_ & Ha & _). by apply Ha.
Qed.
End node.

Definition node_of (lt rt tt : tree_node A) q (prefix : nat) : tree_node A :=
  Node lt rt tt (lq_exact q) (lq_inclusive q)
    (redirects attrs_of (lq_exact q) || redirects attrs_of (lq_inclusive q))
    (wrapU 8 (Z.of_nat (length (lq_name q) - prefix))) (drop prefix (lq_name q)).

(** The URI ends before the name of the node does: to the left, with a
    redirection if it is one byte short. *)
Lemma node_left la lb q lt p k u' rv conf :
  level (la ++ q :: lb) -> lq_conf q <> None -> lq_name q = p ++ k -> finds lt p (flat la) ->
  u' `prefix_of` k -> (length u' < length k)%nat ->
  exists res,
    (if (Z.of_nat (length u') + 1 =? Z.of_nat (length k))
        && (redirects attrs_of (lq_exact q) || redirects attrs_of (lq_inclusive q)) then
       match lq_exact q, lq_inclusive q with
       | Some c, _ | None, Some c => find_static lt u' NGX_DONE c
       | None, None => Undefined
       end
     else find_static lt u' rv conf) = Ret res
    /\ found (p ++ u') (flat (la ++ q :: lb)) (rv, conf) res.
Proof.
  intros Hlevel Hconf Hk Hl Heq Hlen. set (u := p ++ u').
  assert (u `prefix_of` lq_name q) as Hp by (rewrite Hk; by apply prefix_app).
  assert (u <> lq_name q) as Hne.
  { rewrite Hk. intros H. apply (app_inv_head p) in H. subst. lia. }
  case_if E3.
  - apply andb_true_iff in E3 as [E3 Hred]. apply Z.eqb_eq in E3.
    assert (candidate u q) as Hc.
    { split; [done|]. destruct Heq as [r Hr0]. destruct r as [|b [|b' r]].
      - rewrite Hr0, app_nil_r in E3. lia.
      - exists b. rewrite Hk, Hr0. unfold u. by rewrite app_assoc.
      - rewrite Hr0, length_app in E3. cbn in E3. lia. }
    destruct (lq_conf q) as [c|] eqn:Ec; [|done].
    destruct (Hl u' NGX_DONE c) as (res & Hres & Hf). exists res. split.
    + unfold lq_conf in Ec. destruct (lq_exact q); [by simplify_eq|]. by rewrite Ec.
    + by apply (found_redirected _ _ q Hlevel _ c).
  - destruct (Hl u' rv conf) as (res & ? & ?). exists res. split; [done|]. apply found_longer; try done.
    intros [Hred [b Hb]]. rewrite Hred, andb_true_r in E3. apply Z.eqb_neq in E3. apply E3.
    rewrite Hk in Hb. unfold u in Hb. rewrite <- app_assoc in Hb. apply app_inv_head in Hb. rewrite Hb, length_app.
    cbn. lia.
Qed.

Lemma node_finds la lb q lt rt tt p :
  level (la ++ q :: lb) -> lq_conf q <> None ->
  p `prefix_of` lq_name q -> (length (lq_name q) <= 255)%nat ->
  finds lt p (flat la) -> finds rt p (flat lb) -> finds tt (lq_name q) (flat (lq_list q)) ->
  finds (node_of lt rt tt q (length p)) p (flat (la ++ q :: lb)).
Proof.
  intros Hlevel Hconf [k Hk] Hlen Hl Hr Ht u' rv conf. set (u := p ++ u').
  assert (wrapU 8 (Z.of_nat (length (lq_name q) - length p)) = Z.of_nat (length k)) as Ew.
  { rewrite Hk, length_app in *. rewrite wrapU_small; lia. }
  unfold node_of. cbn [find_static]. rewrite Ew.
  replace (drop (length p) (lq_name q)) with k by by rewrite Hk, drop_app_length.
  replace (Z.to_nat _) with (Nat.min (length u') (length k)) by (split_ifs).
  pose proof (ngx_memcmp_spec u' k) as (Hlt & Hgt & Heq). set (rc := ngx_memcmp _ _) in *.
  destruct (negb (rc =? 0)) eqn:Erc; boolify.
  { case_if E1; boolify.
    - destruct (Hl u' rv conf) as (res & ? & ?). exists res. split; [done|]. apply found_smaller; [done| |done].
      rewrite Hk. by apply differs_app_l, Hlt.
    - destruct (Hr u' rv conf) as (res & ? & ?). exists res. split; [done|]. apply found_larger; [done| |done].
      rewrite Hk. apply differs_app_l, Hgt. lia. }
  specialize (Heq Erc). case_if E1; boolify.
  { destruct (length k <=? length u')%nat eqn:El; [|apply Nat.leb_gt in El; lia].
    assert (lq_name q `prefix_of` u) as Hp by (rewrite Hk; by apply prefix_app).
    assert (lq_name q <> u) as Hne.
    { rewrite Hk. intros H. apply (app_inv_head p) in H. subst. lia. }
    destruct (lq_inclusive q) as [c|] eqn:Ei.
    - destruct Heq as [r Er]. subst u'. destruct (Ht r NGX_AGAIN c) as (res & Hres & Hf). exists res. split.
      + replace (Nat.min _ _) with (length k) by (rewrite length_app; lia). by rewrite drop_app_length.
      + apply (found_descend _ _ q Hlevel _ c); [done..|]. subst u. by rewrite app_assoc, <- Hk.
    - destruct (Hr u' rv conf) as (res & ? & ?). exists res. split; [done|]. by apply (found_only_exact _ _ q). }
  case_if E2; boolify.
  { assert (lq_name q = u) as Hu.
    { rewrite Hk. unfold u. f_equal. destruct (length k <=? length u')%nat eqn:El.
      - apply prefix_length_eq; [done|lia].
      - symmetry. apply prefix_length_eq; [done|lia]. }
    destruct (lq_exact q) as [c|] eqn:Ee; [|destruct (lq_inclusive q) as [c|] eqn:Ei].
    - eexists. split; [done|]. apply (found_exact _ _ _ q); try done. apply flat_middle; auto.
    - eexists. split; [done|]. apply (found_same _ _ _ q); try done. apply flat_middle; auto.
    - unfold lq_conf in Hconf. by rewrite Ee in Hconf. }
  destruct (length k <=? length u')%nat eqn:El; [apply Nat.leb_le in El; lia|].
  apply (node_left la lb q lt p k); try done. apply Nat.leb_gt in El. lia.
Qed.

Theorem create_locations_tree_ok fuel l p :
  level l -> l <> [] -> (length (flat l) <= fuel)%nat ->
  Forall (fun x => p `prefix_of` lq_name x /\ (length (lq_name x) <= 255)%nat /\ lq_conf x <> None) (flat l) ->
  exists t, ngx_http_create_locations_tree attrs_of fuel l (length p) = Ret t /\ finds t p (flat l).
Proof.
  revert l p. induction fuel as [|fuel IH]; intros l p Hlevel Hne Hf Hall.
  { apply flat_nonempty in Hne. lia. }
  cbn [ngx_http_create_locations_tree]. rewrite ngx_queue_middle_spec. cbn [outcome_bind].
  assert (length l <> 0%nat) as Hlen by by destruct l.
  destruct (lookup_lt_is_Some_2 l (length l / 2)) as [q Hq].
  { apply Nat.div_lt; lia. }
  rewrite Hq. apply take_drop_middle in Hq as El.
  set (la := take (length l / 2) l) in *. set (lb := drop (S (length l / 2)) l) in *.
  assert (la = [] -> lb = []) as Hab.
  { intros H. apply (f_equal length) in H. unfold la in H. rewrite length_take in H. cbn [length] in H.
    assert (length l / 2 = 0)%nat as H2 by (pose proof (Nat.div_lt (length l) 2); lia).
    apply Nat.div_small_iff in H2; [|lia]. unfold lb. apply drop_ge. lia. }
  rewrite <- El in Hlevel, Hf, Hall |- *.
  apply level_split in Hlevel as Hs. destruct Hs as ((La & Lt & Lb) & _ & Hin & _).
  rewrite flat_app, flat_cons, length_app in Hf. cbn [length] in Hf. rewrite length_app in Hf.
  rewrite flat_app, flat_cons, Forall_app, Forall_cons, Forall_app in Hall.
  destruct Hall as (Ha & (Hqp & Hql & Hqc) & Hi & Hb).
  assert (forall k p', level k -> (length (flat k) <= fuel)%nat ->
            Forall (fun x => p' `prefix_of` lq_name x /\ (length (lq_name x) <= 255)%nat /\ lq_conf x <> None)
              (flat k) ->
            exists t, match k with [] => Ret NoNode
                      | x :: k => ngx_http_create_locations_tree attrs_of fuel (x :: k) (length p') end = Ret t
                      /\ finds t p' (flat k)) as Hsub.
  { intros k p' Hk Hkf Hkall. destruct k as [|x k]; [exists NoNode; split; [done|apply finds_no_node]|].
    by apply IH. }
  destruct (Hsub la p La) as (lt & Elt & Hlt); [lia|done|].
  destruct (Hsub lb p Lb) as (rt & Ert & Hrt); [lia|done|].
  destruct (Hsub (lq_list q) (lq_name q) Lt) as (tt & Ett & Htt); [lia| |].
  { rewrite Forall_forall in Hi |- *. intros x Hx. destruct (Hin x Hx) as (_ & ? & _). by destruct (Hi x Hx). }
  exists (node_of lt rt tt q (length p)). split; [|by apply node_finds].
  replace (length p + (length (lq_name q) - length p))%nat with (length (lq_name q))
    by (apply prefix_length in Hqp; lia).
  rewrite Elt. cbn [outcome_bind].
  replace (match la with [] => _ | _ :: _ => _ end) with (Ret rt).
  { cbn [outcome_bind]. rewrite Ett. done. }
  destruct la; [by rewrite Hab in Ert|]. by destruct lb.
Qed.

(** * The join *)

Implicit Types (c : A) (cs : list A).

Definition cname c : list Z := loc_name (attrs_of c).
Definition cexact c : bool := exact_match (attrs_of c).

Definition static_attrs (a : loc_attrs) : Prop := noname a = false /\ named a = false /\ loc_regex a = None.

(** The order of the sort among static locations. *)
Definition static_le c d : Prop :=
  lexlt (cname c) (cname d) \/ (cname c = cname d /\ (cexact c = true \/ cexact d = false)).

Lemma cmp_static c d :
  static_attrs (attrs_of c) -> static_attrs (attrs_of d) -> no_nul (cname c) -> no_nul (cname d) ->
  cmp_attrs (attrs_of c) (attrs_of d) <= 0 <-> static_le c d.
Proof.
  intros (C1 & C2 & C3) (D1 & D2 & D3) Hc Hd. unfold cmp_attrs. rewrite C1, C2, C3, D1, D2, D3. cbn.
  destruct (ngx_strcmp_spec _ _ Hc Hd) as [Hlt Heq]. unfold cname, cexact, static_le in *.
  set (rc := ngx_strcmp _ _) in *. unfold cname, cexact. case_if E.
  - apply andb_true_iff in E as [E E3]. apply andb_true_iff in E as [E1 E2]. boolify. split; [lia|].
    apply Heq in E1. rewrite E1, E2, E3. intros [H|[_ [?|?]]]; [|done..]. by apply lexlt_irrefl in H.
  - assert (rc <= 0 <-> lexlt (loc_name (attrs_of c)) (loc_name (attrs_of d)) \/
                        loc_name (attrs_of c) = loc_name (attrs_of d)) as ->.
    { rewrite <- Hlt, <- Heq. lia. }
    split; [|tauto]. intros [?|H]; [by left|right]. split; [done|]. apply Heq in H. rewrite H in E. cbn in E.
    destruct (exact_match (attrs_of c)); [by left|right]. done.
Qed.

(** An element has its locations. *)
Definition holds x c : Prop :=
  lq_name x = cname c /\ (if cexact c then lq_exact x = Some c else lq_inclusive x = Some c).

Definition sound x : Prop :=
  lq_conf x <> None
  /\ (forall c, lq_exact x = Some c -> lq_name x = cname c /\ cexact c = true)
  /\ (forall c, lq_inclusive x = Some c -> lq_name x = cname c /\ cexact c = false).

Definition key c : list Z * bool := (cname c, cexact c).

Lemma lq_of_static c :
  static_attrs (attrs_of c) ->
  lq_of attrs_of c = if cexact c then Lq (Some c) None (cname c) [] else Lq None (Some c) (cname c) [].
Proof.
  intros (C1 & C2 & C3). unfold lq_of, cexact. rewrite C1, C2, C3. cbn. by rewrite !orb_false_r.
Qed.

Lemma lq_of_facts c :
  static_attrs (attrs_of c) ->
  lq_name (lq_of attrs_of c) = cname c /\ lq_list (lq_of attrs_of c) = [] /\ sound (lq_of attrs_of c)
  /\ (forall d, holds (lq_of attrs_of c) d <-> c = d).
Proof.
  intros Hc. rewrite (lq_of_static c Hc). unfold sound, holds.
  destruct (cexact c) eqn:Ec; cbn; split_and!; try done.
  - intros d [= ->]. done.
  - intros d. split; [|by intros <-; rewrite Ec]. intros [_ H]. destruct (cexact d); congruence.
  - intros d [= ->]. done.
  - intros d. split; [|by intros <-; rewrite Ec]. intros [_ H]. destruct (cexact d); congruence.
Qed.

Definition static_confs cs : Prop :=
  Forall (fun c => static_attrs (attrs_of c) /\ no_nul (cname c)) cs.

(** After a location of some name comes at most the inclusive one to an exact
    one. *)
Lemma same_name c cs d :
  Forall (static_le c) cs -> key c ∉ map key cs -> d ∈ cs -> cname d = cname c ->
  cexact c = true /\ cexact d = false.
Proof.
  intros Hcle Hnin Hd Hn. rewrite Forall_forall in Hcle. destruct (Hcle d Hd) as [Hlt|[_ He]].
  { rewrite Hn in Hlt. by apply lexlt_irrefl in Hlt. }
  assert (cexact c <> cexact d) as Hne.
  { intros He'. apply Hnin. apply list_elem_of_fmap. exists d. unfold key. by rewrite Hn, He'. }
  destruct (cexact c), (cexact d); naive_solver.
Qed.

Lemma after_first c cs :
  static_attrs (attrs_of c) -> Forall (static_le c) cs -> key c ∉ map key cs ->
  Forall (fun d => lexlt (cname c) (cname d) \/
            (cname c = cname d /\ cexact d = false /\ lq_inclusive (lq_of attrs_of c) = None)) cs.
Proof.
  intros Hc Hcle Hnin. apply Forall_forall. intros d Hd. rewrite Forall_forall in Hcle.
  destruct (Hcle d Hd) as [?|[Hn _]]; [by left|right].
  destruct (same_name c cs d) as [H1 H2]; [by apply Forall_forall|done..|].
  split_and!; [done..|]. rewrite (lq_of_static c Hc). by rewrite H1.
Qed.

Lemma join_from_ok q cs :
  static_confs cs -> StronglySorted static_le cs -> NoDup (map key cs) ->
  no_nul (lq_name q) -> lq_list q = [] -> sound q ->
  Forall (fun c => lexlt (lq_name q) (cname c) \/
                   (lq_name q = cname c /\ cexact c = false /\ lq_inclusive q = None)) cs ->
  exists k, join_from q (map (lq_of attrs_of) cs) = Some k /\
    StronglySorted before k /\
    Forall (fun x => lq_list x = [] /\ sound x /\ no_nul (lq_name x)
                     /\ (lq_name x = lq_name q \/ before q x)) k /\
    (forall c, (exists x, x ∈ k /\ holds x c) <-> holds q c \/ c ∈ cs).
Proof.
  revert q. induction cs as [|c cs IH]; intros q Hcs Hs Hnd Hqn Hql Hqs Hge; cbn [map join_from].
  { exists [q]. split_and!; [done|repeat constructor| |].
    - constructor; [|constructor]. split_and!; try done. by left.
    - intros c. split.
      + intros (x & ->%list_elem_of_singleton & ?). by left.
      + intros [?|?%elem_of_nil]; [|done]. exists q. split; [by apply list_elem_of_singleton|done]. }
  apply Forall_cons in Hcs as [[Hc Hcn] Hcs]. apply StronglySorted_cons in Hs as [Hcle Hs].
  cbn [map] in Hnd. apply NoDup_cons in Hnd as [Hnin Hnd]. apply Forall_cons in Hge as [Hqc Hge].
  destruct (lq_of_facts c Hc) as (Fn & Fl & Fs & Fh).
  destruct (ngx_strcmp_spec (lq_name q) (cname c)) as [_ Heq]; [done..|]. rewrite Fn.
  destruct (ngx_strcmp (lq_name q) (cname c) =? 0) eqn:E; boolify.
  - apply Heq in E. destruct Hqc as [H|(_ & Hce & Hqi)]; [rewrite E in H; by apply lexlt_irrefl in H|].
    rewrite (lq_of_static c Hc), Hce. cbn [lq_exact lq_inclusive is_some]. rewrite Hqi, andb_false_r. cbn [is_some andb orb].
    assert (forall d, holds (set_inclusive (Some c) q) d <-> holds q d \/ d = c) as Hh.
    { intros d. destruct q as [qe qi qn ql]. cbn in *. subst qi. unfold holds. cbn. destruct (cexact d) eqn:Ed.
      - split; [by left|]. intros [?| ->]; [done|congruence].
      - split; [intros [_ [= ->]]; by right|]. intros [[_ ?]| ->]; [done|by split]. }
    destruct (IH (set_inclusive (Some c) q)) as (k & -> & Hsk & Hk & Hhk); try done.
    + destruct Hqs as (Q1 & Q2 & _). destruct q as [qe qi qn ql]. cbn in *. subst qi. split_and!; cbn.
      * unfold lq_conf in *. cbn in *. by destruct qe.
      * done.
      * by intros d [= ->].
    + rewrite Forall_forall in Hge |- *. intros d Hd. destruct (Hge d Hd) as [?|(Hn & _)]; [by left|].
      destruct (same_name c cs d); [done..|congruence|congruence].
    + exists k. split_and!; [done..|]. intros d. rewrite Hhk, Hh, elem_of_cons. naive_solver.
  - destruct Hqc as [Hqc|(Hqc & _)]; [|by apply Heq in Hqc].
    destruct (IH (lq_of attrs_of c)) as (k & -> & Hsk & Hk & Hhk); [done..|by rewrite Fn|done|done| |].
    + rewrite Fn. by apply after_first.
    + assert (forall x, x ∈ k -> before q x) as Hb.
      { intros x Hx. rewrite Forall_forall in Hk. unfold before. destruct (Hk x Hx) as (_ & _ & _ & [-> | Hx']).
        - by rewrite Fn.
        - eapply lexlt_trans; [|exact Hx']. by rewrite Fn. }
      exists (q :: k). split_and!; [done| | |].
      * apply StronglySorted_cons. split; [|done]. by apply Forall_forall.
      * constructor; [by split_and!; [..|left]|]. rewrite Forall_forall in Hk |- *. intros x Hx.
        destruct (Hk x Hx) as (? & ? & ? & _). split_and!; [done..|]. right. by apply Hb.
      * intros d. rewrite elem_of_cons. specialize (Hhk d). rewrite Fh in Hhk. split.
        -- intros (x & [->|Hx]%elem_of_cons & Hx'); [by left|right].
           destruct Hhk as [H1 _]. destruct H1; [by exists x|by left|by right].
        -- intros [Hd|Hd]; [exists q; split; [set_solver|done]|].
           destruct Hhk as [_ H1]. destruct H1 as (x & ? & ?); [destruct Hd as [->|?]; tauto|].
           exists x. split; [set_solver|done].
Qed.

(** A second location of the same name and kind is an error. *)
Lemma join_from_dup q cs :
  static_confs cs -> StronglySorted static_le cs -> no_nul (lq_name q) ->
  Forall (fun c => lexlt (lq_name q) (cname c) \/
                   (lq_name q = cname c /\ (cexact c = true -> lq_exact q <> None))) cs ->
  ~ NoDup (map key cs) \/
  (exists c, c ∈ cs /\ cname c = lq_name q /\ if cexact c then lq_exact q <> None else lq_inclusive q <> None) ->
  join_from q (map (lq_of attrs_of) cs) = None.
Proof.
  revert q. induction cs as [|c cs IH]; intros q Hcs Hs Hqn Hge Hdup; cbn [map join_from].
  { destruct Hdup as [H|(c & Hc%elem_of_nil & _)]; [destruct H; constructor|done]. }
  apply Forall_cons in Hcs as [[Hc Hcn] Hcs]. apply StronglySorted_cons in Hs as [Hcle Hs].
  apply Forall_cons in Hge as [Hqc Hge]. destruct (lq_of_facts c Hc) as (Fn & _ & _ & _). rewrite Fn.
  destruct (ngx_strcmp_spec (lq_name q) (cname c)) as [_ Heq]; [done..|].
  rewrite (lq_of_static c Hc).
  destruct (ngx_strcmp (lq_name q) (cname c) =? 0) eqn:E; boolify.
  - apply Heq in E. destruct Hqc as [H|[_ Hqc]]; [rewrite E in H; by apply lexlt_irrefl in H|].
    destruct (cexact c) eqn:Ec; cbn [lq_exact lq_inclusive is_some].
    { specialize (Hqc eq_refl). destruct (lq_exact q); [|done]. cbn. done. }
    rewrite andb_false_r, andb_true_r. cbn [orb]. destruct (lq_inclusive q) as [i|] eqn:Ei; [done|]. cbn [is_some].
    apply IH; try done. destruct Hdup as [Hdup|(d & Hd & Hdn & Hdk)].
    + cbn [map] in Hdup. rewrite NoDup_cons in Hdup. destruct (decide (key c ∈ map key cs)) as [Hk|Hk]; [right|left; tauto].
      apply list_elem_of_fmap in Hk as (d & Hk & Hd). injection Hk as Hk1 Hk2. exists d. split_and!; [done|cbn; congruence|].
      by rewrite <- Hk2, Ec.
    + apply elem_of_cons in Hd as [->|Hd]; [by rewrite Ec in Hdk|]. right. exists d. split_and!; [done..|].
      by destruct (cexact d).
  - destruct Hqc as [Hqc|[Hqc _]]; [|by apply Heq in Hqc].
    rewrite <- (lq_of_static c Hc). rewrite (IH (lq_of attrs_of c)); [done|done|done|by rewrite Fn| |].
    + rewrite Fn. eapply Forall_impl; [exact Hcle|]. intros d [?|[? He]]; [by left|right]. split; [done|].
      intros Hde. rewrite (lq_of_static c Hc). destruct He as [->|?]; [done|congruence].
    + destruct Hdup as [Hdup|(d & Hd & Hdn & _)].
      * cbn [map] in Hdup. rewrite NoDup_cons in Hdup.
        destruct (decide (key c ∈ map key cs)) as [Hk|Hk]; [right|left; tauto].
        apply list_elem_of_fmap in Hk as (d & Hk & Hd). injection Hk as Hk1 Hk2. exists d.
        split_and!; [done|congruence|]. rewrite <- Hk2, (lq_of_static c Hc). by destruct (cexact c).
      * exfalso. apply (lexlt_irrefl (lq_name q)). rewrite <- Hdn at 2.
        apply elem_of_cons in Hd as [->|Hd]; [done|]. rewrite Forall_forall in Hcle.
        destruct (Hcle d Hd) as [?|[<- _]]; [by eapply lexlt_trans|done].
Qed.

Lemma join_dup cs :
  static_confs cs -> StronglySorted static_le cs -> ~ NoDup (map key cs) ->
  ngx_http_join_exact_locations (map (lq_of attrs_of) cs) = None.
Proof.
  intros Hcs Hs Hd. destruct cs as [|c cs]; [destruct Hd; constructor|]. cbn [map ngx_http_join_exact_locations].
  apply Forall_cons in Hcs as [[Hc Hcn] Hcs]. apply StronglySorted_cons in Hs as [Hcle Hs].
  destruct (lq_of_facts c Hc) as (Fn & _ & _ & _). apply join_from_dup; [done|done|by rewrite Fn| |].
  - rewrite Fn. eapply Forall_impl; [exact Hcle|]. intros d [?|[? He]]; [by left|right]. split; [done|].
    intros Hde. rewrite (lq_of_static c Hc). destruct He as [->|?]; [done|congruence].
  - cbn [map] in Hd. rewrite NoDup_cons in Hd.
    destruct (decide (key c ∈ map key cs)) as [Hk|Hk]; [right|left; tauto].
    apply list_elem_of_fmap in Hk as (d & Hk & Hin). injection Hk as Hk1 Hk2. exists d.
    split_and!; [done|congruence|]. rewrite <- Hk2, (lq_of_static c Hc). by destruct (cexact c).
Qed.

End tree.

End LocationTree.
