(* ===== verification/NgxLocationFind.v ===== *)
(** The static locations of one level: from the sorted locations to the answer
    of their tree, on what NgxLocationTree shows of it.  [choice] says which
    location a URI belongs to, in terms of the names and nothing else. *)

From stdpp Require Import sorting.
From S2P Require Import Prelude NgxSort NgxLocation NgxLocationTree.

#[local] Open Scope Z_scope.

Module LocationFind.
Import Location LocationTree.

(** * The static locations of a level *)

Section choice.
Context {A : Type} (attrs_of : A -> loc_attrs).
Implicit Types (c d : A) (cs : list A).

#[local] Abbreviation cname := (cname attrs_of).
#[local] Abbreviation cexact := (cexact attrs_of).

(** A location that redirects is named like the URI with one more byte. *)
Definition redirecting (u : list Z) cs (n : list Z) : Prop :=
  exists b d, n = u ++ [b] /\ d ∈ cs /\ cname d = n /\ auto_redirect (attrs_of d) = true.

(** It is the next name after the URI. *)
Definition next_name (u : list Z) cs (n : list Z) : Prop :=
  forall d, d ∈ cs -> ~ (lexlt u (cname d) /\ lexlt (cname d) n).

(** The location that answers for URI [u], with the code of the answer: the
    exact one, else the inclusive one of that name, else a redirection or the
    longest inclusive one that begins the URI. *)
Inductive choice (u : list Z) cs (base : Z * A) : Z * A -> Prop :=
| choice_exact c :
    c ∈ cs -> cname c = u -> cexact c = true -> choice u cs base (NGX_OK, c)
| choice_same c :
    c ∈ cs -> cname c = u -> cexact c = false ->
    (forall d, d ∈ cs -> cname d = u -> cexact d = false) -> choice u cs base (NGX_AGAIN, c)
| choice_redirect c :
    (forall d, d ∈ cs -> cname d <> u) -> c ∈ cs -> redirecting u cs (cname c) ->
    (forall d, d ∈ cs -> cname d = cname c -> cexact d = true -> cexact c = true) ->
    (forall n, redirecting u cs n -> next_name u cs n -> n = cname c) ->
    choice u cs base (NGX_DONE, c)
| choice_prefix c :
    (forall d, d ∈ cs -> cname d <> u) -> (forall n, redirecting u cs n -> ~ next_name u cs n) ->
    c ∈ cs -> cexact c = false -> cname c `prefix_of` u ->
    (forall d, d ∈ cs -> cexact d = false -> cname d `prefix_of` u -> cname d `prefix_of` cname c) ->
    choice u cs base (NGX_AGAIN, c)
| choice_none :
    (forall d, d ∈ cs -> cname d <> u) -> (forall n, redirecting u cs n -> ~ next_name u cs n) ->
    (forall d, d ∈ cs -> cexact d = false -> ~ cname d `prefix_of` u) ->
    choice u cs base base.

(** ** From the elements of the tree to the locations *)

Section joined.
Context (E : list (location_queue A)) (cs : list A).
Context (E_unique : forall x y, x ∈ E -> y ∈ E -> lq_name x = lq_name y -> x = y).
Context (E_sound : forall x, x ∈ E -> sound attrs_of x).
Context (E_holds : forall c, (exists x, x ∈ E /\ holds attrs_of x c) <-> c ∈ cs).

Lemma held_exact x c : x ∈ E -> lq_exact x = Some c -> c ∈ cs /\ lq_name x = cname c /\ cexact c = true.
Proof.
  intros Hx Hc. destruct (E_sound x Hx) as (_ & Hs & _). destruct (Hs c Hc) as [Hn He].
  split; [|done]. apply E_holds. exists x. split; [done|]. split; [done|]. by rewrite He.
Qed.

Lemma held_inclusive x c : x ∈ E -> lq_inclusive x = Some c -> c ∈ cs /\ lq_name x = cname c /\ cexact c = false.
Proof.
  intros Hx Hc. destruct (E_sound x Hx) as (_ & _ & Hs). destruct (Hs c Hc) as [Hn He].
  split; [|done]. apply E_holds. exists x. split; [done|]. split; [done|]. by rewrite He.
Qed.

Lemma held x c : x ∈ E -> lq_exact x = Some c \/ lq_inclusive x = Some c -> c ∈ cs /\ lq_name x = cname c.
Proof. intros Hx [H|H]; [apply held_exact in H|apply held_inclusive in H]; naive_solver. Qed.

Lemma holder c : c ∈ cs -> exists x, x ∈ E /\ lq_name x = cname c
  /\ (if cexact c then lq_exact x = Some c else lq_inclusive x = Some c).
Proof. intros Hc. apply E_holds in Hc as (x & ? & ?). by exists x. Qed.

Lemma some_conf x : x ∈ E -> exists c, lq_conf x = Some c /\ c ∈ cs /\ lq_name x = cname c.
Proof.
  intros Hx. destruct (E_sound x Hx) as [Hs _]. destruct (lq_conf x) as [c|] eqn:Ec; [|done].
  exists c. split; [done|]. destruct (held x c Hx); [|done].
  unfold lq_conf in Ec. destruct (lq_exact x); naive_solver.
Qed.

Lemma unnamed_names u : unnamed u E -> forall d, d ∈ cs -> cname d <> u.
Proof. intros H d (x & Hx & Hn & _)%holder Hd. apply (H x Hx). congruence. Qed.

Lemma candidate_name u x : x ∈ E -> candidate attrs_of u x -> redirecting u cs (lq_name x).
Proof.
  intros Hx [Hr [b Hb]]. rewrite Hb. apply orb_true_iff in Hr. unfold redirects in Hr.
  assert (exists d, (lq_exact x = Some d \/ lq_inclusive x = Some d) /\ auto_redirect (attrs_of d) = true)
    as (d & Hd & Ha).
  { destruct Hr as [Hr|Hr]; [destruct (lq_exact x)|destruct (lq_inclusive x)]; naive_solver. }
  destruct (held x d Hx Hd). exists b, d. split_and!; [done..|congruence|done].
Qed.

Lemma redirecting_entry u n :
  redirecting u cs n -> exists x, x ∈ E /\ candidate attrs_of u x /\ lq_name x = n.
Proof.
  intros (b & d & -> & (x & Hx & Hn & Hd)%holder & Hdn & Ha). exists x. split_and!; [done| |congruence].
  split; [|exists b; congruence]. apply orb_true_iff. unfold redirects. destruct (cexact d); rewrite Hd; auto.
Qed.

Lemma next_adjacent u x : x ∈ E -> next_name u cs (lq_name x) -> adjacent u E x.
Proof.
  intros Hx H y Hy Hlt. destruct (some_conf y Hy) as (d & _ & Hd & Hn). rewrite Hn in Hlt. by apply (H d).
Qed.

Lemma no_redirecting u :
  (forall y, y ∈ E -> candidate attrs_of u y -> ~ adjacent u E y) ->
  forall n, redirecting u cs n -> ~ next_name u cs n.
Proof.
  intros H n (x & Hx & Hc & <-)%redirecting_entry Hn. apply (H x Hx Hc). by apply next_adjacent.
Qed.

Lemma found_choice u base res : found attrs_of u E base res -> choice u cs base res.
Proof.
  destruct 1 as [x c Hx Hn He|x c Hx Hn He Hi|x c Hun Hx Hc Hconf Hone|x c Hun Hnc Hx Hp Hi Hlong|Hun Hnc Hnp].
  - destruct (held_exact x c Hx He) as (? & ? & ?). apply choice_exact; [done|congruence|done].
  - destruct (held_inclusive x c Hx Hi) as (? & ? & ?). apply choice_same; [done|congruence|done|].
    intros d Hd Hdn. apply holder in Hd as (y & Hy & Hyn & Hd). destruct (cexact d); [|done].
    rewrite (E_unique y x) in Hd; congruence.
  - destruct (some_conf x Hx) as (c' & Hc' & Hcs & Hn). rewrite Hconf in Hc'. simplify_eq.
    apply choice_redirect; [by apply unnamed_names|done|rewrite <- Hn; by apply candidate_name| |].
    + intros d Hd Hdn He. apply holder in Hd as (y & Hy & Hyn & Hd). rewrite He in Hd.
      rewrite (E_unique y x) in Hd; [|done..|congruence]. unfold lq_conf in Hconf. rewrite Hd in Hconf. simplify_eq.
      done.
    + intros n (y & Hy & Hcy & <-)%redirecting_entry Hnext.
      rewrite <- Hn. f_equal. apply Hone; [done..|]. by apply next_adjacent.
  - destruct (held_inclusive x c Hx Hi) as (? & Hn & ?). rewrite Hn in Hp.
    apply choice_prefix; [by apply unnamed_names|by apply no_redirecting|done..|].
    intros d Hd Hde Hdp. apply holder in Hd as (y & Hy & Hyn & Hd). rewrite Hde in Hd.
    rewrite <- Hn, <- Hyn. apply Hlong; [done|by rewrite Hd|by rewrite Hyn].
  - apply choice_none; [by apply unnamed_names|by apply no_redirecting|].
    intros d Hd Hde Hdp. apply holder in Hd as (y & Hy & Hyn & Hd). rewrite Hde in Hd.
    apply (Hnp y Hy); [by rewrite Hd|by rewrite Hyn].
Qed.
End joined.

(** ** One level, from its sorted locations to the answer *)

Lemma static_tree cs :
  cs <> [] -> static_confs attrs_of cs -> StronglySorted (static_le attrs_of) cs ->
  NoDup (map (key attrs_of) cs) -> Forall (fun c => (length (cname c) <= 255)%nat) cs ->
  exists k q t,
    ngx_http_join_exact_locations (map (lq_of attrs_of) cs) = Some k /\
    ngx_http_create_locations_list (length k) k = Ret q /\
    ngx_http_create_locations_tree attrs_of (length k) q 0 = Ret t /\
    forall u rv conf, exists res, find_static t u rv conf = Ret res /\ choice u cs (rv, conf) res.
Proof.
  intros Hne Hcs Hs Hnd Hlen. destruct cs as [|c cs]; [done|]. cbn [map ngx_http_join_exact_locations].
  apply StronglySorted_cons in Hs as [Hcle Hs]. apply NoDup_cons in Hnd as [Hnin Hnd].
  apply Forall_cons in Hcs as [[Hc Hcn] Hcs]. destruct (lq_of_facts attrs_of c Hc) as (Fn & Fl & Fs & Fh).
  destruct (join_from_ok attrs_of (lq_of attrs_of c) cs) as (k & -> & Hsk & Hk & Hhk);
    [done..|by rewrite Fn|done|done|rewrite Fn; by apply after_first|].
  rewrite Forall_forall in Hk.
  assert (k <> []) as Hkne.
  { intros ->. destruct (Hhk c) as [_ H]. destruct H as (x & Hx%elem_of_nil & _); [|done]. left. by apply Fh. }
  destruct (create_locations_list_ok (length k) k) as (q & Eq & Hq & Hv);
    [done|apply Forall_forall; intros x Hx; by apply Hk..|done|destruct k; [done|cbn; lia]|].
  assert (forall x, x ∈ flat q -> exists y, y ∈ k /\ view x = view y) as Hxy by (intros; by apply (view_elem _ _ _ Hv)).
  assert (forall x, x ∈ flat q -> sound attrs_of x) as Hsound.
  { intros x Hx. destruct (Hxy x Hx) as (y & Hy & [= E1 E2 E3]). unfold sound, lq_conf. rewrite E1, E2, E3.
    by apply Hk. }
  assert (forall d, (exists x, x ∈ flat q /\ holds attrs_of x d) <-> d ∈ c :: cs) as Hhold.
  { intros d. specialize (Hhk d). rewrite Fh in Hhk. rewrite elem_of_cons. transitivity (c = d \/ d ∈ cs); [|naive_solver].
    rewrite <- Hhk. split; intros (x & Hx & Hh).
    - destruct (Hxy x Hx) as (y & Hy & [= E1 E2 E3]). exists y. split; [done|]. unfold holds in *. by rewrite <- E1, <- E2, <- E3.
    - destruct (view_elem _ _ _ (eq_sym Hv) Hx) as (y & Hy & [= E1 E2 E3]). exists y. split; [done|].
      unfold holds in *. by rewrite <- E1, <- E2, <- E3. }
  assert (length (flat q) = length k) as Elen.
  { apply (f_equal length) in Hv. by rewrite !length_map in Hv. }
  destruct (create_locations_tree_ok attrs_of (length k) q []) as (t & Et & Ht); [done| |lia| |].
  { intros ->. apply Hkne. by destruct k. }
  { apply Forall_forall. intros x Hx. destruct (Hxy x Hx) as (y & Hy & [= E1 E2 E3]).
    split_and!; [apply prefix_nil| |by apply Hsound].
    destruct (Hsound x Hx) as (Hx1 & Hx2 & Hx3). rewrite Forall_forall in Hlen.
    assert (exists d, holds attrs_of x d) as (d & Hd).
    { unfold holds. unfold lq_conf in Hx1. destruct (lq_exact x) as [d|] eqn:Ed.
      - exists d. destruct (Hx2 d) as [? ->]; done.
      - destruct (lq_inclusive x) as [d|] eqn:Ei; [|done]. exists d. destruct (Hx3 d) as [? ->]; done. }
    destruct (Hd) as [-> _]. apply Hlen. apply Hhold. by exists x. }
  exists k, q, t. split_and!; [done..|]. intros u rv conf. destruct (Ht u rv conf) as (res & ? & Hf).
  exists res. split; [done|]. apply (found_choice (flat q)); try done.
  assert (StronglySorted lexlt (map lq_name (flat q))) as Hss.
  { assert (map lq_name (flat q) = map lq_name k) as ->.
    { apply (f_equal (map snd)) in Hv. by rewrite !map_map in Hv. }
    clear -Hsk. induction Hsk as [|x k Hsk IH Hx]; cbn; constructor; [done|]. by apply Forall_map. }
  intros x y Hx Hy. by apply increasing_unique with (l := flat q).
Qed.

End choice.
End LocationFind.
