(* ===== verification/NgxLocationServer.v ===== *)
(** The locations of a server: what their initialisation makes of a
    configuration, and that the search refines the choice the configuration
    asks for. *)

From stdpp Require Import sorting.
From S2P Require Import Prelude NgxSort NgxLocation NgxLocationTree NgxLocationFind.

#[local] Open Scope Z_scope.
#[local] Set Warnings "-register-all".

Module LocationServer.
Import Location LocationTree LocationFind.

(** * The sort *)

Lemma sort_insert_map {A B} (f : A -> B) (cmp : B -> B -> Z) p l :
  sort_insert cmp (f p) (map f l) = map f (sort_insert (fun x y => cmp (f x) (f y)) p l).
Proof. induction l as [|q l IH]; cbn [map sort_insert]; [done|]. case_if E; cbn [map]; by rewrite ?IH. Qed.

Lemma ngx_sort_map {A B} (f : A -> B) (cmp : B -> B -> Z) l :
  ngx_sort cmp (map f l) = map f (ngx_sort (fun x y => cmp (f x) (f y)) l).
Proof.
  unfold ngx_sort. rewrite map_rev. f_equal. change (@nil B) with (map f []). generalize (@nil A).
  induction l as [|p l IH]; intros acc; cbn [map fold_left]; [done|]. by rewrite sort_insert_map, IH.
Qed.

Lemma ngx_sort_ext {A} (cmp cmp' : A -> A -> Z) l :
  (forall x y, cmp x y = cmp' x y) -> ngx_sort cmp l = ngx_sort cmp' l.
Proof.
  intros H. unfold ngx_sort. f_equal. generalize (@nil A).
  assert (forall p k, sort_insert cmp p k = sort_insert cmp' p k) as Hi.
  { intros p k. induction k as [|q k IH]; cbn; [done|]. by rewrite H, IH. }
  induction l as [|p l IH]; intros acc; cbn [fold_left]; [done|]. by rewrite Hi, IH.
Qed.

(** Static locations come first, then the regular expressions, the named and
    the unnamed ones. *)
Definition rank (a : loc_attrs) : nat :=
  if noname a then 3 else if named a then 2 else if is_some (loc_regex a) then 1 else 0.

Definition attrs_le (a b : loc_attrs) : Prop :=
  (rank a < rank b)%nat \/
  (rank a = rank b /\
   (rank a = 0%nat -> static_le id a b) /\ (rank a = 2%nat -> ~ lexlt (loc_name b) (loc_name a))).

Lemma cmp_attrs_le a b :
  no_nul (loc_name a) -> no_nul (loc_name b) -> cmp_attrs a b <= 0 <-> attrs_le a b.
Proof.
  intros Ha Hb. pose proof (ngx_strcmp_spec _ _ Ha Hb) as [Hlt Heq].
  assert (rank a = 0%nat -> rank b = 0%nat -> cmp_attrs a b <= 0 <-> static_le id a b) as H0.
  { intros Ra Rb. apply (cmp_static id); try done; unfold static_attrs, rank, id in *;
      [clear Rb; destruct (noname a), (named a), (loc_regex a)|destruct (noname b), (named b), (loc_regex b)]; done. }
  unfold attrs_le. destruct (decide (rank a = 0%nat)) as [Ra|Ra], (decide (rank b = 0%nat)) as [Rb|Rb].
  { rewrite (H0 Ra Rb), Ra, Rb. split; [|intros [?|(_ & H & _)]; [lia|auto]]. intros. right. split_and!; [done..|lia]. }
  all: clear H0; assert (ngx_strcmp (loc_name a) (loc_name b) <= 0 <-> ~ lexlt (loc_name b) (loc_name a)) as H2 by
    (pose proof (lexlt_total (loc_name a) (loc_name b)); pose proof (lexlt_irrefl (loc_name a));
     pose proof (lexlt_trans (loc_name a) (loc_name b) (loc_name a));
     transitivity (lexlt (loc_name a) (loc_name b) \/ loc_name a = loc_name b);
     [rewrite <- Hlt, <- Heq; lia|split; [intros [?|<-]; tauto|tauto]]).
  all: clear Hlt Heq; unfold cmp_attrs, rank in *; cbv zeta in *;
    destruct (noname a), (noname b), (named a), (named b), (loc_regex a), (loc_regex b); cbn in *;
    try lia; try (split; [intros; right; split_and!; done|lia]).
  all: rewrite H2; split; [intros; right; split_and!; done|intros [?|(_ & _ & H)]; [lia|auto]].
Qed.

Lemma lexlt_asym s t : lexlt s t -> ~ lexlt t s.
Proof. intros H1 H2. apply (lexlt_irrefl s). by eapply lexlt_trans. Qed.

Lemma static_le_trans a b c : static_le id a b -> static_le id b c -> static_le id a c.
Proof.
  unfold static_le, cname, cexact, id. intros [H1|[E1 H1]] [H2|[E2 H2]].
  - left. by eapply lexlt_trans.
  - left. by rewrite <- E2.
  - left. by rewrite E1.
  - right. split; [congruence|]. destruct H1 as [H1|H1]; [by left|]. destruct H2 as [H2|H2]; [congruence|by right].
Qed.

Lemma static_le_total a b : static_le id a b \/ static_le id b a.
Proof.
  unfold static_le, cname, cexact, id. destruct (lexlt_total (loc_name a) (loc_name b)) as [?|[E|?]]; [tauto| |tauto].
  destruct (exact_match a), (exact_match b); auto 6.
Qed.

Lemma attrs_le_total a b : attrs_le a b \/ attrs_le b a.
Proof.
  unfold attrs_le. destruct (lt_eq_lt_dec (rank a) (rank b)) as [[?|E]|?]; [tauto| |tauto]. rewrite <- E.
  destruct (decide (rank a = 0%nat)) as [R|R].
  - destruct (static_le_total a b); [left|right]; right; split_and!; done || lia.
  - destruct (lexlt_total (loc_name a) (loc_name b)) as [H|[H|H]]; [left|left|right]; right; split_and!; try done; intros _.
    + by apply lexlt_asym.
    + rewrite H. apply lexlt_irrefl.
    + by apply lexlt_asym.
Qed.

Lemma attrs_le_trans a b c : attrs_le a b -> attrs_le b c -> attrs_le a c.
Proof.
  unfold attrs_le. intros [?|(E1 & S1 & N1)] [?|(E2 & S2 & N2)]; [left; lia..|]. right.
  split_and!; [congruence| |].
  - intros R. eapply static_le_trans; [by apply S1|]. apply S2. congruence.
  - intros R H. destruct (lexlt_total (loc_name a) (loc_name b)) as [H1|[H1|H1]].
    + apply N2; [congruence|]. by eapply lexlt_trans.
    + apply N2; [congruence|]. by rewrite <- H1.
    + by apply N1.
Qed.

(** * Configurations *)

(** A location with the locations in it. *)
Inductive location := Loc (a : loc_attrs) (children : list location).

Definition la (l : location) : loc_attrs := let 'Loc a _ := l in a.
Definition children (l : location) : list location := let 'Loc _ ch := l in ch.

(** What reading it leaves: every location in the queue of the one it is in. *)
Fixpoint conf (l : location) : core_loc_conf :=
  let 'Loc a ch := l in
  Clcf a (match ch with [] => None | _ => Some (map (fun c => lq_of attrs (conf c)) ch) end) NoNode None.

Definition of_rank (n : nat) (l : location) : Prop := rank (la l) = n.

#[global] Instance of_rank_dec n l : Decision (of_rank n l).
Proof. unfold of_rank. apply _. Defined.

Definition statics (l : location) : list location := filter (of_rank 0) (children l).
Definition regexes (l : location) : list location := filter (of_rank 1) (children l).

Definition one_kind (a : loc_attrs) : Prop :=
  (noname a = true -> named a = false /\ loc_regex a = None) /\ (named a = true -> loc_regex a = None).

(** What the directive and the grammar of the configuration see to. *)
Inductive readable : bool -> location -> Prop :=
| Readable server a ch :
    Forall (readable false) ch ->
    Forall (fun c => one_kind (la c) /\ no_nul (loc_name (la c)) /\ (named (la c) = true -> server = true)) ch ->
    readable server (Loc a ch).

(** The static names are short enough, and none is there twice. *)
Inductive distinct : location -> Prop :=
| Distinct a ch :
    Forall distinct ch ->
    Forall (fun c => (length (loc_name (la c)) <= 255)%nat) (filter (of_rank 0) ch) ->
    NoDup (map (key la) (filter (of_rank 0) ch)) ->
    distinct (Loc a ch).

Fixpoint height (l : location) : nat :=
  let 'Loc _ ch := l in S (list_max (map height ch)).

Lemma height_child a ch c : c ∈ ch -> (height c < height (Loc a ch))%nat.
Proof.
  intros Hc. cbn [height]. induction Hc as [|c x ch _ IH]; cbn [map list_max fold_right]; unfold list_max in *; lia.
Qed.

(** * Initialisation *)

Fixpoint opened (l : location) : core_loc_conf :=
  let 'Loc a ch := l in
  let k := map opened ch in
  Clcf a
    (match ch with
     | [] => None
     | _ => Some (map (lq_of attrs)
              (filter (fun c => rank (attrs c) = 0%nat) (ngx_sort (fun x y => cmp_attrs (attrs x) (attrs y)) k)))
     end)
    NoNode
    (match filter (fun c => rank (attrs c) = 1%nat) k with [] => None | r => Some (map Some r) end).

Lemma attrs_conf l : attrs (conf l) = la l.
Proof. by destruct l. Qed.

Lemma attrs_opened l : attrs (opened l) = la l.
Proof. by destruct l. Qed.

Lemma filter_map_comm {A B} (f : A -> B) (P : B -> Prop) (Q : A -> Prop)
    `{!forall x, Decision (P x), !forall x, Decision (Q x)} l :
  (forall x, P (f x) <-> Q x) -> filter P (map f l) = map f (filter Q l).
Proof.
  intros HPQ. induction l as [|x l IH]; [done|]. cbn [map]. rewrite !filter_cons, IH. specialize (HPQ x).
  repeat case_decide; tauto.
Qed.

Lemma lq_conf_of {A} (attrs_of : A -> loc_attrs) c : lq_conf (lq_of attrs_of c) = Some c.
Proof. unfold lq_of. by case_if E. Qed.

Lemma set_conf_of {A} (attrs_of : A -> loc_attrs) c d :
  attrs_of c = attrs_of d -> set_conf d (lq_of attrs_of c) = lq_of attrs_of d.
Proof. intros H. unfold lq_of, set_conf. rewrite H. by destruct (_ || noname _). Qed.

Lemma lq_exact_of {A} (attrs_of : A -> loc_attrs) c :
  (0 < rank (attrs_of c))%nat -> lq_exact (lq_of attrs_of c) = Some c.
Proof.
  intros H. unfold lq_of, rank in *. destruct (noname (attrs_of c)), (named (attrs_of c)), (loc_regex (attrs_of c)), (exact_match (attrs_of c));
    cbn in *; done || lia.
Qed.

(** ** The sorted children *)

Definition sorted_children (ch : list location) : list location :=
  ngx_sort (fun x y => cmp_attrs (la x) (la y)) ch.

Lemma sorted_children_sorted ch :
  Forall (fun c => no_nul (loc_name (la c))) ch ->
  StronglySorted (fun x y => attrs_le (la x) (la y)) (sorted_children ch).
Proof.
  intros H. unfold sorted_children.
  assert (Hc : forall x y, no_nul (loc_name (la x)) -> no_nul (loc_name (la y)) ->
    cmp_attrs (la x) (la y) <= 0 <-> attrs_le (la x) (la y)) by (intros; by apply cmp_attrs_le).
  assert (Hs : StronglySorted (fun x y => cmp_attrs (la x) (la y) <= 0) (sorted_children ch)).
  { apply (ngx_sort_sorted _ (fun c => no_nul (loc_name (la c)))); [| |done].
    - intros x y Hx Hy. rewrite !Hc by done. apply attrs_le_total.
    - intros x y z Hx Hy Hz. rewrite !Hc by done. apply attrs_le_trans. }
  rewrite <- (ngx_sort_perm (fun x y => cmp_attrs (la x) (la y))) in H. fold (sorted_children ch) in *.
  induction Hs as [|x l Hs IH Hx]; constructor; apply Forall_cons in H as [H1 H2]; [by apply IH|].
  rewrite Forall_forall in Hx, H2 |- *. intros y Hy. apply Hc; auto.
Qed.

Lemma rank_split ch :
  StronglySorted (fun x y => attrs_le (la x) (la y)) ch ->
  ch = filter (of_rank 0) ch ++ filter (of_rank 1) ch ++ filter (of_rank 2) ch ++ filter (of_rank 3) ch.
Proof.
  induction 1 as [|x l Hs IH Hx]; [done|].
  assert (forall n, (n < rank (la x))%nat -> filter (of_rank n) l = []) as Hnil.
  { intros n Hn. clear IH Hs. induction Hx as [|y l Hy Hl IH]; [done|]. rewrite filter_cons_False; [done|].
    unfold of_rank. intros Hr. destruct Hy as [?|[? _]]; lia. }
  assert (rank (la x) < 4)%nat as H4 by (unfold rank; destruct (noname (la x)), (named (la x)), (loc_regex (la x)); cbn; lia).
  rewrite !filter_cons. repeat case_decide; unfold of_rank in *; try lia; cbn [app].
  - by rewrite <- IH.
  - rewrite (Hnil 0%nat) in * by lia. cbn [app] in *. by rewrite <- IH.
  - rewrite (Hnil 0%nat), (Hnil 1%nat) in * by lia. cbn [app] in *. by rewrite <- IH.
  - rewrite (Hnil 0%nat), (Hnil 1%nat), (Hnil 2%nat) in * by lia. cbn [app] in *. by rewrite <- IH.
Qed.

Lemma regexes_sorted ch : filter (of_rank 1) (sorted_children ch) = filter (of_rank 1) ch.
Proof.
  apply ngx_sort_stable. unfold of_rank, rank, cmp_attrs. intros x y.
  destruct (noname (la x)), (noname (la y)), (named (la x)), (named (la y)), (loc_regex (la x)), (loc_regex (la y));
    cbn; intros; done || lia.
Qed.

(** ** The loop *)

Definition scan_prepend (l : list (location_queue core_loc_conf)) (s : scan_result) : scan_result :=
  MkScan (l ++ scanned s) (first_regex s) (n_regex s) (first_named s) (n_named s) (stopped s).

(** The position of the first of [l]. *)
Definition first_at {A} (l : list A) (o : option nat) (pos : nat) : option nat :=
  match l with [] => o | _ => or_pos o pos end.

Lemma scan_cons_prepend q l s : scan_cons q (scan_prepend l s) = scan_prepend (q :: l) s.
Proof. done. Qed.

Section scan.
Context (init : core_loc_conf -> outcome core_loc_conf).
Let queue (f : location -> core_loc_conf) l := map (fun c => lq_of attrs (f c)) l.
Let inits l := Forall (fun c => one_kind (la c) /\ init (conf c) = Ret (opened c)) l.

Lemma scan_statics l rest pos rg r nm n :
  inits l -> Forall (of_rank 0) l ->
  scan_locations init (queue conf l ++ rest) pos rg r nm n
  = let! s := scan_locations init rest (pos + length l) rg r nm n in Ret (scan_prepend (queue opened l) s).
Proof.
  intros Hl. revert pos. induction Hl as [|c l [_ Hc] Hl IH]; intros pos Hr; cbn [map queue app length].
  { rewrite Nat.add_0_r. by destruct (scan_locations _ _ _ _ _ _ _) as [[]| |]. }
  apply Forall_cons in Hr as [Hr0 Hr]. cbn [scan_locations]. rewrite lq_conf_of, Hc. cbn [outcome_bind].
  rewrite attrs_opened, set_conf_of by by rewrite attrs_conf, attrs_opened.
  unfold of_rank, rank in Hr0. destruct (noname (la c)), (named (la c)), (loc_regex (la c)); try done. cbn [is_some].
  rewrite IH by done. rewrite Nat.add_succ_comm. by destruct (scan_locations _ _ _ _ _ _ _).
Qed.

Lemma scan_regexes l rest pos rg r nm n :
  inits l -> Forall (of_rank 1) l ->
  scan_locations init (queue conf l ++ rest) pos rg r nm n
  = let! s := scan_locations init rest (pos + length l) (first_at l rg pos) (r + length l) nm n in
    Ret (scan_prepend (queue opened l) s).
Proof.
  intros Hl. revert pos rg r. induction Hl as [|c l [_ Hc] Hl IH]; intros pos rg r Hr; cbn [map queue app length].
  { rewrite !Nat.add_0_r. by destruct (scan_locations _ _ _ _ _ _ _) as [[]| |]. }
  apply Forall_cons in Hr as [Hr0 Hr]. cbn [scan_locations]. rewrite lq_conf_of, Hc. cbn [outcome_bind].
  rewrite attrs_opened, set_conf_of by by rewrite attrs_conf, attrs_opened.
  unfold of_rank, rank in Hr0. destruct (noname (la c)), (named (la c)), (loc_regex (la c)); try done. cbn [is_some].
  rewrite IH by done. rewrite !Nat.add_succ_comm.
  replace (first_at l (or_pos rg pos) (S pos)) with (or_pos rg pos) by by destruct l, rg.
  by destruct (scan_locations _ _ _ _ _ _ _).
Qed.

Lemma scan_named l rest pos rg r nm n :
  inits l -> Forall (of_rank 2) l ->
  scan_locations init (queue conf l ++ rest) pos rg r nm n
  = let! s := scan_locations init rest (pos + length l) rg r (first_at l nm pos) (n + length l) in
    Ret (scan_prepend (queue opened l) s).
Proof.
  intros Hl. revert pos nm n. induction Hl as [|c l [Hk Hc] Hl IH]; intros pos nm n Hr; cbn [map queue app length].
  { rewrite !Nat.add_0_r. by destruct (scan_locations _ _ _ _ _ _ _) as [[]| |]. }
  apply Forall_cons in Hr as [Hr0 Hr]. cbn [scan_locations]. rewrite lq_conf_of, Hc. cbn [outcome_bind].
  rewrite attrs_opened, set_conf_of by by rewrite attrs_conf, attrs_opened.
  unfold of_rank, rank in Hr0. destruct Hk as [_ Hk].
  destruct (noname (la c)), (named (la c)); [done..| |by destruct (loc_regex (la c))].
  rewrite (Hk eq_refl). cbn [is_some].
  rewrite IH by done. rewrite !Nat.add_succ_comm.
  replace (first_at l (or_pos nm pos) (S pos)) with (or_pos nm pos) by by destruct l, nm.
  by destruct (scan_locations _ _ _ _ _ _ _).
Qed.

Lemma scan_noname l pos rg r nm n :
  inits l -> Forall (of_rank 3) l ->
  exists k, scan_locations init (queue conf l) pos rg r nm n = Ret (MkScan k rg r nm n pos).
Proof.
  intros Hl Hr. destruct Hl as [|c l [Hk Hc] Hl]; [by eexists|].
  apply Forall_cons in Hr as [Hr0 _]. cbn [map queue scan_locations]. rewrite lq_conf_of, Hc. cbn [outcome_bind].
  rewrite attrs_opened. unfold of_rank, rank in Hr0. destruct Hk as [Hk _].
  destruct (noname (la c)); [|by destruct (named (la c)), (loc_regex (la c))].
  destruct (Hk eq_refl) as [-> ->]. by eexists.
Qed.
End scan.

Lemma cut_queue {A} (f : A -> core_loc_conf) (l r : list A) :
  Forall (fun c => (0 < rank (attrs (f c)))%nat) r ->
  cut_locations (first_at r None (length l)) (length r) (map (fun c => lq_of attrs (f c)) (l ++ r))
  = Ret (match r with [] => None | _ => Some (map Some (map f r)) end, map (fun c => lq_of attrs (f c)) l).
Proof.
  intros Hr. unfold cut_locations. destruct r as [|x r]; cbn [first_at or_pos]; [by rewrite app_nil_r|].
  rewrite map_app. rewrite drop_app_length', take_app_length' by by rewrite length_map.
  rewrite length_map. rewrite (proj2 (Nat.ltb_ge _ _)) by lia. do 4 f_equal. rewrite !map_map.
  apply map_ext_in. intros c Hc. apply lq_exact_of. rewrite Forall_forall in Hr. apply Hr. by apply list_elem_of_In.
Qed.

Lemma opened_eq a ch :
  ch <> [] ->
  opened (Loc a ch)
  = Clcf a (Some (map (fun c => lq_of attrs (opened c)) (filter (of_rank 0) (sorted_children ch)))) NoNode
      (match filter (of_rank 1) ch with [] => None | r => Some (map Some (map opened r)) end).
Proof.
  intros Hne. cbn [opened]. f_equal.
  - destruct ch as [|c ch]; [done|]. f_equal. rewrite ngx_sort_map.
    rewrite (filter_map_comm opened _ (of_rank 0)), map_map.
    + do 2 f_equal. apply ngx_sort_ext. intros x y. by rewrite !attrs_opened.
    + intros x. by rewrite attrs_opened.
  - rewrite (filter_map_comm opened _ (of_rank 1)).
    + by destruct (filter (of_rank 1) ch).
    + intros x. by rewrite attrs_opened.
Qed.

Lemma sort_queue ch :
  ngx_queue_sort (ngx_http_cmp_locations attrs) (map (fun c => lq_of attrs (conf c)) ch)
  = map (fun c => lq_of attrs (conf c)) (sorted_children ch).
Proof.
  rewrite ngx_queue_sort_sort, ngx_sort_map. f_equal. apply ngx_sort_ext. intros x y.
  unfold ngx_http_cmp_locations. by rewrite !lq_conf_of, !attrs_conf.
Qed.

Lemma init_locations_ok fuel server l :
  readable server l -> (height l <= fuel)%nat ->
  exists nl, ngx_http_init_locations fuel server (conf l) = Ret (nl, opened l).
Proof.
  revert server l. induction fuel as [|fuel IH]; intros server l Hwf Hf; [destruct l; cbn in Hf; lia|].
  destruct Hwf as [server a ch Hwf Hch]. destruct ch as [|c0 ch0] eqn:Ech; [by eexists|].
  rewrite <- Ech in *. rewrite opened_eq by by rewrite Ech.
  assert (conf (Loc a ch) = Clcf a (Some (map (fun c => lq_of attrs (conf c)) ch)) NoNode None) as -> by by rewrite Ech.
  cbn [ngx_http_init_locations]. rewrite sort_queue.
  assert (Forall (fun c => one_kind (la c) /\
            (let! (_, c) := ngx_http_init_locations fuel false (conf c) in Ret c) = Ret (opened c))
            (sorted_children ch)) as Hin.
  { unfold sorted_children. rewrite ngx_sort_perm. rewrite Forall_forall in Hwf, Hch |- *. intros c Hc.
    split; [by apply Hch|]. destruct (IH false c) as (nl & ->); [by apply Hwf| |done].
    pose proof (height_child a ch c Hc). lia. }
  pose proof (rank_split (sorted_children ch)) as Hsplit.
  rewrite <- (regexes_sorted ch).
  set (so := sorted_children ch) in *. 
  set (S := filter (of_rank 0) so) in *. set (R := filter (of_rank 1) so) in *.
  set (N := filter (of_rank 2) so) in *. set (X := filter (of_rank 3) so) in *.
  rewrite Hsplit in Hin |- * by (apply sorted_children_sorted; eapply Forall_impl; [exact Hch|]; by intros ? (_ & ? & _)).
  rewrite !Forall_app in Hin. destruct Hin as (HS & HR & HN & HX).
  assert (Forall (of_rank 0) S /\ Forall (of_rank 1) R /\ Forall (of_rank 2) N /\ Forall (of_rank 3) X)
    as (KS & KR & KN & KX).
  { split_and!; apply Forall_forall; intros x Hx; by apply list_elem_of_filter in Hx as [? _]. }
  assert (EN : N = filter (of_rank 2) so) by done. clearbody N.
  rewrite !map_app, scan_statics, scan_regexes, scan_named by done.
  destruct (scan_noname (fun c => let! (_, c) := ngx_http_init_locations fuel false c in Ret c) X
    (0 + length S + length R + length N) (first_at R None (0 + length S)) (0 + length R)
    (first_at N None (0 + length S + length R)) (0 + length N)) as (k & ->); [done..|].
  cbn [outcome_bind scan_prepend scanned first_regex n_regex first_named n_named stopped].
  set (queue := map (fun c => lq_of attrs (opened c))).
  replace (take _ _) with (queue ((S ++ R) ++ N)).
  2:{ unfold queue. rewrite !map_app, !app_assoc. rewrite take_app_length'; [done|]. by rewrite !length_app, !length_map. }
  unfold queue. cbn [Nat.add]. rewrite <- length_app, cut_queue.
  2:{ eapply Forall_impl; [exact KN|]. intros c Hc. rewrite attrs_opened, Hc. lia. }
  cbn [outcome_bind]. rewrite cut_queue.
  2:{ eapply Forall_impl; [exact KR|]. intros c Hc. rewrite attrs_opened, Hc. lia. }
  cbn [outcome_bind]. exists (match N with [] => None | _ => Some (map Some (map opened N)) end).
  replace (_ && negb server) with false; [by destruct R|].
  destruct N as [|n N']; [done|]. cbn [is_some andb]. apply Forall_cons in KN as [Hn _].
  assert (n ∈ ch) as Hnch.
  { rewrite <- (ngx_sort_perm (fun x y => cmp_attrs (la x) (la y))). fold (sorted_children ch).
    assert (n ∈ n :: N') as Hn' by set_solver. rewrite EN in Hn'. by apply list_elem_of_filter in Hn' as [_ ?]. }
  rewrite Forall_forall in Hch. destruct (Hch n Hnch) as (_ & _ & Hserver). rewrite Hserver; [done|].
  unfold of_rank, rank in Hn. destruct (noname (la n)); [done|]. destruct (named (la n)); [done|]. by destruct (loc_regex _).
Qed.

(** * What a location in memory stands for *)

(** The array of the regex locations. *)
Definition regex_array (rs : list core_loc_conf) : option (list (option core_loc_conf)) :=
  match rs with [] => None | _ => Some (map Some rs) end.

(** [t]: the static locations of [l] have their tree.  The ones inside a regex
    location never get it. *)
Inductive represents : bool -> location -> core_loc_conf -> Prop :=
| Represents (t : bool) (a : loc_attrs) (ch : list location) locs (tree : tree_node core_loc_conf)
    (cs : list location) (kids rs : list core_loc_conf) :
    cs ≡ₚ (if t then filter (of_rank 0) ch else []) ->
    Forall2 (represents true) cs kids ->
    (forall u rv conf, exists res, find_static tree u rv conf = Ret res /\ choice attrs u kids (rv, conf) res) ->
    Forall2 (represents false) (filter (of_rank 1) ch) rs ->
    represents t (Loc a ch) (Clcf a locs tree (regex_array rs)).

Lemma represents_attrs t l s : represents t l s -> attrs s = la l.
Proof. by destruct 1. Qed.

Lemma no_node_choice u rv (conf : core_loc_conf) :
  exists res, find_static NoNode u rv conf = Ret res /\ choice attrs u [] (rv, conf) res.
Proof.
  eexists. split; [done|]. apply choice_none.
  - intros d Hd. by apply elem_of_nil in Hd.
  - intros n (b & d & _ & Hd & _). by apply elem_of_nil in Hd.
  - intros d Hd. by apply elem_of_nil in Hd.
Qed.

Lemma opened_shape a ch :
  exists locs, opened (Loc a ch)
    = Clcf a locs NoNode (regex_array (map opened (filter (of_rank 1) ch)))
    /\ (locs = None /\ ch = [] \/
        locs = Some (map (fun c => lq_of attrs (opened c)) (filter (of_rank 0) (sorted_children ch)))).
Proof.
  destruct ch as [|c ch]; [by eexists; split; [|left]|].
  rewrite opened_eq by done. eexists. split; [|by right]. f_equal. by destruct (filter _ _).
Qed.

Lemma opened_represents l : represents false l (opened l).
Proof.
  remember (height l) as n eqn:Hn. assert (height l <= n)%nat as Hle by lia. clear Hn.
  revert l Hle. induction n as [|n IH]; intros l Hle; destruct l as [a ch]; [cbn in Hle; lia|].
  destruct (opened_shape a ch) as (locs & -> & _).
  apply (Represents _ _ _ _ _ [] []); [done|constructor|intros; apply no_node_choice|].
  apply Forall2_fmap_r, Forall_Forall2_diag, Forall_forall. intros c [_ Hc]%list_elem_of_filter.
  apply IH. pose proof (height_child a ch c Hc). lia.
Qed.

(** ** The static trees *)

Lemma each_location_ok init l :
  Forall (fun c => exists s, init (opened c) = Ret (Some s) /\ represents true c s) l ->
  exists kids, each_location init (map (fun c => lq_of attrs (opened c)) l) = Ret (Some (map (lq_of attrs) kids))
    /\ Forall2 (represents true) l kids.
Proof.
  induction 1 as [|c l (s & Hs & Hr) Hl (kids & IH & Hk)]; [by exists []|]. cbn [map each_location].
  rewrite lq_conf_of, Hs. cbn [outcome_bind]. rewrite IH. cbn [outcome_bind]. exists (s :: kids).
  split; [|by constructor]. rewrite set_conf_of; [done|]. by rewrite attrs_opened, (represents_attrs _ _ _ Hr).
Qed.

Lemma kids_attrs t cs kids : Forall2 (represents t) cs kids -> map attrs kids = map la cs.
Proof. induction 1 as [|c s cs kids H _ IH]; [done|]. cbn. by rewrite IH, (represents_attrs _ _ _ H). Qed.

(** The conditions of [static_tree] and [join_dup] in terms of the attributes. *)
Section level.
Context (kids : list core_loc_conf) (l : list loc_attrs) (Hkids : map attrs kids = l).
Context (Hl : Forall (fun a => static_attrs a /\ no_nul (loc_name a)) l).
Context (Hs : StronglySorted (static_le id) l).

Lemma level_confs : static_confs attrs kids /\ StronglySorted (static_le attrs) kids.
Proof.
  subst l. rewrite Forall_map in Hl. split; [done|]. clear Hl.
  induction kids as [|c ks IH]; [constructor|]. cbn [map] in Hs.
  apply StronglySorted_cons in Hs as [Hc Hs']. constructor; [by apply IH|]. rewrite Forall_map in Hc. exact Hc.
Qed.

Lemma level_tree :
  l <> [] -> Forall (fun a => (length (loc_name a) <= 255)%nat) l -> NoDup (map (key id) l) ->
  exists k q t,
    ngx_http_join_exact_locations (map (lq_of attrs) kids) = Some k /\
    ngx_http_create_locations_list (length k) k = Ret q /\
    ngx_http_create_locations_tree attrs (length k) q 0 = Ret t /\
    forall u rv conf, exists res, find_static t u rv conf = Ret res /\ choice attrs u kids (rv, conf) res.
Proof.
  intros Hne Hlen Hnd. destruct level_confs as [Hc1 Hc2]. subst l. rewrite Forall_map in Hlen. rewrite map_map in Hnd.
  apply static_tree; [by destruct kids|done..].
Qed.

Lemma level_dup : ~ NoDup (map (key id) l) -> ngx_http_join_exact_locations (map (lq_of attrs) kids) = None.
Proof.
  intros Hd. destruct level_confs as [Hc1 Hc2]. subst l. rewrite map_map in Hd. by apply join_dup.
Qed.
End level.

Lemma statics_sorted ch :
  Forall (fun c => no_nul (loc_name (la c))) ch ->
  StronglySorted (static_le id) (map la (filter (of_rank 0) (sorted_children ch))).
Proof.
  intros H. apply sorted_children_sorted in H. induction H as [|c l Hs IH Hc]; [constructor|].
  rewrite filter_cons. case_decide as Hr; [|done]. cbn [map]. constructor; [done|].
  apply Forall_map, Forall_forall. intros d Hd. apply list_elem_of_filter in Hd as [Hd Hdl].
  rewrite Forall_forall in Hc. destruct (Hc d Hdl) as [Hlt|(_ & H0 & _)]; unfold of_rank in *; [lia|auto].
Qed.

Lemma static_rank l : of_rank 0 l -> static_attrs (la l).
Proof.
  unfold of_rank, rank, static_attrs. by destruct (noname (la l)), (named (la l)), (loc_regex (la l)).
Qed.

(** The static locations in their order, and what the loop makes of them. *)
Lemma sorted_statics ch :
  Forall (fun c => one_kind (la c) /\ no_nul (loc_name (la c))) ch ->
  let cs := filter (of_rank 0) (sorted_children ch) in
  cs ≡ₚ filter (of_rank 0) ch /\ Forall (fun a => static_attrs a /\ no_nul (loc_name a)) (map la cs)
  /\ StronglySorted (static_le id) (map la cs) /\ map (key id) (map la cs) ≡ₚ map (key la) (filter (of_rank 0) ch).
Proof.
  intros Hch cs.
  assert (cs ≡ₚ filter (of_rank 0) ch) as Hcs by (unfold cs, sorted_children; by rewrite ngx_sort_perm).
  split_and!; [done| | |].
  - apply Forall_map, Forall_forall. intros c Hc. rewrite Hcs in Hc. apply list_elem_of_filter in Hc as [Hr Hc].
    rewrite Forall_forall in Hch. split; [by apply static_rank|by apply Hch].
  - apply statics_sorted. eapply Forall_impl; [exact Hch|]. by intros ? [_ ?].
  - rewrite map_map. by apply (Permutation_map (key la)).
Qed.

Lemma init_static_level fuel a ch :
  Forall (fun c => one_kind (la c) /\ no_nul (loc_name (la c))) ch ->
  Forall (fun c => exists s, ngx_http_init_static_location_trees fuel (opened c) = Ret (Some s) /\ represents true c s) ch ->
  (NoDup (map (key la) (filter (of_rank 0) ch)) ->
   Forall (fun c => (length (loc_name (la c)) <= 255)%nat) (filter (of_rank 0) ch) ->
   exists s, ngx_http_init_static_location_trees (S fuel) (opened (Loc a ch)) = Ret (Some s)
     /\ represents true (Loc a ch) s)
  /\ (~ NoDup (map (key la) (filter (of_rank 0) ch)) ->
      ngx_http_init_static_location_trees (S fuel) (opened (Loc a ch)) = Ret None).
Proof.
  intros Hch Hin. destruct (opened_shape a ch) as (locs & Eo & Hlocs).
  cbn [ngx_http_init_static_location_trees]. rewrite Eo.
  destruct (sorted_statics ch Hch) as (Hcs & Hst & Hso & Hkey). set (cs := filter _ _) in Hcs, Hst, Hso, Hkey, Hlocs.
  assert (Forall2 (represents false) (filter (of_rank 1) ch) (map opened (filter (of_rank 1) ch))) as Hrs.
  { apply Forall2_fmap_r, Forall_Forall2_diag, Forall_forall. intros c _. apply opened_represents. }
  destruct (decide (cs = [])) as [Ecs|Ecs].
  { rewrite <- Hkey, Ecs. split; [intros _ _|intros H; destruct H; constructor].
    exists (Clcf a locs NoNode (regex_array (map opened (filter (of_rank 1) ch)))). split.
    - destruct Hlocs as [[-> _]| ->]; [done|]. by rewrite Ecs.
    - apply (Represents true _ _ _ _ [] []); [by rewrite <- Hcs, Ecs|constructor|intros; apply no_node_choice|done]. }
  destruct Hlocs as [[_ ->]| ->]; [by destruct Ecs|].
  destruct (each_location_ok (ngx_http_init_static_location_trees fuel) cs) as (kids & Ek & Hk).
  { rewrite Hcs. rewrite Forall_forall in Hin |- *. intros c [_ Hc]%list_elem_of_filter. auto. }
  assert (Hka := kids_attrs true cs kids Hk).
  destruct (map (fun c => lq_of attrs (opened c)) cs) as [|q0 qs] eqn:Em; [by destruct cs|]. rewrite Ek. cbn [outcome_bind].
  rewrite <- Hkey. split.
  - intros Hnd Hlen. destruct (level_tree kids (map la cs)) as (k & q & t & E1 & E2 & E3 & Ht); [done..|by destruct cs| |done|].
    { rewrite Forall_map, Hcs. done. }
    exists (Clcf a None t (regex_array (map opened (filter (of_rank 1) ch)))). split.
    + rewrite E1, E2. cbn [outcome_bind]. by rewrite E3.
    + by apply (Represents true _ _ _ _ cs kids).
  - intros Hnd. by rewrite (level_dup kids (map la cs)).
Qed.

Lemma readable_names server a ch :
  readable server (Loc a ch) -> Forall (fun c => one_kind (la c) /\ no_nul (loc_name (la c))) ch.
Proof. inversion 1 as [? ? ? _ Hch]; subst. eapply Forall_impl; [exact Hch|]. by intros ? (? & ? & _). Qed.

Lemma init_static_ok fuel server l :
  readable server l -> distinct l -> (height l <= fuel)%nat ->
  exists s, ngx_http_init_static_location_trees fuel (opened l) = Ret (Some s) /\ represents true l s.
Proof.
  revert server l. induction fuel as [|fuel IH]; intros server l Hwf Hd Hf; [destruct l; cbn in Hf; lia|].
  destruct Hd as [a ch Hd Hlen Hnd]. apply init_static_level; [by eapply readable_names| |done|done].
  inversion Hwf as [? ? ? Hwf' _]; subst. rewrite Forall_forall in Hwf', Hd |- *. intros c Hc.
  apply (IH false); [auto..|]. pose proof (height_child a ch c Hc). lia.
Qed.

(** * The search *)

Definition statics_at (t : bool) (l : location) : list location := if t then statics l else [].

Section search.
Context (regex_exec : Z -> list Z -> Z) (u : list Z).

(** The first regex location that matches; an error of the matching ends it. *)
Fixpoint match_regex (ls : list location) : option location + unit :=
  match ls with
  | [] => inl None
  | l :: ls =>
    let n := regex_exec (default 0 (loc_regex (la l))) u in
    if n =? NGX_OK then inl (Some l) else if n =? NGX_DECLINED then match_regex ls else inr tt
  end.

Definition final (rc : Z) : Prop := rc = NGX_OK \/ rc = NGX_DONE.

(** The answer for the URI in location [l], of which the static locations count
    if [t]: the name decides when it is exact or a redirection; otherwise the
    regex locations in their order, unless the location that the name gives
    forbids it, and then again what is inside the location chosen. *)
Inductive located : bool -> location -> Z * location -> Prop :=
| located_by_name t l rc d skip : by_name t l rc d skip -> final rc -> located t l (rc, d)
| located_kept t l rc d skip :
    by_name t l rc d skip -> ~ final rc -> skip = true \/ match_regex (regexes l) = inl None ->
    located t l (rc, d)
| located_error t l rc d :
    by_name t l rc d false -> ~ final rc -> match_regex (regexes l) = inr tt -> located t l (NGX_ERROR, d)
| located_regex t l rc d c rc' d' :
    by_name t l rc d false -> ~ final rc -> match_regex (regexes l) = inl (Some c) ->
    located false c (rc', d') -> located t l (if rc' =? NGX_ERROR then rc' else NGX_OK, d')
with by_name : bool -> location -> Z -> location -> bool -> Prop :=
| by_name_here t l rc c :
    choice la u (statics_at t l) (NGX_DECLINED, l) (rc, c) -> rc <> NGX_AGAIN -> by_name t l rc c false
| by_name_inside t l c rc d :
    choice la u (statics_at t l) (NGX_DECLINED, l) (NGX_AGAIN, c) -> located true c (rc, d) ->
    by_name t l rc d (noregex (la c)).

(** [choice] depends on the attributes of the locations only. *)
Section transfer.
Context {A B} (fa : A -> loc_attrs) (fb : B -> loc_attrs) (R : B -> A -> Prop).
Context (ka : list A) (kb : list B).
Context (Hab : forall x, x ∈ ka -> exists y, y ∈ kb /\ R y x /\ fb y = fa x).
Context (Hba : forall y, y ∈ kb -> exists x, x ∈ ka /\ fa x = fb y).

Lemma transfer_all (P : loc_attrs -> Prop) : (forall x, x ∈ ka -> P (fa x)) -> forall y, y ∈ kb -> P (fb y).
Proof. intros H y Hy. destruct (Hba y Hy) as (x & Hx & <-). auto. Qed.

Lemma transfer_redirecting n : redirecting fa u ka n <-> redirecting fb u kb n.
Proof.
  split; intros (b & d & -> & Hd & Hn & Hr); unfold cname in *.
  - destruct (Hab d Hd) as (e & He & _ & Ee). exists b, e. unfold cname. by rewrite Ee.
  - destruct (Hba d Hd) as (e & He & Ee). exists b, e. unfold cname. by rewrite Ee.
Qed.

Lemma transfer_next n : next_name fb u kb n -> next_name fa u ka n.
Proof.
  unfold next_name, cname. intros H d Hd. destruct (Hab d Hd) as (e & He & _ & <-). by apply H.
Qed.

Lemma choice_transfer rv va vb rc a :
  choice fa u ka (rv, va) (rc, a) ->
  exists b, choice fb u kb (rv, vb) (rc, b) /\ (b ∈ kb /\ R b a \/ rc = rv /\ a = va /\ b = vb).
Proof.
  inversion 1 as [c Hc Hn He|c Hc Hn He Hx|c Hun Hc Hr Hp Ho|c Hun Hno Hc He Hp Hl|Hun Hno Hnp]; subst.
  - destruct (Hab a Hc) as (b & Hb & HR & E). exists b. split; [|by left]. unfold cname, cexact in *. rewrite <- E in *.
    by apply choice_exact.
  - destruct (Hab a Hc) as (b & Hb & HR & E). exists b. split; [|by left].
    apply choice_same; unfold cname, cexact in *; rewrite <- E in *; [done..|].
    by apply (transfer_all (fun x => loc_name x = loc_name (fb b) -> exact_match x = false)).
  - destruct (Hab a Hc) as (b & Hb & HR & E). exists b. split; [|by left].
    apply choice_redirect; unfold cname, cexact in *; rewrite <- E in *; [|done| | |].
    + by apply (transfer_all (fun x => loc_name x <> u)).
    + by apply transfer_redirecting.
    + by apply (transfer_all (fun x => loc_name x = _ -> exact_match x = true -> exact_match _ = true)).
    + intros n Hn1 Hn2. apply Ho; [by apply transfer_redirecting|by apply transfer_next].
  - destruct (Hab a Hc) as (b & Hb & HR & E). exists b. split; [|by left].
    apply choice_prefix; unfold cname, cexact in *; rewrite <- E in *; [| |done..|].
    + by apply (transfer_all (fun x => loc_name x <> u)).
    + intros n Hn1 Hn2. apply (Hno n); [by apply transfer_redirecting|by apply transfer_next].
    + by apply (transfer_all (fun x => exact_match x = false -> loc_name x `prefix_of` u -> loc_name x `prefix_of` _)).
  - exists vb. split; [|by right]. apply choice_none.
    + by apply (transfer_all (fun x => loc_name x <> u)).
    + intros n Hn1 Hn2. apply (Hno n); [by apply transfer_redirecting|by apply transfer_next].
    + by apply (transfer_all (fun x => exact_match x = false -> ~ loc_name x `prefix_of` u)).
Qed.
End transfer.

Lemma find_regex_match ls rs :
  Forall2 (represents false) ls rs ->
  match match_regex ls with
  | inl None => find_regex regex_exec u (map Some rs) = inl None
  | inl (Some c) => c ∈ ls /\ exists r, find_regex regex_exec u (map Some rs) = inl (Some r) /\ represents false c r
  | inr _ => find_regex regex_exec u (map Some rs) = inr tt
  end.
Proof.
  induction 1 as [|l r ls rs Hr Hrs IH]; [done|]. cbn [match_regex map find_regex]. unfold regex_of.
  rewrite (represents_attrs _ _ _ Hr). case_if E1; [split; [set_solver|by exists r]|]. case_if E2; [|done].
  destruct (match_regex ls) as [[c|]|]; [|done..]. destruct IH as (? & ?). split; [set_solver|done].
Qed.

Lemma find_location_ok fuel t l s :
  represents t l s -> (height l <= fuel)%nat ->
  exists rc d t' s', ngx_http_core_find_location regex_exec fuel u s = Ret (rc, s')
    /\ located t l (rc, d) /\ represents t' d s'.
Proof.
  revert t l s. induction fuel as [|fuel IH]; intros t l s Hrep Hf; [destruct l; cbn in Hf; lia|].
  pose proof Hrep as Hrep0. destruct Hrep as [t a ch locs tree cs kids rs Hcs Hkids Htree Hrs].
  cbn [ngx_http_core_find_location]. set (s := Clcf a locs tree (regex_array rs)) in *.
  unfold ngx_http_core_find_static_location.
  destruct (Htree u NGX_DECLINED s) as ([rc0 s0] & -> & Hch). cbn [outcome_bind].
  destruct (choice_transfer attrs la (represents true) kids (statics_at t (Loc a ch))) with
    (rv := NGX_DECLINED) (va := s) (vb := Loc a ch) (rc := rc0) (a := s0) as (c & Hc & Hwhich); [| |done|].
  { intros x Hx. apply list_elem_of_lookup in Hx as [i Hi]. destruct (Forall2_lookup_r _ _ _ _ _ Hkids Hi) as (y & Hy & HR).
    exists y. split_and!; [|done|symmetry; by apply (represents_attrs true)].
    apply list_elem_of_lookup_2 in Hy. rewrite Hcs in Hy. done. }
  { intros y Hy. assert (y ∈ cs) as Hy' by by rewrite Hcs. apply list_elem_of_lookup in Hy' as [i Hi].
    destruct (Forall2_lookup_l _ _ _ _ _ Hkids Hi) as (x & Hx & HR). exists x.
    split; [by apply list_elem_of_lookup_2 in Hx|by apply (represents_attrs true)]. }
  assert (exists rc d skip t' s', by_name t (Loc a ch) rc d skip /\ represents t' d s' /\
    (if rc0 =? NGX_AGAIN then
       let! (rc', clcf') := ngx_http_core_find_location regex_exec fuel u s0 in Ret (rc', clcf', noregex (attrs s0))
     else Ret (rc0, s0, false)) = Ret (rc, s', skip)) as (rc & d & skip & t' & s' & Hby & Hd & ->).
  { case_if E0; boolify.
    - subst rc0. destruct Hwhich as [[Hin HR]|[? _]]; [|done].
      assert (c ∈ ch) as Hcch by (destruct t; cbn in Hin; [by apply list_elem_of_filter in Hin as [_ ?]|by apply elem_of_nil in Hin]).
      destruct (IH true c s0 HR) as (rc & d & t' & s' & -> & Hloc & Hd).
      { pose proof (height_child a ch c Hcch). lia. }
      cbn [outcome_bind]. exists rc, d, (noregex (la c)), t', s'. split_and!; [|done|].
      + by apply by_name_inside with (c := c).
      + by rewrite (represents_attrs _ _ _ HR).
    - exists rc0, c, false. assert (by_name t (Loc a ch) rc0 c false) by by apply by_name_here.
      destruct Hwhich as [[_ HR]|(-> & -> & ->)]; [exists true, s0|exists t, s]; done. }
  cbn [outcome_bind].
  destruct ((rc =? NGX_OK) || (rc =? NGX_DONE)) eqn:Efin.
  { exists rc, d, t', s'. split_and!; [done| |done]. eapply located_by_name; [done|]. unfold final. boolify; auto. }
  assert (~ final rc) as Hfin by (unfold final; boolify; tauto).
  pose proof (find_regex_match (filter (of_rank 1) ch) rs Hrs) as Hre.
  change (filter (of_rank 1) ch) with (regexes (Loc a ch)) in *.
  assert (skip = true \/ rs = [] -> exists rc0 d0 t0 s0, Ret (rc, s') = Ret (rc0, s0)
            /\ located t (Loc a ch) (rc0, d0) /\ represents t0 d0 s0) as Hkept.
  { intros H. exists rc, d, t', s'. split_and!; [done| |done]. eapply located_kept; [done..|].
    destruct H as [H|H]; [by left|right]. destruct Hrs; [done|by subst]. }
  unfold regex_array. destruct rs as [|r rs]; [by apply Hkept; right|]. set (rs' := r :: rs) in *.
  destruct skip; [by apply Hkept; left|].
  destruct (match_regex (regexes (Loc a ch))) as [[c'|]|] eqn:Em.
  - destruct Hre as (Hc' & r' & -> & Hr'). destruct (IH false c' r' Hr') as (rc' & d' & t1 & s1 & -> & Hloc & Hd').
    { apply list_elem_of_filter in Hc' as [_ Hc']. pose proof (height_child a ch c' Hc'). lia. }
    cbn [outcome_bind]. eexists _, d', t1, s1. split_and!; [done| |done]. by eapply located_regex.
  - rewrite Hre. exists rc, d, t', s'. split_and!; [done| |done]. eapply located_kept; [done..|by right].
  - rewrite Hre. exists NGX_ERROR, d, t', s'. split_and!; [done| |done]. destruct u0. by eapply located_error.
Qed.

End search.

(** * The server *)

(** The initialisation succeeds, and the search ends with the location that the
    configuration asks for. *)
Lemma server_location_found regex_exec l fuel u :
  readable true l -> distinct l -> (height l <= fuel)%nat ->
  exists s rc d c,
    init_server fuel (conf l) = Ret (Some s) /\
    ngx_http_core_find_location regex_exec fuel u s = Ret (rc, c) /\
    located regex_exec u true l (rc, d) /\ attrs c = la d.
Proof.
  intros Hwf Hd Hf. destruct (init_locations_ok fuel true l Hwf Hf) as (nl & Ei).
  destruct (init_static_ok fuel true l Hwf Hd Hf) as (s & Es & Hs).
  destruct (find_location_ok regex_exec u fuel true l s Hs Hf) as (rc & d & t & c & Ef & Hl & Hc).
  exists s, rc, d, c. split_and!; [|done|done|by apply (represents_attrs t)].
  unfold init_server. rewrite Ei. done.
Qed.

End LocationServer.
