(* ===== verification/NgxLocationAsked.v ===== *)
(** The location that a configuration asks for, by the documented rule: the exact
    name; otherwise the longest name that begins the URI is kept and, unless it
    forbids them, the regular expressions are tried in their order; the first
    that matches wins over the kept one.  A location inside the kept one that is
    found by its exact name or by a regular expression wins over both.  The rule
    says nothing of redirections, and of expressions that fail. *)

From S2P Require Import Prelude NgxSort NgxLocation NgxLocationTree NgxLocationFind NgxLocationServer.

#[local] Open Scope Z_scope.

Module LocationAsked.

Import Location LocationTree LocationFind LocationServer.

Section Asked.
Context (regex_exec : Z -> list Z -> Z) (u : list Z).

Abbreviation name l := (loc_name (la l)).

Definition is_exact (l : location) : bool := bool_decide (name l = u) && exact_match (la l).
Definition begins (l : location) : bool := negb (exact_match (la l)) && bool_decide (name l `prefix_of` u).

(** The longest of the names that begin the URI. *)
Definition longer (c : location) (o : option location) : option location :=
  match o with Some d => if (length (name d) <? length (name c))%nat then Some c else Some d | None => Some c end.
Definition longest (cs : list location) : option location := foldr (fun c o => if begins c then longer c o else o) None cs.

Definition matches (l : location) : bool := regex_exec (default 0 (loc_regex (la l))) u =? NGX_OK.

(** The location, and whether an exact name or a regular expression decided it.
    [fuel] is the depth of the locations. *)
Fixpoint asked (fuel : nat) (l : location) : bool * location :=
  match fuel with
  | O => (false, l)
  | S fuel =>
    match List.find is_exact (statics l) with
    | Some c => (true, c)
    | None =>
      let '(decided, kept, forbids) :=
        match longest (statics l) with
        | Some c => let '(decided, d) := asked fuel c in (decided, d, noregex (la c))
        | None => (false, l, false)
        end in
      if decided || forbids then (decided, kept)
      else match List.find matches (regexes l) with
           | Some r => (true, (asked fuel r).2)
           | None => (false, kept)
           end
    end
  end.

(** No redirection is named by the URI and one more byte, and no location with a
    name is inside one with a regular expression. *)
Inductive ruled : location -> Prop :=
| Ruled a ch :
    Forall ruled ch ->
    (forall c b, c ∈ statics (Loc a ch) -> auto_redirect (la c) = true -> name c <> u ++ [b]) ->
    (forall c, c ∈ regexes (Loc a ch) -> statics c = []) ->
    ruled (Loc a ch).

(** An expression matches or does not. *)
Definition exec_ok : Prop := forall n, regex_exec n u = NGX_OK \/ regex_exec n u = NGX_DECLINED.

(** * The longest name *)

Lemma longest_spec cs : match longest cs with
  | Some c => c ∈ cs /\ begins c = true /\ forall d, d ∈ cs -> begins d = true -> (length (name d) <= length (name c))%nat
  | None => forall d, d ∈ cs -> begins d = false
  end.
Proof.
  induction cs as [|c cs IH]; cbn [longest foldr]; [intros d Hd; by apply elem_of_nil in Hd|]. fold (longest cs).
  destruct (begins c) eqn:Eb.
  - unfold longer. destruct (longest cs) as [d|].
    + destruct IH as (Hd & Hbd & Hmax). destruct (Nat.ltb_spec (length (name d)) (length (name c))).
      * split; [by left|]. split; [done|]. intros x [->|Hx]%elem_of_cons Hb; [done|]. specialize (Hmax x Hx Hb). lia.
      * split; [by right|]. split; [done|]. intros x [->|Hx]%elem_of_cons Hb; [done|]. by apply Hmax.
    + split; [by left|]. split; [done|]. intros x [->|Hx]%elem_of_cons Hb; [done|]. by rewrite IH in Hb.
  - destruct (longest cs) as [d|].
    + destruct IH as (Hd & Hbd & Hmax). split; [by right|]. split; [done|]. intros x [->|Hx]%elem_of_cons Hb; [congruence|]. by apply Hmax.
    + intros x [->|Hx]%elem_of_cons; [done|by apply IH].
Qed.

Section Level.
Context (cs : list location) (ND : NoDup (map (key la) cs)).
Context (Hno : forall c b, c ∈ cs -> auto_redirect (la c) = true -> name c <> u ++ [b]).

Lemma same_key c d : c ∈ cs -> d ∈ cs -> name c = name d -> exact_match (la c) = exact_match (la d) -> c = d.
Proof.
  intros Hc Hd Hn He. assert (Hk : key la c = key la d) by (unfold key, cname, cexact; congruence). revert ND Hc Hd. clear - Hk.
  induction cs as [|x l IH]; [intros _ Hc; by apply elem_of_nil in Hc|]. cbn [map]. intros [Hx ND]%NoDup_cons [->|Hc]%elem_of_cons [->|Hd]%elem_of_cons; try done.
  - exfalso. apply Hx. rewrite Hk. apply list_elem_of_In, in_map, list_elem_of_In. exact Hd.
  - exfalso. apply Hx. rewrite <- Hk. apply list_elem_of_In, in_map, list_elem_of_In. exact Hc.
  - by apply IH.
Qed.

Lemma same_begin c d : begins c = true -> begins d = true -> length (name c) = length (name d) -> c ∈ cs -> d ∈ cs -> c = d.
Proof.
  unfold begins. intros [H1 H2]%andb_true_iff [H3 H4]%andb_true_iff Hl Hc Hd. apply bool_decide_eq_true in H2 as [k1 E1], H4 as [k2 E2].
  apply same_key; [done|done| |by destruct (exact_match (la c)), (exact_match (la d))]. pose proof (f_equal (take (length (name c))) E2) as E. rewrite E1 in E at 1.
  rewrite take_app_length, Hl, take_app_length in E. done.
Qed.

Lemma choice_level base rc c : choice la u cs base (rc, c) ->
  match List.find is_exact cs with
  | Some e => rc = NGX_OK /\ c = e
  | None => match longest cs with Some p => rc = NGX_AGAIN /\ c = p | None => (rc, c) = base end
  end.
Proof.
  intros Hch. pose proof (longest_spec cs) as Hl.
  assert (Hbest : forall c, c ∈ cs -> begins c = true -> (forall d, d ∈ cs -> begins d = true -> name d `prefix_of` name c) -> longest cs = Some c).
  { intros x Hx Hb Hmax. destruct (longest cs) as [d|]; [|by rewrite Hl in Hb]. destruct Hl as (Hd & Hbd & Hlen). f_equal. apply same_begin; try done.
    apply Nat.le_antisymm; [by apply prefix_length, Hmax|by apply Hlen]. }
  assert (Hfind : (forall d, d ∈ cs -> is_exact d = false) -> List.find is_exact cs = None).
  { intros Hnone. destruct (List.find is_exact cs) as [e|] eqn:E; [|done]. apply find_some in E as [He1 He2]. apply list_elem_of_In in He1. by rewrite Hnone in He2. }
  assert (Hredir : forall n, ~ redirecting la u cs n).
  { intros n (b & d & -> & Hd & Hn & Ha). by apply (Hno d b Hd Ha). }
  assert (Hunnamed : (forall d, d ∈ cs -> cname la d <> u) -> List.find is_exact cs = None).
  { intros Hun. apply Hfind. intros d Hd. unfold is_exact. rewrite bool_decide_eq_false_2; [done|]. by apply Hun. }
  inversion Hch as [x Hx Hn He|x Hx Hn He Hall|x Hun Hx Hr Hp Ho|x Hun Hr Hx He Hp Hmax|Hun Hr Hnp]; subst; unfold cname, cexact in *.
  - assert (Hex : is_exact c = true) by (unfold is_exact; by rewrite bool_decide_eq_true_2).
    destruct (List.find is_exact cs) as [e|] eqn:E; [|by rewrite (find_none _ _ E c) in Hex by (by apply list_elem_of_In)].
    split; [done|]. apply find_some in E as [He1 He2]. apply list_elem_of_In in He1. unfold is_exact in He2. apply andb_true_iff in He2 as [He2 He3]. apply bool_decide_eq_true in He2.
    apply same_key; congruence.
  - rewrite Hfind; [|intros d Hd; unfold is_exact; case_bool_decide as D; [cbn; by apply Hall|done]].
    rewrite (Hbest c Hx); [done|unfold begins; rewrite He, bool_decide_eq_true_2; [done|by rewrite Hn]|].
    intros d Hd [_ Hb]%andb_true_iff. apply bool_decide_eq_true in Hb. by rewrite Hn.
  - by apply Hredir in Hr.
  - rewrite Hunnamed by done. rewrite (Hbest c Hx); [done|unfold begins; by rewrite He, bool_decide_eq_true_2|].
    intros d Hd [Hb1 Hb2]%andb_true_iff. apply bool_decide_eq_true in Hb2. apply negb_true_iff in Hb1. by apply Hmax.
  - rewrite Hunnamed by done. destruct (longest cs) as [d|]; [|done]. destruct Hl as (Hd & [Hb1 Hb2]%andb_true_iff & _).
    apply bool_decide_eq_true in Hb2. apply negb_true_iff in Hb1. by destruct (Hnp d Hd Hb1).
Qed.

End Level.

(** * The whole search *)

Lemma match_regex_find ls : exec_ok -> match_regex regex_exec u ls = inl (List.find matches ls).
Proof.
  intros Hex. induction ls as [|l ls IH]; [done|]. cbn [match_regex List.find]. unfold matches at 1. cbn zeta.
  destruct (Hex (default 0 (loc_regex (la l)))) as [-> | ->]; cbn; [done|exact IH].
Qed.

Lemma located_asked fuel : exec_ok -> forall t l rc d, located regex_exec u t l (rc, d) -> (height l <= fuel)%nat -> distinct l -> ruled l ->
  t = true \/ statics l = [] -> rc = (if (asked fuel l).1 then NGX_OK else NGX_DECLINED) /\ d = (asked fuel l).2.
Proof.
  intros Hex. induction fuel as [|fuel IH]; intros t l rc d Hloc Hf Hd Hru Ht; [destruct l; cbn in Hf; lia|].
  assert (Hst : statics_at t l = statics l) by (unfold statics_at; destruct t; [done|]; destruct Ht as [|E]; [done|by rewrite E]).
  assert (Hin : forall c, c ∈ statics l \/ c ∈ regexes l -> (height c <= fuel)%nat /\ distinct c /\ ruled c).
  { intros c Hc. destruct l as [a ch]. assert (Hcc : c ∈ ch) by (destruct Hc as [Hc|Hc]; by apply list_elem_of_filter in Hc as [_ Hc]).
    pose proof (height_child a ch c Hcc). inversion Hd as [? ? Hd' _ _]; subst. inversion Hru as [? ? Hru' _ _]; subst. rewrite Forall_forall in Hd', Hru'. split; [lia|]. auto. }
  assert (Hlevel : NoDup (map (key la) (statics l)) /\ (forall c b, c ∈ statics l -> auto_redirect (la c) = true -> name c <> u ++ [b]) /\ forall c, c ∈ regexes l -> statics c = []).
  { destruct l as [a ch]. inversion Hd as [? ? _ _ Hnd]; subst. by inversion Hru; subst. }
  destruct Hlevel as (Hnd & Hred & Hrx).
  assert (Hby : forall rc d skip, by_name regex_exec u t l rc d skip -> match List.find is_exact (statics l) with
    | Some c => rc = NGX_OK /\ d = c
    | None => exists decided, (decided, d, skip) = match longest (statics l) with Some c => let '(decided, d) := asked fuel c in (decided, d, noregex (la c)) | None => (false, l, false) end
                /\ rc = (if decided then NGX_OK else NGX_DECLINED)
    end).
  { intros rc0 d0 skip Hb. inversion Hb as [t0 l0 rc1 c Hch Hne|t0 l0 c rc1 d1 Hch Hl]; subst; rewrite Hst in Hch; apply choice_level in Hch; try done;
      destruct (List.find is_exact (statics l)) as [e|]; try done.
    - destruct (longest (statics l)) as [p|]; [by destruct Hch|]. injection Hch as -> ->. by exists false.
    - by destruct Hch.
    - pose proof (longest_spec (statics l)) as Hls. destruct (longest (statics l)) as [p|]; [|done]. destruct Hch as [_ ->]. destruct Hls as [Hp _]. destruct (Hin p (or_introl Hp)) as (Hh & Hdp & Hrp).
      destruct (IH true p rc0 d0 Hl Hh Hdp Hrp (or_introl eq_refl)) as [-> ->]. exists (asked fuel p).1. by destruct (asked fuel p). }
  cbn [asked].
  assert (Hnot : forall decided : bool, ~ final (if decided then NGX_OK else NGX_DECLINED) -> decided = false).
  { intros [|] Hnf; [|done]. by destruct Hnf; left. }
  inversion Hloc as [t0 l0 rc0 d0 skip Hb Hfin|t0 l0 rc0 d0 skip Hb Hnf Hk|t0 l0 rc0 d0 Hb Hnf Hk|t0 l0 rc0 d0 c rc' d' Hb Hnf Hk Hl]; subst;
    try rewrite (match_regex_find _ Hex) in Hk; apply Hby in Hb; try done.
  - destruct (List.find is_exact (statics l)) as [e|]; [done|]. destruct Hb as (decided & <- & ->). destruct decided; [done|]. by destruct Hfin.
  - destruct (List.find is_exact (statics l)) as [e|]; [destruct Hb as [-> _]; by destruct Hnf; left|]. destruct Hb as (decided & <- & ->). apply Hnot in Hnf as ->. cbn [orb].
    destruct skip; [done|]. destruct Hk as [|Hk]; [done|]. injection Hk as ->. done.
  - destruct (List.find is_exact (statics l)) as [e|]; [destruct Hb as [-> _]; by destruct Hnf; left|]. destruct Hb as (decided & <- & ->). apply Hnot in Hnf as ->. cbn [orb].
    injection Hk as Hk. rewrite Hk. apply find_some in Hk as [Hc _]. apply list_elem_of_In in Hc. destruct (Hin c (or_intror Hc)) as (Hh & Hdc & Hrc).
    destruct (IH false c rc' d Hl Hh Hdc Hrc (or_intror (Hrx c Hc))) as [-> ->]. split; [|done]. by destruct (asked fuel c).1.
Qed.

End Asked.

End LocationAsked.
