(* ===== verification/NgxLocationConfig.v ===== *)
(** The locations of a configuration: what reading the blocks of a server
    leaves, what is refused, and where the choice of a location is not the one
    the configuration asks for. *)

From stdpp Require Import sorting.
From S2P Require Import Prelude NgxSort NgxLocation NgxLocationTree NgxLocationFind NgxLocationServer NgxLocationAsked.

#[local] Open Scope Z_scope.
#[local] Set Warnings "-register-all".

Module LocationConfig.
Import Location LocationTree LocationFind LocationServer LocationAsked.

(** * Reading the blocks *)

Lemma block_nested_ind (P : block -> Prop) :
  (forall args r body, Forall P body -> P (Block args r body)) -> forall b, P b.
Proof.
  intros H. fix rec 1. intros [args r body]. apply H.
  induction body as [|b body IH]; constructor; [apply rec|apply IH].
Qed.

Section read.
Context (regex_compile : list Z -> bool -> option Z).

(** Words of a configuration have no NUL; no location is in one with an empty
    name. *)
Inductive clean : block -> Prop :=
| Clean args r body :
    Forall no_nul args -> Forall clean body ->
    (forall a, location_args regex_compile args = Some a -> loc_name a = [] -> body = []) ->
    clean (Block args r body).

Lemma location_args_ok args a :
  Forall no_nul args -> location_args regex_compile args = Some a -> one_kind a /\ no_nul (loc_name a).
Proof.
  assert (forall w, no_nul w -> no_nul (tl w)) as Htl.
  { intros w Hw. destruct Hw; [constructor|done]. }
  assert (forall w c, no_nul w -> ngx_http_core_regex_location regex_compile w c = Some a ->
            one_kind a /\ no_nul (loc_name a)) as Hre.
  { unfold ngx_http_core_regex_location. intros w c Hw. destruct (regex_compile w c); [|done]. by intros [= <-]. }
  intros Hargs. unfold location_args. destruct args as [|x [|y [|]]]; try done.
  - apply Forall_cons in Hargs as [Hx _].
    repeat case_match; try (by apply Hre; auto); intros [= <-]; cbn; (split; [done|auto]).
  - apply Forall_cons in Hargs as [_ [Hy _]%Forall_cons].
    repeat case_match; try done; try (by apply Hre); intros [= <-]; done.
Qed.

(** What [add_each] leaves, when each block is read to a location with [Q]. *)
Lemma add_each_ok (read : block -> option core_loc_conf) (Q : location -> Prop) body locs :
  Forall (fun b => forall c, read b = Some c -> exists l, c = conf l /\ Q l) body ->
  add_each read body = Some locs ->
  exists ls, Forall Q ls
    /\ locs = match ls with [] => None | _ => Some (map (fun l => lq_of attrs (conf l)) ls) end
    /\ (body = [] -> ls = []).
Proof.
  revert locs. induction body as [|b body IH] using rev_ind; intros locs Hb.
  { intros [= <-]. exists []. by split_and!. }
  apply Forall_app in Hb as [Hbody [Hb _]%Forall_cons]. unfold add_each in *. rewrite fold_left_app. cbn [fold_left].
  destruct (fold_left _ body (Some None)) as [locs0|]; [|done].
  destruct (IH locs0 Hbody eq_refl) as (ls & Hls & -> & _). destruct (read b) as [c|]; [|done].
  destruct (Hb c eq_refl) as (l & -> & Hl). intros [= <-]. exists (ls ++ [l]). split_and!.
  - apply Forall_app. split; [done|]. by constructor.
  - unfold ngx_http_add_location. destruct ls; [done|]. cbn [default app map]. by rewrite map_app.
  - intros H. by destruct body.
Qed.

Definition read_ok (parent : loc_attrs) (l : location) : Prop :=
  readable false l /\ one_kind (la l) /\ no_nul (loc_name (la l)) /\
  (named (la l) = true -> loc_name parent = []).

Lemma conf_of a ch :
  conf (Loc a ch) = Clcf a (match ch with [] => None | _ => Some (map (fun l => lq_of attrs (conf l)) ch) end) NoNode None.
Proof. done. Qed.

Lemma core_location_ok b :
  clean b -> forall parent c, ngx_http_core_location regex_compile parent b = Some c ->
  exists l, c = conf l /\ read_ok parent l.
Proof.
  induction b as [args r body IH] using block_nested_ind. inversion 1 as [? ? ? Hargs Hbody Hempty]; subst.
  intros parent c. cbn [ngx_http_core_location].
  destruct (location_args regex_compile args) as [a|] eqn:Ea; [|done].
  destruct (location_args_ok _ _ Hargs Ea) as [Hk Hn].
  destruct (nested_ok parent a) eqn:En; [|done].
  destruct (add_each _ body) as [locs|] eqn:El; [|done]. intros [= <-].
  destruct (add_each_ok (ngx_http_core_location regex_compile a) (read_ok a) body locs) as (ls & Hls & -> & Hnil); [|done|].
  { rewrite Forall_forall in IH, Hbody |- *. intros b Hb. apply IH; auto. }
  exists (Loc (set_auto_redirect r a) ls). split; [by rewrite conf_of|]. split_and!; cbn; [| |done|].
  - constructor; [eapply Forall_impl; [exact Hls|]; by intros l (? & _)|].
    rewrite Forall_forall in Hls |- *. intros l Hl. destruct (Hls l Hl) as (_ & ? & ? & Hnamed). split_and!; [done..|].
    intros Hnm. specialize (Hnamed Hnm). apply (Hempty a eq_refl), Hnil in Hnamed. subst. by apply elem_of_nil in Hl.
  - by destruct Hk.
  - intros Hnm. unfold nested_ok in En. destruct (loc_name parent); [done|]. rewrite Hnm in En. boolify; done.
Qed.

(** What is read is the locations of a tree in which only the server has named
    ones. *)
Lemma read_server_readable body c :
  Forall clean body -> read_server regex_compile body = Some c ->
  exists l, c = conf l /\ readable true l.
Proof.
  intros Hb. unfold read_server. destruct (add_each _ body) as [locs|] eqn:El; [|done]. intros [= <-].
  destruct (add_each_ok (ngx_http_core_location regex_compile no_attrs) (read_ok no_attrs) body locs) as (ls & Hls & -> & _); [|done|].
  { eapply Forall_impl; [exact Hb|]. intros b Hc. by apply core_location_ok. }
  exists (Loc no_attrs ls). split; [by rewrite conf_of|]. constructor.
  - eapply Forall_impl; [exact Hls|]. by intros l (? & _).
  - eapply Forall_impl; [exact Hls|]. by intros l (_ & ? & ? & _).
Qed.

End read.

(** * The location of a URI *)

Lemma conf_inj l l' : conf l = conf l' -> l = l'.
Proof.
  remember (height l) as n eqn:Hn. assert (height l <= n)%nat as Hle by lia. clear Hn.
  revert l l' Hle. induction n as [|n IH]; intros [a ch] [a' ch'] Hle; [cbn in Hle; lia|].
  rewrite !conf_of. intros [= -> Hch]. f_equal.
  assert (map (fun l => lq_of attrs (conf l)) ch = map (fun l => lq_of attrs (conf l)) ch') as Hq.
  { destruct ch, ch'; cbn [map] in *; congruence. }
  assert (forall c, c ∈ ch -> (height c <= n)%nat) as Hh.
  { intros c Hc. pose proof (height_child a' ch c Hc). lia. }
  clear Hch Hle. revert ch' Hq. induction ch as [|c ch IHch]; intros [|c' ch'] Hq; try done.
  cbn [map] in Hq. injection Hq as Hc Hq. f_equal.
  - apply IH; [apply Hh; set_solver|]. apply (f_equal lq_conf) in Hc. rewrite !lq_conf_of in Hc. by injection Hc.
  - apply IHch; [|done]. intros; apply Hh. set_solver.
Qed.

(** C4: a server that is read to the tree of locations [l], from words without
    NUL and with no location inside one of an empty name, whose static names
    have at most 255 bytes and none of them twice at one place, is initialised
    without an error.  The search for a URI, with expressions that match or do
    not, ends with the location of the documented rule ([asked]): the exact
    name, or the longest name that begins the URI unless a regular expression
    matches first, and so on inside the location chosen; NGX_OK tells that an
    exact name or an expression decided.  The URI is not the name of a
    redirection without its last byte, and no location with a name is inside
    one with a regular expression ([ruled]): there the code departs from the
    rule, as the examples at the end show. *)
Theorem location_found regex_compile regex_exec body l fuel u :
  Forall (clean regex_compile) body -> read_server regex_compile body = Some (conf l) ->
  distinct l -> (height l <= fuel)%nat -> exec_ok regex_exec u -> ruled u l ->
  let '(decided, d) := asked regex_exec u fuel l in
  exists s c,
    init_server fuel (conf l) = Ret (Some s) /\
    ngx_http_core_find_location regex_exec fuel u s = Ret (if decided then NGX_OK else NGX_DECLINED, c) /\ attrs c = la d.
Proof.
  intros Hb Hr Hd Hf Hex Hru. destruct (read_server_readable regex_compile body _ Hb Hr) as (l' & ->%conf_inj & Hl).
  destruct (server_location_found regex_exec l' fuel u Hl Hd Hf) as (s & rc & d & c & Hi & Hs & Hloc & Ha).
  destruct (located_asked regex_exec u fuel Hex true l' rc d Hloc Hf Hd Hru (or_introl eq_refl)) as [-> ->].
  destruct (asked regex_exec u fuel l') as [decided d]. by exists s, c.
Qed.

(** An inclusive match is never the code of the search: it becomes the code of
    what is inside the location. *)
Lemma find_location_never_again regex_exec fuel u s rc c :
  ngx_http_core_find_location regex_exec fuel u s = Ret (rc, c) -> rc <> NGX_AGAIN.
Proof.
  revert s rc c. induction fuel as [|fuel IH]; intros s rc c; [done|]. cbn [ngx_http_core_find_location].
  destruct s as [a locs st rx]. destruct (ngx_http_core_find_static_location _ _ _) as [[rc0 s0]| |]; try done.
  cbn [outcome_bind].
  assert (forall x, (if rc0 =? NGX_AGAIN then
       let! (rc', clcf') := ngx_http_core_find_location regex_exec fuel u s0 in Ret (rc', clcf', noregex (attrs s0))
     else Ret (rc0, s0, false)) = Ret x -> fst (fst x) <> NGX_AGAIN) as Hx.
  { intros x. case_if E; boolify; [|by intros [= <-]].
    destruct (ngx_http_core_find_location _ _ _ _) as [[rc' c']| |] eqn:Ef; try done. intros [= <-]. by apply IH in Ef. }
  destruct (if rc0 =? NGX_AGAIN then _ else _) as [[[rc1 s1] skip]| |]; try done. specialize (Hx _ eq_refl). cbn in Hx.
  cbn [outcome_bind]. case_if E; [by intros [= <- <-]|]. destruct rx as [l|]; [|by intros [= <- <-]].
  destruct skip; [by intros [= <- <-]|]. destruct (find_regex _ _ _) as [[r|]|]; [|by intros [= <- <-]|by intros [= <- <-]].
  destruct (ngx_http_core_find_location _ _ _ _) as [[rc2 s2]| |]; try done. cbn [outcome_bind].
  intros [= <- <-]. case_if E2; boolify; [by subst|done].
Qed.

(** * Refusals *)

(** a server with two static locations of the same name, both exact or both
    not, is refused, whatever else it has and wherever the second one stands. *)
Theorem location_duplicate_refused a ch fuel :
  readable true (Loc a ch) -> Forall distinct ch -> (height (Loc a ch) <= fuel)%nat ->
  ~ NoDup (map (key la) (filter (of_rank 0) ch)) ->
  init_server fuel (conf (Loc a ch)) = Ret None.
Proof.
  intros Hr Hd Hf Hdup. unfold init_server. destruct (init_locations_ok fuel true _ Hr Hf) as (nl & ->).
  cbn [outcome_bind]. destruct fuel as [|fuel]; [cbn in Hf; lia|].
  apply init_static_level; [by eapply readable_names| |done].
  inversion Hr as [? ? ? Hr' _]; subst. rewrite Forall_forall in Hr', Hd |- *. intros c Hc.
  apply (init_static_ok fuel false); [auto..|]. pose proof (height_child a ch c Hc). lia.
Qed.

(** * Names of 256 bytes *)

Definition prefix_attrs (name : list Z) : loc_attrs := MkAttrs name None false false false false false.

(** the length of a name is kept in a byte: a location whose name has 256
    bytes answers for every URI but the empty one. *)
Theorem location_long_name regex_exec name u :
  length name = 256%nat -> u <> [] ->
  exists s c,
    init_server 2 (conf (Loc no_attrs [Loc (prefix_attrs name) []])) = Ret (Some s) /\
    ngx_http_core_find_location regex_exec 2 u s = Ret (NGX_DECLINED, c) /\ loc_name (attrs c) = name.
Proof.
  intros Hn Hu. set (c := Clcf (prefix_attrs name) None NoNode None).
  exists (Clcf no_attrs None (Node NoNode NoNode NoNode None (Some c) false 0 name) None), c. split_and!.
  - unfold init_server. cbn. rewrite ngx_queue_middle_spec. cbn. by rewrite Hn.
  - destruct u as [|b u]; [done|]. cbn [ngx_http_core_find_location ngx_http_core_find_static_location find_static].
    replace (Z.of_nat (length (b :: u)) <=? 0) with false by (symmetry; apply Z.leb_gt; cbn; lia).
    cbn. reflexivity.
  - reflexivity.
Qed.

(** * The theorems at concrete servers *)

Definition inclusive_loc (name : list Z) (ch : list location) : location := Loc (prefix_attrs name) ch.
Definition exact_loc (name : list Z) : location := Loc (MkAttrs name None false false true false false) [].
Definition regex_loc (name : list Z) (n : Z) : location := Loc (MkAttrs name (Some n) false false false false false) [].

Definition server0 : location := Loc no_attrs
  [inclusive_loc $"/" []; regex_loc $"mp4$" 4; inclusive_loc $"/video/" [inclusive_loc $"/video/live" []]; exact_loc $"/"].

(** Expression 4 is "mp4$". *)
Definition ends_mp4 (n : Z) (u : list Z) : Z :=
  if bool_decide (drop (length u - 3) u = $"mp4") then NGX_OK else NGX_DECLINED.

Lemma server0_ruled u : ruled u server0.
Proof.
  repeat (constructor || (intros c b Hc; revert c b Hc)); try (intros c Hc; cbn in Hc; set_solver).
  all: intros c b Hc Ha; exfalso; revert Ha; cbn in Hc; set_solver.
Qed.

Lemma location_found_witness :
  (exists s c, init_server 3 (conf server0) = Ret (Some s) /\
     ngx_http_core_find_location ends_mp4 3 $"/video/live/1" s = Ret (NGX_DECLINED, c) /\ loc_name (attrs c) = $"/video/live") /\
  (exists s c, init_server 3 (conf server0) = Ret (Some s) /\
     ngx_http_core_find_location ends_mp4 3 $"/video/live/1.mp4" s = Ret (NGX_OK, c) /\ loc_name (attrs c) = $"mp4$").
Proof.
  assert (H : forall u, let '(decided, d) := asked ends_mp4 u 3 server0 in
    exists s c, init_server 3 (conf server0) = Ret (Some s) /\
      ngx_http_core_find_location ends_mp4 3 u s = Ret (if decided then NGX_OK else NGX_DECLINED, c) /\ attrs c = la d).
  { intros u. apply (location_found (fun s _ => Some (Z.of_nat (length s))) _
      [Block [$"/"] false []; Block [$"~"; $"mp4$"] false [];
       Block [$"/video/"] false [Block [$"/video/live"] false []]; Block [$"="; $"/"] false []]).
    - repeat (constructor || (intros ? [= <-] [=]) || (intros ? _; reflexivity) || (cbv; split; reflexivity)).
    - vm_compute. reflexivity.
    - repeat constructor; cbn; try lia; set_solver.
    - cbn. lia.
    - intros n. unfold ends_mp4. case_bool_decide; auto.
    - apply server0_ruled. }
  split.
  - destruct (H $"/video/live/1") as (s & c & Hi & Hf & Ha). exists s, c. split; [done|]. split; [exact Hf|]. by rewrite Ha.
  - destruct (H $"/video/live/1.mp4") as (s & c & Hi & Hf & Ha). exists s, c. split; [done|]. split; [exact Hf|]. by rewrite Ha.
Defined.

Lemma location_duplicate_refused_witness :
  init_server 2 (conf (Loc no_attrs [inclusive_loc $"/a" []; exact_loc $"/a"; inclusive_loc $"/" []; inclusive_loc $"/a" []]))
  = Ret None.
Proof.
  apply location_duplicate_refused.
  - repeat (constructor || (cbv; split; reflexivity)); done.
  - repeat constructor.
  - cbn. lia.
  - intros H. cbn in H. apply NoDup_cons in H as [H _]. apply H. set_solver.
Defined.

Lemma location_long_name_witness :
  exists s c,
    init_server 2 (conf (Loc no_attrs [Loc (prefix_attrs ("/"%c :: repeat "x"%c 255)) []])) = Ret (Some s) /\
    ngx_http_core_find_location (fun _ _ => NGX_DECLINED) 2 $"/other" s = Ret (NGX_DECLINED, c) /\
    loc_name (attrs c) = "/"%c :: repeat "x"%c 255.
Proof. apply location_long_name; [reflexivity|done]. Defined.

(** * Examples of what the configuration asks for and the code does not do *)

(** A compiler that numbers an expression by its length, and a matcher of the
    expressions of the examples: number 4 matches everything, number 5 fails. *)
Definition by_length (s : list Z) (caseless : bool) : option Z := Some (Z.of_nat (length s)).
Definition four_matches (n : Z) (u : list Z) : Z :=
  if n =? 4 then NGX_OK else if n =? 5 then NGX_ERROR else NGX_DECLINED.

(** The code of the answer and the name of the location. *)
Definition answer (body : list block) (u : list Z) : option (outcome (option (Z * list Z))) :=
  match read_server by_length body with
  | None => None
  | Some server =>
    Some (let! s := init_server 4 server in
          match s with
          | None => Ret None
          | Some s =>
            let! (rc, c) := ngx_http_core_find_location four_matches 4 u s in Ret (Some (rc, loc_name (attrs c)))
          end)
  end.

(** A location that redirects is not reached when the tree has another one
    before it: with "/a-b" in the middle, "/a" is declined. *)
Example redirect_missed :
  answer [Block [$"/a/"] true []] $"/a" = Some (Ret (Some (NGX_DONE, $"/a/"))) /\
  answer [Block [$"/A"] false []; Block [$"/a-b"] false []; Block [$"/a/"] true []] $"/a"
  = Some (Ret (Some (NGX_DECLINED, []))).
Proof. split; vm_compute; reflexivity. Qed.

(** A location inside a regex location is read and never found. *)
Example inside_regex_ignored :
  answer [Block [$"~"; $"/fil"] false [Block [$"/file/b"] false []]] $"/file/b"
  = Some (Ret (Some (NGX_OK, $"/fil"))).
Proof. vm_compute; reflexivity. Qed.

(** An error of an expression inside a location is dropped when one outside
    matches. *)
Example inside_error_dropped :
  answer [Block [$"/"] false [Block [$"~"; $"fails"] false []]] $"/x" = Some (Ret (Some (NGX_ERROR, $"/"))) /\
  answer [Block [$"/"] false [Block [$"~"; $"fails"] false []]; Block [$"~"; $"some"] false []] $"/x"
  = Some (Ret (Some (NGX_OK, $"some"))).
Proof. split; vm_compute; reflexivity. Qed.

(** A named location inside a location with an empty name passes the checks of
    the directive and makes the initialisation follow a null pointer. *)
Example named_inside_empty :
  answer [Block [[]] false [Block [$"@x"] false []]] $"/" = Some Undefined.
Proof. vm_compute; reflexivity. Qed.

End LocationConfig.
