(* ===== verification/NgxLimitReqConf.v ===== *)
(** The directives of the request limiter: limit_req_zone and limit_req of
    src/http/modules/ngx_http_limit_req_module.c, with the zones of the cycle
    (ngx_shared_memory_add of src/core/ngx_cycle.c).

    The arguments of a directive are NUL-terminated strings, without the name
    of the directive here.  The index of a variable and the page size are
    parameters; allocations from the pool of the configuration succeed. *)

From S2P Require Import Prelude NgxNumber NgxLocation NgxLimitReq NgxLimitReqRate.

Module LimitReqConf.

Import Number Location LimitReq LimitReqRate.

(** * Shared memory zones *)

(** The tag of a zone is the module that uses it; its data here is the context
    of a request limit: the rate, the index of the variable and its name. *)
Record limit_req_ctx := MkCtx { c_rate : Z; c_index : Z; c_var : list Z }.

Record shm_zone := MkShm { s_name : list Z; s_size : Z; s_tag : Z; s_data : option limit_req_ctx }.

Fixpoint shm_find (name : list Z) (zones : list shm_zone) : option (nat * shm_zone) :=
  match zones with
  | [] => None
  | z :: zones =>
    if (length name =? length (s_name z))%nat && (ngx_strncmp name (s_name z) (length name) =? 0)
    then Some (O, z)
    else match shm_find name zones with Some (i, z) => Some (S i, z) | None => None end
  end.

(** The index of the zone and the zones. *)
Definition ngx_shared_memory_add (name : list Z) (size tag : Z) (zones : list shm_zone)
    : option (nat * list shm_zone) :=
  match shm_find name zones with
  | Some (i, z) =>
    if negb (s_tag z =? tag) then None
    else if negb (size =? 0) && negb (s_size z =? size) then None
    else Some (i, zones)
  | None => Some (length zones, zones ++ [MkShm name size tag None])
  end.

(** * limit_req_zone *)

Section Zone.
Context (variable_index : list Z -> option Z) (ngx_pagesize tag : Z).

(** The local variables of ngx_http_limit_req_zone that its loop sets. *)
Record zone_args := MkArgs {
  a_name : list Z; a_size : Z; a_rate : Z; a_scale : Z; a_ctx : option (Z * list Z) }.

(** Up to the first ':', and after it. *)
Fixpoint split_colon (s : list Z) : option (list Z * list Z) :=
  match s with
  | [] => None
  | c :: s =>
    if c =? ":"%c then Some ([], s)
    else match split_colon s with Some (n, r) => Some (c :: n, r) | None => None end
  end.

(** The byte before an empty size is the ':', which is not a unit. *)
Definition zone_size (s : list Z) : outcome Z :=
  match s with [] => Ret (ngx_atosz []) | _ => ngx_parse_size s end.

(** One argument; [None] is NGX_CONF_ERROR. *)
Definition limit_req_zone_arg (value : list Z) (a : zone_args) : outcome (option zone_args) :=
  if ngx_strncmp value $"zone=" 5 =? 0 then
    match split_colon (drop 5 value) with
    | None => Ret None
    | Some (name, s) =>
      let! size := zone_size s in
      if size =? NGX_ERROR then Ret None
      else if size <? 8 * ngx_pagesize then Ret None
      else Ret (Some (MkArgs name size (a_rate a) (a_scale a) (a_ctx a)))
    end
  else if ngx_strncmp value $"rate=" 5 =? 0 then
    let len := length value in
    let p := drop (len - 3) value in
    let '(scale, len) :=
      if ngx_strncmp p $"r/s" 3 =? 0 then (1, (len - 3)%nat)
      else if ngx_strncmp p $"r/m" 3 =? 0 then (60, (len - 3)%nat)
      else (a_scale a, len) in
    let rate := ngx_atoi (take (len - 5) (drop 5 value)) in
    if rate <=? NGX_ERROR then Ret None
    else Ret (Some (MkArgs (a_name a) (a_size a) rate scale (a_ctx a)))
  else if hd 0 value =? "$"%c then
    match variable_index (tl value) with
    | None => Ret None
    | Some i => Ret (Some (MkArgs (a_name a) (a_size a) (a_rate a) (a_scale a) (Some (i, tl value))))
    end
  else Ret None.

Fixpoint limit_req_zone_args (values : list (list Z)) (a : zone_args) : outcome (option zone_args) :=
  match values with
  | [] => Ret (Some a)
  | v :: values =>
    let! r := limit_req_zone_arg v a in
    match r with None => Ret None | Some a => limit_req_zone_args values a end
  end.

(** The zones after the directive; [None] is NGX_CONF_ERROR. *)
Definition ngx_http_limit_req_zone (values : list (list Z)) (zones : list shm_zone)
    : outcome (option (list shm_zone)) :=
  let! r := limit_req_zone_args values (MkArgs [] 0 1 1 None) in
  match r with
  | None => Ret None
  | Some a =>
    match a_name a, a_ctx a with
    | [], _ => Ret None
    | _, None => Ret None
    | name, Some (index, var) =>
      let ctx := MkCtx (wrapU 64 (Z.quot (wrapS 64 (a_rate a * 1000)) (a_scale a))) index var in
      match ngx_shared_memory_add name (a_size a) tag zones with
      | None => Ret None
      | Some (i, zones) =>
        match zones !! i with
        | None => Undefined
        | Some z =>
          match s_data z with
          | Some _ => Ret None
          | None => Ret (Some (<[i := MkShm (s_name z) (s_size z) (s_tag z) (Some ctx)]> zones))
          end
        end
      end
    end
  end.

(** * limit_req *)

(** A limit of a location: the index of its zone, the burst and nodelay. *)
Record conf_limit := MkCLimit { cl_zone : nat; cl_burst : Z; cl_nodelay : bool }.

Inductive conf_result := CONF_OK | CONF_ERROR | CONF_DUPLICATE.

(** One argument: the zone, the burst, nodelay and the zones. *)
Definition limit_req_arg (value : list Z) (st : option nat * Z * bool * list shm_zone)
    : option (option nat * Z * bool * list shm_zone) :=
  let '(zone, burst, nodelay, zones) := st in
  if ngx_strncmp value $"zone=" 5 =? 0 then
    match ngx_shared_memory_add (drop 5 value) 0 tag zones with
    | None => None
    | Some (i, zones) => Some (Some i, burst, nodelay, zones)
    end
  else if ngx_strncmp value $"burst=" 6 =? 0 then
    let burst := ngx_atoi (drop 6 value) in
    if burst <=? 0 then None else Some (zone, burst, nodelay, zones)
  else if ngx_strncmp value $"nodelay" 7 =? 0 then Some (zone, burst, true, zones)
  else None.

Fixpoint limit_req_args (values : list (list Z)) (st : option nat * Z * bool * list shm_zone)
    : option (option nat * Z * bool * list shm_zone) :=
  match values with
  | [] => Some st
  | v :: values => match limit_req_arg v st with Some st => limit_req_args values st | None => None end
  end.

Definition ngx_http_limit_req (values : list (list Z)) (limits : list conf_limit) (zones : list shm_zone)
    : conf_result * list conf_limit * list shm_zone :=
  match limit_req_args values (None, 0, false, zones) with
  | None => (CONF_ERROR, limits, zones)
  | Some (None, _, _, zones) => (CONF_ERROR, limits, zones)
  | Some (Some i, burst, nodelay, zones) =>
    match zones !! i with
    | Some (MkShm _ _ _ (Some _)) =>
      if existsb (fun l => (cl_zone l =? i)%nat) limits then (CONF_DUPLICATE, limits, zones)
      else (CONF_OK, limits ++ [MkCLimit i (wrapU 64 (burst * 1000)) nodelay], zones)
    | _ => (CONF_ERROR, limits, zones)
    end
  end.

End Zone.

(** ngx_http_limit_req_merge_conf; NGX_LOG_ERR is 4, NGX_LOG_INFO 7, and
    NGX_CONF_UNSET_UINT is -1. *)
Record limit_req_conf := MkConf { lc_limits : option (list conf_limit); lc_limit_level : Z; lc_delay_level : Z }.

Definition ngx_http_limit_req_create_conf : limit_req_conf := MkConf None (-1) 0.

Definition ngx_http_limit_req_merge_conf (prev conf : limit_req_conf) : limit_req_conf :=
  let limits := match lc_limits conf with None => lc_limits prev | l => l end in
  let level :=
    if lc_limit_level conf =? -1 then (if lc_limit_level prev =? -1 then 4 else lc_limit_level prev)
    else lc_limit_level conf in
  MkConf limits level (if level =? 7 then 7 else level + 1).

Definition zone_one (rate : Z) : shm_zone :=
  MkShm $"one" (10 * 1024 * 1024) 9 (Some (MkCtx rate 3 $"binary_remote_addr")).

Example zone_and_limit :
  ngx_http_limit_req_zone (fun _ => Some 3) 4096 9 [$"$binary_remote_addr"; $"zone=one:10m"; $"rate=30r/m"] [] =
    Ret (Some [zone_one 500]) /\
  ngx_http_limit_req 9 [$"zone=one"; $"burst=5"; $"nodelay"] [] [zone_one 500] =
    (CONF_OK, [MkCLimit 0 5000 true], [zone_one 500]).
Proof. split; vm_compute; reflexivity. Qed.

(** A rate of zero is accepted, and the first request that has to be delayed
    divides by it. *)
Example zero_rate :
  ngx_http_limit_req_zone (fun _ => Some 3) 4096 9 [$"$binary_remote_addr"; $"zone=one:10m"; $"rate=0r/s"] [] =
    Ret (Some [zone_one 0]) /\
  (let z := default zone0 (ngx_http_limit_req_init_zone $"binary_remote_addr" 0 3 None None (∅ : SetPool)) in
   serve [(1000, [97]); (1000, [97])] (MkLimit z 5000 false None)) = Undefined.
Proof. split; vm_compute; reflexivity. Qed.

End LimitReqConf.
