(* ===== verification/NgxLimitConn.v ===== *)
(** The limit on the number of connections:
    src/http/modules/ngx_http_limit_conn_module.c, on the red-black tree of
    NgxRbtree and the slab pool of NgxLimitReq.

    A zone is a piece of memory that the workers share, used under its lock: a
    red-black tree of nodes, one for every key that has a request.  The node of a
    key is a tree node followed by the record of the module, so both have its
    address.  [conn_take] and [ngx_http_limit_conn_cleanup] are what a worker does
    with a zone under the lock. *)

From S2P Require Import Prelude NgxNumber NgxLocation NgxStringCmp NgxCrc32 NgxRbtree NgxLimitReq NgxLimitReqRate NgxLimitReqConf.

#[local] Open Scope Z_scope.

Module LimitConn.

Import StringCmp Crc32 Rbtree LimitReq.

(** [len] is a u_char, [conn] a u_short. *)
Record ngx_http_limit_conn_node_t := MkLc { lc_len : Z; lc_conn : Z; lc_data : list Z }.

Section LimitConn.
Context {P : Type} `{SlabPool P}.

Record conn_zone := MkConnZone { cz_sentinel : Z; cz_rb : rbmem; cz_lc : gmap Z ngx_http_limit_conn_node_t; cz_pool : P }.

(** ngx_http_limit_conn_rbtree_insert_value goes left where the hash is smaller,
    and for equal hashes where the key is. *)
Definition limit_conn_left (lcs : gmap Z ngx_http_limit_conn_node_t) (node key temp : Z) (t : ngx_rbtree_node_t) : bool :=
  if key <? n_key t then true
  else if key >? n_key t then false
  else match lcs !! node, lcs !! temp with
       | Some lcn, Some lcnt => ngx_memn2cmp (lc_data lcn) (lc_data lcnt) (lc_len lcn) (lc_len lcnt) <? 0
       | _, _ => false
       end.

Definition ngx_http_limit_conn_rbtree_insert_value (lcs : gmap Z ngx_http_limit_conn_node_t) : ngx_rbtree_insert_pt :=
  fun temp node sentinel =>
  key ← rd n_key node;
  fuel ← path_fuel;
  insert_descend (limit_conn_left lcs node key) node sentinel fuel temp.

Definition limit_conn_cmp (lcs : gmap Z ngx_http_limit_conn_node_t) (hash : Z) (data : list Z) (a : Z) (n : ngx_rbtree_node_t) : Z :=
  if hash <? n_key n then -1
  else if hash >? n_key n then 1
  else match lcs !! a with
       | Some lc => ngx_memn2cmp data (lc_data lc) (Z.of_nat (length data)) (lc_len lc)
       | None => 0
       end.

Definition ngx_http_limit_conn_lookup (z : conn_zone) (data : list Z) (hash : Z) : outcome (option Z) :=
  let! p := (r ← get_root; fuel ← path_fuel; rbtree_search (limit_conn_cmp (cz_lc z) hash data) (cz_sentinel z) fuel r) (cz_rb z) in
  Ret p.1.

(** The sizes of the structures before the data: 32 bytes of the tree node up to
    its colour and 4 of the record. *)
Definition limit_conn_node_size (len : Z) : Z := 32 + 4 + len.

Inductive taken := Taken (node : Z) | Full | NoMemory.

(** The part of the handler for one limit between lock and unlock; [conn] is the
    limit. *)
Definition conn_take (data : list Z) (conn : Z) (z : conn_zone) : outcome (taken * conn_zone) :=
  let len := Z.of_nat (length data) in
  let hash := ngx_crc32_short data in
  let! node := ngx_http_limit_conn_lookup z data hash in
  match node with
  | None =>
    match slab_alloc (cz_pool z) (limit_conn_node_size len) with
    | None => Ret (NoMemory, z)
    | Some (a, pool) =>
      let lcs := <[a := MkLc (wrapU 8 len) 1 data]> (cz_lc z) in
      let rb := MkRb (<[a := MkNode hash 0 0 0 false]> (heap (cz_rb z))) (root (cz_rb z)) in
      let! p := ngx_rbtree_insert (ngx_http_limit_conn_rbtree_insert_value lcs) (cz_sentinel z) a rb in
      Ret (Taken a, MkConnZone (cz_sentinel z) p.2 lcs pool)
    end
  | Some a =>
    match cz_lc z !! a with
    | None => Undefined
    | Some lc =>
      if lc_conn lc >=? conn then Ret (Full, z)
      else
        Ret (Taken a, MkConnZone (cz_sentinel z) (cz_rb z)
                        (<[a := MkLc (lc_len lc) (wrapU 16 (lc_conn lc + 1)) (lc_data lc)]> (cz_lc z)) (cz_pool z))
    end
  end.

Definition ngx_http_limit_conn_cleanup (a : Z) (z : conn_zone) : outcome conn_zone :=
  match cz_lc z !! a with
  | None => Undefined
  | Some lc =>
    let conn := wrapU 16 (lc_conn lc - 1) in
    let lcs := <[a := MkLc (lc_len lc) conn (lc_data lc)]> (cz_lc z) in
    if conn =? 0 then
      let! p := ngx_rbtree_delete (cz_sentinel z) a (cz_rb z) in
      Ret (MkConnZone (cz_sentinel z) (MkRb (delete a (heap p.2)) (root p.2)) (delete a lcs) (slab_free (cz_pool z) a))
    else Ret (MkConnZone (cz_sentinel z) (cz_rb z) lcs (cz_pool z))
  end.

(** ** The handler *)

(** The flag of the main request, and the cleanups of its pool, the last one
    first: those of this module with the zone and the node, and others. *)
Record conn_request := MkConnReq { limit_conn_set : bool; cleanup : list (option (nat * Z)) }.

Record ngx_http_limit_conn_limit_t := MkConnLimit { l_shm_zone : nat; l_conn : Z }.

(** A cleanup in the zone [i]. *)
Definition cleanup_in (i : nat) (a : Z) (zones : list conn_zone) : outcome (list conn_zone) :=
  match zones !! i with
  | None => Undefined
  | Some z => let! z := ngx_http_limit_conn_cleanup a z in Ret (<[i := z]> zones)
  end.

Fixpoint ngx_http_limit_conn_cleanup_all (cln : list (option (nat * Z))) (zones : list conn_zone)
    : outcome (list (option (nat * Z)) * list conn_zone) :=
  match cln with
  | Some (i, a) :: cln => let! zones := cleanup_in i a zones in ngx_http_limit_conn_cleanup_all cln zones
  | _ => Ret (cln, zones)
  end.

Definition conn_refuse (cln : list (option (nat * Z))) (zones : list conn_zone) : outcome (Z * conn_request * list conn_zone) :=
  let! (cln, zones) := ngx_http_limit_conn_cleanup_all cln zones in
  Ret (NGX_HTTP_SERVICE_UNAVAILABLE, MkConnReq true cln, zones).

(** [var] gives the value of the variable of a zone. *)
Fixpoint conn_loop (var : nat -> option (list Z)) (limits : list ngx_http_limit_conn_limit_t) (r : conn_request) (zones : list conn_zone)
    : outcome (Z * conn_request * list conn_zone) :=
  match limits with
  | [] => Ret (NGX_DECLINED, r, zones)
  | l :: limits =>
    match var (l_shm_zone l) with
    | None => conn_loop var limits r zones
    | Some data =>
      let len := Z.of_nat (length data) in
      if (len =? 0) || (len >? 255) then conn_loop var limits r zones
      else
        match zones !! l_shm_zone l with
        | None => Undefined
        | Some z =>
          let! (t, z) := conn_take data (l_conn l) z in
          let zones := <[l_shm_zone l := z]> zones in
          match t with
          | Taken a => conn_loop var limits (MkConnReq true (Some (l_shm_zone l, a) :: cleanup r)) zones
          | _ => conn_refuse (cleanup r) zones
          end
        end
    end
  end.

Definition ngx_http_limit_conn_handler (var : nat -> option (list Z)) (limits : list ngx_http_limit_conn_limit_t) (r : conn_request)
    (zones : list conn_zone) : outcome (Z * conn_request * list conn_zone) :=
  if limit_conn_set r then Ret (NGX_DECLINED, r, zones) else conn_loop var limits r zones.

(** The cleanups of this module when the pool of the request is destroyed. *)
Fixpoint run_cleanups (cln : list (option (nat * Z))) (zones : list conn_zone) : outcome (list conn_zone) :=
  match cln with
  | [] => Ret zones
  | None :: cln => run_cleanups cln zones
  | Some (i, a) :: cln => let! zones := cleanup_in i a zones in run_cleanups cln zones
  end.

(** ** The zone and the directives *)

(** [octx] is the variable and the zone of the configuration before, [exists_]
    the contents of a memory that exists already. *)
Definition ngx_http_limit_conn_init_zone (var : list Z) (name_len : Z) (octx : option (list Z * conn_zone)) (exists_ : option conn_zone)
    (pool : P) : option conn_zone :=
  match octx with
  | Some (ovar, o) => if negb (ngx_strcmp var ovar =? 0) then None else Some o
  | None =>
    match exists_ with
    | Some o => Some o
    | None =>
      match slab_alloc pool 24 with
      | None => None
      | Some (_, pool) =>
        match slab_alloc pool 40 with
        | None => None
        | Some (sentinel, pool) =>
          match slab_alloc pool (23 + name_len) with
          | None => None
          | Some (_, pool) => Some (MkConnZone sentinel (MkRb {[sentinel := MkNode 0 0 0 0 false]} sentinel) ∅ pool)
          end
        end
      end
    end
  end.

End LimitConn.

Arguments conn_zone : clear implicits.

Import Number Location LimitReqRate LimitReqConf.

(** The zones of the cycle are those of NgxLimitReqConf, with a rate of zero in
    the data of this module; [None] is NGX_CONF_ERROR. *)
Section Directives.
Context (variable_index : list Z -> option Z) (ngx_pagesize tag : Z).

Definition bind_zone (name : list Z) (size index : Z) (var : list Z) (zones : list shm_zone) : outcome (option (list shm_zone)) :=
  match ngx_shared_memory_add name size tag zones with
  | None => Ret None
  | Some (i, zones) =>
    match zones !! i with
    | None => Undefined
    | Some z =>
      match s_data z with
      | Some _ => Ret None
      | None => Ret (Some (<[i := MkShm (s_name z) (s_size z) (s_tag z) (Some (MkCtx 0 index var))]> zones))
      end
    end
  end.

(** The local variables that the loop sets: the name, the size, the index of the
    variable and its name. *)
Definition limit_conn_zone_arg (value : list Z) (st : list Z * Z * option (Z * list Z)) : outcome (option (list Z * Z * option (Z * list Z))) :=
  let '(_, _, ctx) := st in
  if ngx_strncmp value $"zone=" 5 =? 0 then
    match split_colon (drop 5 value) with
    | None => Ret None
    | Some (name, s) =>
      let! size := zone_size s in
      if size =? NGX_ERROR then Ret None
      else if size <? 8 * ngx_pagesize then Ret None
      else Ret (Some (name, size, ctx))
    end
  else if hd 0 value =? "$"%c then
    match variable_index (tl value) with
    | None => Ret None
    | Some i => Ret (Some (st.1, Some (i, tl value)))
    end
  else Ret None.

Fixpoint limit_conn_zone_args (values : list (list Z)) (st : list Z * Z * option (Z * list Z))
    : outcome (option (list Z * Z * option (Z * list Z))) :=
  match values with
  | [] => Ret (Some st)
  | v :: values =>
    let! r := limit_conn_zone_arg v st in
    match r with None => Ret None | Some st => limit_conn_zone_args values st end
  end.

Definition ngx_http_limit_conn_zone (values : list (list Z)) (zones : list shm_zone) : outcome (option (list shm_zone)) :=
  let! r := limit_conn_zone_args values ([], 0, None) in
  match r with
  | None | Some ([], _, _) | Some (_, _, None) => Ret None
  | Some (name, size, Some (index, var)) => bind_zone name size index var zones
  end.

(** The name of the zone, the variable and the size. *)
Definition ngx_http_limit_zone (name var size : list Z) (zones : list shm_zone) : outcome (option (list shm_zone)) :=
  if negb (hd 0 var =? "$"%c) then Ret None
  else
    match variable_index (tl var) with
    | None => Ret None
    | Some index =>
      let! n := ngx_parse_size size in
      if n =? NGX_ERROR then Ret None
      else if n <? 8 * ngx_pagesize then Ret None
      else bind_zone name n index (tl var) zones
    end.

Definition ngx_http_limit_conn (name number : list Z) (limits : list ngx_http_limit_conn_limit_t) (zones : list shm_zone)
    : conf_result * list ngx_http_limit_conn_limit_t * list shm_zone :=
  match ngx_shared_memory_add name 0 tag zones with
  | None => (CONF_ERROR, limits, zones)
  | Some (i, zones) =>
    if existsb (fun l => (l_shm_zone l =? i)%nat) limits then (CONF_DUPLICATE, limits, zones)
    else
      let n := ngx_atoi number in
      if n <=? 0 then (CONF_ERROR, limits, zones)
      else if n >? 65535 then (CONF_ERROR, limits, zones)
      else (CONF_OK, limits ++ [MkConnLimit i n], zones)
  end.

End Directives.

(** [None] are limits without elements; NGX_LOG_ERR is 4. *)
Record ngx_http_limit_conn_conf_t := MkConnConf { lcc_limits : option (list ngx_http_limit_conn_limit_t); lcc_log_level : Z }.

Definition ngx_http_limit_conn_create_conf : ngx_http_limit_conn_conf_t := MkConnConf None (2 ^ 64 - 1).

Definition ngx_http_limit_conn_merge_conf (prev conf : ngx_http_limit_conn_conf_t) : ngx_http_limit_conn_conf_t :=
  MkConnConf (match lcc_limits conf with None => lcc_limits prev | l => l end)
    (if lcc_log_level conf =? 2 ^ 64 - 1 then (if lcc_log_level prev =? 2 ^ 64 - 1 then 4 else lcc_log_level prev) else lcc_log_level conf).

(** The handler [h] of the module joins those of the pre-access phase, which is
    the phase with the number 5. *)
Definition ngx_http_limit_conn_init {H} (h : H) (phases : list (list H)) : list (list H) := alter (fun hs => hs ++ [h]) 5%nat phases.

End LimitConn.
