(* ===== verification/NgxLimitConnZone.v ===== *)
(** The zone of a connection limit: the references that requests hold to its
    nodes are what its records count, in any order of the workers, and a key
    never has more of them than its limit. *)

From S2P Require Import Prelude NgxStringCmp NgxCrc32 NgxRbtree NgxRbtreeRep NgxRbtreeInsert NgxRbtreeDelete NgxRbtreeOrder NgxLimitReq NgxLimitReqZone NgxLimitConn.

#[local] Open Scope Z_scope.

Module LimitConnZone.

Import LimitReqZone LimitConn.

(** * The tree *)

(** The two limiters keep their nodes in the same order: the tree of this one is
    a tree of the request limiter with other records. *)
Definition as_lr (lc : ngx_http_limit_conn_node_t) : ngx_http_limit_req_node_t := MkLr (lc_len lc) 0 0 0 (lc_data lc).

Lemma conn_left_eq lcs node key temp t : limit_conn_left lcs node key temp t = limit_req_left (as_lr <$> lcs) node key temp t.
Proof. unfold limit_conn_left, limit_req_left. rewrite !lookup_fmap. by destruct (lcs !! node), (lcs !! temp). Qed.

Lemma conn_cmp_eq lcs hash data a n : limit_conn_cmp lcs hash data a n = limit_req_cmp (as_lr <$> lcs) hash data a n.
Proof. unfold limit_conn_cmp, limit_req_cmp. rewrite lookup_fmap. by destruct (lcs !! a). Qed.

Lemma bind_ext {A B} (m m' : M A) (k k' : A -> M B) st :
  m st = m' st -> (forall a st, k a st = k' a st) -> bind m k st = bind m' k' st.
Proof. intros E Hk. unfold bind. rewrite E. destruct (m' st) as [[a st']| |]; cbn; [apply Hk|done|done]. Qed.

Lemma rd_ext {A} (f g : ngx_rbtree_node_t -> A) p st : (forall n, f n = g n) -> rd f p st = rd g p st.
Proof. intros E. unfold rd. destruct (heap st !! p); cbn; [by rewrite E|done]. Qed.

Lemma descend_ext g g' x s fuel : (forall y n, g y n = g' y n) -> forall y st, insert_descend g x s fuel y st = insert_descend g' x s fuel y st.
Proof.
  intros E. induction fuel as [|fuel IH]; intros y st; [done|]. cbn [insert_descend]. apply bind_ext; [by apply rd_ext|].
  intros l st'. apply bind_ext; [done|]. intros next st''. destruct (next =? s); [done|apply IH].
Qed.

Lemma search_ext g g' s fuel : (forall y n, g y n = g' y n) -> forall y st, rbtree_search g s fuel y st = rbtree_search g' s fuel y st.
Proof.
  intros E. induction fuel as [|fuel IH]; intros y st; [done|]. cbn [rbtree_search]. destruct (y =? s); [done|].
  apply bind_ext; [by apply rd_ext|]. intros rc st'. destruct (rc =? 0); [done|]. apply bind_ext; [done|]. intros next st''. apply IH.
Qed.

Lemma conn_insert_eq lcs s a st :
  ngx_rbtree_insert (ngx_http_limit_conn_rbtree_insert_value lcs) s a st =
  ngx_rbtree_insert (ngx_http_limit_req_rbtree_insert_value (as_lr <$> lcs)) s a st.
Proof.
  unfold ngx_rbtree_insert. apply bind_ext; [done|]. intros r st'. destruct (r =? s); [done|]. apply bind_ext; [|done].
  unfold ngx_http_limit_conn_rbtree_insert_value, ngx_http_limit_req_rbtree_insert_value. apply bind_ext; [done|]. intros key st1.
  apply bind_ext; [done|]. intros fuel st2. apply descend_ext. intros y n. apply conn_left_eq.
Qed.

Lemma conn_search_eq lcs s hash data st :
  (r ← get_root; fuel ← path_fuel; rbtree_search (limit_conn_cmp lcs hash data) s fuel r) st =
  (r ← get_root; fuel ← path_fuel; rbtree_search (limit_req_cmp (as_lr <$> lcs) hash data) s fuel r) st.
Proof.
  apply bind_ext; [done|]. intros r st1. apply bind_ext; [done|]. intros fuel st2. apply search_ext. intros y n. apply conn_cmp_eq.
Qed.

(** * The invariant *)

Section Zone.
Context {P : Type} `{SlabLaws P}.

(** How many requests hold a node, and how many a key. *)
Definition node_refs (held : list (Z * list Z)) (a : Z) : nat := length (filter (fun p => p.1 = a) held).
Definition key_refs (held : list (Z * list Z)) (k : list Z) : nat := length (filter (fun p => p.2 = k) held).

Definition key_ok (k : list Z) : Prop := (1 <= length k <= 255)%nat.

Definition lc_ok (held : list (Z * list Z)) (a : Z) (lc : ngx_http_limit_conn_node_t) : Prop :=
  key_ok (lc_data lc) /\ lc_len lc = Z.of_nat (length (lc_data lc)) /\ lc_conn lc = Z.of_nat (node_refs held a) /\ 1 <= lc_conn lc <= 65535.

(** [base] is what the zone has of its memory besides the nodes of the keys. *)
Record ConnOk (base : gset Z) (z : conn_zone P) (held : list (Z * list Z)) : Prop := {
  co_tree : exists q, TreeOk (cz_sentinel z) (as_lr <$> cz_lc z) q (cz_rb z) /\ list_to_set q = dom (cz_lc z);
  co_heap : dom (heap (cz_rb z)) = {[cz_sentinel z]} ∪ dom (cz_lc z);
  co_base : cz_sentinel z ∈ base;
  co_apart : base ## dom (cz_lc z);
  co_live : slab_live (cz_pool z) = base ∪ dom (cz_lc z);
  co_recs : forall a lc, cz_lc z !! a = Some lc -> lc_ok held a lc;
  co_keys : forall a b la lb, cz_lc z !! a = Some la -> cz_lc z !! b = Some lb -> lc_data la = lc_data lb -> a = b;
  co_held : forall a k, (a, k) ∈ held -> exists lc, cz_lc z !! a = Some lc /\ lc_data lc = k }.

Lemma filter_same {A} (Q R : A -> Prop) `{!forall x, Decision (Q x), !forall x, Decision (R x)} (l : list A) :
  (forall x, x ∈ l -> Q x <-> R x) -> filter Q l = filter R l.
Proof.
  induction l as [|x l IH]; intros Hl; [done|]. rewrite !filter_cons, IH by (intros y Hy; apply Hl; by right).
  pose proof (Hl x ltac:(by left)). by destruct (decide (Q x)), (decide (R x)); try tauto.
Qed.

Lemma filter_none {A} (Q : A -> Prop) `{!forall x, Decision (Q x)} (l : list A) : (forall x, x ∈ l -> ~ Q x) -> filter Q l = [].
Proof.
  induction l as [|x l IH]; intros Hl; [done|]. rewrite filter_cons_False by (apply Hl; by left). apply IH. intros y Hy. apply Hl. by right.
Qed.

(** The references of a key are those of its node. *)
Lemma key_refs_node base z held a lc : ConnOk base z held -> cz_lc z !! a = Some lc -> key_refs held (lc_data lc) = node_refs held a.
Proof.
  intros Hz Ha. unfold key_refs, node_refs. f_equal. apply filter_same. intros [b k] Hin. cbn.
  destruct (co_held _ _ _ Hz b k Hin) as (lb & Hb & <-). split.
  - intros E. by apply (co_keys _ _ _ Hz b a lb lc).
  - intros ->. congruence.
Qed.

Lemma no_key_refs base z held k : ConnOk base z held -> (forall a lc, cz_lc z !! a = Some lc -> lc_data lc <> k) -> key_refs held k = 0%nat.
Proof.
  intros Hz Hk. unfold key_refs. rewrite filter_none; [done|]. intros [b kb] Hin. cbn.
  destruct (co_held _ _ _ Hz b kb Hin) as (lb & Hb & <-). by apply (Hk b).
Qed.

Lemma node_refs_perm held held' a : held ≡ₚ held' -> node_refs held a = node_refs held' a.
Proof. intros E. unfold node_refs. by rewrite E. Qed.

Lemma node_refs_cons b k held a : node_refs ((b, k) :: held) a = ((if decide (b = a) then 1 else 0) + node_refs held a)%nat.
Proof. unfold node_refs. rewrite filter_cons. cbn [fst]. by destruct (decide (b = a)). Qed.

Lemma node_refs_fresh base z held a : ConnOk base z held -> cz_lc z !! a = None -> node_refs held a = 0%nat.
Proof.
  intros Hz Ha. unfold node_refs. rewrite filter_none; [done|]. intros [b k] Hin. cbn. intros ->.
  destruct (co_held _ _ _ Hz a k Hin) as (lc & Hlc & _). congruence.
Qed.

(** * The search *)

Lemma lc_stored held a lc : lc_ok held a lc -> stored (as_lr lc) = lc_data lc /\ lr_wf (as_lr lc).
Proof.
  intros (Hk & Hl & _). unfold stored, lr_wf, as_lr. cbn [lr_len lr_data]. rewrite Hl. unfold key_ok in Hk. split; [|lia].
  rewrite Nat2Z.id. by apply take_ge.
Qed.

Lemma conn_lookup_ok base z held data : ConnOk base z held ->
  exists r, ngx_http_limit_conn_lookup z data (ngx_crc32_short data) = Ret r /\
    match r with
    | Some a => exists lc, cz_lc z !! a = Some lc /\ lc_data lc = data
    | None => forall a lc, cz_lc z !! a = Some lc -> lc_data lc <> data
    end.
Proof.
  intros Hz. destruct (co_tree _ _ _ Hz) as (q & HT & Hq). unfold ngx_http_limit_conn_lookup. rewrite conn_search_eq.
  destruct (limit_search_ok _ _ _ _ (ngx_crc32_short data) data HT) as (r & -> & Hr). exists r. split; [done|]. destruct r as [a|].
  - destruct Hr as (Ha & lr & Hlr & _ & Hk). rewrite lookup_fmap in Hlr. destruct (cz_lc z !! a) as [lc|] eqn:Hlc; [|done].
    cbn in Hlr. injection Hlr as <-. exists lc. split; [done|]. unfold key_of in Hk.
    destruct (lc_stored held a lc (co_recs _ _ _ Hz a lc Hlc)) as [Hs _]. by injection Hk as _ <-.
  - intros a lc Hlc Hd. assert (Ha : a ∈ q).
    { apply (elem_of_list_to_set (C := gset Z)). rewrite Hq. apply elem_of_dom. by exists lc. }
    apply (Hr a (as_lr lc) Ha); [by rewrite lookup_fmap, Hlc|]. unfold key_of.
    destruct (lc_stored held a lc (co_recs _ _ _ Hz a lc Hlc)) as [-> _]. cbn [as_lr lr_data]. by rewrite Hd.
Qed.

(** * One more reference, one less *)

Lemma as_lr_insert (lcs : gmap Z ngx_http_limit_conn_node_t) a lc lc' : lcs !! a = Some lc -> as_lr lc' = as_lr lc -> as_lr <$> <[a := lc']> lcs = as_lr <$> lcs.
Proof. intros Ha E. rewrite fmap_insert, E. apply insert_id. by rewrite lookup_fmap, Ha. Qed.

(** A node keeps its key and gets another number of references. *)
Lemma conn_count_ok base z held held' a lc n : ConnOk base z held -> cz_lc z !! a = Some lc ->
  n = Z.of_nat (node_refs held' a) -> 1 <= n <= 65535 ->
  (forall b, b <> a -> node_refs held' b = node_refs held b) ->
  (forall b k, (b, k) ∈ held' -> (b, k) ∈ held \/ (b, k) = (a, lc_data lc)) ->
  ConnOk base (MkConnZone (cz_sentinel z) (cz_rb z) (<[a := MkLc (lc_len lc) n (lc_data lc)]> (cz_lc z)) (cz_pool z)) held'.
Proof.
  intros Hz Ha Hn Hr Hother Hheld. assert (Hd : dom (<[a := MkLc (lc_len lc) n (lc_data lc)]> (cz_lc z)) = dom (cz_lc z)).
  { apply dom_insert_lookup_L. by exists lc. }
  assert (Hlook : forall b lb, <[a := MkLc (lc_len lc) n (lc_data lc)]> (cz_lc z) !! b = Some lb ->
    exists lb0, cz_lc z !! b = Some lb0 /\ lc_data lb = lc_data lb0 /\ lc_len lb = lc_len lb0 /\
      (b = a /\ lc_conn lb = n \/ b <> a /\ lc_conn lb = lc_conn lb0)).
  { intros b lb. destruct (decide (b = a)) as [->|Hne].
    - rewrite lookup_insert_eq. intros [= <-]. exists lc. split_and!; try done. by left.
    - rewrite lookup_insert_ne by done. intros Hb. exists lb. split_and!; try done. by right. }
  split; cbn [cz_sentinel cz_rb cz_lc cz_pool]; rewrite ?Hd; try apply Hz.
  - rewrite (as_lr_insert _ _ lc) by done. apply Hz.
  - intros b lb Hb. destruct (Hlook b lb Hb) as (lb0 & Hb0 & E1 & E2 & E3).
    destruct (co_recs _ _ _ Hz b lb0 Hb0) as (Hk & Hl & Hc & Hr0). unfold lc_ok. rewrite E1, E2. split_and!; try done.
    + destruct E3 as [[-> ->]|[Hne ->]]; [done|]. by rewrite Hother.
    + destruct E3 as [[-> ->]|[Hne ->]]; lia.
    + destruct E3 as [[-> ->]|[Hne ->]]; lia.
  - intros b c lb lc' Hb Hc E. destruct (Hlook b lb Hb) as (lb0 & Hb0 & E1 & _), (Hlook c lc' Hc) as (lc0 & Hc0 & E2 & _).
    apply (co_keys _ _ _ Hz b c lb0 lc0); [done|done|congruence].
  - intros b k Hin. assert (Hex : exists lb, cz_lc z !! b = Some lb /\ lc_data lb = k).
    { destruct (Hheld b k Hin) as [Hin'|[= -> ->]]; [by apply Hz|by exists lc]. }
    destruct Hex as (lb & Hb & <-). destruct (decide (b = a)) as [->|Hne].
    + rewrite lookup_insert_eq. eexists. split; [done|]. cbn. congruence.
    + rewrite lookup_insert_ne by done. by exists lb.
Qed.

Lemma queue_set (q : list Z) a : list_to_set (ngx_queue_remove a q) = (list_to_set q : gset Z) ∖ {[a]}.
Proof.
  apply set_eq. intros b. unfold ngx_queue_remove. rewrite elem_of_list_to_set, list_elem_of_filter, elem_of_difference, elem_of_list_to_set, elem_of_singleton.
  tauto.
Qed.

(** The node of a new key. *)
Lemma conn_new_ok base z held a pool data : ConnOk base z held -> key_ok data ->
  (forall b lc, cz_lc z !! b = Some lc -> lc_data lc <> data) ->
  slab_alloc (cz_pool z) (limit_conn_node_size (Z.of_nat (length data))) = Some (a, pool) ->
  let lcs := <[a := MkLc (wrapU 8 (Z.of_nat (length data))) 1 data]> (cz_lc z) in
  exists rb, ngx_rbtree_insert (ngx_http_limit_conn_rbtree_insert_value lcs) (cz_sentinel z) a
      (MkRb (<[a := MkNode (ngx_crc32_short data) 0 0 0 false]> (heap (cz_rb z))) (root (cz_rb z))) = Ret (tt, rb) /\
    ConnOk base (MkConnZone (cz_sentinel z) rb lcs pool) ((a, data) :: held).
Proof.
  intros Hz Hd Hnew Ea lcs. destruct (slab_alloc_live _ _ _ _ Ea) as [Hfresh Hlive]. rewrite (co_live _ _ _ Hz) in Hfresh, Hlive.
  apply not_elem_of_union in Hfresh as [Hab Hal]. assert (Hlen : wrapU 8 (Z.of_nat (length data)) = Z.of_nat (length data)).
  { apply wrapU_small. unfold key_ok in Hd. lia. }
  assert (Hnone : cz_lc z !! a = None) by (by apply not_elem_of_dom).
  destruct (co_tree _ _ _ Hz) as (q & HT & Hq).
  destruct (tree_add _ _ _ _ a (as_lr (MkLc (wrapU 8 (Z.of_nat (length data))) 1 data)) (MkNode (ngx_crc32_short data) 0 0 0 false) HT)
    as (rb & E & Hdom & HT').
  { rewrite (co_heap _ _ _ Hz). apply not_elem_of_union. split; [|done]. apply not_elem_of_singleton. intros ->. by apply Hab, Hz. }
  { unfold lr_wf, as_lr. cbn [lr_len lr_data lc_len lc_data]. rewrite Hlen. unfold key_ok in Hd. lia. }
  { done. }
  exists rb. rewrite conn_insert_eq. unfold lcs. rewrite fmap_insert. split; [exact E|].
  assert (Hlook : forall b lb, lcs !! b = Some lb -> b = a /\ lb = MkLc (Z.of_nat (length data)) 1 data \/ b <> a /\ cz_lc z !! b = Some lb).
  { intros b lb. unfold lcs. rewrite Hlen. destruct (decide (b = a)) as [->|Hne].
    - rewrite lookup_insert_eq. intros [= <-]. by left.
    - rewrite lookup_insert_ne by done. by right. }
  split; cbn [cz_sentinel cz_rb cz_lc cz_pool]; rewrite ?dom_insert_L; try apply Hz.
  - exists (a :: q). rewrite fmap_insert. split; [exact HT'|]. cbn. by rewrite Hq.
  - rewrite Hdom, (co_heap _ _ _ Hz). set_solver.
  - apply disjoint_union_r. split; [set_solver|apply Hz].
  - rewrite Hlive. set_solver.
  - intros b lb Hb. unfold lc_ok. rewrite node_refs_cons. destruct (Hlook b lb Hb) as [[-> ->]|[Hne Hb']].
    + cbn [lc_data lc_len lc_conn]. rewrite decide_True, (node_refs_fresh base z) by done. split_and!; try done; lia.
    + rewrite decide_False by done. by apply Hz.
  - intros b c lb lc Hb Hc E'. destruct (Hlook b lb Hb) as [[-> ->]|[Hne Hb']], (Hlook c lc Hc) as [[-> ->]|[Hne' Hc']]; try done.
    + by destruct (Hnew c lc Hc').
    + by destruct (Hnew b lb Hb').
    + by apply (co_keys _ _ _ Hz b c lb lc).
  - intros b k [[= -> ->]|Hin]%elem_of_cons.
    + rewrite lookup_insert_eq. by eexists.
    + destruct (co_held _ _ _ Hz b k Hin) as (lb & Hb & <-). rewrite lookup_insert_ne; [by exists lb|]. intros ->. congruence.
Qed.

(** The node of a key that nobody holds any more. *)
Lemma conn_free_ok base z held held' a lc lc' : ConnOk base z held -> cz_lc z !! a = Some lc ->
  node_refs held' a = 0%nat -> (forall b, b <> a -> node_refs held' b = node_refs held b) ->
  (forall p, p ∈ held' -> p ∈ held) ->
  exists rb, ngx_rbtree_delete (cz_sentinel z) a (cz_rb z) = Ret (tt, rb) /\
    ConnOk base (MkConnZone (cz_sentinel z) (MkRb (delete a (heap rb)) (root rb)) (delete a (<[a := lc']> (cz_lc z))) (slab_free (cz_pool z) a)) held'.
Proof.
  intros Hz Ha H0a Hother Hheld. destruct (co_tree _ _ _ Hz) as (q & HT & Hq).
  assert (Had : a ∈ dom (cz_lc z)) by (apply elem_of_dom; by exists lc).
  destruct (tree_remove _ _ _ _ a HT) as (rb & E & Hdom & HT').
  { apply (elem_of_list_to_set (C := gset Z)). by rewrite Hq. }
  exists rb. split; [exact E|]. rewrite delete_insert_eq. assert (Hab : a ∉ base) by (intros Hin; by apply (co_apart _ _ _ Hz a)).
  split; cbn [cz_sentinel cz_rb cz_lc cz_pool heap root]; rewrite ?dom_delete_L; try apply Hz.
  - exists (ngx_queue_remove a q). rewrite fmap_delete. split; [exact HT'|]. by rewrite queue_set, Hq.
  - rewrite Hdom, (co_heap _ _ _ Hz). assert (a <> cz_sentinel z) by (intros ->; by apply Hab, Hz). set_solver.
  - pose proof (co_apart _ _ _ Hz). set_solver.
  - rewrite slab_free_live, (co_live _ _ _ Hz) by (rewrite (co_live _ _ _ Hz); set_solver). set_solver.
  - intros b lb [Hne Hb]%lookup_delete_Some. destruct (co_recs _ _ _ Hz b lb Hb) as (? & ? & Hc & ?). split_and!; try done; [|lia..].
    by rewrite Hother.
  - intros b c lb lc0 [_ Hb]%lookup_delete_Some [_ Hc]%lookup_delete_Some. by apply Hz.
  - intros b k Hin. destruct (co_held _ _ _ Hz b k (Hheld _ Hin)) as (lb & Hb & <-). exists lb. split; [|done].
    apply lookup_delete_Some. split; [|done]. intros <-. unfold node_refs in H0a.
    assert (Hf : (a, lc_data lb) ∈ filter (fun p => p.1 = a) held') by (by apply list_elem_of_filter).
    destruct (filter (fun p => p.1 = a) held'); [by apply elem_of_nil in Hf|done].
Qed.

Lemma take_ok base z held data conn : ConnOk base z held -> key_ok data -> 1 <= conn <= 65535 ->
  exists t z', conn_take data conn z = Ret (t, z') /\
    match t with
    | Taken a => ConnOk base z' ((a, data) :: held) /\ Z.of_nat (key_refs held data) < conn
    | Full => z' = z /\ conn <= Z.of_nat (key_refs held data)
    | NoMemory => z' = z /\ key_refs held data = 0%nat
    end.
Proof.
  intros Hz Hd Hc. unfold conn_take. destruct (conn_lookup_ok base z held data Hz) as (r & -> & Hr). cbn [outcome_bind].
  destruct r as [a|].
  - destruct Hr as (lc & Ha & Hdata). rewrite Ha. pose proof (key_refs_node base z held a lc Hz Ha) as Hrefs. rewrite Hdata in Hrefs.
    destruct (co_recs _ _ _ Hz a lc Ha) as (_ & _ & Hconn & Hrange). destruct (lc_conn lc >=? conn) eqn:E; boolify.
    + eexists _, _. split; [done|]. split; [done|]. lia.
    + eexists _, _. split; [done|]. split; [|lia].
      assert (Hplus : wrapU 16 (lc_conn lc + 1) = Z.of_nat (node_refs ((a, data) :: held) a)).
      { rewrite wrapU_small, node_refs_cons, decide_True by (lia || done). lia. }
      apply (conn_count_ok base z held); [done|done|done|rewrite wrapU_small; lia| |].
      * intros b Hb. rewrite node_refs_cons, decide_False by done. done.
      * intros b k [->|Hin]%elem_of_cons; [right; by rewrite Hdata|by left].
  - pose proof (no_key_refs base z held data Hz Hr) as H0'.
    destruct (slab_alloc (cz_pool z) (limit_conn_node_size (Z.of_nat (length data)))) as [[a pool]|] eqn:Ea.
    + destruct (conn_new_ok base z held a pool data Hz Hd Hr Ea) as (rb & E & Hz'). rewrite E. cbn [outcome_bind snd].
      eexists _, _. split; [done|]. split; [exact Hz'|]. lia.
    + by eexists _, _.
Qed.

Lemma drop_ok base z held i a k : ConnOk base z held -> held !! i = Some (a, k) ->
  exists z', ngx_http_limit_conn_cleanup a z = Ret z' /\ ConnOk base z' (delete i held).
Proof.
  intros Hz Hi. unfold ngx_http_limit_conn_cleanup. pose proof (list_elem_of_lookup_2 _ _ _ Hi) as Hin.
  destruct (co_held _ _ _ Hz a k Hin) as (lc & Ha & _). rewrite Ha. destruct (co_recs _ _ _ Hz a lc Ha) as (_ & _ & Hconn & Hrange).
  pose proof (delete_Permutation held i (a, k) Hi) as Hp.
  assert (Hrefs : forall b, node_refs held b = ((if decide (a = b) then 1 else 0) + node_refs (delete i held) b)%nat).
  { intros b. rewrite (node_refs_perm _ _ b Hp). apply node_refs_cons. }
  assert (Hself := Hrefs a). rewrite decide_True in Hself by done.
  assert (Hother : forall b, b <> a -> node_refs (delete i held) b = node_refs held b).
  { intros b Hb. rewrite Hrefs, decide_False by congruence. done. }
  assert (Hsub : forall p, p ∈ delete i held -> p ∈ held) by (intros p Hp'; rewrite Hp; by right).
  rewrite wrapU_small by lia. destruct (lc_conn lc - 1 =? 0) eqn:E; boolify.
  - destruct (conn_free_ok base z held (delete i held) a lc (MkLc (lc_len lc) (lc_conn lc - 1) (lc_data lc)) Hz Ha ltac:(lia) Hother Hsub) as (rb & -> & Hz').
    cbn [outcome_bind snd]. by eexists.
  - eexists. split; [done|]. apply (conn_count_ok base z held); [done|done|lia|lia|done|]. intros b kb Hb. left. by apply Hsub.
Qed.

(** * The workers *)

(** What workers do with a zone: a request takes a reference for its key under a
    limit, or the reference [i] of those that are held is dropped. *)
Inductive conn_op := Take (key : list Z) (conn : Z) | Drop (i : nat).

Definition conn_op_ok (op : conn_op) : Prop := match op with Take key conn => key_ok key /\ 1 <= conn <= 65535 | Drop _ => True end.

(** The answers, the references that are held at the end with their keys, the
    last one first, and the zone. *)
Fixpoint conn_run (ops : list conn_op) (held : list (Z * list Z)) (z : conn_zone P) : outcome (list taken * list (Z * list Z) * conn_zone P) :=
  match ops with
  | [] => Ret ([], held, z)
  | Take key conn :: ops =>
    let! (t, z) := conn_take key conn z in
    let! (ts, held, z) := conn_run ops (match t with Taken a => (a, key) :: held | _ => held end) z in
    Ret (t :: ts, held, z)
  | Drop i :: ops =>
    match held !! i with
    | None => conn_run ops held z
    | Some (a, _) => let! z := ngx_http_limit_conn_cleanup a z in conn_run ops (delete i held) z
    end
  end.

(** The specification knows the keys of the references that are held, and no
    zone. *)
Definition key_count (keys : list (list Z)) (k : list Z) : Z := Z.of_nat (length (filter (fun x => x = k) keys)).

Fixpoint allowed (ops : list conn_op) (answers : list taken) (keys keys' : list (list Z)) : Prop :=
  match ops, answers with
  | [], [] => keys' = keys
  | Take k n :: ops, Taken _ :: ts => key_count keys k < n /\ allowed ops ts (k :: keys) keys'
  | Take k n :: ops, Full :: ts => n <= key_count keys k /\ allowed ops ts keys keys'
  | Take k n :: ops, NoMemory :: ts => key_count keys k = 0 /\ allowed ops ts keys keys'
  | Drop i :: ops, ts => allowed ops ts (delete i keys) keys'
  | _, _ => False
  end.

Lemma key_count_refs held k : key_count held.*2 k = Z.of_nat (key_refs held k).
Proof.
  unfold key_count, key_refs. induction held as [|[a k'] held IH]; [done|]. cbn [fmap list_fmap snd]. rewrite !filter_cons. cbn [snd].
  destruct (decide (k' = k)); cbn [length]; lia.
Qed.

Lemma delete_beyond {A} (l : list A) : forall i, (length l <= i)%nat -> delete i l = l.
Proof. induction l as [|x l IH]; intros [|i] Hi; cbn in *; try done; [lia|]. by rewrite IH by lia. Qed.

Lemma conn_run_ok base ops : Forall conn_op_ok ops -> forall held z, ConnOk base z held ->
  exists ts held' z', conn_run ops held z = Ret (ts, held', z') /\ ConnOk base z' held' /\ allowed ops ts held.*2 held'.*2.
Proof.
  induction 1 as [|op ops Hop Hops IH]; intros held z Hz; [by eexists _, _, _|]. destruct op as [k n|i]; cbn [conn_run allowed].
  - destruct Hop as [Hk Hn]. destruct (take_ok base z held k n Hz Hk Hn) as (t & z1 & -> & Ht). cbn [outcome_bind].
    destruct t as [a| |].
    + destruct Ht as [Hz1 Hc]. destruct (IH _ _ Hz1) as (ts & held' & z' & -> & Hz' & Ha). eexists _, _, _. split; [done|]. split; [done|].
      rewrite key_count_refs. done.
    + destruct Ht as [-> Hc]. destruct (IH _ _ Hz) as (ts & held' & z' & -> & Hz' & Ha). eexists _, _, _. split; [done|]. split; [done|].
      rewrite key_count_refs. done.
    + destruct Ht as [-> Hc]. destruct (IH _ _ Hz) as (ts & held' & z' & -> & Hz' & Ha). eexists _, _, _. split; [done|]. split; [done|].
      rewrite key_count_refs, Hc. done.
  - destruct (held !! i) as [[a k]|] eqn:Ei.
    + destruct (drop_ok base z held i a k Hz Ei) as (z1 & -> & Hz1). cbn [outcome_bind].
      destruct (IH _ _ Hz1) as (ts & held' & z' & E & Hz' & Ha). rewrite E. eexists _, _, _. split; [done|]. split; [done|].
      by rewrite list_fmap_delete in Ha.
    + destruct (IH _ _ Hz) as (ts & held' & z' & E & Hz' & Ha). rewrite E. eexists _, _, _. split; [done|]. split; [done|].
      rewrite delete_beyond; [done|]. rewrite length_fmap. by apply lookup_ge_None.
Qed.

Lemma key_count_cons k keys k' : key_count (k :: keys) k' = (if decide (k = k') then 1 else 0) + key_count keys k'.
Proof. unfold key_count. rewrite filter_cons. destruct (decide (k = k')); cbn [length]; lia. Qed.

Lemma key_count_perm keys keys' k : keys ≡ₚ keys' -> key_count keys k = key_count keys' k.
Proof. intros E. unfold key_count. by rewrite E. Qed.

Lemma key_count_delete i keys k : key_count (delete i keys) k <= key_count keys k.
Proof.
  destruct (keys !! i) as [k'|] eqn:E.
  - rewrite (key_count_perm _ _ k (delete_Permutation keys i k' E)), key_count_cons. destruct (decide (k' = k)); lia.
  - rewrite delete_beyond by (by apply lookup_ge_None). lia.
Qed.

(** Under limits of at most [n] a key has at most [n] references. *)
Lemma allowed_bound k n ops : (forall m, Take k m ∈ ops -> m <= n) -> forall ts keys keys', allowed ops ts keys keys' ->
  key_count keys k <= n -> key_count keys' k <= n.
Proof.
  induction ops as [|op ops IH]; intros Hn ts keys keys' Ha Hc; cbn [allowed] in Ha; [destruct ts; [by subst|done]|].
  assert (Hn' : forall m, Take k m ∈ ops -> m <= n) by (intros m Hm; apply Hn; by right).
  destruct op as [k' m|i].
  - destruct ts as [|[a| |] ts]; try done; destruct Ha as [Hk Ha]; apply (IH Hn' _ _ _ Ha); [|done|done].
    rewrite key_count_cons. destruct (decide (k' = k)) as [->|]; [|lia]. pose proof (Hn m ltac:(by left)). lia.
  - apply (IH Hn' _ _ _ Ha). pose proof (key_count_delete i keys k). lia.
Qed.

(** A new zone. *)
Lemma conn_init_zone_ok var name_len pool z : ngx_http_limit_conn_init_zone var name_len None None pool = Some z ->
  ConnOk (slab_live (cz_pool z)) z [].
Proof.
  unfold ngx_http_limit_conn_init_zone. intros E.
  destruct (slab_alloc pool 24) as [[t p1]|] eqn:E1; [|done]. destruct (slab_alloc p1 40) as [[s p2]|] eqn:E2; [|done].
  destruct (slab_alloc p2 (23 + name_len)) as [[l p3]|] eqn:E3; [|done]. injection E as <-.
  split; cbn [cz_sentinel cz_rb cz_lc cz_pool heap root]; try done.
  - exists []. split; [|by rewrite dom_empty_L]. exists (MkNode 0 0 0 0 false), Leaf. split_and!; try done.
    + split; cbn [heap root]; [by exists 0|done|constructor; [set_solver|constructor]|by rewrite lookup_singleton_eq].
    + by exists 0%nat; constructor.
    + constructor.
    + intros a k Hin. by apply elem_of_nil in Hin.
  - rewrite dom_singleton_L, dom_empty_L. set_solver.
  - destruct (slab_alloc_live _ _ _ _ E3) as [_ ->]. destruct (slab_alloc_live _ _ _ _ E2) as [_ ->]. set_solver.
  - rewrite dom_empty_L. set_solver.
  - intros a k Hin. by apply elem_of_nil in Hin.
Qed.

(** C17: the limit of connections.  In whatever order the workers take and drop
    references in a new zone, each under its lock, the code makes no undefined
    access and ends; a request gets a reference exactly when those of its key are
    fewer than the limit and, for a key without any, the pool has memory; the
    references of a key never exceed the largest of its limits; and when none
    is held the zone has given all its memory back. *)
Theorem conn_limit_kept var name_len pool z ops :
  ngx_http_limit_conn_init_zone var name_len None None pool = Some z -> Forall conn_op_ok ops ->
  exists ts held z', conn_run ops [] z = Ret (ts, held, z') /\ allowed ops ts [] held.*2 /\
    (forall k n, 0 <= n -> (forall m, Take k m ∈ ops -> m <= n) -> key_count held.*2 k <= n) /\
    (held = [] -> slab_live (cz_pool z') = slab_live (cz_pool z)).
Proof.
  intros Hz%conn_init_zone_ok Hops. destruct (conn_run_ok _ ops Hops [] z Hz) as (ts & held & z' & E & Hz' & Ha).
  exists ts, held, z'. split_and!; [done|done| |].
  - intros k n Hn Hm. by apply (allowed_bound k n ops Hm ts [] held.*2 Ha).
  - intros ->. assert (Hnone : dom (cz_lc z') = ∅).
    { apply set_eq. intros a. rewrite elem_of_dom. split; [|by intros ?%elem_of_empty]. intros [lc Hlc].
      destruct (co_recs _ _ _ Hz' a lc Hlc) as (_ & _ & Hc & Hr). cbn in Hc. lia. }
    rewrite (co_live _ _ _ Hz'), Hnone. set_solver.
Qed.

End Zone.

End LimitConnZone.
