(* ===== verification/NgxLimitConnHandler.v ===== *)
(** The handler of the connection limits: a request takes a reference in all the
    zones of its limits or in none, and gives them back at its end. *)

From S2P Require Import Prelude NgxRbtree NgxLimitReq NgxLimitReqLru NgxLimitConn NgxLimitConnZone.

#[local] Open Scope Z_scope.

Module LimitConnHandler.

Import LimitReq LimitReqLru LimitConn LimitConnZone.

Section Handler.
Context {P : Type} `{SlabLaws P}.

(** The zones with what the requests hold in them. *)
Definition ZonesOk (bases : list (gset Z)) (zones : list (conn_zone P)) (helds : list (list (Z * list Z))) : Prop :=
  length zones = length bases /\ length helds = length bases /\
  forall i b z h, bases !! i = Some b -> zones !! i = Some z -> helds !! i = Some h -> ConnOk b z h.

(** References of a request: the zone, the node and the key, the last one first. *)
Abbreviation refs := (list (nat * (Z * list Z))).

Definition push_ref (r : nat * (Z * list Z)) (helds : list (list (Z * list Z))) : list (list (Z * list Z)) := alter (cons r.2) r.1 helds.
Definition push_refs (rs : refs) (helds : list (list (Z * list Z))) : list (list (Z * list Z)) := foldr push_ref helds rs.
Definition cleanups (rs : refs) : list (option (nat * Z)) := map (fun r => Some (r.1, r.2.1)) rs.

Lemma zones_set bases zones helds i b z z' h h' : ZonesOk bases zones helds -> bases !! i = Some b -> zones !! i = Some z ->
  helds !! i = Some h -> ConnOk b z' h' -> ZonesOk bases (<[i := z']> zones) (<[i := h']> helds).
Proof.
  intros (Hz & Hh & Hok) Hb Hzi Hhi Hok'. split; [by rewrite length_insert|]. split; [by rewrite length_insert|].
  intros j bj zj hj Hbj. destruct (decide (i = j)) as [<-|Hne].
  - rewrite !list_lookup_insert_eq by (apply lookup_lt_is_Some; eauto). intros [= <-] [= <-]. congruence.
  - rewrite !list_lookup_insert_ne by done. by apply Hok.
Qed.

Lemma zones_lookup bases zones helds i : ZonesOk bases zones helds -> (i < length bases)%nat ->
  exists b z h, bases !! i = Some b /\ zones !! i = Some z /\ helds !! i = Some h /\ ConnOk b z h.
Proof.
  intros (Hz & Hh & Hok) Hi. destruct (lookup_lt_is_Some_2 bases i Hi) as [b Hb].
  destruct (lookup_lt_is_Some_2 zones i ltac:(lia)) as [z Hzi]. destruct (lookup_lt_is_Some_2 helds i ltac:(lia)) as [h Hhi].
  exists b, z, h. split_and!; try done. by apply (Hok i).
Qed.

Lemma push_ref_lookup i p helds h : helds !! i = Some h -> push_ref (i, p) helds = <[i := p :: h]> helds.
Proof.
  intros Hi. unfold push_ref. cbn [fst snd]. apply list_eq. intros j. destruct (decide (i = j)) as [<-|Hne].
  - rewrite list_lookup_alter_eq, Hi, list_lookup_insert_eq; [done|]. by apply lookup_lt_Some in Hi.
  - by rewrite list_lookup_alter_ne, list_lookup_insert_ne.
Qed.

(** A cleanup undoes the last reference. *)
Lemma cleanup_ref bases zones helds r : ZonesOk bases zones (push_ref r helds) -> length helds = length bases -> (r.1 < length bases)%nat ->
  exists zones', cleanup_in r.1 r.2.1 zones = Ret zones' /\ ZonesOk bases zones' helds.
Proof.
  destruct r as [i [a k]]. cbn [fst snd]. intros Hok Hl Hi. destruct (lookup_lt_is_Some_2 helds i ltac:(lia)) as [h Hh].
  rewrite (push_ref_lookup i (a, k) helds h Hh) in Hok. destruct (zones_lookup _ _ _ i Hok Hi) as (b & z & h' & Hb & Hz & Hh' & Hc).
  rewrite list_lookup_insert_eq in Hh' by lia. injection Hh' as <-. unfold cleanup_in. rewrite Hz.
  destruct (drop_ok b z ((a, k) :: h) 0 a k Hc eq_refl) as (z' & -> & Hz'). cbn [outcome_bind]. eexists. split; [done|].
  assert (Hlt : (i < length helds)%nat) by lia.
  pose proof (zones_set _ _ _ i b z z' ((a, k) :: h) h Hok Hb Hz (list_lookup_insert_eq helds i _ Hlt) Hz') as H'.
  rewrite list_insert_insert_eq, (list_insert_id helds) in H' by done. done.
Qed.

Lemma length_push_refs rs helds : length (push_refs rs helds) = length helds.
Proof. induction rs as [|r rs IH]; [done|]. cbn. unfold push_ref. by rewrite length_alter. Qed.

Definition others_first (cln : list (option (nat * Z))) : Prop := match cln with Some _ :: _ => False | _ => True end.

Lemma cleanup_all_ok bases rs : forall zones helds rest, ZonesOk bases zones (push_refs rs helds) -> length helds = length bases ->
  Forall (fun r => (r.1 < length bases)%nat) rs -> others_first rest ->
  exists zones', ngx_http_limit_conn_cleanup_all (cleanups rs ++ rest) zones = Ret (rest, zones') /\ ZonesOk bases zones' helds.
Proof.
  induction rs as [|r rs IH]; intros zones helds rest Hok Hl Hrs Hrest; cbn [cleanups map app].
  - exists zones. by destruct rest as [|[]].
  - apply Forall_cons in Hrs as [Hr Hrs]. cbn [ngx_http_limit_conn_cleanup_all push_refs foldr] in *.
    destruct (cleanup_ref bases zones (push_refs rs helds) r Hok) as (z1 & E & Hok1); [by rewrite length_push_refs|done|].
    rewrite E. cbn [outcome_bind]. by apply IH.
Qed.

Lemma run_cleanups_ok bases rs : forall zones helds, ZonesOk bases zones (push_refs rs helds) -> length helds = length bases ->
  Forall (fun r => (r.1 < length bases)%nat) rs -> exists zones', run_cleanups (cleanups rs) zones = Ret zones' /\ ZonesOk bases zones' helds.
Proof.
  induction rs as [|r rs IH]; intros zones helds Hok Hl Hrs; cbn [cleanups map]; [by exists zones|].
  apply Forall_cons in Hrs as [Hr Hrs]. cbn [run_cleanups push_refs foldr] in *.
  destruct (cleanup_ref bases zones (push_refs rs helds) r Hok) as (z1 & E & Hok1); [by rewrite length_push_refs|done|].
  rewrite E. cbn [outcome_bind]. by apply IH.
Qed.

(** The limits that apply: those whose variable has a value of 1 to 255 bytes. *)
Definition applies (var : nat -> option (list Z)) (l : ngx_http_limit_conn_limit_t) : option (nat * list Z * Z) :=
  match var (l_shm_zone l) with
  | Some k => if bool_decide (key_ok k) then Some (l_shm_zone l, k, l_conn l) else None
  | None => None
  end.

Definition limit_ok (n : nat) (l : ngx_http_limit_conn_limit_t) : Prop := (l_shm_zone l < n)%nat /\ 1 <= l_conn l <= 65535.

(** References for limits that have room, one after the other. *)
Fixpoint fits (ls : list (nat * list Z * Z)) (helds : list (list (Z * list Z))) (rs : refs) : Prop :=
  match ls, rs with
  | [], [] => True
  | (i, k, n) :: ls, r :: rs =>
    r.1 = i /\ r.2.2 = k /\ (exists h, helds !! i = Some h /\ Z.of_nat (key_refs h k) < n) /\ fits ls (push_ref r helds) rs
  | _, _ => False
  end.

Lemma conn_loop_ok bases var limits : Forall (limit_ok (length bases)) limits -> forall zones helds rs set rest,
  ZonesOk bases zones (push_refs rs helds) -> length helds = length bases -> Forall (fun r => (r.1 < length bases)%nat) rs -> others_first rest ->
  exists rc r' zones', conn_loop var limits (MkConnReq set (cleanups rs ++ rest)) zones = Ret (rc, r', zones') /\
    ((rc = NGX_DECLINED /\ exists new, fits (omap (applies var) limits) (push_refs rs helds) new /\
        cleanup r' = cleanups (rev new ++ rs) ++ rest /\ ZonesOk bases zones' (push_refs (rev new ++ rs) helds) /\
        Forall (fun r => (r.1 < length bases)%nat) (rev new ++ rs)) \/
     (rc = NGX_HTTP_SERVICE_UNAVAILABLE /\ cleanup r' = rest /\ ZonesOk bases zones' helds)).
Proof.
  induction 1 as [|l limits Hlim Hlims IH]; intros zones helds rs set rest Hok Hl Hrs Hrest; cbn [conn_loop omap list_omap].
  { eexists _, _, _. split; [done|]. left. split; [done|]. by exists []. }
  unfold applies at 1. destruct (var (l_shm_zone l)) as [k|]; [|by apply IH].
  destruct ((Z.of_nat (length k) =? 0) || (Z.of_nat (length k) >? 255)) eqn:Ek.
  { rewrite bool_decide_eq_false_2 by (unfold key_ok; boolify; lia). by apply IH. }
  assert (Hk : key_ok k) by (unfold key_ok; boolify; lia). rewrite bool_decide_eq_true_2 by done.
  destruct Hlim as [Hi Hn]. destruct (zones_lookup _ _ _ _ Hok Hi) as (b & z & h & Hb & Hz & Hh & Hc). rewrite Hz.
  destruct (take_ok b z h k (l_conn l) Hc Hk Hn) as (t & z' & -> & Ht). cbn [outcome_bind].
  destruct t as [a| |].
  - destruct Ht as [Hz' Hroom]. set (r := (l_shm_zone l, (a, k))).
    assert (Hok' : ZonesOk bases (<[l_shm_zone l := z']> zones) (push_refs (r :: rs) helds)).
    { change (push_refs (r :: rs) helds) with (push_ref r (push_refs rs helds)). unfold r.
      rewrite (push_ref_lookup _ _ _ h Hh). by apply (zones_set _ _ _ _ b z z' h). }
    destruct (IH _ helds (r :: rs) true rest Hok' Hl) as (rc & r' & zones' & E & Hres); [by constructor|done|].
    cbn [cleanup]. change (Some (l_shm_zone l, a) :: cleanups rs ++ rest) with (cleanups (r :: rs) ++ rest).
    rewrite E. eexists _, _, _. split; [done|]. destruct Hres as [(-> & new & Hf & Hcl & Hz1 & Hall)|Href]; [|by right].
    left. split; [done|]. exists (r :: new). cbn [rev]. rewrite <- !app_assoc. cbn [app]. split; [|done].
    cbn [fits]. split; [done|]. split; [done|]. split; [by exists h|]. done.
  - destruct Ht as [-> _]. rewrite list_insert_id by done. unfold conn_refuse. cbn [cleanup].
    destruct (cleanup_all_ok bases rs zones helds rest Hok Hl Hrs Hrest) as (z1 & -> & Hz1). cbn [outcome_bind].
    eexists _, _, _. split; [done|]. by right.
  - destruct Ht as [-> _]. rewrite list_insert_id by done. unfold conn_refuse. cbn [cleanup].
    destruct (cleanup_all_ok bases rs zones helds rest Hok Hl Hrs Hrest) as (z1 & -> & Hz1). cbn [outcome_bind].
    eexists _, _, _. split; [done|]. by right.
Qed.

(** C18: a request and its connection limits.  The handler passes a request with
    a reference in every zone whose limit applies to it, each of which had room,
    and the end of the request gives them back; a request that it refuses holds
    no reference, and those of the other requests are as before. *)
Theorem conn_handler_all_or_none bases var limits zones helds others :
  ZonesOk bases zones helds -> Forall (limit_ok (length bases)) limits -> others_first others ->
  exists rc r' zones', ngx_http_limit_conn_handler var limits (MkConnReq false others) zones = Ret (rc, r', zones') /\
    ((rc = NGX_DECLINED /\ exists new, fits (omap (applies var) limits) helds new /\
        cleanup r' = cleanups (rev new) ++ others /\ ZonesOk bases zones' (push_refs (rev new) helds) /\
        exists zones'', run_cleanups (cleanups (rev new)) zones' = Ret zones'' /\ ZonesOk bases zones'' helds) \/
     (rc = NGX_HTTP_SERVICE_UNAVAILABLE /\ cleanup r' = others /\ ZonesOk bases zones' helds)).
Proof.
  intros Hok Hl Ho. pose proof Hok as (_ & Hlen & _).
  destruct (conn_loop_ok bases var limits Hl zones helds [] false others Hok Hlen (Forall_nil_2 _) Ho) as (rc & r' & zones' & E & Hres).
  exists rc, r', zones'. split; [exact E|]. destruct Hres as [(-> & new & Hf & Hcl & Hz & Hall)|Href]; [|by right].
  left. split; [done|]. exists new. rewrite app_nil_r in *. split_and!; try done. by apply run_cleanups_ok.
Qed.

End Handler.

(** * Zones *)

Definition conn_zone0 : conn_zone SetPool :=
  match ngx_http_limit_conn_init_zone [118] 4 None None (∅ : SetPool) with
  | Some z => z
  | None => MkConnZone 0 (MkRb ∅ 0) ∅ ∅
  end.

Lemma conn_zone0_new : ngx_http_limit_conn_init_zone [118] 4 None None (∅ : SetPool) = Some conn_zone0.
Proof. vm_compute. reflexivity. Qed.

Definition conn_ops0 : list conn_op := [Take [97] 2; Take [98] 1; Take [97] 2; Take [97] 2; Drop 0; Take [97] 2; Drop 2; Drop 1; Drop 0].

Lemma conn_ops0_ok : Forall conn_op_ok conn_ops0.
Proof. repeat constructor; unfold key_ok; cbn; lia. Qed.

Lemma conn_ops0_limit m : Take [97] m ∈ conn_ops0 -> m <= 2.
Proof. unfold conn_ops0. rewrite !elem_of_cons, elem_of_nil. intros Hin. destruct_or! Hin; simplify_eq; lia. Qed.

Lemma conn_limit_kept_witness :
  exists ts held z', conn_run conn_ops0 [] conn_zone0 = Ret (ts, held, z') /\ allowed conn_ops0 ts [] held.*2 /\
    key_count held.*2 [97] <= 2 /\ (held = [] -> slab_live (cz_pool z') = slab_live (cz_pool conn_zone0)).
Proof.
  destruct (conn_limit_kept [118] 4 (∅ : SetPool) conn_zone0 conn_ops0 conn_zone0_new conn_ops0_ok) as (ts & held & z' & E & Ha & Hc & Hm).
  exists ts, held, z'. split; [exact E|]. split; [exact Ha|]. split; [|exact Hm]. apply Hc; [lia|exact conn_ops0_limit].
Defined.

(** The third request of the key is refused; at the end nothing is held. *)
Example conn_ops0_answers :
  (let! (ts, held, z) := conn_run conn_ops0 [] conn_zone0 in
   Ret (map (fun t => match t with Taken _ => true | _ => false end) ts, length held, size (cz_lc z))) =
  Ret ([true; true; true; false; true], 0%nat, 0%nat).
Proof. vm_compute. reflexivity. Qed.

Definition bases0 : list (gset Z) := [slab_live (cz_pool conn_zone0); slab_live (cz_pool conn_zone0)].

Lemma zones0_ok : ZonesOk bases0 [conn_zone0; conn_zone0] [[]; []].
Proof.
  split; [done|]. split; [done|]. intros [|[|i]] b z h Hb Hz Hh; cbn in *; simplify_eq; by apply (conn_init_zone_ok [118] 4 ∅ _ conn_zone0_new).
Qed.

Definition conn_limits0 : list ngx_http_limit_conn_limit_t := [MkConnLimit 0 10; MkConnLimit 1 1].

(** The address of the client and the name of the server. *)
Definition conn_vars (client : list Z) (i : nat) : option (list Z) := match i with O => Some client | _ => Some $"host" end.

Lemma conn_handler_all_or_none_witness :
  exists rc r' zones', ngx_http_limit_conn_handler (conn_vars [97]) conn_limits0 (MkConnReq false []) [conn_zone0; conn_zone0] = Ret (rc, r', zones') /\
    (rc = NGX_DECLINED \/ cleanup r' = []).
Proof.
  destruct (conn_handler_all_or_none bases0 (conn_vars [97]) conn_limits0 [conn_zone0; conn_zone0] [[]; []] [] zones0_ok) as (rc & r' & zones' & E & Hr).
  - repeat constructor; cbn; lia.
  - exact I.
  - exists rc, r', zones'. split; [exact E|]. destruct Hr as [[-> _]|(_ & -> & _)]; [by left|by right].
Defined.

(** The second client is refused by the limit of the server, and its reference
    in the first zone is gone; when the first client is done the second passes. *)
Example second_client :
  (let! (rc1, r1, zs) := ngx_http_limit_conn_handler (conn_vars [97]) conn_limits0 (MkConnReq false []) [conn_zone0; conn_zone0] in
   let! (rc2, r2, zs) := ngx_http_limit_conn_handler (conn_vars [98]) conn_limits0 (MkConnReq false []) zs in
   let sizes2 := map (fun z => size (cz_lc z)) zs in
   let! zs := run_cleanups (cleanup r1) zs in
   let! (rc3, _, _) := ngx_http_limit_conn_handler (conn_vars [98]) conn_limits0 (MkConnReq false []) zs in
   Ret (rc1, rc2, cleanup r2, sizes2, rc3)) =
  Ret (NGX_DECLINED, NGX_HTTP_SERVICE_UNAVAILABLE, [], [1%nat; 1%nat], NGX_DECLINED).
Proof. vm_compute. reflexivity. Qed.

End LimitConnHandler.
