(* ===== verification/NgxHash.v ===== *)
(** The static hashes of src/core/ngx_hash.c and ngx_hash.h: exact names, and
    the wildcard names of servers.

    The element of a bucket is a value, the length of a name and the name, one
    after another in the bucket's part of one block; the sizes of the parts
    are computed in u_short arithmetic, as the code does, and a write past the
    end of a part is [Undefined].  The values are pointers that are not NULL;
    the two low bits that the wildcard hashes set in them are the constructors
    of [wval].  Allocations succeed. *)

From S2P Require Import Prelude NgxRequestLine NgxHeaderLine NgxHttpRequest NgxLocation.

Module Hash.

(** * Data *)

Record ngx_hash_key_t (V : Type) := MkKey {
  hk_data : list Z; hk_null : bool; hk_hash : Z; hk_value : V }.
Arguments MkKey {V} _ _ _ _.
Arguments hk_data {V} _.
Arguments hk_null {V} _.
Arguments hk_hash {V} _.
Arguments hk_value {V} _.

(** A bucket is NULL or its elements. *)
Record ngx_hash_t (V : Type) := MkHash { h_buckets : list (option (list (list Z * V))); h_size : Z }.
Arguments MkHash {V} _ _.
Arguments h_buckets {V} _.
Arguments h_size {V} _.

Record ngx_hash_init_t := MkInit { max_size : Z; bucket_size : Z }.

(** * Hash functions *)

Definition ngx_hash_key (data : list Z) : Z := fold_left ngx_hash data 0.

Definition ngx_hash_key_lc (data : list Z) : Z := fold_left (fun key c => ngx_hash key (ngx_tolower c)) data 0.

(** The string in lower case and its hash. *)
Definition ngx_hash_strlow (src : list Z) : list Z * Z :=
  let dst := ngx_strlow src in (dst, fold_left ngx_hash dst 0).

(** * Exact names *)

Definition ngx_align (d a : Z) : Z := Z.land (d + (a - 1)) (Z.lnot (a - 1)).

Definition NGX_HASH_ELT_SIZE (len : Z) : Z := 8 + ngx_align (len + 2) 8.

Fixpoint bucket_find {V} (elts : list (list Z * V)) (name : list Z) : option V :=
  match elts with
  | [] => None
  | (n, v) :: elts => if decide (n = name) then Some v else bucket_find elts name
  end.

Definition ngx_hash_find {V} (h : ngx_hash_t V) (key : Z) (name : list Z) : outcome (option V) :=
  if h_size h =? 0 then Undefined
  else match h_buckets h !! Z.to_nat (key mod h_size h) with
       | None => Undefined
       | Some None => Ret None
       | Some (Some elts) => Ret (bucket_find elts name)
       end.

Section Init.
Context (ngx_cacheline_size : Z) {V : Type}.

Definition elt_size (n : ngx_hash_key_t V) : Z := NGX_HASH_ELT_SIZE (Z.of_nat (length (hk_data n))).

(** test[key] after a name, in u_short. *)
Definition test_add (size : Z) (test : list Z) (n : ngx_hash_key_t V) : Z :=
  wrapU 16 (nth (Z.to_nat (hk_hash n mod size)) test 0 + elt_size n).

Definition test_set (size : Z) (test : list Z) (n : ngx_hash_key_t V) : list Z :=
  <[Z.to_nat (hk_hash n mod size) := test_add size test n]> test.

(** Whether the names fit into [size] buckets. *)
Fixpoint size_fits (size bucket_size : Z) (test : list Z) (names : list (ngx_hash_key_t V)) : bool :=
  match names with
  | [] => true
  | n :: names =>
    if hk_null n then size_fits size bucket_size test names
    else if test_add size test n >? wrapU 16 bucket_size then false
    else size_fits size bucket_size (test_set size test n) names
  end.

Fixpoint find_size (fuel : nat) (size bucket_size : Z) (names : list (ngx_hash_key_t V)) : option Z :=
  match fuel with
  | O => None
  | S fuel =>
    if size_fits size bucket_size (replicate (Z.to_nat size) 0) names then Some size
    else find_size fuel (size + 1) bucket_size names
  end.

Fixpoint count_elts (size : Z) (test : list Z) (names : list (ngx_hash_key_t V)) : list Z :=
  match names with
  | [] => test
  | n :: names =>
    if hk_null n then count_elts size test names else count_elts size (test_set size test n) names
  end.

(** The part of the block for a bucket, [None] for the bucket NULL. *)
Definition region (t : Z) : option Z :=
  if t =? 8 then None else Some (wrapU 16 (ngx_align t ngx_cacheline_size)).

(** The elements of a bucket and the offset of the next one. *)
Definition cell : Type := Z * list (list Z * V).

Fixpoint fill (size : Z) (regions : list (option Z)) (cells : list cell) (names : list (ngx_hash_key_t V))
    : outcome (list cell) :=
  match names with
  | [] => Ret cells
  | n :: names =>
    if hk_null n then fill size regions cells names
    else
      let key := Z.to_nat (hk_hash n mod size) in
      match regions !! key, cells !! key with
      | Some (Some r), Some (off, elts) =>
        if off + 10 + Z.of_nat (length (hk_data n)) <=? r then
          fill size regions
            (<[key := (wrapU 16 (off + elt_size n), elts ++ [(ngx_strlow (hk_data n), hk_value n)])]> cells) names
        else Undefined
      | _, _ => Undefined
      end
  end.

(** The NULL at the end of each bucket. *)
Fixpoint finish_buckets (regions : list (option Z)) (cells : list cell) : outcome (list (option (list (list Z * V)))) :=
  match regions, cells with
  | None :: regions, _ :: cells => let! l := finish_buckets regions cells in Ret (None :: l)
  | Some r :: regions, (off, elts) :: cells =>
    if off + 8 <=? r then let! l := finish_buckets regions cells in Ret (Some elts :: l) else Undefined
  | _, _ => Ret []
  end.

(** The first size to try; a bucket size below 24 divides by zero. *)
Definition start_size (max_size bucket_size nelts : Z) : Z :=
  let start := nelts / (bucket_size / 16) in
  let start := if start =? 0 then 1 else start in
  if (max_size >? 10000) && negb (nelts =? 0) && (max_size / nelts <? 100) then max_size - 1000 else start.

(** [Ret None] is NGX_ERROR. *)
Definition ngx_hash_init (hinit : ngx_hash_init_t) (names : list (ngx_hash_key_t V))
    : outcome (option (ngx_hash_t V)) :=
  if existsb (fun n => bucket_size hinit <? elt_size n + 8) names then Ret None
  else
    let bsize := wrapU 64 (bucket_size hinit - 8) in
    if bsize / 16 =? 0 then Undefined
    else
      let start := start_size (max_size hinit) bsize (Z.of_nat (length names)) in
      match find_size (Z.to_nat (max_size hinit - start)) start bsize names with
      | None => Ret None
      | Some size =>
        let test := count_elts size (replicate (Z.to_nat size) 8) names in
        let regions := map region test in
        let! cells := fill size regions (replicate (Z.to_nat size) (0, [])) names in
        let! buckets := finish_buckets regions cells in
        Ret (Some (MkHash buckets size))
      end.

End Init.

(** * Wildcard names *)

(** A wildcard hash and its value, and the values of its elements: the low bits
    00, 01, 10 and 11. *)
Inductive wild (V : Type) :=
| MkWild (h : ngx_hash_t (wval V)) (value : option V)
with wval (V : Type) :=
| Data (v : V) | DataOnly (v : V) | Sub (w : wild V) | SubOnly (w : wild V).
Arguments MkWild {V} _ _.
Arguments Data {V} _.
Arguments DataOnly {V} _.
Arguments Sub {V} _.
Arguments SubOnly {V} _.

Definition w_value {V} (w : wild V) : option V := match w with MkWild _ v => v end.
Definition w_hash {V} (w : wild V) : ngx_hash_t (wval V) := match w with MkWild h _ => h end.

(** The bytes before the first dot. *)
Fixpoint label_len (s : list Z) : nat :=
  match s with [] => O | c :: s => if c =? "."%c then O else S (label_len s) end.

(** The value of a wildcard hash for names that have no longer one. *)
Definition or_value {V} (w : wild V) (r : outcome (option V)) : outcome (option V) :=
  let! v := r in Ret (match v with Some v => Some v | None => w_value w end).

Fixpoint ngx_hash_find_wc_head {V} (fuel : nat) (hwc : wild V) (name : list Z) : outcome (option V) :=
  match fuel with
  | O => NoFuel
  | S fuel =>
    let n := (length name - label_len (List.rev name))%nat in
    let label := drop n name in
    let! value := ngx_hash_find (w_hash hwc) (fold_left ngx_hash label 0) label in
    match value with
    | None => Ret (w_value hwc)
    | Some (Sub w) =>
      if (n =? 0)%nat then Ret (w_value w)
      else or_value w (ngx_hash_find_wc_head fuel w (take (n - 1) name))
    | Some (SubOnly w) =>
      if (n =? 0)%nat then Ret None
      else or_value w (ngx_hash_find_wc_head fuel w (take (n - 1) name))
    | Some (DataOnly v) => if (n =? 0)%nat then Ret None else Ret (Some v)
    | Some (Data v) => Ret (Some v)
    end
  end.

(** A value with the low bits 01 would be returned as it is. *)
Fixpoint ngx_hash_find_wc_tail {V} (fuel : nat) (hwc : wild V) (name : list Z) : outcome (option V) :=
  match fuel with
  | O => NoFuel
  | S fuel =>
    let i := label_len name in
    if (i =? length name)%nat then Ret None
    else
      let label := take i name in
      let! value := ngx_hash_find (w_hash hwc) (fold_left ngx_hash label 0) label in
      match value with
      | None => Ret (w_value hwc)
      | Some (Sub w) | Some (SubOnly w) => or_value w (ngx_hash_find_wc_tail fuel w (drop (i + 1) name))
      | Some (DataOnly v) => Undefined
      | Some (Data v) => Ret (Some v)
      end
  end.

Record ngx_hash_combined_t (V : Type) := MkCombined {
  hc_hash : option (ngx_hash_t V); hc_head : option (wild V); hc_tail : option (wild V) }.
Arguments MkCombined {V} _ _ _.
Arguments hc_hash {V} _.
Arguments hc_head {V} _.
Arguments hc_tail {V} _.

(** The first value found. *)
Definition or_else {A} (r : outcome (option A)) (k : outcome (option A)) : outcome (option A) :=
  let! v := r in match v with Some v => Ret (Some v) | None => k end.

Definition find_in {A B} (o : option A) (f : A -> outcome (option B)) : outcome (option B) :=
  match o with Some a => f a | None => Ret None end.

Definition ngx_hash_find_combined {V} (h : ngx_hash_combined_t V) (key : Z) (name : list Z)
    : outcome (option V) :=
  let fuel := S (length name) in
  or_else (find_in (hc_hash h) (fun h => ngx_hash_find h key name))
    (if (length name =? 0)%nat then Ret None
     else or_else (find_in (hc_head h) (fun w => ngx_hash_find_wc_head fuel w name))
            (find_in (hc_tail h) (fun w => ngx_hash_find_wc_tail fuel w name))).

Section Wildcard.
Context (ngx_cacheline_size : Z) (hinit : ngx_hash_init_t) {V : Type}.

(** The names after [key] that go with it: their first label is its first one. *)
Fixpoint group_of (key : list Z) (len : nat) (dot : bool) (names : list (list Z * V))
    : list (list Z * V) * list (list Z * V) :=
  match names with
  | [] => ([], [])
  | (k, v) :: names' =>
    if negb (ngx_strncmp key k len =? 0) then ([], names)
    else if negb dot && (len <? length k)%nat && negb (nth len k 0 =? "."%c) then ([], names)
    else let '(g, rest) := group_of key len dot names' in ((k, v) :: g, rest)
  end.

(** The loop over the names; [rec] builds the hash of the next labels. *)
Fixpoint wildcard_loop (rec : list (list Z * V) -> outcome (option (wild V))) (fuel : nat)
    (names : list (list Z * V)) : outcome (option (list (ngx_hash_key_t (wval V)))) :=
  match names with
  | [] => Ret (Some [])
  | (key, v) :: names =>
    match fuel with
    | O => NoFuel
    | S fuel =>
      let label := take (label_len key) key in
      let dot := (label_len key <? length key)%nat in
      let dot_len := S (label_len key) in
      let len := if dot then dot_len else label_len key in
      let own := if (length key =? len)%nat then [] else [(drop len key, v)] in
      let '(group, names) := group_of key len dot names in
      if existsb (fun n => (length n.1 <? dot_len)%nat) group then Undefined
      else
        let next := own ++ map (fun n => (drop dot_len n.1, n.2)) group in
        let! value :=
          match next with
          | [] => Ret (Some (if dot then DataOnly v else Data v))
          | _ =>
            let! w := rec next in
            match w with
            | None => Ret None
            | Some (MkWild h value) =>
              let w := MkWild h (if (length key =? len)%nat then Some v else value) in
              Ret (Some (if dot then SubOnly w else Sub w))
            end
          end in
        match value with
        | None => Ret None
        | Some value =>
          let! r := wildcard_loop rec fuel names in
          Ret (option_map (cons (MkKey label false (ngx_hash_key_lc label) value)) r)
        end
    end
  end.

Fixpoint ngx_hash_wildcard_init (fuel : nat) (names : list (list Z * V)) : outcome (option (wild V)) :=
  match fuel with
  | O => NoFuel
  | S fuel =>
    let! curr := wildcard_loop (ngx_hash_wildcard_init fuel) (length names) names in
    match curr with
    | None => Ret None
    | Some curr =>
      let! h := ngx_hash_init ngx_cacheline_size hinit curr in
      Ret (option_map (fun h => MkWild h None) h)
    end
  end.

End Wildcard.

(** ngx_dns_strcmp of src/core/ngx_string.c, on strings that end with NUL: the
    dot is the lowest character. *)
Definition dns_char (c : Z) : Z := if c =? "."%c then " "%c else c.

Fixpoint ngx_dns_strcmp (s1 s2 : list Z) : Z :=
  match s1 with
  | [] => 0 - dns_char (ngx_tolower (hd 0 s2))
  | c1 :: s1 =>
    let c1 := ngx_tolower c1 in
    let c2 := ngx_tolower (hd 0 s2) in
    if c1 =? c2 then (if c1 =? 0 then 0 else ngx_dns_strcmp s1 (tl s2)) else dns_char c1 - dns_char c2
  end.

(** * Collecting the names *)

(** ngx_hash_keys_arrays_t: the names and, for each kind, the names seen so far
    in the buckets of a table with hsize ones. *)
Record ngx_hash_keys_arrays_t (V : Type) := MkArrays {
  hsize : Z;
  ha_keys : list (ngx_hash_key_t V); keys_hash : gmap Z (list (list Z));
  dns_wc_head : list (list Z * V); dns_wc_head_hash : gmap Z (list (list Z));
  dns_wc_tail : list (list Z * V); dns_wc_tail_hash : gmap Z (list (list Z)) }.
Arguments MkArrays {V} _ _ _ _ _ _ _.
Arguments hsize {V} _.
Arguments ha_keys {V} _.
Arguments keys_hash {V} _.
Arguments dns_wc_head {V} _.
Arguments dns_wc_head_hash {V} _.
Arguments dns_wc_tail {V} _.
Arguments dns_wc_tail_hash {V} _.

Definition ngx_hash_keys_array_init (V : Type) (large : bool) : ngx_hash_keys_arrays_t V :=
  MkArrays (if large then 10007 else 107) [] ∅ [] ∅ [] ∅.

Definition HASH_BUSY : Z := -3.

(** A name that is in the table is a conflict; others are added. *)
Definition table_add (table : gmap Z (list (list Z))) (k : Z) (name : list Z) : option (gmap Z (list (list Z))) :=
  let names := default [] (table !! k) in
  if existsb (fun n => (length n =? length name)%nat && (ngx_strncmp name n (length name) =? 0)) names then None
  else Some (<[k := names ++ [name]]> table).

(** The checks of a wildcard key: at most one '*' and no "..". *)
Fixpoint wildcard_check (key : list Z) (stars : Z) : option Z :=
  match key with
  | [] => Some stars
  | c :: key =>
    let stars := if c =? "*"%c then stars + 1 else stars in
    if stars >? 1 then None
    else if (c =? "."%c) && (hd 0 key =? "."%c) then None
    else wildcard_check key stars
  end.

(** "*.example.com" to "com.example." and ".example.com" to "com.example":
    the loop over the bytes from the last one; [len] bytes at the head of
    [done] were passed since the last dot. *)
Fixpoint reverse_labels (key : list Z) (word : list Z) (p : list Z) : list Z :=
  match key with
  | [] => p ++ word
  | c :: key =>
    if c =? "."%c then reverse_labels key [] (p ++ word ++ ["."%c]) else reverse_labels key (c :: word) p
  end.

(** What the beginning of ngx_hash_add_key makes of a key. *)
Inductive key_kind := KExact | KDeclined | KHead (skip : nat) | KTail.

Definition kind_of (wildcard : bool) (key : list Z) : key_kind :=
  if negb wildcard then KExact
  else
    let len := length key in
    match wildcard_check key 0 with
    | None => KDeclined
    | Some n =>
      if (1 <? len)%nat && (nth 0 key 0 =? "."%c) then KHead 1
      else if (2 <? len)%nat && ((nth 0 key 0 =? "*"%c) && (nth 1 key 0 =? "."%c)) then KHead 2
      else if (2 <? len)%nat && ((nth (len - 2) key 0 =? "."%c) && (nth (len - 1) key 0 =? "*"%c)) then KTail
      else if negb (n =? 0) then KDeclined
      else KExact
    end.

Section AddKey.
Context {V : Type}.

Definition add_exact (readonly : bool) (key : list Z) (value : V) (ha : ngx_hash_keys_arrays_t V)
    : Z * ngx_hash_keys_arrays_t V :=
  let key := if readonly then key else ngx_strlow key in
  let k := fold_left ngx_hash key 0 mod hsize ha in
  match table_add (keys_hash ha) k key with
  | None => (HASH_BUSY, ha)
  | Some table =>
    (NGX_OK, MkArrays (hsize ha) (ha_keys ha ++ [MkKey key false (ngx_hash_key key) value]) table
               (dns_wc_head ha) (dns_wc_head_hash ha) (dns_wc_tail ha) (dns_wc_tail_hash ha))
  end.

(** [key] without the first [skip] bytes is in lower case from here on. *)
Definition add_head (skip : nat) (key : list Z) (value : V) (ha : ngx_hash_keys_arrays_t V)
    : Z * ngx_hash_keys_arrays_t V :=
  let '(name, hash) := ngx_hash_strlow (drop skip key) in
  let k := hash mod hsize ha in
  match (if (skip =? 1)%nat then table_add (keys_hash ha) k name else Some (keys_hash ha)) with
  | None => (HASH_BUSY, ha)
  | Some exact =>
    let ha := MkArrays (hsize ha) (ha_keys ha) exact (dns_wc_head ha) (dns_wc_head_hash ha)
                (dns_wc_tail ha) (dns_wc_tail_hash ha) in
    match table_add (dns_wc_head_hash ha) k name with
    | None => (HASH_BUSY, ha)
    | Some table =>
      let p := reverse_labels (List.rev (drop 1 (take skip key ++ name))) [] [] in
      (NGX_OK, MkArrays (hsize ha) (ha_keys ha) exact (dns_wc_head ha ++ [(p, value)]) table
                 (dns_wc_tail ha) (dns_wc_tail_hash ha))
    end
  end.

(** The name of the table has the dot before the '*'. *)
Definition add_tail (key : list Z) (value : V) (ha : ngx_hash_keys_arrays_t V)
    : Z * ngx_hash_keys_arrays_t V :=
  let '(name, hash) := ngx_hash_strlow (take (length key - 2) key) in
  let k := hash mod hsize ha in
  match table_add (dns_wc_tail_hash ha) k (name ++ ["."%c]) with
  | None => (HASH_BUSY, ha)
  | Some table =>
    (NGX_OK, MkArrays (hsize ha) (ha_keys ha) (keys_hash ha) (dns_wc_head ha) (dns_wc_head_hash ha)
               (dns_wc_tail ha ++ [(name, value)]) table)
  end.

Definition ngx_hash_add_key (wildcard readonly : bool) (key : list Z) (value : V)
    (ha : ngx_hash_keys_arrays_t V) : Z * ngx_hash_keys_arrays_t V :=
  match kind_of wildcard key with
  | KDeclined => (NGX_DECLINED, ha)
  | KExact => add_exact readonly key value ha
  | KHead skip => add_head skip key value ha
  | KTail => add_tail key value ha
  end.

End AddKey.

End Hash.
