(* ===== verification/NgxHashInit.v ===== *)
(** The hash of exact names: ngx_hash_init puts each name into its bucket
    without leaving the bucket's memory, and ngx_hash_find finds the names. *)

From S2P Require Import Prelude NgxHeaderLine NgxHttpRequest NgxHash.

Module HashInit.

Export Hash.

Lemma align_bounds d m : 0 <= d -> 0 <= m -> d <= ngx_align d (2 ^ m) < d + 2 ^ m.
Proof.
  intros Hd Hm. unfold ngx_align. pose proof (Z.pow_pos_nonneg 2 m ltac:(lia) Hm).
  replace (2 ^ m - 1) with (Z.ones m) by (rewrite Z.ones_equiv; lia).
  rewrite <- Z.ldiff_land, Z.ldiff_ones_r, Z.shiftl_mul_pow2, Z.shiftr_div_pow2 by lia.
  rewrite Z.ones_equiv. pose proof (Z.div_mod (d + Z.pred (2 ^ m)) (2 ^ m) ltac:(lia)).
  pose proof (Z.mod_pos_bound (d + Z.pred (2 ^ m)) (2 ^ m) ltac:(lia)). lia.
Qed.

Section Init.
Context {V : Type} (m : Z) (Hm : 0 <= m <= 12).
Implicit Types names done : list (ngx_hash_key_t V).

Lemma elt_size_bounds (n : ngx_hash_key_t V) : Z.of_nat (length (hk_data n)) + 10 <= elt_size n.
Proof.
  unfold elt_size, NGX_HASH_ELT_SIZE. change 8 with (2 ^ 3) at 2.
  pose proof (align_bounds (Z.of_nat (length (hk_data n)) + 2) 3 ltac:(lia) ltac:(lia)). lia.
Qed.

(** The names of a bucket and their size. *)
Definition in_bucket (size : Z) (k : nat) (n : ngx_hash_key_t V) : bool :=
  negb (hk_null n) && (Z.to_nat (hk_hash n mod size) =? k)%nat.

Definition bucket_names (size : Z) (k : nat) names : list (ngx_hash_key_t V) := List.filter (in_bucket size k) names.

Definition weight (size : Z) (k : nat) names : Z :=
  fold_right (fun n w => elt_size n + w) 0 (bucket_names size k names).

Lemma weight_nonneg size k names : 0 <= weight size k names.
Proof.
  unfold weight. induction (bucket_names size k names) as [|n l IH]; cbn; [lia|].
  pose proof (elt_size_bounds n). lia.
Qed.

Lemma weight_app size k done names : weight size k (done ++ names) = weight size k done + weight size k names.
Proof.
  unfold weight, bucket_names. rewrite List.filter_app. induction (List.filter _ done) as [|n l IH]; cbn; [lia|].
  cbn in IH. lia.
Qed.

Lemma weight_one size k n : weight size k [n] = if in_bucket size k n then elt_size n else 0.
Proof. unfold weight, bucket_names. cbn. destruct (in_bucket size k n); cbn; lia. Qed.

(** [test] has the sizes of the names passed so far. *)
Definition tracks (size base : Z) (test : list Z) done : Prop :=
  length test = Z.to_nat size /\
  forall k, (k < Z.to_nat size)%nat -> nth k test 0 = base + weight size k done.

Lemma key_bound size h : 0 < size -> (Z.to_nat (h mod size) < Z.to_nat size)%nat.
Proof. intros Hs. pose proof (Z.mod_pos_bound h size Hs). lia. Qed.

Lemma nth_insert_eq {A} (l : list A) k x d : (k < length l)%nat -> nth k (<[k := x]> l) d = x.
Proof.
  intros Hk. apply nth_lookup_Some. apply list_lookup_insert_eq. done.
Qed.

Lemma nth_insert_ne {A} (l : list A) j k x d : j <> k -> nth k (<[j := x]> l) d = nth k l d.
Proof. intros Hk. rewrite !nth_lookup, list_lookup_insert_ne by done. done. Qed.

Lemma test_set_tracks size base test done n : 0 < size -> tracks size base test done -> hk_null n = false ->
  0 <= base -> base + weight size (Z.to_nat (hk_hash n mod size)) (done ++ [n]) < 2 ^ 16 ->
  test_add size test n = base + weight size (Z.to_nat (hk_hash n mod size)) (done ++ [n]) /\
  tracks size base (test_set size test n) (done ++ [n]).
Proof.
  intros Hs [Hl Ht] Hn Hb Hlt. pose proof (key_bound size (hk_hash n) Hs) as Hk.
  set (k := Z.to_nat (hk_hash n mod size)) in *.
  assert (Hin : in_bucket size k n = true) by (unfold in_bucket; rewrite Hn; cbn; by apply Nat.eqb_eq).
  assert (E : test_add size test n = base + weight size k (done ++ [n])).
  { unfold test_add. fold k. rewrite Ht by done. rewrite weight_app, weight_one, Hin in *.
    pose proof (weight_nonneg size k done). pose proof (elt_size_bounds n). rewrite wrapU_small; lia. }
  split; [done|]. split; [unfold test_set; by rewrite length_insert|]. intros j Hj. unfold test_set. fold k.
  destruct (decide (k = j)) as [<-|Hne].
  - rewrite nth_insert_eq by lia. done.
  - rewrite nth_insert_ne by done. rewrite Ht, weight_app, weight_one by done.
    unfold in_bucket. fold k. rewrite (proj2 (Nat.eqb_neq k j)) by done. rewrite andb_false_r. lia.
Qed.

Lemma skip_null size k done n names : hk_null n = true ->
  weight size k (done ++ n :: names) = weight size k (done ++ names) /\
  bucket_names size k (done ++ n :: names) = bucket_names size k (done ++ names).
Proof.
  intros Hn. assert (E : in_bucket size k n = false) by (unfold in_bucket; by rewrite Hn).
  unfold weight, bucket_names. rewrite !List.filter_app. cbn [List.filter]. by rewrite E.
Qed.

Lemma tracks_null size base test done n : hk_null n = true -> tracks size base test done -> tracks size base test (done ++ [n]).
Proof.
  intros Hn [Hl Ht]. split; [done|]. intros k Hk. rewrite Ht by done.
  destruct (skip_null size k done n [] Hn) as [-> _]. by rewrite app_nil_r.
Qed.

(** The test of a size: each bucket fits, if the sums do not wrap. *)
Lemma size_fits_ok size bsize names : 0 < size -> 0 <= bsize <= 32760 -> Forall (fun n => elt_size n <= bsize) names ->
  forall test done, tracks size 0 test done -> (forall k, (k < Z.to_nat size)%nat -> weight size k done <= bsize) ->
  size_fits size bsize test names = true ->
  forall k, (k < Z.to_nat size)%nat -> weight size k (done ++ names) <= bsize.
Proof.
  intros Hs Hb. induction names as [|n names IH]; intros Hn test done Ht Hw Hf k Hk.
  { rewrite app_nil_r. by apply Hw. }
  apply Forall_cons in Hn as [Hn1 Hn]. cbn [size_fits] in Hf.
  replace (done ++ n :: names) with ((done ++ [n]) ++ names) by (by rewrite <- app_assoc).
  destruct (hk_null n) eqn:En.
  - eapply IH; [done|by apply tracks_null| |exact Hf|done]. intros j Hj.
    destruct (skip_null size j done n [] En) as [-> _]. rewrite app_nil_r. by apply Hw.
  - pose proof (key_bound size (hk_hash n) Hs) as Hkn.
    assert (Hlt : weight size (Z.to_nat (hk_hash n mod size)) (done ++ [n]) <= 2 * bsize).
    { rewrite weight_app, weight_one. specialize (Hw _ Hkn). destruct (in_bucket _ _ n); lia. }
    destruct (test_set_tracks size 0 test done n Hs Ht En ltac:(lia) ltac:(lia)) as [E Ht'].
    rewrite E, (wrapU_small 16 bsize) in Hf by lia. destruct (_ >? _) eqn:Eg; [done|]. boolify.
    eapply IH; [done|exact Ht'| |exact Hf|done]. intros j Hj.
    destruct (decide (j = Z.to_nat (hk_hash n mod size))) as [->|Hne]; [lia|].
    rewrite weight_app, weight_one. unfold in_bucket. rewrite (proj2 (Nat.eqb_neq _ j)) by congruence.
    rewrite andb_false_r. specialize (Hw j Hj). lia.
Qed.

(** Conversely a size whose buckets fit passes the test. *)
Lemma size_fits_all size bsize names : 0 < size -> 0 <= bsize <= 32760 ->
  forall test done, tracks size 0 test done -> (forall k, (k < Z.to_nat size)%nat -> weight size k (done ++ names) <= bsize) ->
  size_fits size bsize test names = true.
Proof.
  intros Hs Hb. induction names as [|n names IH]; intros test dn Ht Hw; [reflexivity|]. cbn [size_fits].
  replace (dn ++ n :: names) with ((dn ++ [n]) ++ names) in Hw by (by rewrite <- app_assoc).
  destruct (hk_null n) eqn:En; [by eapply IH; [apply tracks_null|]|].
  pose proof (Hw _ (key_bound size (hk_hash n) Hs)) as Hk. rewrite weight_app in Hk.
  pose proof (weight_nonneg size (Z.to_nat (hk_hash n mod size)) names).
  destruct (test_set_tracks size 0 test dn n Hs Ht En ltac:(lia) ltac:(lia)) as [E Ht'].
  rewrite E, (wrapU_small 16 bsize) by lia. replace (_ >? _) with false by lia. by eapply IH.
Qed.

Lemma count_elts_ok size names : 0 < size -> forall test done, tracks size 8 test done ->
  (forall k, (k < Z.to_nat size)%nat -> 8 + weight size k (done ++ names) < 2 ^ 16) ->
  tracks size 8 (count_elts size test names) (done ++ names).
Proof.
  intros Hs. induction names as [|n names IH]; intros test done Ht Hw; [by rewrite app_nil_r|]. cbn [count_elts].
  replace (done ++ n :: names) with ((done ++ [n]) ++ names) in * by (by rewrite <- app_assoc).
  destruct (hk_null n) eqn:En; [by apply IH; [apply tracks_null|]|].
  apply IH; [|done]. apply test_set_tracks; [done|done|done|lia|].
  specialize (Hw _ (key_bound size (hk_hash n) Hs)). rewrite weight_app in Hw.
  pose proof (weight_nonneg size (Z.to_nat (hk_hash n mod size)) names). lia.
Qed.

(** * Filling the buckets *)

Definition element (n : ngx_hash_key_t V) : list Z * V := (ngx_strlow (hk_data n), hk_value n).

Definition filled (size : Z) (cells : list (@cell V)) done : Prop :=
  length cells = Z.to_nat size /\
  forall k, (k < Z.to_nat size)%nat -> cells !! k = Some (weight size k done, map element (bucket_names size k done)).

Definition room (size : Z) (regions : list (option Z)) names : Prop :=
  length regions = Z.to_nat size /\
  forall k, (k < Z.to_nat size)%nat -> exists r, regions !! k = Some r /\
    match r with
    | None => bucket_names size k names = []
    | Some r => bucket_names size k names <> [] /\ 8 + weight size k names <= r < 2 ^ 16
    end.

Lemma weight_zero size k names : weight size k names = 0 -> bucket_names size k names = [].
Proof.
  unfold weight. destruct (bucket_names size k names) as [|n l]; [done|]. cbn. intros E.
  pose proof (elt_size_bounds n). assert (0 <= fold_right (fun n w => elt_size n + w) 0 l); [|lia].
  clear E. induction l as [|x l IH]; cbn; [lia|]. pose proof (elt_size_bounds x). lia.
Qed.

Lemma regions_room size test names : tracks size 8 test names ->
  (forall k, (k < Z.to_nat size)%nat -> weight size k names <= 32760) ->
  room size (map (region (2 ^ m)) test) names.
Proof.
  intros [Hl Ht] Hw. split; [by rewrite length_map|]. intros k Hk.
  assert (Hk' : (k < length test)%nat) by lia. destruct (lookup_lt_is_Some_2 _ _ Hk') as [t Et].
  specialize (Ht k Hk). rewrite (nth_lookup_Some _ _ _ _ Et) in Ht. exists (region (2 ^ m) t).
  rewrite list_lookup_fmap, Et. split; [done|]. unfold region. pose proof (weight_nonneg size k names).
  destruct (t =? 8) eqn:E8; boolify; [apply weight_zero; lia|]. specialize (Hw k Hk).
  pose proof (align_bounds t m ltac:(lia) ltac:(lia)) as [Ha1 Ha2].
  assert (2 ^ m <= 2 ^ 12) by (apply Z.pow_le_mono_r; lia).
  rewrite wrapU_small by lia. split; [|lia]. intros E. unfold weight in Ht. rewrite E in Ht. cbn in Ht. lia.
Qed.

Lemma bucket_names_app size k done names :
  bucket_names size k (done ++ names) = bucket_names size k done ++ bucket_names size k names.
Proof. apply List.filter_app. Qed.

Lemma fill_ok size regions names : 0 < size -> forall cells done,
  filled size cells done -> room size regions (done ++ names) ->
  exists cells', fill size regions cells names = Ret cells' /\ filled size cells' (done ++ names).
Proof.
  intros Hs. induction names as [|n names IH]; intros cells done Hf Hr.
  { exists cells. by rewrite app_nil_r. }
  cbn [fill]. replace (done ++ n :: names) with ((done ++ [n]) ++ names) in * by (by rewrite <- app_assoc).
  destruct Hf as [Hl Hf]. destruct (hk_null n) eqn:En.
  { apply IH; [|done]. split; [done|]. intros k Hk. rewrite Hf by done.
    destruct (skip_null size k done n [] En) as [-> ->]. by rewrite app_nil_r. }
  pose proof (key_bound size (hk_hash n) Hs) as Hk. set (k := Z.to_nat (hk_hash n mod size)) in *.
  assert (Hin : in_bucket size k n = true) by (unfold in_bucket; rewrite En; cbn; by apply Nat.eqb_eq).
  destruct Hr as [Hrl Hr]. destruct (Hr k Hk) as (r & Er & Hrk). rewrite Er, (Hf k Hk).
  rewrite !bucket_names_app, !weight_app, weight_one, Hin in Hrk. unfold bucket_names at 2 in Hrk. cbn in Hrk.
  rewrite Hin in Hrk. destruct r as [r|]; [|by destruct (bucket_names size k done)].
  destruct Hrk as [_ Hrk]. pose proof (elt_size_bounds n). pose proof (weight_nonneg size k done).
  pose proof (weight_nonneg size k names).
  rewrite (proj2 (Z.leb_le _ _)) by lia. rewrite wrapU_small by lia.
  apply IH; [|done]. split; [by rewrite length_insert|]. intros j Hj.
  rewrite weight_app, bucket_names_app, weight_one. destruct (decide (k = j)) as [<-|Hne].
  - rewrite list_lookup_insert_eq by (unfold cell in *; lia). rewrite Hin. unfold bucket_names at 2. cbn. rewrite Hin.
    by rewrite map_app.
  - rewrite list_lookup_insert_ne by done. rewrite Hf by done. unfold bucket_names at 3. cbn.
    unfold in_bucket. fold k. rewrite (proj2 (Nat.eqb_neq k j)) by done. rewrite andb_false_r, Z.add_0_r, app_nil_r. done.
Qed.

Lemma finish_buckets_ok (all : list (ngx_hash_key_t V)) size : forall regions (cells : list cell) i,
  length regions = length cells ->
  (forall k, (k < length cells)%nat -> exists r off elts, regions !! k = Some r /\ cells !! k = Some (off, elts) /\
     off = weight size (i + k) all /\ elts = map element (bucket_names size (i + k) all) /\
     match r with
     | None => bucket_names size (i + k) all = []
     | Some r => bucket_names size (i + k) all <> [] /\ 8 + weight size (i + k) all <= r < 2 ^ 16
     end) ->
  exists buckets, finish_buckets regions cells = Ret buckets /\ length buckets = length cells /\
    forall k, (k < length cells)%nat -> buckets !! k =
      Some (match bucket_names size (i + k) all with [] => None | l => Some (map element l) end).
Proof.
  induction regions as [|r regions IH]; intros [|[off elts] cells] i Hl H; try done.
  { exists []. split; [done|]. split; [done|]. intros k Hk. cbn in Hk. lia. }
  cbn in Hl. injection Hl as Hl. cbn [finish_buckets].
  destruct (IH cells (S i) Hl) as (buckets & E & Hlb & Hb).
  { intros k Hk. destruct (H (S k)) as (r' & off' & elts' & H1 & H2 & H3); [cbn; lia|].
    exists r', off', elts'. rewrite Nat.add_succ_comm. done. }
  destruct (H 0%nat) as (r' & off' & elts' & H1 & H2 & H3 & H4 & H5); [cbn; lia|].
  cbn in H1, H2. injection H1 as <-. injection H2 as <- <-. rewrite Nat.add_0_r in *.
  assert (Hend : forall b, b = (match bucket_names size i all with [] => None | l => Some (map element l) end) ->
    forall k, (k < length ((off, elts) :: cells))%nat -> (b :: buckets) !! k =
      Some (match bucket_names size (i + k) all with [] => None | l => Some (map element l) end)).
  { intros b -> [|k] Hk; cbn; [by rewrite Nat.add_0_r|]. rewrite Hb by (apply Nat.succ_lt_mono; exact Hk).
    by rewrite Nat.add_succ_comm. }
  destruct r as [r|].
  - destruct H5 as [Hne Hr]. rewrite (proj2 (Z.leb_le _ _)) by lia. rewrite E. cbn [outcome_bind].
    eexists. split; [reflexivity|]. split; [cbn; by rewrite Hlb|]. apply Hend. rewrite H4. by destruct (bucket_names size i all).
  - rewrite E. cbn [outcome_bind]. eexists. split; [reflexivity|]. split; [cbn; by rewrite Hlb|]. apply Hend. by rewrite H5.
Qed.

(** * The hash *)

(** The buckets have the names of the list, in its order. *)
Definition HashOk (h : ngx_hash_t V) names : Prop :=
  0 < h_size h /\ length (h_buckets h) = Z.to_nat (h_size h) /\
  forall k, (k < Z.to_nat (h_size h))%nat -> h_buckets h !! k =
    Some (match bucket_names (h_size h) k names with [] => None | l => Some (map element l) end).

Lemma find_size_ok fuel size bsize names size' : 0 < size ->
  find_size fuel size bsize names = Some size' ->
  0 < size' /\ size_fits size' bsize (replicate (Z.to_nat size') 0) names = true.
Proof.
  revert size. induction fuel as [|fuel IH]; intros size Hs; cbn [find_size]; [done|].
  destruct (size_fits size bsize (replicate (Z.to_nat size) 0) names) eqn:E; [by intros [= <-]|]. apply IH. lia.
Qed.

Lemma find_size_least fuel size bsize names : find_size fuel size bsize names = None ->
  forall s, size <= s < size + Z.of_nat fuel -> size_fits s bsize (replicate (Z.to_nat s) 0) names = false.
Proof.
  revert size. induction fuel as [|fuel IH]; intros size; cbn [find_size]; [lia|].
  destruct (size_fits size bsize _ names) eqn:E; [done|]. intros Hf s Hs.
  destruct (decide (s = size)) as [->|Hne]; [done|]. apply (IH (size + 1)); [done|lia].
Qed.

Lemma find_size_range fuel size bsize names size' : find_size fuel size bsize names = Some size' -> size <= size' < size + Z.of_nat fuel.
Proof.
  revert size. induction fuel as [|fuel IH]; intros size; cbn [find_size]; [done|].
  destruct (size_fits size bsize _ names); [intros [= <-]; lia|]. intros Hf%IH. lia.
Qed.

Lemma start_positive max bsize nelts : 0 <= nelts -> 16 <= bsize -> 0 < start_size max bsize nelts.
Proof.
  intros Hn Hb. unfold start_size.
  assert (0 <= nelts / (bsize / 16)).
  { apply Z.div_pos; [lia|]. apply Z.div_str_pos. lia. }
  destruct ((max >? 10000) && _ && _) eqn:E; [boolify; lia|]. clear E. destruct (_ =? 0) eqn:E0; boolify; lia.
Qed.

Lemma nth_replicate' (x d : Z) n k : (k < n)%nat -> nth k (replicate n x) d = x.
Proof. intros Hk. apply nth_lookup_Some. by apply lookup_replicate_2. Qed.

(** The names fit into buckets of [hinit]: each into one, with the NULL at its
    end, and all into some number of buckets that is tried. *)
Definition names_fit hinit names : Prop :=
  let bsize := bucket_size hinit - 8 in
  Forall (fun n => elt_size n <= bsize) names /\
  exists size, start_size (max_size hinit) bsize (Z.of_nat (length names)) <= size < max_size hinit /\
    forall k, (k < Z.to_nat size)%nat -> weight size k names <= bsize.

Lemma hash_init_ok hinit names : 24 <= bucket_size hinit <= 32768 ->
  exists r, ngx_hash_init (2 ^ m) hinit names = Ret r /\ (is_Some r <-> names_fit hinit names) /\ forall h, r = Some h -> HashOk h names.
Proof.
  intros Hb. unfold ngx_hash_init, names_fit. cbn zeta. set (bsize := bucket_size hinit - 8). destruct (existsb _ names) eqn:Ee.
  { exists None. split; [done|]. split; [|done]. split; [by intros [? ?]|]. intros [Hn _]. exfalso.
    apply existsb_exists in Ee as (n & Hin%list_elem_of_In & En). rewrite Forall_forall in Hn. specialize (Hn n Hin). unfold bsize in Hn. lia. }
  rewrite (wrapU_small 64) by lia. fold bsize.
  assert (Hdiv : 1 <= bsize / 16) by (apply Z.div_le_lower_bound; lia).
  rewrite (proj2 (Z.eqb_neq (bsize / 16) 0)) by lia.
  pose proof (start_positive (max_size hinit) bsize (Z.of_nat (length names)) ltac:(lia) ltac:(lia)) as Hst.
  destruct (find_size _ _ _ _) as [size|] eqn:Es.
  2:{ exists None. split; [done|]. split; [|done]. split; [by intros [? ?]|]. intros (_ & s & Hs & Hw). exfalso.
      pose proof (find_size_least _ _ _ _ Es s ltac:(lia)) as Hf.
      rewrite (size_fits_all s bsize names ltac:(lia) ltac:(lia) (replicate (Z.to_nat s) 0) []) in Hf; [done| |done].
      split; [apply length_replicate|]. intros k Hk. by rewrite nth_replicate'. }
  pose proof (find_size_range _ _ _ _ _ Es) as Hrange. apply find_size_ok in Es as [Hs Hfit]; [|done].
  assert (Hn : Forall (fun n => elt_size n <= bsize) names).
  { apply Forall_forall. intros n Hin. destruct (bucket_size hinit <? elt_size n + 8) eqn:En; boolify; [|unfold bsize; lia].
    exfalso. rewrite (proj2 (existsb_exists _ names)) in Ee; [done|]. exists n. split; [by apply list_elem_of_In|]. by apply Z.ltb_lt. }
  assert (Hw : forall k, (k < Z.to_nat size)%nat -> weight size k names <= bsize).
  { apply (size_fits_ok size bsize names Hs ltac:(lia) Hn (replicate (Z.to_nat size) 0) []); [|cbn; lia|done].
    split; [apply length_replicate|]. intros k Hk. by rewrite nth_replicate'. }
  assert (Ht : tracks size 8 (count_elts size (replicate (Z.to_nat size) 8) names) names).
  { apply (count_elts_ok size names Hs _ []).
    - split; [apply length_replicate|]. intros k Hk. by rewrite nth_replicate'.
    - intros k Hk. specialize (Hw k Hk). cbn [app]. unfold bsize in *. lia. }
  assert (Hroom : room size (map (region (2 ^ m)) (count_elts size (replicate (Z.to_nat size) 8) names)) names).
  { apply regions_room; [done|]. intros k Hk. specialize (Hw k Hk). unfold bsize in *. lia. }
  set (regions := map _ _) in *.
  destruct (fill_ok size regions names Hs (replicate (Z.to_nat size) (0, [])) [] ) as (cells & Ec & Hcl & Hc); [|exact Hroom|].
  { split; [apply length_replicate|]. intros k Hk. by apply lookup_replicate_2. }
  rewrite Ec. cbn [outcome_bind]. cbn [app] in Hc. destruct Hroom as [Hrl Hroom].
  destruct (finish_buckets_ok names size regions cells 0 (eq_trans Hrl (eq_sym Hcl))) as (buckets & Eb & Hbl & Hbk).
  { intros k Hk. rewrite Hcl in Hk. destruct (Hroom k Hk) as (r & Er & Hr). cbn.
    exists r, (weight size k names), (map element (bucket_names size k names)). split_and!; [done|by apply Hc|done|done|done]. }
  rewrite Eb. eexists. split; [reflexivity|]. split; [split; [|done]; intros _; split; [done|]; exists size; split; [lia|done]|]. intros h [= <-]. split; [done|]. cbn. split; [by rewrite Hbl|].
  intros k Hk. rewrite Hbk by (by rewrite Hcl). done.
Qed.

(** * Finding *)

(** The value of the first name of the list that is the name. *)
Definition names_find names (name : list Z) : option V :=
  bucket_find (map element (List.filter (fun n => negb (hk_null n)) names)) name.

Definition hashes_ok names : Prop :=
  Forall (fun n => hk_null n = false -> hk_hash n = ngx_hash_key (ngx_strlow (hk_data n))) names.

Lemma bucket_find_names size names name : hashes_ok names ->
  bucket_find (map element (bucket_names size (Z.to_nat (ngx_hash_key name mod size)) names)) name =
  names_find names name.
Proof.
  unfold names_find, bucket_names. induction 1 as [|n names Hn _ IH]; [done|]. cbn [List.filter].
  unfold in_bucket at 1. destruct (hk_null n); cbn [negb andb]; [done|]. specialize (Hn eq_refl).
  destruct (decide (ngx_strlow (hk_data n) = name)) as [E|E].
  - rewrite Hn, E, Nat.eqb_refl. cbn. by rewrite !decide_True.
  - destruct (_ =? _)%nat; cbn; rewrite !decide_False by done; exact IH.
Qed.

Lemma hash_find_ok h names name : HashOk h names -> hashes_ok names ->
  ngx_hash_find h (ngx_hash_key name) name = Ret (names_find names name).
Proof.
  intros (Hs & Hl & Hb) Hh. unfold ngx_hash_find. rewrite (proj2 (Z.eqb_neq (h_size h) 0)) by lia.
  rewrite Hb by (apply key_bound; lia). rewrite <- (bucket_find_names (h_size h)) by done.
  by destruct (bucket_names _ _ names).
Qed.

End Init.

(** C29: a hash of exact names.  For buckets of 24 to 32768 bytes and names with
    the hash of their lower case, ngx_hash_init writes no element past the end
    of its bucket and makes a hash exactly when every name fits into a bucket
    and all of them into one of the numbers of buckets it tries, from its start
    to the greatest allowed; in the hash ngx_hash_find finds for every name
    the value of the first name of the list that is equal to it, and nothing
    for the others.  (Beyond 32768 bytes the 16-bit sizes wrap.) *)
Theorem hash_names_found {V} m hinit (names : list (ngx_hash_key_t V)) :
  0 <= m <= 12 -> 24 <= bucket_size hinit <= 32768 -> hashes_ok names ->
  exists r, ngx_hash_init (2 ^ m) hinit names = Ret r /\ (is_Some r <-> names_fit hinit names) /\
    forall h name, r = Some h -> ngx_hash_find h (ngx_hash_key name) name = Ret (names_find names name).
Proof.
  intros Hm Hb Hh. destruct (hash_init_ok m Hm hinit names Hb) as (r & E & Hfit & Hr). exists r. split; [done|]. split; [done|].
  intros h name ->. by apply hash_find_ok; [apply Hr|].
Qed.

Definition exact_key (name : list Z) (v : Z) : ngx_hash_key_t Z := MkKey name false (ngx_hash_key name) v.

Definition names0 : list (ngx_hash_key_t Z) :=
  [exact_key $"host" 1; exact_key $"range" 2; exact_key $"connection" 3; exact_key $"host" 4].

Lemma hash_names_found_witness : exists r, ngx_hash_init (2 ^ 6) (MkInit 512 64) names0 = Ret r /\ (is_Some r <-> names_fit (MkInit 512 64) names0) /\
  forall h name, r = Some h -> ngx_hash_find h (ngx_hash_key name) name = Ret (names_find names0 name).
Proof.
  apply (hash_names_found 6 (MkInit 512 64) names0); [lia|cbn; lia|].
  unfold hashes_ok. rewrite Forall_forall. intros n Hn _. unfold names0 in Hn.
  repeat (apply elem_of_cons in Hn as [->|Hn]; [reflexivity|]). set_solver.
Defined.

Example names0_found : (let! r := ngx_hash_init (2 ^ 6) (MkInit 512 64) names0 in
  match r with
  | None => Ret None
  | Some h => let! a := ngx_hash_find h (ngx_hash_key $"host") $"host" in
              let! b := ngx_hash_find h (ngx_hash_key $"date") $"date" in Ret (Some (a, b))
  end) = Ret (Some (Some 1, None)).
Proof. vm_compute. reflexivity. Qed.

(** * Larger buckets *)

(** The size of a bucket is kept in a u_short: with a bucket size of 65536 two
    names of 40000 bytes that share a bucket pass the test, and the second is
    written past the end of the bucket. *)
Definition long_name (c : Z) : ngx_hash_key_t Z := exact_key (replicate (Z.to_nat 40000) c) c.

Example large_bucket_overflows : ngx_hash_init 64 (MkInit 2 65536) [long_name 1; long_name 2] = Undefined.
Proof. vm_compute. reflexivity. Qed.

End HashInit.
