(* ===== verification/NgxHashNames.v ===== *)
(** Wildcard names as lists of labels: their spelling as keys of a wildcard
    hash, the order of the keys, and the longest name that matches. *)

From stdpp Require Import sorting.
From S2P Require Import Prelude NgxHeaderLine NgxHttpRequest NgxLocation NgxStringCmp NgxHash NgxHashInit.

#[local] Open Scope Z_scope.

Module HashNames.

Export StringCmp HashInit.

(** * Keys *)

(** An entry of a wildcard hash: the labels of its name, the first one first,
    whether the name itself matches, and the value. *)
Abbreviation entry V := (list (list Z) * (bool * V))%type.

Definition DOT : Z := "."%c.

(** "com.example" for labels that match themselves and "com.example." for
    others. *)
Fixpoint spell (labels : list (list Z)) (both : bool) : list Z :=
  match labels with
  | [] => []
  | [l] => if both then l else l ++ [DOT]
  | l :: labels => l ++ DOT :: spell labels both
  end.

Definition plain (c : Z) : Prop := " "%c < c /\ c <> DOT /\ ngx_tolower c = c.

(** The labels have no dots and are in lower case; the last is not empty. *)
Definition labels_ok (labels : list (list Z)) : Prop :=
  labels <> [] /\ Forall (Forall plain) labels /\ last labels <> Some [].

Lemma spell_cons l l2 labels both : spell (l :: l2 :: labels) both = l ++ DOT :: spell (l2 :: labels) both.
Proof. done. Qed.

Lemma labels_ok_cons l l2 labels : labels_ok (l :: l2 :: labels) <-> Forall plain l /\ labels_ok (l2 :: labels).
Proof.
  unfold labels_ok. rewrite Forall_cons. split.
  - intros (_ & [? ?] & ?). done.
  - intros (? & _ & ? & ?). done.
Qed.

(** The first label of a key, and what comes after it. *)
Lemma label_len_app l s : Forall plain l -> label_len (l ++ DOT :: s) = length l.
Proof.
  induction 1 as [|c l [_ [Hc _]] _ IH]; [done|]. cbn. unfold DOT in Hc. rewrite (proj2 (Z.eqb_neq _ _) Hc). by f_equal.
Qed.

Lemma label_len_all l : Forall plain l -> label_len l = length l.
Proof.
  induction 1 as [|c l [_ [Hc _]] _ IH]; [done|]. cbn. unfold DOT in Hc. rewrite (proj2 (Z.eqb_neq _ _) Hc). by f_equal.
Qed.

(** * The order of keys *)

Definition dns_key (s : list Z) : list Z := map dns_char s.

Definition key_char (c : Z) : Prop := plain c \/ c = DOT.

Lemma spell_chars labels both : Forall (Forall plain) labels -> Forall key_char (spell labels both).
Proof.
  assert (Hp : forall l, Forall plain l -> Forall key_char l).
  { intros l Hl. eapply Forall_impl; [exact Hl|]. by left. }
  induction 1 as [|l labels Hl _ IH]; [constructor|]. destruct labels as [|l2 labels].
  - cbn. destruct both; [by apply Hp|]. apply Forall_app. split; [by apply Hp|]. constructor; [by right|constructor].
  - rewrite spell_cons. apply Forall_app. split; [by apply Hp|]. constructor; [by right|done].
Qed.

Lemma key_char_low c : key_char c -> ngx_tolower c = c /\ 0 < c /\ " "%c <= dns_char c.
Proof.
  intros [(H1 & H2 & H3)| ->]; [|done]. unfold dns_char. unfold DOT in H2. rewrite (proj2 (Z.eqb_neq _ _) H2). lia.
Qed.

Lemma dns_char_inj c d : key_char c -> key_char d -> dns_char c = dns_char d -> c = d.
Proof.
  unfold dns_char. intros Hc Hd.
  destruct (Z.eqb_spec c "."%c) as [->|Nc], (Z.eqb_spec d "."%c) as [->|Nd]; intros E; try done.
  - destruct Hd as [(? & _)|?]; [lia|]. done.
  - destruct Hc as [(? & _)|?]; [lia|]. done.
Qed.

(** The comparison of two keys is the lexicographic one of their characters. *)
Lemma dns_strcmp_le s t : Forall key_char s -> Forall key_char t ->
  (ngx_dns_strcmp s t <= 0 <-> bytes_cmp (dns_key s) (dns_key t) <= 0).
Proof.
  intros Hs. revert t. induction Hs as [|c s Hc Hs IH]; intros t Ht; cbn [ngx_dns_strcmp dns_key map].
  - destruct Ht as [|d t Hd Ht]; [done|]. cbn. destruct (key_char_low d Hd) as (-> & ? & ?). lia.
  - destruct (key_char_low c Hc) as (-> & ? & ?). destruct Ht as [|d t Hd Ht].
    + cbn [hd tl map bytes_cmp]. change (ngx_tolower 0) with 0. rewrite (proj2 (Z.eqb_neq c 0)) by lia.
      change (dns_char 0) with 0. cbn. lia.
    + cbn [hd tl dns_key map bytes_cmp]. destruct (key_char_low d Hd) as (-> & ? & ?).
      destruct (Z.eqb_spec c d) as [->|Hne].
      * rewrite Z.eqb_refl, (proj2 (Z.eqb_neq d 0)) by lia. by apply IH.
      * rewrite (proj2 (Z.eqb_neq (dns_char c) (dns_char d))); [done|]. intros E. by apply dns_char_inj in E.
Qed.

(** What lies between two strings with a prefix has the prefix. *)
Lemma between_prefix p : forall x b y, bytes_cmp (p ++ x) b <= 0 -> bytes_cmp b (p ++ y) <= 0 ->
  exists z, b = p ++ z /\ bytes_cmp x z <= 0 /\ bytes_cmp z y <= 0.
Proof.
  induction p as [|c p IH]; intros x b y H1 H2; [by exists b|]. destruct b as [|d b]; cbn in *; [lia|].
  destruct (Z.eqb_spec c d) as [->|Hne].
  - rewrite Z.eqb_refl in H2. destruct (IH x b y H1 H2) as (z & -> & ?). by exists z.
  - rewrite (proj2 (Z.eqb_neq d c)) in H2 by congruence. lia.
Qed.

Lemma bytes_cmp_app p x y : bytes_cmp (p ++ x) (p ++ y) = bytes_cmp x y.
Proof. induction p as [|c p IH]; [done|]. cbn. by rewrite Z.eqb_refl. Qed.

(** The end of a label. *)
Definition label_end (s : list Z) : Prop := s = [] \/ exists t, s = DOT :: t.

(** The key begins with the label. *)
Definition has_label (l s : list Z) : Prop := exists t, s = l ++ t /\ label_end t.

Lemma dns_key_app s t : dns_key (s ++ t) = dns_key s ++ dns_key t.
Proof. apply map_app. Qed.

Lemma dns_key_prefix l b z : Forall key_char l -> Forall key_char b -> dns_key b = dns_key l ++ z ->
  exists t, b = l ++ t /\ dns_key t = z.
Proof.
  intros Hl. revert b. induction Hl as [|c l Hc _ IH]; intros b Hb E; [by exists b|].
  destruct Hb as [|d b Hd Hb]; [done|]. cbn in E. injection E as E1 E2.
  apply dns_char_inj in E1; [|done..]. subst d. destruct (IH b Hb E2) as (t & -> & ?). by exists t.
Qed.

(** The keys with a label are next to each other. *)
Lemma label_convex l a b c : Forall plain l -> Forall key_char a -> Forall key_char b -> Forall key_char c ->
  ngx_dns_strcmp a b <= 0 -> ngx_dns_strcmp b c <= 0 -> has_label l a -> has_label l c -> has_label l b.
Proof.
  intros Hl Ha Hb Hc Hab Hbc (ta & -> & _) (tc & -> & Htc).
  assert (Hl' : Forall key_char l) by (eapply Forall_impl; [exact Hl|by left]).
  apply dns_strcmp_le in Hab; [|done..]. apply dns_strcmp_le in Hbc; [|done..].
  rewrite dns_key_app in Hab, Hbc. destruct (between_prefix _ _ _ _ Hab Hbc) as (z & Ez & _ & Hz).
  destruct (dns_key_prefix l b z Hl' Hb Ez) as (t & -> & <-). exists t. split; [done|].
  apply Forall_app in Hb as [_ Ht]. destruct Ht as [|d t Hd _]; [by left|]. right. exists t. f_equal.
  destruct Hd as [(Hd & Hdot & _)|Hd]; [exfalso|done].
  cbn [dns_key map] in Hz. unfold dns_char at 1 in Hz. unfold DOT in Hdot.
  rewrite (proj2 (Z.eqb_neq _ _) Hdot) in Hz. destruct Htc as [->|(tc' & ->)]; cbn in Hz; [lia|].
  change (dns_char DOT) with " "%c in Hz. destruct (d =? " "%c) eqn:E; boolify; lia.
Qed.

Lemma has_label_spell l labels both : Forall plain l -> labels_ok labels ->
  (has_label l (spell labels both) <-> head labels = Some l).
Proof.
  intros Hl (Hne & Hpl & _). destruct labels as [|l' labels]; [done|]. apply Forall_cons in Hpl as [Hl' Hpl]. cbn [head].
  assert (Hs : exists t, spell (l' :: labels) both = l' ++ t /\ label_end t).
  { destruct labels as [|l2 labels].
    - cbn. destruct both; [exists []; rewrite app_nil_r; split; [done|by left]|]. exists [DOT]. split; [done|]. right. by exists [].
    - rewrite spell_cons. eexists. split; [done|]. right. eauto. }
  destruct Hs as (t' & Es & Ht'). rewrite Es. split.
  - intros (t & E & Ht). f_equal. clear Es Hne Hpl. revert l E Hl. induction Hl' as [|c l' Hc _ IH]; intros l E Hl.
    + destruct l as [|d l]; [done|]. exfalso. destruct Ht' as [->|(x & ->)]; [done|]. cbn in E. injection E as <- _.
      apply Forall_cons in Hl as [(_ & Hd & _) _]. done.
    + destruct l as [|d l].
      * exfalso. destruct Ht as [->|(x & ->)]; [done|]. cbn in E. injection E as -> _. by destruct Hc as (_ & Hd & _).
      * cbn in E. injection E as -> E. apply Forall_cons in Hl as [_ Hl]. f_equal. by apply IH.
  - intros [= ->]. exists t'. done.
Qed.

End HashNames.
