(* ===== verification/NgxHashWildcard.v ===== *)
(** The wildcard hashes: ngx_hash_wildcard_init sorts the names into a hash of
    hashes by their labels, and the searches find the longest name that
    matches. *)

From stdpp Require Import sorting.
From S2P Require Import Prelude NgxHeaderLine NgxHttpRequest NgxLocation NgxHash NgxHashInit NgxHashNames.

#[local] Open Scope Z_scope.

Module HashWildcard.

Export HashNames.

(** * The specification *)

Section Spec.
Context {V : Type}.
Implicit Types T : list (entry V).

Fixpoint tfind (labels : list (list Z)) T : option (bool * V) :=
  match T with
  | [] => None
  | e :: T => if decide (e.1 = labels) then Some e.2 else tfind labels T
  end.

(** The value of the longest entry among the first [k] labels of a name; an
    entry that does not match itself needs one label more. *)
Fixpoint best_upto T (name : list (list Z)) (k : nat) : option V :=
  match k with
  | O => None
  | S k' =>
    match tfind (take k name) T with
    | Some (both, v) => if both || (k <? length name)%nat then Some v else best_upto T name k'
    | None => best_upto T name k'
    end
  end.

Definition best T (name : list (list Z)) : option V := best_upto T name (length name).

(** The entries with a first label and others, without it. *)
Definition strip (l : list Z) (e : entry V) : option (entry V) :=
  match e.1 with
  | l' :: (_ :: _) as labels => if decide (l' = l) then Some (tl e.1, e.2) else None
  | _ => None
  end.

Definition sub T (l : list Z) : list (entry V) := omap (strip l) T.

Lemma tfind_sub T l l2 labels : tfind (l :: l2 :: labels) T = tfind (l2 :: labels) (sub T l).
Proof.
  unfold sub. induction T as [|[ls x] T IH]; [done|]. cbn [tfind fst].
  destruct ls as [|l' [|l2' ls]].
  - rewrite decide_False by done. exact IH.
  - rewrite decide_False by done. exact IH.
  - cbn. unfold strip. cbn [fst tl]. destruct (decide (l' = l)) as [->|Hne].
    + cbn. destruct (decide (l2' :: ls = l2 :: labels)) as [E|E].
      * rewrite decide_True by congruence. done.
      * rewrite decide_False by congruence. exact IH.
    + rewrite decide_False by congruence. exact IH.
Qed.

Lemma best_upto_sub T l rest k : (k <= length rest)%nat -> best_upto T (l :: rest) (S k) =
  match best_upto (sub T l) rest k with
  | Some v => Some v
  | None => match tfind [l] T with
            | Some (both, v) => if both || negb (bool_decide (rest = [])) then Some v else None
            | None => None
            end
  end.
Proof.
  induction k as [|k IH]; intros Hk.
  - cbn. rewrite take_0. destruct (tfind [l] T) as [[both v]|]; [|done].
    destruct rest; [by rewrite bool_decide_eq_true_2|by rewrite bool_decide_eq_false_2].
  - specialize (IH ltac:(lia)). remember (S k) as k1 eqn:Ek. cbn [best_upto]. rewrite Ek at 2. cbn [best_upto].
    rewrite <- Ek. destruct rest as [|l2 rest]; [cbn in Hk; lia|].
    replace (take (S k1) (l :: l2 :: rest)) with (l :: l2 :: take k rest) by (by rewrite Ek).
    replace (take k1 (l2 :: rest)) with (l2 :: take k rest) by (by rewrite Ek).
    rewrite tfind_sub. replace (S k1 <? length (l :: l2 :: rest))%nat with (k1 <? length (l2 :: rest))%nat by done.
    destruct (tfind (l2 :: take k rest) (sub T l)) as [[both v]|]; [|by rewrite IH].
    destruct (both || _); [done|]. by rewrite IH.
Qed.

(** The longest match by levels. *)
Lemma best_cons T l rest : best T (l :: rest) =
  match best (sub T l) rest with
  | Some v => Some v
  | None => match tfind [l] T with
            | Some (both, v) => if both || negb (bool_decide (rest = [])) then Some v else None
            | None => None
            end
  end.
Proof. unfold best. cbn [length]. by rewrite best_upto_sub. Qed.

(** * The names of a level *)

Definition key_of_entry (e : entry V) : list Z := spell e.1 e.2.1.

Definition names T : list (list Z * V) := map (fun e => (key_of_entry e, e.2.2)) T.

(** The entries as they are before ngx_hash_wildcard_init. *)
Record TOk T : Prop := MkTOk {
  to_labels : Forall (fun e => labels_ok e.1) T;
  to_sorted : StronglySorted (fun a b => ngx_dns_strcmp (key_of_entry a) (key_of_entry b) <= 0) T;
  to_nodup : NoDup (map fst T) }.

Definition first_label (l : list Z) (e : entry V) : bool := bool_decide (head e.1 = Some l).

Lemma entry_chars (e : entry V) : labels_ok e.1 -> Forall key_char (key_of_entry e).
Proof. intros (_ & Hp & _). by apply spell_chars. Qed.

Lemma strncmp_prefix p x k : Forall (fun c => c <> 0) p ->
  (ngx_strncmp (p ++ x) k (length p) = 0 <-> exists y, k = p ++ y).
Proof.
  intros Hp. revert k. induction Hp as [|c p Hc _ IH]; intros k; cbn; [split; [intros _; by exists k|done]|].
  rewrite (proj2 (Z.eqb_neq _ _) Hc). destruct k as [|d k]; cbn.
  - rewrite (proj2 (Z.eqb_neq _ _) Hc). split; [lia|]. by intros (y & ?).
  - destruct (Z.eqb_spec c d) as [->|Hne].
    + rewrite IH. split; intros (y & E); [exists y; by rewrite E|injection E as E; by exists y].
    + split; [lia|]. intros (y & E). congruence.
Qed.

Lemma plain_nonzero l : Forall plain l -> Forall (fun c => c <> 0) l.
Proof. intros Hl. eapply Forall_impl; [exact Hl|]. intros c (H & _). lia. Qed.

(** A key that is a label alone is below the others that begin with it. *)
Lemma short_key_first l x : Forall plain l -> Forall key_char x -> x <> [] -> ~ ngx_dns_strcmp (l ++ x) l <= 0.
Proof.
  intros Hl Hx Hne H. assert (Hl' : Forall key_char l) by (eapply Forall_impl; [exact Hl|by left]).
  apply dns_strcmp_le in H; [|by apply Forall_app|done].
  rewrite dns_key_app in H. rewrite <- (app_nil_r (dns_key l)) in H at 2. rewrite bytes_cmp_app in H.
  destruct x; [done|]. cbn in H. lia.
Qed.

(** * The names with a common first label *)

(** The test of the loop over the names after the first one. *)
Definition goes_with (key : list Z) (len : nat) (dot : bool) (k : list Z) : bool :=
  (ngx_strncmp key k len =? 0) && negb (negb dot && (len <? length k)%nat && negb (nth len k 0 =? "."%c)).

Lemma group_of_cons key len dot k v (l : list (list Z * V)) :
  group_of key len dot ((k, v) :: l) =
  if goes_with key len dot k then let '(g, rest) := group_of key len dot l in ((k, v) :: g, rest)
  else ([], (k, v) :: l).
Proof.
  cbn [group_of]. unfold goes_with. destruct (_ =? 0); cbn [negb andb]; [|done].
  by destruct (negb dot && _ && _).
Qed.

Lemma goes_with_ok l t k : Forall plain l -> label_end t -> Forall key_char t -> Forall key_char k ->
  ngx_dns_strcmp (l ++ t) k <= 0 ->
  (goes_with (l ++ t) (length l + if bool_decide (t = []) then 0 else 1) (negb (bool_decide (t = []))) k = true <->
   has_label l k).
Proof.
  intros Hl Ht Htc Hk Hle. unfold goes_with. rewrite andb_true_iff, Z.eqb_eq.
  destruct Ht as [->|(t' & ->)].
  - rewrite bool_decide_eq_true_2 by done. rewrite Nat.add_0_r, strncmp_prefix by (by apply plain_nonzero).
    cbn [negb andb]. split.
    + intros [(y & ->) Hn]. exists y. split; [done|]. destruct y as [|c y]; [by left|]. right. exists y. f_equal.
      apply negb_true_iff, andb_false_iff in Hn as [Hn|Hn].
      * apply Nat.ltb_ge in Hn. rewrite length_app in Hn. cbn in Hn. lia.
      * rewrite app_nth2, Nat.sub_diag in Hn by lia. cbn in Hn. apply negb_false_iff, Z.eqb_eq in Hn. done.
    + intros (y & -> & Hy). split; [by exists y|]. destruct Hy as [->|(y' & ->)].
      * rewrite app_nil_r, Nat.ltb_irrefl. done.
      * rewrite app_nth2, Nat.sub_diag by lia. cbn. rewrite andb_false_r. done.
  - rewrite bool_decide_eq_false_2 by done. cbn [negb andb].
    replace (l ++ DOT :: t') with ((l ++ [DOT]) ++ t') by (by rewrite <- app_assoc).
    replace (length l + 1)%nat with (length (l ++ [DOT])) by (rewrite length_app; done).
    rewrite strncmp_prefix; [|apply Forall_app; split; [by apply plain_nonzero|by repeat constructor]]. split.
    + intros [(y & ->) _]. exists (DOT :: y). rewrite <- app_assoc. split; [done|]. right. eauto.
    + intros (y & -> & [->|(y' & ->)]).
      * exfalso. rewrite app_nil_r in Hle. eapply short_key_first; [exact Hl|exact Htc|done|exact Hle].
      * split; [|done]. exists y'. by rewrite <- app_assoc.
Qed.

Lemma group_of_ok l t T : Forall plain l -> label_end t -> Forall key_char t ->
  Forall (fun e => labels_ok e.1) T ->
  StronglySorted (fun a b => ngx_dns_strcmp (key_of_entry a) (key_of_entry b) <= 0) T ->
  Forall (fun e => ngx_dns_strcmp (l ++ t) (key_of_entry e) <= 0) T ->
  group_of (l ++ t) (length l + if bool_decide (t = []) then 0 else 1) (negb (bool_decide (t = []))) (names T) =
  (names (List.filter (first_label l) T), names (List.filter (fun e => negb (first_label l e)) T)).
Proof.
  intros Hl Ht Htc. induction T as [|e T IH]; intros Hok Hs Hle; [done|].
  apply Forall_cons in Hok as [He Hok]. apply Forall_cons in Hle as [Hle1 Hle]. inversion_clear Hs as [|? ? Hs' He'].
  cbn [names map]. rewrite group_of_cons. pose proof (goes_with_ok l t (key_of_entry e) Hl Ht Htc (entry_chars e He) Hle1) as Htest.
  unfold key_of_entry at 2 in Htest. rewrite has_label_spell in Htest by done.
  cbn [List.filter]. destruct (first_label l e) eqn:Ef.
  - apply bool_decide_eq_true in Ef. rewrite (proj2 Htest Ef). fold (names T). rewrite IH by done. done.
  - apply bool_decide_eq_false in Ef. destruct (goes_with _ _ _ _) eqn:Eg; [by destruct Ef; apply Htest|]. cbn [negb].
    assert (Hno : Forall (fun c => first_label l c = false) T).
    { apply Forall_forall. intros c Hc. apply bool_decide_eq_false_2. intros Hcl. apply Ef.
      rewrite Forall_forall in He', Hle, Hok.
      apply (has_label_spell l e.1 e.2.1 Hl He). apply (label_convex l (l ++ t) _ (key_of_entry c)); try done.
      - apply Forall_app. split; [|done]. eapply Forall_impl; [exact Hl|by left].
      - by apply entry_chars.
      - by apply entry_chars, Hok.
      - by apply He'.
      - by exists t.
      - apply has_label_spell; auto. }
    clear -Hno. assert (E : List.filter (first_label l) T = [] /\ List.filter (fun e => negb (first_label l e)) T = T).
    { induction Hno as [|c T Hc _ [IH1 IH2]]; [done|]. cbn. rewrite Hc. cbn. by rewrite IH1, IH2. }
    destruct E as [-> ->]. done.
Qed.

(** * The next level *)

Lemma sorted_omap {A B} (R : A -> A -> Prop) (R' : B -> B -> Prop) (f : A -> option B) (l : list A) :
  (forall a b a' b', a ∈ l -> b ∈ l -> f a = Some a' -> f b = Some b' -> R a b -> R' a' b') ->
  StronglySorted R l -> StronglySorted R' (omap f l).
Proof.
  intros Hf Hs. induction Hs as [|a l Hs IH Ha]; [constructor|]. cbn.
  assert (IH' : StronglySorted R' (omap f l)).
  { apply IH. intros x y x' y' Hx Hy. apply Hf; by constructor. }
  destruct (f a) as [a'|] eqn:Ea; [|done]. constructor; [done|]. apply Forall_forall. intros b' Hb'.
  apply list_elem_of_omap in Hb' as (b & Hb & Eb). rewrite Forall_forall in Ha.
  apply (Hf a b); [constructor|by constructor|done|done|by apply Ha].
Qed.

Lemma strip_some l e e' : strip l e = Some e' -> e.1 = l :: e'.1 /\ e'.1 <> [] /\ e.2 = e'.2.
Proof.
  unfold strip. destruct e as [[|l' [|l2 labels]] x]; cbn; [done|done|]. case_decide as E; [|done].
  intros [= <-]. subst l'. done.
Qed.

Lemma key_of_strip l e e' : strip l e = Some e' -> key_of_entry e = l ++ DOT :: key_of_entry e'.
Proof.
  intros (E1 & E2 & E3)%strip_some. unfold key_of_entry. rewrite E1, E3. by destruct (e'.1) as [|l2 labels].
Qed.

Lemma sub_ok T l : TOk T -> TOk (sub T l).
Proof.
  intros [H1 H2 H3]. rewrite Forall_forall in H1. split.
  - apply Forall_forall. intros e' He'. apply list_elem_of_omap in He' as (e & He & Es).
    specialize (H1 e He). apply strip_some in Es as (E1 & E2 & _). rewrite E1 in H1.
    destruct (e'.1) as [|l2 labels]; [done|]. by apply labels_ok_cons in H1 as [_ ?].
  - eapply sorted_omap; [|exact H2]. intros a b a' b' Ha Hb Ea Eb Hab.
    pose proof (entry_chars a (H1 a Ha)) as Ca. pose proof (entry_chars b (H1 b Hb)) as Cb.
    apply dns_strcmp_le in Hab; [|done..].
    rewrite (key_of_strip l a a' Ea) in Hab, Ca. rewrite (key_of_strip l b b' Eb) in Hab, Cb.
    rewrite !dns_key_app in Hab. rewrite bytes_cmp_app in Hab. cbn in Hab.
    apply Forall_app in Ca as [_ Ca]. apply Forall_app in Cb as [_ Cb]. apply Forall_cons in Ca as [_ Ca], Cb as [_ Cb].
    by apply dns_strcmp_le.
  - clear H1 H2. unfold sub. induction T as [|e T IH]; [constructor|]. cbn in H3. apply NoDup_cons in H3 as [Hn H3].
    cbn. destruct (strip l e) as [e'|] eqn:Es; [|by apply IH]. cbn. constructor; [|by apply IH].
    intros Hin. apply Hn. apply list_elem_of_fmap in Hin as (x' & E & Hx). apply list_elem_of_omap in Hx as (x & Hx & Ex).
    apply list_elem_of_fmap. exists x. split; [|done].
    apply strip_some in Es as (-> & _). apply strip_some in Ex as (-> & _). by rewrite E.
Qed.

Lemma filter_ok T f : TOk T -> TOk (List.filter f T).
Proof.
  intros [H1 H2 H3]. induction T as [|e T IH]; [by split|]. apply Forall_cons in H1 as [H1 H1'].
  inversion_clear H2 as [|? ? H2' H2'']. cbn in H3. apply NoDup_cons in H3 as [H3 H3'].
  destruct (IH H1' H2' H3') as [I1 I2 I3]. cbn. destruct (f e); [|done].
  assert (Hsub : forall x, x ∈ List.filter f T -> x ∈ T).
  { intros x Hx. apply list_elem_of_In, filter_In in Hx as [Hx _]. by apply list_elem_of_In. }
  split; [by constructor| |].
  - constructor; [done|]. rewrite Forall_forall in *. auto.
  - cbn. constructor; [|done]. intros Hin. apply H3. apply list_elem_of_fmap in Hin as (x & E & Hx).
    apply list_elem_of_fmap. eauto.
Qed.

Lemma first_label_true l e : first_label l e = true <-> head e.1 = Some l.
Proof. apply bool_decide_eq_true. Qed.

(** The entries of the other labels. *)
Lemma others_same l l' T : l' <> l ->
  tfind [l'] (List.filter (fun e => negb (first_label l e)) T) = tfind [l'] T /\
  sub (List.filter (fun e => negb (first_label l e)) T) l' = sub T l'.
Proof.
  intros Hne. unfold sub. induction T as [|e T [IH1 IH2]]; [done|]. cbn [List.filter].
  destruct (first_label l e) eqn:E; cbn [negb].
  - apply first_label_true in E. cbn. destruct (e.1) as [|l1 labels] eqn:E1; [done|]. cbn in E. injection E as ->.
    rewrite decide_False by congruence. unfold strip at 2. rewrite E1. destruct labels; [done|].
    rewrite decide_False by congruence. done.
  - cbn. rewrite IH1, IH2. done.
Qed.

Lemma others_none l T :
  tfind [l] (List.filter (fun e => negb (first_label l e)) T) = None /\
  sub (List.filter (fun e => negb (first_label l e)) T) l = [].
Proof.
  unfold sub. induction T as [|e T [IH1 IH2]]; [done|]. cbn [List.filter].
  destruct (first_label l e) eqn:E; cbn [negb]; [done|]. cbn. rewrite IH1, IH2.
  assert (head e.1 <> Some l) by (intros H; apply first_label_true in H; congruence).
  destruct (e.1) as [|l1 labels] eqn:E1; cbn in *; unfold strip; rewrite E1; [done|].
  rewrite decide_False by congruence. destruct labels; [done|]. by rewrite decide_False by congruence.
Qed.

Lemma sub_group l T : Forall (fun e => labels_ok e.1) T -> (forall e, e ∈ T -> e.1 <> [l]) ->
  map (fun n : list Z * V => (drop (S (length l)) n.1, n.2)) (names (List.filter (first_label l) T)) = names (sub T l) /\
  existsb (fun n : list Z * V => (length n.1 <? S (length l))%nat) (names (List.filter (first_label l) T)) = false.
Proof.
  unfold sub. induction T as [|e T IH]; intros Hok Hne; [done|]. apply Forall_cons in Hok as [He Hok].
  destruct (IH Hok) as [IH1 IH2]; [intros x Hx; apply Hne; by constructor|]. cbn [List.filter omap list_omap].
  destruct (first_label l e) eqn:Ef.
  - apply first_label_true in Ef. assert (Hs : exists e', strip l e = Some e').
    { destruct e as [[|l1 [|l2 labels]] x]; cbn in Ef; [done| |].
      - injection Ef as ->. by destruct (Hne ([l], x) ltac:(constructor)).
      - injection Ef as ->. unfold strip. cbn. rewrite decide_True by done. eauto. }
    destruct Hs as [e' Es]. rewrite Es. cbn [names map existsb fst snd].
    rewrite (key_of_strip _ _ _ Es). apply strip_some in Es as (_ & _ & ->). fold (names (List.filter (first_label l) T)).
    fold (names (omap (strip l) T)). rewrite IH1, IH2. split.
    + f_equal. f_equal. change (l ++ DOT :: key_of_entry e') with (l ++ [DOT] ++ key_of_entry e'). rewrite app_assoc. apply drop_app_length'. rewrite length_app. cbn. lia.
    + rewrite length_app. cbn [length]. rewrite orb_false_r. apply Nat.ltb_ge. lia.
  - assert (strip l e = None) as ->; [|done]. unfold strip. destruct e as [[|l1 [|l2 labels]] x]; try done. cbn.
    rewrite decide_False; [done|]. intros ->. assert (first_label l (l :: l2 :: labels, x) = true) by by apply first_label_true. congruence.
Qed.

(** * What a wildcard hash holds *)

(** The value for a first label. *)
Definition value_ok T (l : list Z) (o : option (wval V)) : Prop :=
  match o with
  | None => tfind [l] T = None /\ sub T l = []
  | Some (Data v) => tfind [l] T = Some (true, v) /\ sub T l = []
  | Some (DataOnly v) => tfind [l] T = Some (false, v) /\ sub T l = []
  | Some (Sub w) => exists v, tfind [l] T = Some (true, v) /\ w_value w = Some v
  | Some (SubOnly w) =>
    match tfind [l] T with
    | Some (both, v) => both = false /\ w_value w = Some v
    | None => w_value w = None
    end
  end.

Definition is_sub (o : option (wval V)) (w : wild V) : Prop := o = Some (Sub w) \/ o = Some (SubOnly w).

Inductive WOk : ngx_hash_t (wval V) -> list (entry V) -> Prop :=
| WOk_intro h T :
    (forall l, exists o, ngx_hash_find h (ngx_hash_key l) l = Ret o /\ value_ok T l o) ->
    (forall l o w, ngx_hash_find h (ngx_hash_key l) l = Ret o -> is_sub o w -> WOk (w_hash w) (sub T l)) ->
    WOk h T.

(** The three shapes of a key. *)
Lemma key_cases l labels both : labels_ok (l :: labels) ->
  exists t, spell (l :: labels) both = l ++ t /\ label_end t /\
    ((labels = [] /\ both = true /\ t = []) \/ (labels = [] /\ both = false /\ t = [DOT]) \/
     (labels <> [] /\ t = DOT :: spell labels both /\ spell labels both <> [])).
Proof.
  intros Hok. destruct labels as [|l2 labels].
  - cbn. destruct both; [exists []|exists [DOT]]; rewrite ?app_nil_r; (split; [done|]).
    + split; [by left|]. by left.
    + split; [right; by exists []|]. right. by left.
  - rewrite spell_cons. eexists. split; [done|]. split; [right; eauto|]. right. right. split_and!; [done|done|].
    destruct Hok as (_ & _ & Hlast). cbn in Hlast. destruct labels; cbn; [|by destruct l2].
    destruct both; [|by destruct l2]. intros ->. done.
Qed.

(** A name of its own is the first of its label. *)
Lemma own_first e T l labels : TOk (e :: T) -> e.1 = l :: labels -> forall x, x ∈ T -> x.1 <> [l].
Proof.
  intros [H1 H2 H3] E x Hx Ex. apply Forall_cons in H1 as [He H1]. inversion_clear H2 as [|? ? _ Hle].
  rewrite Forall_forall in H1, Hle. cbn in H3. apply NoDup_cons in H3 as [Hn _].
  destruct labels as [|l2 labels].
  - apply Hn. apply list_elem_of_fmap. exists x. by rewrite E, Ex.
  - specialize (Hle x Hx). apply dns_strcmp_le in Hle; [|by apply entry_chars|by apply entry_chars, H1].
    rewrite E in He. unfold key_of_entry in Hle. rewrite E, Ex in Hle.
    destruct (key_cases l (l2 :: labels) e.2.1 He) as (t & Et & _ & [(? & _)|[(? & _)|(_ & -> & Hne)]]); [done|done|].
    rewrite Et in Hle. clear Et. destruct (spell (l2 :: labels) e.2.1) as [|c s]; [done|].
    change (spell [l] x.2.1) with (if x.2.1 then l else l ++ [DOT]) in Hle.
    rewrite dns_key_app in Hle. destruct x.2.1.
    + rewrite <- (app_nil_r (dns_key l)) in Hle at 2. rewrite bytes_cmp_app in Hle. cbn in Hle. lia.
    + rewrite dns_key_app, bytes_cmp_app in Hle. cbn in Hle. lia.
Qed.

Lemma label_len_end l t : Forall plain l -> label_end t -> label_len (l ++ t) = length l.
Proof.
  intros Hl [->|(t' & ->)]; [rewrite app_nil_r; by apply label_len_all|by apply label_len_app].
Qed.

Definition other_names (l : list Z) T : list (entry V) := List.filter (fun e => negb (first_label l e)) T.

(** One round of the loop, on entries. *)
Lemma wildcard_loop_cons rec fuel e T l labels : TOk (e :: T) -> e.1 = l :: labels ->
  wildcard_loop rec (S fuel) (names (e :: T)) =
  (let own := bool_decide (labels = []) in
   let dot := negb (own && e.2.1) in
   let! value :=
     match names (sub (e :: T) l) with
     | [] => Ret (Some (if dot then DataOnly e.2.2 else Data e.2.2))
     | next =>
       let! w := rec next in
       match w with
       | None => Ret None
       | Some (MkWild h value) =>
         let w := MkWild h (if own then Some e.2.2 else value) in
         Ret (Some (if dot then SubOnly w else Sub w))
       end
     end in
   match value with
   | None => Ret None
   | Some value =>
     let! r := wildcard_loop rec fuel (names (other_names l T)) in
     Ret (option_map (cons (MkKey l false (ngx_hash_key_lc l) value)) r)
   end).
Proof.
  intros HT E. pose proof (own_first e T l labels HT E) as Hfirst. destruct HT as [H1 H2 H3].
  apply Forall_cons in H1 as [He H1]. inversion_clear H2 as [|? ? H2' Hle]. rewrite E in He.
  assert (Hl : Forall plain l) by (destruct He as (_ & Hp & _); by apply Forall_cons in Hp as [? _]).
  destruct (key_cases l labels e.2.1 He) as (t & Et & Hend & Hcase).
  assert (Hkey : key_of_entry e = l ++ t) by (unfold key_of_entry; by rewrite E).
  assert (Htc : Forall key_char t).
  { assert (Hc : Forall key_char (key_of_entry e)) by (apply entry_chars; by rewrite E).
    rewrite Hkey in Hc. by apply Forall_app in Hc as [_ ?]. }
  destruct (sub_group l T H1 Hfirst) as [Hsub Hex].
  assert (Hgroup := group_of_ok l t T Hl Hend Htc H1 H2').
  rewrite <- Hkey in Hgroup. specialize (Hgroup Hle). rewrite Hkey in Hgroup.
  cbn [names map wildcard_loop]. fold (names T). rewrite Hkey, (label_len_end l t Hl Hend).
  assert (Hdot : (length l <? length (l ++ t))%nat = negb (bool_decide (t = []))).
  { rewrite length_app. destruct t; [rewrite bool_decide_eq_true_2 by done; apply Nat.ltb_ge; cbn; lia|].
    rewrite bool_decide_eq_false_2 by done. apply Nat.ltb_lt. cbn. lia. }
  rewrite Hdot.
  assert (Hlen : (if negb (bool_decide (t = [])) then S (length l) else length l) =
                 (length l + if bool_decide (t = []) then 0 else 1)%nat) by (destruct (bool_decide (t = [])); cbn; lia).
  rewrite Hlen, Hgroup, Hex, Hsub, take_app_length. fold (other_names l T).
  assert (Hneg : negb (bool_decide (t = [])) = negb (bool_decide (labels = []) && e.2.1)).
  { destruct Hcase as [(-> & -> & ->)|[(-> & -> & ->)|(Hne & -> & _)]]; [done|done|].
    by rewrite !bool_decide_eq_false_2. }
  assert (Hown : (length (l ++ t) =? length l + (if bool_decide (t = []) then 0 else 1))%nat = bool_decide (labels = [])).
  { rewrite length_app. destruct Hcase as [(-> & _ & ->)|[(-> & _ & ->)|(Hne & -> & Hs)]].
    - by rewrite !bool_decide_eq_true_2, Nat.eqb_refl.
    - cbn. by rewrite Nat.eqb_refl.
    - rewrite !bool_decide_eq_false_2 by done. apply Nat.eqb_neq. cbn. destruct (spell labels e.2.1); [done|]. cbn. lia. }
  rewrite Hown, <- Hneg.
  assert (Hnext : (if bool_decide (labels = []) then [] else
             [(drop (length l + (if bool_decide (t = []) then 0 else 1)) (l ++ t), e.2.2)]) ++ names (sub T l) =
            names (sub (e :: T) l)).
  { unfold sub. cbn [omap list_omap]. unfold strip at 2. rewrite E.
    destruct Hcase as [(-> & _ & ->)|[(-> & _ & ->)|(Hne & -> & Hs)]]; [done|done|].
    destruct labels as [|l2 labels]; [done|]. rewrite !bool_decide_eq_false_2 by done. rewrite decide_True by done.
    cbn [names map app fst snd tl]. f_equal. f_equal. unfold key_of_entry. cbn [fst snd].
    change (l ++ DOT :: ?x) with (l ++ [DOT] ++ x). rewrite app_assoc. apply drop_app_length'. rewrite length_app. done. }
  rewrite Hnext. by destruct (names (sub (e :: T) l)).
Qed.

Lemma tfind_own e T l labels : e.1 = l :: labels -> (forall x, x ∈ T -> x.1 <> [l]) ->
  tfind [l] (e :: T) = if bool_decide (labels = []) then Some e.2 else None.
Proof.
  intros E Hne. cbn. rewrite E. destruct labels as [|l2 labels].
  - by rewrite decide_True, bool_decide_eq_true_2.
  - rewrite decide_False, bool_decide_eq_false_2 by done. induction T as [|x T IH]; [done|]. cbn.
    rewrite decide_False by (apply Hne; constructor). apply IH. intros y Hy. apply Hne. by constructor.
Qed.

Lemma names_find_cons (n : ngx_hash_key_t (wval V)) curr l : hk_null n = false ->
  names_find (n :: curr) l = if decide (ngx_strlow (hk_data n) = l) then Some (hk_value n) else names_find curr l.
Proof. intros Hn. unfold names_find. cbn. by rewrite Hn. Qed.

Lemma strlow_plain l : Forall plain l -> ngx_strlow l = l.
Proof. intros Hl. apply strlow_fix. eapply Forall_impl; [exact Hl|]. by intros c (_ & _ & ?). Qed.

Lemma hash_key_lc l : ngx_hash_key_lc l = ngx_hash_key (ngx_strlow l).
Proof.
  unfold ngx_hash_key_lc, ngx_hash_key, ngx_strlow. generalize 0. induction l as [|c l IH]; intros k; [done|]. cbn. apply IH.
Qed.

(** The builder of the next levels, for names of at most [n] labels. *)
Definition rec_ok (rec : list (list Z * V) -> outcome (option (wild V))) (n : nat) : Prop :=
  forall T, TOk T -> T <> [] -> Forall (fun e => (length e.1 <= n)%nat) T ->
  exists r, rec (names T) = Ret r /\ forall w, r = Some w -> WOk (w_hash w) T /\ w_value w = None.

Definition level_ok T (curr : list (ngx_hash_key_t (wval V))) : Prop :=
  hashes_ok curr /\ forall l, value_ok T l (names_find curr l) /\
    forall w, is_sub (names_find curr l) w -> WOk (w_hash w) (sub T l).

(** The level of an entry and those of its label, before the other labels. *)
Lemma level_cons e T l labels value curr : TOk (e :: T) -> e.1 = l :: labels ->
  value_ok (e :: T) l (Some value) -> (forall w, is_sub (Some value) w -> WOk (w_hash w) (sub (e :: T) l)) ->
  level_ok (other_names l T) curr -> level_ok (e :: T) (MkKey l false (ngx_hash_key_lc l) value :: curr).
Proof.
  intros HT E Hv Hw [Hh Hc]. assert (Hl : Forall plain l).
  { destruct HT as [H1 _ _]. apply Forall_cons in H1 as [(_ & Hp & _) _]. rewrite E in Hp. by apply Forall_cons in Hp as [? _]. }
  split.
  - constructor; [|done]. intros _. cbn. apply hash_key_lc.
  - intros l'. rewrite names_find_cons by done. cbn [hk_data hk_value]. rewrite strlow_plain by done.
    case_decide as El; [by subst l'|]. destruct (Hc l') as [Hv' Hw'].
    assert (Hother : tfind [l'] (other_names l T) = tfind [l'] (e :: T) /\ sub (other_names l T) l' = sub (e :: T) l').
    { assert (Ho : other_names l (e :: T) = other_names l T).
      { unfold other_names. cbn [List.filter]. unfold first_label at 1. rewrite E, bool_decide_eq_true_2 by done. done. }
      rewrite <- Ho. by apply others_same. }
    destruct Hother as [Ht Hs]. unfold value_ok in *. rewrite Ht, Hs in *. done.
Qed.

Lemma wildcard_loop_ok rec n : rec_ok rec n -> forall fuel T, (length T <= fuel)%nat ->
  TOk T -> Forall (fun e => (length e.1 <= S n)%nat) T ->
  exists r, wildcard_loop rec fuel (names T) = Ret r /\ forall curr, r = Some curr -> level_ok T curr.
Proof.
  intros Hrec. induction fuel as [|fuel IH]; intros T Hf HT Hlen.
  { destruct T; [|cbn in Hf; lia]. exists (Some []). split; [done|]. intros curr [= <-]. split; [constructor|].
    intros l. split; [done|]. intros w [?|?]; done. }
  destruct T as [|e T].
  { exists (Some []). split; [done|]. intros curr [= <-]. split; [constructor|]. intros l. split; [done|].
    intros w [?|?]; done. }
  assert (Hl : exists l labels, e.1 = l :: labels).
  { destruct HT as [H1 _ _]. apply Forall_cons in H1 as [(Hne & _) _]. destruct (e.1); [done|]. eauto. }
  destruct Hl as (l & labels & E). rewrite (wildcard_loop_cons rec fuel e T l labels HT E). cbn zeta.
  pose proof (tfind_own e T l labels E (own_first e T l labels HT E)) as Hown.
  assert (Hsl : Forall (fun e => (length e.1 <= n)%nat) (sub (e :: T) l)).
  { apply Forall_forall. intros x' Hx'. apply list_elem_of_omap in Hx' as (x & Hx & Es).
    rewrite Forall_forall in Hlen. specialize (Hlen x Hx). apply strip_some in Es as (Ex & _). rewrite Ex in Hlen. cbn in Hlen. lia. }
  set (dot := negb (bool_decide (labels = []) && e.2.1)).
  assert (Hvalue : exists o, match names (sub (e :: T) l) with
     | [] => Ret (Some (if dot then DataOnly e.2.2 else Data e.2.2))
     | next => let! w := rec next in
       match w with
       | None => Ret None
       | Some (MkWild h value) =>
         Ret (Some (if dot then SubOnly (MkWild h (if bool_decide (labels = []) then Some e.2.2 else value))
                    else Sub (MkWild h (if bool_decide (labels = []) then Some e.2.2 else value))))
       end
     end = Ret o /\ forall value, o = Some value -> value_ok (e :: T) l (Some value) /\
       forall w, is_sub (Some value) w -> WOk (w_hash w) (sub (e :: T) l)).
  { assert (Hcase : sub (e :: T) l = [] \/ sub (e :: T) l <> []) by (destruct (sub (e :: T) l); auto).
    destruct Hcase as [Esub|Hne].
    - assert (En : names (sub (e :: T) l) = []) by (by rewrite Esub). rewrite En. eexists. split; [done|]. intros value [= <-]. split; [|intros w [?|?]; by destruct dot].
      assert (Hlab : labels = []).
      { destruct labels as [|l2 labels]; [done|]. exfalso. unfold sub in Esub. cbn in Esub. unfold strip at 1 in Esub.
        rewrite E, decide_True in Esub; done. }
      unfold dot. rewrite bool_decide_eq_true_2 in * by done. destruct e as [? [both v]]. cbn [snd fst andb] in *.
      destruct both; (split; [exact Hown|exact Esub]).
    - destruct (Hrec (sub (e :: T) l) (sub_ok _ l HT) Hne Hsl) as (r & Er & Hr).
      destruct (names (sub (e :: T) l)) as [|x names'] eqn:En; [by destruct (sub (e :: T) l)|]. rewrite Er. cbn [outcome_bind].
      destruct r as [[h value]|]; [|by exists None]. eexists. split; [done|]. intros value' [= <-].
      destruct (Hr _ eq_refl) as [HW Hnone]. cbn in HW, Hnone. subst value.
      split; [clear HW|intros w [Hw|Hw]; clearbody dot; destruct dot; try discriminate Hw; injection Hw as <-; exact HW].
      unfold dot. clear -Hown. destruct (bool_decide (labels = [])), (e.2) as [[|] v];
        cbn [andb negb fst snd] in *; unfold value_ok; cbn [w_value]; rewrite Hown; try done; by exists v. }
  destruct Hvalue as (o & Eo & Ho). rewrite Eo. cbn [outcome_bind]. destruct o as [value|]; [|by exists None].
  destruct (Ho value eq_refl) as [Hv Hw].
  destruct (IH (other_names l T)) as (r & Er & Hr).
  - etrans; [apply filter_length_le|]. cbn in Hf. lia.
  - apply filter_ok. destruct HT as [H1 H2 H3]. apply Forall_cons in H1 as [_ H1]. inversion_clear H2. cbn in H3.
    apply NoDup_cons in H3 as [_ H3]. done.
  - apply Forall_forall. intros x Hx. apply list_elem_of_In, filter_In in Hx as [Hx _]. apply list_elem_of_In in Hx.
    rewrite Forall_forall in Hlen. apply Hlen. by constructor.
  - rewrite Er. cbn [outcome_bind]. destruct r as [curr|]; [|by exists None]. eexists. split; [done|].
    intros curr' [= <-]. by eapply level_cons; [| | | |apply Hr].
Qed.

Lemma WOk_of_level m h T curr : 0 <= m <= 12 -> HashOk h curr -> level_ok T curr -> WOk h T.
Proof.
  intros Hm Hh [Hhash Hlev]. constructor.
  - intros l. exists (names_find curr l). split; [by apply hash_find_ok|apply Hlev].
  - intros l o w Ho Hw. rewrite (hash_find_ok h curr l Hh Hhash) in Ho. injection Ho as <-. by apply Hlev.
Qed.

Lemma wildcard_init_ok m hinit : 0 <= m <= 12 -> 24 <= bucket_size hinit <= 32768 -> forall fuel T,
  (0 < fuel)%nat -> TOk T -> Forall (fun e => (length e.1 <= fuel)%nat) T ->
  exists r, ngx_hash_wildcard_init (2 ^ m) hinit fuel (names T) = Ret r /\
    forall w, r = Some w -> WOk (w_hash w) T /\ w_value w = None.
Proof.
  intros Hm Hb. induction fuel as [|n IH]; intros T Hf HT Hlen; [lia|]. cbn [ngx_hash_wildcard_init].
  assert (Hrec : rec_ok (ngx_hash_wildcard_init (2 ^ m) hinit n) n).
  { intros T' HT' Hne Hlen'. apply IH; [|done|done]. destruct n; [|lia]. exfalso. destruct T' as [|e T']; [done|].
    apply Forall_cons in Hlen' as [He _]. destruct HT' as [H1 _ _]. apply Forall_cons in H1 as [(Hne' & _) _].
    destruct (e.1); [done|]. cbn in He. lia. }
  destruct (wildcard_loop_ok _ n Hrec (length (names T)) T) as (r & Er & Hr); [unfold names; by rewrite length_map|done|done|].
  rewrite Er. cbn [outcome_bind]. destruct r as [curr|]; [|by exists None].
  destruct (hash_init_ok m Hm hinit curr Hb) as (rh & Eh & _ & Hh). rewrite Eh. cbn [outcome_bind].
  destruct rh as [h|]; [|by exists None]. eexists. split; [done|]. intros w [= <-]. split; [|done].
  eapply WOk_of_level; [done|by apply Hh|by apply Hr].
Qed.

(** * Searching from the end of a name *)

Definition no_dot (l : list Z) : Prop := Forall (fun c => c <> DOT) l.

Lemma label_len_no_dot l t : no_dot l -> label_end t -> label_len (l ++ t) = length l.
Proof.
  intros Hl Ht. induction Hl as [|c l Hc _ IH]; cbn.
  - by destruct Ht as [->|(t' & ->)].
  - unfold DOT in Hc. rewrite (proj2 (Z.eqb_neq _ _) Hc). by f_equal.
Qed.

(** The name of the labels, the last label first. *)
Fixpoint head_name (labels : list (list Z)) : list Z :=
  match labels with
  | [] => []
  | [l] => l
  | l :: labels => head_name labels ++ DOT :: l
  end.

(** What a search in a hash with the value [val] gives. *)
Definition found_or (val o : option V) (r : option V) : Prop :=
  match o with Some v => r = Some v | None => r = None \/ r = val end.

Lemma find_wc_head_ok labels : labels <> [] -> Forall no_dot labels ->
  forall fuel h val T, (length labels <= fuel)%nat -> WOk h T ->
  exists r, ngx_hash_find_wc_head fuel (MkWild h val) (head_name labels) = Ret r /\ found_or val (best T labels) r.
Proof.
  intros Hne Hnd. induction labels as [|l rest IH]; [done|]. apply Forall_cons in Hnd as [Hl Hnd].
  intros [|fuel] h val T Hf HW; [cbn in Hf; lia|]. cbn [ngx_hash_find_wc_head w_hash].
  set (name := head_name (l :: rest)). set (n := (length name - label_len (List.rev name))%nat).
  assert (Hn : drop n name = l /\ ((rest = [] /\ n = 0%nat) \/
                (rest <> [] /\ n <> 0%nat /\ take (n - 1) name = head_name rest))).
  { unfold n, name. destruct rest as [|l2 rest].
    - cbn [head_name]. rewrite <- (app_nil_r (List.rev l)), label_len_no_dot, length_rev, Nat.sub_diag; [by auto| |by left].
      by apply Forall_rev.
    - change (head_name (l :: l2 :: rest)) with (head_name (l2 :: rest) ++ DOT :: l).
      rewrite rev_app_distr. cbn [List.rev]. rewrite <- !app_assoc.
      rewrite label_len_no_dot, length_rev, length_app; [|by apply Forall_rev|right; cbn; eauto].
      cbn [length]. replace (length (head_name (l2 :: rest)) + S (length l) - length l)%nat
        with (S (length (head_name (l2 :: rest)))) by lia.
      split; [|right; split_and!; [done|done|]].
      + change (?x ++ DOT :: l) with (x ++ [DOT] ++ l). rewrite app_assoc. apply drop_app_length'.
        rewrite length_app. cbn. lia.
      + rewrite Nat.sub_succ, Nat.sub_0_r. apply take_app_length. }
  destruct Hn as [Hd Hn]. rewrite Hd. clearbody n. fold (ngx_hash_key l). destruct HW as [h T Hfind Hsub].
  destruct (Hfind l) as (o & Eo & Hv). rewrite Eo. cbn [outcome_bind]. rewrite best_cons.
  assert (Hrec : forall w, is_sub o w -> rest <> [] ->
    exists r, or_value w (ngx_hash_find_wc_head fuel w (take (n - 1) name)) = Ret r /\
      r = match best (sub T l) rest with Some v => Some v | None => w_value w end).
  { intros w Hw Hrest. destruct Hn as [(? & _)|(_ & _ & ->)]; [done|]. specialize (Hsub l o w Eo Hw).
    destruct w as [hw vw]. cbn [w_hash] in Hsub.
    destruct (IH Hrest Hnd fuel hw vw (sub T l)) as (r & Er & Hr); [cbn in Hf; lia|done|].
    unfold or_value. rewrite Er. cbn [outcome_bind w_value]. eexists. split; [done|]. unfold found_or in Hr.
    destruct (best (sub T l) rest); [by rewrite Hr|]. by destruct Hr as [-> | ->]; destruct vw. }
  assert (Hnil : best (sub T l) [] = None) by done.
  assert (Hempty : sub T l = [] -> best (sub T l) rest = None).
  { intros ->. clear. unfold best. generalize (length rest). induction n as [|k IH]; [done|]. cbn. apply IH. }
  destruct o as [[v|v|w|w]|]; cbn [value_ok] in Hv.
  - destruct Hv as [Hown Hs]. exists (Some v). split; [done|]. rewrite (Hempty Hs), Hown. done.
  - destruct Hv as [Hown Hs]. rewrite (Hempty Hs), Hown. cbn [orb].
    destruct Hn as [(-> & ->)|(Hrest & Hn0 & _)]; cbn [Nat.eqb].
    + exists None. split; [done|]. by left.
    + rewrite (proj2 (Nat.eqb_neq n 0) Hn0), bool_decide_eq_false_2 by done. by exists (Some v).
  - destruct Hv as (v & Hown & Hwv). rewrite Hown. cbn [orb].
    destruct Hn as [(-> & ->)|(Hrest & Hn0 & _)]; cbn [Nat.eqb].
    + rewrite Hnil. exists (w_value w). split; [done|]. by rewrite Hwv.
    + rewrite (proj2 (Nat.eqb_neq n 0) Hn0). destruct (Hrec w (or_introl eq_refl) Hrest) as (r & Er & ->).
      rewrite Er. eexists. split; [done|]. rewrite Hwv. by destruct (best (sub T l) rest).
  - destruct Hn as [(-> & ->)|(Hrest & Hn0 & _)]; cbn [Nat.eqb].
    + rewrite Hnil. exists None. split; [done|]. destruct (tfind [l] T) as [[both v]|]; [|by left].
      destruct Hv as [-> _]. by left.
    + rewrite (proj2 (Nat.eqb_neq n 0) Hn0). destruct (Hrec w (or_intror eq_refl) Hrest) as (r & Er & ->).
      rewrite Er. eexists. split; [done|]. destruct (best (sub T l) rest); [done|].
      destruct (tfind [l] T) as [[both v]|]; [|rewrite Hv; by left].
      destruct Hv as [-> ->]. by rewrite bool_decide_eq_false_2.
  - destruct Hv as [Hown Hs]. exists val. split; [done|]. rewrite (Hempty Hs), Hown. by right.
Qed.

(** * Searching from the beginning of a name *)

Fixpoint tail_name (labels : list (list Z)) : list Z :=
  match labels with
  | [] => []
  | [l] => l
  | l :: labels => l ++ DOT :: tail_name labels
  end.

(** The names of the tail hash are spelled as those that match themselves, and
    match names with more labels only. *)
Definition longer T : list (entry V) := map (fun e => (e.1, (false, e.2.2))) T.

Lemma tfind_longer labels T : tfind labels (longer T) = option_map (fun x => (false, x.2)) (tfind labels T).
Proof. induction T as [|e T IH]; [done|]. cbn. by case_decide. Qed.

Lemma sub_longer T l : sub (longer T) l = longer (sub T l).
Proof.
  unfold sub, longer. induction T as [|e T IH]; [done|]. cbn. rewrite IH. unfold strip.
  destruct (e.1) as [|l1 [|l2 labels]] eqn:E; cbn [fst]; rewrite ?E; try done. by case_decide.
Qed.

Lemma find_wc_tail_ok labels : labels <> [] -> Forall no_dot labels ->
  forall fuel h val T, (length labels <= fuel)%nat -> WOk h T -> Forall (fun e => e.2.1 = true) T ->
  exists r, ngx_hash_find_wc_tail fuel (MkWild h val) (tail_name labels) = Ret r /\
    found_or val (best (longer T) labels) r.
Proof.
  intros Hne Hnd. induction labels as [|l rest IH]; [done|]. apply Forall_cons in Hnd as [Hl Hnd].
  intros [|fuel] h val T Hf HW Hboth; [cbn in Hf; lia|]. cbn [ngx_hash_find_wc_tail w_hash].
  set (name := tail_name (l :: rest)).
  assert (Hlen : label_len name = length l /\ take (length l) name = l /\
    ((rest = [] /\ length name = length l) \/
     (rest <> [] /\ (length l < length name)%nat /\ drop (length l + 1) name = tail_name rest))).
  { unfold name. destruct rest as [|l2 rest].
    - cbn [tail_name]. rewrite <- (app_nil_r l), label_len_no_dot, !app_nil_r by (done || by left).
      split_and!; [done|by rewrite take_ge|by left].
    - change (tail_name (l :: l2 :: rest)) with (l ++ DOT :: tail_name (l2 :: rest)).
      rewrite label_len_no_dot by (done || (right; eauto)). split_and!; [done|apply take_app_length|].
      right. split_and!; [done|rewrite length_app; cbn; lia|].
      change (l ++ DOT :: ?x) with (l ++ [DOT] ++ x). rewrite app_assoc. apply drop_app_length'. by rewrite length_app. }
  destruct Hlen as (-> & -> & Hn). rewrite best_cons, sub_longer, tfind_longer.
  assert (Hempty : sub T l = [] -> best (longer (sub T l)) rest = None).
  { intros ->. clear. unfold best. generalize (length rest). induction n as [|k IH]; [done|]. cbn. apply IH. }
  destruct Hn as [(-> & ->)|(Hrest & Hlt & Hdrop)].
  { rewrite Nat.eqb_refl. exists None. split; [done|]. cbn. destruct (tfind [l] T); by left. }
  rewrite (proj2 (Nat.eqb_neq _ _)) by lia. fold (ngx_hash_key l). destruct HW as [h T Hfind Hsub].
  destruct (Hfind l) as (o & Eo & Hv). rewrite Eo. cbn [outcome_bind]. rewrite bool_decide_eq_false_2 by done.
  assert (Htrue : forall both v, tfind [l] T = Some (both, v) -> both = true).
  { intros both v. clear -Hboth. induction Hboth as [|e T He _ IH]; [done|]. cbn. case_decide; [|done].
    intros [= E]. rewrite E in He. done. }
  assert (Hrec : forall w, is_sub o w ->
    exists r, or_value w (ngx_hash_find_wc_tail fuel w (drop (length l + 1) name)) = Ret r /\
      r = match best (longer (sub T l)) rest with Some v => Some v | None => w_value w end).
  { intros w Hw. rewrite Hdrop. specialize (Hsub l o w Eo Hw). destruct w as [hw vw]. cbn [w_hash] in Hsub.
    destruct (IH Hrest Hnd fuel hw vw (sub T l)) as (r & Er & Hr); [cbn in Hf; lia|done| |].
    { apply Forall_forall. intros e' He'. apply list_elem_of_omap in He' as (e & He & Es).
      rewrite Forall_forall in Hboth. apply strip_some in Es as (_ & _ & <-). by apply Hboth. }
    unfold or_value. rewrite Er. cbn [outcome_bind w_value]. eexists. split; [done|]. unfold found_or in Hr.
    destruct (best (longer (sub T l)) rest); [by rewrite Hr|]. by destruct Hr as [-> | ->]; destruct vw. }
  destruct o as [[v|v|w|w]|]; cbn [value_ok] in Hv.
  - destruct Hv as [Hown Hs]. exists (Some v). split; [done|]. rewrite (Hempty Hs), Hown. done.
  - destruct Hv as [Hown _]. by apply Htrue in Hown.
  - destruct Hv as (v & Hown & Hwv). destruct (Hrec w (or_introl eq_refl)) as (r & Er & ->). rewrite Er.
    eexists. split; [done|]. rewrite Hown, Hwv. by destruct (best (longer (sub T l)) rest).
  - destruct (Hrec w (or_intror eq_refl)) as (r & Er & ->). rewrite Er. eexists. split; [done|].
    destruct (best (longer (sub T l)) rest); [done|]. destruct (tfind [l] T) as [[both v]|]; [|rewrite Hv; by left].
    destruct Hv as [_ ->]. done.
  - destruct Hv as [Hown Hs]. exists val. split; [done|]. rewrite (Hempty Hs), Hown. by right.
Qed.

(** * The labels of a name *)

Fixpoint labels_of (name : list Z) : list (list Z) :=
  match name with
  | [] => [[]]
  | c :: name =>
    if c =? DOT then [] :: labels_of name
    else match labels_of name with l :: labels => (c :: l) :: labels | [] => [[c]] end
  end.

Lemma labels_of_ok name : labels_of name <> [] /\ Forall no_dot (labels_of name) /\ tail_name (labels_of name) = name.
Proof.
  induction name as [|c name (IH1 & IH2 & IH3)]; [by split_and!; repeat constructor|]. cbn.
  destruct (Z.eqb_spec c DOT) as [->|Hc].
  - split_and!; [done|by repeat constructor|]. destruct (labels_of name); [done|]. cbn [tail_name]. cbn. f_equal. exact IH3.
  - destruct (labels_of name) as [|l labels]; [done|]. apply Forall_cons in IH2 as [Hl Hls].
    split_and!; [done|constructor; [by constructor|done]|]. destruct labels; cbn in *; by rewrite IH3.
Qed.

Lemma head_name_snoc labels l : labels <> [] -> head_name (labels ++ [l]) = l ++ DOT :: head_name labels.
Proof.
  induction labels as [|l1 labels IH]; [done|]. intros _. destruct labels as [|l2 labels]; [done|].
  change (head_name ((l2 :: labels) ++ [l]) ++ DOT :: l1 = l ++ DOT :: (head_name (l2 :: labels) ++ DOT :: l1)).
  rewrite IH by done. by rewrite <- app_assoc.
Qed.

Lemma head_name_rev labels : labels <> [] -> head_name (List.rev labels) = tail_name labels.
Proof.
  induction labels as [|l labels IH]; [done|]. intros _. destruct labels as [|l2 labels]; [done|].
  change (List.rev (l :: l2 :: labels)) with (List.rev (l2 :: labels) ++ [l]).
  rewrite head_name_snoc, IH by (done || (cbn; by destruct (List.rev labels))). done.
Qed.

End Spec.

End HashWildcard.
