(* ===== verification/NgxServerNames.v ===== *)
(** The names of servers: ngx_http_server_names of src/http/ngx_http.c, which
    builds the hashes of an address, and ngx_http_find_virtual_server of
    src/http/ngx_http_request.c, which chooses the server of a request.

    qsort of the C library is the class [QSort]; regular expressions and their
    matching are parameters. *)

From stdpp Require Import sorting.
From S2P Require Import Prelude NgxHeaderLine NgxHttpRequest NgxLocation NgxSort NgxStringCmp NgxHash NgxHashInit NgxHashNames NgxHashWildcard.

#[local] Open Scope Z_scope.

Module ServerNames.

Export HashWildcard.

(** * The code *)

Class QSort {V} (qsort : list (list Z * V) -> list (list Z * V)) : Prop := {
  qsort_perm l : qsort l ≡ₚ l;
  qsort_sorted l : Forall (fun n => Forall key_char n.1) l ->
    StronglySorted (fun a b => ngx_dns_strcmp a.1 b.1 <= 0) (qsort l) }.

Section Code.
Context {V R : Type} (qsort : list (list Z * V) -> list (list Z * V)) (ngx_cacheline_size : Z).

(** A name of a server block: its regular expression, if it is one. *)
Record ngx_http_server_name_t := MkName { sn_name : list Z; sn_regex : option R; sn_server : V }.

(** The names of all the servers of an address, in their order; NGX_BUSY is a
    warning only. *)
Fixpoint add_server_names (names : list ngx_http_server_name_t) (ha : ngx_hash_keys_arrays_t V)
    : option (ngx_hash_keys_arrays_t V) :=
  match names with
  | [] => Some ha
  | n :: names =>
    match sn_regex n with
    | Some _ => add_server_names names ha
    | None =>
      let '(rc, ha) := ngx_hash_add_key true false (sn_name n) (sn_server n) ha in
      if (rc =? NGX_ERROR) || (rc =? NGX_DECLINED) then None else add_server_names names ha
    end
  end.

(** The hashes of the address and its regular expressions. *)
Record ngx_http_virtual_names_t := MkVirtual {
  vn_names : ngx_hash_combined_t V; vn_regex : list (R * V) }.

Definition wild_fuel (names : list (list Z * V)) : nat := S (S (fold_right (fun n m => (length n.1 + m)%nat) 0%nat names)).

Definition build_wild (hinit : ngx_hash_init_t) (names : list (list Z * V)) : outcome (option (option (wild V))) :=
  match names with
  | [] => Ret (Some None)
  | _ =>
    let! w := ngx_hash_wildcard_init ngx_cacheline_size hinit (wild_fuel names) (qsort names) in
    Ret (option_map Some w)
  end.

Fixpoint server_regexes (names : list ngx_http_server_name_t) : list (R * V) :=
  match names with
  | [] => []
  | n :: names => match sn_regex n with Some r => (r, sn_server n) :: server_regexes names | None => server_regexes names end
  end.

(** [Ret None] is NGX_ERROR. *)
Definition ngx_http_server_names (hinit : ngx_hash_init_t) (names : list ngx_http_server_name_t)
    : outcome (option ngx_http_virtual_names_t) :=
  match add_server_names names (ngx_hash_keys_array_init V true) with
  | None => Ret None
  | Some ha =>
    let! exact :=
      match ha_keys ha with
      | [] => Ret (Some None)
      | keys => let! h := ngx_hash_init ngx_cacheline_size hinit keys in Ret (option_map Some h)
      end in
    match exact with
    | None => Ret None
    | Some exact =>
      let! whead := build_wild hinit (dns_wc_head ha) in
      match whead with
      | None => Ret None
      | Some whead =>
        let! wtail := build_wild hinit (dns_wc_tail ha) in
        match wtail with
        | None => Ret None
        | Some wtail => Ret (Some (MkVirtual (MkCombined exact whead wtail) (server_regexes names)))
        end
      end
    end
  end.

(** The first regular expression that matches; other results are errors. *)
Fixpoint find_server_regex (regex_exec : R -> list Z -> Z) (host : list Z) (l : list (R * V)) : Z * option V :=
  match l with
  | [] => (NGX_DECLINED, None)
  | (r, v) :: l =>
    let n := regex_exec r host in
    if n =? NGX_OK then (NGX_OK, Some v)
    else if n =? NGX_DECLINED then find_server_regex regex_exec host l
    else (NGX_ERROR, None)
  end.

(** The return value and the server, whose configuration the request gets. *)
Definition ngx_http_find_virtual_server (regex_exec : R -> list Z -> Z)
    (virtual_names : option ngx_http_virtual_names_t) (host : list Z) : outcome (Z * option V) :=
  match virtual_names with
  | None => Ret (NGX_DECLINED, None)
  | Some vn =>
    let! cscf := ngx_hash_find_combined (vn_names vn) (ngx_hash_key host) host in
    match cscf with
    | Some v => Ret (NGX_OK, Some v)
    | None =>
      if (length host =? 0)%nat then Ret (NGX_DECLINED, None)
      else Ret (find_server_regex regex_exec host (vn_regex vn))
    end
  end.

End Code.

Arguments MkName {V R} _ _ _.
Arguments sn_name {V R} _.
Arguments sn_regex {V R} _.
Arguments sn_server {V R} _.

(** * Names *)

(** The bytes of a server name: above the space. *)
Definition name_ok (s : list Z) : Prop := Forall (fun c => " "%c < c) s.

(** The same in lower case. *)
Definition low_ok (s : list Z) : Prop := Forall (fun c => " "%c < c /\ ngx_tolower c = c) s.

Lemma tolower_low c : " "%c < c -> " "%c < ngx_tolower c /\ ngx_tolower (ngx_tolower c) = ngx_tolower c.
Proof.
  intros Hc. unfold ngx_tolower at 1 3 4. rewrite Z.geb_leb.
  destruct (("A"%c <=? c) && (c <=? "Z"%c)) eqn:E; boolify.
  - assert (Hr : forall z, 65 <= z < 91 -> 32 < Z.lor z 32 /\ ngx_tolower (Z.lor z 32) = Z.lor z 32).
    { intros z Hz. assert (Hb : below 91 (fun z => (z <? 65) || ((32 <? Z.lor z 32) && (ngx_tolower (Z.lor z 32) =? Z.lor z 32))) = true)
        by (vm_compute; reflexivity).
      pose proof (below_spec _ _ z Hb ltac:(lia)) as Hz'. cbn beta in Hz'. boolify; lia. }
    apply Hr. lia.
  - split; [done|]. apply tolower_fix. lia.
  - split; [done|]. apply tolower_fix. lia.
Qed.

Lemma strlow_low s : name_ok s -> low_ok (ngx_strlow s).
Proof. induction 1 as [|c s Hc _ IH]; [constructor|]. constructor; [by apply tolower_low|done]. Qed.

Lemma low_strlow s : low_ok s -> ngx_strlow s = s.
Proof. intros Hs. apply strlow_fix. eapply Forall_impl; [exact Hs|]. by intros c [_ ?]. Qed.

Lemma low_labels s : low_ok s -> Forall (Forall plain) (labels_of s).
Proof.
  induction 1 as [|c s [Hc Hl] _ IH]; [by repeat constructor|]. cbn. destruct (Z.eqb_spec c DOT) as [->|Hne].
  - by constructor.
  - destruct (labels_of s) as [|l labels]; [by repeat constructor|]. apply Forall_cons in IH as [? ?].
    constructor; [|done]. by constructor.
Qed.

Lemma labels_of_inj s t : labels_of s = labels_of t -> s = t.
Proof.
  intros E. destruct (labels_of_ok s) as (_ & _ & <-), (labels_of_ok t) as (_ & _ & <-). by rewrite E.
Qed.

Lemma labels_head s : head (labels_of s) = Some [] <-> s = [] \/ hd 0 s = DOT.
Proof.
  destruct s as [|c s]; cbn; [tauto|]. destruct (Z.eqb_spec c DOT) as [->|Hne]; [cbn; tauto|].
  destruct (labels_of s); cbn; (split; [done|]; intros [?|?]; done).
Qed.

Lemma labels_snoc_dot s : labels_of (s ++ [DOT]) = labels_of s ++ [[]].
Proof.
  induction s as [|d s IH]; [done|]. cbn. rewrite IH. destruct (d =? DOT); [done|].
  destruct (labels_of_ok s) as (Hne & _). by destruct (labels_of s).
Qed.

Lemma labels_snoc s c labels l : c <> DOT -> labels_of s = labels ++ [l] -> labels_of (s ++ [c]) = labels ++ [l ++ [c]].
Proof.
  intros Hc. revert labels l. induction s as [|d s IH]; intros labels l; cbn.
  - rewrite (proj2 (Z.eqb_neq _ _) Hc). change [[]] with (@nil (list Z) ++ [[]]) at 1. by intros [<- <-]%app_inj_tail.
  - destruct (labels_of_ok s) as (Hne & _ & _). destruct (exists_last Hne) as (ls & l' & E).
    rewrite (IH ls l' E), E. destruct (d =? DOT).
    + change ([] :: ls ++ [l']) with (([] :: ls) ++ [l']). intros [<- <-]%app_inj_tail. done.
    + destruct ls as [|l1 ls].
      * cbn. change [d :: l'] with ([] ++ [d :: l']). intros [<- <-]%app_inj_tail. done.
      * cbn. change ((d :: l1) :: ls ++ [l']) with (((d :: l1) :: ls) ++ [l']). intros [<- <-]%app_inj_tail. done.
Qed.

Lemma labels_last s c : c <> DOT -> last (labels_of (s ++ [c])) <> Some [].
Proof.
  intros Hc. destruct (labels_of_ok s) as (Hne & _ & _). destruct (exists_last Hne) as (ls & l & E).
  rewrite (labels_snoc s c ls l Hc E), last_snoc. by destruct l.
Qed.

(** * The reversal of the labels *)

Lemma spell_true labels : spell labels true = tail_name labels.
Proof. induction labels as [|l [|l2 labels] IH]; [done|done|]. rewrite spell_cons, IH. done. Qed.

Lemma spell_false labels : labels <> [] -> spell labels false = tail_name labels ++ [DOT].
Proof.
  induction labels as [|l [|l2 labels] IH]; [done|done|]. intros _. rewrite spell_cons, IH by done.
  change (tail_name (l :: l2 :: labels)) with (l ++ DOT :: tail_name (l2 :: labels)). by rewrite <- app_assoc.
Qed.

(** The loop over the bytes of a name from its end. *)
Lemma reverse_labels_loop s : forall word p l labels, List.rev (labels_of s) = l :: labels ->
  reverse_labels (List.rev s) word p = p ++ tail_name ((l ++ word) :: labels).
Proof.
  induction s as [|c s IH] using rev_ind; intros word p l labels E.
  { cbn in E. injection E as <- <-. done. }
  rewrite rev_unit. cbn [reverse_labels]. fold DOT.
  destruct (labels_of_ok s) as (Hne & _ & _). destruct (exists_last Hne) as (ls & l' & Es).
  destruct (Z.eqb_spec c DOT) as [->|Hc].
  - rewrite labels_snoc_dot, Es, !rev_unit in E. injection E as <- <-.
    rewrite (IH [] _ l' (List.rev ls)) by (by rewrite Es, rev_unit). rewrite app_nil_r, <- !app_assoc. done.
  - rewrite (labels_snoc s c ls l' Hc Es), rev_unit in E. injection E as <- <-.
    rewrite (IH (c :: word) p l' (List.rev ls)) by (by rewrite Es, rev_unit). by rewrite <- app_assoc.
Qed.

(** "*.example.com" and ".example.com" as keys of the hash. *)
Lemma reverse_labels_ok x (both : bool) :
  reverse_labels (List.rev (if both then x else DOT :: x)) [] [] = spell (List.rev (labels_of x)) both.
Proof.
  destruct (labels_of_ok x) as (Hne & _ & _). destruct (exists_last Hne) as (ls & l & E).
  destruct both.
  - rewrite (reverse_labels_loop x [] [] l (List.rev ls)) by (by rewrite E, rev_unit).
    by rewrite app_nil_r, spell_true, E, rev_unit.
  - rewrite (reverse_labels_loop (DOT :: x) [] [] l (List.rev ls ++ [[]])).
    2:{ cbn. by rewrite E, rev_unit. }
    rewrite app_nil_r, spell_false by (rewrite E, rev_unit; done). rewrite E, rev_unit. cbn [app].
    change (l :: List.rev ls ++ [[]]) with ((l :: List.rev ls) ++ [[]]).
    assert (Hk : l :: List.rev ls <> []) by done. revert Hk. generalize (l :: List.rev ls). clear.
    intros k. induction k as [|a [|b k] IH]; [done|done|]. intros _.
    change (tail_name ((a :: b :: k) ++ [[]])) with (a ++ DOT :: tail_name ((b :: k) ++ [[]])).
    rewrite IH by done. change (tail_name (a :: b :: k)) with (a ++ DOT :: tail_name (b :: k)). by rewrite <- app_assoc.
Qed.

(** * The names that are collected *)

Section Collect.
Context {V R : Type}.

(** The exact names, the entries of the wildcard hashes, and the names seen:
    also a name that was ignored is seen. *)
Record collected := MkC {
  c_exact : list (list Z * V); c_head : list (entry V); c_tail : list (entry V);
  seen_exact : list (list Z); seen_head : list (list Z); seen_tail : list (list Z) }.

Definition nothing : collected := MkC [] [] [] [] [] [].

Definition collect_exact (s : list Z) (v : V) (c : collected) : collected :=
  if decide (s ∈ seen_exact c) then c
  else MkC (c_exact c ++ [(s, v)]) (c_head c) (c_tail c) (s :: seen_exact c) (seen_head c) (seen_tail c).

(** ".example.com" takes the name "example.com" too. *)
Definition collect_head (both : bool) (s : list Z) (v : V) (c : collected) : collected :=
  if decide (both = true /\ s ∈ seen_exact c) then c
  else
    let seen := if both then s :: seen_exact c else seen_exact c in
    if decide (s ∈ seen_head c) then MkC (c_exact c) (c_head c) (c_tail c) seen (seen_head c) (seen_tail c)
    else MkC (c_exact c) (c_head c ++ [(List.rev (labels_of s), (both, v))]) (c_tail c) seen (s :: seen_head c) (seen_tail c).

Definition collect_tail (s : list Z) (v : V) (c : collected) : collected :=
  if decide (s ∈ seen_tail c) then c
  else MkC (c_exact c) (c_head c) (c_tail c ++ [(labels_of s, (true, v))]) (seen_exact c) (seen_head c) (s :: seen_tail c).

(** [None] is an invalid name. *)
Definition collect_name (name : list Z) (v : V) (c : collected) : option collected :=
  match kind_of true name with
  | KDeclined => None
  | KExact => Some (collect_exact (ngx_strlow name) v c)
  | KHead skip => Some (collect_head (skip =? 1)%nat (ngx_strlow (drop skip name)) v c)
  | KTail => Some (collect_tail (ngx_strlow (take (length name - 2) name)) v c)
  end.

Fixpoint collect (names : list (ngx_http_server_name_t (V := V) (R := R))) (c : collected) : option collected :=
  match names with
  | [] => Some c
  | n :: names =>
    match sn_regex n with
    | Some _ => collect names c
    | None => match collect_name (sn_name n) (sn_server n) c with Some c => collect names c | None => None end
    end
  end.

(** ** The tables of the names seen *)

Definition TableOk (hash : list Z -> Z) (hs : Z) (table : gmap Z (list (list Z))) (seen : list (list Z)) : Prop :=
  (forall k n, n ∈ default [] (table !! k) -> n ∈ seen) /\
  (forall n, n ∈ seen -> n ∈ default [] (table !! (hash n mod hs))).

Lemma low_nonzero s : low_ok s -> Forall (fun c => c <> 0) s.
Proof. intros Hs. eapply Forall_impl; [exact Hs|]. intros c [? _]. lia. Qed.

Lemma same_server_name n n' : Forall (fun c => c <> 0) n ->
  (length n' =? length n)%nat && (ngx_strncmp n n' (length n) =? 0) = bool_decide (n' = n).
Proof.
  intros Hn. pose proof (strncmp_prefix n [] n' Hn) as Hp. rewrite app_nil_r in Hp.
  case_bool_decide as E.
  - subst n'. rewrite Nat.eqb_refl. cbn. apply Z.eqb_eq, Hp. exists []. by rewrite app_nil_r.
  - apply andb_false_iff. destruct (Nat.eqb_spec (length n') (length n)) as [El|El]; [right|by left].
    apply Z.eqb_neq. intros [y ->]%Hp. rewrite length_app in El. destruct y; [by rewrite app_nil_r in E|cbn in El; lia].
Qed.

Lemma table_add_ok hash hs table seen n : Forall (fun c => c <> 0) n -> TableOk hash hs table seen ->
  if decide (n ∈ seen) then table_add table (hash n mod hs) n = None
  else exists table', table_add table (hash n mod hs) n = Some table' /\ TableOk hash hs table' (n :: seen).
Proof.
  intros Hn [H1 H2]. unfold table_add. set (k := hash n mod hs).
  assert (Eex : existsb (fun x => (length x =? length n)%nat && (ngx_strncmp n x (length n) =? 0)) (default [] (table !! k)) =
                bool_decide (n ∈ default [] (table !! k))).
  { apply eq_true_iff_eq. rewrite existsb_exists, bool_decide_eq_true. split.
    - intros (x & Hx & Hs). rewrite same_server_name in Hs by done. apply bool_decide_eq_true in Hs as ->. by apply list_elem_of_In.
    - intros Hx. exists n. split; [by apply list_elem_of_In|]. rewrite same_server_name by done. by apply bool_decide_eq_true. }
  cbn zeta. rewrite Eex. destruct (decide (n ∈ seen)) as [Hs|Hs].
  - rewrite bool_decide_eq_true_2; [done|]. by apply H2.
  - rewrite bool_decide_eq_false_2; [|intros Hk; apply Hs; by eapply H1]. eexists. split; [done|]. split.
    + intros j x. destruct (decide (k = j)) as [<-|Hne].
      * rewrite lookup_insert_eq. cbn. rewrite elem_of_app, list_elem_of_singleton, elem_of_cons.
        intros [Hx| ->]; [right; by eapply H1|by left].
      * rewrite lookup_insert_ne by done. intros Hx. apply elem_of_cons. right. by eapply H1.
    + intros x [->|Hx]%elem_of_cons.
      * fold k. rewrite lookup_insert_eq. cbn. apply elem_of_app. right. by apply list_elem_of_singleton.
      * specialize (H2 x Hx). destruct (decide (k = hash x mod hs)) as [E|Hne].
        -- rewrite <- E in *. rewrite lookup_insert_eq. cbn. apply elem_of_app. by left.
        -- by rewrite lookup_insert_ne.
Qed.

(** ** The kinds of names *)

Lemma wildcard_check_dots key n m : wildcard_check key n = Some m ->
  forall i, nth i key 0 = DOT -> nth (S i) key 0 <> DOT.
Proof.
  revert n. induction key as [|c key IH]; intros n; cbn [wildcard_check]; [by intros _ []|].
  destruct (_ >? 1); [done|]. destruct ((c =? "."%c) && _) eqn:E; [done|]. intros Hc [|i].
  - cbn. intros ->. apply andb_false_iff in E as [E|E]; [done|]. apply Z.eqb_neq in E. by destruct key.
  - cbn. by eapply IH.
Qed.

(** What is left of a name of each kind. *)
Lemma kind_facts key :
  match kind_of true key with
  | KHead 1 => exists x, key = DOT :: x /\ x <> [] /\ hd 0 x <> DOT
  | KHead 2 => exists x, key = "*"%c :: DOT :: x /\ x <> [] /\ hd 0 x <> DOT
  | KHead _ => False
  | KTail => exists y c, key = (y ++ [c]) ++ [DOT; "*"%c] /\ c <> DOT
  | _ => True
  end.
Proof.
  unfold kind_of. cbn [negb]. destruct (wildcard_check key 0) as [n|] eqn:E; [|done].
  pose proof (wildcard_check_dots _ _ _ E) as Hd.
  destruct ((1 <? length key)%nat && (nth 0 key 0 =? "."%c)) eqn:E1.
  { apply andb_true_iff in E1 as [El Ed]. apply Nat.ltb_lt in El. apply Z.eqb_eq in Ed.
    destruct key as [|c x]; [cbn in El; lia|]. cbn in Ed. subst c. exists x. split_and!; [done|destruct x; [cbn in El; lia|done]|].
    specialize (Hd 0%nat eq_refl). by destruct x. }
  destruct ((2 <? length key)%nat && ((nth 0 key 0 =? "*"%c) && (nth 1 key 0 =? "."%c))) eqn:E2.
  { apply andb_true_iff in E2 as [El Es]. apply Nat.ltb_lt in El. apply andb_true_iff in Es as [Es Ed].
    apply Z.eqb_eq in Es, Ed. destruct key as [|c [|d x]]; [cbn in El; lia..|]. cbn in Es, Ed. subst c d. exists x.
    split_and!; [done|by destruct x; [cbn in El; lia|]|]. specialize (Hd 1%nat eq_refl). by destruct x. }
  clear E1 E2. destruct ((2 <? length key)%nat && _) eqn:E3; [|destruct (n =? 0); exact I].
  apply andb_true_iff in E3 as [El Es]. apply Nat.ltb_lt in El. apply andb_true_iff in Es as [Ed Es].
  apply Z.eqb_eq in Es, Ed.
  destruct key as [|z key _] using rev_ind; [cbn in El; lia|]. destruct key as [|y key _] using rev_ind; [cbn in El; lia|].
  destruct key as [|x key _] using rev_ind; [cbn in El; lia|]. rewrite !length_app in *. cbn [length] in *.
  rewrite app_nth2 in Es by (rewrite !length_app; cbn; lia). rewrite !length_app in Es. cbn [length] in Es.
  replace (length key + 1 + 1 + 1 - 1 - (length key + 1 + 1))%nat with 0%nat in Es by lia. cbn in Es. subst z.
  rewrite <- app_assoc in Ed. rewrite app_nth2 in Ed by (rewrite length_app; cbn; lia). rewrite length_app in Ed. cbn [length] in Ed.
  replace (length key + 1 + 1 + 1 - 2 - (length key + 1))%nat with 0%nat in Ed by lia. cbn in Ed. subst y.
  exists key, x. split; [by rewrite <- !app_assoc|]. intros ->.
  specialize (Hd (length key)). rewrite <- !app_assoc in Hd.
  rewrite (app_nth2 key _ 0 (n := length key)), (app_nth2 key _ 0 (n := S (length key))) in Hd by lia.
  rewrite Nat.sub_diag, Nat.sub_succ_l, Nat.sub_diag in Hd by lia. by apply Hd.
Qed.

(** ** The arrays of ngx_hash_add_key *)

(** The name of the tail table, and what it is hashed by. *)
Definition tail_key (s : list Z) : list Z := s ++ [DOT].
Definition tail_hash (s : list Z) : Z := ngx_hash_key (take (length s - 1) s).

Record Collected (ha : ngx_hash_keys_arrays_t V) (c : collected) : Prop := MkCollected {
  co_keys : ha_keys ha = map (fun n => MkKey n.1 false (ngx_hash_key n.1) n.2) (c_exact c);
  co_head : dns_wc_head ha = names (c_head c);
  co_tail : dns_wc_tail ha = names (c_tail c);
  co_keys_hash : TableOk ngx_hash_key (hsize ha) (keys_hash ha) (seen_exact c);
  co_head_hash : TableOk ngx_hash_key (hsize ha) (dns_wc_head_hash ha) (seen_head c);
  co_tail_hash : TableOk tail_hash (hsize ha) (dns_wc_tail_hash ha) (map tail_key (seen_tail c)) }.

(** The entries are those of names seen, once each. *)
Record EntriesOk (c : collected) : Prop := MkEntries {
  en_exact : Forall (fun n => low_ok n.1) (c_exact c);
  en_head : Forall (fun e => labels_ok e.1) (c_head c);
  en_tail : Forall (fun e => labels_ok e.1 /\ e.2.1 = true) (c_tail c);
  en_head_seen : map fst (c_head c) = List.rev (map (fun s => List.rev (labels_of s)) (seen_head c));
  en_tail_seen : map fst (c_tail c) = List.rev (map labels_of (seen_tail c));
  en_head_nodup : NoDup (seen_head c);
  en_tail_nodup : NoDup (seen_tail c) }.

Lemma tail_key_inj s s' : tail_key s = tail_key s' -> s = s'.
Proof. by intros [? _]%app_inj_tail. Qed.

Lemma tail_key_seen s c : tail_key s ∈ map tail_key (seen_tail c) <-> s ∈ seen_tail c.
Proof.
  rewrite list_elem_of_fmap. split; [|eauto]. by intros (s' & <-%tail_key_inj & ?).
Qed.

Lemma tail_hash_key s : tail_hash (tail_key s) = ngx_hash_key s.
Proof.
  unfold tail_hash, tail_key. rewrite length_app, Nat.add_sub, take_app_length. done.
Qed.

Lemma tolower_dot c : ngx_tolower c = DOT -> c = DOT.
Proof.
  unfold ngx_tolower. destruct (_ && _) eqn:E; [|done]. boolify. intros Hc.
  assert (Hr : below 91 (fun z => (z <? 65) || negb (Z.lor z 32 =? DOT)) = true) by (vm_compute; reflexivity).
  pose proof (below_spec _ _ c Hr ltac:(lia)) as Hz. cbn beta in Hz. boolify; lia.
Qed.

Lemma strlow_app a b : ngx_strlow (a ++ b) = ngx_strlow a ++ ngx_strlow b.
Proof. apply map_app. Qed.

(** The labels of what follows "*." or ".". *)
Lemma head_labels x : name_ok x -> x <> [] -> hd 0 x <> DOT -> labels_ok (List.rev (labels_of (ngx_strlow x))).
Proof.
  intros Hx Hne Hd. destruct (labels_of_ok (ngx_strlow x)) as (Hl & _ & _). split_and!.
  - intros E. apply Hl. rewrite <- (rev_involutive (labels_of _)), E. done.
  - apply Forall_rev, low_labels, strlow_low, Hx.
  - rewrite <- head_reverse. unfold reverse. rewrite <- rev_alt, rev_involutive. intros [Ex|Ex]%labels_head; destruct x as [|c x]; try done. by apply Hd, tolower_dot.
Qed.

Lemma tail_labels y c : name_ok (y ++ [c]) -> c <> DOT -> labels_ok (labels_of (ngx_strlow (y ++ [c]))).
Proof.
  intros Hy Hc. destruct (labels_of_ok (ngx_strlow (y ++ [c]))) as (Hl & _ & _). split_and!; [done| |].
  - by apply low_labels, strlow_low.
  - rewrite strlow_app. apply labels_last. by intros ?%tolower_dot.
Qed.

Lemma names_app (T T' : list (entry V)) : names (T ++ T') = names T ++ names T'.
Proof. apply map_app. Qed.

(** One name. *)
Definition added (r : Z * ngx_hash_keys_arrays_t V) (c : collected) : Prop :=
  (r.1 = NGX_OK \/ r.1 = HASH_BUSY) /\ Collected r.2 c /\ EntriesOk c.

Lemma add_exact_ok name v ha c : name_ok name -> Collected ha c -> EntriesOk c ->
  added (add_exact false name v ha) (collect_exact (ngx_strlow name) v c).
Proof.
  intros Hn Hc He. destruct (Hc) as [C1 C2 C3 C4 C5 C6]. unfold add_exact, collect_exact. fold (ngx_hash_key (ngx_strlow name)).
  pose proof (strlow_low _ Hn) as Hl. pose proof (table_add_ok _ _ _ _ _ (low_nonzero _ Hl) C4) as Ht.
  destruct (decide _) as [Hs|Hs].
  - rewrite Ht. split; [by right|done].
  - destruct Ht as (table & -> & Ht). split; [by left|]. split.
    + split; cbn; try done. by rewrite C1, map_app.
    + destruct He. split; cbn; try done. apply Forall_app. split; [done|]. by repeat constructor.
Qed.

Lemma add_head_ok (both : bool) x v ha c : name_ok x -> x <> [] -> hd 0 x <> DOT -> Collected ha c -> EntriesOk c ->
  let key := (if both then [DOT] else ["*"%c; DOT]) ++ x in
  added (add_head (if both then 1 else 2) key v ha) (collect_head both (ngx_strlow x) v c).
Proof.
  intros Hx Hne Hd Hc He. destruct (Hc) as [C1 C2 C3 C4 C5 C6]. cbn zeta. unfold add_head, collect_head.
  pose proof (strlow_low _ Hx) as Hl. pose proof (head_labels x Hx Hne Hd) as Hlab.
  replace (drop _ _) with x by (by destruct both). unfold ngx_hash_strlow. fold (ngx_hash_key (ngx_strlow x)).
  set (s := ngx_strlow x) in *. cbn zeta. pose proof (low_nonzero _ Hl) as Hz.
  replace (reverse_labels _ [] []) with (spell (List.rev (labels_of s)) both)
    by (rewrite <- reverse_labels_ok; by destruct both).
  replace ((if both then 1 else 2) =? 1)%nat with both by (by destruct both).
  pose proof (table_add_ok _ _ _ _ s Hz C4) as H4. pose proof (table_add_ok _ _ _ _ s Hz C5) as H5.
  assert (Hexact : exists o, (if both then table_add (keys_hash ha) (ngx_hash_key s mod hsize ha) s else Some (keys_hash ha)) = o /\
    if decide (both = true /\ s ∈ seen_exact c) then o = None
    else exists table, o = Some table /\ TableOk ngx_hash_key (hsize ha) table (if both then s :: seen_exact c else seen_exact c)).
  { eexists. split; [done|]. destruct both.
    - destruct (decide (s ∈ seen_exact c)); [by rewrite decide_True|]. by rewrite decide_False by tauto.
    - rewrite decide_False by (by intros []). eauto. }
  destruct Hexact as (o & -> & Ho). destruct (decide (both = true /\ _)) as [Hs|Hs].
  { subst o. split; [by right|done]. }
  destruct Ho as (exact & -> & Hexact). cbn [dns_wc_head_hash]. destruct (decide (s ∈ seen_head c)) as [Hh|Hh].
  - rewrite H5. split; [by right|]. split; [by split|]. by destruct He.
  - destruct H5 as (table & -> & Htab). split; [by left|]. split.
    + split; try done. cbn [dns_wc_head c_head]. by rewrite C2, names_app.
    + destruct He as [E1 E2 E3 E4 E5 E6 E7]. split; cbn; try done.
      * apply Forall_app. split; [done|]. by apply Forall_singleton.
      * rewrite map_app, E4. done.
      * by constructor.
Qed.

Lemma add_tail_ok y z v ha c : name_ok (y ++ [z]) -> z <> DOT -> Collected ha c -> EntriesOk c ->
  added (add_tail ((y ++ [z]) ++ [DOT; "*"%c]) v ha) (collect_tail (ngx_strlow (y ++ [z])) v c).
Proof.
  intros Hy Hz Hc He. destruct (Hc) as [C1 C2 C3 C4 C5 C6]. unfold add_tail, collect_tail.
  pose proof (strlow_low _ Hy) as Hl. pose proof (tail_labels y z Hy Hz) as Hlab.
  rewrite length_app, Nat.add_sub, take_app_length. unfold ngx_hash_strlow. fold (ngx_hash_key (ngx_strlow (y ++ [z]))).
  set (s := ngx_strlow (y ++ [z])) in *. cbn zeta. change (s ++ ["."%c]) with (tail_key s).
  assert (Hnz : Forall (fun c => c <> 0) (tail_key s)) by (apply Forall_app; split; [by apply low_nonzero|by repeat constructor]).
  pose proof (table_add_ok _ _ _ _ (tail_key s) Hnz C6) as H6. rewrite tail_hash_key in H6.
  destruct (decide (s ∈ seen_tail c)) as [Hs|Hs].
  - rewrite decide_True in H6 by (by apply tail_key_seen). rewrite H6. split; [by right|done].
  - rewrite decide_False in H6 by (by rewrite tail_key_seen). destruct H6 as (table & -> & Ht). split; [by left|]. split.
    + split; try done. cbn [dns_wc_tail c_tail]. rewrite C3, names_app. f_equal. unfold names, key_of_entry. cbn [map fst snd].
      rewrite spell_true. by destruct (labels_of_ok s) as (_ & _ & ->).
    + destruct He as [E1 E2 E3 E4 E5 E6 E7]. split; cbn; try done.
      * apply Forall_app. split; [done|]. by apply Forall_singleton.
      * rewrite map_app, E5. done.
      * by constructor.
Qed.

Lemma name_ok_app a b : name_ok (a ++ b) <-> name_ok a /\ name_ok b.
Proof. apply Forall_app. Qed.

Lemma add_key_ok name v ha c : name_ok name -> Collected ha c -> EntriesOk c ->
  match collect_name name v c with
  | None => ngx_hash_add_key true false name v ha = (NGX_DECLINED, ha)
  | Some c' => added (ngx_hash_add_key true false name v ha) c'
  end.
Proof.
  intros Hn Hc He. pose proof (kind_facts name) as Hk. unfold collect_name, ngx_hash_add_key.
  destruct (kind_of true name) as [| |[|[|[|skip]]]|]; try done.
  - by apply add_exact_ok.
  - destruct Hk as (x & -> & Hne & Hd). apply (name_ok_app [DOT]) in Hn as [_ Hn]. by apply (add_head_ok true).
  - destruct Hk as (x & -> & Hne & Hd). apply (name_ok_app ["*"%c; DOT]) in Hn as [_ Hn]. by apply (add_head_ok false).
  - destruct Hk as (y & z & -> & Hz). apply name_ok_app in Hn as [Hn _].
    rewrite length_app, Nat.add_sub, take_app_length. by apply add_tail_ok.
Qed.

Lemma add_server_names_ok (l : list (ngx_http_server_name_t (V := V) (R := R))) : forall ha c,
  Forall (fun n => sn_regex n = None -> name_ok (sn_name n)) l -> Collected ha c -> EntriesOk c ->
  match collect l c with
  | None => add_server_names l ha = None
  | Some c' => exists ha', add_server_names l ha = Some ha' /\ Collected ha' c' /\ EntriesOk c'
  end.
Proof.
  induction l as [|n l IH]; intros ha c Hl Hc He; cbn; [eauto|]. apply Forall_cons in Hl as [Hn Hl].
  destruct (sn_regex n); [by apply IH|]. specialize (Hn eq_refl).
  pose proof (add_key_ok (sn_name n) (sn_server n) ha c Hn Hc He) as Hk.
  destruct (collect_name _ _ c) as [c1|]; [|by rewrite Hk].
  destruct Hk as (Hr & Hc1 & He1). destruct (ngx_hash_add_key _ _ _ _ ha) as [rc ha1]. cbn in Hr.
  replace ((rc =? NGX_ERROR) || (rc =? NGX_DECLINED)) with false by (by destruct Hr as [-> | ->]).
  by apply IH.
Qed.

Lemma nothing_ok large : Collected (ngx_hash_keys_array_init V large) nothing /\ EntriesOk nothing.
Proof.
  split; [|by split; constructor]. split; try done; (split; [intros k n; cbn; set_solver|set_solver]).
Qed.

(** ** The order of the entries *)

Lemma tfind_elem labels x (T : list (entry V)) : NoDup (map fst T) -> (tfind labels T = Some x <-> (labels, x) ∈ T).
Proof.
  induction T as [|[ls y] T IH]; intros Hn; cbn; [split; [done|set_solver]|]. cbn in Hn. apply NoDup_cons in Hn as [Hn HT].
  rewrite elem_of_cons. case_decide as E.
  - subst ls. split; [intros [= ->]; by left|]. intros [[= ->]|Hin]; [done|]. destruct Hn. apply list_elem_of_fmap. by eexists (_, _).
  - rewrite IH by done. split; [by right|]. intros [[= -> _]|?]; done.
Qed.

Lemma tfind_perm labels (T T' : list (entry V)) : NoDup (map fst T) -> T ≡ₚ T' -> tfind labels T = tfind labels T'.
Proof.
  intros Hn Hp. assert (Hn' : NoDup (map fst T')) by (by rewrite <- Hp).
  apply option_eq. intros x. by rewrite !tfind_elem, Hp.
Qed.

Lemma best_ext (T T' : list (entry V)) name : (forall labels, tfind labels T = tfind labels T') -> best T name = best T' name.
Proof.
  intros E. unfold best. generalize (length name). intros k. induction k as [|k IH]; [done|]. cbn. by rewrite E, IH.
Qed.

Lemma spell_length (labels : list (list Z)) both : (length labels <= S (length (spell labels both)))%nat.
Proof.
  induction labels as [|l [|l2 labels] IH]; [cbn; lia|destruct both; cbn; lia|].
  rewrite spell_cons, length_app. cbn [length] in *. lia.
Qed.

Lemma wild_fuel_ok (T T' : list (entry V)) : T' ≡ₚ T -> Forall (fun e => (length e.1 <= wild_fuel (names T))%nat) T'.
Proof.
  intros ->. unfold wild_fuel. induction T as [|e T IH]; [constructor|]. constructor.
  - cbn. pose proof (spell_length e.1 e.2.1). unfold key_of_entry. lia.
  - eapply Forall_impl; [exact IH|]. intros x Hx. cbn beta in Hx. etrans; [exact Hx|]. cbn [names map fold_right]. fold (names T). lia.
Qed.

Lemma sorted_map {A B} (f : A -> B) (P : B -> B -> Prop) l :
  StronglySorted P (map f l) -> StronglySorted (fun a b => P (f a) (f b)) l.
Proof.
  induction l as [|a l IH]; [constructor|]. cbn. intros Hs. inversion_clear Hs as [|? ? Hs' Ha].
  constructor; [by apply IH|]. exact (proj1 (Forall_map _ _ _) Ha).
Qed.

Lemma names_chars (T : list (entry V)) : Forall (fun e => labels_ok e.1) T -> Forall (fun n => Forall key_char n.1) (names T).
Proof. intros HT. apply Forall_map. eapply Forall_impl; [exact HT|]. intros e He. by apply entry_chars. Qed.

Lemma sorted_entries qsort `{!QSort qsort} (T : list (entry V)) : Forall (fun e => labels_ok e.1) T -> NoDup (map fst T) ->
  exists T', qsort (names T) = names T' /\ T' ≡ₚ T /\ TOk T'.
Proof.
  intros HT Hn. destruct (Permutation_map_inv _ _ (qsort_perm (names T))) as (T' & E & Hp).
  exists T'. split_and!; [done|done|]. split.
  - by rewrite <- Hp.
  - apply (sorted_map (fun e => (key_of_entry e, e.2.2)) (fun a b => ngx_dns_strcmp a.1 b.1 <= 0)).
    rewrite <- E. by apply qsort_sorted, names_chars.
  - by rewrite <- Hp.
Qed.

(** What a hash of wildcards holds. *)
Definition wild_holds (T : list (entry V)) (o : option (wild V)) : Prop :=
  match o with
  | None => T = []
  | Some w => w_value w = None /\ exists T', WOk (w_hash w) T' /\ T' ≡ₚ T
  end.

Lemma build_wild_ok qsort `{!QSort qsort} m hinit (T : list (entry V)) :
  0 <= m <= 12 -> 24 <= bucket_size hinit <= 32768 ->
  Forall (fun e => labels_ok e.1) T -> NoDup (map fst T) ->
  exists r, build_wild qsort (2 ^ m) hinit (names T) = Ret r /\ forall o, r = Some o -> wild_holds T o.
Proof.
  intros Hm Hb HT Hn. destruct (sorted_entries qsort T HT Hn) as (T' & Es & Hp & HT').
  destruct T as [|e T]; [eexists; split; [done|]; by intros o [= <-]|].
  assert (Eb : build_wild qsort (2 ^ m) hinit (names (e :: T)) =
    let! w := ngx_hash_wildcard_init (2 ^ m) hinit (wild_fuel (names (e :: T))) (names T') in Ret (option_map Some w)).
  { rewrite <- Es. done. }
  rewrite Eb. destruct (wildcard_init_ok m hinit Hm Hb (wild_fuel (names (e :: T))) T') as (r & -> & Hr);
    [unfold wild_fuel; lia|done|by apply wild_fuel_ok|].
  cbn [outcome_bind]. eexists. split; [done|]. intros o Ho. destruct r as [w|]; [|done]. injection Ho as <-.
  destruct (Hr w eq_refl) as [HW Hv]. split; [done|]. eauto.
Qed.

(** ** The choice of the server *)

Fixpoint exact_server (l : list (list Z * V)) (host : list Z) : option V :=
  match l with
  | [] => None
  | (s, v) :: l => if decide (s = host) then Some v else exact_server l host
  end.

(** The server of a name: of the exact name, of the longest name that begins
    with "*." or ".", of the longest name that ends with ".*". *)
Definition server_of (c : collected) (host : list Z) : option V :=
  match exact_server (c_exact c) host with
  | Some v => Some v
  | None =>
    if decide (host = []) then None
    else match best (c_head c) (List.rev (labels_of host)) with
         | Some v => Some v
         | None => best (longer (c_tail c)) (labels_of host)
         end
  end.

Definition keys_of (l : list (list Z * V)) : list (ngx_hash_key_t V) :=
  map (fun n => MkKey n.1 false (ngx_hash_key n.1) n.2) l.

Lemma keys_find (l : list (list Z * V)) host : Forall (fun n => low_ok n.1) l ->
  hashes_ok (keys_of l) /\ names_find (keys_of l) host = exact_server l host.
Proof.
  unfold hashes_ok, names_find. induction 1 as [|[s v] l Hs _ [IH1 IH2]]; [done|]. cbn in Hs. pose proof (low_strlow s Hs) as El.
  split; [constructor; [|done]; intros _; cbn [hk_hash hk_data fst]; by rewrite El|].
  cbn [keys_of map List.filter hk_null negb]. unfold element at 1. cbn [hk_data hk_value fst snd bucket_find]. rewrite El. cbn [exact_server].
  by rewrite <- IH2.
Qed.

Lemma labels_of_length (s : list Z) : (length (labels_of s) <= S (length s))%nat.
Proof.
  induction s as [|c s IH]; cbn; [lia|]. destruct (c =? DOT); cbn; [lia|]. destruct (labels_of s); cbn in *; lia.
Qed.

(** The three searches. *)
Lemma wild_head_found T o host : wild_holds T o -> NoDup (map fst T) ->
  find_in o (fun w => ngx_hash_find_wc_head (S (length host)) w host) = Ret (best T (List.rev (labels_of host))).
Proof.
  intros Ho Hn. destruct o as [w|]; cbn [find_in].
  - destruct Ho as (Hv & T' & HW & Hp). destruct (labels_of_ok host) as (Hne & Hnd & Hname).
    destruct w as [h val]. cbn in Hv, HW. subst val.
    assert (Hne' : List.rev (labels_of host) <> []).
    { intros E. apply Hne. by rewrite <- (rev_involutive (labels_of host)), E. }
    destruct (find_wc_head_ok _ Hne' (Forall_rev Hnd) (S (length host)) h None T') as (r & Er & Hr).
    + rewrite length_rev. apply labels_of_length.
    + done.
    + rewrite head_name_rev, Hname in Er by done. rewrite Er. f_equal.
      rewrite (best_ext T T') by (intros; by apply tfind_perm). unfold found_or in Hr.
      destruct (best T' _); [done|]. by destruct Hr.
  - cbn in Ho. subst T. unfold best. generalize (length (List.rev (labels_of host))). intros k.
    f_equal. induction k; [done|]. cbn. done.
Qed.

Lemma wild_tail_found T o host : wild_holds T o -> NoDup (map fst T) -> Forall (fun e => e.2.1 = true) T ->
  find_in o (fun w => ngx_hash_find_wc_tail (S (length host)) w host) = Ret (best (longer T) (labels_of host)).
Proof.
  intros Ho Hn Hboth. destruct o as [w|]; cbn [find_in].
  - destruct Ho as (Hv & T' & HW & Hp). destruct (labels_of_ok host) as (Hne & Hnd & Hname).
    destruct w as [h val]. cbn in Hv, HW. subst val.
    destruct (find_wc_tail_ok (labels_of host) Hne Hnd (S (length host)) h None T') as (r & Er & Hr).
    + apply labels_of_length.
    + done.
    + by rewrite Hp.
    + rewrite Hname in Er. rewrite Er. f_equal.
      rewrite (best_ext (longer T) (longer T')) by (intros; rewrite !tfind_longer; f_equal; by apply tfind_perm).
      unfold found_or in Hr. destruct (best (longer T') _); [done|]. by destruct Hr.
  - cbn in Ho. subst T. unfold best. generalize (length (labels_of host)). intros k.
    f_equal. induction k; [done|]. cbn. done.
Qed.

Lemma head_nodup c : EntriesOk c -> NoDup (map fst (c_head c)) /\ NoDup (map fst (c_tail c)).
Proof.
  intros [_ _ _ E1 E2 H1 H2]. rewrite E1, E2. split; apply NoDup_ListNoDup, NoDup_rev, NoDup_ListNoDup.
  - apply NoDup_fmap_2_strong; [|done]. intros s s' _ _ E. apply labels_of_inj.
    by rewrite <- (rev_involutive (labels_of s)), E, rev_involutive.
  - apply NoDup_fmap_2_strong; [|done]. intros s s' _ _ E. by apply labels_of_inj.
Qed.

(** The hashes that are built hold what was collected. *)
Lemma server_names_ok qsort `{!QSort qsort} m hinit (l : list (ngx_http_server_name_t (V := V) (R := R))) :
  0 <= m <= 12 -> 24 <= bucket_size hinit <= 32768 ->
  Forall (fun n => sn_regex n = None -> name_ok (sn_name n)) l ->
  exists r, ngx_http_server_names qsort (2 ^ m) hinit l = Ret r /\
    match collect l nothing with
    | None => r = None
    | Some c => forall vn, r = Some vn -> vn_regex vn = server_regexes l /\ EntriesOk c /\
      match hc_hash (vn_names vn) with
      | None => c_exact c = []
      | Some h => HashOk h (keys_of (c_exact c))
      end /\
      wild_holds (c_head c) (hc_head (vn_names vn)) /\ wild_holds (c_tail c) (hc_tail (vn_names vn))
    end.
Proof.
  intros Hm Hb Hl. unfold ngx_http_server_names. destruct (nothing_ok true) as [Hc0 He0].
  pose proof (add_server_names_ok l _ _ Hl Hc0 He0) as Ha. destruct (collect l nothing) as [c|]; [|rewrite Ha; by exists None].
  destruct Ha as (ha & -> & Hc & He). destruct (head_nodup c He) as [Hn1 Hn2].
  destruct Hc as [Ck Ch Ct _ _ _]. rewrite Ck, Ch, Ct. fold (keys_of (c_exact c)).
  assert (Hexact : exists r, match keys_of (c_exact c) with
      | [] => Ret (Some None)
      | keys => let! h := ngx_hash_init (2 ^ m) hinit keys in Ret (option_map Some h)
      end = Ret r /\ forall o, r = Some o -> match o with None => c_exact c = [] | Some h => HashOk h (keys_of (c_exact c)) end).
  { destruct (hash_init_ok m Hm hinit (keys_of (c_exact c)) Hb) as (rh & Eh & _ & Hh).
    destruct (c_exact c) as [|n ns]; [eexists; split; [done|]; by intros o [= <-]|].
    cbn [keys_of map] in *. rewrite Eh. cbn [outcome_bind]. eexists. split; [done|]. intros o Ho.
    destruct rh as [h|]; [|done]. injection Ho as <-. by apply Hh. }
  destruct Hexact as (rx & -> & Hx). cbn [outcome_bind]. destruct rx as [exact|]; [|by exists None].
  pose proof He as [_ E2 E3 _ _ _ _].
  destruct (build_wild_ok qsort m hinit (c_head c) Hm Hb E2 Hn1) as (rh & -> & Hh). cbn [outcome_bind].
  destruct rh as [whead|]; [|by exists None].
  assert (E3' : Forall (fun e => labels_ok e.1) (c_tail c)) by (eapply Forall_impl; [exact E3|by intros ? []]).
  destruct (build_wild_ok qsort m hinit (c_tail c) Hm Hb E3' Hn2) as (rt & -> & Ht). cbn [outcome_bind].
  destruct rt as [wtail|]; [|by exists None]. eexists. split; [done|]. intros vn [= <-]. cbn [vn_names vn_regex hc_hash hc_head hc_tail].
  split_and!; [done|done| |by apply Hh|by apply Ht]. exact (Hx exact eq_refl).
Qed.

(** C9: the server of a request.  For server names of bytes above the space and
    buckets of the name hashes of at most 32768 bytes, whatever the qsort,
    ngx_http_server_names ends, with an error or with the hashes of the
    address; an invalid name is an error.  With the hashes,
    ngx_http_find_virtual_server chooses for every host the server of the
    exact name; else that of the longest name "*.x" or ".x" that the host
    ends with; else that of the longest name "x.*" that it begins with; else
    that of the first regular expression that matches. *)
Theorem virtual_server_found qsort `{!QSort qsort} m hinit
    (l : list (ngx_http_server_name_t (V := V) (R := R))) regex_exec :
  0 <= m <= 12 -> 24 <= bucket_size hinit <= 32768 ->
  Forall (fun n => sn_regex n = None -> name_ok (sn_name n)) l ->
  exists r, ngx_http_server_names qsort (2 ^ m) hinit l = Ret r /\
    match collect l nothing with
    | None => r = None
    | Some c => forall vn host, r = Some vn ->
      ngx_http_find_virtual_server regex_exec (Some vn) host =
      Ret (match server_of c host with
           | Some v => (NGX_OK, Some v)
           | None => if decide (host = []) then (NGX_DECLINED, None) else find_server_regex regex_exec host (server_regexes l)
           end)
    end.
Proof.
  intros Hm Hb Hl. destruct (server_names_ok qsort m hinit l Hm Hb Hl) as (r & E & Hr). exists r. split; [exact E|].
  destruct (collect l nothing) as [c|]; [|done]. intros vn host Evn. destruct (Hr vn Evn) as (Hre & He & Hx & Hh & Ht).
  destruct (head_nodup c He) as [Hn1 Hn2]. destruct He as [E1 _ E3 _ _ _ _].
  assert (Hboth : Forall (fun e => e.2.1 = true) (c_tail c)) by (eapply Forall_impl; [exact E3|by intros ? []]).
  unfold ngx_http_find_virtual_server, ngx_hash_find_combined. rewrite Hre.
  assert (Ex : find_in (hc_hash (vn_names vn)) (fun h => ngx_hash_find h (ngx_hash_key host) host) =
               Ret (exact_server (c_exact c) host)).
  { destruct (hc_hash (vn_names vn)) as [h|]; cbn [find_in]; [|by rewrite Hx].
    destruct (keys_find (c_exact c) host E1) as [Hk <-]. by apply hash_find_ok. }
  rewrite Ex, (wild_head_found _ _ host Hh Hn1), (wild_tail_found _ _ host Ht Hn2 Hboth). unfold server_of, or_else.
  destruct (exact_server (c_exact c) host) as [v|]; [done|]. cbn [outcome_bind].
  destruct host as [|b host]; [done|]. cbn [length Nat.eqb]. rewrite !decide_False by done.
  destruct (best (c_head c) _); [done|]. cbn [outcome_bind]. by destruct (best (longer (c_tail c)) _).
Qed.

End Collect.

(** The sort of ngx_string.c is a qsort. *)
#[export] Instance ngx_sort_qsort V : QSort (ngx_sort (fun a b : list Z * V => ngx_dns_strcmp a.1 b.1)).
Proof.
  split.
  - intros l. apply ngx_sort_perm.
  - intros l Hl. apply (ngx_sort_sorted (fun a b : list Z * V => ngx_dns_strcmp a.1 b.1) (fun n => Forall key_char n.1)); [| |done].
    + intros x y Hx Hy. rewrite !dns_strcmp_le by done.
      pose proof (bytes_cmp_opp (dns_key x.1) (dns_key y.1)). lia.
    + intros x y z Hx Hy Hz. rewrite !dns_strcmp_le by done.
      pose proof (bytes_cmp_trans (dns_key x.1) (dns_key y.1) (dns_key z.1)) as Ht.
      pose proof (bytes_cmp_eq (dns_key x.1) (dns_key y.1)) as E1. pose proof (bytes_cmp_eq (dns_key y.1) (dns_key z.1)) as E2.
      intros H1 H2. destruct (Z.eq_dec (bytes_cmp (dns_key x.1) (dns_key y.1)) 0) as [E|E]; [apply E1 in E; by rewrite E|].
      destruct (Z.eq_dec (bytes_cmp (dns_key y.1) (dns_key z.1)) 0) as [F|F]; [apply E2 in F; by rewrite <- F|]. lia.
Qed.

Definition test_names : list (ngx_http_server_name_t (V := Z) (R := unit)) :=
  [MkName $"example.com" None 1; MkName $"*.example.com" None 2; MkName $".Example.org" None 3;
   MkName $"www.*" None 4; MkName $"*.com" None 5; MkName $"www.example.*" None 6; MkName $"*.org" None 7].

Definition lookup_test (host : list Z) : outcome (option Z) :=
  let! vn := ngx_http_server_names (ngx_sort (fun a b => ngx_dns_strcmp a.1 b.1)) 64 (MkInit 512 64) test_names in
  let! r := ngx_http_find_virtual_server (fun _ _ => NGX_DECLINED) vn host in
  Ret r.2.

Lemma virtual_server_found_witness :
  let sort := ngx_sort (fun a b => ngx_dns_strcmp a.1 b.1) in
  exists r, ngx_http_server_names sort (2 ^ 6) (MkInit 512 64) test_names = Ret r /\
    match collect test_names nothing with
    | None => r = None
    | Some c => forall vn host, r = Some vn ->
      ngx_http_find_virtual_server (fun _ _ => NGX_DECLINED) (Some vn) host =
      Ret (match server_of c host with
           | Some v => (NGX_OK, Some v)
           | None => if decide (host = []) then (NGX_DECLINED, None)
                     else find_server_regex (fun _ _ => NGX_DECLINED) host (server_regexes test_names)
           end)
    end.
Proof.
  intros sort. apply (virtual_server_found sort 6 (MkInit 512 64) test_names (fun _ _ => NGX_DECLINED)); [lia|cbn; lia|].
  unfold test_names, name_ok. repeat (apply Forall_cons; split; [intros _; apply (bool_decide_unpack _); vm_compute; exact I|]). apply Forall_nil. exact I.
Defined.

Example lookup_examples :
  map lookup_test [$"example.com"; $"www.example.com"; $"example.org"; $"a.b.example.org"; $"x.org"; $"a.com";
                   $"www.net"; $"www.example.net"; $"mail.net"; $"com"] =
  map (fun o => Ret o) [Some 1; Some 2; Some 3; Some 3; Some 7; Some 5; Some 4; Some 6; None; None].
Proof. vm_compute. reflexivity. Qed.

(** A name ".x" that is ignored as conflicting with "*.x" still keeps its place
    among the exact names: the server of the exact name "x" after it is
    ignored too, and "x" is the name of no server. *)
Example ignored_name_stays :
  (let! vn := ngx_http_server_names (ngx_sort (fun a b => ngx_dns_strcmp a.1 b.1)) 64 (MkInit 512 64)
     [MkName $"*.example.com" None 1; MkName $".example.com" None 2; MkName (R := unit) $"example.com" None 3] in
   let! r := ngx_http_find_virtual_server (fun _ _ => NGX_DECLINED) vn $"example.com" in Ret r.2) = Ret None.
Proof. vm_compute. reflexivity. Qed.

End ServerNames.
