(* ===== verification/NgxPhases.v ===== *)
(** The phase engine of src/http: ngx_http_init_phase_handlers of ngx_http.c
    makes a table of the handlers of all phases, and ngx_http_core_run_phases
    of ngx_http_core_module.c runs a request through it with the checkers of
    the phases, which jump in the table, run it again from an earlier phase
    after a rewrite, or end the request.

    The handlers of the modules, the search of the location, the document root
    and the files are parameters.  A run gives its events: the calls of
    handlers with their results, the calls of ngx_http_finalize_request and of
    ngx_http_discard_request_body.  Allocation succeeds; the log and the
    handlers of the read and write events are left out, and so is what
    ngx_http_finalize_request does with a request. *)

From S2P Require Import Prelude NgxLocation.

Module Phases.

(** * Data *)

Definition NGX_HTTP_MOVED_PERMANENTLY : Z := 301.
Definition NGX_HTTP_UNAUTHORIZED : Z := 401.
Definition NGX_HTTP_FORBIDDEN : Z := 403.
Definition NGX_HTTP_NOT_FOUND : Z := 404.
Definition NGX_HTTP_REQUEST_ENTITY_TOO_LARGE : Z := 413.
Definition NGX_HTTP_INTERNAL_SERVER_ERROR : Z := 500.
Definition NGX_HTTP_VERSION_10 : Z := 1000.
Definition NGX_HTTP_POST : Z := 8.
Definition NGX_HTTP_KEEPALIVE_DISABLE_MSIE6 : Z := 4.
Definition NGX_HTTP_KEEPALIVE_DISABLE_SAFARI : Z := 8.
Definition NGX_HTTP_REQUEST_BODY_FILE_CLEAN : Z := 2.
Definition NGX_LOG_WARN : Z := 5.
Definition NGX_LOG_NOTICE : Z := 6.
Definition NGX_HTTP_MAX_URI_CHANGES : Z := 10.

Section Data.
Context (H L X : Type).

(** A name of try_files: without variables, or what they give. *)
Record ngx_http_try_file_t := MkTry { tf_name : list Z; tf_values : option (X -> list Z); tf_test_dir : bool }.

(** The settings of a location that the engine uses. *)
Record ngx_http_core_loc_conf_t := MkClcf {
  cl_name : list Z; cl_regex : bool; cl_internal : bool; cl_satisfy_all : bool;
  cl_client_max_body_size : Z; cl_handler : option H;
  cl_limit_except : Z; cl_limit_except_loc_conf : L;
  cl_try_files : option (list ngx_http_try_file_t * Z); cl_alias : nat;
  cl_sendfile : bool; cl_body_in_file_only : Z; cl_body_in_single_buffer : bool;
  cl_keepalive_timeout : Z; cl_keepalive_requests : Z; cl_keepalive_disable : Z;
  cl_tcp_nopush : bool; cl_limit_rate : Z }.

(** A request and its connection; [mods] is the state of the modules. *)
Record ngx_http_request_t := MkReq {
  phase_handler : nat; is_main : bool; internal : bool;
  uri : list Z; args : list Z; exten : list Z; method : Z; http_version : Z;
  uri_changed : bool; uri_changes : Z; access_code : Z;
  content_handler : option H; loc_conf : L;
  content_length_n : Z; discard_body : bool; expect_tested : bool; connection_type : Z;
  location : option (list Z); www_authenticate : option Z;
  keepalive : bool; lingering_close : bool; requests : Z; msie6 : bool; safari : bool;
  sendfile : bool; body_in_file_only : bool; body_in_persistent_file : bool; body_in_clean_file : bool;
  body_file_log_level : Z; body_in_single_buf : bool; tcp_nopush_disabled : bool; limit_rate : Z;
  add_uri_to_alias : bool; valid_unparsed_uri : bool; valid_location : bool; count : Z; mods : X }.

Definition req_eta (r : ngx_http_request_t) : ngx_http_request_t :=
  MkReq (phase_handler r) (is_main r) (internal r) (uri r) (args r) (exten r) (method r) (http_version r)
    (uri_changed r) (uri_changes r) (access_code r) (content_handler r) (loc_conf r) (content_length_n r)
    (discard_body r) (expect_tested r) (connection_type r) (location r) (www_authenticate r) (keepalive r)
    (lingering_close r) (requests r) (msie6 r) (safari r) (sendfile r) (body_in_file_only r)
    (body_in_persistent_file r) (body_in_clean_file r) (body_file_log_level r) (body_in_single_buf r)
    (tcp_nopush_disabled r) (limit_rate r) (add_uri_to_alias r) (valid_unparsed_uri r) (valid_location r)
    (count r) (mods r).

Definition set_phase v r := ltac:(record_set req_eta phase_handler v r).
Definition set_internal v r := ltac:(record_set req_eta internal v r).
Definition set_uri v r := ltac:(record_set req_eta uri v r).
Definition set_args v r := ltac:(record_set req_eta args v r).
Definition set_exten v r := ltac:(record_set req_eta exten v r).
Definition set_uri_changed v r := ltac:(record_set req_eta uri_changed v r).
Definition set_uri_changes v r := ltac:(record_set req_eta uri_changes v r).
Definition set_access_code v r := ltac:(record_set req_eta access_code v r).
Definition set_content_handler v r := ltac:(record_set req_eta content_handler v r).
Definition set_loc_conf v r := ltac:(record_set req_eta loc_conf v r).
Definition set_expect_tested v r := ltac:(record_set req_eta expect_tested v r).
Definition set_location v r := ltac:(record_set req_eta location v r).
Definition set_www_authenticate v r := ltac:(record_set req_eta www_authenticate v r).
Definition set_keepalive v r := ltac:(record_set req_eta keepalive v r).
Definition set_lingering_close v r := ltac:(record_set req_eta lingering_close v r).
Definition set_sendfile v r := ltac:(record_set req_eta sendfile v r).
Definition set_body_in_file_only v r := ltac:(record_set req_eta body_in_file_only v r).
Definition set_body_in_persistent_file v r := ltac:(record_set req_eta body_in_persistent_file v r).
Definition set_body_in_clean_file v r := ltac:(record_set req_eta body_in_clean_file v r).
Definition set_body_file_log_level v r := ltac:(record_set req_eta body_file_log_level v r).
Definition set_body_in_single_buf v r := ltac:(record_set req_eta body_in_single_buf v r).
Definition set_tcp_nopush_disabled v r := ltac:(record_set req_eta tcp_nopush_disabled v r).
Definition set_limit_rate v r := ltac:(record_set req_eta limit_rate v r).
Definition set_add_uri_to_alias v r := ltac:(record_set req_eta add_uri_to_alias v r).
Definition set_valid_unparsed_uri v r := ltac:(record_set req_eta valid_unparsed_uri v r).
Definition set_valid_location v r := ltac:(record_set req_eta valid_location v r).
Definition set_count v r := ltac:(record_set req_eta count v r).
Definition set_mods v r := ltac:(record_set req_eta mods v r).

Inductive checker := Generic | Rewrite | FindConfig | PostRewrite | Access | PostAccess | TryFiles | Content.

Record ngx_http_phase_handler_t := MkPh { ph_checker : checker; ph_handler : option H; ph_next : nat }.

(** A call has the checker, the location of the request, the handler and what
    it returns. *)
Inductive event := Called (c : checker) (l : L) (h : H) (rc : Z) | Finalized (rc : Z) | Discarded.

End Data.

Arguments MkTry {X} _ _ _.
Arguments tf_name {X} _.
Arguments tf_values {X} _.
Arguments tf_test_dir {X} _.
Arguments MkPh {H} _ _ _.
Arguments ph_checker {H} _.
Arguments ph_handler {H} _.
Arguments ph_next {H} _.
Arguments Called {H L} _ _ _ _.
Arguments Finalized {H L} _.
Arguments Discarded {H L}.
Arguments cl_name {H L X} _.
Arguments cl_regex {H L X} _.
Arguments cl_internal {H L X} _.
Arguments cl_satisfy_all {H L X} _.
Arguments cl_client_max_body_size {H L X} _.
Arguments cl_handler {H L X} _.
Arguments cl_limit_except {H L X} _.
Arguments cl_limit_except_loc_conf {H L X} _.
Arguments cl_try_files {H L X} _.
Arguments cl_alias {H L X} _.
Arguments cl_sendfile {H L X} _.
Arguments cl_body_in_file_only {H L X} _.
Arguments cl_body_in_single_buffer {H L X} _.
Arguments cl_keepalive_timeout {H L X} _.
Arguments cl_keepalive_requests {H L X} _.
Arguments cl_keepalive_disable {H L X} _.
Arguments cl_tcp_nopush {H L X} _.
Arguments cl_limit_rate {H L X} _.
Arguments phase_handler {H L X} _.
Arguments is_main {H L X} _.
Arguments internal {H L X} _.
Arguments uri {H L X} _.
Arguments args {H L X} _.
Arguments exten {H L X} _.
Arguments method {H L X} _.
Arguments http_version {H L X} _.
Arguments uri_changed {H L X} _.
Arguments uri_changes {H L X} _.
Arguments access_code {H L X} _.
Arguments content_handler {H L X} _.
Arguments loc_conf {H L X} _.
Arguments content_length_n {H L X} _.
Arguments discard_body {H L X} _.
Arguments expect_tested {H L X} _.
Arguments connection_type {H L X} _.
Arguments location {H L X} _.
Arguments www_authenticate {H L X} _.
Arguments keepalive {H L X} _.
Arguments lingering_close {H L X} _.
Arguments requests {H L X} _.
Arguments msie6 {H L X} _.
Arguments safari {H L X} _.
Arguments sendfile {H L X} _.
Arguments body_in_file_only {H L X} _.
Arguments body_in_persistent_file {H L X} _.
Arguments body_in_clean_file {H L X} _.
Arguments body_file_log_level {H L X} _.
Arguments body_in_single_buf {H L X} _.
Arguments tcp_nopush_disabled {H L X} _.
Arguments limit_rate {H L X} _.
Arguments add_uri_to_alias {H L X} _.
Arguments valid_unparsed_uri {H L X} _.
Arguments valid_location {H L X} _.
Arguments count {H L X} _.
Arguments mods {H L X} _.
Arguments set_phase {H L X} _ _.
Arguments set_internal {H L X} _ _.
Arguments set_uri {H L X} _ _.
Arguments set_args {H L X} _ _.
Arguments set_exten {H L X} _ _.
Arguments set_uri_changed {H L X} _ _.
Arguments set_uri_changes {H L X} _ _.
Arguments set_access_code {H L X} _ _.
Arguments set_content_handler {H L X} _ _.
Arguments set_loc_conf {H L X} _ _.
Arguments set_expect_tested {H L X} _ _.
Arguments set_location {H L X} _ _.
Arguments set_www_authenticate {H L X} _ _.
Arguments set_keepalive {H L X} _ _.
Arguments set_lingering_close {H L X} _ _.
Arguments set_sendfile {H L X} _ _.
Arguments set_body_in_file_only {H L X} _ _.
Arguments set_body_in_persistent_file {H L X} _ _.
Arguments set_body_in_clean_file {H L X} _ _.
Arguments set_body_file_log_level {H L X} _ _.
Arguments set_body_in_single_buf {H L X} _ _.
Arguments set_tcp_nopush_disabled {H L X} _ _.
Arguments set_limit_rate {H L X} _ _.
Arguments set_add_uri_to_alias {H L X} _ _.
Arguments set_valid_unparsed_uri {H L X} _ _.
Arguments set_valid_location {H L X} _ _.
Arguments set_count {H L X} _ _.
Arguments set_mods {H L X} _ _.

(** * The table *)

Section Table.
Context {H : Type}.

(** The table so far, the number of its entries, the index of the entry of the
    search of the location, and those of both rewrite phases. *)
Record init_state := MkInitState {
  is_ph : list (ngx_http_phase_handler_t H); is_n : nat; is_find_config : nat;
  is_server_rewrite : option nat; is_location_rewrite : option nat }.

Record ngx_http_phase_engine_t := MkEngine {
  handlers : list (ngx_http_phase_handler_t H);
  server_rewrite_index : nat; location_rewrite_index : nat }.

Definition set_index (index : option nat) (n : nat) : option nat :=
  match index with None => Some n | Some i => Some i end.

(** The handlers of a phase after the switch, the last one first. *)
Definition add_handlers (c : checker) (hs : list H) (st : init_state) : init_state :=
  let n := (is_n st + length hs)%nat in
  MkInitState (is_ph st ++ map (fun h => MkPh c (Some h) n) (List.rev hs)) n
    (is_find_config st) (is_server_rewrite st) (is_location_rewrite st).

(** The body of the loop for the phase [i] with the handlers [hs]. *)
Definition init_phase (use_rewrite use_access try_files : bool) (i : nat) (hs : list H) (st : init_state)
    : init_state :=
  let '(MkInitState ph n fc sr lr) := st in
  match i with
  | 1%nat => add_handlers Rewrite hs (MkInitState ph n fc (set_index sr n) lr)
  | 2%nat => MkInitState (ph ++ [MkPh FindConfig None 0]) (S n) n sr lr
  | 3%nat => add_handlers Rewrite hs (MkInitState ph n fc sr (set_index lr n))
  | 4%nat => if use_rewrite then MkInitState (ph ++ [MkPh PostRewrite None fc]) (S n) fc sr lr else st
  | 6%nat => add_handlers Access hs (MkInitState ph (S n) fc sr lr)
  | 7%nat => if use_access then MkInitState (ph ++ [MkPh PostAccess None n]) n fc sr lr else st
  | 8%nat => if try_files then MkInitState (ph ++ [MkPh TryFiles None 0]) (S n) fc sr lr else st
  | 9%nat => add_handlers Content hs st
  | _ => add_handlers Generic hs st
  end.

Fixpoint init_phases (use_rewrite use_access try_files : bool) (i : nat) (phases : list (list H)) (st : init_state)
    : init_state :=
  match phases with
  | [] => st
  | hs :: phases =>
    init_phases use_rewrite use_access try_files (S i) phases (init_phase use_rewrite use_access try_files i hs st)
  end.

Definition flag (b : bool) : nat := if b then 1 else 0.

(** [phases] has the handlers of the phases before NGX_HTTP_LOG_PHASE.  The
    table is an array of [n] entries and the NULL of the checker after the
    last one. *)
Definition ngx_http_init_phase_handlers (phases : list (list H)) (try_files : bool)
    : outcome ngx_http_phase_engine_t :=
  let use_rewrite := negb (length (nth 3 phases []) =? 0)%nat in
  let use_access := negb (length (nth 6 phases []) =? 0)%nat in
  let n := fold_left (fun n hs => (n + length hs)%nat) phases (flag use_rewrite + flag use_access + flag try_files + 1)%nat in
  let st := init_phases use_rewrite use_access try_files 0 phases (MkInitState [] 0 0 None None) in
  if (length (is_ph st) <=? n)%nat
  then Ret (MkEngine (is_ph st) (default 0%nat (is_server_rewrite st)) (default 0%nat (is_location_rewrite st)))
  else Undefined.

End Table.

Arguments init_state : clear implicits.
Arguments ngx_http_phase_engine_t : clear implicits.

(** * The checkers *)

Section Checkers.
Context {H L X : Type}.
Abbreviation req := (ngx_http_request_t H L X).
Abbreviation clcf := (ngx_http_core_loc_conf_t H L X).

(** The handlers of the modules, the settings of a location, the location of
    the server, the search of a location. *)
Context (call : H -> req -> Z * req) (conf : L -> clcf) (srv_loc_conf : L)
  (find_location : list Z -> L -> outcome (Z * L)).

(** NGX_IO_SENDFILE, the reset of the contexts of the modules, the named
    locations of the server; ngx_http_map_uri_to_path without the URI,
    ngx_http_set_disable_symlinks and ngx_open_cached_file, which tells a
    directory; the byte in memory before an empty URI. *)
Context (io_sendfile : bool) (clear_ctx : X -> X) (named_locations : list L)
  (document_root : req -> option (list Z)) (disable_symlinks : req -> list Z -> bool)
  (open_file : list Z -> option bool) (byte_before : req -> Z).

(** The events, whether the checker returns NGX_AGAIN, and the request. *)
Definition checked : Type := list (event H L) * bool * req.

Definition go_on (r : req) : checked := ([], true, r).
Definition finalize (rc : Z) (r : req) : checked := ([Finalized rc], false, r).

Definition clcf_of (r : req) : clcf := conf (loc_conf r).

(** A call of the handler of an entry; a NULL handler is never called. *)
Definition with_handler (ph : ngx_http_phase_handler_t H) (r : req) (k : Z -> req -> checked) : outcome checked :=
  match ph_handler ph with
  | None => Undefined
  | Some h =>
    let l := loc_conf r in
    let '(rc, r) := call h r in
    let '(evs, again, r) := k rc r in Ret (Called (ph_checker ph) l h rc :: evs, again, r)
  end.

Definition next_phase (r : req) : req := set_phase (S (phase_handler r)) r.

Definition ngx_http_core_generic_phase (ph : ngx_http_phase_handler_t H) (r : req) : outcome checked :=
  with_handler ph r (fun rc r =>
    if rc =? NGX_OK then go_on (set_phase (ph_next ph) r)
    else if rc =? NGX_DECLINED then go_on (next_phase r)
    else if (rc =? NGX_AGAIN) || (rc =? NGX_DONE) then ([], false, r)
    else finalize rc r).

Definition ngx_http_core_rewrite_phase (ph : ngx_http_phase_handler_t H) (r : req) : outcome checked :=
  with_handler ph r (fun rc r =>
    if rc =? NGX_DECLINED then go_on (next_phase r)
    else if rc =? NGX_DONE then ([], false, r)
    else finalize rc r).

Definition ngx_http_core_post_rewrite_phase (ph : ngx_http_phase_handler_t H) (r : req) : checked :=
  if negb (uri_changed r) then go_on (next_phase r)
  else
    let r := set_uri_changes (wrapU 4 (uri_changes r - 1)) r in
    if uri_changes r =? 0 then finalize NGX_HTTP_INTERNAL_SERVER_ERROR r
    else go_on (set_loc_conf srv_loc_conf (set_phase (ph_next ph) r)).

Definition ngx_http_core_access_phase (ph : ngx_http_phase_handler_t H) (r : req) : outcome checked :=
  if negb (is_main r) then Ret (go_on (set_phase (ph_next ph) r))
  else
    with_handler ph r (fun rc r =>
      if rc =? NGX_DECLINED then go_on (next_phase r)
      else if (rc =? NGX_AGAIN) || (rc =? NGX_DONE) then ([], false, r)
      else if cl_satisfy_all (clcf_of r) then
        if rc =? NGX_OK then go_on (next_phase r) else finalize rc r
      else
        if rc =? NGX_OK then
          let r := set_access_code 0 r in
          let r := match www_authenticate r with Some _ => set_www_authenticate (Some 0) r | None => r end in
          go_on (set_phase (ph_next ph) r)
        else if (rc =? NGX_HTTP_FORBIDDEN) || (rc =? NGX_HTTP_UNAUTHORIZED) then
          go_on (next_phase (set_access_code rc r))
        else finalize rc r).

Definition ngx_http_core_post_access_phase (r : req) : checked :=
  if negb (access_code r =? 0) then finalize (access_code r) (set_access_code 0 r)
  else go_on (next_phase r).

(** [last_entry] tells that the next checker is NULL. *)
Definition ngx_http_core_content_phase (ph : ngx_http_phase_handler_t H) (last_entry : bool) (r : req)
    : outcome checked :=
  match content_handler r with
  | Some h =>
    let l := loc_conf r in
    let '(rc, r) := call h r in Ret ([Called Content l h rc; Finalized rc], false, r)
  | None =>
    with_handler ph r (fun rc r =>
      if negb (rc =? NGX_DECLINED) then finalize rc r
      else if negb last_entry then go_on (next_phase r)
      else if default (byte_before r) (last (uri r)) =? "/"%c then finalize NGX_HTTP_FORBIDDEN r
      else finalize NGX_HTTP_NOT_FOUND r)
  end.

(** ** The location *)

Definition keepalive_off (c : clcf) (r : req) : bool :=
  if cl_keepalive_timeout c =? 0 then true
  else if requests r >=? cl_keepalive_requests c then true
  else if msie6 r && (method r =? NGX_HTTP_POST) &&
          negb (Z.land (cl_keepalive_disable c) NGX_HTTP_KEEPALIVE_DISABLE_MSIE6 =? 0) then true
  else safari r && negb (Z.land (cl_keepalive_disable c) NGX_HTTP_KEEPALIVE_DISABLE_SAFARI =? 0).

Definition ngx_http_update_location_config (r : req) : req :=
  let r := if negb (Z.land (method r) (cl_limit_except (clcf_of r)) =? 0)
           then set_loc_conf (cl_limit_except_loc_conf (clcf_of r)) r else r in
  let c := clcf_of r in
  let r := set_sendfile (io_sendfile && cl_sendfile c) r in
  let r := if negb (cl_body_in_file_only c =? 0) then
             set_body_file_log_level NGX_LOG_NOTICE
               (set_body_in_clean_file (cl_body_in_file_only c =? NGX_HTTP_REQUEST_BODY_FILE_CLEAN)
                 (set_body_in_persistent_file true (set_body_in_file_only true r)))
           else set_body_file_log_level NGX_LOG_WARN r in
  let r := set_body_in_single_buf (cl_body_in_single_buffer c) r in
  let r := if keepalive r && keepalive_off c r then set_keepalive false r else r in
  let r := if negb (cl_tcp_nopush c) then set_tcp_nopush_disabled true r else r in
  let r := if limit_rate r =? 0 then set_limit_rate (cl_limit_rate c) r else r in
  match cl_handler c with Some h => set_content_handler (Some h) r | None => r end.

Definition ngx_http_core_find_config_phase (r : req) : outcome checked :=
  let r := set_uri_changed false (set_content_handler None r) in
  let! (rc, l) := find_location (uri r) (loc_conf r) in
  let r := set_loc_conf l r in
  if rc =? NGX_ERROR then Ret (finalize NGX_HTTP_INTERNAL_SERVER_ERROR r)
  else
    let c := clcf_of r in
    if negb (internal r) && cl_internal c then Ret (finalize NGX_HTTP_NOT_FOUND r)
    else
      let r := ngx_http_update_location_config r in
      if negb (content_length_n r =? -1) && negb (discard_body r) && negb (cl_client_max_body_size c =? 0)
         && (cl_client_max_body_size c <? content_length_n r)
      then Ret ([Discarded; Finalized NGX_HTTP_REQUEST_ENTITY_TOO_LARGE], false, set_expect_tested true r)
      else if rc =? NGX_DONE then
        let value := if (length (args r) =? 0)%nat then cl_name c else cl_name c ++ "?"%c :: args r in
        Ret (finalize NGX_HTTP_MOVED_PERMANENTLY (set_location (Some value) r))
      else Ret (go_on (next_phase r)).

(** ** Redirections inside the server *)

(** The loop from the byte [i] of the URI. *)
Fixpoint exten_from (u : list Z) (i : nat) : list Z :=
  match i with
  | S ((S _) as j) =>
    if (nth i u 0 =? "."%c) && negb (nth j u 0 =? "/"%c) then drop (S i) u
    else if nth i u 0 =? "/"%c then []
    else exten_from u j
  | _ => []
  end.

Definition ngx_http_set_exten (r : req) : req := set_exten (exten_from (uri r) (length (uri r) - 1)) r.

(** Before the first '?', and after it. *)
Fixpoint ngx_http_split_args (u : list Z) : list Z * list Z :=
  match u with
  | [] => ([], [])
  | c :: u => if c =? "?"%c then ([], u) else let '(p, a) := ngx_http_split_args u in (c :: p, a)
  end.

Section Redirect.
Context (engine : ngx_http_phase_engine_t H) (run : req -> outcome (list (event H L) * req)).

Definition ngx_http_handler (r : req) : outcome (list (event H L) * req) :=
  let r :=
    if negb (internal r) then
      let r := if connection_type r =? 0 then set_keepalive (http_version r >? NGX_HTTP_VERSION_10) r
               else if connection_type r =? 1 then set_keepalive false r
               else if connection_type r =? 2 then set_keepalive true r
               else r in
      set_phase 0 (set_lingering_close (content_length_n r >? 0) r)
    else set_phase (server_rewrite_index engine) r in
  run (set_valid_location true r).

Definition ngx_http_internal_redirect (u a : list Z) (r : req) : outcome (list (event H L) * req) :=
  let r := set_uri_changes (wrapU 4 (uri_changes r - 1)) r in
  if uri_changes r =? 0 then Ret ([Finalized NGX_HTTP_INTERNAL_SERVER_ERROR], set_count (wrapU 8 (count r + 1)) r)
  else
    let r := ngx_http_set_exten (set_args a (set_uri u r)) in
    let r := set_loc_conf srv_loc_conf (set_mods (clear_ctx (mods r)) r) in
    let r := ngx_http_update_location_config r in
    let r := set_add_uri_to_alias false (set_valid_unparsed_uri false (set_internal true r)) in
    ngx_http_handler (set_count (wrapU 8 (count r + 1)) r).

Fixpoint find_named (name : list Z) (l : list L) : option L :=
  match l with
  | [] => None
  | c :: l =>
    if (length name =? length (cl_name (conf c)))%nat && (ngx_strncmp name (cl_name (conf c)) (length name) =? 0)
    then Some c else find_named name l
  end.

Definition ngx_http_named_location (name : list Z) (r : req) : outcome (list (event H L) * req) :=
  let r := set_uri_changes (wrapU 4 (uri_changes r - 1)) (set_count (wrapU 8 (count r + 1)) r) in
  if uri_changes r =? 0 then Ret ([Finalized NGX_HTTP_INTERNAL_SERVER_ERROR], r)
  else
    match find_named name named_locations with
    | None => Ret ([Finalized NGX_HTTP_INTERNAL_SERVER_ERROR], r)
    | Some c =>
      let r := set_loc_conf c (set_uri_changed false (set_content_handler None (set_internal true r))) in
      let r := ngx_http_update_location_config (set_mods (clear_ctx (mods r)) r) in
      run (set_phase (location_rewrite_index engine) r)
    end.

(** ** Files *)

(** What is tried for an entry, after the document root. *)
Definition try_name (c : clcf) (tf : ngx_http_try_file_t X) (r : req) : list Z :=
  match tf_values tf with
  | None => tf_name tf
  | Some values =>
    let name := values (mods r) in
    if negb (cl_alias c =? 0)%nat && (ngx_strncmp name (cl_name c) (cl_alias c) =? 0) then drop (cl_alias c) name else name
  end.

(** The request goes on with the URI of a file that was found. *)
Definition try_found (c : clcf) (name : list Z) (test_dir : bool) (r : req) : checked :=
  let r := if (cl_alias c =? 0)%nat then set_uri name r
           else if cl_regex c then (if negb test_dir then set_add_uri_to_alias true (set_uri name r) else r)
           else set_uri (take (cl_alias c) (cl_name c) ++ name) r in
  go_on (next_phase (ngx_http_set_exten r)).

(** The last entry: a code, a named location or another URI. *)
Definition try_last (code : Z) (name : list Z) (r : req) : outcome checked :=
  if negb (code =? 0) then Ret (finalize code r)
  else
    let! (evs, r) := (if hd 0 name =? "@"%c then ngx_http_named_location name r
                      else let '(u, a) := ngx_http_split_args name in ngx_http_internal_redirect u a r) in
    Ret (evs ++ [Finalized NGX_DONE], false, r).

(** The document root is mapped again only for a longer name, with the same
    result. *)
Fixpoint try_loop (c : clcf) (code : Z) (tfs : list (ngx_http_try_file_t X)) (r : req) : outcome checked :=
  match tfs with
  | [] => Undefined
  | tf :: tfs =>
    match document_root r with
    | None => Ret (finalize NGX_HTTP_INTERNAL_SERVER_ERROR r)
    | Some root =>
      let name := try_name c tf r in
      match tfs with
      | [] => try_last code name r
      | _ =>
        if negb (disable_symlinks r (root ++ name)) then Ret (finalize NGX_HTTP_INTERNAL_SERVER_ERROR r)
        else match open_file (root ++ name) with
             | None => try_loop c code tfs r
             | Some is_dir =>
               if is_dir && negb (tf_test_dir tf) then try_loop c code tfs r
               else Ret (try_found c name (tf_test_dir tf) r)
             end
      end
    end
  end.

Definition ngx_http_core_try_files_phase (r : req) : outcome checked :=
  match cl_try_files (clcf_of r) with
  | None => Ret (go_on (next_phase r))
  | Some (tfs, code) => try_loop (clcf_of r) code tfs r
  end.

(** ** The engine *)

Definition check (ph : ngx_http_phase_handler_t H) (last_entry : bool) (r : req) : outcome checked :=
  match ph_checker ph with
  | Generic => ngx_http_core_generic_phase ph r
  | Rewrite => ngx_http_core_rewrite_phase ph r
  | FindConfig => ngx_http_core_find_config_phase r
  | PostRewrite => Ret (ngx_http_core_post_rewrite_phase ph r)
  | Access => ngx_http_core_access_phase ph r
  | PostAccess => Ret (ngx_http_core_post_access_phase r)
  | TryFiles => ngx_http_core_try_files_phase r
  | Content => ngx_http_core_content_phase ph last_entry r
  end.

End Redirect.

(** The loop; its fuel is for the calls of checkers, those of the runs that
    checkers start included. *)
Fixpoint ngx_http_core_run_phases (engine : ngx_http_phase_engine_t H) (fuel : nat) (r : req)
    : outcome (list (event H L) * req) :=
  match fuel with
  | O => NoFuel
  | S fuel =>
    let i := phase_handler r in
    if (i =? length (handlers engine))%nat then Ret ([], r)
    else
      match handlers engine !! i with
      | None => Undefined
      | Some ph =>
        let run := ngx_http_core_run_phases engine fuel in
        let! (evs, again, r) := check engine run ph (S i =? length (handlers engine))%nat r in
        if again then let! (evs', r) := run r in Ret (evs ++ evs', r) else Ret (evs, r)
      end
  end.

End Checkers.
End Phases.
