(* ===== verification/NgxPhasesRun.v ===== *)
(** The phase engine against the phases: the table of
    ngx_http_init_phase_handlers is the phases one after the other, and a run
    from any of its entries is a run through the rest of the phases, in
    [run_stages]. *)

From S2P Require Import Prelude NgxLocation NgxPhases.

Module PhasesRun.

Import Phases.

Lemma ten_elements {A} (l : list A) : length l = 10%nat ->
  exists p0 p1 p2 p3 p4 p5 p6 p7 p8 p9, l = [p0; p1; p2; p3; p4; p5; p6; p7; p8; p9].
Proof.
  do 10 (destruct l as [|? l]; [done|]). destruct l; [|done]. intros _. do 10 eexists. done.
Qed.

Section Run.
Context {H L X : Type}.
Abbreviation req := (ngx_http_request_t H L X).
Abbreviation clcf := (ngx_http_core_loc_conf_t H L X).
Context (call : H -> req -> Z * req) (conf : L -> clcf) (srv_loc_conf : L)
  (find_location : list Z -> L -> outcome (Z * L)).
Context (io_sendfile : bool) (clear_ctx : X -> X) (named_locations : list L)
  (document_root : req -> option (list Z)) (disable_symlinks : req -> list Z -> bool)
  (open_file : list Z -> option bool) (byte_before : req -> Z).

(** * The phases *)

(** The handlers of a phase are in the order of their calls.  After the access
    handlers comes the decision of the access phase. *)
Inductive stage :=
| SGeneric (hs : list H)
| SRewrite (hs : list H)
| SFind
| SPostRewrite
| SAccess (hs : list H)
| STry
| SContent (hs : list H).

Definition calls (phases : list (list H)) (i : nat) : list H := List.rev (nth i phases []).

Definition nonempty (l : list H) : bool := negb (length l =? 0)%nat.

Section Stages.
Context (phases : list (list H)) (try_files : bool).

Definition after_access : list stage := (if try_files then [STry] else []) ++ [SContent (calls phases 9)].

Definition after_rewrite : list stage :=
  [SGeneric (calls phases 5)] ++ (if nonempty (calls phases 6) then [SAccess (calls phases 6)] else []) ++ after_access.

Definition from_location_rewrite : list stage :=
  [SRewrite (calls phases 3)] ++ (if nonempty (calls phases 3) then [SPostRewrite] else []) ++ after_rewrite.

Definition from_find : list stage := SFind :: from_location_rewrite.

Definition from_server_rewrite : list stage := SRewrite (calls phases 1) :: from_find.

Definition all_stages : list stage := SGeneric (calls phases 0) :: from_server_rewrite.

End Stages.

(** * A run through phases *)

Definition res : Type := list (event H L) * req.

Definition emit (evs : list (event H L)) (x : res) : res := (evs ++ x.1, x.2).

Definition stop (r : req) : res := ([], r).
Definition final (rc : Z) (r : req) : res := ([Finalized rc], r).

(** The phases of post read and pre-access: NGX_OK ends the phase. *)
Fixpoint run_generic (i : nat) (hs : list H) (r : req) (k : req -> res) : res :=
  match hs with
  | [] => k r
  | h :: hs =>
    let '(rc, r') := call h r in
    emit [Called Generic (loc_conf r) h rc]
      (if rc =? NGX_OK then k (set_phase (S i + length hs) r')
       else if rc =? NGX_DECLINED then run_generic (S i) hs (set_phase (S i) r') k
       else if (rc =? NGX_AGAIN) || (rc =? NGX_DONE) then stop r'
       else final rc r')
  end.

Fixpoint run_rewrite (i : nat) (hs : list H) (r : req) (k : req -> res) : res :=
  match hs with
  | [] => k r
  | h :: hs =>
    let '(rc, r') := call h r in
    emit [Called Rewrite (loc_conf r) h rc]
      (if rc =? NGX_DECLINED then run_rewrite (S i) hs (set_phase (S i) r') k
       else if rc =? NGX_DONE then stop r'
       else final rc r')
  end.

(** The access phase: with "satisfy all" every handler must agree, with
    "satisfy any" the first that agrees is enough, and if none does the last
    refusal counts.  A subrequest has no access phase. *)
Fixpoint run_access (i : nat) (hs : list H) (r : req) (k : req -> res) : res :=
  match hs with
  | [] => if negb (access_code r =? 0) then final (access_code r) (set_access_code 0 r) else k (set_phase (S i) r)
  | h :: hs =>
    if negb (is_main r) then k (set_phase (S (S i + length hs)) r)
    else
      let '(rc, r') := call h r in
      emit [Called Access (loc_conf r) h rc]
        (if rc =? NGX_DECLINED then run_access (S i) hs (set_phase (S i) r') k
         else if (rc =? NGX_AGAIN) || (rc =? NGX_DONE) then stop r'
         else if cl_satisfy_all (conf (loc_conf r')) then
           if rc =? NGX_OK then run_access (S i) hs (set_phase (S i) r') k else final rc r'
         else if rc =? NGX_OK then
           let r' := set_access_code 0 r' in
           let r' := match www_authenticate r' with Some _ => set_www_authenticate (Some 0) r' | None => r' end in
           k (set_phase (S (S i + length hs)) r')
         else if (rc =? NGX_HTTP_FORBIDDEN) || (rc =? NGX_HTTP_UNAUTHORIZED) then
           run_access (S i) hs (set_phase (S i) (set_access_code rc r')) k
         else final rc r')
  end.

Fixpoint run_content (i : nat) (hs : list H) (r : req) : res :=
  match hs with
  | [] => stop r
  | h :: hs =>
    match content_handler r with
    | Some h => let '(rc, r') := call h r in ([Called Content (loc_conf r) h rc; Finalized rc], r')
    | None =>
      let '(rc, r') := call h r in
      emit [Called Content (loc_conf r) h rc]
        (if negb (rc =? NGX_DECLINED) then final rc r'
         else match hs with
              | [] => final (if default (byte_before r') (last (uri r')) =? "/"%c
                             then NGX_HTTP_FORBIDDEN else NGX_HTTP_NOT_FOUND) r'
              | _ => run_content (S i) hs (set_phase (S i) r')
              end)
    end
  end.

(** A checker without a handler. *)
Definition then_go (c : checked) (k : req -> res) : res :=
  let '(evs, again, r) := c in emit evs (if again then k r else stop r).

(** ** The entries *)

Definition stage_size (s : stage) : nat :=
  match s with
  | SGeneric hs | SRewrite hs | SContent hs => length hs
  | SAccess hs => S (length hs)
  | _ => 1
  end.

Definition trim (i : nat) (s : stage) : stage :=
  match s with
  | SGeneric hs => SGeneric (drop i hs)
  | SRewrite hs => SRewrite (drop i hs)
  | SContent hs => SContent (drop i hs)
  | SAccess hs => SAccess (drop i hs)
  | _ => s
  end.

(** The stages from an entry on. *)
Fixpoint stages_at (i : nat) (stages : list stage) : list stage :=
  match stages with
  | [] => []
  | s :: stages => if (i <? stage_size s)%nat then trim i s :: stages else stages_at (i - stage_size s) stages
  end.

Section Stage.
Context (phases : list (list H)) (try_files : bool).

Definition server_rewrite_at : nat := length (calls phases 0).
Definition find_at : nat := (server_rewrite_at + length (calls phases 1))%nat.
Definition location_rewrite_at : nat := S find_at.

Section Pass.
(** The run from the entry of the request, with fewer changes of the URI. *)
Context (rec : req -> res).

Definition find_config (r : req) : checked :=
  match ngx_http_core_find_config_phase conf find_location io_sendfile r with
  | Ret c => c
  | _ => go_on r
  end.

(** Another location after a rewrite. *)
Definition run_post_rewrite (i : nat) (r : req) (k : req -> res) : res :=
  if negb (uri_changed r) then k (set_phase (S i) r)
  else
    let r := set_uri_changes (uri_changes r - 1) r in
    if uri_changes r =? 0 then final NGX_HTTP_INTERNAL_SERVER_ERROR r
    else rec (set_loc_conf srv_loc_conf (set_phase find_at r)).

(** The files, with the runs that the last entry may start. *)
Definition try_files_phase (r : req) : checked :=
  match ngx_http_core_try_files_phase conf srv_loc_conf io_sendfile clear_ctx named_locations document_root
          disable_symlinks open_file (MkEngine [] server_rewrite_at location_rewrite_at)
          (fun r => Ret (rec r)) r with
  | Ret c => c
  | _ => go_on r
  end.

Fixpoint run_stages (i : nat) (stages : list stage) (r : req) : res :=
  match stages with
  | [] => stop r
  | s :: stages =>
    match s with
    | SGeneric hs => run_generic i hs r (run_stages (i + length hs) stages)
    | SRewrite hs => run_rewrite i hs r (run_stages (i + length hs) stages)
    | SFind => then_go (find_config r) (run_stages (S i) stages)
    | SPostRewrite => run_post_rewrite i r (run_stages (S i) stages)
    | SAccess hs => run_access i hs r (run_stages (S (i + length hs)) stages)
    | STry => then_go (try_files_phase r) (run_stages (S i) stages)
    | SContent hs => run_content i hs r
    end
  end.

End Pass.

(** The run of a request from its entry, with [k] changes of the URI. *)
Fixpoint run_request (k : nat) (r : req) : res :=
  match k with
  | O => stop r
  | S k => run_stages (run_request k) (phase_handler r) (stages_at (phase_handler r) (all_stages phases try_files)) r
  end.

(** * The table *)

(** The entries of a stage at [i]; the [next] of a content handler is not used. *)
Definition entries_of (slack i : nat) (s : stage) : list (ngx_http_phase_handler_t H) :=
  match s with
  | SGeneric hs => map (fun h => MkPh Generic (Some h) (i + length hs)) hs
  | SRewrite hs => map (fun h => MkPh Rewrite (Some h) (i + length hs)) hs
  | SFind => [MkPh FindConfig None 0]
  | SPostRewrite => [MkPh PostRewrite None find_at]
  | SAccess hs => map (fun h => MkPh Access (Some h) (S (i + length hs))) hs ++ [MkPh PostAccess None (S (i + length hs))]
  | STry => [MkPh TryFiles None 0]
  | SContent hs => map (fun h => MkPh Content (Some h) (i + length hs + slack)) hs
  end.

Fixpoint flatten (slack i : nat) (stages : list stage) : list (ngx_http_phase_handler_t H) :=
  match stages with
  | [] => []
  | s :: stages => entries_of slack i s ++ flatten slack (i + stage_size s) stages
  end.

Definition slack : nat := if nonempty (calls phases 6) then 0 else 1.

Lemma entries_size sl i s : length (entries_of sl i s) = stage_size s.
Proof. destruct s; cbn; rewrite ?length_app, ?length_map; cbn; lia. Qed.

Lemma init_table : length phases = 10%nat ->
  ngx_http_init_phase_handlers phases try_files =
  Ret (MkEngine (flatten slack 0 (all_stages phases try_files)) server_rewrite_at location_rewrite_at).
Proof.
  intros Hlen. pose proof (ten_elements phases Hlen) as E.
  destruct E as (p0 & p1 & p2 & p3 & p4 & p5 & p6 & p7 & p8 & p9 & E).
  unfold ngx_http_init_phase_handlers.
  unfold all_stages, from_server_rewrite, from_find, from_location_rewrite, after_rewrite, after_access,
    slack, server_rewrite_at, location_rewrite_at, find_at, calls, nonempty. rewrite E. cbn [nth].
  rewrite !length_rev.
  destruct (Nat.eqb_spec (length p3) 0) as [E3|E3], (Nat.eqb_spec (length p6) 0) as [E6|E6], try_files;
    cbv beta iota zeta delta [negb init_phases init_phase add_handlers is_ph is_n is_find_config is_server_rewrite
      is_location_rewrite set_index flag fold_left default from_option id].
  all: try (apply nil_length_inv in E3; subst p3). all: try (apply nil_length_inv in E6; subst p6).
  all: rewrite (proj2 (Nat.leb_le _ _)) by (cbn; rewrite ?length_app, ?length_map, ?length_rev; cbn; lia).
  all: cbn [List.rev map app flatten entries_of stage_size]; unfold find_at, server_rewrite_at, calls; rewrite ?E; cbn [nth];
    rewrite ?length_rev; cbn [length].
  all: f_equal; f_equal; [|lia..].
  all: rewrite ?app_nil_r, <- ?app_assoc; cbn [app]; rewrite ?app_nil_r.
  all: repeat first [lia|reflexivity|apply (f_equal2 app)|apply (f_equal2 cons)|apply map_ext; intros ?|apply (f_equal3 MkPh)].
Qed.

(** The entries from an index on are those of the stages from it on. *)
Lemma entries_trim sl o i s : (i < stage_size s)%nat ->
  entries_of sl (o + i) (trim i s) = drop i (entries_of sl o s) /\ (o + i + stage_size (trim i s) = o + stage_size s)%nat.
Proof.
  intros Hi. destruct s as [hs|hs| | |hs| |hs]; cbn [trim entries_of stage_size] in *; rewrite ?length_drop;
    try (replace i with 0%nat by lia; split; [done|lia]).
  1, 2, 4: rewrite <- fmap_drop; split; [apply map_ext; intros; f_equal|]; lia.
  rewrite drop_app_le by (rewrite length_map; lia). rewrite <- fmap_drop.
  split; [|lia]. replace (o + i + (length hs - i))%nat with (o + length hs)%nat by lia. done.
Qed.

Lemma flatten_at sl stages : forall o i, (i <= length (flatten sl o stages))%nat ->
  drop i (flatten sl o stages) = flatten sl (o + i) (stages_at i stages).
Proof.
  induction stages as [|s stages IH]; intros o i Hi; cbn [flatten stages_at] in *; [by rewrite drop_nil|].
  rewrite length_app, entries_size in Hi. destruct (Nat.ltb_spec i (stage_size s)) as [Hlt|Hge].
  - rewrite drop_app_le by (rewrite entries_size; lia). cbn [flatten].
    destruct (entries_trim sl o i s Hlt) as [-> ->]. done.
  - rewrite drop_app_ge by (rewrite entries_size; lia). rewrite entries_size, IH by lia.
    f_equal. lia.
Qed.

(** * The engine *)

(** The search of a location ends from the locations in [searchable], among
    them that of the server.  A handler that does not suspend the request
    leaves its place in the table and the count of its changes alone, and its
    location searchable.  limit_except is not set for a server, and try_files
    has names. *)
Context (searchable : L -> Prop).
Context (call_keeps : forall h r rc r', call h r = (rc, r') -> rc <> NGX_AGAIN -> rc <> NGX_DONE ->
  phase_handler r' = phase_handler r /\ uri_changes r' = uri_changes r /\
  (searchable (loc_conf r) -> searchable (loc_conf r'))).
Context (find_total : forall v l, searchable l -> exists rc l', find_location v l = Ret (rc, l')).
Context (srv_searchable : searchable srv_loc_conf) (srv_limit_except : cl_limit_except (conf srv_loc_conf) = 0).
Context (try_names : forall l tfs code, cl_try_files (conf l) = Some (tfs, code) -> tfs <> []).

Context (table : list (ngx_http_phase_handler_t H)).
Definition engine : ngx_http_phase_engine_t H := MkEngine table server_rewrite_at location_rewrite_at.
Abbreviation N := (length table).
Context (find_only : forall i rest, drop i table = MkPh FindConfig None 0 :: rest -> i = find_at).

(** Before the search of the location. *)
Definition placed (r : req) : Prop := (phase_handler r <= find_at)%nat -> searchable (loc_conf r).

Abbreviation run := (ngx_http_core_run_phases call conf srv_loc_conf find_location io_sendfile clear_ctx
  named_locations document_root disable_symlinks open_file byte_before engine).
Abbreviation check_ := (check call conf srv_loc_conf find_location io_sendfile clear_ctx
  named_locations document_root disable_symlinks open_file byte_before engine).

Lemma run_end fuel r : phase_handler r = N -> run (S fuel) r = Ret (stop r).
Proof. intros Hp. cbn. by rewrite Hp, Nat.eqb_refl. Qed.

Lemma run_entry fuel r ph rest : drop (phase_handler r) table = ph :: rest ->
  run (S fuel) r =
  (let! (evs, again, r') := check_ (run fuel) ph (length rest =? 0)%nat r in
   if again then let! (evs', r') := run fuel r' in Ret (evs ++ evs', r') else Ret (evs, r')).
Proof.
  intros Hd. assert (Hlt : (phase_handler r < N)%nat).
  { destruct (Nat.lt_ge_cases (phase_handler r) N); [done|]. by rewrite drop_ge in Hd by lia. }
  assert (Hl : table !! phase_handler r = Some ph).
  { rewrite <- (Nat.add_0_r (phase_handler r)), <- lookup_drop, Hd. done. }
  assert (Hr : length rest = (N - S (phase_handler r))%nat).
  { apply (f_equal length) in Hd. rewrite length_drop in Hd. cbn in Hd. lia. }
  cbn [ngx_http_core_run_phases]. change (handlers engine) with table. rewrite (proj2 (Nat.eqb_neq _ _)) by lia. rewrite Hl, Hr.
  replace (S (phase_handler r) =? N)%nat with (N - S (phase_handler r) =? 0)%nat; [done|].
  apply eq_true_iff_eq. rewrite !Nat.eqb_eq. lia.
Qed.

Lemma run_go fuel r ph rest evs r' x : drop (phase_handler r) table = ph :: rest ->
  check_ (run fuel) ph (length rest =? 0)%nat r = Ret (evs, true, r') -> run fuel r' = Ret x ->
  run (S fuel) r = Ret (emit evs x).
Proof. intros Hd Hc Hr. rewrite (run_entry _ _ _ _ Hd), Hc. cbn [outcome_bind]. rewrite Hr. by destruct x. Qed.

Lemma run_stop fuel r ph rest evs r' : drop (phase_handler r) table = ph :: rest ->
  check_ (run fuel) ph (length rest =? 0)%nat r = Ret (evs, false, r') -> run (S fuel) r = Ret (emit evs (stop r')).
Proof. intros Hd Hc. rewrite (run_entry _ _ _ _ Hd), Hc. cbn [outcome_bind]. unfold emit, stop. cbn. by rewrite app_nil_r. Qed.

(** A later place with a location that stays searchable. *)
Lemma placed_next r r' : placed r -> (phase_handler r <= phase_handler r')%nat ->
  (searchable (loc_conf r) -> searchable (loc_conf r')) -> placed r'.
Proof. intros Hg Hp Hl Hf. apply Hl, Hg. lia. Qed.

Ltac place Hg Eg := apply (placed_next _ _ Hg); [cbn; lia|exact Eg].

Section Level.
(** The fuel of the runs after a change of the URI, and the changes left. *)
Context (B : nat) (u : Z).

(** From the entry [i] on, a run does what [kf] says. *)
Definition runs_as (i : nat) (kf : req -> res) : Prop :=
  forall r fuel, phase_handler r = i -> uri_changes r = u -> placed r -> (B + (N - i) < fuel)%nat -> run fuel r = Ret (kf r).

Lemma drop_entry {A} i (l : list A) x rest : drop i l = x :: rest -> drop (S i) l = rest /\ (i < length l)%nat.
Proof.
  intros Hd. split; [by rewrite <- Nat.add_1_r, <- drop_drop, Hd|].
  destruct (Nat.lt_ge_cases i (length l)); [done|]. by rewrite drop_ge in Hd by lia.
Qed.

(** An entry with a handler. *)
Lemma run_call fuel r c ph rest h rc r' kc evs again r2 x y :
  drop (phase_handler r) table = ph :: rest -> ph_checker ph = c -> ph_handler ph = Some h -> call h r = (rc, r') ->
  check_ (run fuel) ph (length rest =? 0)%nat r = with_handler call ph r kc ->
  kc rc r' = (evs, again, r2) -> (if again then run fuel r2 = Ret x else x = stop r2) -> y = emit evs x ->
  run (S fuel) r = Ret (emit [Called c (loc_conf r) h rc] y).
Proof.
  intros Hd <- Hh Hc Hk Ek Hx ->. unfold with_handler in Hk. rewrite Hh, Hc, Ek in Hk. destruct again.
  - rewrite (run_go _ _ _ _ _ _ _ Hd Hk Hx). done.
  - subst x. rewrite (run_stop _ _ _ _ _ _ Hd Hk). done.
Qed.

Lemma emit_nil x : emit [] x = x.
Proof. by destruct x. Qed.

Lemma suspended rc : (rc =? NGX_AGAIN) || (rc =? NGX_DONE) = false -> rc <> NGX_AGAIN /\ rc <> NGX_DONE.
Proof. intros E. apply orb_false_iff in E as [?%Z.eqb_neq ?%Z.eqb_neq]. done. Qed.

(** Evaluates what a checker does with a code that is known or was compared. *)
Ltac by_code := cbn beta;
  repeat match goal with
    | Hn : ?a <> ?b |- context [?a =? ?b] => rewrite (proj2 (Z.eqb_neq a b) Hn)
    | E : ?t = ?b |- context [?t] => match type of t with bool => rewrite E end
    end; reflexivity.

(** The entry [Hd] whose handler gives [Ec], and which ends the run. *)
Ltac call_stops Hd Ec Hc :=
  eapply run_call; [exact Hd|reflexivity|reflexivity|exact Ec|apply Hc|by_code|reflexivity|done].

(** The same for an entry after which the run goes on. *)
Ltac call_goes Hd Ec Hc :=
  eapply run_call; [exact Hd|reflexivity|reflexivity|exact Ec|apply Hc|by_code| |by rewrite emit_nil].

Lemma generic_ok hs : forall i rest kf,
  drop i table = map (fun h => MkPh Generic (Some h) (i + length hs)) hs ++ rest ->
  runs_as (i + length hs) kf -> runs_as i (fun r => run_generic i hs r kf).
Proof.
  induction hs as [|h hs IH]; intros i rest kf Hd Hk r fuel Hp Hu Hg Hf.
  { cbn in *. rewrite Nat.add_0_r in Hk. by apply Hk. }
  cbn [map app length] in *. destruct (drop_entry _ _ _ _ Hd) as [Hd' Hi]. destruct fuel as [|fuel]; [lia|].
  cbn [run_generic]. destruct (call h r) as [rc r'] eqn:Ec. pose proof (call_keeps h r rc r' Ec) as Hkeep.
  subst i. replace (phase_handler r + S (length hs))%nat with (S (phase_handler r) + length hs)%nat in * by lia.
  destruct (Z.eqb_spec rc NGX_OK) as [->|H1]; [|destruct (Z.eqb_spec rc NGX_DECLINED) as [->|H2];
    [|destruct (_ || _) eqn:E3]].
  - destruct (Hkeep ltac:(done) ltac:(done)) as (Ep & Eu & Eg). call_goes Hd Ec @eq_refl.
    cbn [Phases.ph_next]. apply Hk; [done|cbn; congruence|place Hg Eg|lia].
  - destruct (Hkeep ltac:(done) ltac:(done)) as (Ep & Eu & Eg). call_goes Hd Ec @eq_refl.
    unfold next_phase. rewrite Ep. apply IH with rest; [done|done|done|cbn; congruence|place Hg Eg|lia].
  - call_stops Hd Ec @eq_refl.
  - call_stops Hd Ec @eq_refl.
Qed.

Lemma rewrite_ok hs : forall i rest kf n,
  drop i table = map (fun h => MkPh Rewrite (Some h) n) hs ++ rest ->
  runs_as (i + length hs) kf -> runs_as i (fun r => run_rewrite i hs r kf).
Proof.
  induction hs as [|h hs IH]; intros i rest kf n Hd Hk r fuel Hp Hu Hg Hf.
  { cbn in *. rewrite Nat.add_0_r in Hk. by apply Hk. }
  cbn [map app length] in *. destruct (drop_entry _ _ _ _ Hd) as [Hd' Hi]. destruct fuel as [|fuel]; [lia|].
  cbn [run_rewrite]. destruct (call h r) as [rc r'] eqn:Ec. pose proof (call_keeps h r rc r' Ec) as Hkeep.
  subst i. replace (phase_handler r + S (length hs))%nat with (S (phase_handler r) + length hs)%nat in * by lia.
  destruct (Z.eqb_spec rc NGX_DECLINED) as [->|H1]; [|destruct (Z.eqb_spec rc NGX_DONE) as [->|H2]].
  - destruct (Hkeep ltac:(done) ltac:(done)) as (Ep & Eu & Eg). call_goes Hd Ec @eq_refl.
    unfold next_phase. rewrite Ep. eapply IH; [done|done|done|cbn; congruence|place Hg Eg|lia].
  - call_stops Hd Ec @eq_refl.
  - call_stops Hd Ec @eq_refl.
Qed.

Lemma access_ok hs : forall i rest kf,
  drop i table = map (fun h => MkPh Access (Some h) (S (i + length hs))) hs ++ MkPh PostAccess None (S (i + length hs)) :: rest ->
  runs_as (S (i + length hs)) kf -> runs_as i (fun r => run_access i hs r kf).
Proof.
  induction hs as [|h hs IH]; intros i rest kf Hd Hk r fuel Hp Hu Hg Hf.
  { cbn [map app length run_access] in *. rewrite Nat.add_0_r in *. destruct (drop_entry _ _ _ _ Hd) as [Hd' Hi].
    destruct fuel as [|fuel]; [lia|]. subst i.
    assert (Hc : forall b, check_ (run fuel) (MkPh PostAccess None (S (phase_handler r))) b r =
                           Ret (ngx_http_core_post_access_phase r)) by done.
    unfold ngx_http_core_post_access_phase in Hc. destruct (negb (access_code r =? 0)).
    - by rewrite (run_stop _ _ _ _ _ _ Hd (Hc _)).
    - erewrite (run_go _ _ _ _ _ _ _ Hd (Hc _)); [by rewrite emit_nil|]. unfold next_phase. apply Hk; [done|done|place Hg (fun x : searchable (loc_conf r) => x)|lia]. }
  cbn [map app length] in *. destruct (drop_entry _ _ _ _ Hd) as [Hd' Hi]. destruct fuel as [|fuel]; [lia|].
  cbn [run_access]. subst i.
  replace (phase_handler r + S (length hs))%nat with (S (phase_handler r) + length hs)%nat in * by lia.
  assert (IH' := IH _ rest kf Hd' Hk). clear IH.
  destruct (negb (is_main r)) eqn:Em.
  { erewrite (run_go _ _ _ _ [] _ _ Hd); [by rewrite emit_nil| |].
    - cbn. unfold ngx_http_core_access_phase. rewrite Em. reflexivity.
    - apply Hk; [done|done|place Hg (fun x : searchable (loc_conf r) => x)|lia]. }
  assert (Hcheck : forall b, check_ (run fuel) (MkPh Access (Some h) (S (S (phase_handler r) + length hs))) b r =
    with_handler call (MkPh Access (Some h) (S (S (phase_handler r) + length hs))) r (fun rc r' =>
      if rc =? NGX_DECLINED then go_on (next_phase r')
      else if (rc =? NGX_AGAIN) || (rc =? NGX_DONE) then ([], false, r')
      else if cl_satisfy_all (conf (loc_conf r')) then
        if rc =? NGX_OK then go_on (next_phase r') else finalize rc r'
      else
        if rc =? NGX_OK then
          let r' := set_access_code 0 r' in
          let r' := match www_authenticate r' with Some _ => set_www_authenticate (Some 0) r' | None => r' end in
          go_on (set_phase (S (S (phase_handler r) + length hs)) r')
        else if (rc =? NGX_HTTP_FORBIDDEN) || (rc =? NGX_HTTP_UNAUTHORIZED) then
          go_on (next_phase (set_access_code rc r'))
        else finalize rc r')).
  { intros b. cbn [check ph_checker]. unfold ngx_http_core_access_phase. rewrite Em. reflexivity. }
  destruct (call h r) as [rc r'] eqn:Ec. pose proof (call_keeps h r rc r' Ec) as Hkeep.
  destruct (Z.eqb_spec rc NGX_DECLINED) as [->|H1]; [|destruct ((rc =? NGX_AGAIN) || (rc =? NGX_DONE)) eqn:E2].
  { destruct (Hkeep ltac:(done) ltac:(done)) as (Ep & Eu & Eg). call_goes Hd Ec Hcheck.
    unfold next_phase. rewrite Ep. apply IH'; [done|cbn; congruence|place Hg Eg|lia]. }
  { call_stops Hd Ec Hcheck. }
  destruct (suspended _ E2) as [Ha Hd2]. destruct (Hkeep Ha Hd2) as (Ep & Eu & Eg). clear Hkeep Ha Hd2.
  destruct (cl_satisfy_all (conf (loc_conf r'))) eqn:Es; (destruct (Z.eqb_spec rc NGX_OK) as [->|H3]).
  - call_goes Hd Ec Hcheck. unfold next_phase. rewrite Ep. apply IH'; [done|cbn; congruence|place Hg Eg|lia].
  - call_stops Hd Ec Hcheck.
  - call_goes Hd Ec Hcheck. apply Hk; [done|cbn; destruct (www_authenticate r'); cbn; congruence|cbn; destruct (www_authenticate r'); place Hg Eg|lia].
  - destruct ((rc =? NGX_HTTP_FORBIDDEN) || (rc =? NGX_HTTP_UNAUTHORIZED)) eqn:E4.
    + call_goes Hd Ec Hcheck. unfold next_phase. cbn [set_access_code phase_handler]. rewrite Ep.
      apply IH'; [done|cbn; congruence|place Hg Eg|lia].
    + call_stops Hd Ec Hcheck.
Qed.

Lemma content_ok hs : forall i n,
  drop i table = map (fun h => MkPh Content (Some h) n) hs -> (i <= N)%nat -> runs_as i (run_content i hs).
Proof.
  induction hs as [|h hs IH]; intros i n Hd HiN r fuel Hp Hu Hg Hf.
  { cbn in *. apply (f_equal length) in Hd. rewrite length_drop in Hd. cbn in Hd. destruct fuel; [lia|].
    apply run_end. lia. }
  cbn [map] in *. destruct (drop_entry _ _ _ _ Hd) as [Hd' Hi]. destruct fuel as [|fuel]; [lia|]. cbn [run_content]. subst i.
  assert (Hl : (length (map (fun h => MkPh Content (Some h) n) hs) =? 0)%nat = bool_decide (hs = [])).
  { rewrite length_map. by destruct hs. }
  destruct (content_handler r) as [h'|] eqn:Eh.
  { destruct (call h' r) as [rc r'] eqn:Ec. etrans; [apply (run_stop fuel r _ _ [Called Content (loc_conf r) h' rc; Finalized rc] r' Hd)|reflexivity].
    cbn [check ph_checker]. unfold ngx_http_core_content_phase. rewrite Eh, Ec. reflexivity. }
  assert (Hcheck : forall b, check_ (run fuel) (MkPh Content (Some h) n) b r =
    with_handler call (MkPh Content (Some h) n) r (fun rc r =>
      if negb (rc =? NGX_DECLINED) then finalize rc r
      else if negb b then go_on (next_phase r)
      else if default (byte_before r) (last (uri r)) =? "/"%c then finalize NGX_HTTP_FORBIDDEN r
      else finalize NGX_HTTP_NOT_FOUND r)).
  { intros b. cbn [check ph_checker]. unfold ngx_http_core_content_phase. by rewrite Eh. }
  destruct (call h r) as [rc r'] eqn:Ec. pose proof (call_keeps h r rc r' Ec) as Hkeep.
  destruct (Z.eqb_spec rc NGX_DECLINED) as [->|H1]; cbn [negb].
  - destruct (Hkeep ltac:(done) ltac:(done)) as (Ep & Eu & Eg). destruct hs as [|h2 hs].
    + cbn [map length Nat.eqb] in *. destruct (default (byte_before r') (last (uri r')) =? "/"%c) eqn:E2; call_stops Hd Ec (Hcheck true).
    + call_goes Hd Ec (Hcheck false). unfold next_phase. rewrite Ep. eapply IH; [done|lia|done|cbn; congruence|place Hg Eg|lia].
  - call_stops Hd Ec Hcheck.
Qed.

(** A checker without a handler whose result is known. *)
Lemma checker_ok i ph rest (c : req -> checked) kf : drop i table = ph :: rest ->
  (forall r fuel, phase_handler r = i -> uri_changes r = u -> placed r -> (B + (N - i) <= fuel)%nat ->
     check_ (run fuel) ph (length rest =? 0)%nat r = Ret (c r) /\
     forall evs r', c r = (evs, true, r') -> phase_handler r' = S i /\ uri_changes r' = u /\ placed r') ->
  runs_as (S i) kf -> runs_as i (fun r => then_go (c r) kf).
Proof.
  intros Hd Hc Hk r fuel Hp Hu Hg Hf. destruct (drop_entry _ _ _ _ Hd) as [_ Hi]. destruct fuel as [|fuel]; [lia|].
  destruct (Hc r fuel Hp Hu Hg ltac:(lia)) as [Ec Hgo]. rewrite <- Hp in Hd. unfold then_go.
  destruct (c r) as [[evs again] r']. destruct again.
  - destruct (Hgo evs r' eq_refl) as (Hp' & Hu' & Hg'). eapply run_go; [exact Hd|exact Ec|]. apply Hk; [done|done|done|lia].
  - by rewrite (run_stop _ _ _ _ _ _ Hd Ec).
Qed.

Lemma update_keeps r : let r' := ngx_http_update_location_config conf io_sendfile r in
  phase_handler r' = phase_handler r /\ uri_changes r' = uri_changes r /\ internal r' = internal r.
Proof.
  cbn zeta. unfold ngx_http_update_location_config.
  repeat match goal with |- context [if ?b then _ else _] => destruct b end;
    match goal with |- context [cl_handler ?c] => destruct (cl_handler c) end; done.
Qed.

Lemma update_loc r : cl_limit_except (conf (loc_conf r)) = 0 ->
  loc_conf (ngx_http_update_location_config conf io_sendfile r) = loc_conf r.
Proof.
  intros Hl. unfold ngx_http_update_location_config, clcf_of. rewrite Hl, Z.land_0_r. cbn [Z.eqb negb].
  repeat match goal with |- context [if ?b then _ else _] => destruct b end;
    match goal with |- context [cl_handler ?c] => destruct (cl_handler c) end; done.
Qed.

Lemma find_ok i rest kf : drop i table = MkPh FindConfig None 0 :: rest -> runs_as (S i) kf ->
  runs_as i (fun r => then_go (find_config r) kf).
Proof.
  intros Hd Hk. eapply checker_ok; [exact Hd| |exact Hk]. intros r fuel Hp Hu Hg _. cbn [check ph_checker].
  pose proof (find_only _ _ Hd) as Hfind. unfold find_config, ngx_http_core_find_config_phase. set (r1 := set_uri_changed _ _).
  destruct (find_total (uri r1) (loc_conf r1)) as (rc & l & ->); [apply Hg; lia|]. cbn [outcome_bind].
  set (r2 := set_loc_conf l r1). destruct (rc =? NGX_ERROR); [done|]. destruct (negb (internal r2) && _); [done|].
  pose proof (update_keeps r2) as (H1 & H2 & _). set (r3 := ngx_http_update_location_config _ _ r2) in *.
  destruct (_ && _ && _ && _); [done|]. destruct (rc =? NGX_DONE); [done|]. split; [done|].
  intros evs r' [= <- <-]. cbn. rewrite H1, H2. cbn. split_and!; [by rewrite <- Hp|done|].
  intros Hle. cbn in Hle. rewrite H1 in Hle. cbn in Hle. lia.
Qed.

(** ** After a change of the URI *)

Context (rec : req -> res) (u_range : 1 <= u <= 15).
Context (rec_ok : forall r fuel, (phase_handler r <= N)%nat -> uri_changes r = u - 1 -> u <> 1 -> placed r ->
  (B <= fuel)%nat -> run fuel r = Ret (rec r)).
Context (find_bound : (find_at < N)%nat).

Lemma post_rewrite_ok i rest kf : drop i table = MkPh PostRewrite None find_at :: rest -> runs_as (S i) kf ->
  runs_as i (fun r => run_post_rewrite rec i r kf).
Proof.
  intros Hd Hk r fuel Hp Hu Hg Hf. destruct (drop_entry _ _ _ _ Hd) as [_ Hi]. destruct fuel as [|fuel]; [lia|].
  rewrite <- Hp in Hd. unfold run_post_rewrite.
  assert (Hc : forall b, check_ (run fuel) (MkPh PostRewrite None find_at) b r =
    Ret (ngx_http_core_post_rewrite_phase srv_loc_conf (MkPh PostRewrite None find_at) r)) by done.
  unfold ngx_http_core_post_rewrite_phase in Hc. rewrite (wrapU_small 4) in Hc by lia. cbn [ph_next] in Hc.
  destruct (negb (uri_changed r)).
  - erewrite (run_go _ _ _ _ _ _ _ Hd (Hc _)); [by rewrite emit_nil|]. unfold next_phase. rewrite Hp. apply Hk; [done|done|place Hg (fun x : searchable (loc_conf r) => x)|lia].
  - cbn zeta in *. destruct (_ =? 0) eqn:E.
    + by rewrite (run_stop _ _ _ _ _ _ Hd (Hc _)).
    + erewrite (run_go _ _ _ _ _ _ _ Hd (Hc _)); [by rewrite emit_nil|]. cbn in E. apply Z.eqb_neq in E.
      apply rec_ok; [cbn; lia|cbn; lia|lia|by intros _|lia].
Qed.

(** The runs that the last entry of try_files starts. *)
Definition redirected (run' : req -> outcome (list (event H L) * req)) : Prop :=
  forall r, (phase_handler r <= N)%nat -> uri_changes r = u - 1 -> u <> 1 -> placed r -> run' r = Ret (rec r).

Lemma internal_redirect_ok eng run' v a r : redirected run' -> (server_rewrite_index eng <= N)%nat -> uri_changes r = u ->
  ngx_http_internal_redirect conf srv_loc_conf io_sendfile clear_ctx eng run' v a r =
  ngx_http_internal_redirect conf srv_loc_conf io_sendfile clear_ctx
    (MkEngine [] (server_rewrite_index eng) (location_rewrite_index eng)) (fun r => Ret (rec r)) v a r.
Proof.
  intros Hrun Hidx Hu. unfold ngx_http_internal_redirect. rewrite (wrapU_small 4) by lia. cbn zeta.
  destruct (_ =? 0) eqn:E; [done|]. cbn in E. apply Z.eqb_neq in E. unfold ngx_http_handler.
  match goal with |- context [ngx_http_update_location_config conf io_sendfile ?r] => pose proof (update_keeps r) as (H1 & H2 & _);
    pose proof (update_loc r srv_limit_except) as H3;
    set (r1 := ngx_http_update_location_config conf io_sendfile r) in * end.
  cbn [internal set_count set_add_uri_to_alias set_valid_unparsed_uri set_internal negb server_rewrite_index].
  apply Hrun; [done| |lia|].
  - cbn. rewrite H2. cbn. by rewrite Hu.
  - intros _. cbn. by rewrite H3.
Qed.

Lemma named_location_ok eng run' v r : redirected run' -> (find_at < location_rewrite_index eng <= N)%nat -> uri_changes r = u ->
  ngx_http_named_location conf io_sendfile clear_ctx named_locations eng run' v r =
  ngx_http_named_location conf io_sendfile clear_ctx named_locations
    (MkEngine [] (server_rewrite_index eng) (location_rewrite_index eng)) (fun r => Ret (rec r)) v r.
Proof.
  intros Hrun Hidx Hu. unfold ngx_http_named_location. rewrite (wrapU_small 4) by (cbn; lia). cbn zeta.
  destruct (_ =? 0) eqn:E; [done|]. cbn in E. apply Z.eqb_neq in E. destruct (find_named _ _ _); [|done].
  match goal with |- context [ngx_http_update_location_config conf io_sendfile ?r] => pose proof (update_keeps r) as (H1 & H2 & _);
    set (r1 := ngx_http_update_location_config conf io_sendfile r) in * end.
  apply Hrun; [cbn; lia| |lia|].
  - cbn. rewrite H2. cbn. by rewrite Hu.
  - intros Hle. cbn in Hle. lia.
Qed.

Lemma redirect_returns eng v a r : exists x,
  ngx_http_internal_redirect conf srv_loc_conf io_sendfile clear_ctx eng (fun r => Ret (rec r)) v a r = Ret x.
Proof. unfold ngx_http_internal_redirect. cbn zeta. destruct (_ =? 0); eauto. Qed.

Lemma named_returns eng v r : exists x,
  ngx_http_named_location conf io_sendfile clear_ctx named_locations eng (fun r => Ret (rec r)) v r = Ret x.
Proof. unfold ngx_http_named_location. cbn zeta. destruct (_ =? 0); eauto. destruct (find_named _ _ _); eauto. Qed.

(** The result of try_files, whatever the runs it starts. *)
Lemma try_loop_ok eng run' c code tfs r : redirected run' ->
  (server_rewrite_index eng <= N)%nat -> (find_at < location_rewrite_index eng <= N)%nat -> uri_changes r = u -> tfs <> [] ->
  exists x, try_loop conf srv_loc_conf io_sendfile clear_ctx named_locations document_root disable_symlinks open_file
    (MkEngine [] (server_rewrite_index eng) (location_rewrite_index eng)) (fun r => Ret (rec r)) c code tfs r = Ret x /\
  try_loop conf srv_loc_conf io_sendfile clear_ctx named_locations document_root disable_symlinks open_file
    eng run' c code tfs r = Ret x /\
  forall evs r', x = (evs, true, r') -> phase_handler r' = S (phase_handler r) /\ uri_changes r' = uri_changes r /\
    loc_conf r' = loc_conf r.
Proof.
  intros Hrun Hs Hl Hu Hne. induction tfs as [|tf tfs IH]; [done|]. cbn [try_loop].
  destruct (document_root r) as [root|]; [|by eexists]. destruct tfs as [|tf2 tfs].
  - unfold try_last. destruct (negb (code =? 0)); [by eexists|].
    destruct (hd 0 _ =? "@"%c).
    + rewrite (named_location_ok eng run') by done. destruct (named_returns (MkEngine [] (server_rewrite_index eng)
        (location_rewrite_index eng)) (try_name c tf r) r) as ([evs r'] & ->). by eexists.
    + destruct (ngx_http_split_args _) as [v a]. rewrite (internal_redirect_ok eng run') by done.
      destruct (redirect_returns (MkEngine [] (server_rewrite_index eng) (location_rewrite_index eng)) v a r) as ([evs r'] & ->).
      by eexists.
  - specialize (IH ltac:(done)). destruct (negb (disable_symlinks _ _)); [by eexists|].
    destruct (open_file _) as [is_dir|]; [|exact IH]. destruct (is_dir && _); [exact IH|].
    eexists. split_and!; [reflexivity|reflexivity|]. intros evs r' [= <- <-].
    cbn. destruct (cl_alias c =? 0)%nat, (cl_regex c), (tf_test_dir tf); done.
Qed.

Lemma try_ok i rest kf : drop i table = MkPh TryFiles None 0 :: rest ->
  (location_rewrite_at <= N)%nat -> runs_as (S i) kf -> runs_as i (fun r => then_go (try_files_phase rec r) kf).
Proof.
  intros Hd Hidx Hk. eapply checker_ok; [exact Hd| |exact Hk]. intros r fuel Hp Hu Hg Hf. cbn [check ph_checker].
  unfold try_files_phase, ngx_http_core_try_files_phase.
  destruct (cl_try_files (clcf_of conf r)) as [[tfs code]|] eqn:E.
  - destruct (try_loop_ok engine (run fuel) (clcf_of conf r) code tfs r) as (x & Ex & -> & Hx).
    + intros r' H1 H2 H3 H4. apply rec_ok; [done|done|done|done|lia].
    + cbn. unfold location_rewrite_at, find_at in Hidx. lia.
    + cbn. unfold location_rewrite_at in *. lia.
    + done.
    + by eapply try_names.
    + cbn [server_rewrite_index location_rewrite_index engine] in Ex. rewrite Ex. split; [done|]. rewrite <- Hp, <- Hu.
      intros evs r' E'. destruct (Hx evs r' E') as (E1 & E2 & E3). split_and!; [done|done|].
      apply (placed_next _ _ Hg); [lia|by rewrite E3].
  - split; [done|]. intros evs r' [= <- <-]. split_and!; [cbn; by rewrite <- Hp|done|].
    apply (placed_next _ _ Hg); [cbn; lia|done].
Qed.

(** ** All the stages *)

Fixpoint content_last (stages : list stage) : Prop :=
  match stages with
  | [] => True
  | SContent _ :: stages => stages = []
  | _ :: stages => content_last stages
  end.

Lemma stages_ok sl stages : forall i, drop i table = flatten sl i stages -> (i <= N)%nat -> content_last stages ->
  (location_rewrite_at <= N)%nat -> runs_as i (run_stages rec i stages).
Proof.
  induction stages as [|s stages IH]; intros i Hd Hi Hc Hidx.
  { intros r fuel Hp _ _ Hf. cbn in Hd. apply (f_equal length) in Hd. rewrite length_drop in Hd. cbn in Hd.
    destruct fuel; [lia|]. apply run_end. lia. }
  cbn [flatten] in Hd. assert (Hrest : content_last stages -> runs_as (i + stage_size s) (run_stages rec (i + stage_size s) stages)).
  { intros Hc'. assert (Hsz : (i + stage_size s <= N)%nat).
    { apply (f_equal length) in Hd. rewrite length_drop, length_app, entries_size in Hd. lia. }
    apply IH; [|done|done|done]. rewrite <- drop_drop, Hd. apply drop_app_length'. by rewrite entries_size. }
  destruct s as [hs|hs| | |hs| |hs]; cbn [entries_of stage_size run_stages content_last] in *.
  - eapply generic_ok; [exact Hd|by apply Hrest].
  - eapply rewrite_ok; [exact Hd|by apply Hrest].
  - rewrite Nat.add_1_r in Hrest. eapply find_ok; [exact Hd|by apply Hrest].
  - rewrite Nat.add_1_r in Hrest. eapply post_rewrite_ok; [exact Hd|by apply Hrest].
  - rewrite Nat.add_succ_r in Hrest. rewrite <- app_assoc in Hd. eapply access_ok; [exact Hd|by apply Hrest].
  - rewrite Nat.add_1_r in Hrest. eapply try_ok; [exact Hd|done|by apply Hrest].
  - subst stages. cbn [flatten] in Hd. rewrite app_nil_r in Hd. eapply content_ok; [exact Hd|done].
Qed.

End Level.

Lemma content_last_at stages : forall i, content_last stages -> content_last (stages_at i stages).
Proof.
  induction stages as [|s stages IH]; intros i Hc; [done|]. cbn [stages_at].
  destruct (i <? stage_size s)%nat; [destruct s; exact Hc|]. apply IH. destruct s; try exact Hc. cbn in Hc. by subst stages.
Qed.

Lemma all_content_last : content_last (all_stages phases try_files).
Proof.
  unfold all_stages, from_server_rewrite, from_find, from_location_rewrite, after_rewrite, after_access. cbn [app content_last].
  destruct (nonempty (calls phases 3)), (nonempty (calls phases 6)), try_files; done.
Qed.

Lemma find_at_bound sl : (location_rewrite_at <= length (flatten sl 0 (all_stages phases try_files)))%nat.
Proof.
  unfold all_stages, from_server_rewrite, from_find. cbn [flatten]. rewrite !length_app, !entries_size. cbn [stage_size].
  unfold location_rewrite_at, find_at, server_rewrite_at. lia.
Qed.

Lemma request_ok : table = flatten slack 0 (all_stages phases try_files) -> forall k r fuel,
  (1 <= k <= 15)%nat -> uri_changes r = Z.of_nat k -> (phase_handler r <= N)%nat -> placed r -> (k * S N <= fuel)%nat ->
  run fuel r = Ret (run_request k r).
Proof.
  intros Ht. pose proof (find_at_bound slack) as Hb. rewrite <- Ht in Hb.
  induction k as [|k IH]; intros r fuel Hk Hu Hp Hg Hf; [lia|]. cbn [run_request].
  apply (stages_ok (k * S N) (Z.of_nat (S k)) (run_request k)) with slack; try lia.
  - intros r' fuel' Hp' Hu' H1 Hg' Hf'. apply IH; [lia|lia|done|done|lia].
  - unfold location_rewrite_at in Hb. lia.
  - rewrite Ht. rewrite Ht in Hp. by rewrite flatten_at.
  - apply content_last_at, all_content_last.
  - done.
Qed.

End Stage.

(** The search of the location has one entry. *)
Lemma no_find phases sl stages : (forall s, s ∈ stages -> s <> SFind) ->
  forall i, Forall (fun ph => ph_checker ph <> FindConfig) (flatten phases sl i stages).
Proof.
  induction stages as [|s stages IH]; intros Hs i; cbn [flatten]; [constructor|]. apply Forall_app. split; [|apply IH; set_solver].
  assert (Hne := Hs s ltac:(set_solver)). destruct s; cbn [entries_of]; rewrite ?Forall_app, ?Forall_singleton; try done;
    try split; try done; by apply Forall_map, Forall_true.
Qed.

Lemma find_once phases try_files sl i rest :
  drop i (flatten phases sl 0 (all_stages phases try_files)) = MkPh FindConfig None 0 :: rest -> i = find_at phases.
Proof.
  unfold all_stages, from_server_rewrite, from_find. cbn [flatten]. intros Hd.
  set (a := entries_of phases sl 0 (SGeneric (calls phases 0))) in *.
  set (b := entries_of phases sl _ (SRewrite (calls phases 1))) in *. cbn [entries_of app] in Hd.
  assert (Hlen : (length a + length b)%nat = find_at phases) by (unfold a, b; by rewrite !entries_size).
  match type of Hd with drop _ (_ ++ _ ++ _ :: flatten _ _ ?n ?st) = _ =>
    assert (Hc : Forall (fun ph => ph_checker ph <> FindConfig) (flatten phases sl n st)) end.
  { apply no_find. unfold from_location_rewrite, after_rewrite, after_access.
    destruct (nonempty (calls phases 3)), (nonempty (calls phases 6)), try_files; cbn; intros s; set_solver. }
  assert (Ha : Forall (fun ph => ph_checker ph <> FindConfig) (a ++ b)).
  { apply Forall_app. split; apply Forall_map, Forall_true; done. }
  rewrite app_assoc in Hd. set (c := flatten _ _ _ _) in *.
  assert (Hi : (a ++ b ++ MkPh FindConfig None 0 :: c) !! i = Some (MkPh FindConfig None 0)).
  { rewrite <- (Nat.add_0_r i), <- lookup_drop, app_assoc, Hd. done. }
  rewrite app_assoc in Hi. destruct (Nat.lt_trichotomy i (length (a ++ b))) as [Hlt|[->|Hgt]].
  - rewrite lookup_app_l in Hi by done. rewrite Forall_lookup in Ha. by destruct (Ha _ _ Hi).
  - by rewrite length_app.
  - rewrite lookup_app_r in Hi by lia. destruct (i - length (a ++ b))%nat as [|j] eqn:Ej; [lia|].
    cbn in Hi. rewrite Forall_lookup in Hc. by destruct (Hc _ _ Hi).
Qed.

(** * The engine and the phases *)

(** What the engine relies on: the search of a location ends from the locations
    in [searchable], among them that of the server; a handler that does not
    suspend the request leaves its place in the table and the count of its
    changes alone, and its location searchable; limit_except is not set for a
    server, and try_files has names. *)
Class PhaseLaws (searchable : L -> Prop) : Prop := {
  law_call h r rc r' : call h r = (rc, r') -> rc <> NGX_AGAIN -> rc <> NGX_DONE ->
    phase_handler r' = phase_handler r /\ uri_changes r' = uri_changes r /\
    (searchable (loc_conf r) -> searchable (loc_conf r'));
  law_find v l : searchable l -> exists rc l', find_location v l = Ret (rc, l');
  law_server : searchable srv_loc_conf;
  law_limit_except : cl_limit_except (conf srv_loc_conf) = 0;
  law_try_files l tfs code : cl_try_files (conf l) = Some (tfs, code) -> tfs <> [] }.

Lemma engine_runs searchable `{!PhaseLaws searchable} phases try_files : length phases = 10%nat ->
  let eng := MkEngine (flatten phases (slack phases) 0 (all_stages phases try_files)) (server_rewrite_at phases)
               (location_rewrite_at phases) in
  ngx_http_init_phase_handlers phases try_files = Ret eng /\
  forall r fuel, 1 <= uri_changes r <= 15 -> (phase_handler r <= length (handlers eng))%nat ->
    ((phase_handler r <= find_at phases)%nat -> searchable (loc_conf r)) ->
    (Z.to_nat (uri_changes r) * S (length (handlers eng)) <= fuel)%nat ->
    ngx_http_core_run_phases call conf srv_loc_conf find_location io_sendfile clear_ctx named_locations
      document_root disable_symlinks open_file byte_before eng fuel r =
    Ret (run_request phases try_files (Z.to_nat (uri_changes r)) r).
Proof.
  intros Hlen eng. split; [by apply init_table|]. intros r fuel Hu Hp Hg Hf.
  apply (request_ok phases try_files searchable law_call law_find law_server law_limit_except law_try_files (handlers eng)
           (find_once phases try_files (slack phases))); [done|lia|lia|done|done|done].
Qed.

(** C5: the phases of a request.  For any handlers registered for the phases, the
    table of ngx_http_init_phase_handlers fits into the memory it is given,
    and ngx_http_core_run_phases from any of its entries, at the start or
    where a handler suspended the request, ends and does what a run through
    the rest of the phases in their order does: the handlers of each phase,
    the last registered first, until one ends the phase or the request,
    another search of the location after every change of the URI, and no more
    than ten of these. *)
Theorem phases_run searchable `{!PhaseLaws searchable} phases try_files : length phases = 10%nat ->
  exists eng, ngx_http_init_phase_handlers phases try_files = Ret eng /\
  forall r fuel, 1 <= uri_changes r <= NGX_HTTP_MAX_URI_CHANGES + 1 ->
    (phase_handler r <= length (handlers eng))%nat ->
    ((phase_handler r <= find_at phases)%nat -> searchable (loc_conf r)) ->
    (Z.to_nat (uri_changes r) * S (length (handlers eng)) <= fuel)%nat ->
    ngx_http_core_run_phases call conf srv_loc_conf find_location io_sendfile clear_ctx named_locations
      document_root disable_symlinks open_file byte_before eng fuel r =
    Ret (run_request phases try_files (Z.to_nat (uri_changes r)) r).
Proof.
  intros Hlen. destruct (engine_runs searchable phases try_files Hlen) as [E Hrun]. eexists. split; [exact E|].
  intros r fuel Hu. apply Hrun. unfold NGX_HTTP_MAX_URI_CHANGES in Hu. lia.
Qed.

End Run.
End PhasesRun.
