(* ===== verification/NgxPhasesAccess.v ===== *)
(** The access phase: a content handler serves a main request only where the
    access handlers of its location let it pass. *)

From S2P Require Import Prelude NgxLocation NgxPhases NgxPhasesRun.

Module PhasesAccess.

Import Phases PhasesRun.

Section Access.
Context {H L X : Type}.
Abbreviation req := (ngx_http_request_t H L X).
Abbreviation clcf := (ngx_http_core_loc_conf_t H L X).
Abbreviation ev := (event H L).
Context (call : H -> req -> Z * req) (conf : L -> clcf) (srv_loc_conf : L)
  (find_location : list Z -> L -> outcome (Z * L)).
Context (io_sendfile : bool) (clear_ctx : X -> X) (named_locations : list L)
  (document_root : req -> option (list Z)) (disable_symlinks : req -> list Z -> bool)
  (open_file : list Z -> option bool) (byte_before : req -> Z).
Context (phases : list (list H)) (try_files : bool).

(** * Traces *)

(** The access handlers and their answers let a request of the location pass:
    with "satisfy all" all of them were asked and none refused, with "satisfy
    any" the last that was asked agreed, or all declined to answer. *)
Definition granted (l : L) (hs : list H) (acc : list (H * Z)) : Prop :=
  if cl_satisfy_all (conf l) then map fst acc = hs /\ Forall (fun p => p.2 = NGX_OK \/ p.2 = NGX_DECLINED) acc
  else (exists pre h rest, acc = pre ++ [(h, NGX_OK)] /\ hs = map fst acc ++ rest) \/
       (map fst acc = hs /\ Forall (fun p => p.2 = NGX_DECLINED) acc).

Definition access_call (l : L) (p : H * Z) : ev := Called Access l p.1 p.2.

Definition content_call (e : ev) : Prop := match e with Called Content _ _ _ => True | _ => False end.

(** Before a call of a content handler for the location [l]. *)
Definition checked_before (t : list ev) (l : L) : Prop :=
  exists t0 acc mid, t = t0 ++ map (access_call l) acc ++ mid /\ granted l (calls phases 6) acc /\ Forall content_call mid.

Definition guarded (t : list ev) : Prop :=
  forall t1 l h rc t2, t = t1 ++ Called Content l h rc :: t2 -> checked_before t1 l.

(** The events of a request that was let pass for the location [l]. *)
Definition passed (l : L) (t : list ev) : Prop :=
  forall t1 l' h rc t2, t = t1 ++ Called Content l' h rc :: t2 ->
    (l' = l /\ Forall content_call t1) \/ checked_before t1 l'.

Lemma split_event {A} (a b t1 : list A) x t2 : a ++ b = t1 ++ x :: t2 ->
  (exists m, a = t1 ++ x :: m /\ t2 = m ++ b) \/ (exists m, t1 = a ++ m /\ b = m ++ x :: t2).
Proof.
  revert t1. induction a as [|y a IH]; intros t1 E; cbn in *; [right; by exists t1|].
  destruct t1 as [|z t1]; cbn in *.
  - injection E as <- E. left. by exists a.
  - injection E as <- E. destruct (IH _ E) as [(m & -> & ->)|(m & -> & ->)]; [left|right]; by exists m.
Qed.

Lemma checked_more evs t l : checked_before t l -> checked_before (evs ++ t) l.
Proof. intros (t0 & acc & mid & -> & Hg & Hm). exists (evs ++ t0), acc, mid. by rewrite <- app_assoc. Qed.

Lemma guarded_app evs t : Forall (fun e => ~ content_call e) evs -> guarded t -> guarded (evs ++ t).
Proof.
  intros He Hg t1 l h rc t2 [(m & -> & _)|(m & -> & Hm)]%split_event.
  - apply Forall_app in He as [_ He]. apply Forall_cons in He as [He _]. by destruct He.
  - apply checked_more. by eapply Hg.
Qed.

Lemma guarded_after t evs : guarded t -> Forall (fun e => ~ content_call e) evs -> guarded (t ++ evs).
Proof.
  intros Hg He t1 l h rc t2 [(m & -> & _)|(m & -> & ->)]%split_event; [by eapply Hg|].
  apply Forall_app in He as [_ He]. apply Forall_cons in He as [He _]. by destruct He.
Qed.

Lemma guarded_none t : Forall (fun e => ~ content_call e) t -> guarded t.
Proof.
  intros Ht. rewrite <- (app_nil_r t). apply guarded_app; [done|]. intros t1 l h rc t2 E. by destruct t1.
Qed.

Lemma guarded_passed l t : guarded t -> passed l t.
Proof. intros Hg t1 l' h rc t2 E. right. by eapply Hg. Qed.

Lemma passed_guarded l acc t : granted l (calls phases 6) acc -> passed l t -> guarded (map (access_call l) acc ++ t).
Proof.
  intros Ha Ht t1 l' h rc t2 [(m & E & _)|(m & -> & E)]%split_event.
  - exfalso. assert (Hin : Called Content l' h rc ∈ map (access_call l) acc) by (rewrite E; set_solver).
    apply list_elem_of_fmap in Hin as ([] & ? & _). done.
  - destruct (Ht _ _ _ _ _ E) as [[-> Hm]|Hc]; [|by apply checked_more]. by exists [], acc, m.
Qed.

(** * The phases *)

(** A handler that does not suspend the request leaves it a main request; those
    of the access and content phases leave its location and its access code
    alone. *)
Class AccessLaws : Prop := {
  law_main h r rc r' : call h r = (rc, r') -> rc <> NGX_AGAIN -> rc <> NGX_DONE -> is_main r' = is_main r;
  law_location h r rc r' : h ∈ calls phases 6 ++ calls phases 9 -> call h r = (rc, r') ->
    rc <> NGX_AGAIN -> rc <> NGX_DONE -> loc_conf r' = loc_conf r /\ access_code r' = access_code r }.

Context `{!AccessLaws}.

(** What the access phase does: it ends the request, or goes on. *)
Lemma access_cases hs : forall i r kf, (forall h, h ∈ hs -> h ∈ calls phases 6) -> is_main r = true ->
  (Forall (fun e => ~ content_call e) (run_access call conf i hs r kf).1) \/
  exists acc r', run_access call conf i hs r kf = emit (map (access_call (loc_conf r)) acc) (kf r') /\
    loc_conf r' = loc_conf r /\ is_main r' = true /\
    if cl_satisfy_all (conf (loc_conf r)) then map fst acc = hs /\ Forall (fun p => p.2 = NGX_OK \/ p.2 = NGX_DECLINED) acc
    else (exists pre h rest, acc = pre ++ [(h, NGX_OK)] /\ hs = map fst acc ++ rest) \/
       (access_code r = 0 /\ map fst acc = hs /\ Forall (fun p => p.2 = NGX_DECLINED) acc).
Proof.
  induction hs as [|h hs IH]; intros i r kf Hin Hm; cbn [run_access].
  { destruct (Z.eqb_spec (access_code r) 0) as [E|E]; cbn [negb].
    - right. exists [], (set_phase (S i) r). split_and!; [by destruct (kf _)|done|done|].
      destruct (cl_satisfy_all _); [done|]. right. done.
    - left. constructor; [by intros []|constructor]. }
  rewrite Hm. cbn [negb]. destruct (call h r) as [rc r'] eqn:Ec.
  assert (Hh : h ∈ calls phases 6 ++ calls phases 9) by (apply elem_of_app; left; apply Hin; set_solver).
  pose proof (law_main h r rc r' Ec) as Hmain. pose proof (law_location h r rc r' Hh Ec) as Hloc.
  assert (Hcont : forall r2 n, rc <> NGX_AGAIN -> rc <> NGX_DONE -> loc_conf r2 = loc_conf r' -> is_main r2 = is_main r' ->
    let x := run_access call conf n hs r2 kf in
    Forall (fun e => ~ content_call e) (emit [Called Access (loc_conf r) h rc] x).1 \/
    exists acc r3, emit [Called Access (loc_conf r) h rc] x = emit (map (access_call (loc_conf r)) ((h, rc) :: acc)) (kf r3) /\
      loc_conf r3 = loc_conf r /\ is_main r3 = true /\
      if cl_satisfy_all (conf (loc_conf r)) then map fst acc = hs /\ Forall (fun p => p.2 = NGX_OK \/ p.2 = NGX_DECLINED) acc
      else (exists pre h rest, acc = pre ++ [(h, NGX_OK)] /\ hs = map fst acc ++ rest) \/
         (access_code r2 = 0 /\ map fst acc = hs /\ Forall (fun p => p.2 = NGX_DECLINED) acc)).
  { intros r2 n H1 H2 El Em. destruct (Hloc H1 H2) as [El' _]. specialize (Hmain H1 H2). rewrite <- El', <- El.
    destruct (IH n r2 kf) as [Hn|(acc & r3 & E & E1 & E2 & Hg)].
    - intros h' Hh'. apply Hin. set_solver.
    - congruence.
    - left. cbn. constructor; [|exact Hn]. by intros [].
    - right. exists acc, r3. cbn zeta. rewrite E. split_and!; try done. }
  destruct (Z.eqb_spec rc NGX_DECLINED) as [->|H1]; [|destruct ((rc =? NGX_AGAIN) || (rc =? NGX_DONE)) eqn:E2].
  { destruct (Hloc ltac:(done) ltac:(done)) as [_ Ha].
    destruct (Hcont (set_phase (S i) r') (S i)) as [Hn|(acc & r3 & E & E1 & E3 & Hg)]; [done..|by left|].
    right. exists ((h, NGX_DECLINED) :: acc), r3. split_and!; [exact E|done|done|].
    destruct (cl_satisfy_all _).
    - destruct Hg as [Hf Hg]. split; [cbn; by rewrite Hf|]. constructor; [by right|done].
    - destruct Hg as [(pre & h' & rest & -> & ->)|(Hz & Hf & Hg)].
      + left. by exists ((h, NGX_DECLINED) :: pre), h', rest.
      + right. cbn in Hz. split_and!; [congruence|cbn; by rewrite Hf|by constructor]. }
  { left. constructor; [by intros []|constructor]. }
  destruct (suspended _ E2) as [Hna Hnd]. destruct (Hloc Hna Hnd) as [El Ha]. rewrite El.
  destruct (cl_satisfy_all (conf (loc_conf r))) eqn:Es; (destruct (Z.eqb_spec rc NGX_OK) as [->|H3]).
  - destruct (Hcont (set_phase (S i) r') (S i)) as [Hn|(acc & r3 & E & E1 & E3 & Hf & Hg)]; [done..|by left|].
    right. exists ((h, NGX_OK) :: acc), r3. split_and!; [exact E|done|done|cbn; by rewrite Hf|]. constructor; [by left|done].
  - left. constructor; [by intros []|]. constructor; [by intros []|constructor].
  - right. eexists [(h, NGX_OK)], _. split_and!; [reflexivity| | |].
    + destruct (www_authenticate _); exact El.
    + destruct (www_authenticate _); cbn; by rewrite (Hmain Hna Hnd).
    + left. by exists [], h, hs.
  - destruct ((rc =? NGX_HTTP_FORBIDDEN) || (rc =? NGX_HTTP_UNAUTHORIZED)) eqn:E4.
    + destruct (Hcont (set_phase (S i) (set_access_code rc r')) (S i)) as [Hn|(acc & r3 & E & E1 & E3 & Hg)]; [done..|by left|].
      right. exists ((h, rc) :: acc), r3. split_and!; [exact E|done|done|].
      destruct Hg as [(pre & h' & rest & -> & ->)|(Hz & _)].
      * left. by exists ((h, rc) :: pre), h', rest.
      * cbn in Hz. subst rc. done.
    + left. constructor; [by intros []|]. constructor; [by intros []|constructor].
Qed.

(** The content phase. *)
Lemma content_passed hs : forall i r, (forall h, h ∈ hs -> h ∈ calls phases 9) ->
  passed (loc_conf r) (run_content call byte_before i hs r).1.
Proof.
  induction hs as [|h hs IH]; intros i r Hin; cbn [run_content].
  { intros t1 l h rc t2 E. by destruct t1. }
  destruct (content_handler r) as [h'|].
  { destruct (call h' r) as [rc r']. intros t1 l h2 rc2 t2 E. left. cbn in E.
    destruct t1 as [|e [|e2 t1]]; [by injection E as <-|by injection E|]. by destruct t1. }
  destruct (call h r) as [rc r'] eqn:Ec. intros t1 l h2 rc2 t2 E. cbn in E.
  destruct t1 as [|e t1]; [left; by injection E as <-|]. injection E as <- E.
  destruct (Z.eqb_spec rc NGX_DECLINED) as [->|H1]; cbn [negb] in E; [|by destruct t1 as [|? []]].
  destruct hs as [|h3 hs]; [by destruct t1 as [|? []]|].
  assert (Hh : h ∈ calls phases 6 ++ calls phases 9) by (apply elem_of_app; right; apply Hin; set_solver).
  destruct (law_location h r _ r' Hh Ec ltac:(done) ltac:(done)) as [El _].
  destruct (IH (S i) (set_phase (S i) r') ltac:(set_solver) _ _ _ _ _ E) as [[-> Hc]|Hc].
  - left. split; [done|]. by constructor.
  - right. by apply (checked_more [_]).
Qed.

Lemma update_main r : is_main (ngx_http_update_location_config conf io_sendfile r) = is_main r.
Proof.
  unfold ngx_http_update_location_config.
  repeat match goal with |- context [if ?b then _ else _] => destruct b end;
    match goal with |- context [cl_handler ?c] => destruct (cl_handler c) end; done.
Qed.

Section Pass.
(** The run after a change of the URI. *)
Context (rec : req -> list ev * req).
Definition rec_guarded : Prop := forall r, is_main r = true -> (phase_handler r <= location_rewrite_at phases)%nat ->
  guarded (rec r).1.
Context (Hrec : rec_guarded).

Abbreviation stages_run := (run_stages call conf srv_loc_conf find_location io_sendfile clear_ctx named_locations
  document_root disable_symlinks open_file byte_before phases rec).

(** What try_files does: it goes on with the location, or it ends or redirects
    the request. *)
Lemma try_cases r : is_main r = true ->
  let '(evs, again, r') := try_files_phase conf srv_loc_conf io_sendfile clear_ctx named_locations document_root
    disable_symlinks open_file phases rec r in
  if again then evs = [] /\ loc_conf r' = loc_conf r else guarded evs.
Proof.
  intros Hm. unfold try_files_phase, ngx_http_core_try_files_phase. destruct (cl_try_files _) as [[tfs code]|]; [|done].
  set (eng := MkEngine [] _ _). assert (Hf : forall rc, guarded [Finalized rc]).
  { intros rc. apply guarded_none. constructor; [by intros []|constructor]. }
  induction tfs as [|tf tfs IH]; [done|]. cbn [try_loop]. destruct (document_root r) as [root|]; [|apply Hf].
  destruct tfs as [|tf2 tfs].
  - unfold try_last. destruct (negb (code =? 0)); [apply Hf|].
    assert (Hafter : forall t, guarded t -> guarded (t ++ [Finalized NGX_DONE])).
    { intros t Ht. apply guarded_after; [done|]. constructor; [by intros []|constructor]. }
    destruct (hd 0 _ =? "@"%c).
    + unfold ngx_http_named_location. cbn zeta. destruct (_ =? 0); [by apply Hafter|].
      destruct (find_named _ _ _); [|by apply Hafter]. cbn [outcome_bind].
      match goal with |- context [rec ?r1] => assert (Hg : guarded (rec r1).1) by
        (apply Hrec; [cbn; rewrite update_main; exact Hm|done]); destruct (rec r1) as [evs r'] end.
      by apply Hafter.
    + destruct (ngx_http_split_args _) as [v a]. unfold ngx_http_internal_redirect. cbn zeta.
      destruct (_ =? 0); [by apply Hafter|]. unfold ngx_http_handler.
      cbn [internal set_count set_add_uri_to_alias set_valid_unparsed_uri set_internal negb outcome_bind].
      match goal with |- context [rec ?r1] => assert (Hg : guarded (rec r1).1) by
        (apply Hrec; [cbn; rewrite update_main; exact Hm|cbn; unfold location_rewrite_at, find_at; lia]);
        destruct (rec r1) as [evs r'] end.
      by apply Hafter.
  - destruct (negb (disable_symlinks _ _)); [apply Hf|]. destruct (open_file _) as [is_dir|]; [|exact IH].
    destruct (is_dir && _); [exact IH|]. unfold try_found, go_on. split; [done|].
    cbn. repeat match goal with |- context [if ?b then _ else _] => destruct b end; done.
Qed.

Lemma after_access_passed i r : is_main r = true -> passed (loc_conf r) (stages_run i (after_access phases try_files) r).1.
Proof.
  intros Hm. unfold after_access. destruct try_files; cbn [app run_stages].
  - unfold then_go. pose proof (try_cases r Hm) as Ht.
    destruct (try_files_phase _ _ _ _ _ _ _ _ _ _ r) as [[evs again] r']. destruct again.
    + destruct Ht as [-> <-]. cbn. by apply content_passed.
    + cbn. rewrite app_nil_r. by apply guarded_passed.
  - by apply content_passed.
Qed.

Lemma access_guarded i r : is_main r = true ->
  guarded (stages_run i ((if nonempty (calls phases 6) then [SAccess (calls phases 6)] else []) ++ after_access phases try_files) r).1.
Proof.
  intros Hm. destruct (nonempty (calls phases 6)) eqn:En; cbn [app run_stages].
  - match goal with |- guarded (run_access _ _ _ _ _ ?k).1 =>
      destruct (access_cases (calls phases 6) i r k (fun _ Hh => Hh) Hm) as [Hn|(acc & r' & -> & El & Em & Hg)] end.
    + by apply guarded_none.
    + cbn. apply passed_guarded; [|rewrite <- El; by apply after_access_passed]. unfold granted.
      destruct (cl_satisfy_all _); [done|]. destruct Hg as [Hg|(_ & Hg)]; [by left|by right].
  - apply (passed_guarded (loc_conf r) [] _); [|by apply after_access_passed].
    assert (Hnil : calls phases 6 = []) by (unfold nonempty in En; by destruct (calls phases 6)).
    unfold granted. rewrite Hnil. destruct (cl_satisfy_all _); [done|]. right. done.
Qed.

(** The phases before the access phase. *)
Definition early (s : stage (H := H)) : Prop :=
  match s with SGeneric _ | SRewrite _ | SFind | SPostRewrite => True | _ => False end.

Lemma early_guarded rest pre : Forall early pre ->
  (forall i r, is_main r = true -> guarded (stages_run i rest r).1) ->
  forall i r, is_main r = true -> guarded (stages_run i (pre ++ rest) r).1.
Proof.
  intros Hpre Hrest. assert (Hone : forall e (x : list ev * req), ~ content_call e -> guarded x.1 -> guarded (emit [e] x).1).
  { intros e x He Hx. apply guarded_app; [by repeat constructor|done]. }
  assert (Hnil : guarded []) by (apply guarded_none; constructor).
  assert (Hfin : forall rc r, guarded (final (X := X) rc r).1).
  { intros rc r. apply guarded_none. constructor; [by intros []|constructor]. }
  induction Hpre as [|s pre Hs _ IH]; intros i r Hm; [by apply Hrest|]. cbn [app run_stages].
  destruct s as [hs|hs| | | | |]; try done.
  - set (k := run_stages _ _ _ _ _ _ _ _ _ _ _ _ _ _ _) in *. assert (Hk : forall r, is_main r = true -> guarded (k r).1) by (intros; by apply IH).
    clearbody k. clear Hs. revert i r Hm. induction hs as [|h hs IHh]; intros i r Hm; cbn [run_generic]; [by apply Hk|].
    destruct (call h r) as [rc r'] eqn:Ec. apply Hone; [by intros []|]. pose proof (law_main h r rc r' Ec) as Hmain.
    destruct (Z.eqb_spec rc NGX_OK) as [->|H1]; [apply Hk; etrans; [by apply Hmain|done]|].
    destruct (Z.eqb_spec rc NGX_DECLINED) as [->|H2]; [apply IHh; etrans; [by apply Hmain|done]|].
    destruct (_ || _); [done|apply Hfin].
  - set (k := run_stages _ _ _ _ _ _ _ _ _ _ _ _ _ _ _) in *. assert (Hk : forall r, is_main r = true -> guarded (k r).1) by (intros; by apply IH).
    clearbody k. clear Hs. revert i r Hm. induction hs as [|h hs IHh]; intros i r Hm; cbn [run_rewrite]; [by apply Hk|].
    destruct (call h r) as [rc r'] eqn:Ec. apply Hone; [by intros []|]. pose proof (law_main h r rc r' Ec) as Hmain.
    destruct (Z.eqb_spec rc NGX_DECLINED) as [->|H2]; [apply IHh; etrans; [by apply Hmain|done]|].
    destruct (rc =? NGX_DONE); [done|apply Hfin].
  - unfold then_go, find_config, ngx_http_core_find_config_phase. cbn zeta.
    destruct (find_location _ _) as [[rc l]| |]; cbn [outcome_bind]; [|by apply IH..].
    assert (Hd : guarded [Discarded; Finalized NGX_HTTP_REQUEST_ENTITY_TOO_LARGE]).
    { apply guarded_none. repeat (constructor; [by intros []|]). constructor. }
    repeat match goal with |- context [if ?b then _ else _] => destruct b end; try apply Hfin; try exact Hd.
    apply IH. cbn. by rewrite update_main.
  - unfold run_post_rewrite. destruct (negb _); [by apply IH|]. cbn zeta. destruct (_ =? 0); [apply Hfin|].
    apply Hrec; [done|]. cbn. unfold location_rewrite_at. lia.
Qed.

End Pass.

(** * From the phases before the access phase *)

Definition before_access : list stage :=
  [SGeneric (calls phases 0); SRewrite (calls phases 1); SFind; SRewrite (calls phases 3)] ++
  (if nonempty (calls phases 3) then [SPostRewrite] else []) ++ [SGeneric (calls phases 5)].

Definition from_access : list stage :=
  (if nonempty (calls phases 6) then [SAccess (calls phases 6)] else []) ++ after_access phases try_files.

Definition size_of (stages : list (stage (H := H))) : nat := list_sum (map stage_size stages).

(** The first entry of the access phase. *)
Definition access_at : nat := size_of before_access.

Lemma stages_at_early (pre rest : list (stage (H := H))) : Forall early pre -> forall i, (i <= size_of pre)%nat ->
  exists pre' rest', Forall early pre' /\ stages_at i (pre ++ rest) = pre' ++ rest' /\
    (rest' = rest \/ rest' = stages_at 0 rest).
Proof.
  induction 1 as [|s pre Hs Hpre IH]; intros i Hi; cbn in Hi.
  { replace i with 0%nat by lia. exists [], (stages_at 0 rest). auto. }
  cbn [app stages_at]. destruct (Nat.ltb_spec i (stage_size s)) as [Hlt|Hge].
  - exists (trim i s :: pre), rest. split_and!; [constructor; [by destruct s|done]|done|by left].
  - apply IH. unfold size_of, list_sum. lia.
Qed.

Abbreviation stages_run_ := (run_stages call conf srv_loc_conf find_location io_sendfile clear_ctx named_locations
  document_root disable_symlinks open_file byte_before phases).

Lemma stages_at_start rec stages : content_last stages -> forall i r,
  stages_run_ rec i (stages_at 0 stages) r = stages_run_ rec i stages r.
Proof.
  induction stages as [|s stages IH]; intros Hc i r; [done|]. cbn [stages_at].
  destruct (Nat.ltb_spec 0 (stage_size s)) as [Hlt|Hge]; [by destruct s|]. rewrite Nat.sub_0_l.
  destruct s as [hs|hs| | |hs| |hs]; cbn in Hge; try lia; (destruct hs; [|cbn in Hge; lia]);
    cbn [run_stages run_generic run_rewrite run_content length]; rewrite ?Nat.add_0_r; try by apply IH.
  cbn in Hc. by subst stages.
Qed.

Lemma stages_split : all_stages phases try_files = before_access ++ from_access.
Proof.
  unfold all_stages, from_server_rewrite, from_find, from_location_rewrite, after_rewrite, before_access, from_access.
  cbn [app]. by rewrite <- !app_assoc.
Qed.

Abbreviation request_run := (run_request call conf srv_loc_conf find_location io_sendfile clear_ctx named_locations
  document_root disable_symlinks open_file byte_before phases try_files).

Lemma request_guarded k : forall r, is_main r = true -> (phase_handler r <= access_at)%nat -> guarded (request_run k r).1.
Proof.
  induction k as [|k IH]; intros r Hm Hp; cbn [run_request]; [apply guarded_none; constructor|].
  assert (Hrec : rec_guarded (request_run k)).
  { intros r' Hm' Hp'. apply IH; [done|]. etrans; [exact Hp'|]. unfold access_at, size_of, before_access.
    rewrite map_app, list_sum_app. cbn. unfold location_rewrite_at, find_at, server_rewrite_at. lia. }
  assert (Hpre : Forall early before_access).
  { unfold before_access. destruct (nonempty _); repeat constructor. }
  rewrite stages_split. destruct (stages_at_early before_access from_access Hpre _ Hp) as (pre' & rest' & Hpre' & -> & Hrest).
  apply early_guarded; [done|done| |done]. intros i r' Hm'. destruct Hrest as [->| ->].
  - by apply access_guarded.
  - rewrite stages_at_start; [by apply access_guarded|]. unfold from_access, after_access.
    destruct (nonempty _), try_files; done.
Qed.

(** C6: access control.  Whatever the configuration and the handlers, in a run of
    a main request that begins before the access phase every call of a content
    handler comes after the access phase of its own location, asked after the
    last rewrite or redirection, in which the access handlers let the request
    pass: all of them with "satisfy all", one of them or none against it with
    "satisfy any". *)
Theorem content_after_access searchable
    `{!PhaseLaws call conf srv_loc_conf find_location searchable} : length phases = 10%nat ->
  exists eng, ngx_http_init_phase_handlers phases try_files = Ret eng /\
  forall r fuel, is_main r = true -> 1 <= uri_changes r <= NGX_HTTP_MAX_URI_CHANGES + 1 ->
    (phase_handler r <= access_at)%nat ->
    ((phase_handler r <= find_at phases)%nat -> searchable (loc_conf r)) ->
    (Z.to_nat (uri_changes r) * S (length (handlers eng)) <= fuel)%nat ->
    exists evs r', ngx_http_core_run_phases call conf srv_loc_conf find_location io_sendfile clear_ctx named_locations
      document_root disable_symlinks open_file byte_before eng fuel r = Ret (evs, r') /\ guarded evs.
Proof.
  intros Hlen. destruct (engine_runs call conf srv_loc_conf find_location io_sendfile clear_ctx named_locations
      document_root disable_symlinks open_file byte_before searchable phases try_files Hlen) as [E Hrun].
  eexists. split; [exact E|]. intros r fuel Hm Hu Hp Hs Hf. unfold NGX_HTTP_MAX_URI_CHANGES in Hu.
  pose proof (request_guarded (Z.to_nat (uri_changes r)) r Hm Hp) as Hg.
  rewrite Hrun; [|lia| |done|done].
  - destruct (request_run _ r) as [evs r']. eauto.
  - etrans; [exact Hp|]. cbn [handlers]. rewrite stages_split. generalize 0%nat as i.
    unfold access_at, size_of. generalize before_access as l. induction l as [|s l IH]; intros i; cbn; [lia|].
    rewrite length_app, entries_size. specialize (IH (i + stage_size s)%nat). unfold list_sum in IH. cbn in *. lia.
Qed.

End Access.
End PhasesAccess.
