(* ===== verification/NgxRadixTree.v ===== *)
(** The radix tree of core/ngx_radix_tree.c and .h, field access by field access
    on a memory of nodes: insertion, deletion and search with 32-bit keys and
    with keys of 16 bytes, and the allocation of nodes.  The two families of
    functions have the same loops over the bits of a key; a cursor stands for
    what differs. *)

From S2P Require Import Prelude.

Module RadixTree.

(** * Data *)

Definition NGX_RADIX_NO_VALUE : Z := 2 ^ 64 - 1.

Record ngx_radix_node_t := MkRadix { rn_right : Z; rn_left : Z; rn_parent : Z; rn_value : Z }.

Definition node_size : Z := 32.
Definition ngx_pagesize : Z := 4096.

(** A tree, the memory of its nodes, and the addresses that the next calls of
    ngx_pmemalign return before it fails. *)
Record ngx_radix_tree_t := MkRadixTree {
  t_root : Z; t_free : Z; t_start : Z; t_size : Z;
  t_nodes : gmap Z ngx_radix_node_t; t_pages : list Z }.

Definition set_root (a : Z) (t : ngx_radix_tree_t) : ngx_radix_tree_t :=
  MkRadixTree a (t_free t) (t_start t) (t_size t) (t_nodes t) (t_pages t).
Definition set_free (a : Z) (t : ngx_radix_tree_t) : ngx_radix_tree_t :=
  MkRadixTree (t_root t) a (t_start t) (t_size t) (t_nodes t) (t_pages t).
Definition set_nodes (h : gmap Z ngx_radix_node_t) (t : ngx_radix_tree_t) : ngx_radix_tree_t :=
  MkRadixTree (t_root t) (t_free t) (t_start t) (t_size t) h (t_pages t).
Definition store (a : Z) (n : ngx_radix_node_t) (t : ngx_radix_tree_t) : ngx_radix_tree_t :=
  set_nodes (<[a := n]> (t_nodes t)) t.

(** The node that a pointer leads to; the null pointer is 0. *)
Definition node_at (a : Z) (t : ngx_radix_tree_t) : outcome ngx_radix_node_t :=
  match t_nodes t !! a with Some n => Ret n | None => Undefined end.

Definition child (right : bool) (n : ngx_radix_node_t) : Z := if right then rn_right n else rn_left n.

Definition set_child (right : bool) (a : Z) (n : ngx_radix_node_t) : ngx_radix_node_t :=
  if right then MkRadix a (rn_left n) (rn_parent n) (rn_value n) else MkRadix (rn_right n) a (rn_parent n) (rn_value n).

Definition set_value (v : Z) (n : ngx_radix_node_t) : ngx_radix_node_t :=
  MkRadix (rn_right n) (rn_left n) (rn_parent n) v.

(** * Nodes *)

Definition ngx_radix_alloc (t : ngx_radix_tree_t) : outcome (option Z * ngx_radix_tree_t) :=
  if negb (t_free t =? 0) then
    let! n := node_at (t_free t) t in Ret (Some (t_free t), set_free (rn_right n) t)
  else
    let t := if t_size t <? node_size then
               match t_pages t with
               | [] => MkRadixTree (t_root t) (t_free t) 0 (t_size t) (t_nodes t) []
               | p :: pages => MkRadixTree (t_root t) (t_free t) p ngx_pagesize (t_nodes t) pages
               end
             else t in
    if t_size t <? node_size then Ret (None, t)
    else Ret (Some (t_start t),
              MkRadixTree (t_root t) (t_free t) (t_start t + node_size) (t_size t - node_size) (t_nodes t) (t_pages t)).

(** * The loops over the bits of a key *)

Section Loops.
Context {C : Type}.

(** The bit of the mask, the bit of the key, and the next bit, if the loop goes
    on. *)
Context (cond : C -> outcome bool) (dir : C -> outcome bool) (adv : C -> option C).

(** The first loop of an insertion: the node reached and [next]. *)
Fixpoint descend (fuel : nat) (c : C) (node next : Z) (t : ngx_radix_tree_t) : outcome (C * Z * Z) :=
  match fuel with
  | O => NoFuel
  | S fuel =>
    let! more := cond c in
    if negb more then Ret (c, node, next)
    else
      let! d := dir c in
      let! n := node_at node t in
      let next := child d n in
      if next =? 0 then Ret (c, node, next)
      else match adv c with
           | Some c => descend fuel c next next t
           | None => Ret (c, next, next)
           end
  end.

(** The second loop: a chain of new nodes, None when an allocation fails. *)
Fixpoint grow (fuel : nat) (c : C) (node : Z) (t : ngx_radix_tree_t) : outcome (option Z * ngx_radix_tree_t) :=
  match fuel with
  | O => NoFuel
  | S fuel =>
    let! more := cond c in
    if negb more then Ret (Some node, t)
    else
      let! (p, t) := ngx_radix_alloc t in
      match p with
      | None => Ret (None, t)
      | Some next =>
        let t := store next (MkRadix 0 0 node NGX_RADIX_NO_VALUE) t in
        let! d := dir c in
        let! n := node_at node t in
        let t := store node (set_child d next n) t in
        match adv c with
        | Some c => grow fuel c next t
        | None => Ret (Some next, t)
        end
      end
  end.

Definition radix_insert (fuel : nat) (c : C) (value : Z) (t : ngx_radix_tree_t) : outcome (Z * ngx_radix_tree_t) :=
  let! (c, node, next) := descend fuel c (t_root t) (t_root t) t in
  if negb (next =? 0) then
    let! n := node_at node t in
    if negb (rn_value n =? NGX_RADIX_NO_VALUE) then Ret (NGX_BUSY, t)
    else Ret (NGX_OK, store node (set_value value n) t)
  else
    let! (p, t) := grow fuel c node t in
    match p with
    | None => Ret (NGX_ERROR, t)
    | Some node => let! n := node_at node t in Ret (NGX_OK, store node (set_value value n) t)
    end.

Fixpoint seek (fuel : nat) (c : C) (node : Z) (t : ngx_radix_tree_t) : outcome Z :=
  match fuel with
  | O => NoFuel
  | S fuel =>
    if node =? 0 then Ret node
    else
      let! more := cond c in
      if negb more then Ret node
      else
        let! d := dir c in
        let! n := node_at node t in
        match adv c with
        | Some c => seek fuel c (child d n) t
        | None => Ret (child d n)
        end
  end.

(** The loop that frees a node and those above that are not needed. *)
Fixpoint prune (fuel : nat) (node : Z) (t : ngx_radix_tree_t) : outcome ngx_radix_tree_t :=
  match fuel with
  | O => NoFuel
  | S fuel =>
    let! n := node_at node t in
    let! p := node_at (rn_parent n) t in
    let t := store (rn_parent n) (set_child (rn_right p =? node) 0 p) t in
    let! n := node_at node t in
    let t := set_free node (store node (set_child true (t_free t) n) t) in
    let node := rn_parent n in
    let! n := node_at node t in
    if negb (rn_right n =? 0) || negb (rn_left n =? 0) then Ret t
    else if negb (rn_value n =? NGX_RADIX_NO_VALUE) then Ret t
    else if rn_parent n =? 0 then Ret t
    else prune fuel node t
  end.

Definition radix_delete (fuel : nat) (c : C) (t : ngx_radix_tree_t) : outcome (Z * ngx_radix_tree_t) :=
  let! node := seek fuel c (t_root t) t in
  if node =? 0 then Ret (NGX_ERROR, t)
  else
    let! n := node_at node t in
    if negb (rn_right n =? 0) || negb (rn_left n =? 0) then
      if negb (rn_value n =? NGX_RADIX_NO_VALUE)
      then Ret (NGX_OK, store node (set_value NGX_RADIX_NO_VALUE n) t)
      else Ret (NGX_ERROR, t)
    else
      let! t := prune fuel node t in Ret (NGX_OK, t).

(** The search does not stop at the end of a key. *)
Fixpoint radix_find (next : C -> C) (fuel : nat) (c : C) (node value : Z) (t : ngx_radix_tree_t) : outcome Z :=
  match fuel with
  | O => NoFuel
  | S fuel =>
    if node =? 0 then Ret value
    else
      let! n := node_at node t in
      let value := if negb (rn_value n =? NGX_RADIX_NO_VALUE) then rn_value n else value in
      let! d := dir c in
      radix_find next fuel (next c) (child d n) value t
  end.

End Loops.

(** * 32-bit keys *)

Definition bit32 (word bit : Z) : outcome bool := Ret (negb (Z.land word bit =? 0)).
Definition half (bit : Z) : Z := Z.shiftr bit 1.

Definition ngx_radix32tree_insert (key mask value : Z) (t : ngx_radix_tree_t) : outcome (Z * ngx_radix_tree_t) :=
  radix_insert (bit32 mask) (bit32 key) (fun bit => Some (half bit)) 33 0x80000000 value t.

Definition ngx_radix32tree_delete (key mask : Z) (t : ngx_radix_tree_t) : outcome (Z * ngx_radix_tree_t) :=
  radix_delete (bit32 mask) (bit32 key) (fun bit => Some (half bit)) 34 0x80000000 t.

Definition ngx_radix32tree_find (key : Z) (t : ngx_radix_tree_t) : outcome Z :=
  radix_find (bit32 key) half 34 0x80000000 (t_root t) NGX_RADIX_NO_VALUE t.

(** * Keys of 16 bytes *)

(** The index of a byte and a bit of it. *)
Definition bit128 (bytes : list Z) (c : nat * Z) : outcome bool :=
  match bytes !! c.1 with Some b => Ret (negb (Z.land b c.2 =? 0)) | None => Undefined end.

Definition next128 (c : nat * Z) : nat * Z :=
  if half c.2 =? 0 then (S c.1, 0x80) else (c.1, half c.2).

Definition adv128 (c : nat * Z) : option (nat * Z) :=
  if half c.2 =? 0 then (if (S c.1 =? 16)%nat then None else Some (S c.1, 0x80)) else Some (c.1, half c.2).

Definition ngx_radix128tree_insert (key mask : list Z) (value : Z) (t : ngx_radix_tree_t)
    : outcome (Z * ngx_radix_tree_t) :=
  radix_insert (bit128 mask) (bit128 key) adv128 129 (0%nat, 0x80) value t.

Definition ngx_radix128tree_delete (key mask : list Z) (t : ngx_radix_tree_t) : outcome (Z * ngx_radix_tree_t) :=
  radix_delete (bit128 mask) (bit128 key) adv128 130 (0%nat, 0x80) t.

Definition ngx_radix128tree_find (key : list Z) (t : ngx_radix_tree_t) : outcome Z :=
  radix_find (bit128 key) next128 130 (0%nat, 0x80) (t_root t) NGX_RADIX_NO_VALUE t.

(** * Creation *)

(** The inner loop, for the keys of a length. *)
Fixpoint preallocate_keys (fuel : nat) (key mask inc : Z) (t : ngx_radix_tree_t) : outcome (option ngx_radix_tree_t) :=
  match fuel with
  | O => NoFuel
  | S fuel =>
    let! (rc, t) := ngx_radix32tree_insert key mask NGX_RADIX_NO_VALUE t in
    if negb (rc =? NGX_OK) then Ret None
    else
      let key := wrapU 32 (key + inc) in
      if key =? 0 then Ret (Some t) else preallocate_keys fuel key mask inc t
  end.

Fixpoint preallocate_bits (n : nat) (mask inc : Z) (t : ngx_radix_tree_t) : outcome (option ngx_radix_tree_t) :=
  match n with
  | O => Ret (Some t)
  | S n =>
    let mask := Z.lor (Z.shiftr mask 1) 0x80000000 in
    let! o := preallocate_keys (2 ^ (32 - Z.to_nat (Z.log2 inc))) 0 mask inc t in
    match o with
    | None => Ret None
    | Some t => preallocate_bits n mask (half inc) t
    end
  end.

Definition preallocate_default : nat :=
  if ngx_pagesize / node_size =? 128 then 6 else if ngx_pagesize / node_size =? 256 then 7 else 8.

(** [preallocate] is -1 or a number of bits. *)
Definition ngx_radix_tree_create (pages : list Z) (preallocate : Z) : outcome (option ngx_radix_tree_t) :=
  let! (root, t) := ngx_radix_alloc (MkRadixTree 0 0 0 0 ∅ pages) in
  match root with
  | None => Ret None
  | Some root =>
    let t := set_root root (store root (MkRadix 0 0 0 NGX_RADIX_NO_VALUE) t) in
    if preallocate =? 0 then Ret (Some t)
    else
      preallocate_bits (if preallocate =? -1 then preallocate_default else Z.to_nat preallocate) 0 0x80000000 t
  end.

End RadixTree.
