(* ===== verification/NgxRadixTreeRun.v ===== *)
(** The radix tree against a map of prefixes: the nodes in memory are a tree
    ([rep]), and an insertion, a deletion or a search does to it what the map
    from prefixes to values says. *)

From S2P Require Import Prelude NgxRadixTree.

Module RadixTreeRun.

Import RadixTree.

(** * Trees *)

(** A node with its address and its value. *)
Inductive tree :=
| E
| N (a v : Z) (l r : tree).

Definition addr (t : tree) : Z := match t with E => 0 | N a _ _ _ => a end.

Fixpoint addrs (t : tree) : list Z := match t with E => [] | N a _ l r => a :: addrs l ++ addrs r end.

Abbreviation nodes := (gmap Z ngx_radix_node_t).

Fixpoint rep (h : nodes) (p : Z) (t : tree) : Prop :=
  match t with
  | E => True
  | N a v l r => a <> 0 /\ h !! a = Some (MkRadix (addr r) (addr l) p v) /\ rep h a l /\ rep h a r
  end.

(** The value of a prefix, the first bit first. *)
Definition value_of (v : Z) : option Z := if v =? NGX_RADIX_NO_VALUE then None else Some v.

Fixpoint lookup_tree (t : tree) (bits : list bool) : option Z :=
  match t, bits with
  | E, _ => None
  | N _ v _ _, [] => value_of v
  | N _ _ l r, b :: bits => lookup_tree (if b then r else l) bits
  end.

(** A node above a place: the way down, its address and value, and the other
    subtree. *)
Abbreviation frame := (bool * Z * Z * tree)%type.

Definition fill_hole (f : frame) (t : tree) : tree :=
  let '(d, a, v, s) := f in if d : bool then N a v s t else N a v t s.

Fixpoint plug (z : list frame) (t : tree) : tree := match z with [] => t | f :: z => plug z (fill_hole f t) end.

Definition top (z : list frame) : Z := match z with [] => 0 | (_, a, _, _) :: _ => a end.

Definition bits_of (z : list frame) : list bool := rev (map (fun f : frame => f.1.1.1) z).

Fixpoint rep_above (h : nodes) (z : list frame) (x : Z) : Prop :=
  match z with
  | [] => True
  | (d, a, v, s) :: z =>
    a <> 0 /\ h !! a = Some (MkRadix (if d : bool then x else addr s) (if d then addr s else x) (top z) v) /\
    rep h a s /\ rep_above h z a
  end.

Fixpoint addrs_above (z : list frame) : list Z :=
  match z with [] => [] | (_, a, _, s) :: z => a :: addrs s ++ addrs_above z end.

Lemma rep_plug h z : forall t, rep h 0 (plug z t) <-> rep_above h z (addr t) /\ rep h (top z) t.
Proof.
  induction z as [|[[[d a] v] s] z IH]; intros t; cbn [plug]; [cbn; tauto|].
  rewrite IH. destruct d; cbn; tauto.
Qed.

Lemma radix_addrs_plug z : forall t, addrs (plug z t) ≡ₚ addrs t ++ addrs_above z.
Proof.
  induction z as [|[[[d a] v] s] z IH]; intros t; cbn [plug addrs_above]; [by rewrite app_nil_r|].
  rewrite IH. destruct d; cbn; solve_Permutation.
Qed.

Lemma rep_other h a n t : forall p, a ∉ addrs t -> rep h p t -> rep (<[a := n]> h) p t.
Proof.
  induction t as [|b v l IHl r IHr]; intros p Ha; cbn in *; [done|]. intros (Hb & Hl & H1 & H2).
  rewrite lookup_insert_ne by set_solver. split_and!; [done|done|apply IHl|apply IHr]; set_solver.
Qed.

Lemma rep_above_other h a n z : forall x, a ∉ addrs_above z -> rep_above h z x -> rep_above (<[a := n]> h) z x.
Proof.
  induction z as [|[[[d b] v] s] z IH]; intros x Ha; cbn in *; [done|]. intros (Hb & Hl & H1 & H2).
  rewrite lookup_insert_ne by set_solver. split_and!; [done|done|apply rep_other|apply IH]; set_solver.
Qed.

Lemma lookup_plug z : forall t bits, lookup_tree (plug z t) (bits_of z ++ bits) = lookup_tree t bits.
Proof.
  induction z as [|[[[d a] v] s] z IH]; intros t bits; [done|]. unfold bits_of. cbn [map rev plug].
  rewrite <- app_assoc. unfold bits_of in IH. rewrite IH. by destruct d.
Qed.

(** Another subtree that differs at one place. *)
Lemma lookup_plug_other z k : forall t t', (forall q, q <> k -> lookup_tree t' q = lookup_tree t q) ->
  forall q, q <> bits_of z ++ k -> lookup_tree (plug z t') q = lookup_tree (plug z t) q.
Proof.
  revert k. induction z as [|[[[d a] v] s] z IH]; intros k t t' Ht q Hq; [by apply Ht|]. cbn [plug].
  apply (IH (d :: k)).
  - intros [|b q'] Hq'; destruct d; cbn; try done; destruct b; try done; apply Ht; congruence.
  - intros ->. apply Hq. unfold bits_of. cbn [map rev]. by rewrite <- app_assoc.
Qed.

Lemma lookup_plug_same z t t' : (forall q, lookup_tree t' q = lookup_tree t q) ->
  forall q, lookup_tree (plug z t') q = lookup_tree (plug z t) q.
Proof.
  revert t t'. induction z as [|[[[d a] v] s] z IH]; intros t t' Ht q; [apply Ht|]. cbn [plug].
  apply IH. intros [|[] q']; destruct d; cbn; auto.
Qed.

(** The place that the bits lead to: what is left of them, the nodes above and
    the tree there. *)
Fixpoint go_down (bits : list bool) (z : list frame) (t : tree) : list bool * list frame * tree :=
  match bits, t with
  | b :: bits', N a v l r =>
    match (if b then r else l) with
    | E => (bits, z, t)
    | t' => go_down bits' ((b, a, v, if b then l else r) :: z) t'
    end
  | _, _ => (bits, z, t)
  end.

Lemma go_down_spec bits : forall z t, t <> E ->
  let '(rest, z', t') := go_down bits z t in
  plug z' t' = plug z t /\ t' <> E /\ bits_of z' ++ rest = bits_of z ++ bits /\
  (length z' + length rest = length z + length bits)%nat /\
  match rest, t' with b :: _, N _ _ l r => (if b then r else l) = E | _, _ => True end.
Proof.
  induction bits as [|b bits IH]; intros z [|a v l r] Ht; cbn [go_down]; try done.
  destruct (if b then r else l) as [|a' v' l' r'] eqn:Ec; [done|].
  specialize (IH ((b, a, v, if b then l else r) :: z) (N a' v' l' r') ltac:(done)).
  destruct (go_down bits _ _) as [[rest z'] t']. destruct IH as (Hp & Hn & Hb & Hlen & Hr). split_and!; [|done| | |done].
  - rewrite Hp. cbn [plug fill_hole]. by destruct b; subst.
  - rewrite Hb. unfold bits_of. cbn [map rev]. by rewrite <- app_assoc.
  - cbn in *. lia.
Qed.


(** ** Depth *)

Fixpoint short (depth : nat) (t : tree) {struct t} : Prop :=
  match t with
  | E => True
  | N _ _ l r => match depth with O => False | S depth => short depth l /\ short depth r end
  end.

Lemma short_plug depth z : forall t t', (short (depth - length z) t -> short (depth - length z) t') ->
  short depth (plug z t) -> short depth (plug z t').
Proof.
  induction z as [|[[[d a] v] s] z IH]; intros t t' Ht; cbn [plug length] in *; [by rewrite Nat.sub_0_r in Ht|].
  apply IH. replace (depth - S (length z))%nat with (pred (depth - length z)) in Ht by lia.
  destruct (depth - length z)%nat as [|k]; destruct d; cbn in *; tauto.
Qed.

(** * Memory *)

(** The free nodes, chained by [right]. *)
Fixpoint free_list (h : nodes) (x : Z) (l : list Z) : Prop :=
  match l with
  | [] => x = 0
  | a :: l => x = a /\ a <> 0 /\ exists n, h !! a = Some n /\ free_list h (rn_right n) l
  end.

Definition chunks (start size : Z) : list Z :=
  map (fun i => start + node_size * Z.of_nat i) (seq 0 (Z.to_nat (size / node_size))).

(** The nodes that can still be allocated, in their order. *)
Definition available (T : ngx_radix_tree_t) (l : list Z) : Prop :=
  0 <= t_size T /\ t_size T mod node_size = 0 /\
  exists fl, free_list (t_nodes T) (t_free T) fl /\
    l = fl ++ chunks (t_start T) (t_size T) ++ concat (map (fun p => chunks p ngx_pagesize) (t_pages T)).

Lemma chunks_cons start size : node_size <= size ->
  chunks start size = start :: chunks (start + node_size) (size - node_size).
Proof.
  intros Hs. unfold chunks, node_size in *. replace (size / 32) with (1 + (size - 32) / 32).
  2:{ replace size with (1 * 32 + (size - 32)) at 2 by lia. rewrite Z.div_add_l by lia. lia. }
  rewrite Z2Nat.inj_add by (try apply Z.div_pos; lia). change (Z.to_nat 1) with 1%nat. cbn [Nat.add seq map].
  f_equal; [lia|]. rewrite <- seq_shift, map_map. apply map_ext. intros i. lia.
Qed.

Lemma chunks_small start size : 0 <= size < node_size -> chunks start size = [].
Proof. intros Hs. unfold chunks, node_size in *. by rewrite Z.div_small. Qed.

Lemma alloc_ok T l : available T l ->
  exists T', ngx_radix_alloc T = Ret (head l, T') /\ available T' (tail l) /\
    t_nodes T' = t_nodes T /\ t_root T' = t_root T.
Proof.
  intros (Hpos & Hmod & fl & Hfl & ->). unfold ngx_radix_alloc. destruct fl as [|a fl].
  - cbn [free_list] in Hfl. rewrite Hfl. cbn [negb Z.eqb app]. destruct (Z.ltb_spec (t_size T) node_size) as [Hlt|Hge].
    + rewrite chunks_small by lia. destruct (t_pages T) as [|p pages] eqn:Ep; cbn [t_size map concat app].
      * rewrite (proj2 (Z.ltb_lt _ _)) by done. eexists. split; [done|]. split; [|done].
        split; [done|]. split; [done|]. exists []. cbn. by rewrite chunks_small.
      * cbn [Z.ltb Z.compare ngx_pagesize node_size]. eexists. rewrite chunks_cons by done. split; [done|]. split; [|done].
        split; [done|]. split; [done|]. by exists [].
    + rewrite (proj2 (Z.ltb_ge _ _)) by done. rewrite chunks_cons by done. eexists. split; [done|]. split; [|done].
      unfold node_size in *. split; [cbn; lia|]. split; [|by exists []]. cbn [t_size]. unfold node_size.
      rewrite Zminus_mod, Hmod. done.
  - cbn [free_list] in Hfl. destruct Hfl as (-> & Ha & n & Hn & Hfl). rewrite (proj2 (Z.eqb_neq _ _)) by done.
    cbn [negb]. unfold node_at. rewrite Hn. cbn [outcome_bind]. eexists. split; [done|]. split; [|done].
    split; [done|]. split; [done|]. by exists fl.
Qed.

Lemma free_list_other h a n l : forall x, a ∉ l -> free_list h x l -> free_list (<[a := n]> h) x l.
Proof.
  induction l as [|b l IH]; intros x Ha; cbn; [done|]. intros (-> & Hb & m & Hm & Hl).
  split_and!; [done|done|]. exists m. rewrite lookup_insert_ne by set_solver. split; [done|]. apply IH; set_solver.
Qed.

Lemma available_store T a n l : a ∉ l -> available T l -> available (store a n T) l.
Proof.
  intros Ha (Hpos & Hmod & fl & Hfl & ->). split; [done|]. split; [done|]. exists fl. split; [|done].
  apply free_list_other; [set_solver|done].
Qed.

(** * The invariant *)

(** The memory has the tree [t] of a limited depth and the free nodes [l]. *)
Record Inv (depth : nat) (T : ngx_radix_tree_t) (t : tree) (l : list Z) : Prop := {
  inv_root : t_root T = addr t;
  inv_node : t <> E;
  inv_rep : rep (t_nodes T) 0 t;
  inv_short : short depth t;
  inv_free : available T l;
  inv_nodup : NoDup (addrs t ++ l);
  inv_zero : 0 ∉ l }.

Lemma addr_plug z : forall t t', addr t' = addr t -> addr (plug z t') = addr (plug z t).
Proof. induction z as [|[[[d a] v] s] z IH]; intros t t' E; cbn [plug]; [done|]. apply IH. by destruct d. Qed.

Lemma radix_plug_node z : forall t, t <> E -> plug z t <> E.
Proof. induction z as [|[[[d a] v] s] z IH]; intros t Ht; cbn [plug]; [done|]. apply IH. by destruct d. Qed.

Lemma rep_nonzero h t : forall p, rep h p t -> 0 ∉ addrs t.
Proof.
  induction t as [|a v l IHl r IHr]; intros p; cbn; [set_solver|]. intros (Ha & _ & Hl & Hr).
  specialize (IHl _ Hl). specialize (IHr _ Hr). set_solver.
Qed.

(** Another tree at a place, with the same address and the same memory. *)
Lemma inv_update depth T z t al T' t' al' : Inv depth T (plug z t) al ->
  t <> E -> t' <> E -> addr t' = addr t -> t_root T' = t_root T ->
  rep_above (t_nodes T') z (addr t) -> rep (t_nodes T') (top z) t' ->
  (short (depth - length z) t -> short (depth - length z) t') -> available T' al' ->
  addrs t' ++ al' ≡ₚ addrs t ++ al -> Inv depth T' (plug z t') al'.
Proof.
  intros [Hroot _ Hr Hs _ Hd H0] Ht Ht' Ha HT Hz Hr' Hs' Hf Hp.
  pose proof (rep_nonzero _ _ _ Hr) as Hnz. split.
  - rewrite HT, Hroot. by apply addr_plug.
  - by apply radix_plug_node.
  - apply rep_plug. by rewrite Ha.
  - by apply (short_plug depth z t).
  - done.
  - rewrite radix_addrs_plug in Hd. rewrite radix_addrs_plug.
    assert (Hpp : (addrs t' ++ addrs_above z) ++ al' ≡ₚ (addrs t ++ addrs_above z) ++ al); [|by rewrite Hpp].
    rewrite <- !app_assoc, (Permutation_app_comm (addrs_above z) al'), (Permutation_app_comm (addrs_above z) al), !app_assoc.
    by rewrite Hp.
  - rewrite radix_addrs_plug in Hnz. intros Hin. assert (Hin' : 0 ∈ addrs t ++ al) by (rewrite <- Hp; set_solver). set_solver.
Qed.

Section Focus.
Context (depth : nat) (T : ngx_radix_tree_t) (z : list frame) (a v : Z) (l r : tree) (al : list Z).
Context (HI : Inv depth T (plug z (N a v l r)) al).

Lemma focus_node : a <> 0 /\ node_at a T = Ret (MkRadix (addr r) (addr l) (top z) v).
Proof.
  destruct HI as [_ _ [_ Hr]%rep_plug _ _ _ _]. cbn in Hr. destruct Hr as (Ha & Hn & _). unfold node_at. by rewrite Hn.
Qed.

Lemma focus_fresh : (a ∉ addrs l) /\ (a ∉ addrs r) /\ (a ∉ addrs_above z) /\ a ∉ al.
Proof.
  destruct HI as [_ _ _ _ _ Hd _]. rewrite radix_addrs_plug in Hd. cbn in Hd. apply NoDup_cons in Hd as [Hd _]. set_solver.
Qed.

(** Another value at a node. *)
Lemma focus_value v' : Inv depth (store a (MkRadix (addr r) (addr l) (top z) v') T) (plug z (N a v' l r)) al.
Proof.
  destruct focus_fresh as (H1 & H2 & H3 & H4). pose proof HI as [_ _ [Hz Hr]%rep_plug _ Hf _ _].
  cbn in Hr. destruct Hr as (Ha & _ & Hl & Hr).
  apply (inv_update depth T z (N a v l r) al); try done.
  - by apply rep_above_other.
  - cbn. rewrite lookup_insert_eq. split_and!; [done|done|by apply rep_other|by apply rep_other].
  - by apply available_store.
Qed.

(** A step down. *)
Lemma focus_child d : exists n, node_at a T = Ret n /\ child d n = addr (if d : bool then r else l) /\
  (addr (if d then r else l) =? 0) = match (if d then r else l) with E => true | _ => false end /\
  Inv depth T (plug ((d, a, v, if d then l else r) :: z) (if d then r else l)) al.
Proof.
  destruct focus_node as [Ha Hn]. rewrite Hn. eexists. split; [done|]. split; [by destruct d|].
  split; [|by destruct d]. destruct HI as [_ _ [_ Hr]%rep_plug _ _ _ _]. cbn in Hr. destruct Hr as (_ & _ & Hl & Hr).
  destruct d; [destruct r as [|a' ? ? ?]|destruct l as [|a' ? ? ?]]; try done; apply Z.eqb_neq; [apply Hr|apply Hl].
Qed.

(** A new leaf below a node. *)
Lemma focus_grow b x T1 : (if b : bool then r else l) = E -> head al = Some x ->
  t_nodes T1 = t_nodes T -> t_root T1 = t_root T -> available T1 (tail al) -> (length z + 1 < depth)%nat ->
  Inv depth (store a (set_child b x (MkRadix (addr r) (addr l) (top z) v))
              (store x (MkRadix 0 0 a NGX_RADIX_NO_VALUE) T1))
    (plug ((b, a, v, if b then l else r) :: z) (N x NGX_RADIX_NO_VALUE E E)) (tail al).
Proof.
  intros Hb Hx Hn1 Hr1 Hf Hlen. destruct focus_fresh as (H1 & H2 & H3 & H4).
  destruct al as [|x' al']; cbn in Hx, Hf; [done|]. injection Hx as ->. pose proof HI as [_ _ [Hz Hr]%rep_plug _ _ Hd H0].
  cbn in Hr. destruct Hr as (Ha & _ & Hl & Hr). rewrite radix_addrs_plug in Hd.
  assert (Hfresh : (x ∉ addrs l) /\ (x ∉ addrs r) /\ (x ∉ addrs_above z) /\ x ∉ al').
  { cbn in Hd. rewrite <- Permutation_middle in Hd. apply NoDup_cons in Hd as [_ [Hd _]%NoDup_cons]. revert Hd. clear. set_solver. }
  destruct Hfresh as (X1 & X2 & X3 & X4). cbn [plug].
  apply (inv_update depth T z (N a v l r) (x :: al')); try done; try (by destruct b).
  - cbn. rewrite Hn1. apply rep_above_other; [done|]. by apply rep_above_other.
  - cbn [t_nodes store set_nodes]. rewrite Hn1.
    assert (Hsib : rep (<[a:=set_child b x (MkRadix (addr r) (addr l) (top z) v)]> (<[x:=MkRadix 0 0 a NGX_RADIX_NO_VALUE]> (t_nodes T)))
      a (if b then l else r)).
    { destruct b; (apply rep_other; [done|]); by apply rep_other. }
    assert (Hxa : x <> a) by (intros ->; apply H4; by left). assert (Hx0 : x <> 0) by (intros ->; apply H0; by left).
    destruct b; subst; cbn; rewrite lookup_insert_eq, lookup_insert_ne, lookup_insert_eq by done; split_and!; try done.
  - destruct (depth - length z)%nat as [|[|k]] eqn:Ek; [lia|lia|]. destruct b; cbn; tauto.
  - apply available_store; [|by apply available_store]. intros Hin. apply H4. by right.
  - cbn [tail]. destruct b; subst; cbn; rewrite ?app_nil_r; solve_Permutation.
Qed.

End Focus.

(** * The loops *)

Section Bits.
Context {C : Type} (cond dir : C -> outcome bool) (adv : C -> option C).

(** The bits that the loops see from a place of a key and a mask. *)
Inductive spells : C -> list bool -> Prop :=
| SpEnd c : cond c = Ret false -> spells c []
| SpLast c d : cond c = Ret true -> dir c = Ret d -> adv c = None -> spells c [d]
| SpMore c c' d bits : cond c = Ret true -> dir c = Ret d -> adv c = Some c' -> spells c' bits -> spells c (d :: bits).

Lemma descend_ok depth c bits : spells c bits -> forall fuel T z t al,
  Inv depth T (plug z t) al -> t <> E -> (length bits < fuel)%nat ->
  let '(rest, z', t') := go_down bits z t in
  exists c', descend cond dir adv fuel c (addr t) (addr t) T =
    Ret (c', addr t', match rest with [] => addr t' | _ => 0 end) /\ (rest <> [] -> spells c' rest).
Proof.
  induction 1 as [c Hc|c d Hc Hd Ha|c c' d bits Hc Hd Ha Hs IH]; intros fuel T z [|a v l r] al HI Ht Hf; try done;
    (destruct fuel as [|fuel]; [cbn in Hf; lia|]); cbn [descend go_down]; rewrite Hc; cbn [outcome_bind negb].
  { by exists c. }
  all: rewrite Hd; destruct (focus_child _ _ _ _ _ _ _ _ HI d) as (n & Hn & Hch & Hz & HI');
    cbn [outcome_bind addr]; rewrite Hn; cbn [outcome_bind]; rewrite Hch, Hz, Ha;
    destruct (if d then r else l) as [|a' v' l' r'].
  - exists c. split; [done|]. intros _. by apply SpLast.
  - by exists c.
  - exists c. split; [done|]. intros _. by eapply SpMore.
  - apply IH with (1 := HI'); [done|cbn in Hf; lia].
Qed.

(** The chain of new nodes has no values. *)
Lemma grow_ok depth c bits : spells c bits -> forall fuel T z a v l r al,
  Inv depth T (plug z (N a v l r)) al -> match bits with b :: _ => (if b : bool then r else l) = E | [] => True end ->
  (length bits < fuel)%nat -> (length z + length bits < depth)%nat ->
  exists p T' t' al', grow cond dir adv fuel c a T = Ret (p, T') /\ Inv depth T' t' al' /\
    (forall q, lookup_tree t' q = lookup_tree (plug z (N a v l r)) q) /\ (length al <= length al' + length bits)%nat /\
    match p with
    | None => (length al < length bits)%nat
    | Some x => exists z' v' l' r', t' = plug z' (N x v' l' r') /\ bits_of z' = bits_of z ++ bits
    end.
Proof.
  intros Hs. induction Hs as [c Hc|c d Hc Hd Ha|c c' d bits Hc Hd Ha Hs IH]; intros fuel T z a v l r al HI Hb Hf Hlen;
    (destruct fuel as [|fuel]; [cbn in Hf; lia|]); cbn [grow]; rewrite Hc; cbn [outcome_bind negb].
  { do 4 eexists. split; [done|]. split; [exact HI|]. split_and!; [done|cbn; lia|]. do 4 eexists. split; [done|]. by rewrite app_nil_r. }
  all: destruct (alloc_ok T al (inv_free _ _ _ _ HI)) as (T1 & E1 & Hf1 & Hn1 & Hr1); rewrite E1; cbn [outcome_bind];
    destruct (head al) as [x|] eqn:Ex;
    [|destruct al; [|done]; do 4 eexists; split; [done|]; split; [|by split_and!; [|cbn; lia..]];
      destruct HI as [H1 H2 H3 H4 H5 H6 H7]; split; try done; congruence].
  all: rewrite Hd, Ha; cbn [outcome_bind];
    pose proof (focus_grow _ _ _ _ _ _ _ _ HI d x T1 Hb Ex Hn1 Hr1 Hf1 ltac:(cbn in Hlen; lia)) as HI1;
    destruct (focus_node _ _ _ _ _ _ _ _ HI) as [Ha0 Hn];
    assert (Hxa : x <> a) by (destruct (focus_fresh _ _ _ _ _ _ _ _ HI) as (_ & _ & _ & Hal); intros ->; destruct al; [done|];
      cbn in Ex; injection Ex as ->; apply Hal; by left);
    assert (Hn' : node_at a (store x (MkRadix 0 0 a NGX_RADIX_NO_VALUE) T1) = node_at a T)
      by (unfold node_at, store; cbn [t_nodes set_nodes]; by rewrite lookup_insert_ne, Hn1 by done);
    rewrite Hn', Hn; cbn [outcome_bind];
    assert (Hlk : forall q, lookup_tree (plug ((d, a, v, if d then l else r) :: z) (N x NGX_RADIX_NO_VALUE E E)) q =
      lookup_tree (plug z (N a v l r)) q)
      by (intros q; cbn [plug]; apply lookup_plug_same; clear q; intros [|b q]; destruct d; try done; cbn [fill_hole lookup_tree];
          destruct b; try done; rewrite Hb; by destruct q as [|[] [|[] ?]]);
    assert (Hal : length al = S (length (tail al))) by (destruct al; [done|reflexivity]).
  - do 4 eexists. split; [done|]. split; [exact HI1|]. split_and!; [done|cbn; lia|].
    do 4 eexists. split; [done|]. unfold bits_of. cbn. done.
  - destruct (IH fuel _ _ _ _ _ _ _ HI1) as (p & T' & t' & al' & E' & HI' & Hlk' & Hal' & Hp).
    { by destruct bits as [|[] ?]. } { cbn in Hf. lia. } { cbn in Hlen |- *. lia. }
    exists p, T', t', al'. split; [exact E'|]. split; [done|]. split; [intros q; by rewrite Hlk', Hlk|].
    split; [cbn; lia|]. destruct p as [y|]; [|cbn; lia]. destruct Hp as (z' & v' & l' & r' & -> & Hz').
    exists z', v', l', r'. split; [done|]. rewrite Hz'. unfold bits_of. cbn. by rewrite <- app_assoc.
Qed.

(** A value at a place is the value of its bits, and of no others. *)
Lemma lookup_focus z a v l r v' bits : bits_of z = bits ->
  lookup_tree (plug z (N a v' l r)) bits = value_of v' /\
  forall q, q <> bits -> lookup_tree (plug z (N a v' l r)) q = lookup_tree (plug z (N a v l r)) q.
Proof.
  intros <-. split.
  - rewrite <- (app_nil_r (bits_of z)). by rewrite lookup_plug.
  - intros q Hq. apply lookup_plug_other with (k := []); [|by rewrite app_nil_r]. by intros [|b k] Hk.
Qed.

Lemma insert_ok depth c bits fuel T t al value : spells c bits -> Inv depth T t al ->
  (length bits < fuel)%nat -> (length bits < depth)%nat ->
  exists rc T' t' al', radix_insert cond dir adv fuel c value T = Ret (rc, T') /\ Inv depth T' t' al' /\
    (length al <= length al' + length bits)%nat /\
    match lookup_tree t bits with
    | Some _ => rc = NGX_BUSY /\ forall q, lookup_tree t' q = lookup_tree t q
    | None =>
      (rc = NGX_OK /\ lookup_tree t' bits = value_of value /\
        forall q, q <> bits -> lookup_tree t' q = lookup_tree t q) \/
      (rc = NGX_ERROR /\ (length al < length bits)%nat /\ forall q, lookup_tree t' q = lookup_tree t q)
    end.
Proof.
  intros Hs HI Hf Hd. unfold radix_insert. rewrite (inv_root _ _ _ _ HI). pose proof (inv_node _ _ _ _ HI) as Ht.
  pose proof (descend_ok depth c bits Hs fuel T [] t al HI Ht Hf) as Hdesc.
  pose proof (go_down_spec bits [] t Ht) as Hgo. destruct (go_down bits [] t) as [[rest z] t'].
  destruct Hgo as (Hp & Ht' & Hbits & Hlen & Hrest). destruct Hdesc as (c' & -> & Hs'). cbn [outcome_bind].
  cbn in Hp, Hbits, Hlen. destruct t' as [|a v l r]; [done|]. rewrite <- Hp in HI |- *.
  destruct (focus_node _ _ _ _ _ _ _ _ HI) as [Ha Hn]. destruct rest as [|b rest].
  - rewrite app_nil_r in Hbits. destruct (lookup_focus z a v l r v bits Hbits) as [Hv _]. rewrite Hv. cbn [addr].
    rewrite (proj2 (Z.eqb_neq _ _) Ha), Hn. cbn [negb outcome_bind rn_value]. unfold value_of.
    destruct (Z.eqb_spec v NGX_RADIX_NO_VALUE) as [->|Hv'].
    + do 4 eexists. split; [done|]. split; [exact (focus_value _ _ _ _ _ _ _ _ HI value)|]. split; [lia|]. left. split; [done|].
      exact (lookup_focus z a _ l r value bits Hbits).
    + do 4 eexists. split; [done|]. split; [exact HI|]. split; [lia|]. done.
  - cbn [negb Z.eqb outcome_bind]. cbn [length] in Hlen.
    assert (Hnone : lookup_tree (plug z (N a v l r)) bits = None).
    { rewrite <- Hbits, lookup_plug. cbn [lookup_tree]. by rewrite Hrest. }
    rewrite Hnone. destruct (grow_ok depth c' (b :: rest) (Hs' ltac:(done)) fuel T z a v l r al HI Hrest)
      as (p & T' & t' & al' & E' & HI' & Hlk & Hal & Hp'). { cbn. lia. } { cbn. lia. }
    cbn [addr]. rewrite E'. cbn [outcome_bind]. cbn [length] in Hal. destruct p as [x|].
    + destruct Hp' as (z' & v' & l' & r' & -> & Hz'). rewrite Hbits in Hz'.
      destruct (focus_node _ _ _ _ _ _ _ _ HI') as [Hx Hnx]. rewrite Hnx. cbn [outcome_bind set_value rn_right rn_left rn_parent].
      do 4 eexists. split; [done|]. split; [exact (focus_value _ _ _ _ _ _ _ _ HI' value)|]. split; [lia|]. left. split; [done|].
      destruct (lookup_focus z' x v' l' r' value bits Hz') as [-> Hq]. split; [done|]. intros q Hne. by rewrite Hq, Hlk.
    + do 4 eexists. split; [done|]. split; [exact HI'|]. split; [lia|]. right. split; [done|]. split; [cbn in Hp'; lia|done].
Qed.

(** ** Deletion *)

Lemma seek_ok depth c bits : spells c bits -> forall fuel T z t al,
  Inv depth T (plug z t) al -> (length bits + 1 < fuel)%nat ->
  exists z' t', seek cond dir adv fuel c (addr t) T = Ret (addr t') /\
    (t' = E -> lookup_tree t bits = None) /\
    (t' <> E -> plug z' t' = plug z t /\ bits_of z' = bits_of z ++ bits).
Proof.
  intros Hs. induction Hs as [c Hc|c d Hc Hd Ha|c c' d bits Hc Hd Ha Hs IH]; intros fuel T z [|a v l r] al HI Hf;
    (destruct fuel as [|fuel]; [cbn in Hf; lia|]); cbn [seek addr].
  1, 3, 5: by exists z, E.
  all: destruct (focus_node _ _ _ _ _ _ _ _ HI) as [Ha0 _]; rewrite (proj2 (Z.eqb_neq _ _) Ha0), Hc; cbn [outcome_bind negb].
  { exists z, (N a v l r). by rewrite app_nil_r. }
  all: rewrite Hd; destruct (focus_child _ _ _ _ _ _ _ _ HI d) as (n & Hn & Hch & Hz & HI');
    cbn [outcome_bind addr]; rewrite Hn; cbn [outcome_bind]; rewrite Hch, Ha.
  - exists ((d, a, v, if d then l else r) :: z), (if d then r else l). split; [done|]. split; [intros Hx; cbn [lookup_tree]; by rewrite Hx|].
    intros _. split; [by destruct d|done].
  - destruct (IH fuel T _ _ al HI' ltac:(cbn in Hf; lia)) as (z' & t' & E' & Hnone & Hsome).
    exists z', t'. split; [done|]. split; [done|]. intros Ht. destruct (Hsome Ht) as [-> ->]. split; [by destruct d|].
    unfold bits_of. cbn. by rewrite <- app_assoc.
Qed.

End Bits.

(** A leaf taken out. *)
Lemma prune_step depth T d p w s z a v al : Inv depth T (plug ((d, p, w, s) :: z) (N a v E E)) al ->
  node_at a T = Ret (MkRadix 0 0 p v) /\
  exists n, node_at p T = Ret n /\ (rn_right n =? a) = d /\
    let T1 := store p (set_child d 0 n) T in
    node_at a T1 = Ret (MkRadix 0 0 p v) /\
    let T2 := set_free a (store a (MkRadix (t_free T1) 0 p v) T1) in
    Inv depth T2 (plug z (fill_hole (d, p, w, s) E)) (a :: al).
Proof.
  intros HI. destruct (focus_node _ _ _ _ _ _ _ _ HI) as [Ha Hn]. split; [done|].
  pose proof HI as [_ _ [Hz _]%rep_plug _ Hf Hd H0]. rewrite radix_addrs_plug in Hd. cbn [addrs_above addrs app] in Hd.
  cbn in Hz. destruct Hz as (Hp & Hnp & Hs & Hz).
  apply NoDup_cons in Hd as [Had Hd]. cbn in Hd. apply NoDup_cons in Hd as [Hpd _].
  assert (A : a <> p /\ (a ∉ addrs s) /\ (a ∉ addrs_above z) /\ a ∉ al) by (revert Had; clear; set_solver).
  assert (P : (p ∉ addrs s) /\ (p ∉ addrs_above z) /\ p ∉ al) by (revert Hpd; clear; set_solver).
  destruct A as (Hap & A1 & A2 & A3), P as (P1 & P2 & P3).
  eexists. unfold node_at at 1. rewrite Hnp. split; [done|]. split.
  { destruct d; cbn; [apply Z.eqb_refl|]. apply Z.eqb_neq. destruct s as [|b ? ? ?]; cbn in *; [done|]. set_solver. }
  cbn zeta. split.
  { unfold node_at, store. cbn [t_nodes set_nodes]. rewrite lookup_insert_ne by done. exact Hn. }
  apply (inv_update depth T z (fill_hole (d, p, w, s) (N a v E E)) al); try done; try (by destruct d).
  - cbn [t_nodes set_free store set_nodes]. replace (addr (fill_hole (d, p, w, s) (N a v E E))) with p by (by destruct d).
    apply rep_above_other; [done|]. by apply rep_above_other.
  - cbn [t_nodes set_free store set_nodes].
    assert (Hsib : forall m, rep (<[a := m]> (<[p := set_child d 0 (MkRadix (if d then a else addr s) (if d then addr s else a) (top z) w)]>
      (t_nodes T))) p s) by (intros m; apply rep_other; [done|]; by apply rep_other).
    destruct d; cbn; rewrite lookup_insert_ne, lookup_insert_eq by done; split_and!; try done; apply Hsib.
  - destruct (depth - length z)%nat; destruct d; cbn; tauto.
  - destruct Hf as (Hsz & Hmod & fl & Hfl & ->). split; [done|]. split; [done|]. exists (a :: fl). split; [|done].
    cbn [free_list t_free t_nodes set_free store set_nodes]. split_and!; [done|done|]. rewrite lookup_insert_eq. eexists.
    split; [done|]. cbn. apply free_list_other; [set_solver|]. apply free_list_other; [set_solver|done].
  - destruct d; cbn; rewrite ?app_nil_r; solve_Permutation.
Qed.

Lemma fill_empty (d : bool) p w s : exists l r, fill_hole (d, p, w, s) E = N p w l r.
Proof. destruct d; eauto. Qed.

Lemma empty_leaf p q : lookup_tree (N p NGX_RADIX_NO_VALUE E E) q = lookup_tree E q.
Proof. by destruct q as [|[] [|? ?]]. Qed.

Lemma prune_ok depth z : forall d p w s fuel T a v al, (length z < fuel)%nat ->
  Inv depth T (plug ((d, p, w, s) :: z) (N a v E E)) al ->
  exists T' t' al', prune fuel a T = Ret T' /\ Inv depth T' t' al' /\ (length al <= length al')%nat /\
    forall q, lookup_tree t' q = lookup_tree (plug ((d, p, w, s) :: z) E) q.
Proof.
  induction z as [|[[[d' p'] w'] s'] z IH]; intros d p w s fuel T a v al Hf HI;
    (destruct fuel as [|fuel]; [cbn in Hf; lia|]); cbn [prune];
    destruct (prune_step _ _ _ _ _ _ _ _ _ _ HI) as (Hn & n & Hnp & Hd & Hn1 & HI'); rewrite Hn; cbn [outcome_bind rn_parent];
    rewrite Hnp; cbn [outcome_bind]; rewrite Hd, Hn1; cbn [outcome_bind set_child rn_left rn_parent rn_value];
    cbn zeta in HI'; cbn [plug]; destruct (fill_empty d p w s) as (l & r & El); rewrite El in HI' |- *;
    destruct (focus_node _ _ _ _ _ _ _ _ HI') as [Hp Hnp']; rewrite Hnp'; cbn [outcome_bind rn_right rn_left rn_value rn_parent top].
  - exists (set_free a (store a (MkRadix (t_free (store p (set_child d 0 n) T)) 0 p v) (store p (set_child d 0 n) T))),
      (N p w l r), (a :: al).
    split; [destruct (_ || _), (w =? NGX_RADIX_NO_VALUE); done|]. split; [done|]. split; [cbn; lia|done].
  - destruct (focus_child _ _ _ _ _ _ _ _ HI' true) as (_ & _ & _ & Zr & _).
    destruct (focus_child _ _ _ _ _ _ _ _ HI' false) as (_ & _ & _ & Zl & _). cbn iota in Zr, Zl. rewrite Zr, Zl.
    assert (Hp' : p' <> 0) by (destruct HI' as [_ _ [Hz _]%rep_plug _ _ _ _]; apply Hz). rewrite (proj2 (Z.eqb_neq _ _) Hp').
    destruct l as [|la lv ll lr]; [destruct r as [|ra rv rl rr]; [destruct (Z.eqb_spec w NGX_RADIX_NO_VALUE) as [->|Hw]|]|].
    + cbn [negb orb]. destruct (IH d' p' w' s' fuel _ p _ _ ltac:(cbn in Hf |- *; lia) HI') as (T' & t' & al' & E' & HI2 & Hal & Hq).
      exists T', t', al'. split; [exact E'|]. split; [done|]. split; [cbn in Hal; lia|]. intros q. rewrite Hq.
      cbn [plug]. symmetry. apply (lookup_plug_same ((d', p', w', s') :: z)). intros k. apply empty_leaf.
    + cbn [negb orb]. do 3 eexists. split; [done|]. split; [exact HI'|]. split; [cbn; lia|done].
    + cbn [negb orb]. do 3 eexists. split; [done|]. split; [exact HI'|]. split; [cbn; lia|done].
    + rewrite orb_true_r. do 3 eexists. split; [done|]. split; [exact HI'|]. split; [cbn; lia|done].
Qed.

Lemma delete_ok {C} (cond dir : C -> outcome bool) adv depth c bits fuel T t al :
  spells cond dir adv c bits -> bits <> [] -> Inv depth T t al -> (length bits + 1 < fuel)%nat ->
  exists rc T' t' al', radix_delete cond dir adv fuel c T = Ret (rc, T') /\ Inv depth T' t' al' /\
    (length al <= length al')%nat /\ lookup_tree t' bits = None /\
    (forall q, q <> bits -> lookup_tree t' q = lookup_tree t q) /\
    (rc = NGX_OK \/ rc = NGX_ERROR /\ lookup_tree t bits = None).
Proof.
  intros Hs Hb HI Hf. unfold radix_delete. rewrite (inv_root _ _ _ _ HI).
  destruct (seek_ok cond dir adv depth c bits Hs fuel T [] t al HI Hf) as (z & t0 & -> & Hnone & Hsome). cbn [outcome_bind].
  destruct t0 as [|a v l r].
  { cbn [addr Z.eqb]. specialize (Hnone eq_refl). do 4 eexists. split; [done|]. split; [exact HI|]. split_and!; [done|done|done|by right]. }
  destruct (Hsome ltac:(done)) as [Hp Hz]. cbn in Hp, Hz. subst t. cbn [addr].
  destruct (focus_node _ _ _ _ _ _ _ _ HI) as [Ha Hn]. rewrite (proj2 (Z.eqb_neq _ _) Ha), Hn.
  cbn [outcome_bind rn_right rn_left rn_value]. destruct (lookup_focus z a v l r v bits Hz) as [Hv _].
  destruct (focus_child _ _ _ _ _ _ _ _ HI true) as (_ & _ & _ & Zr & _).
  destruct (focus_child _ _ _ _ _ _ _ _ HI false) as (_ & _ & _ & Zl & _). cbn iota in Zr, Zl. rewrite Zr, Zl.
  assert (Hval : exists rc T', (if negb (v =? NGX_RADIX_NO_VALUE)
      then Ret (NGX_OK, store a (set_value NGX_RADIX_NO_VALUE (MkRadix (addr r) (addr l) (top z) v)) T)
      else Ret (NGX_ERROR, T)) = Ret (rc, T') /\ Inv depth T' (plug z (N a NGX_RADIX_NO_VALUE l r)) al /\
      (rc = NGX_OK \/ rc = NGX_ERROR /\ value_of v = None)).
  { unfold value_of. destruct (Z.eqb_spec v NGX_RADIX_NO_VALUE) as [->|Hne]; cbn [negb]; do 2 eexists; (split; [done|]).
    - split; [exact HI|by right].
    - split; [exact (focus_value _ _ _ _ _ _ _ _ HI _)|by left]. }
  destruct Hval as (rc & T' & E' & HI' & Hrc). destruct (lookup_focus z a v l r NGX_RADIX_NO_VALUE bits Hz) as [Hno Hq].
  destruct l as [|la lv ll lr]; [destruct r as [|ra rv rl rr]|].
  2, 3: rewrite ?orb_true_r; cbn [negb orb]; rewrite E'; do 4 eexists; (split; [done|]);
    (split; [exact HI'|]); (split; [lia|]); (split; [exact Hno|]); (split; [exact Hq|]); by rewrite Hv.
  cbn [negb orb]. destruct z as [|[[[d p] w] s] z]; [by cbn in Hz|].
  assert (Hlen : (length z < fuel)%nat) by (rewrite <- Hz in Hf; unfold bits_of in Hf; rewrite length_rev, length_map in Hf; cbn in Hf; lia).
  destruct (prune_ok depth z d p w s fuel T a v al Hlen HI) as (T2 & t2 & al2 & -> & HI2 & Hal & Hlk). cbn [outcome_bind].
  assert (Hsame : forall q, lookup_tree t2 q = lookup_tree (plug ((d, p, w, s) :: z) (N a NGX_RADIX_NO_VALUE E E)) q).
  { intros q. rewrite Hlk. apply lookup_plug_same. intros k. symmetry. apply empty_leaf. }
  exists NGX_OK, T2, t2, al2. split; [done|]. split; [done|]. split; [done|]. split; [by rewrite Hsame|].
  split; [|by left]. intros q Hne. rewrite Hsame. by apply Hq.
Qed.

End RadixTreeRun.
