(* ===== verification/NgxRadixTreeMap.v ===== *)
(** The radix tree as a map of prefixes: every sequence of insertions, deletions
    and searches on a new tree gives what the map gives. *)

From S2P Require Import Prelude NgxRadixTree NgxRadixTreeRun.

Module RadixTreeMap.

Import RadixTree RadixTreeRun.

(** * The specification *)

(** The bits of a word, the highest first. *)
Fixpoint word_bits (n : nat) (w : Z) : list bool :=
  match n with O => [] | S n => Z.testbit w (Z.of_nat n) :: word_bits n w end.

(** The bits of a key that its mask has in front. *)
Fixpoint prefix_bits (mask key : list bool) : list bool :=
  match mask, key with true :: mask, b :: key => b :: prefix_bits mask key | _, _ => [] end.

Definition bytes_bits (bytes : list Z) : list bool := concat (map (word_bits 8) bytes).

Definition bits32 (key mask : Z) : list bool := prefix_bits (word_bits 32 mask) (word_bits 32 key).
Definition bits128 (key mask : list Z) : list bool := prefix_bits (bytes_bits mask) (bytes_bits key).

Abbreviation prefixes := (gmap (list bool) Z).

(** The value of the longest prefix of a key. *)
Definition longest_match (m : prefixes) (key : list bool) (v : Z) : Prop :=
  (exists p, p `prefix_of` key /\ m !! p = Some v /\
     forall q, q `prefix_of` key -> m !! q <> None -> (length q <= length p)%nat) \/
  (v = NGX_RADIX_NO_VALUE /\ forall q, q `prefix_of` key -> m !! q = None).

Inductive op (K : Type) := Insert (key mask : K) (value : Z) | Delete (key mask : K) | Find (key : K).

Arguments Insert {K} key mask value.
Arguments Delete {K} key mask.
Arguments Find {K} key.

Section Spec.
Context {K : Type} (bits : K -> K -> list bool) (key_bits : K -> list bool).

Definition spec_step (m : prefixes) (o : op K) (rc : Z) (m' : prefixes) : Prop :=
  match o with
  | Insert key mask value =>
    match m !! bits key mask with
    | Some _ => rc = NGX_BUSY /\ m' = m
    | None => rc = NGX_OK /\ m' = <[bits key mask := value]> m
    end
  | Delete key mask =>
    m' = delete (bits key mask) m /\ (rc = NGX_OK \/ rc = NGX_ERROR /\ m !! bits key mask = None)
  | Find key => m' = m /\ longest_match m (key_bits key) rc
  end.

Fixpoint spec_run (m : prefixes) (ops : list (op K)) (rcs : list Z) : Prop :=
  match ops, rcs with
  | [], [] => True
  | o :: ops, rc :: rcs => exists m', spec_step m o rc m' /\ spec_run m' ops rcs
  | _, _ => False
  end.

(** Values are not the mark of an empty node; the empty prefix is not deleted. *)
Definition op_ok (o : op K) : Prop :=
  match o with
  | Insert _ _ value => value <> NGX_RADIX_NO_VALUE
  | Delete key mask => bits key mask <> []
  | Find _ => True
  end.

(** The nodes that an operation can need. *)
Definition cost (o : op K) : nat := match o with Insert key mask _ => length (bits key mask) | _ => 0 end.

End Spec.

(** * Runs of the code *)

Definition exec32 (o : op Z) (T : ngx_radix_tree_t) : outcome (Z * ngx_radix_tree_t) :=
  match o with
  | Insert key mask value => ngx_radix32tree_insert key mask value T
  | Delete key mask => ngx_radix32tree_delete key mask T
  | Find key => let! v := ngx_radix32tree_find key T in Ret (v, T)
  end.

Definition exec128 (o : op (list Z)) (T : ngx_radix_tree_t) : outcome (Z * ngx_radix_tree_t) :=
  match o with
  | Insert key mask value => ngx_radix128tree_insert key mask value T
  | Delete key mask => ngx_radix128tree_delete key mask T
  | Find key => let! v := ngx_radix128tree_find key T in Ret (v, T)
  end.

Fixpoint run_ops {K} (exec : op K -> ngx_radix_tree_t -> outcome (Z * ngx_radix_tree_t)) (ops : list (op K))
    (T : ngx_radix_tree_t) : outcome (list Z * ngx_radix_tree_t) :=
  match ops with
  | [] => Ret ([], T)
  | o :: ops =>
    let! (rc, T) := exec o T in
    let! (rcs, T) := run_ops exec ops T in Ret (rc :: rcs, T)
  end.

(** * The bits of the cursors *)

Lemma bit_test w n : 0 <= n -> negb (Z.land w (2 ^ n) =? 0) = Z.testbit w n.
Proof.
  intros Hn. destruct (Z.testbit w n) eqn:E.
  - apply negb_true_iff, Z.eqb_neq. intros H. assert (Z.testbit (Z.land w (2 ^ n)) n = false) by (by rewrite H, Z.bits_0).
    rewrite Z.land_spec, E, Z.pow2_bits_true in * by done. done.
  - apply negb_false_iff, Z.eqb_eq. apply Z.bits_inj'. intros k Hk. rewrite Z.land_spec, Z.bits_0.
    destruct (decide (k = n)) as [->|Hne]; [by rewrite E|]. by rewrite Z.pow2_bits_false, andb_false_r by done.
Qed.

Lemma half_pow n : half (2 ^ Z.of_nat (S n)) = 2 ^ Z.of_nat n.
Proof.
  unfold half. rewrite Z.shiftr_div_pow2, Nat2Z.inj_succ, Z.pow_succ_r, Z.mul_comm by lia. by apply Z.div_mul.
Qed.

(** The cursor with [n] bits left. *)
Definition cursor32 (n : nat) : Z := match n with O => 0 | S n => 2 ^ Z.of_nat n end.

Lemma half_cursor n : half (cursor32 (S n)) = cursor32 n.
Proof. destruct n as [|n]; [done|]. apply half_pow. Qed.

Lemma spells32 key mask n :
  spells (bit32 mask) (bit32 key) (fun bit => Some (half bit)) (cursor32 n) (prefix_bits (word_bits n mask) (word_bits n key)).
Proof.
  induction n as [|n IH]; cbn [word_bits prefix_bits].
  - apply SpEnd. unfold bit32. cbn. by rewrite Z.land_0_r.
  - destruct (Z.testbit mask (Z.of_nat n)) eqn:Em.
    + eapply SpMore; [| | |exact IH].
      * unfold bit32. cbn [cursor32]. by rewrite bit_test, Em by lia.
      * unfold bit32. cbn [cursor32]. by rewrite bit_test by lia.
      * f_equal. apply half_cursor.
    + apply SpEnd. unfold bit32. cbn [cursor32]. by rewrite bit_test, Em by lia.
Qed.

Lemma bit128_at bytes i n b : bytes !! i = Some b -> bit128 bytes (i, 2 ^ Z.of_nat n) = Ret (Z.testbit b (Z.of_nat n)).
Proof. intros E. unfold bit128. cbn [fst snd]. by rewrite E, bit_test by lia. Qed.

Lemma half_nonzero n : (half (2 ^ Z.of_nat (S n)) =? 0) = false.
Proof. rewrite half_pow. apply Z.eqb_neq. lia. Qed.

(** From the bit [n] of the byte [i] on. *)
Lemma spells128 key mask : length key = 16%nat -> length mask = 16%nat -> forall j i n k m, (i + j = 15)%nat ->
  key !! i = Some k -> mask !! i = Some m ->
  spells (bit128 mask) (bit128 key) adv128 (i, 2 ^ Z.of_nat n)
    (prefix_bits (word_bits (S n) m ++ bytes_bits (drop (S i) mask)) (word_bits (S n) k ++ bytes_bits (drop (S i) key))).
Proof.
  intros Hk Hm. induction j as [|j IHj]; intros i n; induction n as [|n IHn]; intros k m Hi Ek Em.
  all: cbn [word_bits app prefix_bits]; destruct (Z.testbit m _) eqn:Et;
    [|apply SpEnd; rewrite (bit128_at _ _ _ _ Em); by f_equal].
  - rewrite !drop_ge by lia. apply SpLast; [by rewrite (bit128_at _ _ _ _ Em), Et|by apply bit128_at|].
    unfold adv128. cbn [fst snd]. replace i with 15%nat by lia. done.
  - eapply SpMore; [by rewrite (bit128_at _ _ _ _ Em), Et|by apply bit128_at| |by apply (IHn k m)].
    unfold adv128. cbn [fst snd]. by rewrite half_nonzero, half_pow.
  - destruct (lookup_lt_is_Some_2 key (S i) ltac:(lia)) as [k' Ek'].
    destruct (lookup_lt_is_Some_2 mask (S i) ltac:(lia)) as [m' Em'].
    rewrite (drop_S _ _ _ Ek'), (drop_S _ _ _ Em'). cbn [bytes_bits map concat].
    eapply SpMore; [by rewrite (bit128_at _ _ _ _ Em), Et|by apply bit128_at| |apply (IHj (S i) 7%nat k' m'); [lia|done|done]].
    unfold adv128. cbn [fst snd]. rewrite (proj2 (Nat.eqb_neq (S i) 16)) by lia. done.
  - eapply SpMore; [by rewrite (bit128_at _ _ _ _ Em), Et|by apply bit128_at| |by apply (IHn k m)].
    unfold adv128. cbn [fst snd]. by rewrite half_nonzero, half_pow.
Qed.

(** * The search *)

Section Search.
Context {C : Type} (dir : C -> outcome bool) (next : C -> C).

(** The bits that the search reads. *)
Fixpoint reads (c : C) (bits : list bool) : Prop :=
  match bits with [] => True | b :: bits => dir c = Ret b /\ reads (next c) bits end.

Fixpoint best (t : tree) (bits : list bool) (v : Z) : Z :=
  match t, bits with
  | N _ v' l r, b :: bits => best (if b : bool then r else l) bits (if v' =? NGX_RADIX_NO_VALUE then v else v')
  | _, _ => v
  end.

Lemma radix_find_ok depth T al bits : forall c z t fuel v, Inv depth T (plug z t) al -> short (length bits) t -> reads c bits ->
  (length bits < fuel)%nat -> radix_find dir next fuel c (addr t) v T = Ret (best t bits v).
Proof.
  induction bits as [|b bits IH]; intros c z [|a v' l r] fuel v HI Hs Hr Hf; try done;
    (destruct fuel as [|fuel]; [cbn in Hf; lia|]); cbn [radix_find]; try done.
  destruct (focus_node _ _ _ _ _ _ _ _ HI) as [Ha Hn]. destruct (focus_child _ _ _ _ _ _ _ _ HI b) as (n & Hn' & Hc & _ & HI').
  cbn [addr]. rewrite (proj2 (Z.eqb_neq _ _) Ha), Hn'. rewrite Hn in Hn'. injection Hn' as <-.
  destruct Hr as [Hd Hr]. cbn [outcome_bind]. rewrite Hd. cbn [outcome_bind rn_value best]. rewrite Hc.
  replace (if negb (v' =? NGX_RADIX_NO_VALUE) then v' else v) with (if v' =? NGX_RADIX_NO_VALUE then v else v')
    by (by destruct (v' =? NGX_RADIX_NO_VALUE)).
  apply (IH (next c) _ _ fuel _ HI'); [|done|cbn in Hf; lia]. cbn in Hs. destruct b; tauto.
Qed.

End Search.

(** The values on the way are those of the prefixes, so that the last one is
    that of the longest. *)
Lemma best_longest (m : prefixes) x bits : forall pre t v, (forall q, m !! (pre ++ q) = lookup_tree t q) -> short (S (length bits)) t ->
  (best t (bits ++ [x]) v = v /\ forall q, q `prefix_of` bits -> m !! (pre ++ q) = None) \/
  exists p, p `prefix_of` bits /\ m !! (pre ++ p) = Some (best t (bits ++ [x]) v) /\
    forall q, q `prefix_of` bits -> m !! (pre ++ q) <> None -> (length q <= length p)%nat.
Proof.
  induction bits as [|b bits IH]; intros pre [|a v' l r] v Hm Hs.
  1, 3: left; split; [done|]; intros q _; by rewrite Hm.
  - assert (Hv := Hm []). cbn in Hv. unfold value_of in Hv.
    replace (best (N a v' l r) ([] ++ [x]) v) with (if v' =? NGX_RADIX_NO_VALUE then v else v')
      by (cbn in Hs; destruct l, r; cbn in *; destruct x; tauto).
    destruct (v' =? NGX_RADIX_NO_VALUE); [left; split; [done|]|right; exists []; split; [done|]; split; [done|]];
      intros q ->%prefix_nil_inv; done.
  - assert (Hv := Hm []). cbn in Hv. unfold value_of in Hv. cbn [app best].
    destruct (IH (pre ++ [b]) (if b then r else l) (if v' =? NGX_RADIX_NO_VALUE then v else v')) as [[E Hn]|(p & Hp & E & Hmax)].
    { intros q. rewrite <- app_assoc. cbn. by rewrite Hm. } { cbn in Hs |- *. destruct b; tauto. }
    + rewrite E. assert (Hn' : forall q, q `prefix_of` b :: bits -> q <> [] -> m !! (pre ++ q) = None).
      { intros [|c q] Hq Hne; [done|]. apply prefix_cons_inv_1 in Hq as Hc. apply prefix_cons_inv_2 in Hq. subst c.
        specialize (Hn q Hq). by rewrite <- app_assoc in Hn. }
      destruct (v' =? NGX_RADIX_NO_VALUE).
      * left. split; [done|]. intros [|c q] Hq; [done|by apply Hn'].
      * right. exists []. split; [apply prefix_nil|]. split; [done|]. intros [|c q] Hq Hne; [done|]. by rewrite Hn' in Hne.
    + right. exists (b :: p). split; [by apply prefix_cons|]. rewrite <- app_assoc in E. split; [done|].
      intros [|c q] Hq Hne; [cbn; lia|]. apply prefix_cons_inv_1 in Hq as Hc. apply prefix_cons_inv_2 in Hq. subst c.
      cbn. apply le_n_S, Hmax; [done|]. by rewrite <- app_assoc.
Qed.

Lemma best_match (m : prefixes) t bits x : (forall q, m !! q = lookup_tree t q) -> short (S (length bits)) t ->
  longest_match m bits (best t (bits ++ [x]) NGX_RADIX_NO_VALUE).
Proof.
  intros Hm Hs. destruct (best_longest m x bits [] t NGX_RADIX_NO_VALUE Hm Hs) as [[-> Hn]|(p & Hp & E & Hmax)]; [right|left; exists p]; done.
Qed.

(** The search of a 32-bit key reads a bit more, which is 0. *)
Lemma reads32 key n : reads (bit32 key) half (cursor32 n) (word_bits n key ++ [false]).
Proof.
  induction n as [|n IH]; cbn [word_bits app reads].
  - unfold bit32. cbn [cursor32]. by rewrite Z.land_0_r.
  - rewrite half_cursor. split; [|done]. unfold bit32. cbn [cursor32]. by rewrite bit_test by lia.
Qed.

(** The search of 16 bytes reads the first bit of the byte behind them. *)
Lemma reads128 key : forall j i n k rest, (i + j = length key)%nat -> drop i key = k :: rest ->
  reads (bit128 key) next128 (i, 2 ^ Z.of_nat n) (word_bits (S n) k ++ bytes_bits rest).
Proof.
  intros j. induction j as [|j IHj]; intros i n; induction n as [|n IHn]; intros k rest Hi Ed.
  1, 2: rewrite drop_ge in Ed by lia; done.
  all: assert (Ek : key !! i = Some k) by (rewrite <- (Nat.add_0_r i), <- lookup_drop, Ed; done).
  all: cbn [word_bits app reads]; (split; [by apply bit128_at|]).
  - destruct rest as [|k' rest]; [done|]. unfold next128. cbn [fst snd Z.of_nat]. change (half (2 ^ 0) =? 0) with true. cbn iota.
    apply (IHj (S i) 7%nat); [lia|]. rewrite <- Nat.add_1_r, <- drop_drop, Ed. done.
  - unfold next128. cbn [fst snd]. rewrite half_nonzero, half_pow. by apply (IHn k rest).
Qed.
(** * The operations *)

(** A family of functions for the keys of a kind: they are the loops over
    cursors that see the bits of the keys. *)
Class KeyFamily {K : Type} (exec : op K -> ngx_radix_tree_t -> outcome (Z * ngx_radix_tree_t))
    (bits : K -> K -> list bool) (key_bits : K -> list bool) (depth : nat) (valid : op K -> Prop) : Prop := {
  family_insert key mask value : valid (Insert key mask value) ->
    exists (C : Type) (cond dir : C -> outcome bool) adv fuel c,
      (forall T, exec (Insert key mask value) T = radix_insert cond dir adv fuel c value T) /\
      spells cond dir adv c (bits key mask) /\ (length (bits key mask) < fuel)%nat /\ (length (bits key mask) < depth)%nat;
  family_delete key mask : valid (Delete key mask) ->
    exists (C : Type) (cond dir : C -> outcome bool) adv fuel c,
      (forall T, exec (Delete key mask) T = radix_delete cond dir adv fuel c T) /\
      spells cond dir adv c (bits key mask) /\ (length (bits key mask) + 1 < fuel)%nat;
  family_find key : valid (Find key) ->
    exists (C : Type) (dir : C -> outcome bool) next fuel c x,
      (forall T, exec (Find key) T =
        let! v := radix_find dir next fuel c (t_root T) NGX_RADIX_NO_VALUE T in Ret (v, T)) /\
      reads dir next c (key_bits key ++ [x]) /\ S (length (key_bits key)) = depth /\ (depth < fuel)%nat }.

Section Family.
Context {K : Type} {exec : op K -> ngx_radix_tree_t -> outcome (Z * ngx_radix_tree_t)}
  {bits : K -> K -> list bool} {key_bits : K -> list bool} {depth : nat} {valid : op K -> Prop}.
Context `{!KeyFamily exec bits key_bits depth valid}.

Lemma step_ok (o : op K) (T : ngx_radix_tree_t) (t : tree) (al : list Z) (m : prefixes) : Inv depth T t al -> (forall q, m !! q = lookup_tree t q) ->
  valid o -> op_ok bits o -> (cost bits o <= length al)%nat ->
  exists rc T' t' al' m', exec o T = Ret (rc, T') /\ Inv depth T' t' al' /\ (forall q, m' !! q = lookup_tree t' q) /\
    spec_step bits key_bits m o rc m' /\ (length al <= length al' + cost bits o)%nat.
Proof.
  intros HI Hm Hv Ho Hc. destruct o as [key mask value|key mask|key]; cbn in Ho, Hc.
  - destruct (family_insert key mask value Hv) as (C & cond & dir & adv & fuel & c & Ex & Hs & Hf & Hd). rewrite Ex.
    destruct (insert_ok cond dir adv depth c _ fuel T t al value Hs HI Hf Hd) as (rc & T' & t' & al' & E' & HI' & Hal & Hcase).
    exists rc, T', t', al'. rewrite E'. cbn [spec_step cost]. rewrite Hm. destruct (lookup_tree t (bits key mask)).
    + destruct Hcase as [-> Hq]. exists m. split_and!; try done. intros q. by rewrite Hm, Hq.
    + destruct Hcase as [(-> & Hb & Hq)|(_ & Hlt & _)]; [|lia]. exists (<[bits key mask := value]> m). split_and!; try done.
      intros q. destruct (decide (q = bits key mask)) as [->|Hne].
      * rewrite lookup_insert_eq, Hb. unfold value_of. by rewrite (proj2 (Z.eqb_neq _ _) Ho).
      * by rewrite lookup_insert_ne, Hm, Hq by done.
  - destruct (family_delete key mask Hv) as (C & cond & dir & adv & fuel & c & Ex & Hs & Hf). rewrite Ex.
    destruct (delete_ok cond dir adv depth c _ fuel T t al Hs Ho HI Hf) as (rc & T' & t' & al' & E' & HI' & Hal & Hb & Hq & Hrc).
    exists rc, T', t', al', (delete (bits key mask) m). rewrite E'. cbn [spec_step cost]. rewrite Hm. split_and!; try done; [|lia].
    intros q. destruct (decide (q = bits key mask)) as [->|Hne]; [by rewrite lookup_delete_eq, Hb|].
    by rewrite lookup_delete_ne, Hm, Hq by done.
  - destruct (family_find key Hv) as (C & dir & next & fuel & c & x & Ex & Hr & Hd & Hf). rewrite Ex, (inv_root _ _ _ _ HI).
    assert (Hlen : length (key_bits key ++ [x]) = depth) by (rewrite length_app; cbn; lia).
    rewrite (radix_find_ok dir next depth T al (key_bits key ++ [x]) c [] t fuel _ HI).
    2:{ rewrite Hlen. apply HI. } 2: done. 2:{ by rewrite Hlen. }
    cbn [outcome_bind]. do 2 eexists. exists t, al, m. split; [done|]. split_and!; try done; [|cbn; lia].
    split; [done|]. apply best_match; [done|]. rewrite Hd. apply HI.
Qed.

Lemma run_ok (ops : list (op K)) : forall T t (al : list Z) (m : prefixes), Inv depth T t al -> (forall q, m !! q = lookup_tree t q) ->
  Forall (fun o => valid o /\ op_ok bits o) ops -> (list_sum (map (cost bits) ops) <= length al)%nat ->
  exists rcs T', run_ops exec ops T = Ret (rcs, T') /\ spec_run bits key_bits m ops rcs.
Proof.
  induction ops as [|o ops IH]; intros T t al m HI Hm Hops Hc; cbn [run_ops].
  { by exists [], T. }
  apply Forall_cons in Hops as [[Hv Ho] Hops]. cbn in Hc. fold (list_sum (map (cost bits) ops)) in Hc.
  destruct (step_ok o T t al m HI Hm Hv Ho ltac:(lia)) as (rc & T' & t' & al' & m' & -> & HI' & Hm' & Hs & Hal). cbn [outcome_bind].
  destruct (IH T' t' al' m' HI' Hm' Hops ltac:(lia)) as (rcs & T'' & -> & Hrun). cbn [outcome_bind].
  exists (rc :: rcs), T''. split; [done|]. cbn [spec_run]. eauto.
Qed.

End Family.

Lemma length_word_bits n w : length (word_bits n w) = n.
Proof. induction n; cbn; congruence. Qed.

Lemma length_prefix_bits mask : forall key, (length (prefix_bits mask key) <= length mask)%nat.
Proof. induction mask as [|[] mask IH]; intros [|b key]; cbn; try lia. specialize (IH key). lia. Qed.

Lemma length_bytes_bits bytes : length (bytes_bits bytes) = (8 * length bytes)%nat.
Proof. unfold bytes_bits. induction bytes; cbn [map concat length]; [done|]. rewrite length_app, length_word_bits, IHbytes. lia. Qed.

(** Keys and masks of 32 bits. *)
#[export] Instance family32 : KeyFamily exec32 bits32 (word_bits 32) 33 (fun _ => True).
Proof.
  assert (Hl : forall key mask, (length (bits32 key mask) <= 32)%nat).
  { intros key mask. unfold bits32. pose proof (length_prefix_bits (word_bits 32 mask) (word_bits 32 key)). by rewrite length_word_bits in *. }
  split.
  - intros key mask value _. eexists Z, _, _, _, _, _. split; [done|]. split; [apply (spells32 key mask 32)|].
    specialize (Hl key mask). lia.
  - intros key mask _. eexists Z, _, _, _, _, _. split; [done|]. split; [apply (spells32 key mask 32)|].
    specialize (Hl key mask). lia.
  - intros key _. eexists Z, _, _, _, _, false. split; [done|]. split; [apply (reads32 key 32)|]. rewrite length_word_bits. lia.
Qed.

Lemma reads_app {C} (dir : C -> outcome bool) next rest bits : forall c, reads dir next c (bits ++ rest) -> reads dir next c bits.
Proof. induction bits as [|b bits IH]; intros c; cbn; [done|]. intros [Hd Hr]. split; [done|by apply IH]. Qed.

(** Keys and masks of 16 bytes; a byte behind the key of a search can be read. *)
Definition valid128 (o : op (list Z)) : Prop :=
  match o with
  | Insert key mask _ | Delete key mask => length key = 16%nat /\ length mask = 16%nat
  | Find key => length key = 17%nat
  end.

Lemma spells128_start key mask : length key = 16%nat -> length mask = 16%nat ->
  spells (bit128 mask) (bit128 key) adv128 (0%nat, 0x80) (bits128 key mask) /\ (length (bits128 key mask) <= 128)%nat.
Proof.
  intros Hk Hm. split.
  - destruct key as [|k key]; [done|]. destruct mask as [|m mask]; [done|].
    apply (spells128 (k :: key) (m :: mask) Hk Hm 15 0 7 k m); done.
  - unfold bits128. pose proof (length_prefix_bits (bytes_bits mask) (bytes_bits key)). rewrite length_bytes_bits in *. lia.
Qed.

#[export] Instance family128 : KeyFamily exec128 bits128 (fun key => bytes_bits (take 16 key)) 129 valid128.
Proof.
  split.
  - intros key mask value [Hk Hm]. destruct (spells128_start key mask Hk Hm) as [Hs Hl].
    eexists (nat * Z)%type, _, _, _, _, _. split; [done|]. split; [exact Hs|]. lia.
  - intros key mask [Hk Hm]. destruct (spells128_start key mask Hk Hm) as [Hs Hl].
    eexists (nat * Z)%type, _, _, _, _, _. split; [done|]. split; [exact Hs|]. lia.
  - intros key Hk. cbn in Hk. destruct (lookup_lt_is_Some_2 key 16 ltac:(lia)) as [x Ex].
    exists (nat * Z)%type, (bit128 key), next128, 130%nat, (0%nat, 0x80), (Z.testbit x 7).
    split; [done|]. split; [|rewrite length_bytes_bits, length_take; lia].
    apply (reads_app _ _ (tail (word_bits 8 x))). rewrite <- app_assoc. cbn [app].
    assert (Eb : bytes_bits key = bytes_bits (take 16 key) ++ word_bits 8 x).
    { rewrite <- (take_drop 16 key) at 1. rewrite (drop_S _ _ _ Ex), drop_ge by lia. unfold bytes_bits.
      rewrite map_app, concat_app. cbn [map concat]. by rewrite app_nil_r. }
    change (Z.testbit x 7 :: tail (word_bits 8 x)) with (word_bits 8 x). rewrite <- Eb.
    destruct key as [|k rest]; [done|]. apply (reads128 (k :: rest) 17 0 7); [done|done].
Qed.

(** * Creation *)

Lemma short_more t : forall d d', (d <= d')%nat -> short d t -> short d' t.
Proof.
  induction t as [|a v l IHl r IHr]; intros d d' Hd; cbn; [done|]. destruct d as [|d]; [done|]. destruct d' as [|d']; [lia|].
  intros [Hl Hr]. split; [by apply (IHl d); [lia|]|by apply (IHr d); [lia|]].
Qed.

Lemma inv_more d d' T t al : (d <= d')%nat -> Inv d T t al -> Inv d' T t al.
Proof. intros Hd [H1 H2 H3 H4 H5 H6 H7]. split; try done. by apply (short_more t d). Qed.

(** The bits of a mask in front. *)
Fixpoint ones (mask : list bool) : nat := match mask with true :: mask => S (ones mask) | _ => 0 end.

Lemma prefix_ones mask : forall key, (length (prefix_bits mask key) <= ones mask)%nat.
Proof. induction mask as [|[] mask IH]; intros [|b key]; cbn; try lia. specialize (IH key). lia. Qed.

(** A tree without values. *)
Definition blank (t : tree) : Prop := forall q, lookup_tree t q = None.

Lemma preallocate_keys_ok mask inc b fuel : (forall key, (length (bits32 key mask) <= b)%nat) -> 0 < inc ->
  forall key T t al, Inv 33 T t al -> blank t ->
  key + inc * Z.of_nat (S fuel) = 2 ^ 32 -> 0 <= key -> (S fuel * b <= length al)%nat ->
  exists T' t' al', preallocate_keys (S fuel) key mask inc T = Ret (Some T') /\ Inv 33 T' t' al' /\ blank t' /\
    (length al <= length al' + S fuel * b)%nat.
Proof.
  intros Hones Hi. induction fuel as [|fuel IH]; intros key T t al HI Hb He Hk Hal; cbn [preallocate_keys]; specialize (Hones key) as Hlen;
    (destruct (insert_ok (bit32 mask) (bit32 key) (fun bit => Some (half bit)) 33 0x80000000 (bits32 key mask) 33 T t al
      NGX_RADIX_NO_VALUE (spells32 key mask 32) HI) as (rc & T' & t' & al' & E & HI' & Hal' & Hcase);
      [unfold bits32; pose proof (length_prefix_bits (word_bits 32 mask) (word_bits 32 key)); rewrite length_word_bits in *; lia..|]);
    unfold ngx_radix32tree_insert; rewrite E; cbn [outcome_bind]; rewrite Hb in Hcase;
    (destruct Hcase as [(-> & Hbits & Hq)|(_ & Hlt & _)]; [|cbn in Hal; lia]); cbn [negb Z.eqb NGX_OK];
    (assert (Hb' : blank t')
      by (intros q; destruct (decide (q = bits32 key mask)) as [->|Hne]; [by rewrite Hbits|by rewrite Hq, Hb by done])).
  - replace (key + inc) with (2 ^ 32) by lia. change (wrapU 32 (2 ^ 32) =? 0) with true. cbn iota.
    exists T', t', al'. split_and!; try done. cbn. lia.
  - unfold wrapU. rewrite Z.mod_small by nia. rewrite (proj2 (Z.eqb_neq _ _)) by lia.
    destruct (IH (key + inc) T' t' al' HI' Hb') as (T2 & t2 & al2 & E2 & HI2 & Hb2 & Hal2); [lia|lia|cbn in Hal |- *; lia|].
    exists T2, t2, al2. cbn [preallocate_keys] in E2. split; [exact E2|]. split_and!; try done. cbn in Hal2 |- *. lia.
Qed.

Lemma level_ok n mask inc b fuel T t al : let mask' := Z.lor (Z.shiftr mask 1) 0x80000000 in
  ones (word_bits 32 mask') = b -> (2 ^ (32 - Z.to_nat (Z.log2 inc)))%nat = S fuel -> inc * Z.of_nat (S fuel) = 2 ^ 32 -> 0 < inc ->
  Inv 33 T t al -> blank t -> (S fuel * b <= length al)%nat ->
  exists T' t' al', preallocate_bits (S n) mask inc T = preallocate_bits n mask' (half inc) T' /\ Inv 33 T' t' al' /\ blank t' /\
    (length al <= length al' + S fuel * b)%nat.
Proof.
  intros mask' Hb Hf He Hi HI Hbl Hal. cbn [preallocate_bits]. rewrite Hf.
  assert (Hones : forall key, (length (bits32 key mask') <= b)%nat) by (intros key; unfold bits32; rewrite <- Hb; apply prefix_ones).
  destruct (preallocate_keys_ok mask' inc b fuel Hones Hi 0 T t al HI Hbl) as (T' & t' & al' & E & HI' & Hb' & Hal'); [lia|lia|done|].
  fold mask'. rewrite E. cbn [outcome_bind]. exists T', t', al'. done.
Qed.

Lemma default_levels T t al : Inv 33 T t al -> blank t -> (642 <= length al)%nat ->
  exists T' t' al', preallocate_bits 6 0 0x80000000 T = Ret (Some T') /\ Inv 33 T' t' al' /\ blank t' /\
    (length al <= length al' + 642)%nat.
Proof.
  intros H0 B0 L0.
  edestruct (level_ok 5 0 0x80000000 1 1 T t al) as (T1 & t1 & al1 & E1 & H1 & B1 & L1); try done; [lia|].
  edestruct (level_ok 4 0x80000000 0x40000000 2 3 T1 t1 al1) as (T2 & t2 & al2 & E2 & H2 & B2 & L2); try done; [lia|].
  edestruct (level_ok 3 0xC0000000 0x20000000 3 7 T2 t2 al2) as (T3 & t3 & al3 & E3 & H3 & B3 & L3); try done; [lia|].
  edestruct (level_ok 2 0xE0000000 0x10000000 4 15 T3 t3 al3) as (T4 & t4 & al4 & E4 & H4 & B4 & L4); try done; [lia|].
  edestruct (level_ok 1 0xF0000000 0x08000000 5 31 T4 t4 al4) as (T5 & t5 & al5 & E5 & H5 & B5 & L5); try done; [lia|].
  edestruct (level_ok 0 0xF8000000 0x04000000 6 63 T5 t5 al5) as (T6 & t6 & al6 & E6 & H6 & B6 & L6); try done; [lia|].
  exists T6, t6, al6. split; [|split_and!; [done|done|lia]].
  rewrite E1. change (Z.lor (Z.shiftr 0 1) 0x80000000) with 0x80000000. change (half 0x80000000) with 0x40000000.
  rewrite E2. change (Z.lor (Z.shiftr 0x80000000 1) 0x80000000) with 0xC0000000. change (half 0x40000000) with 0x20000000.
  rewrite E3. change (Z.lor (Z.shiftr 0xC0000000 1) 0x80000000) with 0xE0000000. change (half 0x20000000) with 0x10000000.
  rewrite E4. change (Z.lor (Z.shiftr 0xE0000000 1) 0x80000000) with 0xF0000000. change (half 0x10000000) with 0x08000000.
  rewrite E5. change (Z.lor (Z.shiftr 0xF0000000 1) 0x80000000) with 0xF8000000. change (half 0x08000000) with 0x04000000.
  rewrite E6. done.
Qed.

(** What ngx_pmemalign gives: pages at different addresses, aligned. *)
Definition pages_ok (pages : list Z) : Prop := NoDup pages /\ Forall (fun p => 0 < p /\ p mod ngx_pagesize = 0) pages.

Definition page_nodes (pages : list Z) : list Z := concat (map (fun p => chunks p ngx_pagesize) pages).

Lemma chunk_in a p : a ∈ chunks p ngx_pagesize -> p <= a < p + ngx_pagesize.
Proof.
  unfold chunks. intros (i & -> & Hi)%list_elem_of_fmap. apply elem_of_seq in Hi.
  change (Z.to_nat (ngx_pagesize / node_size)) with 128%nat in Hi. unfold node_size, ngx_pagesize. lia.
Qed.

Lemma page_nodes_ok pages : pages_ok pages -> NoDup (page_nodes pages) /\ (0 ∉ page_nodes pages) /\
  length (page_nodes pages) = (128 * length pages)%nat.
Proof.
  intros [Hd Hp]. unfold page_nodes. induction pages as [|p pages IH]; cbn [map concat]; [split_and!; [constructor|set_solver|done]|].
  apply NoDup_cons in Hd as [Hnp Hd]. apply Forall_cons in Hp as [[Hp0 Hpm] Hp]. destruct (IH Hd Hp) as (IH1 & IH2 & IH3). split_and!.
  - apply NoDup_app. split_and!; [| |done].
    + unfold chunks. assert (Inj eq eq (fun i => p + node_size * Z.of_nat i)) by (intros i j Hij; unfold node_size in Hij; lia).
      apply (NoDup_fmap_2 _), NoDup_seq.
    + intros a Ha%chunk_in (l & (q & <- & Hq%list_elem_of_In)%in_map_iff & Hl%list_elem_of_In)%list_elem_of_In%in_concat. apply chunk_in in Hl.
      rewrite Forall_forall in Hp. destruct (Hp q Hq) as [_ Hqm]. unfold ngx_pagesize in *.
      assert (p = q); [|by subst]. apply Z.div_exact in Hpm, Hqm; lia.
  - rewrite elem_of_app. intros [Ha%chunk_in|?]; [lia|done].
  - rewrite length_app, IH3. unfold chunks. rewrite length_map, length_seq.
    change (Z.to_nat (ngx_pagesize / node_size)) with 128%nat. cbn. lia.
Qed.

Lemma create_ok pages pre : pages_ok pages -> pre = 0 \/ pre = -1 -> (643 <= 128 * length pages)%nat ->
  exists T t al, ngx_radix_tree_create pages pre = Ret (Some T) /\ Inv 33 T t al /\ blank t /\
    (128 * length pages <= length al + 643)%nat.
Proof.
  intros Hp Hpre Hlen. destruct (page_nodes_ok pages Hp) as (Hd & H0 & Hl). unfold ngx_radix_tree_create.
  destruct (alloc_ok (MkRadixTree 0 0 0 0 ∅ pages) (page_nodes pages)) as (T & -> & Hf & Hn & _).
  { split; [done|]. split; [done|]. by exists []. }
  destruct (page_nodes pages) as [|x al]; [cbn in Hl; lia|]. cbn [head tail outcome_bind] in *.
  apply NoDup_cons in Hd as [Hx Hd].
  assert (HI : Inv 33 (set_root x (store x (MkRadix 0 0 0 NGX_RADIX_NO_VALUE) T)) (N x NGX_RADIX_NO_VALUE E E) al).
  { split; try done.
    - cbn. rewrite lookup_insert_eq. split_and!; try done. set_solver.
    - exact (available_store T x (MkRadix 0 0 0 NGX_RADIX_NO_VALUE) al Hx Hf).
    - cbn. by constructor.
    - set_solver. }
  assert (Hb : blank (N x NGX_RADIX_NO_VALUE E E)) by (intros [|[] [|? ?]]; done). cbn in Hl.
  destruct Hpre as [-> | ->]; cbn [Z.eqb].
  - do 3 eexists. split; [done|]. split; [exact HI|]. split; [done|lia].
  - change preallocate_default with 6%nat. destruct (default_levels _ _ _ HI Hb ltac:(lia)) as (T' & t' & al' & E & HI' & Hb' & Hal).
    exists T', t', al'. split; [exact E|]. split_and!; [done|done|lia].
Qed.

(** C11: the radix tree.  A tree made by ngx_radix_tree_create, with the nodes of
    the first six bits or without, and any sequence of insertions, deletions
    and searches with 32-bit keys, or with keys of 16 bytes, give the results
    of a map from prefixes to values: an insertion is refused exactly when its
    prefix has a value, a deletion removes its prefix and no other, and a
    search gives the value of the longest prefix of its key.  The memory is
    enough for the prefixes, the empty prefix is not deleted, and a byte behind
    the 16 bytes of a search can be read. *)
Theorem radix_tree_run pages pre : pages_ok pages -> pre = 0 \/ pre = -1 ->
  (643 <= 128 * length pages)%nat ->
  exists T, ngx_radix_tree_create pages pre = Ret (Some T) /\
  (forall ops, Forall (op_ok bits32) ops -> (list_sum (map (cost bits32) ops) + 643 <= 128 * length pages)%nat ->
     exists rcs T', run_ops exec32 ops T = Ret (rcs, T') /\ spec_run bits32 (word_bits 32) ∅ ops rcs) /\
  (forall ops, Forall (fun o => valid128 o /\ op_ok bits128 o) ops ->
     (list_sum (map (cost bits128) ops) + 643 <= 128 * length pages)%nat ->
     exists rcs T', run_ops exec128 ops T = Ret (rcs, T') /\ spec_run bits128 (fun key => bytes_bits (take 16 key)) ∅ ops rcs).
Proof.
  intros Hp Hpre Hlen. destruct (create_ok pages pre Hp Hpre Hlen) as (T & t & al & E & HI & Hb & Hal). exists T. split; [done|].
  split; intros ops Hops Hc.
  - apply (run_ok ops T t al ∅ HI); [intros q; by rewrite lookup_empty, Hb| |lia]. eapply Forall_impl; [exact Hops|]. done.
  - apply (run_ok ops T t al ∅ (inv_more 33 129 T t al ltac:(lia) HI)); [intros q; by rewrite lookup_empty, Hb|done|lia].
Qed.

(** * Trees of networks *)

Definition pages0 : list Z := map (fun i => 4096 * Z.of_nat i) (seq 1 10).

(** 10.0.0.0/8, 10.1.0.0/16 and 10.1.2.3/32. *)
Definition networks : list (op Z) :=
  [Insert 0x0A000000 0xFF000000 8; Insert 0x0A010000 0xFFFF0000 16; Insert 0x0A010203 0xFFFFFFFF 32;
   Insert 0x0A010000 0xFFFF0000 17; Find 0x0A010203; Find 0x0A010204; Delete 0x0A010203 0xFFFFFFFF; Find 0x0A010203;
   Delete 0x0A010203 0xFFFFFFFF; Find 0x0B000000].

Definition ipv6 (l : list Z) : list Z := l ++ repeat 0 (16 - length l).
Definition mask6 (n : nat) : list Z := repeat 255 n ++ repeat 0 (16 - n).

(** 2001:db8::/32 and ::1/128. *)
Definition networks6 : list (op (list Z)) :=
  [Insert (ipv6 [32; 1; 13; 184]) (mask6 4) 6; Insert (repeat 0 15 ++ [1]) (mask6 16) 1;
   Find (ipv6 [32; 1; 13; 184; 7] ++ [0]); Find (repeat 0 15 ++ [1; 0])].

Lemma radix_tree_run_witness :
  exists T, ngx_radix_tree_create pages0 (-1) = Ret (Some T) /\
  (exists rcs T', run_ops exec32 networks T = Ret (rcs, T') /\ spec_run bits32 (word_bits 32) ∅ networks rcs) /\
  (exists rcs T', run_ops exec128 networks6 T = Ret (rcs, T') /\
     spec_run bits128 (fun key => bytes_bits (take 16 key)) ∅ networks6 rcs).
Proof.
  destruct (radix_tree_run pages0 (-1)) as (T & E & H32 & H128).
  - split; [apply (bool_decide_unpack _); vm_compute; exact I|]. repeat constructor.
  - by right.
  - vm_compute. lia.
  - exists T. split; [exact E|]. split; [apply H32|apply H128].
    + repeat constructor; done.
    + vm_compute. lia.
    + repeat constructor; done.
    + vm_compute. lia.
Defined.

Example networks_results :
  (let! T := ngx_radix_tree_create pages0 (-1) in
   match T with None => NoFuel | Some T =>
     let! (rcs, _) := run_ops exec32 networks T in let! (rcs6, _) := run_ops exec128 networks6 T in Ret (rcs, rcs6)
   end) =
  Ret ([NGX_OK; NGX_OK; NGX_OK; NGX_BUSY; 32; 16; NGX_OK; 16; NGX_ERROR; NGX_RADIX_NO_VALUE], [NGX_OK; NGX_OK; 6; 1]).
Proof. vm_compute. reflexivity. Qed.

(** The search of an address that is in the tree with all its bits reads the
    byte behind the address. *)
Example find_reads_behind :
  (let! T := ngx_radix_tree_create pages0 0 in
   match T with None => NoFuel | Some T =>
     let! (_, T) := ngx_radix128tree_insert (repeat 0 15 ++ [1]) (mask6 16) 1 T in
     ngx_radix128tree_find (repeat 0 15 ++ [1]) T
   end) = Undefined.
Proof. vm_compute. reflexivity. Qed.

(** The deletion of a network that was never inserted succeeds when it is one of
    the nodes made in advance, and the deletion of the empty prefix of a tree
    with nothing below it follows a null pointer. *)
Example delete_vacant :
  (let! T := ngx_radix_tree_create pages0 (-1) in
   match T with None => NoFuel | Some T => let! (rc, _) := ngx_radix32tree_delete 0x0C000000 0xFC000000 T in Ret rc end) =
  Ret NGX_OK /\
  (let! T := ngx_radix_tree_create pages0 0 in
   match T with None => NoFuel | Some T =>
     let! (_, T) := ngx_radix32tree_insert 0 0 7 T in let! (rc, _) := ngx_radix32tree_delete 0 0 T in Ret rc
   end) = Undefined.
Proof. split; vm_compute; reflexivity. Qed.

End RadixTreeMap.
