(* ===== verification/NgxInet.v ===== *)
(** Addresses: core/ngx_inet.c and .h.  The parsers and printers of IPv4 and IPv6
    addresses, networks in CIDR notation, and the addresses of listen and
    upstream directives.

    An in_addr_t is the number that the machine reads from the four bytes in
    network order, so that htonl reverses its bytes; an in6_addr is its 16 bytes.
    gethostbyname is a parameter. *)

From S2P Require Import Prelude NgxNumber NgxPrintf NgxRange.

Module Inet.

Import Number Printf Range.

(** * Addresses *)

Definition INADDR_NONE : Z := 0xffffffff.
Definition INADDR_ANY : Z := 0.

Definition htonl (z : Z) : Z := le_val (rev (le_bytes 4 z)).
Definition htons (z : Z) : Z := le_val (rev (le_bytes 2 z)).

(** The loop; None is the return inside it. *)
Fixpoint inet_loop (text : list Z) (addr octet n : Z) : option (Z * Z * Z) :=
  match text with
  | [] => Some (addr, octet, n)
  | c :: text =>
    if ("0"%c <=? c) && (c <=? "9"%c) then inet_loop text addr (wrapU 64 (octet * 10 + (c - "0"%c))) n
    else if (c =? "."%c) && (octet <? 256) then inet_loop text (wrapU 32 (Z.shiftl addr 8 + octet)) 0 (wrapU 64 (n + 1))
    else None
  end.

Definition ngx_inet_addr (text : list Z) : Z :=
  match inet_loop text 0 0 0 with
  | None => INADDR_NONE
  | Some (addr, octet, n) =>
    if (n =? 3) && (octet <? 256) then htonl (wrapU 32 (Z.shiftl addr 8 + octet)) else INADDR_NONE
  end.

(** ** IPv6 *)

(** What the loop of ngx_inet6_addr keeps: the bytes written, the place of the
    "::" among them, the text after the last ':', the digits of a word. *)
Record inet6_state := MkInet6 {
  i6_addr : list Z; i6_zero : option nat; i6_digit : option (list Z);
  i6_nibbles : Z; i6_word : Z; i6_n : Z }.

(** Two bytes; the address has 16. *)
Definition put2 (a b : Z) (addr : list Z) : outcome (list Z) :=
  if (length addr + 2 <=? 16)%nat then Ret (addr ++ [a; b]) else Undefined.

(** None is NGX_ERROR. *)
Fixpoint inet6_loop (p : list Z) (st : inet6_state) : outcome (option inet6_state) :=
  let '(MkInet6 addr zero digit nibbles word n) := st in
  match p with
  | [] => Ret (Some st)
  | c :: p =>
    if c =? ":"%c then
      if negb (nibbles =? 0) then
        let! addr := put2 (wrapU 8 (Z.shiftr word 8)) (Z.land word 0xff) addr in
        if negb (n - 1 =? 0) then inet6_loop p (MkInet6 addr zero (Some p) 0 0 (n - 1)) else Ret None
      else
        match zero with
        | None => inet6_loop p (MkInet6 addr (Some (length addr)) (Some p) nibbles word n)
        | Some _ => Ret None
        end
    else if (c =? "."%c) && negb (nibbles =? 0) then
      match digit with
      | None => Ret None
      | Some digit =>
        if n <? 2 then Ret None
        else
          let word := ngx_inet_addr digit in
          if word =? INADDR_NONE then Ret None
          else
            let word := htonl word in
            let! addr := put2 (Z.land (Z.shiftr word 24) 0xff) (Z.land (Z.shiftr word 16) 0xff) addr in
            Ret (Some (MkInet6 addr zero (Some digit) nibbles word (n - 1)))
      end
    else if nibbles + 1 >? 4 then Ret None
    else if ("0"%c <=? c) && (c <=? "9"%c) then inet6_loop p (MkInet6 addr zero digit (nibbles + 1) (word * 16 + (c - "0"%c)) n)
    else
      let c := Z.lor c 0x20 in
      if ("a"%c <=? c) && (c <=? "f"%c) then inet6_loop p (MkInet6 addr zero digit (nibbles + 1) (word * 16 + (c - "a"%c) + 10) n)
      else Ret None
  end.

(** The bytes from [z] on are moved up by [n], and zeros take their place. *)
Definition spread (z : nat) (n : nat) (addr : list Z) : outcome (list Z) :=
  if (length addr + n <=? 16)%nat then Ret (take z addr ++ repeat 0 n ++ drop z addr) else Undefined.

(** After the loop. *)
Definition inet6_end (st : inet6_state) : outcome (option (list Z)) :=
  let '(MkInet6 addr zero digit nibbles word n) := st in
  match nibbles =? 0, zero with
  | true, None => Ret None
  | _, _ =>
    let! addr := put2 (wrapU 8 (Z.shiftr word 8)) (Z.land word 0xff) addr in
    let n := n - 1 in
    match zero with
    | Some z => if negb (n =? 0) then let! addr := spread z (Z.to_nat (n * 2)) addr in Ret (Some addr) else Ret None
    | None => if negb (n =? 0) then Ret None else Ret (Some addr)
    end
  end.

Definition ngx_inet6_addr (p : list Z) : outcome (option (list Z)) :=
  match p with
  | [] => Ret None
  | c :: rest =>
    let! o := inet6_loop (if c =? ":"%c then rest else p) (MkInet6 [] None None 0 0 8) in
    match o with
    | None => Ret None
    | Some st => inet6_end st
    end
  end.

Definition NGX_INET_ADDRSTRLEN : nat := 15.
Definition NGX_INET6_ADDRSTRLEN : nat := 45.

Definition octet_of (p : list Z) (i : nat) : Z := nth i p 0.

(** The longest run of zero words: [zero] and [max] after the loop from [i] on. *)
Definition longer_run (zero last : option nat) (max n : nat) : option nat * nat :=
  if (max <? n)%nat then (last, n) else (zero, max).

Fixpoint scan_words (words : list nat) (p : list Z) (zero last : option nat) (max n : nat) : option nat * nat :=
  match words with
  | [] => longer_run zero last max n
  | i :: words =>
    if negb (octet_of p i =? 0) || negb (octet_of p (i + 1) =? 0) then
      let '(zero, max) := longer_run zero last max n in scan_words words p zero last max 0
    else scan_words words p zero (if (n =? 0)%nat then Some i else last) max (S n)
  end.

Definition word_indexes : list nat := [0; 2; 4; 6; 8; 10; 12; 14]%nat.

Fixpoint ntop_loop (fuel : nat) (p : list Z) (zero : option nat) (max n i : nat) : outcome (list Z) :=
  match fuel with
  | O => NoFuel
  | S fuel =>
    if negb (i <? n)%nat then Ret []
    else if bool_decide (zero = Some i) then
      let! more := ntop_loop fuel p zero max n (i + (max - 1) * 2 + 2) in Ret (":"%c :: more)
    else
      let! word := ngx_sprintf $"%uxi" [Num (octet_of p i * 256 + octet_of p (i + 1))] in
      let! more := ntop_loop fuel p zero max n (i + 2) in
      Ret (word ++ (if (i <? 14)%nat then [":"%c] else []) ++ more)
  end.

(** An address that is printed with an IPv4 address at its end. *)
Definition v4_tail (p : list Z) (zero : option nat) (max : nat) : bool :=
  bool_decide (zero = Some 0%nat) &&
  (((max =? 5)%nat && (octet_of p 10 =? 0xff) && (octet_of p 11 =? 0xff)) || (max =? 6)%nat ||
   ((max =? 7)%nat && negb (octet_of p 14 =? 0) && negb (octet_of p 15 =? 1))).

Definition quad (p : list Z) (i : nat) : list va :=
  [Num (octet_of p i); Num (octet_of p (i + 1)); Num (octet_of p (i + 2)); Num (octet_of p (i + 3))].

(** The text, which is empty when [len] is too small. *)
Definition ngx_inet6_ntop (p : list Z) (len : nat) : outcome (list Z) :=
  if (len <? NGX_INET6_ADDRSTRLEN)%nat then Ret []
  else
    let '(zero, max) := scan_words word_indexes p None None 1 0 in
    let n := if v4_tail p zero max then 12%nat else 16%nat in
    let! words := ntop_loop 9 p zero max n 0 in
    let! v4 := (if (n =? 12)%nat then ngx_sprintf $"%ud.%ud.%ud.%ud" (quad p 12) else Ret []) in
    Ret ((if bool_decide (zero = Some 0%nat) then [":"%c] else []) ++ words ++ v4).

(** A socket address; ports are in network order. *)
Inductive sockaddr :=
| SockIn (sin_port : Z) (sin_addr : Z)
| SockIn6 (sin6_port : Z) (sin6_addr : list Z)
| SockUn (sun_path : list Z).

(** [port] is a flag; the text of a unix socket is without its NUL. *)
Definition ngx_sock_ntop (sa : sockaddr) (len : nat) (port : bool) : outcome (list Z) :=
  match sa with
  | SockIn sin_port sin_addr =>
    let p := le_bytes 4 sin_addr in
    if port then ngx_snprintf len $"%ud.%ud.%ud.%ud:%d" (quad p 0 ++ [Num (htons sin_port)])
    else ngx_snprintf len $"%ud.%ud.%ud.%ud" (quad p 0)
  | SockIn6 sin6_port sin6_addr =>
    let! text := ngx_inet6_ntop sin6_addr len in
    if port then let! tail := ngx_sprintf $"]:%d" [Num (htons sin6_port)] in Ret ("["%c :: text ++ tail) else Ret text
  | SockUn path => let! text := ngx_snprintf len $"unix:%s%Z" [Ptr path] in Ret (take (length text - 1) text)
  end.

(** [addr] has the bytes of the address, 4 or 16. *)
Definition ngx_inet_ntop (inet6 : bool) (addr : list Z) (len : nat) : outcome (list Z) :=
  if inet6 then ngx_inet6_ntop addr len else ngx_snprintf len $"%ud.%ud.%ud.%ud" (quad addr 0).

(** * Networks *)

Inductive ngx_cidr_t :=
| CidrIn (addr mask : Z)
| CidrIn6 (addr mask : list Z).

(** Before and after the first byte [c]. *)
Fixpoint ngx_strlchr (c : Z) (p : list Z) : option (list Z * list Z) :=
  match p with
  | [] => None
  | b :: p => if b =? c then Some ([], p) else match ngx_strlchr c p with Some (a, r) => Some (b :: a, r) | None => None end
  end.

(** The loop over the bytes of an IPv6 network: the address, the mask, and
    whether a bit was cleared. *)
Fixpoint cidr6_loop (addr : list Z) (shift : Z) : list Z * list Z * bool :=
  match addr with
  | [] => ([], [], false)
  | a :: addr =>
    let s := if shift >? 8 then 8 else shift in
    let m := wrapU 8 (Z.shiftl 0xff (8 - s)) in
    let '(addr, mask, cleared) := cidr6_loop addr (shift - s) in
    (Z.land a m :: addr, m :: mask, cleared || negb (a =? Z.land a m))
  end.

Definition cidr4 (addr shift : Z) : option (Z * ngx_cidr_t) :=
  if shift >? 32 then None
  else
    let mask := if negb (shift =? 0) then htonl (wrapU 32 (Z.shiftl 0xffffffff (32 - shift))) else 0 in
    if addr =? Z.land addr mask then Some (NGX_OK, CidrIn addr mask)
    else Some (NGX_DONE, CidrIn (Z.land addr mask) mask).

(** None is NGX_ERROR. *)
Definition ngx_ptocidr (text : list Z) : outcome (option (Z * ngx_cidr_t)) :=
  let '(addr, mask) := match ngx_strlchr "/"%c text with Some (a, m) => (a, Some m) | None => (text, None) end in
  let in4 := ngx_inet_addr addr in
  if negb (in4 =? INADDR_NONE) then
    match mask with
    | None => Ret (Some (NGX_OK, CidrIn in4 0xffffffff))
    | Some mask => let shift := ngx_atoi mask in if shift =? NGX_ERROR then Ret None else Ret (cidr4 in4 shift)
    end
  else
    let! in6 := ngx_inet6_addr addr in
    match in6, mask with
    | None, _ => Ret None
    | Some in6, None => Ret (Some (NGX_OK, CidrIn6 in6 (repeat 0xff 16)))
    | Some in6, Some mask =>
      let shift := ngx_atoi mask in
      if shift =? NGX_ERROR then Ret None
      else if shift >? 128 then Ret None
      else
        let '(addr, mask, cleared) := cidr6_loop in6 shift in
        Ret (Some (if cleared then NGX_DONE else NGX_OK, CidrIn6 addr mask))
    end.

(** None is NGX_DECLINED; the port is 0. *)
Definition ngx_parse_addr (text : list Z) : outcome (option sockaddr) :=
  let inaddr := ngx_inet_addr text in
  if negb (inaddr =? INADDR_NONE) then Ret (Some (SockIn 0 inaddr))
  else
    let! in6 := ngx_inet6_addr text in
    Ret (match in6 with Some in6 => Some (SockIn6 0 in6) | None => None end).

End Inet.
