(* ===== verification/NgxInetText.v ===== *)
(** The texts of addresses: what the printers of core/ngx_inet.c write is read
    back by its parsers. *)

From S2P Require Import Prelude NgxNumber NgxPrintf NgxInet.

Module InetText.

Import Number Printf Inet.

(** * The digits *)

Definition dec_text (b : Z) : list Z := put_int None "d"%c (MkFlags " "%c 0 false 0 false 0 no_slen) b.
Definition hex_text (w : Z) : list Z := put_int None "i"%c (MkFlags " "%c 0 false 1 false 0 no_slen) w.

Definition hex_value (c : Z) : option Z :=
  if ("0"%c <=? c) && (c <=? "9"%c) then Some (c - "0"%c)
  else if ("a"%c <=? c) && (c <=? "f"%c) then Some (c - "a"%c + 10)
  else None.

(** The value of digits in a base, after [v]. *)
Fixpoint digits_value (base : Z) (cs : list Z) (v : Z) : option Z :=
  match cs with
  | [] => Some v
  | c :: cs =>
    match hex_value c with
    | Some d => if d <? base then digits_value base cs (v * base + d) else None
    | None => None
    end
  end.

Definition dec_ok (b : Z) : bool :=
  bool_decide (digits_value 10 (dec_text b) 0 = Some b) && bool_decide (1 <= length (dec_text b) <= 3)%nat.

Lemma all_below (f : Z -> bool) n : forallb (fun i => f (Z.of_nat i)) (seq 0 n) = true ->
  forall z, 0 <= z < Z.of_nat n -> f z = true.
Proof.
  intros Hf z Hz. rewrite forallb_forall in Hf. specialize (Hf (Z.to_nat z)). rewrite Z2Nat.id in Hf by lia.
  apply Hf. apply in_seq. lia.
Qed.

Lemma dec_text_ok b : is_byte b -> digits_value 10 (dec_text b) 0 = Some b /\ (1 <= length (dec_text b) <= 3)%nat.
Proof.
  intros Hb. assert (E : dec_ok b = true) by (apply (all_below dec_ok 256); [vm_compute; reflexivity|exact Hb]).
  unfold dec_ok in E. apply andb_true_iff in E as [E1%bool_decide_eq_true E2%bool_decide_eq_true]. done.
Qed.

Lemma digits_value_app base a c : forall v, digits_value base (a ++ [c]) v =
  match digits_value base a v with
  | Some x => match hex_value c with Some d => if d <? base then Some (x * base + d) else None | None => None end
  | None => None
  end.
Proof.
  induction a as [|b a IH]; intros v; cbn [app digits_value]; [by repeat case_match|].
  destruct (hex_value b) as [d|]; [|done]. destruct (d <? base); [apply IH|done].
Qed.

Definition hex_digit_ok (d : Z) : bool := bool_decide (hex_value (hex_char hex d) = Some d).

Lemma hex_char_value d : 0 <= d < 16 -> hex_value (hex_char hex d) = Some d.
Proof.
  intros Hd. apply (bool_decide_eq_true_1 _). change (hex_digit_ok d = true). apply (all_below hex_digit_ok 16); [vm_compute; reflexivity|exact Hd].
Qed.

Lemma hex_digits_value k fuel : forall n p, 0 <= n < 16 ^ Z.of_nat k -> (0 < k <= fuel)%nat ->
  exists ds, hex_digits fuel hex n p = ds ++ p /\ digits_value 16 ds 0 = Some n /\ (1 <= length ds <= k)%nat.
Proof.
  revert k. induction fuel as [|fuel IH]; intros k n p Hn Hk; [lia|]. cbn [hex_digits].
  change 0xf with (Z.ones 4). rewrite Z.land_ones, Z.shiftr_div_pow2 by lia. change (2 ^ 4) with 16.
  assert (0 <= n mod 16 < 16) as Hm by (apply Z.mod_pos_bound; lia). pose proof (hex_char_value _ Hm) as Hv.
  pose proof (Z.div_mod n 16 ltac:(lia)) as Hdm. destruct (Z.eqb_spec (n / 16) 0) as [E|E].
  - exists [hex_char hex (n mod 16)]. split; [done|]. cbn [digits_value length]. rewrite Hv, (proj2 (Z.ltb_lt _ _)) by lia.
    split; [f_equal|]; lia.
  - destruct k as [|[|k]]; [lia|change (16 ^ Z.of_nat 1) with 16 in Hn; rewrite Z.div_small in E; lia|].
    rewrite Nat2Z.inj_succ, Z.pow_succ_r in Hn by lia.
    destruct (IH (S k) (n / 16) (hex_char hex (n mod 16) :: p)) as (ds & -> & Hds & Hl).
    { split; [apply Z.div_pos; lia|]. apply Z.div_lt_upper_bound; lia. } { lia. }
    exists (ds ++ [hex_char hex (n mod 16)]). rewrite <- app_assoc. split; [done|].
    rewrite digits_value_app, Hds, Hv, (proj2 (Z.ltb_lt _ _)), length_app by lia. cbn [length]. split; [f_equal|]; lia.
Qed.

Lemma hex_text_ok w : 0 <= w < 65536 -> digits_value 16 (hex_text w) 0 = Some w /\ (1 <= length (hex_text w) <= 4)%nat.
Proof.
  intros Hw. destruct (hex_digits_value 4 64 w [] Hw ltac:(lia)) as (ds & E & Hds).
  assert (Et : hex_text w = ds); [|by rewrite Et].
  transitivity (put_num None (wrapU 64 w) " "%c 1 0); [done|]. rewrite put_num_text, wrapU_small by lia.
  unfold num_text, clip. cbn [Z.eqb Pos.eqb]. rewrite E, app_nil_r. done.
Qed.

Lemma sprintf_word w : ngx_sprintf $"%uxi" [Num w] = Ret (hex_text w).
Proof. rewrite <- (app_nil_r (hex_text w)). reflexivity. Qed.

Definition quad_text (a b c d : Z) : list Z :=
  dec_text a ++ "."%c :: dec_text b ++ "."%c :: dec_text c ++ "."%c :: dec_text d.

Lemma sprintf_quad a b c d : ngx_sprintf $"%ud.%ud.%ud.%ud" [Num a; Num b; Num c; Num d] = Ret (quad_text a b c d).
Proof. unfold quad_text. rewrite <- (app_nil_r (dec_text d)). reflexivity. Qed.

(** * IPv4 *)

Lemma dec_char c d : hex_value c = Some d -> d < 10 -> ("0"%c <=? c) && (c <=? "9"%c) = true /\ d = c - "0"%c.
Proof. unfold hex_value. intros H Hd. repeat case_match; boolify; simplify_eq; try lia; done. Qed.

Lemma inet_digits rest a n cs : forall v b, digits_value 10 cs v = Some b -> 0 <= v -> (v + 1) * 10 ^ Z.of_nat (length cs) <= 2 ^ 64 ->
  inet_loop (cs ++ rest) a v n = inet_loop rest a b n.
Proof.
  induction cs as [|c cs IH]; intros v b; cbn [digits_value app inet_loop length]; [by intros [= ->]|].
  destruct (hex_value c) as [d|] eqn:Ec; [|done]. destruct (Z.ltb_spec d 10) as [Hd|]; [|done]. intros H Hv Hb.
  destruct (dec_char c d Ec Hd) as [E ->]. rewrite E. apply andb_true_iff in E as [E1%Z.leb_le E2%Z.leb_le].
  rewrite Nat2Z.inj_succ, Z.pow_succ_r in Hb by lia.
  assert (0 < 10 ^ Z.of_nat (length cs)) by (apply Z.pow_pos_nonneg; lia).
  rewrite wrapU_small by nia. apply IH; [done|lia|nia].
Qed.

Lemma inet_octet rest a n b : is_byte b -> inet_loop (dec_text b ++ rest) a 0 n = inet_loop rest a b n.
Proof.
  intros Hb. destruct (dec_text_ok b Hb) as [Hv Hl]. apply inet_digits; [done|lia|].
  rewrite Z.add_0_l, Z.mul_1_l. transitivity (10 ^ 3); [|done]. apply Z.pow_le_mono_r; lia.
Qed.

Lemma inet_dot rest a n b : is_byte b -> inet_loop (dec_text b ++ "."%c :: rest) a 0 n =
  inet_loop rest (wrapU 32 (Z.shiftl a 8 + b)) 0 (wrapU 64 (n + 1)).
Proof. intros Hb. rewrite inet_octet by done. cbn [inet_loop]. rewrite (proj2 (Z.ltb_lt b 256)) by apply Hb. done. Qed.

(** The number with the bytes of an address. *)
Lemma quad_read a b c d : bytes_ok [a; b; c; d] -> ngx_inet_addr (quad_text a b c d) = le_val [a; b; c; d].
Proof.
  intros Hb. assert (Hq : is_byte a /\ is_byte b /\ is_byte c /\ is_byte d).
  { unfold bytes_ok in Hb. rewrite !Forall_cons in Hb. tauto. } destruct Hq as (Ha & Hb' & Hc & Hd).
  unfold ngx_inet_addr, quad_text. rewrite !inet_dot by done. rewrite <- (app_nil_r (dec_text d)), inet_octet by done.
  cbn [inet_loop]. change (wrapU 64 (wrapU 64 (wrapU 64 (0 + 1) + 1) + 1)) with 3. cbn [Z.eqb Pos.eqb andb].
  rewrite (proj2 (Z.ltb_lt d 256)) by apply Hd. unfold is_byte in *.
  assert (E : wrapU 32 (Z.shiftl (wrapU 32 (Z.shiftl (wrapU 32 (Z.shiftl (wrapU 32 (Z.shiftl 0 8 + a)) 8 + b)) 8 + c)) 8 + d) =
    le_val [d; c; b; a]).
  { rewrite !Z.shiftl_mul_pow2 by lia. change (2 ^ 8) with 256. cbn [le_val]. rewrite (wrapU_small 32 (0 * 256 + a)) by lia.
    rewrite (wrapU_small 32 ((0 * 256 + a) * 256 + b)) by lia.
    rewrite (wrapU_small 32 (((0 * 256 + a) * 256 + b) * 256 + c)) by lia. rewrite wrapU_small by lia. lia. }
  rewrite E. unfold htonl. change 4%nat with (length [d; c; b; a]). rewrite le_bytes_le_val; [done|].
  unfold bytes_ok. rewrite !Forall_cons. done.
Qed.

Lemma quad_length a b c d : bytes_ok [a; b; c; d] -> (length (quad_text a b c d) <= 15)%nat.
Proof.
  unfold bytes_ok. rewrite !Forall_cons. intros (Ha & Hb & Hc & Hd & _).
  destruct (dec_text_ok a Ha) as [_ ?], (dec_text_ok b Hb) as [_ ?], (dec_text_ok c Hc) as [_ ?], (dec_text_ok d Hd) as [_ ?].
  unfold quad_text. repeat (rewrite ?length_app; cbn [length]). lia.
Qed.

(** The text of an IPv4 address is read back, but for 255.255.255.255, whose
    number is that of the errors. *)
Theorem inet_addr_roundtrip addr len : length addr = 4%nat -> bytes_ok addr -> (NGX_INET_ADDRSTRLEN <= len)%nat ->
  exists text, ngx_inet_ntop false addr len = Ret text /\ ngx_inet_addr text = le_val addr /\ (length text <= NGX_INET_ADDRSTRLEN)%nat.
Proof.
  intros Hl Hb Hlen. destruct addr as [|a [|b [|c [|d [|]]]]]; try done. unfold ngx_inet_ntop, quad, octet_of. cbn [nth Nat.add].
  exists (quad_text a b c d). split; [|split; [by apply quad_read|by apply quad_length]]. unfold ngx_snprintf, ngx_vslprintf.
  rewrite (loop_clip _ _ _ _ _ (sprintf_quad a b c d)), take_ge; [done|]. pose proof (quad_length a b c d Hb).
  unfold NGX_INET_ADDRSTRLEN in Hlen. lia.
Qed.

(** * IPv6 *)

(** ** Reading *)

Definition lower_ok (c : Z) : bool :=
  bool_decide (hex_value c = None) ||
  (negb (c =? ":"%c) && negb (c =? "."%c) && (bool_decide (Z.lor c 0x20 = c) || (("0"%c <=? c) && (c <=? "9"%c)))).

Lemma hex_char_plain c d : hex_value c = Some d ->
  c <> ":"%c /\ c <> "."%c /\ (Z.lor c 0x20 = c \/ ("0"%c <=? c) && (c <=? "9"%c) = true).
Proof.
  intros E. assert (Hc : 0 <= c < Z.of_nat 128) by (unfold hex_value in E; repeat case_match; boolify; simplify_eq; lia).
  assert (Hl : lower_ok c = true) by (apply (all_below lower_ok 128); [vm_compute; reflexivity|exact Hc]).
  unfold lower_ok in Hl. rewrite E, (bool_decide_eq_false_2 (Some d = None)) in Hl by done. cbn [orb] in Hl.
  rewrite !andb_true_iff, orb_true_iff, !negb_true_iff, !Z.eqb_neq, bool_decide_eq_true in Hl.
  destruct Hl as [[H1 H2] H3]. split_and!; [done|done|]. destruct H3; [by left|by right].
Qed.

Lemma inet6_digits rest out z dg n cs : forall nib v w, digits_value 16 cs v = Some w -> 0 <= nib -> nib + Z.of_nat (length cs) <= 4 ->
  inet6_loop (cs ++ rest) (MkInet6 out z dg nib v n) = inet6_loop rest (MkInet6 out z dg (nib + Z.of_nat (length cs)) w n).
Proof.
  induction cs as [|c cs IH]; intros nib v w; cbn [digits_value app length].
  { intros [= ->] _ _. by rewrite Z.add_0_r. }
  destruct (hex_value c) as [d|] eqn:Ec; [|done]. destruct (Z.ltb_spec d 16) as [Hd|]; [|done]. intros H Hn Hl.
  destruct (hex_char_plain c d Ec) as (H1 & H2 & H3). cbn [inet6_loop].
  rewrite (proj2 (Z.eqb_neq _ _) H1), (proj2 (Z.eqb_neq _ _) H2). cbn [andb].
  replace (nib + 1 >? 4) with false by lia.
  replace (nib + Z.of_nat (S (length cs))) with (nib + 1 + Z.of_nat (length cs)) by lia.
  unfold hex_value in Ec. destruct (("0"%c <=? c) && (c <=? "9"%c)) eqn:Edec.
  - injection Ec as <-. apply IH; [done|lia|lia].
  - destruct H3 as [-> |?]; [|done]. destruct (("a"%c <=? c) && (c <=? "f"%c)); [|done]. injection Ec as <-.
    rewrite Z.add_assoc in H. apply IH; [done|lia|lia].
Qed.

Lemma word_hi a b : is_byte a -> is_byte b -> wrapU 8 (Z.shiftr (a * 256 + b) 8) = a.
Proof.
  unfold is_byte. intros Ha Hb. rewrite Z.shiftr_div_pow2 by lia. change (2 ^ 8) with 256.
  rewrite Z.div_add_l, Z.div_small, Z.add_0_r by lia. apply wrapU_small. lia.
Qed.

Lemma word_lo a b : is_byte a -> is_byte b -> Z.land (a * 256 + b) 0xff = b.
Proof.
  unfold is_byte. intros Ha Hb. change 0xff with (Z.ones 8). rewrite Z.land_ones by lia. change (2 ^ 8) with 256.
  rewrite Z.add_comm, Z.mod_add, Z.mod_small by lia. done.
Qed.

Section Words.
Context (a b : Z) (Ha : is_byte a) (Hb : is_byte b).

Lemma word_range : 0 <= a * 256 + b < 65536.
Proof. unfold is_byte in *. lia. Qed.

Lemma put2_word out : (length out + 2 <= 16)%nat ->
  put2 (wrapU 8 (Z.shiftr (a * 256 + b) 8)) (Z.land (a * 256 + b) 0xff) out = Ret (out ++ [a; b]).
Proof. intros Hl. unfold put2. rewrite (proj2 (Nat.leb_le _ _) Hl), word_hi, word_lo by done. done. Qed.

(** A word and a colon. *)
Lemma inet6_word rest out z dg n : (length out + 2 <= 16)%nat -> n <> 1 ->
  inet6_loop (hex_text (a * 256 + b) ++ ":"%c :: rest) (MkInet6 out z dg 0 0 n) =
  inet6_loop rest (MkInet6 (out ++ [a; b]) z (Some rest) 0 0 (n - 1)).
Proof.
  intros Hl Hn. destruct (hex_text_ok _ word_range) as [Hv Hlen]. rewrite (inet6_digits _ _ _ _ _ _ 0 0 _ Hv) by lia.
  cbn [inet6_loop Z.eqb Pos.eqb]. rewrite (proj2 (Z.eqb_neq (0 + Z.of_nat _) 0)) by lia. cbn [negb].
  rewrite put2_word by done. cbn [outcome_bind]. rewrite (proj2 (Z.eqb_neq (n - 1) 0)) by lia. done.
Qed.

(** The last word. *)
Lemma inet6_last out z dg n : exists nib, nib <> 0 /\
  inet6_loop (hex_text (a * 256 + b)) (MkInet6 out z dg 0 0 n) = Ret (Some (MkInet6 out z dg nib (a * 256 + b) n)).
Proof.
  destruct (hex_text_ok _ word_range) as [Hv Hlen]. rewrite <- (app_nil_r (hex_text _)).
  rewrite (inet6_digits _ _ _ _ _ _ 0 0 _ Hv) by lia. eexists. split; [|done]. lia.
Qed.

End Words.

Lemma inet6_colon rest out dg n :
  inet6_loop (":"%c :: rest) (MkInet6 out None dg 0 0 n) = inet6_loop rest (MkInet6 out (Some (length out)) (Some rest) 0 0 n).
Proof. done. Qed.

(** An IPv4 address at the end. *)
Lemma digits_value_hex cs : forall v w v', digits_value 10 cs v = Some w -> exists w', digits_value 16 cs v' = Some w'.
Proof.
  induction cs as [|c cs IH]; intros v w v'; cbn; [by eauto|]. destruct (hex_value c) as [d|]; [|done].
  destruct (Z.ltb_spec d 10); [|done]. rewrite (proj2 (Z.ltb_lt d 16)) by lia. apply IH.
Qed.

Lemma inet6_quad a b c d out z n : bytes_ok [a; b; c; d] -> le_val [a; b; c; d] <> INADDR_NONE -> 2 <= n -> (length out + 4 <= 16)%nat ->
  exists nib word, nib <> 0 /\ wrapU 8 (Z.shiftr word 8) = c /\ Z.land word 0xff = d /\
  inet6_loop (quad_text a b c d) (MkInet6 out z (Some (quad_text a b c d)) 0 0 n) =
  Ret (Some (MkInet6 (out ++ [a; b]) z (Some (quad_text a b c d)) nib word (n - 1))).
Proof.
  intros Hb Hne Hn Hl. pose proof (quad_read a b c d Hb) as Hr.
  assert (Hq : is_byte a /\ is_byte b /\ is_byte c /\ is_byte d).
  { unfold bytes_ok in Hb. rewrite !Forall_cons in Hb. tauto. } destruct Hq as (Ha & Hb' & Hc & Hd).
  destruct (dec_text_ok a Ha) as [Hv Hlen]. destruct (digits_value_hex _ _ _ 0 Hv) as [w' Hw'].
  exists (0 + Z.of_nat (length (dec_text a))), (le_val [d; c; b; a]).
  assert (Hh : htonl (le_val [a; b; c; d]) = le_val [d; c; b; a]).
  { unfold htonl. change 4%nat with (length [a; b; c; d]). rewrite le_bytes_le_val by done. done. }
  unfold is_byte in *. split; [lia|].
  assert (Hbytes : le_val [d; c; b; a] = ((a * 256 + b) * 256 + c) * 256 + d) by (cbn [le_val]; lia).
  split_and!.
  - rewrite Hbytes, Z.shiftr_div_pow2, Z.div_add_l, (Z.div_small d), Z.add_0_r by lia. unfold wrapU. change (2 ^ 8) with 256.
    rewrite Z.add_comm, Z.mod_add, Z.mod_small by lia. done.
  - rewrite Hbytes. change 0xff with (Z.ones 8). rewrite Z.land_ones by lia. change (2 ^ 8) with 256.
    rewrite Z.add_comm, Z.mod_add, Z.mod_small by lia. done.
  - unfold quad_text at 1. rewrite (inet6_digits _ _ _ _ _ _ 0 0 _ Hw') by lia.
    cbn [inet6_loop Z.eqb Pos.eqb]. rewrite (proj2 (Z.eqb_neq (0 + Z.of_nat _) 0)) by lia. cbn [andb negb].
    rewrite (proj2 (Z.ltb_ge n 2)) by lia. rewrite Hr, (proj2 (Z.eqb_neq _ _) Hne), Hh. unfold put2.
    rewrite (proj2 (Nat.leb_le _ _)) by lia. cbn [outcome_bind]. do 4 f_equal.
    change 0xff with (Z.ones 8). rewrite Hbytes, !Z.land_ones, !Z.shiftr_div_pow2 by lia. change (2 ^ 8) with 256.
    f_equal; [|f_equal].
    + replace (((a * 256 + b) * 256 + c) * 256 + d) with (a * 2 ^ 24 + (b * 65536 + c * 256 + d)) by lia.
      rewrite Z.div_add_l, (Z.div_small (_ + _)), Z.add_0_r, Z.mod_small by lia. done.
    + replace (((a * 256 + b) * 256 + c) * 256 + d) with ((a * 256 + b) * 2 ^ 16 + (c * 256 + d)) by lia.
      rewrite Z.div_add_l, (Z.div_small (_ + _)), Z.add_0_r, Z.add_comm, Z.mod_add, Z.mod_small by lia. done.
Qed.

(** ** Printing *)

(** A run of zero words: from the word [k], [m] words. *)
Definition zero_run (p : list Z) (k m : nat) : Prop := forall j, (2 * k <= j < 2 * (k + m))%nat -> octet_of p j = 0.

Definition run_ok (p : list Z) (r : option nat * nat) (s : nat) : Prop :=
  match r.1 with
  | None => True
  | Some i => exists k, i = (2 * k)%nat /\ (2 <= r.2)%nat /\ (k + r.2 <= s)%nat /\ zero_run p k r.2
  end.

Lemma longer_run_ok p zero last max n s : run_ok p (zero, max) s -> (1 <= max)%nat ->
  (n = 0%nat \/ exists k, last = Some (2 * k)%nat /\ (k + n <= s)%nat /\ zero_run p k n) ->
  run_ok p (longer_run zero last max n) s /\ (1 <= (longer_run zero last max n).2)%nat.
Proof.
  intros Hr Hm Hn. unfold longer_run. destruct (Nat.ltb_spec max n) as [Hlt|Hge]; [|done].
  destruct Hn as [->|(k & -> & Hk & Hz)]; [lia|]. split; [|cbn; lia]. exists k. split_and!; try done; cbn; lia.
Qed.

Lemma run_later p r s : run_ok p r s -> run_ok p r (S s).
Proof. unfold run_ok. destruct r.1; [|done]. intros (k & ? & ? & ? & ?). exists k. split_and!; try done. lia. Qed.

Lemma scan_ok p c : forall s zero last max n, run_ok p (zero, max) s -> (1 <= max)%nat ->
  (n = 0%nat \/ exists k, last = Some (2 * k)%nat /\ (k + n = s)%nat /\ zero_run p k n) ->
  run_ok p (scan_words (map (fun i => 2 * i)%nat (seq s c)) p zero last max n) (s + c).
Proof.
  induction c as [|c IH]; intros s zero last max n Hr Hm Hn; cbn [seq map scan_words].
  { rewrite Nat.add_0_r. apply longer_run_ok; [done|done|]. destruct Hn as [->|(k & -> & Hk & Hz)]; [by left|right].
    exists k. split_and!; try done. lia. }
  replace (s + S c)%nat with (S s + c)%nat by lia.
  destruct (negb (octet_of p (2 * s) =? 0) || negb (octet_of p (2 * s + 1) =? 0)) eqn:Eb.
  - destruct (longer_run_ok p zero last max n s Hr Hm) as [Hr' Hm'].
    { destruct Hn as [->|(k & -> & Hk & Hz)]; [by left|right]. exists k. split_and!; try done. lia. }
    destruct (longer_run zero last max n) as [zero' max']. apply IH; [by apply run_later|done|by left].
  - apply orb_false_iff in Eb as [E1%negb_false_iff%Z.eqb_eq E2%negb_false_iff%Z.eqb_eq].
    apply IH; [by apply run_later|done|right]. destruct Hn as [->|(k & -> & Hk & Hz)].
    + exists s. cbn [Nat.eqb]. split_and!; [done|lia|]. intros j Hj. assert (j = 2 * s \/ j = 2 * s + 1)%nat as [->| ->] by lia; done.
    + exists k. split_and!; [destruct n; [f_equal; lia|done]|lia|]. intros j Hj. destruct (decide (j < 2 * s)%nat) as [Hlt|Hge]; [apply Hz; lia|].
      assert (j = 2 * s \/ j = 2 * s + 1)%nat as [->| ->] by lia; done.
Qed.

Lemma scan_start p zero max : scan_words word_indexes p None None 1 0 = (zero, max) ->
  zero = None \/ exists k, zero = Some (2 * k)%nat /\ (2 <= max)%nat /\ (k + max <= 8)%nat /\ zero_run p k max.
Proof.
  intros E. pose proof (scan_ok p 8 0 None None 1 0 I ltac:(lia) (or_introl eq_refl)) as H.
  change (map (fun i => 2 * i)%nat (seq 0 8)) with word_indexes in H. rewrite E in H. unfold run_ok in H. cbn [fst snd Nat.add] in H.
  destruct zero as [i|]; [right|by left]. destruct H as (k & -> & H). by exists k.
Qed.

(** The form that is read back: an address printed with an IPv4 address in it
    does not end with 255.255.255.255. *)
Definition readable6 (p : list Z) : Prop :=
  let '(zero, max) := scan_words word_indexes p None None 1 0 in
  v4_tail p zero max = true -> drop 12 p <> [255; 255; 255; 255].

Lemma ntop_end f p zero m n i : (i <? n)%nat = false -> ntop_loop (S f) p zero m n i = Ret [].
Proof. intros E. cbn [ntop_loop]. by rewrite E. Qed.

Lemma ntop_run f p m n i : (i <? n)%nat = true ->
  ntop_loop (S f) p (Some i) m n i = let! more := ntop_loop f p (Some i) m n (i + (m - 1) * 2 + 2) in Ret (":"%c :: more).
Proof. intros E. cbn [ntop_loop]. rewrite E, bool_decide_eq_true_2 by done. done. Qed.

Lemma ntop_word f p zero m n i : (i <? n)%nat = true -> zero <> Some i ->
  ntop_loop (S f) p zero m n i = let! more := ntop_loop f p zero m n (i + 2) in
    Ret (hex_text (octet_of p i * 256 + octet_of p (i + 1)) ++ (if (i <? 14)%nat then [":"%c] else []) ++ more).
Proof. intros E Hz. cbn [ntop_loop]. rewrite E, bool_decide_eq_false_2, sprintf_word by done. done. Qed.

(** The first byte of a word is no colon. *)
Lemma inet6_start a b rest : is_byte a -> is_byte b -> ngx_inet6_addr (hex_text (a * 256 + b) ++ rest) =
  let! o := inet6_loop (hex_text (a * 256 + b) ++ rest) (MkInet6 [] None None 0 0 8) in
  match o with None => Ret None | Some st => inet6_end st end.
Proof.
  intros Ha Hb. destruct (hex_text_ok _ (word_range a b Ha Hb)) as [Hv Hl]. destruct (hex_text (a * 256 + b)) as [|c cs]; [cbn in Hl; lia|].
  cbn [app ngx_inet6_addr]. cbn [digits_value] in Hv. destruct (hex_value c) as [d|] eqn:Ec; [|done].
  destruct (hex_char_plain c d Ec) as (Hc & _). by rewrite (proj2 (Z.eqb_neq _ _) Hc).
Qed.

Lemma end_word a b out dg nib n : is_byte a -> is_byte b -> nib <> 0 -> (length out + 2 <= 16)%nat ->
  inet6_end (MkInet6 out None dg nib (a * 256 + b) n) = Ret (if n - 1 =? 0 then Some (out ++ [a; b]) else None) /\
  forall z, inet6_end (MkInet6 out (Some z) dg nib (a * 256 + b) n) =
    if n - 1 =? 0 then Ret None else let! addr := spread z (Z.to_nat ((n - 1) * 2)) (out ++ [a; b]) in Ret (Some addr).
Proof.
  intros Ha Hb Hn Hl. unfold inet6_end. rewrite (proj2 (Z.eqb_neq _ _) Hn), put2_word by done. cbn [outcome_bind].
  split; [|intros z]; by destruct (n - 1 =? 0).
Qed.

Ltac zero_byte Hz j := try (let E := fresh "E" in assert (E := Hz j ltac:(lia)); cbn in E; subst).

Ltac zero_bytes Hz :=
  zero_byte Hz 0%nat; zero_byte Hz 1%nat; zero_byte Hz 2%nat; zero_byte Hz 3%nat; zero_byte Hz 4%nat; zero_byte Hz 5%nat;
  zero_byte Hz 6%nat; zero_byte Hz 7%nat; zero_byte Hz 8%nat; zero_byte Hz 9%nat; zero_byte Hz 10%nat; zero_byte Hz 11%nat;
  zero_byte Hz 12%nat; zero_byte Hz 13%nat; zero_byte Hz 14%nat; zero_byte Hz 15%nat.

(** The text of the words. *)
Ltac print6 :=
  repeat first [rewrite ntop_end by done|rewrite ntop_run by done|rewrite ntop_word by done];
  cbn [outcome_bind octet_of nth Nat.add Nat.sub Nat.mul Nat.ltb Nat.leb app].

(** The length of the text. *)
Ltac length6 :=
  repeat match goal with
  | |- context [hex_text (?a * 256 + ?b)] =>
    let H := fresh "H" in
    assert (H : (length (hex_text (a * 256 + b)) <= 4)%nat) by (apply hex_text_ok, word_range; assumption);
    revert H; generalize (hex_text (a * 256 + b)); intros ? H
  end; repeat (rewrite ?length_app; cbn [length]); unfold NGX_INET6_ADDRSTRLEN; lia.

(** The words read back. *)
Ltac read6 :=
  rewrite <- ?app_assoc; cbn [app];
  first [rewrite inet6_start by assumption|cbn [ngx_inet6_addr Z.eqb Pos.eqb]];
  repeat first [rewrite inet6_word by first [assumption|cbn; lia]|rewrite inet6_colon];
  rewrite ?app_nil_r;
  try match goal with
  | |- context [inet6_loop (hex_text (?a * 256 + ?b)) (MkInet6 ?out ?z ?dg 0 0 ?n)] =>
    destruct (inet6_last a b ltac:(assumption) ltac:(assumption) out z dg n) as (nib & Hnib & ->); cbn [outcome_bind];
    destruct (end_word a b out dg nib n ltac:(assumption) ltac:(assumption) Hnib ltac:(cbn; lia)) as [E1 E2];
    rewrite ?E1, ?E2; clear E1 E2
  end; reflexivity.

Abbreviation sixteen b0 b1 b2 b3 b4 b5 b6 b7 b8 b9 b10 b11 b12 b13 b14 b15 :=
  [b0; b1; b2; b3; b4; b5; b6; b7; b8; b9; b10; b11; b12; b13; b14; b15] (only parsing).

Lemma plain_words b0 b1 b2 b3 b4 b5 b6 b7 b8 b9 b10 b11 b12 b13 b14 b15 :
  let p := sixteen b0 b1 b2 b3 b4 b5 b6 b7 b8 b9 b10 b11 b12 b13 b14 b15 in
  Forall is_byte p -> exists words, forall max, ntop_loop 9 p None max 16 0 = Ret words /\
  (length words <= NGX_INET6_ADDRSTRLEN)%nat /\ ngx_inet6_addr words = Ret (Some p).
Proof.
  cbn zeta. rewrite !Forall_cons. intros Hb. destruct_and! Hb. eexists. intros max. print6. split; [done|]. split; [length6|read6].
Qed.

Definition colon_if (b : bool) : list Z := if b then [":"%c] else [].

Lemma run_words b0 b1 b2 b3 b4 b5 b6 b7 b8 b9 b10 b11 b12 b13 b14 b15 k m : 
  let p := sixteen b0 b1 b2 b3 b4 b5 b6 b7 b8 b9 b10 b11 b12 b13 b14 b15 in
  Forall is_byte p -> (2 <= m)%nat -> (k + m <= 8)%nat -> zero_run p k m ->
  exists words, ntop_loop 9 p (Some (2 * k)%nat) m 16 0 = Ret words /\
    (length (colon_if (k =? 0)%nat ++ words) <= NGX_INET6_ADDRSTRLEN)%nat /\
    ngx_inet6_addr (colon_if (k =? 0)%nat ++ words) = Ret (Some p).
Proof.
  intros p Hb Hm Hkm Hz. unfold p in *. clear p. rewrite !Forall_cons in Hb. destruct_and! Hb.
  destruct k as [|[|[|[|[|[|[|k]]]]]]]; [..|lia]; (destruct m as [|[|[|[|[|[|[|[|[|m]]]]]]]]]; try lia);
    zero_bytes Hz; cbn [Nat.mul Nat.add]; print6; (eexists; split; [done|]); cbn [colon_if Nat.eqb app]; (split; [length6|read6]).
Qed.

(** The texts with an IPv4 address at the end. *)
Lemma v4_words b0 b1 b2 b3 b4 b5 b6 b7 b8 b9 b10 b11 b12 b13 b14 b15 m :
  let p := sixteen b0 b1 b2 b3 b4 b5 b6 b7 b8 b9 b10 b11 b12 b13 b14 b15 in
  Forall is_byte p -> m = 5%nat \/ m = 6%nat \/ m = 7%nat -> zero_run p 0 m -> [b12; b13; b14; b15] <> [255; 255; 255; 255] ->
  exists words, ntop_loop 9 p (Some 0%nat) m 12 0 = Ret words /\
    (length ((":"%c :: words) ++ quad_text b12 b13 b14 b15) <= NGX_INET6_ADDRSTRLEN)%nat /\
    ngx_inet6_addr ((":"%c :: words) ++ quad_text b12 b13 b14 b15) = Ret (Some p).
Proof.
  cbn zeta. intros Hb Hm Hz Hne. assert (Hq : bytes_ok [b12; b13; b14; b15]).
  { unfold bytes_ok. rewrite !Forall_cons in Hb. rewrite !Forall_cons. tauto. }
  assert (Hval : le_val [b12; b13; b14; b15] <> INADDR_NONE).
  { intros E. apply Hne. rewrite <- (le_bytes_le_val _ Hq), E. done. }
  pose proof (quad_length _ _ _ _ Hq) as Hlen. rewrite !Forall_cons in Hb. destruct_and! Hb.
  destruct Hm as [->|[->| ->]]; zero_bytes Hz; print6; (eexists; split; [done|]);
    (split; [revert Hlen; generalize (quad_text b12 b13 b14 b15) as q || generalize (quad_text 0 0 b14 b15) as q; intros q Hlen; length6|]).
  all: cbn [app ngx_inet6_addr Z.eqb Pos.eqb]; rewrite <- ?app_assoc; cbn [app];
    repeat first [rewrite inet6_word by first [assumption|cbn; lia]|rewrite inet6_colon].
  all: match goal with
       | |- context [inet6_loop (quad_text ?a ?b ?c ?d) (MkInet6 ?out ?z _ 0 0 ?n)] =>
         destruct (inet6_quad a b c d out z n Hq Hval ltac:(lia) ltac:(cbn; lia)) as (nib & word & Hnib & Hhi & Hlo & ->)
       end; cbn [outcome_bind inet6_end]; rewrite (proj2 (Z.eqb_neq _ _) Hnib), Hhi, Hlo; reflexivity.
Qed.

(** The text of an IPv6 address fits and is read back to the address. *)
Theorem inet6_addr_roundtrip p len : length p = 16%nat -> bytes_ok p -> readable6 p -> (NGX_INET6_ADDRSTRLEN <= len)%nat ->
  exists text, ngx_inet6_ntop p len = Ret text /\ (length text <= NGX_INET6_ADDRSTRLEN)%nat /\
    ngx_inet6_addr text = Ret (Some p).
Proof.
  intros Hl Hb Hr Hlen. unfold ngx_inet6_ntop. rewrite (proj2 (Nat.ltb_ge _ _) Hlen). unfold readable6 in Hr.
  destruct (scan_words word_indexes p None None 1 0) as [zero max] eqn:Es. apply scan_start in Es.
  destruct p as [|b0 [|b1 [|b2 [|b3 [|b4 [|b5 [|b6 [|b7 [|b8 [|b9 [|b10 [|b11 [|b12 [|b13 [|b14 [|b15 [|]]]]]]]]]]]]]]]]]; try done.
  clear Hl Hlen. destruct Es as [->|(k & -> & Hm & Hk & Hz)].
  - destruct (plain_words _ _ _ _ _ _ _ _ _ _ _ _ _ _ _ _ Hb) as (words & Hw). destruct (Hw max) as (E & Hlen & Hread).
    replace (v4_tail _ None max) with false by done. exists words. rewrite E. cbn [outcome_bind app Nat.eqb]. by rewrite app_nil_r.
  - destruct (v4_tail _ _ max) eqn:Ev.
    + specialize (Hr eq_refl). cbn [drop] in Hr. unfold v4_tail in Ev. apply andb_true_iff in Ev as [E0%bool_decide_eq_true Ev].
      injection E0 as E0. assert (k = 0)%nat as -> by lia. change (2 * 0)%nat with 0%nat in *.
      assert (Hm5 : max = 5%nat \/ max = 6%nat \/ max = 7%nat).
      { rewrite !orb_true_iff, !andb_true_iff, !Nat.eqb_eq in Ev. tauto. }
      destruct (v4_words _ _ _ _ _ _ _ _ _ _ _ _ _ _ _ _ max Hb Hm5 Hz Hr) as (words & E & Hlen & Hread).
      rewrite E. cbn [outcome_bind Nat.eqb]. unfold quad. cbn [octet_of nth Nat.add]. rewrite sprintf_quad. cbn [outcome_bind].
      rewrite bool_decide_eq_true_2 by done. eexists. split; [reflexivity|]. done.
    + destruct (run_words _ _ _ _ _ _ _ _ _ _ _ _ _ _ _ _ k max Hb Hm Hk Hz) as (words & E & Hlen & Hread).
      rewrite E. cbn [outcome_bind Nat.eqb]. eexists. split; [reflexivity|]. rewrite app_nil_r.
      replace (if bool_decide (Some (2 * k)%nat = Some 0%nat) then [":"%c] else []) with (colon_if (k =? 0)%nat); [done|].
      unfold colon_if. destruct (Nat.eqb_spec k 0) as [->|Hk0]; [done|]. rewrite bool_decide_eq_false_2; [done|]. intros [= ?]; lia.
Qed.

(** ** Both *)

(** A colon is no part of an IPv4 address, and an IPv6 address has one. *)
Lemma inet_no_colon text : forall a o n, ":"%c ∈ text -> inet_loop text a o n = None.
Proof.
  induction text as [|c text IH]; intros a o n Hin; [by apply elem_of_nil in Hin|]. cbn [inet_loop].
  apply elem_of_cons in Hin as [<-|Hin]; [done|]. repeat case_match; auto.
Qed.

Lemma inet6_colon_free text : forall out nib w n, (":"%c ∉ text) -> match inet6_loop text (MkInet6 out None None nib w n) with
  | Ret (Some st) => i6_zero st = None /\ i6_n st = n
  | Ret None => True
  | _ => False
  end.
Proof.
  induction text as [|c text IH]; intros out nib w n Hin; cbn [inet6_loop]; [done|].
  apply not_elem_of_cons in Hin as [Hc Hin]. rewrite (proj2 (Z.eqb_neq c ":"%c)) by congruence.
  repeat match goal with |- context [if ?b then _ else _] => destruct b end; try done; by apply IH.
Qed.

Lemma inet6_has_colon text p : ngx_inet6_addr text = Ret (Some p) -> ":"%c ∈ text.
Proof.
  intros E. destruct (decide (":"%c ∈ text)) as [|Hn]; [done|]. exfalso. destruct text as [|c text]; [done|].
  cbn [ngx_inet6_addr] in E. apply not_elem_of_cons in Hn as Hc. destruct Hc as [Hc _]. rewrite (proj2 (Z.eqb_neq c ":"%c)) in E by congruence.
  pose proof (inet6_colon_free (c :: text) [] 0 0 8 Hn) as H. destruct (inet6_loop (c :: text) _) as [[st|]| |]; try done.
  cbn [outcome_bind] in E. destruct st as [addr zero dg nib word n]. cbn in H. destruct H as [-> ->]. cbn [inet6_end] in E.
  destruct (nib =? 0); [done|]. unfold put2 in E. destruct (length addr + 2 <=? 16)%nat; done.
Qed.

(** Addresses.  What ngx_inet_ntop writes for an IPv4 address, and for an
    IPv6 address with its longest run of zeros shortened or with an IPv4
    address at its end, fits into the memory the code gives it and is read back
    by ngx_parse_addr to the same address.  The address 255.255.255.255, alone
    or at the end, is not: its number is INADDR_NONE. *)
Theorem address_roundtrip addr len : bytes_ok addr -> (NGX_INET6_ADDRSTRLEN <= len)%nat ->
  (length addr = 4%nat -> addr <> [255; 255; 255; 255] ->
     exists text, ngx_inet_ntop false addr len = Ret text /\ (length text <= NGX_INET_ADDRSTRLEN)%nat /\
       ngx_parse_addr text = Ret (Some (SockIn 0 (le_val addr)))) /\
  (length addr = 16%nat -> readable6 addr ->
     exists text, ngx_inet_ntop true addr len = Ret text /\ (length text <= NGX_INET6_ADDRSTRLEN)%nat /\
       ngx_parse_addr text = Ret (Some (SockIn6 0 addr))).
Proof.
  intros Hb Hlen. split; intros Hl Hne.
  - destruct addr as [|a [|b [|c [|d [|]]]]]; try done.
    destruct (inet_addr_roundtrip [a; b; c; d] len Hl Hb ltac:(unfold NGX_INET_ADDRSTRLEN, NGX_INET6_ADDRSTRLEN in *; lia)) as (text & E & Hr & Ht).
    exists text. split; [done|]. split; [done|]. unfold ngx_parse_addr. rewrite Hr. rewrite (proj2 (Z.eqb_neq _ _)); [done|].
    intros Ex. apply Hne. rewrite <- (le_bytes_le_val _ Hb), Ex. done.
  - destruct (inet6_addr_roundtrip addr len Hl Hb Hne Hlen) as (text & E & Ht & Hr). exists text. split; [done|]. split; [done|].
    unfold ngx_parse_addr. replace (ngx_inet_addr text) with INADDR_NONE.
    + cbn [Z.eqb Pos.eqb negb INADDR_NONE]. by rewrite Hr.
    + unfold ngx_inet_addr. by rewrite inet_no_colon by (by eapply inet6_has_colon).
Qed.

Lemma address_roundtrip_witness :
  (exists text, ngx_inet_ntop false [192; 168; 0; 1] 45 = Ret text /\ (length text <= NGX_INET_ADDRSTRLEN)%nat /\
     ngx_parse_addr text = Ret (Some (SockIn 0 0x0100a8c0))) /\
  (exists text, ngx_inet_ntop true [32; 1; 13; 184; 0; 0; 0; 0; 0; 0; 0; 0; 0; 0; 0; 1] 45 = Ret text /\
     (length text <= NGX_INET6_ADDRSTRLEN)%nat /\
     ngx_parse_addr text = Ret (Some (SockIn6 0 [32; 1; 13; 184; 0; 0; 0; 0; 0; 0; 0; 0; 0; 0; 0; 1]))).
Proof.
  split.
  - apply (proj1 (address_roundtrip [192; 168; 0; 1] 45 ltac:(apply (bool_decide_unpack _); vm_compute; exact I) ltac:(unfold NGX_INET6_ADDRSTRLEN; lia))); done.
  - apply (proj2 (address_roundtrip [32; 1; 13; 184; 0; 0; 0; 0; 0; 0; 0; 0; 0; 0; 0; 1] 45
      ltac:(apply (bool_decide_unpack _); vm_compute; exact I) ltac:(unfold NGX_INET6_ADDRSTRLEN; lia))); [done|]. by vm_compute.
Defined.

(** Texts that are no addresses and are read as one: empty numbers, a number
    that overflows, a colon before the first or behind the last word. *)
Example odd_addresses :
  ngx_inet_addr $"..." = INADDR_ANY /\
  ngx_inet_addr $"18446744073709551617.0.0.1" = ngx_inet_addr $"1.0.0.1" /\
  ngx_inet6_addr $":1:2:3:4:5:6:7:8" = ngx_inet6_addr $"1:2:3:4:5:6:7:8" /\
  ngx_inet6_addr $"1::2:" = ngx_inet6_addr $"1::2:0".
Proof. split_and!; vm_compute; reflexivity. Qed.

(** The text of the mapped address of 255.255.255.255 is refused. *)
Example mapped_broadcast :
  ngx_inet6_ntop [0; 0; 0; 0; 0; 0; 0; 0; 0; 0; 255; 255; 255; 255; 255; 255] 45 = Ret $"::ffff:255.255.255.255" /\
  ngx_inet6_addr $"::ffff:255.255.255.255" = Ret None.
Proof. split; vm_compute; reflexivity. Qed.

End InetText.
