(* ===== verification/NgxInetCidr.v ===== *)
(** Networks: what ngx_ptocidr makes of the text of a network is the prefix of
    its address in the radix tree. *)

From S2P Require Import Prelude NgxNumber NgxRadixTree NgxRadixTreeRun NgxRadixTreeMap NgxInet NgxInetText.

Module InetCidr.

Import Number RadixTreeMap Inet InetText.

(** * Bits *)

Lemma testbit_low b x n : 0 <= b < 256 -> 0 <= n -> Z.testbit (b + 256 * x) n = if n <? 8 then Z.testbit b n else Z.testbit x (n - 8).
Proof.
  intros Hb Hn. destruct (Z.ltb_spec n 8).
  - rewrite <- (Z.mod_pow2_bits_low (b + 256 * x) 8 n) by lia. change (2 ^ 8) with 256.
    rewrite Z.mul_comm, Z.mod_add, Z.mod_small by lia. done.
  - replace n with (n - 8 + 8) at 1 by lia. rewrite <- Z.div_pow2_bits by lia. change (2 ^ 8) with 256.
    rewrite Z.mul_comm, Z.div_add, Z.div_small by lia. done.
Qed.

Lemma byte_land b c : is_byte b -> is_byte c -> is_byte (Z.land b c).
Proof.
  unfold is_byte. intros Hb Hc. assert (0 <= Z.land b c) by (apply Z.land_nonneg; lia). split; [done|].
  destruct (Z.eq_dec (Z.land b c) 0) as [->|Hne]; [lia|]. change 256 with (2 ^ 8). apply Z.log2_lt_pow2; [lia|].
  pose proof (Z.log2_land b c ltac:(lia) ltac:(lia)). assert (Z.log2 b < 8); [|lia].
  destruct (Z.eq_dec b 0) as [->|]; [done|]. apply Z.log2_lt_pow2; lia.
Qed.

Lemma land_low b x c y : is_byte b -> is_byte c -> Z.land (b + 256 * x) (c + 256 * y) = Z.land b c + 256 * Z.land x y.
Proof.
  intros Hb Hc. pose proof (byte_land b c Hb Hc) as Hl.
  apply Z.bits_inj'. intros n Hn. rewrite Z.land_spec, !testbit_low by done. destruct (n <? 8); by rewrite Z.land_spec.
Qed.

Lemma bytes_land l : forall k, bytes_ok l -> bytes_ok k -> length l = length k ->
  bytes_ok (zip_with Z.land l k) /\ Z.land (le_val l) (le_val k) = le_val (zip_with Z.land l k).
Proof.
  induction l as [|b l IH]; intros [|c k] Hl Hk Hlen; try done. apply bytes_ok_cons in Hl as [Hb Hl], Hk as [Hc Hk].
  destruct (IH k Hl Hk ltac:(cbn in Hlen; lia)) as [IH1 IH2]. cbn [zip_with le_val]. rewrite land_low, IH2 by done.
  split; [|done]. apply bytes_ok_cons. split; [by apply byte_land|done].
Qed.

Lemma bytes_rev l : bytes_ok l -> bytes_ok (rev l).
Proof. unfold bytes_ok. rewrite !Forall_forall. intros H x Hx. apply H. by apply list_elem_of_In, in_rev, list_elem_of_In. Qed.

Lemma htonl_bytes l : length l = 4%nat -> bytes_ok l -> htonl (le_val l) = le_val (rev l).
Proof. intros Hl Hb. unfold htonl. rewrite <- Hl at 1. by rewrite le_bytes_le_val. Qed.

Lemma word_bytes x : 0 <= x < 2 ^ 32 -> exists l, length l = 4%nat /\ bytes_ok l /\ x = le_val l.
Proof. intros Hx. exists (le_bytes 4 x). split; [done|]. split; [apply le_bytes_ok|]. symmetry. by apply le_val_small. Qed.

Lemma htonl_range x : 0 <= htonl x < 2 ^ 32.
Proof. unfold htonl. pose proof (le_val_range (rev (le_bytes 4 x)) (bytes_rev _ (le_bytes_ok 4 x))). done. Qed.

Lemma htonl_htonl x : 0 <= x < 2 ^ 32 -> htonl (htonl x) = x.
Proof.
  intros (l & Hl & Hb & ->)%word_bytes. rewrite htonl_bytes by done. rewrite htonl_bytes, rev_involutive; [done|by rewrite length_rev|by apply bytes_rev].
Qed.

Lemma htonl_land x m : 0 <= x < 2 ^ 32 -> 0 <= m < 2 ^ 32 -> htonl (Z.land x (htonl m)) = Z.land (htonl x) m.
Proof.
  intros (l & Hl & Hbl & ->)%word_bytes (k & Hk & Hbk & ->)%word_bytes. rewrite !htonl_bytes by done.
  destruct (bytes_land l (rev k) Hbl (bytes_rev _ Hbk) ltac:(by rewrite length_rev, Hk)) as [Hz ->].
  rewrite htonl_bytes; [|rewrite length_zip_with, length_rev, Hl, Hk; done|done].
  destruct (bytes_land (rev l) k (bytes_rev _ Hbl) Hbk ltac:(by rewrite length_rev, Hk)) as [_ ->].
  f_equal. destruct l as [|a [|b [|c [|d [|]]]]], k as [|a' [|b' [|c' [|d' [|]]]]]; try done.
Qed.

(** * Masks *)

(** A mask takes the bits of a key that it has in front, whether the others are
    cleared or not. *)
Lemma prefix_land m a n rest rest' : prefix_bits (word_bits n m ++ rest) (word_bits n (Z.land a m) ++ rest') =
  prefix_bits (word_bits n m ++ rest) (word_bits n a ++ rest').
Proof.
  induction n as [|n IH]; [done|]. cbn [word_bits app prefix_bits]. rewrite Z.land_spec.
  destruct (Z.testbit m (Z.of_nat n)); [|done]. by rewrite andb_true_r, IH.
Qed.

Lemma prefix_take s : forall key rest, (s <= length key)%nat -> prefix_bits (repeat true s ++ false :: rest) key = take s key.
Proof. induction s as [|s IH]; intros [|b key] rest Hs; cbn in *; try done; try lia. by rewrite IH by lia. Qed.

Lemma prefix_full s : forall key rest tail, length key = s -> prefix_bits (repeat true s ++ rest) (key ++ tail) = key ++ prefix_bits rest tail.
Proof. induction s as [|s IH]; intros [|b key] rest tail Hs; cbn in *; try done. by rewrite IH by lia. Qed.

Definition mask_ok (n : nat) (m : Z -> Z) (s : Z) : bool :=
  bool_decide (word_bits n (m s) = repeat true (Z.to_nat s) ++ repeat false (n - Z.to_nat s)).

Definition mask32 (s : Z) : Z := if negb (s =? 0) then wrapU 32 (Z.shiftl 0xffffffff (32 - s)) else 0.
Definition mask8 (s : Z) : Z := wrapU 8 (Z.shiftl 0xff (8 - s)).

Lemma mask32_bits s : 0 <= s <= 32 -> word_bits 32 (mask32 s) = repeat true (Z.to_nat s) ++ repeat false (32 - Z.to_nat s).
Proof.
  intros Hs. apply (bool_decide_eq_true_1 _). change (mask_ok 32 mask32 s = true).
  apply (all_below (mask_ok 32 mask32) 33); [vm_compute; reflexivity|lia].
Qed.

Lemma mask8_bits s : 0 <= s <= 8 -> word_bits 8 (mask8 s) = repeat true (Z.to_nat s) ++ repeat false (8 - Z.to_nat s).
Proof.
  intros Hs. apply (bool_decide_eq_true_1 _). change (mask_ok 8 mask8 s = true).
  apply (all_below (mask_ok 8 mask8) 9); [vm_compute; reflexivity|lia].
Qed.

Lemma prefix_repeat s n key rest tail : (s <= n)%nat -> length key = n ->
  prefix_bits ((repeat true s ++ repeat false (n - s)) ++ rest) (key ++ tail) =
  if (s <? n)%nat then take s key else key ++ prefix_bits rest tail.
Proof.
  intros Hs Hk. destruct (Nat.ltb_spec s n) as [Hlt|Hge].
  - destruct (n - s)%nat as [|j] eqn:Ej; [lia|]. cbn [repeat]. rewrite <- app_assoc. cbn [app].
    rewrite prefix_take by (rewrite length_app; lia). by rewrite take_app_le by lia.
  - replace (n - s)%nat with 0%nat by lia. cbn [repeat]. rewrite app_nil_r. apply prefix_full. lia.
Qed.

(** The first [k] of [n] bits, and no other. *)
Definition masked (k n : nat) (bits : list bool) : list bool := take k bits ++ repeat false (n - k).
Definition ones (k n : nat) : list bool := repeat true k ++ repeat false (n - k).

Lemma word_bits_land n a m : word_bits n (Z.land a m) = zip_with andb (word_bits n a) (word_bits n m).
Proof. induction n as [|n IH]; [done|]. cbn [word_bits zip_with]. by rewrite Z.land_spec, IH. Qed.

Lemma zip_ones k n bits : length bits = n -> (k <= n)%nat -> zip_with andb bits (ones k n) = masked k n bits.
Proof.
  unfold ones, masked. revert n bits. induction k as [|k IH]; intros n bits Hl Hk.
  - rewrite Nat.sub_0_r. cbn [repeat app]. revert n Hl Hk. induction bits as [|x bits IHb]; intros [|n] Hl Hk; try done. cbn [repeat zip_with take app]. rewrite andb_false_r. f_equal.
    specialize (IHb n ltac:(cbn in Hl; lia) ltac:(lia)). by rewrite take_0 in IHb.
  - destruct bits as [|x bits], n as [|n]; try (cbn in Hl; lia). cbn [repeat app zip_with take]. rewrite andb_true_r. f_equal. apply IH; [cbn in Hl; lia|lia].
Qed.

Lemma masked_prefix k n key : length key = n -> (k <= n)%nat -> prefix_bits (ones k n) (masked k n key) = take k key.
Proof.
  intros Hl Hk. unfold ones, masked. rewrite prefix_full by (rewrite length_take; lia).
  destruct (n - k)%nat; cbn [repeat prefix_bits]; by rewrite app_nil_r.
Qed.

(** * Networks *)

Lemma cidr4_prefix addr shift : 0 <= addr < 2 ^ 32 -> 0 <= shift <= 32 ->
  exists rc a m, cidr4 addr shift = Some (rc, CidrIn a m) /\
    word_bits 32 (htonl a) = masked (Z.to_nat shift) 32 (word_bits 32 (htonl addr)) /\
    word_bits 32 (htonl m) = ones (Z.to_nat shift) 32 /\ rc = (if decide (a = addr) then NGX_OK else NGX_DONE).
Proof.
  intros Ha Hs. unfold cidr4. replace (shift >? 32) with false by lia.
  set (m := if negb (shift =? 0) then _ else _).
  assert (Em : m = htonl (mask32 shift)) by (unfold m, mask32; destruct (shift =? 0); done).
  assert (Hm : 0 <= mask32 shift < 2 ^ 32) by (unfold mask32; destruct (shift =? 0); [done|apply wrapU_range; lia]).
  assert (Hmask : word_bits 32 (htonl m) = ones (Z.to_nat shift) 32) by (rewrite Em, htonl_htonl by done; by apply mask32_bits).
  assert (Hbits : word_bits 32 (htonl (Z.land addr m)) = masked (Z.to_nat shift) 32 (word_bits 32 (htonl addr))).
  { rewrite Em, htonl_land, word_bits_land, mask32_bits by done. apply zip_ones; [apply length_word_bits|lia]. }
  destruct (Z.eqb_spec addr (Z.land addr m)) as [E|E].
  - exists NGX_OK, addr, m. rewrite decide_True by done. by rewrite <- E in Hbits.
  - exists NGX_DONE, (Z.land addr m), m. rewrite decide_False by congruence. done.
Qed.

Lemma cidr6_prefix addr : forall shift, 0 <= shift <= 8 * Z.of_nat (length addr) ->
  let '(a, m, cleared) := cidr6_loop addr shift in
  bytes_bits a = masked (Z.to_nat shift) (8 * length addr) (bytes_bits addr) /\
  bytes_bits m = ones (Z.to_nat shift) (8 * length addr) /\ (cleared = false <-> a = addr).
Proof.
  induction addr as [|b addr IH]; intros shift Hs; cbn [cidr6_loop].
  { assert (shift = 0) as -> by (cbn in Hs; lia). done. }
  set (s := if shift >? 8 then 8 else shift). assert (Hs8 : 0 <= s <= 8 /\ s <= shift /\ (s < 8 -> s = shift)).
  { unfold s. destruct (Z.gtb_spec shift 8); lia. }
  fold (mask8 s). cbn [length] in Hs. specialize (IH (shift - s) ltac:(unfold s; destruct (Z.gtb_spec shift 8); lia)). destruct (cidr6_loop addr (shift - s)) as [[a m] cleared].
  destruct IH as (IH1 & IH2 & IH3). unfold bytes_bits in *. cbn [map concat length]. rewrite IH1, IH2, word_bits_land, mask8_bits by lia. fold (ones (Z.to_nat s) 8).
  rewrite zip_ones by (rewrite ?length_word_bits; lia). split_and!.
  - unfold masked. destruct (decide (s < 8)) as [Hlt|Hge].
    + replace (shift - s) with 0 by lia. replace shift with s by lia. change (Z.to_nat 0) with 0%nat. rewrite take_0, Nat.sub_0_r. cbn [app].
      rewrite take_app_le by (rewrite length_word_bits; lia). rewrite <- app_assoc, <- repeat_app. do 2 f_equal. lia.
    + assert (s = 8) as -> by lia. change (Z.to_nat 8) with 8%nat. rewrite take_ge, Nat.sub_diag by (by rewrite length_word_bits). cbn [repeat]. rewrite app_nil_r.
      replace (Z.to_nat shift) with (length (word_bits 8 b) + Z.to_nat (shift - 8))%nat by (rewrite length_word_bits; lia).
      rewrite take_app_add, <- app_assoc. do 2 f_equal. rewrite length_word_bits. f_equal. lia.
  - unfold ones. destruct (decide (s < 8)) as [Hlt|Hge].
    + replace (shift - s) with 0 by lia. replace shift with s by lia. change (Z.to_nat 0) with 0%nat. rewrite Nat.sub_0_r. cbn [repeat app].
      rewrite <- app_assoc, <- repeat_app. do 2 f_equal. lia.
    + assert (s = 8) as -> by lia. change (Z.to_nat 8) with 8%nat. rewrite Nat.sub_diag. change (repeat false 0) with (@nil bool). rewrite app_nil_r, app_assoc, <- repeat_app. f_equal; f_equal; lia.
  - rewrite orb_false_iff, negb_false_iff, Z.eqb_eq. destruct IH3 as [IH4 IH5]. split.
    + intros [Hc E]. rewrite <- E. f_equal. by apply IH4.
    + intros [= E1 E2]. split; [by apply IH5|done].
Qed.

Lemma strlchr_app c text rest : c ∉ text -> ngx_strlchr c (text ++ c :: rest) = Some (text, rest).
Proof.
  induction text as [|b text IH]; intros Hc; cbn [app ngx_strlchr]; [by rewrite Z.eqb_refl|].
  apply not_elem_of_cons in Hc as [Hb Hc]. rewrite (proj2 (Z.eqb_neq b c)) by congruence. by rewrite IH.
Qed.

(** An IPv6 address has 16 bytes. *)
Lemma inet6_loop_length p : forall st st', inet6_loop p st = Ret (Some st') ->
  Z.of_nat (length (i6_addr st)) + 2 * i6_n st = 16 -> 1 <= i6_n st -> Z.of_nat (length (i6_addr st')) + 2 * i6_n st' = 16 /\ 1 <= i6_n st'.
Proof.
  assert (Hput : forall a b addr addr', put2 a b addr = Ret addr' -> length addr' = (length addr + 2)%nat).
  { intros a b addr addr'. unfold put2. destruct (_ <=? _)%nat; [|done]. intros [= <-]. by rewrite length_app. }
  induction p as [|c p IH]; intros [addr zero digit nibbles word n] st'; cbn [inet6_loop i6_addr i6_n]; [by intros [= <-]|].
  destruct (c =? _).
  { destruct (negb _).
    - destruct (put2 _ _ addr) as [addr'| |] eqn:Ep; try done. apply Hput in Ep. cbn [outcome_bind]. destruct (Z.eqb_spec (n - 1) 0); [done|]. cbn [negb].
      intros E Hl Hn. apply IH in E; [done|cbn; lia..].
    - destruct zero; [done|]. apply IH. }
  destruct ((c =? _) && _).
  { destruct digit as [digit|]; [|done]. destruct (Z.ltb_spec n 2); [done|]. destruct (_ =? INADDR_NONE); [done|]. cbn zeta.
    destruct (put2 _ _ addr) as [addr'| |] eqn:Ep; try done. apply Hput in Ep. cbn [outcome_bind]. intros [= <-]. cbn. lia. }
  destruct (_ >? 4); [done|]. destruct (_ && _); [apply IH|]. cbn zeta. destruct (_ && _); [apply IH|done].
Qed.

Lemma inet6_addr_length text addr : ngx_inet6_addr text = Ret (Some addr) -> length addr = 16%nat.
Proof.
  unfold ngx_inet6_addr. destruct text as [|c rest]; [done|]. destruct (inet6_loop _ _) as [[st|]| |] eqn:E; try done. cbn [outcome_bind].
  apply inet6_loop_length in E as [Hl Hn]; [|done|cbn; lia]. destruct st as [a zero digit nibbles word n]. cbn [i6_addr i6_n] in *. unfold inet6_end, put2, spread.
  destruct (nibbles =? 0), zero as [z|]; try done; (destruct (Nat.leb_spec (length a + 2) 16); [|done]); cbn [outcome_bind];
    destruct (Z.eqb_spec (n - 1) 0); cbn [negb]; try done; try (intros [= <-]; rewrite length_app; cbn; lia);
    (match goal with |- context [(?x <=? 16)%nat] => destruct (Nat.leb_spec x 16) end; [|done]); cbn [outcome_bind]; intros [= <-];
    rewrite !length_app, repeat_length, length_take, length_drop, length_app; cbn [length]; lia.
Qed.

(** C12: networks.  The text of an address, a slash and a number of bits, as the
    geo and access modules take it, is read by ngx_ptocidr to the mask of so many
    bits and to the address with all the other bits cleared, whose place in a
    radix tree is exactly the first so many bits of the address; NGX_DONE tells
    that some bit was cleared, NGX_OK that none was, and a number of more than
    32 or 128 bits is refused.  (255.255.255.255 is not taken for an address.) *)
Theorem cidr_is_prefix text number shift : ("/"%c ∉ text) -> ngx_atoi number = shift -> 0 <= shift ->
  let k := Z.to_nat shift in
  (0 <= ngx_inet_addr text < INADDR_NONE ->
     if shift >? 32 then ngx_ptocidr (text ++ "/"%c :: number) = Ret None
     else exists rc a m, ngx_ptocidr (text ++ "/"%c :: number) = Ret (Some (rc, CidrIn a m)) /\
       word_bits 32 (htonl a) = masked k 32 (word_bits 32 (htonl (ngx_inet_addr text))) /\
       word_bits 32 (htonl m) = ones k 32 /\
       bits32 (htonl a) (htonl m) = take k (word_bits 32 (htonl (ngx_inet_addr text))) /\
       rc = (if decide (a = ngx_inet_addr text) then NGX_OK else NGX_DONE)) /\
  (forall addr, ngx_inet6_addr text = Ret (Some addr) ->
     if shift >? 128 then ngx_ptocidr (text ++ "/"%c :: number) = Ret None
     else exists rc a m, ngx_ptocidr (text ++ "/"%c :: number) = Ret (Some (rc, CidrIn6 a m)) /\
       bytes_bits a = masked k 128 (bytes_bits addr) /\ bytes_bits m = ones k 128 /\
       bits128 a m = take k (bytes_bits addr) /\
       rc = (if decide (a = addr) then NGX_OK else NGX_DONE)).
Proof.
  intros Ht Hn Hs k. unfold ngx_ptocidr. rewrite strlchr_app, Hn by done. rewrite (proj2 (Z.eqb_neq shift NGX_ERROR)) by (unfold NGX_ERROR; lia).
  split.
  - intros Ha. rewrite (proj2 (Z.eqb_neq _ INADDR_NONE)) by lia. cbn [negb]. destruct (Z.gtb_spec shift 32) as [Hgt|Hle].
    + unfold cidr4. replace (shift >? 32) with true by lia. done.
    + destruct (cidr4_prefix (ngx_inet_addr text) shift) as (rc & a & m & -> & H1 & H2 & H3); [unfold INADDR_NONE in Ha; lia|lia|].
      exists rc, a, m. split_and!; try done. unfold bits32. rewrite H1, H2. apply masked_prefix; [apply length_word_bits|lia].
  - intros addr Ha. assert (Hnone : ngx_inet_addr text = INADDR_NONE).
    { unfold ngx_inet_addr. by rewrite inet_no_colon by (by eapply inet6_has_colon). }
    rewrite Hnone, Z.eqb_refl, Ha. cbn [negb outcome_bind]. destruct (Z.gtb_spec shift 128) as [Hgt|Hle]; [done|].
    assert (Hl : length addr = 16%nat) by (by eapply inet6_addr_length).
    pose proof (cidr6_prefix addr shift ltac:(lia)) as H. destruct (cidr6_loop addr shift) as [[a m] cleared].
    rewrite Hl in H. change (8 * 16)%nat with 128%nat in H. destruct H as (H1 & H2 & H4 & H5). eexists _, a, m. split; [done|]. split; [done|]. split; [done|]. split.
    + unfold bits128. rewrite H1, H2. apply masked_prefix; [|lia]. unfold bytes_bits.
      clear - Hl. assert (E : length (concat (map (word_bits 8) addr)) = (8 * length addr)%nat).
      { clear Hl. induction addr as [|x addr IH]; [done|]. cbn [map concat length]. rewrite length_app, length_word_bits, IH. lia. }
      rewrite E, Hl. done.
    + destruct cleared; [rewrite decide_False; [done|]; intros E; by specialize (H5 E)|by rewrite decide_True by (by apply H4)].
Qed.

Lemma cidr_is_prefix_witness :
  (exists rc a m, ngx_ptocidr $"10.1.2.3/16" = Ret (Some (rc, CidrIn a m)) /\
     word_bits 32 (htonl a) = masked 16 32 (word_bits 32 (htonl 0x0302010a)) /\ word_bits 32 (htonl m) = ones 16 32 /\
     bits32 (htonl a) (htonl m) = take 16 (word_bits 32 (htonl 0x0302010a)) /\
     rc = (if decide (a = 0x0302010a) then NGX_OK else NGX_DONE)) /\
  (let addr := [32; 1; 13; 184; 0; 0; 0; 0; 0; 0; 0; 0; 0; 0; 0; 0] in
   exists rc a m, ngx_ptocidr $"2001:db8::/32" = Ret (Some (rc, CidrIn6 a m)) /\
     bytes_bits a = masked 32 128 (bytes_bits addr) /\ bytes_bits m = ones 32 128 /\
     bits128 a m = take 32 (bytes_bits addr) /\ rc = (if decide (a = addr) then NGX_OK else NGX_DONE)).
Proof.
  split.
  - apply (proj1 (cidr_is_prefix $"10.1.2.3" $"16" 16 ltac:(apply (bool_decide_unpack _); vm_compute; exact I) eq_refl ltac:(lia))).
    vm_compute. split; [discriminate|reflexivity].
  - apply (proj2 (cidr_is_prefix $"2001:db8::" $"32" 32 ltac:(apply (bool_decide_unpack _); vm_compute; exact I) eq_refl ltac:(lia))).
    vm_compute. reflexivity.
Defined.

End InetCidr.
