(* ===== verification/NgxUrl.v ===== *)
(** The addresses of listen and upstream directives: ngx_parse_url and what it
    calls, core/ngx_inet.c, and that the text of a socket address is read back
    to it.

    The text of an address is a word of the configuration, with a NUL behind it.
    gethostbyname is a parameter: it gives the addresses of a host, or a null
    pointer.  Allocation succeeds. *)

From S2P Require Import Prelude NgxNumber NgxPrintf NgxRange NgxInet NgxInetText.

Module Url.

Import Number Printf Range Inet InetText.

(** * Data *)

Definition sun_path_size : nat := 108.

(** An address and its text. *)
Record ngx_addr_t := MkAddr { a_sockaddr : sockaddr; a_name : list Z }.

(** The settings of the caller are the first five after the text. *)
Record ngx_url_t := MkUrl {
  u_url : list Z; u_default_port : Z; u_listen : bool; u_uri_part : bool; u_no_resolve : bool; u_one_addr : bool;
  u_host : list Z; u_port_text : list Z; u_uri : list Z; u_port : Z;
  u_no_port : bool; u_wildcard : bool; u_sockaddr : option sockaddr; u_addrs : list ngx_addr_t; u_err : list Z }.

Definition url_eta (u : ngx_url_t) : ngx_url_t :=
  MkUrl (u_url u) (u_default_port u) (u_listen u) (u_uri_part u) (u_no_resolve u) (u_one_addr u) (u_host u) (u_port_text u)
    (u_uri u) (u_port u) (u_no_port u) (u_wildcard u) (u_sockaddr u) (u_addrs u) (u_err u).

Definition set_u_host v u := ltac:(record_set url_eta u_host v u).
Definition set_u_port_text v u := ltac:(record_set url_eta u_port_text v u).
Definition set_u_uri v u := ltac:(record_set url_eta u_uri v u).
Definition set_u_port v u := ltac:(record_set url_eta u_port v u).
Definition set_u_no_port v u := ltac:(record_set url_eta u_no_port v u).
Definition set_u_wildcard v u := ltac:(record_set url_eta u_wildcard v u).
Definition set_u_sockaddr v u := ltac:(record_set url_eta u_sockaddr v u).
Definition set_u_addrs v u := ltac:(record_set url_eta u_addrs v u).
Definition set_u_err v u := ltac:(record_set url_eta u_err v u).

Definition refuse (err : list Z) (u : ngx_url_t) : outcome (Z * ngx_url_t) := Ret (NGX_ERROR, set_u_err err u).

(** The place of a byte. *)
Definition place (c : Z) (text : list Z) : option nat :=
  match ngx_strlchr c text with Some (a, _) => Some (length a) | None => None end.

(** A C string: up to the first NUL. *)
Fixpoint c_string (text : list Z) : list Z :=
  match text with [] => [] | c :: text => if c =? 0 then [] else c :: c_string text end.

Definition port_ok (n : Z) : bool := negb ((n <? 1) || (n >? 65535)).

(** * The parsers *)

Section Resolver.
Context (gethostbyname : list Z -> option (list Z)).

(** The first address of the host. *)
Definition host_addrs (host : list Z) : option (list Z) :=
  match gethostbyname (c_string host) with Some (a :: l) => Some (a :: l) | _ => None end.

Fixpoint resolved (port : Z) (addrs : list Z) : outcome (list ngx_addr_t) :=
  match addrs with
  | [] => Ret []
  | a :: addrs =>
    let! name := ngx_sock_ntop (SockIn port a) (NGX_INET_ADDRSTRLEN + 6) true in
    let! rest := resolved port addrs in Ret (MkAddr (SockIn port a) name :: rest)
  end.

Definition ngx_inet_resolve_host (u : ngx_url_t) : outcome (Z * ngx_url_t) :=
  let port := htons (u_port u) in
  let in_addr := ngx_inet_addr (u_host u) in
  if in_addr =? INADDR_NONE then
    match host_addrs (u_host u) with
    | None => refuse $"host not found" u
    | Some addrs =>
      let! l := resolved port (if u_one_addr u then take 1 addrs else addrs) in Ret (NGX_OK, set_u_addrs l u)
    end
  else
    let! name := ngx_sprintf $"%V:%d" [Str (u_host u); Num (htons port)] in
    Ret (NGX_OK, set_u_addrs [MkAddr (SockIn port in_addr) name] u).

(** The address of a host, after its port is known. *)
Definition inet_host (host : list Z) (sin_port : Z) (u : ngx_url_t) : outcome (Z * ngx_url_t) :=
  if (length host =? 0)%nat then refuse $"no host" u
  else
    let host := if bool_decide (host = $"*") then [] else host in
    let u := set_u_host host u in
    if u_no_resolve u then Ret (NGX_OK, u)
    else
      let found :=
        if negb (length host =? 0)%nat then
          let a := ngx_inet_addr host in
          if a =? INADDR_NONE then match host_addrs host with Some (a :: _) => Some a | _ => None end else Some a
        else Some INADDR_ANY in
      match found with
      | None => refuse $"host not found" u
      | Some a =>
        let u := if a =? INADDR_ANY then set_u_wildcard true u else u in
        let '(u, sin_port) := if u_no_port u then (set_u_port (u_default_port u) u, htons (u_default_port u)) else (u, sin_port) in
        let u := set_u_sockaddr (Some (SockIn sin_port a)) u in
        if u_listen u then Ret (NGX_OK, u) else ngx_inet_resolve_host u
      end.

Definition set_inet_port (n : Z) (text : list Z) (u : ngx_url_t) : ngx_url_t := set_u_port_text text (set_u_port n u).

Definition ngx_parse_inet_url (u : ngx_url_t) : outcome (Z * ngx_url_t) :=
  let url := u_url u in
  let port := place ":"%c url in
  let uri := match place "/"%c url, place "?"%c url with
             | Some i, Some j => Some (if (j <? i)%nat then j else i)
             | Some i, None => Some i
             | None, o => o
             end in
  if (match uri with Some _ => u_listen u || negb (u_uri_part u) | None => false end) then refuse $"invalid host" u
  else
    let '(u, last, port) :=
      match uri with
      | Some i => (set_u_uri (drop i url) u, i, match port with Some k => if (i <? k)%nat then None else port | None => None end)
      | None => (u, length url, port)
      end in
    match port with
    | Some k =>
      let text := drop (S k) (take last url) in
      let n := ngx_atoi text in
      if negb (port_ok n) then refuse $"invalid port" u
      else inet_host (take k url) (htons n) (set_inet_port n text u)
    | None =>
      let n := ngx_atoi (take last url) in
      if (match uri with None => u_listen u && negb (n =? NGX_ERROR) | Some _ => false end) then
        if negb (port_ok n) then refuse $"invalid port" u
        else Ret (NGX_OK, set_u_wildcard true (set_u_sockaddr (Some (SockIn (htons n) 0)) (set_inet_port n (take last url) u)))
      else inet_host (take last url) 0 (set_u_no_port true u)
    end.

(** After the bracket; [*port] is the byte behind it, or the NUL. *)
Definition ngx_parse_inet6_url (u : ngx_url_t) : outcome (Z * ngx_url_t) :=
  match ngx_strlchr "]"%c (drop 1 (u_url u)) with
  | None => refuse $"invalid host" u
  | Some (host, after) =>
    let uri := place "/"%c after in
    if (match uri with Some _ => u_listen u || negb (u_uri_part u) | None => false end) then refuse $"invalid host" u
    else
      let u := match uri with Some i => set_u_uri (drop i after) u | None => u end in
      let after' := match uri with Some i => take i after | None => after end in
      let colon := hd 0 after =? ":"%c in
      let text := drop 1 after' in
      let n := ngx_atoi text in
      if colon && negb (port_ok n) then refuse $"invalid port" u
      else
        let u := if colon then set_inet_port n text u else set_u_no_port true u in
        if (length host =? 0)%nat then refuse $"no host" u
        else
          let u := set_u_host ("["%c :: host ++ ["]"%c]) u in
          let! addr := ngx_inet6_addr host in
          match addr with
          | None => refuse $"invalid IPv6 address" u
          | Some addr =>
            let u := if bool_decide (addr = repeat 0 16) then set_u_wildcard true u else u in
            let u := if u_no_port u then set_u_port (u_default_port u) u else u in
            let sa := SockIn6 (htons (u_port u)) addr in
            let! name := ngx_sprintf $"%V:%d" [Str (u_host u); Num (u_port u)] in
            Ret (NGX_OK, set_u_addrs [MkAddr sa name] (set_u_sockaddr (Some sa) u))
          end
  end.

Definition ngx_parse_unix_domain_url (u : ngx_url_t) : outcome (Z * ngx_url_t) :=
  let path := drop 5 (u_url u) in
  let '(path, u) :=
    if u_uri_part u then
      match ngx_strlchr ":"%c path with Some (path, uri) => (path, set_u_uri uri u) | None => (path, u) end
    else (path, u) in
  if (length path =? 0)%nat then refuse $"no path in the unix domain socket" u
  else
    let u := set_u_host path u in
    if (sun_path_size <? length path + 1)%nat then refuse $"too long path in the unix domain socket" u
    else
      let sa := SockUn (c_string path) in
      Ret (NGX_OK, set_u_addrs [MkAddr sa (take (length path + 5) (u_url u))] (set_u_sockaddr (Some sa) u)).

Definition ngx_parse_url (u : ngx_url_t) : outcome (Z * ngx_url_t) :=
  if ngx_strncasecmp (u_url u) $"unix:" 5 =? 0 then ngx_parse_unix_domain_url u
  else if hd 0 (u_url u) =? "["%c then ngx_parse_inet6_url u
  else ngx_parse_inet_url u.

End Resolver.

(** * The text of an address *)

Definition port_text (z : Z) : list Z := put_int None "d"%c (MkFlags " "%c 0 true 0 false 0 no_slen) z.

Lemma port_text_dec z : 0 <= z < 65536 ->
  is_decimal (port_text z) = true /\ decimal (port_text z) = z /\ (length (port_text z) <= 5)%nat.
Proof.
  intros Hz. unfold port_text, put_int. cbn [Z.eqb Pos.eqb andb max_width width hexa zero sign int_value].
  rewrite wrapS_small by lia. destruct (Z.ltb_spec z 0); [lia|].
  rewrite put_num_text, wrapU_small by lia. cbn [clip]. change (Z.to_nat 0) with O.
  destruct (num_text_dec 5 z " "%c 0) as (ds & -> & Hd & Hv & Hl); [cbn; lia|lia|]. done.
Qed.

(** Digits, and the bytes that addresses have. *)
Definition addr_char (c : Z) : bool :=
  (c =? ":"%c) || (c =? "."%c) || (("0"%c <=? c) && (c <=? "9"%c)) ||
  (("a"%c <=? Z.lor c 0x20) && (Z.lor c 0x20 <=? "f"%c)).

Definition addr_text (text : list Z) : Prop := Forall (fun c => addr_char c = true) text.

Lemma inet_loop_chars text : forall a o n r, inet_loop text a o n = Some r -> addr_text text.
Proof.
  induction text as [|c text IH]; intros a o n r; cbn [inet_loop]; [constructor|]. unfold addr_text, addr_char in *.
  destruct (("0"%c <=? c) && (c <=? "9"%c)) eqn:Ed.
  - intros H%IH. constructor; [|done]. by rewrite Ed, orb_true_r.
  - destruct ((c =? "."%c) && (o <? 256)) eqn:Ep; [|done]. intros H%IH. constructor; [|done].
    apply andb_true_iff in Ep as [-> _]. by rewrite orb_true_r.
Qed.

Lemma inet_addr_chars text : ngx_inet_addr text <> INADDR_NONE -> addr_text text.
Proof. unfold ngx_inet_addr. destruct (inet_loop text 0 0 0) as [r|] eqn:E; [|done]. intros _. by eapply inet_loop_chars. Qed.

Lemma inet6_loop_chars p : forall st st', inet6_loop p st = Ret (Some st') ->
  (forall dg, i6_digit st = Some dg -> exists pre, dg = pre ++ p) -> addr_text p.
Proof.
  unfold addr_text. induction p as [|c p IH]; intros [out z dg nib w n] st' E Hdg; [constructor|]. cbn [inet6_loop] in E.
  assert (Hnext : forall st1, i6_digit st1 = dg -> inet6_loop p st1 = Ret (Some st') -> Forall (fun c => addr_char c = true) p).
  { intros st1 Hd E1. apply (IH st1 st' E1). intros dg' Hd'. rewrite Hd in Hd'. cbn in Hdg. destruct (Hdg dg' Hd') as [pre ->].
    exists (pre ++ [c]). by rewrite <- app_assoc. }
  assert (Hhere : forall st1, i6_digit st1 = Some p -> inet6_loop p st1 = Ret (Some st') -> Forall (fun c => addr_char c = true) p).
  { intros st1 Hd E1. apply (IH st1 st' E1). intros dg' Hd'. rewrite Hd in Hd'. injection Hd' as <-. by exists []. }
  unfold addr_char in *. destruct (c =? ":"%c) eqn:Ec.
  { constructor; [by rewrite Ec|]. destruct (negb (nib =? 0)).
    - destruct (put2 _ _ out) as [out'| |]; try done. cbn [outcome_bind] in E. destruct (negb (n - 1 =? 0)); [|done]. by apply (fun H => Hhere _ H E).
    - destruct z; [done|]. by apply (fun H => Hhere _ H E). }
  destruct ((c =? "."%c) && negb (nib =? 0)) eqn:Ep.
  { apply andb_true_iff in Ep as [Ep _]. destruct dg as [dg|]; [|done]. destruct (n <? 2); [done|].
    destruct (Z.eqb_spec (ngx_inet_addr dg) INADDR_NONE) as [|Hne]; [done|]. apply inet_addr_chars in Hne.
    destruct (Hdg dg eq_refl) as [pre ->]. unfold addr_text in Hne. apply Forall_app in Hne as [_ Hne]. done. }
  destruct (nib + 1 >? 4); [done|]. destruct (("0"%c <=? c) && (c <=? "9"%c)) eqn:Ed.
  { constructor; [by rewrite Ed, orb_true_r|]. by apply (fun H => Hnext _ H E). }
  destruct (("a"%c <=? Z.lor c 32) && (Z.lor c 32 <=? "f"%c)) eqn:Eh; [|done].
  constructor; [by rewrite Eh, orb_true_r|]. by apply (fun H => Hnext _ H E).
Qed.

Lemma inet6_addr_chars text p : ngx_inet6_addr text = Ret (Some p) -> addr_text text.
Proof.
  destruct text as [|c text]; [done|]. cbn [ngx_inet6_addr]. destruct (c =? ":"%c) eqn:Ec.
  - destruct (inet6_loop text _) as [[st|]| |] eqn:E; try done. intros _. apply inet6_loop_chars in E; [|done].
    constructor; [|done]. unfold addr_char. by rewrite Ec.
  - destruct (inet6_loop (c :: text) _) as [[st|]| |] eqn:E; try done. intros _. by apply inet6_loop_chars in E.
Qed.

Lemma no_char c text : addr_char c = false -> addr_text text -> c ∉ text.
Proof. unfold addr_text. rewrite Forall_forall. intros Hc Ht Hin. specialize (Ht c Hin). by rewrite Hc in Ht. Qed.

Lemma decimal_chars ds : is_decimal ds = true -> addr_text ds /\ (":"%c ∉ ds) /\ ds <> [].
Proof.
  unfold is_decimal. destruct ds as [|d ds]; [done|]. intros H. rewrite forallb_forall in H.
  assert (Hall : Forall (fun c => is_digit c = true) (d :: ds)).
  { apply Forall_forall. intros c Hc. apply H. by apply list_elem_of_In. }
  split_and!; [| |done].
  - unfold addr_text. eapply Forall_impl; [exact Hall|]. intros c Hc. unfold addr_char, is_digit in *. by rewrite Hc, orb_true_r.
  - intros Hin. rewrite Forall_forall in Hall. by specialize (Hall _ Hin).
Qed.

Lemma atoi_port z : 0 <= z < 65536 -> ngx_atoi (port_text z) = z.
Proof. intros Hz. destruct (port_text_dec z Hz) as (Hd & Hv & _). rewrite atoi_exact; [done|done|]. rewrite Hv. lia. Qed.

Lemma htons_htons z : 0 <= z < 65536 -> htons (htons z) = z.
Proof.
  intros Hz. assert (Hb := le_bytes_ok 2 z). unfold htons. destruct (le_bytes 2 z) as [|a [|b [|]]] eqn:E; try done.
  cbn [rev app]. assert (Hb' : bytes_ok [b; a]) by (rewrite !bytes_ok_cons in *; tauto).
  change 2%nat with (length [b; a]). rewrite le_bytes_le_val by done. cbn [rev app]. rewrite <- E. by apply le_val_small.
Qed.

Lemma place_none c text : c ∉ text -> place c text = None.
Proof.
  unfold place. intros Hc. replace (ngx_strlchr c text) with (@None (list Z * list Z)); [done|].
  induction text as [|b text IH]; [done|]. cbn [ngx_strlchr]. apply not_elem_of_cons in Hc as [Hb Hc].
  rewrite (proj2 (Z.eqb_neq b c)) by congruence. by rewrite <- IH.
Qed.

Lemma place_at c text rest : c ∉ text -> place c (text ++ c :: rest) = Some (length text).
Proof.
  unfold place. intros Hc. replace (ngx_strlchr c (text ++ c :: rest)) with (Some (text, rest)); [done|].
  induction text as [|b text IH]; cbn [app ngx_strlchr]; [by rewrite Z.eqb_refl|]. apply not_elem_of_cons in Hc as [Hb Hc].
  rewrite (proj2 (Z.eqb_neq b c)) by congruence. by rewrite <- IH.
Qed.

Lemma sprintf_quad_port a b c d z :
  ngx_sprintf $"%ud.%ud.%ud.%ud:%d" [Num a; Num b; Num c; Num d; Num z] = Ret (quad_text a b c d ++ ":"%c :: port_text z).
Proof. unfold quad_text. rewrite <- (app_nil_r (port_text z)). repeat (rewrite <- app_assoc; cbn [app]). reflexivity. Qed.

(** An address of four bytes is no name of a unix socket and no bracket. *)
Lemma quad_head a b c d rest : is_byte a -> exists x r, quad_text a b c d ++ rest = x :: r /\ "0"%c <= x <= "9"%c.
Proof.
  intros Ha. destruct (dec_text_ok a Ha) as [Hv Hl]. unfold quad_text. destruct (dec_text a) as [|x r]; [cbn in Hl; lia|].
  cbn [digits_value] in Hv. destruct (hex_value x) as [v|] eqn:Ex; [|done]. destruct (Z.ltb_spec v 10) as [Hlt|]; [|done].
  destruct (dec_char x v Ex Hlt) as [Hx _]. cbn [app]. eexists x, _. split; [done|].
  apply andb_true_iff in Hx as [H1%Z.leb_le H2%Z.leb_le]. done.
Qed.

Section Listen.
Context (gethostbyname : list Z -> option (list Z)) (u : ngx_url_t) (Hlisten : u_listen u = true)
  (Hresolve : u_no_resolve u = false) (Hport : u_no_port u = false).

Lemma inet_url_read a b c d z : bytes_ok [a; b; c; d] -> [a; b; c; d] <> [255; 255; 255; 255] -> 1 <= z < 65536 ->
  u_url u = quad_text a b c d ++ ":"%c :: port_text z ->
  exists u', ngx_parse_url gethostbyname u = Ret (NGX_OK, u') /\ u_sockaddr u' = Some (SockIn (htons z) (le_val [a; b; c; d])) /\ u_port u' = z.
Proof.
  intros Hb Hne Hz Hu. pose proof (quad_read a b c d Hb) as Hr.
  assert (Hval : le_val [a; b; c; d] <> INADDR_NONE) by (intros Ex; apply Hne; rewrite <- (le_bytes_le_val _ Hb), Ex; done).
  assert (Hq : addr_text (quad_text a b c d)) by (apply inet_addr_chars; by rewrite Hr).
  assert (Hqc : ":"%c ∉ quad_text a b c d).
  { intros Hin. unfold ngx_inet_addr in Hr. rewrite inet_no_colon in Hr by done. by rewrite <- Hr in Hval. }
  destruct (port_text_dec z ltac:(lia)) as (Hd & Hv & _). destruct (decimal_chars _ Hd) as (Hp & Hpc & Hp0).
  assert (Hno : forall x, addr_char x = false -> x ∉ u_url u).
  { intros x Hx. rewrite Hu. apply no_char; [done|]. unfold addr_text. apply Forall_app. split; [done|]. by constructor. }
  assert (Ha : is_byte a) by (apply bytes_ok_cons in Hb as [Ha _]; done).
  destruct (quad_head a b c d (":"%c :: port_text z) Ha) as (x & r & Ex & Hx).
  unfold ngx_parse_url. rewrite Hu, Ex. cbn [hd]. replace (ngx_strncasecmp (x :: r) $"unix:" 5 =? 0) with false.
  2:{ symmetry. apply Z.eqb_neq. cbn [ngx_strncasecmp]. change (tolower (at_p $"unix:")) with "u"%c.
      replace (tolower (at_p (x :: r))) with x by (unfold tolower; change (at_p (x :: r)) with x; case_if Ec; boolify; lia).
      replace (x =? "u"%c) with false by lia. lia. }
  replace (x =? "["%c) with false by lia. unfold ngx_parse_inet_url.
  rewrite (place_none "/"%c), (place_none "?"%c) by (by apply Hno). rewrite Hu, place_at by done.
  rewrite take_ge by done. rewrite drop_app_ge by lia. replace (S (length (quad_text a b c d)) - length (quad_text a b c d))%nat with 1%nat by lia.
  cbn [drop]. rewrite !drop_0, !atoi_port by lia. unfold port_ok. replace ((z <? 1) || (z >? 65535)) with false by lia. cbn [negb].
  rewrite take_app_length. unfold inet_host. rewrite (proj2 (Nat.eqb_neq _ 0)) by (unfold quad_text; rewrite length_app; cbn; lia).
  rewrite bool_decide_eq_false_2.
  2:{ intros E. rewrite E in Hq. by apply Forall_cons in Hq as [? _]. }
  cbn [u_no_resolve set_u_host set_inet_port set_u_port_text set_u_port url_eta]. rewrite Hresolve.
  rewrite (proj2 (Nat.eqb_neq _ 0)) by (unfold quad_text; rewrite length_app; cbn; lia). cbn [negb].
  rewrite Hr, (proj2 (Z.eqb_neq _ _) Hval). destruct (le_val [a; b; c; d] =? INADDR_ANY); cbn; rewrite Hport; cbn; rewrite Hlisten; eexists; done.
Qed.

Lemma inet6_url_read text addr z : ngx_inet6_addr text = Ret (Some addr) -> 1 <= z < 65536 ->
  u_url u = "["%c :: text ++ "]"%c :: ":"%c :: port_text z ->
  exists u', ngx_parse_url gethostbyname u = Ret (NGX_OK, u') /\ u_sockaddr u' = Some (SockIn6 (htons z) addr) /\ u_port u' = z.
Proof.
  intros Ha Hz Hu. assert (Ht := inet6_addr_chars _ _ Ha).
  destruct (port_text_dec z ltac:(lia)) as (Hd & Hv & _). destruct (decimal_chars _ Hd) as (Hp & Hpc & Hp0).
  unfold ngx_parse_url. rewrite Hu. cbn [hd Z.eqb Pos.eqb]. replace (ngx_strncasecmp _ _ 5 =? 0) with false by done.
  unfold ngx_parse_inet6_url. rewrite Hu. cbn [drop].
  assert (E : ngx_strlchr "]"%c (text ++ "]"%c :: ":"%c :: port_text z) = Some (text, ":"%c :: port_text z)).
  { pose proof (no_char "]"%c text eq_refl Ht) as Hn. revert Hn. clear. induction text as [|b text IH]; intros Hn; cbn [app ngx_strlchr]; [done|].
    apply not_elem_of_cons in Hn as [Hb Hn]. rewrite (proj2 (Z.eqb_neq b _)) by congruence. by rewrite IH. }
  rewrite ?drop_0, E. rewrite place_none by (apply no_char; [done|by constructor]). cbn [hd drop Z.eqb Pos.eqb andb].
  rewrite !drop_0, !atoi_port by lia. unfold port_ok. replace ((z <? 1) || (z >? 65535)) with false by lia. cbn [negb].
  rewrite (proj2 (Nat.eqb_neq (length text) 0)) by (by destruct text). rewrite Ha. cbn [outcome_bind].
  destruct (bool_decide (addr = repeat 0 16)); cbn; rewrite Hport; eexists; done.
Qed.

End Listen.
(** A socket address with a port. *)
Definition sock_ok (sa : sockaddr) : Prop :=
  match sa with
  | SockIn p a => 0 <= p < 65536 /\ 1 <= htons p < 65536 /\ 0 <= a < INADDR_NONE
  | SockIn6 p a => 0 <= p < 65536 /\ 1 <= htons p < 65536 /\ length a = 16%nat /\ bytes_ok a /\ readable6 a
  | SockUn _ => False
  end.

(** A listen directive with nothing but its text. *)
Definition listen_url (text : list Z) : ngx_url_t := MkUrl text 80 true false false false [] [] [] 0 false false None [] [].



(** What stands between the bracket and the end of an address is ignored when it
    has no colon. *)
Example text_behind_bracket :
  (let! (rc, u) := ngx_parse_url (fun _ => None) (listen_url $"[::1]8080") in Ret (rc, u_port u, u_sockaddr u)) =
  Ret (NGX_OK, 80, Some (SockIn6 (htons 80) (repeat 0 15 ++ [1]))).
Proof. vm_compute. reflexivity. Qed.

(** The forms of the directives: a port, a host with a name, a path, a unix
    socket. *)
Definition upstream_url (text : list Z) : ngx_url_t := MkUrl text 80 false true false false [] [] [] 0 false false None [] [].

Example url_forms :
  (let! (rc, u) := ngx_parse_url (fun _ => None) (listen_url $"8080") in Ret (rc, u_port u, u_wildcard u)) = Ret (NGX_OK, 8080, true) /\
  (let! (rc, u) := ngx_parse_url (fun _ => Some [0x0200007f; 0x0300007f]) (upstream_url $"backend:81/a?b") in
   Ret (rc, u_host u, u_port u, u_uri u, map a_name (u_addrs u))) =
  Ret (NGX_OK, $"backend", 81, $"/a?b", [$"127.0.0.2:81"; $"127.0.0.3:81"]) /\
  (let! (rc, u) := ngx_parse_url (fun _ => None) (upstream_url $"unix:/tmp/s:/a") in Ret (rc, u_host u, u_uri u, map a_name (u_addrs u))) =
  Ret (NGX_OK, $"/tmp/s", $"/a", [$"unix:/tmp/s"]) /\
  (let! (rc, u) := ngx_parse_url (fun _ => None) (listen_url $"localhost:0") in Ret (rc, u_err u)) = Ret (NGX_ERROR, $"invalid port").
Proof. split_and!; vm_compute; reflexivity. Qed.

End Url.
