(* ===== verification/NgxPhasesServer.v ===== *)
(** The phase engine with other components: the locations that
    ngx_http_init_locations makes are what the engine searches, and the request
    limiter is a handler of its pre-access phase and the access module one of its
    access phase. *)

From S2P Require Import Prelude NgxSort NgxLocation NgxLocationTree NgxLocationFind NgxLocationServer NgxLocationConfig NgxLimitReq NgxLimitReqLru NgxLimitReqHandler NgxInet NgxAccess NgxPhases NgxPhasesRun NgxPhasesAccess.

#[local] Open Scope Z_scope.

Module PhasesServer.

Import Location LocationServer LocationConfig LimitReq LimitReqLru LimitReqHandler Inet Access Phases PhasesRun PhasesAccess.

(** * The locations of a server *)

Section Server.
Context {H X : Type}.
Abbreviation req := (ngx_http_request_t H core_loc_conf X).
Context (regex_exec : Z -> list Z -> Z) (fuel : nat).

(** A handler that leaves alone what the engine relies on: it suspends the
    request, or its place, its changes and its location are as before. *)
Definition modest (call : H -> req -> Z * req) : Prop :=
  forall h r rc r', call h r = (rc, r') -> rc <> NGX_AGAIN -> rc <> NGX_DONE ->
    phase_handler r' = phase_handler r /\ uri_changes r' = uri_changes r /\ loc_conf r' = loc_conf r.

Definition all_found (c : core_loc_conf) : Prop :=
  forall u, exists rc c', ngx_http_core_find_location regex_exec fuel u c = Ret (rc, c').

(** The initialised locations of a server are what the engine needs. *)
Lemma server_phase_laws call settings l s : modest call ->
  readable true l -> distinct l -> (LocationServer.height l <= fuel)%nat -> init_server fuel (conf l) = Ret (Some s) ->
  cl_limit_except (settings s) = 0 ->
  (forall c tfs code, cl_try_files (settings c) = Some (tfs, code) -> tfs <> []) ->
  PhaseLaws (H := H) (X := X) call settings s (ngx_http_core_find_location regex_exec fuel) all_found.
Proof.
  intros Hcall Hr Hd Hf Hs Hle Htry. split; [| |intros u|done|done].
  - intros h r rc r' E Ha Hn. destruct (Hcall h r rc r' E Ha Hn) as (-> & -> & ->). done.
  - intros u c Hc. apply Hc.
  - destruct (server_location_found regex_exec l fuel u Hr Hd Hf) as (s' & rc & d & c & Es & Ef & _).
    rewrite Hs in Es. injection Es as <-. eauto.
Qed.

End Server.

(** * A server *)

(** Modules with handlers: the request limiter, a rewrite, the access module, a
    password, files. *)
Inductive module_handler := LimitReqHandler | RewriteHandler | AccessList | Password | StaticFiles.

#[export] Instance module_handler_eq_dec : EqDecision module_handler.
Proof. solve_decision. Defined.

(** The limits and the time of the limiter, the mark of a request it has seen;
    the address of the client and whether it has the password. *)
Record module_state := MkModules {
  now : Z; limit_req_set : bool; limits : list (ngx_http_limit_req_limit_t SetPool);
  peer : sockaddr; password : bool }.

Abbreviation server_req := (ngx_http_request_t module_handler core_loc_conf module_state).

(** The result of the limiter for the engine: a delayed request waits for the
    write event with NGX_AGAIN. *)
Definition limit_handler (r : server_req) : Z * server_req :=
  let m := mods r in
  match ngx_http_limit_req_handler (now m) (limit_req_set m) (limits m) with
  | Ret (v, b, ls) =>
    (match v with Pass => NGX_DECLINED | Delay _ => NGX_AGAIN | Refuse s => s end,
     set_mods (MkModules (now m) b ls (peer m) (password m)) r)
  | _ => (NGX_ERROR, r)
  end.

Definition private (c : core_loc_conf) : bool := bool_decide (loc_name (attrs c) = $"/private/").

(** "/old" becomes "/private/new", and "/loop" is rewritten each time. *)
Definition rewrite_handler (r : server_req) : Z * server_req :=
  if bool_decide (uri r = $"/old") then (NGX_DECLINED, set_uri_changed true (set_uri $"/private/new" r))
  else if bool_decide (uri r = $"/loop") then (NGX_DECLINED, set_uri_changed true r)
  else (NGX_DECLINED, r).

(** The rules of the private location. *)
Definition private_rules : ngx_http_access_loc_conf_t :=
  match read_rules [($"allow", $"10.0.0.0/8"); ($"deny", $"all")] ngx_http_access_create_loc_conf with
  | Ret (Some alcf) => alcf
  | _ => ngx_http_access_create_loc_conf
  end.

Definition access_conf (c : core_loc_conf) : ngx_http_access_loc_conf_t :=
  ngx_http_access_merge_loc_conf ngx_http_access_create_loc_conf
    (if private c then private_rules else ngx_http_access_create_loc_conf).

Definition server_call (h : module_handler) (r : server_req) : Z * server_req :=
  match h with
  | LimitReqHandler => limit_handler r
  | RewriteHandler => rewrite_handler r
  | AccessList => (ngx_http_access_handler (access_conf (loc_conf r)) (peer (mods r)), r)
  | Password => (if private (loc_conf r) then if password (mods r) then NGX_OK else NGX_HTTP_UNAUTHORIZED else NGX_DECLINED, r)
  | StaticFiles => (NGX_OK, r)
  end.

(** One of the access list and the password is enough. *)
Definition server_settings (c : core_loc_conf) : ngx_http_core_loc_conf_t module_handler core_loc_conf module_state :=
  MkClcf _ _ _ (loc_name (attrs c)) (is_some (loc_regex (attrs c))) false false 0 None 0 c None 0 true 0 false
    75 100 0 false 0.

Definition server_tree : LocationServer.location :=
  Loc no_attrs [inclusive_loc $"/" []; inclusive_loc $"/private/" []].

Definition server_conf : core_loc_conf :=
  match init_server 2 (conf server_tree) with Ret (Some s) => s | _ => Clcf no_attrs None NoNode None end.

Definition no_regex (n : Z) (u : list Z) : Z := NGX_DECLINED.

(** The handlers in the order of their registration, which is against the order
    of their calls. *)
Definition server_phases : list (list module_handler) :=
  ngx_http_access_init AccessList
    [[]; []; []; [RewriteHandler]; []; [LimitReqHandler]; [Password]; []; []; [StaticFiles]].

Definition server_request (u : list Z) (m : module_state) : server_req :=
  MkReq _ _ _ 0 true false u [] [] 2 1001 false 11 0 None server_conf (-1) false false 0 None None false false
    1 false false false false false false 0 false false 0 false true false 1 m.

Lemma server_modest : modest server_call.
Proof.
  intros h r rc r' E _ _. destruct h; cbn [server_call] in E; unfold limit_handler, rewrite_handler in E;
    repeat case_match; simplify_eq; done.
Qed.

#[export] Instance server_laws :
  PhaseLaws server_call server_settings server_conf (ngx_http_core_find_location no_regex 2) (all_found no_regex 2).
Proof.
  apply (server_phase_laws no_regex 2 server_call server_settings server_tree server_conf server_modest).
  - repeat (constructor || (cbv; split; reflexivity)); done.
  - repeat constructor; cbn; try lia; set_solver.
  - cbn. lia.
  - vm_compute. reflexivity.
  - done.
  - done.
Qed.

#[export] Instance server_access_laws : AccessLaws server_call server_phases.
Proof.
  split.
  - intros h r rc r' E _ _. destruct h; cbn [server_call] in E; unfold limit_handler, rewrite_handler in E;
      repeat case_match; simplify_eq; done.
  - intros h r rc r' Hin E _ _. vm_compute in Hin. destruct h; cbn [server_call] in E; simplify_eq; try done; exfalso; set_solver.
Qed.

(** ** Runs of the server *)

Abbreviation server_run := (ngx_http_core_run_phases server_call server_settings server_conf
  (ngx_http_core_find_location no_regex 2) true (fun m => m) [] (fun _ => None) (fun _ _ => true) (fun _ => None) (fun _ => 0)).

(** A client with the address 10.0.0.1 or with 192.168.0.1. *)
Definition visitor (listed password : bool) : module_state :=
  MkModules 1000 false [] (SockIn 0 (if listed then 0x0100000a else 0x0100a8c0)) password.

Lemma server_found : all_found no_regex 2 server_conf.
Proof. apply (law_server (searchable := all_found no_regex 2) server_call server_settings server_conf (ngx_http_core_find_location no_regex 2)). Qed.

Lemma phases_run_witness :
  exists eng, ngx_http_init_phase_handlers server_phases false = Ret eng /\ length (handlers eng) = 8%nat /\
  server_run eng 99 (server_request $"/old" (visitor true false)) =
  Ret (run_request server_call server_settings server_conf (ngx_http_core_find_location no_regex 2) true (fun m => m) []
    (fun _ => None) (fun _ _ => true) (fun _ => None) (fun _ => 0) server_phases false 11
    (server_request $"/old" (visitor true false))).
Proof.
  destruct (phases_run server_call server_settings server_conf (ngx_http_core_find_location no_regex 2) true (fun m => m) []
    (fun _ => None) (fun _ _ => true) (fun _ => None) (fun _ => 0) (all_found no_regex 2) server_phases false eq_refl)
    as (eng & E & Hrun).
  exists eng. split; [exact E|]. vm_compute in E. injection E as <-. split; [reflexivity|].
  apply (Hrun (server_request $"/old" (visitor true false)) 99%nat); [vm_compute; split; discriminate|cbn; lia| |cbn; lia].
  intros _. apply server_found.
Defined.

Lemma content_after_access_witness :
  exists eng, ngx_http_init_phase_handlers server_phases false = Ret eng /\
  exists evs r', server_run eng 99 (server_request $"/old" (visitor true false)) = Ret (evs, r') /\
    guarded server_settings server_phases evs.
Proof.
  destruct (content_after_access server_call server_settings server_conf (ngx_http_core_find_location no_regex 2) true
    (fun m => m) [] (fun _ => None) (fun _ _ => true) (fun _ => None) (fun _ => 0) server_phases false
    (all_found no_regex 2) eq_refl) as (eng & E & Hrun).
  exists eng. split; [exact E|]. vm_compute in E. injection E as <-.
  apply (Hrun (server_request $"/old" (visitor true false)) 99%nat);
    [done|vm_compute; split; discriminate|vm_compute; lia| |cbn; lia].
  intros _. apply server_found.
Defined.

(** What a run calls and ends with, and the name of the location of the call. *)
Inductive seen := Asked (h : module_handler) (name : list Z) (rc : Z) | Ended (rc : Z).

Definition seen_of (e : event module_handler core_loc_conf) : list seen :=
  match e with
  | Called _ l h rc => [Asked h (loc_name (attrs l)) rc]
  | Finalized rc => [Ended rc]
  | Discarded => []
  end.

Definition server_trace (r : server_req) : outcome (list seen * server_req) :=
  let! eng := ngx_http_init_phase_handlers server_phases false in
  let! (evs, r) := server_run eng 99 r in Ret (concat (map seen_of evs), r).

(** The name that was rewritten is private: the access list is enough. *)
Example rewritten_name_checked :
  (let! (t, _) := server_trace (server_request $"/old" (visitor true false)) in Ret t) =
  Ret [Asked RewriteHandler $"/" NGX_DECLINED; Asked RewriteHandler $"/private/" NGX_DECLINED;
       Asked LimitReqHandler $"/private/" NGX_DECLINED; Asked AccessList $"/private/" NGX_OK;
       Asked StaticFiles $"/private/" NGX_OK; Ended NGX_OK].
Proof. vm_compute. reflexivity. Qed.

(** Without either the last refusal ends the request; the password is enough,
    too. *)
Example private_name_refused :
  (let! (t, _) := server_trace (server_request $"/private/x" (visitor false false)) in Ret t) =
  Ret [Asked RewriteHandler $"/private/" NGX_DECLINED; Asked LimitReqHandler $"/private/" NGX_DECLINED;
       Asked AccessList $"/private/" NGX_HTTP_FORBIDDEN; Asked Password $"/private/" NGX_HTTP_UNAUTHORIZED;
       Ended NGX_HTTP_UNAUTHORIZED] /\
  (let! (t, _) := server_trace (server_request $"/private/x" (visitor false true)) in Ret (last t)) = Ret (Some (Ended NGX_OK)).
Proof. split; vm_compute; reflexivity. Qed.

(** A name that is rewritten without end is given up after eleven searches. *)
Example endless_rewrite_refused :
  (let! (t, _) := server_trace (server_request $"/loop" (visitor true true)) in Ret t) =
  Ret (repeat (Asked RewriteHandler $"/" NGX_DECLINED) 11 ++ [Ended NGX_HTTP_INTERNAL_SERVER_ERROR]).
Proof. vm_compute. reflexivity. Qed.

(** Three requests of a client at the same time, with one request in a second
    and a burst of one: the first is served, the second is suspended at the
    entry of the limiter and served when it is run again, the third is refused. *)
Definition client (ls : list (ngx_http_limit_req_limit_t SetPool)) : module_state := MkModules 1000 false ls (SockIn 0 0x0100a8c0) false.

Example limited_requests :
  (let! (t1, r1) := server_trace (server_request $"/x" (client [MkLimit zone0 1000 false (Some [97])])) in
   let! (t2, r2) := server_trace (server_request $"/x" (client (limits (mods r1)))) in
   let! (t3, _) := server_trace (server_request $"/x" (client (limits (mods r2)))) in
   let! (t2', _) := server_trace r2 in
   Ret (last t1, last t2, phase_handler r2, last t2', last t3)) =
  Ret (Some (Ended NGX_OK), Some (Asked LimitReqHandler $"/" NGX_AGAIN), 3%nat, Some (Ended NGX_OK), Some (Ended 503)).
Proof. vm_compute. reflexivity. Qed.

End PhasesServer.
