(* ===== verification/NgxConfFile.v ===== *)
(** The reader of the configuration: core/ngx_conf_file.c and .h.

    A file is opened with its size and is then read through a buffer of 4096
    bytes; open, pread, close and glob are parameters.  The words of a directive
    go to the module that knows its name.  What such a module does is its own
    code: here it is a program that may call the reader again, for the block of
    the directive or for another file, and ends with a result.  The log is left
    out and allocation succeeds. *)

From S2P Require Import Prelude NgxLocation.

Module ConfFile.

Definition NGX_CONF_BUFFER : nat := 4096.
Definition NGX_CONF_BLOCK_START : Z := 1.
Definition NGX_CONF_BLOCK_DONE : Z := 2.
Definition NGX_CONF_FILE_DONE : Z := 3.

Definition NGX_CONF_UNSET : Z := -1.
Definition NGX_CONF_UNSET_UINT : Z := 2 ^ 64 - 1.

(** The result of a directive; the text of a message is for the log. *)
Inductive conf_rv := NGX_CONF_OK | NGX_CONF_ERROR | ConfMessage.

#[export] Instance conf_rv_eq_dec : EqDecision conf_rv.
Proof. solve_decision. Defined.

(** * Reading a directive *)

(** An open file: the size of its stat, what pread gives for an offset and a
    size (None is -1), and whether it closes. *)
Record ngx_file_t := MkFile { f_size : nat; pread : nat -> nat -> option (list Z); f_closes : bool }.

(** [file] is None for the parameter of the command line; [buf] has the bytes
    from b->start to b->last and [pos] is b->pos in it. *)
Record ngx_conf_file_t := MkConfFile { file : option ngx_file_t; offset : nat; buf : list Z; pos : nat; line : Z }.

Record token := MkToken {
  need_space : bool; last_space : bool; sharp_comment : bool; variable : bool;
  quoted : bool; s_quoted : bool; d_quoted : bool; words : list (list Z) }.

Definition token_eta (t : token) : token :=
  MkToken (need_space t) (last_space t) (sharp_comment t) (variable t) (quoted t) (s_quoted t) (d_quoted t) (words t).

Definition set_need_space v t := ltac:(record_set token_eta need_space v t).
Definition set_last_space v t := ltac:(record_set token_eta last_space v t).
Definition set_sharp_comment v t := ltac:(record_set token_eta sharp_comment v t).
Definition set_variable v t := ltac:(record_set token_eta variable v t).
Definition set_quoted v t := ltac:(record_set token_eta quoted v t).
Definition set_s_quoted v t := ltac:(record_set token_eta s_quoted v t).
Definition set_d_quoted v t := ltac:(record_set token_eta d_quoted v t).
Definition set_words v t := ltac:(record_set token_eta words v t).

Definition token0 : token := MkToken false true false false false false false [].

(** What a byte does to [start]: nothing, or it is set at the byte or behind it. *)
Inductive mark := Keep | Here | Behind.

Inductive step := Go (t : token) (m : mark) | Stop (rc : Z) (t : token).

Definition is_blank (ch : Z) : bool := (ch =? 32) || (ch =? 9) || (ch =? 13) || (ch =? 10).

(** The copy of a word, whose bytes from start to b->pos are [src], the byte
    that ends it included. *)
Fixpoint copy_word (src : list Z) : list Z :=
  match src with
  | [] | [_] => []
  | b :: ((c :: rest) as tl) =>
    if b =? 92 then
      if (c =? 34) || (c =? 39) || (c =? 92) then c :: copy_word rest
      else if c =? "t"%c then 9 :: copy_word rest
      else if c =? "r"%c then 13 :: copy_word rest
      else if c =? "n"%c then 10 :: copy_word rest
      else b :: copy_word tl
    else b :: copy_word tl
  end.

(** [win] has the bytes from start to b->pos, [ch] is the last of them. *)
Definition word_found (win : list Z) (ch : Z) (t : token) : step :=
  let t := set_words (words t ++ [copy_word win]) t in
  if ch =? ";"%c then Stop NGX_OK t
  else if ch =? "{"%c then Stop NGX_CONF_BLOCK_START t
  else Go t Keep.

Definition in_word (win : list Z) (ch : Z) (t : token) : step :=
  if (ch =? "{"%c) && variable t then Go t Keep
  else
    let t := set_variable false t in
    if ch =? 92 then Go (set_quoted true t) Keep
    else if ch =? "$"%c then Go (set_variable true t) Keep
    else if d_quoted t then
      if ch =? 34 then word_found win ch (set_need_space true (set_d_quoted false t)) else Go t Keep
    else if s_quoted t then
      if ch =? 39 then word_found win ch (set_need_space true (set_s_quoted false t)) else Go t Keep
    else if is_blank ch || (ch =? ";"%c) || (ch =? "{"%c) then word_found win ch (set_last_space true t)
    else Go t Keep.

Definition before_word (ch : Z) (t : token) : step :=
  if is_blank ch then Go t Keep
  else if (ch =? ";"%c) || (ch =? "{"%c) then
    match words t with
    | [] => Stop NGX_ERROR t
    | _ => Stop (if ch =? "{"%c then NGX_CONF_BLOCK_START else NGX_OK) t
    end
  else if ch =? "}"%c then
    match words t with [] => Stop NGX_CONF_BLOCK_DONE t | _ => Stop NGX_ERROR t end
  else if ch =? "#"%c then Go (set_sharp_comment true t) Here
  else if ch =? 92 then Go (set_last_space false (set_quoted true t)) Here
  else if ch =? 34 then Go (set_last_space false (set_d_quoted true t)) Behind
  else if ch =? 39 then Go (set_last_space false (set_s_quoted true t)) Behind
  else Go (set_last_space false t) Here.

Definition token_char (win : list Z) (ch : Z) (t : token) : step :=
  let t := if (ch =? 10) && sharp_comment t then set_sharp_comment false t else t in
  if sharp_comment t then Go t Keep
  else if quoted t then Go (set_quoted false t) Keep
  else if need_space t then
    if is_blank ch then Go (set_need_space false (set_last_space true t)) Keep
    else if ch =? ";"%c then Stop NGX_OK t
    else if ch =? "{"%c then Stop NGX_CONF_BLOCK_START t
    else if ch =? ")"%c then before_word ch (set_need_space false (set_last_space true t))
    else Stop NGX_ERROR t
  else if last_space t then before_word ch t
  else in_word win ch t.

Definition next_line (ch line : Z) : Z := if ch =? 10 then wrapU 64 (line + 1) else line.

(** os/unix/ngx_files.c: the bytes and the new offset. *)
Definition ngx_read_file (f : ngx_file_t) (size offset : nat) : option (list Z * nat) :=
  match pread f offset size with None => None | Some bytes => Some (bytes, (offset + length bytes)%nat) end.

(** Without more bytes in the buffer: the end of the file, with its result, or
    more bytes behind those from [start], which are moved to the front. *)
Definition refill (start : nat) (t : token) (f : ngx_conf_file_t) : Z + (nat * ngx_conf_file_t) :=
  let at_end := inl (match words t, last_space t with [], true => NGX_CONF_FILE_DONE | _, _ => NGX_ERROR end) in
  if (pos f <? length (buf f))%nat then inr (start, f)
  else
    match file f with
    | None => at_end
    | Some fd =>
      if (f_size fd <=? offset f)%nat then at_end
      else
        let len := (pos f - start)%nat in
        if (len =? NGX_CONF_BUFFER)%nat then inl NGX_ERROR
        else
          let size := Nat.min (f_size fd - offset f) (NGX_CONF_BUFFER - len) in
          match ngx_read_file fd size (offset f) with
          | None => inl NGX_ERROR
          | Some (bytes, off) =>
            if (length bytes =? size)%nat
            then inr (0%nat, MkConfFile (file f) off (take len (drop start (buf f)) ++ bytes) len (line f))
            else inl NGX_ERROR
          end
    end.

(** The loop of ngx_conf_read_token; a round reads a byte. *)
Fixpoint token_loop (fuel : nat) (start : nat) (t : token) (f : ngx_conf_file_t) : outcome (Z * list (list Z) * ngx_conf_file_t) :=
  match fuel with
  | O => NoFuel
  | S fuel =>
    match refill start t f with
    | inl rc => Ret (rc, words t, f)
    | inr (start, f) =>
      match buf f !! pos f with
      | None => Undefined
      | Some ch =>
        let f := MkConfFile (file f) (offset f) (buf f) (S (pos f)) (next_line ch (line f)) in
        match token_char (take (pos f - start) (drop start (buf f))) ch t with
        | Stop rc t => Ret (rc, words t, f)
        | Go t Keep => token_loop fuel start t f
        | Go t Here => token_loop fuel (pos f - 1) t f
        | Go t Behind => token_loop fuel (pos f) t f
        end
      end
    end
  end.

Definition unread (f : ngx_conf_file_t) : nat :=
  (length (buf f) - pos f + match file f with None => 0 | Some fd => f_size fd - offset f end)%nat.

(** The code, the words of cf->args, and the file. *)
Definition ngx_conf_read_token (f : ngx_conf_file_t) : outcome (Z * list (list Z) * ngx_conf_file_t) :=
  token_loop (S (unread f)) (pos f) token0 f.

(** * The directives of the modules *)

Section Conf.
(** [X] is what the modules keep, [H] the custom handlers of blocks. *)
Context {X H : Type}.

(** cf->ctx is an array of pointers, and some of them point to arrays. *)
Record conf_ctx := MkCtx { ctx_slot : Z -> Z; ctx_level : Z -> option (Z -> Z) }.

(** The third argument of a directive: NULL, a pointer, or the address of an
    element of cf->ctx. *)
Inductive conf_arg := ConfNull | ConfPtr (p : Z) | ConfSlot (i : Z).

Record ngx_conf_t := MkConf {
  args : list (list Z); ctx : option conf_ctx; module_type : Z; cf_cmd_type : Z; handler : option H; data : X }.

Definition set_args (v : list (list Z)) (cf : ngx_conf_t) : ngx_conf_t :=
  MkConf v (ctx cf) (module_type cf) (cf_cmd_type cf) (handler cf) (data cf).

(** The code of a module: it is done, or it calls ngx_conf_parse for a block or
    for a file. *)
Inductive set_program :=
  | SetDone (rv : conf_rv) (cf : ngx_conf_t)
  | SetParse (filename : option (list Z)) (cf : ngx_conf_t) (k : conf_rv -> ngx_conf_t -> set_program).

Record ngx_command_t := MkCommand {
  cmd_name : list Z; cmd_type : Z; cmd_conf : Z; cmd_set : conf_arg -> ngx_conf_t -> set_program }.

Record ngx_module_t := MkModule { m_index : Z; m_ctx_index : Z; m_type : Z; m_commands : list ngx_command_t }.

Definition NGX_CONF_BLOCK : Z := 0x100.
Definition NGX_CONF_FLAG : Z := 0x200.
Definition NGX_CONF_ANY : Z := 0x400.
Definition NGX_CONF_1MORE : Z := 0x800.
Definition NGX_CONF_2MORE : Z := 0x1000.
Definition NGX_DIRECT_CONF : Z := 0x10000.
Definition NGX_MAIN_CONF : Z := 0x1000000.
Definition NGX_ANY_CONF : Z := 0xF000000.
Definition NGX_CONF_TAKE1 : Z := 2.
Definition NGX_CONF_MODULE : Z := 0x464E4F43.
Definition NGX_CONF_MAX_ARGS : nat := 8.

Definition argument_number (i : nat) : Z := nth i [1; 2; 4; 8; 16; 32; 64; 128] 0.

Definition has (type flag : Z) : bool := negb (Z.land type flag =? 0).

(** Is the number of arguments right? *)
Definition arguments_ok (type : Z) (nelts : nat) : bool :=
  if has type NGX_CONF_ANY then true
  else if has type NGX_CONF_FLAG then (nelts =? 2)%nat
  else if has type NGX_CONF_1MORE then (2 <=? nelts)%nat
  else if has type NGX_CONF_2MORE then (3 <=? nelts)%nat
  else if (NGX_CONF_MAX_ARGS <? nelts)%nat then false
  else has type (argument_number (nelts - 1)).

(** The configuration of the directive; an array that is NULL has no elements. *)
Definition conf_of (m : ngx_module_t) (cmd : ngx_command_t) (cf : ngx_conf_t) : outcome conf_arg :=
  if has (cmd_type cmd) NGX_DIRECT_CONF then
    match ctx cf with None => Undefined | Some c => Ret (ConfPtr (ctx_slot c (m_index m))) end
  else if has (cmd_type cmd) NGX_MAIN_CONF then Ret (ConfSlot (m_index m))
  else
    Ret (match ctx cf with
         | None => ConfNull
         | Some c => match ctx_level c (cmd_conf cmd) with None => ConfNull | Some confp => ConfPtr (confp (m_ctx_index m)) end
         end).

(** The search for the directive; None is NGX_ERROR before a module is called. *)
Fixpoint find_command (last : Z) (cf : ngx_conf_t) (cmds : list (ngx_module_t * ngx_command_t)) : outcome (option set_program) :=
  match cmds with
  | [] => Ret None
  | (m, cmd) :: cmds =>
    let name := hd [] (args cf) in
    if negb (length name =? length (cmd_name cmd))%nat then find_command last cf cmds
    else if negb (ngx_strcmp name (cmd_name cmd) =? 0) then find_command last cf cmds
    else if negb (m_type m =? NGX_CONF_MODULE) && negb (m_type m =? module_type cf) then find_command last cf cmds
    else if negb (has (cmd_type cmd) (cf_cmd_type cf)) then find_command last cf cmds
    else if negb (has (cmd_type cmd) NGX_CONF_BLOCK) && negb (last =? NGX_OK) then Ret None
    else if has (cmd_type cmd) NGX_CONF_BLOCK && negb (last =? NGX_CONF_BLOCK_START) then Ret None
    else if negb (arguments_ok (cmd_type cmd) (length (args cf))) then Ret None
    else let! conf := conf_of m cmd cf in Ret (Some (cmd_set cmd conf cf))
  end.

Context (ngx_modules : list ngx_module_t) (custom : H -> ngx_conf_t -> set_program).

Definition commands : list (ngx_module_t * ngx_command_t) := concat (map (fun m => map (pair m) (m_commands m)) ngx_modules).

Definition ngx_conf_handler (cf : ngx_conf_t) (last : Z) : outcome (option set_program) := find_command last cf commands.

(** ** The loop over the directives *)

(** open and fstat. *)
Context (open_file : list Z -> option ngx_file_t).

Inductive parse_type := ParseFile | ParseBlock | ParseParam.

Abbreviation parser := (option (list Z) -> ngx_conf_t -> ngx_conf_file_t -> outcome (conf_rv * ngx_conf_t * ngx_conf_file_t)).

Fixpoint run_set (parse : parser) (p : set_program) (f : ngx_conf_file_t) : outcome (conf_rv * ngx_conf_t * ngx_conf_file_t) :=
  match p with
  | SetDone rv cf => Ret (rv, cf, f)
  | SetParse filename cf k => let! (rv, cf, f) := parse filename cf f in run_set parse (k rv cf) f
  end.

Definition directive_program (cf : ngx_conf_t) (last : Z) : outcome (option set_program) :=
  match handler cf with Some h => Ret (Some (custom h cf)) | None => ngx_conf_handler cf last end.

Abbreviation looper := (parse_type -> ngx_conf_t -> ngx_conf_file_t -> outcome (bool * ngx_conf_t * ngx_conf_file_t)).

(** ngx_conf_parse around its loop, which gives whether it is done without an
    error; cf->conf_file is the file of the caller again afterwards, except that
    it still is the file read, whose buffer is freed, where that cannot be
    closed. *)
Definition conf_parse (loop : looper) : parser := fun filename cf f =>
  match filename with
  | Some name =>
    match open_file name with
    | None => Ret (NGX_CONF_ERROR, cf, f)
    | Some fd =>
      let! (ok, cf, f1) := loop ParseFile cf (MkConfFile (Some fd) 0 [] 0 1) in
      if negb (f_closes fd) then Ret (NGX_CONF_ERROR, cf, f1)
      else Ret (if ok then NGX_CONF_OK else NGX_CONF_ERROR, cf, f)
    end
  | None =>
    let! (ok, cf, f) := loop (match file f with Some _ => ParseBlock | None => ParseParam end) cf f in
    Ret (if ok then NGX_CONF_OK else NGX_CONF_ERROR, cf, f)
  end.

(** A round reads a directive; the rounds of a block are among those of its file. *)
Fixpoint conf_loop (fuel : nat) (type : parse_type) (cf : ngx_conf_t) (f : ngx_conf_file_t)
    : outcome (bool * ngx_conf_t * ngx_conf_file_t) :=
  match fuel with
  | O => NoFuel
  | S fuel =>
    let! (rc, ws, f) := ngx_conf_read_token f in
    let cf := set_args ws cf in
    if rc =? NGX_ERROR then Ret (false, cf, f)
    else if rc =? NGX_CONF_BLOCK_DONE then Ret (match type with ParseBlock => true | _ => false end, cf, f)
    else if rc =? NGX_CONF_FILE_DONE then Ret (match type with ParseBlock => false | _ => true end, cf, f)
    else if (rc =? NGX_CONF_BLOCK_START) && match type with ParseParam => true | _ => false end then Ret (false, cf, f)
    else
      let! o := directive_program cf rc in
      match o with
      | None => Ret (false, cf, f)
      | Some p =>
        let! (rv, cf, f) := run_set (conf_parse (conf_loop fuel)) p f in
        match rv with NGX_CONF_OK => conf_loop fuel type cf f | _ => Ret (false, cf, f) end
      end
  end.

Definition ngx_conf_parse (fuel : nat) : parser := conf_parse (conf_loop fuel).

(** The parameter of the command line. *)
Definition ngx_conf_param (fuel : nat) (param : list Z) (cf : ngx_conf_t) : outcome (conf_rv * ngx_conf_t) :=
  match param with
  | [] => Ret (NGX_CONF_OK, cf)
  | _ => let! (rv, cf, _) := ngx_conf_parse fuel None cf (MkConfFile None 0 param 0 0) in Ret (rv, cf)
  end.

(** ** include *)

Definition ngx_conf_test_full_name (name : list Z) : bool := hd 0 name =? "/"%c.

Definition ngx_conf_full_name (prefix name : list Z) : list Z :=
  if ngx_conf_test_full_name name then name else prefix ++ name.

(** [conf_prefix] is the directory of the configuration; [glob] gives the names
    of a pattern, None when it fails.  The name has no NUL. *)
Context (conf_prefix : list Z) (glob : list Z -> option (list (list Z))).

Fixpoint include_all (names : list (list Z)) (cf : ngx_conf_t) : set_program :=
  match names with
  | [] => SetDone NGX_CONF_OK cf
  | name :: names =>
    SetParse (Some name) cf (fun rv cf => match rv with NGX_CONF_OK => include_all names cf | _ => SetDone rv cf end)
  end.

Definition ngx_conf_include (conf : conf_arg) (cf : ngx_conf_t) : set_program :=
  let name := ngx_conf_full_name conf_prefix (nth 1 (args cf) []) in
  if negb (existsb (fun c => (c =? "*"%c) || (c =? "?"%c) || (c =? "["%c)) name)
  then SetParse (Some name) cf SetDone
  else match glob name with None => SetDone NGX_CONF_ERROR cf | Some names => include_all names cf end.

Definition ngx_conf_commands : list ngx_command_t :=
  [MkCommand $"include" (Z.lor NGX_ANY_CONF NGX_CONF_TAKE1) 0 ngx_conf_include].

End Conf.

(** ** The files that the configuration opens *)

Section OpenFiles.
(** [D] is what the flush of a file works on. *)
Context {D : Type}.

Record ngx_open_file_t := MkOpenFile { of_fd : Z; of_name : list Z; of_flush : option (D -> D); of_data : option D }.

Definition NGX_INVALID_FILE : Z := -1.
Definition ngx_stderr : Z := 2.

Fixpoint find_open_file (full : list Z) (files : list ngx_open_file_t) : option nat :=
  match files with
  | [] => None
  | f :: files =>
    if (length full =? length (of_name f))%nat && (ngx_strcmp full (of_name f) =? 0) then Some 0%nat
    else option_map S (find_open_file full files)
  end.

(** The place of the file among the open files of the cycle. *)
Definition ngx_conf_open_file (prefix name : list Z) (files : list ngx_open_file_t) : nat * list ngx_open_file_t :=
  match name with
  | [] => (length files, files ++ [MkOpenFile ngx_stderr name None None])
  | _ =>
    let full := ngx_conf_full_name prefix name in
    match find_open_file full files with
    | Some i => (i, files)
    | None => (length files, files ++ [MkOpenFile NGX_INVALID_FILE full None None])
    end
  end.

Definition ngx_conf_flush_files (files : list ngx_open_file_t) : list ngx_open_file_t :=
  map (fun f => match of_flush f with Some flush => MkOpenFile (of_fd f) (of_name f) (of_flush f) (option_map flush (of_data f)) | None => f end) files.

Lemma strcmp_refl s : 0 ∉ s -> ngx_strcmp s s = 0.
Proof.
  induction s as [|a s IH]; intros Hs; [done|]. apply not_elem_of_cons in Hs as [Ha Hs]. cbn [ngx_strcmp hd tl].
  rewrite Z.eqb_refl. rewrite (proj2 (Z.eqb_neq a 0)) by congruence. by apply IH.
Qed.

(** A name is opened once. *)
Lemma open_file_once prefix name files i files' : 0 ∉ prefix -> 0 ∉ name -> name <> [] ->
  ngx_conf_open_file prefix name files = (i, files') -> ngx_conf_open_file prefix name files' = (i, files').
Proof.
  intros Hp Hn Hne. unfold ngx_conf_open_file. destruct name as [|c name]; [done|]. set (full := ngx_conf_full_name prefix (c :: name)).
  assert (Hf : 0 ∉ full) by (unfold full, ngx_conf_full_name; case_match; set_solver).
  destruct (find_open_file full files) as [k|] eqn:E; intros [= <- <-]; [by rewrite E|].
  assert (H : find_open_file full (files ++ [MkOpenFile NGX_INVALID_FILE full None None]) = Some (length files)).
  { revert E. induction files as [|f files IH]; cbn [find_open_file app length of_name].
    - by rewrite Nat.eqb_refl, strcmp_refl.
    - destruct ((length full =? length (of_name f))%nat && (ngx_strcmp full (of_name f) =? 0)); [done|].
      destruct (find_open_file full files); [done|]. intros _. by rewrite IH. }
  by rewrite H.
Qed.

End OpenFiles.

End ConfFile.
