(* ===== verification/NgxConfRead.v ===== *)
(** Reading a directive without the buffer: the words of a directive depend on
    the bytes of the file only, and on nothing but the 4096 bytes that a word
    and the blanks behind it may have. *)

From S2P Require Import Prelude NgxConfFile.

Module ConfRead.

Import ConfFile.

(** * The reader without a buffer *)

Definition window (m : mark) (win : list Z) (ch : Z) : list Z :=
  match m with Keep => win | Here => [ch] | Behind => [] end.

Definition end_code (t : token) : Z := match words t, last_space t with [], true => NGX_CONF_FILE_DONE | _, _ => NGX_ERROR end.

(** [win] has the bytes since the start of the word, [rest] what the file still
    has, [lim] whether they come through a buffer; the result has the code, the words, what is left, and the line. *)
Fixpoint read_bytes (lim : bool) (t : token) (win rest : list Z) (line : Z) : Z * list (list Z) * list Z * Z :=
  match rest with
  | [] => (end_code t, words t, [], line)
  | ch :: rest' =>
    if lim && (length win =? NGX_CONF_BUFFER)%nat then (NGX_ERROR, words t, rest, line)
    else
      let win := win ++ [ch] in
      match token_char win ch t with
      | Stop rc t => (rc, words t, rest', next_line ch line)
      | Go t m => read_bytes lim t (window m win ch) rest' (next_line ch line)
      end
  end.

Definition read_directive (lim : bool) (rest : list Z) (line : Z) : Z * list (list Z) * list Z * Z :=
  read_bytes lim token0 [] rest line.

(** ** Files *)

(** pread gives the bytes that the file has. *)
Definition holds_bytes (fd : ngx_file_t) (content : list Z) : Prop :=
  f_size fd = length content /\
  forall off n, (off + n <= length content)%nat -> pread fd off n = Some (take n (drop off content)).

(** The bytes of the file that are not read yet. *)
Definition rest_of (content : list Z) (f : ngx_conf_file_t) : list Z := drop (pos f) (buf f) ++ drop (offset f) content.

Definition file_ok (content : list Z) (f : ngx_conf_file_t) : Prop :=
  match file f with None => content = [] | Some fd => holds_bytes fd content /\ (length (buf f) <= NGX_CONF_BUFFER)%nat end /\
  (offset f <= length content)%nat /\ (pos f <= length (buf f))%nat.

(** * The two readers are the same *)

Lemma rest_of_nil content f : (length (buf f) <= pos f)%nat -> rest_of content f = drop (offset f) content.
Proof. intros Hp. unfold rest_of. by rewrite drop_ge by done. Qed.

(** The window of the buffer. *)
Abbreviation win_of start f := (take (pos f - start) (drop start (buf f))) (only parsing).

Lemma length_win start f : (start <= pos f)%nat -> (pos f <= length (buf f))%nat -> length (win_of start f) = (pos f - start)%nat.
Proof. intros Hs Hp. rewrite length_take, length_drop. lia. Qed.

Abbreviation limited f := (match file f with Some _ => true | None => false end) (only parsing).

(** A buffer with no more bytes is at the end of the file, has no room, or gets
    bytes behind the window. *)
Lemma refill_ok content start t f : file_ok content f -> (start <= pos f)%nat ->
  match refill start t f with
  | inl rc => (rest_of content f = [] /\ rc = end_code t) \/
      (rest_of content f <> [] /\ limited f && (length (win_of start f) =? NGX_CONF_BUFFER)%nat = true /\ rc = NGX_ERROR)
  | inr (start', f') => rest_of content f' = rest_of content f /\ file_ok content f' /\ line f' = line f /\ file f' = file f /\
      win_of start' f' = win_of start f /\ (start' <= pos f')%nat /\ (pos f' < length (buf f'))%nat
  end.
Proof.
  intros (Hf & Ho & Hp) Hs. rewrite length_win by lia. unfold refill. fold (end_code t).
  destruct (Nat.ltb_spec (pos f) (length (buf f))) as [Hl|Hl]; [done|]. rewrite rest_of_nil by done.
  destruct (file f) as [fd|] eqn:Ef; [|left; split; [by rewrite Hf, drop_nil|done]].
  destruct Hf as [[Hsz Hrd] Hb]. destruct (Nat.leb_spec (f_size fd) (offset f)) as [He|He].
  { left. split; [|done]. apply drop_ge. lia. }
  assert (Hne : drop (offset f) content <> []).
  { intros E%(f_equal length). rewrite length_drop in E. cbn in E. lia. }
  destruct (Nat.eqb_spec (pos f - start) NGX_CONF_BUFFER) as [Hw|Hw]; [by right|].
  set (size := Nat.min (f_size fd - offset f) (NGX_CONF_BUFFER - (pos f - start))). unfold ngx_read_file.
  rewrite Hrd by lia. assert (Hsize : length (take size (drop (offset f) content)) = size) by (rewrite length_take, length_drop; lia).
  rewrite Hsize, Nat.eqb_refl. pose proof (length_win start f ltac:(lia) Hp) as Hlw.
  unfold rest_of, file_ok. cbn [buf pos offset file line]. rewrite drop_0, Nat.sub_0_r, length_app, Hlw, Hsize.
  split_and!; try done; try lia.
  - rewrite drop_app_length' by done. rewrite <- drop_drop, take_drop. done.
  - by rewrite take_app_length' by done.
Qed.

(** The reading of a byte that the buffer has. *)
Lemma rest_of_cons content f ch : buf f !! pos f = Some ch ->
  rest_of content f = ch :: rest_of content (MkConfFile (file f) (offset f) (buf f) (S (pos f)) (next_line ch (line f))).
Proof. intros Hc. unfold rest_of. cbn [buf pos offset]. by rewrite (drop_S _ _ _ Hc). Qed.

Lemma window_grows start f ch : (start <= pos f)%nat -> buf f !! pos f = Some ch ->
  take (S (pos f) - start) (drop start (buf f)) = win_of start f ++ [ch].
Proof.
  intros Hs Hc. replace (S (pos f) - start)%nat with (S (pos f - start)) by lia. apply take_S_r. rewrite lookup_drop.
  by replace (start + (pos f - start))%nat with (pos f) by lia.
Qed.

Definition same_result (content : list Z) (fd : option ngx_file_t) (o : outcome (Z * list (list Z) * ngx_conf_file_t)) (r : Z * list (list Z) * list Z * Z) : Prop :=
  exists rc ws f rest l, o = Ret (rc, ws, f) /\ r = (rc, ws, rest, l) /\
    (rc <> NGX_ERROR -> file_ok content f /\ file f = fd /\ rest_of content f = rest /\ line f = l).

Lemma token_loop_ok content fuel : forall start t f, file_ok content f -> (start <= pos f)%nat ->
  (length (rest_of content f) < fuel)%nat ->
  same_result content (file f) (token_loop fuel start t f) (read_bytes (limited f) t (win_of start f) (rest_of content f) (line f)).
Proof.
  induction fuel as [|fuel IH]; intros start t f Hf Hs Hfuel; [lia|]. cbn [token_loop].
  pose proof (refill_ok content start t f Hf Hs) as Hr. destruct (refill start t f) as [rc|[start' f']].
  { destruct Hr as [[E ->]|(Hne & Hw & ->)].
    - rewrite E. by eexists _, _, f, _, _.
    - destruct (rest_of content f) as [|ch rest]; [done|]. cbn [read_bytes]. rewrite Hw. by eexists _, _, f, _, _. }
  destruct Hr as (Hrest & Hf' & <- & <- & Hwin & Hs' & Hp). rewrite <- Hrest, <- Hwin. rewrite <- Hrest in Hfuel.
  clear f start Hf Hs Hrest Hwin. destruct (lookup_lt_is_Some_2 _ _ Hp) as [ch Hc]. rewrite Hc. cbv zeta. cbn [pos].
  set (g := MkConfFile _ _ _ _ _). rewrite (rest_of_cons content f' ch Hc) in Hfuel |- *. fold g in Hfuel |- *. cbn [length] in Hfuel.
  cbn [read_bytes]. rewrite length_win by lia. change (buf g) with (buf f'). rewrite (window_grows start' f' ch) by done.
  assert (Hwin : limited f' && (pos f' - start' =? NGX_CONF_BUFFER)%nat = false).
  { destruct Hf' as (Hf' & _). destruct (file f'); [|done]. apply Nat.eqb_neq. lia. }
  rewrite Hwin. assert (Hg : file_ok content g) by (destruct Hf' as (? & ? & ?); split_and!; cbn [g pos buf file offset] in *; try done; lia).
  change (file f') with (file g). change (next_line ch (line f')) with (line g).
  destruct (token_char (win_of start' f' ++ [ch]) ch t) as [t' m|rc t'].
  - assert (Hgo : forall s, (s <= pos g)%nat -> win_of s g = window m (win_of start' f' ++ [ch]) ch ->
      same_result content (file g) (token_loop fuel s t' g)
        (read_bytes (limited g) t' (window m (win_of start' f' ++ [ch]) ch) (rest_of content g) (line g))).
    { intros s Hsg <-. apply IH; [done|done|lia]. }
    destruct m; apply Hgo; cbn [g pos buf window]; try lia.
    + by apply window_grows.
    + replace (S (pos f') - 1)%nat with (pos f') by lia. rewrite (drop_S _ _ _ Hc).
      by replace (S (pos f') - pos f')%nat with 1%nat by lia.
    + by rewrite Nat.sub_diag.
  - by eexists _, _, g, _, _.
Qed.

(** The reader with the buffer reads what the reader without it reads. *)
Lemma read_token_flat content f : file_ok content f ->
  same_result content (file f) (ngx_conf_read_token f) (read_directive (limited f) (rest_of content f) (line f)).
Proof.
  intros Hf. pose proof (token_loop_ok content (S (unread f)) (pos f) token0 f Hf (le_n _)) as H.
  rewrite Nat.sub_diag, take_0 in H. apply H. unfold unread, rest_of. rewrite length_app, !length_drop.
  destruct Hf as (Hf & _). destruct (file f) as [fd|].
  - destruct Hf as [[-> _] _]. lia.
  - subst content. cbn. lia.
Qed.

(** * A file from its beginning to its end *)

(** The codes of the directives of a file with their words and the lines they
    end in, and the last code. *)
Fixpoint read_file (fuel : nat) (f : ngx_conf_file_t) : outcome (list (Z * list (list Z) * Z) * Z) :=
  match fuel with
  | O => NoFuel
  | S fuel =>
    let! (rc, ws, f) := ngx_conf_read_token f in
    if (rc =? NGX_ERROR) || (rc =? NGX_CONF_FILE_DONE) then Ret ([], rc)
    else let! (l, last) := read_file fuel f in Ret ((rc, ws, line f) :: l, last)
  end.

(** The same without a buffer. *)
Fixpoint read_content (fuel : nat) (rest : list Z) (line : Z) : outcome (list (Z * list (list Z) * Z) * Z) :=
  match fuel with
  | O => NoFuel
  | S fuel =>
    let '(rc, ws, rest, line) := read_directive true rest line in
    if (rc =? NGX_ERROR) || (rc =? NGX_CONF_FILE_DONE) then Ret ([], rc)
    else let! (l, last) := read_content fuel rest line in Ret ((rc, ws, line) :: l, last)
  end.

Lemma read_bytes_consumes lim rest : forall t win line rc ws rest' line', read_bytes lim t win rest line = (rc, ws, rest', line') ->
  rc <> NGX_ERROR -> rc <> NGX_CONF_FILE_DONE -> (length rest' < length rest)%nat.
Proof.
  induction rest as [|ch rest IH]; intros t win line rc ws rest' line' E He Hd; cbn [read_bytes] in E.
  - unfold end_code in E. repeat case_match; simplify_eq.
  - destruct (lim && (length win =? NGX_CONF_BUFFER)%nat); [by simplify_eq|]. cbn [length].
    destruct (token_char (win ++ [ch]) ch t) as [t' m|rc' t']; [|simplify_eq; lia]. apply IH in E; [lia|done|done].
Qed.

Lemma read_file_flat content fd fuel : forall f, file_ok content f -> file f = Some fd -> (length (rest_of content f) < fuel)%nat ->
  exists r, read_file fuel f = Ret r /\ read_content fuel (rest_of content f) (line f) = Ret r.
Proof.
  induction fuel as [|fuel IH]; intros f Hf Hfd Hn; [lia|]. cbn [read_file read_content].
  destruct (read_token_flat content f Hf) as (rc & ws & f' & rest & l & -> & E & Hok). rewrite Hfd in E, Hok. rewrite E. cbn [outcome_bind].
  destruct (rc =? NGX_ERROR) eqn:Ee; [by eexists|]. destruct (rc =? NGX_CONF_FILE_DONE) eqn:Ed; [by eexists|]. cbn [orb]. boolify.
  destruct (Hok Ee) as (Hf' & Hfd' & <- & <-). apply read_bytes_consumes in E; [|done|done].
  destruct (IH f' Hf' Hfd' ltac:(lia)) as ([dirs last] & -> & ->). by eexists.
Qed.

(** C20: the buffer of the configuration.  Whatever a configuration file holds,
    its directives, their words, the lines they end in and the code the reading
    ends with are a function of its bytes: the refills of the buffer, the bytes
    they move and the places they cut the text at have no effect but that a word
    with the blanks behind it, or a comment, of 4096 bytes is refused, and the
    reading ends within as many directives as there are bytes. *)
Theorem conf_buffer_irrelevant content fd : holds_bytes fd content ->
  exists r, read_file (S (length content)) (MkConfFile (Some fd) 0 [] 0 1) = Ret r /\ read_content (S (length content)) content 1 = Ret r.
Proof.
  intros Hfd. apply (read_file_flat content fd (S (length content)) (MkConfFile (Some fd) 0 [] 0 1)); [|done|unfold rest_of; cbn; rewrite drop_0; lia].
  split; [|cbn; lia]. split; [done|cbn; lia].
Qed.

(** ** A file that is larger than the buffer *)

Definition mem_file (content : list Z) : ngx_file_t := MkFile (length content) (fun off n => Some (take n (drop off content))) true.

Lemma mem_file_holds content : holds_bytes (mem_file content) content.
Proof. by split. Qed.

Definition large_content : list Z := concat (repeat $"set 'a b' c; # d
" 300).

Lemma conf_buffer_irrelevant_witness :
  exists r, read_file (S (length large_content)) (MkConfFile (Some (mem_file large_content)) 0 [] 0 1) = Ret r /\
    read_content (S (length large_content)) large_content 1 = Ret r.
Proof. apply (conf_buffer_irrelevant large_content (mem_file large_content) (mem_file_holds large_content)). Defined.

Example large_content_read :
  (let! (l, last) := read_file 400 (MkConfFile (Some (mem_file large_content)) 0 [] 0 1) in
   Ret (length l, List.last l (0, [], 0), last)) = Ret (300%nat, (NGX_OK, [$"set"; $"a b"; $"c"], 300), NGX_CONF_FILE_DONE).
Proof. vm_compute. reflexivity. Qed.

End ConfRead.
