(* ===== verification/NgxConfText.v ===== *)
(** The texts of directives: words with and without quotes, blanks and comments,
    and that ngx_conf_read_token reads them.

    A word is made of pieces: a byte as it is, a byte behind a backslash, or the
    beginning of a variable in braces, which stands in a word without quotes
    only behind its first byte. *)

From S2P Require Import Prelude NgxConfFile NgxConfRead.

Module ConfText.

Import ConfFile ConfRead.

(** * Texts *)

Inductive piece := Raw (b : Z) | Esc (c : Z) | Var.

Definition piece_text (p : piece) : list Z := match p with Raw b => [b] | Esc c => [92; c] | Var => $"${" end.

Definition esc_value (c : Z) : list Z :=
  if (c =? 34) || (c =? 39) || (c =? 92) then [c]
  else if c =? "t"%c then [9] else if c =? "r"%c then [13] else if c =? "n"%c then [10] else [92; c].

Definition piece_value (p : piece) : list Z := match p with Raw b => [b] | Esc c => esc_value c | Var => $"${" end.

Definition pieces_text (ps : list piece) : list Z := concat (map piece_text ps).
Definition pieces_value (ps : list piece) : list Z := concat (map piece_value ps).

Inductive style := Bare | Double | Single.

Definition quote_of (st : style) : list Z := match st with Bare => [] | Double => [34] | Single => [39] end.

(** The bytes that stand for themselves. *)
Definition raw_ok (st : style) (b : Z) : Prop :=
  b <> 92 /\
  match st with
  | Bare => is_blank b = false /\ b <> ";"%c /\ b <> "{"%c
  | Double => b <> 34
  | Single => b <> 39
  end.

Definition piece_ok (st : style) (p : piece) : Prop := match p with Raw b => raw_ok st b | _ => True end.

Definition first_ok (p : piece) : Prop :=
  match p with Raw b => b <> "}"%c /\ b <> "#"%c /\ b <> 34 /\ b <> 39 | Esc _ => True | Var => False end.

#[export] Instance style_eq_dec : EqDecision style.
Proof. solve_decision. Defined.

Record spelled := MkSpelled { sp_style : style; sp_pieces : list piece }.

Definition spelled_text (w : spelled) : list Z := quote_of (sp_style w) ++ pieces_text (sp_pieces w) ++ quote_of (sp_style w).
Definition spelled_value (w : spelled) : list Z := pieces_value (sp_pieces w).

Definition spelled_ok (w : spelled) : Prop :=
  Forall (piece_ok (sp_style w)) (sp_pieces w) /\
  (sp_style w = Bare -> match sp_pieces w with [] => False | p :: _ => first_ok p end).

(** Blanks, and comments with the blanks behind their lines. *)
Record gap := MkGap { lead : list Z; comments : list (list Z * list Z) }.

Definition comment_text (c : list Z * list Z) : list Z := "#"%c :: c.1 ++ 10 :: c.2.
Definition gap_text (g : gap) : list Z := lead g ++ concat (map comment_text (comments g)).

Definition blanks (l : list Z) : Prop := Forall (fun b => is_blank b = true) l.

Definition comment_ok (c : list Z * list Z) : Prop :=
  (10 ∉ c.1) /\ blanks c.2 /\ (length (comment_text c) < NGX_CONF_BUFFER)%nat.

Definition gap_ok (g : gap) : Prop := blanks (lead g) /\ (length (lead g) < NGX_CONF_BUFFER)%nat /\ Forall comment_ok (comments g).

(** The words of a directive with the gaps behind them. *)
Definition head_text (h : list (spelled * gap)) : list Z := concat (map (fun e => spelled_text e.1 ++ gap_text e.2) h).
Definition head_value (h : list (spelled * gap)) : list (list Z) := map (fun e => spelled_value e.1) h.

Definition entry_ok (e : spelled * gap) : Prop :=
  spelled_ok e.1 /\ gap_ok e.2 /\ (length (spelled_text e.1) + length (lead e.2) < NGX_CONF_BUFFER)%nat.

(** A blank is between two words, before a comment, and before a block. *)
Fixpoint head_ok (block : bool) (h : list (spelled * gap)) : Prop :=
  match h with
  | [] => False
  | [e] => entry_ok e /\ (lead e.2 = [] -> comments e.2 = [] /\ block = false)
  | e :: h => entry_ok e /\ lead e.2 <> [] /\ head_ok block h
  end.

(** * Reading *)

Definition lines (text : list Z) (line : Z) : Z := fold_left (fun l c => next_line c l) text line.

Lemma lines_app s t l : lines (s ++ t) l = lines t (lines s l).
Proof. apply fold_left_app. Qed.

(** The states between words, behind a quoted word, and in a word. *)
Definition between (ws : list (list Z)) : token := MkToken false true false false false false false ws.
Definition behind_quote (ws : list (list Z)) : token := MkToken true false false false false false false ws.
Definition in_comment (ws : list (list Z)) : token := MkToken false true true false false false false ws.
Definition inside (st : style) (v : bool) (ws : list (list Z)) : token :=
  MkToken false false false v false (match st with Single => true | _ => false end) (match st with Double => true | _ => false end) ws.

Section Read.
Context (lim : bool).
Abbreviation read := (read_bytes lim).

Lemma read_step t win ch rest line : (length win < NGX_CONF_BUFFER)%nat ->
  read t win (ch :: rest) line =
  match token_char (win ++ [ch]) ch t with
  | Stop rc t => (rc, words t, rest, next_line ch line)
  | Go t m => read t (window m (win ++ [ch]) ch) rest (next_line ch line)
  end.
Proof. intros Hw. cbn [read_bytes]. by rewrite (proj2 (Nat.eqb_neq _ _)), andb_false_r by lia. Qed.

Lemma read_blanks ws l : forall win rest line, blanks l -> (length win + length l <= NGX_CONF_BUFFER)%nat ->
  read (between ws) win (l ++ rest) line = read (between ws) (win ++ l) rest (lines l line).
Proof.
  induction l as [|b l IH]; intros win rest line Hb Hl; cbn [app]; [by rewrite app_nil_r|]. cbn [length] in Hl.
  apply Forall_cons in Hb as [Hb1 Hb]. rewrite read_step by lia. unfold token_char, between. cbn [sharp_comment quoted need_space last_space].
  rewrite andb_false_r. cbn [sharp_comment quoted need_space last_space]. unfold before_word. rewrite Hb1. cbn [window].
  fold (between ws). rewrite IH; [|done|rewrite length_app; cbn; lia]. by rewrite <- app_assoc.
Qed.

Lemma read_comment_bytes ws l : forall win rest line, 10 ∉ l -> (length win + length l <= NGX_CONF_BUFFER)%nat ->
  read (in_comment ws) win (l ++ rest) line = read (in_comment ws) (win ++ l) rest (lines l line).
Proof.
  induction l as [|b l IH]; intros win rest line Hb Hl; cbn [app]; [by rewrite app_nil_r|]. cbn [length] in Hl.
  apply not_elem_of_cons in Hb as [Hb1 Hb]. rewrite read_step by lia. unfold token_char, in_comment.
  rewrite (proj2 (Z.eqb_neq b 10)) by congruence. cbn [sharp_comment andb window].
  fold (in_comment ws). rewrite IH; [|done|rewrite length_app; cbn; lia]. by rewrite <- app_assoc.
Qed.

Lemma read_comment ws c win rest line : comment_ok c -> (length win < NGX_CONF_BUFFER)%nat ->
  read (between ws) win (comment_text c ++ rest) line = read (between ws) (comment_text c) rest (lines (comment_text c) line).
Proof.
  destruct c as [c bl]. intros (Hc & Hb & Hl) Hw. unfold comment_text in *. cbn [fst snd length app] in *. rewrite length_app in Hl. cbn [length] in Hl.
  rewrite read_step by done. change (token_char (win ++ ["#"%c]) "#"%c (between ws)) with (Go (in_comment ws) Here). cbn iota. cbn [window].
  rewrite <- app_assoc, read_comment_bytes by (try done; cbn; lia). cbn [app]. rewrite read_step by (cbn [app length]; lia).
  change (token_char (("#"%c :: c) ++ [10]) 10 (in_comment ws)) with (Go (between ws) Keep). cbn iota. cbn [window].
  rewrite read_blanks; [|done|rewrite !length_app; cbn; lia]. f_equal.
  - cbn [app]. by rewrite <- app_assoc.
  - change (lines ("#"%c :: c ++ 10 :: bl) line) with (lines (c ++ 10 :: bl) line). by rewrite lines_app.
Qed.

Lemma read_gap ws g win rest line : gap_ok g -> (length win + length (lead g) < NGX_CONF_BUFFER)%nat ->
  exists win', (length win' < NGX_CONF_BUFFER)%nat /\
    read (between ws) win (gap_text g ++ rest) line = read (between ws) win' rest (lines (gap_text g) line).
Proof.
  destruct g as [l cs]. intros (Hb & _ & Hc) Hw. unfold gap_text. cbn [lead comments] in *. rewrite <- app_assoc, read_blanks by (try done; lia).
  assert (Hw' : (length (win ++ l) < NGX_CONF_BUFFER)%nat) by (rewrite length_app; lia). rewrite lines_app.
  generalize (lines l line). revert Hw'. generalize (win ++ l). clear win l Hb Hw.
  induction Hc as [|c cs Hc Hcs IH]; intros win Hw l; cbn [map concat app]; [by exists win|].
  rewrite <- app_assoc, read_comment by done. rewrite lines_app. apply IH. apply Hc.
Qed.

(** ** Words *)

Lemma read_byte t t' win b rest line : token_char (win ++ [b]) b t = Go t' Keep -> (length win < NGX_CONF_BUFFER)%nat ->
  read t win (b :: rest) line = read t' (win ++ [b]) rest (next_line b line).
Proof. intros E Hw. rewrite read_step by done. by rewrite E. Qed.

Lemma inside_char win b st v ws : token_char win b (inside st v ws) = in_word win b (inside st v ws).
Proof. unfold token_char, inside. cbn [sharp_comment]. by rewrite andb_false_r. Qed.

Lemma inside_raw win b st v ws : raw_ok st b -> exists v', token_char win b (inside st v ws) = Go (inside st v' ws) Keep.
Proof.
  intros [H92 Hb]. rewrite inside_char. unfold in_word. destruct ((b =? "{"%c) && variable (inside st v ws)); [by exists v|].
  rewrite (proj2 (Z.eqb_neq b 92)) by done. destruct (b =? "$"%c); [by exists true|]. exists false.
  destruct st; cbn [inside set_variable d_quoted s_quoted].
  - destruct Hb as (-> & H1 & H2). by rewrite (proj2 (Z.eqb_neq b _) H1), (proj2 (Z.eqb_neq b _) H2).
  - by rewrite (proj2 (Z.eqb_neq b _) Hb).
  - by rewrite (proj2 (Z.eqb_neq b _) Hb).
Qed.

Definition escaping (st : style) (ws : list (list Z)) : token := set_quoted true (inside st false ws).

Lemma escaped_char win c st ws : token_char win c (escaping st ws) = Go (inside st false ws) Keep.
Proof. unfold token_char, escaping, inside. cbn [set_quoted sharp_comment]. by rewrite andb_false_r. Qed.

Lemma escape_char win st v ws : token_char win 92 (inside st v ws) = Go (escaping st ws) Keep.
Proof. rewrite inside_char. by destruct st. Qed.

Lemma read_piece p st v ws win rest line : piece_ok st p -> (length win + length (piece_text p) <= NGX_CONF_BUFFER)%nat ->
  exists v', read (inside st v ws) win (piece_text p ++ rest) line = read (inside st v' ws) (win ++ piece_text p) rest (lines (piece_text p) line).
Proof.
  destruct p as [b|c|]; intros Hp Hl; cbn [piece_text codes_of app length] in *.
  - destruct (inside_raw (win ++ [b]) b st v ws Hp) as [v' E]. exists v'. by rewrite (read_byte _ _ _ _ _ _ E) by lia.
  - exists false. rewrite (read_byte _ _ _ _ _ _ (escape_char _ _ _ _)) by lia.
    rewrite (read_byte _ _ _ _ _ _ (escaped_char _ _ _ _)) by (rewrite length_app; cbn; lia). by rewrite <- app_assoc.
  - exists true. rewrite (read_byte _ (inside st true ws)) by (try lia; rewrite inside_char; by destruct st).
    rewrite (read_byte _ (inside st true ws)) by (try (rewrite length_app; cbn; lia); rewrite inside_char; by destruct st).
    by rewrite <- app_assoc.
Qed.

Lemma read_pieces ps st ws : forall v win rest line, Forall (piece_ok st) ps -> (length win + length (pieces_text ps) <= NGX_CONF_BUFFER)%nat ->
  exists v', read (inside st v ws) win (pieces_text ps ++ rest) line =
    read (inside st v' ws) (win ++ pieces_text ps) rest (lines (pieces_text ps) line).
Proof.
  unfold pieces_text. induction ps as [|p ps IH]; intros v win rest line Hps Hl; cbn [map concat app] in *; [exists v; by rewrite app_nil_r|].
  apply Forall_cons in Hps as [Hp Hps]. rewrite length_app in Hl. rewrite <- app_assoc.
  destruct (read_piece p st v ws win (concat (map piece_text ps) ++ rest) line Hp ltac:(lia)) as [v1 ->].
  destruct (IH v1 (win ++ piece_text p) rest (lines (piece_text p) line) Hps) as [v2 ->]; [rewrite length_app; lia|].
  exists v2. by rewrite lines_app, <- app_assoc.
Qed.

(** The copy of a word undoes its spelling. *)
Lemma copy_cons b l : b <> 92 -> l <> [] -> copy_word (b :: l) = b :: copy_word l.
Proof. intros Hb Hl. destruct l as [|c l]; [done|]. cbn [copy_word]. by rewrite (proj2 (Z.eqb_neq b 92) Hb). Qed.

Lemma copy_esc c l : copy_word (92 :: c :: l) =
  if (c =? 34) || (c =? 39) || (c =? 92) then c :: copy_word l
  else if c =? "t"%c then 9 :: copy_word l else if c =? "r"%c then 13 :: copy_word l else if c =? "n"%c then 10 :: copy_word l
  else 92 :: copy_word (c :: l).
Proof. reflexivity. Qed.

Lemma copy_pieces ps st e : Forall (piece_ok st) ps -> copy_word (pieces_text ps ++ [e]) = pieces_value ps.
Proof.
  unfold pieces_text, pieces_value. induction 1 as [|p ps Hp Hps IH]; [done|]. cbn [map concat]. rewrite <- app_assoc.
  assert (Hne : concat (map piece_text ps) ++ [e] <> []) by (by destruct (concat (map piece_text ps))).
  destruct p as [b|c|]; cbn [piece_text piece_value codes_of app].
  - rewrite copy_cons; [by rewrite IH|apply Hp|done].
  - rewrite copy_esc, IH. unfold esc_value. repeat case_match; try done. boolify. rewrite copy_cons by done. by rewrite IH.
  - rewrite !copy_cons by done. cbn [app]. by rewrite IH.
Qed.

(** ** Directives *)

(** What the byte behind a word does. *)
Definition after_word (e : Z) (ws : list (list Z)) (win rest : list Z) (line : Z) : Z * list (list Z) * list Z * Z :=
  if e =? ";"%c then (NGX_OK, ws, rest, next_line e line) else read (between ws) (win ++ [e]) rest (next_line e line).

Definition ends_word (e : Z) : Prop := is_blank e = true \/ e = ";"%c.

Lemma ends_word_bytes e : ends_word e -> e = 32 \/ e = 9 \/ e = 13 \/ e = 10 \/ e = ";"%c.
Proof. unfold ends_word, is_blank. intros [H| ->]; boolify; lia. Qed.

Lemma bare_first p ws win rest line : piece_ok Bare p -> first_ok p -> (length win < NGX_CONF_BUFFER)%nat ->
  read (between ws) win (piece_text p ++ rest) line = read (inside Bare false ws) (piece_text p) rest (lines (piece_text p) line).
Proof.
  destruct p as [b|c|]; intros Hp Hf Hw; [| |done]; cbn [piece_text app]; rewrite read_step by done.
  - destruct Hp as (H92 & Hb & H1 & H2), Hf as (H3 & H4 & H5 & H6).
    assert (E : token_char (win ++ [b]) b (between ws) = Go (inside Bare false ws) Here); [|by rewrite E].
    unfold token_char, between. cbn [sharp_comment]. rewrite andb_false_r. cbn [sharp_comment quoted need_space last_space].
    unfold before_word. rewrite Hb. do 7 rewrite (proj2 (Z.eqb_neq b _)) by done. done.
  - change (token_char (win ++ [92]) 92 (between ws)) with (Go (escaping Bare ws) Here). cbn iota. cbn [window].
    by rewrite (read_byte _ _ _ _ _ _ (escaped_char _ _ _ _)) by (unfold NGX_CONF_BUFFER; cbn [length]; lia).
Qed.

Lemma bare_end ps v e ws rest line : Forall (piece_ok Bare) ps -> ends_word e -> (length (pieces_text ps) < NGX_CONF_BUFFER)%nat ->
  read (inside Bare v ws) (pieces_text ps) (e :: rest) line = after_word e (ws ++ [pieces_value ps]) (pieces_text ps) rest line.
Proof.
  intros Hps He Hw. rewrite read_step, inside_char by done. rewrite <- (copy_pieces ps Bare e Hps).
  generalize (pieces_text ps). intros win. by apply ends_word_bytes in He as [->|[->|[->|[->| ->]]]].
Qed.

Lemma quoted_end q st ps v e ws rest line : st <> Bare -> quote_of st = [q] -> Forall (piece_ok st) ps -> ends_word e ->
  (length (pieces_text ps ++ [q]) < NGX_CONF_BUFFER)%nat ->
  read (inside st v ws) (pieces_text ps) (q :: e :: rest) line =
  after_word e (ws ++ [pieces_value ps]) (pieces_text ps ++ [q]) rest (next_line q line).
Proof.
  intros Hst Hq Hps He Hw. assert (E : token_char (pieces_text ps ++ [q]) q (inside st v ws) = Go (behind_quote (ws ++ [pieces_value ps])) Keep).
  { rewrite inside_char, <- (copy_pieces ps st q Hps). generalize (pieces_text ps). intros win. by destruct st; simplify_eq/=. }
  rewrite (read_byte _ _ _ _ _ _ E), read_step by (rewrite ?length_app in *; cbn in *; lia).
  by apply ends_word_bytes in He as [->|[->|[->|[->| ->]]]].
Qed.

Lemma read_word w ws win e rest line : spelled_ok w -> ends_word e -> (length win < NGX_CONF_BUFFER)%nat ->
  (length (spelled_text w) < NGX_CONF_BUFFER)%nat ->
  exists win', (length win' <= length (spelled_text w))%nat /\
    read (between ws) win (spelled_text w ++ e :: rest) line =
    after_word e (ws ++ [spelled_value w]) win' rest (lines (spelled_text w) line).
Proof.
  destruct w as [st ps]. intros [Hps Hfirst] He Hw Hl. unfold spelled_text, spelled_value in *. cbn [sp_style sp_pieces] in *.
  destruct (decide (st = Bare)) as [->|Hst].
  - specialize (Hfirst eq_refl). destruct ps as [|p ps]; [done|]. cbn [quote_of app] in *. rewrite app_nil_r in *.
    exists (pieces_text (p :: ps)). split; [done|].
    assert (Hcons : pieces_text (p :: ps) = piece_text p ++ pieces_text ps) by done. pose proof Hps as Hps'. apply Forall_cons in Hps' as [Hp Hps'].
    rewrite Hcons, <- app_assoc, bare_first by done.
    destruct (read_pieces ps Bare ws false (piece_text p) (e :: rest) (lines (piece_text p) line) Hps') as [v ->].
    { rewrite Hcons, length_app in Hl. lia. }
    rewrite <- Hcons, bare_end by done. by rewrite Hcons, lines_app.
  - assert (Hq : exists q, quote_of st = [q] /\ token_char (win ++ [q]) q (between ws) = Go (inside st false ws) Behind).
    { destruct st; [done| |]; by eexists. }
    destruct Hq as (q & Hq & E). rewrite Hq in *. rewrite !length_app in Hl |- *. cbn [app length] in Hl |- *.
    exists (pieces_text ps ++ [q]). split; [rewrite length_app; cbn; lia|]. rewrite read_step, E by done. cbn [window].
    rewrite <- app_assoc. destruct (read_pieces ps st ws false [] ([q] ++ e :: rest) (next_line q line) Hps) as [v ->]; [cbn; lia|].
    cbn [app]. rewrite (quoted_end q st) by (try done; rewrite length_app; cbn; lia).
    change (lines (q :: pieces_text ps ++ [q]) line) with (lines (pieces_text ps ++ [q]) (next_line q line)). by rewrite lines_app.
Qed.

(** The byte that ends a directive, and its code. *)
Definition end_byte (block : bool) : Z := if block then "{"%c else ";"%c.
Definition dir_code (block : bool) : Z := if block then NGX_CONF_BLOCK_START else NGX_OK.

Lemma read_entry_spaced w g b l ws win rest line : entry_ok (w, g) -> lead g = b :: l -> (length win < NGX_CONF_BUFFER)%nat ->
  exists win', (length win' < NGX_CONF_BUFFER)%nat /\
    read (between ws) win (spelled_text w ++ gap_text g ++ rest) line =
    read (between (ws ++ [spelled_value w])) win' rest (lines (spelled_text w ++ gap_text g) line).
Proof.
  intros (Hw & (Hb & Hlb & Hc) & Hl) El Hwin. cbn [fst snd] in *. rewrite El in *. apply Forall_cons in Hb as [Hb1 Hb]. cbn [length] in Hl, Hlb.
  destruct g as [gl gc]. cbn [lead comments] in *. subst gl. unfold gap_text at 1. cbn [lead comments app].
  destruct (read_word w ws win b ((l ++ concat (map comment_text gc)) ++ rest) line Hw (or_introl Hb1) Hwin ltac:(lia)) as (win1 & Hwin1 & ->).
  unfold after_word. rewrite (proj2 (Z.eqb_neq b ";"%c)) by (intros ->; done).
  destruct (read_gap (ws ++ [spelled_value w]) (MkGap l gc) (win1 ++ [b]) rest (next_line b (lines (spelled_text w) line))) as (win' & Hwin' & E).
  { split; [done|]. split; [|done]. cbn [lead]. lia. }
  { rewrite length_app. cbn [length lead]. lia. }
  exists win'. split; [done|]. unfold gap_text in E at 1. cbn [lead comments] in E. rewrite E, lines_app. done.
Qed.

Lemma read_head block h : forall ws win rest line, head_ok block h -> (length win < NGX_CONF_BUFFER)%nat ->
  read (between ws) win (head_text h ++ end_byte block :: rest) line =
  (dir_code block, ws ++ head_value h, rest, next_line (end_byte block) (lines (head_text h) line)).
Proof.
  induction h as [|[w g] h IH]; intros ws win rest line Hh Hwin; [done|].
  assert (He : entry_ok (w, g)) by (destruct h; apply Hh). unfold head_text. cbn [map concat fst snd]. fold (head_text h).
  destruct (lead g) as [|b l] eqn:El.
  - destruct h as [|e' h]; [|by destruct Hh as (_ & Hn & _)]. destruct Hh as (_ & Hc). specialize (Hc El) as [Hc ->]. cbn [snd] in Hc.
    destruct g as [gl gc]. cbn [lead comments] in *. subst gl gc. unfold gap_text. cbn [lead comments map concat head_text]. rewrite !app_nil_r.
    destruct He as (Hw & _ & Hl). cbn [fst snd lead length] in Hl.
    destruct (read_word w ws win ";"%c rest line Hw (or_intror eq_refl) Hwin ltac:(lia)) as (win' & _ & E). cbn [end_byte]. rewrite E. done.
  - rewrite <- !app_assoc. destruct (read_entry_spaced w g b l ws win (head_text h ++ end_byte block :: rest) line He El Hwin) as (win' & Hwin' & ->).
    destruct h as [|e' h].
    + cbn [head_text map concat app]. rewrite read_step by done.
      assert (E : token_char (win' ++ [end_byte block]) (end_byte block) (between (ws ++ [spelled_value w])) =
        Stop (dir_code block) (between (ws ++ [spelled_value w]))) by (by destruct block, ws).
      rewrite E, app_nil_r. done.
    + rewrite IH; [|apply Hh|done]. by rewrite <- (app_assoc ws), (app_assoc (spelled_text w)), (lines_app (spelled_text w ++ gap_text g)).
Qed.

End Read.

(** A directive, the end of a block and the end of the file. *)
Lemma read_directive_ok lim block g h rest line : gap_ok g -> head_ok block h ->
  exists line', read_directive lim (gap_text g ++ head_text h ++ end_byte block :: rest) line = (dir_code block, head_value h, rest, line').
Proof.
  intros Hg Hh. destruct (read_gap lim [] g [] (head_text h ++ end_byte block :: rest) line Hg) as (win & Hw & E); [apply Hg|].
  unfold read_directive. change token0 with (between []). rewrite E, (read_head lim block h) by done. by eexists.
Qed.

Lemma read_block_end lim g rest line : gap_ok g ->
  exists line', read_directive lim (gap_text g ++ "}"%c :: rest) line = (NGX_CONF_BLOCK_DONE, [], rest, line').
Proof.
  intros Hg. destruct (read_gap lim [] g [] ("}"%c :: rest) line Hg) as (win & Hw & E); [apply Hg|].
  unfold read_directive. change token0 with (between []). rewrite E, read_step by done. by eexists.
Qed.

Lemma read_file_end lim g line : gap_ok g -> exists line', read_directive lim (gap_text g) line = (NGX_CONF_FILE_DONE, [], [], line').
Proof.
  intros Hg. destruct (read_gap lim [] g [] [] line Hg) as (win & Hw & E); [apply Hg|]. rewrite app_nil_r in E.
  unfold read_directive. change token0 with (between []). rewrite E. by eexists.
Qed.

End ConfText.
