(* ===== verification/NgxConfParse.v ===== *)
(** Configurations: a file is a text of directives with their blocks, and
    ngx_conf_parse runs the modules on its directives, in their order. *)

From S2P Require Import Prelude NgxConfFile NgxConfRead NgxConfText.

#[local] Set Warnings "-register-all".

Module ConfParse.

Import ConfFile ConfRead ConfText.

(** * Directives *)

(** The directives of a file or of a block: the words of each, and its block. *)
Inductive directives := End | Dir (ws : list (list Z)) (block : option directives) (rest : directives).

(** Their texts. *)
Inductive source := SEnd (g : gap) | SDir (g : gap) (h : list (spelled * gap)) (block : option source) (rest : source).

Fixpoint source_text (s : source) : list Z :=
  match s with
  | SEnd g => gap_text g
  | SDir g h None rest => gap_text g ++ head_text h ++ ";"%c :: source_text rest
  | SDir g h (Some block) rest => gap_text g ++ head_text h ++ "{"%c :: source_text block ++ "}"%c :: source_text rest
  end.

Fixpoint source_tree (s : source) : directives :=
  match s with
  | SEnd _ => End
  | SDir _ h None rest => Dir (head_value h) None (source_tree rest)
  | SDir _ h (Some block) rest => Dir (head_value h) (Some (source_tree block)) (source_tree rest)
  end.

Fixpoint source_ok (s : source) : Prop :=
  match s with
  | SEnd g => gap_ok g
  | SDir g h None rest => gap_ok g /\ head_ok false h /\ source_ok rest
  | SDir g h (Some block) rest => gap_ok g /\ head_ok true h /\ source_ok block /\ source_ok rest
  end.

Definition has_block {A} (block : option A) : bool := match block with Some _ => true | None => false end.

Section Parse.
Context {X H : Type} (ngx_modules : list (ngx_module_t (X := X) (H := H))) (custom : H -> ngx_conf_t (X := X) (H := H) -> set_program (X := X) (H := H))
  (open_file : list Z -> option ngx_file_t).

Abbreviation conf := (ngx_conf_t (X := X) (H := H)).
Abbreviation program_of := (directive_program ngx_modules custom).
Abbreviation loop := (conf_loop ngx_modules custom open_file).
Abbreviation parse fuel := (conf_parse open_file (loop fuel)).

(** A file with the text of a source. *)
Definition file_source (fd : ngx_file_t) (s : source) : Prop :=
  holds_bytes fd (source_text s) /\ source_ok s /\ f_closes fd = true.

Definition rv_of (ok : bool) : conf_rv := if ok then NGX_CONF_OK else NGX_CONF_ERROR.

(** What the modules do with directives: [runs] for the directives in their
    order, until one fails; [does] for the program of a directive, with the
    block that it has not yet parsed.  A module that fails to parse its block
    fails. *)
Inductive runs : directives -> conf -> bool -> conf -> Prop :=
  | runs_end cf : runs End cf true (set_args [] cf)
  | runs_dir ws block rest cf p cf1 ok cf2 :
      program_of (set_args ws cf) (dir_code (has_block block)) = Ret (Some p) ->
      does p block NGX_CONF_OK cf1 None -> runs rest cf1 ok cf2 -> runs (Dir ws block rest) cf ok cf2
  | runs_refused ws block rest cf :
      program_of (set_args ws cf) (dir_code (has_block block)) = Ret None ->
      runs (Dir ws block rest) cf false (set_args ws cf)
  | runs_failed ws block rest cf p rv cf1 left :
      program_of (set_args ws cf) (dir_code (has_block block)) = Ret (Some p) ->
      does p block rv cf1 left -> rv <> NGX_CONF_OK -> runs (Dir ws block rest) cf false cf1
with does : set_program -> option directives -> conf_rv -> conf -> option directives -> Prop :=
  | does_done rv cf block : does (SetDone rv cf) block rv cf block
  | does_block ds cf k ok cf1 rv cf2 left :
      runs ds cf ok cf1 -> does (k (rv_of ok) cf1) None rv cf2 left -> (ok = false -> rv <> NGX_CONF_OK) ->
      does (SetParse None cf k) (Some ds) rv cf2 left
  | does_file name fd s cf k ok cf1 block rv cf2 left :
      open_file name = Some fd -> file_source fd s -> runs (source_tree s) cf ok cf1 ->
      does (k (rv_of ok) cf1) block rv cf2 left -> does (SetParse (Some name) cf k) block rv cf2 left
  | does_missing name cf k block rv cf2 left :
      open_file name = None -> does (k NGX_CONF_ERROR cf) block rv cf2 left -> does (SetParse (Some name) cf k) block rv cf2 left.

Scheme runs_mut := Induction for runs Sort Prop with does_mut := Induction for does Sort Prop.
Combined Scheme runs_does_ind from runs_mut, does_mut.

(** * The reader does what the directives say *)

(** What the end of a source is followed by. *)
Definition tail_of (type : parse_type) (tl : list Z) : Prop := match type with ParseFile => tl = [] | ParseBlock => True | ParseParam => False end.
Definition tail_text (type : parse_type) (tl : list Z) : list Z := match type with ParseBlock => "}"%c :: tl | _ => tl end.

Definition at_rest (content : list Z) (fd : option ngx_file_t) (rest : list Z) (f : ngx_conf_file_t) : Prop :=
  file_ok content f /\ file f = fd /\ rest_of content f = rest.

Definition loop_does (ds : directives) (cf : conf) (ok : bool) (cf' : conf) : Prop :=
  forall s type tl content fd f, source_tree s = ds -> source_ok s -> tail_of type tl ->
    at_rest content (Some fd) (source_text s ++ tail_text type tl) f ->
    exists n f', (ok = true -> at_rest content (Some fd) tl f') /\
      forall fuel, (n <= fuel)%nat -> loop fuel type cf f = Ret (ok, cf', f').

Definition program_does (p : set_program) (block : option directives) (rv : conf_rv) (cf : conf) (left : option directives) : Prop :=
  match block with
  | None => left = None /\ forall f, exists n, forall fuel, (n <= fuel)%nat -> run_set (parse fuel) p f = Ret (rv, cf, f)
  | Some ds => forall s tl content fd f, source_tree s = ds -> source_ok s ->
      at_rest content (Some fd) (source_text s ++ "}"%c :: tl) f ->
      exists n f', (left = None -> rv = NGX_CONF_OK -> at_rest content (Some fd) tl f') /\
        forall fuel, (n <= fuel)%nat -> run_set (parse fuel) p f = Ret (rv, cf, f')
  end.

(** A directive of the text is read. *)
Lemma read_source block content fd g h rest f : gap_ok g -> head_ok block h ->
  at_rest content (Some fd) (gap_text g ++ head_text h ++ end_byte block :: rest) f ->
  exists f', ngx_conf_read_token f = Ret (dir_code block, head_value h, f') /\ at_rest content (Some fd) rest f'.
Proof.
  intros Hg Hh (Hf & Hfd & Hr). destruct (read_token_flat content f Hf) as (rc & ws & f' & rest' & l & -> & E & Hok).
  rewrite Hr, Hfd in E. destruct (read_directive_ok true block g h rest (line f) Hg Hh) as [l' E']. rewrite E' in E. simplify_eq.
  exists f'. split; [done|]. destruct Hok as (? & ? & ? & ?); [by destruct block|]. by rewrite Hfd in *.
Qed.

Lemma read_source_end type content fd g tl f : gap_ok g -> tail_of type tl ->
  at_rest content (Some fd) (gap_text g ++ tail_text type tl) f ->
  exists f', ngx_conf_read_token f = Ret (match type with ParseBlock => NGX_CONF_BLOCK_DONE | _ => NGX_CONF_FILE_DONE end, [], f') /\
    at_rest content (Some fd) tl f'.
Proof.
  intros Hg Ht (Hf & Hfd & Hr). destruct (read_token_flat content f Hf) as (rc & ws & f' & rest' & l & -> & E & Hok).
  rewrite Hr, Hfd in E. destruct type; [| |done]; cbn [tail_of tail_text] in *.
  - subst tl. rewrite app_nil_r in E. destruct (read_file_end true g (line f) Hg) as [l' E']. rewrite E' in E. simplify_eq.
    exists f'. split; [done|]. destruct Hok as (? & ? & ? & ?); [done|]. by rewrite Hfd in *.
  - destruct (read_block_end true g tl (line f) Hg) as [l' E']. rewrite E' in E. simplify_eq.
    exists f'. split; [done|]. destruct Hok as (? & ? & ? & ?); [done|]. by rewrite Hfd in *.
Qed.

(** The block of a directive and what follows it. *)
Definition block_text (bs : option source) (rest : list Z) : list Z :=
  match bs with None => rest | Some b => source_text b ++ "}"%c :: rest end.

Definition block_source (block : option directives) (bs : option source) : Prop :=
  match block, bs with None, None => True | Some d, Some b => source_tree b = d /\ source_ok b | _, _ => False end.

Lemma block_text_app bs s t : block_text bs s ++ t = block_text bs (s ++ t).
Proof. destruct bs; [|done]. cbn [block_text]. by rewrite <- app_assoc. Qed.

Lemma program_run p block bs rv cf left rest content fd f : program_does p block rv cf left -> block_source block bs ->
  at_rest content (Some fd) (block_text bs rest) f ->
  exists n f', (left = None -> rv = NGX_CONF_OK -> at_rest content (Some fd) rest f') /\
    forall fuel, (n <= fuel)%nat -> run_set (parse fuel) p f = Ret (rv, cf, f').
Proof.
  destruct block as [ds|], bs as [b|]; try done; cbn [program_does block_source block_text].
  - intros Hp [Hb Hok] Hf. by apply (Hp b rest content fd f).
  - intros [_ Hp] _ Hf. destruct (Hp f) as [n Hn]. exists n, f. by split.
Qed.

Lemma source_dir s ws block ds : source_tree s = Dir ws block ds -> source_ok s ->
  exists g h bs rs, gap_ok g /\ head_ok (has_block block) h /\ head_value h = ws /\ source_tree rs = ds /\ source_ok rs /\
    source_text s = gap_text g ++ head_text h ++ end_byte (has_block block) ::
      block_text bs (source_text rs) /\ block_source block bs.
Proof.
  destruct s as [g|g h [b|] r]; intros E Hok; cbn [source_tree] in E; simplify_eq.
  - destruct Hok as (? & ? & ? & ?). exists g, h, (Some b), r. split_and!; try done.
  - destruct Hok as (? & ? & ?). exists g, h, None, r. by split_and!.
Qed.

(** A round of the loop with a directive. *)
Lemma loop_round fuel type ws block cf f f1 : tail_of type [] \/ type = ParseBlock ->
  ngx_conf_read_token f = Ret (dir_code block, ws, f1) ->
  loop (S fuel) type cf f =
  (let! o := program_of (set_args ws cf) (dir_code block) in
   match o with
   | None => Ret (false, set_args ws cf, f1)
   | Some p =>
     let! (rv, cf, f) := run_set (parse fuel) p f1 in
     match rv with NGX_CONF_OK => loop fuel type cf f | _ => Ret (false, cf, f) end
   end).
Proof. intros Ht E. cbn [conf_loop]. rewrite E. by destruct type, block; destruct Ht. Qed.

Lemma tail_type type tl : tail_of type tl -> tail_of type [] \/ type = ParseBlock.
Proof. destruct type; [by left|by right|done]. Qed.

(** A directive at the front of a source. *)
Lemma loop_dir s ws block rest type tl content fd f cf : source_tree s = Dir ws block rest -> source_ok s -> tail_of type tl ->
  at_rest content (Some fd) (source_text s ++ tail_text type tl) f ->
  exists bs rs f1, source_tree rs = rest /\ source_ok rs /\ block_source block bs /\
    at_rest content (Some fd) (block_text bs (source_text rs ++ tail_text type tl)) f1 /\
    forall fuel, loop (S fuel) type cf f =
      (let! o := program_of (set_args ws cf) (dir_code (has_block block)) in
       match o with
       | None => Ret (false, set_args ws cf, f1)
       | Some p =>
         let! (rv, cf, f) := run_set (parse fuel) p f1 in
         match rv with NGX_CONF_OK => loop fuel type cf f | _ => Ret (false, cf, f) end
       end).
Proof.
  intros Es Hok Ht Hf. destruct (source_dir s ws block rest Es Hok) as (g & h & bs & rs & Hg & Hh & <- & Hrs & Hok' & Etext & Hb).
  rewrite Etext, <- !app_assoc in Hf.
  change ((end_byte (has_block block) :: block_text bs (source_text rs)) ++ tail_text type tl)
    with (end_byte (has_block block) :: (block_text bs (source_text rs) ++ tail_text type tl)) in Hf.
  destruct (read_source _ _ _ _ _ _ _ Hg Hh Hf) as (f1 & E1 & Hf1). rewrite block_text_app in Hf1.
  exists bs, rs, f1. split_and!; try done. intros fuel. apply loop_round; [by apply (tail_type _ tl)|done].
Qed.

Lemma parse_file name fd s cf ok cf1 : open_file name = Some fd -> file_source fd s -> loop_does (source_tree s) cf ok cf1 ->
  exists n, forall fuel f, (n <= fuel)%nat -> parse fuel (Some name) cf f = Ret (rv_of ok, cf1, f).
Proof.
  intros Ho (Hfd & Hok & Hc) Hl.
  destruct (Hl s ParseFile [] (source_text s) fd (MkConfFile (Some fd) 0 [] 0 1) eq_refl Hok eq_refl) as (n & f' & _ & E).
  { rewrite app_nil_r. split; [|done]. split; [|cbn; lia]. split; [done|cbn; lia]. }
  exists n. intros fuel f Hn. cbn [conf_parse]. rewrite Ho, E by done. cbn [outcome_bind]. by rewrite Hc.
Qed.

Lemma file_then n name cf k rv cf1 block rv' cf2 left :
  (forall fuel f, (n <= fuel)%nat -> parse fuel (Some name) cf f = Ret (rv, cf1, f)) ->
  program_does (k rv cf1) block rv' cf2 left -> program_does (SetParse (Some name) cf k) block rv' cf2 left.
Proof.
  intros Hp Hk. destruct block as [ds|]; cbn [program_does] in *.
  - intros s tl content fd f Es Hok Hf. destruct (Hk s tl content fd f Es Hok Hf) as (n' & f' & Hf' & E). exists (n + n')%nat, f'.
    split; [done|]. intros fuel Hn. cbn [run_set]. rewrite Hp by lia. apply E. lia.
  - destruct Hk as [-> Hk]. split; [done|]. intros f. destruct (Hk f) as [n' E]. exists (n + n')%nat. intros fuel Hn.
    cbn [run_set]. rewrite Hp by lia. apply E. lia.
Qed.

Lemma block_then ds cf k ok cf1 rv cf2 left : loop_does ds cf ok cf1 -> program_does (k (rv_of ok) cf1) None rv cf2 left ->
  (ok = false -> rv <> NGX_CONF_OK) -> program_does (SetParse None cf k) (Some ds) rv cf2 left.
Proof.
  intros Hl [-> Hk] Hrv s tl content fd f Es Hok Hf.
  destruct (Hl s ParseBlock tl content fd f Es Hok I Hf) as (n & f1 & Hf1 & E). destruct (Hk f1) as [n' E'].
  exists (n + n')%nat, f1. split.
  - intros _ Hr. apply Hf1. destruct ok; [done|]. by destruct (Hrv eq_refl).
  - intros fuel Hn. cbn [run_set conf_parse]. destruct Hf as (_ & -> & _). rewrite E by lia. cbn [outcome_bind]. apply E'. lia.
Qed.

Lemma runs_does_ok :
  (forall ds cf ok cf', runs ds cf ok cf' -> loop_does ds cf ok cf') /\
  (forall p block rv cf left, does p block rv cf left -> program_does p block rv cf left).
Proof.
  apply runs_does_ind.
  - (* the end *)
    intros cf s type tl content fd f Es Hok Ht Hf. destruct s as [g|g h [b|] r]; try done. cbn [source_text source_ok] in *.
    destruct (read_source_end type content fd g tl f Hok Ht Hf) as (f' & E & Hf'). exists 1%nat, f'. split; [done|].
    intros [|fuel] Hn; [lia|]. cbn [conf_loop]. rewrite E. by destruct type.
  - (* a directive that is done *)
    intros ws block rest cf p cf1 ok cf2 Hp _ IHp _ IHr s type tl content fd f Es Hok Ht Hf.
    destruct (loop_dir s ws block rest type tl content fd f cf Es Hok Ht Hf) as (bs & rs & f1 & Hrs & Hok' & Hb & Hf1 & E).
    destruct (program_run _ _ _ _ _ _ _ _ _ _ IHp Hb Hf1) as (n1 & f2 & Hf2 & E2).
    destruct (IHr rs type tl content fd f2 Hrs Hok' Ht (Hf2 eq_refl eq_refl)) as (n2 & f3 & Hf3 & E3).
    exists (S (n1 + n2)), f3. split; [done|]. intros [|fuel] Hn; [lia|]. rewrite E, Hp. cbn [outcome_bind]. rewrite E2 by lia.
    cbn [outcome_bind]. apply E3. lia.
  - (* a directive that is refused *)
    intros ws block rest cf Hp s type tl content fd f Es Hok Ht Hf.
    destruct (loop_dir s ws block rest type tl content fd f cf Es Hok Ht Hf) as (bs & rs & f1 & Hrs & Hok' & Hb & Hf1 & E).
    exists 1%nat, f1. split; [done|]. intros [|fuel] Hn; [lia|]. by rewrite E, Hp.
  - (* a directive that fails *)
    intros ws block rest cf p rv cf1 left Hp _ IHp Hrv s type tl content fd f Es Hok Ht Hf.
    destruct (loop_dir s ws block rest type tl content fd f cf Es Hok Ht Hf) as (bs & rs & f1 & Hrs & Hok' & Hb & Hf1 & E).
    destruct (program_run _ _ _ _ _ _ _ _ _ _ IHp Hb Hf1) as (n1 & f2 & Hf2 & E2).
    exists (S n1), f2. split; [done|]. intros [|fuel] Hn; [lia|]. rewrite E, Hp. cbn [outcome_bind]. rewrite E2 by lia.
    cbn [outcome_bind]. by destruct rv.
  - (* a program that is done *)
    intros rv cf [ds|]; cbn [program_does].
    + intros s tl content fd f Es Hok Hf. by exists 0%nat, f.
    + split; [done|]. intros f. by exists 0%nat.
  - (* the block of the directive *)
    intros ds cf k ok cf1 rv cf2 left _ Hl _ Hk Hrv. by apply (block_then ds cf k ok cf1).
  - (* another file *)
    intros name fd s cf k ok cf1 block rv cf2 left Ho Hfs _ Hl _ Hk.
    destruct (parse_file name fd s cf ok cf1 Ho Hfs Hl) as [n Hn]. by apply (file_then n name cf k (rv_of ok) cf1).
  - (* a file that does not open *)
    intros name cf k block rv cf2 left Ho _ Hk. apply (file_then 0 name cf k NGX_CONF_ERROR cf); [|done].
    intros fuel f _. cbn [conf_parse]. by rewrite Ho.
Qed.

(** C8: configuration files.  A configuration file whose text is a sequence of
    directives, with words in any spelling, blanks, comments and nested blocks,
    of which no word with the blanks behind it and no comment has 4096 bytes, is
    read through the buffer of 4096 bytes so that the modules are run on exactly
    its directives, in their order, with their blocks and with the files they
    include; the reading ends, with an error if and only if the run of the
    modules has one, and the caller's own file is untouched. *)
Theorem conf_parsed name fd s cf ok cf' :
  open_file name = Some fd -> file_source fd s -> runs (source_tree s) cf ok cf' ->
  exists n, forall fuel f, (n <= fuel)%nat ->
    ngx_conf_parse ngx_modules custom open_file fuel (Some name) cf f = Ret (rv_of ok, cf', f).
Proof. intros Ho Hfs Hr. apply (parse_file name fd s cf ok cf' Ho Hfs). by apply runs_does_ok. Qed.

End Parse.

(** * Writing a configuration *)

(** Every configuration has a text: its words in double quotes. *)
Definition print_byte (b : Z) : piece := if (b =? 34) || (b =? 92) then Esc b else Raw b.

Definition print_word (w : list Z) : spelled :=
  MkSpelled Double (map print_byte w).

Definition print_head (ws : list (list Z)) : list (spelled * gap) := map (fun w => (print_word w, MkGap [32] [])) ws.

Fixpoint print (ds : directives) : source :=
  match ds with
  | End => SEnd (MkGap [10] [])
  | Dir ws None rest => SDir (MkGap [10] []) (print_head ws) None (print rest)
  | Dir ws (Some block) rest => SDir (MkGap [10] []) (print_head ws) (Some (print block)) (print rest)
  end.

Definition word_short (w : list Z) : Prop := (2 * length w + 3 < NGX_CONF_BUFFER)%nat.

Fixpoint printable (ds : directives) : Prop :=
  match ds with
  | End => True
  | Dir ws None rest => ws <> [] /\ Forall word_short ws /\ printable rest
  | Dir ws (Some block) rest => ws <> [] /\ Forall word_short ws /\ printable block /\ printable rest
  end.

Lemma print_word_value w : spelled_value (print_word w) = w.
Proof.
  unfold spelled_value, print_word, pieces_value. cbn [sp_pieces]. induction w as [|b w IH]; [done|]. cbn [map concat]. rewrite IH.
  unfold print_byte. destruct ((b =? 34) || (b =? 92)) eqn:E; [|done]. cbn [piece_value]. unfold esc_value. boolify; by subst.
Qed.

Lemma print_word_ok w : spelled_ok (print_word w).
Proof.
  split; [|done]. cbn [print_word sp_style sp_pieces]. apply Forall_map, Forall_true. intros b. unfold print_byte.
  destruct ((b =? 34) || (b =? 92)) eqn:E; [done|]. boolify. by split.
Qed.

Lemma print_word_length w : (length (spelled_text (print_word w)) <= 2 * length w + 2)%nat.
Proof.
  unfold spelled_text, print_word, pieces_text. cbn [sp_style sp_pieces quote_of]. rewrite !length_app. cbn [length].
  assert (H : forall v : list Z, (length (concat (map piece_text (map print_byte v))) <= 2 * length v)%nat).
  { induction v as [|b v IH]; [cbn; lia|]. cbn [map concat]. rewrite length_app. cbn [length]. unfold print_byte at 1. destruct ((b =? 34) || (b =? 92)); cbn [piece_text length]; lia. }
  specialize (H w). lia.
Qed.

Lemma small_gap b : is_blank b = true -> gap_ok (MkGap [b] []).
Proof. intros Hb. split; [by repeat constructor|]. split; [unfold NGX_CONF_BUFFER; cbn; lia|constructor]. Qed.

Lemma print_head_ok block ws : ws <> [] -> Forall word_short ws -> head_ok block (print_head ws) /\ head_value (print_head ws) = ws.
Proof.
  intros Hne Hs. split.
  - assert (He : forall w, word_short w -> entry_ok (print_word w, MkGap [32] [])).
    { intros w Hw. split; [apply print_word_ok|]. split; [by apply small_gap|]. pose proof (print_word_length w). unfold word_short in Hw.
      cbn [fst snd lead length]. lia. }
    induction Hs as [|w ws Hw Hs IH]; [done|]. destruct ws as [|w' ws]; [split; [by apply He|done]|].
    split; [by apply He|]. split; [done|]. by apply IH.
  - unfold head_value, print_head. rewrite map_map. rewrite <- (map_id ws) at 2. apply map_ext. apply print_word_value.
Qed.

Lemma print_ok : forall ds, printable ds -> source_ok (print ds) /\ source_tree (print ds) = ds.
Proof.
  fix IH 1. intros [|ws [block|] rest] Hp; cbn [print source_ok source_tree printable] in *.
  - split; [by apply small_gap|done].
  - destruct Hp as (Hne & Hs & Hb & Hr). destruct (IH block Hb) as [Hb1 Hb2], (IH rest Hr) as [Hr1 Hr2].
    destruct (print_head_ok true ws Hne Hs) as [Hh ->]. split; [|by rewrite Hb2, Hr2]. split_and!; try done. by apply small_gap.
  - destruct Hp as (Hne & Hs & Hr). destruct (IH rest Hr) as [Hr1 Hr2].
    destruct (print_head_ok false ws Hne Hs) as [Hh ->]. split; [|by rewrite Hr2]. split_and!; try done. by apply small_gap.
Qed.

(** * A configuration *)

(** The modules note the words of a directive and how deep it is. *)
Record notes := MkNotes { depth : nat; noted : list (nat * list (list Z)) }.

Abbreviation note_conf := (ngx_conf_t (X := notes) (H := Empty_set)).

Definition note (deeper : nat -> nat) (cf : note_conf) : note_conf :=
  MkConf (args cf) (ctx cf) (module_type cf) (cf_cmd_type cf) (handler cf)
    (MkNotes (deeper (depth (data cf))) (noted (data cf) ++ [(depth (data cf), args cf)])).

Definition set_depth (d : nat) (cf : note_conf) : note_conf :=
  MkConf (args cf) (ctx cf) (module_type cf) (cf_cmd_type cf) (handler cf) (MkNotes d (noted (data cf))).

Definition set_note (conf : conf_arg) (cf : note_conf) : set_program := SetDone NGX_CONF_OK (note id cf).
Definition set_block (conf : conf_arg) (cf : note_conf) : set_program :=
  SetParse None (note S cf) (fun rv cf' => SetDone rv (set_depth (depth (data cf)) cf')).

Definition note_modules : list (ngx_module_t (X := notes) (H := Empty_set)) :=
  [MkModule 0 0 NGX_CONF_MODULE (ngx_conf_commands $"/etc/" (fun _ => None));
   MkModule 1 0 NGX_CONF_MODULE
     [MkCommand $"set" (Z.lor NGX_ANY_CONF NGX_CONF_1MORE) 0 set_note;
      MkCommand $"block" (Z.lor NGX_ANY_CONF (Z.lor NGX_CONF_BLOCK 1)) 0 set_block]].

Definition no_custom (h : Empty_set) (cf : note_conf) : set_program := SetDone NGX_CONF_ERROR cf.

Definition word (s : list Z) : spelled := MkSpelled Bare (map Raw s).
Definition sp : gap := MkGap [32] [].
Definition no_gap : gap := MkGap [] [].

(** A file that includes another. *)
Definition main_source : source :=
  SDir (MkGap [] [($" comment", [])]) [(word $"set", sp); (MkSpelled Double (map Raw $"a b"), no_gap)] None
    (SDir (MkGap [10] []) [(word $"block", sp)]
      (Some (SDir (MkGap [10; 32] []) [(word $"set", sp); (MkSpelled Single [Raw 120; Esc 39; Raw 59], sp); (MkSpelled Bare [Raw 97; Var; Raw 98; Raw 125], no_gap)] None
        (SDir sp [(word $"include", sp); (word $"x", no_gap)] None (SEnd (MkGap [10] [])))))
    (SEnd (MkGap [10] []))).

Definition included_source : source := print (Dir [$"set"; [34; 92; 10]] None End).

Definition files (name : list Z) : option ngx_file_t :=
  if bool_decide (name = $"nginx.conf") then Some (mem_file (source_text main_source))
  else if bool_decide (name = $"/etc/x") then Some (mem_file (source_text included_source)) else None.

Definition conf0 : note_conf := MkConf [] None NGX_CONF_MODULE NGX_MAIN_CONF None (MkNotes 0 []).

Definition no_file : ngx_conf_file_t := MkConfFile None 0 [] 0 0.

Definition conf1 : note_conf :=
  MkConf [] None NGX_CONF_MODULE NGX_MAIN_CONF None
    (MkNotes 0 [(0%nat, [$"set"; $"a b"]); (0%nat, [$"block"]); (1%nat, [$"set"; $"x';"; $"a${b}"]); (1%nat, [$"set"; [34; 92; 10]])]).

Example conf_reads :
  ngx_conf_parse note_modules no_custom files 9 (Some $"nginx.conf") conf0 no_file = Ret (NGX_CONF_OK, conf1, no_file).
Proof. vm_compute. reflexivity. Qed.

(** The conditions on a source that is given. *)
Ltac source_checks :=
  repeat match goal with
  | |- _ /\ _ => split
  | |- Forall _ _ => constructor
  | |- (_ < NGX_CONF_BUFFER)%nat => apply Nat.ltb_lt; vm_compute; reflexivity
  | |- _ ∉ _ => apply (bool_decide_unpack _); vm_compute; exact I
  | |- _ = false => reflexivity
  | |- _ = true => reflexivity
  | |- _ -> _ => intros ?
  | |- _ => progress (unfold entry_ok, spelled_ok, gap_ok, comment_ok, blanks, raw_ok, first_ok, piece_ok in *; cbn [head_ok fst snd sp_style sp_pieces lead comments map word sp no_gap codes_of] in * )
  | |- _ => done
  end.

Lemma main_ok : file_source (mem_file (source_text main_source)) main_source.
Proof. split; [apply mem_file_holds|]. split; [|done]. cbn [main_source source_ok]. source_checks. Qed.

Lemma included_ok : file_source (mem_file (source_text included_source)) included_source.
Proof. split; [apply mem_file_holds|]. split; [|done]. apply print_ok. cbn [printable]. unfold word_short. by source_checks. Qed.

(** The modules run on the tree of the file. *)
Lemma main_runs : runs note_modules no_custom files (source_tree main_source) conf0 true conf1.
Proof.
  cbn [main_source source_tree head_value map fst]. eapply runs_dir; [vm_compute; reflexivity|constructor|].
  eapply runs_dir; [vm_compute; reflexivity| |].
  - eapply (does_block _ _ _ _ _ _ true); [|constructor|done]. eapply runs_dir; [vm_compute; reflexivity|constructor|].
    eapply runs_dir; [vm_compute; reflexivity| |constructor].
    eapply (does_file _ _ _ _ _ included_source _ _ true); [reflexivity|apply included_ok| |constructor].
    eapply runs_dir; [vm_compute; reflexivity|constructor|constructor].
  - apply runs_end.
Qed.

Lemma conf_parsed_witness :
  exists n, ngx_conf_parse note_modules no_custom files n (Some $"nginx.conf") conf0 no_file = Ret (NGX_CONF_OK, conf1, no_file).
Proof.
  destruct (conf_parsed note_modules no_custom files $"nginx.conf" (mem_file (source_text main_source)) main_source conf0 true conf1
    eq_refl main_ok main_runs) as [n Hn].
  exists n. apply Hn. lia.
Defined.

(** ** The edges of the reader *)

(** A word without quotes that begins with a variable in braces is cut before
    the brace, which begins a block. *)
Example variable_at_start :
  read_directive true $"set ${a};" 1 = (NGX_CONF_BLOCK_START, [$"set"; $"$"], $"a};", 1) /\
  read_directive true $"set x${a};" 1 = (NGX_OK, [$"set"; $"x${a}"], [], 1).
Proof. split; vm_compute; reflexivity. Qed.

(** A line of comment that fills the buffer is refused as a parameter that is
    too long. *)
Example long_comment :
  (read_directive true ("#"%c :: repeat 97 4094 ++ 10 :: $"set x;") 1).1.1.1 = NGX_ERROR /\
  (read_directive true ("#"%c :: repeat 97 4093 ++ 10 :: $"set x;") 1).1.1 = (NGX_OK, [$"set"; $"x"]).
Proof. split; vm_compute; reflexivity. Qed.

End ConfParse.
