(* ===== verification/NgxConfSlots.v ===== *)
(** The directives that store a value: the slot functions at the end of
    core/ngx_conf_file.c.

    A slot function gets the words of the directive and the field of the
    configuration it sets, and gives its result and the new field.  A post
    handler is code of a module: a function of the field. *)

From S2P Require Import Prelude NgxNumber NgxConfFile.

Module ConfSlots.

Import Number ConfFile.

(** core/ngx_string.c; the end of a list is its NUL. *)
Definition strcase_lower (c : Z) : Z := if ("A"%c <=? c) && (c <=? "Z"%c) then Z.lor c 0x20 else c.

Fixpoint ngx_strcasecmp (s1 s2 : list Z) : Z :=
  match s1 with
  | [] => 0 - strcase_lower (hd 0 s2)
  | a :: s1 =>
    let c1 := strcase_lower a in
    let c2 := strcase_lower (hd 0 s2) in
    if c1 =? c2 then (if c1 =? 0 then 0 else ngx_strcasecmp s1 (tl s2)) else c1 - c2
  end.

(** [value[i]]. *)
Definition value (args : list (list Z)) (i : nat) : list Z := nth i args [].

Definition run_post {A} (post : option (A -> conf_rv * A)) (field : A) : conf_rv * A :=
  match post with Some h => h field | None => (NGX_CONF_OK, field) end.

Definition ngx_conf_set_flag_slot (post : option (Z -> conf_rv * Z)) (args : list (list Z)) (field : Z) : conf_rv * Z :=
  if negb (field =? NGX_CONF_UNSET) then (ConfMessage, field)
  else if ngx_strcasecmp (value args 1) $"on" =? 0 then run_post post 1
  else if ngx_strcasecmp (value args 1) $"off" =? 0 then run_post post 0
  else (NGX_CONF_ERROR, field).

(** None is a string with no data. *)
Definition ngx_conf_set_str_slot (post : option (option (list Z) -> conf_rv * option (list Z))) (args : list (list Z)) (field : option (list Z))
    : conf_rv * option (list Z) :=
  match field with Some _ => (ConfMessage, field) | None => run_post post (Some (value args 1)) end.

(** None is NGX_CONF_UNSET_PTR; the post handler gets the new element. *)
Definition ngx_conf_set_str_array_slot (post : option (list Z -> conf_rv * list Z)) (args : list (list Z)) (field : option (list (list Z)))
    : conf_rv * option (list (list Z)) :=
  let '(rv, s) := run_post post (value args 1) in (rv, Some (default [] field ++ [s])).

Definition ngx_conf_set_keyval_slot (post : option (list Z * list Z -> conf_rv * (list Z * list Z))) (args : list (list Z))
    (field : option (list (list Z * list Z))) : conf_rv * option (list (list Z * list Z)) :=
  let '(rv, kv) := run_post post (value args 1, value args 2) in (rv, Some (default [] field ++ [kv])).

Definition ngx_conf_set_num_slot (post : option (Z -> conf_rv * Z)) (args : list (list Z)) (field : Z) : conf_rv * Z :=
  if negb (field =? NGX_CONF_UNSET) then (ConfMessage, field)
  else
    let np := ngx_atoi (value args 1) in
    if np =? NGX_ERROR then (ConfMessage, np) else run_post post np.

Definition ngx_conf_set_size_slot (post : option (Z -> conf_rv * Z)) (args : list (list Z)) (field : Z) : outcome (conf_rv * Z) :=
  if negb (field =? NGX_CONF_UNSET_UINT) then Ret (ConfMessage, field)
  else
    let! size := ngx_parse_size (value args 1) in
    let sp := wrapU 64 size in
    Ret (if sp =? wrapU 64 NGX_ERROR then (ConfMessage, sp) else run_post post sp).

Definition ngx_conf_set_off_slot (post : option (Z -> conf_rv * Z)) (args : list (list Z)) (field : Z) : outcome (conf_rv * Z) :=
  if negb (field =? NGX_CONF_UNSET) then Ret (ConfMessage, field)
  else
    let! op := ngx_parse_offset (value args 1) in
    Ret (if op =? NGX_ERROR then (ConfMessage, op) else run_post post op).

(** A NUL is behind the word. *)
Definition ngx_conf_set_msec_slot (post : option (Z -> conf_rv * Z)) (args : list (list Z)) (field : Z) : outcome (conf_rv * Z) :=
  if negb (field =? NGX_CONF_UNSET_UINT) then Ret (ConfMessage, field)
  else
    let! time := ngx_parse_time 0 (value args 1) false in
    let msp := wrapU 64 time in
    Ret (if msp =? wrapU 64 NGX_ERROR then (ConfMessage, msp) else run_post post msp).

Definition ngx_conf_set_sec_slot (post : option (Z -> conf_rv * Z)) (args : list (list Z)) (field : Z) : outcome (conf_rv * Z) :=
  if negb (field =? NGX_CONF_UNSET) then Ret (ConfMessage, field)
  else
    let! sp := ngx_parse_time 0 (value args 1) true in
    Ret (if sp =? NGX_ERROR then (ConfMessage, sp) else run_post post sp).

(** The number and the size of buffers. *)
Definition ngx_conf_set_bufs_slot (args : list (list Z)) (bufs : Z * Z) : outcome (conf_rv * (Z * Z)) :=
  if negb (bufs.1 =? 0) then Ret (ConfMessage, bufs)
  else
    let num := ngx_atoi (value args 1) in
    if (num =? NGX_ERROR) || (num =? 0) then Ret (ConfMessage, (num, bufs.2))
    else
      let! size := ngx_parse_size (value args 2) in
      let size := wrapU 64 size in
      Ret (if (size =? wrapU 64 NGX_ERROR) || (size =? 0) then (ConfMessage, (num, size)) else (NGX_CONF_OK, (num, size))).

(** A name of an enumeration or of a mask. *)
Definition same_name (name word : list Z) : bool := (length name =? length word)%nat && (ngx_strcasecmp name word =? 0).

Fixpoint find_name (l : list (list Z * Z)) (word : list Z) : option Z :=
  match l with [] => None | (name, v) :: l => if same_name name word then Some v else find_name l word end.

Definition ngx_conf_set_enum_slot (e : list (list Z * Z)) (args : list (list Z)) (np : Z) : conf_rv * Z :=
  if negb (np =? NGX_CONF_UNSET_UINT) then (ConfMessage, np)
  else match find_name e (value args 1) with Some v => (NGX_CONF_OK, v) | None => (NGX_CONF_ERROR, np) end.

Fixpoint bitmask_loop (mask : list (list Z * Z)) (words : list (list Z)) (np : Z) : conf_rv * Z :=
  match words with
  | [] => (NGX_CONF_OK, np)
  | word :: words =>
    match find_name mask word with
    | None => (NGX_CONF_ERROR, np)
    | Some m => bitmask_loop mask words (if negb (Z.land np m =? 0) then np else Z.lor np m)
    end
  end.

Definition ngx_conf_set_bitmask_slot (mask : list (list Z * Z)) (args : list (list Z)) (np : Z) : conf_rv * Z :=
  bitmask_loop mask (tl args) np.

(** Post handlers. *)
Definition ngx_conf_deprecated {A} (field : A) : conf_rv * A := (NGX_CONF_OK, field).

Definition ngx_conf_check_num_bounds (low high : Z) (np : Z) : conf_rv * Z :=
  if high =? -1 then (if low <=? np then NGX_CONF_OK else NGX_CONF_ERROR, np)
  else (if (low <=? np) && (np <=? high) then NGX_CONF_OK else NGX_CONF_ERROR, np).

(** * What the slots store *)

(** Bytes without a NUL are the same but for the case of their letters. *)
Lemma strcasecmp_eq s1 : forall s2, 0 ∉ s1 -> 0 ∉ s2 -> ngx_strcasecmp s1 s2 = 0 <-> map strcase_lower s1 = map strcase_lower s2.
Proof.
  assert (Hz : forall c, strcase_lower c = 0 -> c = 0).
  { intros c. unfold strcase_lower. destruct (("A"%c <=? c) && (c <=? "Z"%c)) eqn:E; [|done]. intros H%Z.lor_eq_0_iff. lia. }
  induction s1 as [|a s1 IH]; intros [|b s2] H1 H2; cbn [ngx_strcasecmp hd tl map]; try done.
  - split; [|done]. intros E. destruct H2. rewrite (Hz b) by lia. by left.
  - change (strcase_lower 0) with 0. assert (Ha : strcase_lower a <> 0) by (intros ->%Hz; apply H1; by left).
    rewrite (proj2 (Z.eqb_neq _ _) Ha). split; [lia|done].
  - apply not_elem_of_cons in H1 as [Ha H1], H2 as [Hb H2]. destruct (Z.eqb_spec (strcase_lower a) (strcase_lower b)) as [E|E].
    + rewrite (proj2 (Z.eqb_neq (strcase_lower a) 0)) by (intros ->%Hz; done). rewrite IH by done. rewrite E. split; [by intros ->|by intros [=]].
    + split; [lia|]. by intros [=].
Qed.

(** A number with bounds is set once, to a number in the bounds. *)
Lemma num_slot_bounded low high args field field' : 0 <= low ->
  ngx_conf_set_num_slot (Some (ngx_conf_check_num_bounds low high)) args field = (NGX_CONF_OK, field') ->
  field = NGX_CONF_UNSET /\ field' = ngx_atoi (value args 1) /\ low <= field' /\ (high <> -1 -> field' <= high) /\
  forall args', ngx_conf_set_num_slot (Some (ngx_conf_check_num_bounds low high)) args' field' = (ConfMessage, field').
Proof.
  intros Hlow. assert (Hdup : forall args' f, f <> NGX_CONF_UNSET ->
    ngx_conf_set_num_slot (Some (ngx_conf_check_num_bounds low high)) args' f = (ConfMessage, f)).
  { intros args' f Hf. unfold ngx_conf_set_num_slot. by rewrite (proj2 (Z.eqb_neq f NGX_CONF_UNSET) Hf). }
  intros E. assert (Hrest : field = NGX_CONF_UNSET /\ field' = ngx_atoi (value args 1) /\ low <= field' /\ (high <> -1 -> field' <= high)).
  { unfold ngx_conf_set_num_slot, run_post, ngx_conf_check_num_bounds in E. repeat case_match; simplify_eq; boolify; split_and!; lia. }
  destruct Hrest as (? & ? & ? & ?). split_and!; try done. intros args'. apply Hdup. unfold NGX_CONF_UNSET. lia.
Qed.

(** A mask of words has the bits that it had and those of the words, when the
    masks of the names are single bits. *)
Lemma bitmask_union mask words : Forall (fun e => exists i, 0 <= i /\ e.2 = 2 ^ i) mask -> forall np rv np',
  bitmask_loop mask words np = (rv, np') -> rv = NGX_CONF_OK ->
  forall i, Z.testbit np' i = Z.testbit np i || existsb (fun w => match find_name mask w with Some m => Z.testbit m i | None => false end) words.
Proof.
  intros Hm. assert (Hf : forall w m, find_name mask w = Some m -> exists i, 0 <= i /\ m = 2 ^ i).
  { induction Hm as [|[n v] mask Hv Hm IH]; [done|]. intros w m. cbn [find_name]. destruct (same_name n w); [by intros [= <-]|apply IH]. }
  induction words as [|w words IH]; intros np rv np' E Hrv i; cbn [bitmask_loop] in E; [simplify_eq; cbn; by rewrite orb_false_r|].
  cbn [existsb]. destruct (find_name mask w) as [m|] eqn:Ew; [|by simplify_eq]. rewrite (IH _ _ _ E Hrv i), orb_assoc. f_equal.
  destruct (Hf w m Ew) as (k & Hk & ->). destruct (Z.land np (2 ^ k) =? 0) eqn:El; cbn [negb]; [by rewrite Z.lor_spec|].
  destruct (Z.eqb_spec i k) as [->|Hne]; [|by rewrite Z.pow2_bits_false, orb_false_r by done].
  rewrite Z.pow2_bits_true by done. rewrite orb_true_r. boolify. destruct (Z.testbit np k) eqn:Ek; [done|]. destruct El.
  apply Z.bits_inj'. intros j Hj. rewrite Z.land_spec, Z.bits_0. destruct (Z.eqb_spec j k) as [->|Hjk]; [by rewrite Ek|].
  by rewrite Z.pow2_bits_false, andb_false_r by congruence.
Qed.

End ConfSlots.
